(* ===== verification/_CoqProject ===== *)
-Q . S2P
Prelude.v
Errors.v
ParcelState.v
ParcelWrite.v
ParcelRead.v
ParcelInv.v
ParcelWriteSpec.v
ParcelReadSpec.v
ParcelData.v
ParcelDataSpec.v
ParcelProps.v
ParcelTyped.v
Stability.v
ThreadState.v
ParcelObject.v
ParcelIpc.v
ParcelObjectSpec.v
ParcelObjectProps.v
ParcelIpcProps.v
ParcelFrame.v
ParcelFormats.v
ParcelItems.v
ParcelFormatsProps.v
ParcelFlattenProps.v
ParcelBlob.v
ParcelBlobProps.v
MemoryDealer.v
MemoryDealerSpec.v
MemoryDealerProps.v
MemoryHeap.v
MemoryHeapProps.v
RpcNodes.v
RpcNodesProps.v
BinderStatus.v
PersistableBundle.v
BundleProps.v
BundleParcel.v
BundleRead.v
ServiceManager.v
ServiceManagerProps.v
ManagerClient.v
LazyServices.v
LazyServicesProps.v
ServiceClient.v
ServiceClientProps.v
Permissions.v
Driver.v
Proxy.v
ProxyProps.v
IpcThread.v
IpcThreadProps.v
IpcWaitProps.v
IpcWitness.v
RpcTransact.v
RpcAsyncProps.v
RpcSafeProps.v
RpcCallProps.v
RpcPool.v
RpcPoolProps.v
RpcPoolWake.v
RpcTransportRaw.v
RpcSetup.v
RpcSetupProps.v
RpcClient.v
RpcClientProps.v
RpcHandshake.v
LocalBinder.v
LocalBinderProps.v
LocalCallProps.v
LocalSafeProps.v
NdkStatus.v
NdkParcel.v
NdkParcelProps.v
NdkDeath.v
NdkDeathProps.v
NdkBinder.v
NdkBinderProps.v
RefBase.v
