(* ===== verification/Prelude.v ===== *)
(** * A verification development of libbinder and its service manager

    The program is the Android binder library with its service manager, as
    carried in openvela.  Processes exchange Parcels: byte buffers that hold
    marshalled values and references to objects (binders, file descriptors),
    sent through the kernel driver or over an RPC session.  The service manager
    is the process that maps names to binders.

    ** Parts, files and their sources

    - Prelude: machine integers with their wrap-around, byte lists, little
      endian words, bounds-checked memory, the effect monad (a normal return, a
      deliberate abort, undefined behaviour) with its weakest preconditions, and
      the tactics all files use.  Errors: the [status_t] codes and early return.
    - The Parcel (src/libs/binder/Parcel.cpp, include/binder/Parcel.h).
      ParcelState: the fields, the allocator and objects outside it, buffer
      growth ([growData], [restartWrite], [continueWrite]) and release.
      ParcelWrite and ParcelRead: the raw, primitive and string writers and
      readers and [validateReadData].  ParcelData: the typed [writeData] and
      [readData] templates.  ParcelObject: [writeObject], [readObject], binders
      and descriptors.  ParcelIpc: received buffers, [appendFrom], comparison,
      and the header of a call.
      ParcelInv, ParcelWriteSpec, ParcelReadSpec, ParcelDataSpec and
      ParcelObjectSpec hold the invariant and the specification of each
      operation; ParcelProps, ParcelTyped, ParcelObjectProps and ParcelIpcProps
      the theorems; ParcelFrame what the operations leave alone.  ParcelFormats:
      native handles, flattenable objects, UTF-8 strings, vector sizes; ParcelBlob:
      blobs and the shared memory under them.  ParcelItems, ParcelFormatsProps,
      ParcelFlattenProps and ParcelBlobProps: the invariants
      of what is laid out in a parcel, and the theorems.
    - PersistableBundle, with BundleProps, BundleParcel and BundleRead
      (PersistableBundle.cpp): the eleven maps of a bundle and
      its format, a parcelable class for the templates.
    - BinderStatus (Status.cpp): the result of a call in its reply parcel.
    - Stability (Stability.cpp): stability levels of binders, and how they are set.
    - ThreadState (IPCThreadState.cpp): work source and strict mode of a thread.
    - Driver (the binder_driver_* protocol as IPCThreadState.cpp speaks it), Proxy
      with ProxyProps (BpBinder.cpp and the handle table of ProcessState.cpp), and
      IpcThread with IpcThreadProps, IpcWaitProps and IpcWitness
      (IPCThreadState.cpp): proxies, their counts and death notifications; the
      command buffers of a thread, [talkWithDriver], [waitForResponse],
      [executeCommand], [transact] and the thread pool loop.
    - LocalBinder, with LocalBinderProps, LocalCallProps and LocalSafeProps
      (Binder.cpp): local objects, their extras shared by threads, the
      calls that reach them and the questions proxies ask.  RefBase (Binder.cpp): the
      hold of a proxy object on its remote.
    - The NDK (src/libs/binder/ndk) over these: NdkStatus (status.cpp); NdkParcel,
      with NdkParcelProps (parcel.cpp), arrays, strings and
      Parcelables through the user's callbacks; NdkDeath, with NdkDeathProps
      (ibinder.cpp), the links of death recipients; NdkBinder, with
      NdkBinderProps (ibinder.cpp), classes, transactions and
      local objects.
    - MemoryDealer, with MemoryDealerSpec and MemoryDealerProps
      (MemoryDealer.cpp): the best-fit allocator of shared memory on its
      intrusive linked list, and its refinement to a list of blocks.
    - MemoryHeap, with MemoryHeapProps (IMemory.cpp): proxies
      of heaps of other processes and the cache that shares their mappings.
    - RpcNodes, with RpcNodesProps (RpcState.cpp, RpcState.h, RpcWireFormat.h and
      the part of RpcSession.cpp they use): the nodes of an RPC session, their
      reference counts, addresses and dec-strong messages.  RpcTransact, with
      RpcAsyncProps, RpcSafeProps and RpcCallProps (RpcState.cpp):
      calls and replies over a connection, the queue of asynchronous calls, and
      the loop that serves a connection.
    - RpcPool, with RpcPoolProps and RpcPoolWake (RpcSession.cpp): the connections
      of a session, taking and releasing them, and the step system of the threads
      that do.  RpcTransportRaw (RpcTransportRaw.cpp, FdTrigger.cpp): the transfer
      loop over a socket.  RpcSetup with RpcSetupProps (RpcServer.cpp) and RpcClient
      with RpcClientProps (RpcSession.cpp): the two ends of setting up a session;
      RpcHandshake composes them.
    - ServiceManager, with ServiceManagerProps (src/cmds/servicemanager):
      the registry, its callbacks and its access control.  ManagerClient: the
      interface its clients see, implemented by the registry beside other processes.
      LazyServices, with LazyServicesProps
      (LazyServiceRegistrar.cpp): processes that exit when nobody needs them.
      ServiceClient, with ServiceClientProps
      (IServiceManager.cpp): looking up, waiting and listening.  Permissions
      (PermissionCache.cpp, PermissionController.cpp).
    Every operation keeps the name of its C++ function and acts on a record with
    the fields of its class.  What a method can touch outside its object (heap,
    descriptor table, reference counts, allocation counters, the thread) is the
    explicit state [World]; pointers of linked structures are addresses in a
    store.  Interfaces are type classes: [Parcelable] with [ParcelableLaws] and
    [TypedParcelables] (the classes the library's users marshal; bundles are one),
    [RpcBinders] (what a Parcel asks of an RPC session, implemented by RpcNodes),
    [Kernel] with [GoodDriver] (the binder driver under a thread), [RpcTransport]
    and [RpcTargets] with [SafeTargets] (the bytes under a session and the objects
    above it), [Socket] with [GoodSocket] (the kernel under a raw transport),
    [Network] (the server as a client sees it), [Hosting] (a local object's class and
    process), [String16Order], [Access], [Platform] and [HalManifest]; [AidlServiceManager],
    implemented by [shared_manager], with [Clock], [Waiting], [ContextObject] and
    [PermissionControllers] under the client library.

    ** What the theorems show

    - The buffer ([writeData_readData_roundtrip] to [object_table_sorted]): every
      marshallable value round trips; reading any bytes whatever is safe
      and total; the object table's sort is right.
    - Bundles ([bundle_round_trip], [bundle_read_ends], [bundle_is_a_map]): the
      format round trips at any nesting, reading any bytes ends with a well-typed
      bundle, and the eleven maps are one map.
    - Objects ([object_references_balance]): references are acquired and released
      exactly once.
    - Formats ([blob_roundtrip] to [flattenable_roundtrip]): blobs and flattenable
      objects come back as they were written, and a failure leaves no descriptor
      open and no memory mapped.
    - The thread and the driver ([commands_reach_driver] to
      [serving_restores_identity]): what a thread queues reaches the driver in
      order and once; waiting follows the driver to its verdict; serving a call
      restores the identity.
    - Proxies ([driver_cookies_never_dangle], [one_proxy_per_handle]): over every
      history of a process, the driver holds no cookie of a freed proxy and a handle
      has one proxy.
    - Local objects ([extras_are_one_record] to [any_transaction_is_handled]): the
      lazily made extras are, under any interleaving of threads, one record of
      attributes; proxies get the right answers; any transaction is handled.
    - The allocator ([allocator_reachable]): reachable states tile the heap.  Heaps
      in other processes ([mapping_outlives_users], [piece_inside_heap]): under any
      interleaving of threads the mapping a proxy points into stays while it lives,
      and a piece of a heap lies inside it.
    - RPC ([rpc_references_agree] to [async_calls_in_order]): the counts of both
      ends agree under any interleaving of messages; whatever a peer sends is
      handled without undefined behaviour and in bounded work; a call reaches its
      object and its answer comes back; asynchronous calls run once each, in the
      order of their numbers.
    - Connections ([connections_are_exclusive], [no_lost_wakeup]): over every
      interleaving of a process's threads a connection has one user and taking one
      never aborts; a sleeping thread waits for calls of others and nothing else.
    - Setting up a session ([any_client_is_handled], [setup_client],
      [session_agreed]): whatever a client sends, the server ends in a consistent
      state; the client has all its connections or is as it was before; and the two
      ends, composed, agree on version and session.
    - Statuses ([status_roundtrip]) come back as they were written; the service
      manager ([service_manager_never_aborts]) aborts in no reachable state.
    - The NDK ([ndk_and_cpp_arrays], [links_end_once]): what it writes the C++ library
      reads, and conversely; every link to a death ends once, under any interleaving.
    - Clients of the service manager, composed with it and with any other processes
      ([lazy_exit_is_clean] to [wait_leaves_no_listener]): a lazy process leaves
      nothing in the registry when it exits and can be found until then; whoever
      waits for a service gets it, and leaves no listener behind.
    - What each operation does is in lemmas of the same files, some of them theorems
      worth reading by themselves: [readInt32_exact], [writeData_appends],
      [interface_token_enforced], [ipcSetDataReference_safe], [allocate_best_fit],
      [allocate_deallocate], [freed_pages_inside], [handle_descriptors_balance], [driver_references_balanced], [raw_transfer_in_order], [native_handle_roundtrip],
      [blob_read_is_backed], [utf8_roundtrip], [continueWrite_grows],
      [readData_typed], [add_then_get], [ndk_and_cpp_strings], [ndk_reads_are_safe], [ndk_status_faithful],
      [unlink_takes_one], [one_class], [transact_owns], [prepare_owns],
      [readObject_exact], [strong_binder_roundtrip], [remote_references_balance], [setRepr_never_raises],
      [work_source_restored], [status_read_total], [death_is_forgotten],
      [synchronous_call], [client_notifications], [listening_undone],
      [get_service_ends], [permission_answered], [cache_is_transparent], [later_connection_joins].
    - [exiting_thread_drops_reference_twice] and the lemmas the manifest's findings
      name: where the code falls short, each on a concrete run.

    Theorems about a call are stated with [wp]: the call returns, from every
    state that satisfies the hypotheses, in a state that satisfies the
    conclusion.  [wpg F] also allows an abort when [F] holds; [wsafe] is [wpg True].
    Undefined behaviour is never allowed.

    ** Fuel

    Recursion is structural wherever the loop runs over a list or a type.  The
    loops over the allocator's linked list carry the number of live chunks plus
    one; the search for a fresh RPC address one more than the number of nodes; the
    searches of the object table its length; the reader of bundles one more than
    the size of the parcel.  The loops of RpcTransact take their fuel from outside,
    and [any_peer_is_safe] shows that one more than the bytes to come and the calls
    queued is enough.  Running out of fuel is undefined behaviour in all of these,
    so a theorem stated with [wp] or [wsafe] also shows that the fuel is enough.
    The destructor of a heap's proxy runs at most one other, so its fuel is two.
    The transfer loop of RpcTransportRaw needs one round more than the message has
    bytes ([raw_transfer_in_order]).
    In IpcThread running out of fuel is an abort, since the thread's loops run for
    as long as the driver has something to say, and so in ServiceClient, whose
    threads wait for other processes ([wait_finds_service] says how long): [waiting_follows_driver] and
    [synchronous_call] state how much fuel a given sequence of answers takes.

    ** What is not modelled

    System calls, TLS, locks (each operation is atomic, as under the mutex the code
    holds; where operations of several threads interleave, the interleaving is a
    step system), logging, and the code generated from AIDL.  Text conversion and
    the order of strings (libutils), SELinux, libvintf and the kernel's answers are
    parameters.
 *)

From Stdlib Require Export ZArith Lia.
From stdpp Require Export base list numbers option tactics gmap.

Declare Scope binder_scope.
Delimit Scope binder_scope with binder.
Open Scope Z_scope.

(** * Machine integers

    A w-bit unsigned integer is a [Z] in [0, 2^w); a signed one a [Z] in
    [-2^(w-1), 2^(w-1)).  The conversions below are the C++ conversions to the
    fixed-width types (modular, two's complement). *)

Abbreviation INT32_MAX := 2147483647.
Abbreviation SIZE_MAX := 18446744073709551615.
Abbreviation UINT32_MAX := 4294967295.

Definition u8 (x : Z) : Z := x mod 256.
Definition u16 (x : Z) : Z := x mod 65536.
Definition u32 (x : Z) : Z := x mod 4294967296.
Definition u64 (x : Z) : Z := x mod 18446744073709551616.
Definition s8 (x : Z) : Z := (x + 128) mod 256 - 128.
Definition s16 (x : Z) : Z := (x + 32768) mod 65536 - 32768.
Definition s32 (x : Z) : Z := (x + 2147483648) mod 4294967296 - 2147483648.
Definition s64 (x : Z) : Z :=
  (x + 9223372036854775808) mod 18446744073709551616 - 9223372036854775808.

Definition is_byte (x : Z) : Prop := 0 <= x < 256.
Definition is_u16 (x : Z) : Prop := 0 <= x < 65536.
Definition is_u32 (x : Z) : Prop := 0 <= x < 4294967296.
Definition is_u64 (x : Z) : Prop := 0 <= x < 18446744073709551616.
Definition is_s8 (x : Z) : Prop := -128 <= x < 128.
Definition is_s32 (x : Z) : Prop := -2147483648 <= x < 2147483648.
Definition is_s64 (x : Z) : Prop :=
  -9223372036854775808 <= x < 9223372036854775808.

Create HintDb binder.
Create Rewrite HintDb binder.
Create Rewrite HintDb zlen.

Lemma u64_small x : 0 <= x < 18446744073709551616 -> u64 x = x.
Proof. apply Z.mod_small. Qed.

Lemma u64_range x : 0 <= u64 x < 18446744073709551616.
Proof. apply Z.mod_pos_bound. lia. Qed.

Lemma u32_small x : 0 <= x < 4294967296 -> u32 x = x.
Proof. apply Z.mod_small. Qed.

Lemma u32_range x : 0 <= u32 x < 4294967296.
Proof. apply Z.mod_pos_bound. lia. Qed.

(** The signed wrap is the identity on the signed range and only depends on
    the residue of its argument. *)
Lemma swrap_small h x : 0 < h -> - h <= x < h -> (x + h) mod (2 * h) - h = x.
Proof. intros. rewrite Z.mod_small by lia. lia. Qed.

Lemma swrap_mod h x :
  0 < h -> (x mod (2 * h) + h) mod (2 * h) - h = (x + h) mod (2 * h) - h.
Proof. intros. by rewrite Zplus_mod_idemp_l. Qed.

Lemma s32_small x : is_s32 x -> s32 x = x.
Proof. intros H. apply (swrap_small 2147483648); unfold is_s32 in H; lia. Qed.

Lemma s64_small x : is_s64 x -> s64 x = x.
Proof.
  intros H. apply (swrap_small 9223372036854775808); unfold is_s64 in H; lia.
Qed.

Lemma s8_small x : is_s8 x -> s8 x = x.
Proof. intros H. apply (swrap_small 128); unfold is_s8 in H; lia. Qed.

Lemma s32_mod x : s32 (x mod 4294967296) = s32 x.
Proof. by apply (swrap_mod 2147483648). Qed.

Lemma s64_mod x : s64 (x mod 18446744073709551616) = s64 x.
Proof. by apply (swrap_mod 9223372036854775808). Qed.

Lemma s32_range x : is_s32 (s32 x).
Proof.
  unfold is_s32, s32. pose proof (Z.mod_pos_bound (x + 2147483648) 4294967296).
  lia.
Qed.

#[export] Hint Rewrite u64_small u32_small s32_small s64_small s8_small
  using (unfold is_s32, is_s64, is_s8 in *; lia) : binder.

(** * Byte strings *)

Abbreviation bytes := (list Z).

Definition zlen {A} (l : list A) : Z := Z.of_nat (length l).
Definition ztake {A} (n : Z) (l : list A) : list A := take (Z.to_nat n) l.
Definition zdrop {A} (n : Z) (l : list A) : list A := drop (Z.to_nat n) l.
Definition zeros (n : Z) : bytes := replicate (Z.to_nat n) 0.

Lemma zlen_nonneg {A} (l : list A) : 0 <= zlen l.
Proof. unfold zlen. lia. Qed.

Lemma zlen_nil {A} : zlen (@nil A) = 0.
Proof. reflexivity. Qed.

Lemma zlen_cons {A} (x : A) l : zlen (x :: l) = 1 + zlen l.
Proof. unfold zlen. simpl. lia. Qed.

Lemma zlen_app {A} (l k : list A) : zlen (l ++ k) = zlen l + zlen k.
Proof. unfold zlen. rewrite length_app. lia. Qed.

Lemma zlen_map {A B} (f : A -> B) (l : list A) : zlen (map f l) = zlen l.
Proof. unfold zlen. by rewrite length_map. Qed.

Lemma zlen_zeros n : 0 <= n -> zlen (zeros n) = n.
Proof. intros. unfold zlen, zeros. rewrite length_replicate. lia. Qed.

Lemma zlen_ztake {A} n (l : list A) : 0 <= n <= zlen l -> zlen (ztake n l) = n.
Proof. unfold zlen, ztake. rewrite length_take. lia. Qed.

Lemma zlen_zdrop {A} n (l : list A) :
  0 <= n <= zlen l -> zlen (zdrop n l) = zlen l - n.
Proof. unfold zlen, zdrop. rewrite length_drop. lia. Qed.

Lemma ztake_zdrop {A} n (l : list A) : ztake n l ++ zdrop n l = l.
Proof. apply take_drop. Qed.

Lemma ztake_app_exact {A} n (l k : list A) : n = zlen l -> ztake n (l ++ k) = l.
Proof. intros ->. unfold ztake, zlen. rewrite Nat2Z.id. apply take_app_length. Qed.

Lemma zdrop_app_exact {A} n (l k : list A) : n = zlen l -> zdrop n (l ++ k) = k.
Proof. intros ->. unfold zdrop, zlen. rewrite Nat2Z.id. apply drop_app_length. Qed.

Lemma ztake_ge {A} n (l : list A) : zlen l <= n -> ztake n l = l.
Proof. unfold ztake, zlen. intros. apply take_ge. lia. Qed.

Lemma zdrop_0 {A} (l : list A) : zdrop 0 l = l.
Proof. reflexivity. Qed.

Lemma zlen_zero {A} (l : list A) : zlen l = 0 -> l = [].
Proof. destruct l; [done|]. rewrite zlen_cons. pose proof (zlen_nonneg l). lia. Qed.

Lemma ztake_ztake {A} n m (l : list A) :
  0 <= n <= m -> ztake n (ztake m l) = ztake n l.
Proof. intros. unfold ztake. rewrite take_take. f_equal. lia. Qed.

Lemma ztake_app_le {A} n (l k : list A) : n <= zlen l -> ztake n (l ++ k) = ztake n l.
Proof. intros. unfold ztake, zlen in *. apply take_app_le. lia. Qed.

Lemma Forall_ztake {A} (P : A -> Prop) n l : Forall P l -> Forall P (ztake n l).
Proof. apply Forall_take. Qed.

Lemma Forall_zdrop {A} (P : A -> Prop) n l : Forall P l -> Forall P (zdrop n l).
Proof. apply Forall_drop. Qed.

Lemma Forall_zeros n : Forall is_byte (zeros n).
Proof. apply Forall_replicate. unfold is_byte. lia. Qed.

#[export] Hint Resolve Forall_zeros Forall_ztake Forall_zdrop : binder.
#[export] Hint Resolve zlen_nonneg : binder.
#[export] Hint Rewrite @zlen_cons @zlen_app @zlen_map : zlen.

(** Normalise lengths. *)
Ltac zl :=
  autorewrite with zlen in *;
  repeat match goal with
  | |- context [zlen (@nil ?A)] => change (zlen (@nil A)) with 0
  | H : context [zlen (@nil ?A)] |- _ => change (zlen (@nil A)) with 0 in H
  end.

(** ** Little-endian encoding *)

Fixpoint le_bytes (n : nat) (v : Z) : bytes :=
  match n with
  | O => []
  | S n' => v mod 256 :: le_bytes n' (v / 256)
  end.

Fixpoint le_val (bs : bytes) : Z :=
  match bs with
  | [] => 0
  | b :: bs' => b + 256 * le_val bs'
  end.

Lemma length_le_bytes n v : length (le_bytes n v) = n.
Proof. revert v. induction n; simpl; auto. Qed.

Lemma zlen_le_bytes n v : zlen (le_bytes n v) = Z.of_nat n.
Proof. unfold zlen. by rewrite length_le_bytes. Qed.

Lemma le_bytes_is_byte n v : Forall is_byte (le_bytes n v).
Proof.
  revert v. induction n; intros v; simpl; constructor; auto.
  unfold is_byte. pose proof (Z.mod_pos_bound v 256). lia.
Qed.

Lemma le_val_le_bytes n v : le_val (le_bytes n v) = v mod 256 ^ Z.of_nat n.
Proof.
  revert v. induction n as [|n IH]; intros v.
  - simpl. by rewrite Z.mod_1_r.
  - cbn [le_bytes le_val]. rewrite IH.
    rewrite Nat2Z.inj_succ, Z.pow_succ_r by lia.
    rewrite Z.rem_mul_r by (try apply Z.pow_pos_nonneg; lia). lia.
Qed.

Lemma le_val_range bs : Forall is_byte bs -> 0 <= le_val bs < 256 ^ zlen bs.
Proof.
  induction 1 as [|b bs Hb _ IH]; [by vm_compute|].
  cbn [le_val]. rewrite zlen_cons, Z.pow_add_r by (try apply zlen_nonneg; lia).
  unfold is_byte in Hb. lia.
Qed.

Lemma le_bytes_le_val bs : Forall is_byte bs -> le_bytes (length bs) (le_val bs) = bs.
Proof.
  induction 1 as [|b bs Hb _ IH]; [done|].
  cbn [length le_bytes le_val]. unfold is_byte in Hb. f_equal.
  - rewrite Z.mul_comm, Z_mod_plus_full, Z.mod_small; lia.
  - rewrite Z.mul_comm, Z.div_add, Z.div_small, Z.add_0_l by lia. exact IH.
Qed.

Lemma le_val_4 v : le_val (le_bytes 4 v) = u32 v.
Proof. by rewrite le_val_le_bytes. Qed.

Lemma le_val_8 v : le_val (le_bytes 8 v) = u64 v.
Proof. by rewrite le_val_le_bytes. Qed.

Lemma le_bytes_mod n v : le_bytes n (v mod 256 ^ Z.of_nat n) = le_bytes n v.
Proof.
  rewrite <- le_val_le_bytes.
  pose proof (le_bytes_le_val _ (le_bytes_is_byte n v)) as H.
  by rewrite length_le_bytes in H.
Qed.

#[export] Hint Resolve le_bytes_is_byte : binder.
#[export] Hint Rewrite zlen_le_bytes : zlen.

(** * Blocks of memory

    A block is the list of its bytes.  An access outside the block is
    undefined behaviour in the source; here it is [None]. *)

Definition mem_read (m : bytes) (off len : Z) : option bytes :=
  if (0 <=? off) && (0 <=? len) && (off + len <=? zlen m)
  then Some (ztake len (zdrop off m)) else None.

Definition mem_write (m : bytes) (off : Z) (bs : bytes) : option bytes :=
  if (0 <=? off) && (off + zlen bs <=? zlen m)
  then Some (ztake off m ++ bs ++ zdrop (off + zlen bs) m) else None.

Lemma mem_read_ok m off len :
  0 <= off -> 0 <= len -> off + len <= zlen m ->
  mem_read m off len = Some (ztake len (zdrop off m)).
Proof.
  intros. unfold mem_read.
  rewrite (proj2 (Z.leb_le 0 off)), (proj2 (Z.leb_le 0 len)),
    (proj2 (Z.leb_le _ (zlen m))) by lia. done.
Qed.

Lemma mem_write_ok m off bs :
  0 <= off -> off + zlen bs <= zlen m ->
  mem_write m off bs = Some (ztake off m ++ bs ++ zdrop (off + zlen bs) m).
Proof.
  intros. unfold mem_write.
  rewrite (proj2 (Z.leb_le 0 off)), (proj2 (Z.leb_le _ (zlen m))) by lia. done.
Qed.

Lemma mem_read_Some m off len bs :
  mem_read m off len = Some bs ->
  0 <= off /\ 0 <= len /\ off + len <= zlen m /\ zlen bs = len.
Proof.
  unfold mem_read. destruct ((0 <=? off) && (0 <=? len) && (off + len <=? zlen m)) eqn:E;
    [|discriminate].
  apply andb_prop in E as [[E1 E2]%andb_prop E3].
  apply Z.leb_le in E1, E2, E3. intros [= <-].
  split_and!; try lia. rewrite zlen_ztake; [done|]. rewrite zlen_zdrop; lia.
Qed.

Lemma mem_write_Some m off bs m' :
  mem_write m off bs = Some m' ->
  0 <= off /\ off + zlen bs <= zlen m /\
  m' = ztake off m ++ bs ++ zdrop (off + zlen bs) m.
Proof.
  unfold mem_write. destruct ((0 <=? off) && (off + zlen bs <=? zlen m)) eqn:E;
    [|discriminate].
  apply andb_prop in E as [E1 E2]. apply Z.leb_le in E1, E2.
  intros [= <-]. done.
Qed.

Lemma mem_write_len m off bs m' : mem_write m off bs = Some m' -> zlen m' = zlen m.
Proof.
  intros (H1 & H2 & ->)%mem_write_Some. pose proof (zlen_nonneg bs).
  rewrite !zlen_app, zlen_ztake, zlen_zdrop by lia. lia.
Qed.

(** A pointwise view of blocks: the byte at an offset. *)
Definition byte_at (m : bytes) (i : Z) : option Z :=
  if 0 <=? i then m !! Z.to_nat i else None.

Lemma byte_at_slice m off len i :
  0 <= off -> 0 <= i < len ->
  byte_at (ztake len (zdrop off m)) i = byte_at m (off + i).
Proof.
  intros. unfold byte_at, ztake, zdrop.
  rewrite (proj2 (Z.leb_le 0 i)), (proj2 (Z.leb_le 0 (off + i))) by lia.
  rewrite lookup_take_lt, lookup_drop by lia. f_equal. lia.
Qed.

Lemma byte_at_write m off bs m' i :
  mem_write m off bs = Some m' ->
  byte_at m' i =
    if (off <=? i) && (i <? off + zlen bs) then byte_at bs (i - off) else byte_at m i.
Proof.
  intros (H1 & H2 & ->)%mem_write_Some. pose proof (zlen_nonneg bs).
  unfold byte_at. destruct (0 <=? i) eqn:Ei; [apply Z.leb_le in Ei|apply Z.leb_gt in Ei].
  2:{ rewrite (proj2 (Z.leb_gt off i)) by lia. done. }
  assert (Hl : length (ztake off m) = Z.to_nat off).
  { unfold ztake. rewrite length_take. unfold zlen in *. lia. }
  destruct (off <=? i) eqn:E1; [apply Z.leb_le in E1|apply Z.leb_gt in E1]; simpl.
  - rewrite lookup_app_r by lia. rewrite (proj2 (Z.leb_le 0 (i - off))) by lia.
    destruct (i <? off + zlen bs) eqn:E2; [apply Z.ltb_lt in E2|apply Z.ltb_ge in E2].
    + rewrite lookup_app_l by (unfold zlen in *; lia). f_equal. lia.
    + rewrite lookup_app_r by (unfold zlen in *; lia). unfold zdrop. rewrite lookup_drop.
      f_equal. unfold zlen in *. lia.
  - rewrite lookup_app_l by lia. unfold ztake. apply lookup_take_lt. lia.
Qed.

(** Reading back what was written, and framing. *)
Lemma mem_read_write_same m off bs m' :
  mem_write m off bs = Some m' -> mem_read m' off (zlen bs) = Some bs.
Proof.
  intros Hw. pose proof (mem_write_len _ _ _ _ Hw) as Hl.
  apply mem_write_Some in Hw as (H1 & H2 & ->). pose proof (zlen_nonneg bs).
  rewrite mem_read_ok by lia. f_equal.
  rewrite zdrop_app_exact by (rewrite zlen_ztake; lia).
  by rewrite ztake_app_exact.
Qed.

Lemma slice_ext m m' off len :
  0 <= off -> 0 <= len ->
  (forall i, off <= i < off + len -> byte_at m' i = byte_at m i) ->
  ztake len (zdrop off m') = ztake len (zdrop off m).
Proof.
  intros H1 H2 H. apply list_eq. intros n.
  destruct (decide (Z.of_nat n < len)) as [Hn|Hn].
  - pose proof (byte_at_slice m off len (Z.of_nat n) H1 ltac:(lia)) as E1.
    pose proof (byte_at_slice m' off len (Z.of_nat n) H1 ltac:(lia)) as E2.
    unfold byte_at in E1, E2 at 1. rewrite Nat2Z.id in E1, E2.
    rewrite (proj2 (Z.leb_le 0 (Z.of_nat n))) in E1, E2 by lia.
    rewrite E1, E2. apply H. lia.
  - unfold ztake. rewrite !lookup_take_ge by lia. done.
Qed.

Lemma mem_read_write_frame m off bs m' off2 len :
  mem_write m off bs = Some m' ->
  (off2 + len <= off \/ off + zlen bs <= off2) ->
  mem_read m' off2 len = mem_read m off2 len.
Proof.
  intros Hw Hd. unfold mem_read. rewrite (mem_write_len _ _ _ _ Hw).
  destruct ((0 <=? off2) && (0 <=? len) && (off2 + len <=? zlen m)) eqn:E; [|done].
  apply andb_prop in E as [[E1 E2]%andb_prop E3]. apply Z.leb_le in E1, E2, E3.
  f_equal. apply slice_ext; [done|done|]. intros i Hi. rewrite (byte_at_write _ _ _ _ _ Hw).
  destruct (off <=? i) eqn:F1; destruct (i <? off + zlen bs) eqn:F2; simpl; try done.
  apply Z.leb_le in F1. apply Z.ltb_lt in F2. lia.
Qed.

(** Updating an entry of a map that is there. *)
Lemma alter_is_insert `{Countable K} {A} (f : A -> A) (m : gmap K A) i x :
  m !! i = Some x -> alter f i m = <[i := f x]> m.
Proof.
  intros Hi. apply map_eq. intros j. destruct (decide (i = j)) as [->|Hne].
  - by rewrite lookup_alter_eq, lookup_insert_eq, Hi.
  - by rewrite lookup_alter_ne, lookup_insert_ne.
Qed.

(** * The effect monad

    [Ret] is a normal return, [Fatal] a deliberate process abort
    ([LOG_ALWAYS_FATAL], [CHECK]), [Fault] undefined behaviour (an access
    outside a block, a null dereference).  [Fault] is what memory-safety
    theorems exclude. *)

Inductive outcome (S A : Type) : Type :=
| Ret (a : A) (s : S)
| Fatal
| Fault.
Arguments Ret {S A} a s.
Arguments Fatal {S A}.
Arguments Fault {S A}.

Definition M (S A : Type) : Type := S -> outcome S A.

Definition ret {S A} (a : A) : M S A := fun s => Ret a s.
Definition bind {S A B} (m : M S A) (k : A -> M S B) : M S B :=
  fun s => match m s with
           | Ret a s' => k a s'
           | Fatal => Fatal
           | Fault => Fault
           end.
Definition fatal {S A} : M S A := fun _ => Fatal.
Definition fault {S A} : M S A := fun _ => Fault.
Definition get {S} : M S S := fun s => Ret s s.
Definition put {S} (s : S) : M S unit := fun _ => Ret tt s.
Definition gets {S A} (f : S -> A) : M S A := fun s => Ret (f s) s.
Definition modify {S} (f : S -> S) : M S unit := fun s => Ret tt (f s).
Definition require {S A} (o : option A) : M S A :=
  match o with Some a => ret a | None => fault end.
Definition fatal_if {S} (b : bool) : M S unit := if b then fatal else ret tt.

Notation "'let*' x := m 'in' k" := (bind m (fun x => k))
  (at level 10, x pattern, m at level 100, k at level 200) : binder_scope.
Notation "m ;; k" := (bind m (fun _ => k))
  (at level 100, k at level 200, right associativity) : binder_scope.
Open Scope binder_scope.

(** Running a component's operation on a part of a larger state. *)
Definition zoom {S T A} (rd : T -> S) (wr : S -> T -> T) (m : M S A) : M T A :=
  fun t => match m (rd t) with
           | Ret a s => Ret a (wr s t)
           | Fatal => Fatal
           | Fault => Fault
           end.

(** ** Weakest preconditions

    [wpg F m s Q]: from [s], [m] returns with [Q], or aborts and [F] holds; it
    never faults.  [wp] is total correctness; [wsafe] allows aborts. *)

Definition wpg {S A} (F : Prop) (m : M S A) (s : S) (Q : A -> S -> Prop) : Prop :=
  match m s with
  | Ret a s' => Q a s'
  | Fatal => F
  | Fault => False
  end.
Abbreviation wp := (wpg False).
Abbreviation wsafe := (wpg True).

Section Wp.
Context {S : Type} (F : Prop).

Lemma wpg_ret {A} (a : A) (s : S) Q : Q a s -> wpg F (ret a) s Q.
Proof. done. Qed.

Lemma wpg_bind {A B} (m : M S A) (k : A -> M S B) s Q :
  wpg F m s (fun a s' => wpg F (k a) s' Q) -> wpg F (bind m k) s Q.
Proof. unfold wpg, bind. by destruct (m s). Qed.

Lemma wpg_bind_inv {A B} (m : M S A) (k : A -> M S B) s Q :
  wpg F (bind m k) s Q -> wpg F m s (fun a s' => wpg F (k a) s' Q).
Proof. unfold wpg, bind. by destruct (m s). Qed.

Lemma wpg_mono {A} (m : M S A) s (P Q : A -> S -> Prop) :
  wpg F m s P -> (forall a s', P a s' -> Q a s') -> wpg F m s Q.
Proof. unfold wpg. destruct (m s); auto. Qed.

Lemma wpg_gets {A} (f : S -> A) s Q : Q (f s) s -> wpg F (gets f) s Q.
Proof. done. Qed.

Lemma wpg_get (s : S) Q : Q s s -> wpg F get s Q.
Proof. done. Qed.

Lemma wpg_put (s s' : S) Q : Q tt s' -> wpg F (put s') s Q.
Proof. done. Qed.

Lemma wpg_modify f (s : S) Q : Q tt (f s) -> wpg F (modify f) s Q.
Proof. done. Qed.

Lemma wpg_require {A} (o : option A) a (s : S) Q :
  o = Some a -> Q a s -> wpg F (require o) s Q.
Proof. by intros ->. Qed.

Lemma wpg_and {A} (m : M S A) s (P Q : A -> S -> Prop) :
  wpg F m s P -> wpg F m s Q -> wpg F m s (fun a s' => P a s' /\ Q a s').
Proof. unfold wpg. by destruct (m s). Qed.

Lemma wpg_ret_inv {A} (m : M S A) s Q a s' :
  wpg F m s Q -> m s = Ret a s' -> Q a s'.
Proof. unfold wpg. intros H E. by rewrite E in H. Qed.
End Wp.

Lemma wp_wpg {S A} F (m : M S A) s Q : wp m s Q -> wpg F m s Q.
Proof. unfold wpg. by destruct (m s). Qed.

Lemma wp_run {S A} (m : M S A) s Q :
  wp m s Q <-> exists a s', m s = Ret a s' /\ Q a s'.
Proof.
  unfold wpg. destruct (m s); split; try done.
  - eauto.
  - intros (b & s' & [= -> ->] & H). done.
  - by intros (b & s' & ? & H).
  - by intros (b & s' & ? & H).
Qed.

Lemma wpg_zoom {S T A} F (rd : T -> S) (wr : S -> T -> T) (m : M S A) t Q :
  wpg F m (rd t) (fun a s => Q a (wr s t)) -> wpg F (zoom rd wr m) t Q.
Proof. unfold wpg, zoom. by destruct (m (rd t)). Qed.

(** Runs that return. *)
Lemma bind_ret_inv {S A B} (m : M S A) (k : A -> M S B) s b s' :
  bind m k s = Ret b s' -> exists a s1, m s = Ret a s1 /\ k a s1 = Ret b s'.
Proof. unfold bind. destruct (m s) as [a s1| |]; eauto; done. Qed.

Lemma ret_inj {S A} (a b : A) (s t : S) : Ret a s = Ret b t -> a = b /\ s = t.
Proof. by intros [= -> ->]. Qed.

(** One symbolic step of a monadic program. *)
Ltac wp_step :=
  lazymatch goal with
  | |- wpg _ (bind _ _) _ _ => apply wpg_bind
  | |- wpg _ (ret _) _ _ => apply wpg_ret
  | |- wpg _ (gets _) _ _ => apply wpg_gets
  | |- wpg _ get _ _ => apply wpg_get
  | |- wpg _ (put _) _ _ => apply wpg_put
  | |- wpg _ (modify _) _ _ => apply wpg_modify
  | |- wpg _ (require (Some _)) _ _ => apply wpg_ret
  | |- wpg _ (fatal_if false) _ _ => apply wpg_ret
  end; cbn beta.
Ltac wp_steps := repeat wp_step.

(** Use a specification already proved for the first call. *)
Tactic Notation "wp_use" uconstr(lem) :=
  eapply wpg_mono; [eapply lem|cbv beta].

(** Reflect the boolean tests of the source. *)
Ltac zb :=
  repeat match goal with
  | H : (_ && _)%bool = true |- _ => apply andb_prop in H as [? ?]
  | H : (_ || _)%bool = false |- _ => apply orb_false_elim in H as [? ?]
  | H : (_ <=? _) = true |- _ => apply Z.leb_le in H
  | H : (_ <=? _) = false |- _ => apply Z.leb_gt in H
  | H : (_ <? _) = true |- _ => apply Z.ltb_lt in H
  | H : (_ <? _) = false |- _ => apply Z.ltb_ge in H
  | H : (_ =? _) = true |- _ => apply Z.eqb_eq in H
  | H : (_ =? _) = false |- _ => apply Z.eqb_neq in H
  end.

(** Decide a boolean comparison in the goal by arithmetic. *)
Ltac zdec b :=
  first [ replace b with true by (symmetry; first
            [apply Z.leb_le; lia | apply Z.ltb_lt; lia | apply Z.eqb_eq; lia])
        | replace b with false by (symmetry; first
            [apply Z.leb_gt; lia | apply Z.ltb_ge; lia | apply Z.eqb_neq; lia]) ].
Ltac zcase b := let E := fresh "E" in destruct b eqn:E; zb.
