(* ===== verification/Errors.v ===== *)
(** Status codes of libbinder.

    [status_t] is a 32-bit integer; the named codes are those the NDK header
    src/libs/binder/ndk/include_ndk/android/binder_status.h lists (the
    platform's names without the [STATUS_] prefix), with the Linux errno
    values. *)

From S2P Require Import Prelude.

Abbreviation status_t := Z (only parsing).

Definition OK : status_t := 0.
Definition NO_ERROR : status_t := 0.
Definition UNKNOWN_ERROR : status_t := -2147483648.
Definition NO_MEMORY : status_t := -12.
Definition INVALID_OPERATION : status_t := -38.
Definition BAD_VALUE : status_t := -22.
Definition BAD_TYPE : status_t := UNKNOWN_ERROR + 1.
Definition NAME_NOT_FOUND : status_t := -2.
Definition PERMISSION_DENIED : status_t := -1.
Definition NO_INIT : status_t := -19.
Definition ALREADY_EXISTS : status_t := -17.
Definition DEAD_OBJECT : status_t := -32.
Definition FAILED_TRANSACTION : status_t := UNKNOWN_ERROR + 2.
Definition BAD_INDEX : status_t := -75.
Definition NOT_ENOUGH_DATA : status_t := -61.
Definition WOULD_BLOCK : status_t := -11.
Definition TIMED_OUT : status_t := -110.
Definition UNKNOWN_TRANSACTION : status_t := -74.
Definition FDS_NOT_ALLOWED : status_t := UNKNOWN_ERROR + 7.
Definition UNEXPECTED_NULL : status_t := UNKNOWN_ERROR + 8.

(** The result of a call that writes its out parameter only when it
    returns [OK]. *)
Inductive res (A : Type) : Type :=
| Good (a : A)
| Err (st : status_t).
Arguments Good {A} a.
Arguments Err {A} st.

Definition res_status {A} (r : res A) : status_t :=
  match r with Good _ => OK | Err st => st end.

(** [if (status_t status = m; status != OK) return status; k]. *)
Definition check_ok {S} (m : M S status_t) (k : M S status_t) : M S status_t :=
  let* st := m in if st =? OK then k else ret st.
Notation "m ;;? k" := (check_ok m k)
  (at level 100, k at level 200, right associativity) : binder_scope.

(** The same early return in a function with an out parameter. *)
Definition bind_res {S A B} (m : M S (res A)) (k : A -> M S (res B)) : M S (res B) :=
  let* r := m in match r with Good a => k a | Err st => ret (Err st) end.
Notation "'let?' x := m 'in' k" := (bind_res m (fun x => k))
  (at level 10, x pattern, m at level 100, k at level 200) : binder_scope.

(** Dropping the out value of a function that returns a status and always
    writes its out parameter. *)
Definition res_of {A} (p : status_t * A) : res A :=
  if fst p =? OK then Good (snd p) else Err (fst p).

Section Rules.
Context {S : Type} (F : Prop).

Lemma wpg_check_ok (m k : M S status_t) s Q :
  wpg F m s (fun st s' => (st = OK -> wpg F k s' Q) /\ (st <> OK -> Q st s')) ->
  wpg F (check_ok m k) s Q.
Proof.
  intros H. unfold check_ok. apply wpg_bind. eapply wpg_mono; [exact H|].
  intros st s' [H1 H2]. cbv beta. destruct (Z.eqb_spec st OK); [auto|].
  apply wpg_ret. auto.
Qed.

Lemma wpg_bind_res {A B} (m : M S (res A)) (k : A -> M S (res B)) s Q :
  wpg F m s (fun r s' => match r with Good a => wpg F (k a) s' Q
                                    | Err st => Q (Err st) s' end) ->
  wpg F (bind_res m k) s Q.
Proof.
  intros H. unfold bind_res. apply wpg_bind. eapply wpg_mono; [exact H|].
  intros [a|st] s' H'; [done|]. by apply wpg_ret.
Qed.
End Rules.
