(* ===== verification/ParcelState.v ===== *)
(** The state of a Parcel and the buffer management of src/libs/binder/Parcel.cpp.

    [Parcel] has the fields of the class (include/binder/Parcel.h); [World] is
    what a Parcel method can touch outside its own object: the allocator, the
    global allocation counters, reference counts, the descriptor table and the
    calling thread.  This file translates construction, destruction and the
    (re)allocation paths: [initState], [freeData], [growData], [restartWrite],
    [continueWrite] and what they call. *)

From S2P Require Import Prelude Errors.

(** * Data *)

(** The owner callbacks ([Parcel::release_func]) installed by
    [ipcSetDataReference]: [IPCThreadState::freeBuffer] for kernel buffers, with
    the address of the buffer it will be given, and the two of RpcState.cpp. *)
Inductive release_func :=
| freeBuffer (data : Z)
| cleanup_reply_data
| do_nothing_to_transact_data.

(** The per-thread state that the RPC headers read and write
    (IPCThreadState.cpp). *)
Record ThreadState := mkThreadState {
  mStrictModePolicy : Z;
  mWorkSource : Z;
  mPropagateWorkSource : bool;
  mLastTransactionBinderFlags : Z;
  mBackgroundSchedulingDisabled : bool;
}.

(** A binder object as far as the Parcel code looks at it. *)
Inductive binder_kind :=
| LocalBinder                          (* a BBinder of this process *)
| KernelProxy (handle : Z)             (* a BpBinder on a driver handle *)
| RpcProxy (session address : Z).      (* a BpBinder on an RPC session *)

Record IBinder := mkIBinder {
  b_kind : binder_kind;
  b_stability : Z;
  b_minSchedulerPolicy : Z;
  b_minSchedulerPriority : Z;
  b_requestingSid : bool;
  b_inheritRt : bool;
  b_parceled : bool;
  b_weakRefs : Z;
}.

(** [mData] is the block [mData] points to ([None] for the null pointer),
    [mObjects] the array of object offsets ([[]] for null), of length
    [mObjectsCapacity]. *)
Record Parcel := mkParcel {
  mError : status_t;
  mData : option bytes;
  mDataSize : Z;
  mDataCapacity : Z;
  mDataPos : Z;
  mObjects : list Z;
  mObjectsSize : Z;
  mObjectsCapacity : Z;
  mNextObjectHint : Z;
  mObjectsSorted : bool;
  mRequestHeaderPresent : bool;
  mWorkSourceRequestHeaderPosition : Z;
  mFdsKnown : bool;
  mHasFds : bool;
  mAllowFds : bool;
  mDeallocZero : bool;
  mOwner : option release_func;
  mSession : option Z;
}.

Definition set_mError (x : status_t) (p : Parcel) : Parcel :=
  mkParcel
    x (mData p) (mDataSize p) (mDataCapacity p) (mDataPos p) (mObjects p)
    (mObjectsSize p) (mObjectsCapacity p) (mNextObjectHint p)
    (mObjectsSorted p) (mRequestHeaderPresent p)
    (mWorkSourceRequestHeaderPosition p) (mFdsKnown p) (mHasFds p)
    (mAllowFds p) (mDeallocZero p) (mOwner p) (mSession p).
Definition set_mData (x : option bytes) (p : Parcel) : Parcel :=
  mkParcel
    (mError p) x (mDataSize p) (mDataCapacity p) (mDataPos p) (mObjects p)
    (mObjectsSize p) (mObjectsCapacity p) (mNextObjectHint p)
    (mObjectsSorted p) (mRequestHeaderPresent p)
    (mWorkSourceRequestHeaderPosition p) (mFdsKnown p) (mHasFds p)
    (mAllowFds p) (mDeallocZero p) (mOwner p) (mSession p).
Definition set_mDataSize (x : Z) (p : Parcel) : Parcel :=
  mkParcel
    (mError p) (mData p) x (mDataCapacity p) (mDataPos p) (mObjects p)
    (mObjectsSize p) (mObjectsCapacity p) (mNextObjectHint p)
    (mObjectsSorted p) (mRequestHeaderPresent p)
    (mWorkSourceRequestHeaderPosition p) (mFdsKnown p) (mHasFds p)
    (mAllowFds p) (mDeallocZero p) (mOwner p) (mSession p).
Definition set_mDataCapacity (x : Z) (p : Parcel) : Parcel :=
  mkParcel
    (mError p) (mData p) (mDataSize p) x (mDataPos p) (mObjects p)
    (mObjectsSize p) (mObjectsCapacity p) (mNextObjectHint p)
    (mObjectsSorted p) (mRequestHeaderPresent p)
    (mWorkSourceRequestHeaderPosition p) (mFdsKnown p) (mHasFds p)
    (mAllowFds p) (mDeallocZero p) (mOwner p) (mSession p).
Definition set_mDataPos (x : Z) (p : Parcel) : Parcel :=
  mkParcel
    (mError p) (mData p) (mDataSize p) (mDataCapacity p) x (mObjects p)
    (mObjectsSize p) (mObjectsCapacity p) (mNextObjectHint p)
    (mObjectsSorted p) (mRequestHeaderPresent p)
    (mWorkSourceRequestHeaderPosition p) (mFdsKnown p) (mHasFds p)
    (mAllowFds p) (mDeallocZero p) (mOwner p) (mSession p).
Definition set_mObjects (x : list Z) (p : Parcel) : Parcel :=
  mkParcel
    (mError p) (mData p) (mDataSize p) (mDataCapacity p) (mDataPos p) x
    (mObjectsSize p) (mObjectsCapacity p) (mNextObjectHint p)
    (mObjectsSorted p) (mRequestHeaderPresent p)
    (mWorkSourceRequestHeaderPosition p) (mFdsKnown p) (mHasFds p)
    (mAllowFds p) (mDeallocZero p) (mOwner p) (mSession p).
Definition set_mObjectsSize (x : Z) (p : Parcel) : Parcel :=
  mkParcel
    (mError p) (mData p) (mDataSize p) (mDataCapacity p) (mDataPos p)
    (mObjects p) x (mObjectsCapacity p) (mNextObjectHint p)
    (mObjectsSorted p) (mRequestHeaderPresent p)
    (mWorkSourceRequestHeaderPosition p) (mFdsKnown p) (mHasFds p)
    (mAllowFds p) (mDeallocZero p) (mOwner p) (mSession p).
Definition set_mObjectsCapacity (x : Z) (p : Parcel) : Parcel :=
  mkParcel
    (mError p) (mData p) (mDataSize p) (mDataCapacity p) (mDataPos p)
    (mObjects p) (mObjectsSize p) x (mNextObjectHint p) (mObjectsSorted p)
    (mRequestHeaderPresent p) (mWorkSourceRequestHeaderPosition p)
    (mFdsKnown p) (mHasFds p) (mAllowFds p) (mDeallocZero p) (mOwner p)
    (mSession p).
Definition set_mNextObjectHint (x : Z) (p : Parcel) : Parcel :=
  mkParcel
    (mError p) (mData p) (mDataSize p) (mDataCapacity p) (mDataPos p)
    (mObjects p) (mObjectsSize p) (mObjectsCapacity p) x (mObjectsSorted
    p) (mRequestHeaderPresent p) (mWorkSourceRequestHeaderPosition p)
    (mFdsKnown p) (mHasFds p) (mAllowFds p) (mDeallocZero p) (mOwner p)
    (mSession p).
Definition set_mObjectsSorted (x : bool) (p : Parcel) : Parcel :=
  mkParcel
    (mError p) (mData p) (mDataSize p) (mDataCapacity p) (mDataPos p)
    (mObjects p) (mObjectsSize p) (mObjectsCapacity p) (mNextObjectHint p)
    x (mRequestHeaderPresent p) (mWorkSourceRequestHeaderPosition p)
    (mFdsKnown p) (mHasFds p) (mAllowFds p) (mDeallocZero p) (mOwner p)
    (mSession p).
Definition set_mRequestHeaderPresent (x : bool) (p : Parcel) : Parcel :=
  mkParcel
    (mError p) (mData p) (mDataSize p) (mDataCapacity p) (mDataPos p)
    (mObjects p) (mObjectsSize p) (mObjectsCapacity p) (mNextObjectHint p)
    (mObjectsSorted p) x (mWorkSourceRequestHeaderPosition p) (mFdsKnown
    p) (mHasFds p) (mAllowFds p) (mDeallocZero p) (mOwner p) (mSession p).
Definition set_mWorkSourceRequestHeaderPosition (x : Z) (p : Parcel) : Parcel :=
  mkParcel
    (mError p) (mData p) (mDataSize p) (mDataCapacity p) (mDataPos p)
    (mObjects p) (mObjectsSize p) (mObjectsCapacity p) (mNextObjectHint p)
    (mObjectsSorted p) (mRequestHeaderPresent p) x (mFdsKnown p) (mHasFds
    p) (mAllowFds p) (mDeallocZero p) (mOwner p) (mSession p).
Definition set_mFdsKnown (x : bool) (p : Parcel) : Parcel :=
  mkParcel
    (mError p) (mData p) (mDataSize p) (mDataCapacity p) (mDataPos p)
    (mObjects p) (mObjectsSize p) (mObjectsCapacity p) (mNextObjectHint p)
    (mObjectsSorted p) (mRequestHeaderPresent p)
    (mWorkSourceRequestHeaderPosition p) x (mHasFds p) (mAllowFds p)
    (mDeallocZero p) (mOwner p) (mSession p).
Definition set_mHasFds (x : bool) (p : Parcel) : Parcel :=
  mkParcel
    (mError p) (mData p) (mDataSize p) (mDataCapacity p) (mDataPos p)
    (mObjects p) (mObjectsSize p) (mObjectsCapacity p) (mNextObjectHint p)
    (mObjectsSorted p) (mRequestHeaderPresent p)
    (mWorkSourceRequestHeaderPosition p) (mFdsKnown p) x (mAllowFds p)
    (mDeallocZero p) (mOwner p) (mSession p).
Definition set_mAllowFds (x : bool) (p : Parcel) : Parcel :=
  mkParcel
    (mError p) (mData p) (mDataSize p) (mDataCapacity p) (mDataPos p)
    (mObjects p) (mObjectsSize p) (mObjectsCapacity p) (mNextObjectHint p)
    (mObjectsSorted p) (mRequestHeaderPresent p)
    (mWorkSourceRequestHeaderPosition p) (mFdsKnown p) (mHasFds p) x
    (mDeallocZero p) (mOwner p) (mSession p).
Definition set_mDeallocZero (x : bool) (p : Parcel) : Parcel :=
  mkParcel
    (mError p) (mData p) (mDataSize p) (mDataCapacity p) (mDataPos p)
    (mObjects p) (mObjectsSize p) (mObjectsCapacity p) (mNextObjectHint p)
    (mObjectsSorted p) (mRequestHeaderPresent p)
    (mWorkSourceRequestHeaderPosition p) (mFdsKnown p) (mHasFds p)
    (mAllowFds p) x (mOwner p) (mSession p).
Definition set_mOwner (x : option release_func) (p : Parcel) : Parcel :=
  mkParcel
    (mError p) (mData p) (mDataSize p) (mDataCapacity p) (mDataPos p)
    (mObjects p) (mObjectsSize p) (mObjectsCapacity p) (mNextObjectHint p)
    (mObjectsSorted p) (mRequestHeaderPresent p)
    (mWorkSourceRequestHeaderPosition p) (mFdsKnown p) (mHasFds p)
    (mAllowFds p) (mDeallocZero p) x (mSession p).
Definition set_mSession (x : option Z) (p : Parcel) : Parcel :=
  mkParcel
    (mError p) (mData p) (mDataSize p) (mDataCapacity p) (mDataPos p)
    (mObjects p) (mObjectsSize p) (mObjectsCapacity p) (mNextObjectHint p)
    (mObjectsSorted p) (mRequestHeaderPresent p)
    (mWorkSourceRequestHeaderPosition p) (mFdsKnown p) (mHasFds p)
    (mAllowFds p) (mDeallocZero p) (mOwner p) x.

(** The bookkeeping of an RPC session (RpcState.h): a node for each binder sent
    or received, by wire address.  [binder] is the address of the IBinder; the
    queue of asynchronous transactions holds their target and raw data. *)
Record AsyncTodo := mkAsyncTodo {
  todo_ref : Z;
  todo_data : bytes;
  todo_asyncNumber : Z;
}.

Record BinderNode := mkBinderNode {
  binder : Z;
  sentRef : option Z;
  timesSent : Z;
  timesRecd : Z;
  asyncNumber : Z;
  asyncTodo : list AsyncTodo;
}.

(** [server] tells whether the session belongs to an RpcServer; [rpc_sent] logs
    the messages written to its transport, [rpc_obituaries] the proxies told of
    its end. *)
Record RpcState := mkRpcState {
  mTerminated : bool;
  mNextId : Z;
  mNodeForAddress : gmap Z BinderNode;
  server : bool;
  rpc_sent : list bytes;
  rpc_obituaries : list Z;
}.

(** [w_heap k] is the outcome of the [k]-th allocation of the process: [None]
    for a null pointer, otherwise the (arbitrary) contents of the fresh block;
    [w_mallocs] counts the allocations made; [w_freed] logs the contents of the
    blocks at the time they are freed; [w_rlimit] is the answer of
    [getrlimit(RLIMIT_NOFILE)].  [w_strong] is the strong count
    taken on each object through [incStrong]; [w_proxy] is
    [ProcessState::getStrongProxyForHandle]; [w_fds] is the descriptor table
    (descriptor to open file); [w_released] logs the owner callbacks run;
    [w_binders] holds the binder objects by address, [w_rpc] the state of each
    RPC session, [mIBinderSet] the local binders ProcessState has recorded as
    sent. *)
Record World := mkWorld {
  w_heap : nat -> option (nat -> Z);
  w_mallocs : nat;
  w_freed : list bytes;
  gParcelGlobalAllocSize : Z;
  gParcelGlobalAllocCount : Z;
  gMaxFds : Z;
  w_rlimit : option Z;
  w_strong : gmap Z Z;
  w_proxy : Z -> option Z;
  w_fds : gmap Z Z;
  w_released : list release_func;
  w_binders : gmap Z IBinder;
  w_thread : ThreadState;
  w_rpc : gmap Z RpcState;
  mIBinderSet : gset Z;
}.

Definition set_w_heap (x : nat -> option (nat -> Z)) (w : World) : World :=
  mkWorld
    x (w_mallocs w) (w_freed w) (gParcelGlobalAllocSize w)
    (gParcelGlobalAllocCount w) (gMaxFds w) (w_rlimit w) (w_strong w)
    (w_proxy w) (w_fds w) (w_released w) (w_binders w) (w_thread w) (w_rpc
    w) (mIBinderSet w).
Definition set_w_mallocs (x : nat) (w : World) : World :=
  mkWorld
    (w_heap w) x (w_freed w) (gParcelGlobalAllocSize w)
    (gParcelGlobalAllocCount w) (gMaxFds w) (w_rlimit w) (w_strong w)
    (w_proxy w) (w_fds w) (w_released w) (w_binders w) (w_thread w) (w_rpc
    w) (mIBinderSet w).
Definition set_w_freed (x : list bytes) (w : World) : World :=
  mkWorld
    (w_heap w) (w_mallocs w) x (gParcelGlobalAllocSize w)
    (gParcelGlobalAllocCount w) (gMaxFds w) (w_rlimit w) (w_strong w)
    (w_proxy w) (w_fds w) (w_released w) (w_binders w) (w_thread w) (w_rpc
    w) (mIBinderSet w).
Definition set_gParcelGlobalAllocSize (x : Z) (w : World) : World :=
  mkWorld
    (w_heap w) (w_mallocs w) (w_freed w) x (gParcelGlobalAllocCount w)
    (gMaxFds w) (w_rlimit w) (w_strong w) (w_proxy w) (w_fds w) (w_released
    w) (w_binders w) (w_thread w) (w_rpc w) (mIBinderSet w).
Definition set_gParcelGlobalAllocCount (x : Z) (w : World) : World :=
  mkWorld
    (w_heap w) (w_mallocs w) (w_freed w) (gParcelGlobalAllocSize w) x
    (gMaxFds w) (w_rlimit w) (w_strong w) (w_proxy w) (w_fds w) (w_released
    w) (w_binders w) (w_thread w) (w_rpc w) (mIBinderSet w).
Definition set_gMaxFds (x : Z) (w : World) : World :=
  mkWorld
    (w_heap w) (w_mallocs w) (w_freed w) (gParcelGlobalAllocSize w)
    (gParcelGlobalAllocCount w) x (w_rlimit w) (w_strong w) (w_proxy w)
    (w_fds w) (w_released w) (w_binders w) (w_thread w) (w_rpc w)
    (mIBinderSet w).
Definition set_w_rlimit (x : option Z) (w : World) : World :=
  mkWorld
    (w_heap w) (w_mallocs w) (w_freed w) (gParcelGlobalAllocSize w)
    (gParcelGlobalAllocCount w) (gMaxFds w) x (w_strong w) (w_proxy w)
    (w_fds w) (w_released w) (w_binders w) (w_thread w) (w_rpc w)
    (mIBinderSet w).
Definition set_w_strong (x : gmap Z Z) (w : World) : World :=
  mkWorld
    (w_heap w) (w_mallocs w) (w_freed w) (gParcelGlobalAllocSize w)
    (gParcelGlobalAllocCount w) (gMaxFds w) (w_rlimit w) x (w_proxy w)
    (w_fds w) (w_released w) (w_binders w) (w_thread w) (w_rpc w)
    (mIBinderSet w).
Definition set_w_proxy (x : Z -> option Z) (w : World) : World :=
  mkWorld
    (w_heap w) (w_mallocs w) (w_freed w) (gParcelGlobalAllocSize w)
    (gParcelGlobalAllocCount w) (gMaxFds w) (w_rlimit w) (w_strong w) x
    (w_fds w) (w_released w) (w_binders w) (w_thread w) (w_rpc w)
    (mIBinderSet w).
Definition set_w_fds (x : gmap Z Z) (w : World) : World :=
  mkWorld
    (w_heap w) (w_mallocs w) (w_freed w) (gParcelGlobalAllocSize w)
    (gParcelGlobalAllocCount w) (gMaxFds w) (w_rlimit w) (w_strong w)
    (w_proxy w) x (w_released w) (w_binders w) (w_thread w) (w_rpc w)
    (mIBinderSet w).
Definition set_w_released (x : list release_func) (w : World) : World :=
  mkWorld
    (w_heap w) (w_mallocs w) (w_freed w) (gParcelGlobalAllocSize w)
    (gParcelGlobalAllocCount w) (gMaxFds w) (w_rlimit w) (w_strong w)
    (w_proxy w) (w_fds w) x (w_binders w) (w_thread w) (w_rpc w)
    (mIBinderSet w).
Definition set_w_binders (x : gmap Z IBinder) (w : World) : World :=
  mkWorld
    (w_heap w) (w_mallocs w) (w_freed w) (gParcelGlobalAllocSize w)
    (gParcelGlobalAllocCount w) (gMaxFds w) (w_rlimit w) (w_strong w)
    (w_proxy w) (w_fds w) (w_released w) x (w_thread w) (w_rpc w)
    (mIBinderSet w).
Definition set_w_thread (x : ThreadState) (w : World) : World :=
  mkWorld
    (w_heap w) (w_mallocs w) (w_freed w) (gParcelGlobalAllocSize w)
    (gParcelGlobalAllocCount w) (gMaxFds w) (w_rlimit w) (w_strong w)
    (w_proxy w) (w_fds w) (w_released w) (w_binders w) x (w_rpc w)
    (mIBinderSet w).
Definition set_w_rpc (x : gmap Z RpcState) (w : World) : World :=
  mkWorld
    (w_heap w) (w_mallocs w) (w_freed w) (gParcelGlobalAllocSize w)
    (gParcelGlobalAllocCount w) (gMaxFds w) (w_rlimit w) (w_strong w)
    (w_proxy w) (w_fds w) (w_released w) (w_binders w) (w_thread w) x
    (mIBinderSet w).
Definition set_mIBinderSet (x : gset Z) (w : World) : World :=
  mkWorld
    (w_heap w) (w_mallocs w) (w_freed w) (gParcelGlobalAllocSize w)
    (gParcelGlobalAllocCount w) (gMaxFds w) (w_rlimit w) (w_strong w)
    (w_proxy w) (w_fds w) (w_released w) (w_binders w) (w_thread w) (w_rpc
    w) x.

Record PS := mkPS { this : Parcel; world : World }.

Abbreviation modp f := (modify (fun s => mkPS (f (this s)) (world s))).
Abbreviation modw f := (modify (fun s => mkPS (this s) (f (world s)))).
Abbreviation getp f := (gets (fun s => f (this s))).
Abbreviation getw f := (gets (fun s => f (world s))).

(** * What the code uses of the platform *)

(** One allocation of the process: [Some] contents, or [None] for null. *)
Definition alloc {A} (mk : (nat -> Z) -> A) : M PS (option A) :=
  let* w := gets world in
  modw (fun w => set_w_mallocs (S (w_mallocs w)) w) ;;
  ret (mk <$> w_heap w (w_mallocs w)).

(** The block of [n] bytes with arbitrary contents [junk]. *)
Definition junk_block (n : Z) (junk : nat -> Z) : bytes :=
  map (fun i => u8 (junk i)) (seq 0 (Z.to_nat n)).

(** [realloc]: the old contents are kept up to the smaller size. *)
Definition resized (old : bytes) (n : Z) (junk : nat -> Z) : bytes :=
  ztake n (old ++ junk_block (n - zlen old) junk).

Definition malloc (n : Z) : M PS (option bytes) := alloc (junk_block n).
Definition realloc (old : option bytes) (n : Z) : M PS (option bytes) :=
  alloc (resized (default [] old) n).

(** Arrays of [binder_size_t]. *)
Definition junk_offsets (n : Z) (junk : nat -> Z) : list Z :=
  map (fun i => u64 (junk i)) (seq 0 (Z.to_nat n)).
Definition realloc_objects (old : list Z) (n : Z) : M PS (option (list Z)) :=
  alloc (fun junk => ztake n (old ++ junk_offsets (n - zlen old) junk)).
Definition calloc_objects (n : Z) : M PS (option (list Z)) :=
  alloc (fun _ => zeros n).

(** [RefBase::incStrong] and [decStrong]. *)
Definition strong_count (w : World) (addr : Z) : Z := default 0 (w_strong w !! addr).
Definition add_strong (d addr : Z) (w : World) : World :=
  set_w_strong (<[addr := strong_count w addr + d]> (w_strong w)) w.
Definition incStrong (addr : Z) : M PS unit := modw (add_strong 1 addr).
Definition decStrong (addr : Z) : M PS unit := modw (add_strong (-1) addr).

(** [close(fd)]: closing a descriptor that is not open is an ignored error. *)
Definition close (fd : Z) : M PS unit :=
  modw (fun w => set_w_fds (delete fd (w_fds w)) w).

Definition EBADF : Z := 9.
Definition EMFILE : Z := 24.

(** [fcntl(fd, F_DUPFD_CLOEXEC, 0)]: the lowest free descriptor, or [-errno]. *)
Fixpoint lowest_free (fds : gmap Z Z) (fuel : nat) (fd : Z) : Z :=
  match fuel with
  | O => fd
  | S fuel' => match fds !! fd with
               | None => fd
               | Some _ => lowest_free fds fuel' (fd + 1)
               end
  end.
Definition dup_fd (fd : Z) : M PS Z :=
  let* w := gets world in
  match w_fds w !! fd with
  | None => ret (- EBADF)
  | Some file =>
      let n := lowest_free (w_fds w) (size (w_fds w)) 0 in
      if gMaxFds w <=? n then ret (- EMFILE) else
      modw (fun w => set_w_fds (<[n := file]> (w_fds w)) w) ;;
      ret n
  end.

(** * Binder objects in a buffer *)

(** [struct flat_binder_object] and its constants come from the kernel's
    <linux/android/binder.h>: [hdr.type], [flags], the union of [binder]
    (64 bits) and [handle] (its low 32 bits), [cookie]; 24 bytes. *)
Record flat_binder_object := mkFlat {
  f_type : Z;
  f_flags : Z;
  f_binder : Z;
  f_cookie : Z;
}.

Definition BINDER_TYPE_BINDER : Z := 0x73622a85.
Definition BINDER_TYPE_HANDLE : Z := 0x73682a85.
Definition BINDER_TYPE_FD : Z := 0x66642a85.

Abbreviation sizeof_flat := 24.

Definition f_handle (o : flat_binder_object) : Z := u32 (f_binder o).

Definition flat_bytes (o : flat_binder_object) : bytes :=
  le_bytes 4 (f_type o) ++ le_bytes 4 (f_flags o) ++
  le_bytes 8 (f_binder o) ++ le_bytes 8 (f_cookie o).

Definition flat_of_bytes (bs : bytes) : flat_binder_object :=
  mkFlat (le_val (ztake 4 bs)) (le_val (ztake 4 (zdrop 4 bs)))
         (le_val (ztake 8 (zdrop 8 bs))) (le_val (zdrop 16 bs)).

(** The bytes of [mData] ([[]] for null). *)
Definition data_block (p : Parcel) : bytes := default [] (mData p).

(** Reading memory through [mData]. *)
Definition load (off len : Z) : M PS bytes :=
  let* d := getp data_block in require (mem_read d off len).

(** Writing memory through [mData] ([memcpy]). *)
Definition store (off : Z) (bs : bytes) : M PS unit :=
  let* d := getp data_block in
  let* d' := require (mem_write d off bs) in
  modp (fun p => set_mData (match mData p with None => None | Some _ => Some d' end) p).

Definition load_flat (off : Z) : M PS flat_binder_object :=
  let* bs := load off sizeof_flat in ret (flat_of_bytes bs).

(** The first [n] entries of [mObjects]; reading past the array is a fault. *)
Definition objects_upto (n : Z) : M PS (list Z) :=
  let* objs := getp mObjects in
  if n <=? zlen objs then ret (ztake n objs) else fault.

Fixpoint for_each {S A} (l : list A) (f : A -> M S unit) : M S unit :=
  match l with
  | [] => ret tt
  | a :: l' => f a ;; for_each l' f
  end.

Definition acquire_object (obj : flat_binder_object) : M PS unit :=
  if f_type obj =? BINDER_TYPE_BINDER then
    if f_binder obj =? 0 then ret tt else incStrong (f_cookie obj)
  else if f_type obj =? BINDER_TYPE_HANDLE then
    let* proxy := getw w_proxy in
    match proxy (f_handle obj) with
    | Some b => incStrong b
    | None => ret tt
    end
  else ret tt.

Definition release_object (obj : flat_binder_object) : M PS unit :=
  if f_type obj =? BINDER_TYPE_BINDER then
    if f_binder obj =? 0 then ret tt else decStrong (f_cookie obj)
  else if f_type obj =? BINDER_TYPE_HANDLE then
    let* proxy := getw w_proxy in
    match proxy (f_handle obj) with
    | Some b => decStrong b
    | None => ret tt
    end
  else if f_type obj =? BINDER_TYPE_FD then
    if f_cookie obj =? 0 then ret tt else close (s32 (f_handle obj))
  else ret tt.

Definition releaseObjects : M PS unit :=
  let* n := getp mObjectsSize in
  let* objs := objects_upto n in
  for_each (rev objs) (fun off => let* flat := load_flat off in release_object flat).

Definition acquireObjects : M PS unit :=
  let* n := getp mObjectsSize in
  let* objs := objects_upto n in
  for_each (rev objs) (fun off => let* flat := load_flat off in acquire_object flat).

Definition closeFileDescriptors : M PS unit :=
  let* n := getp mObjectsSize in
  let* objs := objects_upto n in
  for_each (rev objs) (fun off =>
    let* flat := load_flat off in
    if f_type flat =? BINDER_TYPE_FD then close (s32 (f_handle flat)) else ret tt).

(** * Construction and destruction *)

(** [mOwner(this, mData, mDataSize, mObjects, mObjectsSize)]. *)
Definition call_owner (r : release_func) : M PS unit :=
  let* p := gets this in
  (match r with
   | freeBuffer _ => closeFileDescriptors
   | cleanup_reply_data =>
       fatal_if (negb (zlen (mObjects p) =? 0)) ;;
       fatal_if (negb (mObjectsSize p =? 0))
   | do_nothing_to_transact_data => ret tt
   end) ;;
  modw (fun w => set_w_released (r :: w_released w) w).

Definition free_block (b : bytes) : M PS unit :=
  modw (fun w => set_w_freed (b :: w_freed w) w).

Definition add_alloc_size (d : Z) : M PS unit :=
  modw (fun w => set_gParcelGlobalAllocSize (u64 (gParcelGlobalAllocSize w + d)) w).
Definition add_alloc_count (d : Z) : M PS unit :=
  modw (fun w => set_gParcelGlobalAllocCount (u64 (gParcelGlobalAllocCount w + d)) w).

(** The state [initState] gives every field. *)
Definition init_parcel : Parcel :=
  {| mError := NO_ERROR; mData := None; mDataSize := 0; mDataCapacity := 0;
     mDataPos := 0; mObjects := []; mObjectsSize := 0; mObjectsCapacity := 0;
     mNextObjectHint := 0; mObjectsSorted := false;
     mRequestHeaderPresent := false; mWorkSourceRequestHeaderPosition := 0;
     mFdsKnown := true; mHasFds := false; mAllowFds := true;
     mDeallocZero := false; mOwner := None; mSession := None |}.

Definition initState : M PS unit :=
  modp (fun _ => init_parcel) ;;
  let* max := getw gMaxFds in
  if max =? 0 then
    modw (fun w => set_gMaxFds (default 1024 (w_rlimit w)) w)
  else ret tt.

(** [memset(data, 0, size)] on a block. *)
Definition zeroMemory (b : bytes) (size : Z) : M PS bytes :=
  require (mem_write b 0 (zeros size)).

Definition freeDataNoInit : M PS unit :=
  let* owner := getp mOwner in
  match owner with
  | Some r => call_owner r
  | None =>
      releaseObjects ;;
      let* p := gets this in
      match mData p with
      | None => ret tt
      | Some d =>
          add_alloc_size (- mDataCapacity p) ;;
          add_alloc_count (-1) ;;
          let* d' := (if mDeallocZero p then zeroMemory d (mDataSize p) else ret d) in
          free_block d'
      end
  end.

Definition freeData : M PS unit := freeDataNoInit ;; initState.

(** * Growing and restarting the buffer *)

Definition reallocZeroFree (data : option bytes) (oldCapacity newCapacity : Z)
    (zero : bool) : M PS (option bytes) :=
  if negb zero then realloc data newCapacity else
  let* newData := malloc newCapacity in
  match newData with
  | None => ret None
  | Some nd =>
      let d := default [] data in
      let* src := require (mem_read d 0 (Z.min oldCapacity newCapacity)) in
      let* nd' := require (mem_write nd 0 src) in
      let* z := zeroMemory d oldCapacity in
      free_block z ;;
      ret (Some nd')
  end.

(** The prefix of the objects that stays when the data shrinks to [desired]:
    trailing entries at or past the new end are dropped. *)
Fixpoint drop_objects_from (desired : Z) (robjs : list Z) : list Z :=
  match robjs with
  | [] => []
  | o :: robjs' => if o <? desired then robjs else drop_objects_from desired robjs'
  end.

Definition kept_objects (p : Parcel) (desired : Z) : Z :=
  if desired <? mDataSize p then
    if desired =? 0 then 0
    else zlen (drop_objects_from desired (rev (ztake (mObjectsSize p) (mObjects p))))
  else mObjectsSize p.

(** [continueWrite], the branch for data owned by someone else. *)
Definition continueWrite_owner (r : release_func) (objectsSize desired : Z) : M PS status_t :=
  if desired =? 0 then freeData ;; ret NO_ERROR else
  let* data := malloc desired in
  match data with
  | None => modp (set_mError NO_MEMORY) ;; ret NO_MEMORY
  | Some d =>
      let* objects := (if objectsSize =? 0 then ret (Some [])
                       else calloc_objects objectsSize) in
      match objects with
      | None => free_block d ;; modp (set_mError NO_MEMORY) ;; ret NO_MEMORY
      | Some _ =>
          (if objectsSize =? 0 then ret tt else
             let* oldObjectsSize := getp mObjectsSize in
             modp (set_mObjectsSize objectsSize) ;;
             acquireObjects ;;
             modp (set_mObjectsSize oldObjectsSize)) ;;
          let* p := gets this in
          let* d' := match mData p with
                     | None => ret d
                     | Some old =>
                         let* src := require (mem_read old 0
                                       (if mDataSize p <? desired then mDataSize p else desired)) in
                         require (mem_write d 0 src)
                     end in
          let* objects' := objects_upto objectsSize in
          call_owner r ;;
          modp (set_mOwner None) ;;
          add_alloc_size desired ;;
          add_alloc_count 1 ;;
          modp (fun p => set_mObjectsSorted false (set_mNextObjectHint 0
                 (set_mObjectsCapacity objectsSize (set_mObjectsSize objectsSize
                 (set_mDataCapacity desired
                 (set_mDataSize (if mDataSize p <? desired then mDataSize p else desired)
                 (set_mObjects objects' (set_mData (Some d') p)))))))) ;;
          ret NO_ERROR
      end
  end.

(** Releasing the references on the objects that are dropped. *)
Definition drop_objects (objectsSize : Z) : M PS unit :=
  let* n := getp mObjectsSize in
  let* objs := objects_upto n in
  for_each (zdrop objectsSize objs) (fun off =>
    let* flat := load_flat off in
    (if f_type flat =? BINDER_TYPE_FD then modp (set_mFdsKnown false) else ret tt) ;;
    release_object flat) ;;
  (if objectsSize =? 0 then
     modp (fun p => set_mObjectsCapacity 0 (set_mObjects [] p))
   else
     let* cur := getp mObjects in
     let* objects := realloc_objects cur objectsSize in
     match objects with
     | Some o => modp (fun p => set_mObjectsCapacity objectsSize (set_mObjects o p))
     | None => ret tt
     end) ;;
  modp (fun p => set_mObjectsSorted false (set_mNextObjectHint 0
                   (set_mObjectsSize objectsSize p))).

(** [continueWrite], the branch for data we own. *)
Definition continueWrite_owned (d : bytes) (objectsSize desired : Z) : M PS status_t :=
  let* n := getp mObjectsSize in
  (if objectsSize <? n then drop_objects objectsSize else ret tt) ;;
  let* p := gets this in
  if mDataCapacity p <? desired then
    let* data := reallocZeroFree (mData p) (mDataCapacity p) desired (mDeallocZero p) in
    match data with
    | Some nd =>
        add_alloc_size desired ;;
        add_alloc_size (- mDataCapacity p) ;;
        modp (fun p => set_mDataCapacity desired (set_mData (Some nd) p)) ;;
        ret NO_ERROR
    | None => modp (set_mError NO_MEMORY) ;; ret NO_MEMORY
    end
  else
    modp (fun p => if desired <? mDataSize p then set_mDataSize desired p else p) ;;
    modp (fun p => if desired <? mDataPos p then set_mDataPos desired p else p) ;;
    ret NO_ERROR.

(** [continueWrite], the first data of the parcel. *)
Definition continueWrite_first (desired : Z) : M PS status_t :=
  let* data := malloc desired in
  match data with
  | None => modp (set_mError NO_MEMORY) ;; ret NO_MEMORY
  | Some d =>
      add_alloc_size desired ;;
      add_alloc_count 1 ;;
      modp (fun p => set_mDataCapacity desired (set_mDataPos 0 (set_mDataSize 0
                       (set_mData (Some d) p)))) ;;
      ret NO_ERROR
  end.

Definition continueWrite (desired : Z) : M PS status_t :=
  if INT32_MAX <? desired then ret BAD_VALUE else
  let* p := gets this in
  let objectsSize := kept_objects p desired in
  match mOwner p with
  | Some r => continueWrite_owner r objectsSize desired
  | None =>
      match mData p with
      | Some d => continueWrite_owned d objectsSize desired
      | None => continueWrite_first desired
      end
  end.

Definition growData (len : Z) : M PS status_t :=
  if INT32_MAX <? len then ret BAD_VALUE else
  let* size := getp mDataSize in
  if SIZE_MAX - size <? len then ret NO_MEMORY else
  if SIZE_MAX / 3 <? size + len then ret NO_MEMORY else
  let newSize := u64 ((size + len) * 3) / 2 in
  if newSize <=? size then ret NO_MEMORY
  else continueWrite (Z.max newSize 128).

(** [mData] after its block was given to [realloc] or [free]: the pointer value
    is unchanged, but every access through it is undefined behaviour.  A block
    of length 0 has exactly that effect. *)
Definition dangling (d : option bytes) : option bytes :=
  match d with None => None | Some _ => Some [] end.

(** Whether [reallocZeroFree] released the old block: always when it returns a
    new one, and also when plain [realloc(p, 0)] returns null. *)
Definition old_block_freed (data : option bytes) (desired : Z) (zero : bool) : bool :=
  match data with
  | Some _ => true
  | None => negb zero && (desired =? 0)
  end.

Definition restartWrite (desired : Z) : M PS status_t :=
  if INT32_MAX <? desired then ret BAD_VALUE else
  let* p := gets this in
  match mOwner p with
  | Some _ => freeData ;; continueWrite desired
  | None =>
      let* data := reallocZeroFree (mData p) (mDataCapacity p) desired (mDeallocZero p) in
      (if old_block_freed data desired (mDeallocZero p)
       then modp (fun p => set_mData (dangling (mData p)) p) else ret tt) ;;
      if (match data with None => true | Some _ => false end)
         && (mDataCapacity p <? desired) then
        modp (set_mError NO_MEMORY) ;; ret NO_MEMORY
      else
      releaseObjects ;;
      (if (match data with None => false | Some _ => true end) || (desired =? 0) then
         (if desired <? mDataCapacity p
          then add_alloc_size (- (mDataCapacity p - desired))
          else add_alloc_size (desired - mDataCapacity p)) ;;
         (match mData p with None => add_alloc_count 1 | Some _ => ret tt end) ;;
         modp (fun p => set_mDataCapacity desired (set_mData data p))
       else ret tt) ;;
      modp (fun p => set_mAllowFds true (set_mFdsKnown true (set_mHasFds false
             (set_mObjectsSorted false (set_mNextObjectHint 0
             (set_mObjectsCapacity 0 (set_mObjectsSize 0 (set_mObjects []
             (set_mDataPos 0 (set_mDataSize 0 p)))))))))) ;;
      ret NO_ERROR
  end.
