(* ===== verification/ParcelWrite.v ===== *)
(** Writing to a Parcel: src/libs/binder/Parcel.cpp, the write half.

    Raw and padded writes, the fixed-width primitives, strings, binder-object
    records and the position/size accessors. *)

From S2P Require Import Prelude Errors ParcelState.

(** * Sizes and positions *)

Definition PAD_SIZE_UNSAFE (s : Z) : Z := Z.land (u64 (s + 3)) (SIZE_MAX - 3).

Definition pad_size {S} (s : Z) : M S Z :=
  if SIZE_MAX - 3 <? s then fatal else ret (PAD_SIZE_UNSAFE s).

Definition dataSize (p : Parcel) : Z :=
  if mDataPos p <? mDataSize p then mDataSize p else mDataPos p.

Definition dataPosition (p : Parcel) : Z := mDataPos p.
Definition dataCapacity (p : Parcel) : Z := mDataCapacity p.

Definition dataAvail : M PS Z :=
  let* p := gets this in
  let result := u64 (dataSize p - dataPosition p) in
  if INT32_MAX <? result then fatal else ret result.

Definition setDataSize (size : Z) : M PS status_t :=
  if INT32_MAX <? size then ret BAD_VALUE else
  let* err := continueWrite size in
  if err =? NO_ERROR then modp (set_mDataSize size) ;; ret err else ret err.

Definition setDataPosition (pos : Z) : M PS unit :=
  if INT32_MAX <? pos then fatal else
  modp (fun p => set_mObjectsSorted false (set_mNextObjectHint 0 (set_mDataPos pos p))).

Definition setDataCapacity (size : Z) : M PS status_t :=
  if INT32_MAX <? size then ret BAD_VALUE else
  let* cap := getp mDataCapacity in
  if cap <? size then continueWrite size else ret NO_ERROR.

Definition setData (buffer : bytes) (len : Z) : M PS status_t :=
  if INT32_MAX <? len then ret BAD_VALUE else
  let* err := restartWrite len in
  if err =? NO_ERROR then
    let* src := require (mem_read buffer 0 len) in
    store 0 src ;;
    modp (fun p => set_mFdsKnown false (set_mDataSize len p)) ;;
    ret err
  else ret err.

(** * Raw writes *)

Definition finishWrite (len : Z) : M PS status_t :=
  if INT32_MAX <? len then ret BAD_VALUE else
  modp (fun p => set_mDataPos (u64 (mDataPos p + len)) p) ;;
  modp (fun p => if mDataSize p <? mDataPos p then set_mDataSize (mDataPos p) p else p) ;;
  ret NO_ERROR.

(** The code after the label [restart_write] of [writeUnpadded] and
    [writeAligned]. *)
Definition write_here (bs : bytes) (len : Z) : M PS status_t :=
  let* pos := getp mDataPos in
  store pos bs ;; finishWrite len.

Definition writeUnpadded (data : bytes) (len : Z) : M PS status_t :=
  if INT32_MAX <? len then ret BAD_VALUE else
  let* pos := getp mDataPos in
  let end_ := u64 (pos + len) in
  if end_ <? pos then ret BAD_VALUE else
  let* src := require (mem_read data 0 len) in
  let* cap := getp mDataCapacity in
  if end_ <=? cap then write_here src len else
  let* err := growData len in
  if err =? NO_ERROR then write_here src len else ret err.

(** The mask that clears the pad bytes of the last word (little endian). *)
Definition pad_mask (n : Z) : Z :=
  if n =? 0 then 0x00000000 else if n =? 1 then 0x00ffffff
  else if n =? 2 then 0x0000ffff else 0x000000ff.

(** The pointer [mData + off], as its offset; null only from a null [mData]. *)
Definition pointer_of (p : Parcel) (off : Z) : option Z :=
  match mData p with
  | None => if off =? 0 then None else Some off
  | Some _ => Some off
  end.

(** The code after the label [restart_write] of [writeInplace]; the result is
    the returned pointer. *)
Definition writeInplace_here (len padded : Z) : M PS (option Z) :=
  let* pos := getp mDataPos in
  (if padded =? len then ret tt else
     let* w := load (pos + padded - 4) 4 in
     store (pos + padded - 4) (le_bytes 4 (Z.land (le_val w) (pad_mask (padded - len))))) ;;
  finishWrite padded ;;
  getp (fun p => pointer_of p pos).

Definition writeInplace (len : Z) : M PS (option Z) :=
  if INT32_MAX <? len then ret None else
  let* padded := pad_size len in
  let* pos := getp mDataPos in
  if u64 (pos + padded) <? pos then ret None else
  let* cap := getp mDataCapacity in
  if u64 (pos + padded) <=? cap then writeInplace_here len padded else
  let* err := growData padded in
  if err =? NO_ERROR then writeInplace_here len padded else ret None.

Definition write (data : option bytes) (len : Z) : M PS status_t :=
  if INT32_MAX <? len then ret BAD_VALUE else
  let* d := writeInplace len in
  match d, data with
  | Some off, Some src =>
      let* bs := require (mem_read src 0 len) in
      store off bs ;; ret NO_ERROR
  | _, _ => getp mError
  end.

(** [writeAligned<T>] for a [T] of [n] bytes whose value is [v]. *)
Definition writeAligned (n : nat) (v : Z) : M PS status_t :=
  let* pos := getp mDataPos in
  let* cap := getp mDataCapacity in
  if u64 (pos + Z.of_nat n) <=? cap then write_here (le_bytes n v) (Z.of_nat n) else
  let* err := growData (Z.of_nat n) in
  if err =? NO_ERROR then write_here (le_bytes n v) (Z.of_nat n) else ret err.

(** * Primitives *)

Definition writeInt32 (val : Z) : M PS status_t := writeAligned 4 val.
Definition writeUint32 (val : Z) : M PS status_t := writeAligned 4 val.
Definition writeInt64 (val : Z) : M PS status_t := writeAligned 8 val.
Definition writeUint64 (val : Z) : M PS status_t := writeAligned 8 val.
Definition writePointer (val : Z) : M PS status_t := writeAligned 8 val.
Definition writeBool (val : bool) : M PS status_t := writeInt32 (if val then 1 else 0).
Definition writeChar (val : Z) : M PS status_t := writeInt32 (s32 val).
Definition writeByte (val : Z) : M PS status_t := writeInt32 (s32 val).

(** [float] and [double] are written as their 32- and 64-bit representation. *)
Definition writeFloat (bits : Z) : M PS status_t := writeAligned 4 bits.
Definition writeDouble (bits : Z) : M PS status_t := writeAligned 8 bits.

(** * Arrays and strings *)

(** The bytes of an array of [n]-byte integers. *)
Definition array_bytes (n : nat) (vals : list Z) : bytes :=
  concat (map (le_bytes n) vals).

Definition writeInt32Array (len : Z) (val : option (list Z)) : M PS status_t :=
  if INT32_MAX <? len then ret BAD_VALUE else
  match val with
  | None => writeInt32 (-1)
  | Some v =>
      let* st := writeInt32 (u32 len) in
      if st =? NO_ERROR then write (Some (array_bytes 4 v)) (u64 (len * 4)) else ret st
  end.

Definition writeByteArray (len : Z) (val : option bytes) : M PS status_t :=
  if INT32_MAX <? len then ret BAD_VALUE else
  match val with
  | None => writeInt32 (-1)
  | Some v =>
      let* st := writeInt32 (u32 len) in
      if st =? NO_ERROR then write (Some v) len else ret st
  end.

(** [str] without its terminating NUL. *)
Definition writeCString (str : bytes) : M PS status_t :=
  write (Some (str ++ [0])) (u64 (zlen str + 1)).

(** [writeString8(const char* str, size_t len)], [None] for null. *)
Definition writeString8 (str : option bytes) (len : Z) : M PS status_t :=
  match str with
  | None => writeInt32 (-1)
  | Some s =>
      let* err := writeInt32 len in
      if err =? NO_ERROR then
        let* data := writeInplace (u64 (len + 1)) in
        match data with
        | Some off =>
            let* src := require (mem_read s 0 len) in
            store off src ;;
            store (off + len) [0] ;;
            ret NO_ERROR
        | None => getp mError
        end
      else ret err
  end.

(** [writeString16(const char16_t* str, size_t len)], [None] for null; [str] is
    the list of UTF-16 code units. *)
Definition writeString16 (str : option (list Z)) (len : Z) : M PS status_t :=
  match str with
  | None => writeInt32 (-1)
  | Some s =>
      let* err := writeInt32 len in
      if err =? NO_ERROR then
        let len2 := u64 (len * 2) in
        let* data := writeInplace (u64 (len2 + 2)) in
        match data with
        | Some off =>
            let* src := require (mem_read (array_bytes 2 s) 0 len2) in
            store off src ;;
            store (off + len2) [0; 0] ;;
            ret NO_ERROR
        | None => getp mError
        end
      else ret err
  end.
