(* ===== verification/ParcelRead.v ===== *)
(** Reading from a Parcel: src/libs/binder/Parcel.cpp, the read half.

    [validateReadData] (the protection of object records against plain
    reads), raw reads, the fixed-width primitives and strings. *)

From S2P Require Import Prelude Errors ParcelState ParcelWrite.

(** * The object guard *)

(** "Quickly determine if mObjects is sorted": [currObj] walks down from
    index [k]. *)
Fixpoint objects_sorted_from (objs : list Z) (k : nat) : bool :=
  match k with
  | O => true
  | S k' =>
      match objs !! k', objs !! k with
      | Some prev, Some cur => if cur <? prev then false else objects_sorted_from objs k'
      | _, _ => true
      end
  end.

(** The inner loop of the insertion sort; [k] is [iter1 + 1]. *)
Fixpoint shift_right (temp : Z) (k : nat) (objs : list Z) : list Z :=
  match k with
  | O => <[O := temp]> objs
  | S k' =>
      match objs !! k' with
      | Some v => if temp <? v then shift_right temp k' (<[k := v]> objs)
                  else <[k := temp]> objs
      | None => objs
      end
  end.

(** The outer loop: [n] elements remain, [iter0] is the current one. *)
Fixpoint insertion_sort_from (n iter0 : nat) (objs : list Z) : list Z :=
  match n with
  | O => objs
  | S n' =>
      match objs !! iter0 with
      | Some temp => insertion_sort_from n' (S iter0) (shift_right temp iter0 objs)
      | None => objs
      end
  end.

Definition insertion_sort (objs : list Z) (size : nat) : list Z :=
  insertion_sort_from (size - 1) 1 objs.

(** The [do ... while] over the objects from the hint on.  [None]: the read
    overlaps an object; [Some h]: the new hint. *)
Fixpoint scan_objects (objs : list Z) (fuel : nat) (pos upperBound next : Z) : option Z :=
  match fuel with
  | O => Some next
  | S fuel' =>
      match objs !! Z.to_nat next with
      | Some o =>
          if o <? upperBound then
            if pos <? o + sizeof_flat then None
            else scan_objects objs fuel' pos upperBound (next + 1)
          else Some next
      | None => Some next
      end
  end.

(** The code after the label [data_sorted]. *)
Definition validate_sorted (upperBound : Z) : M PS status_t :=
  let* p := gets this in
  let* objs := objects_upto (mObjectsSize p) in
  match scan_objects objs (Z.to_nat (mObjectsSize p - mNextObjectHint p))
          (mDataPos p) upperBound (mNextObjectHint p) with
  | None => ret PERMISSION_DENIED
  | Some next => modp (set_mNextObjectHint next) ;; ret NO_ERROR
  end.

Definition validateReadData (upperBound : Z) : M PS status_t :=
  let* p := gets this in
  if mObjectsSorted p || (mObjectsSize p <=? 1) then validate_sorted upperBound else
  let* objs := objects_upto (mObjectsSize p) in
  if objects_sorted_from objs (length objs - 1) then
    modp (set_mObjectsSorted true) ;; validate_sorted upperBound
  else
    modp (fun p => set_mObjectsSorted true (set_mNextObjectHint 0
           (set_mObjects (insertion_sort (mObjects p) (Z.to_nat (mObjectsSize p))) p))) ;;
    validate_sorted upperBound.

(** * Raw reads *)

(** The guard shared by [read], [readInplace] and [readAligned]: objects are
    only consulted when there are some. *)
Definition guard_objects (len : Z) : M PS status_t :=
  let* p := gets this in
  if 0 <? mObjectsSize p then validateReadData (u64 (mDataPos p + len)) else ret NO_ERROR.

Definition advance (len : Z) : M PS unit :=
  modp (fun p => set_mDataPos (u64 (mDataPos p + len)) p).

(** The condition of [read] and [readInplace]. *)
Definition readable (p : Parcel) (len padded : Z) : bool :=
  (mDataPos p <=? u64 (mDataPos p + padded))
  && (u64 (mDataPos p + padded) <=? mDataSize p) && (len <=? padded).

Definition read (len : Z) : M PS (res bytes) :=
  if INT32_MAX <? len then ret (Err BAD_VALUE) else
  let* padded := pad_size len in
  let* p := gets this in
  if readable p len padded then
    let* err := guard_objects padded in
    if err =? NO_ERROR then
      let* bs := load (mDataPos p) len in
      advance padded ;;
      ret (Good bs)
    else advance padded ;; ret (Err err)
  else ret (Err NOT_ENOUGH_DATA).

Definition readInplace (len : Z) : M PS (option Z) :=
  if INT32_MAX <? len then ret None else
  let* padded := pad_size len in
  let* p := gets this in
  if readable p len padded then
    let* err := guard_objects padded in
    if err =? NO_ERROR then advance padded ;; ret (pointer_of p (mDataPos p))
    else advance padded ;; ret None
  else ret None.

(** [readAligned<T>] with an out pointer, for a [T] of [n] bytes: its unsigned value. *)
Definition readAligned (n : nat) : M PS (res Z) :=
  let* p := gets this in
  if u64 (mDataPos p + Z.of_nat n) <=? mDataSize p then
    let* err := guard_objects (Z.of_nat n) in
    if err =? NO_ERROR then
      let* bs := load (mDataPos p) (Z.of_nat n) in
      advance (Z.of_nat n) ;;
      ret (Good (le_val bs))
    else advance (Z.of_nat n) ;; ret (Err err)
  else ret (Err NOT_ENOUGH_DATA).

(** [T readAligned<T>()]: 0 when the read fails. *)
Definition or_zero (r : res Z) : Z := match r with Good v => v | Err _ => 0 end.
Definition res_map {A B} (f : A -> B) (r : res A) : res B :=
  match r with Good a => Good (f a) | Err st => Err st end.

(** * Primitives *)

Definition readInt32 : M PS (res Z) := let* r := readAligned 4 in ret (res_map s32 r).
Definition readInt32_ : M PS Z := let* r := readInt32 in ret (or_zero r).
Definition readUint32 : M PS (res Z) := readAligned 4.
Definition readUint32_ : M PS Z := let* r := readUint32 in ret (or_zero r).
Definition readInt64 : M PS (res Z) := let* r := readAligned 8 in ret (res_map s64 r).
Definition readInt64_ : M PS Z := let* r := readInt64 in ret (or_zero r).
Definition readUint64 : M PS (res Z) := readAligned 8.
Definition readUint64_ : M PS Z := let* r := readUint64 in ret (or_zero r).
Definition readPointer : M PS (res Z) := readAligned 8.
Definition readPointer_ : M PS Z := let* r := readPointer in ret (or_zero r).
Definition readFloat : M PS (res Z) := readAligned 4.
Definition readFloat_ : M PS Z := let* r := readFloat in ret (or_zero r).
Definition readDouble : M PS (res Z) := readAligned 8.
Definition readDouble_ : M PS Z := let* r := readDouble in ret (or_zero r).

(** [readBool], [readChar] and [readByte] write their out parameter even when
    they fail: the status and the value written. *)
Definition readBool : M PS (status_t * bool) :=
  let* r := readInt32 in ret (res_status r, negb (or_zero r =? 0)).
Definition readBool_ : M PS bool := let* v := readInt32_ in ret (negb (v =? 0)).
Definition readChar : M PS (status_t * Z) :=
  let* r := readInt32 in ret (res_status r, u16 (or_zero r)).
Definition readChar_ : M PS Z := let* v := readInt32_ in ret (u16 v).
Definition readByte : M PS (status_t * Z) :=
  let* r := readInt32 in ret (res_status r, s8 (or_zero r)).
Definition readByte_ : M PS Z := let* v := readInt32_ in ret (s8 v).

(** * Strings *)

(** [memchr(str, 0, avail)]: the index of the first NUL. *)
Fixpoint find_nul (bs : bytes) (i : Z) : option Z :=
  match bs with
  | [] => None
  | b :: bs' => if b =? 0 then Some i else find_nul bs' (i + 1)
  end.

(** The string is returned without its NUL; [None] for a null pointer. *)
Definition readCString : M PS (option bytes) :=
  let* p := gets this in
  if mDataPos p <? mDataSize p then
    let avail := mDataSize p - mDataPos p in
    let* str := load (mDataPos p) avail in
    match find_nul str 0 with
    | Some len =>
        let* padded := pad_size (u64 (len + 1)) in
        advance padded ;;
        ret (Some (ztake len str))
    | None => ret None
    end
  else ret None.

(** The in-place readers return the offset of the characters and the length
    ([*outLen] is 0 whenever they return null). *)
Definition readString8Inplace : M PS (option (Z * Z)) :=
  let* size := readInt32_ in
  if (0 <=? size) && (size <? INT32_MAX) then
    let* str := readInplace (size + 1) in
    match str with
    | Some off =>
        let* c := load (off + size) 1 in
        if le_val c =? 0 then ret (Some (off, size)) else ret None
    | None => ret None
    end
  else ret None.

Definition readString16Inplace : M PS (option (Z * Z)) :=
  let* size := readInt32_ in
  if (0 <=? size) && (size <? INT32_MAX) then
    let* str := readInplace (u64 ((size + 1) * 2)) in
    match str with
    | Some off =>
        let* c := load (off + size * 2) 2 in
        if le_val c =? 0 then ret (Some (off, size)) else ret None
    | None => ret None
    end
  else ret None.

(** The [n]-byte integers of a byte string. *)
Fixpoint split_array (n : nat) (count : nat) (bs : bytes) : list Z :=
  match count with
  | O => []
  | S count' => le_val (take n bs) :: split_array n count' (drop n bs)
  end.

(** [readString8] with an out pointer: status, and the string (empty on failure). *)
Definition readString8 : M PS (status_t * bytes) :=
  let* str := readString8Inplace in
  match str with
  | Some (off, len) => let* bs := load off len in ret (OK, bs)
  | None => ret (UNEXPECTED_NULL, [])
  end.
Definition readString8_ : M PS bytes := let* r := readString8 in ret (snd r).

Definition load_chars (off len : Z) : M PS (list Z) :=
  let* bs := load off (len * 2) in ret (split_array 2 (Z.to_nat len) bs).

Definition readString16 : M PS (status_t * list Z) :=
  let* str := readString16Inplace in
  match str with
  | Some (off, len) => let* cs := load_chars off len in ret (OK, cs)
  | None => ret (UNEXPECTED_NULL, [])
  end.
Definition readString16_ : M PS (list Z) := let* r := readString16 in ret (snd r).

(** * Vector sizes *)

Definition readOutVectorSizeWithCheck (elmSize : Z) : M PS (res Z) :=
  let? size := readInt32 in
  if size <? 0 then ret (Good size) else
  fatal_if (INT32_MAX <? elmSize) ;;
  let allocationSize := elmSize * size in
  if negb (allocationSize =? s32 allocationSize) then ret (Err NO_MEMORY) else
  if 1000000 <=? allocationSize then ret (Err NO_MEMORY) else
  ret (Good size).
