(* ===== verification/ParcelInv.v ===== *)
(** The invariant of a Parcel and the growth of its buffer.

    [wf] relates the bookkeeping fields of a Parcel to its block of memory and
    its object table.  [continueWrite_grow] and [growData_grow] show that
    enlarging the buffer keeps the contents, the objects and the position,
    never faults, keeps the global allocation counters exact, and fails only
    when an allocation fails or the size limit is hit. *)

From S2P Require Import Prelude Errors ParcelState ParcelWrite ParcelRead.
From Stdlib Require Import Sorting.Sorted Sorting.Permutation.

(** * The invariant *)

(** The object offsets in use. *)
Definition objs (p : Parcel) : list Z := ztake (mObjectsSize p) (mObjects p).

(** The bytes a reader can see. *)
Definition contents (p : Parcel) : bytes := ztake (mDataSize p) (data_block p).

Record wf (p : Parcel) : Prop := {
  wf_block : zlen (data_block p) = mDataCapacity p;
  wf_bytes : Forall is_byte (data_block p);
  wf_cap : mDataCapacity p <= INT32_MAX;
  wf_size : 0 <= mDataSize p <= mDataCapacity p;
  wf_pos : 0 <= mDataPos p <= mDataSize p;
  wf_objcap : zlen (mObjects p) = mObjectsCapacity p;
  wf_objsize : 0 <= mObjectsSize p <= mObjectsCapacity p;
  wf_objs : Forall (fun o => 0 <= o /\ o + sizeof_flat <= mDataSize p) (objs p);
  wf_hint : 0 <= mNextObjectHint p <= mObjectsSize p;
  wf_sorted : mObjectsSorted p = true -> Sorted Z.le (objs p);
  wf_passed : Sorted Z.le (objs p) ->
    Forall (fun o => o + sizeof_flat <= mDataPos p) (ztake (mNextObjectHint p) (objs p));
  wf_owner : mOwner p = Some cleanup_reply_data -> mObjects p = [];
}.

(** What an allocation in progress leaves alone outside the parcel. *)
Record world_frame (w w' : World) : Prop := {
  wf_heap : w_heap w' = w_heap w;
  wf_proxy : w_proxy w' = w_proxy w;
  wf_binders : w_binders w' = w_binders w;
  wf_thread : w_thread w' = w_thread w;
  wf_rpc : w_rpc w' = w_rpc w;
  wf_bset : mIBinderSet w' = mIBinderSet w;
}.

#[export] Instance world_frame_preorder : PreOrder world_frame.
Proof.
  split.
  - by intros w.
  - intros w1 w2 w3 [] []. split; congruence.
Qed.

(** The bytes and blocks this parcel accounts for in the global counters. *)
Definition owned_bytes (p : Parcel) : Z :=
  match mOwner p, mData p with None, Some _ => mDataCapacity p | _, _ => 0 end.
Definition owned_count (p : Parcel) : Z :=
  match mOwner p, mData p with None, Some _ => 1 | _, _ => 0 end.

(** What the counters hold for all the other parcels of the process. *)
Definition others (s : PS) : Z * Z :=
  (u64 (gParcelGlobalAllocSize (world s) - owned_bytes (this s)),
   u64 (gParcelGlobalAllocCount (world s) - owned_count (this s))).

Lemma init_parcel_wf : wf init_parcel.
Proof.
  split; unfold objs, contents; cbn; try done; try lia; auto using Forall_nil.
Qed.

(** * Elementary facts *)

Lemma zlen_objs p : wf p -> zlen (objs p) = mObjectsSize p.
Proof. intros []. unfold objs. rewrite zlen_ztake; lia. Qed.

Lemma zlen_contents p : wf p -> zlen (contents p) = mDataSize p.
Proof. intros []. unfold contents. rewrite zlen_ztake; lia. Qed.

Lemma objects_upto_ok F (s : PS) n Q :
  n <= zlen (mObjects (this s)) -> Q (ztake n (mObjects (this s))) s ->
  wpg F (objects_upto n) s Q.
Proof.
  intros Hn HQ. unfold objects_upto. wp_steps. zdec (n <=? zlen (mObjects (this s))).
  by wp_step.
Qed.

Lemma load_ok F (s : PS) off len Q :
  0 <= off -> 0 <= len -> off + len <= zlen (data_block (this s)) ->
  Q (ztake len (zdrop off (data_block (this s)))) s -> wpg F (load off len) s Q.
Proof.
  intros. unfold load. wp_steps.
  eapply wpg_require; [by apply mem_read_ok|done].
Qed.

(** A loop whose body keeps [P] and returns keeps [P]. *)
Lemma for_each_ok {S A} F (l : list A) (f : A -> M S unit) (P : S -> Prop) s :
  P s ->
  (forall a s, a ∈ l -> P s -> wpg F (f a) s (fun _ => P)) ->
  wpg F (for_each l f) s (fun _ => P).
Proof.
  revert s. induction l as [|a l IH]; intros s HP Hf; cbn [for_each].
  - by wp_step.
  - wp_step. eapply wpg_mono; [apply Hf; [left|done]|]. intros [] s' Hs'.
    apply IH; [done|]. intros. apply Hf; [by right|done].
Qed.

(** Operations that leave the parcel and the allocation counters alone: they
    touch reference counts, descriptors, or the allocator. *)
Definition quiet (s s' : PS) : Prop :=
  this s' = this s /\ world_frame (world s) (world s') /\
  gParcelGlobalAllocSize (world s') = gParcelGlobalAllocSize (world s) /\
  gParcelGlobalAllocCount (world s') = gParcelGlobalAllocCount (world s).

#[export] Instance quiet_preorder : PreOrder quiet.
Proof.
  split.
  - intros s. unfold quiet. by split_and!.
  - intros s1 s2 s3 (?&?&?&?) (?&?&?&?). unfold quiet.
    split_and!; try congruence. by transitivity (world s2).
Qed.

Lemma quiet_refl s : quiet s s.
Proof. reflexivity. Qed.
#[export] Hint Resolve quiet_refl : binder.

Ltac quiet_tac := unfold quiet; split_and!; done.

Lemma acquire_object_ok F obj s : wpg F (acquire_object obj) s (fun _ => quiet s).
Proof.
  unfold acquire_object, incStrong.
  destruct (_ =? _); [destruct (_ =? _); wp_step; quiet_tac|].
  destruct (_ =? _); [|wp_step; quiet_tac].
  wp_steps. destruct (w_proxy _ _); wp_step; quiet_tac.
Qed.

Lemma release_object_ok F obj s : wpg F (release_object obj) s (fun _ => quiet s).
Proof.
  unfold release_object, decStrong, close.
  destruct (_ =? _); [destruct (_ =? _); wp_step; quiet_tac|].
  destruct (_ =? _).
  - wp_steps. destruct (w_proxy _ _); wp_step; quiet_tac.
  - destruct (_ =? _); [|wp_step; quiet_tac].
    destruct (_ =? _); wp_step; quiet_tac.
Qed.

(** Every object record of a well-formed parcel lies inside its block. *)
Definition records_inside (p : Parcel) (n : Z) : Prop :=
  0 <= n <= zlen (mObjects p) /\
  Forall (fun o => 0 <= o /\ o + sizeof_flat <= zlen (data_block p)) (ztake n (mObjects p)).

Lemma wf_records_inside p : wf p -> records_inside p (mObjectsSize p).
Proof.
  intros []. split; [lia|]. eapply Forall_impl; [exact wf_objs0|].
  intros o Ho. cbv beta in *. lia.
Qed.

(** A loop over object records whose body only touches references. *)
Lemma for_each_records_ok F (l : list Z) (body : flat_binder_object -> M PS unit) s :
  Forall (fun o => 0 <= o /\ o + sizeof_flat <= zlen (data_block (this s))) l ->
  (forall obj s, wpg F (body obj) s (fun _ => quiet s)) ->
  wpg F (for_each l (fun off => let* flat := load_flat off in body flat)) s
    (fun _ => quiet s).
Proof.
  intros Hl Hb. apply for_each_ok; [auto with binder|].
  intros off s' Hin Hs'. unfold load_flat. do 2 wp_step.
  rewrite Forall_forall in Hl. specialize (Hl _ Hin) as [H1 H2].
  assert (this s' = this s) as E by apply Hs'.
  apply load_ok; rewrite ?E; try lia. wp_step.
  eapply wpg_mono; [apply Hb|]. intros [] s'' H. by etransitivity.
Qed.

Lemma releaseObjects_ok F s :
  records_inside (this s) (mObjectsSize (this s)) ->
  wpg F releaseObjects s (fun _ => quiet s).
Proof.
  intros [Hn Hr]. unfold releaseObjects. wp_steps.
  apply objects_upto_ok; [lia|].
  apply for_each_records_ok; [by apply Forall_rev|]. intros. apply release_object_ok.
Qed.

Lemma acquireObjects_ok F s :
  records_inside (this s) (mObjectsSize (this s)) ->
  wpg F acquireObjects s (fun _ => quiet s).
Proof.
  intros [Hn Hr]. unfold acquireObjects. wp_steps.
  apply objects_upto_ok; [lia|].
  apply for_each_records_ok; [by apply Forall_rev|]. intros. apply acquire_object_ok.
Qed.

Lemma closeFileDescriptors_ok F s :
  records_inside (this s) (mObjectsSize (this s)) ->
  wpg F closeFileDescriptors s (fun _ => quiet s).
Proof.
  intros [Hn Hr]. unfold closeFileDescriptors. wp_steps.
  apply objects_upto_ok; [lia|].
  apply for_each_records_ok; [by apply Forall_rev|]. intros obj s'.
  destruct (_ =? _); [unfold close|]; wp_step; quiet_tac.
Qed.

Lemma call_owner_ok F r s :
  records_inside (this s) (mObjectsSize (this s)) ->
  (r = cleanup_reply_data -> mObjects (this s) = []) ->
  wpg F (call_owner r) s (fun _ => quiet s).
Proof.
  intros Hr Hc. unfold call_owner. do 3 wp_step.
  eapply wpg_mono with (P := fun _ => quiet s).
  - destruct r; [by apply closeFileDescriptors_ok| |wp_step; auto with binder].
    rewrite Hc by done. destruct Hr as [Hr _]. rewrite Hc in Hr by done.
    change (zlen (@nil Z)) with 0 in *. assert (mObjectsSize (this s) = 0) as -> by lia.
    cbn. wp_steps. auto with binder.
  - intros [] s' H. wp_step. etransitivity; [exact H|].
    quiet_tac.
Qed.

(** * Allocation *)

Definition can_fail (w : World) : Prop := exists k, w_heap w k = None.

Lemma alloc_ok {A} F (mk : (nat -> Z) -> A) s :
  wpg F (alloc mk) s (fun o s' => quiet s s' /\
    match o with
    | Some x => exists junk, x = mk junk
    | None => can_fail (world s)
    end).
Proof.
  unfold alloc. wp_steps. split; [quiet_tac|].
  destruct (w_heap (world s) (w_mallocs (world s))) as [junk|] eqn:E; simpl.
  - by exists junk.
  - by eexists.
Qed.

Lemma zlen_junk_block n junk : 0 <= n -> zlen (junk_block n junk) = n.
Proof. intros. unfold junk_block, zlen. rewrite length_map, length_seq. lia. Qed.

Lemma junk_block_bytes n junk : Forall is_byte (junk_block n junk).
Proof.
  unfold junk_block. apply Forall_map, Forall_forall. intros i _. simpl.
  unfold is_byte, u8. pose proof (Z.mod_pos_bound (junk i) 256). lia.
Qed.

Lemma zlen_resized old n junk : 0 <= n -> zlen old <= n -> zlen (resized old n junk) = n.
Proof.
  intros. unfold resized. rewrite zlen_ztake; [done|].
  rewrite zlen_app, zlen_junk_block by lia. lia.
Qed.

Lemma resized_bytes old n junk : Forall is_byte old -> Forall is_byte (resized old n junk).
Proof.
  intros. apply Forall_ztake, Forall_app. split; [done|apply junk_block_bytes].
Qed.

Lemma resized_prefix old n m junk :
  0 <= m <= zlen old -> zlen old <= n -> ztake m (resized old n junk) = ztake m old.
Proof.
  intros. unfold resized. rewrite ztake_ztake by lia.
  unfold ztake, zlen in *. rewrite take_app_le by lia. done.
Qed.

(** [reallocZeroFree] to a larger block keeps the old bytes as a prefix. *)
Lemma reallocZeroFree_grow F data n zero s :
  Forall is_byte (default [] data) -> zlen (default [] data) <= n ->
  wpg F (reallocZeroFree data (zlen (default [] data)) n zero) s (fun o s' => quiet s s' /\
    match o with
    | Some d => zlen d = n /\ Forall is_byte d /\
                forall m, 0 <= m <= zlen (default [] data) ->
                  ztake m d = ztake m (default [] data)
    | None => can_fail (world s)
    end).
Proof.
  intros Hb Hn. set (old := default [] data) in *. pose proof (zlen_nonneg old).
  unfold reallocZeroFree. destruct zero; simpl.
  - wp_step. wp_use alloc_ok. intros [nd|] s' [Hq Ho]; [|by wp_step].
    destruct Ho as [junk ->]. fold old.
    rewrite (Z.min_l (zlen old) n), mem_read_ok by lia.
    rewrite zdrop_0, ztake_ge by lia. wp_steps.
    rewrite mem_write_ok by (rewrite ?zlen_junk_block by lia; lia).
    unfold zeroMemory. rewrite mem_write_ok by (rewrite ?zlen_zeros by lia; lia).
    wp_steps. unfold free_block. wp_steps. split; [etransitivity; [exact Hq|quiet_tac]|].
    split_and!.
    + rewrite zlen_app, zlen_app, zlen_ztake, zlen_zdrop by (rewrite ?zlen_junk_block by lia; lia).
      rewrite zlen_junk_block by lia. lia.
    + repeat (apply Forall_app; split); auto using Forall_ztake, Forall_zdrop, junk_block_bytes.
    + intros m Hm. unfold ztake at 2. simpl. unfold ztake, zlen in *.
      by rewrite take_app_le by lia.
  - unfold realloc. wp_use alloc_ok. intros [d|] s' [Hq Ho]; [|done]. split; [done|].
    destruct Ho as [junk ->]. fold old. split_and!.
    + apply zlen_resized; lia.
    + by apply resized_bytes.
    + intros. apply resized_prefix; lia.
Qed.

(** * Growing the buffer *)

(** The fields that buffer management does not concern. *)
Definition meta (p : Parcel) :=
  (mError p, mRequestHeaderPresent p, mWorkSourceRequestHeaderPosition p,
   (mFdsKnown p, mHasFds p, mAllowFds p, mDeallocZero p), mSession p).

(** [p'] is [p] with a larger buffer of its own. *)
Record grown (p p' : Parcel) (desired : Z) : Prop := {
  g_wf : wf p';
  g_data : is_Some (mData p');
  g_owner : mOwner p' = None;
  g_cap : mDataCapacity p' = desired;
  g_size : mDataSize p' = mDataSize p;
  g_pos : mDataPos p' = mDataPos p;
  g_contents : contents p' = contents p;
  g_objs : objs p' = objs p;
  g_meta : meta p' = meta p;
  g_objcap : mOwner p = None -> mObjectsCapacity p' = mObjectsCapacity p;
  g_sorted : mObjectsSorted p' = true -> mObjectsSorted p = true;
}.

(** [s'] differs from [s] by operations that keep the books. *)
Definition balanced (s s' : PS) : Prop :=
  world_frame (world s) (world s') /\ others s' = others s.

#[export] Instance balanced_preorder : PreOrder balanced.
Proof.
  split.
  - by intros s.
  - intros s1 s2 s3 [H1 H2] [H3 H4]. split; [by etransitivity|congruence].
Qed.

Lemma quiet_balanced s s' : quiet s s' -> balanced s s'.
Proof.
  intros (H1&H2&H3&H4). split; [done|]. unfold others. by rewrite H1, H3, H4.
Qed.

Lemma u64_add_sub a b c : u64 (u64 (a + b) - c) = u64 (a + b - c).
Proof. unfold u64. by rewrite Zminus_mod_idemp_l. Qed.

(** Writing a bigger block into the parcel keeps the invariant. *)
Lemma grow_wf p d desired h srt os cap :
  wf p -> zlen d = desired -> Forall is_byte d -> mDataSize p <= desired <= INT32_MAX ->
  ztake (mObjectsSize p) os = objs p -> zlen os = cap -> mObjectsSize p <= cap ->
  (h = mNextObjectHint p /\ srt = mObjectsSorted p) \/ (h = 0 /\ srt = false) ->
  forall p',
  mData p' = Some d -> mDataCapacity p' = desired -> mDataSize p' = mDataSize p ->
  mDataPos p' = mDataPos p -> mObjects p' = os -> mObjectsSize p' = mObjectsSize p ->
  mObjectsCapacity p' = cap -> mNextObjectHint p' = h -> mObjectsSorted p' = srt ->
  mOwner p' = None -> wf p'.
Proof.
  intros [] Hd Hb Hs Ho Hc Hcap Hh p' E1 E2 E3 E4 E5 E6 E7 E8 E9 E10.
  assert (objs p' = objs p) as Eo by (unfold objs at 1; by rewrite E5, E6).
  split; unfold data_block in *; rewrite ?Eo, ?E1, ?E2, ?E3, ?E4, ?E5, ?E6, ?E7, ?E8, ?E9, ?E10;
    simpl; try done; try lia.
  - by destruct Hh as [[-> ->]|[-> ->]].
  - intros S. destruct Hh as [[-> _]|[-> _]]; [by apply wf_passed0|]. constructor.
Qed.

(** Taking references on all the objects through the temporary object count. *)
Lemma acquire_kept_ok F s n :
  wf (this s) -> n = mObjectsSize (this s) ->
  wpg F (if n =? 0 then ret tt else
           let* oldObjectsSize := getp mObjectsSize in
           modp (set_mObjectsSize n) ;;
           acquireObjects ;;
           modp (set_mObjectsSize oldObjectsSize)) s (fun _ => quiet s).
Proof.
  intros Hwf ->. pose proof (wf_records_inside _ Hwf) as Hr.
  destruct (_ =? 0); [wp_step; auto with binder|]. wp_steps.
  eapply wpg_mono; [apply acquireObjects_ok; destruct (this s); exact Hr|].
  intros [] s1 (E1&E2&E3&E4). wp_step. unfold quiet; simpl. split_and!; auto.
  rewrite E1. simpl. by destruct (this s).
Qed.

Section Grow.
Context (F : Prop) (s : PS) (desired : Z).
Abbreviation p := (this s).
Hypothesis Hwf : wf p.
Hypothesis Hdes : mDataCapacity p < desired <= INT32_MAX.

Definition grow_post (st : status_t) (s' : PS) : Prop :=
  balanced s s' /\
  ((st = NO_ERROR /\ grown p (this s') desired) \/
   (st = NO_MEMORY /\ this s' = set_mError NO_MEMORY p /\ can_fail (world s))).

Lemma continueWrite_first_ok :
  mOwner p = None -> mData p = None -> wpg F (continueWrite_first desired) s grow_post.
Proof.
  intros Ho Hd. pose proof Hwf as [].
  assert (mDataCapacity p = 0) as Hc by (rewrite <- wf_block0; unfold data_block; by rewrite Hd).
  unfold continueWrite_first. wp_step. unfold malloc.
  wp_use alloc_ok. intros [d|] s' [Hq Hx].
  2:{ wp_steps. split; [|right; split_and!; [done| |done]].
      - etransitivity; [apply quiet_balanced, Hq|]. split; [done|]. unfold others; simpl.
        destruct Hq as (E&_). by rewrite E.
      - simpl. by destruct Hq as (->&_). }
  destruct Hx as [junk ->]. unfold add_alloc_size, add_alloc_count. wp_steps.
  destruct Hq as (E&Hw&Es&Ec). split; [|left; split; [done|]].
  - split; simpl; [by destruct Hw|]. unfold others; simpl. rewrite E, Es, Ec.
    unfold owned_bytes, owned_count; simpl. rewrite Ho, Hd.
    rewrite !u64_add_sub. do 2 f_equal; lia.
  - rewrite E. split; simpl; try done; try lia.
    + eapply (grow_wf p (junk_block desired junk)); try done; simpl;
        rewrite ?zlen_junk_block by lia; try done; try lia; auto using junk_block_bytes.
    + unfold contents; simpl. by assert (mDataSize p = 0) as -> by lia.
Qed.

Lemma continueWrite_owned_ok d :
  mOwner p = None -> mData p = Some d ->
  wpg F (continueWrite_owned d (mObjectsSize p) desired) s grow_post.
Proof.
  intros Ho Hd. pose proof Hwf as [].
  assert (default [] (mData p) = d) as Ed by (by rewrite Hd).
  assert (zlen d = mDataCapacity p) as Hl by (rewrite <- wf_block0; unfold data_block; by rewrite Hd).
  unfold continueWrite_owned. do 3 wp_step. zdec (mObjectsSize p <? mObjectsSize p).
  wp_steps. zdec (mDataCapacity p <? desired). wp_step.
  rewrite <- Hl, <- Ed. wp_use reallocZeroFree_grow.
  { rewrite Ed. unfold data_block in wf_bytes0. by rewrite Hd in wf_bytes0. }
  { rewrite Ed. lia. }
  rewrite Ed. intros [nd|] s' [Hq Hx].
  2:{ wp_steps. split; [|right; split_and!; [done| |done]].
      - etransitivity; [apply quiet_balanced, Hq|]. split; [done|]. unfold others; simpl.
        destruct Hq as (E&_). by rewrite E.
      - simpl. by destruct Hq as (->&_). }
  destruct Hx as (Hnd & Hb & Hpre). unfold add_alloc_size. wp_steps.
  destruct Hq as (E&Hw&Es&Ec). split; [|left; split; [done|]].
  - split; simpl; [by destruct Hw|]. unfold others; simpl. rewrite E, Es, Ec.
    unfold owned_bytes, owned_count; simpl. rewrite Ho, Hd.
    unfold u64. rewrite Zplus_mod_idemp_l, Zminus_mod_idemp_l. do 2 f_equal; lia.
  - rewrite E. split; simpl; try done; try lia.
    + eapply (grow_wf p nd); try done; simpl; try lia; auto.
    + unfold contents, data_block; simpl. rewrite Hd. simpl. apply Hpre. lia.
Qed.

Lemma continueWrite_owner_ok r :
  mOwner p = Some r ->
  wpg F (continueWrite_owner r (mObjectsSize p) desired) s grow_post.
Proof.
  intros Ho. pose proof Hwf as []. pose proof (wf_records_inside _ Hwf) as Hr.
  unfold continueWrite_owner. zdec (desired =? 0). wp_step. unfold malloc.
  wp_use alloc_ok. intros [d|] s1 [Hq1 Hx].
  2:{ wp_steps. split; [|right; split_and!; [done| |done]].
      - etransitivity; [apply quiet_balanced, Hq1|]. split; [done|]. unfold others; simpl.
        destruct Hq1 as (E&_). by rewrite E.
      - simpl. by destruct Hq1 as (->&_). }
  destruct Hx as [junk ->]. wp_step.
  eapply wpg_mono with (P := fun o s2 => quiet s s2 /\
    match o with Some _ => True | None => can_fail (world s) end).
  { destruct (_ =? 0); [by wp_step|]. unfold calloc_objects. wp_use alloc_ok.
    intros o s2 [Hq2 Ho2]. split; [by etransitivity|]. destruct o; [done|].
    destruct Hq1 as (_&[Hh _ _ _ _ _]&_). unfold can_fail in *. by rewrite <- Hh. }
  intros [os|] s2 [Hq2 Hx].
  2:{ unfold free_block. wp_steps. split; [|right; split_and!; [done| |done]].
      - etransitivity; [apply quiet_balanced, Hq2|]. split; [done|]. unfold others; simpl.
        destruct Hq2 as (E&_). by rewrite E.
      - simpl. by destruct Hq2 as (->&_). }
  wp_step. pose proof Hq2 as (E2&Hw2&Es2&Ec2). rewrite <- E2.
  eapply wpg_mono; [apply acquire_kept_ok; by rewrite ?E2|]. intros [] s3 Hq3.
  wp_steps. assert (quiet s s3) as Hq by (by etransitivity).
  pose proof Hq as (E3&Hw3&Es3&Ec3). rewrite E2, E3.
  eapply wpg_mono with (P := fun d' s' => s' = s3 /\ zlen d' = desired /\
    Forall is_byte d' /\ ztake (mDataSize p) d' = contents p).
  { pose proof (zlen_junk_block desired junk ltac:(lia)) as Hj.
    unfold contents, data_block in *. destruct (mData p) as [old|] eqn:Hd; simpl in *.
    - zdec (mDataSize p <? desired). wp_step.
      rewrite mem_read_ok by lia. rewrite zdrop_0. wp_step.
      rewrite mem_write_ok by (rewrite ?zlen_ztake by lia; lia). wp_step.
      split_and!; [done| | |].
      + rewrite !zlen_app, zlen_ztake, zlen_ztake, zlen_zdrop by (rewrite ?zlen_ztake by lia; lia).
        lia.
      + repeat (apply Forall_app; split); auto using Forall_ztake, Forall_zdrop, junk_block_bytes.
      + unfold ztake at 2. simpl. apply ztake_app_exact. rewrite zlen_ztake; lia.
    - wp_step. change (zlen (@nil Z)) with 0 in *.
      assert (mDataSize p = 0) as -> by lia. split_and!; auto using junk_block_bytes. }
  intros d' s' (-> & Hl & Hb & Hpre). wp_step.
  apply objects_upto_ok; [rewrite E3; lia|]. rewrite E3. wp_step.
  eapply wpg_mono; [apply call_owner_ok|].
  { by rewrite E3. }
  { rewrite E3. intros ->. auto. }
  intros [] s4 Hq4. unfold add_alloc_size, add_alloc_count. wp_steps.
  assert (quiet s s4) as (E&Hw&Es&Ec) by (by etransitivity).
  split; [|left; split; [done|]].
  - split; simpl; [by destruct Hw|]. unfold others; simpl. rewrite E, Es, Ec.
    unfold owned_bytes, owned_count; simpl. rewrite Ho.
    unfold u64. rewrite !Zminus_mod_idemp_l. do 2 f_equal; lia.
  - rewrite E; simpl. zdec (mDataSize p <? desired). split; simpl; try done; try lia.
    + eapply (grow_wf p d' desired 0 false (objs p) (mObjectsSize p)); try done; try lia; auto.
      * apply ztake_ge. rewrite zlen_objs by done. lia.
      * by apply zlen_objs.
    + unfold objs; simpl. apply ztake_ztake. lia.
    + congruence.
Qed.

(** Growing keeps everything but the capacity, or fails for lack of memory. *)
Lemma continueWrite_grow : wpg F (continueWrite desired) s grow_post.
Proof.
  pose proof Hwf as []. unfold continueWrite. zdec (INT32_MAX <? desired). wp_steps.
  assert (kept_objects p desired = mObjectsSize p) as ->.
  { unfold kept_objects. by zdec (desired <? mDataSize p). }
  destruct (mOwner p) as [r|] eqn:Ho; [by apply continueWrite_owner_ok|].
  destruct (mData p) as [d|] eqn:Hd;
    [by apply continueWrite_owned_ok|by apply continueWrite_first_ok].
Qed.
End Grow.

(** [growData(len)], called because [len] bytes do not fit at the position:
    on success they do. *)
Lemma growData_ok F s len :
  wf (this s) -> 0 <= len ->
  mDataCapacity (this s) < mDataPos (this s) + len ->
  wpg F (growData len) s (fun st s' => balanced s s' /\
    ((st = NO_ERROR /\ exists desired, grown (this s) (this s') desired /\
        mDataPos (this s) + len <= desired) \/
     (st = NO_MEMORY /\ this s' = set_mError NO_MEMORY (this s) /\ can_fail (world s)) \/
     (st = BAD_VALUE /\ s' = s /\ INT32_MAX < Z.max (3 * (mDataSize (this s) + len) / 2) 128))).
Proof.
  intros Hwf Hlen Hfit. pose proof Hwf as [].
  unfold growData. zcase (INT32_MAX <? len).
  { wp_step. split; [done|]. right; right. split_and!; [done..|].
    apply Z.max_lt_iff. left. apply Z.lt_le_trans with (len); [lia|].
    apply Z.div_le_lower_bound; lia. }
  wp_steps. zdec (SIZE_MAX - mDataSize (this s) <? len).
  change (SIZE_MAX / 3) with 6148914691236517205.
  zdec (6148914691236517205 <? mDataSize (this s) + len).
  rewrite u64_small by lia. rewrite (Z.mul_comm _ 3).
  set (new := 3 * (mDataSize (this s) + len) / 2) in *.
  assert (mDataSize (this s) + len <= new) by (apply Z.div_le_lower_bound; lia).
  zdec (new <=? mDataSize (this s)).
  destruct (Z.le_gt_cases (Z.max new 128) INT32_MAX) as [Hm|Hm].
  - wp_use continueWrite_grow; [done|lia|]. intros st s' [Hb [[-> Hg]|(->&Ht&Hf)]].
    + split; [done|left]. split; [done|]. exists (Z.max new 128). split; [done|lia].
    + split; [done|right; left]. done.
  - unfold continueWrite. zdec (INT32_MAX <? Z.max new 128). wp_step.
    split; [done|]. right; right. split_and!; [done..|lia].
Qed.
