(* ===== verification/ParcelWriteSpec.v ===== *)
(** Correctness of the writers of a Parcel.

    Abstractly a Parcel is a byte string and a position; a writer overwrites
    the bytes at the position (extending the string) and moves past them.
    [wrote p p' bs] is that step, and [write_post] says that a writer takes it
    or, when an allocation fails, reports an error. *)

From S2P Require Import Prelude Errors ParcelState ParcelWrite ParcelRead ParcelInv.

(** * Overwriting a byte string *)

Definition overwrite (c : bytes) (pos : Z) (bs : bytes) : bytes :=
  ztake pos c ++ bs ++ zdrop (pos + zlen bs) c.

Lemma zlen_overwrite c pos bs :
  0 <= pos <= zlen c -> zlen (overwrite c pos bs) = Z.max (zlen c) (pos + zlen bs).
Proof.
  intros. unfold overwrite. pose proof (zlen_nonneg bs).
  rewrite !zlen_app, zlen_ztake by lia. unfold zdrop, zlen in *. rewrite length_drop. lia.
Qed.

Lemma byte_at_overwrite c pos bs i :
  0 <= pos <= zlen c ->
  byte_at (overwrite c pos bs) i =
    if (pos <=? i) && (i <? pos + zlen bs) then byte_at bs (i - pos) else byte_at c i.
Proof.
  intros. pose proof (zlen_nonneg bs). unfold byte_at, overwrite.
  destruct (0 <=? i) eqn:Ei; zb.
  2:{ by zdec (pos <=? i). }
  assert (Hl : length (ztake pos c) = Z.to_nat pos).
  { unfold ztake. rewrite length_take. unfold zlen in *. lia. }
  zcase (pos <=? i); simpl.
  - rewrite lookup_app_r by lia. zdec (0 <=? i - pos). zcase (i <? pos + zlen bs).
    + rewrite lookup_app_l by (unfold zlen in *; lia). f_equal. lia.
    + rewrite lookup_app_r by (unfold zlen in *; lia). unfold zdrop. rewrite lookup_drop.
      f_equal. unfold zlen in *. lia.
  - rewrite lookup_app_l by lia. unfold ztake. apply lookup_take_lt. lia.
Qed.

Lemma byte_at_None m i : zlen m <= i -> byte_at m i = None.
Proof.
  intros. unfold byte_at. destruct (0 <=? i) eqn:E; [|done]. zb.
  apply lookup_ge_None. unfold zlen in *. lia.
Qed.

Lemma byte_at_ext m m' :
  (forall i, 0 <= i < Z.max (zlen m) (zlen m') -> byte_at m i = byte_at m' i) -> m = m'.
Proof.
  intros H. apply list_eq. intros n.
  destruct (decide (Z.of_nat n < Z.max (zlen m) (zlen m'))) as [Hn|Hn].
  - specialize (H (Z.of_nat n) ltac:(lia)). unfold byte_at in H.
    rewrite Nat2Z.id in H. by destruct (Z.leb_spec 0 (Z.of_nat n)); [|lia].
  - unfold zlen in *. rewrite !lookup_ge_None_2 by lia. done.
Qed.

Lemma byte_at_ztake n m i : 0 <= i < n -> byte_at (ztake n m) i = byte_at m i.
Proof.
  intros. unfold byte_at, ztake. zdec (0 <=? i). apply lookup_take_lt. lia.
Qed.

Lemma byte_at_app a b k :
  byte_at (a ++ b) k = if k <? zlen a then byte_at a k else byte_at b (k - zlen a).
Proof.
  unfold byte_at. pose proof (zlen_nonneg a).
  zcase (k <? zlen a); zcase (0 <=? k); try done; try lia.
  - rewrite lookup_app_l by (unfold zlen in *; lia). done.
  - rewrite lookup_app_r by (unfold zlen in *; lia). zdec (0 <=? k - zlen a).
    f_equal. unfold zlen in *. lia.
Qed.

(** Patching inside what was just written. *)
Lemma overwrite_inside c pos x i bs :
  0 <= pos <= zlen c -> 0 <= i -> i + zlen bs <= zlen x ->
  overwrite (overwrite c pos x) (pos + i) bs = overwrite c pos (overwrite x i bs).
Proof.
  intros. pose proof (zlen_nonneg bs). apply byte_at_ext. intros j _.
  rewrite (byte_at_overwrite (overwrite c pos x)) by (rewrite zlen_overwrite by lia; lia).
  rewrite !(byte_at_overwrite c) by lia. rewrite zlen_overwrite by lia.
  rewrite (byte_at_overwrite x) by lia.
  zcase (pos + i <=? j); zcase (j <? pos + i + zlen bs); simpl; zcase (pos <=? j);
    zcase (j <? pos + zlen x); simpl; zcase (j <? pos + Z.max (zlen x) (i + zlen bs));
    zcase (i <=? j - pos); zcase (j - pos <? i + zlen bs); simpl; try lia; try done;
    f_equal; lia.
Qed.

(** Writing one string after another. *)
Lemma overwrite_app c pos a b :
  0 <= pos <= zlen c ->
  overwrite (overwrite c pos a) (pos + zlen a) b = overwrite c pos (a ++ b).
Proof.
  intros. pose proof (zlen_nonneg a). pose proof (zlen_nonneg b).
  apply byte_at_ext. intros j _.
  rewrite (byte_at_overwrite (overwrite c pos a)) by (rewrite zlen_overwrite by lia; lia).
  rewrite !(byte_at_overwrite c) by lia. rewrite zlen_app.
  rewrite byte_at_app.
  zcase (pos + zlen a <=? j); zcase (j <? pos + zlen a + zlen b); simpl; zcase (pos <=? j);
    zcase (j <? pos + zlen a); simpl; zcase (j <? pos + (zlen a + zlen b));
    zcase (j - pos <? zlen a); simpl; try lia; try done; f_equal; lia.
Qed.

(** The visible part of an overwritten block. *)
Lemma ztake_overwrite d size pos bs :
  0 <= pos <= size -> size <= zlen d -> pos + zlen bs <= zlen d ->
  ztake (Z.max size (pos + zlen bs)) (overwrite d pos bs) = overwrite (ztake size d) pos bs.
Proof.
  intros. pose proof (zlen_nonneg bs).
  assert (zlen (ztake size d) = size) as Hs by (apply zlen_ztake; lia).
  assert (zlen (overwrite d pos bs) = zlen d) as Ho by (rewrite zlen_overwrite by lia; lia).
  apply byte_at_ext. intros i Hi.
  rewrite zlen_overwrite, zlen_ztake, Hs in Hi by lia.
  rewrite byte_at_ztake by lia. rewrite !byte_at_overwrite by lia.
  zcase (pos <=? i); zcase (i <? pos + zlen bs); simpl; try done;
    rewrite byte_at_ztake by lia; done.
Qed.

Lemma overwrite_bytes c pos bs :
  Forall is_byte c -> Forall is_byte bs -> Forall is_byte (overwrite c pos bs).
Proof.
  intros. unfold overwrite. repeat (apply Forall_app; split); auto with binder.
Qed.

Lemma mem_write_overwrite m off bs :
  0 <= off -> off + zlen bs <= zlen m -> mem_write m off bs = Some (overwrite m off bs).
Proof. apply mem_write_ok. Qed.

(** What is at the end of the string is appended. *)
Lemma overwrite_end c bs : overwrite c (zlen c) bs = c ++ bs.
Proof.
  unfold overwrite. rewrite ztake_ge by lia. unfold zdrop.
  rewrite drop_ge by (unfold zlen; lia). by rewrite app_nil_r.
Qed.

(** Reading back what was written. *)
Lemma overwrite_slice c pos bs :
  0 <= pos <= zlen c -> ztake (zlen bs) (zdrop pos (overwrite c pos bs)) = bs.
Proof.
  intros. unfold overwrite.
  rewrite zdrop_app_exact by (rewrite zlen_ztake; lia). by rewrite ztake_app_exact.
Qed.

(** Only the bytes from [pos] on change. *)
Lemma overwrite_prefix c pos bs n :
  0 <= n <= pos -> pos <= zlen c -> ztake n (overwrite c pos bs) = ztake n c.
Proof.
  intros. unfold overwrite, ztake, zlen in *.
  rewrite take_app_le by (rewrite length_take; lia).
  rewrite take_take. f_equal. lia.
Qed.

(** * The effect of a writer *)

Record wrote (p p' : Parcel) (bs : bytes) : Prop := {
  wr_wf : wf p';
  wr_pos : mDataPos p' = mDataPos p + zlen bs;
  wr_contents : contents p' = overwrite (contents p) (mDataPos p) bs;
  wr_objs : objs p' = objs p;
  wr_meta : meta p' = meta p;
}.

(** The size limit of a parcel, as [growData] computes it. *)
Definition fits (p : Parcel) (n : Z) : Prop := 3 * (mDataSize p + n) / 2 <= INT32_MAX.

(** An allocation failed: the parcel records it, and holds what it held and at most
    [n] bytes more. *)
Record failed (s : PS) (n : Z) (s' : PS) : Prop := {
  fl_wf : wf (this s');
  fl_error : mError (this s') = NO_MEMORY;
  fl_heap : can_fail (world s);
  fl_size : mDataSize (this s) <= mDataSize (this s') <= mDataSize (this s) + n;
}.

Definition write_post (s : PS) (bs : bytes) (st : status_t) (s' : PS) : Prop :=
  balanced s s' /\
  ((st = NO_ERROR /\ wrote (this s) (this s') bs) \/
   (st <> NO_ERROR /\ failed s (zlen bs) s')).

Lemma set_mError_failed s s' n :
  wf (this s) -> this s' = set_mError NO_MEMORY (this s) -> can_fail (world s) -> 0 <= n ->
  failed s n s'.
Proof.
  intros Hwf E Hc Hn. split; rewrite ?E; try done; [|simpl; lia]. destruct Hwf. by split.
Qed.

Lemma balanced_can_fail s s' : balanced s s' -> can_fail (world s') -> can_fail (world s).
Proof. intros [[Hh _ _ _ _ _] _]. unfold can_fail. by rewrite Hh. Qed.

Lemma wrote_size p p' bs :
  wf p -> wrote p p' bs -> mDataSize p' = Z.max (mDataSize p) (mDataPos p + zlen bs).
Proof.
  intros Hwf [Hwf' _ Hc _ _]. rewrite <- (zlen_contents p'), Hc by done.
  pose proof (wf_pos _ Hwf). pose proof (zlen_contents _ Hwf) as E.
  rewrite zlen_overwrite by lia. by rewrite E.
Qed.

Lemma wrote_app p p1 p2 a b : wf p -> wrote p p1 a -> wrote p1 p2 b -> wrote p p2 (a ++ b).
Proof.
  intros Hwf [Hw1 Hp1 Hc1 Ho1 Hm1] [Hw2 Hp2 Hc2 Ho2 Hm2]. split; try congruence.
  - rewrite zlen_app. lia.
  - rewrite Hc2, Hc1, Hp1. apply overwrite_app. rewrite zlen_contents by done.
    apply (wf_pos _ Hwf).
Qed.

Lemma wrote_grown p p1 p2 desired bs : grown p p1 desired -> wrote p1 p2 bs -> wrote p p2 bs.
Proof. intros [] []. split; congruence. Qed.

Lemma fits_wrote p p1 a n :
  wf p -> wrote p p1 a -> 0 <= n -> fits p (zlen a + n) -> fits p1 n.
Proof.
  intros Hwf Hw Hn Hf. unfold fits in *. pose proof (wf_pos _ Hwf).
  pose proof (zlen_nonneg a). rewrite (wrote_size _ _ _ Hwf Hw).
  etransitivity; [|exact Hf]. apply Z.div_le_mono; lia.
Qed.

Lemma fits_le p n m : fits p m -> n <= m -> fits p n.
Proof.
  unfold fits. intros Hf Hn. etransitivity; [|exact Hf]. apply Z.div_le_mono; lia.
Qed.

Lemma failed_le s s' n m : n <= m -> failed s n s' -> failed s m s'.
Proof. intros H []. split; try done. lia. Qed.

Lemma failed_app s s1 s2 a b :
  wf (this s) -> balanced s s1 -> wrote (this s) (this s1) a -> failed s1 (zlen b) s2 ->
  failed s (zlen (a ++ b)) s2.
Proof.
  intros Hwf Hb Hw []. pose proof (wf_pos _ Hwf). pose proof (zlen_nonneg a).
  rewrite (wrote_size _ _ _ Hwf Hw) in *. split; try done.
  - by eapply balanced_can_fail.
  - zl. lia.
Qed.

(** Two writers in sequence write the concatenation. *)
Lemma write_post_seq F (m k : M PS status_t) s a b :
  wf (this s) ->
  fits (this s) (zlen a + zlen b) ->
  (fits (this s) (zlen a) -> wpg F m s (write_post s a)) ->
  (forall s1, wf (this s1) -> fits (this s1) (zlen b) -> wpg F k s1 (write_post s1 b)) ->
  wpg F (m ;;? k) s (write_post s (a ++ b)).
Proof.
  intros Hwf Hf Hm Hk. apply wpg_check_ok. pose proof (zlen_nonneg b).
  wp_use Hm; [eapply fits_le; [exact Hf|lia]|].
  intros st s1 [Hb1 [[-> Hw1]|(Hst&Hfl)]]; split; intros Hst'; try done.
  - wp_use Hk; [apply Hw1|by eapply fits_wrote|].
    intros st2 s2 [Hb2 [[-> Hw2]|(Hst2&Hfl)]]; (split; [by etransitivity|]).
    + left. split; [done|]. by eapply wrote_app.
    + right. split; [done|]. by eapply failed_app.
  - split; [done|right]. split; [done|]. zl. by eapply failed_le; [|exact Hfl]; lia.
Qed.

(** ** Storing into the block *)

Definition poke (off : Z) (bs : bytes) (p : Parcel) : Parcel :=
  set_mData (match mData p with None => None | Some d => Some (overwrite d off bs) end) p.

Lemma store_ok F s off bs Q :
  0 <= off -> off + zlen bs <= zlen (data_block (this s)) ->
  Q tt (mkPS (poke off bs (this s)) (world s)) -> wpg F (store off bs) s Q.
Proof.
  intros Ho Hl HQ. unfold store. wp_step. wp_step. rewrite mem_write_overwrite by done.
  wp_steps. revert HQ. unfold poke, data_block. by destruct (mData (this s)).
Qed.

Lemma poke_block off bs p :
  0 <= off -> off + zlen bs <= zlen (data_block p) ->
  data_block (poke off bs p) = overwrite (data_block p) off bs.
Proof.
  intros. unfold poke, data_block in *. destruct (mData p); simpl in *; [done|].
  change (zlen (@nil Z)) with 0 in *. pose proof (zlen_nonneg bs).
  assert (zlen bs = 0) as Hb by lia. apply zlen_zero in Hb as ->.
  by rewrite (ltac:(lia) : off = 0).
Qed.

(** The state after [write_here]. *)
Definition written (bs : bytes) (p : Parcel) : Parcel :=
  let q := set_mDataPos (mDataPos p + zlen bs) (poke (mDataPos p) bs p) in
  if mDataSize q <? mDataPos q then set_mDataSize (mDataPos q) q else q.

Lemma written_fields bs p :
  mDataPos (written bs p) = mDataPos p + zlen bs /\
  mDataSize (written bs p) = Z.max (mDataSize p) (mDataPos p + zlen bs) /\
  data_block (written bs p) = data_block (poke (mDataPos p) bs p) /\
  mDataCapacity (written bs p) = mDataCapacity p /\
  mObjects (written bs p) = mObjects p /\ mObjectsSize (written bs p) = mObjectsSize p /\
  mObjectsCapacity (written bs p) = mObjectsCapacity p /\
  mNextObjectHint (written bs p) = mNextObjectHint p /\
  mObjectsSorted (written bs p) = mObjectsSorted p /\ mOwner (written bs p) = mOwner p /\
  meta (written bs p) = meta p.
Proof.
  unfold written. simpl. zcase (mDataSize p <? mDataPos p + zlen bs); simpl;
    split_and!; try done; lia.
Qed.

Lemma written_wrote p bs :
  wf p -> Forall is_byte bs -> mDataPos p + zlen bs <= mDataCapacity p ->
  wrote p (written bs p) bs.
Proof.
  intros [] Hb Hfit. pose proof (zlen_nonneg bs).
  destruct (written_fields bs p) as (E1&E2&E3&E4&E5&E6&E7&E8&E9&E10&E11).
  rewrite poke_block in E3 by lia.
  assert (objs (written bs p) = objs p) as Eo by (unfold objs; by rewrite E5, E6).
  split; [|done| |done|done].
  - split; rewrite ?Eo, ?E1, ?E2, ?E3, ?E4, ?E5, ?E6, ?E7, ?E8, ?E9, ?E10; try done; try lia.
    + rewrite zlen_overwrite by lia. lia.
    + by apply overwrite_bytes.
    + eapply Forall_impl; [exact wf_objs|]. intros o ?; cbv beta in *; lia.
    + intros S. eapply Forall_impl; [by apply wf_passed|]. intros o ?; cbv beta in *; lia.
  - unfold contents. rewrite E2, E3. apply ztake_overwrite; lia.
Qed.

Lemma balanced_same_owner p p' w :
  mOwner p' = mOwner p -> (mData p = None <-> mData p' = None) ->
  mDataCapacity p' = mDataCapacity p -> balanced (mkPS p w) (mkPS p' w).
Proof.
  intros Ho Hd Hc. split; [done|]. unfold others, owned_bytes, owned_count; simpl.
  rewrite Ho, Hc. destruct (mOwner p); [done|].
  destruct (mData p), (mData p'); try done.
  - by destruct Hd as [_ Hd]; specialize (Hd eq_refl).
  - by destruct Hd as [Hd _]; specialize (Hd eq_refl).
Qed.

(** With room in the block a write cannot fail. *)
Lemma write_here_wrote F s bs :
  wf (this s) -> Forall is_byte bs -> mDataPos (this s) + zlen bs <= mDataCapacity (this s) ->
  wpg F (write_here bs (zlen bs)) s (fun st s' =>
    balanced s s' /\ st = NO_ERROR /\ wrote (this s) (this s') bs).
Proof.
  intros Hwf Hb Hfit. pose proof Hwf as []. pose proof (zlen_nonneg bs).
  unfold write_here. wp_steps. apply store_ok; [lia|rewrite wf_block; lia|].
  unfold finishWrite. zdec (INT32_MAX <? zlen bs). wp_steps. simpl.
  rewrite u64_small by lia. fold (written bs (this s)). split.
  - destruct s as [p w]; simpl in *. apply balanced_same_owner; unfold written;
      simpl; zcase (mDataSize p <? mDataPos p + zlen bs); simpl; try done;
      by destruct (mData p).
  - split; [done|]. exact (written_wrote _ _ Hwf Hb Hfit).
Qed.

Lemma write_here_ok F s bs :
  wf (this s) -> Forall is_byte bs -> mDataPos (this s) + zlen bs <= mDataCapacity (this s) ->
  wpg F (write_here bs (zlen bs)) s (write_post s bs).
Proof.
  intros Hwf Hb Hfit. wp_use write_here_wrote; [done..|]. intros st s' [H1 H2]. split; [done|by left].
Qed.

(** The pattern of every fixed-size writer: write in place if there is room,
    otherwise grow first. *)
Lemma write_or_grow_ok F s bs :
  wf (this s) -> Forall is_byte bs -> fits (this s) (zlen bs) ->
  wpg F (if u64 (mDataPos (this s) + zlen bs) <=? mDataCapacity (this s)
         then write_here bs (zlen bs) else
         let* err := growData (zlen bs) in
         if err =? NO_ERROR then write_here bs (zlen bs) else ret err) s (write_post s bs).
Proof.
  intros Hwf Hb Hf. pose proof Hwf as []. pose proof (zlen_nonneg bs).
  assert (zlen bs <= INT32_MAX) as Hmax.
  { assert (zlen bs <= 3 * (mDataSize (this s) + zlen bs) / 2)
      by (apply Z.div_le_lower_bound; lia). unfold fits in *. lia. }
  rewrite u64_small by lia.
  zcase (mDataPos (this s) + zlen bs <=? mDataCapacity (this s)); [by apply write_here_ok|].
  wp_step. wp_use growData_ok; [done|lia|lia|].
  intros st s1 [Hb1 [(->&d&Hg&Hroom)|[(->&Ht&Hcf)|(_&_&Hbig)]]]; simpl.
  - wp_use write_here_ok; [apply Hg|done|destruct Hg; lia|].
    intros st2 s2 [Hb2 [[-> Hw]|(Hst&[])]]; (split; [by etransitivity|]).
    + left. split; [done|]. by eapply wrote_grown.
    + right. split; [done|]. rewrite (g_size _ _ _ Hg) in *. split; try done.
      by eapply balanced_can_fail.
  - wp_step. split; [done|right]. split; [done|]. by apply set_mError_failed.
  - exfalso. unfold fits in Hf. lia.
Qed.

(** * Fixed-size values *)

Lemma writeAligned_ok F s n v :
  wf (this s) -> fits (this s) (Z.of_nat n) ->
  wpg F (writeAligned n v) s (write_post s (le_bytes n v)).
Proof.
  intros Hwf Hf. pose proof (zlen_le_bytes n v) as El. unfold writeAligned. wp_steps.
  rewrite <- El. apply write_or_grow_ok; rewrite ?El; auto with binder.
Qed.

(** * Padded writes *)

(** Rounding up to a multiple of 4. *)
Definition padz (n : Z) : Z := 4 * ((n + 3) / 4).

Lemma padz_bounds n : n <= padz n < n + 4.
Proof.
  unfold padz. pose proof (Z.div_mod (n + 3) 4). pose proof (Z.mod_pos_bound (n + 3) 4). lia.
Qed.

Lemma padz_div4 n : padz n mod 4 = 0.
Proof. unfold padz. rewrite Z.mul_comm. apply Z_mod_mult. Qed.

Lemma land_not3 x : 0 <= x < 18446744073709551616 -> Z.land x (SIZE_MAX - 3) = 4 * (x / 4).
Proof.
  intros Hx. change (SIZE_MAX - 3) with (Z.shiftl (Z.ones 62) 2).
  change (4 * (x / 4)) with (2 ^ 2 * (x / 2 ^ 2)).
  rewrite Z.mul_comm, <- Z.shiftl_mul_pow2, <- Z.shiftr_div_pow2 by lia.
  apply Z.bits_inj'. intros i Hi. rewrite Z.land_spec.
  rewrite !Z.shiftl_spec by lia.
  destruct (Z.lt_ge_cases i 2).
  - rewrite !(Z.testbit_neg_r _ (i - 2)) by lia. apply andb_false_r.
  - rewrite Z.shiftr_spec by lia. replace (i - 2 + 2) with i by lia.
    destruct (Z.lt_ge_cases (i - 2) 62).
    + rewrite Z.ones_spec_low by lia. apply andb_true_r.
    + rewrite Z.ones_spec_high by lia. rewrite andb_false_r. symmetry.
      destruct (Z.eq_dec x 0) as [->|]; [apply Z.bits_0|].
      apply Z.bits_above_log2; [lia|]. apply Z.log2_lt_pow2; [lia|].
      apply Z.lt_le_trans with (2 ^ 64); [lia|]. apply Z.pow_le_mono_r; lia.
Qed.

Lemma PAD_SIZE_UNSAFE_eq s : 0 <= s <= SIZE_MAX - 3 -> PAD_SIZE_UNSAFE s = padz s.
Proof.
  intros. unfold PAD_SIZE_UNSAFE, padz. rewrite u64_small by lia. apply land_not3. lia.
Qed.

Lemma pad_size_ok {S} F (s : S) n Q :
  0 <= n <= INT32_MAX -> Q (padz n) s -> wpg F (pad_size n) s Q.
Proof.
  intros Hn HQ. unfold pad_size. zdec (SIZE_MAX - 3 <? n). wp_step.
  by rewrite PAD_SIZE_UNSAFE_eq by lia.
Qed.

Lemma le_val_app a b : le_val (a ++ b) = le_val a + 256 ^ zlen a * le_val b.
Proof.
  induction a as [|x a IH]; cbn [le_val app].
  - change (zlen (@nil Z)) with 0. lia.
  - rewrite IH, zlen_cons, Z.pow_add_r by (try apply zlen_nonneg; lia). lia.
Qed.

Lemma le_val_zeros n : le_val (zeros n) = 0.
Proof. unfold zeros. induction (Z.to_nat n); simpl; [done|]. by rewrite IHn0. Qed.

(** The mask keeps the bytes of the word that carry data and clears the pad. *)
Lemma pad_mask_bytes w n :
  zlen w = 4 -> Forall is_byte w -> 1 <= n <= 3 ->
  le_bytes 4 (Z.land (le_val w) (pad_mask n)) = ztake (4 - n) w ++ zeros n.
Proof.
  intros Hw Hb Hn.
  assert (pad_mask n = Z.ones (8 * (4 - n))) as ->.
  { assert (n = 1 \/ n = 2 \/ n = 3) as [-> | [-> | ->]] by lia; done. }
  rewrite Z.land_ones, Z.pow_mul_r by lia. change (2 ^ 8) with 256.
  rewrite <- (ztake_zdrop (4 - n) w) at 1. rewrite le_val_app, zlen_ztake by lia.
  rewrite Z.mul_comm, Z_mod_plus_full.
  assert (zlen (ztake (4 - n) w) = 4 - n) as Hl by (apply zlen_ztake; lia).
  pose proof (le_val_range (ztake (4 - n) w) ltac:(auto with binder)) as Hr.
  rewrite Hl in Hr. rewrite Z.mod_small by lia.
  set (x := ztake (4 - n) w ++ zeros n).
  assert (length x = 4%nat) as Hx.
  { assert (zlen x = 4) by (unfold x; rewrite zlen_app, zlen_zeros; lia). unfold zlen in *. lia. }
  rewrite <- (le_bytes_le_val x) by (unfold x; apply Forall_app; split; auto with binder).
  rewrite Hx. f_equal. unfold x. rewrite le_val_app, le_val_zeros. lia.
Qed.

(** ** [writeInplace]

    The reserved region holds [len] bytes the caller fills, followed by zero
    pad bytes: nothing of the fresh memory leaks through the padding. *)

Definition reserve_post (s : PS) (len : Z) (o : option Z) (s' : PS) : Prop :=
  balanced s s' /\
  ((o = pointer_of (this s') (mDataPos (this s)) /\ exists y, zlen y = len /\ Forall is_byte y /\
      wrote (this s) (this s') (y ++ zeros (padz len - len))) \/
   (o = None /\ this s' = set_mError NO_MEMORY (this s) /\ can_fail (world s))).

Lemma slice_bytes d off len : Forall is_byte d -> Forall is_byte (ztake len (zdrop off d)).
Proof. auto with binder. Qed.

(** The block of [p] with its last reserved word masked. *)
Lemma mask_block d pos len :
  Forall is_byte d -> 0 <= pos -> 0 <= len -> pos + padz len <= zlen d -> padz len <> len ->
  overwrite d (pos + padz len - 4)
    (le_bytes 4 (Z.land (le_val (ztake 4 (zdrop (pos + padz len - 4) d)))
                        (pad_mask (padz len - len)))) =
  overwrite d pos (ztake len (zdrop pos d) ++ zeros (padz len - len)).
Proof.
  intros Hb Hp Hl Hd Hne. pose proof (padz_bounds len).
  assert (4 <= padz len).
  { unfold padz in *. pose proof (Z.div_pos (len + 3) 4).
    assert (0 < (len + 3) / 4) by (apply Z.div_str_pos; lia). lia. }
  assert (zlen (ztake 4 (zdrop (pos + padz len - 4) d)) = 4) as Hw
    by (rewrite zlen_ztake; [done|]; rewrite zlen_zdrop; lia).
  rewrite pad_mask_bytes; [|done|auto with binder|lia].
  rewrite ztake_ztake by lia. apply byte_at_ext. intros i _.
  assert (zlen (ztake len (zdrop pos d)) = len) as E1
    by (rewrite zlen_ztake; [done|]; rewrite zlen_zdrop; lia).
  assert (zlen (ztake (4 - (padz len - len)) (zdrop (pos + padz len - 4) d))
          = 4 - (padz len - len)) as E2
    by (rewrite zlen_ztake; [done|]; rewrite zlen_zdrop; lia).
  rewrite !byte_at_overwrite by lia. rewrite !zlen_app, E1, E2, zlen_zeros by lia.
  rewrite !byte_at_app, E1, E2.
  replace (pos + padz len - 4 + (4 - (padz len - len) + (padz len - len)))
    with (pos + padz len) by lia.
  replace (pos + (len + (padz len - len))) with (pos + padz len) by lia.
  zcase (pos + padz len - 4 <=? i); zcase (i <? pos + padz len); simpl; zcase (pos <=? i);
    simpl; try lia; try done;
    zcase (i - (pos + padz len - 4) <? 4 - (padz len - len)); zcase (i - pos <? len);
    try lia; rewrite ?byte_at_slice by lia; try (f_equal; lia).
Qed.

Lemma finishWrite_poke F s x n Q :
  wf (this s) -> n = zlen x -> mDataPos (this s) + n <= mDataCapacity (this s) ->
  (forall st, Q st (mkPS (written x (this s)) (world s))) ->
  wpg F (finishWrite n) (mkPS (poke (mDataPos (this s)) x (this s)) (world s)) Q.
Proof.
  intros Hwf -> Hfit HQ. pose proof Hwf as []. pose proof (zlen_nonneg x).
  unfold finishWrite. zdec (INT32_MAX <? zlen x). wp_steps. simpl.
  rewrite u64_small by lia. fold (written x (this s)). apply HQ.
Qed.

Lemma writeInplace_here_ok F s len :
  wf (this s) -> 0 <= len -> mDataPos (this s) + padz len <= mDataCapacity (this s) ->
  wpg F (writeInplace_here len (padz len)) s (fun o s' => balanced s s' /\
    o = pointer_of (this s') (mDataPos (this s)) /\
    exists y, zlen y = len /\ Forall is_byte y /\
      wrote (this s) (this s') (y ++ zeros (padz len - len))).
Proof.
  intros Hwf Hl Hfit. pose proof Hwf as []. pose proof (padz_bounds len).
  set (y := ztake len (zdrop (mDataPos (this s)) (data_block (this s)))).
  assert (zlen y = len) as Hy by (unfold y; rewrite zlen_ztake; [done|]; rewrite zlen_zdrop; lia).
  set (x := y ++ zeros (padz len - len)).
  assert (zlen x = padz len) as Hx by (unfold x; rewrite zlen_app, zlen_zeros; lia).
  unfold writeInplace_here. wp_step. wp_step. wp_step.
  apply (wpg_mono _ _ _ (fun _ s' => s' = mkPS (poke (mDataPos (this s)) x (this s)) (world s))).
  - zcase (padz len =? len).
    + wp_step. destruct s as [p w]; simpl in *. f_equal. unfold poke, x, y.
      rewrite E, Z.sub_diag. change (zeros 0) with (@nil Z). rewrite app_nil_r.
      unfold data_block in *. destruct p; simpl in *. destruct mData as [d|]; simpl in *; [|done].
      unfold set_mData; simpl. do 2 f_equal.
      apply byte_at_ext. intros i _. rewrite byte_at_overwrite by lia. fold y. rewrite Hy.
      zcase (mDataPos <=? i); zcase (i <? mDataPos + len); simpl; try done.
      unfold y. rewrite byte_at_slice by lia. f_equal. lia.
    + wp_step.
      assert (4 <= padz len).
      { unfold padz in *. assert (0 < (len + 3) / 4) by (apply Z.div_str_pos; lia). lia. }
      apply load_ok; [lia|lia|lia|].
      apply store_ok; [lia|rewrite zlen_le_bytes; lia|].
      destruct s as [p w]; simpl in *. f_equal. unfold poke, x, y, data_block in *.
      destruct (mData p) as [d|]; simpl in *; [|done]. do 2 f_equal.
      apply mask_block; try done; lia.
  - intros [] s' ->. wp_step. eapply finishWrite_poke; [done|done|lia|].
    intros _. wp_step. split.
    + destruct s as [p w]; simpl in *. apply balanced_same_owner; unfold written;
        simpl; zcase (mDataSize p <? mDataPos p + zlen x); simpl; try done; by destruct (mData p).
    + split; [done|]. exists y. split_and!; [done|unfold y; auto with binder|].
      fold x. apply written_wrote; [done| |lia]. unfold x, y. apply Forall_app; split; auto with binder.
Qed.

Lemma writeInplace_ok F s len :
  wf (this s) -> 0 <= len -> fits (this s) (padz len) ->
  wpg F (writeInplace len) s (reserve_post s len).
Proof.
  intros Hwf Hl Hf. pose proof Hwf as []. pose proof (padz_bounds len).
  assert (padz len <= INT32_MAX).
  { assert (padz len <= 3 * (mDataSize (this s) + padz len) / 2)
      by (apply Z.div_le_lower_bound; lia). unfold fits in Hf. lia. }
  unfold writeInplace. zdec (INT32_MAX <? len). wp_step. apply pad_size_ok; [lia|].
  wp_steps. rewrite u64_small by lia. zdec (mDataPos (this s) + padz len <? mDataPos (this s)).
  wp_steps. zcase (mDataPos (this s) + padz len <=? mDataCapacity (this s));
    [wp_use writeInplace_here_ok; [done..|]; intros o s' [Hb Ho]; split; [done|by left]|].
  wp_step. wp_use growData_ok; [done|lia|lia|].
  intros st s1 [Hb1 [(->&d&Hg&Hroom)|[(->&Ht&Hcf)|(_&_&Hbig)]]]; simpl.
  - wp_use writeInplace_here_ok; [apply Hg|done|destruct Hg; lia|].
    intros o s2 (Hb2 & -> & y & Hy & Hby & Hw). split; [by etransitivity|].
    left. rewrite (g_pos _ _ _ Hg). split; [done|]. exists y. split_and!; [done..|].
    by eapply wrote_grown.
  - wp_step. split; [done|right]. done.
  - exfalso. unfold fits in Hf. lia.
Qed.

(** ** Filling a reserved region *)

Lemma poke_wrote p p1 x i bs :
  wf p -> wrote p p1 x -> Forall is_byte bs -> 0 <= i -> i + zlen bs <= zlen x ->
  wrote p (poke (mDataPos p + i) bs p1) (overwrite x i bs).
Proof.
  intros Hwf Hw Hb Hi Hl. pose proof (wrote_size _ _ _ Hwf Hw) as Hsz.
  pose proof (wf_pos _ Hwf) as Hpos. pose proof (zlen_contents _ Hwf) as Hzc.
  destruct Hw as [Hw1 Hp1 Hc1 Ho1 Hm1]. pose proof (zlen_contents _ Hw1) as Ec.
  pose proof Hw1 as [].
  pose proof (zlen_nonneg bs).
  assert (data_block (poke (mDataPos p + i) bs p1) =
          overwrite (data_block p1) (mDataPos p + i) bs) as Eb by (apply poke_block; lia).
  assert (zlen (overwrite x i bs) = zlen x) as Ex by (rewrite zlen_overwrite by lia; lia).
  split; [|simpl; lia| |exact Ho1|exact Hm1].
  - split; simpl; rewrite ?Eb; try done.
    + rewrite zlen_overwrite; lia.
    + by apply overwrite_bytes.
  - unfold contents at 1. rewrite Eb. simpl.
    rewrite <- (Z.max_l (mDataSize p1) (mDataPos p + i + zlen bs)) by lia.
    rewrite ztake_overwrite by lia. fold (contents p1). rewrite Hc1.
    apply overwrite_inside; lia.
Qed.

Lemma store_wrote F s s1 x i bs :
  wf (this s) -> balanced s s1 -> wrote (this s) (this s1) x -> Forall is_byte bs ->
  0 <= i -> i + zlen bs <= zlen x ->
  wpg F (store (mDataPos (this s) + i) bs) s1 (fun _ s2 =>
    balanced s s2 /\ wrote (this s) (this s2) (overwrite x i bs)).
Proof.
  intros Hwf Hbal Hw Hb Hi Hl. pose proof (wf_pos _ Hwf).
  pose proof (wrote_size _ _ _ Hwf Hw) as Hsz. pose proof (wr_wf _ _ _ Hw) as [].
  apply store_ok; [lia|lia|]. split; simpl.
  - etransitivity; [exact Hbal|]. destruct s1 as [p1 w1]. simpl.
    apply balanced_same_owner; simpl; try done. by destruct (mData p1).
  - by apply poke_wrote.
Qed.

(** A byte string as the padded writers lay it out. *)
Definition padded (bs : bytes) : bytes := bs ++ zeros (padz (zlen bs) - zlen bs).

Lemma zlen_padded bs : zlen (padded bs) = padz (zlen bs).
Proof.
  unfold padded. pose proof (padz_bounds (zlen bs)). rewrite zlen_app, zlen_zeros; lia.
Qed.
#[export] Hint Rewrite zlen_padded : zlen.

Lemma overwrite_head y a z : zlen y = zlen a -> overwrite (y ++ z) 0 a = a ++ z.
Proof.
  intros. unfold overwrite. simpl. rewrite Z.add_0_l. by rewrite zdrop_app_exact.
Qed.

(** A parcel with data has a block, so pointers into it are not null. *)
Lemma pointer_of_Some p off : wf p -> 0 < mDataSize p -> pointer_of p off = Some off.
Proof.
  intros [] Hs. unfold pointer_of, data_block in *. destruct (mData p); [done|].
  simpl in *. change (zlen (@nil Z)) with 0 in *. lia.
Qed.

(** [write] puts the bytes and clears the padding.  When there is no block and
    nothing to write, the status is the parcel's error. *)
Lemma write_ok_weak F s data :
  wf (this s) -> Forall is_byte data -> fits (this s) (padz (zlen data)) ->
  wpg F (write (Some data) (zlen data)) s (fun st s' => balanced s s' /\
    ((wrote (this s) (this s') (padded data) /\ (st = NO_ERROR \/ mDataSize (this s') = 0)) \/
     (st <> NO_ERROR /\ failed s (zlen (padded data)) s'))).
Proof.
  intros Hwf Hb Hf. pose proof (zlen_nonneg data). pose proof (padz_bounds (zlen data)).
  unfold write. zcase (INT32_MAX <? zlen data).
  { exfalso. unfold fits in Hf. pose proof (wf_size _ Hwf).
    assert (zlen data <= 3 * (mDataSize (this s) + padz (zlen data)) / 2)
      by (apply Z.div_le_lower_bound; lia). lia. }
  wp_step. wp_use writeInplace_ok; [done|lia|done|].
  intros o s1 [Hbal [(->&y&Hy&Hby&Hw)|(->&Ht&Hcf)]].
  - pose proof (wr_wf _ _ _ Hw) as Hwf1. pose proof (wf_size _ Hwf1).
    destruct (decide (mDataSize (this s1) = 0)) as [Hz|Hz].
    + pose proof (wf_pos _ Hwf1). pose proof (wr_pos _ _ _ Hw) as Ep. zl.
      pose proof (wf_pos _ Hwf). rewrite zlen_zeros in Ep by lia.
      assert (zlen data = 0) as Hd by lia. apply zlen_zero in Hd as ->. apply zlen_zero in Hy as ->.
      assert (mDataPos (this s) = 0) as Hp0 by lia.
      unfold pointer_of. rewrite Hp0. simpl. destruct (mData (this s1)) eqn:Hd.
      * wp_steps. simpl in *.
        rewrite <- (Z.add_0_r (mDataPos (this s))) in Hp0. rewrite <- Hp0.
        wp_use (store_wrote _ s s1 _ 0 []); [exact Hwf|exact Hbal|exact Hw|done|lia|by vm_compute|].
        intros [] s2 [Hb2 Hw2]. wp_step. split; [done|]. left. split; [|by left]. exact Hw2.
      * wp_step. split; [done|left]. split; [exact Hw|by right].
    + rewrite pointer_of_Some by (done || lia).
      rewrite mem_read_ok by lia. rewrite zdrop_0, ztake_ge by lia. wp_steps.
      rewrite <- (Z.add_0_r (mDataPos (this s))).
      wp_use store_wrote; [exact Hwf|exact Hbal|exact Hw|done|lia|zl; rewrite zlen_zeros; lia|].
      intros [] s2 [Hb2 Hw2]. wp_step. split; [done|left]. split; [|by left].
      by rewrite overwrite_head in Hw2.
  - wp_step. split; [done|right]. rewrite Ht. split; [done|].
    apply set_mError_failed; auto with binder.
Qed.

Lemma write_ok F s data :
  wf (this s) -> Forall is_byte data -> fits (this s) (padz (zlen data)) ->
  0 < mDataSize (this s) \/ 0 < zlen data ->
  wpg F (write (Some data) (zlen data)) s (write_post s (padded data)).
Proof.
  intros Hwf Hb Hf Hne. wp_use write_ok_weak; [done..|].
  intros st s' [Hbal [[Hw Hst]|?]]; split; [done| |done|tauto]. left. split; [|done].
  destruct Hst as [|Hz]; [done|]. exfalso. pose proof (wrote_size _ _ _ Hwf Hw) as E. zl.
  pose proof (wf_pos _ Hwf). pose proof (padz_bounds (zlen data)). lia.
Qed.

(** * Primitives, arrays, strings *)

Lemma writeInt32_ok F s v :
  wf (this s) -> fits (this s) 4 -> wpg F (writeInt32 v) s (write_post s (le_bytes 4 v)).
Proof. intros. by apply writeAligned_ok. Qed.

Lemma writeInt64_ok F s v :
  wf (this s) -> fits (this s) 8 -> wpg F (writeInt64 v) s (write_post s (le_bytes 8 v)).
Proof. intros. by apply writeAligned_ok. Qed.

Lemma zlen_array_bytes n vals : zlen (array_bytes n vals) = Z.of_nat n * zlen vals.
Proof.
  unfold array_bytes. induction vals as [|v vals IH]; cbn [map concat].
  - change (zlen (@nil Z)) with 0. lia.
  - rewrite zlen_app, zlen_le_bytes, IH, zlen_cons. lia.
Qed.
#[export] Hint Rewrite zlen_array_bytes : zlen.

Lemma array_bytes_is_byte n vals : Forall is_byte (array_bytes n vals).
Proof.
  unfold array_bytes. induction vals; cbn [map concat]; [constructor|].
  apply Forall_app. auto with binder.
Qed.
#[export] Hint Resolve array_bytes_is_byte : binder.

Lemma fits_bound s n : wf (this s) -> fits (this s) n -> n <= 1431655765.
Proof.
  intros Hwf Hf. unfold fits in Hf. pose proof (wf_size _ Hwf).
  assert (3 * n / 2 <= 3 * (mDataSize (this s) + n) / 2) by (apply Z.div_le_mono; lia).
  pose proof (Z.div_mod (3 * n) 2). pose proof (Z.mod_pos_bound (3 * n) 2). lia.
Qed.

(** A reserved region filled with a string and its terminator. *)
Lemma fill_terminated F s s1 y str term :
  wf (this s) -> balanced s s1 -> Forall is_byte str -> Forall is_byte term ->
  zlen y = zlen str + zlen term ->
  wrote (this s) (this s1) (y ++ zeros (padz (zlen y) - zlen y)) ->
  wpg F (store (mDataPos (this s)) str ;;
         store (mDataPos (this s) + zlen str) term ;; ret NO_ERROR) s1
    (fun st s2 => st = NO_ERROR /\ balanced s s2 /\
       wrote (this s) (this s2) (padded (str ++ term))).
Proof.
  intros Hwf Hbal Hs Ht Hy Hw. pose proof (zlen_nonneg str). pose proof (zlen_nonneg term).
  pose proof (padz_bounds (zlen y)). wp_step.
  rewrite <- (Z.add_0_r (mDataPos (this s))) at 1.
  wp_use store_wrote; [exact Hwf|exact Hbal|exact Hw|done|lia|zl; rewrite zlen_zeros; lia|].
  intros [] s2 [Hb2 Hw2]. wp_step.
  wp_use store_wrote; [exact Hwf|exact Hb2|exact Hw2|done|lia| |].
  { rewrite zlen_overwrite by (zl; rewrite zlen_zeros; lia). zl. rewrite zlen_zeros; lia. }
  intros [] s3 [Hb3 Hw3]. wp_step. split_and!; [done..|].
  assert (zlen (ztake (zlen str) y) = zlen str) as E1 by (apply zlen_ztake; lia).
  assert (zlen (zdrop (zlen str) y) = zlen term) as E2 by (rewrite zlen_zdrop; lia).
  unfold padded. rewrite zlen_app, <- Hy.
  generalize dependent (zeros (padz (zlen y) - zlen y)). intros z _ _ Hw3.
  rewrite <- (ztake_zdrop (zlen str) y), <- app_assoc, overwrite_head in Hw3 by done.
  unfold overwrite in Hw3. rewrite ztake_app_exact in Hw3 by done.
  rewrite (app_assoc str (zdrop (zlen str) y) z), zdrop_app_exact in Hw3
    by (rewrite zlen_app; lia).
  by rewrite <- app_assoc.
Qed.

Lemma writeInplace_fill F s len (k : Z -> M PS status_t) bs :
  wf (this s) -> 0 <= len -> fits (this s) (padz len) ->
  0 < mDataSize (this s) \/ 0 < len ->
  (forall s1 y, balanced s s1 -> zlen y = len ->
     wrote (this s) (this s1) (y ++ zeros (padz len - len)) ->
     wpg F (k (mDataPos (this s))) s1 (fun st s2 => st = NO_ERROR /\ balanced s s2 /\
       wrote (this s) (this s2) bs)) ->
  wpg F (let* data := writeInplace len in
         match data with Some off => k off | None => getp mError end) s (write_post s bs).
Proof.
  intros Hwf Hl Hf Hne Hk. wp_step. wp_use writeInplace_ok; [done|lia|done|].
  intros o s1 [Hbal [(->&y&Hy&Hby&Hw)|(->&Ht&Hcf)]].
  - rewrite pointer_of_Some; [|apply Hw|].
    2:{ rewrite (wrote_size _ _ _ Hwf Hw). pose proof (wf_pos _ Hwf). zl.
        pose proof (padz_bounds len). rewrite zlen_zeros by lia. lia. }
    wp_use Hk; [done..|]. intros st s2 (->&Hb2&Hw2). split; [done|]. by left.
  - wp_step. split; [done|right]. rewrite Ht. split; [done|].
    apply set_mError_failed; auto with binder.
Qed.

Definition string8_bytes (str : bytes) : bytes :=
  le_bytes 4 (zlen str) ++ padded (str ++ [0]).
Definition string16_bytes (str : list Z) : bytes :=
  le_bytes 4 (zlen str) ++ padded (array_bytes 2 str ++ [0; 0]).

Lemma writeString8_ok F s str :
  wf (this s) -> Forall is_byte str -> fits (this s) (zlen (string8_bytes str)) ->
  wpg F (writeString8 (Some str) (zlen str)) s (write_post s (string8_bytes str)).
Proof.
  intros Hwf Hb Hf. unfold string8_bytes in *. zl. pose proof (zlen_nonneg str).
  change (Z.of_nat 4) with 4 in *. change (1 + 0) with 1 in *.
  pose proof (padz_bounds (zlen str + 1)). pose proof (fits_bound _ _ Hwf Hf).
  unfold writeString8.
  apply (write_post_seq _ (writeInt32 (zlen str))
    (let* data := writeInplace (u64 (zlen str + 1)) in
     match data with
     | Some off => let* src := require (mem_read str 0 (zlen str)) in
                   store off src ;; store (off + zlen str) [0] ;; ret NO_ERROR
     | None => getp mError
     end)); [done|by zl|intros; by apply writeInt32_ok|].
  intros s1 Hwf1 Hf1. zl. change (1 + 0) with 1 in *. rewrite u64_small by lia.
  rewrite mem_read_ok, zdrop_0, ztake_ge by lia.
  apply (writeInplace_fill _ _ (zlen str + 1)); [done|lia|done|lia|].
  intros s2 y Hb2 Hy Hw. do 2 wp_step.
  apply (fill_terminated _ _ _ y str [0]); auto; [apply (Forall_zeros 1)|by rewrite Hy].
Qed.

Lemma writeString16_ok F s str :
  wf (this s) -> fits (this s) (zlen (string16_bytes str)) ->
  wpg F (writeString16 (Some str) (zlen str)) s (write_post s (string16_bytes str)).
Proof.
  intros Hwf Hf. unfold string16_bytes in *. zl. pose proof (zlen_nonneg str).
  change (Z.of_nat 4) with 4 in *. change (Z.of_nat 2) with 2 in *. change (1 + (1 + 0)) with 2 in *.
  pose proof (padz_bounds (2 * zlen str + 2)). pose proof (fits_bound _ _ Hwf Hf).
  unfold writeString16.
  apply (write_post_seq _ (writeInt32 (zlen str))
    (let* data := writeInplace (u64 (u64 (zlen str * 2) + 2)) in
     match data with
     | Some off => let* src := require (mem_read (array_bytes 2 str) 0 (u64 (zlen str * 2))) in
                   store off src ;; store (off + u64 (zlen str * 2)) [0; 0] ;; ret NO_ERROR
     | None => getp mError
     end)); [done|by zl|intros; by apply writeInt32_ok|].
  intros s1 Hwf1 Hf1. zl. change (Z.of_nat 2) with 2 in *. change (1 + (1 + 0)) with 2 in *.
  rewrite !u64_small by (rewrite ?u64_small by lia; lia).
  rewrite mem_read_ok, zdrop_0, ztake_ge by (zl; lia).
  apply (writeInplace_fill _ _ (zlen str * 2 + 2));
    [done|lia|by rewrite (Z.mul_comm (zlen str))|lia|].
  intros s2 y Hb2 Hy Hw. do 2 wp_step.
  replace (zlen str * 2) with (zlen (array_bytes 2 str)) by (zl; lia).
  apply (fill_terminated _ _ _ y _ [0; 0]); auto with binder;
    [apply (Forall_zeros 2)|zl; lia|by rewrite Hy].
Qed.
