(* ===== verification/ParcelReadSpec.v ===== *)
(** Correctness of the readers of a Parcel.

    [validateReadData] sorts the object table (an insertion sort, proved to
    sort and to permute) and accepts a read exactly when it overlaps no object
    record.  A reader returns the bytes at the position, or a precise error,
    and moves past them; [decodes r bs v] is the specification the round trips
    use. *)

From S2P Require Import Prelude Errors ParcelState ParcelWrite ParcelRead ParcelInv ParcelWriteSpec.
From Stdlib Require Import Sorting.Sorted Sorting.Permutation.

(** * The insertion sort *)

Lemma shift_right_split temp k l :
  (k < length l)%nat ->
  exists a b, take k l = a ++ b /\
    shift_right temp k l = a ++ [temp] ++ b ++ drop (S k) l /\
    Forall (fun v => temp < v) b /\
    (forall v, last a = Some v -> v <= temp).
Proof.
  revert l. induction k as [|k IH]; intros l Hk.
  - destruct l as [|x l]; [simpl in Hk; lia|]. exists [], []. split_and!; done.
  - cbn [shift_right]. destruct (lookup_lt_is_Some_2 l k ltac:(lia)) as [v Hv]. rewrite Hv.
    rewrite (take_S_r _ _ _ Hv). zcase (temp <? v).
    + destruct (IH (<[S k := v]> l)) as (a & b & H1 & H2 & H3 & H4); [rewrite length_insert; lia|].
      rewrite take_insert_ge in H1 by lia. exists a, (b ++ [v]). split_and!; try done.
      * by rewrite H1, app_assoc.
      * rewrite H2, <- app_assoc. do 3 f_equal.
        rewrite (drop_S _ v (S k)), drop_insert_lt by (try apply list_lookup_insert_eq; lia).
        done.
      * apply Forall_app. split; [done|]. by constructor.
    + exists (take k l ++ [v]), []. split_and!; try done.
      * by rewrite app_nil_r.
      * rewrite insert_take_drop by lia. rewrite (take_S_r _ _ _ Hv). simpl.
        by rewrite <- app_assoc.
      * intros w. rewrite last_snoc. intros [= <-]. lia.
Qed.

Lemma StronglySorted_app_inv {A} (R : A -> A -> Prop) a b :
  StronglySorted R (a ++ b) ->
  StronglySorted R a /\ StronglySorted R b /\ (forall x y, x ∈ a -> y ∈ b -> R x y).
Proof.
  induction a as [|x a IH]; simpl; intros H; [split_and!; [constructor|done|]; set_solver|].
  inversion H as [|? ? Hs Hf]; subst. destruct (IH Hs) as (H1 & H2 & H3). split_and!; [|done|].
  - constructor; [done|]. rewrite Forall_app in Hf. tauto.
  - intros y z [->|Hy]%elem_of_cons Hz; [|by apply H3].
    rewrite Forall_app in Hf. destruct Hf as [_ Hf]. rewrite Forall_forall in Hf. auto.
Qed.

Lemma StronglySorted_app_intro {A} (R : A -> A -> Prop) a b :
  StronglySorted R a -> StronglySorted R b -> (forall x y, x ∈ a -> y ∈ b -> R x y) ->
  StronglySorted R (a ++ b).
Proof.
  induction 1 as [|x a Hs IH Hf]; simpl; intros Hb Hab; [done|]. constructor.
  - apply IH; [done|]. intros. apply Hab; [by right|done].
  - apply Forall_app. split; [done|]. apply Forall_forall. intros y Hy. apply Hab; [left|done].
Qed.

(** One round of the outer loop extends the sorted prefix by one element. *)
Lemma shift_right_step temp k l :
  l !! k = Some temp -> StronglySorted Z.le (take k l) ->
  StronglySorted Z.le (take (S k) (shift_right temp k l)) /\
  Permutation (take (S k) (shift_right temp k l)) (take (S k) l) /\
  drop (S k) (shift_right temp k l) = drop (S k) l /\
  length (shift_right temp k l) = length l.
Proof.
  intros Hk Hs. pose proof (lookup_lt_Some _ _ _ Hk) as Hlt.
  destruct (shift_right_split temp k l Hlt) as (a & b & H1 & H2 & H3 & H4).
  assert (length (a ++ [temp] ++ b) = S k) as Hlen.
  { pose proof (f_equal length H1) as E. rewrite length_take, length_app in E.
    rewrite !length_app. simpl. lia. }
  rewrite H2. replace (a ++ [temp] ++ b ++ drop (S k) l)
    with ((a ++ [temp] ++ b) ++ drop (S k) l) by (by rewrite <- !app_assoc).
  assert (take (S k) ((a ++ [temp] ++ b) ++ drop (S k) l) = a ++ [temp] ++ b) as ->
    by (rewrite <- Hlen; apply take_app_length).
  assert (drop (S k) ((a ++ [temp] ++ b) ++ drop (S k) l) = drop (S k) l) as ->
    by (apply drop_app_length'; lia).
  rewrite H1 in Hs. apply StronglySorted_app_inv in Hs as (Sa & Sb & Hab).
  split_and!.
  - apply StronglySorted_app_intro; [done| |].
    + constructor; [done|]. eapply Forall_impl; [exact H3|]. intros x Hx. cbv beta in *. lia.
    + assert (forall x, x ∈ a -> x <= temp) as Ha.
      { intros x Hx. destruct (last a) as [v|] eqn:E; [|apply last_None in E as ->; set_solver].
        specialize (H4 v eq_refl). apply last_Some in E as [a' ->].
        apply elem_of_app in Hx as [Hx| ->%list_elem_of_singleton]; [|done].
        apply StronglySorted_app_inv in Sa as (_ & _ & Ha').
        specialize (Ha' x v Hx ltac:(by left)). lia. }
      intros x y Hx [->|Hy]%elem_of_cons; [by apply Ha|by apply Hab].
  - rewrite (take_S_r _ _ _ Hk), H1. rewrite <- app_assoc. apply Permutation_app_head.
    apply Permutation_app_comm.
  - done.
  - rewrite length_app, Hlen, length_drop. lia.
Qed.

Lemma insertion_sort_from_ok n k l :
  (k + n <= length l)%nat -> StronglySorted Z.le (take k l) ->
  let r := insertion_sort_from n k l in
  StronglySorted Z.le (take (k + n) r) /\ Permutation (take (k + n) r) (take (k + n) l) /\
  drop (k + n) r = drop (k + n) l /\ length r = length l.
Proof.
  revert k l. induction n as [|n IH]; intros k l Hk Hs; cbn [insertion_sort_from].
  - rewrite Nat.add_0_r. done.
  - destruct (lookup_lt_is_Some_2 l k ltac:(lia)) as [v Hv]. rewrite Hv.
    destruct (shift_right_step v k l Hv Hs) as (S1 & P1 & D1 & L1).
    destruct (IH (S k) (shift_right v k l) ltac:(lia) S1) as (S2 & P2 & D2 & L2).
    replace (k + S n)%nat with (S k + n)%nat by lia. split_and!; [done| | |lia].
    + etransitivity; [exact P2|].
      rewrite <- (take_drop (S k) (take (S k + n) (shift_right v k l))).
      rewrite <- (take_drop (S k) (take (S k + n) l)).
      rewrite !take_take, !skipn_firstn_comm, D1.
      replace (S k `min` (S k + n))%nat with (S k) by lia. by apply Permutation_app_tail.
    + by rewrite D2, <- !(drop_drop _ n (S k)), D1.
Qed.

(** The in-place sort sorts the table and keeps its entries. *)
Lemma insertion_sort_ok l size :
  (size <= length l)%nat ->
  Sorted Z.le (take size (insertion_sort l size)) /\
  Permutation (take size (insertion_sort l size)) (take size l) /\
  length (insertion_sort l size) = length l.
Proof.
  intros Hs. unfold insertion_sort. destruct size as [|n].
  - simpl. split_and!; [constructor|done|done].
  - replace (S n - 1)%nat with n by lia.
    destruct (insertion_sort_from_ok n 1 l ltac:(lia)) as (S1 & P1 & _ & L1).
    { destruct l; simpl; [constructor|]. repeat constructor. }
    split_and!; [by apply StronglySorted_Sorted|done|done].
Qed.

(** * The sortedness test and the scan *)

Lemma objects_sorted_from_ok l k :
  (k < length l)%nat -> objects_sorted_from l k = true ->
  forall i x y, (i < k)%nat -> l !! i = Some x -> l !! S i = Some y -> x <= y.
Proof.
  induction k as [|k IH]; cbn [objects_sorted_from]; intros Hk H i x y Hi Hx Hy; [lia|].
  destruct (lookup_lt_is_Some_2 l k ltac:(lia)) as [a Ea].
  destruct (lookup_lt_is_Some_2 l (S k) Hk) as [b Eb]. rewrite Ea, Eb in H.
  destruct (b <? a) eqn:E; [done|]. zb.
  destruct (decide (i = k)) as [->|Hne]; [simplify_eq; lia|].
  eapply IH; eauto; lia.
Qed.

Lemma adjacent_sorted (l : list Z) :
  (forall i x y, l !! i = Some x -> l !! S i = Some y -> x <= y) -> Sorted Z.le l.
Proof.
  induction l as [|a l IH]; intros H; constructor.
  - apply IH. intros i x y Hx Hy. by apply (H (S i)).
  - destruct l as [|b l]; constructor. by apply (H O).
Qed.

Lemma objects_sorted_ok l : objects_sorted_from l (length l - 1) = true -> Sorted Z.le l.
Proof.
  intros H. apply adjacent_sorted. intros i x y Hx Hy. pose proof (lookup_lt_Some _ _ _ Hy).
  eapply (objects_sorted_from_ok l (length l - 1)); eauto; lia.
Qed.

Lemma sorted_lookup l i j x y :
  Sorted Z.le l -> (i <= j)%nat -> l !! i = Some x -> l !! j = Some y -> x <= y.
Proof.
  intros Hs%Sorted_StronglySorted; [|intros a b c; lia]. revert i j.
  induction Hs as [|a l Hs IH Hf]; intros i j Hij Hx Hy; [done|].
  destruct i as [|i], j as [|j]; simpl in *; try lia.
  - naive_solver lia.
  - injection Hx as ->. rewrite Forall_forall in Hf.
    apply Hf. apply list_elem_of_lookup. eauto.
  - eapply IH; [|done|done]. lia.
Qed.

(** The scan from a hint whose predecessors all end before the position decides
    whether the range from the position to [ub] touches an object. *)
Lemma scan_objects_ok l fuel pos ub next :
  Sorted Z.le l -> 0 <= next <= zlen l -> fuel = Z.to_nat (zlen l - next) ->
  Forall (fun o => o + sizeof_flat <= pos) (ztake next l) ->
  match scan_objects l fuel pos ub next with
  | Some h => 0 <= h <= zlen l /\ Forall (fun o => o + sizeof_flat <= pos) (ztake h l) /\
              Forall (fun o => o + sizeof_flat <= pos \/ ub <= o) l
  | None => ~ Forall (fun o => o + sizeof_flat <= pos \/ ub <= o) l
  end.
Proof.
  intros Hs. revert next. induction fuel as [|fuel IH]; intros next Hn Hf Hp; cbn [scan_objects].
  - assert (next = zlen l) as -> by lia. rewrite ztake_ge in * by lia.
    split_and!; [lia..|done|]. eapply Forall_impl; [exact Hp|]. tauto.
  - assert (Z.to_nat next < length l)%nat as Hlt by (unfold zlen in *; lia).
    destruct (lookup_lt_is_Some_2 _ _ Hlt) as [o Ho]. rewrite Ho.
    assert (ztake (next + 1) l = ztake next l ++ [o]) as Hsn.
    { unfold ztake. replace (Z.to_nat (next + 1)) with (S (Z.to_nat next)) by lia.
      by apply take_S_r. }
    zcase (o <? ub).
    + zcase (pos <? o + 24).
      * intros Hall. rewrite Forall_forall in Hall.
        destruct (Hall o ltac:(apply list_elem_of_lookup; eauto)); lia.
      * apply (IH (next + 1)); [lia|lia|]. rewrite Hsn. apply Forall_app.
        split; [done|]. constructor; [lia|constructor].
    + split_and!; [lia..|done|]. rewrite <- (ztake_zdrop next l). apply Forall_app. split.
      * eapply Forall_impl; [exact Hp|]. tauto.
      * apply Forall_forall. intros x Hx. right. apply list_elem_of_lookup in Hx as [j Hj].
        unfold zdrop in Hj. rewrite lookup_drop in Hj.
        assert (o <= x) by (eapply (sorted_lookup l _ _ _ _ Hs); [|exact Ho|exact Hj]; lia). lia.
Qed.

(** * The guard *)

(** No object record intersects the [n] bytes at the position. *)
Definition clear (p : Parcel) (n : Z) : Prop :=
  Forall (fun o => o + sizeof_flat <= mDataPos p \/ mDataPos p + n <= o) (objs p).

#[export] Instance clear_dec p n : Decision (clear p n).
Proof. unfold clear. apply _. Defined.

(** Equal up to the order of the object table and its search state. *)
Record peq (p q : Parcel) : Prop := {
  peq_data : mData q = mData p;
  peq_size : mDataSize q = mDataSize p;
  peq_cap : mDataCapacity q = mDataCapacity p;
  peq_pos : mDataPos q = mDataPos p;
  peq_objs : Permutation (objs q) (objs p);
  peq_objsize : mObjectsSize q = mObjectsSize p;
  peq_objcap : mObjectsCapacity q = mObjectsCapacity p;
  peq_owner : mOwner q = mOwner p;
  peq_meta : meta q = meta p;
}.

#[export] Instance peq_equiv : Equivalence peq.
Proof.
  split.
  - intros p. by split.
  - intros p q []. split; done.
  - intros p q r [] []. split; try congruence. by etransitivity.
Qed.

Lemma peq_contents p q : peq p q -> contents q = contents p.
Proof. intros []. unfold contents, data_block. congruence. Qed.

Lemma peq_clear p q n : peq p q -> clear p n -> clear q n.
Proof.
  intros [] H. unfold clear in *. rewrite peq_pos0. by rewrite peq_objs0.
Qed.

Lemma set_pos_peq p q n : peq p q -> peq (set_mDataPos n p) (set_mDataPos n q).
Proof. intros []. by split. Qed.

Lemma set_pos_wf p n : wf p -> mDataPos p <= n <= mDataSize p -> wf (set_mDataPos n p).
Proof.
  intros [] Hn. split; try done; simpl in *; try lia.
  intros S. eapply Forall_impl; [by apply wf_passed|]. intros o Ho. cbv beta in *. lia.
Qed.

Lemma validate_sorted_ok F s ub :
  wf (this s) -> Sorted Z.le (objs (this s)) ->
  wpg F (validate_sorted ub) s (fun st s' =>
    world s' = world s /\ wf (this s') /\ peq (this s) (this s') /\
    mObjects (this s') = mObjects (this s) /\
    st = if decide (Forall (fun o => o + sizeof_flat <= mDataPos (this s) \/ ub <= o)
                      (objs (this s)))
         then NO_ERROR else PERMISSION_DENIED).
Proof.
  intros Hwf Hs. pose proof (zlen_objs _ Hwf) as Hl. pose proof Hwf as [].
  unfold validate_sorted. wp_steps. apply objects_upto_ok; [lia|]. fold (objs (this s)).
  pose proof (scan_objects_ok (objs (this s))
    (Z.to_nat (mObjectsSize (this s) - mNextObjectHint (this s))) (mDataPos (this s)) ub
    (mNextObjectHint (this s)) Hs ltac:(lia) ltac:(f_equal; lia) (wf_passed Hs)) as Hscan.
  destruct (scan_objects _ _ _ _ _) as [h|].
  - destruct Hscan as (Hh & Hp & Hall). wp_steps. rewrite decide_True by done.
    split_and!; try done. split; try done; simpl; lia.
  - wp_steps. rewrite decide_False by done. by split_and!.
Qed.

Lemma set_sorted_wf p : wf p -> Sorted Z.le (objs p) -> wf (set_mObjectsSorted true p).
Proof. intros [] Hs. by split. Qed.

Lemma sorted_objects_peq p :
  wf p ->
  let q := set_mObjectsSorted true (set_mNextObjectHint 0
             (set_mObjects (insertion_sort (mObjects p) (Z.to_nat (mObjectsSize p))) p)) in
  wf q /\ peq p q /\ Sorted Z.le (objs q).
Proof.
  intros Hwf q. pose proof Hwf as [].
  destruct (insertion_sort_ok (mObjects p) (Z.to_nat (mObjectsSize p))) as (Hs & Hp & Hl).
  { unfold zlen in *. lia. }
  assert (Permutation (objs q) (objs p)) as Hperm by exact Hp.
  assert (Sorted Z.le (objs q)) as Hsort by exact Hs.
  split_and!; [|by split|done]. split; try done; simpl; try lia.
  - unfold zlen in *. by rewrite Hl.
  - by rewrite Hperm.
  - intros Ho. rewrite (wf_owner Ho) in *. change (zlen (@nil Z)) with 0 in *.
    by assert (mObjectsSize p = 0) as -> by lia.
Qed.

(** [validateReadData] accepts exactly the ranges clear of objects. *)
Lemma validateReadData_ok F s ub :
  wf (this s) ->
  wpg F (validateReadData ub) s (fun st s' =>
    world s' = world s /\ wf (this s') /\ peq (this s) (this s') /\
    st = if decide (Forall (fun o => o + sizeof_flat <= mDataPos (this s) \/ ub <= o)
                      (objs (this s)))
         then NO_ERROR else PERMISSION_DENIED).
Proof.
  intros Hwf. pose proof Hwf as []. pose proof (zlen_objs _ Hwf) as Hl.
  unfold validateReadData. wp_steps.
  destruct (mObjectsSorted (this s) || (mObjectsSize (this s) <=? 1)) eqn:E.
  - wp_use validate_sorted_ok; [done| |].
    2:{ intros st s' (H1 & H2 & H3 & _ & H5). by split_and!. }
    apply orb_true_iff in E as [E|E]; [auto|]. zb.
    destruct (objs (this s)) as [|a [|b l]]; [by repeat constructor..|].
    zl. pose proof (zlen_nonneg l). lia.
  - wp_step. apply objects_upto_ok; [lia|]. fold (objs (this s)).
    destruct (objects_sorted_from _ _) eqn:Es.
    + apply objects_sorted_ok in Es. wp_steps.
      wp_use (validate_sorted_ok _ (mkPS (set_mObjectsSorted true (this s)) (world s)));
        [by apply set_sorted_wf|done|].
      intros st s' (H1 & H2 & H3 & _ & H5). split_and!; try done.
      etransitivity; [|exact H3]. by split.
    + wp_steps. destruct (sorted_objects_peq _ Hwf) as (Hw & Hp & Hs).
      wp_use (validate_sorted_ok _ (mkPS _ (world s))); [exact Hw|exact Hs|].
      intros st s' (H1 & H2 & H3 & _ & H5). split_and!; try done.
      * by etransitivity.
      * simpl in *. rewrite H5. apply decide_ext. by rewrite (peq_objs _ _ Hp).
Qed.

Definition guard_status (p : Parcel) (n : Z) : status_t :=
  if decide (clear p n) then NO_ERROR else PERMISSION_DENIED.

Lemma guard_objects_ok F s n :
  wf (this s) -> 0 <= n <= INT32_MAX + 4 ->
  wpg F (guard_objects n) s (fun st s' =>
    world s' = world s /\ wf (this s') /\ peq (this s) (this s') /\
    st = guard_status (this s) n).
Proof.
  intros Hwf Hn. pose proof Hwf as []. unfold guard_objects, guard_status. wp_steps.
  zcase (0 <? mObjectsSize (this s)).
  - rewrite u64_small by lia. by apply validateReadData_ok.
  - wp_step. split_and!; try done. rewrite decide_True; [done|].
    unfold clear. pose proof (zlen_objs _ Hwf) as Hl.
    rewrite (zlen_zero (objs (this s))) by lia. constructor.
Qed.

(** * Readers *)

(** The [n] bytes at the position. *)
Definition upcoming (p : Parcel) (n : Z) : bytes := ztake n (zdrop (mDataPos p) (contents p)).

Lemma upcoming_block p n :
  wf p -> 0 <= n -> mDataPos p + n <= mDataSize p ->
  ztake n (zdrop (mDataPos p) (data_block p)) = upcoming p n.
Proof.
  intros [] Hn Hs. unfold upcoming, contents. apply slice_ext; [lia|done|].
  intros i Hi. symmetry. apply byte_at_ztake. lia.
Qed.

Lemma peq_upcoming p q n : peq p q -> upcoming q n = upcoming p n.
Proof. intros H. unfold upcoming. by rewrite (peq_contents _ _ H), (peq_pos _ _ H). Qed.

(** The parcel after [n] bytes were consumed. *)
Definition consumed (s : PS) (n : Z) (s' : PS) : Prop :=
  world s' = world s /\ wf (this s') /\
  peq (set_mDataPos (mDataPos (this s) + n) (this s)) (this s').

Lemma advance_consumed F s s1 n Q :
  wf (this s) -> 0 <= n -> mDataPos (this s) + n <= mDataSize (this s) ->
  world s1 = world s -> wf (this s1) -> peq (this s) (this s1) ->
  (forall s', consumed s n s' -> Q tt s') ->
  wpg F (advance n) s1 Q.
Proof.
  intros Hwf Hn Hs Hw Hwf1 Hp HQ. unfold advance. wp_step. apply HQ.
  pose proof Hwf as []. rewrite (peq_pos _ _ Hp), u64_small by lia.
  split_and!; simpl; [done| |by apply set_pos_peq].
  apply set_pos_wf; [done|]. rewrite (peq_pos _ _ Hp), (peq_size _ _ Hp). lia.
Qed.

(** The result of an [n]-byte read: what is there, or why not. *)
Definition aligned_result (p : Parcel) (n : Z) : res Z :=
  if mDataSize p <? mDataPos p + n then Err NOT_ENOUGH_DATA
  else if decide (clear p n) then Good (le_val (upcoming p n)) else Err PERMISSION_DENIED.

Definition aligned_state (s : PS) (n : Z) (s' : PS) : Prop :=
  if mDataSize (this s) <? mDataPos (this s) + n then s' = s else consumed s n s'.

Lemma readAligned_ok F s n :
  wf (this s) -> Z.of_nat n <= INT32_MAX ->
  wpg F (readAligned n) s (fun r s' =>
    r = aligned_result (this s) (Z.of_nat n) /\ aligned_state s (Z.of_nat n) s').
Proof.
  intros Hwf Hn. pose proof Hwf as []. unfold readAligned, aligned_result, aligned_state.
  wp_steps. rewrite u64_small by lia.
  zcase (mDataPos (this s) + Z.of_nat n <=? mDataSize (this s)).
  2:{ wp_step. by zdec (mDataSize (this s) <? mDataPos (this s) + Z.of_nat n). }
  zdec (mDataSize (this s) <? mDataPos (this s) + Z.of_nat n).
  wp_step. wp_use guard_objects_ok; [done|lia|].
  intros st s1 (Hw1 & Hwf1 & Hp1 & ->). unfold guard_status.
  destruct (decide (clear (this s) (Z.of_nat n))); simpl.
  - wp_step. apply load_ok; [lia|lia| |].
    { rewrite (ParcelInv.wf_block _ Hwf1), (peq_cap _ _ Hp1). lia. }
    wp_step. eapply (advance_consumed _ s); [done|lia|lia|done|done|done|].
    intros s' Hc. wp_step. split; [|done]. do 2 f_equal.
    rewrite <- (peq_pos _ _ Hp1), upcoming_block, (peq_upcoming _ _ _ Hp1); [done|done|lia|].
    rewrite (peq_pos _ _ Hp1), (peq_size _ _ Hp1). lia.
  - wp_step. eapply (advance_consumed _ s); [done|lia|lia|done|done|done|].
    intros s' Hc. by wp_step.
Qed.

(** [read] and [readInplace]: a padded region of [len] bytes. *)
Lemma readable_eq p len :
  wf p -> 0 <= len <= INT32_MAX ->
  readable p len (padz len) = (mDataPos p + padz len <=? mDataSize p).
Proof.
  intros [] Hl. pose proof (padz_bounds len). unfold readable.
  rewrite u64_small by lia. zdec (mDataPos p <=? mDataPos p + padz len).
  zdec (len <=? padz len). simpl. by rewrite andb_true_r.
Qed.

Lemma readInplace_ok F s len :
  wf (this s) -> 0 <= len <= INT32_MAX ->
  wpg F (readInplace len) s (fun r s' =>
    aligned_state s (padz len) s' /\
    r = if (mDataPos (this s) + padz len <=? mDataSize (this s))
           && bool_decide (clear (this s) (padz len))
        then pointer_of (this s) (mDataPos (this s)) else None).
Proof.
  intros Hwf Hl. pose proof Hwf as []. pose proof (padz_bounds len).
  unfold readInplace, aligned_state. zdec (INT32_MAX <? len). wp_step.
  apply pad_size_ok; [lia|]. wp_steps. rewrite readable_eq by done.
  zcase (mDataPos (this s) + padz len <=? mDataSize (this s)); simpl.
  2:{ wp_step. by zdec (mDataSize (this s) <? mDataPos (this s) + padz len). }
  zdec (mDataSize (this s) <? mDataPos (this s) + padz len).
  wp_step. wp_use guard_objects_ok; [done|lia|].
  intros st s1 (Hw1 & Hwf1 & Hp1 & ->). unfold guard_status.
  case_bool_decide; [rewrite decide_True by done|rewrite decide_False by done]; simpl; wp_step;
    (eapply (advance_consumed _ s); [done|lia|lia|done|done|done|]; intros s' Hc; by wp_step).
Qed.

Lemma read_ok F s len :
  wf (this s) -> 0 <= len <= INT32_MAX ->
  wpg F (read len) s (fun r s' =>
    aligned_state s (padz len) s' /\
    r = if mDataSize (this s) <? mDataPos (this s) + padz len then Err NOT_ENOUGH_DATA
        else if decide (clear (this s) (padz len)) then Good (upcoming (this s) len)
        else Err PERMISSION_DENIED).
Proof.
  intros Hwf Hl. pose proof Hwf as []. pose proof (padz_bounds len).
  unfold read, aligned_state. zdec (INT32_MAX <? len). wp_step.
  apply pad_size_ok; [lia|]. wp_steps. rewrite readable_eq by done.
  zcase (mDataPos (this s) + padz len <=? mDataSize (this s)); simpl.
  2:{ wp_step. by zdec (mDataSize (this s) <? mDataPos (this s) + padz len). }
  zdec (mDataSize (this s) <? mDataPos (this s) + padz len).
  wp_step. wp_use guard_objects_ok; [done|lia|].
  intros st s1 (Hw1 & Hwf1 & Hp1 & ->). unfold guard_status.
  destruct (decide (clear (this s) (padz len))); simpl; wp_step.
  - apply load_ok; [lia|lia| |].
    { rewrite (ParcelInv.wf_block _ Hwf1), (peq_cap _ _ Hp1). lia. }
    wp_step. eapply (advance_consumed _ s); [done|lia|lia|done|done|done|].
    intros s' Hc. wp_step. split; [done|]. f_equal.
    rewrite <- (peq_pos _ _ Hp1), upcoming_block, (peq_upcoming _ _ _ Hp1); [done|done|lia|].
    rewrite (peq_pos _ _ Hp1), (peq_size _ _ Hp1). lia.
  - eapply (advance_consumed _ s); [done|lia|lia|done|done|done|].
    intros s' Hc. by wp_step.
Qed.

(** * Decoding *)

(** The bytes [bs] are next, and no object record lies among them. *)
Record avail (p : Parcel) (bs : bytes) : Prop := {
  av_size : mDataPos p + zlen bs <= mDataSize p;
  av_bytes : upcoming p (zlen bs) = bs;
  av_clear : clear p (zlen bs);
}.

(** [m] reads [bs] as [a]. *)
Definition decodes {A} (m : M PS A) (bs : bytes) (a : A) : Prop :=
  forall F s, wf (this s) -> avail (this s) bs ->
    wpg F m s (fun r s' => r = a /\ consumed s (zlen bs) s').

Lemma upcoming_app p a b :
  upcoming p (zlen (a ++ b)) = a ++ b ->
  upcoming p (zlen a) = a /\ ztake (zlen b) (zdrop (zlen a) (zdrop (mDataPos p) (contents p))) = b.
Proof.
  unfold upcoming, ztake, zdrop, zlen. rewrite !Nat2Z.id, length_app.
  set (l := drop _ _). intros E. split.
  - apply (f_equal (take (length a))) in E. rewrite take_take, take_app_length in E.
    by replace (length a `min` (length a + length b))%nat with (length a) in E by lia.
  - apply (f_equal (drop (length a))) in E. rewrite drop_app_length in E.
    rewrite <- E at 2. rewrite skipn_firstn_comm. f_equal. lia.
Qed.

Lemma avail_app p a b : wf p -> avail p (a ++ b) -> avail p a.
Proof.
  intros Hwf []. destruct (upcoming_app _ _ _ av_bytes0) as [Ha _]. pose proof (zlen_nonneg b).
  zl. split; [lia|done|]. eapply Forall_impl; [exact av_clear0|].
  intros o Ho. cbv beta in *. zl. lia.
Qed.

Lemma avail_rest s s' a b :
  wf (this s) -> avail (this s) (a ++ b) -> consumed s (zlen a) s' -> avail (this s') b.
Proof.
  intros Hwf [] (Hw & Hwf' & Hp). destruct (upcoming_app _ _ _ av_bytes0) as [_ Hb].
  pose proof (zlen_nonneg a). pose proof (wf_pos _ Hwf). split.
  - rewrite (peq_size _ _ Hp), (peq_pos _ _ Hp). simpl. zl. lia.
  - rewrite (peq_upcoming _ _ _ Hp). unfold upcoming. simpl.
    rewrite <- Hb at 2. f_equal. change (contents (set_mDataPos _ (this s))) with (contents (this s)).
    unfold zdrop. rewrite drop_drop. f_equal. lia.
  - apply (peq_clear _ _ _ Hp). unfold clear in *. simpl.
    eapply Forall_impl; [exact av_clear0|]. intros o Ho. cbv beta in *. zl. lia.
Qed.

Lemma consumed_nonempty s n s' : wf (this s) -> consumed s n s' -> 0 < n -> 0 < mDataSize (this s').
Proof.
  intros Hwf (_ & Hwf' & Hp) Hn. pose proof (ParcelInv.wf_pos _ Hwf).
  pose proof (ParcelInv.wf_pos _ Hwf'). rewrite (peq_pos _ _ Hp) in *. simpl in *. lia.
Qed.

Lemma consumed_app s s1 s2 n m :
  consumed s n s1 -> consumed s1 m s2 -> consumed s (n + m) s2.
Proof.
  intros (Hw1 & Hwf1 & Hp1) (Hw2 & Hwf2 & Hp2). split_and!; [congruence|done|].
  etransitivity; [|exact Hp2]. rewrite (peq_pos _ _ Hp1). simpl.
  replace (mDataPos (this s) + (n + m)) with (mDataPos (this s) + n + m) by lia.
  by apply (set_pos_peq _ _ (mDataPos (this s) + n + m)) in Hp1.
Qed.

Lemma decodes_ret {A} (a : A) : decodes (ret a) [] a.
Proof.
  intros F s Hwf Hav. wp_step. split; [done|]. split_and!; [done..|].
  change (zlen (@nil Z)) with 0. rewrite Z.add_0_r. by destruct (this s).
Qed.

Lemma decodes_bind {A B} (m : M PS A) (k : A -> M PS B) a b x y :
  decodes m a x -> decodes (k x) b y -> decodes (let* r := m in k r) (a ++ b) y.
Proof.
  intros Hm Hk F s Hwf Hav. wp_step. wp_use Hm; [done|by eapply avail_app|].
  intros r s1 [-> Hc1]. wp_use Hk; [apply Hc1|by eapply avail_rest|].
  intros r s2 [-> Hc2]. split; [done|]. rewrite zlen_app. by eapply consumed_app.
Qed.

Lemma decodes_res {A B} (m : M PS (res A)) (k : A -> M PS (res B)) a b x y :
  decodes m a (Good x) -> decodes (k x) b y -> decodes (let? r := m in k r) (a ++ b) y.
Proof. intros Hm Hk. by apply (decodes_bind m _ a b (Good x)). Qed.

Lemma decodes_ext {A} (m m' : M PS A) bs a :
  (forall s, m s = m' s) -> decodes m' bs a -> decodes m bs a.
Proof. intros E H F s Hwf Hav. unfold wpg. rewrite E. by apply H. Qed.

Lemma bind_assoc {S A B C} (m : M S A) (k : A -> M S B) (l : B -> M S C) s :
  bind (bind m k) l s = bind m (fun a => bind (k a) l) s.
Proof. unfold bind. by destruct (m s). Qed.

(** A pure step after a read. *)
Lemma decodes_map {A B} (m : M PS A) (f : A -> B) bs a :
  decodes m bs a -> decodes (let* r := m in ret (f r)) bs (f a).
Proof.
  intros Hm. rewrite <- (app_nil_r bs). apply (decodes_bind m _ bs [] a); [done|].
  apply decodes_ret.
Qed.

(** ** Primitives *)

Lemma readAligned_decodes n v :
  Z.of_nat n <= INT32_MAX ->
  decodes (readAligned n) (le_bytes n v) (Good (v mod 256 ^ Z.of_nat n)).
Proof.
  intros Hn F s Hwf []. wp_use readAligned_ok; [done|done|]. zl.
  intros r s' [-> Hst]. unfold aligned_result, aligned_state in *.
  replace (mDataSize (this s) <? mDataPos (this s) + Z.of_nat n) with false in *
    by (symmetry; apply Z.ltb_ge; lia).
  rewrite decide_True by done. split; [|done]. by rewrite av_bytes0, le_val_le_bytes.
Qed.

Lemma readInt32_decodes v : is_s32 v -> decodes readInt32 (le_bytes 4 v) (Good v).
Proof.
  intros Hv. pose proof (decodes_map _ (res_map s32) _ _ (readAligned_decodes 4 v ltac:(lia))) as H.
  cbn [res_map] in H. change (256 ^ Z.of_nat 4) with 4294967296 in H.
  by rewrite s32_mod, s32_small in H.
Qed.

Lemma readUint32_decodes v : is_u32 v -> decodes readUint32 (le_bytes 4 v) (Good v).
Proof.
  intros Hv. pose proof (readAligned_decodes 4 v ltac:(lia)) as H.
  change (256 ^ Z.of_nat 4) with 4294967296 in H. by rewrite Z.mod_small in H by (unfold is_u32 in Hv; lia).
Qed.

Lemma readInt64_decodes v : is_s64 v -> decodes readInt64 (le_bytes 8 v) (Good v).
Proof.
  intros Hv. pose proof (decodes_map _ (res_map s64) _ _ (readAligned_decodes 8 v ltac:(lia))) as H.
  cbn [res_map] in H. change (256 ^ Z.of_nat 8) with 18446744073709551616 in H.
  by rewrite s64_mod, s64_small in H.
Qed.

Lemma readUint64_decodes v : is_u64 v -> decodes readUint64 (le_bytes 8 v) (Good v).
Proof.
  intros Hv. pose proof (readAligned_decodes 8 v ltac:(lia)) as H.
  change (256 ^ Z.of_nat 8) with 18446744073709551616 in H. by rewrite Z.mod_small in H by (unfold is_u64 in Hv; lia).
Qed.

Lemma readInt32_decodes_ v : is_s32 v -> decodes readInt32_ (le_bytes 4 v) v.
Proof. intros Hv. by apply (decodes_map _ or_zero _ (Good v)), readInt32_decodes. Qed.

(** ** In-place regions *)

(** The bytes [bs] at offset [off] of the block. *)
Record region (p : Parcel) (off : Z) (bs : bytes) : Prop := {
  rg_off : 0 <= off;
  rg_fit : off + zlen bs <= zlen (data_block p);
  rg_bytes : ztake (zlen bs) (zdrop off (data_block p)) = bs;
}.

(** [readInplace] returns a pointer to the bytes it skips. *)
Lemma readInplace_region F s bs Q :
  wf (this s) -> 0 < mDataSize (this s) -> avail (this s) (padded bs) ->
  zlen bs <= INT32_MAX ->
  (forall s1, consumed s (padz (zlen bs)) s1 -> region (this s1) (mDataPos (this s)) bs ->
     Q (Some (mDataPos (this s))) s1) ->
  wpg F (readInplace (zlen bs)) s Q.
Proof.
  intros Hwf Hne Hav Hl HQ. pose proof Hav as []. zl. pose proof (zlen_nonneg bs).
  wp_use readInplace_ok; [done|lia|]. intros o s1 [Hst ->].
  zdec (mDataPos (this s) + padz (zlen bs) <=? mDataSize (this s)).
  rewrite bool_decide_true by done. simpl. unfold aligned_state in Hst.
  replace (mDataSize (this s) <? mDataPos (this s) + padz (zlen bs)) with false in Hst
    by (symmetry; apply Z.ltb_ge; lia).
  pose proof (ParcelInv.wf_pos _ Hwf). pose proof (padz_bounds (zlen bs)).
  pose proof Hst as (_ & Hwf1 & Hp1). rewrite pointer_of_Some by done. apply HQ; [done|].
  assert (data_block (this s1) = data_block (this s)) as Ed.
  { unfold data_block. by rewrite (peq_data _ _ Hp1). }
  assert (avail (this s) bs) as Hb by (unfold padded in Hav; by eapply avail_app).
  split; [lia| |]; rewrite Ed.
  - pose proof (ParcelInv.wf_size _ Hwf). rewrite (ParcelInv.wf_block _ Hwf). lia.
  - rewrite upcoming_block; [apply Hb|done|lia|lia].
Qed.

(** Loading a part of a region. *)
Lemma load_region F s off a x b n i Q :
  region (this s) off (a ++ x ++ b) -> i = zlen a -> n = zlen x -> Q x s ->
  wpg F (load (off + i) n) s Q.
Proof.
  intros [Ho Hf Hb] -> -> HQ. zl. pose proof (zlen_nonneg a). pose proof (zlen_nonneg x).
  pose proof (zlen_nonneg b). apply load_ok; [lia..|].
  apply (f_equal (fun l => ztake (zlen x) (zdrop (zlen a) l))) in Hb.
  rewrite zdrop_app_exact, ztake_app_exact in Hb by done. rewrite <- Hb in HQ.
  unfold ztake, zdrop in *. rewrite skipn_firstn_comm, drop_drop, take_take in HQ.
  replace (Z.to_nat off + Z.to_nat (zlen a))%nat with (Z.to_nat (off + zlen a)) in HQ by lia.
  by replace (_ `min` _)%nat with (Z.to_nat (zlen x)) in HQ by lia.
Qed.

Lemma load_region_head F s off x b n Q :
  region (this s) off (x ++ b) -> n = zlen x -> Q x s -> wpg F (load off n) s Q.
Proof.
  intros Hr Hn HQ. rewrite <- (Z.add_0_r off). by eapply (load_region _ _ _ [] x b).
Qed.

Lemma split_array_bytes n vals :
  Forall (fun v => 0 <= v < 256 ^ Z.of_nat n) vals ->
  split_array n (length vals) (array_bytes n vals) = vals.
Proof.
  unfold array_bytes. induction 1 as [|v vals Hv _ IH]; [done|].
  cbn [length split_array map concat]. f_equal.
  - rewrite take_app_length' by (by rewrite length_le_bytes). rewrite le_val_le_bytes.
    by apply Z.mod_small.
  - rewrite drop_app_length' by (by rewrite length_le_bytes). exact IH.
Qed.

(** ** Strings *)

Lemma readString8_decodes str :
  Forall is_byte str -> zlen str < INT32_MAX ->
  decodes readString8 (string8_bytes str) (OK, str).
Proof.
  intros Hb Hl F s Hwf Hav. pose proof (zlen_nonneg str). unfold string8_bytes in *.
  unfold readString8, readString8Inplace. do 2 wp_step.
  wp_use (readInt32_decodes_ (zlen str)); [unfold is_s32; lia|done|by eapply avail_app|].
  intros size s1 [-> Hc1]. zdec (0 <=? zlen str). zdec (zlen str <? INT32_MAX). cbn [andb].
  pose proof (avail_rest _ _ _ _ Hwf Hav Hc1) as Hav1. wp_step.
  replace (zlen str + 1) with (zlen (str ++ [0])) by (zl; lia).
  apply readInplace_region; [apply Hc1|by eapply consumed_nonempty|done|zl; lia|]. intros s2 Hc2 Hr.
  wp_step. eapply (load_region _ _ _ str [0] []); [done|done|done|].
  change (le_val [0] =? 0) with true. cbv iota. do 2 wp_step.
  eapply load_region_head; [exact Hr|done|]. wp_step. split; [done|].
  rewrite zlen_app, zlen_padded. by eapply consumed_app.
Qed.

(** The in-place reader: where the characters are. *)
Lemma readString16Inplace_ok F s str Q :
  wf (this s) -> avail (this s) (string16_bytes str) -> 2 * zlen str + 2 <= INT32_MAX ->
  (forall s1 off, consumed s (zlen (string16_bytes str)) s1 ->
     region (this s1) off (array_bytes 2 str ++ [0; 0]) -> Q (Some (off, zlen str)) s1) ->
  wpg F readString16Inplace s Q.
Proof.
  intros Hwf Hav Hl HQ. pose proof (zlen_nonneg str). unfold string16_bytes in *.
  unfold readString16Inplace. wp_step.
  wp_use (readInt32_decodes_ (zlen str)); [unfold is_s32; lia|done|by eapply avail_app|].
  intros size s1 [-> Hc1]. zdec (0 <=? zlen str). zdec (zlen str <? INT32_MAX). cbn [andb].
  pose proof (avail_rest _ _ _ _ Hwf Hav Hc1) as Hav1. wp_step.
  rewrite u64_small by lia.
  replace ((zlen str + 1) * 2) with (zlen (array_bytes 2 str ++ [0; 0])) by (zl; lia).
  apply readInplace_region; [apply Hc1|by eapply consumed_nonempty|done|zl; lia|]. intros s2 Hc2 Hr.
  wp_step. eapply (load_region _ _ _ (array_bytes 2 str) [0; 0] []); [done|zl; lia|done|].
  change (le_val [0; 0] =? 0) with true. cbv iota. wp_step. apply HQ; [|done].
  rewrite zlen_app, zlen_padded. by eapply consumed_app.
Qed.

Lemma load_chars_ok F s str off Q :
  Forall is_u16 str -> region (this s) off (array_bytes 2 str ++ [0; 0]) ->
  Q str s -> wpg F (load_chars off (zlen str)) s Q.
Proof.
  intros Hb Hr HQ. unfold load_chars. wp_step.
  eapply load_region_head; [exact Hr|zl; lia|]. wp_step.
  unfold zlen. by rewrite Nat2Z.id, split_array_bytes.
Qed.

Lemma readString16_decodes str :
  Forall is_u16 str -> 2 * zlen str + 2 <= INT32_MAX ->
  decodes readString16 (string16_bytes str) (OK, str).
Proof.
  intros Hb Hl F s Hwf Hav. unfold readString16. wp_step.
  eapply readString16Inplace_ok; [done..|]. intros s1 off Hc Hr. wp_step.
  eapply load_chars_ok; [done|exact Hr|]. by wp_step.
Qed.

(** * Reading hostile data

    Whatever the bytes of a well-formed parcel are, a reader returns: it stays
    inside the block, aborts nothing, changes nothing but the position and the
    search state of the object table, and leaves the parcel well formed. *)

Definition stays (s s' : PS) : Prop :=
  world s' = world s /\ wf (this s') /\
  peq (set_mDataPos (mDataPos (this s')) (this s)) (this s').

Definition safe_read {A} (m : M PS A) : Prop :=
  forall F s, wf (this s) -> wpg F m s (fun _ s' => stays s s').

Lemma stays_refl s : wf (this s) -> stays s s.
Proof. intros Hwf. by split_and!. Qed.

Lemma stays_trans s1 s2 s3 : stays s1 s2 -> stays s2 s3 -> stays s1 s3.
Proof.
  intros (Hw1 & _ & Hp1) (Hw2 & Hwf2 & Hp2). split_and!; [congruence|done|].
  etransitivity; [|exact Hp2].
  by apply (set_pos_peq _ _ (mDataPos (this s3))) in Hp1.
Qed.

Lemma consumed_stays s n s' : consumed s n s' -> stays s s'.
Proof.
  intros (Hw & Hwf & Hp). split_and!; try done. by rewrite (peq_pos _ _ Hp).
Qed.

Lemma aligned_state_stays s n s' : wf (this s) -> aligned_state s n s' -> stays s s'.
Proof.
  unfold aligned_state. intros Hwf. destruct (_ <? _); intros H; subst.
  - by apply stays_refl.
  - by eapply consumed_stays.
Qed.
#[export] Hint Resolve stays_refl consumed_stays aligned_state_stays : binder.

Lemma stays_block s s' : stays s s' -> data_block (this s') = data_block (this s).
Proof. intros (_ & _ & Hp). unfold data_block. by rewrite (peq_data _ _ Hp). Qed.

Lemma safe_ret {A} (a : A) : safe_read (ret a).
Proof. intros F s Hwf. wp_step. by apply stays_refl. Qed.

Lemma safe_bind {A B} (m : M PS A) (k : A -> M PS B) :
  safe_read m -> (forall a, safe_read (k a)) -> safe_read (let* a := m in k a).
Proof.
  intros Hm Hk F s Hwf. wp_step. wp_use Hm; [done|]. intros a s1 H1.
  wp_use Hk; [apply H1|]. intros b s2 H2. by eapply stays_trans.
Qed.

Lemma safe_bind_res {A B} (m : M PS (res A)) (k : A -> M PS (res B)) :
  safe_read m -> (forall a, safe_read (k a)) -> safe_read (let? a := m in k a).
Proof. intros Hm Hk. apply safe_bind; [done|]. intros [a|st]; [done|apply safe_ret]. Qed.

Lemma safe_gets {A} (f : PS -> A) : safe_read (gets f).
Proof. intros F s Hwf. wp_step. by apply stays_refl. Qed.

Lemma readAligned_safe n : Z.of_nat n <= INT32_MAX -> safe_read (readAligned n).
Proof.
  intros Hn F s Hwf. wp_use readAligned_ok; [done|done|].
  intros r s' [_ H]. eauto with binder.
Qed.

Lemma readInt32_safe : safe_read readInt32.
Proof. apply safe_bind; [by apply readAligned_safe|]. intros. apply safe_ret. Qed.

Lemma readInt32_safe_ : safe_read readInt32_.
Proof. apply safe_bind; [apply readInt32_safe|]. intros. apply safe_ret. Qed.

Lemma readInt64_safe : safe_read readInt64.
Proof. apply safe_bind; [by apply readAligned_safe|]. intros. apply safe_ret. Qed.

Lemma pointer_of_inv p off o : pointer_of p off = Some o -> o = off.
Proof. unfold pointer_of. destruct (mData p), (off =? 0); naive_solver. Qed.

(** Any pointer [readInplace] hands out is good for [len] bytes. *)
Lemma readInplace_safe F s len :
  wf (this s) -> 0 <= len ->
  wpg F (readInplace len) s (fun o s' => stays s s' /\
    match o with
    | Some off => 0 <= off /\ off + len <= zlen (data_block (this s'))
    | None => True
    end).
Proof.
  intros Hwf Hl. destruct (Z.le_gt_cases len INT32_MAX).
  - wp_use readInplace_ok; [done|lia|]. intros o s' [Hst ->].
    split; [eauto with binder|].
    zcase (mDataPos (this s) + padz len <=? mDataSize (this s)); [|done]. simpl.
    case_bool_decide; [|done]. destruct (pointer_of _ _) as [off|] eqn:Eo; [|done].
    apply pointer_of_inv in Eo as ->. apply aligned_state_stays, stays_block in Hst; [|done].
    rewrite Hst, (ParcelInv.wf_block _ Hwf). pose proof (padz_bounds len).
    pose proof (ParcelInv.wf_pos _ Hwf). pose proof (ParcelInv.wf_size _ Hwf). lia.
  - unfold readInplace. zdec (INT32_MAX <? len). wp_step. eauto with binder.
Qed.

(** A reader that continues with the region [readInplace] gave. *)
Lemma safe_inplace {A} len (k : Z -> M PS A) (none : M PS A) :
  0 <= len ->
  (forall F s off, wf (this s) -> 0 <= off -> off + len <= zlen (data_block (this s)) ->
     wpg F (k off) s (fun _ s' => stays s s')) ->
  safe_read none ->
  safe_read (let* o := readInplace len in match o with Some off => k off | None => none end).
Proof.
  intros Hl Hk Hn F s Hwf. wp_step. wp_use readInplace_safe; [done|done|].
  intros [off|] s1 [H1 Ho].
  - wp_use Hk; [apply H1|lia|lia|]. intros r s2 H2. by eapply stays_trans.
  - wp_use Hn; [apply H1|]. intros r s2 H2. by eapply stays_trans.
Qed.

Lemma safe_load {A} F s off len (k : bytes -> M PS A) :
  wf (this s) -> 0 <= off -> 0 <= len -> off + len <= zlen (data_block (this s)) ->
  (forall bs, safe_read (k bs)) ->
  wpg F (let* bs := load off len in k bs) s (fun _ s' => stays s s').
Proof.
  intros Hwf Ho Hl Hf Hk. wp_step. apply load_ok; [lia..|]. by apply Hk.
Qed.

(** The in-place string readers: the characters they return can be read. *)
Lemma readString16Inplace_safe F s :
  wf (this s) ->
  wpg F readString16Inplace s (fun o s' => stays s s' /\
    match o with
    | Some (off, len) => 0 <= off /\ 0 <= len /\ off + len * 2 <= zlen (data_block (this s'))
    | None => True
    end).
Proof.
  intros Hwf. unfold readString16Inplace. wp_step. wp_use readInt32_safe_; [done|].
  intros size s1 H1. destruct ((0 <=? size) && (size <? INT32_MAX)) eqn:E; zb; [|by wp_step].
  wp_step. rewrite u64_small by lia. wp_use readInplace_safe; [apply H1|lia|].
  intros [off|] s2 [H2 Ho]; (assert (stays s s2) by (by eapply stays_trans)); [|by wp_step].
  wp_step. apply load_ok; [lia..|]. destruct (_ =? 0); wp_step; (split; [done|]); [lia|done].
Qed.

Lemma readString8Inplace_safe F s :
  wf (this s) ->
  wpg F readString8Inplace s (fun o s' => stays s s' /\
    match o with
    | Some (off, len) => 0 <= off /\ 0 <= len /\ off + len <= zlen (data_block (this s'))
    | None => True
    end).
Proof.
  intros Hwf. unfold readString8Inplace. wp_step. wp_use readInt32_safe_; [done|].
  intros size s1 H1. destruct ((0 <=? size) && (size <? INT32_MAX)) eqn:E; zb; [|by wp_step].
  wp_step. wp_use readInplace_safe; [apply H1|lia|].
  intros [off|] s2 [H2 Ho]; (assert (stays s s2) by (by eapply stays_trans)); [|by wp_step].
  wp_step. apply load_ok; [lia..|]. destruct (_ =? 0); wp_step; (split; [done|]); [lia|done].
Qed.

Lemma readString16_safe : safe_read readString16.
Proof.
  intros F s Hwf. unfold readString16. wp_step. wp_use readString16Inplace_safe; [done|].
  intros [[off len]|] s1 [H1 Ho]; [|by wp_step].
  unfold load_chars. do 2 wp_step. apply load_ok; [lia..|]. by do 2 wp_step.
Qed.

Lemma readString8_safe : safe_read readString8.
Proof.
  intros F s Hwf. unfold readString8. wp_step. wp_use readString8Inplace_safe; [done|].
  intros [[off len]|] s1 [H1 Ho]; [|by wp_step].
  wp_step. apply load_ok; [lia..|]. by wp_step.
Qed.

Lemma find_nul_bounds bs i n : find_nul bs i = Some n -> i <= n < i + zlen bs.
Proof.
  revert i. induction bs as [|b bs IH]; intros i; cbn [find_nul]; [done|].
  rewrite zlen_cons. pose proof (zlen_nonneg bs). destruct (b =? 0).
  - intros [= <-]. lia.
  - intros E%IH. lia.
Qed.
