(* ===== verification/ParcelData.v ===== *)
(** The generic [writeData]/[readData] overloads of
    src/libs/binder/include/binder/Parcel.h.

    The C++ code is generated from the type of the argument by overloading and
    [if constexpr]; here the type is a value of the inductive [ty] and the two
    functions recurse on it.  [sp<>] and [unique_fd] (which add object records)
    and [std::string] (whose UTF conversion is in libutils) are not in [ty].
    The [Parcelable] classes are code of the program's users: the class
    [Parcelable] holds their two methods. *)

From S2P Require Import Prelude Errors ParcelState ParcelWrite ParcelRead.

(** * Types *)

Inductive prim :=
| Bool | Int8 | Uint8 | Char16 | Int32 | Uint32 | Int64 | Uint64 | Float | Double.

Definition sizeof (p : prim) : nat :=
  match p with
  | Bool | Int8 | Uint8 => 1
  | Char16 => 2
  | Int32 | Uint32 | Float => 4
  | Int64 | Uint64 | Double => 8
  end.

(** [TEnum p] is an enumeration whose underlying type is [p]; [TOptional]
    stands for [std::optional], [unique_ptr] and [shared_ptr] alike. *)
Inductive ty {K : Type} : Type :=
| TPrim (p : prim)
| TEnum (p : prim)
| TString16
| TParcelable (k : K)
| TOptional (t : ty)
| TVector (t : ty)
| TArray (t : ty) (n : Z).
Arguments ty : clear implicits.

(** The classes derived from [android::Parcelable]. *)
Class Parcelable (K : Type) := {
  pvalue : K -> Type;
  writeToParcel : forall k, pvalue k -> M PS status_t;
  readFromParcel : forall k, M PS (res (pvalue k));
}.

(** A value of a primitive type is its integer (0 or 1 for [bool], the bit
    pattern for the floating types). *)
Fixpoint denote {K} `{Parcelable K} (t : ty K) : Type :=
  match t with
  | TPrim _ | TEnum _ => Z
  | TString16 => list Z
  | TParcelable k => pvalue k
  | TOptional t => option (denote t)
  | TVector t => list (denote t)
  | TArray t _ => list (denote t)
  end.

Definition is_pointer_equivalent_prim (p : prim) : bool :=
  match p with Bool | Char16 => false | _ => true end.

Definition kNonNullParcelableFlag : Z := 1.
Definition kNullParcelableFlag : Z := 0.
Definition kNullVectorSize : Z := -1.

(** Reading an element of an array of [p] from its bytes. *)
Definition from_memory (p : prim) (v : Z) : Z :=
  match p with
  | Int8 => s8 v
  | Int32 => s32 v
  | Int64 => s64 v
  | _ => v
  end.

(** [static_cast<T>] of an [int32_t] for the two widened element types. *)
Definition narrow (p : prim) (v : Z) : Z :=
  match p with
  | Bool => if v =? 0 then 0 else 1
  | _ => u16 v
  end.

Section Data.
Context {K : Type} `{Parcelable K}.

(** [is_pointer_equivalent_array_v], with the element type and the (identity)
    conversions between its values and integers. *)
Definition is_pointer_equivalent_array_v (t : ty K) :
    option (prim * (denote t -> Z) * (Z -> denote t)) :=
  match t with
  | TPrim p => if is_pointer_equivalent_prim p then Some (p, id, id) else None
  | TEnum p => if (sizeof p =? 1)%nat || (sizeof p =? 4)%nat then Some (p, id, id) else None
  | _ => None
  end.

(** [bool] and [char16_t], whose vectors are widened to [int32_t]. *)
Definition is_widened (t : ty K) : option (prim * (denote t -> Z) * (Z -> denote t)) :=
  match t with
  | TPrim Bool => Some (Bool, id, id)
  | TPrim Char16 => Some (Char16, id, id)
  | _ => None
  end.

(** The null marker of the types a nullable container may hold; [None] is
    the failing [static_assert]. *)
Definition null_flag (t : ty K) : option Z :=
  match t with
  | TVector _ | TString16 | TArray _ _ => Some kNullVectorSize
  | TParcelable _ => Some kNullParcelableFlag
  | _ => None
  end.

(** * Writing *)

Definition writeData_prim (p : prim) (v : Z) : M PS status_t :=
  match p with
  | Bool => writeBool (negb (v =? 0))
  | Int8 => writeByte v
  | Uint8 => writeByte (s8 v)
  | Char16 => writeChar v
  | Int32 => writeInt32 v
  | Uint32 => writeUint32 v
  | Int64 => writeInt64 v
  | Uint64 => writeUint64 v
  | Float => writeFloat v
  | Double => writeDouble v
  end.

Fixpoint write_each {A} (f : A -> M PS status_t) (c : list A) : M PS status_t :=
  match c with
  | [] => ret OK
  | t :: c' => f t ;;? write_each f c'
  end.

(** [for (const auto t: c) { *data++ = static_cast<int32_t>(t); }] *)
Fixpoint fill_ints (data : Z) (c : list Z) : M PS unit :=
  match c with
  | [] => ret tt
  | t :: c' => store data (le_bytes 4 t) ;; fill_ints (data + 4) c'
  end.

Fixpoint writeData (t : ty K) : denote t -> M PS status_t :=
  match t return denote t -> M PS status_t with
  | TPrim p => fun v => writeData_prim p v
  | TEnum p => fun v => writeData_prim p v
  | TString16 => fun v => writeString16 (Some v) (zlen v)
  | TParcelable k => fun v =>
      writeData_prim Int32 kNonNullParcelableFlag ;;? writeToParcel k v
  | TOptional t' => fun c =>
      match null_flag t' with
      | None => fault
      | Some flag =>
          match c with
          | None => writeData_prim Int32 flag
          | Some v => writeData t' v
          end
      end
  | TVector t' => fun c =>
      if INT32_MAX <? zlen c then ret BAD_VALUE else
      writeData_prim Int32 (zlen c) ;;
      match is_pointer_equivalent_array_v t' with
      | Some (p, to_int, _) =>
          if SIZE_MAX / Z.of_nat (sizeof p) <? zlen c then ret BAD_VALUE else
          write (Some (array_bytes (sizeof p) (map to_int c)))
            (u64 (zlen c * Z.of_nat (sizeof p)))
      | None =>
          match is_widened t' with
          | Some (p, to_int, _) =>
              let* data := writeInplace (u64 (zlen c * 4)) in
              match data with
              | None => ret BAD_VALUE
              | Some d => fill_ints d (map to_int c) ;; ret OK
              end
          | None => write_each (writeData t') c
          end
      end
  | TArray t' n => fun c =>
      writeData_prim Int32 (s32 n) ;;?
      match is_pointer_equivalent_array_v t' with
      | Some (p, to_int, _) =>
          write (Some (array_bytes (sizeof p) (map to_int c)))
            (u64 (zlen c * Z.of_nat (sizeof p)))
      | None => write_each (writeData t') c
      end
  end.

(** * Reading *)

Definition readData_prim (p : prim) : M PS (res Z) :=
  match p with
  | Bool => let* r := readBool in
            ret (res_of (fst r, if snd r : bool then 1 else 0))
  | Int8 => let* r := readByte in ret (res_of r)
  | Uint8 => let* r := readByte in ret (res_of (fst r, u8 (snd r)))
  | Char16 => let* r := readChar in ret (res_of r)
  | Int32 => readInt32
  | Uint32 => readUint32
  | Int64 => readInt64
  | Uint64 => readUint64
  | Float => readFloat
  | Double => readDouble
  end.

Fixpoint read_each {A} (f : M PS (res A)) (n : nat) : M PS (res (list A)) :=
  match n with
  | O => ret (Good [])
  | S n' => let? t := f in let? c := read_each f n' in ret (Good (t :: c))
  end.

(** The array elements at the pointer [data]. *)
Definition load_array (data : Z) (n : nat) (count : Z) : M PS (list Z) :=
  let* bs := load data (count * Z.of_nat n) in ret (split_array n (Z.to_nat count) bs).

Fixpoint readData (t : ty K) : M PS (res (denote t)) :=
  match t return M PS (res (denote t)) with
  | TPrim p => readData_prim p
  | TEnum p => readData_prim p
  | TString16 => let* r := readString16 in ret (res_of r)
  | TParcelable k =>
      let? present := readData_prim Int32 in
      if negb (present =? kNonNullParcelableFlag) then ret (Err UNEXPECTED_NULL)
      else readFromParcel k
  | TOptional t' =>
      let* startPos := getp dataPosition in
      let? peek := readData_prim Int32 in
      match null_flag t' with
      | None => fault
      | Some flag =>
          if peek =? flag then ret (Good None) else
          setDataPosition startPos ;;
          let? v := readData t' in ret (Good (Some v))
      end
  | TVector t' =>
      let? size := readInt32 in
      if size <? 0 then ret (Err UNEXPECTED_NULL) else
      let* availableBytes := dataAvail in
      if availableBytes <? size then ret (Err BAD_VALUE) else
      match is_pointer_equivalent_array_v t' with
      | Some (p, _, of_int) =>
          let* data := readInplace (u64 (size * Z.of_nat (sizeof p))) in
          match data with
          | None => ret (Err BAD_VALUE)
          | Some d => let* c := load_array d (sizeof p) size in
                      ret (Good (map (fun v => of_int (from_memory p v)) c))
          end
      | None =>
          match is_widened t' with
          | Some (p, _, of_int) =>
              let* data := readInplace (u64 (size * 4)) in
              match data with
              | None => ret (Err BAD_VALUE)
              | Some d => let* c := load_array d 4 size in
                          ret (Good (map (fun v => of_int (narrow p (s32 v))) c))
              end
          | None => read_each (readData t') (Z.to_nat size)
          end
      end
  | TArray t' n =>
      let? size := readInt32 in
      if size <? 0 then ret (Err UNEXPECTED_NULL) else
      if negb (size =? s32 n) then ret (Err BAD_VALUE) else
      match is_pointer_equivalent_array_v t' with
      | Some (p, _, of_int) =>
          let* data := readInplace (u64 (n * Z.of_nat (sizeof p))) in
          match data with
          | None => ret (Err BAD_VALUE)
          | Some d => let* c := load_array d (sizeof p) n in
                      ret (Good (map (fun v => of_int (from_memory p v)) c))
          end
      | None => read_each (readData t') (Z.to_nat n)
      end
  end.
End Data.
