(* ===== verification/ParcelDataSpec.v ===== *)
(** Correctness of [writeData] and [readData].

    [encode] is the wire format of a value of an AIDL type.  [writeData_ok]:
    writing a value appends its encoding, or an allocation fails and the parcel
    records it.  [readData_decodes]: reading the encoding gives the value back.
    [readData_safe]: reading arbitrary data stays inside the parcel.  The
    Parcelable classes take part through the interface [ParcelableLaws]. *)

From S2P Require Import Prelude Errors ParcelState ParcelWrite ParcelRead ParcelInv ParcelWriteSpec.
From S2P Require Import ParcelReadSpec ParcelData.

(** * Sequencing writers *)

(** The value is in the parcel and the status is [OK], or an allocation failed
    (the status may then be [OK] all the same: see [writeData] on vectors). *)
Definition data_post (s : PS) (bs : bytes) (st : status_t) (s' : PS) : Prop :=
  balanced s s' /\
  ((st = OK /\ wrote (this s) (this s') bs) \/ failed s (zlen bs) s').

(** The same, except that an empty write to a parcel without a block may report
    an error. *)
Definition weak_post (s : PS) (bs : bytes) (st : status_t) (s' : PS) : Prop :=
  balanced s s' /\
  ((wrote (this s) (this s') bs /\ (0 < mDataSize (this s') -> st = OK)) \/
   failed s (zlen bs) s').

Lemma write_data_post s bs st s' : write_post s bs st s' -> data_post s bs st s'.
Proof. intros [Hb [H|[_ H]]]; split; auto. Qed.

Lemma data_weak_post s bs st s' : data_post s bs st s' -> weak_post s bs st s'.
Proof. intros [Hb [[-> H]|H]]; split; auto. Qed.

Lemma wrote_nil p : wf p -> wrote p p [].
Proof.
  intros Hwf. split; try done.
  - change (zlen (@nil Z)) with 0. lia.
  - unfold overwrite. change (zlen (@nil Z)) with 0. rewrite Z.add_0_r. simpl.
    by rewrite ztake_zdrop.
Qed.

(** Once an allocation has failed, later writes do not hide it. *)
Lemma failed_then s s1 s2 st a b :
  balanced s s1 -> failed s (zlen a) s1 -> wf (this s1) -> weak_post s1 b st s2 ->
  failed s (zlen (a ++ b)) s2.
Proof.
  intros Hb1 [] Hwf1 [Hb2 [[Hw _]|[]]]; split; try done; try (zl; lia).
  - apply Hw.
  - pose proof (wr_meta _ _ _ Hw) as Hm. unfold meta in Hm. congruence.
  - rewrite (wrote_size _ _ _ Hwf1 Hw). pose proof (wf_pos _ Hwf1).
    pose proof (zlen_nonneg b). zl. lia.
Qed.

Lemma fits_failed s s1 (a b : bytes) :
  fits (this s) (zlen a + zlen b) -> failed s (zlen a) s1 -> fits (this s1) (zlen b).
Proof.
  unfold fits. intros Hf []. etransitivity; [|exact Hf]. apply Z.div_le_mono; lia.
Qed.

(** Two writes in sequence, the first one not empty: its status may be ignored
    or checked. *)
Section Seq.
Context (F : Prop) (m k : M PS status_t) (s : PS) (a b : bytes).
Hypothesis Hwf : wf (this s).
Hypothesis Hf : fits (this s) (zlen (a ++ b)).
Hypothesis Ha : 0 < zlen a.
Hypothesis Hm : fits (this s) (zlen a) -> wpg F m s (data_post s a).
Hypothesis Hk : forall s1, wf (this s1) -> fits (this s1) (zlen b) ->
  wpg F k s1 (weak_post s1 b).

Lemma data_seq_next st1 s1 :
  data_post s a st1 s1 -> wpg F k s1 (data_post s (a ++ b)).
Proof.
  pose proof Hf as Hf'. rewrite zlen_app in Hf'. pose proof (zlen_nonneg b).
  intros [Hb1 [[-> Hw1]|Hfl]].
  - wp_use Hk; [apply Hw1|by eapply fits_wrote|].
    intros st2 s2 [Hb2 [[Hw2 Hst]|Hfl]]; (split; [by etransitivity|]).
    + left. assert (wrote (this s) (this s2) (a ++ b)) as Hw by (by eapply wrote_app).
      split; [|done]. apply Hst. rewrite (wrote_size _ _ _ Hwf Hw). zl.
      pose proof (wf_pos _ Hwf). pose proof (zlen_nonneg b). lia.
    + right. by eapply failed_app.
  - wp_use Hk; [apply Hfl|by eapply fits_failed|].
    intros st2 s2 Hw2. split; [etransitivity; [done|apply Hw2]|].
    right. eapply failed_then; [done|done|apply Hfl|done].
Qed.

Lemma fits_first : fits (this s) (zlen a).
Proof. eapply fits_le; [exact Hf|]. rewrite zlen_app. pose proof (zlen_nonneg b). lia. Qed.

Lemma data_seq : wpg F (m ;; k) s (data_post s (a ++ b)).
Proof.
  wp_step. wp_use (Hm fits_first). intros st1 s1. apply data_seq_next.
Qed.

Lemma data_seq_check : wpg F (m ;;? k) s (data_post s (a ++ b)).
Proof.
  apply wpg_check_ok. wp_use (Hm fits_first). intros st1 s1 H1.
  split; [intros _; by eapply data_seq_next|]. destruct H1 as [Hb1 [[-> _]|Hfl]]; [done|].
  intros _. split; [done|right]. zl. pose proof (zlen_nonneg b).
  eapply failed_le; [|exact Hfl]. lia.
Qed.
End Seq.

(** * The wire format *)

Definition encode_prim (p : prim) (v : Z) : bytes :=
  match p with
  | Bool => le_bytes 4 (if v =? 0 then 0 else 1)
  | Uint8 => le_bytes 4 (s8 v)
  | Int8 | Char16 | Int32 | Uint32 | Float => le_bytes 4 v
  | Int64 | Uint64 | Double => le_bytes 8 v
  end.

(** The values of each primitive type. *)
Definition valid_prim (p : prim) (v : Z) : Prop :=
  match p with
  | Bool => v = 0 \/ v = 1
  | Int8 => is_s8 v
  | Uint8 => is_byte v
  | Char16 => is_u16 v
  | Int32 => is_s32 v
  | Uint32 | Float => is_u32 v
  | Int64 => is_s64 v
  | Uint64 | Double => is_u64 v
  end.

(** What a Parcelable class promises to the parcel: its [writeToParcel] appends
    an encoding of the object (and is transparent to a failed allocation), its
    [readFromParcel] undoes it and is safe on any data. *)
Class ParcelableLaws (K : Type) `{Parcelable K} := {
  p_encode : forall k, pvalue k -> bytes;
  p_valid : forall k, pvalue k -> Prop;
  p_write : forall k v F s, wf (this s) -> p_valid k v -> fits (this s) (zlen (p_encode k v)) ->
    wpg F (writeToParcel k v) s (data_post s (p_encode k v));
  p_read : forall k v, p_valid k v -> decodes (readFromParcel k) (p_encode k v) (Good v);
  p_safe : forall k, safe_read (readFromParcel k);
}.

Section Spec.
Context {K : Type} `{ParcelableLaws K}.

(** The static assertions of the templates. *)
Fixpoint compiles (t : ty K) : bool :=
  match t with
  | TPrim _ | TEnum _ | TString16 | TParcelable _ => true
  | TOptional t' => bool_decide (is_Some (null_flag t')) && compiles t'
  | TVector t' => compiles t'
  | TArray t' n => (0 <=? n) && (n <=? INT32_MAX) && compiles t'
  end.

(** The elements of an array: packed, or one after the other. *)
Definition elements (t : ty K) (enc : denote t -> bytes) (c : list (denote t)) : bytes :=
  match is_pointer_equivalent_array_v t with
  | Some (p, to_int, _) => padded (array_bytes (sizeof p) (map to_int c))
  | None => concat (map enc c)
  end.

Fixpoint encode (t : ty K) : denote t -> bytes :=
  match t return denote t -> bytes with
  | TPrim p => encode_prim p
  | TEnum p => encode_prim p
  | TString16 => string16_bytes
  | TParcelable k => fun v => le_bytes 4 kNonNullParcelableFlag ++ p_encode k v
  | TOptional t' => fun c =>
      match c with
      | None => le_bytes 4 (default 0 (null_flag t'))
      | Some v => encode t' v
      end
  | TVector t' => fun c =>
      le_bytes 4 (zlen c) ++
      match is_widened t' with
      | Some (_, to_int, _) => padded (array_bytes 4 (map to_int c))
      | None => elements t' (encode t') c
      end
  | TArray t' n => fun c =>
      le_bytes 4 n ++ elements t' (encode t') c
  end.

Fixpoint valid (t : ty K) : denote t -> Prop :=
  match t return denote t -> Prop with
  | TPrim p => valid_prim p
  | TEnum p => valid_prim p
  | TString16 => Forall is_u16
  | TParcelable k => p_valid k
  | TOptional t' => fun c => match c with None => True | Some v => valid t' v end
  | TVector t' => Forall (valid t')
  | TArray t' n => fun c => zlen c = n /\ Forall (valid t') c
  end.

(** * Writing *)

Lemma encode_prim_len p v : 4 <= zlen (encode_prim p v).
Proof. destruct p; unfold encode_prim; zl; lia. Qed.

Lemma writeData_prim_ok F s p v :
  wf (this s) -> valid_prim p v -> fits (this s) (zlen (encode_prim p v)) ->
  wpg F (writeData_prim p v) s (data_post s (encode_prim p v)).
Proof.
  intros Hwf Hv Hf. eapply wpg_mono; [|intros; by apply write_data_post].
  destruct p; unfold encode_prim in *; zl; simpl in Hv;
    try (by apply writeAligned_ok).
  - unfold writeData_prim, writeBool. destruct (v =? 0); by apply writeAligned_ok.
  - unfold writeData_prim, writeByte. rewrite s32_small by (unfold is_s8, is_s32 in *; lia).
    by apply writeAligned_ok.
  - unfold writeData_prim, writeByte.
    rewrite (s32_small (s8 v)); [by apply writeAligned_ok|].
    unfold is_s32, s8. pose proof (Z.mod_pos_bound (v + 128) 256). lia.
  - unfold writeData_prim, writeChar. rewrite s32_small by (unfold is_u16, is_s32 in *; lia).
    by apply writeAligned_ok.
Qed.

Lemma overwrite_mid a x y b :
  zlen x = zlen y -> overwrite (a ++ x ++ b) (zlen a) y = a ++ y ++ b.
Proof.
  intros E. unfold overwrite. rewrite ztake_app_exact by done.
  rewrite (app_assoc a x b), zdrop_app_exact by (rewrite zlen_app; lia). done.
Qed.

(** Filling the reserved words of a widened vector. *)
Lemma fill_ints_ok F s c pre y z s1 :
  wf (this s) -> balanced s s1 -> zlen y = 4 * zlen c ->
  wrote (this s) (this s1) (pre ++ y ++ z) ->
  wpg F (fill_ints (mDataPos (this s) + zlen pre) c) s1 (fun _ s2 =>
    balanced s s2 /\ wrote (this s) (this s2) (pre ++ array_bytes 4 c ++ z)).
Proof.
  intros Hwf. revert pre y s1. induction c as [|t c IH]; intros pre y s1 Hb Hy Hw; zl.
  - apply zlen_zero in Hy as ->. cbn [fill_ints]. wp_step. done.
  - cbn [fill_ints]. wp_step. pose proof (zlen_nonneg c). pose proof (zlen_nonneg pre).
    pose proof (zlen_nonneg z).
    wp_use store_wrote; [exact Hwf|exact Hb|exact Hw|auto with binder|lia|zl; lia|].
    intros [] s2 [Hb2 Hw2].
    replace (mDataPos (this s) + zlen pre + 4) with (mDataPos (this s) + zlen (pre ++ le_bytes 4 t))
      by (zl; lia).
    wp_use (IH (pre ++ le_bytes 4 t) (zdrop 4 y)); [done|rewrite zlen_zdrop; lia| |].
    + rewrite <- (ztake_zdrop 4 y), <- (app_assoc (ztake 4 y)) in Hw2.
      rewrite overwrite_mid in Hw2 by (zl; rewrite zlen_ztake; lia).
      by rewrite <- app_assoc.
    + intros [] s3 [Hb3 Hw3]. split; [done|]. unfold array_bytes in *. cbn [map concat].
      by rewrite <- !app_assoc in *.
Qed.

Lemma write_each_ok {A} F (f : A -> M PS status_t) (enc : A -> bytes) c s :
  (forall a s, a ∈ c -> wf (this s) -> fits (this s) (zlen (enc a)) ->
     wpg F (f a) s (data_post s (enc a))) ->
  (forall a, 0 < zlen (enc a)) ->
  wf (this s) -> fits (this s) (zlen (concat (map enc c))) ->
  wpg F (write_each f c) s (data_post s (concat (map enc c))).
Proof.
  intros Hf Hpos. revert s. induction c as [|a c IH]; intros s Hwf Hfit; cbn [write_each map concat] in *.
  - wp_step. split; [done|left]. split; [done|]. by apply wrote_nil.
  - apply data_seq_check; [done..| |].
    + apply Hf; [left|done].
    + intros s1 Hwf1 Hf1. eapply wpg_mono; [apply IH; [|done..]|].
      * intros. apply Hf; [by right|done..].
      * intros. by apply data_weak_post.
Qed.

Lemma write_array_ok F s n (vals : list Z) len :
  wf (this s) -> fits (this s) (zlen (padded (array_bytes n vals))) ->
  len = zlen vals * Z.of_nat n ->
  wpg F (write (Some (array_bytes n vals)) (u64 len)) s (weak_post s (padded (array_bytes n vals))).
Proof.
  intros Hwf Hf ->. zl. pose proof (zlen_nonneg vals).
  pose proof (padz_bounds (Z.of_nat n * zlen vals)). pose proof (fits_bound _ _ Hwf Hf).
  rewrite u64_small by nia.
  replace (zlen vals * Z.of_nat n) with (zlen (array_bytes n vals)) by (zl; lia).
  wp_use write_ok_weak; [done|auto with binder|by zl|].
  intros st s' [Hb [[Hw Hst]|[_ Hfl]]]; (split; [done|]); [left|by right].
  split; [done|]. intros. destruct Hst; [done|lia].
Qed.

Lemma write_widened_ok F s (vals : list Z) :
  wf (this s) -> fits (this s) (zlen (padded (array_bytes 4 vals))) ->
  wpg F (let* data := writeInplace (u64 (zlen vals * 4)) in
         match data with
         | None => ret BAD_VALUE
         | Some d => fill_ints d vals ;; ret OK
         end) s (weak_post s (padded (array_bytes 4 vals))).
Proof.
  intros Hwf Hf. zl. pose proof (zlen_nonneg vals).
  pose proof (padz_bounds (4 * zlen vals)). change (Z.of_nat 4) with 4 in *.
  pose proof (fits_bound _ _ Hwf Hf). rewrite u64_small by lia. rewrite Z.mul_comm.
  wp_step. wp_use writeInplace_ok; [done|lia|done|].
  intros o s1 [Hbal [(->&y&Hy&Hby&Hw)|(->&Ht&Hcf)]].
  2:{ wp_step. split; [done|right]. apply set_mError_failed; auto with binder. }
  unfold padded. zl. change (Z.of_nat 4) with 4.
  pose proof (wr_wf _ _ _ Hw) as Hwf1. pose proof (wf_size _ Hwf1).
  destruct (pointer_of (this s1) (mDataPos (this s))) as [off|] eqn:Eo.
  - assert (off = mDataPos (this s)) as -> by (by eapply pointer_of_inv).
    wp_step. rewrite <- (Z.add_0_r (mDataPos (this s))).
    wp_use (fill_ints_ok _ s vals [] y); [done|done|done|exact Hw|].
    intros [] s2 [Hb2 Hw2]. wp_step. split; [done|left]. done.
  - wp_step. split; [done|left]. destruct (decide (mDataSize (this s1) = 0)) as [Hz|Hz].
    + assert (zlen vals = 0) as Hv.
      { pose proof (wf_pos _ Hwf1). pose proof (wr_pos _ _ _ Hw) as Ep. zl.
        pose proof (wf_pos _ Hwf). rewrite zlen_zeros in Ep by lia. lia. }
      apply zlen_zero in Hv as ->. change (zlen (@nil Z)) with 0 in *.
      apply zlen_zero in Hy as ->. split; [exact Hw|lia].
    + rewrite pointer_of_Some in Eo by (done || lia). done.
Qed.
Lemma encode_len t (v : denote t) : 4 <= zlen (encode t v).
Proof.
  induction t; cbn [encode]; try apply encode_prim_len; try (zl; auto with zarith).
  - unfold string16_bytes. zl. pose proof (padz_bounds (Z.of_nat 2 * zlen v + (1 + (1 + 0)))).
    pose proof (zlen_nonneg v). lia.
  - pose proof (zlen_nonneg (p_encode k v)). lia.
  - destruct v; [auto|zl; lia].
  - match goal with |- _ <= _ + zlen ?l => pose proof (zlen_nonneg l) end. lia.
  - match goal with |- _ <= _ + zlen ?l => pose proof (zlen_nonneg l) end. lia.
Qed.

Lemma padz_ge n : n <= padz n.
Proof. pose proof (padz_bounds n). lia. Qed.

Lemma widened_not_packed t x : is_widened t = Some x -> is_pointer_equivalent_array_v t = None.
Proof. destruct t as [[]| | | | | |]; simpl; congruence. Qed.

Lemma widened_len (vals : list Z) : zlen vals <= zlen (padded (array_bytes 4 vals)).
Proof. zl. pose proof (padz_ge (Z.of_nat 4 * zlen vals)). pose proof (zlen_nonneg vals). lia. Qed.

Lemma size_limit p : INT32_MAX <= SIZE_MAX / Z.of_nat (sizeof p).
Proof. by destruct p; vm_compute. Qed.

(** An array takes at least a byte per element. *)
Lemma elements_len t (c : list (denote t)) : zlen c <= zlen (elements t (encode t) c).
Proof.
  unfold elements. destruct (is_pointer_equivalent_array_v t) as [[[p to_int] of_int]|].
  - zl. pose proof (padz_ge (Z.of_nat (sizeof p) * zlen c)). pose proof (zlen_nonneg c).
    assert (1 <= Z.of_nat (sizeof p)) by (destruct p; simpl; lia). nia.
  - induction c as [|a c IH]; [done|]. cbn [map concat]. zl.
    pose proof (encode_len t a). lia.
Qed.

(** The element loop shared by vectors and fixed arrays. *)
Lemma write_elements_ok F t (c : list (denote t)) s :
  wf (this s) -> fits (this s) (zlen (elements t (encode t) c)) ->
  (forall a s, a ∈ c -> wf (this s) -> fits (this s) (zlen (encode t a)) ->
     wpg F (writeData t a) s (data_post s (encode t a))) ->
  wpg F (match is_pointer_equivalent_array_v t with
         | Some (p, to_int, _) =>
             write (Some (array_bytes (sizeof p) (map to_int c)))
               (u64 (zlen c * Z.of_nat (sizeof p)))
         | None => write_each (writeData t) c
         end) s (weak_post s (elements t (encode t) c)).
Proof.
  intros Hwf Hf IH. unfold elements in *.
  destruct (is_pointer_equivalent_array_v t) as [[[p to_int] of_int]|].
  - apply write_array_ok; [done|done|by zl].
  - eapply wpg_mono; [apply (write_each_ok _ _ (encode t)); try done|].
    + intros a. pose proof (encode_len t a). lia.
    + intros. by apply data_weak_post.
Qed.

(** The equations of the two array types. *)
Lemma encode_vector t (c : list (denote t)) :
  encode (TVector t) c = le_bytes 4 (zlen c) ++
    match is_widened t with
    | Some (_, to_int, _) => padded (array_bytes 4 (map to_int c))
    | None => elements t (encode t) c
    end.
Proof. reflexivity. Qed.

Lemma encode_array t n (c : list (denote t)) :
  encode (TArray t n) c = le_bytes 4 n ++ elements t (encode t) c.
Proof. reflexivity. Qed.

Lemma writeData_vector t (c : list (denote t)) :
  writeData (TVector t) c =
    if INT32_MAX <? zlen c then ret BAD_VALUE else
    writeData_prim Int32 (zlen c) ;;
    match is_pointer_equivalent_array_v t with
    | Some (p, to_int, _) =>
        if SIZE_MAX / Z.of_nat (sizeof p) <? zlen c then ret BAD_VALUE else
        write (Some (array_bytes (sizeof p) (map to_int c))) (u64 (zlen c * Z.of_nat (sizeof p)))
    | None =>
        match is_widened t with
        | Some (p, to_int, _) =>
            let* data := writeInplace (u64 (zlen c * 4)) in
            match data with
            | None => ret BAD_VALUE
            | Some d => fill_ints d (map to_int c) ;; ret OK
            end
        | None => write_each (writeData t) c
        end
    end.
Proof. reflexivity. Qed.

Lemma writeData_array t n (c : list (denote t)) :
  writeData (TArray t n) c =
    (writeData_prim Int32 (s32 n) ;;?
     match is_pointer_equivalent_array_v t with
     | Some (p, to_int, _) =>
         write (Some (array_bytes (sizeof p) (map to_int c))) (u64 (zlen c * Z.of_nat (sizeof p)))
     | None => write_each (writeData t) c
     end).
Proof. reflexivity. Qed.

(** Writing a value of any type appends its encoding, or an allocation fails. *)
Lemma writeData_ok F t (v : denote t) s :
  compiles t = true -> valid t v -> wf (this s) -> fits (this s) (zlen (encode t v)) ->
  wpg F (writeData t v) s (data_post s (encode t v)).
Proof.
  revert s. induction t as [p|p| |k|t IH|t IH|t IH n]; intros s Hc Hv Hwf Hf;
    [cbn [compiles encode valid writeData] in *; zb..
    |rewrite encode_vector, writeData_vector in *|rewrite encode_array, writeData_array in *].
  - by apply writeData_prim_ok.
  - by apply writeData_prim_ok.
  - eapply wpg_mono; [by apply writeString16_ok|]. intros. by apply write_data_post.
  - apply data_seq_check; [done|done|by vm_compute| |].
    + intros Hf1. by apply (writeData_prim_ok _ _ Int32).
    + intros s1 Hwf1 Hf1. eapply wpg_mono; [by apply p_write|].
      intros. by apply data_weak_post.
  - apply bool_decide_eq_true in H1 as [flag E]. rewrite E in *. destruct v as [v|]; [by apply IH|].
    apply (writeData_prim_ok _ _ Int32); [done| |done].
    simpl. unfold is_s32. destruct t; simplify_eq/=; by vm_compute.
  - change (denote (TVector t)) with (list (denote t)) in v. cbn [compiles valid] in Hc, Hv.
    destruct (is_widened t) as [[[p to_int] of_int]|] eqn:Ew.
    + rewrite (widened_not_packed _ _ Ew).
      pose proof (widened_len (map to_int v)) as Hl. pose proof (fits_bound _ _ Hwf Hf) as Hb.
      pose proof (zlen_nonneg v). rewrite zlen_app, zlen_le_bytes in Hb. rewrite zlen_map in Hl.
      zdec (INT32_MAX <? zlen v).
      apply data_seq; [done|done|by rewrite zlen_le_bytes| |].
      * intros Hf1. apply (writeData_prim_ok _ _ Int32); [done|unfold valid_prim, is_s32; lia|done].
      * intros s1 Hwf1 Hf1. rewrite <- (zlen_map to_int). by apply write_widened_ok.
    + pose proof (elements_len t v) as Hl. pose proof (fits_bound _ _ Hwf Hf) as Hb.
      pose proof (zlen_nonneg v). rewrite zlen_app, zlen_le_bytes in Hb.
      zdec (INT32_MAX <? zlen v).
      apply data_seq; [done|done|by rewrite zlen_le_bytes| |].
      * intros Hf1. apply (writeData_prim_ok _ _ Int32); [done|unfold valid_prim, is_s32; lia|done].
      * intros s1 Hwf1 Hf1. rewrite Forall_forall in Hv.
        pose proof (write_elements_ok F t v s1 Hwf1 Hf1) as He.
        destruct (is_pointer_equivalent_array_v t) as [[[p to_int] of_int]|].
        -- pose proof (size_limit p). zdec (SIZE_MAX / Z.of_nat (sizeof p) <? zlen v).
           apply He. auto.
        -- apply He. auto.
  - change (denote (TArray t n)) with (list (denote t)) in v. cbn [compiles valid] in Hc, Hv. zb.
    destruct Hv as [Hn Hv]. pose proof (zlen_nonneg v).
    rewrite (s32_small n) by (unfold is_s32; lia). apply data_seq_check; [done|done|zl; lia| |].
    + intros Hf1. apply (writeData_prim_ok _ _ Int32); [done|unfold valid_prim, is_s32; lia|done].
    + intros s1 Hwf1 Hf1. rewrite Forall_forall in Hv.
      apply write_elements_ok; auto.
Qed.
(** * Reading back *)

Lemma readData_prim_decodes p v :
  valid_prim p v -> decodes (readData_prim p) (encode_prim p v) (Good v).
Proof.
  intros Hv. destruct p; unfold readData_prim, encode_prim; simpl in Hv.
  - replace v with (if negb ((if v =? 0 then 0 else 1) =? 0) then 1 else 0) at 2
      by (by destruct Hv as [-> | ->]).
    apply (decodes_map readBool (fun r => res_of (fst r, if snd r : bool then 1 else 0)) _
             (OK, negb ((if v =? 0 then 0 else 1) =? 0))).
    apply (decodes_map readInt32 (fun r => (res_status r, negb (or_zero r =? 0))) _ (Good _)).
    apply readInt32_decodes. unfold is_s32. destruct (v =? 0); lia.
  - rewrite <- (s8_small v Hv) at 2.
    apply (decodes_map readByte res_of _ (OK, s8 v)).
    apply (decodes_map readInt32 (fun r => (res_status r, s8 (or_zero r))) _ (Good v)).
    apply readInt32_decodes. unfold is_s8, is_s32 in *. lia.
  - replace v with (u8 (s8 (s8 v))) at 2.
    2:{ rewrite (s8_small (s8 v)).
        - unfold is_byte, u8, s8 in *. rewrite Zminus_mod_idemp_l, Z.add_simpl_r.
          by apply Z.mod_small.
        - unfold is_s8, s8. pose proof (Z.mod_pos_bound (v + 128) 256). lia. }
    apply (decodes_map readByte (fun r => res_of (fst r, u8 (snd r))) _ (OK, s8 (s8 v))).
    apply (decodes_map readInt32 (fun r => (res_status r, s8 (or_zero r))) _ (Good (s8 v))).
    apply readInt32_decodes. unfold is_s32, s8. pose proof (Z.mod_pos_bound (v + 128) 256). lia.
  - rewrite <- (Z.mod_small v 65536) at 2 by done.
    apply (decodes_map readChar res_of _ (OK, u16 v)).
    apply (decodes_map readInt32 (fun r => (res_status r, u16 (or_zero r))) _ (Good v)).
    apply readInt32_decodes. unfold is_u16, is_s32 in *. lia.
  - by apply readInt32_decodes.
  - by apply readUint32_decodes.
  - by apply readInt64_decodes.
  - by apply readUint64_decodes.
  - by apply readUint32_decodes.
  - by apply readUint64_decodes.
Qed.

Lemma from_memory_ok p v :
  valid_prim p v -> from_memory p (v mod 256 ^ Z.of_nat (sizeof p)) = v.
Proof.
  intros Hv. destruct p; simpl in Hv; cbn [from_memory sizeof].
  - change (256 ^ Z.of_nat 1) with 256. destruct Hv as [-> | ->]; done.
  - change (256 ^ Z.of_nat 1) with 256. rewrite (swrap_mod 128 v eq_refl : s8 (v mod 256) = s8 v).
    by apply s8_small.
  - by apply Z.mod_small.
  - by apply Z.mod_small.
  - change (256 ^ Z.of_nat 4) with 4294967296. rewrite s32_mod. by apply s32_small.
  - by apply Z.mod_small.
  - change (256 ^ Z.of_nat 8) with 18446744073709551616. rewrite s64_mod. by apply s64_small.
  - by apply Z.mod_small.
  - by apply Z.mod_small.
  - by apply Z.mod_small.
Qed.

Lemma packed_inv t p to_int of_int (x : denote t) :
  is_pointer_equivalent_array_v t = Some (p, to_int, of_int) -> valid t x ->
  of_int (from_memory p (to_int x mod 256 ^ Z.of_nat (sizeof p))) = x.
Proof.
  destruct t; simpl; try discriminate; intros E Hv.
  - destruct (is_pointer_equivalent_prim p0); simplify_eq. by apply from_memory_ok.
  - destruct (_ || _); simplify_eq. by apply from_memory_ok.
Qed.

Lemma widened_inv t p to_int of_int (x : denote t) :
  is_widened t = Some (p, to_int, of_int) -> valid t x ->
  of_int (narrow p (s32 (to_int x mod 256 ^ Z.of_nat 4))) = x.
Proof.
  change (256 ^ Z.of_nat 4) with 4294967296.
  destruct t as [[]| | | | | |]; simpl; try discriminate; intros E Hv; simplify_eq;
    unfold id; rewrite s32_mod, s32_small; unfold is_s32, is_u16 in *; try lia.
  - by destruct Hv as [-> | ->].
  - by apply Z.mod_small.
Qed.

Lemma split_array_mod n vals :
  split_array n (length vals) (array_bytes n vals) = map (fun v => v mod 256 ^ Z.of_nat n) vals.
Proof.
  unfold array_bytes. induction vals as [|v vals IH]; [done|].
  cbn [length split_array map concat]. f_equal.
  - rewrite take_app_length' by (by rewrite length_le_bytes). apply le_val_le_bytes.
  - rewrite drop_app_length' by (by rewrite length_le_bytes). exact IH.
Qed.

(** Reading a packed array in place. *)
Lemma read_array_ok {A} F s n (vals : list Z) (g : Z -> A) c :
  wf (this s) -> 0 < mDataSize (this s) -> avail (this s) (padded (array_bytes n vals)) ->
  map g (map (fun v => v mod 256 ^ Z.of_nat n) vals) = c ->
  wpg F (let* data := readInplace (u64 (zlen vals * Z.of_nat n)) in
         match data with
         | None => ret (Err BAD_VALUE)
         | Some d => let* c := load_array d n (zlen vals) in ret (Good (map g c))
         end) s
    (fun r s' => r = Good c /\ consumed s (zlen (padded (array_bytes n vals))) s').
Proof.
  intros Hwf Hne Hav <-. pose proof Hav as []. pose proof (zlen_nonneg vals).
  pose proof (padz_ge (zlen (array_bytes n vals))). pose proof Hwf as [].
  rewrite zlen_padded, zlen_array_bytes in *. rewrite u64_small by nia.
  replace (zlen vals * Z.of_nat n) with (zlen (array_bytes n vals)) by (rewrite zlen_array_bytes; lia).
  wp_step. apply readInplace_region; [done|done|done|rewrite zlen_array_bytes; lia|].
  intros s1 Hc Hr. unfold load_array. do 2 wp_step.
  eapply load_region_head; [by rewrite app_nil_r|rewrite zlen_array_bytes; lia|].
  do 2 wp_step. rewrite zlen_array_bytes in Hc. split; [|done].
  unfold zlen. by rewrite Nat2Z.id, split_array_mod.
Qed.

Lemma read_each_decodes {A} (f : M PS (res A)) (enc : A -> bytes) c :
  (forall a, a ∈ c -> decodes f (enc a) (Good a)) ->
  decodes (read_each f (length c)) (concat (map enc c)) (Good c).
Proof.
  induction c as [|a c IH]; intros Hf; cbn [read_each length map concat].
  - apply decodes_ret.
  - apply (decodes_res _ _ _ _ a); [apply Hf; left|].
    rewrite <- (app_nil_r (concat _)). apply (decodes_res _ _ _ _ c).
    + apply IH. intros. apply Hf. by right.
    + apply decodes_ret.
Qed.

Lemma dataAvail_ok F s Q :
  wf (this s) -> Q (mDataSize (this s) - mDataPos (this s)) s -> wpg F dataAvail s Q.
Proof.
  intros Hwf HQ. pose proof Hwf as []. unfold dataAvail. wp_steps. unfold dataSize, dataPosition.
  assert ((if mDataPos (this s) <? mDataSize (this s) then mDataSize (this s)
           else mDataPos (this s)) = mDataSize (this s)) as ->
    by (zcase (mDataPos (this s) <? mDataSize (this s)); lia).
  rewrite u64_small by lia. zdec (INT32_MAX <? mDataSize (this s) - mDataPos (this s)).
  by wp_step.
Qed.

(** The element part of vectors and fixed arrays, after the size. *)
Lemma read_elements_ok F s t (c : list (denote t)) :
  wf (this s) -> 0 < mDataSize (this s) -> avail (this s) (elements t (encode t) c) ->
  Forall (valid t) c ->
  (forall a, a ∈ c -> decodes (readData t) (encode t a) (Good a)) ->
  wpg F (match is_pointer_equivalent_array_v t with
         | Some (p, _, of_int) =>
             let* data := readInplace (u64 (zlen c * Z.of_nat (sizeof p))) in
             match data with
             | None => ret (Err BAD_VALUE)
             | Some d => let* c := load_array d (sizeof p) (zlen c) in
                         ret (Good (map (fun v => of_int (from_memory p v)) c))
             end
         | None => read_each (readData t) (Z.to_nat (zlen c))
         end) s (fun r s' => r = Good c /\ consumed s (zlen (elements t (encode t) c)) s').
Proof.
  intros Hwf Hne Hav Hv Hd. unfold elements in *.
  destruct (is_pointer_equivalent_array_v t) as [[[p to_int] of_int]|] eqn:E.
  - assert (zlen c = zlen (map to_int c)) as -> by (by rewrite zlen_map).
    apply (read_array_ok F s _ (map to_int c) (fun v => of_int (from_memory p v))); [done..|].
    rewrite !map_map. rewrite Forall_forall in Hv.
    transitivity (map id c); [|apply map_id]. apply map_ext_in. intros x Hx. apply packed_inv; [done|].
    apply Hv. by apply list_elem_of_In.
  - unfold zlen. rewrite Nat2Z.id. by apply read_each_decodes.
Qed.

(** A non-null nullable starts with something else than the null marker. *)
Lemma encode_flag t (v : denote t) flag :
  null_flag t = Some flag -> compiles t = true -> valid t v -> zlen (encode t v) <= INT32_MAX ->
  exists x rest, encode t v = le_bytes 4 x ++ rest /\ is_s32 x /\ x <> flag.
Proof.
  destruct t as [p|p| |k|t|t|t n]; cbn [null_flag]; try discriminate; intros [= <-] Hc Hv Hl.
  - eexists _, _. split; [reflexivity|]. cbn [encode] in Hl. unfold string16_bytes in Hl.
    rewrite zlen_app, zlen_padded, zlen_app, zlen_array_bytes in Hl.
    match type of Hl with context [padz ?x] => pose proof (padz_ge x) end. zl.
    change (denote TString16) with (list Z) in v.
    pose proof (zlen_nonneg v). unfold is_s32, kNullVectorSize. lia.
  - eexists _, _. split; [reflexivity|]. by vm_compute.
  - eexists _, _. split; [apply encode_vector|]. rewrite encode_vector, zlen_app in Hl.
    change (denote (TVector t)) with (list (denote t)) in v. pose proof (zlen_nonneg v).
    rewrite zlen_le_bytes in Hl. unfold is_s32, kNullVectorSize.
    destruct (is_widened t) as [[[p to_int] of_int]|].
    + pose proof (widened_len (map to_int v)) as Hw. rewrite zlen_map in Hw. lia.
    + pose proof (elements_len t v). lia.
  - eexists _, _. split; [apply encode_array|]. cbn [compiles] in Hc. zb.
    unfold is_s32, kNullVectorSize. lia.
Qed.

Lemma setDataPosition_ok F s n Q :
  wf (this s) -> 0 <= n <= mDataSize (this s) ->
  (forall s', world s' = world s -> wf (this s') -> peq (set_mDataPos n (this s)) (this s') ->
     Q tt s') ->
  wpg F (setDataPosition n) s Q.
Proof.
  intros [] Hn HQ. unfold setDataPosition. zdec (INT32_MAX <? n). wp_step.
  apply HQ; [done| |by split]. split; try done; simpl; lia.
Qed.

Lemma peq_avail p q bs : peq p q -> avail p bs -> avail q bs.
Proof.
  intros Hp []. split.
  - by rewrite (peq_pos _ _ Hp), (peq_size _ _ Hp).
  - by rewrite (peq_upcoming _ _ _ Hp).
  - by apply (peq_clear _ _ _ Hp).
Qed.

(** Peeking at [n] bytes and going back. *)
Lemma rewind_ok F s n s1 Q :
  wf (this s) -> consumed s n s1 ->
  (forall s2, world s2 = world s -> wf (this s2) -> peq (this s) (this s2) -> Q tt s2) ->
  wpg F (setDataPosition (mDataPos (this s))) s1 Q.
Proof.
  intros Hwf (Hw1 & Hwf1 & Hp1) HQ. pose proof (ParcelInv.wf_pos _ Hwf).
  apply setDataPosition_ok; [done|rewrite (peq_size _ _ Hp1); simpl; lia|].
  intros s2 Hw2 Hwf2 Hp2. apply HQ; [congruence|done|]. etransitivity; [|exact Hp2].
  apply (set_pos_peq _ _ (mDataPos (this s))) in Hp1. by destruct (this s).
Qed.

Lemma avail_bound p bs : wf p -> avail p bs -> zlen bs <= INT32_MAX.
Proof. intros [] []. lia. Qed.

Lemma consumed_peq s s1 n s2 :
  world s1 = world s -> peq (this s) (this s1) -> consumed s1 n s2 -> consumed s n s2.
Proof.
  intros Hw Hp (Hw2 & Hwf2 & Hp2). split_and!; [congruence|done|].
  etransitivity; [|exact Hp2]. rewrite (peq_pos _ _ Hp). by apply set_pos_peq.
Qed.

(** The size that starts a vector or a fixed array. *)
Lemma read_size_ok F s n bs Q :
  wf (this s) -> avail (this s) (le_bytes 4 n ++ bs) -> is_s32 n ->
  (forall s1, consumed s 4 s1 -> 0 < mDataSize (this s1) -> avail (this s1) bs -> Q (Good n) s1) ->
  wpg F readInt32 s Q.
Proof.
  intros Hwf Hav Hn HQ. wp_use (readInt32_decodes n); [done|done|by eapply avail_app|].
  intros r s1 [-> Hc]. apply HQ; [done|by eapply consumed_nonempty|by eapply avail_rest].
Qed.

Lemma readData_vector t :
  readData (TVector t) =
    let? size := readInt32 in
    if size <? 0 then ret (Err UNEXPECTED_NULL) else
    let* availableBytes := dataAvail in
    if availableBytes <? size then ret (Err BAD_VALUE) else
    match is_pointer_equivalent_array_v t with
    | Some (p, _, of_int) =>
        let* data := readInplace (u64 (size * Z.of_nat (sizeof p))) in
        match data with
        | None => ret (Err BAD_VALUE)
        | Some d => let* c := load_array d (sizeof p) size in
                    ret (Good (map (fun v => of_int (from_memory p v)) c))
        end
    | None =>
        match is_widened t with
        | Some (p, _, of_int) =>
            let* data := readInplace (u64 (size * 4)) in
            match data with
            | None => ret (Err BAD_VALUE)
            | Some d => let* c := load_array d 4 size in
                        ret (Good (map (fun v => of_int (narrow p (s32 v))) c))
            end
        | None => read_each (readData t) (Z.to_nat size)
        end
    end.
Proof. reflexivity. Qed.

Lemma readData_array t n :
  readData (TArray t n) =
    let? size := readInt32 in
    if size <? 0 then ret (Err UNEXPECTED_NULL) else
    if negb (size =? s32 n) then ret (Err BAD_VALUE) else
    match is_pointer_equivalent_array_v t with
    | Some (p, _, of_int) =>
        let* data := readInplace (u64 (n * Z.of_nat (sizeof p))) in
        match data with
        | None => ret (Err BAD_VALUE)
        | Some d => let* c := load_array d (sizeof p) n in
                    ret (Good (map (fun v => of_int (from_memory p v)) c))
        end
    | None => read_each (readData t) (Z.to_nat n)
    end.
Proof. reflexivity. Qed.

(** Reading back what was written gives the value, for every type. *)
Lemma readData_decodes t (v : denote t) :
  compiles t = true -> valid t v -> decodes (readData t) (encode t v) (Good v).
Proof.
  induction t as [p|p| |k|t IH|t IH|t IH n]; intros Hc Hv; cbn [compiles valid] in Hc, Hv; zb.
  - by apply readData_prim_decodes.
  - by apply readData_prim_decodes.
  - intros F s Hwf Hav. cbn [readData]. wp_step. 
    pose proof (avail_bound _ _ Hwf Hav) as Hl. cbn [encode] in *. 
    wp_use readString16_decodes; [done| |done|done|].
    + unfold string16_bytes in Hl. rewrite zlen_app, zlen_padded, zlen_app, zlen_array_bytes in Hl.
      match type of Hl with context [padz ?x] => pose proof (padz_ge x) end. zl.
      change (denote TString16) with (list Z) in v. lia.
    + intros r s1 [-> Hc1]. wp_step. done.
  - apply (decodes_res _ _ _ _ kNonNullParcelableFlag); [by apply readInt32_decodes|].
    simpl. by apply p_read.
  - apply bool_decide_eq_true in H1 as [flag Eflag]. intros F s Hwf Hav. cbn [readData].
    rewrite Eflag. wp_steps. destruct v as [v|]; cbn [encode] in *.
    + destruct (encode_flag t v flag) as (x & rest & E & Hx & Hne); [done..|by eapply avail_bound|].
      apply wpg_bind_res. pose proof Hav as Hav'. rewrite E in Hav'.
      eapply read_size_ok; [done|exact Hav'|done|]. intros s1 Hc1 _ _. zdec (x =? flag).
      wp_step. eapply rewind_ok; [done|exact Hc1|]. intros s2 Hw2 Hwf2 Hp2.
      apply wpg_bind_res. wp_use IH; [done|done|done|by eapply peq_avail|].
      intros r s3 [-> Hc3]. wp_step. split; [done|]. by eapply consumed_peq.
    + rewrite Eflag in *. simpl default in *. apply wpg_bind_res.
      wp_use (readInt32_decodes flag); [|done|done|].
      { unfold is_s32. destruct t; simplify_eq/=; by vm_compute. }
      intros r s1 [-> Hc1]. rewrite Z.eqb_refl. by wp_step.
  - intros F s Hwf Hav. rewrite readData_vector. rewrite encode_vector in *.
    change (denote (TVector t)) with (list (denote t)) in v. pose proof (zlen_nonneg v).
    pose proof (avail_bound _ _ Hwf Hav) as Hl. rewrite zlen_app, zlen_le_bytes in Hl.
    apply wpg_bind_res.
    destruct (is_widened t) as [[[p to_int] of_int]|] eqn:Ew.
    + pose proof (widened_len (map to_int v)) as Hw. rewrite zlen_map in Hw.
      eapply read_size_ok; [done|exact Hav|unfold is_s32; lia|]. intros s1 Hc1 Hne Hav1.
      zdec (zlen v <? 0). wp_step. apply dataAvail_ok; [apply Hc1|].
      pose proof (av_size _ _ Hav1).
      zdec (mDataSize (this s1) - mDataPos (this s1) <? zlen v).
      rewrite (widened_not_packed _ _ Ew), <- (zlen_map to_int).
      eapply wpg_mono; [apply (read_array_ok F s1 4 (map to_int v)
        (fun v => of_int (narrow p (s32 v))) v); [apply Hc1|done|done|]|].
      * rewrite !map_map. rewrite Forall_forall in Hv. transitivity (map id v); [|apply map_id].
        apply map_ext_in. intros x Hx. eapply widened_inv; [done|]. apply Hv.
        by apply list_elem_of_In.
      * intros r s2 [-> Hc2]. split; [done|]. rewrite zlen_app. by eapply consumed_app.
    + pose proof (elements_len t v) as Hw.
      eapply read_size_ok; [done|exact Hav|unfold is_s32; lia|]. intros s1 Hc1 Hne Hav1.
      zdec (zlen v <? 0). wp_step. apply dataAvail_ok; [apply Hc1|].
      pose proof (av_size _ _ Hav1).
      zdec (mDataSize (this s1) - mDataPos (this s1) <? zlen v).
      wp_use read_elements_ok; [apply Hc1|done|done|done| |].
      * rewrite Forall_forall in Hv. auto.
      * intros r s2 [-> Hc2]. split; [done|]. rewrite zlen_app. by eapply consumed_app.
  - intros F s Hwf Hav. rewrite readData_array. rewrite encode_array in *.
    change (denote (TArray t n)) with (list (denote t)) in v. destruct Hv as [Hn Hv].
    assert (n = zlen v) as -> by exact (eq_sym Hn).
    apply wpg_bind_res. eapply read_size_ok; [done|exact Hav|unfold is_s32; lia|].
    intros s1 Hc1 Hne Hav1. zdec (zlen v <? 0).
    rewrite s32_small by (unfold is_s32; lia). rewrite Z.eqb_refl.
    wp_use read_elements_ok; [apply Hc1|done|done|done| |].
    + rewrite Forall_forall in Hv. auto.
    + intros r s2 [-> Hc2]. split; [done|]. rewrite zlen_app. by eapply consumed_app.
Qed.

(** * Hostile data *)

Lemma readData_prim_safe p : safe_read (readData_prim p).
Proof.
  destruct p; try (by apply readAligned_safe); try apply readInt32_safe;
    try apply readInt64_safe;
    (apply safe_bind; [apply safe_bind; [apply readInt32_safe|]|]; intros; apply safe_ret).
Qed.

Lemma read_each_safe {A} (f : M PS (res A)) n : safe_read f -> safe_read (read_each f n).
Proof.
  intros Hf. induction n as [|n IH]; cbn [read_each]; [apply safe_ret|].
  apply safe_bind_res; [done|]. intros a. apply safe_bind_res; [done|].
  intros. apply safe_ret.
Qed.

Lemma safe_here {A} F (m : M PS A) s s1 :
  stays s s1 -> safe_read m -> wpg F m s1 (fun _ => stays s).
Proof.
  intros Hst Hm. wp_use Hm; [apply Hst|]. intros a s2 H2. by eapply stays_trans.
Qed.

Lemma read_array_safe {A} n count (g : Z -> A) :
  0 <= count -> count * Z.of_nat n <= SIZE_MAX ->
  safe_read (let* data := readInplace (u64 (count * Z.of_nat n)) in
             match data with
             | None => ret (Err BAD_VALUE)
             | Some d => let* c := load_array d n count in ret (Good (map g c))
             end).
Proof.
  intros Hc Hn. rewrite u64_small by lia. apply safe_inplace; [lia| |apply safe_ret].
  intros F s off Hwf Ho Hf. unfold load_array. do 2 wp_step. apply load_ok; [lia..|].
  do 2 wp_step. by apply stays_refl.
Qed.

Lemma setDataPosition_safe F s n :
  wf (this s) -> 0 <= n <= mDataSize (this s) ->
  wpg F (setDataPosition n) s (fun _ s' => stays s s').
Proof.
  intros Hwf Hn. apply setDataPosition_ok; [done|done|]. intros s' Hw Hwf' Hp.
  split_and!; [done|done|]. by rewrite (peq_pos _ _ Hp).
Qed.

Lemma sizeof_bound p : 1 <= Z.of_nat (sizeof p) <= 8.
Proof. destruct p; simpl; lia. Qed.

(** Reading any data as any type stays inside the parcel. *)
Lemma readData_safe t : compiles t = true -> safe_read (readData t).
Proof.
  induction t as [p|p| |k|t IH|t IH|t IH n]; intros Hc; cbn [compiles] in Hc; zb.
  - apply readData_prim_safe.
  - apply readData_prim_safe.
  - apply safe_bind; [apply readString16_safe|]. intros. apply safe_ret.
  - apply safe_bind_res; [apply readInt32_safe|]. intros a. destruct (negb _); [apply safe_ret|].
    apply p_safe.
  - apply bool_decide_eq_true in H1 as [flag Eflag]. intros F s Hwf. cbn [readData].
    rewrite Eflag. wp_step. wp_step. apply wpg_bind_res.
    wp_use readInt32_safe; [done|]. intros [peek|st] s1 H1; [|done].
    destruct (peek =? flag); [by wp_step|]. wp_step.
    wp_use setDataPosition_safe; [apply H1| |].
    { pose proof (ParcelInv.wf_pos _ Hwf). destruct H1 as (_ & _ & Hp).
      rewrite (peq_size _ _ Hp). simpl. unfold dataPosition. lia. }
    intros [] s2 Hs2. apply safe_here; [by eapply stays_trans|].
    apply safe_bind_res; [auto|]. intros. apply safe_ret.
  - rewrite readData_vector. apply safe_bind_res; [apply readInt32_safe|]. intros size.
    zcase (size <? 0); [apply safe_ret|]. intros F s Hwf. pose proof Hwf as [].
    wp_step. apply dataAvail_ok; [done|].
    zcase (mDataSize (this s) - mDataPos (this s) <? size); [wp_step; by apply stays_refl|].
    destruct (is_pointer_equivalent_array_v t) as [[[p to_int] of_int]|];
      [pose proof (sizeof_bound p); apply read_array_safe; [lia|nia|done]|].
    destruct (is_widened t) as [[[p to_int] of_int]|];
      [apply (read_array_safe 4); [lia|lia|done]|].
    apply read_each_safe; auto.
  - rewrite readData_array. apply safe_bind_res; [apply readInt32_safe|]. intros size.
    destruct (size <? 0); [apply safe_ret|]. destruct (negb _); [apply safe_ret|].
    destruct (is_pointer_equivalent_array_v t) as [[[p to_int] of_int]|];
      [pose proof (sizeof_bound p); apply read_array_safe; [lia|nia]|].
    apply read_each_safe; auto.
Qed.
End Spec.
