(* ===== verification/ParcelProps.v ===== *)
(** The properties of the Parcel buffer, its readers and its writers.

    Each theorem is stated on the translated operations and follows from the
    lemmas of the specification files.  [Sample] holds the concrete parcels and
    the concrete Parcelable class the examples use. *)

From S2P Require Import Prelude Errors ParcelState ParcelWrite ParcelRead ParcelInv ParcelWriteSpec.
From S2P Require Import ParcelReadSpec ParcelData ParcelDataSpec.
From Stdlib Require Import Sorting.Sorted Sorting.Permutation.

(** * Concrete parcels *)

Module Sample.
Definition thread : ThreadState := mkThreadState 0 (-1) false 0 false.

(** A process in which every allocation succeeds. *)
Definition calm : World :=
  mkWorld (fun _ => Some (fun _ => 170)) 0 [] 0 0 1024 None ∅ (fun _ => None) ∅ [] ∅ thread ∅ ∅.

(** The same, with its first [n] allocations failing. *)
Definition starved (n : nat) : World :=
  set_w_heap (fun k => if (k <? n)%nat then None else Some (fun _ => 170)) calm.

Definition fresh : PS := mkPS init_parcel calm.

Lemma calm_allocates : ~ can_fail calm.
Proof. by intros [k [=]]. Qed.

(** A parcelable of two fields, written with the primitive writers. *)
Definition write_pair (v : Z * Z) : M PS status_t :=
  writeInt32 (fst v) ;;? writeInt64 (snd v).
Definition read_pair : M PS (res (Z * Z)) :=
  let? a := readInt32 in let? b := readInt64 in ret (Good (a, b)).
Definition pair_bytes (v : Z * Z) : bytes := le_bytes 4 (fst v) ++ le_bytes 8 (snd v).

#[global] Instance pair_parcelable : Parcelable unit := {
  pvalue := fun _ => (Z * Z)%type;
  writeToParcel := fun _ => write_pair;
  readFromParcel := fun _ => read_pair;
}.

Lemma write_pair_ok v F s :
  wf (this s) -> fits (this s) (zlen (pair_bytes v)) ->
  wpg F (write_pair v) s (data_post s (pair_bytes v)).
Proof.
  intros Hwf Hf. eapply wpg_mono; [|intros; by apply write_data_post].
  unfold pair_bytes in *. zl. apply write_post_seq; [done|by zl|..]; intros.
  - by apply writeInt32_ok.
  - by apply writeInt64_ok.
Qed.

Lemma read_pair_decodes v :
  is_s32 (fst v) -> is_s64 (snd v) -> decodes read_pair (pair_bytes v) (Good v).
Proof.
  intros H1 H2. unfold pair_bytes. apply (decodes_res _ _ _ _ (fst v));
    [by apply readInt32_decodes|].
  rewrite <- (app_nil_r (le_bytes 8 _)). apply (decodes_res _ _ _ _ (snd v));
    [by apply readInt64_decodes|]. destruct v. apply decodes_ret.
Qed.

Lemma read_pair_safe : safe_read read_pair.
Proof.
  apply safe_bind_res; [apply readInt32_safe|]. intros a.
  apply safe_bind_res; [apply readInt64_safe|]. intros b. apply safe_ret.
Qed.

#[global] Instance pair_laws : ParcelableLaws unit := {
  p_encode := fun _ => pair_bytes;
  p_valid := fun _ v => is_s32 (fst v) /\ is_s64 (snd v);
  p_write := fun _ v F s Hwf _ Hf => write_pair_ok v F s Hwf Hf;
  p_read := fun _ v Hv => read_pair_decodes v (proj1 Hv) (proj2 Hv);
  p_safe := fun _ => read_pair_safe;
}.

(** [std::vector<std::optional<Pair>>] and a value of it. *)
Definition pairs : ty unit := TVector (TOptional (TParcelable tt)).
Definition some_pairs : denote pairs := [Some (7, -3); None].
End Sample.

(** * Writing and reading values *)

(** What was written is available to a reader sent back to where it starts. *)
Lemma wrote_avail p p' q bs :
  wf p -> wrote p p' bs -> clear p (zlen bs) -> peq (set_mDataPos (mDataPos p) p') q ->
  avail q bs.
Proof.
  intros Hwf Hw Hcl Hp. pose proof (ParcelInv.wf_pos _ Hwf).
  pose proof (wrote_size _ _ _ Hwf Hw) as Hs. eapply peq_avail; [exact Hp|].
  destruct Hw as [_ _ Hc Ho _]. split; simpl.
  - lia.
  - unfold upcoming. simpl. change (contents (set_mDataPos _ p')) with (contents p').
    rewrite Hc. apply overwrite_slice. rewrite zlen_contents by done. lia.
  - unfold clear in *. change (objs (set_mDataPos _ p')) with (objs p'). by rewrite Ho.
Qed.

(** C1: the value round trip.  For every type the generic overloads accept
    (primitives, enumerations, strings, Parcelables, nullables, vectors and
    fixed arrays, nested at will) and every value of it: [writeData], then
    [setDataPosition] back to where the value starts, then [readData] returns
    [OK] with the same value and stops exactly where the write stopped, as long
    as memory lasts and the parcel stays under its size limit. *)
Theorem writeData_readData_roundtrip {K : Type} `{ParcelableLaws K}
    (t : ty K) (v : denote t) (s : PS) :
  compiles t = true -> valid t v -> wf (this s) ->
  fits (this s) (zlen (encode t v)) -> clear (this s) (zlen (encode t v)) ->
  ~ can_fail (world s) ->
  wp (let* pos := getp dataPosition in
      let* st := writeData t v in
      setDataPosition pos ;;
      let* r := readData t in
      ret (st, r)) s
    (fun '(st, r) s' => st = OK /\ r = Good v /\ wf (this s') /\
       dataPosition (this s') = dataPosition (this s) + zlen (encode t v)).
Proof.
  intros Hc Hv Hwf Hf Hcl Hmem. pose proof (ParcelInv.wf_pos _ Hwf). wp_steps.
  wp_use writeData_ok; [done..|]. intros st s1 [_ [[-> Hw]|[]]]; [|done]. wp_step.
  apply setDataPosition_ok; [apply Hw|rewrite (wrote_size _ _ _ Hwf Hw); unfold dataPosition; lia|].
  intros s2 _ Hwf2 Hp. wp_step.
  wp_use readData_decodes; [done|done|done|exact (wrote_avail _ _ _ _ Hwf Hw Hcl Hp)|].
  intros r s3 [-> (_ & Hwf3 & Hp3)]. wp_step. split_and!; [done|done|done|].
  unfold dataPosition. by rewrite (peq_pos _ _ Hp3), (peq_pos _ _ Hp).
Qed.

Lemma writeData_readData_roundtrip_witness :
  wp (let* pos := getp dataPosition in
      let* st := writeData Sample.pairs Sample.some_pairs in
      setDataPosition pos ;;
      let* r := readData Sample.pairs in
      ret (st, r)) Sample.fresh
    (fun '(st, r) s' => st = OK /\ r = Good Sample.some_pairs /\ wf (this s') /\
       dataPosition (this s') = dataPosition init_parcel + zlen (encode Sample.pairs Sample.some_pairs)).
Proof.
  apply (writeData_readData_roundtrip Sample.pairs Sample.some_pairs Sample.fresh).
  - reflexivity.
  - repeat constructor; simpl; unfold is_s32, is_s64; lia.
  - apply init_parcel_wf.
  - by vm_compute.
  - constructor.
  - apply Sample.calm_allocates.
Defined.

(** C2: reading hostile data.  Whatever bytes and object offsets a well-formed
    parcel holds, [readData] at any type returns (it neither aborts nor touches
    memory outside the block), gives back a value or an error status, and
    changes nothing but the position and the order and search state of the
    object table. *)
Theorem readData_total {K : Type} `{ParcelableLaws K} (t : ty K) (s : PS) :
  compiles t = true -> wf (this s) ->
  wp (readData t) s (fun _ s' => world s' = world s /\ wf (this s') /\
    contents (this s') = contents (this s) /\ Permutation (objs (this s')) (objs (this s)) /\
    meta (this s') = meta (this s)).
Proof.
  intros Hc Hwf. wp_use readData_safe; [done|done|]. intros r s' (Hw & Hwf' & Hp).
  split_and!; try done.
  - by rewrite (peq_contents _ _ Hp).
  - by rewrite (peq_objs _ _ Hp).
  - by rewrite (peq_meta _ _ Hp).
Qed.

Lemma readData_total_witness :
  wp (readData Sample.pairs) Sample.fresh (fun _ s' => world s' = Sample.calm /\ wf (this s') /\
    contents (this s') = [] /\ Permutation (objs (this s')) [] /\
    meta (this s') = meta init_parcel).
Proof.
  apply (readData_total Sample.pairs Sample.fresh); [reflexivity|apply init_parcel_wf].
Defined.

(** writing a value.  [writeData] at any type either returns [OK] having put
    exactly the encoding of the value at the position (earlier and later bytes
    and the object table untouched), or an allocation failed and the parcel
    says so in [mError].  Either way the parcel stays well formed and the
    global allocation counters account for it exactly. *)
Theorem writeData_appends {K : Type} `{ParcelableLaws K} (t : ty K) (v : denote t) (s : PS) :
  compiles t = true -> valid t v -> wf (this s) -> fits (this s) (zlen (encode t v)) ->
  wp (writeData t v) s (fun st s' => wf (this s') /\ others s' = others s /\
    ((st = OK /\
      contents (this s') = overwrite (contents (this s)) (mDataPos (this s)) (encode t v) /\
      mDataPos (this s') = mDataPos (this s) + zlen (encode t v) /\
      objs (this s') = objs (this s) /\ meta (this s') = meta (this s)) \/
     (mError (this s') = NO_MEMORY /\ can_fail (world s)))).
Proof.
  intros Hc Hv Hwf Hf. wp_use writeData_ok; [done..|].
  intros st s' [Hb [[-> []]|[]]]; (split_and!; [done|apply Hb|]); [left|right]; by split_and!.
Qed.

Lemma writeData_appends_witness :
  wp (writeData Sample.pairs Sample.some_pairs) Sample.fresh (fun st s' => wf (this s') /\
    others s' = others Sample.fresh /\
    ((st = OK /\
      contents (this s') = overwrite [] 0 (encode Sample.pairs Sample.some_pairs) /\
      mDataPos (this s') = 0 + zlen (encode Sample.pairs Sample.some_pairs) /\
      objs (this s') = [] /\ meta (this s') = meta init_parcel) \/
     (mError (this s') = NO_MEMORY /\ can_fail Sample.calm))).
Proof.
  apply (writeData_appends Sample.pairs Sample.some_pairs Sample.fresh).
  - reflexivity.
  - repeat constructor; simpl; unfold is_s32, is_s64; lia.
  - apply init_parcel_wf.
  - by vm_compute.
Defined.

(** * Raw reads and the object guard *)

(** a fixed-size read on every branch.  [readInt32] on a well-formed parcel
    returns [NOT_ENOUGH_DATA] without moving when fewer than 4 bytes remain;
    otherwise it moves by 4 and returns the little-endian value of the bytes
    there, or [PERMISSION_DENIED] exactly when they overlap the record of a
    binder object: plain reads cannot see or be confused by object records,
    whatever the order of the object table and the state of its search hint. *)
Theorem readInt32_exact (s : PS) :
  wf (this s) ->
  wp readInt32 s (fun r s' => wf (this s') /\ world s' = world s /\
    contents (this s') = contents (this s) /\ Permutation (objs (this s')) (objs (this s)) /\
    if mDataSize (this s) <? mDataPos (this s) + 4
    then r = Err NOT_ENOUGH_DATA /\ mDataPos (this s') = mDataPos (this s)
    else mDataPos (this s') = mDataPos (this s) + 4 /\
         r = if decide (Forall (fun o => o + sizeof_flat <= mDataPos (this s) \/
                                         mDataPos (this s) + 4 <= o) (objs (this s)))
             then Good (s32 (le_val (ztake 4 (zdrop (mDataPos (this s)) (contents (this s))))))
             else Err PERMISSION_DENIED).
Proof.
  intros Hwf. unfold readInt32. wp_step. wp_use (readAligned_ok _ _ 4); [done|lia|].
  change (Z.of_nat 4) with 4. intros r s' [-> Hst]. wp_step.
  pose proof (aligned_state_stays _ _ _ Hwf Hst) as (Hw & Hwf' & Hp).
  split_and!; [done|done|by rewrite (peq_contents _ _ Hp)|by rewrite (peq_objs _ _ Hp)|].
  unfold aligned_result, aligned_state, clear in *.
  destruct (mDataSize (this s) <? mDataPos (this s) + 4); [by subst|].
  destruct Hst as (_ & _ & Hp2). rewrite (peq_pos _ _ Hp2). split; [done|].
  by destruct (decide _).
Qed.

Lemma readInt32_exact_witness :
  wp readInt32 Sample.fresh (fun r s' => wf (this s') /\ world s' = Sample.calm /\
    contents (this s') = [] /\ Permutation (objs (this s')) [] /\
    if 0 <? 0 + 4 then r = Err NOT_ENOUGH_DATA /\ mDataPos (this s') = 0
    else mDataPos (this s') = 0 + 4 /\
         r = if decide (Forall (fun o => o + sizeof_flat <= 0 \/ 0 + 4 <= o) [])
             then Good (s32 (le_val (ztake 4 (zdrop 0 []))))
             else Err PERMISSION_DENIED).
Proof. apply (readInt32_exact Sample.fresh). apply init_parcel_wf. Defined.



(** * The buffer *)

(** growing the buffer.  When more room is needed, [continueWrite] moves the
    data into a larger block of the parcel's own (also when the old one belonged
    to the driver or to an RPC session, whose release callback it runs), keeping
    contents, position and objects and the global counters exact; or it reports
    [NO_MEMORY] and only records the error. *)
Theorem continueWrite_grows (s : PS) (desired : Z) :
  wf (this s) -> mDataCapacity (this s) < desired <= INT32_MAX ->
  wp (continueWrite desired) s (fun st s' => others s' = others s /\
    ((st = NO_ERROR /\ wf (this s') /\ mDataCapacity (this s') = desired /\
      mOwner (this s') = None /\ contents (this s') = contents (this s) /\
      mDataPos (this s') = mDataPos (this s) /\ objs (this s') = objs (this s) /\
      meta (this s') = meta (this s)) \/
     (st = NO_MEMORY /\ this s' = set_mError NO_MEMORY (this s) /\ can_fail (world s)))).
Proof.
  intros Hwf Hd. wp_use continueWrite_grow; [done..|].
  intros st s' [Hb [[-> []]|Hn]]; (split; [apply Hb|]); [left|by right]. by split_and!.
Qed.

Lemma continueWrite_grows_witness :
  wp (continueWrite 256) Sample.fresh (fun st s' => others s' = others Sample.fresh /\
    ((st = NO_ERROR /\ wf (this s') /\ mDataCapacity (this s') = 256 /\
      mOwner (this s') = None /\ contents (this s') = [] /\
      mDataPos (this s') = 0 /\ objs (this s') = [] /\
      meta (this s') = meta init_parcel) \/
     (st = NO_MEMORY /\ this s' = set_mError NO_MEMORY init_parcel /\ can_fail Sample.calm))).
Proof. apply (continueWrite_grows Sample.fresh 256); [apply init_parcel_wf|simpl; lia]. Defined.

(** reserving space.  [writeInplace(len)] hands out a region at the old
    position, [len] rounded up to 4 bytes long, whose pad bytes are zero, so
    that no stale heap byte reaches the receiver through the padding. *)
Theorem writeInplace_zero_padding (s : PS) (len : Z) :
  wf (this s) -> 0 < len -> fits (this s) (padz len) -> ~ can_fail (world s) ->
  wp (writeInplace len) s (fun o s' => o = Some (mDataPos (this s)) /\ wf (this s') /\
    mDataPos (this s') = mDataPos (this s) + padz len /\
    forall i, len <= i < padz len -> byte_at (contents (this s')) (mDataPos (this s) + i) = Some 0).
Proof.
  intros Hwf Hl Hf Hmem. pose proof (ParcelInv.wf_pos _ Hwf). pose proof (padz_ge len).
  wp_use writeInplace_ok; [done|lia|done|].
  intros o s' [_ [(->&y&Hy&_&Hw)|(_&_&Hcf)]]; [|done].
  pose proof (wrote_size _ _ _ Hwf Hw) as Hs. pose proof Hw as [Hwf' Hpos Hc _ _].
  rewrite zlen_app, zlen_zeros, Hy in * by lia.
  rewrite pointer_of_Some by (done || lia). split_and!; [done|done|lia|].
  intros i Hi. rewrite Hc, byte_at_overwrite by (rewrite zlen_contents by done; lia).
  rewrite zlen_app, zlen_zeros by lia. zdec (mDataPos (this s) <=? mDataPos (this s) + i).
  zdec (mDataPos (this s) + i <? mDataPos (this s) + (zlen y + (padz len - len))). simpl.
  rewrite byte_at_app. zdec (mDataPos (this s) + i - mDataPos (this s) <? zlen y).
  unfold byte_at, zeros. zdec (0 <=? mDataPos (this s) + i - mDataPos (this s) - zlen y).
  apply lookup_replicate_2. lia.
Qed.

Lemma writeInplace_zero_padding_witness :
  wp (writeInplace 5) Sample.fresh (fun o s' => o = Some 0 /\ wf (this s') /\
    mDataPos (this s') = 0 + padz 5 /\
    forall i, 5 <= i < padz 5 -> byte_at (contents (this s')) (0 + i) = Some 0).
Proof.
  apply (writeInplace_zero_padding Sample.fresh 5);
    [apply init_parcel_wf|lia|by vm_compute|apply Sample.calm_allocates].
Defined.

(** the UTF-8 string round trip.  [writeString8] followed by a read from the
    same place returns the bytes of the string, embedded NULs included. *)
Theorem writeString8_readString8 (s : PS) (str : bytes) :
  wf (this s) -> Forall is_byte str -> fits (this s) (zlen (string8_bytes str)) ->
  clear (this s) (zlen (string8_bytes str)) -> ~ can_fail (world s) ->
  wp (let* pos := getp dataPosition in
      let* st := writeString8 (Some str) (zlen str) in
      setDataPosition pos ;;
      let* r := readString8 in
      ret (st, r)) s (fun '(st, r) _ => st = OK /\ r = (OK, str)).
Proof.
  intros Hwf Hb Hf Hcl Hmem. pose proof (ParcelInv.wf_pos _ Hwf). wp_steps.
  wp_use writeString8_ok; [done..|]. intros st s1 [_ [[-> Hw]|[_ []]]]; [|done]. wp_step.
  apply setDataPosition_ok; [apply Hw|rewrite (wrote_size _ _ _ Hwf Hw); unfold dataPosition; lia|].
  intros s2 _ Hwf2 Hp. wp_step.
  wp_use readString8_decodes; [done| |done|exact (wrote_avail _ _ _ _ Hwf Hw Hcl Hp)|].
  - pose proof (fits_bound _ _ Hwf Hf) as Hl. unfold string8_bytes in Hl.
    rewrite zlen_app, zlen_padded, zlen_app in Hl.
    match type of Hl with context [padz ?x] => pose proof (padz_ge x) end. zl. lia.
  - intros r s3 [-> _]. by wp_step.
Qed.

Lemma writeString8_readString8_witness :
  wp (let* pos := getp dataPosition in
      let* st := writeString8 (Some [104; 0; 105]) 3 in
      setDataPosition pos ;;
      let* r := readString8 in
      ret (st, r)) Sample.fresh (fun '(st, r) _ => st = OK /\ r = (OK, [104; 0; 105])).
Proof.
  apply (writeString8_readString8 Sample.fresh [104; 0; 105]).
  - apply init_parcel_wf.
  - repeat constructor; unfold is_byte; lia.
  - by vm_compute.
  - constructor.
  - apply Sample.calm_allocates.
Defined.

(** * Where the code falls short *)

(** a position set past the capacity.  [growData] sizes the new block from
    [mDataSize], not from [mDataPos], and [continueWrite] then clamps the
    position to the capacity: the write that follows lands outside the block. *)
Theorem write_past_capacity_faults :
  (writeInt32 1 ;; setDataPosition 1000 ;; writeInt32 5) Sample.fresh = Fault.
Proof. by vm_compute. Qed.

Lemma growData_too_big s len :
  wf (this s) -> 0 <= len <= INT32_MAX + 4 -> INT32_MAX < 3 * (mDataSize (this s) + len) / 2 ->
  growData len s = Ret BAD_VALUE s.
Proof.
  intros [] Hl Hbig. unfold growData. zcase (INT32_MAX <? len); [done|].
  unfold bind, gets. zdec (SIZE_MAX - mDataSize (this s) <? len).
  change (SIZE_MAX / 3) with 6148914691236517205.
  zdec (6148914691236517205 <? mDataSize (this s) + len).
  rewrite u64_small by lia. rewrite (Z.mul_comm _ 3).
  zdec (3 * (mDataSize (this s) + len) / 2 <=? mDataSize (this s)).
  unfold continueWrite. by zdec (INT32_MAX <? Z.max (3 * (mDataSize (this s) + len) / 2) 128).
Qed.

(** a write that is too large for the parcel is refused by [growData], but
    [write] returns [mError], which nobody set: the caller sees [NO_ERROR] and
    nothing has been written. *)
Theorem write_too_big_reports_success (s : PS) (data : bytes) (len : Z) :
  wf (this s) -> mError (this s) = NO_ERROR -> 0 <= len <= INT32_MAX ->
  mDataCapacity (this s) < mDataPos (this s) + padz len ->
  INT32_MAX < 3 * (mDataSize (this s) + padz len) / 2 ->
  write (Some data) len s = Ret NO_ERROR s.
Proof.
  intros Hwf He Hl Hcap Hbig. pose proof Hwf as []. pose proof (padz_bounds len).
  unfold write. zdec (INT32_MAX <? len). unfold writeInplace. zdec (INT32_MAX <? len).
  unfold bind at 1 2, pad_size. zdec (SIZE_MAX - 3 <? len).
  unfold ret. rewrite PAD_SIZE_UNSAFE_eq by lia. unfold bind, gets. rewrite u64_small by lia.
  zdec (mDataPos (this s) + padz len <? mDataPos (this s)).
  zdec (mDataPos (this s) + padz len <=? mDataCapacity (this s)).
  rewrite growData_too_big by (done || lia). simpl. by rewrite He.
Qed.

Lemma write_too_big_reports_success_witness :
  write (Some []) 1500000000 Sample.fresh = Ret NO_ERROR Sample.fresh.
Proof.
  apply (write_too_big_reports_success Sample.fresh [] 1500000000);
    [apply init_parcel_wf|reflexivity|lia|by vm_compute|by vm_compute].
Defined.

(** [writeData] on a vector ignores the status of the write of its size.
    When that allocation fails and a later one succeeds, it returns [OK] for a
    parcel that holds the elements and no size. *)
Theorem writeData_vector_loses_size :
  match writeData (K := unit) (TVector (TPrim Int32)) [1; 2]
          (mkPS init_parcel (Sample.starved 1)) with
  | Ret st s' => st = OK /\ contents (this s') = le_bytes 4 1 ++ le_bytes 4 2 /\
                 mError (this s') = NO_MEMORY
  | _ => False
  end.
Proof. vm_compute. auto. Qed.
