(* ===== verification/ParcelTyped.v ===== *)
(** Reading is typed: whatever the bytes of a parcel, the value a reader returns is
    a value of its C++ type, and the position only moves forward. *)

From S2P Require Import Prelude Errors ParcelState ParcelWrite ParcelRead ParcelInv ParcelWriteSpec.
From S2P Require Import ParcelReadSpec ParcelData ParcelDataSpec ParcelProps.

Definition ahead (s s' : PS) : Prop := stays s s' /\ mDataPos (this s) <= mDataPos (this s').

(** [m] reads forward and returns what satisfies [P]. *)
Definition yields {A} (P : A -> Prop) (m : M PS A) : Prop :=
  forall F s, wf (this s) -> wpg F m s (fun a s' => ahead s s' /\ P a).

Definition if_good {A} (P : A -> Prop) (r : res A) : Prop :=
  match r with Good a => P a | Err _ => True end.
Abbreviation reads_as P m := (yields (if_good P) m).

Lemma ahead_refl s : wf (this s) -> ahead s s.
Proof. split; [by apply stays_refl|done]. Qed.

Lemma ahead_trans s1 s2 s3 : ahead s1 s2 -> ahead s2 s3 -> ahead s1 s3.
Proof. intros [H1 P1] [H2 P2]. split; [by eapply stays_trans|lia]. Qed.

Lemma ahead_wf s s' : ahead s s' -> wf (this s').
Proof. intros [(_ & H & _) _]. done. Qed.
#[export] Hint Resolve ahead_wf : binder.

Lemma yields_ret {A} (P : A -> Prop) a : P a -> yields P (ret a).
Proof. intros Ha F s Hwf. wp_step. split; [by apply ahead_refl|done]. Qed.

Lemma yields_bind {A B} (P : A -> Prop) (Q : B -> Prop) (m : M PS A) (k : A -> M PS B) :
  yields P m -> (forall a, P a -> yields Q (k a)) -> yields Q (let* a := m in k a).
Proof.
  intros Hm Hk F s Hwf. wp_step. wp_use Hm; [done|]. intros a s1 [H1 Ha].
  wp_use (Hk a Ha); [by eapply ahead_wf|]. intros b s2 [H2 Hb]. split; [by eapply ahead_trans|done].
Qed.

Lemma reads_bind {A B} (P : A -> Prop) (Q : B -> Prop) (m : M PS (res A)) (k : A -> M PS (res B)) :
  reads_as P m -> (forall a, P a -> reads_as Q (k a)) -> reads_as Q (let? a := m in k a).
Proof. intros Hm Hk. eapply yields_bind; [exact Hm|]. intros [a|st] Ha; [by apply Hk|by apply yields_ret]. Qed.

Lemma yields_mono {A} (P Q : A -> Prop) m : (forall a, P a -> Q a) -> yields P m -> yields Q m.
Proof. intros H Hm F s Hwf. wp_use Hm; [done|]. intros a s' [H1 H2]. auto. Qed.

Lemma yields_map {A B} (f : A -> B) (P : A -> Prop) (Q : B -> Prop) (m : M PS A) :
  yields P m -> (forall a, P a -> Q (f a)) -> yields Q (let* a := m in ret (f a)).
Proof. intros Hm Hf. eapply yields_bind; [exact Hm|]. intros a Ha. by apply yields_ret, Hf. Qed.

(** * Words *)

Lemma aligned_ahead s n s' : wf (this s) -> 0 <= n -> aligned_state s n s' -> ahead s s'.
Proof.
  intros Hwf Hn Hs. split; [by eapply aligned_state_stays|]. unfold aligned_state in Hs.
  destruct (_ <? _); [by subst|]. destruct Hs as (_ & _ & Hp). rewrite (peq_pos _ _ Hp). cbn. lia.
Qed.

Definition word_range (n : nat) (v : Z) : Prop := 0 <= v < 256 ^ Z.of_nat n.

Lemma readAligned_typed n : Z.of_nat n <= INT32_MAX -> reads_as (word_range n) (readAligned n).
Proof.
  intros Hn F s Hwf. wp_use readAligned_ok; [done|done|]. intros r s' [-> Hs].
  split; [eapply aligned_ahead; [done| |exact Hs]; lia|]. unfold aligned_result.
  zcase (mDataSize (this s) <? mDataPos (this s) + Z.of_nat n); [done|]. destruct (decide _); [|done]. cbn.
  unfold word_range. pose proof (ParcelInv.wf_pos _ Hwf). pose proof (ParcelInv.wf_size _ Hwf).
  assert (Eu : zlen (upcoming (this s) (Z.of_nat n)) = Z.of_nat n).
  { unfold upcoming. rewrite zlen_ztake; [done|]. rewrite zlen_zdrop, zlen_contents by (done || rewrite ?zlen_contents by done; lia). lia. }
  pose proof (le_val_range (upcoming (this s) (Z.of_nat n))) as Hr. rewrite Eu in Hr. apply Hr.
  unfold upcoming, contents. apply Forall_ztake, Forall_zdrop, Forall_ztake. apply Hwf.
Qed.

Lemma s64_range v : is_s64 (s64 v).
Proof. unfold is_s64, s64. pose proof (Z.mod_pos_bound (v + 9223372036854775808) 18446744073709551616). lia. Qed.
Lemma s8_range v : is_s8 (s8 v).
Proof. unfold is_s8, s8. pose proof (Z.mod_pos_bound (v + 128) 256). lia. Qed.
Lemma u16_range v : is_u16 (u16 v).
Proof. unfold is_u16, u16. pose proof (Z.mod_pos_bound v 65536). lia. Qed.
Lemma u8_range v : is_byte (u8 v).
Proof. unfold is_byte, u8. pose proof (Z.mod_pos_bound v 256). lia. Qed.

Lemma readInt32_typed : reads_as is_s32 readInt32.
Proof.
  eapply yields_map; [by apply readAligned_typed|]. intros [v|] _; [|done]. apply s32_range.
Qed.
Lemma readInt64_typed : reads_as is_s64 readInt64.
Proof.
  eapply yields_map; [by apply readAligned_typed|]. intros [v|] _; [|done]. apply s64_range.
Qed.
Lemma readInt32_typed_ : yields is_s32 readInt32_.
Proof. eapply yields_map; [apply readInt32_typed|]. by intros [v|] H. Qed.


Lemma reads_res {A B} (m : M PS (res A)) (P : A -> Prop) (f : res A -> status_t * B) (Q : B -> Prop) :
  reads_as P m -> (forall r, Q (snd (f r))) ->
  reads_as Q (let* x := (let* r := m in ret (f r)) in ret (res_of x)).
Proof.
  intros Hm Hf F s Hwf. wp_steps. wp_use Hm; [done|]. intros r s1 [H1 _]. wp_steps. split; [done|].
  unfold res_of. specialize (Hf r). destruct (f r) as [st v]. by destruct (_ =? _).
Qed.

Lemma prim_typed p : reads_as (valid_prim p) (readData_prim p).
Proof.
  destruct p; cbn [readData_prim valid_prim].
  - unfold readBool. intros F s Hwf. wp_steps. wp_use readInt32_typed; [done|]. intros r s1 [H1 _]. wp_steps.
    split; [done|]. unfold res_of. cbn. destruct (_ =? _); [|done]. cbn. destruct (negb _); auto.
  - eapply reads_res; [apply readInt32_typed|]. intros r. apply s8_range.
  - unfold readByte. intros F s Hwf. wp_steps. wp_use readInt32_typed; [done|]. intros r s1 [H1 _]. wp_steps.
    split; [done|]. unfold res_of. cbn. destruct (_ =? _); [|done]. apply u8_range.
  - eapply reads_res; [apply readInt32_typed|]. intros r. apply u16_range.
  - apply readInt32_typed.
  - eapply yields_mono; [|by apply (readAligned_typed 4)]. by intros [v|].
  - apply readInt64_typed.
  - eapply yields_mono; [|by apply (readAligned_typed 8)]. by intros [v|].
  - eapply yields_mono; [|by apply (readAligned_typed 4)]. by intros [v|].
  - eapply yields_mono; [|by apply (readAligned_typed 8)]. by intros [v|].
Qed.

(** * Regions *)

Lemma inplace_typed {A} (P : A -> Prop) len (k : Z -> M PS A) (none : M PS A) :
  0 <= len ->
  (forall F s off, wf (this s) -> 0 <= off -> off + len <= zlen (data_block (this s)) ->
     wpg F (k off) s (fun a s' => ahead s s' /\ P a)) ->
  yields P none ->
  yields P (let* o := readInplace len in match o with Some off => k off | None => none end).
Proof.
  intros Hl Hk Hn F s Hwf. wp_step.
  eapply wpg_mono with (P := fun o s1 => ahead s s1 /\
    match o with Some off => 0 <= off /\ off + len <= zlen (data_block (this s1)) | None => True end).
  - pose proof (readInplace_safe F s len Hwf Hl) as H1. destruct (Z.le_gt_cases len INT32_MAX) as [Hle|Hgt].
    + pose proof (readInplace_ok F s len Hwf ltac:(lia)) as H2. unfold wpg in *.
      destruct (readInplace len s) as [o s1| |]; [|done..]. destruct H1 as [_ H1]. destruct H2 as [H2 _].
      split; [|done]. eapply aligned_ahead; [done| |exact H2]. pose proof (padz_bounds len). lia.
    + unfold readInplace. zdec (INT32_MAX <? len). wp_step. split; [by apply ahead_refl|done].
  - intros [off|] s1 [H1 Ho].
    + wp_use Hk; [by eapply ahead_wf|lia|lia|]. intros a s2 [H2 Ha]. split; [by eapply ahead_trans|done].
    + wp_use Hn; [by eapply ahead_wf|]. intros a s2 [H2 Ha]. split; [by eapply ahead_trans|done].
Qed.

Lemma split_array_range n count bs :
  Forall is_byte bs -> Forall (word_range n) (split_array n count bs).
Proof.
  revert bs. induction count as [|count IH]; intros bs Hb; cbn; constructor.
  - unfold word_range. pose proof (le_val_range (take n bs) (Forall_take _ _ _ Hb)) as Hr.
    assert (256 ^ zlen (take n bs) <= 256 ^ Z.of_nat n); [|lia].
    apply Z.pow_le_mono_r; [lia|]. unfold zlen. rewrite length_take. lia.
  - by apply IH, Forall_drop.
Qed.

Lemma length_split_array n count bs : length (split_array n count bs) = count.
Proof. revert bs. induction count as [|count IH]; intros bs; cbn; [done|]. by rewrite IH. Qed.

Lemma array_typed {A} n count (g : Z -> A) (P : A -> Prop) :
  0 <= count -> count * Z.of_nat n <= SIZE_MAX -> (forall v, word_range n v -> P (g v)) ->
  reads_as (fun c => zlen c = count /\ Forall P c) (let* data := readInplace (u64 (count * Z.of_nat n)) in
    match data with
    | None => ret (Err BAD_VALUE)
    | Some d => let* c := load_array d n count in ret (Good (map g c))
    end).
Proof.
  intros Hc Hn Hg. rewrite u64_small by lia. apply inplace_typed; [lia| |by apply yields_ret].
  intros F s off Hwf Ho Hf. unfold load_array. do 2 wp_step. apply load_ok; [lia..|]. do 2 wp_step.
  split; [by apply ahead_refl|]. cbn. split.
  { rewrite zlen_map. unfold zlen. rewrite length_split_array. lia. }
  apply Forall_fmap. eapply Forall_impl; [|exact Hg]. apply split_array_range. apply Forall_ztake, Forall_zdrop. apply Hwf.
Qed.

Lemma inplace16_ahead : yields (fun _ => True) readString16Inplace.
Proof.
  eapply yields_bind; [apply readInt32_typed_|]. intros size _.
  destruct ((0 <=? size) && (size <? INT32_MAX)) eqn:Esz; zb; [|by apply yields_ret].
  rewrite u64_small by lia. apply inplace_typed; [lia| |by apply yields_ret].
  intros F s off Hwf Ho Hf. wp_step. apply load_ok; [lia..|].
  destruct (_ =? 0); wp_step; (split; [by apply ahead_refl|done]).
Qed.

Lemma readString16_typed : reads_as (Forall is_u16) (let* r := readString16 in ret (res_of r)).
Proof.
  intros F s Hwf. unfold readString16. wp_steps.
  eapply wpg_mono; [apply wpg_and; [by apply readString16Inplace_safe|by apply inplace16_ahead]|].
  intros [[off len]|] s1 [[_ Ho] [H2 _]]; [|by wp_steps].
  unfold load_chars. wp_steps. apply load_ok; [lia..|]. wp_steps. split; [done|]. cbn.
  change (Forall is_u16) with (Forall (word_range 2)). apply split_array_range.
  apply Forall_ztake, Forall_zdrop. eapply wf_bytes, ahead_wf, H2.
Qed.

Lemma read_each_typed {A} (f : M PS (res A)) (P : A -> Prop) n : reads_as P f ->
  reads_as (fun c => zlen c = Z.of_nat n /\ Forall P c) (read_each f n).
Proof.
  intros Hf. induction n as [|n IH]; cbn [read_each]; [by apply yields_ret|].
  eapply reads_bind; [exact Hf|]. intros a Ha. eapply reads_bind; [exact IH|]. intros c [Hl Hc].
  apply yields_ret. split; [rewrite zlen_cons; lia|by constructor].
Qed.

(** * Values *)

Section Typed.
Context {K : Type} `{ParcelableLaws K}.

(** A parcelable class that reads forward and returns well-formed objects. *)
Class TypedParcelables : Prop := {
  p_typed : forall k, reads_as (p_valid k) (readFromParcel k);
}.

(** No enumeration of booleans, whose bytes in an array need not be 0 or 1. *)
Fixpoint backed (t : ty K) : bool :=
  match t with
  | TEnum Bool => false
  | TOptional t | TVector t | TArray t _ => backed t
  | _ => true
  end.

Lemma packed_typed t p to_int of_int v :
  is_pointer_equivalent_array_v (K := K) t = Some (p, to_int, of_int) -> backed t = true ->
  word_range (sizeof p) v -> valid t (of_int (from_memory p v)).
Proof.
  assert (G : forall q, q <> Bool -> word_range (sizeof q) v -> valid_prim q (from_memory q v)).
  { intros q Hq Hv. destruct q; cbn in *; try done; unfold word_range in Hv;
      auto using s8_range, s32_range, s64_range. }
  destruct t as [q|q| | | | |]; cbn [is_pointer_equivalent_array_v]; try discriminate.
  - destruct (is_pointer_equivalent_prim q) eqn:Eq; [|discriminate]. intros [= <- <- <-] _ Hv.
    apply G; [by intros ->|done].
  - destruct (_ || _) eqn:Eq; [|discriminate]. intros [= <- <- <-] Hb Hv. apply G; [by intros ->|done].
Qed.

Lemma widened_typed t p to_int of_int v :
  is_widened (K := K) t = Some (p, to_int, of_int) -> valid t (of_int (narrow p (s32 v))).
Proof.
  destruct t as [[]| | | | | |]; cbn [is_widened]; try discriminate; intros [= <- <- <-]; cbn.
  - destruct (_ =? 0); auto.
  - apply u16_range.
Qed.

Context `{!TypedParcelables}.

Lemma readData_reads t : compiles t = true -> backed t = true -> reads_as (valid t) (readData t).
Proof.
  induction t as [p|p| |k|t IH|t IH|t IH n]; intros Hc Hbk; cbn [compiles] in Hc; zb.
  - apply prim_typed.
  - apply prim_typed.
  - apply readString16_typed.
  - eapply reads_bind; [apply readInt32_typed|]. intros a _. destruct (negb _); [by apply yields_ret|]. apply p_typed.
  - match goal with Hf : bool_decide _ = true |- _ => apply bool_decide_eq_true in Hf as [flag Eflag] end.
    intros F s Hwf. cbn [readData]. rewrite Eflag. wp_steps.
    apply wpg_bind_res. wp_use readInt32_typed; [done|]. intros [peek|st] s1 [Ha1 _]; [|by split].
    destruct (peek =? flag); [by wp_step|]. wp_step. pose proof Ha1 as [(Hw1 & Hwf1 & Hp1) _].
    pose proof (ParcelInv.wf_pos _ Hwf). unfold dataPosition.
    apply setDataPosition_ok; [done|rewrite (peq_size _ _ Hp1); cbn; lia|]. intros s2 Hw2 Hwf2 Hp2.
    assert (Ha2 : ahead s s2).
    { pose proof (peq_pos _ _ Hp2) as Ep. cbn in Ep. split; [|lia]. split_and!; [congruence|done|].
      etransitivity; [|exact Hp2]. rewrite Ep. by apply (set_pos_peq _ _ (mDataPos (this s))) in Hp1. }
    apply wpg_bind_res. wp_use IH; [done|done|done|]. intros [v|st] s3 [Ha3 Hv]; [|split; [by eapply ahead_trans|done]].
    wp_step. split; [by eapply ahead_trans|done].
  - rewrite readData_vector. eapply reads_bind; [apply readInt32_typed|]. intros size _.
    zcase (size <? 0); [by apply yields_ret|]. intros F s Hwf. pose proof Hwf as [].
    wp_step. apply dataAvail_ok; [done|].
    zcase (mDataSize (this s) - mDataPos (this s) <? size); [by apply yields_ret|].
    destruct (is_pointer_equivalent_array_v t) as [[[p to_int] of_int]|] eqn:Ep.
    { pose proof (sizeof_bound p). eapply (yields_mono (if_good (fun c => zlen c = size /\ Forall (valid t) c)));
        [by intros [c|]; [intros [_ ?]|]| |done].
      apply array_typed; [lia|nia|]. intros v. by eapply packed_typed. }
    destruct (is_widened t) as [[[p to_int] of_int]|] eqn:Ew.
    { eapply (yields_mono (if_good (fun c => zlen c = size /\ Forall (valid t) c)));
        [by intros [c|]; [intros [_ ?]|]| |done].
      apply (array_typed 4); [lia|lia|]. intros v _. by eapply widened_typed. }
    eapply (yields_mono (if_good (fun c => _ /\ Forall (valid t) c)));
      [by intros [c|]; [intros [_ ?]|]|by apply read_each_typed, IH|done].
  - rewrite readData_array. eapply reads_bind; [apply readInt32_typed|]. intros size _.
    destruct (size <? 0); [by apply yields_ret|]. destruct (negb _); [by apply yields_ret|].
    destruct (is_pointer_equivalent_array_v t) as [[[p to_int] of_int]|] eqn:Ep.
    { pose proof (sizeof_bound p). apply array_typed; [lia|nia|]. intros v. by eapply packed_typed. }
    eapply (yields_mono (if_good (fun c => zlen c = Z.of_nat (Z.to_nat n) /\ Forall (valid t) c))).
    { intros [c|]; [|done]. intros [E1 E2]. split; [|done]. etransitivity; [exact E1|lia]. }
    by apply read_each_typed, IH.
Qed.

(** reading is typed.  Whatever the bytes and objects of a well-formed parcel,
    if [readData] at a type returns a value, this value is one of the type: integers
    in the range of their width, booleans 0 or 1, strings of 16-bit units, fixed
    arrays of exactly their length, and so on inside nullables, vectors and arrays of
    any depth; and the position has only moved forward.  The enumerations of [bool]
    are excepted, since arrays of them are copied as raw bytes. *)
Theorem readData_typed (t : ty K) (s : PS) :
  compiles t = true -> backed t = true -> wf (this s) ->
  wp (readData t) s (fun r s' => mDataPos (this s) <= mDataPos (this s') <= mDataSize (this s') /\
    match r with Good v => valid t v | Err _ => True end).
Proof.
  intros Hc Hb Hwf. wp_use readData_reads; [done..|]. intros r s' [[(_ & Hwf' & _) Hp] Hr].
  pose proof (ParcelInv.wf_pos _ Hwf'). split; [lia|done].
Qed.
End Typed.

#[export] Instance pair_typed : TypedParcelables (K := unit).
Proof.
  split. intros []. eapply reads_bind; [apply readInt32_typed|]. intros a Ha.
  eapply reads_bind; [apply readInt64_typed|]. intros b Hb. by apply yields_ret.
Qed.

(** Two pairs announced, four bytes there. *)
Definition short_pairs : PS := mkPS (set_mData (Some [2; 0; 0; 0; 1; 0; 0; 0])
  (set_mDataSize 8 (set_mDataCapacity 8 init_parcel))) Sample.calm.

Lemma readData_typed_witness :
  wp (readData Sample.pairs) short_pairs (fun r s' => 0 <= mDataPos (this s') <= mDataSize (this s') /\
    match r with Good v => valid Sample.pairs v | Err _ => True end).
Proof.
  apply (readData_typed Sample.pairs short_pairs); [done|done|].
  split; cbn; try done; repeat constructor; unfold is_byte; lia.
Defined.
