(* ===== verification/Stability.v ===== *)
(** Interface stability: src/libs/binder/Stability.cpp.

    A level is a bit mask; a binder starts undeclared and its level is set once,
    or lowered by an explicit downgrade.  [None] is the null binder. *)

From S2P Require Import Prelude Errors ParcelState.

(** * Levels *)

Definition UNDECLARED : Z := 0.
Definition VENDOR : Z := 3.
Definition SYSTEM : Z := 12.
Definition VINTF : Z := 63.

Definition REPR_NONE : Z := 0.
Definition REPR_LOG : Z := 1.
Definition REPR_ALLOW_DOWNGRADE : Z := 2.

Definition isDeclaredLevel (stability : Z) : bool :=
  (stability =? VENDOR) || (stability =? SYSTEM) || (stability =? VINTF).

Definition check (provided required : Z) : bool :=
  let stable := Z.land provided required =? required in
  if negb (provided =? UNDECLARED) && negb (isDeclaredLevel provided) then false else stable.

(** libbinder built without [__ANDROID_VNDK__]. *)
Definition getLocalLevel : Z := SYSTEM.

(** * The level of a binder *)

Definition set_stability (x : Z) (b : IBinder) : IBinder :=
  mkIBinder (b_kind b) x (b_minSchedulerPolicy b) (b_minSchedulerPriority b)
    (b_requestingSid b) (b_inheritRt b) (b_parceled b) (b_weakRefs b).

Definition getRepr (b : option Z) : M PS Z :=
  match b with
  | None => ret UNDECLARED
  | Some a =>
      let* bs := getw w_binders in
      let* o := require (bs !! a) in
      ret (b_stability o)
  end.

(** [local->mStability = setting] (or the proxy's): the field is 16 bits wide. *)
Definition put_stability (a setting : Z) : M PS unit :=
  modw (fun w => set_w_binders (alter (set_stability (s16 setting)) a (w_binders w)) w).

Definition setRepr (b : option Z) (setting flags : Z) : M PS status_t :=
  let allowDowngrade := negb (Z.land flags REPR_ALLOW_DOWNGRADE =? 0) in
  let* current := getRepr b in
  match b with
  | None => if setting =? UNDECLARED then ret OK else ret BAD_TYPE
  | Some a =>
      if negb (isDeclaredLevel setting) then ret BAD_TYPE else
      if current =? setting then ret OK else
      let hasAlreadyBeenSet := negb (current =? UNDECLARED) in
      let isAllowedDowngrade := allowDowngrade && check current setting in
      if hasAlreadyBeenSet && negb isAllowedDowngrade then ret BAD_TYPE else
      put_stability a setting ;; ret OK
  end.

Definition tryMarkCompilationUnit (b : option Z) : M PS unit :=
  setRepr b getLocalLevel REPR_NONE ;; ret tt.

Definition markCompilationUnit (b : option Z) : M PS unit :=
  let* result := setRepr b getLocalLevel REPR_LOG in fatal_if (negb (result =? OK)).

Definition markVintf (b : option Z) : M PS unit :=
  let* result := setRepr b VINTF REPR_LOG in fatal_if (negb (result =? OK)).

Definition markVndk (b : option Z) : M PS unit :=
  let* result := setRepr b VENDOR REPR_LOG in fatal_if (negb (result =? OK)).

Definition requiresVintfDeclaration (b : option Z) : M PS bool :=
  let* r := getRepr b in ret (check r VINTF).

Definition is_local (b : IBinder) : bool :=
  match b_kind b with LocalBinder => true | _ => false end.

Definition forceDowngradeToStability (b : option Z) (level : Z) : M PS unit :=
  let* bs := getw w_binders in
  let* local := match b with
                | None => ret false
                | Some a => let* o := require (bs !! a) in ret (is_local o)
                end in
  fatal_if (negb local) ;;
  let* result := setRepr b level (Z.lor REPR_LOG REPR_ALLOW_DOWNGRADE) in
  fatal_if (negb (result =? OK)).

Definition forceDowngradeToLocalStability (b : option Z) : M PS unit :=
  forceDowngradeToStability b getLocalLevel.
Definition forceDowngradeToSystemStability (b : option Z) : M PS unit :=
  forceDowngradeToStability b SYSTEM.
Definition forceDowngradeToVendorStability (b : option Z) : M PS unit :=
  forceDowngradeToStability b VENDOR.

(** * Properties *)

(** The levels a binder can have: undeclared, or one of the declared three. *)
Definition known_level (l : Z) : Prop := l = UNDECLARED \/ isDeclaredLevel l = true.

Definition stability_ok (w : World) : Prop :=
  map_Forall (fun _ b => known_level (b_stability b)) (w_binders w).

Lemma declared_levels l : isDeclaredLevel l = true -> l = VENDOR \/ l = SYSTEM \/ l = VINTF.
Proof. unfold isDeclaredLevel. intros H. repeat (apply orb_prop in H as [H|H]); zb; auto. Qed.

Lemma declared_s16 l : isDeclaredLevel l = true -> s16 l = l.
Proof. by intros [-> | [-> | ->]]%declared_levels. Qed.

(** What [setRepr] does to the level [current] of a binder. *)
Definition set_level (current setting flags : Z) : option Z :=
  if negb (isDeclaredLevel setting) then None
  else if current =? setting then Some current
  else if (current =? UNDECLARED) ||
          (negb (Z.land flags REPR_ALLOW_DOWNGRADE =? 0) && check current setting)
  then Some setting else None.

Lemma setRepr_ok F s a b setting flags :
  w_binders (world s) !! a = Some b ->
  wpg F (setRepr (Some a) setting flags) s (fun st s' =>
    match set_level (b_stability b) setting flags with
    | Some l => st = OK /\ this s' = this s /\
        world s' = set_w_binders (<[a := set_stability l b]> (w_binders (world s))) (world s)
    | None => st = BAD_TYPE /\ s' = s
    end).
Proof.
  intros Hb. unfold setRepr, getRepr, set_level. wp_steps. rewrite Hb. wp_steps.
  destruct (isDeclaredLevel setting) eqn:Ed; simpl; [|by wp_step].
  destruct (Z.eqb_spec (b_stability b) setting) as [Heq|Hne].
  - wp_step. split_and!; [done..|]. rewrite insert_id; [by destruct (world s)|].
    rewrite Hb. f_equal. by destruct b.
  - assert (alter (set_stability (s16 setting)) a (w_binders (world s)) =
            <[a := set_stability setting b]> (w_binders (world s))) as E.
    { rewrite (declared_s16 _ Ed). by apply alter_is_insert. }
    destruct (b_stability b =? UNDECLARED); simpl;
      [|destruct (negb _ && _); simpl; [|by wp_step]];
      unfold put_stability; wp_steps; (split_and!; [done..|]); simpl; by rewrite E.
Qed.

(** a stability level is declared once and never raised.  On a binder whose
    level is declared, [setRepr] with any setting and flags ends with a declared
    level that the old one already guaranteed; without [REPR_ALLOW_DOWNGRADE]
    the level does not change at all, and a different setting is refused with
    [BAD_TYPE]. *)
Theorem setRepr_never_raises (s : PS) (a setting flags : Z) (b : IBinder) :
  w_binders (world s) !! a = Some b -> isDeclaredLevel (b_stability b) = true ->
  wp (setRepr (Some a) setting flags) s (fun st s' =>
    exists b', w_binders (world s') !! a = Some b' /\
      isDeclaredLevel (b_stability b') = true /\
      check (b_stability b) (b_stability b') = true /\
      (Z.land flags REPR_ALLOW_DOWNGRADE = 0 ->
         b_stability b' = b_stability b /\
         (st = OK <-> setting = b_stability b) /\ (st <> OK -> st = BAD_TYPE))).
Proof.
  intros Hb Hd. wp_use setRepr_ok; [done|]. cbv beta. intros st s'. unfold set_level.
  assert (check (b_stability b) (b_stability b) = true) as Hrefl
    by (by apply declared_levels in Hd as [-> | [-> | ->]]).
  destruct (isDeclaredLevel setting) eqn:Es; simpl.
  2:{ intros [-> ->]. exists b. split_and!; try done. intros _. split_and!; try done;
      try (split; [done|intros ->; congruence]). }
  destruct (Z.eqb_spec (b_stability b) setting) as [Heq|Hne].
  { intros (-> & _ & ->). exists (set_stability (b_stability b) b). simpl.
    rewrite lookup_insert_eq. by split_and!. }
  replace (b_stability b =? UNDECLARED) with false
    by (by apply declared_levels in Hd as [-> | [-> | ->]]). simpl.
  destruct (Z.eqb_spec (Z.land flags REPR_ALLOW_DOWNGRADE) 0) as [H0|H0]; simpl.
  { intros [-> ->]. exists b. split_and!; done. }
  destruct (check (b_stability b) setting) eqn:Ec.
  - intros (-> & _ & ->). exists (set_stability setting b). simpl. rewrite lookup_insert_eq.
    by split_and!.
  - intros [-> ->]. exists b. by split_and!.
Qed.

Definition sample_binder (level : Z) : IBinder := mkIBinder LocalBinder level 0 0 false false false 5.

(** [check] orders the declared levels: it is reflexive, antisymmetric and
    transitive on them, [VINTF] guarantees both others, and the system and
    vendor levels guarantee neither each other nor [VINTF]. *)
Theorem check_partial_order (a b c : Z) :
  isDeclaredLevel a = true -> isDeclaredLevel b = true -> isDeclaredLevel c = true ->
  check a a = true /\ (check a b = true -> check b a = true -> a = b) /\
  (check a b = true -> check b c = true -> check a c = true) /\
  check VINTF a = true /\ (check a VINTF = true <-> a = VINTF) /\
  check SYSTEM VENDOR = false /\ check VENDOR SYSTEM = false.
Proof.
  intros [-> | [-> | ->]]%declared_levels [-> | [-> | ->]]%declared_levels
    [-> | [-> | ->]]%declared_levels; vm_compute; split_and!; try done; split; done.
Qed.

Lemma check_partial_order_witness :
  isDeclaredLevel SYSTEM = true /\ check SYSTEM SYSTEM = true.
Proof.
  split; [reflexivity|].
  exact (proj1 (check_partial_order SYSTEM VENDOR VINTF eq_refl eq_refl eq_refl)).
Defined.

Lemma setRepr_never_raises_witness :
  let s := mkPS init_parcel
    (mkWorld (fun _ => None) 0 [] 0 0 1024 None ∅ (fun _ => None) ∅ []
       {[ 9 := sample_binder VINTF ]} (mkThreadState 0 (-1) false 0 false) ∅ ∅) in
  wp (setRepr (Some 9) SYSTEM (Z.lor REPR_LOG REPR_ALLOW_DOWNGRADE)) s (fun st s' =>
    exists b', w_binders (world s') !! 9 = Some b' /\
      isDeclaredLevel (b_stability b') = true /\ check VINTF (b_stability b') = true /\
      (Z.land (Z.lor REPR_LOG REPR_ALLOW_DOWNGRADE) REPR_ALLOW_DOWNGRADE = 0 ->
         b_stability b' = VINTF /\
         (st = OK <-> SYSTEM = VINTF) /\ (st <> OK -> st = BAD_TYPE))).
Proof.
  intros s. apply (setRepr_never_raises s 9 SYSTEM (Z.lor REPR_LOG REPR_ALLOW_DOWNGRADE)
    (sample_binder VINTF)); reflexivity.
Defined.
