(* ===== verification/ThreadState.v ===== *)
(** The calling identity of a thread: the work source and strict-mode part of
    src/libs/binder/IPCThreadState.cpp.

    These are pure functions of [ThreadState]; [uid_t] is unsigned 32-bit,
    [mWorkSource] a signed 32-bit field and the restore token 64 bits: the uid
    in the low half and the propagate flag in bit 32. *)

From S2P Require Import Prelude Errors ParcelState.

Definition kUnsetWorkSource : Z := -1.
Definition kWorkSourcePropagatedBitIndex : Z := 32.

Definition with_work (src : Z) (prop : bool) (t : ThreadState) : ThreadState :=
  mkThreadState (mStrictModePolicy t) src prop (mLastTransactionBinderFlags t)
    (mBackgroundSchedulingDisabled t).

Definition setStrictModePolicy (policy : Z) (t : ThreadState) : ThreadState :=
  mkThreadState policy (mWorkSource t) (mPropagateWorkSource t)
    (mLastTransactionBinderFlags t) (mBackgroundSchedulingDisabled t).
Definition getStrictModePolicy (t : ThreadState) : Z := mStrictModePolicy t.

(** [mWorkSource] is an [int32_t]: it is sign-extended when the token is built. *)
Definition setCallingWorkSourceUidWithoutPropagation (uid : Z) (t : ThreadState) :
    Z * ThreadState :=
  let propagatedBit := Z.shiftl (if mPropagateWorkSource t then 1 else 0)
                         kWorkSourcePropagatedBitIndex in
  let token := Z.lor propagatedBit (mWorkSource t) in
  (token, with_work (s32 uid) (mPropagateWorkSource t) t).

Definition setCallingWorkSourceUid (uid : Z) (t : ThreadState) : Z * ThreadState :=
  let '(token, t') := setCallingWorkSourceUidWithoutPropagation uid t in
  (token, with_work (mWorkSource t') true t').

Definition clearPropagateWorkSource (t : ThreadState) : ThreadState :=
  with_work (mWorkSource t) false t.
Definition shouldPropagateWorkSource (t : ThreadState) : bool := mPropagateWorkSource t.
Definition getCallingWorkSourceUid (t : ThreadState) : Z := u32 (mWorkSource t).
Definition clearCallingWorkSource (t : ThreadState) : Z * ThreadState :=
  setCallingWorkSourceUid (u32 kUnsetWorkSource) t.

Definition restoreCallingWorkSource (token : Z) (t : ThreadState) : ThreadState :=
  let uid := u32 (s32 token) in
  let t' := snd (setCallingWorkSourceUidWithoutPropagation uid t) in
  with_work (mWorkSource t')
    (Z.land (Z.shiftr token kWorkSourcePropagatedBitIndex) 1 =? 1) t'.

Definition setLastTransactionBinderFlags (flags : Z) (t : ThreadState) : ThreadState :=
  mkThreadState (mStrictModePolicy t) (mWorkSource t) (mPropagateWorkSource t)
    flags (mBackgroundSchedulingDisabled t).
Definition getLastTransactionBinderFlags (t : ThreadState) : Z := mLastTransactionBinderFlags t.

(** * Properties *)

Definition work_source_ok (t : ThreadState) : Prop := is_s32 (mWorkSource t).

Lemma token_parts (b : bool) w :
  0 <= w < 2147483648 ->
  let token := Z.lor (Z.shiftl (if b then 1 else 0) kWorkSourcePropagatedBitIndex) w in
  s32 token = w /\ (Z.land (Z.shiftr token kWorkSourcePropagatedBitIndex) 1 =? 1) = b.
Proof.
  intros Hw. cbv zeta. unfold kWorkSourcePropagatedBitIndex. 
  assert (Z.shiftr w 32 = 0) as Hs.
  { rewrite Z.shiftr_div_pow2 by lia. apply Z.div_small. change (2 ^ 32) with 4294967296. lia. }
  rewrite Z.shiftr_lor, Hs, Z.lor_0_r, Z.shiftr_shiftl_l, Z.sub_diag, Z.shiftl_0_r by lia.
  split; [|by destruct b]. 
  destruct b; [|rewrite Z.shiftl_0_l, Z.lor_0_l; apply s32_small; unfold is_s32; lia].
  assert (Z.lor (Z.shiftl 1 32) w = w + 1 * 4294967296) as ->.
  { rewrite <- Z.lxor_lor, <- Z.add_nocarry_lxor, Z.shiftl_1_l; [change (2 ^ 32) with 4294967296; lia| |];
      apply Z.bits_inj'; intros i Hi; rewrite Z.land_spec, Z.bits_0;
      (destruct (Z.lt_ge_cases i 32);
       [rewrite Z.shiftl_spec_low by lia; done|]);
      replace (Z.testbit w i) with (Z.testbit (Z.shiftr w 32) (i - 32))
        by (rewrite Z.shiftr_spec by lia; f_equal; lia);
      rewrite Hs, Z.bits_0; apply andb_false_r. }
  unfold s32. rewrite <- Z.add_assoc, (Z.add_comm (1 * _)), Z.add_assoc, Z_mod_plus_full.
  by rewrite Z.mod_small by lia; lia.
Qed.

Lemma u32_s32 x : u32 (s32 x) = u32 x.
Proof.
  unfold u32, s32. rewrite Zminus_mod_idemp_l. f_equal. lia.
Qed.

Lemma s32_u32 x : is_s32 x -> s32 (u32 x) = x.
Proof. intros H. unfold u32. rewrite s32_mod. by apply s32_small. Qed.

(** a work source that is set can be restored.  After
    [setCallingWorkSourceUid(uid)] the thread reports and propagates [uid];
    restoring the token brings back the previous uid and propagate flag,
    whenever the previous uid was a real one. *)
Theorem work_source_restored (t : ThreadState) (uid : Z) :
  0 <= mWorkSource t < 2147483648 ->
  let r := setCallingWorkSourceUid uid t in
  restoreCallingWorkSource (fst r) (snd r) = t /\
  getCallingWorkSourceUid (snd r) = u32 uid /\ shouldPropagateWorkSource (snd r) = true.
Proof.
  intros Hw. pose proof (token_parts (mPropagateWorkSource t) _ Hw) as [H1 H2]. cbv zeta in H1, H2.
  unfold setCallingWorkSourceUid, restoreCallingWorkSource, setCallingWorkSourceUidWithoutPropagation.
  cbn [fst snd with_work mWorkSource mPropagateWorkSource]. split_and!; [|apply u32_s32|done].
  rewrite H1, H2, s32_u32 by (unfold is_s32; lia). by destruct t.
Qed.

Lemma work_source_restored_witness :
  0 <= 1000 < 2147483648 /\
  let t := mkThreadState 0 1000 false 0 false in
  let r := setCallingWorkSourceUid 100 t in
  restoreCallingWorkSource (fst r) (snd r) = t /\
  getCallingWorkSourceUid (snd r) = u32 100 /\ shouldPropagateWorkSource (snd r) = true.
Proof.
  split; [lia|].
  exact (work_source_restored (mkThreadState 0 1000 false 0 false) 100 ltac:(cbn; lia)).
Defined.

(** the unset work source is not restored.  In the state every thread
    starts with (work source unset, nothing propagated), the token is built from
    the sign-extended -1, so its flag bit is set: after
    [setCallingWorkSourceUid] and [restoreCallingWorkSource] the thread
    propagates the unset work source to its callees. *)
Theorem unset_work_source_not_restored (uid : Z) (policy flags : Z) (bg : bool) :
  let t := mkThreadState policy kUnsetWorkSource false flags bg in
  let r := setCallingWorkSourceUid uid t in
  let t' := restoreCallingWorkSource (fst r) (snd r) in
  mWorkSource t' = kUnsetWorkSource /\
  shouldPropagateWorkSource t = false /\ shouldPropagateWorkSource t' = true.
Proof. split_and!; reflexivity. Qed.
