(* ===== verification/ParcelObject.v ===== *)
(** Objects in a Parcel: binders, file descriptors and the RPC headers, from
    src/libs/binder/Parcel.cpp.

    An object is a [flat_binder_object] record in the data whose offset is in
    the object table.  Sending a binder over an RPC session goes through the
    session's state: the class [RpcBinders] is what the Parcel needs of it. *)

From S2P Require Import Prelude Errors ParcelState ParcelWrite ParcelRead Stability ThreadState.

(** What the Parcel asks of an RPC session's state (RpcState.h).  A binder is
    its address, [None] for null. *)
Class RpcBinders := {
  onBinderLeaving : forall (session a : Z), M PS (res Z);
  onBinderEntering : forall (session address : Z), M PS (res (option Z));
  flushExcessBinderRefs : forall (session address : Z) (b : option Z), M PS status_t;
}.

Definition isForRpc (p : Parcel) : bool :=
  match mSession p with Some _ => true | None => false end.

(** * Object records *)

(** [mObjects[i] = off]; outside the array it is undefined behaviour. *)
Definition put_object (i off : Z) : M PS unit :=
  let* objs := getp mObjects in
  if (0 <=? i) && (i <? zlen objs)
  then modp (set_mObjects (<[Z.to_nat i := off]> objs)) else fault.

(** The object table grows by [realloc], which needs a block of the parcel's
    own (or none). *)
Definition realloc_table (newSize : Z) : M PS (option (list Z)) :=
  let* p := gets this in
  match mOwner p, mObjects p with
  | Some _, _ :: _ => fault
  | _, objs => realloc_objects objs newSize
  end.

(** Room for [extra] more objects, as [writeObject] and [appendFrom] compute it. *)
Definition grow_objects (extra : Z) : M PS status_t :=
  let* n := getp mObjectsSize in
  if SIZE_MAX - n <? extra then ret NO_MEMORY else
  if SIZE_MAX / 3 <? n + extra then ret NO_MEMORY else
  let newSize := u64 ((n + extra) * 3) / 2 in
  if SIZE_MAX / 8 <? newSize then ret NO_MEMORY else
  let* objects := realloc_table newSize in
  match objects with
  | None => ret NO_MEMORY
  | Some o =>
      modp (fun p => set_mObjectsCapacity newSize (set_mObjects o p)) ;; ret NO_ERROR
  end.

(** The code after the label [restart_write] of [writeObject]. *)
Definition writeObject_here (val : flat_binder_object) (nullMetaData : bool) : M PS status_t :=
  let* pos := getp mDataPos in
  store pos (flat_bytes val) ;;
  let* allow := getp mAllowFds in
  if (f_type val =? BINDER_TYPE_FD) && negb allow then ret FDS_NOT_ALLOWED else
  (if f_type val =? BINDER_TYPE_FD
   then modp (fun p => set_mHasFds true (set_mFdsKnown true p)) else ret tt) ;;
  (if nullMetaData || negb (f_binder val =? 0) then
     let* n := getp mObjectsSize in
     put_object n pos ;;
     acquire_object val ;;
     modp (fun p => set_mObjectsSize (mObjectsSize p + 1) p)
   else ret tt) ;;
  finishWrite sizeof_flat.

Definition writeObject (val : flat_binder_object) (nullMetaData : bool) : M PS status_t :=
  let* p := gets this in
  let enoughData := u64 (mDataPos p + sizeof_flat) <=? mDataCapacity p in
  let enoughObjects := mObjectsSize p <? mObjectsCapacity p in
  if enoughData && enoughObjects then writeObject_here val nullMetaData else
  (if enoughData then ret NO_ERROR else growData sizeof_flat) ;;?
  (if enoughObjects then ret NO_ERROR else grow_objects 2) ;;?
  writeObject_here val nullMetaData.

(** The forward search from the hint, and the backward one. *)
Fixpoint search_forward (objs : list Z) (dpos : Z) (fuel opos : nat) : nat :=
  match fuel with
  | O => opos
  | S fuel' =>
      match objs !! opos with
      | Some o => if (opos <? length objs - 1)%nat && (o <? dpos)
                  then search_forward objs dpos fuel' (S opos) else opos
      | None => opos
      end
  end.

Fixpoint search_backward (objs : list Z) (dpos : Z) (opos : nat) : nat :=
  match opos with
  | O => O
  | S opos' =>
      match objs !! opos with
      | Some o => if dpos <? o then search_backward objs dpos opos' else opos
      | None => opos
      end
  end.

Definition is_at (objs : list Z) (opos : nat) (dpos : Z) : bool :=
  match objs !! opos with Some o => o =? dpos | None => false end.

(** The record at the position, when it is in the object table. *)
Definition readObject (nullMetaData : bool) : M PS (option flat_binder_object) :=
  let* p := gets this in
  let DPOS := mDataPos p in
  if u64 (DPOS + sizeof_flat) <=? mDataSize p then
    let* obj := load_flat DPOS in
    modp (set_mDataPos (DPOS + sizeof_flat)) ;;
    if negb nullMetaData && ((f_cookie obj =? 0) && (f_binder obj =? 0)) then ret (Some obj) else
    if 0 <? mObjectsSize p then
      let* objs := objects_upto (mObjectsSize p) in
      let N := length objs in
      let opos := if mNextObjectHint p <? mObjectsSize p
                  then search_forward objs DPOS N (Z.to_nat (mNextObjectHint p))
                  else (N - 1)%nat in
      if is_at objs opos DPOS then
        modp (set_mNextObjectHint (Z.of_nat opos + 1)) ;; ret (Some obj)
      else
      let opos' := search_backward objs DPOS opos in
      if is_at objs opos' DPOS then
        modp (set_mNextObjectHint (Z.of_nat opos' + 1)) ;; ret (Some obj)
      else ret None
    else ret None
  else ret None.

(** * File descriptors *)

Definition FLAT_BINDER_FLAG_ACCEPTS_FDS : Z := 0x100.
Definition FLAT_BINDER_FLAG_INHERIT_RT : Z := 0x800.
Definition FLAT_BINDER_FLAG_TXN_SECURITY_CTX : Z := 0x1000.
Definition FLAT_BINDER_FLAG_PRIORITY_MASK : Z := 0xff.
Definition FLAT_BINDER_FLAG_SCHED_POLICY_SHIFT : Z := 9.

Definition writeFileDescriptor (fd : Z) (takeOwnership : bool) : M PS status_t :=
  let* rpc := getp isForRpc in
  if rpc then ret BAD_TYPE else
  writeObject (mkFlat BINDER_TYPE_FD (Z.lor 0x7f FLAT_BINDER_FLAG_ACCEPTS_FDS) (u32 fd)
                 (if takeOwnership then 1 else 0)) true.

Definition writeDupFileDescriptor (fd : Z) : M PS status_t :=
  let* dupFd := dup_fd fd in
  if dupFd <? 0 then ret dupFd else
  let* err := writeFileDescriptor dupFd true in
  (if err =? OK then ret tt else close dupFd) ;;
  ret err.

Definition writeParcelFileDescriptor (fd : Z) (takeOwnership : bool) : M PS status_t :=
  writeInt32 0 ;; writeFileDescriptor fd takeOwnership.

Definition writeDupParcelFileDescriptor (fd : Z) : M PS status_t :=
  let* dupFd := dup_fd fd in
  if dupFd <? 0 then ret dupFd else
  let* err := writeParcelFileDescriptor dupFd true in
  (if err =? OK then ret tt else close dupFd) ;;
  ret err.

Definition writeUniqueFileDescriptor (fd : Z) : M PS status_t := writeDupFileDescriptor fd.

Definition readFileDescriptor : M PS Z :=
  let* flat := readObject true in
  match flat with
  | Some o => if f_type o =? BINDER_TYPE_FD then ret (s32 (f_handle o)) else ret BAD_TYPE
  | None => ret BAD_TYPE
  end.

(** Duplicating a descriptor read from the parcel. *)
Definition dup_got (got : Z) : M PS (res Z) :=
  if got =? BAD_TYPE then ret (Err BAD_TYPE) else
  let* fd := dup_fd got in
  if fd <? 0 then ret (Err BAD_VALUE) else ret (Good fd).

Definition readUniqueFileDescriptor : M PS (res Z) :=
  let* got := readFileDescriptor in dup_got got.

(** [comm_write] is whether the four bytes of the detach message went through
    [::write] on the given descriptor. *)
Definition readParcelFileDescriptor (comm_write : Z -> bool) : M PS Z :=
  let* hasComm := readInt32_ in
  let* fd := readFileDescriptor in
  if negb (hasComm =? 0) then
    let* comm := readFileDescriptor in
    if comm_write comm then ret fd else ret BAD_TYPE
  else ret fd.

Definition readUniqueParcelFileDescriptor (comm_write : Z -> bool) : M PS (res Z) :=
  let* got := readParcelFileDescriptor comm_write in dup_got got.

Definition allowFds (p : Parcel) : bool := mAllowFds p.

Definition pushAllowFds (allow : bool) : M PS bool :=
  let* origValue := getp mAllowFds in
  (if negb allow then modp (set_mAllowFds false) else ret tt) ;;
  ret origValue.

Definition restoreAllowFds (lastValue : bool) : M PS unit := modp (set_mAllowFds lastValue).

(** The loop of [hasFileDescriptorsInRange]. *)
Fixpoint fds_in_range (objs : list Z) (sorted : bool) (offset len : Z) : M PS bool :=
  match objs with
  | [] => ret false
  | pos :: objs' =>
      if pos <? offset then fds_in_range objs' sorted offset len else
      if offset + len <? pos + sizeof_flat then
        (if sorted then ret false else fds_in_range objs' sorted offset len)
      else
        let* flat := load_flat pos in
        if f_type flat =? BINDER_TYPE_FD then ret true
        else fds_in_range objs' sorted offset len
  end.

Definition hasFileDescriptorsInRange (offset len : Z) : M PS (res bool) :=
  if (INT32_MAX <? len) || (INT32_MAX <? offset) then ret (Err BAD_VALUE) else
  let* p := gets this in
  if mDataSize p <? offset + len then ret (Err BAD_VALUE) else
  let* objs := objects_upto (mObjectsSize p) in
  let* r := fds_in_range objs (mObjectsSorted p) offset len in
  ret (Good r).

Definition scanForFds : M PS unit :=
  let* p := gets this in
  let* r := hasFileDescriptorsInRange 0 (dataSize p) in
  (match r with Good b => modp (set_mHasFds b) | Err _ => ret tt end) ;;
  modp (set_mFdsKnown true).

Definition hasFileDescriptors : M PS bool :=
  let* known := getp mFdsKnown in
  (if negb known then scanForFds else ret tt) ;;
  getp mHasFds.

(** * Binders *)

Definition set_parceled (b : IBinder) : IBinder :=
  mkIBinder (b_kind b) (b_stability b) (b_minSchedulerPolicy b) (b_minSchedulerPriority b)
    (b_requestingSid b) (b_inheritRt b) true (b_weakRefs b).

Definition schedPolicyMask (policy priority : Z) : Z :=
  Z.lor (Z.land priority FLAT_BINDER_FLAG_PRIORITY_MASK)
        (Z.shiftl (Z.land policy 3) FLAT_BINDER_FLAG_SCHED_POLICY_SHIFT).

Definition SCHED_NORMAL : Z := 0.

Definition find_binder (a : Z) : M PS IBinder :=
  let* bs := getw w_binders in require (bs !! a).

Definition insertBBinder (a : Z) : M PS unit :=
  modw (fun w => set_mIBinderSet ({[a]} ∪ mIBinderSet w) w).

Definition finishFlattenBinder (b : option Z) : M PS status_t :=
  tryMarkCompilationUnit b ;;
  let* rep := getRepr b in
  writeInt32 rep.

(** [local->setParceled()]. *)
Definition mark_parceled (a : Z) : M PS unit :=
  modw (fun w => set_w_binders (alter set_parceled a (w_binders w)) w).

(** The record of a binder for the kernel driver; [Err] for a proxy of an RPC
    session. *)
Definition flat_of_binder (b : option Z) (schedBits : Z) : M PS (res flat_binder_object) :=
  match b with
  | None => ret (Good (mkFlat BINDER_TYPE_BINDER schedBits 0 0))
  | Some a =>
      let* o := find_binder a in
      match b_kind o with
      | RpcProxy _ _ => ret (Err INVALID_OPERATION)
      | KernelProxy handle => ret (Good (mkFlat BINDER_TYPE_HANDLE schedBits (u32 handle) 0))
      | LocalBinder =>
          let policy := b_minSchedulerPolicy o in
          let priority := b_minSchedulerPriority o in
          let schedBits := if negb (policy =? 0) || negb (priority =? 0)
                           then schedPolicyMask policy priority else schedBits in
          let flags := FLAT_BINDER_FLAG_ACCEPTS_FDS in
          let flags := if b_requestingSid o
                       then Z.lor flags FLAT_BINDER_FLAG_TXN_SECURITY_CTX else flags in
          let flags := if b_inheritRt o
                       then Z.lor flags FLAT_BINDER_FLAG_INHERIT_RT else flags in
          insertBBinder a ;;
          ret (Good (mkFlat BINDER_TYPE_BINDER (Z.lor flags schedBits) (b_weakRefs o) a))
      end
  end.

Definition flattenBinder `{RpcBinders} (b : option Z) : M PS status_t :=
  (match b with
   | None => ret tt
   | Some a => let* o := find_binder a in
               if is_local o then mark_parceled a else ret tt
   end) ;;
  let* session := getp mSession in
  match session with
  | Some sess =>
      (match b with
       | Some a =>
           writeInt32 1 ;;?
           let* address := onBinderLeaving sess a in
           match address with
           | Err st => ret st
           | Good addr => writeUint64 addr
           end
       | None => writeInt32 0
       end) ;;?
      finishFlattenBinder b
  | None =>
      let* t := getw w_thread in
      let schedBits := if mBackgroundSchedulingDisabled t then 0
                       else schedPolicyMask SCHED_NORMAL 19 in
      let* obj := flat_of_binder b schedBits in
      match obj with
      | Err st => ret st
      | Good o => writeObject o false ;;? finishFlattenBinder b
      end
  end.

Definition finishUnflattenBinder (b : option Z) : M PS (res (option Z)) :=
  let? stability := readInt32 in
  let* status := setRepr b (s16 stability) REPR_LOG in
  if status =? OK then ret (Good b) else ret (Err status).

Definition unflattenBinder `{RpcBinders} : M PS (res (option Z)) :=
  let* session := getp mSession in
  match session with
  | Some sess =>
      let? isPresent := readInt32 in
      if negb (Z.land isPresent 1 =? 0) then
        let? addr := readUint64 in
        let? b := onBinderEntering sess addr in
        let* status := flushExcessBinderRefs sess addr b in
        if status =? OK then finishUnflattenBinder b else ret (Err status)
      else finishUnflattenBinder None
  | None =>
      let* flat := readObject false in
      match flat with
      | None => ret (Err BAD_TYPE)
      | Some o =>
          if f_type o =? BINDER_TYPE_BINDER then
            finishUnflattenBinder (if f_cookie o =? 0 then None else Some (f_cookie o))
          else if f_type o =? BINDER_TYPE_HANDLE then
            let* proxy := getw w_proxy in
            finishUnflattenBinder (proxy (f_handle o))
          else ret (Err BAD_TYPE)
      end
  end.

Definition writeStrongBinder `{RpcBinders} (b : option Z) : M PS status_t := flattenBinder b.
Definition readNullableStrongBinder `{RpcBinders} : M PS (res (option Z)) := unflattenBinder.
Definition readStrongBinder `{RpcBinders} : M PS (res Z) :=
  let? b := readNullableStrongBinder in
  match b with Some a => ret (Good a) | None => ret (Err UNEXPECTED_NULL) end.
Definition readStrongBinder_ `{RpcBinders} : M PS (option Z) :=
  let* r := readNullableStrongBinder in
  ret (match r with Good b => b | Err _ => None end).
