(* ===== verification/ParcelIpc.v ===== *)
(** The rest of a Parcel's life in IPC, from src/libs/binder/Parcel.cpp: data
    received by reference, copying between parcels, comparison, the choice of
    format, and the header of every call (strict mode, work source, interface
    name). *)

From S2P Require Import Prelude Errors ParcelState ParcelWrite ParcelRead Stability ThreadState.
From S2P Require Import ParcelObject.

(** * Received data *)

(** The check of the object table: offsets in order, records not overlapping,
    known types.  [false]: the loop cleared the objects. *)
Fixpoint check_objects (objs : list Z) (minOffset : Z) : M PS bool :=
  match objs with
  | [] => ret true
  | offset :: objs' =>
      if offset <? minOffset then ret false else
      let* flat := load_flat offset in
      let type := f_type flat in
      if (type =? BINDER_TYPE_BINDER) || (type =? BINDER_TYPE_HANDLE) || (type =? BINDER_TYPE_FD)
      then check_objects objs' (u64 (offset + sizeof_flat))
      else ret false
  end.

Definition ipcSetDataReference (data : option bytes) (dataSize : Z)
    (objects : list Z) (relFunc : release_func) : M PS unit :=
  freeData ;;
  modp (fun p => set_mOwner (Some relFunc)
         (set_mObjectsCapacity (zlen objects) (set_mObjectsSize (zlen objects)
         (set_mObjects objects
         (set_mDataCapacity dataSize (set_mDataSize dataSize (set_mData data p))))))) ;;
  let* ok := check_objects objects 0 in
  (if ok then ret tt else modp (set_mObjectsSize 0)) ;;
  scanForFds.

Definition ipcDataSize (p : Parcel) : Z :=
  if mDataPos p <? mDataSize p then mDataSize p else mDataPos p.
Definition ipcObjectsCount (p : Parcel) : Z := mObjectsSize p.
Definition objectsCount (p : Parcel) : Z := mObjectsSize p.
Definition errorCheck (p : Parcel) : status_t := mError p.
Definition setError (err : status_t) : M PS unit := modp (set_mError err).

(** * Copying and comparing *)

(** Counting the objects in a range: the first and last index. *)
Fixpoint objects_in_range (objs : list Z) (i offset len first last : Z) : Z * Z :=
  match objs with
  | [] => (first, last)
  | off :: objs' =>
      if (offset <=? off) && (off + sizeof_flat <=? offset + len)
      then objects_in_range objs' (i + 1) offset len (if first =? -1 then i else first) i
      else objects_in_range objs' (i + 1) offset len first last
  end.

(** Appending one object at offset [off] of this parcel. *)
Definition append_object (off : Z) : M PS status_t :=
  let* n := getp mObjectsSize in
  put_object n off ;;
  modp (fun p => set_mObjectsSize (mObjectsSize p + 1) p) ;;
  let* flat := load_flat off in
  acquire_object flat ;;
  if f_type flat =? BINDER_TYPE_FD then
    let* fd := dup_fd (s32 (f_handle flat)) in
    store (off + 8) (le_bytes 4 (if fd <? 0 then -1 else fd)) ;;
    store (off + 16) (le_bytes 8 1) ;;
    modp (fun p => set_mHasFds true (set_mFdsKnown true p)) ;;
    let* allow := getp mAllowFds in
    ret (if allow then NO_ERROR else FDS_NOT_ALLOWED)
  else ret NO_ERROR.

Fixpoint append_objects (offs : list Z) (err : status_t) : M PS status_t :=
  match offs with
  | [] => ret err
  | off :: offs' =>
      let* e := append_object off in
      append_objects offs' (if e =? NO_ERROR then err else e)
  end.

(** [other] is the parcel copied from, a different object than this one. *)
Definition appendFrom (other : Parcel) (offset len : Z) : M PS status_t :=
  let* p := gets this in
  if negb (bool_decide (mSession p = mSession other)) then ret BAD_TYPE else
  let startPos := s32 (mDataPos p) in
  if len =? 0 then ret NO_ERROR else
  if INT32_MAX <? len then ret BAD_VALUE else
  if (mDataSize other <? offset) || (mDataSize other <? len) || (mDataSize other <? u64 (offset + len))
  then ret BAD_VALUE else
  let '(firstIndex, lastIndex) :=
    objects_in_range (ztake (mObjectsSize other) (mObjects other)) 0 offset len (-1) (-2) in
  let numObjects := lastIndex - firstIndex + 1 in
  (if mDataCapacity p <? u64 (mDataSize p + len) then growData len else ret NO_ERROR) ;;?
  let* src := require (mem_read (data_block other) offset len) in
  let* pos := getp mDataPos in
  store pos src ;;
  modp (fun p => set_mDataSize (u64 (mDataSize p + len)) (set_mDataPos (u64 (mDataPos p + len)) p)) ;;
  if 0 <? numObjects then
    let* p := gets this in
    (if mObjectsCapacity p <? mObjectsSize p + numObjects then grow_objects numObjects
     else ret NO_ERROR) ;;?
    append_objects
      (map (fun o => u64 (o - offset + startPos))
         (ztake numObjects (zdrop firstIndex (mObjects other)))) NO_ERROR
  else ret NO_ERROR.

(** [memcmp]: the sign of the first difference. *)
Fixpoint memcmp (a b : bytes) : Z :=
  match a, b with
  | x :: a', y :: b' => if x <? y then -1 else if y <? x then 1 else memcmp a' b'
  | _, _ => 0
  end.

Definition compareData (other : Parcel) : M PS Z :=
  let* p := gets this in
  let size := dataSize p in
  if negb (size =? dataSize other) then ret (if size <? dataSize other then -1 else 1) else
  let* a := require (mem_read (data_block p) 0 size) in
  let* b := require (mem_read (data_block other) 0 size) in
  ret (memcmp a b).

Definition compareDataInRange (thisOffset : Z) (other : Parcel) (otherOffset len : Z) :
    M PS (res Z) :=
  if (INT32_MAX <? len) || (INT32_MAX <? thisOffset) || (INT32_MAX <? otherOffset)
  then ret (Err BAD_VALUE) else
  let* p := gets this in
  if mDataSize p <? thisOffset + len then ret (Err BAD_VALUE) else
  if mDataSize other <? otherOffset + len then ret (Err BAD_VALUE) else
  let* a := require (mem_read (data_block p) thisOffset len) in
  let* b := require (mem_read (data_block other) otherOffset len) in
  ret (Good (memcmp a b)).

(** * The format *)

Definition markSensitive : M PS unit := modp (set_mDeallocZero true).

Definition has_data (p : Parcel) : bool := match mData p with Some _ => true | None => false end.

Definition markForRpc (session : option Z) : M PS unit :=
  let* p := gets this in
  fatal_if (has_data p && match mOwner p with None => true | Some _ => false end) ;;
  fatal_if (match session with None => true | Some _ => false end) ;;
  modp (set_mSession session).

Definition markForBinder (b : option Z) : M PS unit :=
  let* p := gets this in
  fatal_if (has_data p) ;;
  match b with
  | None => ret tt
  | Some a =>
      let* o := find_binder a in
      match b_kind o with
      | RpcProxy session _ => markForRpc (Some session)
      | _ => ret tt
      end
  end.

(** * The header of a call *)

Definition STRICT_MODE_PENALTY_GATHER : Z := -2147483648.
Definition FLAG_ONEWAY : Z := 1.

(** [B_PACK_CHARS('S', 'Y', 'S', 'T')]. *)
Definition B_PACK_CHARS (c1 c2 c3 c4 : Z) : Z :=
  Z.lor (Z.lor (Z.lor (Z.shiftl c1 24) (Z.shiftl c2 16)) (Z.shiftl c3 8)) c4.
Definition kHeader : Z := B_PACK_CHARS 83 89 83 84.

Definition updateWorkSourceRequestHeaderPosition : M PS unit :=
  modp (fun p => if mRequestHeaderPresent p then p else
    set_mRequestHeaderPresent true (set_mWorkSourceRequestHeaderPosition (dataPosition p) p)).

Definition writeInterfaceToken (interface : list Z) : M PS status_t :=
  let* rpc := getp isForRpc in
  (if rpc then ret tt else
     let* t := getw w_thread in
     writeInt32 (Z.lor (getStrictModePolicy t) STRICT_MODE_PENALTY_GATHER) ;;
     updateWorkSourceRequestHeaderPosition ;;
     writeInt32 (if shouldPropagateWorkSource t then s32 (getCallingWorkSourceUid t)
                 else kUnsetWorkSource) ;;
     writeInt32 kHeader ;;
     ret tt) ;;
  writeString16 (Some interface) (zlen interface).

Definition mod_thread (f : ThreadState -> ThreadState) : M PS unit :=
  modw (fun w => set_w_thread (f (w_thread w)) w).

(** [interface] has [zlen interface] code units. *)
Definition enforceInterface (interface : list Z) : M PS bool :=
  let* rpc := getp isForRpc in
  let* header_ok :=
    (if rpc then ret true else
       let* strictPolicy := readInt32_ in
       mod_thread (fun t =>
         if negb (Z.land (getLastTransactionBinderFlags t) FLAG_ONEWAY =? 0)
         then setStrictModePolicy 0 t else setStrictModePolicy strictPolicy t) ;;
       updateWorkSourceRequestHeaderPosition ;;
       let* workSource := readInt32_ in
       mod_thread (fun t => snd (setCallingWorkSourceUidWithoutPropagation (u32 workSource) t)) ;;
       let* header := readInt32_ in
       ret (header =? kHeader)) in
  if negb header_ok then ret false else
  let* parcel_interface := readString16Inplace in
  match parcel_interface with
  | None => ret (zlen interface =? 0)
  | Some (off, parcel_interface_len) =>
      if zlen interface =? parcel_interface_len then
        let* cs := load_chars off parcel_interface_len in
        ret (bool_decide (cs = interface))
      else ret false
  end.

Definition replaceCallingWorkSourceUid (uid : Z) : M PS bool :=
  let* p := gets this in
  if negb (mRequestHeaderPresent p) then ret false else
  setDataPosition (mWorkSourceRequestHeaderPosition p) ;;
  let* err := writeInt32 uid in
  setDataPosition (dataPosition p) ;;
  ret (err =? NO_ERROR).

Definition readCallingWorkSourceUid : M PS Z :=
  let* p := gets this in
  if negb (mRequestHeaderPresent p) then ret (u32 kUnsetWorkSource) else
  setDataPosition (mWorkSourceRequestHeaderPosition p) ;;
  let* uid := readInt32_ in
  setDataPosition (dataPosition p) ;;
  ret (u32 uid).

(** Whether every byte has been read; the binder status it gives rise to is
    [EX_BAD_PARCELABLE] otherwise. *)
Definition enforceNoDataAvail : M PS bool :=
  let* n := dataAvail in ret (n =? 0).
