(* ===== verification/ParcelObjectSpec.v ===== *)
(** Correctness of the object operations of a Parcel.

    [readObject] accepts exactly the positions in the object table;
    [writeObject] adds a record and an entry; the references a parcel holds are
    exactly those of its records ([held] is invariant), and are all given back
    when it is freed; a binder written can be read back. *)

From S2P Require Import Prelude Errors ParcelState ParcelWrite ParcelRead ParcelInv ParcelWriteSpec.
From S2P Require Import ParcelReadSpec ParcelDataSpec Stability ThreadState ParcelObject.
From Stdlib Require Import Sorting.Sorted Sorting.Permutation.

(** * Searching the object table *)

Lemma search_forward_ok objs dpos fuel h :
  (h < length objs)%nat -> (length objs - h <= fuel)%nat ->
  let r := search_forward objs dpos fuel h in
  (h <= r < length objs)%nat /\
  ((r = length objs - 1)%nat \/ exists o, objs !! r = Some o /\ dpos <= o) /\
  (forall i o, (h <= i < r)%nat -> objs !! i = Some o -> o < dpos).
Proof.
  revert h. induction fuel as [|fuel IH]; intros h Hh Hf; cbn [search_forward]; [lia|].
  destruct (lookup_lt_is_Some_2 _ _ Hh) as [o Ho]. rewrite Ho.
  destruct ((h <? length objs - 1)%nat && (o <? dpos)) eqn:E.
  - apply andb_prop in E as [E1%Nat.ltb_lt E2%Z.ltb_lt].
    destruct (IH (S h) ltac:(lia) ltac:(lia)) as (H1 & H2 & H3). split_and!; [lia|lia|done|].
    intros i o' Hi Ho'. destruct (decide (i = h)) as [->|]; [simplify_eq; lia|]. eapply H3; eauto. lia.
  - split_and!; [lia|lia| |intros; lia].
    apply andb_false_iff in E as [E%Nat.ltb_ge|E%Z.ltb_ge]; [left; lia|right; eauto].
Qed.

Lemma search_backward_ok objs dpos h :
  (h < length objs)%nat ->
  let r := search_backward objs dpos h in
  (r <= h)%nat /\ (r = 0%nat \/ exists o, objs !! r = Some o /\ o <= dpos) /\
  (forall i o, (r < i <= h)%nat -> objs !! i = Some o -> dpos < o).
Proof.
  induction h as [|h IH]; intros Hh; cbn [search_backward]; [split_and!; [lia|by left|lia]|].
  destruct (lookup_lt_is_Some_2 _ _ Hh) as [o Ho]. rewrite Ho.
  zcase (dpos <? o).
  - destruct (IH ltac:(lia)) as (H1 & H2 & H3). split_and!; [lia|done|].
    intros i o' Hi Ho'. destruct (decide (i = S h)) as [->|]; [simplify_eq; lia|].
    eapply H3; eauto. lia.
  - split_and!; [lia|right; eauto|intros; lia].
Qed.

(** The index where [readObject] looks last. *)
Definition found_at (objs : list Z) (hint : Z) (dpos : Z) : option nat :=
  let N := length objs in
  let opos := if hint <? zlen objs then search_forward objs dpos N (Z.to_nat hint)
              else (N - 1)%nat in
  if is_at objs opos dpos then Some opos else
  let opos' := search_backward objs dpos opos in
  if is_at objs opos' dpos then Some opos' else None.

Lemma found_at_sound objs hint dpos r :
  found_at objs hint dpos = Some r -> objs !! r = Some dpos.
Proof.
  unfold found_at, is_at. intros H.
  repeat match type of H with
  | (if match ?l with _ => _ end then _ else _) = _ => destruct l eqn:?; [|]
  | (if ?b then _ else _) = _ => destruct b eqn:?; zb
  end; simplify_eq; try done; congruence.
Qed.

Lemma found_at_complete objs hint dpos :
  Sorted Z.le objs -> 0 <= hint -> dpos ∈ objs -> is_Some (found_at objs hint dpos).
Proof.
  intros Hs Hh Hin. apply list_elem_of_lookup in Hin as [k Hk].
  pose proof (lookup_lt_Some _ _ _ Hk) as Hkl. unfold found_at.
  set (opos := if hint <? zlen objs then _ else _).
  assert ((opos < length objs)%nat /\
          ((k <= opos)%nat \/ exists o, objs !! opos = Some o /\ dpos <= o)) as [Ho Hr].
  { unfold opos. zcase (hint <? zlen objs); [|split; [lia|left; lia]].
    destruct (search_forward_ok objs dpos (length objs) (Z.to_nat hint)) as (H1 & H2 & H3);
      [unfold zlen in *; lia|lia|]. split; [lia|]. destruct H2 as [->|]; [left; lia|by right]. }
  destruct (is_at objs opos dpos) eqn:Ea; [by eexists|].
  destruct (search_backward_ok objs dpos opos Ho) as (H1 & H2 & H3).
  set (r := search_backward objs dpos opos) in *.
  destruct (lookup_lt_is_Some_2 objs r ltac:(lia)) as [x Hx].
  destruct (lookup_lt_is_Some_2 objs opos Ho) as [y Hy].
  assert (dpos = x) as ->; [|unfold is_at; rewrite Hx, Z.eqb_refl; by eexists].
  assert (k <= opos)%nat as Hko.
  { destruct Hr as [|(o & Ho' & Hle)]; [done|]. destruct (decide (k <= opos)%nat); [done|].
    assert (o <= dpos) by (eapply (sorted_lookup objs opos k); eauto; lia).
    unfold is_at in Ea. rewrite Ho' in Ea. zb. lia. }
  assert (k <= r)%nat as Hkr.
  { destruct (decide (k <= r)%nat); [done|]. specialize (H3 k dpos ltac:(lia) Hk). lia. }
  assert (dpos <= x) by (eapply (sorted_lookup objs k r); eauto).
  destruct H2 as [H2|(o & Ho' & Hle)]; [|simplify_eq; lia].
  assert (k = r) as -> by lia. congruence.
Qed.

(** * Reading an object *)

Definition record_at (p : Parcel) : flat_binder_object := flat_of_bytes (upcoming p sizeof_flat).

(** A record that is not in the table because it is a null binder. *)
Definition null_object (nullMetaData : bool) (o : flat_binder_object) : bool :=
  negb nullMetaData && ((f_cookie o =? 0) && (f_binder o =? 0)).

Definition read_object_result (p : Parcel) (nullMetaData : bool) : option flat_binder_object :=
  if mDataSize p <? mDataPos p + sizeof_flat then None
  else if null_object nullMetaData (record_at p) then Some (record_at p)
  else match found_at (objs p) (mNextObjectHint p) (mDataPos p) with
       | Some _ => Some (record_at p)
       | None => None
       end.

Lemma readObject_ok F s nullMetaData :
  wf (this s) ->
  wpg F (readObject nullMetaData) s (fun r s' =>
    r = read_object_result (this s) nullMetaData /\ aligned_state s sizeof_flat s' /\
    objs (this s') = objs (this s)).
Proof.
  intros Hwf. pose proof Hwf as []. pose proof (zlen_objs _ Hwf) as Hlo.
  unfold readObject, read_object_result, aligned_state. do 2 wp_step. rewrite u64_small by lia.
  zcase (mDataPos (this s) + 24 <=? mDataSize (this s)).
  2:{ wp_step. by zdec (mDataSize (this s) <? mDataPos (this s) + 24). }
  zdec (mDataSize (this s) <? mDataPos (this s) + 24).
  unfold load_flat. do 2 wp_step. apply load_ok; [lia|lia|lia|]. do 3 wp_step.
  rewrite upcoming_block by (done || lia). fold (record_at (this s)).
  assert (consumed s 24 (mkPS (set_mDataPos (mDataPos (this s) + 24) (this s)) (world s))) as Hc.
  { split_and!; [done| |done]. apply set_pos_wf; [done|lia]. }
  fold (null_object nullMetaData (record_at (this s))).
  destruct (null_object nullMetaData (record_at (this s))); [by wp_step|].
  zcase (0 <? mObjectsSize (this s)).
  2:{ wp_step. split; [|done]. unfold found_at. rewrite (zlen_zero (objs (this s))) by lia.
      by destruct (mNextObjectHint (this s) <? zlen []). }
  wp_step. apply objects_upto_ok; [simpl; lia|]. simpl. fold (objs (this s)).
  unfold found_at. rewrite Hlo.
  set (opos := if mNextObjectHint (this s) <? mObjectsSize (this s) then _ else _).
  assert (forall r, objs (this s) !! r = Some (mDataPos (this s)) ->
    consumed s 24 (mkPS (set_mNextObjectHint (Z.of_nat r + 1)
      (set_mDataPos (mDataPos (this s) + 24) (this s))) (world s))) as Hfound.
  { intros r Hr. pose proof (lookup_lt_Some _ _ _ Hr). split_and!; [done| |by split].
    split; try done; simpl; try lia; [unfold zlen in *; lia|]. intros Hsort.
    apply Forall_lookup. intros i o Ho. unfold ztake in Ho.
    apply lookup_take_Some in Ho as [Ho Hi].
    assert (o <= mDataPos (this s)) by (eapply (sorted_lookup (objs (this s)) i r); eauto; lia). lia. }
  destruct (is_at (objs (this s)) opos (mDataPos (this s))) eqn:Ea.
  { wp_steps. split_and!; [done| |done]. apply Hfound. unfold is_at in Ea.
    destruct (_ !! _); zb; congruence. }
  destruct (is_at _ (search_backward _ _ _) _) eqn:Eb; wp_steps; [|done].
  split_and!; [done| |done]. apply Hfound. unfold is_at in Eb.
  destruct (_ !! _); zb; congruence.
Qed.

(** * References *)

(** The object a record holds a strong reference on. *)
Definition obj_ref (w : World) (o : flat_binder_object) : option Z :=
  if f_type o =? BINDER_TYPE_BINDER then
    if f_binder o =? 0 then None else Some (f_cookie o)
  else if f_type o =? BINDER_TYPE_HANDLE then w_proxy w (f_handle o)
  else None.

Definition points_to (w : World) (a : Z) (o : flat_binder_object) : Z :=
  if decide (obj_ref w o = Some a) then 1 else 0.

Definition zsum (l : list Z) : Z := foldr Z.add 0 l.

Lemma zsum_app a b : zsum (a ++ b) = zsum a + zsum b.
Proof. induction a; simpl; lia. Qed.

Lemma zsum_perm a b : Permutation a b -> zsum a = zsum b.
Proof. induction 1; simpl; lia. Qed.

(** The record at offset [off] of the data. *)
Definition flat_at (p : Parcel) (off : Z) : flat_binder_object :=
  flat_of_bytes (ztake sizeof_flat (zdrop off (contents p))).

(** How many records of the parcel refer to [a]. *)
Definition refs (w : World) (p : Parcel) (a : Z) : Z :=
  zsum (map (fun off => points_to w a (flat_at p off)) (objs p)).

(** The references on [a] that are not this parcel's. *)
Definition held (s : PS) (a : Z) : Z := strong_count (world s) a - refs (world s) (this s) a.

Lemma strong_count_add w d a x :
  strong_count (add_strong d x w) a = strong_count w a + (if decide (x = a) then d else 0).
Proof.
  unfold strong_count, add_strong. simpl. destruct (decide (x = a)) as [->|].
  - by rewrite lookup_insert_eq.
  - rewrite lookup_insert_ne by done. lia.
Qed.

(** [acquire_object] and [release_object] count the record's reference. *)
Definition counted (d : Z) (o : flat_binder_object) (s s' : PS) : Prop :=
  quiet s s' /\
  forall a, strong_count (world s') a = strong_count (world s) a + d * points_to (world s) a o.

Lemma acquire_object_counts F obj s :
  wpg F (acquire_object obj) s (fun _ s' => counted 1 obj s s' /\ w_fds (world s') = w_fds (world s)).
Proof.
  unfold acquire_object, incStrong, counted, points_to, obj_ref.
  destruct (f_type obj =? BINDER_TYPE_BINDER).
  { destruct (f_binder obj =? 0); wp_step; (split; [split; [quiet_tac|]|done]); intros a.
    - rewrite decide_False by done. lia.
    - cbn [world]. rewrite strong_count_add. destruct (decide (f_cookie obj = a)) as [->|Hne];
        [rewrite decide_True by done|rewrite decide_False by congruence]; lia. }
  destruct (f_type obj =? BINDER_TYPE_HANDLE).
  2:{ wp_step. split; [split; [quiet_tac|]|done]. intros a. rewrite decide_False by done. lia. }
  wp_steps. destruct (w_proxy (world s) (f_handle obj)) as [x|]; wp_step;
    (split; [split; [quiet_tac|]|done]); intros a.
  - cbn [world]. rewrite strong_count_add. destruct (decide (x = a)) as [->|Hne];
      [rewrite decide_True by done|rewrite decide_False by congruence]; lia.
  - rewrite decide_False by done. lia.
Qed.

Lemma release_object_counts F obj s :
  wpg F (release_object obj) s (fun _ s' => counted (-1) obj s s').
Proof.
  unfold release_object, decStrong, close, counted, points_to, obj_ref.
  destruct (f_type obj =? BINDER_TYPE_BINDER).
  { destruct (f_binder obj =? 0); wp_step; (split; [quiet_tac|]); intros a.
    - rewrite decide_False by done. lia.
    - cbn [world]. rewrite strong_count_add. destruct (decide (f_cookie obj = a)) as [->|Hne];
        [rewrite decide_True by done|rewrite decide_False by congruence]; lia. }
  destruct (f_type obj =? BINDER_TYPE_HANDLE).
  - wp_steps. destruct (w_proxy (world s) (f_handle obj)) as [x|]; wp_step;
      (split; [quiet_tac|]); intros a.
    + cbn [world]. rewrite strong_count_add. destruct (decide (x = a)) as [->|Hne];
        [rewrite decide_True by done|rewrite decide_False by congruence]; lia.
    + rewrite decide_False by done. lia.
  - destruct (f_type obj =? BINDER_TYPE_FD); [destruct (f_cookie obj =? 0)|]; wp_step;
      (split; [quiet_tac|]); intros a; rewrite decide_False by done;
      unfold strong_count; simpl; lia.
Qed.

Lemma quiet_points_to s s' a o : quiet s s' -> points_to (world s') a o = points_to (world s) a o.
Proof. intros (_ & [_ Hp _ _ _ _] & _). unfold points_to, obj_ref. by rewrite Hp. Qed.

Lemma quiet_refs s s' a : quiet s s' -> refs (world s') (this s') a = refs (world s) (this s) a.
Proof.
  intros Hq. unfold refs. destruct Hq as (E & Hw & Hr). rewrite E. f_equal. apply map_ext. intros off.
  apply quiet_points_to. unfold quiet. by rewrite E.
Qed.

(** Releasing a list of records gives back their references. *)
Lemma release_records_ok F s l :
  Forall (fun o => 0 <= o /\ o + sizeof_flat <= mDataSize (this s)) l -> wf (this s) ->
  wpg F (for_each l (fun off => let* flat := load_flat off in release_object flat)) s
    (fun _ s' => quiet s s' /\ forall a, strong_count (world s') a =
       strong_count (world s) a -
       zsum (map (fun off => points_to (world s) a (flat_at (this s) off)) l)).
Proof.
  intros Hl Hwf. revert s Hl Hwf. induction l as [|off l IH]; intros s Hl Hwf; cbn [for_each map].
  - wp_step. split; [reflexivity|]. intros a. simpl. lia.
  - inversion Hl as [|? ? [H1 H2] Hl']; subst. pose proof Hwf as []. unfold load_flat. wp_step.
    do 2 wp_step. apply load_ok; [lia..|]. wp_step.
    wp_use release_object_counts. intros [] s1 [Hq1 Hc1]. pose proof Hq1 as (E1 & _).
    wp_use IH; [by rewrite E1|by rewrite E1|]. intros [] s2 [Hq2 Hc2].
    split; [by etransitivity|]. intros a. rewrite Hc2, Hc1. simpl.
    assert (flat_of_bytes (ztake 24 (zdrop off (data_block (this s)))) = flat_at (this s) off) as ->.
    { unfold flat_at. f_equal. symmetry. apply slice_ext; [lia..|]. intros i Hi.
      unfold contents. apply byte_at_ztake. lia. }
    rewrite E1. rewrite (map_ext _ (fun off => points_to (world s) a (flat_at (this s) off))); [lia|].
    intros o. by apply quiet_points_to.
Qed.

Lemma releaseObjects_counts F s :
  wf (this s) ->
  wpg F releaseObjects s (fun _ s' => quiet s s' /\ forall a,
    strong_count (world s') a = held s a).
Proof.
  intros Hwf. pose proof Hwf as []. unfold releaseObjects. wp_steps.
  apply objects_upto_ok; [lia|]. fold (objs (this s)).
  wp_use release_records_ok; [by apply Forall_rev|done|]. intros [] s' [Hq Hc].
  split; [done|]. intros a. rewrite Hc. unfold held, refs. f_equal.
  apply zsum_perm, Permutation_map. symmetry. apply Permutation_rev.
Qed.

(** * Freeing a parcel *)

(** Freeing a parcel releases its references (or runs the owner's callback),
    takes it off the global counters and leaves an empty parcel. *)
Lemma freeData_ok F s :
  wf (this s) ->
  wpg F freeData s (fun _ s' => this s' = init_parcel /\ others s' = others s /\
    world_frame (world s) (world s') /\
    (mOwner (this s) = None -> forall a, strong_count (world s') a = held s a)).
Proof.
  intros Hwf. pose proof Hwf as []. unfold freeData. wp_step.
  eapply wpg_mono with (P := fun _ s1 =>
    others (mkPS init_parcel (world s1)) = others s /\ world_frame (world s) (world s1) /\
    (mOwner (this s) = None -> forall a, strong_count (world s1) a = held s a)).
  2:{ intros [] s1 (H1 & H2 & H3). unfold initState. wp_steps.
      destruct (_ =? 0); wp_step; (split_and!; [done|done| |done]); try done.
      destruct H2. by split. }
  unfold freeDataNoInit. wp_steps. destruct (mOwner (this s)) as [r|] eqn:Ho.
  - wp_use call_owner_ok; [by apply wf_records_inside|intros ->; auto|].
    intros [] s1 (E & Hw & Es & Ec). split_and!; [|done|done].
    unfold others, owned_bytes, owned_count; simpl. by rewrite Ho, Es, Ec.
  - wp_step. wp_use releaseObjects_counts; [done|]. intros [] s1 [Hq Hc].
    pose proof Hq as (E & Hw & Es & Ec). wp_steps. rewrite E.
    destruct (mData (this s)) as [d|] eqn:Hd.
    2:{ wp_step. split_and!; [|done|done]. unfold others, owned_bytes, owned_count; simpl.
        by rewrite Ho, Hd, Es, Ec. }
    unfold add_alloc_size, add_alloc_count, free_block. do 4 wp_step. wp_step.
    eapply wpg_mono with (P := fun _ s2 => world s2 = world s2 /\
      s2 = mkPS (this s) (set_gParcelGlobalAllocCount (u64 (gParcelGlobalAllocCount (world s) + -1))
             (set_gParcelGlobalAllocSize (u64 (gParcelGlobalAllocSize (world s) - mDataCapacity (this s)))
               (world s1)))).
    { destruct (mDeallocZero (this s)).
      - unfold zeroMemory. assert (zlen d = mDataCapacity (this s)) as Hl
          by (rewrite <- wf_block; unfold data_block; by rewrite Hd).
        rewrite mem_write_ok by (rewrite ?zlen_zeros by lia; lia). wp_step.
        split; [done|]. simpl. by rewrite E, Es, Ec.
      - wp_step. split; [done|]. simpl. by rewrite E, Es, Ec. }
    intros d' s2 [_ ->]. wp_step. simpl. split_and!; [|by destruct Hw|done].
    unfold others, owned_bytes, owned_count; simpl. rewrite Ho, Hd. unfold u64.
    rewrite !Zminus_mod_idemp_l. f_equal; f_equal; lia.
Qed.

(** * Writing an object *)

Lemma flat_bytes_len o : zlen (flat_bytes o) = sizeof_flat.
Proof. unfold flat_bytes. by zl. Qed.

Lemma flat_bytes_is_byte o : Forall is_byte (flat_bytes o).
Proof. unfold flat_bytes. repeat (apply Forall_app; split); auto with binder. Qed.
#[export] Hint Resolve flat_bytes_is_byte : binder.

(** The records a binder transfer can hold: every field within its width. *)
Definition flat_valid (o : flat_binder_object) : Prop :=
  is_u32 (f_type o) /\ is_u32 (f_flags o) /\ is_u64 (f_binder o) /\ is_u64 (f_cookie o).

Lemma flat_round_trip o : flat_valid o -> flat_of_bytes (flat_bytes o) = o.
Proof.
  intros (H1 & H2 & H3 & H4). unfold flat_of_bytes, flat_bytes.
  rewrite (ztake_app_exact 4 (le_bytes 4 (f_type o))) by (by rewrite zlen_le_bytes).
  rewrite (zdrop_app_exact 4 (le_bytes 4 (f_type o))) by (by rewrite zlen_le_bytes).
  rewrite (ztake_app_exact 4 (le_bytes 4 (f_flags o))) by (by rewrite zlen_le_bytes).
  rewrite (app_assoc (le_bytes 4 (f_type o))).
  rewrite (zdrop_app_exact 8) by (rewrite zlen_app, !zlen_le_bytes; done).
  rewrite (ztake_app_exact 8) by (by rewrite zlen_le_bytes).
  rewrite (app_assoc _ (le_bytes 8 (f_binder o))).
  rewrite (zdrop_app_exact 16) by (rewrite !zlen_app, !zlen_le_bytes; done).
  rewrite !le_val_4, !le_val_8, !u32_small, !u64_small by done. by destruct o.
Qed.

(** Whether a record goes into the object table. *)
Definition tracked (o : flat_binder_object) (nullMetaData : bool) : bool :=
  nullMetaData || negb (f_binder o =? 0).

Definition fd_refused (p : Parcel) (o : flat_binder_object) : bool :=
  (f_type o =? BINDER_TYPE_FD) && negb (mAllowFds p).

(** [p'] is [p] with the record [o] written at the position. *)
Record wrote_object (p p' : Parcel) (o : flat_binder_object) (nullMetaData : bool) : Prop := {
  wo_wf : wf p';
  wo_pos : mDataPos p' = mDataPos p + sizeof_flat;
  wo_contents : contents p' = overwrite (contents p) (mDataPos p) (flat_bytes o);
  wo_objs : objs p' = objs p ++ if tracked o nullMetaData then [mDataPos p] else [];
  wo_owner : mOwner p' = mOwner p;
  wo_session : mSession p' = mSession p;
  wo_error : mError p' = mError p;
  wo_fds : f_type o = BINDER_TYPE_FD -> mHasFds p' = true /\ mFdsKnown p' = true;
}.

Lemma objs_snoc l n (x : Z) :
  0 <= n < zlen l -> ztake (n + 1) (<[Z.to_nat n := x]> l) = ztake n l ++ [x].
Proof.
  intros Hn. unfold ztake, zlen in *. replace (Z.to_nat (n + 1)) with (S (Z.to_nat n)) by lia.
  rewrite (take_S_r _ _ x) by (apply list_lookup_insert_eq; lia).
  by rewrite take_insert_ge by lia.
Qed.

Lemma put_object_ok F s i off Q :
  0 <= i < zlen (mObjects (this s)) ->
  Q tt (mkPS (set_mObjects (<[Z.to_nat i := off]> (mObjects (this s))) (this s)) (world s)) ->
  wpg F (put_object i off) s Q.
Proof.
  intros Hi HQ. unfold put_object. wp_steps. zdec (0 <=? i).
  zdec (i <? zlen (mObjects (this s))). simpl. by wp_step.
Qed.

(** The parcel [writeObject] ends with, before the position moves. *)
Definition with_object (p : Parcel) (o : flat_binder_object) (nullMetaData : bool) : Parcel :=
  let p := if f_type o =? BINDER_TYPE_FD then set_mHasFds true (set_mFdsKnown true p) else p in
  if tracked o nullMetaData then
    set_mObjectsSize (mObjectsSize p + 1)
      (set_mObjects (<[Z.to_nat (mObjectsSize p) := mDataPos p]> (mObjects p)) p)
  else p.

Lemma with_object_fields p o m :
  mData (with_object p o m) = mData p /\ mDataSize (with_object p o m) = mDataSize p /\
  mDataPos (with_object p o m) = mDataPos p /\ mDataCapacity (with_object p o m) = mDataCapacity p /\
  mObjectsCapacity (with_object p o m) = mObjectsCapacity p /\
  mNextObjectHint (with_object p o m) = mNextObjectHint p /\
  mObjectsSorted (with_object p o m) = mObjectsSorted p /\ mOwner (with_object p o m) = mOwner p /\
  mSession (with_object p o m) = mSession p /\ mError (with_object p o m) = mError p.
Proof.
  unfold with_object. destruct (f_type o =? BINDER_TYPE_FD), (tracked o m); by split_and!.
Qed.

Lemma with_object_objs p o m :
  wf p -> mObjectsSize p < mObjectsCapacity p ->
  objs (with_object p o m) = objs p ++ (if tracked o m then [mDataPos p] else []) /\
  zlen (mObjects (with_object p o m)) = mObjectsCapacity p /\
  mObjectsSize (with_object p o m) = mObjectsSize p + (if tracked o m then 1 else 0).
Proof.
  intros [] Hn. unfold objs, with_object.
  destruct (f_type o =? BINDER_TYPE_FD), (tracked o m); simpl;
    rewrite ?app_nil_r, ?Z.add_0_r; split_and!; try done;
    try (by apply objs_snoc; lia); unfold zlen in *; by rewrite length_insert.
Qed.

Lemma sorted_snoc l x : Sorted Z.le l -> Forall (fun y => y <= x) l -> Sorted Z.le (l ++ [x]).
Proof.
  intros Hs Hl. apply StronglySorted_Sorted, StronglySorted_app_intro.
  - apply Sorted_StronglySorted; [intros ???; lia|done].
  - repeat constructor.
  - intros a b Ha ->%list_elem_of_singleton. rewrite Forall_forall in Hl. auto.
Qed.

Lemma sorted_prefix l (k : list Z) : Sorted Z.le (l ++ k) -> Sorted Z.le l.
Proof.
  intros Hs. apply Sorted_StronglySorted in Hs; [|intros ???; lia].
  apply StronglySorted_Sorted. by apply StronglySorted_app_inv in Hs as (H & _).
Qed.

Lemma written_with_object p o m :
  wf p -> mDataPos p + sizeof_flat <= mDataCapacity p -> mObjectsSize p < mObjectsCapacity p ->
  (mObjectsSorted p = true -> Forall (fun x => x <= mDataPos p) (objs p)) ->
  wrote_object p (written (flat_bytes o) (with_object p o m)) o m.
Proof.
  intros Hwf Hfit Hobj Hsort. pose proof Hwf as []. set (q := with_object p o m).
  destruct (with_object_fields p o m) as (Q1&Q2&Q3&Q4&Q5&Q6&Q7&Q8&Q9&Q10). fold q in Q1,Q2,Q3,Q4,Q5,Q6,Q7,Q8,Q9,Q10.
  destruct (with_object_objs p o m Hwf Hobj) as (Eo & El & En). fold q in Eo, El, En.
  destruct (written_fields (flat_bytes o) q) as (E1&E2&E3&E4&E5&E6&E7&E8&E9&E10&E11).
  rewrite flat_bytes_len in *.
  assert (data_block q = data_block p) as Eq by (unfold data_block; by rewrite Q1).
  rewrite poke_block in E3 by (rewrite ?Eq, ?flat_bytes_len, ?Q3; lia).
  assert (objs (written (flat_bytes o) q) = objs q) as Eo2 by (unfold objs; by rewrite E5, E6).
  unfold meta in E11. injection E11 as M1 M2 M3 M4 M5 M6 M7 M8.
  assert (zlen (objs p) = mObjectsSize p) as Hzl by (by apply zlen_objs).
  split.
  - split; rewrite ?Eo2, ?Eo, ?E1, ?E2, ?E3, ?E4, ?E5, ?E6, ?E7, ?E8, ?E9, ?E10,
      ?Eq, ?Q2, ?Q3, ?Q4, ?Q5, ?Q6, ?Q7, ?Q8, ?En; try done; try lia.
    + rewrite zlen_overwrite, flat_bytes_len; lia.
    + apply overwrite_bytes; auto with binder.
    + destruct (tracked o m); lia.
    + apply Forall_app. split.
      * eapply Forall_impl; [exact wf_objs|]. intros x ?; cbv beta in *; lia.
      * destruct (tracked o m); repeat constructor; lia.
    + destruct (tracked o m); lia.
    + intros Hs. destruct (tracked o m); [|rewrite app_nil_r; auto]. apply sorted_snoc; auto.
    + intros Hs. apply sorted_prefix in Hs. rewrite (ztake_app_le (mNextObjectHint p)) by lia.
      eapply Forall_impl; [by apply wf_passed|]. intros x ?; cbv beta in *; lia.
    + intros Ho. rewrite wf_owner in * by done. change (zlen (@nil Z)) with 0 in *. lia.
  - by rewrite E1, Q3.
  - unfold contents. rewrite E2, E3, Eq, Q2, Q3.
    rewrite <- (flat_bytes_len o). apply ztake_overwrite; rewrite ?flat_bytes_len; lia.
  - by rewrite Eo2, Eo.
  - by rewrite E10.
  - by rewrite M8.
  - by rewrite M1.
  - intros Ht. rewrite M4, M5. subst q. unfold with_object. rewrite Ht, Z.eqb_refl.
    by destruct (tracked o m).
Qed.

Lemma poke_contents_wf p off bs :
  wf p -> Forall is_byte bs -> 0 <= off -> off + zlen bs <= mDataCapacity p -> wf (poke off bs p).
Proof.
  intros [] Hb Ho Hf. assert (data_block (poke off bs p) = overwrite (data_block p) off bs) as E
    by (apply poke_block; lia). pose proof (zlen_nonneg bs).
  split; simpl; rewrite ?E; try done.
  - rewrite zlen_overwrite; lia.
  - by apply overwrite_bytes.
Qed.

(** What [writeObject] does on each branch. *)
Definition object_post (s : PS) (o : flat_binder_object) (m : bool) (st : status_t) (s' : PS) : Prop :=
  balanced s s' /\ wf (this s') /\
  if fd_refused (this s) o then
    (st = FDS_NOT_ALLOWED \/ can_fail (world s)) /\
    objs (this s') = objs (this s) /\ mDataPos (this s') = mDataPos (this s) /\
    st <> NO_ERROR /\ (forall a, strong_count (world s') a = strong_count (world s) a)
  else
    (st = NO_ERROR /\ wrote_object (this s) (this s') o m /\
     forall a, strong_count (world s') a =
       strong_count (world s) a + (if tracked o m then points_to (world s) a o else 0)) \/
    (st <> NO_ERROR /\ can_fail (world s)).

(** ** Growth leaves references alone *)

Definition same_strong (s s' : PS) : Prop := w_strong (world s') = w_strong (world s).

Lemma alloc_strong {A} F (mk : (nat -> Z) -> A) s : wpg F (alloc mk) s (fun _ => same_strong s).
Proof. unfold alloc. by wp_steps. Qed.

Lemma reallocZeroFree_strong F data n zero s :
  Forall is_byte (default [] data) -> zlen (default [] data) <= n ->
  wpg F (reallocZeroFree data (zlen (default [] data)) n zero) s (fun _ => same_strong s).
Proof.
  intros Hb Hn. set (old := default [] data) in *. pose proof (zlen_nonneg old).
  unfold reallocZeroFree. destruct zero; simpl; [|apply alloc_strong].
  wp_step. wp_use (wpg_and F _ s _ _ (alloc_ok F (junk_block n) s) (alloc_strong F (junk_block n) s)).
  intros [nd|] s1 [[_ Hj] Hs]; [|by wp_step]. destruct Hj as [junk ->]. fold old.
  rewrite (Z.min_l (zlen old) n), mem_read_ok by lia. rewrite zdrop_0, ztake_ge by lia. wp_steps.
  rewrite mem_write_ok by (rewrite ?zlen_junk_block by lia; lia).
  unfold zeroMemory. rewrite mem_write_ok by (rewrite ?zlen_zeros by lia; lia).
  wp_steps. unfold free_block. by wp_steps.
Qed.

Lemma growData_strong F s len :
  wf (this s) -> mOwner (this s) = None -> 0 <= len ->
  mDataCapacity (this s) < mDataPos (this s) + len ->
  wpg F (growData len) s (fun _ => same_strong s).
Proof.
  intros Hwf Ho Hlen Hfit. pose proof Hwf as []. unfold growData.
  zcase (INT32_MAX <? len); [by wp_step|]. wp_steps.
  zdec (SIZE_MAX - mDataSize (this s) <? len). change (SIZE_MAX / 3) with 6148914691236517205.
  zdec (6148914691236517205 <? mDataSize (this s) + len).
  rewrite u64_small by lia. set (new := (mDataSize (this s) + len) * 3 / 2).
  assert (mDataSize (this s) + len <= new) by (apply Z.div_le_lower_bound; lia).
  zdec (new <=? mDataSize (this s)). unfold continueWrite.
  zcase (INT32_MAX <? Z.max new 128); [by wp_step|]. wp_steps. rewrite Ho.
  assert (kept_objects (this s) (Z.max new 128) = mObjectsSize (this s)) as ->.
  { unfold kept_objects. by zdec (Z.max new 128 <? mDataSize (this s)). }
  destruct (mData (this s)) as [d|] eqn:Hd.
  - unfold continueWrite_owned. do 3 wp_step. zdec (mObjectsSize (this s) <? mObjectsSize (this s)).
    wp_steps. zdec (mDataCapacity (this s) <? Z.max new 128). wp_step.
    rewrite <- wf_block. unfold data_block in *. 
    wp_use reallocZeroFree_strong; [done|rewrite wf_block; lia|].
    intros [nd|] s1 Hs; unfold add_alloc_size; by wp_steps.
  - unfold continueWrite_first. wp_step. wp_use alloc_strong.
    intros [nd|] s1 Hs; unfold add_alloc_size, add_alloc_count; by wp_steps.
Qed.

(** ** The write itself *)

Lemma writeObject_here_ok F s o m :
  wf (this s) -> mDataPos (this s) + sizeof_flat <= mDataCapacity (this s) ->
  mObjectsSize (this s) < mObjectsCapacity (this s) ->
  (mObjectsSorted (this s) = true -> Forall (fun x => x <= mDataPos (this s)) (objs (this s))) ->
  wpg F (writeObject_here o m) s (object_post s o m).
Proof.
  intros Hwf Hfit Hobj Hsort. pose proof Hwf as []. pose proof (flat_bytes_len o) as Hfl.
  unfold writeObject_here, object_post, fd_refused. wp_steps.
  apply store_ok; [lia|rewrite Hfl; lia|]. wp_steps. simpl.
  destruct ((f_type o =? BINDER_TYPE_FD) && negb (mAllowFds (this s))) eqn:Efd.
  { wp_step. split_and!; simpl; try done; [|by apply poke_contents_wf; auto with binder; rewrite ?Hfl; lia|by left].
    destruct s as [p w]. apply balanced_same_owner; simpl; try done. by destruct (mData p). }
  set (p1 := poke (mDataPos (this s)) (flat_bytes o) (this s)).
  wp_step. eapply wpg_mono with (P := fun _ s1 => s1 = mkPS (if f_type o =? BINDER_TYPE_FD
    then set_mHasFds true (set_mFdsKnown true p1) else p1) (world s)).
  { destruct (f_type o =? BINDER_TYPE_FD); by wp_step. }
  intros [] s1 ->. wp_step.
  eapply wpg_mono with (P := fun _ s2 => quiet (mkPS (poke (mDataPos (this s)) (flat_bytes o)
      (with_object (this s) o m)) (world s)) s2 /\
    forall a, strong_count (world s2) a = strong_count (world s) a +
      (if tracked o m then points_to (world s) a o else 0)).
  - unfold with_object. fold (tracked o m). destruct (tracked o m).
    + wp_steps. apply put_object_ok.
      { destruct (f_type o =? BINDER_TYPE_FD); simpl; lia. }
      wp_step. wp_use acquire_object_counts. intros [] s2 [[Hq Hc] _]. wp_step.
      destruct Hq as (E & Hw & Es & Ec). simpl in *. split.
      * unfold quiet. simpl. split_and!; try done. rewrite E.
        destruct (f_type o =? BINDER_TYPE_FD); reflexivity.
      * intros a. rewrite Hc. lia.
    + wp_step. split; [|intros a; cbn [world]; lia]. unfold quiet.
      destruct (f_type o =? BINDER_TYPE_FD); by split_and!.
  - intros [] s2 [Hq Hc]. destruct s2 as [p2 w2]. destruct Hq as (E & Hw & Es & Ec). simpl in E. subst p2.
    destruct (with_object_fields (this s) o m) as (Q1&Q2&Q3&Q4&_&_&_&Q8&_).
    unfold finishWrite. zdec (INT32_MAX <? 24). wp_steps. simpl. rewrite Q3, u64_small by lia.
    pose proof (written_with_object _ o m Hwf Hfit Hobj Hsort) as Hwo.
    unfold written in Hwo. rewrite flat_bytes_len in Hwo. simpl in Hwo. rewrite Q3 in Hwo.
    split_and!; simpl; [|apply Hwo|by left].
    split; [by destruct Hw|]. simpl in *. unfold others, owned_bytes, owned_count; simpl.
    rewrite Es, Ec. 
    destruct (_ <? _); simpl; rewrite Q8, Q1, Q4; destruct (mOwner (this s)), (mData (this s)); done.
Qed.

(** Making room keeps what the write depends on. *)
Record roomier (s s1 : PS) : Prop := {
  ro_balanced : balanced s s1;
  ro_strong : same_strong s s1;
  ro_wf : wf (this s1);
  ro_contents : contents (this s1) = contents (this s);
  ro_pos : mDataPos (this s1) = mDataPos (this s);
  ro_objs : objs (this s1) = objs (this s);
  ro_owner : mOwner (this s) = None /\ mOwner (this s1) = None;
  ro_meta : meta (this s1) = meta (this s);
  ro_sorted : mObjectsSorted (this s1) = true -> mObjectsSorted (this s) = true;
}.

Lemma roomier_refl s : wf (this s) -> mOwner (this s) = None -> roomier s s.
Proof. intros. by split. Qed.

Lemma roomier_trans s1 s2 s3 : roomier s1 s2 -> roomier s2 s3 -> roomier s1 s3.
Proof.
  intros [] []. split; try done; try congruence; try (by etransitivity); try tauto.
Qed.

Lemma same_strong_count s s1 a : same_strong s s1 -> strong_count (world s1) a = strong_count (world s) a.
Proof. unfold same_strong, strong_count. by intros ->. Qed.

Lemma roomier_post s s1 o m st s' :
  roomier s s1 -> object_post s1 o m st s' -> object_post s o m st s'.
Proof.
  intros [] (Hb & Hwf & Hp). unfold object_post in *.
  split_and!; [by etransitivity|done|].
  assert (mAllowFds (this s1) = mAllowFds (this s) /\ mSession (this s1) = mSession (this s) /\
          mError (this s1) = mError (this s)) as (Ea & Es & Ee).
  { unfold meta in ro_meta0. by injection ro_meta0. }
  pose proof (same_strong_count s s1) as Hst.
  assert (fd_refused (this s) o = fd_refused (this s1) o) as -> by (unfold fd_refused; by rewrite Ea).
  destruct (fd_refused (this s1) o).
  - destruct Hp as ([->|Hf] & H2 & H3 & H4 & H5); split_and!; try congruence; auto;
      try (intros a; rewrite H5; auto). right. by eapply balanced_can_fail.
  - destruct Hp as [(-> & [] & Hc)|[H1 H2]]; [left|right; split; [done|by eapply balanced_can_fail]].
    split_and!; [done| |].
    + destruct ro_owner0. rewrite ro_pos0, ro_objs0 in wo_objs0. split; try done; congruence.
    + intros a. rewrite Hc, Hst by done. f_equal. destruct (tracked o m); [|done].
      destruct ro_balanced0 as [[_ Hpx _ _ _ _] _]. unfold points_to, obj_ref. by rewrite Hpx.
Qed.

Lemma grow_objects_ok F s extra :
  wf (this s) -> mOwner (this s) = None -> 0 < extra <= INT32_MAX ->
  mObjectsSize (this s) <= INT32_MAX ->
  wpg F (grow_objects extra) s (fun st s' => roomier s s' /\
    mDataCapacity (this s') = mDataCapacity (this s) /\
    ((st = NO_ERROR /\ mObjectsSize (this s') + extra <= mObjectsCapacity (this s')) \/
     (st = NO_MEMORY /\ can_fail (world s)))).
Proof.
  intros Hwf Ho He Hn. pose proof Hwf as []. pose proof (zlen_objs _ Hwf) as Hzl.
  unfold grow_objects. wp_steps. zdec (SIZE_MAX - mObjectsSize (this s) <? extra).
  change (SIZE_MAX / 3) with 6148914691236517205. change (SIZE_MAX / 8) with 2305843009213693951.
  zdec (6148914691236517205 <? mObjectsSize (this s) + extra). rewrite u64_small by lia.
  set (new := (mObjectsSize (this s) + extra) * 3 / 2).
  assert (mObjectsSize (this s) + extra <= new) by (apply Z.div_le_lower_bound; lia).
  assert (new <= 2305843009213693951) by (apply Z.div_le_upper_bound; lia).
  zdec (2305843009213693951 <? new). wp_step. unfold realloc_table. wp_steps. rewrite Ho.
  unfold realloc_objects. set (mk := fun junk => _).
  wp_use (wpg_and F _ s _ _ (alloc_ok F mk s) (alloc_strong F mk s)).
  intros [t|] s1 [[Hq Hj] Hs]; pose proof Hq as (E & Hw & Es & Ec).
  2:{ wp_step. split_and!; [|by rewrite E|by right]. split; rewrite ?E; try done.
      by apply quiet_balanced. }
  destruct Hj as [junk ->]. wp_steps. rewrite E. unfold mk.
  set (t := ztake new (mObjects (this s) ++ junk_offsets (new - zlen (mObjects (this s))) junk)).
  assert (zlen t = new) as Ht.
  { unfold t. apply zlen_ztake. rewrite zlen_app. unfold junk_offsets, zlen at 2.
    rewrite length_map, length_seq. lia. }
  assert (ztake (mObjectsSize (this s)) t = objs (this s)) as Et.
  { unfold t. rewrite ztake_ztake, ztake_app_le by lia. done. }
  split_and!; [|done|left; split; [done|simpl; lia]].
  split; simpl; try done.
  - etransitivity; [apply quiet_balanced, Hq|]. split; [done|]. unfold others, owned_bytes, owned_count.
    simpl. by rewrite E.
  - split; unfold objs; simpl; rewrite ?Et; try done; try lia. congruence.
Qed.

(** [writeObject] on a parcel that owns its memory. *)
Lemma writeObject_ok F s o m :
  wf (this s) -> mOwner (this s) = None -> fits (this s) sizeof_flat ->
  mObjectsSize (this s) <= INT32_MAX ->
  (mObjectsSorted (this s) = true -> Forall (fun x => x <= mDataPos (this s)) (objs (this s))) ->
  wpg F (writeObject o m) s (object_post s o m).
Proof.
  intros Hwf Ho Hfit Hn Hsort. pose proof Hwf as []. unfold writeObject. do 2 wp_step.
  rewrite u64_small by lia.
  set (enough := mDataPos (this s) + 24 <=? mDataCapacity (this s)).
  set (enoughObj := mObjectsSize (this s) <? mObjectsCapacity (this s)).
  destruct (enough && enoughObj) eqn:E.
  { subst enough enoughObj. zb. by apply writeObject_here_ok. }
  apply wpg_check_ok.
  eapply wpg_mono with (P := fun st s1 =>
    (st = NO_ERROR /\ roomier s s1 /\ mDataPos (this s) + 24 <= mDataCapacity (this s1) /\
     mObjectsCapacity (this s1) = mObjectsCapacity (this s)) \/
    (st = NO_MEMORY /\ this s1 = set_mError NO_MEMORY (this s) /\ can_fail (world s) /\
     balanced s s1 /\ same_strong s s1)).
  { subst enough. zcase (mDataPos (this s) + 24 <=? mDataCapacity (this s)).
    - wp_step. left. split_and!; try done.
    - wp_use (wpg_and F _ s _ _ (growData_ok F s 24 Hwf ltac:(lia) ltac:(lia))
                (growData_strong F s 24 Hwf Ho ltac:(lia) ltac:(lia))).
      intros st s1 [[Hb Hc] Hs]. destruct Hc as [(->&d&[]&Hd)|[(->&Ht&Hf)|(_&_&Hbig)]].
      + left. split_and!; [done| |lia|auto]. by split.
      + right. by split_and!.
      + unfold fits in Hfit. lia. }
  intros st s1 Hst. split; intros Hs1.
  2:{ destruct Hst as [(->&_)|(->&Ht&Hf&Hb&Hs)]; [done|].
      assert (wf (this s1)) as Hw1 by (rewrite Ht; destruct Hwf; by split).
      unfold object_post. split_and!; [done|done|]. rewrite Ht.
      destruct (fd_refused (this s) o); [split_and!; try done; [by right|]|right; done].
      intros a. by apply same_strong_count. }
  destruct Hst as [(->&Hr&Hcap&Hoc)|(->&_)]; [|done].
  assert (mObjectsSize (this s1) = mObjectsSize (this s)) as En.
  { rewrite <- (zlen_objs (this s1)), <- (zlen_objs (this s)), (ro_objs _ _ Hr) by (apply Hr || done). done. }
  apply wpg_check_ok.
  eapply wpg_mono with (P := fun st s2 => roomier s s2 /\
     mDataPos (this s) + 24 <= mDataCapacity (this s2) /\
     ((st = NO_ERROR /\ mObjectsSize (this s2) < mObjectsCapacity (this s2)) \/
      (st = NO_MEMORY /\ can_fail (world s)))).
  { subst enoughObj. zcase (mObjectsSize (this s) <? mObjectsCapacity (this s)).
    - wp_step. split_and!; [done|done|left]. split; [done|lia].
    - wp_use grow_objects_ok; [apply Hr|apply Hr|lia|lia|].
      intros st s2 (Hr2 & Hc2 & Hx). split_and!; [by eapply roomier_trans|lia|].
      destruct Hx as [[-> Hx]|[-> Hx]]; [left|right]; (split; [done|]); [lia|].
      eapply balanced_can_fail; [apply Hr|done]. }
  intros st s2 (Hr2 & Hc2 & Hx). split; intros Hs2.
  2:{ destruct Hx as [[-> _]|[-> Hf]]; [done|]. destruct Hr2.
      unfold object_post. split_and!; [done|done|].
      destruct (fd_refused (this s) o); [split_and!; try done; [by right|]|right; done].
      intros a. by apply same_strong_count. }
  destruct Hx as [[-> Hx]|[-> _]]; [|done].
  wp_use writeObject_here_ok; [apply Hr2|rewrite (ro_pos _ _ Hr2); lia|done| |].
  - intros Hso. rewrite (ro_pos _ _ Hr2), (ro_objs _ _ Hr2). apply Hsort. by apply Hr2.
  - intros st s3. by apply roomier_post.
Qed.

(** * Balance of references *)

Lemma flat_at_overwrite p p' o off :
  wf p -> contents p' = overwrite (contents p) (mDataPos p) (flat_bytes o) ->
  0 <= off -> off + sizeof_flat <= mDataPos p \/ mDataPos p + sizeof_flat <= off ->
  flat_at p' off = flat_at p off.
Proof.
  intros Hwf Hc Ho Hd. unfold flat_at. rewrite Hc. f_equal. apply slice_ext; [lia|lia|].
  intros i Hi. pose proof (wf_pos _ Hwf). pose proof (zlen_contents _ Hwf).
  rewrite byte_at_overwrite, flat_bytes_len by lia.
  zcase (mDataPos p <=? i); zcase (i <? mDataPos p + 24); simpl; try done. lia.
Qed.

Lemma flat_at_written p p' o :
  wf p -> contents p' = overwrite (contents p) (mDataPos p) (flat_bytes o) -> flat_valid o ->
  flat_at p' (mDataPos p) = o.
Proof.
  intros Hwf Hc Hv. unfold flat_at. rewrite Hc, <- (flat_bytes_len o), overwrite_slice.
  - by apply flat_round_trip.
  - pose proof (wf_pos _ Hwf). rewrite zlen_contents by done. lia.
Qed.

Lemma wrote_object_refs w p p' o m a :
  wf p -> wrote_object p p' o m -> clear p sizeof_flat -> flat_valid o ->
  refs w p' a = refs w p a + (if tracked o m then points_to w a o else 0).
Proof.
  intros Hwf [] Hcl Hv. unfold refs. rewrite wo_objs0, map_app, zsum_app. f_equal.
  - f_equal. apply map_ext_in. intros off Hin%list_elem_of_In.
    pose proof (wf_objs _ Hwf) as Hr. unfold clear in Hcl. rewrite Forall_forall in Hr, Hcl.
    specialize (Hr _ Hin). specialize (Hcl _ Hin).
    cbv beta in Hr, Hcl. by rewrite (flat_at_overwrite p p' o) by (done || lia).
  - destruct (tracked o m); [|done]. simpl. erewrite flat_at_written by done. lia.
Qed.

Lemma writeObject_held F s o m :
  wf (this s) -> mOwner (this s) = None -> fits (this s) sizeof_flat ->
  mObjectsSize (this s) <= INT32_MAX ->
  (mObjectsSorted (this s) = true -> Forall (fun x => x <= mDataPos (this s)) (objs (this s))) ->
  clear (this s) sizeof_flat -> flat_valid o ->
  wpg F (writeObject o m) s (fun st s' => object_post s o m st s' /\
    (st = NO_ERROR -> forall a, held s' a = held s a)).
Proof.
  intros. wp_use writeObject_ok; [done..|]. intros st s' Hp. split; [done|].
  destruct Hp as ([Hf _] & _ & Hp). intros -> a. unfold held.
  destruct (fd_refused (this s) o); [by destruct Hp as (_&_&_&?&_)|].
  destruct Hp as [(_ & Hw & Hc)|[? _]]; [|done]. rewrite Hc.
  erewrite (wrote_object_refs _ (this s)) by done.
  assert (refs (world s') (this s) a = refs (world s) (this s) a /\
          points_to (world s') a o = points_to (world s) a o) as [-> ->].
  { destruct Hf as [_ Hpx _ _ _ _]. unfold refs, points_to, obj_ref. by rewrite Hpx. }
  lia.
Qed.

(** * Flattening binders *)

Lemma is_u32_u32 x : is_u32 (u32 x).
Proof. apply u32_range. Qed.

Lemma lor_u32 a b : is_u32 a -> is_u32 b -> is_u32 (Z.lor a b).
Proof.
  unfold is_u32. intros Ha Hb. split; [apply Z.lor_nonneg; lia|].
  destruct (Z.eq_dec (Z.lor a b) 0) as [->|Hne]; [lia|].
  assert (0 <= Z.lor a b) by (apply Z.lor_nonneg; lia).
  change 4294967296 with (2 ^ 32). apply Z.log2_lt_pow2; [lia|]. rewrite Z.log2_lor by lia.
  apply Z.max_lub_lt.
  - destruct (Z.eq_dec a 0) as [->|]; [done|]. apply Z.log2_lt_pow2; lia.
  - destruct (Z.eq_dec b 0) as [->|]; [done|]. apply Z.log2_lt_pow2; lia.
Qed.

Lemma schedPolicyMask_u32 policy priority : is_u32 (schedPolicyMask policy priority).
Proof.
  unfold schedPolicyMask. apply lor_u32; unfold is_u32.
  - change FLAT_BINDER_FLAG_PRIORITY_MASK with (Z.ones 8). rewrite Z.land_ones by lia.
    pose proof (Z.mod_pos_bound priority (2 ^ 8)). lia.
  - change 3 with (Z.ones 2). rewrite Z.land_ones, Z.shiftl_mul_pow2 by (unfold FLAT_BINDER_FLAG_SCHED_POLICY_SHIFT; lia).
    unfold FLAT_BINDER_FLAG_SCHED_POLICY_SHIFT. pose proof (Z.mod_pos_bound policy (2 ^ 2)). lia.
Qed.

(** What a binder object must look like to be sent: its own address and that of
    its weak references are pointers, its stability a level. *)
Record sendable (w : World) (a : Z) (o : IBinder) : Prop := {
  se_addr : 0 < a < 18446744073709551616;
  se_weak : 0 < b_weakRefs o < 18446744073709551616;
  se_level : known_level (b_stability o);
  se_handle : forall h, b_kind o = KernelProxy h -> w_proxy w (u32 h) = Some a;
  se_kernel : forall sess addr, b_kind o <> RpcProxy sess addr;
}.

(** The record denotes the binder [b]. *)
Definition denotes (w : World) (o : flat_binder_object) (b : option Z) : Prop :=
  flat_valid o /\ f_type o <> BINDER_TYPE_FD /\
  (f_type o = BINDER_TYPE_BINDER /\
     ((f_binder o = 0 /\ f_cookie o = 0 /\ b = None) \/
      (f_binder o <> 0 /\ f_cookie o <> 0 /\ b = Some (f_cookie o))) \/
   f_type o = BINDER_TYPE_HANDLE /\ f_cookie o = 0 /\ w_proxy w (f_handle o) = b).

(** The level a binder has once it has been sent. *)
Definition sent_level (l : Z) : Z := if l =? UNDECLARED then getLocalLevel else l.

Lemma sent_level_declared l : known_level l -> isDeclaredLevel (sent_level l) = true.
Proof.
  unfold sent_level. intros [->|H]; [done|].
  by apply declared_levels in H as [-> | [-> | ->]].
Qed.

Lemma flat_of_binder_ok F s b schedBits :
  is_u32 schedBits ->
  (forall a, b = Some a -> exists o, w_binders (world s) !! a = Some o /\ sendable (world s) a o) ->
  wpg F (flat_of_binder b schedBits) s (fun r s' =>
    exists o, r = Good o /\ denotes (world s) o b /\ this s' = this s /\
      exists bset, world s' = set_mIBinderSet bset (world s)).
Proof.
  intros Hs Hb. unfold flat_of_binder. destruct b as [a|].
  2:{ wp_step. eexists. split_and!; [done| |done|].
      - unfold denotes, flat_valid. simpl. split_and!; try done; try (unfold is_u32, is_u64; lia).
        left. split; [done|]. by left.
      - exists (mIBinderSet (world s)). by destruct (world s). }
  destruct (Hb a eq_refl) as (o & Ho & []). unfold find_binder. wp_steps. rewrite Ho. wp_step.
  destruct (b_kind o) as [|h|sess addr] eqn:Ek.
  - unfold insertBBinder. wp_steps. eexists. split_and!; [done| |done|by eexists].
    unfold denotes, flat_valid. simpl. split_and!; try done; try (unfold is_u32, is_u64; lia).
    + apply lor_u32; [|destruct (_ || _); [apply schedPolicyMask_u32|done]].
      destruct (b_requestingSid o), (b_inheritRt o); by vm_compute.
    + left. split; [done|]. right. split_and!; [lia|lia|done].
  - wp_step. eexists. split_and!; [done| |done|exists (mIBinderSet (world s)); by destruct (world s)].
    unfold denotes, flat_valid, f_handle. simpl. pose proof (u32_range h).
    split_and!; try done; try (unfold is_u32, is_u64 in *; lia).
    right. split_and!; [done|done|]. rewrite (u32_small (u32 h)) by done. auto.
  - by exfalso; eapply se_kernel0.
Qed.

(** The stability written after the record, and the state of the binder. *)
Definition stability_sent (w : World) (b : option Z) (rep : Z) : Prop :=
  match b with
  | None => rep = UNDECLARED
  | Some a => exists o, w_binders w !! a = Some o /\ b_stability o = rep /\
                isDeclaredLevel rep = true
  end.

Lemma finishFlattenBinder_ok F s b :
  wf (this s) -> fits (this s) 4 -> ~ can_fail (world s) ->
  (forall a, b = Some a -> exists o, w_binders (world s) !! a = Some o /\
     known_level (b_stability o)) ->
  wpg F (finishFlattenBinder b) s (fun st s' => st = NO_ERROR /\ exists rep,
    wrote (this s) (this s') (le_bytes 4 rep) /\ stability_sent (world s') b rep /\
    w_proxy (world s') = w_proxy (world s)).
Proof.
  intros Hwf Hf Hmem Hb. unfold finishFlattenBinder, tryMarkCompilationUnit. do 2 wp_step.
  eapply wpg_mono with (P := fun _ s1 => this s1 = this s /\
    w_proxy (world s1) = w_proxy (world s) /\ w_heap (world s1) = w_heap (world s) /\
    exists rep, stability_sent (world s1) b rep).
  { destruct b as [a|].
    - destruct (Hb a eq_refl) as (o & Ho & Hl). wp_use setRepr_ok; [exact Ho|].
      intros st s1. unfold set_level. change (isDeclaredLevel getLocalLevel) with true. simpl negb.
      cbv iota. destruct (Z.eqb_spec (b_stability o) getLocalLevel) as [Heq|Hne].
      + intros (_ & E & Ew). rewrite Ew. split_and!; try done.
        exists (b_stability o). eexists. simpl. rewrite lookup_insert_eq. split_and!; [done|done|].
        by rewrite Heq.
      + change (Z.land REPR_NONE REPR_ALLOW_DOWNGRADE =? 0) with true. simpl.
        rewrite orb_false_r. destruct (Z.eqb_spec (b_stability o) UNDECLARED) as [Hu|Hu].
        * intros (_ & E & Ew). rewrite Ew. split_and!; try done. exists getLocalLevel. eexists.
          simpl. rewrite lookup_insert_eq. by split_and!.
        * intros [_ ->]. split_and!; try done. exists (b_stability o), o. split_and!; try done.
          by destruct Hl.
    - unfold setRepr, getRepr. do 2 wp_step. change (getLocalLevel =? UNDECLARED) with false. cbv iota. wp_step. split_and!; try done. by exists UNDECLARED. }
  intros st s1 (E & Hpx & Hh & rep & Hrep). do 2 wp_step.
  eapply wpg_mono with (P := fun r s2 => r = rep /\ s2 = s1).
  { unfold getRepr. destruct b as [a|]; simpl in Hrep; [|by wp_step].
    destruct Hrep as (o & Ho & Hr & _). wp_steps. rewrite Ho. by wp_steps. }
  intros r s2 [-> ->]. wp_use writeInt32_ok; [by rewrite E|by rewrite E|].
  intros st2 s2 [[[] _] [[-> Hw]|[_ []]]].
  - split; [done|]. exists rep. rewrite <- E. split_and!; [done| |congruence].
    unfold stability_sent in *. by rewrite wf_binders.
  - exfalso. apply Hmem. unfold can_fail in *. by rewrite <- Hh.
Qed.

(** A strong binder written in the kernel format, as far as a reader cares. *)
Record binder_written (s s' : PS) (b : option Z) (o : flat_binder_object) (rep : Z) : Prop := {
  bw_wf : wf (this s');
  bw_denotes : denotes (world s) o b;
  bw_contents : contents (this s') =
    overwrite (contents (this s)) (mDataPos (this s)) (flat_bytes o ++ le_bytes 4 rep);
  bw_objs : objs (this s') = objs (this s) ++ if tracked o false then [mDataPos (this s)] else [];
  bw_session : mSession (this s') = mSession (this s);
  bw_sent : stability_sent (world s') b rep;
  bw_proxy : w_proxy (world s') = w_proxy (world s);
}.

Lemma flattenBinder_kernel_ok `{RpcBinders} F s b :
  wf (this s) -> mOwner (this s) = None -> mSession (this s) = None -> fits (this s) 28 ->
  mObjectsSize (this s) <= INT32_MAX ->
  (mObjectsSorted (this s) = true -> Forall (fun x => x <= mDataPos (this s)) (objs (this s))) ->
  ~ can_fail (world s) ->
  (forall a, b = Some a -> exists o, w_binders (world s) !! a = Some o /\ sendable (world s) a o) ->
  wpg F (flattenBinder b) s (fun st s' => st = NO_ERROR /\ exists o rep, binder_written s s' b o rep).
Proof.
  intros Hwf Ho Hsess Hfit Hn Hsort Hmem Hb. unfold flattenBinder. wp_step.
  eapply wpg_mono with (P := fun _ s1 => this s1 = this s /\ w_proxy (world s1) = w_proxy (world s) /\
    w_heap (world s1) = w_heap (world s) /\
    (forall a, b = Some a -> exists o, w_binders (world s1) !! a = Some o /\ sendable (world s1) a o)).
  { destruct b as [a|]; [|by wp_step]. destruct (Hb a eq_refl) as (o & Hl & Hs).
    unfold find_binder. wp_steps. rewrite Hl. wp_step. destruct (is_local o); [|by wp_step].
    unfold mark_parceled. wp_step. simpl. split_and!; try done. intros a' [= <-].
    exists (set_parceled o). split; [by rewrite lookup_alter_eq, Hl|]. destruct Hs. by split. }
  intros [] s1 (E1 & Hpx1 & Hh1 & Hb1). wp_steps. rewrite E1, Hsess. wp_steps.
  eapply wpg_mono; [apply flat_of_binder_ok; [|exact Hb1]|].
  { destruct (mBackgroundSchedulingDisabled _); [unfold is_u32; lia|apply schedPolicyMask_u32]. }
  intros r s2 (o & -> & Hd & E2 & bset & Ew2). apply wpg_check_ok.
  assert (this s2 = this s) as E by congruence.
  assert (~ can_fail (world s2)) as Hmem2.
  { rewrite Ew2. unfold can_fail in *. simpl. by rewrite Hh1. }
  wp_use writeObject_ok; rewrite ?E; try done.
  { eapply fits_le; [exact Hfit|]. lia. }
  intros st s3 ([[] _] & Hwf3 & Hp). rewrite E in Hp.
  assert (fd_refused (this s) o = false) as Hfd.
  { unfold fd_refused. destruct Hd as (_ & Hnf & _). by destruct (Z.eqb_spec (f_type o) BINDER_TYPE_FD). }
  rewrite Hfd in Hp. destruct Hp as [(-> & [] & _)|[_ ?]]; [|done]. split; [intros _|done].
  assert (mDataSize (this s3) <= mDataSize (this s) + 24) as Hsz.
  { rewrite <- (zlen_contents _ Hwf3), wo_contents0, zlen_overwrite, zlen_contents, flat_bytes_len
      by (rewrite ?zlen_contents by done; apply Hwf || done). pose proof (wf_pos _ Hwf). lia. }
  wp_use finishFlattenBinder_ok; [done| | | |].
  - unfold fits in *. etransitivity; [|exact Hfit]. apply Z.div_le_mono; lia.
  - unfold can_fail in *. by rewrite wf_heap.
  - intros a Ha. destruct (Hb1 a Ha) as (ob & Hl & []). exists ob.
    rewrite wf_binders, Ew2. simpl. done.
  - intros st s4 (-> & rep & [] & Hsent & Hpx). split; [done|]. exists o, rep. split; try done.
    + rewrite Hpx1 in Hd || idtac. unfold denotes in *. by rewrite <- Hpx1.
    + rewrite wr_contents, wo_contents0, wo_pos0, <- (flat_bytes_len o). apply overwrite_app.
      rewrite zlen_contents by done. apply (wf_pos _ Hwf).
    + by rewrite wr_objs, wo_objs0.
    + unfold meta in wr_meta. injection wr_meta as _ _ _ _ _ _ _ Hse. congruence.
    + rewrite Hpx, wf_proxy, Ew2. simpl. done.
Qed.

Lemma finishUnflattenBinder_ok F s b rep :
  wf (this s) -> avail (this s) (le_bytes 4 rep) -> stability_sent (world s) b rep ->
  wpg F (finishUnflattenBinder b) s (fun r s' => r = Good b /\
    mDataPos (this s') = mDataPos (this s) + 4 /\ wf (this s')).
Proof.
  intros Hwf Hav Hrep. unfold finishUnflattenBinder. apply wpg_bind_res.
  assert (is_s32 rep /\ s16 rep = rep) as [H32 H16].
  { destruct b; simpl in Hrep; [destruct Hrep as (o & _ & _ & Hd)|by subst].
    by apply declared_levels in Hd as [-> | [-> | ->]]. }
  wp_use (readInt32_decodes rep); [done|done|done|]. intros r s1 [-> (Hw & Hwf1 & Hp)].
  rewrite H16. wp_step. 
  eapply wpg_mono with (P := fun st s2 => st = OK /\ this s2 = this s1).
  { destruct b as [a|]; simpl in Hrep.
    - destruct Hrep as (o & Ho & <- & Hd). wp_use setRepr_ok; [by rewrite Hw|].
      unfold set_level. rewrite Hd, Z.eqb_refl. simpl. by intros st s2 (-> & -> & _).
    - subst. unfold setRepr, getRepr. by wp_steps. }
  intros st s2 [-> E]. change (OK =? OK) with true. cbv iota. wp_step.
  rewrite E, (peq_pos _ _ Hp). by zl.
Qed.

Lemma readObject_denoted p o w b :
  wf p -> mDataPos p + sizeof_flat <= mDataSize p -> upcoming p sizeof_flat = flat_bytes o ->
  denotes w o b -> Sorted Z.le (objs p) -> (tracked o false = true -> mDataPos p ∈ objs p) ->
  read_object_result p false = Some o.
Proof.
  intros Hwf Hs Hup (Hv & _ & Hd) Hsort Htr. unfold read_object_result, record_at.
  zdec (mDataSize p <? mDataPos p + 24). rewrite Hup, flat_round_trip by done.
  destruct (null_object false o) eqn:En; [done|].
  destruct (found_at_complete (objs p) (mNextObjectHint p) (mDataPos p)) as [r ->]; [done| | |done].
  - apply Hwf.
  - apply Htr. unfold tracked, null_object in *. simpl in *.
    destruct Hd as [(_ & [(E1 & E2 & _)|(E1 & _)])|(_ & E & _)].
    + by rewrite E1, E2 in En.
    + by destruct (Z.eqb_spec (f_binder o) 0).
    + rewrite E in En. simpl in En. by rewrite En.
Qed.

(** Reading a binder that was written at the position. *)
Lemma unflattenBinder_ok `{RpcBinders} F s b o rep :
  wf (this s) -> mSession (this s) = None -> denotes (world s) o b ->
  mDataPos (this s) + 28 <= mDataSize (this s) ->
  upcoming (this s) 28 = flat_bytes o ++ le_bytes 4 rep ->
  Sorted Z.le (objs (this s)) -> (tracked o false = true -> mDataPos (this s) ∈ objs (this s)) ->
  Forall (fun x => x <= mDataPos (this s) \/ mDataPos (this s) + 28 <= x) (objs (this s)) ->
  stability_sent (world s) b rep ->
  wpg F unflattenBinder s (fun r s' => r = Good b /\
    mDataPos (this s') = mDataPos (this s) + 28 /\ wf (this s')).
Proof.
  intros Hwf Hsess Hd Hsz Hup Hsort Htr Hcl Hrep. pose proof (wf_pos _ Hwf).
  unfold unflattenBinder. wp_steps. rewrite Hsess. wp_step. wp_use readObject_ok; [done|].
  assert (upcoming (this s) (zlen (flat_bytes o ++ le_bytes 4 rep)) =
          flat_bytes o ++ le_bytes 4 rep) as Hup2 by (rewrite zlen_app, flat_bytes_len; exact Hup).
  apply upcoming_app in Hup2 as [Hu1 Hu2]. rewrite flat_bytes_len in Hu1.
  rewrite (readObject_denoted _ o (world s) b) by (done || lia).
  intros r s1 (-> & Hst & Eo). unfold aligned_state in Hst.
  replace (mDataSize (this s) <? mDataPos (this s) + 24) with false in Hst
    by (symmetry; apply Z.ltb_ge; lia).
  destruct Hst as (Hw1 & Hwf1 & Hp1).
  assert (avail (this s1) (le_bytes 4 rep)) as Hav.
  { eapply peq_avail; [exact Hp1|]. split; simpl; zl.
    - change (Z.of_nat 4) with 4. lia.
    - unfold upcoming. simpl. change (contents (set_mDataPos _ (this s))) with (contents (this s)).
      etransitivity; [|exact Hu2]. rewrite flat_bytes_len. zl. unfold zdrop. rewrite drop_drop.
      do 2 f_equal. lia.
    - unfold clear. simpl. change (objs (set_mDataPos _ (this s))) with (objs (this s)).
      eapply Forall_impl; [exact Hcl|]. intros x Hx. cbv beta in *. lia. }
  assert (forall r, wpg F (finishUnflattenBinder b) s1 (fun r' s' => r' = Good b /\
    mDataPos (this s') = mDataPos (this s1) + 4 /\ wf (this s')) ->
    (r : M PS (res (option Z))) = finishUnflattenBinder b ->
    wpg F r s1 (fun r s' => r = Good b /\ mDataPos (this s') = mDataPos (this s) + 28 /\ wf (this s'))) as Hend.
  { intros r Hr ->. wp_use Hr. intros r' s2 (-> & E & Hwf2). split_and!; [done| |done].
    rewrite E, (peq_pos _ _ Hp1). simpl. lia. }
  pose proof (finishUnflattenBinder_ok F s1 b rep Hwf1 Hav ltac:(by rewrite Hw1)) as Hfin.
  destruct Hd as (_ & _ & [(Ht & [(_ & E & ->)|(_ & E & ->)])|(Ht & _ & E)]); rewrite Ht; simpl.
  - apply (Hend _ Hfin). by rewrite E.
  - apply (Hend _ Hfin). by zdec (f_cookie o =? 0).
  - wp_steps. apply (Hend _ Hfin). by rewrite Hw1, E.
Qed.

(** [setDataPosition] does not reorder the object table. *)
Lemma setDataPosition_objs F s n Q :
  wf (this s) -> 0 <= n <= mDataSize (this s) ->
  (forall s', world s' = world s -> wf (this s') -> peq (set_mDataPos n (this s)) (this s') ->
     objs (this s') = objs (this s) -> Q tt s') ->
  wpg F (setDataPosition n) s Q.
Proof.
  intros Hwf Hn HQ. pose proof (setDataPosition_ok F s n
    (fun _ s' => world s' = world s /\ wf (this s') /\ peq (set_mDataPos n (this s)) (this s')) Hwf Hn) as H.
  eapply wpg_mono; [eapply wpg_and; [apply H; auto|]|].
  - instantiate (1 := fun _ s' => objs (this s') = objs (this s)). pose proof Hwf as [].
    unfold setDataPosition. zdec (INT32_MAX <? n). by wp_step.
  - intros [] s' [(H1 & H2 & H3) H4]. auto.
Qed.

(** * Looking for descriptors *)

Definition fd_in_range (p : Parcel) (offset len off : Z) : bool :=
  (offset <=? off) && (off + sizeof_flat <=? offset + len) &&
  (f_type (flat_at p off) =? BINDER_TYPE_FD).

Lemma load_flat_ok F s off Q :
  wf (this s) -> 0 <= off -> off + sizeof_flat <= mDataSize (this s) ->
  Q (flat_at (this s) off) s -> wpg F (load_flat off) s Q.
Proof.
  intros [] Ho Hs HQ. unfold load_flat. wp_step. apply load_ok; [lia..|]. wp_step.
  unfold flat_at in HQ.
  rewrite (slice_ext (data_block (this s)) (contents (this s))) in HQ; [done|lia|lia|].
  intros i Hi. unfold contents. apply byte_at_ztake. lia.
Qed.

Lemma fds_in_range_ok F s l sorted offset len :
  wf (this s) -> Forall (fun o => 0 <= o /\ o + sizeof_flat <= mDataSize (this s)) l ->
  (sorted = true -> Sorted Z.le l) ->
  wpg F (fds_in_range l sorted offset len) s (fun r s' =>
    s' = s /\ r = existsb (fd_in_range (this s) offset len) l).
Proof.
  intros Hwf Hl Hs. induction l as [|off l IH]; cbn [fds_in_range existsb]; [by wp_step|].
  inversion Hl as [|? ? [H1 H2] Hl']; subst.
  specialize (IH Hl' ltac:(intros E; specialize (Hs E); by inversion Hs)).
  unfold fd_in_range at 1.
  zcase (off <? offset); [by zdec (offset <=? off)|].
  zdec (offset <=? off).
  zcase (offset + len <? off + 24).
  - zdec (off + 24 <=? offset + len). simpl. destruct sorted; [|done]. wp_step. split; [done|].
    symmetry. apply not_true_is_false. intros [x [Hx Hx2]]%existsb_exists.
    specialize (Hs eq_refl). apply Sorted_StronglySorted in Hs; [|intros ???; lia].
    inversion Hs as [|? ? _ Hf]; subst. rewrite Forall_forall in Hf.
    specialize (Hf x ltac:(by apply list_elem_of_In)). unfold fd_in_range in Hx2. zb. lia.
  - zdec (off + 24 <=? offset + len). cbn [andb]. wp_step. apply load_flat_ok; [done|lia|lia|].
    destruct (f_type (flat_at (this s) off) =? BINDER_TYPE_FD); [by wp_step|done].
Qed.

Lemma hasFileDescriptorsInRange_ok F s offset len :
  wf (this s) -> 0 <= offset -> 0 <= len ->
  wpg F (hasFileDescriptorsInRange offset len) s (fun r s' => s' = s /\
    r = if mDataSize (this s) <? offset + len then Err BAD_VALUE
        else Good (existsb (fd_in_range (this s) offset len) (objs (this s)))).
Proof.
  intros Hwf Ho Hl. pose proof Hwf as []. unfold hasFileDescriptorsInRange.
  destruct ((INT32_MAX <? len) || (INT32_MAX <? offset)) eqn:E.
  - wp_step. by apply orb_prop in E as [E|E]; zb; zdec (mDataSize (this s) <? offset + len).
  - wp_steps. destruct (mDataSize (this s) <? offset + len); [by wp_step|].
    wp_step. apply objects_upto_ok; [lia|]. wp_step. fold (objs (this s)).
    wp_use fds_in_range_ok; [done|done|auto|]. intros r s' [-> ->]. by wp_step.
Qed.
