(* ===== verification/ParcelObjectProps.v ===== *)
(** The properties of the objects a Parcel carries. *)

From S2P Require Import Prelude Errors ParcelState ParcelWrite ParcelRead ParcelInv ParcelWriteSpec.
From S2P Require Import ParcelReadSpec ParcelDataSpec ParcelProps Stability ThreadState.
From S2P Require Import ParcelObject ParcelIpc ParcelObjectSpec.
From Stdlib Require Import Sorting.Sorted Sorting.Permutation.

(** * Concrete objects *)

Module SampleObjects.
(** A session whose operations always fail: kernel parcels never use it. *)
#[global] Instance no_rpc : RpcBinders := {
  onBinderLeaving := fun _ _ => ret (Err INVALID_OPERATION);
  onBinderEntering := fun _ _ => ret (Err INVALID_OPERATION);
  flushExcessBinderRefs := fun _ _ _ => ret INVALID_OPERATION;
}.

Definition service : IBinder := mkIBinder LocalBinder 0 0 0 false false false 4096.

(** One local binder, and two open descriptors. *)
Definition office : World :=
  set_w_fds {[ 0 := 10; 1 := 11 ]} (set_w_binders {[ 8192 := service ]} Sample.calm).

Definition fd_record (fd : Z) : flat_binder_object := mkFlat BINDER_TYPE_FD 0x17f fd 1.
Definition binder_record : flat_binder_object := mkFlat BINDER_TYPE_BINDER 0x113 4096 8192.
End SampleObjects.

(** C7: references balance.  Writing an object takes exactly the reference its
    record denotes, and freeing the parcel gives back exactly those of all its
    records: after any object is written and the parcel freed, every reference
    count is what it was before the parcel's records took theirs, so nothing
    leaks and nothing is released twice, and the global counters are exact. *)
Theorem object_references_balance (s : PS) (o : flat_binder_object) (nullMetaData : bool) :
  wf (this s) -> mOwner (this s) = None -> fits (this s) sizeof_flat ->
  mObjectsSize (this s) <= INT32_MAX ->
  (mObjectsSorted (this s) = true -> Forall (fun x => x <= mDataPos (this s)) (objs (this s))) ->
  clear (this s) sizeof_flat -> flat_valid o ->
  wp (let* st := writeObject o nullMetaData in freeData ;; ret st) s (fun st s' =>
    this s' = init_parcel /\ others s' = others s /\
    (st = NO_ERROR -> forall a, strong_count (world s') a = held s a)).
Proof.
  intros. wp_step. wp_use writeObject_held; [done..|].
  intros st s1 [(Hb & Hwf1 & Hp) Hh]. wp_step. wp_use freeData_ok; [done|].
  intros [] s2 (Ht & Ho & _ & Hc). wp_step. split_and!; [done| |].
  - rewrite Ho. apply Hb.
  - intros -> a. rewrite Hc, Hh; [done|done|].
    destruct (fd_refused (this s) o); [by destruct Hp as (_&_&_&?&_)|].
    destruct Hp as [(_ & [] & _)|[? _]]; [congruence|done].
Qed.

Lemma object_references_balance_witness :
  wp (let* st := writeObject SampleObjects.binder_record false in freeData ;; ret st)
    (mkPS init_parcel SampleObjects.office) (fun st s' =>
    this s' = init_parcel /\ others s' = others (mkPS init_parcel SampleObjects.office) /\
    (st = NO_ERROR -> forall a, strong_count (world s') a =
                                held (mkPS init_parcel SampleObjects.office) a)).
Proof.
  apply (object_references_balance (mkPS init_parcel SampleObjects.office)
           SampleObjects.binder_record false).
  - apply init_parcel_wf.
  - reflexivity.
  - by vm_compute.
  - simpl; lia.
  - discriminate.
  - constructor.
  - unfold flat_valid, is_u32, is_u64. vm_compute. split_and!; try done.
Defined.

(** which records can be read.  On a parcel whose object table is in order,
    [readObject] returns the record at the position exactly when the position is
    in the table, or when a null binder is accepted and that is what is there;
    otherwise it returns null.  It consumes the record in every case where it
    fits. *)
Theorem readObject_exact (s : PS) (nullMetaData : bool) :
  wf (this s) -> Sorted Z.le (objs (this s)) ->
  wp (readObject nullMetaData) s (fun r s' =>
    wf (this s') /\ contents (this s') = contents (this s) /\ objs (this s') = objs (this s) /\
    if mDataSize (this s) <? mDataPos (this s) + sizeof_flat
    then r = None /\ mDataPos (this s') = mDataPos (this s)
    else mDataPos (this s') = mDataPos (this s) + sizeof_flat /\
         r = if null_object nullMetaData (flat_at (this s) (mDataPos (this s)))
                || bool_decide (mDataPos (this s) ∈ objs (this s))
             then Some (flat_at (this s) (mDataPos (this s))) else None).
Proof.
  intros Hwf Hs. wp_use readObject_ok; [done|]. intros r s' (-> & Hst & Ho).
  pose proof (aligned_state_stays _ _ _ Hwf Hst) as (_ & Hwf' & Hp).
  split_and!; [done|by rewrite (peq_contents _ _ Hp)|done|].
  unfold read_object_result, aligned_state in *.
  destruct (mDataSize (this s) <? mDataPos (this s) + 24); [by subst|].
  destruct Hst as (_ & _ & Hp2). rewrite (peq_pos _ _ Hp2). split; [done|].
  change (record_at (this s)) with (flat_at (this s) (mDataPos (this s))).
  destruct (null_object _ _); [done|]. simpl.
  destruct (found_at (objs (this s)) (mNextObjectHint (this s)) (mDataPos (this s))) as [r|] eqn:E.
  - rewrite bool_decide_true; [done|]. apply found_at_sound in E. apply list_elem_of_lookup. eauto.
  - rewrite bool_decide_false; [done|]. intros Hin.
    destruct (found_at_complete _ (mNextObjectHint (this s)) _ Hs ltac:(apply Hwf) Hin) as [r Hr].
    congruence.
Qed.

Lemma readObject_exact_witness :
  wp (readObject true) Sample.fresh (fun r s' =>
    wf (this s') /\ contents (this s') = [] /\ objs (this s') = [] /\
    if 0 <? 0 + sizeof_flat
    then r = None /\ mDataPos (this s') = 0
    else mDataPos (this s') = 0 + sizeof_flat /\
         r = if null_object true (flat_at init_parcel 0) || bool_decide (0 ∈ objs init_parcel)
             then Some (flat_at init_parcel 0) else None).
Proof. apply (readObject_exact Sample.fresh true); [apply init_parcel_wf|constructor]. Defined.

(** What [writeStrongBinder] has written is read back from where it starts. *)
Lemma read_written_binder `{RpcBinders} F s s1 s2 b o rep :
  wf (this s) -> mSession (this s) = None -> Sorted Z.le (objs (this s)) ->
  Forall (fun x => x + sizeof_flat <= mDataPos (this s)) (objs (this s)) ->
  binder_written s s1 b o rep -> world s2 = world s1 -> wf (this s2) ->
  peq (set_mDataPos (mDataPos (this s)) (this s1)) (this s2) -> objs (this s2) = objs (this s1) ->
  wpg F readNullableStrongBinder s2 (fun r s' => r = Good b /\ wf (this s')).
Proof.
  intros Hwf Hse Hs Hp [] Hw2 Hwf2 Hp2 Ho2. pose proof (ParcelInv.wf_pos _ Hwf).
  pose proof (zlen_contents _ Hwf) as Hzc. pose proof (flat_bytes_len o) as Hfl.
  assert (Forall (fun x => x <= mDataPos (this s)) (objs (this s))) as Hle
    by (eapply Forall_impl; [exact Hp|]; intros x Hx; cbv beta in *; lia).
  assert (mDataSize (this s1) = Z.max (mDataSize (this s)) (mDataPos (this s) + 28)) as Hsz.
  { rewrite <- (zlen_contents _ bw_wf), bw_contents, zlen_overwrite, zlen_app, Hfl, Hzc by lia. done. }
  rewrite bw_objs in Ho2. pose proof (peq_pos _ _ Hp2) as Hpos2. simpl in Hpos2.
  wp_use (unflattenBinder_ok _ s2 b o rep); try done.
  - rewrite <- bw_session in Hse. pose proof (peq_meta _ _ Hp2) as Hm. unfold meta in Hm. simpl in Hm.
    injection Hm as _ _ _ _ _ _ _ Hm. by rewrite Hm.
  - unfold denotes in *. by rewrite Hw2, bw_proxy.
  - rewrite (peq_pos _ _ Hp2), (peq_size _ _ Hp2). simpl. lia.
  - rewrite (peq_upcoming _ _ _ Hp2). unfold upcoming. simpl.
    change (contents (set_mDataPos _ (this s1))) with (contents (this s1)). rewrite bw_contents.
    change 28 with (24 + 4). rewrite <- Hfl, <- (zlen_le_bytes 4 rep : _ = 4), <- zlen_app.
    apply overwrite_slice. lia.
  - rewrite Ho2. destruct (tracked o false); [by apply sorted_snoc|by rewrite app_nil_r].
  - intros Ht. rewrite Ho2, Ht, Hpos2. apply elem_of_app. right. left.
  - rewrite Ho2, Hpos2. apply Forall_app. split.
    + eapply Forall_impl; [exact Hle|]. intros x Hx. by left.
    + destruct (tracked o false); repeat constructor. lia.
  - by rewrite Hw2.
  - by intros r s3 (-> & _ & Hwf3).
Qed.

(** a binder survives the parcel.  Writing a binder in the kernel format
    (a local object, a proxy of a driver handle, or null) after all the other
    objects of the parcel and reading it from where it was written, in the same
    process, gives the same binder, whose stability has been declared. *)
Theorem strong_binder_roundtrip `{RpcBinders} (s : PS) (b : option Z) :
  wf (this s) -> mOwner (this s) = None -> mSession (this s) = None -> fits (this s) 28 ->
  mObjectsSize (this s) <= INT32_MAX -> Sorted Z.le (objs (this s)) ->
  Forall (fun x => x + sizeof_flat <= mDataPos (this s)) (objs (this s)) ->
  ~ can_fail (world s) ->
  (forall a, b = Some a -> exists o, w_binders (world s) !! a = Some o /\ sendable (world s) a o) ->
  wp (let* pos := getp dataPosition in
      let* st := writeStrongBinder b in
      setDataPosition pos ;;
      let* r := readNullableStrongBinder in
      ret (st, r)) s
    (fun '(st, r) s' => st = OK /\ r = Good b /\ wf (this s')).
Proof.
  intros Hwf Ho Hse Hf Hn Hs Hp Hmem Hb. wp_steps. pose proof (ParcelInv.wf_pos _ Hwf).
  wp_use flattenBinder_kernel_ok; try done.
  { intros _. eapply Forall_impl; [exact Hp|]. intros x Hx. cbv beta in *. lia. }
  intros st s1 (-> & o & rep & Hw). wp_step. pose proof (bw_wf _ _ _ _ _ Hw) as Hwf1.
  apply setDataPosition_objs; [done| |].
  { unfold dataPosition. rewrite <- (zlen_contents _ Hwf1), (bw_contents _ _ _ _ _ Hw), zlen_overwrite, (zlen_contents _ Hwf)
      by (rewrite ?(zlen_contents _ Hwf); lia). lia. }
  intros s2 Hw2 Hwf2 Hp2 Ho2. wp_step. wp_use (read_written_binder False s s1 s2 b o rep); try done.
Qed.

Lemma strong_binder_roundtrip_witness :
  wp (let* pos := getp dataPosition in
      let* st := writeStrongBinder (Some 8192) in
      setDataPosition pos ;;
      let* r := readNullableStrongBinder in
      ret (st, r)) (mkPS init_parcel SampleObjects.office)
    (fun '(st, r) s' => st = OK /\ r = Good (Some 8192) /\ wf (this s')).
Proof.
  apply (strong_binder_roundtrip (mkPS init_parcel SampleObjects.office) (Some 8192)).
  - apply init_parcel_wf.
  - reflexivity.
  - reflexivity.
  - by vm_compute.
  - simpl; lia.
  - constructor.
  - constructor.
  - by intros [k [=]].
  - intros a [= <-]. exists SampleObjects.service. split; [reflexivity|].
    split; simpl; try lia; try discriminate. by left.
Defined.

(** [hasFileDescriptorsInRange] answers exactly: [BAD_VALUE] when the range
    is not inside the data, and otherwise whether some descriptor record of the
    object table lies entirely in the range.  (The table must be in order when
    the parcel says so, which is part of its invariant.) *)
Theorem hasFileDescriptorsInRange_exact (s : PS) (offset len : Z) :
  wf (this s) -> 0 <= offset -> 0 <= len ->
  wp (hasFileDescriptorsInRange offset len) s (fun r s' => s' = s /\
    if mDataSize (this s) <? offset + len then r = Err BAD_VALUE
    else exists b, r = Good b /\ (b = true <->
      exists off, off ∈ objs (this s) /\ offset <= off /\ off + sizeof_flat <= offset + len /\
        f_type (flat_at (this s) off) = BINDER_TYPE_FD)).
Proof.
  intros Hwf Ho Hl. wp_use hasFileDescriptorsInRange_ok; [done..|]. intros r s' [-> ->].
  split; [done|]. destruct (_ <? _); [done|]. eexists. split; [done|].
  rewrite existsb_exists. unfold fd_in_range. split; intros (off & H1 & H2); exists off.
  - apply list_elem_of_In in H1. zb. done.
  - apply list_elem_of_In in H1. split; [done|]. destruct H2 as (H2 & H3 & H4).
    rewrite H4, Z.eqb_refl. zdec (offset <=? off). by zdec (off + 24 <=? offset + len).
Qed.

Lemma hasFileDescriptorsInRange_exact_witness :
  wp (hasFileDescriptorsInRange 0 0) Sample.fresh (fun r s' => s' = Sample.fresh /\
    if 0 <? 0 + 0 then r = Err BAD_VALUE
    else exists b, r = Good b /\ (b = true <->
      exists off, off ∈ objs init_parcel /\ 0 <= off /\ off + sizeof_flat <= 0 + 0 /\
        f_type (flat_at init_parcel off) = BINDER_TYPE_FD)).
Proof.
  apply (hasFileDescriptorsInRange_exact Sample.fresh 0 0); [apply init_parcel_wf|lia|lia].
Defined.

(** * Where the code falls short *)

Abbreviation empty_office := (mkPS init_parcel SampleObjects.office).

(** replacing the data of a parcel that holds objects.  [restartWrite]
    reallocates the buffer and only then releases the objects, whose records it
    reads through the freed pointer: [setData] on a parcel with an object is a
    use after free. *)
Theorem setData_uses_freed_memory :
  (writeFileDescriptor 1 true ;; setData [1; 2; 3; 4] 4) empty_office = Fault.
Proof. by vm_compute. Qed.

(** a received parcel whose objects were rejected.  [ipcSetDataReference]
    zeroes the object count but not the capacity; [writeObject] then believes
    there is room, while growing the data has replaced the table by none: the
    new entry is stored through a null pointer. *)
Theorem writeObject_stale_object_room :
  (ipcSetDataReference (Some (zeros 24)) 24 [0] (freeBuffer 4096) ;;
   setDataPosition 24 ;;
   writeFileDescriptor 1 false) empty_office = Fault.
Proof. by vm_compute. Qed.

(** an object written after a read.  A read marks the object table as
    sorted; [writeObject] appends to it without clearing the mark.  When the new
    record lies before an older one, [hasFileDescriptorsInRange] stops early and
    denies a descriptor that is there. *)
Theorem fd_hidden_by_stale_sorted_mark :
  match (writeFileDescriptor 0 false ;; setDataPosition 100 ;; writeFileDescriptor 1 false ;;
         setDataPosition 24 ;; readInt32 ;; writeFileDescriptor 1 false ;;
         let* r := hasFileDescriptorsInRange 24 40 in
         let* flat := load_flat 28 in
         ret (r, f_type flat)) empty_office with
  | Ret (r, type) s' => r = Good false /\ type = BINDER_TYPE_FD /\ 28 ∈ objs (this s')
  | _ => False
  end.
Proof. vm_compute. split_and!; [done|done|]. do 2 right. left. Qed.

(** A parcel whose object table is out of order: records at 0, 150 and 24. *)
Definition shuffled : Parcel :=
  match (setDataCapacity 256 ;; writeInplace 200 ;; setDataPosition 0 ;;
         writeFileDescriptor 0 false ;; setDataPosition 150 ;; writeFileDescriptor 1 false ;;
         setDataPosition 24 ;; writeFileDescriptor 1 false) empty_office with
  | Ret _ s => this s
  | _ => init_parcel
  end.

(** copying from a parcel whose objects are out of order.  [appendFrom]
    copies every table entry between the first and the last one in the range,
    also those whose record is outside it: the copy reads past its own data. *)
Theorem appendFrom_copies_foreign_entries :
  objs shuffled = [0; 150; 24] /\ appendFrom shuffled 0 48 empty_office = Fault.
Proof. split; by vm_compute. Qed.
