(* ===== verification/ParcelIpcProps.v ===== *)
(** The properties of received parcels and of the call header. *)

From S2P Require Import Prelude Errors ParcelState ParcelWrite ParcelRead ParcelInv ParcelWriteSpec.
From S2P Require Import ParcelReadSpec ParcelDataSpec ParcelProps Stability ThreadState.
From S2P Require Import ParcelObject ParcelIpc ParcelObjectSpec.
From Stdlib Require Import Sorting.Sorted Sorting.Permutation.

(** * The interface token *)

(** Bytes added at the position, whatever happens to the header fields. *)
Record appended (p p' : Parcel) (bs : bytes) : Prop := {
  ap_wf : wf p';
  ap_pos : mDataPos p' = mDataPos p + zlen bs;
  ap_contents : contents p' = overwrite (contents p) (mDataPos p) bs;
  ap_objs : objs p' = objs p;
}.

Lemma wrote_appended p p' bs : wrote p p' bs -> appended p p' bs.
Proof. intros []. by split. Qed.

Lemma appended_app p p1 p2 a b : wf p -> appended p p1 a -> appended p1 p2 b -> appended p p2 (a ++ b).
Proof.
  intros Hwf [H1 H2 H3 H4] [H5 H6 H7 H8]. split; [done| | |congruence].
  - rewrite zlen_app. lia.
  - rewrite H7, H3, H2. apply overwrite_app. rewrite zlen_contents by done. apply (wf_pos _ Hwf).
Qed.

Lemma appended_size p p' bs :
  wf p -> appended p p' bs -> mDataSize p' = Z.max (mDataSize p) (mDataPos p + zlen bs).
Proof.
  intros Hwf [H1 H2 H3 H4]. rewrite <- (zlen_contents p'), H3 by done.
  pose proof (wf_pos _ Hwf). pose proof (zlen_contents _ Hwf).
  rewrite zlen_overwrite by lia. lia.
Qed.

Lemma fits_appended p p' a n :
  wf p -> appended p p' a -> 0 <= n -> fits p (zlen a + n) -> fits p' n.
Proof.
  intros Hwf Ha Hn Hf. unfold fits in *. rewrite (appended_size _ _ _ Hwf Ha).
  pose proof (wf_pos _ Hwf). pose proof (zlen_nonneg a).
  etransitivity; [|exact Hf]. apply Z.div_le_mono; lia.
Qed.

Lemma update_header_wf p :
  wf p -> wf (set_mRequestHeaderPresent true (set_mWorkSourceRequestHeaderPosition (dataPosition p) p)).
Proof. intros []. by split. Qed.

Lemma update_header_appended F s Q :
  wf (this s) ->
  (forall s', world s' = world s -> appended (this s) (this s') [] ->
     mSession (this s') = mSession (this s) -> Q tt s') ->
  wpg F updateWorkSourceRequestHeaderPosition s Q.
Proof.
  intros Hwf HQ. unfold updateWorkSourceRequestHeaderPosition. wp_step.
  pose proof (wr_contents _ _ _ (wrote_nil _ Hwf)) as Hc. change (zlen (@nil Z)) with 0 in *.
  apply HQ; [done| |simpl; by destruct (mRequestHeaderPresent (this s))]. simpl.
  destruct (mRequestHeaderPresent (this s)).
  - split; [done| |done|done]. change (zlen (@nil Z)) with 0. lia.
  - split; [by apply update_header_wf| |done|done]. simpl. change (zlen (@nil Z)) with 0. lia.
Qed.

(** A write with enough memory, followed by more. *)
Lemma write_next F s m bs Q :
  wpg F m s (write_post s bs) -> ~ can_fail (world s) ->
  (forall s', balanced s s' -> appended (this s) (this s') bs ->
     mSession (this s') = mSession (this s) -> ~ can_fail (world s') -> Q NO_ERROR s') ->
  wpg F m s Q.
Proof.
  intros Hm Hmem HQ. wp_use Hm. intros st s' [Hb [[-> Hw]|[_ []]]]; [|done].
  apply HQ; [done|by apply wrote_appended| |].
  - pose proof (wr_meta _ _ _ Hw) as Hme. unfold meta in Hme. by injection Hme.
  - intros Hc. apply Hmem. by eapply balanced_can_fail.
Qed.

(** The header of a call in the kernel format. *)
Definition token_bytes (t : ThreadState) (interface : list Z) : bytes :=
  le_bytes 4 (Z.lor (getStrictModePolicy t) STRICT_MODE_PENALTY_GATHER) ++
  le_bytes 4 (if shouldPropagateWorkSource t then s32 (getCallingWorkSourceUid t)
              else kUnsetWorkSource) ++
  le_bytes 4 kHeader ++ string16_bytes interface.

Lemma writeInterfaceToken_ok F s interface :
  wf (this s) -> mSession (this s) = None -> ~ can_fail (world s) ->
  fits (this s) (zlen (token_bytes (w_thread (world s)) interface)) ->
  wpg F (writeInterfaceToken interface) s (fun st s' => st = OK /\
    w_thread (world s') = w_thread (world s) /\ mSession (this s') = None /\
    appended (this s) (this s') (token_bytes (w_thread (world s)) interface)).
Proof.
  intros Hwf Hse Hmem Hf. unfold writeInterfaceToken, isForRpc, token_bytes in *.
  set (x := Z.lor _ _) in *. set (y := if shouldPropagateWorkSource _ then _ else _) in *.
  pose proof (zlen_nonneg (string16_bytes interface)).
  rewrite !zlen_app, !zlen_le_bytes in Hf. change (Z.of_nat 4) with 4 in Hf.
  wp_steps. rewrite Hse. cbv iota. do 3 wp_step. fold x.
  eapply write_next; [apply writeInt32_ok; [done|eapply fits_le; [exact Hf|lia]]|done|].
  intros s1 Hb1 Ha1 Hs1 Hm1. wp_step. eapply update_header_appended; [apply Ha1|].
  intros s2 Hw2 Ha2 Hs2. wp_step. 
  assert (appended (this s) (this s2) (le_bytes 4 x)) as Ha12.
  { rewrite <- (app_nil_r (le_bytes 4 x)). by eapply appended_app. }
  eapply (write_next F s2 _ (le_bytes 4 y)); [apply writeInt32_ok; [apply Ha2|]|by rewrite Hw2|].
  { eapply fits_appended; [exact Hwf|exact Ha12|lia|]. zl. eapply fits_le; [exact Hf|]. lia. }
  intros s3 Hb3 Ha3 Hs3 Hm3. wp_step.
  assert (appended (this s) (this s3) (le_bytes 4 x ++ le_bytes 4 y)) as Ha13 by (by eapply appended_app).
  eapply (write_next F s3); [apply writeInt32_ok; [apply Ha3|]|done|].
  { eapply fits_appended; [exact Hwf|exact Ha13|lia|]. zl. eapply fits_le; [exact Hf|]. lia. }
  intros s4 Hb4 Ha4 Hs4 Hm4. wp_step.
  assert (appended (this s) (this s4) ((le_bytes 4 x ++ le_bytes 4 y) ++ le_bytes 4 kHeader)) as Ha14
    by (by eapply appended_app).
  eapply (write_next F s4); [apply writeString16_ok; [apply Ha4|]|done|].
  { eapply fits_appended; [exact Hwf|exact Ha14|lia|]. zl. eapply fits_le; [exact Hf|]. lia. }
  intros s5 Hb5 Ha5 Hs5 Hm5. split_and!; [done| |congruence|].
  - destruct Hb1 as [[_ _ _ T1 _ _] _], Hb3 as [[_ _ _ T3 _ _] _], Hb4 as [[_ _ _ T4 _ _] _],
      Hb5 as [[_ _ _ T5 _ _] _]. rewrite Hw2 in T3. congruence.
  - replace (le_bytes 4 x ++ le_bytes 4 y ++ le_bytes 4 kHeader ++ string16_bytes interface)
      with (((le_bytes 4 x ++ le_bytes 4 y) ++ le_bytes 4 kHeader) ++ string16_bytes interface)
      by (by rewrite <- !app_assoc).
    by eapply appended_app.
Qed.

(** What a reader can rely on does not include the header fields. *)
Lemma avail_appended p q bs : wf p -> avail p bs -> appended p q [] -> avail q bs.
Proof.
  intros Hwf [] Ha. pose proof (appended_size _ _ _ Hwf Ha) as Hs. pose proof (wf_pos _ Hwf).
  destruct Ha as [_ Hp Hc Ho]. change (zlen (@nil Z)) with 0 in *.
  assert (contents q = contents p) as Ec.
  { rewrite Hc. symmetry. apply (wr_contents _ _ _ (wrote_nil _ Hwf)). }
  rewrite Z.add_0_r in Hp. split.
  - rewrite Hp, Hs. lia.
  - unfold upcoming. by rewrite Ec, Hp.
  - unfold clear. by rewrite Ho, Hp.
Qed.

Lemma lor_gather p : Z.lor p STRICT_MODE_PENALTY_GATHER = p mod 2147483648 - 2147483648.
Proof.
  pose proof (Z.add_lor_land p STRICT_MODE_PENALTY_GATHER) as H.
  change (Z.land p STRICT_MODE_PENALTY_GATHER) with (Z.land p (Z.lnot (Z.ones 31))) in H.
  rewrite <- Z.ldiff_land, Z.ldiff_ones_r, Z.shiftl_mul_pow2, Z.shiftr_div_pow2 in H by lia.
  change (2 ^ 31) with 2147483648 in H. unfold STRICT_MODE_PENALTY_GATHER in *.
  pose proof (Z.div_mod p 2147483648). lia.
Qed.

Lemma policy_s32 p : is_s32 (Z.lor p STRICT_MODE_PENALTY_GATHER).
Proof.
  rewrite lor_gather. pose proof (Z.mod_pos_bound p 2147483648). unfold is_s32. lia.
Qed.

(** The thread state after a header has been accepted. *)
Definition enforced (t : ThreadState) (policy work : Z) : ThreadState :=
  mkThreadState (if Z.land (mLastTransactionBinderFlags t) FLAG_ONEWAY =? 0 then policy else 0)
    work (mPropagateWorkSource t) (mLastTransactionBinderFlags t) (mBackgroundSchedulingDisabled t).

Lemma read_int_next F s x rest Q :
  wf (this s) -> avail (this s) (le_bytes 4 x ++ rest) -> is_s32 x ->
  (forall s', world s' = world s -> wf (this s') -> avail (this s') rest ->
     mSession (this s') = mSession (this s) -> Q x s') ->
  wpg F readInt32_ s Q.
Proof.
  intros Hwf Hav Hx HQ. wp_use (readInt32_decodes_ x); [done|done|by eapply avail_app|].
  intros r s1 [-> Hc]. apply HQ; [apply Hc|apply Hc|by eapply avail_rest|].
  destruct Hc as (_ & _ & Hp). pose proof (peq_meta _ _ Hp) as Hm. unfold meta in Hm. by injection Hm.
Qed.

Lemma enforceInterface_ok F s policy work written expected :
  wf (this s) -> mSession (this s) = None -> is_s32 policy -> is_s32 work ->
  avail (this s) (le_bytes 4 policy ++ le_bytes 4 work ++ le_bytes 4 kHeader ++
                  string16_bytes written) ->
  Forall is_u16 written -> 2 * zlen written + 2 <= INT32_MAX ->
  wpg F (enforceInterface expected) s (fun r s' =>
    r = bool_decide (expected = written) /\
    w_thread (world s') = enforced (w_thread (world s)) policy work /\ wf (this s')).
Proof.
  intros Hwf Hse Hpo Hwo Hav Hwr Hl. unfold enforceInterface, isForRpc, mod_thread. wp_steps.
  rewrite Hse. cbv iota. wp_step.
  eapply read_int_next; [done|exact Hav|done|]. intros s1 Hw1 Hwf1 Hav1 _. wp_steps.
  eapply update_header_appended; [done|]. simpl. intros s2 Hw2 Ha2 _. wp_step.
  eapply read_int_next; [apply Ha2|by eapply avail_appended|done|]. intros s3 Hw3 Hwf3 Hav3 _.
  wp_steps. eapply (read_int_next F (mkPS (this s3) _) kHeader); [done|exact Hav3|by vm_compute|]. simpl.
  intros s4 Hw4 Hwf4 Hav4 _. wp_step. cbn [negb].
  wp_step. eapply readString16Inplace_ok; [done|done|done|]. intros s5 off Hc5 Hr5.
  assert (w_thread (world s5) = enforced (w_thread (world s)) policy work) as Ht.
  { destruct Hc5 as (-> & _). rewrite Hw4. simpl. rewrite Hw3, Hw2. simpl. rewrite Hw1.
    unfold enforced, setStrictModePolicy, getLastTransactionBinderFlags.
    rewrite s32_u32 by done.
    by destruct (Z.land (mLastTransactionBinderFlags (w_thread (world s))) FLAG_ONEWAY =? 0). }
  destruct (Z.eqb_spec (zlen expected) (zlen written)) as [He|He].
  - wp_step. eapply load_chars_ok; [done|exact Hr5|]. wp_step. split_and!; [|done|apply Hc5].
    by apply bool_decide_ext.
  - wp_step. split_and!; [|done|apply Hc5]. symmetry. apply bool_decide_false. congruence.
Qed.

Lemma appended_avail p p' q bs :
  wf p -> appended p p' bs -> clear p (zlen bs) -> peq (set_mDataPos (mDataPos p) p') q ->
  avail q bs.
Proof.
  intros Hwf Ha Hcl Hp. pose proof (wf_pos _ Hwf). pose proof (appended_size _ _ _ Hwf Ha) as Hs.
  eapply peq_avail; [exact Hp|]. destruct Ha as [_ _ Hc Ho]. split; simpl.
  - lia.
  - unfold upcoming. simpl. change (contents (set_mDataPos _ p')) with (contents p').
    rewrite Hc. apply overwrite_slice. rewrite zlen_contents by done. lia.
  - unfold clear in *. change (objs (set_mDataPos _ p')) with (objs p'). by rewrite Ho.
Qed.

(** the interface token.  A header written with [writeInterfaceToken] and
    read back by [enforceInterface] is accepted exactly when the two interface
    names are equal; the reader's thread takes over the sender's strict-mode
    policy with the gather bit (or none for a one-way call) and its work source,
    unset unless the sender propagates it. *)
Theorem interface_token_enforced (s : PS) (sent expected : list Z) :
  let t := w_thread (world s) in
  wf (this s) -> mSession (this s) = None -> ~ can_fail (world s) ->
  fits (this s) (zlen (token_bytes t sent)) -> clear (this s) (zlen (token_bytes t sent)) ->
  Forall is_u16 sent -> is_s32 (mWorkSource t) ->
  wp (let* pos := getp dataPosition in
      let* st := writeInterfaceToken sent in
      setDataPosition pos ;;
      let* ok := enforceInterface expected in
      ret (st, ok)) s
    (fun '(st, ok) s' => st = OK /\ ok = bool_decide (expected = sent) /\
       w_thread (world s') =
         enforced t (Z.lor (mStrictModePolicy t) STRICT_MODE_PENALTY_GATHER)
           (if mPropagateWorkSource t then mWorkSource t else kUnsetWorkSource)).
Proof.
  intros t Hwf Hse Hmem Hf Hcl H16 Hws. pose proof (wf_pos _ Hwf). wp_steps.
  wp_use writeInterfaceToken_ok; [done..|]. intros st s1 (-> & Ht1 & Hs1 & Ha). wp_step.
  apply setDataPosition_ok; [apply Ha|rewrite (appended_size _ _ _ Hwf Ha); unfold dataPosition; lia|].
  intros s2 Hw2 Hwf2 Hp2. wp_step. fold t in Ht1, Ha.
  pose proof (appended_avail _ _ _ _ Hwf Ha Hcl Hp2) as Hav. unfold token_bytes in Hav.
  assert (s32 (getCallingWorkSourceUid t) = mWorkSource t) as Hws2 by (by apply s32_u32).
  unfold shouldPropagateWorkSource in Hav. rewrite Hws2 in Hav.
  eapply wpg_mono; [eapply enforceInterface_ok; [done| | | |exact Hav|done|]|].
  - pose proof (peq_meta _ _ Hp2) as Hm. unfold meta in Hm. injection Hm as _ _ _ _ _ _ _ Hm.
    rewrite Hm. done.
  - apply policy_s32.
  - destruct (mPropagateWorkSource t); [done|by vm_compute].
  - pose proof (fits_bound _ _ Hwf Hf) as Hb. unfold token_bytes, string16_bytes in Hb.
    rewrite !zlen_app, zlen_padded, zlen_app, zlen_array_bytes, !zlen_le_bytes in Hb.
    match type of Hb with context [padz ?x] => pose proof (padz_ge x) end. zl. lia.
  - intros r s3 (-> & Ht3 & _). wp_step. split_and!; [done|done|]. by rewrite Ht3, Hw2, Ht1.
Qed.

Lemma interface_token_enforced_witness :
  wp (let* pos := getp dataPosition in
      let* st := writeInterfaceToken [97; 46; 73] in
      setDataPosition pos ;;
      let* ok := enforceInterface [97; 46; 73] in
      ret (st, ok)) Sample.fresh
    (fun '(st, ok) s' => st = OK /\ ok = bool_decide ([97; 46; 73] = [97; 46; 73]) /\
       w_thread (world s') =
         enforced Sample.thread (Z.lor 0 STRICT_MODE_PENALTY_GATHER)
           (if mPropagateWorkSource Sample.thread then -1 else kUnsetWorkSource)).
Proof.
  apply (interface_token_enforced Sample.fresh [97; 46; 73] [97; 46; 73]).
  - apply init_parcel_wf.
  - reflexivity.
  - apply Sample.calm_allocates.
  - by vm_compute.
  - constructor.
  - repeat constructor; unfold is_u16; lia.
  - by vm_compute.
Defined.

(** * Received data *)

Definition known_type (o : flat_binder_object) : Prop :=
  f_type o = BINDER_TYPE_BINDER \/ f_type o = BINDER_TYPE_HANDLE \/ f_type o = BINDER_TYPE_FD.

(** Offsets from [min] on, in order, their records disjoint and of known types. *)
Fixpoint in_order (p : Parcel) (min : Z) (l : list Z) : Prop :=
  match l with
  | [] => True
  | o :: l' => min <= o /\ known_type (flat_at p o) /\ in_order p (o + sizeof_flat) l'
  end.

Lemma in_order_sorted p min l : in_order p min l -> Sorted Z.le l.
Proof.
  revert min. induction l as [|o l IH]; intros min; simpl; [constructor|].
  intros (_ & _ & H). constructor; [by eapply IH|].
  destruct l as [|o' l]; constructor. destruct H as (H & _). lia.
Qed.

Lemma in_order_ext p q min l : contents q = contents p -> in_order p min l -> in_order q min l.
Proof.
  intros E. revert min. induction l as [|o l IH]; intros min; simpl; [done|].
  unfold flat_at. rewrite E. intros (H1 & H2 & H3). auto.
Qed.

(** The loop reads records through a block of the received size. *)
Lemma check_objects_ok F s d l min :
  data_block (this s) = d -> zlen d <= INT32_MAX -> mDataSize (this s) = zlen d ->
  Forall (fun o => 0 <= o /\ o + sizeof_flat <= zlen d) l ->
  wpg F (check_objects l min) s (fun ok s' => s' = s /\ (ok = true -> in_order (this s) min l)).
Proof.
  intros Hd Hmax Hsz. revert min. induction l as [|o l IH]; intros min Hl; cbn [check_objects].
  { by wp_step. }
  inversion Hl as [|? ? [H1 H2] Hl']; subst. zcase (o <? min); [by wp_step|].
  assert (flat_of_bytes (ztake 24 (zdrop o (data_block (this s)))) = flat_at (this s) o) as Ef.
  { unfold flat_at. f_equal. symmetry. apply slice_ext; [lia..|]. intros i Hi.
    unfold contents. apply byte_at_ztake. lia. }
  unfold load_flat. do 2 wp_step. apply load_ok; [lia..|]. wp_step. rewrite Ef, u64_small by lia.
  destruct (_ || _) eqn:Et; [|by wp_step].
  wp_use IH; [done|]. intros ok s' [-> Hok]. split; [done|]. intros Ht. split_and!; [lia| |auto].
  unfold known_type. repeat (apply orb_prop in Et as [Et|Et]); zb; auto.
Qed.

(** The parcel a reference is set on, before its objects are checked. *)
Definition referencing (data : bytes) (objects : list Z) (r : release_func) : Parcel :=
  set_mOwner (Some r) (set_mObjectsCapacity (zlen objects) (set_mObjectsSize (zlen objects)
    (set_mObjects objects (set_mDataCapacity (zlen data) (set_mDataSize (zlen data)
      (set_mData (Some data) init_parcel)))))).

Lemma referencing_wf data objects r n :
  Forall is_byte data -> zlen data <= INT32_MAX ->
  Forall (fun o => 0 <= o /\ o + sizeof_flat <= zlen data) objects ->
  (r = cleanup_reply_data -> objects = []) -> n = 0 \/ n = zlen objects ->
  wf (set_mObjectsSize n (referencing data objects r)).
Proof.
  intros Hb Hmax Ho Hr Hn. pose proof (zlen_nonneg data). pose proof (zlen_nonneg objects).
  split; unfold referencing, objs, data_block; simpl; try done; try lia.
  - destruct Hn as [-> | ->]; [constructor|]. by rewrite ztake_ge by lia.
  - intros [= ->]. auto.
Qed.

(** Setting a reference to received data. *)
Lemma ipcSetDataReference_ok F (s : PS) (data : bytes) (objects : list Z) (r : release_func) :
  wf (this s) -> Forall is_byte data -> zlen data <= INT32_MAX ->
  Forall (fun o => 0 <= o /\ o + sizeof_flat <= zlen data) objects ->
  (r = cleanup_reply_data -> objects = []) ->
  wpg F (ipcSetDataReference (Some data) (zlen data) objects r) s (fun _ s' =>
    wf (this s') /\ contents (this s') = data /\ mDataPos (this s') = 0 /\
    mOwner (this s') = Some r /\ others s' = others s /\
    (objs (this s') = [] \/ (objs (this s') = objects /\ in_order (this s') 0 objects))).
Proof.
  intros Hwf Hb Hmax Ho Hr. pose proof (zlen_nonneg data). unfold ipcSetDataReference. wp_step.
  wp_use freeData_ok; [done|]. intros [] s1 (E1 & Ho1 & _). do 3 wp_step. rewrite E1.
  fold (referencing data objects r). set (p := referencing data objects r).
  assert (contents p = data) as Hc by (apply ztake_ge; done).
  wp_use (check_objects_ok _ (mkPS p (world s1)) data); [done|done|done|done|].
  intros ok s2 [-> Hok]. wp_step.
  eapply wpg_mono with (P := fun _ s3 => exists n, s3 = mkPS (set_mObjectsSize n p) (world s1) /\
    (n = 0 \/ n = zlen objects /\ in_order p 0 objects)).
  { destruct ok; wp_step.
    - exists (zlen objects). split; [done|]. right. auto.
    - exists 0. split; [done|]. by left. }
  intros [] s3 (n & -> & Hn). set (q := set_mObjectsSize n p).
  assert (wf q) as Hq by (apply referencing_wf; try done; tauto).
  unfold scanForFds. do 3 wp_step.
  wp_use hasFileDescriptorsInRange_ok; [done|lia|unfold dataSize; simpl; destruct (_ <? _); lia|].
  intros res s4 [-> ->]. wp_step.
  eapply wpg_mono with (P := fun _ s4 => exists b, s4 = mkPS (set_mHasFds b q) (world s1)).
  { destruct (_ <? _); wp_step; eexists; [|done]. instantiate (1 := mHasFds q).
    f_equal; by destruct q. }
  intros [] s4 [b ->]. wp_step.
  split_and!; simpl; try done.
  - destruct Hq. by split.
  - rewrite <- Ho1. unfold others, owned_bytes, owned_count; simpl. by rewrite E1.
  - destruct Hn as [-> |[-> Hord]]; [by left|right]. split; [by apply ztake_ge|].
    by apply (in_order_ext p).
Qed.

(** data received by reference.  When the driver delivers a buffer whose
    object offsets lie inside it, [ipcSetDataReference] first frees what the
    parcel held, and leaves a well-formed parcel over exactly that buffer, at
    position 0, owned by the given release function; its objects are either all
    of the received ones, in order, disjoint and of known types, or none. *)
Theorem ipcSetDataReference_safe (s : PS) (data : bytes) (objects : list Z) (r : release_func) :
  wf (this s) -> Forall is_byte data -> zlen data <= INT32_MAX ->
  Forall (fun o => 0 <= o /\ o + sizeof_flat <= zlen data) objects ->
  (r = cleanup_reply_data -> objects = []) ->
  wp (ipcSetDataReference (Some data) (zlen data) objects r) s (fun _ s' =>
    wf (this s') /\ contents (this s') = data /\ mDataPos (this s') = 0 /\
    mOwner (this s') = Some r /\ others s' = others s /\
    (objs (this s') = [] \/ (objs (this s') = objects /\ in_order (this s') 0 objects))).
Proof. apply ipcSetDataReference_ok. Qed.

Lemma ipcSetDataReference_safe_witness :
  wp (ipcSetDataReference (Some (zeros 32)) (zlen (zeros 32)) [4] (freeBuffer 4096)) Sample.fresh (fun _ s' =>
    wf (this s') /\ contents (this s') = zeros 32 /\ mDataPos (this s') = 0 /\
    mOwner (this s') = Some (freeBuffer 4096) /\ others s' = others Sample.fresh /\
    (objs (this s') = [] \/ (objs (this s') = [4] /\ in_order (this s') 0 [4]))).
Proof.
  apply (ipcSetDataReference_safe Sample.fresh (zeros 32) [4] (freeBuffer 4096)).
  - apply init_parcel_wf.
  - apply Forall_zeros.
  - by vm_compute.
  - constructor; [by vm_compute|constructor].
  - discriminate.
Defined.
