(* ===== verification/ParcelFrame.v ===== *)
(** What the methods of a Parcel leave alone.

    [pres P m]: every run of [m] that returns keeps [P].  A view of the world
    that does not depend on the allocator, the reference counts, the descriptors
    or the log of owner callbacks ([Outside]) is kept by the buffer operations,
    the reads and the writes. *)

From S2P Require Import Prelude Errors ParcelState ParcelWrite ParcelRead ParcelObject ParcelIpc.

(** * Partial runs *)

(** What every run that returns keeps. *)
Definition pres {S A} (P : S -> Prop) (m : M S A) : Prop :=
  forall s a s', P s -> m s = Ret a s' -> P s'.

Section Pres.
Context {S : Type} (P : S -> Prop).

Lemma pres_ret {A} (a : A) : pres P (ret a).
Proof. by intros s b s' Hs [= <- <-]. Qed.
Lemma pres_bind {A B} (m : M S A) (k : A -> M S B) :
  pres P m -> (forall a, pres P (k a)) -> pres P (bind m k).
Proof.
  intros Hm Hk s b s' Hs. unfold bind. destruct (m s) as [a s1| |] eqn:E; [|done..].
  intros Hr. by eapply Hk; [eapply Hm|].
Qed.
Lemma pres_gets {A} (f : S -> A) : pres P (gets f).
Proof. by intros s b s' Hs [= <- <-]. Qed.
Lemma pres_get : pres P get.
Proof. by intros s b s' Hs [= <- <-]. Qed.
Lemma pres_modify f : (forall s, P s -> P (f s)) -> pres P (modify f).
Proof. intros Hf s b s' Hs [= <- <-]. auto. Qed.
Lemma pres_require {A} (o : option A) : pres P (require o).
Proof. destruct o; [apply pres_ret|]. by intros s b s' Hs [=]. Qed.
Lemma pres_fatal {A} : pres P (fatal : M S A).
Proof. by intros s b s' Hs [=]. Qed.
Lemma pres_fault {A} : pres P (fault : M S A).
Proof. by intros s b s' Hs [=]. Qed.
Lemma pres_fatal_if b : pres P (fatal_if b).
Proof. destruct b; [apply pres_fatal|apply pres_ret]. Qed.
Lemma pres_for_each {A} (l : list A) (f : A -> M S unit) :
  (forall a, pres P (f a)) -> pres P (for_each l f).
Proof. intros Hf. induction l; cbn; [apply pres_ret|]. by apply pres_bind. Qed.
End Pres.

Create HintDb pres discriminated.
#[export] Hint Resolve pres_ret pres_gets pres_get pres_require pres_fatal pres_fault pres_fatal_if : pres.

(** Walk through the code, splitting on its tests. *)
Ltac pres :=
  repeat first
  [ solve [auto with pres]
  | apply pres_bind; [|intros ?]
  | apply pres_for_each; intros ?
  | match goal with
    | |- pres _ (match ?x with _ => _ end) => destruct x
    | |- pres _ (let _ := _ in _) => cbv zeta
    end ].

Lemma wpg_pres {S A} F (P : S -> Prop) (m : M S A) s (Q : A -> S -> Prop) :
  pres P m -> P s -> wpg F m s Q -> wpg F m s (fun a s' => Q a s' /\ P s').
Proof.
  intros Hm Hp. unfold wpg. destruct (m s) as [a s'| |] eqn:E; [|done..]. intros HQ. split; [done|].
  by eapply Hm.
Qed.

(** * A Parcel that owns its data goes on owning it *)

Definition unowned (s : PS) : Prop := mOwner (this s) = None.

Ltac unowned := intros ? ?; unfold unowned in *; cbn in *; repeat case_match; done.
Lemma pres_unowned_modify f : (forall s, unowned s -> unowned (f s)) -> pres unowned (modify f).
Proof. apply pres_modify. Qed.
#[export] Hint Extern 2 (pres unowned (modify _)) => (apply pres_modify; unowned) : pres.

Lemma alloc_unowned {A} (mk : (nat -> Z) -> A) : pres unowned (alloc mk).
Proof. unfold alloc. pres. Qed.
Lemma load_unowned off len : pres unowned (load off len).
Proof. unfold load. pres. Qed.
Lemma store_unowned off bs : pres unowned (store off bs).
Proof. unfold store. pres. Qed.
#[export] Hint Resolve alloc_unowned load_unowned store_unowned : pres.

Lemma objects_unowned n : pres unowned (objects_upto n).
Proof. unfold objects_upto. pres. Qed.
Lemma acquire_unowned o : pres unowned (acquire_object o).
Proof. unfold acquire_object, incStrong. pres. Qed.
Lemma release_unowned o : pres unowned (release_object o).
Proof. unfold release_object, decStrong, close. pres. Qed.
#[export] Hint Resolve objects_unowned acquire_unowned release_unowned : pres.

Lemma continueWrite_unowned n : pres unowned (continueWrite n).
Proof.
  unfold continueWrite, continueWrite_owner, continueWrite_owned, continueWrite_first, freeData,
    freeDataNoInit, initState, call_owner, releaseObjects, acquireObjects, closeFileDescriptors, drop_objects,
    reallocZeroFree, malloc, realloc, calloc_objects, realloc_objects, add_alloc_size, add_alloc_count,
    free_block, zeroMemory, load_flat, close.
  pres.
Qed.
#[export] Hint Resolve continueWrite_unowned : pres.

Lemma growData_unowned n : pres unowned (growData n).
Proof. unfold growData. pres. Qed.
#[export] Hint Resolve growData_unowned : pres.

Lemma writeAligned_unowned n v : pres unowned (writeAligned n v).
Proof. unfold writeAligned, write_here, finishWrite. pres. Qed.
Lemma write_unowned d n : pres unowned (write d n).
Proof. unfold write, writeInplace, writeInplace_here, finishWrite, pad_size. pres. Qed.
#[export] Hint Resolve writeAligned_unowned write_unowned : pres.

(** * Views of the world outside *)

Class Outside {X : Type} (f : World -> X) : Prop := {
  out_mallocs w x : f (set_w_mallocs x w) = f w;
  out_freed w x : f (set_w_freed x w) = f w;
  out_alloc_size w x : f (set_gParcelGlobalAllocSize x w) = f w;
  out_alloc_count w x : f (set_gParcelGlobalAllocCount x w) = f w;
  out_max_fds w x : f (set_gMaxFds x w) = f w;
  out_strong w x : f (set_w_strong x w) = f w;
  out_fds w x : f (set_w_fds x w) = f w;
  out_released w x : f (set_w_released x w) = f w;
}.

#[export] Instance outside_thread : Outside w_thread.
Proof. by split. Qed.
#[export] Instance outside_binders : Outside (fun w => (w_rpc w, w_binders w)).
Proof. by split. Qed.

#[export] Hint Extern 1 (Outside _) => typeclasses eauto : pres.

Definition kept {X} (f : World -> X) (x : X) (s : PS) : Prop := f (world s) = x.

Ltac kept_same :=
  let s := fresh "s" in let H := fresh "H" in
  intros s H; unfold kept, add_strong in *; cbn [world this]; repeat case_match; cbn [world this];
  rewrite ?out_mallocs, ?out_freed, ?out_alloc_size, ?out_alloc_count, ?out_max_fds, ?out_strong,
    ?out_fds, ?out_released; done.
#[export] Hint Extern 2 (pres (kept _ _) (modify _)) => (apply pres_modify; kept_same) : pres.

Section Kept.
Context {X : Type} (f : World -> X) `{Outside X f} (x : X).

Lemma alloc_kept {A} (mk : (nat -> Z) -> A) : pres (kept f x) (alloc mk).
Proof. unfold alloc. pres. Qed.
Lemma load_kept off len : pres (kept f x) (load off len).
Proof. unfold load. pres. Qed.
Lemma store_kept off bs : pres (kept f x) (store off bs).
Proof. unfold store. pres. Qed.
Lemma objects_kept n : pres (kept f x) (objects_upto n).
Proof. unfold objects_upto. pres. Qed.
Lemma acquire_kept o : pres (kept f x) (acquire_object o).
Proof. unfold acquire_object, incStrong. pres. Qed.
Lemma release_kept o : pres (kept f x) (release_object o).
Proof. unfold release_object, decStrong, close. pres. Qed.
End Kept.
#[export] Hint Resolve alloc_kept load_kept store_kept objects_kept acquire_kept
  release_kept : pres.

Section Kept2.
Context {X : Type} (f : World -> X) `{Outside X f} (x : X).

Lemma freeDataNoInit_kept : pres (kept f x) freeDataNoInit.
Proof.
  unfold freeDataNoInit, call_owner, releaseObjects, closeFileDescriptors, add_alloc_size, add_alloc_count,
    free_block, zeroMemory, load_flat, close. pres.
Qed.
Lemma initState_kept : pres (kept f x) initState.
Proof. unfold initState. pres. Qed.
Lemma freeData_kept : pres (kept f x) freeData.
Proof. apply pres_bind; [apply freeDataNoInit_kept|intros; apply initState_kept]. Qed.

Lemma continueWrite_kept n : pres (kept f x) (continueWrite n).
Proof.
  pose proof freeData_kept.
  unfold continueWrite, continueWrite_owner, continueWrite_owned, continueWrite_first,
    call_owner, releaseObjects, acquireObjects, closeFileDescriptors, drop_objects,
    reallocZeroFree, malloc, realloc, calloc_objects, realloc_objects, add_alloc_size, add_alloc_count,
    free_block, zeroMemory, load_flat, close.
  pres.
Qed.
Lemma growData_kept n : pres (kept f x) (growData n).
Proof. pose proof continueWrite_kept. unfold growData. pres. Qed.
Lemma writeAligned_kept n v : pres (kept f x) (writeAligned n v).
Proof. pose proof growData_kept. unfold writeAligned, write_here, finishWrite. pres. Qed.
Lemma write_kept d n : pres (kept f x) (write d n).
Proof.
  pose proof growData_kept. unfold write, writeInplace, writeInplace_here, finishWrite, pad_size. pres.
Qed.
Lemma setDataSize_kept n : pres (kept f x) (setDataSize n).
Proof. pose proof continueWrite_kept. unfold setDataSize. pres. Qed.
Lemma setDataPosition_kept n : pres (kept f x) (setDataPosition n).
Proof. unfold setDataPosition. pres. Qed.
Lemma guard_kept n : pres (kept f x) (guard_objects n).
Proof. unfold guard_objects, validateReadData, validate_sorted. pres. Qed.
Lemma readAligned_kept n : pres (kept f x) (readAligned n).
Proof. pose proof guard_kept. unfold readAligned, advance. pres. Qed.
Lemma read_kept n : pres (kept f x) (read n).
Proof. pose proof guard_kept. unfold read, advance, pad_size. pres. Qed.
Lemma check_objects_kept l n : pres (kept f x) (check_objects l n).
Proof.
  revert n. induction l as [|o l IH]; intros n; cbn [check_objects]; unfold load_flat; pres.
Qed.
Lemma fds_in_range_kept l b off len : pres (kept f x) (fds_in_range l b off len).
Proof. induction l as [|o l IH]; cbn [fds_in_range]; unfold load_flat; pres. Qed.
Lemma scanForFds_kept : pres (kept f x) scanForFds.
Proof. pose proof fds_in_range_kept. unfold scanForFds, hasFileDescriptorsInRange, load_flat. pres. Qed.
Lemma reference_kept d n l r : pres (kept f x) (ipcSetDataReference d n l r).
Proof.
  pose proof freeData_kept. pose proof check_objects_kept. pose proof scanForFds_kept.
  unfold ipcSetDataReference. pres.
Qed.
End Kept2.
#[export] Hint Resolve freeDataNoInit_kept initState_kept writeAligned_kept write_kept
  setDataSize_kept setDataPosition_kept readAligned_kept read_kept reference_kept : pres.

