(* ===== verification/ParcelFormats.v ===== *)
(** Compound formats of a Parcel (src/libs/binder/Parcel.cpp and Parcel.h):
    native handles, flattenable objects, UTF-8 strings sent as UTF-16, the
    vector-size helpers and the listings for debugging.

    What lives in other libraries is a parameter: the flattenable object
    (libutils' [Flattenable] and [LightFlattenable]), native handles (libcutils)
    and the UTF conversions (libutils). *)

From S2P Require Import Prelude Errors ParcelState ParcelWrite ParcelRead ParcelObject ParcelData.

(** * Native handles *)

Record native_handle := mkHandle {
  nh_version : Z;
  nh_numFds : Z;
  nh_numInts : Z;
  nh_data : list Z;
}.

(** [sizeof(native_handle)]. *)
Abbreviation sizeof_native_handle := 12.

(** [native_handle_create] may answer null at any time; [native_handle_close]
    closes the descriptors of a handle.  [native_handle_delete] frees it. *)
Class NativeHandles := {
  native_handle_create : World -> Z -> Z -> option native_handle;
  native_handle_close : native_handle -> M PS unit;
}.

(** [for (; err == NO_ERROR && i < n; i++) err = writeDupFileDescriptor(fds[i])],
    with [n] turns left. *)
Fixpoint write_dup_fds (fds : list Z) (i n : nat) : M PS status_t :=
  match n with
  | O => ret NO_ERROR
  | S n' =>
      let* fd := require (fds !! i) in
      let* err := writeDupFileDescriptor fd in
      if err =? NO_ERROR then write_dup_fds fds (S i) n' else ret err
  end.

(** The integers from [data + numFds] on. *)
Definition handle_ints (h : native_handle) : M PS (list Z) :=
  if nh_numFds h <? 0 then fault else ret (drop (Z.to_nat (nh_numFds h)) (nh_data h)).

Definition writeNativeHandle (handle : option native_handle) : M PS status_t :=
  match handle with
  | None => ret BAD_TYPE
  | Some h =>
      if negb (nh_version h =? sizeof_native_handle) then ret BAD_TYPE else
      writeInt32 (nh_numFds h) ;;?
      writeInt32 (nh_numInts h) ;;?
      write_dup_fds (nh_data h) 0 (Z.to_nat (nh_numFds h)) ;;?
      let* ints := handle_ints h in
      write (Some (array_bytes 4 ints)) (u64 (4 * nh_numInts h))
  end.

(** Reading and duplicating [n] descriptors; [got] are those duplicated so far,
    which are closed when one fails.  The reader of a flattenable object tests the
    descriptor it read as well ([checked]). *)
Fixpoint read_dup_fds (checked : bool) (n : nat) (got : list Z) : M PS (option (list Z)) :=
  match n with
  | O => ret (Some got)
  | S n' =>
      let* read := readFileDescriptor in
      if checked && (read <? 0) then for_each got close ;; ret None else
      let* fd := dup_fd read in
      if fd <? 0 then for_each got close ;; ret None
      else read_dup_fds checked n' (got ++ [fd])
  end.

Definition readNativeHandle `{NativeHandles} : M PS (option native_handle) :=
  let* r := readInt32 in
  match r with
  | Err _ => ret None
  | Good numFds =>
  let* r := readInt32 in
  match r with
  | Err _ => ret None
  | Good numInts =>
  let* w := gets world in
  match native_handle_create w numFds numInts with
  | None => ret None
  | Some h =>
  let* fds := read_dup_fds false (Z.to_nat numFds) [] in
  match fds with
  | None => ret None
  | Some fds =>
  let rest := drop (length fds) (nh_data h) in
  let* ints := read (u64 (4 * numInts)) in
  match ints with
  | Err _ =>
      native_handle_close (mkHandle (nh_version h) (nh_numFds h) (nh_numInts h) (fds ++ rest)) ;;
      ret None
  | Good bs =>
      ret (Some (mkHandle (nh_version h) (nh_numFds h) (nh_numInts h)
                   (fds ++ map s32 (split_array 4 (Z.to_nat numInts) bs))))
  end end end end end.

(** * Flattenable objects *)

(** [flatten] fills the buffer and the descriptors it is given, [unflatten]
    reads them; both return a status. *)
Class FlattenableHelperInterface (T : Type) := {
  getFlattenedSize : T -> Z;
  getFdCount : T -> Z;
  flatten : T -> bytes -> list Z -> status_t * bytes * list Z;
  unflatten : T -> bytes -> list Z -> status_t * T;
}.

(** [new (std::nothrow) int[n]], for [n > 0]. *)
Definition new_fds (n : Z) : M PS (option (list Z)) :=
  if n =? 0 then ret (Some [])
  else alloc (fun junk => map (fun i => s32 (junk i)) (seq 0 (Z.to_nat n))).

(** The buffer that [writeInplace] or [readInplace] returned. *)
Definition load_at (off len : Z) : M PS bytes :=
  if len =? 0 then ret [] else load off len.

Definition write_flattenable `{FlattenableHelperInterface T} (val : T) : M PS status_t :=
  let len := getFlattenedSize val in
  let fd_count := getFdCount val in
  let* maxFds := getw gMaxFds in
  if (INT32_MAX <? len) || (maxFds <=? fd_count) then ret BAD_VALUE else
  writeInt32 len ;;?
  writeInt32 fd_count ;;?
  let* buf := writeInplace len in
  match buf with
  | None => ret BAD_VALUE
  | Some off =>
      let* fds := new_fds fd_count in
      match fds with
      | None => ret BAD_VALUE
      | Some fds =>
          let* before := load_at off len in
          let '(err, after, fds) := flatten val before fds in
          store off after ;;
          if err =? NO_ERROR then write_dup_fds fds 0 (Z.to_nat fd_count) else ret err
      end
  end.

(** The status and the object, which a failed [unflatten] may have changed. *)
Definition read_flattenable `{FlattenableHelperInterface T} (val : T) : M PS (status_t * T) :=
  let* l := readInt32_ in
  let* c := readInt32_ in
  let len := u64 l in
  let fd_count := u64 c in
  let* maxFds := getw gMaxFds in
  if (INT32_MAX <? len) || (maxFds <=? fd_count) then ret (BAD_VALUE, val) else
  let* padded := pad_size len in
  let* buf := readInplace padded in
  match buf with
  | None => ret (BAD_VALUE, val)
  | Some off =>
      let* fds := new_fds fd_count in
      match fds with
      | None => ret (BAD_VALUE, val)
      | Some _ =>
          let* fds := read_dup_fds true (Z.to_nat fd_count) [] in
          match fds with
          | None => ret (BAD_VALUE, val)
          | Some fds =>
              let* bs := load_at off len in
              ret (unflatten val bs fds)
          end
      end
  end.

(** A [LightFlattenable] has no descriptors, and a fixed size is not sent. *)
Class LightFlattenable (T : Type) := {
  isFixedSize : T -> bool;
  lightSize : T -> Z;
  lightFlatten : T -> bytes -> status_t * bytes;
  lightUnflatten : T -> bytes -> status_t * T;
}.

Definition write_light `{LightFlattenable T} (val : T) : M PS status_t :=
  let size := lightSize val in
  (if isFixedSize val then ret NO_ERROR else
   if INT32_MAX <? size then ret BAD_VALUE else writeInt32 size) ;;?
  if size =? 0 then ret NO_ERROR else
  let* buffer := writeInplace size in
  match buffer with
  | None => ret NO_MEMORY
  | Some off =>
      let* before := load_at off size in
      let '(err, after) := lightFlatten val before in
      store off after ;;
      ret err
  end.

Definition read_light `{LightFlattenable T} (val : T) : M PS (status_t * T) :=
  let* size := (if isFixedSize val then ret (Good (lightSize val))
                else let? s := readInt32 in ret (Good (u64 s))) in
  match size with
  | Err err => ret (err, val)
  | Good size =>
      if size =? 0 then ret (NO_ERROR, val) else
      let* buffer := readInplace size in
      match buffer with
      | None => ret (NO_MEMORY, val)
      | Some off => let* bs := load_at off size in ret (lightUnflatten val bs)
      end
  end.

(** * UTF-8 strings *)

(** [utf8_to_utf16_length] is negative for bytes it refuses; the conversions
    write a terminating NUL after the characters listed here. *)
Class UtfConversions := {
  utf8_to_utf16_length : bytes -> Z;
  utf8_to_utf16 : bytes -> list Z;
  utf16_to_utf8_length : list Z -> Z;
  utf16_to_utf8 : list Z -> bytes;
}.

Definition writeUtf8AsUtf16 `{UtfConversions} (str : bytes) : M PS status_t :=
  let utf16Len := utf8_to_utf16_length str in
  if (utf16Len <? 0) || (INT32_MAX <? utf16Len) then ret BAD_VALUE else
  writeInt32 utf16Len ;;?
  let* dst := writeInplace ((utf16Len + 1) * 2) in
  match dst with
  | None => ret NO_MEMORY
  | Some off => store off (array_bytes 2 (utf8_to_utf16 str) ++ [0; 0]) ;; ret NO_ERROR
  end.

(** The out string keeps its value on failure. *)
Definition readUtf8FromUtf16 `{UtfConversions} : M PS (res bytes) :=
  let* src := readString16Inplace in
  match src with
  | None => ret (Err UNEXPECTED_NULL)
  | Some (off, utf16Size) =>
      if utf16Size =? 0 then ret (Good []) else
      let* chars := load_chars off utf16Size in
      let utf8Size := utf16_to_utf8_length chars + 1 in
      if utf8Size <? 1 then ret (Err BAD_VALUE) else ret (Good (ztake (utf8Size - 1) (utf16_to_utf8 chars)))
  end.

(** * Vector sizes (Parcel.h) *)

(** The overload for [std::vector] writes the size of a vector that is there;
    those for [std::optional] and [std::unique_ptr] also write null. *)
Definition writeVectorSize {A} (val : list A) : M PS status_t :=
  if INT32_MAX <? zlen val then ret BAD_VALUE else writeInt32 (s32 (zlen val)).

Definition writeVectorSize_opt {A} (val : option (list A)) : M PS status_t :=
  match val with
  | None => writeInt32 (-1)
  | Some v => writeVectorSize v
  end.

(** [vector::resize] and the construction of a vector of [n] default elements. *)
Definition resize {A} (dflt : A) (n : Z) (v : list A) : list A :=
  ztake n (v ++ replicate (Z.to_nat (n - zlen v)) dflt).

Definition resizeOutVector {A} (sizeofT : Z) (dflt : A) (val : list A) : M PS (res (list A)) :=
  let? size := readOutVectorSizeWithCheck sizeofT in
  if size <? 0 then ret (Err UNEXPECTED_NULL) else ret (Good (resize dflt size val)).

Definition resizeOutVector_opt {A} (sizeofT : Z) (dflt : A) : M PS (res (option (list A))) :=
  let? size := readOutVectorSizeWithCheck sizeofT in
  ret (Good (if 0 <=? size then Some (replicate (Z.to_nat size) dflt) else None)).

(** * Binders as interfaces (Parcel.h)

    [interface_cast<T>] is the [asInterface] that an interface declares; it
    gives null for a null binder. *)

Definition readStrongBinder_as `{RpcBinders} {T} (interface_cast : option Z -> option T)
    : M PS (res T) :=
  let? tmp := readStrongBinder in
  match interface_cast (Some tmp) with
  | Some val => ret (Good val)
  | None => ret (Err UNKNOWN_ERROR)
  end.

Definition readNullableStrongBinder_as `{RpcBinders} {T} (interface_cast : option Z -> option T)
    : M PS (res (option T)) :=
  let? tmp := readNullableStrongBinder in
  match interface_cast tmp, tmp with
  | None, Some _ => ret (Err UNKNOWN_ERROR)
  | val, _ => ret (Good val)
  end.

(** * Parcelables behind a raw pointer *)

Definition writeRawNullableParcelable `{Parcelable K} (k : K) (parcelable : option (pvalue k))
    : M PS status_t :=
  match parcelable with
  | None => writeInt32 0
  | Some v => writeData (TParcelable k) v
  end.

(** * Listings for debugging *)

(** The loops of [debugReadAllStrongBinders] and [debugReadAllFileDescriptors]:
    [mObjects[i]] is looked up at every turn, because reading an object may
    sort the table. *)
Fixpoint debug_read_from {A} (type : Z) (read : M PS (list A)) (fuel : nat) (i : Z) : M PS (list A) :=
  match fuel with
  | O => ret []
  | S fuel' =>
      let* p := gets this in
      if mObjectsSize p <=? i then ret [] else
      let* objs := objects_upto (mObjectsSize p) in
      let* offset := require (objs !! Z.to_nat i) in
      let* flat := load_flat offset in
      let* here := (if f_type flat =? type
                    then setDataPosition offset ;; read else ret []) in
      let* rest := debug_read_from type read fuel' (i + 1) in
      ret (here ++ rest)
  end.

(** [n] turns are enough for a table of [n] objects. *)
Definition debug_read_all {A} (type : Z) (read : M PS (list A)) : M PS (list A) :=
  let* initPosition := getp dataPosition in
  let* n := getp mObjectsSize in
  let* all := debug_read_from type read (Z.to_nat n) 0 in
  setDataPosition initPosition ;;
  ret all.

Definition debugReadAllStrongBinders `{RpcBinders} : M PS (list Z) :=
  debug_read_all BINDER_TYPE_BINDER
    (let* binder := readStrongBinder_ in
     ret (match binder with Some b => [b] | None => [] end)).

Definition debugReadAllFileDescriptors : M PS (list Z) :=
  debug_read_all BINDER_TYPE_FD
    (let* fd := readFileDescriptor in
     fatal_if (fd =? -1) ;;
     ret [fd]).
