(* ===== verification/ParcelItems.v ===== *)
(** Data and descriptors mixed in a parcel: what writing a descriptor appends,
    what reading the sequence back finds, and which descriptors are open
    meanwhile. *)

From Stdlib Require Import Sorting.Sorted Sorting.Permutation.
From S2P Require Import Prelude Errors ParcelState ParcelWrite ParcelRead ParcelObject.
From S2P Require Import ParcelInv ParcelWriteSpec ParcelReadSpec ParcelDataSpec ParcelObjectSpec ParcelFrame.

(** * The descriptor table *)

Lemma lowest_free_spec fds fuel fd :
  fd <= lowest_free fds fuel fd <= fd + Z.of_nat fuel /\
  (forall k, fd <= k < lowest_free fds fuel fd -> is_Some (fds !! k)) /\
  (lowest_free fds fuel fd < fd + Z.of_nat fuel -> fds !! lowest_free fds fuel fd = None).
Proof.
  revert fd. induction fuel as [|fuel IH]; intros fd; cbn [lowest_free].
  { split_and!; [lia|lia|intros; lia|intros; lia]. }
  destruct (fds !! fd) as [f|] eqn:E.
  - destruct (IH (fd + 1)) as (H1 & H2 & H3). split_and!; [lia|lia| |intros; apply H3; lia].
    intros k Hk. destruct (decide (k = fd)) as [->|]; [by eexists|apply H2; lia].
  - split_and!; [lia|lia|intros; lia|done].
Qed.

(** The [n + 1] lowest descriptors do not fit in a table of [n]. *)
Lemma full_prefix (fds : gmap Z Z) n :
  (forall k, 0 <= k < Z.of_nat n -> is_Some (fds !! k)) -> (n <= size fds)%nat.
Proof.
  intros H. set (l := map Z.of_nat (seq 0 n)).
  assert (Hl : NoDup l) by (apply NoDup_fmap; [intros x y; lia|apply NoDup_seq]).
  assert (Hs : list_to_set l ⊆ dom fds).
  { intros k Hk. apply elem_of_list_to_set in Hk. unfold l in Hk.
    apply list_elem_of_In, in_map_iff in Hk as (i & <- & Hi). apply in_seq in Hi.
    apply elem_of_dom. apply H. lia. }
  apply subseteq_size in Hs. rewrite size_list_to_set in Hs by done.
  unfold l in Hs. rewrite length_map, length_seq, size_dom in Hs. done.
Qed.

Lemma lowest_free_free fds : fds !! lowest_free fds (size fds) 0 = None /\ 0 <= lowest_free fds (size fds) 0.
Proof.
  destruct (lowest_free_spec fds (size fds) 0) as (H1 & H2 & H3). split; [|lia].
  destruct (fds !! lowest_free fds (size fds) 0) as [f|] eqn:E; [exfalso|done].
  destruct (Z.lt_ge_cases (lowest_free fds (size fds) 0) (0 + Z.of_nat (size fds))) as [Hlt|Hge].
  { specialize (H3 Hlt). congruence. }
  assert (S (size fds) <= size fds)%nat; [|lia]. apply full_prefix. intros k Hk.
  destruct (decide (k = lowest_free fds (size fds) 0)) as [->|]; [by eexists|apply H2; lia].
Qed.

(** [fcntl(fd, F_DUPFD_CLOEXEC)]. *)
Definition duplicated (s : PS) (fd r : Z) (s' : PS) : Prop :=
  (r < 0 /\ s' = s /\
     (w_fds (world s) !! fd = None \/ gMaxFds (world s) <= Z.of_nat (size (w_fds (world s))))) \/
  (exists file, w_fds (world s) !! fd = Some file /\ w_fds (world s) !! r = None /\ 0 <= r < gMaxFds (world s) /\
     s' = mkPS (this s) (set_w_fds (<[r := file]> (w_fds (world s))) (world s))).

Lemma dup_fd_ok F s fd : wpg F (dup_fd fd) s (fun r s' => duplicated s fd r s').
Proof.
  unfold dup_fd. wp_steps. destruct (w_fds (world s) !! fd) as [file|] eqn:E.
  2:{ wp_step. left. split_and!; [done|done|by left]. }
  cbv zeta. destruct (lowest_free_free (w_fds (world s))) as [Hf Hp].
  zcase (gMaxFds (world s) <=? lowest_free (w_fds (world s)) (size (w_fds (world s))) 0); wp_steps.
  - left. split_and!; [done|done|]. right. destruct (lowest_free_spec (w_fds (world s)) (size (w_fds (world s))) 0). lia.
  - right. by exists file.
Qed.

(** [m] is [base] with the descriptors [got] opened besides. *)
Record opened (base m : gmap Z Z) (got : list Z) : Prop := {
  op_nodup : NoDup got;
  op_new k : k ∈ got -> base !! k = None /\ is_Some (m !! k);
  op_rest k : k ∉ got -> m !! k = base !! k;
}.

Lemma opened_nil m : opened m m [].
Proof. split; [constructor|set_solver|done]. Qed.

Lemma opened_snoc base m got fd file :
  opened base m got -> m !! fd = None -> opened base (<[fd := file]> m) (got ++ [fd]).
Proof.
  intros [H1 H2 H3] Hf. assert (fd ∉ got) as Hn.
  { intros Hin. destruct (H2 fd Hin) as [_ [f Hm]]. congruence. }
  split.
  - apply NoDup_app. split_and!; [done|set_solver|apply NoDup_singleton].
  - intros k [Hk|Hk]%elem_of_app.
    + rewrite lookup_insert_ne by set_solver. auto.
    + apply list_elem_of_singleton in Hk as ->. rewrite lookup_insert_eq, <- H3 by done. split; [done|by eexists].
  - intros k Hk. rewrite lookup_insert_ne by set_solver. apply H3. set_solver.
Qed.

Lemma opened_trans base m1 m2 a b : opened base m1 a -> opened m1 m2 b -> opened base m2 (a ++ b).
Proof.
  intros [A1 A2 A3] [B1 B2 B3]. assert (Hd : forall k, k ∈ a -> k ∉ b).
  { intros k Ha Hb. destruct (A2 k Ha) as [_ [f ?]], (B2 k Hb) as [? _]. congruence. }
  split.
  - apply NoDup_app. auto.
  - intros k [Hk|Hk]%elem_of_app.
    + rewrite B3 by auto. auto.
    + destruct (B2 k Hk) as [Hn ?]. split; [|done]. destruct (decide (k ∈ a)) as [Ha|Ha].
      * destruct (A2 k Ha) as [_ [f ?]]. congruence.
      * by rewrite <- A3.
  - intros k Hk. rewrite B3, A3; set_solver.
Qed.

Lemma opened_size base m got : opened base m got -> size m = (size base + length got)%nat.
Proof.
  intros [H1 H2 H3]. rewrite <- !size_dom, <- (size_list_to_set (C := gset Z) got) by done.
  rewrite <- size_union by (intros k Hb Hg; apply elem_of_dom in Hb as [f Hb];
    apply elem_of_list_to_set in Hg; destruct (H2 k Hg); congruence).
  f_equal. apply set_eq. intros k. rewrite elem_of_union, !elem_of_dom, elem_of_list_to_set.
  destruct (decide (k ∈ got)) as [Hg|Hg].
  - destruct (H2 k Hg) as [_ ?]. tauto.
  - rewrite H3 by done. tauto.
Qed.

(** What was open stays what it was. *)
Lemma opened_lookup base m got k file : opened base m got -> base !! k = Some file -> m !! k = Some file.
Proof.
  intros [_ H2 H3] Hk. rewrite H3; [done|]. intros [Hn _]%H2. congruence.
Qed.

(** Closing descriptors. *)
Lemma closes_ok F s got :
  wpg F (for_each got close) s (fun _ s' => this s' = this s /\
    world s' = set_w_fds (w_fds (world s')) (world s) /\
    forall k, w_fds (world s') !! k = if decide (k ∈ got) then None else w_fds (world s) !! k).
Proof.
  revert s. induction got as [|fd got IH]; intros s; cbn [for_each].
  { wp_step. split_and!; [done|by destruct s as [? []]|]. intros k. rewrite decide_False; set_solver. }
  wp_step. unfold close at 1. wp_step. wp_use IH. intros [] s' (H1 & H2 & H3).
  split_and!; [done|rewrite H2; by destruct s as [? []]|]. intros k. rewrite H3. cbn.
  destruct (decide (k = fd)) as [->|Hk].
  - rewrite lookup_delete_eq. rewrite (decide_True (P := fd ∈ fd :: got)) by set_solver. by case_decide.
  - rewrite lookup_delete_ne by done.
    destruct (decide (k ∈ got)); [rewrite decide_True by set_solver|rewrite decide_False by set_solver]; done.
Qed.

Lemma close_opened F s base got :
  opened base (w_fds (world s)) got ->
  wpg F (for_each got close) s (fun _ s' => this s' = this s /\
    world s' = set_w_fds base (world s)).
Proof.
  intros [_ H2 H3]. wp_use closes_ok. intros [] s' (-> & Hw & Hk). split; [done|].
  rewrite Hw. f_equal. apply map_eq. intros k. rewrite Hk.
  case_decide as Hin; [by destruct (H2 k Hin) as [-> _]|by apply H3].
Qed.

(** * Writes leave the open descriptors alone *)

(** The open descriptors, their limit, and whether the parcel may carry any. *)
Definition descriptors (s : PS) : gmap Z Z * Z * bool :=
  (w_fds (world s), gMaxFds (world s), mAllowFds (this s)).

(** The buffer is the parcel's own, and the descriptor table is [x]. *)
Definition fds_at (x : gmap Z Z * Z * bool) (s : PS) : Prop := unowned s /\ descriptors s = x.

Ltac fds_same :=
  let s := fresh "s" in let H := fresh "H" in
  intros s H; unfold fds_at, descriptors, unowned, add_strong in *; cbn [world this] in *; repeat case_match;
  cbn in *; done.
#[export] Hint Extern 2 (pres (fds_at _) (modify _)) => (apply pres_modify; fds_same) : pres.

Section FdsAt.
Context (x : gmap Z Z * Z * bool).

Lemma alloc_fds {A} (mk : (nat -> Z) -> A) : pres (fds_at x) (alloc mk).
Proof. unfold alloc. pres. Qed.
Lemma load_fds off len : pres (fds_at x) (load off len).
Proof. unfold load. pres. Qed.
Lemma store_fds off bs : pres (fds_at x) (store off bs).
Proof. unfold store. pres. Qed.
Lemma objects_fds n : pres (fds_at x) (objects_upto n).
Proof. unfold objects_upto. pres. Qed.
Lemma acquire_fds o : pres (fds_at x) (acquire_object o).
Proof. unfold acquire_object, incStrong. pres. Qed.
Local Hint Resolve alloc_fds load_fds store_fds objects_fds acquire_fds : pres.

Lemma realloc_fds d a b z : pres (fds_at x) (reallocZeroFree d a b z).
Proof. unfold reallocZeroFree, realloc, malloc, zeroMemory, free_block. pres. Qed.
Local Hint Resolve realloc_fds : pres.

(** Growing never drops an object. *)
Lemma growData_fds n : pres (fds_at x) (growData n).
Proof.
  unfold growData. intros s st s' Hs. destruct (INT32_MAX <? n); [by intros [= <- <-]|].
  unfold bind at 1, gets at 1.
  destruct (_ <? n); [by intros [= <- <-]|]. destruct (_ <? _); [by intros [= <- <-]|]. cbv zeta.
  zcase (u64 ((mDataSize (this s) + n) * 3) / 2 <=? mDataSize (this s)); [by intros [= <- <-]|].
  set (desired := Z.max _ _). assert (mDataSize (this s) <= desired) by lia.
  unfold continueWrite. destruct (INT32_MAX <? desired); [by intros [= <- <-]|].
  unfold bind at 1, gets at 1. cbv zeta. destruct Hs as [Ho Hf]. rewrite Ho.
  assert (kept_objects (this s) desired = mObjectsSize (this s)) as ->.
  { unfold kept_objects. by zdec (desired <? mDataSize (this s)). }
  assert (Hs : fds_at x s) by done.
  destruct (mData (this s)) as [d|].
  - unfold continueWrite_owned. unfold bind at 1, gets at 1. rewrite Z.ltb_irrefl.
    revert Hs. apply (fun (H : pres _ _) => H s st s'). unfold add_alloc_size. pres.
  - revert Hs. apply (fun (H : pres _ _) => H s st s').
    unfold continueWrite_first, add_alloc_size, add_alloc_count, malloc. pres.
Qed.
Local Hint Resolve growData_fds : pres.

Lemma finishWrite_fds n : pres (fds_at x) (finishWrite n).
Proof. unfold finishWrite. pres. Qed.
Local Hint Resolve finishWrite_fds : pres.

Lemma writeAligned_fds n v : pres (fds_at x) (writeAligned n v).
Proof. unfold writeAligned, write_here. pres. Qed.

Lemma writeInplace_fds n : pres (fds_at x) (writeInplace n).
Proof. unfold writeInplace, writeInplace_here, pad_size. pres. Qed.
Local Hint Resolve writeInplace_fds : pres.

Lemma write_fds d n : pres (fds_at x) (write d n).
Proof. unfold write. pres. Qed.

Lemma writeObject_fds o m : pres (fds_at x) (writeObject o m).
Proof. unfold writeObject, writeObject_here, grow_objects, realloc_table, realloc_objects, put_object, check_ok. pres. Qed.
Local Hint Resolve writeObject_fds : pres.

Lemma writeFileDescriptor_fds fd b : pres (fds_at x) (writeFileDescriptor fd b).
Proof. unfold writeFileDescriptor. pres. Qed.
End FdsAt.
#[export] Hint Resolve alloc_fds store_fds load_fds writeAligned_fds writeInplace_fds write_fds
  writeFileDescriptor_fds : pres.

(** * What was written, item by item *)

Inductive item :=
| Raw (bs : bytes)
| Object (o : flat_binder_object).

Definition item_bytes (i : item) : bytes :=
  match i with Raw bs => bs | Object o => flat_bytes o end.
Definition items_bytes (l : list item) : bytes := concat (map item_bytes l).

(** The places of the objects, from [pos] on. *)
Fixpoint offsets (pos : Z) (l : list item) : list Z :=
  match l with
  | [] => []
  | Raw bs :: l' => offsets (pos + zlen bs) l'
  | Object o :: l' => pos :: offsets (pos + sizeof_flat) l'
  end.

Lemma items_bytes_cons i l : items_bytes (i :: l) = item_bytes i ++ items_bytes l.
Proof. done. Qed.
Lemma items_bytes_app l k : items_bytes (l ++ k) = items_bytes l ++ items_bytes k.
Proof. unfold items_bytes. by rewrite map_app, concat_app. Qed.

Lemma items_bytes_raw bs : items_bytes [Raw bs] = bs.
Proof. unfold items_bytes. cbn. apply app_nil_r. Qed.

Lemma offsets_app pos l k : offsets pos (l ++ k) = offsets pos l ++ offsets (pos + zlen (items_bytes l)) k.
Proof.
  revert pos. induction l as [|[bs|o] l IH]; intros pos; cbn [offsets app].
  - by rewrite Z.add_0_r.
  - rewrite IH, items_bytes_cons. zl. simpl. by rewrite Z.add_assoc.
  - rewrite IH, items_bytes_cons. zl. simpl item_bytes. rewrite flat_bytes_len. by rewrite Z.add_assoc.
Qed.

Lemma offsets_bounds pos l x :
  x ∈ offsets pos l -> pos <= x /\ x + sizeof_flat <= pos + zlen (items_bytes l).
Proof.
  revert pos. induction l as [|[bs|o] l IH]; intros pos; cbn [offsets].
  - by intros ?%not_elem_of_nil.
  - intros H%IH. rewrite items_bytes_cons. zl. pose proof (zlen_nonneg bs). simpl item_bytes. lia.
  - rewrite items_bytes_cons. zl. simpl item_bytes. rewrite flat_bytes_len.
    pose proof (zlen_nonneg (items_bytes l)) as H0. intros [->|H%IH]%elem_of_cons; lia.
Qed.

Lemma sorted_app_le (l k : list Z) :
  Sorted Z.le l -> Sorted Z.le k -> (forall x y, x ∈ l -> y ∈ k -> x <= y) -> Sorted Z.le (l ++ k).
Proof.
  intros Hl Hk H. apply StronglySorted_Sorted, StronglySorted_app_intro; [| |done].
  all: apply Sorted_StronglySorted; [|done]; intros ? ? ?; lia.
Qed.

Lemma offsets_sorted pos l : Sorted Z.le (offsets pos l).
Proof.
  revert pos. induction l as [|[bs|o] l IH]; intros pos; cbn [offsets]; [constructor|apply IH|].
  apply (sorted_app_le [pos]); [by repeat constructor|apply IH|].
  intros x y ->%list_elem_of_singleton Hy%offsets_bounds. lia.
Qed.

Record laid (p p' : Parcel) (l : list item) : Prop := {
  ld_wf : wf p';
  ld_pos : mDataPos p' = mDataPos p + zlen (items_bytes l);
  ld_contents : contents p' = overwrite (contents p) (mDataPos p) (items_bytes l);
  ld_objs : objs p' = objs p ++ offsets (mDataPos p) l;
  ld_session : mSession p' = mSession p;
}.

Lemma laid_nil p : wf p -> laid p p [].
Proof.
  intros Hwf. pose proof (wf_pos _ Hwf). split; change (items_bytes []) with (@nil Z); zl; try done; [lia| |].
  - unfold overwrite. zl. rewrite Z.add_0_r. simpl. by rewrite ztake_zdrop.
  - cbn. by rewrite app_nil_r.
Qed.

Lemma laid_app p p1 p2 a b : wf p -> laid p p1 a -> laid p1 p2 b -> laid p p2 (a ++ b).
Proof.
  intros Hwf [] []. pose proof (wf_pos _ Hwf). split; rewrite ?items_bytes_app; zl.
  - done.
  - lia.
  - rewrite ld_contents1, ld_contents0, ld_pos0. apply overwrite_app.
    rewrite zlen_contents by done. lia.
  - by rewrite ld_objs1, ld_objs0, ld_pos0, offsets_app, app_assoc.
  - congruence.
Qed.

Lemma wrote_laid p p' bs : wrote p p' bs -> laid p p' [Raw bs].
Proof.
  intros []. unfold meta in *. split; unfold items_bytes; cbn; rewrite ?app_nil_r; try done.
  by injection wr_meta.
Qed.

Lemma laid_join p p' a b : laid p p' [Raw a; Raw b] -> laid p p' [Raw (a ++ b)].
Proof.
  intros []. assert (E : items_bytes [Raw a; Raw b] = items_bytes [Raw (a ++ b)])
    by (by rewrite items_bytes_cons, !items_bytes_raw). rewrite E in *. by split.
Qed.

Lemma wrote_object_laid p p' o : wrote_object p p' o true -> laid p p' [Object o].
Proof.
  intros []. split; unfold items_bytes; cbn; rewrite ?app_nil_r, ?flat_bytes_len; done.
Qed.

(** A parcel of our own with room for [n] more bytes and [k] more objects, all
    of whose objects are behind the position. *)
Record room (n k : Z) (s : PS) : Prop := {
  rm_wf : wf (this s);
  rm_owner : unowned s;
  rm_session : mSession (this s) = None;
  rm_fits : fits (this s) n;
  rm_count : mObjectsSize (this s) + k <= INT32_MAX;
  rm_past : Forall (fun x => x + sizeof_flat <= mDataPos (this s)) (objs (this s));
  rm_sorted : Sorted Z.le (objs (this s));
}.

Lemma room_le n k n' k' s : n' <= n -> k' <= k -> room n k s -> room n' k' s.
Proof. intros ? ? []. split; try done; [by eapply fits_le|lia]. Qed.

Lemma laid_size p p' l : wf p -> laid p p' l -> mDataSize p' = Z.max (mDataSize p) (mDataPos p + zlen (items_bytes l)).
Proof.
  intros Hwf [Hwf' _ Hc _ _]. pose proof (wf_pos _ Hwf).
  rewrite <- !zlen_contents by done. rewrite Hc, zlen_overwrite; [done|]. by rewrite zlen_contents.
Qed.

Lemma laid_room n k s s' l :
  room (zlen (items_bytes l) + n) (zlen (offsets (mDataPos (this s)) l) + k) s -> 0 <= n ->
  laid (this s) (this s') l -> unowned s' -> room n k s'.
Proof.
  intros [] Hn Hl Ho. pose proof (laid_size _ _ _ rm_wf0 Hl) as Hs. pose proof Hl as [].
  pose proof (wf_pos _ rm_wf0). pose proof (zlen_nonneg (items_bytes l)).
  split; try done.
  - congruence.
  - unfold fits in *. rewrite Hs. eapply Z.le_trans; [|exact rm_fits0]. apply Z.div_le_mono; lia.
  - rewrite <- zlen_objs, ld_objs0, zlen_app, zlen_objs by done. lia.
  - rewrite ld_objs0, ld_pos0. apply Forall_app. split.
    + eapply Forall_impl; [exact rm_past0|]. cbv beta. lia.
    + apply Forall_forall. intros x Hx%offsets_bounds. lia.
  - rewrite ld_objs0. apply sorted_app_le; [done|apply offsets_sorted|].
    intros x y Hx Hy%offsets_bounds. rewrite Forall_forall in rm_past0. specialize (rm_past0 x Hx). cbv beta in *. lia.
Qed.

(** ** Reading the items back *)

Record holds (p : Parcel) (l : list item) : Prop := {
  ho_size : mDataPos p + zlen (items_bytes l) <= mDataSize p;
  ho_bytes : upcoming p (zlen (items_bytes l)) = items_bytes l;
  ho_sorted : Sorted Z.le (objs p);
  ho_in : Forall (fun x => x ∈ objs p) (offsets (mDataPos p) l);
  ho_only : Forall (fun x => x + sizeof_flat <= mDataPos p \/ x ∈ offsets (mDataPos p) l \/
                             mDataPos p + zlen (items_bytes l) <= x) (objs p);
}.

Lemma laid_holds n k s p' p2 l :
  room n k s -> laid (this s) p' l -> peq (set_mDataPos (mDataPos (this s)) p') p2 -> objs p2 = objs p' ->
  holds p2 l.
Proof.
  intros [] Hl Hp Ho. pose proof (laid_size _ _ _ rm_wf0 Hl) as Hs. destruct Hl.
  pose proof (wf_pos _ rm_wf0). pose proof (peq_pos _ _ Hp) as Ep. simpl in Ep.
  split; rewrite ?Ep.
  - rewrite (peq_size _ _ Hp). simpl. lia.
  - rewrite (peq_upcoming _ _ _ Hp). unfold upcoming. simpl.
    change (contents (set_mDataPos _ p')) with (contents p'). rewrite ld_contents0.
    apply overwrite_slice. by rewrite zlen_contents.
  - rewrite Ho, ld_objs0. apply sorted_app_le; [done|apply offsets_sorted|].
    intros x y Hx Hy%offsets_bounds. rewrite Forall_forall in rm_past0. specialize (rm_past0 x Hx). cbv beta in *. lia.
  - rewrite Ho, ld_objs0. apply Forall_forall. intros x Hx. apply elem_of_app. by right.
  - rewrite Ho, ld_objs0. apply Forall_app. split; [|apply Forall_forall; auto].
    eapply Forall_impl; [exact rm_past0|]. auto.
Qed.

(** Reading leaves a sorted table sorted. *)
Definition tabled (s : PS) : Prop :=
  Sorted Z.le (objs (this s)) /\ 0 <= mObjectsSize (this s) <= zlen (mObjects (this s)).

Lemma tabled_sort (p : Parcel) w :
  tabled (mkPS p w) ->
  tabled (mkPS (set_mObjectsSorted true (set_mNextObjectHint 0
           (set_mObjects (insertion_sort (mObjects p) (Z.to_nat (mObjectsSize p))) p))) w).
Proof.
  unfold tabled, objs, ztake, zlen. cbn. intros [_ Hn].
  destruct (insertion_sort_ok (mObjects p) (Z.to_nat (mObjectsSize p))) as (H1 & _ & H3); [lia|].
  split; [done|]. rewrite H3. done.
Qed.

Lemma guard_tabled n : pres tabled (guard_objects n).
Proof.
  unfold guard_objects, validateReadData, validate_sorted, objects_upto. pres.
  all: apply pres_modify; intros [p w] H; first [by apply tabled_sort|exact H].
Qed.
#[export] Hint Resolve guard_tabled : pres.

Lemma advance_tabled n : pres tabled (advance n).
Proof. apply pres_modify. by intros [p w] H. Qed.
Lemma load_tabled off n : pres tabled (load off n).
Proof. unfold load. pres. Qed.
#[export] Hint Resolve advance_tabled load_tabled : pres.

Lemma readAligned_tabled n : pres tabled (readAligned n).
Proof. unfold readAligned. pres. Qed.
#[export] Hint Resolve readAligned_tabled : pres.

Lemma readInplace_tabled n : pres tabled (readInplace n).
Proof. unfold readInplace, pad_size. pres. Qed.

Lemma read_tabled n : pres tabled (read n).
Proof. unfold read, pad_size. pres. Qed.
#[export] Hint Resolve readInplace_tabled read_tabled : pres.

Lemma holds_tabled s l : wf (this s) -> holds (this s) l -> tabled s.
Proof. intros [] []. split; [done|lia]. Qed.

Lemma upcoming_cons p i l :
  upcoming p (zlen (items_bytes (i :: l))) = items_bytes (i :: l) ->
  upcoming p (zlen (item_bytes i)) = item_bytes i /\
  ztake (zlen (items_bytes l)) (zdrop (zlen (item_bytes i)) (zdrop (mDataPos p) (contents p))) = items_bytes l.
Proof. rewrite items_bytes_cons. apply upcoming_app. Qed.

(** The rest of the items, after the first was consumed. *)
Lemma holds_rest s s' i l :
  wf (this s) -> holds (this s) (i :: l) -> consumed s (zlen (item_bytes i)) s' ->
  Sorted Z.le (objs (this s')) -> holds (this s') l.
Proof.
  intros Hwf [] (Hw & Hwf' & Hp) Hsort. pose proof (peq_pos _ _ Hp) as Ep. simpl in Ep.
  pose proof (wf_pos _ Hwf). pose proof (zlen_nonneg (item_bytes i)).
  apply upcoming_cons in ho_bytes0 as [_ Hrest]. rewrite items_bytes_cons in *. zl.
  pose proof (peq_objs _ _ Hp) as Hperm. change (objs (set_mDataPos _ (this s))) with (objs (this s)) in Hperm.
  assert (Hoff : offsets (mDataPos (this s)) (i :: l) =
    (match i with Raw _ => [] | Object _ => [mDataPos (this s)] end) ++ offsets (mDataPos (this s')) l).
  { rewrite Ep. destruct i; cbn [offsets item_bytes]; rewrite ?flat_bytes_len; done. }
  rewrite Hoff in *. split.
  - rewrite Ep, (peq_size _ _ Hp). simpl. lia.
  - rewrite (peq_upcoming _ _ _ Hp). unfold upcoming. simpl.
    etransitivity; [|exact Hrest]. unfold zdrop. rewrite drop_drop. do 2 f_equal. lia.
  - done.
  - apply Forall_app in ho_in0 as [_ Hin]. eapply Forall_impl; [exact Hin|]. intros x Hx. by rewrite Hperm.
  - rewrite Hperm. eapply Forall_impl; [exact ho_only0|]. cbv beta. intros x [Hx|[Hx|Hx]].
    + left. lia.
    + apply elem_of_app in Hx as [Hx|Hx]; [|by right; left]. left. destruct i; [set_solver|].
      apply list_elem_of_singleton in Hx as ->. rewrite Ep. simpl item_bytes. rewrite flat_bytes_len. lia.
    + right; right. lia.
Qed.

Lemma holds_avail p bs l : wf p -> holds p (Raw bs :: l) -> avail p bs.
Proof.
  intros Hwf []. pose proof (upcoming_cons _ _ _ ho_bytes0) as [Hu _]. rewrite items_bytes_cons in *. zl.
  pose proof (zlen_nonneg (items_bytes l)). simpl item_bytes in *.
  split; [lia|done|]. unfold clear. eapply Forall_impl; [exact ho_only0|]. cbv beta. intros x [Hx|[Hx|Hx]].
  - by left.
  - right. cbn [offsets] in Hx. apply offsets_bounds in Hx. lia.
  - right. lia.
Qed.

Lemma read_raw {A} F s (m : M PS A) bs a l :
  decodes m bs a -> pres tabled m -> wf (this s) -> holds (this s) (Raw bs :: l) ->
  wpg F m s (fun r s' => r = a /\ consumed s (zlen bs) s' /\ holds (this s') l).
Proof.
  intros Hd Hp Hwf Hh. eapply wpg_mono.
  - apply (wpg_pres F tabled); [done|by eapply holds_tabled|].
    apply Hd; [done|by eapply holds_avail].
  - intros r s' [[-> Hc] [Hs _]]. split_and!; [done|done|]. by eapply (holds_rest _ _ (Raw bs)).
Qed.

Lemma read_object F s o l :
  flat_valid o -> wf (this s) -> holds (this s) (Object o :: l) ->
  wpg F (readObject true) s (fun r s' => r = Some o /\ consumed s sizeof_flat s' /\ holds (this s') l).
Proof.
  intros Hv Hwf Hh. wp_use readObject_ok; [done|]. intros r s' (-> & Hst & Eo). pose proof Hh as [].
  pose proof (upcoming_cons _ _ _ ho_bytes0) as [Hu _]. rewrite items_bytes_cons in ho_size0. zl.
  simpl item_bytes in *. rewrite flat_bytes_len in *. pose proof (zlen_nonneg (items_bytes l)).
  unfold aligned_state in Hst. unfold read_object_result.
  replace (mDataSize (this s) <? mDataPos (this s) + 24) with false in * by (symmetry; apply Z.ltb_ge; lia).
  split_and!; [|done|].
  - unfold record_at. rewrite Hu, flat_round_trip by done. cbn [null_object negb andb].
    cbn [offsets] in ho_in0. apply Forall_cons in ho_in0 as [Hin _].
    destruct (found_at_complete (objs (this s)) (mNextObjectHint (this s)) (mDataPos (this s))) as [x ->]; try done.
    apply Hwf.
  - eapply (holds_rest _ _ (Object o)); [done|done| |by rewrite Eo]. simpl item_bytes. by rewrite flat_bytes_len.
Qed.

(** * Descriptors written and read *)

(** The record of a descriptor the parcel owns. *)
Definition fd_object (fd : Z) (takeOwnership : bool) : flat_binder_object :=
  mkFlat BINDER_TYPE_FD (Z.lor 0x7f FLAT_BINDER_FLAG_ACCEPTS_FDS) (u32 fd) (if takeOwnership then 1 else 0).

Lemma fd_object_valid fd b : flat_valid (fd_object fd b).
Proof.
  split_and!; [by vm_compute|by vm_compute| |by destruct b]. simpl. unfold is_u64, u32.
  pose proof (Z.mod_pos_bound fd 4294967296). lia.
Qed.

Lemma read_fd F s fd b l :
  is_s32 fd -> wf (this s) -> holds (this s) (Object (fd_object fd b) :: l) ->
  wpg F readFileDescriptor s (fun r s' => r = fd /\ consumed s sizeof_flat s' /\ holds (this s') l).
Proof.
  intros Hfd Hwf Hh. unfold readFileDescriptor. wp_step. wp_use read_object; [apply fd_object_valid|done|done|].
  intros r s' (-> & Hc & Hh'). simpl. wp_step. split_and!; [|done|done].
  unfold f_handle. simpl. unfold u32, s32, is_s32 in *. rewrite Z.mod_mod by done.
  rewrite Zplus_mod_idemp_l. rewrite Z.mod_small by lia. lia.
Qed.

Lemma writeFileDescriptor_ok F s fd b n k :
  room n k s -> sizeof_flat <= n -> 0 <= k ->
  wpg F (writeFileDescriptor fd b) s (fun st s' =>
    balanced s s' /\ wf (this s') /\ fds_at (descriptors s) s' /\
    (st = NO_ERROR -> laid (this s) (this s') [Object (fd_object fd b)]) /\
    (mAllowFds (this s) = true -> ~ can_fail (world s) -> st = NO_ERROR)).
Proof.
  intros Hr Hn Hk. pose proof Hr as []. eapply wpg_mono.
  { apply (wpg_pres F (fds_at (descriptors s))) with (Q := fun st s' =>
      balanced s s' /\ wf (this s') /\ (st = NO_ERROR -> laid (this s) (this s') [Object (fd_object fd b)]) /\
      (mAllowFds (this s) = true -> ~ can_fail (world s) -> st = NO_ERROR));
      [auto with pres|done|].
    unfold writeFileDescriptor. wp_steps. unfold isForRpc. rewrite rm_session0.
    wp_use writeObject_ok; [done|done|by eapply fits_le|lia| |].
    - intros _. eapply Forall_impl; [exact rm_past0|]. cbv beta. lia.
    - intros st s' (Hb & Hwf & Hc). split_and!; [done|done| |]; unfold fd_refused in Hc; simpl in Hc.
      + intros ->. destruct (negb _); [by destruct Hc as (_ & _ & _ & ? & _)|].
        destruct Hc as [(_ & Hw & _)|[? _]]; [by apply wrote_object_laid|done].
      + intros Ha Hf. rewrite Ha in Hc. destruct Hc as [[? _]|[_ ?]]; done. }
  intros st s' [(Hb & Hwf & Hl & Hok) Hf]. by split_and!.
Qed.
