(* ===== verification/ParcelFormatsProps.v ===== *)
(** Native handles and flattenable objects: what is written is read back, and
    no descriptor is lost, whatever the sender put in the parcel. *)

From stdpp Require Import list.
From S2P Require Import Prelude Errors ParcelState ParcelWrite ParcelRead ParcelObject ParcelFormats.
From S2P Require Import ParcelInv ParcelWriteSpec ParcelReadSpec ParcelDataSpec ParcelObjectSpec ParcelFrame ParcelItems ParcelTyped.

(** What the code relies on of libcutils: a handle that was created has the
    counts asked for, which are not negative, and room for them; closing a
    handle closes the descriptors in it. *)
Class NativeHandleLaws `{NativeHandles} := {
  created w numFds numInts h : native_handle_create w numFds numInts = Some h ->
    0 <= numFds /\ 0 <= numInts /\ nh_version h = sizeof_native_handle /\
    nh_numFds h = numFds /\ nh_numInts h = numInts /\ zlen (nh_data h) = numFds + numInts;
  close_handle h s : native_handle_close h s = for_each (ztake (nh_numFds h) (nh_data h)) close s;
}.

(** * Reading what anybody may have written *)

(** Reading moves the position, and may open descriptors and allocate. *)
Definition reads_only (s s' : PS) : Prop :=
  wf (this s') /\ peq (set_mDataPos (mDataPos (this s')) (this s)) (this s') /\
  world s' = set_w_fds (w_fds (world s')) (set_w_mallocs (w_mallocs (world s')) (world s)).

Lemma stays_reads_only s s' : stays s s' -> reads_only s s'.
Proof. intros (Hw & Hwf & Hp). split_and!; [done|done|]. rewrite Hw. by destruct s as [? []]. Qed.

Lemma reads_only_refl s : wf (this s) -> reads_only s s.
Proof. intros. by apply stays_reads_only, stays_refl. Qed.

Lemma reads_only_trans s1 s2 s3 : reads_only s1 s2 -> reads_only s2 s3 -> reads_only s1 s3.
Proof.
  intros (_ & Hp1 & Hw1) (Hwf & Hp2 & Hw2). split_and!; [done| |].
  - etransitivity; [|exact Hp2]. by apply (set_pos_peq _ _ (mDataPos (this s3))) in Hp1.
  - rewrite Hw2, Hw1. done.
Qed.

(** From [s], with [got] opened over [base]. *)
Definition receiving (base : gmap Z Z) (s s' : PS) (got : list Z) : Prop :=
  reads_only s s' /\ opened base (w_fds (world s')) got.

Lemma receiving_start s : wf (this s) -> receiving (w_fds (world s)) s s [].
Proof. intros. split; [by apply reads_only_refl|apply opened_nil]. Qed.

Lemma receiving_wf base s s1 got : receiving base s s1 got -> wf (this s1).
Proof. by intros [[H _] _]. Qed.

Lemma receiving_stays base s s1 s2 got :
  receiving base s s1 got -> stays s1 s2 -> receiving base s s2 got.
Proof.
  intros [H1 H2] Hs. split; [by eapply reads_only_trans, stays_reads_only|].
  by rewrite (proj1 Hs).
Qed.

Lemma receiving_dup base s s1 s2 got fd r :
  receiving base s s1 got -> duplicated s1 fd r s2 -> 0 <= r -> receiving base s s2 (got ++ [r]).
Proof.
  intros [H1 H2] [[? _]|(file & _ & Hn & _ & ->)] Hr; [lia|].
  split; [|by apply opened_snoc]. eapply reads_only_trans; [exact H1|].
  destruct H1 as (Hwf & _ & _). split_and!; [done|by destruct s1 as [[] ?]|by destruct s1 as [? []]].
Qed.

(** Closing them all leads back. *)
Lemma receiving_close F base s s1 got :
  receiving base s s1 got -> base = w_fds (world s) ->
  wpg F (for_each got close) s1 (fun _ s' => reads_only s s' /\ w_fds (world s') = w_fds (world s)).
Proof.
  intros [H1 H2] ->. wp_use close_opened; [exact H2|]. intros [] s2 [E1 E2].
  split; [|by rewrite E2]. destruct H1 as (Hwf & Hp & Hw). rewrite <- E1 in Hwf, Hp.
  split_and!; [done|done|]. rewrite E2, Hw. done.
Qed.

Lemma safe_then {A B} F base s s1 got (m : M PS A) (k : A -> M PS B) Q :
  safe_read m -> receiving base s s1 got ->
  (forall a s2, receiving base s s2 got -> wpg F (k a) s2 Q) ->
  wpg F (let* a := m in k a) s1 Q.
Proof.
  intros Hm Hr Hk. wp_step. wp_use Hm; [by eapply receiving_wf|]. intros a s2 Hs.
  apply Hk. by eapply receiving_stays.
Qed.

Lemma readFileDescriptor_safe : safe_read readFileDescriptor.
Proof.
  apply safe_bind.
  - intros F s Hwf. wp_use readObject_ok; [done|]. intros r s' (_ & H & _). eauto with binder.
  - intros [o|]; [|apply safe_ret]. destruct (_ =? _); apply safe_ret.
Qed.

(** The descriptors duplicated so far are open, and none is when one fails. *)
Definition received (base : gmap Z Z) (s : PS) (count : nat) (r : option (list Z)) (s' : PS) : Prop :=
  match r with
  | None => reads_only s s' /\ w_fds (world s') = w_fds (world s)
  | Some fds => receiving base s s' fds /\ length fds = count
  end.

Lemma read_dup_fds_safe F s s1 checked n got :
  receiving (w_fds (world s)) s s1 got ->
  wpg F (read_dup_fds checked n got) s1 (received (w_fds (world s)) s (length got + n)).
Proof.
  revert s1 got. induction n as [|n IH]; intros s1 got Hr; cbn [read_dup_fds].
  { wp_step. split; [done|lia]. }
  eapply safe_then; [apply readFileDescriptor_safe|exact Hr|]. intros fd s2 Hr2.
  destruct (checked && (fd <? 0)).
  { wp_step. wp_use receiving_close; [done|done|]. intros [] s4 H4. by wp_step. }
  wp_step. wp_use dup_fd_ok. intros r s3 Hd. zcase (r <? 0).
  - wp_step. destruct Hd as [(_ & -> & _)|(? & _ & _ & ? & _)]; [|lia].
    wp_use receiving_close; [done|done|]. intros [] s4 H4. by wp_step.
  - wp_use IH; [by eapply receiving_dup|]. intros o s4. rewrite length_app. simpl.
    by rewrite <- Nat.add_assoc.
Qed.

Lemma read_safe len : 0 <= len -> safe_read (read len).
Proof.
  intros Hl F s Hwf. destruct (Z.le_gt_cases len INT32_MAX).
  - wp_use read_ok; [done|lia|]. intros r s' [H1 _]. eauto with binder.
  - unfold read. zdec (INT32_MAX <? len). wp_step. by apply stays_refl.
Qed.

Lemma receiving_none s s1 :
  receiving (w_fds (world s)) s s1 [] -> reads_only s s1 /\ w_fds (world s1) = w_fds (world s).
Proof.
  intros [H [_ _ Ho]]. split; [done|]. apply map_eq. intros k. apply Ho, not_elem_of_nil.
Qed.

Lemma new_fds_ok F base s s1 got n :
  receiving base s s1 got -> wpg F (new_fds n) s1 (fun _ s' => receiving base s s' got).
Proof.
  intros [H1 H2]. unfold new_fds. destruct (n =? 0); [by wp_step|]. unfold alloc. wp_steps.
  split; [|done]. eapply reads_only_trans; [exact H1|]. destruct H1 as (Hwf & _ & _).
  split_and!; [done|by destruct s1 as [[] ?]|by destruct s1 as [? []]].
Qed.

Lemma load_at_safe {A} F base s s1 got off len (k : bytes -> M PS A) Q :
  receiving base s s1 got -> 0 <= off -> 0 <= len -> off + len <= zlen (data_block (this s)) ->
  (forall bs, wpg F (k bs) s1 Q) -> wpg F (let* bs := load_at off len in k bs) s1 Q.
Proof.
  intros [(_ & Hp & _) _] Ho Hl Hb Hk. unfold load_at. wp_step. destruct (len =? 0); [by wp_step|].
  apply load_ok; [done|done| |auto]. unfold data_block in *. rewrite (peq_data _ _ Hp). done.
Qed.

(** Whatever is in a parcel, reading a native handle from it either gives a
    handle of the counts that were sent, whose descriptors were all newly opened,
    or gives none and leaves exactly the descriptors open that were open before. *)
Theorem handle_descriptors_balance `{NativeHandleLaws} (s : PS) :
  wf (this s) ->
  wp readNativeHandle s (fun r s' => reads_only s s' /\
    match r with
    | None => w_fds (world s') = w_fds (world s)
    | Some h => zlen (nh_data h) = nh_numFds h + nh_numInts h /\
                opened (w_fds (world s)) (w_fds (world s')) (ztake (nh_numFds h) (nh_data h))
    end).
Proof.
  intros Hwf. unfold readNativeHandle.
  eapply safe_then; [apply readInt32_safe|by apply receiving_start|]. intros [numFds|] s1 H1;
    [|wp_step; by apply receiving_none].
  eapply safe_then; [apply readInt32_safe|done|]. intros [numInts|] s2 H2; [|wp_step; by apply receiving_none].
  do 2 wp_step. destruct (native_handle_create _ _ _) as [h|] eqn:Eh; [|wp_step; by apply receiving_none].
  apply created in Eh as (Hf & Hi & Hv & Ef & Ei & Hl). wp_step. wp_use read_dup_fds_safe; [done|].
  intros [fds|] s3 H3; [|wp_step; exact H3]. destruct H3 as [H3 Hn]. simpl in Hn.
  assert (Hfl : zlen fds = numFds) by (unfold zlen; lia).
  eapply safe_then; [apply read_safe; unfold u64; pose proof (Z.mod_pos_bound (4 * numInts) 18446744073709551616); lia|done|].
  intros [bs|] s4 H4.
  - wp_step. cbn. rewrite Ef, Ei. split; [apply H4|]. split.
    + rewrite zlen_app, zlen_map, Hfl. f_equal. unfold zlen. rewrite length_split_array. lia.
    + rewrite ztake_app_exact by done. apply H4.
  - unfold wpg, bind. rewrite close_handle. cbn. rewrite Ef, ztake_app_exact by done.
    pose proof (receiving_close False _ _ _ _ H4 eq_refl) as Hc. unfold wpg in Hc.
    by destruct (for_each fds close s4).
Qed.

(** Whatever is in a parcel, reading a flattenable object from it either
    hands the object the bytes and the newly opened descriptors that were sent,
    or fails and leaves exactly the descriptors open that were open before. *)
Theorem flattenable_descriptors_balance `{FlattenableHelperInterface T} (s : PS) (val : T) :
  wf (this s) ->
  wp (read_flattenable val) s (fun r s' => reads_only s s' /\
    ((r = (BAD_VALUE, val) /\ w_fds (world s') = w_fds (world s)) \/
     exists bs fds, r = unflatten val bs fds /\
       opened (w_fds (world s)) (w_fds (world s')) fds)).
Proof.
  intros Hwf. unfold read_flattenable.
  eapply safe_then; [apply readInt32_safe_|by apply receiving_start|]. intros l s1 H1.
  eapply safe_then; [apply readInt32_safe_|done|]. intros c s2 H2. do 2 wp_step.
  assert (Hbad : forall s3 : PS, receiving (w_fds (world s)) s s3 [] ->
    wpg False (ret (BAD_VALUE, val)) s3 (fun r s' => reads_only s s' /\
    ((r = (BAD_VALUE, val) /\ w_fds (world s') = w_fds (world s)) \/
     exists bs fds, r = unflatten val bs fds /\
       opened (w_fds (world s)) (w_fds (world s')) fds))).
  { intros s3 H3. wp_step. apply receiving_none in H3 as [? ?]. auto. }
  destruct ((INT32_MAX <? u64 l) || (gMaxFds (world s2) <=? u64 c)) eqn:Eb; [by apply Hbad|].
  apply orb_false_elim in Eb as [Eb _]. zb.
  assert (Hu : 0 <= u64 l) by (unfold u64; pose proof (Z.mod_pos_bound l 18446744073709551616); lia).
  wp_step. apply pad_size_ok; [lia|]. pose proof (padz_bounds (u64 l)) as Hpad. wp_step.
  wp_use readInplace_safe; [by eapply receiving_wf|lia|]. intros [off|] s3 [Hs3 Hoff].
  2:{ apply Hbad. by eapply receiving_stays. }
  assert (H3 : receiving (w_fds (world s)) s s3 []) by (by eapply receiving_stays).
  wp_step. wp_use new_fds_ok; [exact H3|]. intros [junk|] s4 H4; [|by apply Hbad].
  wp_step. wp_use read_dup_fds_safe; [exact H4|]. intros [fds|] s5 H5; [|wp_step; destruct H5; auto].
  destruct H5 as [H5 _]. eapply load_at_safe; [exact H5|lia|lia| |].
  { destruct H3 as [(_ & Hp & _) _]. unfold data_block in *. rewrite (peq_data _ _ Hp) in Hoff. simpl in Hoff. lia. }
  intros bs. wp_step. split; [apply H5|]. right. exists bs, fds. split; [done|apply H5].
Qed.

(** * What is written is read back *)

(** [fd] in the table [m] and [fd'] in [m'] are the same open file. *)
Definition same_file (m m' : gmap Z Z) (fd fd' : Z) : Prop :=
  exists file, m !! fd = Some file /\ m' !! fd' = Some file.

Lemma same_file_trans m1 m2 m3 a b c :
  same_file m1 m2 a b -> same_file m2 m3 b c -> same_file m1 m3 a c.
Proof. intros (f & H1 & H2) (g & H3 & H4). exists f. split; congruence. Qed.

Lemma same_files_trans m1 m2 m3 a b c :
  Forall2 (same_file m1 m2) a b -> Forall2 (same_file m2 m3) b c -> Forall2 (same_file m1 m3) a c.
Proof.
  intros H. revert c. induction H; intros c H'; inversion H'; subst; constructor; eauto using same_file_trans.
Qed.

Lemma duplicated_same s fd r s' : duplicated s fd r s' -> 0 <= r -> same_file (w_fds (world s)) (w_fds (world s')) fd r.
Proof. intros [[? _]|(f & H & _ & _ & ->)] Hr; [lia|]. exists f. split; [done|]. cbn. by rewrite lookup_insert_eq. Qed.

(** A descriptor number. *)
Definition is_fd (fd : Z) : Prop := 0 <= fd <= INT32_MAX.

Lemma fd_s32 fd : is_fd fd -> is_s32 fd.
Proof. unfold is_fd, is_s32. lia. Qed.

(** A descriptor written with [writeDupFileDescriptor], in the end. *)
Definition fd_items (fds : list Z) : list item := map (fun d => Object (fd_object d true)) fds.

Lemma fd_items_len fds : zlen (items_bytes (fd_items fds)) = sizeof_flat * zlen fds.
Proof.
  unfold items_bytes, fd_items. induction fds as [|d fds IH]; [done|]. cbn [map concat]. zl.
  rewrite IH. simpl item_bytes. rewrite flat_bytes_len. lia.
Qed.

Lemma fd_items_offsets pos fds : zlen (offsets pos (fd_items fds)) = zlen fds.
Proof. revert pos. induction fds as [|d fds IH]; intros pos; [done|]. cbn. zl. by rewrite IH. Qed.

(** What a successful write of descriptors leaves: [ds] are the duplicates the
    parcel now owns. *)
Record fds_written (s s' : PS) (fds ds : list Z) : Prop := {
  fw_laid : laid (this s) (this s') (fd_items ds);
  fw_same : Forall2 (same_file (w_fds (world s)) (w_fds (world s'))) fds ds;
  fw_opened : opened (w_fds (world s)) (w_fds (world s')) ds;
  fw_range : Forall is_fd ds;
}.

(** What every write leaves: our own buffer, with its invariant. *)
Definition writes (s s' : PS) : Prop :=
  wf (this s') /\ unowned s' /\ gMaxFds (world s') = gMaxFds (world s) /\
  mAllowFds (this s') = mAllowFds (this s) /\ world_frame (world s) (world s').

Lemma writes_refl s : wf (this s) -> unowned s -> writes s s.
Proof. intros. by split_and!. Qed.
Lemma writes_trans s1 s2 s3 : writes s1 s2 -> writes s2 s3 -> writes s1 s3.
Proof.
  intros (_ & _ & H1 & H2 & H3) (? & ? & H4 & H5 & H6). split_and!; [done|done|congruence|congruence|by etransitivity].
Qed.

Definition all_open (m : gmap Z Z) (fds : list Z) : Prop := Forall (fun fd => is_Some (m !! fd)) fds.

Lemma same_files_before base m m' got fds ds :
  opened base m got -> all_open base fds -> Forall2 (same_file m m') fds ds -> Forall2 (same_file base m') fds ds.
Proof.
  intros Ho Hopen H. induction H as [|fd d fds ds (f & H1 & H2) _ IH]; [constructor|].
  apply Forall_cons in Hopen as [[g Hg] Hopen]. constructor; [|auto]. exists f. split; [|done].
  rewrite Hg. by rewrite (opened_lookup _ _ _ _ _ Ho Hg) in H1.
Qed.

Lemma all_open_later base m got fds : opened base m got -> all_open base fds -> all_open m fds.
Proof. intros Ho H. eapply Forall_impl; [exact H|]. intros fd [f Hf]. exists f. by eapply opened_lookup. Qed.

Lemma fds_written_cons s s1 s2 fd fds d ds :
  wf (this s) -> all_open (w_fds (world s)) fds ->
  fds_written s s1 [fd] [d] -> fds_written s1 s2 fds ds ->
  fds_written s s2 (fd :: fds) (d :: ds).
Proof.
  intros Hwf Hopen [] []. apply Forall2_cons in fw_same0 as [(f & Hf & Hd) _].
  apply Forall_cons in fw_range0 as [Hr _].
  split.
  - change (d :: ds) with ([d] ++ ds). unfold fd_items. rewrite map_app. by eapply laid_app.
  - constructor; [exists f; split; [done|by eapply opened_lookup]|by eapply same_files_before].
  - by apply (opened_trans _ _ _ [d] ds fw_opened0).
  - by constructor.
Qed.

Lemma fds_at_writes s s' : balanced s s' -> wf (this s') -> fds_at (descriptors s) s' -> writes s s'.
Proof. intros [? _] ? [? [=]]. by split_and!. Qed.

(** Nothing stands in the way of [j] more descriptors. *)
Record plenty (j : Z) (s : PS) : Prop := {
  pl_heap : ~ can_fail (world s);
  pl_allow : mAllowFds (this s) = true;
  pl_fds : Z.of_nat (size (w_fds (world s))) + j <= gMaxFds (world s);
}.

Lemma plenty_writes s s' i j ds :
  plenty (i + j) s -> writes s s' -> opened (w_fds (world s)) (w_fds (world s')) ds -> zlen ds = i ->
  plenty j s'.
Proof.
  intros [] (_ & _ & Hg & Ha & Hw) Ho Hl. apply opened_size in Ho. destruct Hw. split; [|congruence|].
  - intros [x Hx]. apply pl_heap0. exists x. congruence.
  - unfold zlen in Hl. lia.
Qed.

Lemma writeDupFileDescriptor_ok F s fd n k :
  room (sizeof_flat + n) (1 + k) s -> 0 <= n -> 0 <= k -> gMaxFds (world s) <= INT32_MAX ->
  wpg F (writeDupFileDescriptor fd) s (fun st s' => writes s s' /\
    (st = NO_ERROR -> room n k s' /\ exists d, fds_written s s' [fd] [d]) /\
    (plenty 1 s -> is_Some (w_fds (world s) !! fd) -> st = NO_ERROR)).
Proof.
  intros Hr Hn Hk Hmax. unfold writeDupFileDescriptor. wp_step. wp_use dup_fd_ok. intros d s1 Hd.
  pose proof (rm_wf _ _ _ Hr) as Hwf. pose proof (rm_owner _ _ _ Hr) as Ho.
  zcase (d <? 0).
  { wp_step. destruct Hd as [(_ & -> & Hwhy)|(? & _ & _ & ? & _)]; [|lia].
    split_and!; [by apply writes_refl|unfold NO_ERROR in *; lia|].
    intros [] [f Hf]. destruct Hwhy; [congruence|lia]. }
  pose proof (duplicated_same _ _ _ _ Hd E) as Hsame.
  destruct Hd as [[? _]|(file & Hf & Hfree & Hd & ->)]; [lia|].
  set (s1 := mkPS _ _) in *.
  assert (Hw1 : writes s s1) by (by split_and!).
  assert (Hr1 : room (sizeof_flat + n) (1 + k) s1) by (destruct Hr; by split).
  wp_step. wp_use writeFileDescriptor_ok; [exact Hr1|lia|lia|]. intros st s2 (Hb & Hwf2 & Hat & Hl & Hok).
  pose proof (fds_at_writes _ _ Hb Hwf2 Hat) as Hw2.
  assert (Hw : writes s s2) by (by eapply writes_trans).
  zcase (st =? OK); wp_steps.
  - split_and!; [done| |done]. intros _. rewrite E0 in Hl. specialize (Hl eq_refl). destruct Hat as [Ho2 [=Ef _]].
    split.
    + apply (laid_room n k s1 s2 (fd_items [d])); [|lia|exact Hl|done].
      eapply room_le; [| |exact Hr1]; rewrite ?fd_items_len, ?fd_items_offsets; zl; lia.
    + exists d. split; [exact Hl| | |].
      * constructor; [|constructor]. by rewrite Ef.
      * rewrite Ef. apply (opened_snoc _ _ []); [apply opened_nil|done].
      * constructor; [|constructor]. unfold is_fd. lia.
  - unfold close. wp_step. split_and!; [|done|].
    + destruct Hw as (? & ? & ? & ? & []). split_and!; [done..|by split].
    + intros [Hh Ha _] _. by apply Hok.
Qed.

Lemma write_dup_fds_ok F s fds i m n k :
  room (sizeof_flat * Z.of_nat m + n) (Z.of_nat m + k) s -> 0 <= n -> 0 <= k ->
  gMaxFds (world s) <= INT32_MAX -> (i + m <= length fds)%nat ->
  all_open (w_fds (world s)) (take m (drop i fds)) ->
  wpg F (write_dup_fds fds i m) s (fun st s' => writes s s' /\
    (st = NO_ERROR -> room n k s' /\ exists ds, fds_written s s' (take m (drop i fds)) ds) /\
    (plenty (Z.of_nat m) s -> st = NO_ERROR)).
Proof.
  revert s i. induction m as [|m IH]; intros s i Hr Hn Hk Hmax Hl Hopen; cbn [write_dup_fds].
  { wp_step. pose proof Hr as []. split_and!; [by apply writes_refl| |done]. intros _.
    split; [eapply room_le; [| |exact Hr]; lia|]. exists []. split; [by apply laid_nil|constructor|apply opened_nil|constructor]. }
  destruct (lookup_lt_is_Some_2 fds i ltac:(lia)) as [fd Hfd]. rewrite (drop_S _ _ _ Hfd) in Hopen |- *.
  cbn [take] in *. apply Forall_cons in Hopen as [Hfo Hopen].
  rewrite Hfd. do 3 wp_step.
  wp_use (writeDupFileDescriptor_ok F s fd (sizeof_flat * Z.of_nat m + n) (Z.of_nat m + k)); [|lia|lia|done|].
  { eapply room_le; [| |exact Hr]; lia. }
  intros st s1 (Hw1 & Hok & Hpl). zcase (st =? NO_ERROR).
  2:{ wp_step. split_and!; [done|done|]. intros []. apply Hpl; [split; [done|done|lia]|done]. }
  destruct (Hok E) as [Hr1 [d Hd]]. wp_use IH; [exact Hr1|done|done| |lia| |].
  - destruct Hw1 as (_ & _ & -> & _). done.
  - eapply all_open_later; [apply Hd|done].
  - intros st2 s2 (Hw2 & Hok2 & Hpl2). split_and!; [by eapply writes_trans| |].
    + intros E2. destruct (Hok2 E2) as [Hr2 [ds Hds]].
      split; [done|]. exists (d :: ds). eapply fds_written_cons; [apply Hr|done|exact Hd|exact Hds].
    + intros Hp. apply Hpl2. eapply (plenty_writes s s1 1); [|done|apply Hd|done].
      replace (1 + Z.of_nat m) with (Z.of_nat (S m)) by lia. done.
Qed.

(** A plain write among them. *)
Lemma write_raw_ok F s m bs n k :
  room (zlen bs + n) k s -> 0 <= n -> (fits (this s) (zlen bs) -> wpg F m s (write_post s bs)) ->
  pres (fds_at (descriptors s)) m ->
  wpg F m s (fun st s' => writes s s' /\ w_fds (world s') = w_fds (world s) /\
    (st = NO_ERROR -> room n k s' /\ laid (this s) (this s') [Raw bs]) /\
    (~ can_fail (world s) -> st = NO_ERROR)).
Proof.
  intros Hr Hn Hm Hp. pose proof Hr as []. eapply wpg_mono.
  { apply (wpg_pres F (fds_at (descriptors s))); [done|done|]. apply Hm. eapply fits_le; [eassumption|lia]. }
  intros st s' [[Hb Hc] Hat]. assert (Hwf : wf (this s')) by (destruct Hc as [[_ []]|[_ []]]; done).
  split_and!; [by apply fds_at_writes|by destruct Hat as [_ [=]]| |].
  - intros E. destruct Hc as [[_ Hw%wrote_laid]|[? _]]; [|done]. split; [|done].
    apply (laid_room n k s s' [Raw bs]); [|done|done|apply Hat].
    unfold items_bytes. cbn. by rewrite app_nil_r.
  - intros Hf. destruct Hc as [[? _]|[_ []]]; done.
Qed.

(** In the middle of a sequence of writes: the items [l] were written since [s0]
    and the descriptors [ds] opened; there is room for [n] bytes, [k] objects and
    [j] descriptors more. *)
Record stage (n k j : Z) (s0 s : PS) (l : list item) (ds : list Z) : Prop := {
  st_start : wf (this s0);
  st_room : room n k s;
  st_plenty : plenty j s;
  st_writes : writes s0 s;
  st_laid : laid (this s0) (this s) l;
  st_opened : opened (w_fds (world s0)) (w_fds (world s)) ds;
}.

Lemma stage_start n k j s : room n k s -> plenty j s -> stage n k j s s [] [].
Proof.
  intros Hr Hp. pose proof Hr as []. split; [done|done|done|by apply writes_refl|by apply laid_nil|apply opened_nil].
Qed.

Lemma stage_le n k j n' k' s0 s l ds :
  n' <= n -> k' <= k -> stage n k j s0 s l ds -> stage n' k' j s0 s l ds.
Proof. intros ? ? []. split; try done. by eapply room_le. Qed.

Lemma stage_write F n k j s0 s l ds m bs :
  stage (zlen bs + n) k j s0 s l ds -> 0 <= n ->
  (fits (this s) (zlen bs) -> wpg F m s (write_post s bs)) -> pres (fds_at (descriptors s)) m ->
  wpg F m s (fun st s' => st = NO_ERROR /\ w_fds (world s') = w_fds (world s) /\
    stage n k j s0 s' (l ++ [Raw bs]) ds).
Proof.
  intros [] Hn Hm Hp. wp_use write_raw_ok; [done|done|done|done|].
  intros st s' (Hw & Ef & Hok & Hst). specialize (Hst (pl_heap _ _ st_plenty0)). subst st.
  split_and!; [done|done|]. destruct (Hok eq_refl) as [Hr Hl]. split; [done|done| | | |].
  - eapply (plenty_writes s s' 0 j []); [done|done| |done]. rewrite Ef. apply opened_nil.
  - by eapply writes_trans.
  - by eapply laid_app.
  - by rewrite Ef.
Qed.

Lemma then_write F n k j s0 s l ds m bs (rest : M PS status_t) Q :
  stage (zlen bs + n) k j s0 s l ds -> 0 <= n ->
  (fits (this s) (zlen bs) -> wpg F m s (write_post s bs)) -> pres (fds_at (descriptors s)) m ->
  (forall s', stage n k j s0 s' (l ++ [Raw bs]) ds -> wpg F rest s' Q) ->
  wpg F (m ;;? rest) s Q.
Proof.
  intros Hs Hn Hm Hp Hk. apply wpg_check_ok. wp_use stage_write; [exact Hs|done|done|done|].
  intros st s' (-> & _ & Hs'). split; [auto|done].
Qed.

Lemma then_int F n k j s0 s l ds v (rest : M PS status_t) Q :
  stage (4 + n) k j s0 s l ds -> 0 <= n ->
  (forall s', stage n k j s0 s' (l ++ [Raw (le_bytes 4 v)]) ds -> wpg F rest s' Q) ->
  wpg F (writeInt32 v ;;? rest) s Q.
Proof.
  intros Hs Hn Hk. eapply (then_write F n k j s0 s l ds _ (le_bytes 4 v)); [by rewrite zlen_le_bytes|done| |apply writeAligned_fds|exact Hk].
  intros Hf. apply writeInt32_ok; [apply Hs|]. by rewrite zlen_le_bytes in Hf.
Qed.

Lemma stage_fds F n k j s0 s l fds :
  stage (sizeof_flat * zlen fds + n) (zlen fds + k) (zlen fds + j) s0 s l [] -> 0 <= n -> 0 <= k -> 0 <= j ->
  gMaxFds (world s0) <= INT32_MAX -> all_open (w_fds (world s0)) fds ->
  forall all i, take (length fds) (drop i all) = fds -> (i + length fds <= length all)%nat ->
  wpg F (write_dup_fds all i (length fds)) s (fun st s' => st = NO_ERROR /\ exists ds,
    stage n k j s0 s' (l ++ fd_items ds) ds /\ Forall is_fd ds /\
    Forall2 (same_file (w_fds (world s0)) (w_fds (world s'))) fds ds).
Proof.
  intros [] Hn Hk Hj Hmax Hopen all i Hall Hlen. pose proof st_writes0 as (_ & _ & Hg & _).
  wp_use (write_dup_fds_ok F s all i (length fds) n k); [exact st_room0|done|done|by rewrite Hg|done| |].
  { rewrite Hall. by eapply all_open_later. }
  intros st s' (Hw & Hok & Hst). rewrite Hall in Hok.
  assert (st = NO_ERROR) as -> by (apply Hst; destruct st_plenty0; split; [done|done|unfold zlen in *; lia]).
  split; [done|].
  destruct (Hok eq_refl) as [Hr [ds []]]. exists ds.
  assert (Hl : length ds = length fds) by (symmetry; by eapply Forall2_length).
  split_and!; [split; [done|done| | | |]|done|by eapply same_files_before].
  - eapply (plenty_writes s s' (zlen fds)); [done|done|done|]. unfold zlen. lia.
  - by eapply writes_trans.
  - by eapply laid_app.
  - by apply (opened_trans _ _ _ [] ds st_opened0).
Qed.

Definition handle_items (h : native_handle) (ints ds : list Z) : list item :=
  Raw (le_bytes 4 (nh_numFds h)) :: Raw (le_bytes 4 (nh_numInts h)) ::
  fd_items ds ++ [Raw (padded (array_bytes 4 ints))].

(** A handle whose counts are those of its data, with all descriptors open. *)
Record good_handle (m : gmap Z Z) (h : native_handle) (fds ints : list Z) : Prop := {
  gh_version : nh_version h = sizeof_native_handle;
  gh_data : nh_data h = fds ++ ints;
  gh_fds : zlen fds = nh_numFds h;
  gh_ints : zlen ints = nh_numInts h;
  gh_open : all_open m fds;
  gh_range : Forall is_s32 ints;
}.

(** The bytes of a handle in a parcel. *)
Definition handle_size (h : native_handle) : Z := 8 + sizeof_flat * nh_numFds h + padz (4 * nh_numInts h).

Lemma writeNativeHandle_ok F s h fds ints :
  room (handle_size h) (nh_numFds h) s -> gMaxFds (world s) <= INT32_MAX ->
  good_handle (w_fds (world s)) h fds ints -> plenty (nh_numFds h) s ->
  wpg F (writeNativeHandle (Some h)) s (fun st s' => st = NO_ERROR /\ writes s s' /\
    exists ds, laid (this s) (this s') (handle_items h ints ds) /\
      Forall2 (same_file (w_fds (world s)) (w_fds (world s'))) fds ds /\
      opened (w_fds (world s)) (w_fds (world s')) ds /\ Forall is_fd ds).
Proof.
  intros Hr Hmax [] Hpl. pose proof (zlen_nonneg fds). pose proof (zlen_nonneg ints).
  pose proof (padz_bounds (4 * nh_numInts h)) as Hpad. unfold handle_size in Hr.
  pose proof (stage_start _ _ _ _ Hr Hpl) as Hs0.
  unfold writeNativeHandle. rewrite gh_version0. simpl negb. cbv iota.
  eapply (then_int F (4 + sizeof_flat * nh_numFds h + padz (4 * nh_numInts h)) (nh_numFds h));
    [eapply stage_le; [| |exact Hs0]; lia|lia|]. intros s1 H1.
  eapply (then_int F (sizeof_flat * nh_numFds h + padz (4 * nh_numInts h)) (nh_numFds h));
    [eapply stage_le; [| |exact H1]; lia|lia|]. intros s2 H2.
  apply wpg_check_ok. replace (Z.to_nat (nh_numFds h)) with (length fds) by (unfold zlen in *; lia).
  wp_use (stage_fds F (padz (4 * nh_numInts h)) 0 0 s s2 _ fds); try done; try lia.
  { rewrite gh_fds0, Z.add_0_r. exact H2. }
  { rewrite gh_data0, drop_0, take_app_le, take_ge; done. }
  { rewrite gh_data0, length_app. lia. }
  intros st s3 (-> & ds & H3 & Hr3 & Hf3). split; [intros _|done].
  unfold handle_ints. zdec (nh_numFds h <? 0). do 2 wp_step.
  rewrite gh_data0, drop_app_le, drop_ge, app_nil_l by (unfold zlen in *; lia).
  assert (Hlen : zlen (array_bytes 4 ints) = 4 * nh_numInts h) by (zl; lia).
  assert (Hp : zlen (padded (array_bytes 4 ints)) = padz (4 * nh_numInts h)) by (zl; rewrite Hlen; done).
  rewrite u64_small by (pose proof (fits_bound s3 _ (rm_wf _ _ _ (st_room _ _ _ _ _ _ _ H3))
    (rm_fits _ _ _ (st_room _ _ _ _ _ _ _ H3))); unfold is_u64; lia).
  rewrite <- Hlen. wp_use (stage_write F 0 0 0 s s3 _ ds).
  - rewrite Hp, Z.add_0_r. exact H3.
  - lia.
  - intros Hf. apply write_ok; [apply H3|auto with binder|by rewrite <- zlen_padded|]. left.
    pose proof (laid_size _ _ _ (st_start _ _ _ _ _ _ _ H3) (st_laid _ _ _ _ _ _ _ H3)) as Hsz.
    rewrite Hsz, app_nil_l, !items_bytes_app, !items_bytes_raw. zl.
    pose proof (wf_pos _ (st_start _ _ _ _ _ _ _ H3)). pose proof (zlen_nonneg (items_bytes (fd_items ds))). lia.
  - apply write_fds.
  - intros st s4 (-> & Ef & H4). split; [done|]. split; [apply H4|]. exists ds.
    rewrite <- (app_assoc _ (fd_items ds)) in H4. rewrite Ef. split_and!; [apply H4|done| |done].
    rewrite <- Ef. apply H4.
Qed.

(** Duplicating the descriptors that come next in the parcel. *)
Lemma read_dup_fds_ok F s checked ds got l :
  wf (this s) -> holds (this s) (fd_items ds ++ l) -> Forall is_fd ds -> all_open (w_fds (world s)) ds ->
  Z.of_nat (size (w_fds (world s))) + zlen ds <= gMaxFds (world s) ->
  wpg F (read_dup_fds checked (length ds) got) s (fun r s' => exists new, r = Some (got ++ new) /\
    wf (this s') /\ mData (this s') = mData (this s) /\ holds (this s') l /\
    opened (w_fds (world s)) (w_fds (world s')) new /\
    Forall2 (same_file (w_fds (world s)) (w_fds (world s'))) ds new).
Proof.
  revert s got. induction ds as [|d ds IH]; intros s got Hwf Hh Hr Hopen Hmax; cbn [length read_dup_fds].
  { wp_step. exists []. rewrite app_nil_r. split_and!; [done|done|done|done|apply opened_nil|constructor]. }
  apply Forall_cons in Hr as [Hd Hr], Hopen as [[f Hf] Hopen]. zl. pose proof (zlen_nonneg ds).
  wp_step. wp_use read_fd; [by apply fd_s32|done|exact Hh|]. intros r s1 (-> & (Hw1 & Hwf1 & Hp1) & Hh1).
  unfold is_fd in Hd. zdec (d <? 0). rewrite andb_false_r.
  wp_step. wp_use dup_fd_ok. rewrite <- Hw1 in Hf, Hopen, Hmax. intros r s2 Hdup. zcase (r <? 0).
  { destruct Hdup as [(_ & _ & [?|?])|(? & _ & _ & ? & _)]; [congruence|lia|lia]. }
  pose proof (duplicated_same _ _ _ _ Hdup E) as Hsame.
  destruct Hdup as [[? _]|(file & Hfile & Hfree & Hlt & ->)]; [lia|].
  assert (Ho : opened (w_fds (world s1)) (<[r := file]> (w_fds (world s1))) [r])
    by (apply (opened_snoc _ _ []); [apply opened_nil|done]).
  wp_use IH; [done|exact Hh1|done|by eapply all_open_later| |].
  { cbn. rewrite (opened_size _ _ _ Ho). simpl. lia. }
  intros o s3 (new & -> & Hwf3 & Ed3 & Hh3 & Ho3 & Hs3). exists (r :: new). rewrite <- app_assoc, <- Hw1.
  split_and!; [done|done|by rewrite Ed3; apply (peq_data _ _ Hp1)|done|by apply (opened_trans _ _ _ [r] new Ho)|].
  constructor; [|by eapply same_files_before]. rewrite Hw1.
  destruct Hsame as (g & Hg1 & Hg2). exists g. split; [by rewrite <- Hw1|]. by eapply opened_lookup.
Qed.

Lemma read_decodes bs : zlen bs <= INT32_MAX -> decodes (read (zlen bs)) (padded bs) (Good bs).
Proof.
  intros Hl F s Hwf Hav. pose proof Hav as []. pose proof (zlen_nonneg bs). pose proof (padz_bounds (zlen bs)).
  wp_use read_ok; [done|lia|]. rewrite zlen_padded in *. intros r s' [Hst ->].
  unfold aligned_state in Hst.
  replace (mDataSize (this s) <? mDataPos (this s) + padz (zlen bs)) with false in *
    by (symmetry; apply Z.ltb_ge; lia).
  rewrite decide_True by done. split; [|done]. f_equal.
  apply (avail_app _ _ (zeros (padz (zlen bs) - zlen bs)) Hwf Hav).
Qed.

Lemma ints_back ints :
  Forall is_s32 ints -> map s32 (split_array 4 (length ints) (array_bytes 4 ints)) = ints.
Proof.
  intros H. rewrite split_array_mod. induction H as [|v vs Hv _ IH]; [done|]. cbn [map]. f_equal; [|exact IH].
  change (256 ^ Z.of_nat 4) with 4294967296. rewrite s32_mod. by apply s32_small.
Qed.

(** Reading the items of a handle. *)
Lemma readNativeHandle_ok `{NativeHandleLaws} F s h ints ds :
  wf (this s) -> holds (this s) (handle_items h ints ds) -> Forall is_fd ds -> all_open (w_fds (world s)) ds ->
  Z.of_nat (size (w_fds (world s))) + zlen ds <= gMaxFds (world s) ->
  is_s32 (nh_numFds h) -> is_s32 (nh_numInts h) -> zlen ds = nh_numFds h -> zlen ints = nh_numInts h ->
  zlen (array_bytes 4 ints) <= INT32_MAX -> Forall is_s32 ints ->
  (forall w, is_Some (native_handle_create w (nh_numFds h) (nh_numInts h))) ->
  wpg F readNativeHandle s (fun r s' => exists h' new, r = Some h' /\ nh_data h' = new ++ ints /\
    nh_numFds h' = nh_numFds h /\ nh_numInts h' = nh_numInts h /\
    opened (w_fds (world s)) (w_fds (world s')) new /\
    Forall2 (same_file (w_fds (world s)) (w_fds (world s'))) ds new).
Proof.
  intros Hwf Hh Hd Hopen Hmax Hsf Hsi Hnf Hni Hlen Hints Hc. unfold readNativeHandle.
  wp_step. wp_use read_raw; [exact (readInt32_decodes _ Hsf)|unfold readInt32; pres|done|exact Hh|].
  intros r s1 (-> & (Hw1 & Hwf1 & _) & Hh1).
  wp_step. wp_use read_raw; [exact (readInt32_decodes _ Hsi)|unfold readInt32; pres|done|exact Hh1|].
  intros r s2 (-> & (Hw2 & Hwf2 & _) & Hh2). wp_steps.
  destruct (Hc (world s2)) as [h0 Eh]. rewrite Eh. apply created in Eh as (Hf & Hi & Hv & Ef & Ei & Hl).
  rewrite <- Hw1, <- Hw2 in *. rewrite <- Hnf at 1. unfold zlen at 1. rewrite Nat2Z.id.
  wp_step. wp_use read_dup_fds_ok; [done|exact Hh2|done|done|done|].
  intros o s3 (new & -> & Hwf3 & _ & Hh3 & Ho3 & Hs3).
  assert (Hu : u64 (4 * nh_numInts h) = zlen (array_bytes 4 ints)).
  { rewrite u64_small; [zl; lia|]. revert Hlen. zl. unfold is_u64. lia. }
  rewrite Hu. wp_step. wp_use read_raw; [by apply read_decodes|auto with pres|done|exact Hh3|].
  intros r s4 (-> & (Hw4 & _) & _). wp_step. exists (mkHandle (nh_version h0) (nh_numFds h0) (nh_numInts h0) (new ++ ints)), new.
  rewrite Hw4. cbn. split_and!; [|done..].
  rewrite <- Hni. unfold zlen at 1. by rewrite Nat2Z.id, ints_back.
Qed.

(** A native handle written to a parcel and read back has the same counts and
    integers, and its descriptors are new ones of the same open files; neither
    direction can fail while memory and descriptors last. *)
Theorem native_handle_roundtrip `{NativeHandleLaws} (s : PS) (h : native_handle) (fds ints : list Z) :
  room (handle_size h) (nh_numFds h) s -> gMaxFds (world s) <= INT32_MAX ->
  good_handle (w_fds (world s)) h fds ints -> plenty (nh_numFds h + nh_numFds h) s ->
  (forall w, is_Some (native_handle_create w (nh_numFds h) (nh_numInts h))) ->
  wp (let* pos := getp dataPosition in
      let* st := writeNativeHandle (Some h) in
      setDataPosition pos ;;
      let* r := readNativeHandle in
      ret (st, r)) s (fun '(st, r) s' => st = OK /\
    exists h' fds', r = Some h' /\ nh_data h' = fds' ++ ints /\
      nh_numFds h' = nh_numFds h /\ nh_numInts h' = nh_numInts h /\
      NoDup fds' /\ Forall2 (same_file (w_fds (world s)) (w_fds (world s'))) fds fds').
Proof.
  intros Hr Hmax Hg Hpl Hc. pose proof Hg as []. do 3 wp_step. wp_use writeNativeHandle_ok; [done|done|done| |].
  { pose proof (zlen_nonneg fds). destruct Hpl. split; [done|done|lia]. }
  intros st s1 (-> & Hw1 & ds & Hl1 & Hs1 & Ho1 & Hd1).
  pose proof (rm_wf _ _ _ Hr) as Hwf. pose proof (wf_pos _ Hwf).
  assert (Hlen : zlen ds = zlen fds) by (unfold zlen; f_equal; symmetry; by eapply Forall2_length).
  wp_step. apply setDataPosition_objs; [apply Hw1|rewrite (laid_size _ _ _ Hwf Hl1); unfold dataPosition; lia|].
  intros s2 Ew2 Hwf2 Hp2 Eo2. pose proof (laid_holds _ _ _ _ _ _ Hr Hl1 Hp2 Eo2) as Hh.
  pose proof (opened_size _ _ _ Ho1). destruct Hpl as [Hheap Hallow Hfds]. destruct Hw1 as (_ & _ & Hg1 & _).
  pose proof (zlen_nonneg ints). pose proof (zlen_nonneg fds). pose proof (padz_bounds (4 * nh_numInts h)).
  pose proof (fits_bound s _ Hwf (rm_fits _ _ _ Hr)) as Hb. unfold handle_size in Hb.
  wp_step. wp_use readNativeHandle_ok; [done|exact Hh|done|..]; rewrite ?Ew2.
  - apply Forall_forall. intros d Hin. by destruct (op_new _ _ _ Ho1 d Hin).
  - rewrite Hg1. unfold zlen in *. lia.
  - unfold is_s32. lia.
  - unfold is_s32. lia.
  - lia.
  - done.
  - zl. lia.
  - done.
  - done.
  - intros r s3 (h' & new & -> & Ed & Ef & Ei & Ho & Hs). wp_step. split; [done|].
    exists h', new. split_and!; [done..|apply Ho|]. by eapply same_files_trans.
Qed.
