(* ===== verification/ParcelFlattenProps.v ===== *)
(** Buffers reserved in a parcel and filled in place: flattenable objects, light
    flattenables and UTF-8 strings are read back as they were written. *)

From S2P Require Import Prelude Errors ParcelState ParcelWrite ParcelRead ParcelObject ParcelFormats.
From S2P Require Import ParcelInv ParcelWriteSpec ParcelReadSpec ParcelDataSpec ParcelObjectSpec ParcelFrame ParcelItems ParcelFormatsProps.

(** * Reserving and filling *)

(** [len] bytes were reserved between [s] and [s1]; they hold [y]. *)
Record reserved (s s1 : PS) (len : Z) (y : bytes) : Prop := {
  rs_balanced : balanced s s1;
  rs_len : zlen y = len;
  rs_wrote : wrote (this s) (this s1) (y ++ zeros (padz len - len));
  rs_fds : fds_at (descriptors s) s1;
}.

Lemma reserve_ok F n k j s0 s l ds len :
  stage (padz len + n) k j s0 s l ds -> 0 <= n -> 0 <= len -> 0 < mDataSize (this s) \/ 0 < len ->
  wpg F (writeInplace len) s (fun o s1 => o = Some (mDataPos (this s)) /\ exists y, reserved s s1 len y).
Proof.
  intros [] Hn Hl Hne. pose proof st_room as []. eapply wpg_mono.
  { apply (wpg_pres F (fds_at (descriptors s))); [auto with pres|done|].
    apply writeInplace_ok; [done|done|]. eapply fits_le; [exact rm_fits|lia]. }
  intros o s1 [[Hb [(-> & y & Hy & Hby & Hw)|(_ & _ & Hf)]] Hat].
  2:{ by destruct (pl_heap _ _ st_plenty). }
  split; [|exists y; by split]. apply pointer_of_Some; [apply Hw|].
  rewrite (wrote_size _ _ _ rm_wf Hw). zl. pose proof (padz_bounds len). rewrite zlen_zeros by lia.
  pose proof (wf_pos _ rm_wf). pose proof (wf_size _ rm_wf). lia.
Qed.

Lemma reserved_quiet s s1 s2 len y :
  reserved s s1 len y -> quiet s1 s2 -> fds_at (descriptors s) s2 -> reserved s s2 len y.
Proof.
  intros [] Hq Hf. pose proof Hq as (E & _). split; [|done|by rewrite E|done].
  etransitivity; [done|by apply quiet_balanced].
Qed.

(** The buffer can be read, and what is stored in it replaces what it held. *)
Lemma reserved_load F n k j s0 s s1 l ds len y Q :
  stage (padz len + n) k j s0 s l ds -> 0 <= len -> reserved s s1 len y ->
  (forall bs, zlen bs = len -> Q bs s1) -> wpg F (load_at (mDataPos (this s)) len) s1 Q.
Proof.
  intros [] Hl [] HQ. unfold load_at. zcase (len =? 0); [wp_step; apply HQ; by rewrite E|].
  pose proof st_room as []. pose proof (padz_bounds len). pose proof (wf_pos _ rm_wf).
  pose proof (wrote_size _ _ _ rm_wf rs_wrote0) as Hs. revert Hs. zl. rewrite zlen_zeros by lia. intros Hs.
  pose proof (wf_size _ (wr_wf _ _ _ rs_wrote0)). pose proof (wf_block _ (wr_wf _ _ _ rs_wrote0)).
  apply load_ok; [lia|lia|lia|]. apply HQ. apply zlen_ztake. rewrite zlen_zdrop; lia.
Qed.

Lemma reserved_fill F n k j s0 s s1 l ds bs y :
  stage (padz (zlen bs) + n) k j s0 s l ds -> 0 <= n -> reserved s s1 (zlen bs) y -> Forall is_byte bs ->
  wpg F (store (mDataPos (this s)) bs) s1 (fun _ s2 =>
    stage n k j s0 s2 (l ++ [Raw (padded bs)]) ds /\ w_fds (world s2) = w_fds (world s)).
Proof.
  intros [] Hn [] Hb. pose proof st_room as []. eapply wpg_mono.
  { apply (wpg_pres F (fds_at (descriptors s))); [auto with pres|done|].
    rewrite <- (Z.add_0_r (mDataPos (this s))). apply (store_wrote F s s1 (y ++ zeros (padz (zlen bs) - zlen bs)) 0); [done|done|exact rs_wrote0|done|lia|].
    zl. pose proof (zlen_nonneg (zeros (padz (zlen bs) - zlen bs))). lia. }
  intros [] s2 [[Hb2 Hw] Hat]. rewrite overwrite_head in Hw by done. fold (padded bs) in Hw.
  pose proof (wr_wf _ _ _ Hw) as Hwf2. pose proof (fds_at_writes _ _ Hb2 Hwf2 Hat) as Hwr.
  assert (Ef : w_fds (world s2) = w_fds (world s)) by (by destruct Hat as [_ [=]]).
  split; [|done]. split; [done| | |by eapply writes_trans| |by rewrite Ef].
  - apply (laid_room n k s s2 [Raw (padded bs)]); [|done|by apply wrote_laid|apply Hat].
    rewrite items_bytes_raw, zlen_padded. exact st_room.
  - eapply (plenty_writes s s2 0 j []); [done|done| |done]. rewrite Ef. apply opened_nil.
  - eapply laid_app; [done|done|by apply wrote_laid].
Qed.

(** * Flattenable objects *)

(** What an object that flattens promises: it fills the buffer and names its
    descriptors, which are open. *)
Definition flattens `{FlattenableHelperInterface T} (m : gmap Z Z) (val : T) : Prop :=
  0 <= getFlattenedSize val /\ 0 <= getFdCount val /\
  forall before junk, zlen before = getFlattenedSize val -> zlen junk = getFdCount val ->
    exists after fds, flatten val before junk = (NO_ERROR, after, fds) /\
      zlen after = getFlattenedSize val /\ Forall is_byte after /\
      zlen fds = getFdCount val /\ all_open m fds.

Definition flat_size (len count : Z) : Z := 8 + padz len + sizeof_flat * count.

Definition flat_items (after ds : list Z) : list item :=
  [Raw (le_bytes 4 (zlen after)); Raw (le_bytes 4 (zlen ds)); Raw (padded after)] ++ fd_items ds.

Lemma new_fds_writes F x s n :
  fds_at x s -> ~ can_fail (world s) -> 0 <= n ->
  wpg F (new_fds n) s (fun o s' => quiet s s' /\ fds_at x s' /\
    exists junk, o = Some junk /\ zlen junk = n).
Proof.
  intros Hat Hf Hn. unfold new_fds. zcase (n =? 0); [wp_step; split_and!; [done|done|by exists []]|].
  set (mk := fun junk => _). eapply wpg_mono.
  { apply (wpg_pres F (fds_at x)); [auto with pres|done|apply (alloc_ok F mk)]. }
  intros [v|] s' [[Hq Hj] Hat']; [|done]. destruct Hj as [junk ->]. split_and!; [done|done|].
  exists (mk junk). split; [done|]. unfold mk, zlen. rewrite length_map, length_seq. lia.
Qed.

Lemma write_flattenable_ok `{FlattenableHelperInterface T} F s (val : T) :
  let len := getFlattenedSize val in let count := getFdCount val in
  flattens (w_fds (world s)) val -> room (flat_size len count) count s -> plenty count s ->
  count < gMaxFds (world s) -> gMaxFds (world s) <= INT32_MAX ->
  wpg F (write_flattenable val) s (fun st s' => st = NO_ERROR /\ writes s s' /\
    exists before junk after fds ds, flatten val before junk = (NO_ERROR, after, fds) /\
      zlen after = len /\ zlen fds = count /\
      laid (this s) (this s') (flat_items after ds) /\ Forall is_fd ds /\
      opened (w_fds (world s)) (w_fds (world s')) ds /\
      Forall2 (same_file (w_fds (world s)) (w_fds (world s'))) fds ds).
Proof.
  intros len count (Hl & Hc & Hfl) Hr Hpl Hcount Hmax. pose proof (stage_start _ _ _ _ Hr Hpl) as Hs0.
  fold len count in Hl, Hc, Hfl. pose proof (padz_bounds len).
  pose proof (fits_bound s _ (rm_wf _ _ _ Hr) (rm_fits _ _ _ Hr)) as Hb. unfold flat_size in *.
  unfold write_flattenable. fold len count. do 2 wp_step. zdec (INT32_MAX <? len).
  zdec (gMaxFds (world s) <=? count). simpl orb. cbv iota.
  eapply (then_int F (4 + padz len + sizeof_flat * count) count); [eapply stage_le; [| |exact Hs0]; lia|lia|]. intros s1 H1.
  eapply (then_int F (padz len + sizeof_flat * count) count); [eapply stage_le; [| |exact H1]; lia|lia|]. intros s2 H2.
  assert (Hne : 0 < mDataSize (this s2)).
  { rewrite (laid_size _ _ _ (st_start _ _ _ _ _ _ _ H2) (st_laid _ _ _ _ _ _ _ H2)), app_nil_l, items_bytes_app, !items_bytes_raw.
    zl. pose proof (wf_pos _ (rm_wf _ _ _ Hr)). lia. }
  wp_step. wp_use reserve_ok; [exact H2|lia|done|by left|]. intros o s3 (-> & y & H3).
  pose proof (rs_balanced _ _ _ _ H3) as Hb3. pose proof (balanced_can_fail _ _ Hb3) as Hcf.
  pose proof (pl_heap _ _ (st_plenty _ _ _ _ _ _ _ H2)) as Hheap.
  wp_step. wp_use new_fds_writes; [apply H3|by intros ?%Hcf|exact Hc|].
  intros o s4 (Hq & Hat & junk & -> & Hj). pose proof (reserved_quiet _ _ _ _ _ H3 Hq Hat) as H4.
  wp_step. eapply reserved_load; [exact H2|done|exact H4|]. intros before Hbefore.
  destruct (Hfl before junk Hbefore Hj) as (after & fds & Efl & Hal & Hab & Hfds & Hopen). rewrite Efl.
  rewrite <- Hal in H2, H4. wp_step. wp_use reserved_fill; [exact H2|lia|exact H4|exact Hab|].
  intros [] s5 [H5 Ef5]. simpl Z.eqb. cbv iota. replace (Z.to_nat count) with (length fds) by (unfold zlen in Hfds; lia).
  wp_use (stage_fds F 0 0 0 s s5 _ fds); try done; try lia.
  { rewrite Hfds, !Z.add_0_r. exact H5. }
  { by rewrite drop_0, take_ge. }
  intros st s6 (-> & ds & H6 & Hds & Hsame). split; [done|]. split; [apply H6|].
  exists before, junk, after, fds, ds. split_and!; [done|done|done| |done|apply H6|done].
  assert (Hld : zlen ds = count) by (rewrite <- Hfds; unfold zlen; f_equal; symmetry; by eapply Forall2_length).
  unfold flat_items. rewrite Hld. apply H6.
Qed.

(** ** Reading back *)

Lemma padz_padz n : padz (padz n) = padz n.
Proof. unfold padz. set (q := (n + 3) / 4). replace (4 * q + 3) with (3 + q * 4) by lia. by rewrite Z.div_add. Qed.

Lemma padded_padded bs : padded (padded bs) = padded bs.
Proof. unfold padded at 1. by rewrite zlen_padded, padz_padz, Z.sub_diag, app_nil_r. Qed.

(** The buffer that comes next. *)
Lemma read_buffer F s bs l (Q : option Z -> PS -> Prop) :
  wf (this s) -> 0 < mDataSize (this s) -> holds (this s) (Raw (padded bs) :: l) -> zlen bs <= INT32_MAX ->
  (forall s1, consumed s (padz (zlen bs)) s1 -> holds (this s1) l -> region (this s1) (mDataPos (this s)) bs ->
     Q (Some (mDataPos (this s))) s1) ->
  wpg F (readInplace (zlen bs)) s Q.
Proof.
  intros Hwf Hne Hh Hl HQ. pose proof (holds_avail _ _ _ Hwf Hh) as Hav. eapply wpg_mono.
  { apply (wpg_pres F tabled) with (Q := fun o s1 => o = Some (mDataPos (this s)) /\
      consumed s (padz (zlen bs)) s1 /\ region (this s1) (mDataPos (this s)) bs);
      [auto with pres|by eapply holds_tabled|]. by apply readInplace_region. }
  intros o s1 [(-> & Hc & Hr) [Hs _]]. apply HQ; [done| |done].
  eapply (holds_rest _ _ (Raw (padded bs))); [done|done| |done]. simpl item_bytes. by rewrite zlen_padded.
Qed.

(** The same, asked for with its padding. *)
Lemma read_padded F s bs l (Q : option Z -> PS -> Prop) :
  wf (this s) -> 0 < mDataSize (this s) -> holds (this s) (Raw (padded bs) :: l) -> padz (zlen bs) <= INT32_MAX ->
  (forall s1, consumed s (padz (zlen bs)) s1 -> holds (this s1) l -> region (this s1) (mDataPos (this s)) (padded bs) ->
     Q (Some (mDataPos (this s))) s1) ->
  wpg F (readInplace (padz (zlen bs))) s Q.
Proof.
  intros Hwf Hne Hh Hl HQ. rewrite <- zlen_padded. eapply read_buffer; [done|done|by rewrite padded_padded|by rewrite zlen_padded|].
  rewrite zlen_padded, padz_padz. exact HQ.
Qed.

Lemma region_load F s off bs rest Q :
  region (this s) off (bs ++ rest) -> Q bs s -> wpg F (load_at off (zlen bs)) s Q.
Proof.
  intros Hr HQ. unfold load_at. zcase (zlen bs =? 0); [|by eapply load_region_head].
  wp_step. destruct bs; [done|]. unfold zlen in E. simpl in E. lia.
Qed.

Lemma new_fds_reads F s n :
  ~ can_fail (world s) ->
  wpg F (new_fds n) s (fun o s' => this s' = this s /\ descriptors s' = descriptors s /\ is_Some o).
Proof.
  intros Hf. unfold new_fds. destruct (n =? 0); [by wp_step|]. unfold alloc. wp_steps. split_and!; [done|done|].
  destruct (w_heap (world s) (w_mallocs (world s))) eqn:E; [by eexists|]. destruct Hf. by eexists.
Qed.

Lemma read_flattenable_ok `{FlattenableHelperInterface T} F s (val : T) after ds :
  wf (this s) -> 0 < mDataSize (this s) -> holds (this s) (flat_items after ds) ->
  Forall is_fd ds -> all_open (w_fds (world s)) ds ->
  Z.of_nat (size (w_fds (world s))) + zlen ds <= gMaxFds (world s) -> zlen ds < gMaxFds (world s) ->
  zlen ds <= INT32_MAX -> padz (zlen after) <= INT32_MAX -> ~ can_fail (world s) ->
  wpg F (read_flattenable val) s (fun r s' => exists new, r = unflatten val after new /\
    opened (w_fds (world s)) (w_fds (world s')) new /\
    Forall2 (same_file (w_fds (world s)) (w_fds (world s'))) ds new).
Proof.
  intros Hwf Hne Hh Hds Hopen Hmax Hcount Hc Hl Hf. pose proof (zlen_nonneg after). pose proof (zlen_nonneg ds).
  pose proof (padz_bounds (zlen after)). unfold read_flattenable.
  assert (Hi : forall v, 0 <= v <= INT32_MAX -> is_s32 v) by (intros; unfold is_s32; lia).
  wp_step. wp_use read_raw; [exact (readInt32_decodes_ (zlen after) ltac:(apply Hi; lia))|unfold readInt32_, readInt32; pres|done|exact Hh|].
  intros r s1 (-> & (Hw1 & Hwf1 & Hp1) & Hh1).
  wp_step. wp_use read_raw; [exact (readInt32_decodes_ (zlen ds) ltac:(apply Hi; lia))|unfold readInt32_, readInt32; pres|done|exact Hh1|].
  intros r s2 (-> & (Hw2 & Hwf2 & Hp2) & Hh2). do 2 wp_step.
  rewrite !u64_small by (unfold is_u64; lia). rewrite <- Hw1, <- Hw2 in *.
  zdec (INT32_MAX <? zlen after). zdec (gMaxFds (world s2) <=? zlen ds). simpl orb. cbv iota.
  wp_step. apply pad_size_ok; [lia|]. wp_step. eapply (read_padded F s2 after); [done| |exact Hh2|done|].
  { rewrite (peq_size _ _ Hp2). simpl. rewrite (peq_size _ _ Hp1). done. }
  intros s3 (Hw3 & Hwf3 & _) Hh3 Hreg. wp_step.
  wp_use new_fds_reads; [by rewrite Hw3|]. intros o s4 (E4 & [=Ef4 Eg4 _] & [junk ->]).
  rewrite <- E4 in Hwf3, Hh3, Hreg. rewrite <- Hw3, <- Ef4, <- Eg4 in *.
  unfold zlen at 1. rewrite Nat2Z.id. rewrite <- (app_nil_r (fd_items ds)) in Hh3.
  wp_step. wp_use read_dup_fds_ok; [done|exact Hh3|done|done|done|].
  intros o s5 (new & -> & Hwf5 & Ed5 & _ & Ho5 & Hs5). wp_step.
  assert (Hreg5 : region (this s5) (mDataPos (this s2)) (padded after)).
  { destruct Hreg. split; unfold data_block in *; rewrite ?Ed5; done. }
  eapply region_load; [exact Hreg5|]. wp_step. by exists new.
Qed.

Lemma flat_items_len after ds : zlen (items_bytes (flat_items after ds)) = flat_size (zlen after) (zlen ds).
Proof.
  unfold flat_items, flat_size. rewrite items_bytes_app, !items_bytes_cons, !zlen_app, fd_items_len.
  cbn [item_bytes]. rewrite !zlen_le_bytes, zlen_padded. change (zlen (items_bytes [])) with 0. lia.
Qed.



(** * Light flattenables and UTF-8 strings *)

Definition light_items (fixed : bool) (after : bytes) : list item :=
  (if fixed then [] else [Raw (le_bytes 4 (zlen after))]) ++
  (if zlen after =? 0 then [] else [Raw (padded after)]).

Definition light_flattens `{LightFlattenable T} (val : T) : Prop :=
  0 <= lightSize val /\
  forall before, zlen before = lightSize val -> exists after, lightFlatten val before = (NO_ERROR, after) /\
    zlen after = lightSize val /\ Forall is_byte after.

Lemma write_light_ok `{LightFlattenable T} F s (val : T) :
  light_flattens val -> room (4 + padz (lightSize val)) 0 s -> plenty 0 s ->
  wpg F (write_light val) s (fun st s' => st = NO_ERROR /\ writes s s' /\
    exists before after, lightFlatten val before = (NO_ERROR, after) /\ zlen after = lightSize val /\
      laid (this s) (this s') (light_items (isFixedSize val) after)).
Proof.
  intros [Hl Hfl] Hr Hpl. set (size := lightSize val) in *. pose proof (padz_bounds size).
  pose proof (stage_start _ _ _ _ Hr Hpl) as Hs0.
  pose proof (fits_bound s _ (rm_wf _ _ _ Hr) (rm_fits _ _ _ Hr)) as Hb.
  set (head := if isFixedSize val then [] else [Raw (le_bytes 4 size)]).
  assert (Hrest : forall s1, stage (padz size) 0 0 s s1 head [] ->
    wpg F (if size =? 0 then ret NO_ERROR else
           let* buffer := writeInplace size in
           match buffer with
           | None => ret NO_MEMORY
           | Some off =>
               let* before := load_at off size in
               let '(err, after) := lightFlatten val before in
               store off after ;; ret err
           end) s1 (fun st s' => st = NO_ERROR /\ writes s s' /\
      exists before after, lightFlatten val before = (NO_ERROR, after) /\ zlen after = size /\
        laid (this s) (this s') (light_items (isFixedSize val) after))).
  { intros s1 H1. zcase (size =? 0).
    - wp_step. split; [done|]. split; [apply H1|]. destruct (Hfl [] ltac:(done)) as (after & Ha & Hal & _).
      exists [], after. split_and!; [done|done|]. unfold light_items. rewrite Hal.
      replace (size =? 0) with true by (symmetry; by apply Z.eqb_eq). rewrite app_nil_r. apply H1.
    - wp_step. wp_use (reserve_ok F 0 0 0 s s1 head [] size); [by rewrite Z.add_0_r|done|done|right; lia|].
      intros o s2 (-> & y & H2). wp_step. rewrite <- (Z.add_0_r (padz size)) in H1.
      eapply reserved_load; [exact H1|done|exact H2|]. intros before Hbefore.
      destruct (Hfl before Hbefore) as (after & Ha & Hal & Hab). rewrite Ha.
      rewrite <- Hal in H1, H2. wp_step. wp_use reserved_fill; [exact H1|done|exact H2|exact Hab|].
      intros [] s3 [H3 _]. wp_step. split; [done|]. split; [apply H3|]. exists before, after.
      split_and!; [done|done|]. unfold light_items. rewrite Hal.
      replace (size =? 0) with false by (symmetry; by apply Z.eqb_neq). apply H3. }
  unfold write_light. fold size. apply wpg_check_ok. destruct (isFixedSize val).
  - wp_step. split; [intros _|done]. apply Hrest. eapply stage_le; [| |exact Hs0]; lia.
  - zdec (INT32_MAX <? size). wp_use (stage_write F (padz size) 0 0 s s [] [] _ (le_bytes 4 size)).
    + zl. eapply stage_le; [| |exact Hs0]; lia.
    + lia.
    + intros Hf. apply writeInt32_ok; [apply Hr|by rewrite zlen_le_bytes in Hf].
    + apply writeAligned_fds.
    + intros st s1 (-> & _ & H1). split; [intros _; by apply Hrest|done].
Qed.

(** A light flattenable is rebuilt from the bytes it wrote; one of size 0 is left
    as it is. *)
Theorem light_roundtrip `{LightFlattenable T} (s : PS) (val dest : T) :
  light_flattens val -> isFixedSize dest = isFixedSize val ->
  (isFixedSize val = true -> lightSize dest = lightSize val) ->
  room (4 + padz (lightSize val)) 0 s -> plenty 0 s ->
  wp (let* pos := getp dataPosition in
      let* st := write_light val in
      setDataPosition pos ;;
      let* r := read_light dest in
      ret (st, r)) s (fun '(st, r) _ => st = OK /\
    if lightSize val =? 0 then r = (NO_ERROR, dest)
    else exists before after, lightFlatten val before = (NO_ERROR, after) /\ r = lightUnflatten dest after).
Proof.
  intros Hf Hfix Hsize Hr Hpl. pose proof Hf as [Hl _]. pose proof (padz_bounds (lightSize val)).
  pose proof (fits_bound s _ (rm_wf _ _ _ Hr) (rm_fits _ _ _ Hr)) as Hb.
  do 3 wp_step. wp_use write_light_ok; [done..|].
  intros st s1 (-> & Hw1 & before & after & Efl & Hal & Hl1). pose proof (rm_wf _ _ _ Hr) as Hwf.
  pose proof (wf_pos _ Hwf). pose proof (laid_size _ _ _ Hwf Hl1) as Hsz.
  pose proof (zlen_nonneg (items_bytes (light_items (isFixedSize val) after))).
  wp_step. apply setDataPosition_objs; [apply Hw1|unfold dataPosition; lia|].
  intros s2 Ew2 Hwf2 Hp2 Eo2. pose proof (laid_holds _ _ _ _ _ _ Hr Hl1 Hp2 Eo2) as Hh.
  wp_step. unfold read_light. wp_step.
  eapply wpg_mono with (P := fun r s3 => r = Good (lightSize val) /\ wf (this s3) /\
    holds (this s3) (if lightSize val =? 0 then [] else [Raw (padded after)])).
  - unfold light_items in Hh. rewrite Hal in Hh. rewrite Hfix. destruct (isFixedSize val).
    { wp_step. rewrite Hsize by done. done. }
    assert (Hs32 : is_s32 (lightSize val)) by (unfold is_s32; lia).
    unfold bind_res. wp_step. wp_use read_raw; [exact (readInt32_decodes _ Hs32)|unfold readInt32; pres|done|exact Hh|].
    intros r s3 (-> & (_ & Hwf3 & _) & Hh3). wp_step. rewrite u64_small by (unfold is_u64; lia). done.
  - intros r s3 (-> & Hwf3 & Hh3). zcase (lightSize val =? 0); [by wp_steps|].
    pose proof (av_size _ _ (holds_avail _ _ _ Hwf3 Hh3)) as Hsz3. rewrite zlen_padded, Hal in Hsz3.
    pose proof (wf_pos _ Hwf3). wp_step. rewrite <- Hal at 1. eapply read_buffer; [done|lia|exact Hh3|lia|].
    intros s4 _ _ Hreg. rewrite <- (app_nil_r after) in Hreg.
    wp_step. rewrite <- Hal. eapply region_load; [exact Hreg|]. wp_steps.
    split; [done|]. by exists before, after.
Qed.

(** The conversions of libutils, as far as a string that converts goes: the
    lengths are those of the results, which are UTF-16 units and bytes. *)
Record converts `{UtfConversions} (str : bytes) : Prop := {
  cv_length : utf8_to_utf16_length str = zlen (utf8_to_utf16 str);
  cv_units : Forall is_u16 (utf8_to_utf16 str);
  cv_back_length : utf16_to_utf8_length (utf8_to_utf16 str) = zlen (utf16_to_utf8 (utf8_to_utf16 str));
  cv_back : utf16_to_utf8 (utf8_to_utf16 str) = str;
  cv_empty : utf8_to_utf16 str = [] -> str = [];
}.

Lemma writeUtf8_ok `{UtfConversions} F s str :
  let chars := utf8_to_utf16 str in
  converts str -> room (zlen (string16_bytes chars)) 0 s -> plenty 0 s ->
  wpg F (writeUtf8AsUtf16 str) s (fun st s' => st = NO_ERROR /\ writes s s' /\
    laid (this s) (this s') [Raw (string16_bytes chars)]).
Proof.
  intros chars [] Hr Hpl. fold chars in cv_length0, cv_units0. pose proof (zlen_nonneg chars).
  set (buf := array_bytes 2 chars ++ [0; 0]).
  assert (Hbuf : zlen buf = (zlen chars + 1) * 2) by (unfold buf; zl; lia).
  assert (Hbytes : zlen (string16_bytes chars) = 4 + padz (zlen buf))
    by (unfold string16_bytes; fold buf; rewrite zlen_app, zlen_padded, zlen_le_bytes; done).
  pose proof (padz_bounds (zlen buf)) as Hpad. pose proof (fits_bound s _ (rm_wf _ _ _ Hr) (rm_fits _ _ _ Hr)) as Hb.
  pose proof (stage_start _ _ _ _ Hr Hpl) as Hs0. rewrite Hbytes in *.
  unfold writeUtf8AsUtf16. rewrite cv_length0. zdec (zlen chars <? 0). zdec (INT32_MAX <? zlen chars). simpl orb. cbv iota.
  eapply (then_int F (padz (zlen buf)) 0); [exact Hs0|lia|]. intros s1 H1. rewrite <- Hbuf.
  rewrite <- (Z.add_0_r (padz (zlen buf))) in H1.
  wp_step. wp_use reserve_ok; [exact H1|done|lia|right; lia|]. intros o s2 (-> & y & H2).
  wp_step. fold chars buf. wp_use reserved_fill; [exact H1|done|exact H2| |].
  { apply Forall_app. split; [apply array_bytes_is_byte|apply (Forall_zeros 2)]. }
  intros [] s3 [H3 _]. wp_step. split; [done|]. split; [apply H3|].
  apply laid_join. apply H3.
Qed.

(** A UTF-8 string is sent as a UTF-16 one and converted back by the reader. *)
Theorem utf8_roundtrip `{UtfConversions} (s : PS) (str : bytes) :
  converts str -> room (zlen (string16_bytes (utf8_to_utf16 str))) 0 s -> plenty 0 s ->
  wp (let* pos := getp dataPosition in
      let* st := writeUtf8AsUtf16 str in
      setDataPosition pos ;;
      let* r := readUtf8FromUtf16 in
      ret (st, r)) s (fun '(st, r) _ => st = OK /\ r = Good str).
Proof.
  intros Hcv Hr Hpl. pose proof Hcv as []. set (chars := utf8_to_utf16 str) in *.
  do 3 wp_step. wp_use writeUtf8_ok; [done..|]. fold chars. intros st s1 (-> & Hw1 & Hl1).
  pose proof (rm_wf _ _ _ Hr) as Hwf. pose proof (wf_pos _ Hwf). pose proof (zlen_nonneg chars).
  pose proof (laid_size _ _ _ Hwf Hl1) as Hsz. rewrite items_bytes_raw in Hsz.
  pose proof (fits_bound s _ Hwf (rm_fits _ _ _ Hr)) as Hb.
  assert (Hlen : 2 * zlen chars + 2 <= INT32_MAX).
  { unfold string16_bytes in Hb. rewrite zlen_app, zlen_padded, zlen_app, zlen_array_bytes, zlen_le_bytes in Hb.
    change (zlen [0; 0]) with 2 in Hb. pose proof (padz_bounds (Z.of_nat 2 * zlen chars + 2)). lia. }
  pose proof (zlen_nonneg (string16_bytes chars)).
  wp_step. apply setDataPosition_objs; [apply Hw1|unfold dataPosition; lia|].
  intros s2 Ew2 Hwf2 Hp2 Eo2. pose proof (laid_holds _ _ _ _ _ _ Hr Hl1 Hp2 Eo2) as Hh2.
  pose proof (holds_avail _ _ _ Hwf2 Hh2) as Hav2.
  wp_step. unfold readUtf8FromUtf16. wp_step. eapply readString16Inplace_ok; [done|exact Hav2|lia|].
  intros s3 off Hc3 Hreg. zcase (zlen chars =? 0).
  - wp_steps. split; [done|]. f_equal. symmetry. apply cv_empty0. destruct chars; [done|]. by unfold zlen in E.
  - wp_step. apply load_chars_ok; [done|done|]. cbv zeta. rewrite cv_back_length0, cv_back0.
    pose proof (zlen_nonneg str). zdec (zlen str + 1 <? 1). wp_steps. split; [done|].
    rewrite ztake_ge by lia. done.
Qed.
