(* ===== verification/ParcelBlob.v ===== *)
(** Blobs (src/libs/binder/Parcel.cpp): data carried in the parcel when it is
    small, in a file of shared memory when it is not.

    The calls on shared memory (libcutils' ashmem, [mmap] and [munmap]) are
    parameters; what they act upon, beside the parcel and the descriptors, is a
    table of files of shared memory and one of mappings. *)

From S2P Require Import Prelude Errors ParcelState ParcelWrite ParcelRead ParcelObject.

(** * Shared memory *)

(** A file of shared memory: its bytes, and the accesses that it can still be
    mapped for. *)
Record shared_file := mkShared { sf_bytes : bytes; sf_prot : Z }.

(** A mapping: the file and length, and the accesses it allows. *)
Record mapping := mkMapping { mp_file : Z; mp_len : Z; mp_prot : Z }.

Record BS := mkBS { ps : PS; w_shared : gmap Z shared_file; w_maps : gmap Z mapping }.

Definition PROT_READ : Z := 1.
Definition PROT_WRITE : Z := 2.

(** [mmap] gives the address, or [-errno] for [MAP_FAILED]; [munmap] is given
    [None] for [MAP_FAILED]. *)
Class Ashmem := {
  ashmem_create_region : Z -> M BS Z;
  ashmem_set_prot_region : Z -> Z -> M BS Z;
  ashmem_valid : Z -> M BS bool;
  ashmem_get_size_region : Z -> M BS Z;
  mmap : Z -> Z -> Z -> M BS (res Z);
  munmap : option Z -> Z -> M BS unit;
}.

(** A method of the parcel. *)
Definition on_parcel {A} (m : M PS A) : M BS A :=
  zoom ps (fun s b => mkBS s (w_shared b) (w_maps b)) m.

(** * Parcel::Blob *)

(** [mData] points into the parcel, or at a mapping. *)
Inductive pointer :=
| InParcel (off : Z)
| Mapped (addr : Z).

Record Blob := mkBlob {
  mFd : Z;
  bData : option pointer;
  mSize : Z;
  mMutable : bool;
}.

Definition blob_new : Blob := mkBlob (-1) None 0 false.
Definition blob_init (fd : Z) (data : pointer) (size : Z) (isMutable : bool) : Blob :=
  mkBlob fd (Some data) size isMutable.
Definition blob_clear (b : Blob) : Blob := mkBlob (-1) None 0 false.

(** The blob's own mapping goes; its descriptor is the parcel's. *)
Definition blob_release `{Ashmem} (b : Blob) : M BS Blob :=
  (match bData b with
   | Some (Mapped addr) => if mFd b =? -1 then ret tt else munmap (Some addr) (mSize b)
   | Some (InParcel _) => if mFd b =? -1 then ret tt else fault
   | None => ret tt
   end) ;;
  ret (blob_clear b).

(** * Writing *)

Definition BLOB_INPLACE_LIMIT : Z := 16 * 1024.
Definition BLOB_INPLACE : Z := 0.
Definition BLOB_ASHMEM_IMMUTABLE : Z := 1.
Definition BLOB_ASHMEM_MUTABLE : Z := 2.

(** What is done with the mapped file before the blob is handed out. *)
Definition send_region `{Ashmem} (fd : Z) (mutableCopy : bool) : M BS status_t :=
  let* result := (if mutableCopy then ret 0 else ashmem_set_prot_region fd PROT_READ) in
  if result <? 0 then ret result else
  let* status := on_parcel (writeInt32 (if mutableCopy then BLOB_ASHMEM_MUTABLE else BLOB_ASHMEM_IMMUTABLE)) in
  if status =? 0 then on_parcel (writeFileDescriptor fd true) else ret status.

(** From [ashmem_create_region] on; [fd] is closed when this fails. *)
Definition map_region `{Ashmem} (fd len : Z) (mutableCopy : bool) : M BS (res Blob) :=
  let* result := ashmem_set_prot_region fd (Z.lor PROT_READ PROT_WRITE) in
  if result <? 0 then ret (Err result) else
  let* ptr := mmap len (Z.lor PROT_READ PROT_WRITE) fd in
  match ptr with
  | Err st => munmap None len ;; ret (Err st)
  | Good addr =>
      let* status := send_region fd mutableCopy in
      if status =? 0 then ret (Good (blob_init fd (Mapped addr) len mutableCopy))
      else munmap (Some addr) len ;; ret (Err status)
  end.

Definition writeBlob `{Ashmem} (len : Z) (mutableCopy : bool) : M BS (res Blob) :=
  if INT32_MAX <? len then ret (Err BAD_VALUE) else
  let* allow := on_parcel (getp mAllowFds) in
  if negb allow || (len <=? BLOB_INPLACE_LIMIT) then
    let* status := on_parcel (writeInt32 BLOB_INPLACE) in
    if negb (status =? 0) then ret (Err status) else
    let* ptr := on_parcel (writeInplace len) in
    match ptr with
    | None => ret (Err NO_MEMORY)
    | Some off => ret (Good (blob_init (-1) (InParcel off) len false))
    end
  else
  let* fd := ashmem_create_region len in
  if fd <? 0 then ret (Err NO_MEMORY) else
  let* r := map_region fd len mutableCopy in
  match r with
  | Good b => ret (Good b)
  | Err st => on_parcel (close fd) ;; ret (Err st)
  end.

Definition writeDupImmutableBlobFileDescriptor (fd : Z) : M PS status_t :=
  let* allow := getp mAllowFds in
  if negb allow then ret FDS_NOT_ALLOWED else
  writeInt32 BLOB_ASHMEM_IMMUTABLE ;;?
  writeDupFileDescriptor fd.

(** * Reading *)

Definition readBlob `{Ashmem} (len : Z) : M BS (res Blob) :=
  let? blobType := on_parcel readInt32 in
  if blobType =? BLOB_INPLACE then
    let* ptr := on_parcel (readInplace len) in
    match ptr with
    | None => ret (Err BAD_VALUE)
    | Some off => ret (Good (blob_init (-1) (InParcel off) len false))
    end
  else
  let isMutable := blobType =? BLOB_ASHMEM_MUTABLE in
  let* fd := on_parcel readFileDescriptor in
  if fd =? BAD_TYPE then ret (Err BAD_VALUE) else
  let* valid := ashmem_valid fd in
  if negb valid then ret (Err BAD_VALUE) else
  let* size := ashmem_get_size_region fd in
  if (size <? 0) || (size <? len) then ret (Err BAD_VALUE) else
  let* ptr := mmap len (if isMutable then Z.lor PROT_READ PROT_WRITE else PROT_READ) fd in
  match ptr with
  | Err _ => ret (Err NO_MEMORY)
  | Good addr => ret (Good (blob_init fd (Mapped addr) len isMutable))
  end.

(** * The size of the blobs of a parcel *)

(** [__builtin_add_overflow(openAshmemSize, size, &openAshmemSize)]: [None] is an
    overflow of [size_t]. *)
Definition add_overflow (a b : Z) : option Z :=
  if (0 <=? a + b) && (a + b <=? SIZE_MAX) then Some (a + b) else None.

Fixpoint open_ashmem_size `{Ashmem} (objs : list Z) (openAshmemSize : Z) : M BS Z :=
  match objs with
  | [] => ret openAshmemSize
  | off :: objs' =>
      let* flat := on_parcel (load_flat off) in
      if (f_type flat =? BINDER_TYPE_FD) && negb (f_cookie flat =? 0) then
        let* valid := ashmem_valid (s32 (f_handle flat)) in
        if valid then
          let* size := ashmem_get_size_region (s32 (f_handle flat)) in
          match add_overflow openAshmemSize size with
          | None => ret SIZE_MAX
          | Some total => open_ashmem_size objs' total
          end
        else open_ashmem_size objs' openAshmemSize
      else open_ashmem_size objs' openAshmemSize
  end.

Definition getOpenAshmemSize `{Ashmem} : M BS Z :=
  let* n := on_parcel (getp mObjectsSize) in
  let* objs := on_parcel (objects_upto n) in
  open_ashmem_size objs 0.

Definition getBlobAshmemSize `{Ashmem} : M BS Z := getOpenAshmemSize.
