(* ===== verification/ParcelBlobProps.v ===== *)
(** Blobs: the reader sees the bytes the writer put in, what a reader is given is
    really there, and nothing is leaked, on any path. *)

From Stdlib Require Import Sorting.Sorted.
From S2P Require Import ParcelObjectProps ParcelProps.
From S2P Require Import Prelude Errors ParcelState ParcelWrite ParcelRead ParcelObject ParcelFormats ParcelBlob.
From S2P Require Import ParcelInv ParcelWriteSpec ParcelReadSpec ParcelDataSpec ParcelObjectSpec ParcelFrame ParcelItems ParcelFormatsProps ParcelFlattenProps.

(** * What the code relies on of shared memory *)

Definition b_fds (b : BS) : gmap Z Z := w_fds (world (ps b)).
Definition set_fds (m : gmap Z Z) (b : BS) : BS :=
  mkBS (mkPS (this (ps b)) (set_w_fds m (world (ps b)))) (w_shared b) (w_maps b).
Definition set_shared (m : gmap Z shared_file) (b : BS) : BS := mkBS (ps b) m (w_maps b).
Definition set_maps (m : gmap Z mapping) (b : BS) : BS := mkBS (ps b) (w_shared b) m.

(** The file of shared memory a descriptor is open on. *)
Definition shared_at (b : BS) (fd : Z) : option (Z * shared_file) :=
  match b_fds b !! fd with
  | None => None
  | Some f => match w_shared b !! f with Some sf => Some (f, sf) | None => None end
  end.

(** [prot] allows what [need] asks for. *)
Definition allows (prot need : Z) : Prop := Z.land prot need = need.

(** Every call may fail, and then changes nothing. *)
Class AshmemLaws `{Ashmem} := {
  create_law F b len : 0 < len -> wpg F (ashmem_create_region len) b (fun fd b' =>
    (fd < 0 /\ b' = b) \/
    (exists f, 0 <= fd <= INT32_MAX /\ b_fds b !! fd = None /\ w_shared b !! f = None /\
       b' = set_shared (<[f := mkShared (zeros len) (Z.lor PROT_READ PROT_WRITE)]> (w_shared b))
              (set_fds (<[fd := f]> (b_fds b)) b)));
  set_prot_law F b fd prot : wpg F (ashmem_set_prot_region fd prot) b (fun r b' =>
    (r < 0 /\ b' = b) \/
    (exists f sf, 0 <= r /\ shared_at b fd = Some (f, sf) /\ allows (sf_prot sf) prot /\
       b' = set_shared (<[f := mkShared (sf_bytes sf) prot]> (w_shared b)) b));
  valid_law F b fd : wpg F (ashmem_valid fd) b (fun r b' =>
    b' = b /\ (r = true <-> is_Some (shared_at b fd)));
  size_law F b fd : wpg F (ashmem_get_size_region fd) b (fun r b' =>
    b' = b /\ forall f sf, shared_at b fd = Some (f, sf) -> r = zlen (sf_bytes sf) \/ r < 0);
  mmap_law F b len prot fd : wpg F (mmap len prot fd) b (fun r b' =>
    match r with
    | Err st => st < 0 /\ b' = b
    | Good addr => exists f sf, shared_at b fd = Some (f, sf) /\ allows (sf_prot sf) prot /\
        w_maps b !! addr = None /\ b' = set_maps (<[addr := mkMapping f len prot]> (w_maps b)) b
    end);
  munmap_law F b addr f len prot : w_maps b !! addr = Some (mkMapping f len prot) ->
    wpg F (munmap (Some addr) len) b (fun _ b' => b' = set_maps (delete addr (w_maps b)) b);
  munmap_failed_law F b len : wpg F (munmap None len) b (fun _ b' => b' = b);
}.

(** * Using a blob *)

(** The bytes behind a blob, when all of them are there. *)
Definition blob_bytes (bl : Blob) (b : BS) : option bytes :=
  match bData bl with
  | None => None
  | Some (InParcel off) => mem_read (data_block (this (ps b))) off (mSize bl)
  | Some (Mapped addr) =>
      match w_maps b !! addr with
      | None => None
      | Some m => if mp_len m <? mSize bl then None else
                  match w_shared b !! mp_file m with
                  | None => None
                  | Some sf => mem_read (sf_bytes sf) 0 (mSize bl)
                  end
      end
  end.

(** [memcpy(blob.data(), bs, n)] by the user of a blob; writing through a mapping
    that does not allow it is a fault. *)
Definition fill_blob (bl : Blob) (bs : bytes) : M BS unit :=
  match bData bl with
  | None => fault
  | Some (InParcel off) => on_parcel (store off bs)
  | Some (Mapped addr) =>
      let* b := get in
      let* m := require (w_maps b !! addr) in
      let* sf := require (w_shared b !! mp_file m) in
      let* bs' := require (mem_write (sf_bytes sf) 0 bs) in
      if (zlen bs <=? mp_len m) && negb (Z.land (mp_prot m) PROT_WRITE =? 0)
      then modify (set_shared (<[mp_file m := mkShared bs' (sf_prot sf)]> (w_shared b)))
      else fault
  end.

Lemma wpg_on_parcel {A} F (m : M PS A) b Q :
  wpg F m (ps b) (fun a s => Q a (mkBS s (w_shared b) (w_maps b))) -> wpg F (on_parcel m) b Q.
Proof. unfold wpg, on_parcel, zoom. by destruct (m (ps b)). Qed.

(** The parcel's part of a run. *)
Definition same_memory (b b' : BS) : Prop := w_shared b' = w_shared b /\ w_maps b' = w_maps b.

(** * Reading is backed *)

(** Whatever is in a parcel, a blob read from it has all of its bytes, in the
    parcel or in a mapping that is long enough and of a file that is; when
    reading fails nothing was mapped.  In no case are descriptors or the data
    of the parcel touched. *)
Theorem blob_read_is_backed `{AshmemLaws} (b : BS) (len : Z) :
  wf (this (ps b)) -> 0 <= len ->
  wp (readBlob len) b (fun r b' => reads_only (ps b) (ps b') /\ b_fds b' = b_fds b /\ w_shared b' = w_shared b /\
    match r with
    | Good bl => mSize bl = len /\ exists bs, blob_bytes bl b' = Some bs /\ zlen bs = len
    | Err _ => w_maps b' = w_maps b
    end).
Proof.
  intros Hwf Hl. unfold readBlob, bind_res. wp_step. apply wpg_on_parcel.
  wp_use readInt32_safe; [done|]. intros [blobType|st] s1 H1.
  2:{ wp_step. split_and!; [by apply stays_reads_only|unfold b_fds; cbn; by rewrite (proj1 H1)|done|done]. }
  pose proof H1 as (Hw1 & Hwf1 & Hp1).
  destruct (_ =? _).
  - wp_step. apply wpg_on_parcel. wp_use readInplace_safe; [done|done|]. intros o s2 [H2 Ho].
    assert (H12 : stays (ps b) s2) by (by eapply stays_trans).
    assert (Hfds : b_fds (mkBS s2 (w_shared b) (w_maps b)) = b_fds b) by (unfold b_fds; cbn; by rewrite (proj1 H12)).
    destruct o as [off|]; wp_step; (split; [by apply stays_reads_only|]); (split; [done|]); [|done].
    split_and!; [done|done|]. cbn.
    exists (ztake len (zdrop off (data_block (this s2)))). rewrite mem_read_ok by lia. split; [done|].
    apply zlen_ztake. rewrite zlen_zdrop; lia.
  - wp_step. apply wpg_on_parcel. wp_use readFileDescriptor_safe; [done|]. intros fd s2 H2.
    assert (H12 : stays (ps b) s2) by (by eapply stays_trans). cbn [w_shared w_maps].
    set (b2 := mkBS s2 _ _).
    assert (Hbad : forall st, wpg False (ret (Err st)) b2 (fun r b' => reads_only (ps b) (ps b') /\
      b_fds b' = b_fds b /\ w_shared b' = w_shared b /\
      match r with
      | Good bl => mSize bl = len /\ exists bs, blob_bytes bl b' = Some bs /\ zlen bs = len
      | Err _ => w_maps b' = w_maps b
      end)).
    { intros st. wp_step. split_and!; [by apply stays_reads_only|unfold b_fds; cbn; by rewrite (proj1 H12)|done|done]. }
    destruct (_ =? _); [apply Hbad|]. wp_step. wp_use valid_law. intros v b3 [-> Hv].
    destruct v; [|apply Hbad]. destruct (proj1 Hv eq_refl) as [[f sf] Hsf].
    simpl negb. cbv iota. wp_step. wp_use size_law. intros size b3 [-> Hsize].
    zcase (size <? 0); [apply Hbad|]. zcase (size <? len); [apply Hbad|]. simpl orb. cbv iota.
    destruct (Hsize f sf Hsf) as [->|?]; [|lia]. wp_step. wp_use mmap_law. intros [addr|st] b3; [|intros [_ ->]; apply Hbad].
    intros (f' & sf' & Hsf' & Hal & Hfree & ->). rewrite Hsf in Hsf'. injection Hsf' as <- <-.
    wp_step. split_and!; [by apply stays_reads_only|unfold b_fds; cbn; by rewrite (proj1 H12)|done|done|].
    unfold blob_bytes. cbn. rewrite lookup_insert_eq. cbn. zdec (len <? len).
    assert (Hf : w_shared b !! f = Some sf).
    { unfold shared_at in Hsf. cbn in Hsf. destruct (_ !! fd); [|done]. destruct (w_shared b !! z) eqn:E1; [|done]. congruence. }
    rewrite Hf, mem_read_ok by lia. eexists. split; [done|]. apply zlen_ztake. rewrite zlen_zdrop; lia.
Qed.

(** * Writing *)

Lemma shared_at_fd b fd f sf : shared_at b fd = Some (f, sf) -> b_fds b !! fd = Some f /\ w_shared b !! f = Some sf.
Proof.
  unfold shared_at. destruct (b_fds b !! fd); [|done]. destruct (w_shared b !! z) eqn:E; [|done]. by intros [= <- <-].
Qed.

Lemma shared_at_intro b fd f sf : b_fds b !! fd = Some f -> w_shared b !! f = Some sf -> shared_at b fd = Some (f, sf).
Proof. intros H1 H2. unfold shared_at. by rewrite H1, H2. Qed.

(** The mapped file is handed to the parcel: the item written, when it worked. *)
Definition blob_type (mutableCopy : bool) : Z :=
  if mutableCopy then BLOB_ASHMEM_MUTABLE else BLOB_ASHMEM_IMMUTABLE.

Definition region_items (fd : Z) (mutableCopy : bool) : list item :=
  [Raw (le_bytes 4 (blob_type mutableCopy)); Object (fd_object fd true)].

Definition final_prot (mutableCopy : bool) : Z :=
  if mutableCopy then Z.lor PROT_READ PROT_WRITE else PROT_READ.

Lemma send_region_ok `{AshmemLaws} F b fd f sf mutableCopy :
  room (4 + sizeof_flat) 1 (ps b) -> shared_at b fd = Some (f, sf) -> sf_prot sf = Z.lor PROT_READ PROT_WRITE ->
  wpg F (send_region fd mutableCopy) b (fun st b' => writes (ps b) (ps b') /\ b_fds b' = b_fds b /\
    w_maps b' = w_maps b /\
    (w_shared b' = <[f := mkShared (sf_bytes sf) (final_prot mutableCopy)]> (w_shared b) \/ st <> NO_ERROR) /\
    (forall g, g <> f -> w_shared b' !! g = w_shared b !! g) /\
    (st = NO_ERROR -> laid (this (ps b)) (this (ps b')) (region_items fd mutableCopy))).
Proof.
  intros Hr Hsf Hp. unfold send_region. wp_step.
  eapply wpg_mono with (P := fun r b1 => ps b1 = ps b /\ w_maps b1 = w_maps b /\
    (forall g, g <> f -> w_shared b1 !! g = w_shared b !! g) /\
    (r < 0 \/ w_shared b1 = <[f := mkShared (sf_bytes sf) (final_prot mutableCopy)]> (w_shared b))).
  { destruct mutableCopy.
    - wp_step. split_and!; [done|done|done|]. right. symmetry. apply insert_id.
      destruct (shared_at_fd _ _ _ _ Hsf) as [_ ->]. cbn. rewrite <- Hp. by destruct sf.
    - wp_use set_prot_law. intros r b1 [[? ->]|(g & sg & _ & Hg & _ & ->)]; [split_and!; auto|].
      rewrite Hsf in Hg. injection Hg as <- <-. cbn. split_and!; [done|done| |by right].
      intros g Hg. by rewrite lookup_insert_ne. }
  intros r b1 (E1 & Em & Hother & Hr1).
  assert (Hwr : writes (ps b) (ps b)) by (apply writes_refl; apply Hr).
  zcase (r <? 0).
  { wp_step. rewrite E1. split_and!; [done|unfold b_fds; by rewrite E1|done|right|done|];
      intros ->; unfold NO_ERROR in *; lia. }
  destruct Hr1 as [?|Es]; [lia|].
  wp_step. apply wpg_on_parcel. rewrite E1. fold (blob_type mutableCopy).
  wp_use (write_raw_ok F (ps b) _ (le_bytes 4 (blob_type mutableCopy)) sizeof_flat 1).
  { by rewrite zlen_le_bytes. } { lia. }
  { intros Hf. apply writeInt32_ok; [apply Hr|by rewrite zlen_le_bytes in Hf]. } { apply writeAligned_fds. }
  intros st s2 (Hw2 & Ef2 & Hok2 & _). zcase (st =? 0).
  2:{ wp_step. split_and!; [done|done|done|by left|done|]. intros ->. by unfold NO_ERROR in E0. }
  rewrite E0 in Hok2. destruct (Hok2 eq_refl) as [Hr2 Hl2].
  apply wpg_on_parcel. cbn [ps]. wp_use writeFileDescriptor_ok; [exact Hr2|lia|lia|].
  intros st3 s3 (Hb3 & Hwf3 & Hat3 & Hl3 & _). cbn.
  assert (Hw3 : writes (ps b) s3) by (eapply writes_trans; [exact Hw2|by apply fds_at_writes]).
  assert (Ef3 : w_fds (world s3) = w_fds (world s2)) by (by destruct Hat3 as [_ [=]]).
  split_and!; [done|unfold b_fds; cbn; by rewrite Ef3|done|by left|done|].
  intros E3. eapply (laid_app _ _ _ [_] [_]); [apply Hr|exact Hl2|by apply Hl3].
Qed.

(** A blob that was written, in the parcel or in a mapped file of its own. *)
Definition in_parcel (b b' : BS) (len : Z) (bl : Blob) : Prop :=
  bl = blob_init (-1) (InParcel (mDataPos (this (ps b)) + 4)) len false /\
  b_fds b' = b_fds b /\ same_memory b b' /\
  exists y, zlen y = len /\ Forall is_byte y /\
    laid (this (ps b)) (this (ps b')) [Raw (le_bytes 4 BLOB_INPLACE); Raw (y ++ zeros (padz len - len))].

Definition in_mapping (b b' : BS) (len : Z) (mutableCopy : bool) (bl : Blob) : Prop :=
  exists fd f addr, bl = blob_init fd (Mapped addr) len mutableCopy /\ is_fd fd /\
    b_fds b !! fd = None /\ b_fds b' = <[fd := f]> (b_fds b) /\
    w_shared b !! f = None /\ w_shared b' !! f = Some (mkShared (zeros len) (final_prot mutableCopy)) /\
    w_maps b !! addr = None /\ w_maps b' = <[addr := mkMapping f len (Z.lor PROT_READ PROT_WRITE)]> (w_maps b) /\
    laid (this (ps b)) (this (ps b')) (region_items fd mutableCopy).

(** Nothing was opened or mapped. *)
Definition nothing_left (b b' : BS) : Prop := b_fds b' = b_fds b /\ w_maps b' = w_maps b.

Lemma map_region_ok `{AshmemLaws} F b b1 fd f len mutableCopy :
  room (4 + sizeof_flat) 1 (ps b) -> 0 < len -> is_fd fd ->
  b_fds b !! fd = None -> w_shared b !! f = None ->
  b1 = set_shared (<[f := mkShared (zeros len) (Z.lor PROT_READ PROT_WRITE)]> (w_shared b))
         (set_fds (<[fd := f]> (b_fds b)) b) ->
  wpg F (map_region fd len mutableCopy) b1 (fun r b' => writes (ps b) (ps b') /\
    match r with
    | Good bl => in_mapping b b' len mutableCopy bl
    | Err st => b_fds b' = <[fd := f]> (b_fds b) /\ w_maps b' = w_maps b
    end).
Proof.
  intros Hr Hl Hfd Hnf Hns ->. set (b1 := set_shared _ _).
  assert (Hr1 : room (4 + sizeof_flat) 1 (ps b1)) by (destruct Hr; by split).
  assert (Hw1 : writes (ps b) (ps b1)) by (destruct Hr; by split_and!).
  assert (Hs1 : shared_at b1 fd = Some (f, mkShared (zeros len) (Z.lor PROT_READ PROT_WRITE))).
  { apply shared_at_intro; cbn; by rewrite lookup_insert_eq. }
  unfold map_region. wp_step.
  eapply wpg_mono with (P := fun r b2 => ps b2 = ps b1 /\ w_maps b2 = w_maps b /\
    (r < 0 \/ w_shared b2 = w_shared b1)).
  { wp_use set_prot_law. intros r b2 [[? ->]|(g & sg & _ & Hg & _ & ->)]; [split_and!; auto|].
    rewrite Hs1 in Hg. injection Hg as <- <-. split_and!; [done|done|right]. cbn. by rewrite insert_insert_eq. }
  intros r b2 (E2 & Em2 & Hr2). zcase (r <? 0).
  { wp_step. rewrite E2. split_and!; [done|unfold b_fds; by rewrite E2|done]. }
  destruct Hr2 as [?|Es2]; [lia|].
  assert (Hs2 : shared_at b2 fd = shared_at b1 fd) by (unfold shared_at, b_fds; by rewrite E2, Es2).
  wp_step. wp_use mmap_law. intros [addr|st] b3.
  2:{ intros [_ ->]. wp_step. wp_use munmap_failed_law. intros [] b4 ->. wp_step. rewrite E2.
      split_and!; [done|unfold b_fds; by rewrite E2|done]. }
  intros (g & sg & Hg & _ & Hfree & ->). rewrite Hs2, Hs1 in Hg. injection Hg as <- <-.
  rewrite Em2 in Hfree |- *. wp_step. wp_use send_region_ok; [cbn; by rewrite E2|etransitivity; [exact Hs2|exact Hs1]|done|].
  intros st b4 (Hw4 & Ef4 & Em4 & Hsh4 & _ & Hl4). cbn [ps set_maps] in *. rewrite E2 in Hw4, Hl4.
  assert (Ef : b_fds b4 = <[fd := f]> (b_fds b)) by (rewrite Ef4; unfold b_fds; cbn; by rewrite E2).
  assert (Hw : writes (ps b) (ps b4)) by (by eapply writes_trans).
  zcase (st =? 0).
  - wp_step. split; [done|]. exists fd, f, addr. repeat (split; [done|]).
    split; [|split; [exact Hfree|split; [exact Em4|]]].
    + destruct Hsh4 as [->|?]; [|done]. cbn. by rewrite lookup_insert_eq.
    + by apply Hl4.
  - wp_step. eapply wpg_mono; [eapply munmap_law; rewrite Em4; apply lookup_insert_eq|].
    intros [] b5 ->. wp_step. split_and!; [done|done|]. cbn. rewrite Em4. by apply delete_insert_id.
Qed.

(** What [writeBlob] does on every path. *)
Lemma writeBlob_ok `{AshmemLaws} F b len mutableCopy :
  room (4 + padz len + sizeof_flat) 1 (ps b) -> 0 <= len ->
  wpg F (writeBlob len mutableCopy) b (fun r b' => writes (ps b) (ps b') /\
    match r with
    | Good bl => in_parcel b b' len bl \/ in_mapping b b' len mutableCopy bl
    | Err st => nothing_left b b'
    end).
Proof.
  intros Hr Hl. pose proof (padz_bounds len). pose proof (rm_wf _ _ _ Hr) as Hwf.
  pose proof (fits_bound _ _ Hwf (rm_fits _ _ _ Hr)) as Hb.
  unfold writeBlob. zdec (INT32_MAX <? len). wp_step. apply wpg_on_parcel. wp_step.
  replace (mkBS (ps b) (w_shared b) (w_maps b)) with b by (by destruct b).
  destruct (negb _ || _) eqn:Ein.
  - wp_step. apply wpg_on_parcel.
    wp_use (write_raw_ok F (ps b) _ (le_bytes 4 BLOB_INPLACE) (padz len) 1).
    { eapply room_le; [| |exact Hr]; zl; lia. } { lia. }
    { intros Hf. apply writeInt32_ok; [done|by rewrite zlen_le_bytes in Hf]. } { apply writeAligned_fds. }
    intros st s1 (Hw1 & Ef1 & Hok1 & _). zcase (st =? 0); simpl negb; cbv iota.
    2:{ wp_step. split; [done|]. by split. }
    destruct (Hok1 E) as [Hr1 Hl1]. wp_step. apply wpg_on_parcel. cbn [ps w_shared w_maps].
    eapply wpg_mono.
    { apply (wpg_pres F (fds_at (descriptors s1))); [auto with pres|split; [apply Hr1|done]|].
      apply writeInplace_ok; [apply Hr1|done|apply Hr1]. }
    intros o s2 [[Hb2 Hc] Hat].
    assert (Ef2 : w_fds (world s2) = w_fds (world (ps b))) by (rewrite <- Ef1; by destruct Hat as [_ [=]]).
    destruct Hc as [(-> & y & Hy & Hby & Hw2)|(-> & E2 & _)].
    + assert (Hw12 : writes (ps b) s2) by (eapply writes_trans; [exact Hw1|apply fds_at_writes; [done|apply Hw2|done]]).
      rewrite pointer_of_Some; [|apply Hw2|].
      2:{ rewrite (wrote_size _ _ _ (rm_wf _ _ _ Hr1) Hw2), (ld_pos _ _ _ Hl1), items_bytes_raw. zl.
          pose proof (wf_pos _ Hwf). rewrite zlen_zeros by lia. pose proof (wf_pos _ (rm_wf _ _ _ Hr1)). lia. }
      wp_step. split; [done|]. left. split_and!; [|done|done|].
      * rewrite (ld_pos _ _ _ Hl1), items_bytes_raw. by zl.
      * exists y. split_and!; [done|done|]. eapply (laid_app _ _ _ [_] [_]); [done|exact Hl1|by apply wrote_laid].
    + wp_step. split; [|by split]. eapply writes_trans; [exact Hw1|]. apply fds_at_writes; [done| |done].
      cbn [ps]; rewrite E2. pose proof (rm_wf _ _ _ Hr1) as []. by split.
  - apply orb_false_elim in Ein as [_ Ein]. zb. unfold BLOB_INPLACE_LIMIT in Ein.
    wp_step. wp_use create_law; [lia|]. intros fd b1 [[Hneg ->]|(f & Hfd & Hnf & Hns & E1)].
    { zdec (fd <? 0). wp_step. split; [apply writes_refl; apply Hr|by split]. }
    zdec (fd <? 0). wp_step. wp_use (map_region_ok F b b1 fd f); [|lia|done|done|done|done|].
    { eapply room_le; [| |exact Hr]; lia. }
    intros [bl|st] b2 [Hw2 Hm]; [wp_step; by auto|].
    destruct Hm as [Ef Em]. wp_step. apply wpg_on_parcel. unfold close. wp_steps. split.
    + destruct Hw2 as (? & ? & ? & ? & []). split_and!; [done..|by split].
    + split; [|done]. unfold b_fds in *. cbn. rewrite Ef. by apply delete_insert_id.
Qed.

Lemma mapped_bytes b len f addr prot sf fd isMutable :
  w_maps b !! addr = Some (mkMapping f len prot) -> w_shared b !! f = Some sf -> zlen (sf_bytes sf) = len ->
  blob_bytes (blob_init fd (Mapped addr) len isMutable) b = Some (sf_bytes sf).
Proof.
  intros Hm Hs Hl. unfold blob_bytes. cbn. rewrite Hm. cbn. zdec (len <? len). rewrite Hs.
  pose proof (zlen_nonneg (sf_bytes sf)). rewrite mem_read_ok by lia. by rewrite zdrop_0, ztake_ge by lia.
Qed.

Lemma region_bytes s off bs x y isMutable fd :
  region (this s) off bs -> blob_bytes (blob_init fd (InParcel off) (zlen bs) isMutable) (mkBS s x y) = Some bs.
Proof.
  intros []. unfold blob_bytes. cbn. rewrite mem_read_ok; [by rewrite rg_bytes|done|apply zlen_nonneg|done].
Qed.

Lemma slice_of_prefix {A} n off size (d : list A) :
  0 <= off -> 0 <= n -> off + n <= size -> ztake n (zdrop off (ztake size d)) = ztake n (zdrop off d).
Proof.
  intros. unfold ztake, zdrop. rewrite !take_drop_commute, take_take. do 2 f_equal. lia.
Qed.

(** What was laid is in the block. *)
Lemma laid_region p p' a bs z :
  wf p -> laid p p' [Raw a; Raw (bs ++ z)] -> region p' (mDataPos p + zlen a) bs.
Proof.
  intros Hwf Hl. pose proof (laid_size _ _ _ Hwf Hl) as Hs. destruct Hl. pose proof (wf_pos _ Hwf).
  pose proof (zlen_contents _ Hwf) as Hc.
  rewrite items_bytes_cons, items_bytes_raw in *. simpl item_bytes in *.
  set (rest := bs ++ z) in *. assert (Hrest : zlen rest = zlen bs + zlen z) by (unfold rest; by zl).
  pose proof (zlen_nonneg a). pose proof (zlen_nonneg bs). pose proof (zlen_nonneg z).
  pose proof (wf_size _ ld_wf). pose proof (wf_block _ ld_wf). rewrite !zlen_app in *.
  split; [lia|lia|]. rewrite <- (slice_of_prefix _ _ (mDataSize p')) by lia. fold (contents p'). rewrite ld_contents.
  pose proof (overwrite_slice (contents p) (mDataPos p) (a ++ rest) ltac:(lia)) as Ho.
  apply (f_equal (fun l => ztake (zlen bs) (zdrop (zlen a) l))) in Ho.
  rewrite zlen_app, slice_of_prefix in Ho by lia. rewrite zdrop_app_exact in Ho by done.
  unfold rest in Ho at 2. rewrite ztake_app_exact in Ho by done.
  etransitivity; [|exact Ho]. f_equal. unfold zdrop. rewrite drop_drop. f_equal. lia.
Qed.

(** Filling a buffer that was laid. *)
Lemma laid_store F p s a y z bs :
  wf p -> laid p (this s) [Raw a; Raw (y ++ z)] -> zlen y = zlen bs -> Forall is_byte bs ->
  wpg F (store (mDataPos p + zlen a) bs) s (fun _ s' => world s' = world s /\
    laid p (this s') [Raw a; Raw (bs ++ z)] /\ mOwner (this s') = mOwner (this s)).
Proof.
  intros Hwf Hl Hy Hb. pose proof (laid_size _ _ _ Hwf Hl) as Hs. destruct Hl. pose proof (wf_pos _ Hwf).
  pose proof (zlen_contents _ Hwf) as Hc.
  rewrite items_bytes_cons, items_bytes_raw in *. simpl item_bytes in *. rewrite !zlen_app in *.
  pose proof (zlen_nonneg a). pose proof (zlen_nonneg bs). pose proof (zlen_nonneg z).
  pose proof (wf_size _ ld_wf). pose proof (wf_block _ ld_wf). set (off := mDataPos p + zlen a).
  apply store_ok; [lia|lia|]. cbn. split_and!; [done| |done].
  assert (Hsize : mDataSize (poke off bs (this s)) = mDataSize (this s)) by done.
  assert (E : items_bytes [Raw a; Raw (bs ++ z)] = a ++ bs ++ z) by (by rewrite items_bytes_cons, items_bytes_raw).
  split; rewrite ?E.
  - apply poke_contents_wf; [done|done|lia|lia].
  - rewrite !zlen_app. change (mDataPos (poke off bs (this s))) with (mDataPos (this s)). lia.
  - unfold contents at 1. rewrite Hsize, poke_block by lia.
    rewrite <- (Z.max_l (mDataSize (this s)) (off + zlen bs)) by lia.
    rewrite ztake_overwrite by lia. fold (contents (this s)). rewrite ld_contents.
    unfold off. rewrite overwrite_inside by (rewrite ?zlen_app; lia).
    f_equal. by apply overwrite_mid.
  - done.
  - done.
Qed.

(** A blob that was written has its bytes. *)
Lemma written_blob_bytes b b' len mutableCopy bl :
  wf (this (ps b)) -> 0 <= len -> in_parcel b b' len bl \/ in_mapping b b' len mutableCopy bl ->
  mSize bl = len /\ is_Some (blob_bytes bl b').
Proof.
  intros Hwf Hl [(-> & _ & _ & y & Hy & _ & Hlaid)|(fd & f & addr & -> & _ & _ & _ & _ & Hs & _ & Hm & _)].
  - split; [done|]. exists y. rewrite <- Hy. destruct b'. apply region_bytes.
    apply (laid_region _ _ (le_bytes 4 BLOB_INPLACE) y _ Hwf Hlaid).
  - split; [done|]. exists (zeros len). eapply (mapped_bytes b' len f addr _ (mkShared (zeros len) _));
      [by rewrite Hm, lookup_insert_eq|exact Hs|by apply zlen_zeros].
Qed.

(** C9: Writing a blob gives one whose bytes are all there, in the parcel or
    mapped, or fails; when it fails, exactly the descriptors and the mappings that
    were there remain, whichever step failed. *)
Theorem failed_blob_leaves_nothing `{AshmemLaws} (b : BS) (len : Z) (mutableCopy : bool) :
  room (4 + padz len + sizeof_flat) 1 (ps b) -> 0 <= len ->
  wp (writeBlob len mutableCopy) b (fun r b' => wf (this (ps b')) /\
    match r with
    | Good bl => mSize bl = len /\ is_Some (blob_bytes bl b')
    | Err st => b_fds b' = b_fds b /\ w_maps b' = w_maps b
    end).
Proof.
  intros Hr Hl. wp_use writeBlob_ok; [done|done|]. intros [bl|st] b' [Hw Hc]; (split; [apply Hw|]); [|exact Hc].
  eapply written_blob_bytes; [apply Hr|done|exact Hc].
Qed.

(** * A reader sees what the writer filled in *)

Lemma fill_in_parcel F b b' len bl bs :
  wf (this (ps b)) -> in_parcel b b' len bl -> zlen bs = len -> Forall is_byte bs ->
  wpg F (fill_blob bl bs) b' (fun _ b2 => b_fds b2 = b_fds b' /\ world (ps b2) = world (ps b') /\
    w_shared b2 = w_shared b' /\ w_maps b2 = w_maps b' /\
    laid (this (ps b)) (this (ps b2)) [Raw (le_bytes 4 BLOB_INPLACE); Raw (padded bs)]).
Proof.
  intros Hwf (-> & _ & _ & y & Hy & _ & Hl) Hlen Hb. unfold fill_blob. cbn. apply wpg_on_parcel.
  change (mDataPos (this (ps b)) + 4) with (mDataPos (this (ps b)) + zlen (le_bytes 4 BLOB_INPLACE)).
  wp_use laid_store; [done|exact Hl|lia|done|].
  intros [] s2 (Hw & Hl2 & _). unfold b_fds, padded. cbn. rewrite Hw, Hlen. by split_and!.
Qed.

Lemma fill_in_mapping F b' len mutableCopy fd f addr bs :
  w_shared b' !! f = Some (mkShared (zeros len) (final_prot mutableCopy)) ->
  w_maps b' !! addr = Some (mkMapping f len (Z.lor PROT_READ PROT_WRITE)) -> zlen bs = len -> 0 <= len ->
  wpg F (fill_blob (blob_init fd (Mapped addr) len mutableCopy) bs) b' (fun _ b2 => ps b2 = ps b' /\
    w_maps b2 = w_maps b' /\ w_shared b2 !! f = Some (mkShared bs (final_prot mutableCopy))).
Proof.
  intros Hs Hm Hlen Hl. unfold fill_blob. cbn [bData blob_init]. wp_steps. rewrite Hm. wp_steps. cbn [mp_file].
  rewrite Hs. wp_steps. cbn [sf_bytes]. rewrite mem_write_ok by (rewrite ?zlen_zeros by done; lia). wp_steps.
  cbn [mp_len mp_prot].
  zdec (zlen bs <=? len). change (negb (Z.land (Z.lor PROT_READ PROT_WRITE) PROT_WRITE =? 0)) with true.
  simpl andb. cbv iota. wp_step. split_and!; [done|done|]. cbn. rewrite lookup_insert_eq.
  unfold zdrop. rewrite drop_ge by (pose proof (zlen_zeros len Hl); unfold zlen in *; lia). by rewrite app_nil_r.
Qed.

Lemma read_in_parcel `{AshmemLaws} F b bs :
  wf (this (ps b)) -> zlen bs <= INT32_MAX ->
  holds (this (ps b)) [Raw (le_bytes 4 BLOB_INPLACE); Raw (padded bs)] ->
  wpg F (readBlob (zlen bs)) b (fun r b' => exists off, r = Good (blob_init (-1) (InParcel off) (zlen bs) false) /\
    off = mDataPos (this (ps b)) + 4 /\ region (this (ps b')) off bs /\
    world (ps b') = world (ps b) /\ w_maps b' = w_maps b /\ w_shared b' = w_shared b).
Proof.
  intros Hwf Hl Hh. unfold readBlob, bind_res. wp_step. apply wpg_on_parcel.
  wp_use read_raw; [exact (readInt32_decodes 0 ltac:(done))|unfold readInt32; pres|done|exact Hh|].
  intros r s1 (-> & (Hw1 & Hwf1 & Hp1) & Hh1). simpl. wp_step. apply wpg_on_parcel. cbn [ps].
  assert (Hne : 0 < mDataSize (this s1)).
  { rewrite (peq_size _ _ Hp1). simpl. pose proof (ho_size _ _ Hh) as Hs. rewrite items_bytes_cons, zlen_app in Hs.
    cbn [item_bytes] in Hs. rewrite zlen_le_bytes in Hs. pose proof (wf_pos _ Hwf).
    pose proof (zlen_nonneg (items_bytes [Raw (padded bs)])). lia. }
  eapply read_buffer; [done|done|exact Hh1|done|]. intros s2 (Hw2 & Hwf2 & Hp2) _ Hreg. cbv beta iota. wp_step.
  exists (mDataPos (this s1)). cbn [ps w_maps w_shared]. rewrite Hw2, Hw1. split_and!; [done| |done|done|done|done].
  rewrite (peq_pos _ _ Hp1). cbn [set_mDataPos mDataPos]. rewrite zlen_le_bytes. done.
Qed.

Lemma read_in_mapping `{AshmemLaws} F b fd f sf len mutableCopy :
  wf (this (ps b)) -> holds (this (ps b)) (region_items fd mutableCopy) -> is_fd fd ->
  shared_at b fd = Some (f, sf) -> zlen (sf_bytes sf) = len ->
  wpg F (readBlob len) b (fun r b' => w_shared b' = w_shared b /\ b_fds b' = b_fds b /\
    match r with
    | Good bl => exists addr, bl = blob_init fd (Mapped addr) len mutableCopy /\ w_maps b !! addr = None /\
        w_maps b' = <[addr := mkMapping f len (final_prot mutableCopy)]> (w_maps b)
    | Err _ => w_maps b' = w_maps b
    end).
Proof.
  intros Hwf Hh Hfd Hs Hl. unfold readBlob, bind_res. wp_step. apply wpg_on_parcel.
  assert (Ht : is_s32 (blob_type mutableCopy)) by (by destruct mutableCopy).
  wp_use read_raw; [exact (readInt32_decodes _ Ht)|unfold readInt32; pres|done|exact Hh|].
  intros r s1 (-> & (Hw1 & Hwf1 & Hp1) & Hh1). cbn match.
  replace (blob_type mutableCopy =? BLOB_INPLACE) with false by (by destruct mutableCopy).
  replace (blob_type mutableCopy =? BLOB_ASHMEM_MUTABLE) with mutableCopy by (by destruct mutableCopy).
  wp_step. apply wpg_on_parcel. cbn [ps w_shared w_maps].
  wp_use read_fd; [by apply fd_s32|done|exact Hh1|]. intros r s2 (-> & (Hw2 & Hwf2 & Hp2) & _).
  set (b2 := mkBS s2 _ _). assert (Ef : b_fds b2 = b_fds b) by (unfold b_fds; cbn; by rewrite Hw2, Hw1).
  assert (Hs2 : shared_at b2 fd = Some (f, sf)) by (unfold shared_at in *; by rewrite Ef).
  assert (Hbad : forall st, wpg F (ret (Err st)) b2 (fun r b' => w_shared b' = w_shared b /\ b_fds b' = b_fds b /\
    match r with
    | Good bl => exists addr, bl = blob_init fd (Mapped addr) len mutableCopy /\ w_maps b !! addr = None /\
        w_maps b' = <[addr := mkMapping f len (final_prot mutableCopy)]> (w_maps b)
    | Err _ => w_maps b' = w_maps b
    end)) by (intros; by wp_step).
  destruct (fd =? BAD_TYPE); [apply Hbad|]. wp_step. wp_use valid_law. intros v b3 [-> _].
  destruct v; [|apply Hbad]. simpl negb. cbv iota. wp_step. wp_use size_law. intros size b3 [-> _].
  destruct (_ || _); [apply Hbad|]. wp_step. wp_use mmap_law.
  intros [addr|st] b3; [|intros [_ ->]; apply Hbad]. intros (g & sg & Hg & _ & Hfree & ->).
  rewrite Hs2 in Hg. injection Hg as <- <-. wp_step. split_and!; [done|done|]. exists addr.
  by destruct mutableCopy.
Qed.

(** C8: A blob that is written, filled in and read back at its place gives the
    reader exactly the bytes the writer filled in, writable only when the writer
    asked for that; if the shared memory can not be mapped a second time, reading
    fails, and a blob carried in the parcel is always read. *)
Theorem blob_roundtrip `{AshmemLaws} (b : BS) (len : Z) (mutableCopy : bool) (bs : bytes) :
  room (4 + padz len + sizeof_flat) 1 (ps b) -> zlen bs = len -> Forall is_byte bs ->
  wp (let* pos := on_parcel (getp dataPosition) in
      let* w := writeBlob len mutableCopy in
      match w with
      | Err st => ret None
      | Good wb =>
          fill_blob wb bs ;;
          on_parcel (setDataPosition pos) ;;
          let* r := readBlob len in
          ret (Some (wb, r))
      end) b (fun o b' =>
    match o with
    | None => b_fds b' = b_fds b /\ w_maps b' = w_maps b
    | Some (wb, Good rb) => blob_bytes rb b' = Some bs /\ blob_bytes wb b' = Some bs /\
        mMutable rb = mMutable wb /\ (mMutable wb = true -> mutableCopy = true)
    | Some (wb, Err _) => mFd wb <> -1 /\ blob_bytes wb b' = Some bs
    end).
Proof.
  intros Hr Hlen Hb. pose proof (zlen_nonneg bs). pose proof (rm_wf _ _ _ Hr) as Hwf. pose proof (wf_pos _ Hwf).
  pose proof (padz_bounds len). pose proof (fits_bound _ _ Hwf (rm_fits _ _ _ Hr)) as Hbound.
  wp_step. apply wpg_on_parcel. wp_step. replace (mkBS (ps b) (w_shared b) (w_maps b)) with b by (by destruct b).
  wp_step. wp_use writeBlob_ok; [exact Hr|lia|]. intros [wb|st] b1 [Hw1 Hc]; [|by wp_step].
  destruct Hc as [Hin|(fd & f & addr & -> & Hfd & Hnf & Ef1 & Hns & Hs1 & Hnm & Hm1 & Hl1)].
  - wp_step. wp_use fill_in_parcel; [exact Hwf|exact Hin|done|done|].
    intros [] b2 (Ef2 & Ew2 & Es2 & Em2 & Hl2). wp_step. apply wpg_on_parcel.
    apply setDataPosition_objs; [apply Hl2|rewrite (laid_size _ _ _ Hwf Hl2); unfold dataPosition;
      pose proof (zlen_nonneg (items_bytes [Raw (le_bytes 4 BLOB_INPLACE); Raw (padded bs)])); lia|].
    intros s3 Ew3 Hwf3 Hp3 Eo3. pose proof (laid_holds _ _ _ _ _ _ Hr Hl2 Hp3 Eo3) as Hh3.
    wp_step. rewrite <- Hlen. wp_use read_in_parcel; [done|lia|exact Hh3|].
    intros r b4 (off & -> & -> & Hreg & _). wp_step. destruct Hin as (-> & _).
    pose proof (peq_pos _ _ Hp3) as Ep. cbn in Ep, Hreg |- *. unfold dataPosition in Ep. rewrite Ep in *.
    destruct b4 as [s4 x4 y4]. rewrite <- Hlen.
    assert (Hbytes : forall m fd', blob_bytes (blob_init fd' (InParcel (mDataPos (this (ps b)) + 4)) (zlen bs) m)
      (mkBS s4 x4 y4) = Some bs) by (intros; by apply region_bytes).
    split_and!; [exact (Hbytes false (-1))|exact (Hbytes false (-1))|done|done].
  - assert (Hm1' : w_maps b1 !! addr = Some (mkMapping f len (Z.lor PROT_READ PROT_WRITE)))
      by (by rewrite Hm1, lookup_insert_eq).
    wp_step. wp_use fill_in_mapping; [exact Hs1|exact Hm1'|done|lia|].
    intros [] b2 (Ep2 & Em2 & Hs2). wp_step. apply wpg_on_parcel. rewrite Ep2.
    apply setDataPosition_objs; [apply Hl1|rewrite (laid_size _ _ _ Hwf Hl1); unfold dataPosition;
      pose proof (zlen_nonneg (items_bytes (region_items fd mutableCopy))); lia|].
    intros s3 Ew3 Hwf3 Hp3 Eo3. pose proof (laid_holds _ _ _ _ _ _ Hr Hl1 Hp3 Eo3) as Hh3.
    set (b3 := mkBS s3 (w_shared b2) (w_maps b2)).
    assert (Hs3 : shared_at b3 fd = Some (f, mkShared bs (final_prot mutableCopy))).
    { apply shared_at_intro; [|done]. unfold b_fds in *. cbn. by rewrite Ew3, Ef1, lookup_insert_eq. }
    wp_step. wp_use read_in_mapping; [done|exact Hh3|exact Hfd|exact Hs3|done|].
    intros r b4 (Es4 & Ef4 & Hr4). wp_step.
    assert (Hwb : w_maps b4 !! addr = Some (mkMapping f len (Z.lor PROT_READ PROT_WRITE)) ->
      blob_bytes (blob_init fd (Mapped addr) len mutableCopy) b4 = Some bs).
    { intros Hm4. eapply (mapped_bytes b4 len f addr _ (mkShared bs (final_prot mutableCopy))); [exact Hm4|by rewrite Es4|done]. }
    destruct r as [rb|st].
    + destruct Hr4 as (addr' & -> & Hn4 & Hm4). cbn in Hn4. split_and!; [| |done|done].
      * eapply (mapped_bytes b4 len f addr' _ (mkShared bs (final_prot mutableCopy)));
          [by rewrite Hm4, lookup_insert_eq|by rewrite Es4|done].
      * apply Hwb. rewrite Hm4, lookup_insert_ne; [cbn; congruence|]. intros ->. congruence.
    + split; [cbn; unfold is_fd in Hfd; lia|]. apply Hwb. rewrite Hr4. cbn. congruence.
Qed.

(** Releasing a blob undoes its mapping. *)
Theorem released_blob_unmaps `{AshmemLaws} (b : BS) (len : Z) (mutableCopy : bool) :
  room (4 + padz len + sizeof_flat) 1 (ps b) -> 0 <= len ->
  wp (let* r := writeBlob len mutableCopy in
      match r with Good bl => blob_release bl | Err _ => ret blob_new end) b
    (fun bl b' => bl = blob_new /\ w_maps b' = w_maps b).
Proof.
  intros Hr Hl. wp_step. wp_use writeBlob_ok; [done|done|].
  intros [bl|st] b1 [_ Hc]; [|wp_step; split; [done|apply Hc]].
  destruct Hc as [(-> & _ & [_ Hm] & _)|(fd & f & addr & -> & Hfd & _ & _ & _ & _ & Hn & Hm & _)].
  - unfold blob_release. cbn [bData blob_init mFd]. change (-1 =? -1) with true. cbv iota. by wp_steps.
  - unfold blob_release. cbn [bData blob_init mFd mSize]. unfold is_fd in Hfd. zdec (fd =? -1).
    wp_step. eapply wpg_mono; [eapply munmap_law; rewrite Hm; apply lookup_insert_eq|].
    intros [] b2 ->. wp_step. split; [done|]. cbn. rewrite Hm. by apply delete_insert_id.
Qed.

(** * Compound formats on concrete inputs *)

(** * Libraries *)

(** Native handles with the limits of libcutils. *)
#[local] Instance handles : NativeHandles := {
  native_handle_create := fun _ numFds numInts =>
    if (0 <=? numFds) && (numFds <=? 1024) && (0 <=? numInts) && (numInts <=? 1024)
    then Some (mkHandle 12 numFds numInts (zeros (numFds + numInts))) else None;
  native_handle_close := fun h => for_each (ztake (nh_numFds h) (nh_data h)) close;
}.

#[local] Instance handle_laws : NativeHandleLaws.
Proof.
  split; [|done]. intros w numFds numInts h. unfold native_handle_create. simpl.
  zcase (0 <=? numFds); [|done]. zcase (numFds <=? 1024); [|done]. zcase (0 <=? numInts); [|done].
  zcase (numInts <=? 1024); [|done]. simpl. intros [= <-]. split_and!; try done. cbn. apply zlen_zeros. lia.
Qed.

(** Shared memory in which every lawful call succeeds: the descriptor and the file
    are the lowest that are free, a mapping is at the address above all others. *)
Definition lowest_key {A} (m : gmap Z A) : Z := lowest_free (fmap (fun _ => 0) m) (size m) 0.

Lemma lowest_key_free {A} (m : gmap Z A) : m !! lowest_key m = None /\ 0 <= lowest_key m.
Proof.
  unfold lowest_key. destruct (lowest_free_free (fmap (fun _ => 0) m)) as [H1 H2].
  rewrite map_size_fmap in *. rewrite lookup_fmap in H1. by destruct (m !! _).
Qed.

#[local] Instance memfd : Ashmem := {
  ashmem_create_region := fun len b =>
    let fd := lowest_key (b_fds b) in
    let f := lowest_key (w_shared b) in
    if gMaxFds (world (ps b)) <=? fd then Ret (-1) b else
    if INT32_MAX <? fd then Ret (-1) b else
    Ret fd (set_shared (<[f := mkShared (zeros len) (Z.lor PROT_READ PROT_WRITE)]> (w_shared b))
              (set_fds (<[fd := f]> (b_fds b)) b));
  ashmem_set_prot_region := fun fd prot b =>
    match shared_at b fd with
    | Some (f, sf) => if Z.land (sf_prot sf) prot =? prot
                      then Ret 0 (set_shared (<[f := mkShared (sf_bytes sf) prot]> (w_shared b)) b)
                      else Ret (-1) b
    | None => Ret (-1) b
    end;
  ashmem_valid := fun fd b => Ret (match shared_at b fd with Some _ => true | None => false end) b;
  ashmem_get_size_region := fun fd b =>
    Ret (match shared_at b fd with Some (_, sf) => zlen (sf_bytes sf) | None => -1 end) b;
  mmap := fun len prot fd b =>
    match shared_at b fd with
    | Some (f, sf) => if Z.land (sf_prot sf) prot =? prot
                      then let addr := lowest_key (w_maps b) in
                           Ret (Good addr) (set_maps (<[addr := mkMapping f len prot]> (w_maps b)) b)
                      else Ret (Err PERMISSION_DENIED) b
    | None => Ret (Err BAD_VALUE) b
    end;
  munmap := fun addr len b =>
    match addr with
    | Some a => Ret tt (set_maps (delete a (w_maps b)) b)
    | None => Ret tt b
    end;
}.

#[local] Instance memfd_laws : AshmemLaws.
Proof.
  split; unfold wpg; cbn.
  - intros F b len Hlen. destruct (lowest_key_free (b_fds b)) as [H1 H2], (lowest_key_free (w_shared b)) as [H3 _].
    destruct (_ <=? _); [by left|]. zcase (INT32_MAX <? lowest_key (b_fds b)); [by left|]. right.
    exists (lowest_key (w_shared b)). split_and!; try done; lia.
  - intros F b fd prot. destruct (shared_at b fd) as [[f sf]|] eqn:E; [|by left].
    zcase (Z.land (sf_prot sf) prot =? prot); [right|by left]. exists f, sf. by split_and!.
  - intros F b fd. split; [done|]. destruct (shared_at b fd) as [[f sf]|].
    + split; [by eexists|done].
    + split; [done|by intros [? ?]].
  - intros F b fd. split; [done|]. intros f sf ->. by left.
  - intros F b len prot fd. destruct (shared_at b fd) as [[f sf]|]; [|done].
    zcase (Z.land (sf_prot sf) prot =? prot); [|done]. destruct (lowest_key_free (w_maps b)) as [H1 _].
    by exists f, sf.
  - done.
  - done.
Qed.

(** * An empty parcel with descriptors 0 and 1 open *)

Definition office : PS := mkPS init_parcel SampleObjects.office.

Lemma office_room n k : 3 * n / 2 <= INT32_MAX -> k <= INT32_MAX -> room n k office.
Proof.
  intros Hn Hk. split; [apply init_parcel_wf|done|done| |simpl; lia|constructor|constructor].
  unfold fits. simpl. replace (3 * (0 + n)) with (3 * n) by lia. done.
Qed.

Lemma office_plenty j : j <= 1000 -> plenty j office.
Proof. intros Hj. split; [by intros [k [=]]|done|]. change (Z.of_nat (size _)) with 2. simpl. lia. Qed.

(** A handle with the descriptors 1 and 0, and the integers -5, 7 and 9. *)
Definition a_handle : native_handle := mkHandle 12 2 3 [1; 0; -5; 7; 9].

Lemma office_handle : good_handle (w_fds (world office)) a_handle [1; 0] [-5; 7; 9].
Proof. split; try done; repeat (constructor; [by (eexists || vm_compute)|]); constructor. Qed.

Lemma native_handle_roundtrip_witness :
  wp (let* pos := getp dataPosition in
      let* st := writeNativeHandle (Some a_handle) in
      setDataPosition pos ;;
      let* r := readNativeHandle in
      ret (st, r)) office (fun '(st, r) s' => st = OK /\
    exists h' fds', r = Some h' /\ nh_data h' = fds' ++ [-5; 7; 9] /\ nh_numFds h' = 2 /\ nh_numInts h' = 3 /\
      NoDup fds' /\ Forall2 (same_file (w_fds (world office)) (w_fds (world s'))) [1; 0] fds').
Proof.
  apply (native_handle_roundtrip office a_handle [1; 0] [-5; 7; 9]).
  - by apply office_room.
  - by vm_compute.
  - apply office_handle.
  - by apply office_plenty.
  - intros w. by eexists.
Defined.

Lemma handle_descriptors_balance_witness :
  wp readNativeHandle office (fun r s' => reads_only office s' /\
    match r with
    | None => w_fds (world s') = w_fds (world office)
    | Some h => zlen (nh_data h) = nh_numFds h + nh_numInts h /\
                opened (w_fds (world office)) (w_fds (world s')) (ztake (nh_numFds h) (nh_data h))
    end).
Proof. apply (handle_descriptors_balance office). apply init_parcel_wf. Defined.

(** A buffer with a descriptor: its data, and its descriptor. *)
#[local] Instance buffers : FlattenableHelperInterface (bytes * Z) := {
  getFlattenedSize := fun b => zlen (fst b);
  getFdCount := fun _ => 1;
  flatten := fun b _ _ => (NO_ERROR, fst b, [snd b]);
  unflatten := fun _ bs fds => (NO_ERROR, (bs, default (-1) (fds !! O)));
}.

Definition a_buffer : bytes * Z := ([10; 20; 30], 1).

Lemma a_buffer_flattens : flattens (w_fds (world office)) a_buffer.
Proof.
  split; [by vm_compute|]. split; [by vm_compute|]. intros before junk _ _.
  exists [10; 20; 30], [1]. split_and!; try done.
  - repeat (constructor; [by vm_compute|]). constructor.
  - constructor; [by eexists|constructor].
Qed.


(** * Blobs, of a size that goes to shared memory *)

Definition desk : BS := mkBS office ∅ ∅.

Lemma failed_blob_leaves_nothing_witness :
  wp (writeBlob 20000 false) desk (fun r b' => wf (this (ps b')) /\
    match r with
    | Good bl => mSize bl = 20000 /\ is_Some (blob_bytes bl b')
    | Err st => b_fds b' = b_fds desk /\ w_maps b' = w_maps desk
    end).
Proof.
  apply (failed_blob_leaves_nothing desk 20000 false); [by apply office_room|done].
Defined.

Lemma blob_read_is_backed_witness :
  wp (readBlob 20000) desk (fun r b' => reads_only office (ps b') /\ b_fds b' = b_fds desk /\
    w_shared b' = w_shared desk /\
    match r with
    | Good bl => mSize bl = 20000 /\ exists bs, blob_bytes bl b' = Some bs /\ zlen bs = 20000
    | Err _ => w_maps b' = w_maps desk
    end).
Proof. apply (blob_read_is_backed desk 20000); [apply init_parcel_wf|done]. Defined.

Lemma zeros_bytes_20000 : Forall is_byte (zeros 20000) /\ zlen (zeros 20000) = 20000.
Proof. split; [apply Forall_zeros|by apply zlen_zeros]. Qed.

Lemma blob_roundtrip_witness :
  wp (let* pos := on_parcel (getp dataPosition) in
      let* w := writeBlob 20000 false in
      match w with
      | Err st => ret None
      | Good wb =>
          fill_blob wb (zeros 20000) ;;
          on_parcel (setDataPosition pos) ;;
          let* r := readBlob 20000 in
          ret (Some (wb, r))
      end) desk (fun o b' =>
    match o with
    | None => b_fds b' = b_fds desk /\ w_maps b' = w_maps desk
    | Some (wb, Good rb) => blob_bytes rb b' = Some (zeros 20000) /\ blob_bytes wb b' = Some (zeros 20000) /\
        mMutable rb = mMutable wb /\ (mMutable wb = true -> false = true)
    | Some (wb, Err _) => mFd wb <> -1 /\ blob_bytes wb b' = Some (zeros 20000)
    end).
Proof.
  apply (blob_roundtrip desk 20000 false (zeros 20000)); [by apply office_room|apply zeros_bytes_20000..].
Defined.

(** When the object table is out of order, looking an object up can fail, and the
    failure's status is listed as if it were a descriptor: the listing tests for
    [-1], which [readFileDescriptor] never answers. *)
Lemma debug_listing_of_an_error :
  exists s, debugReadAllFileDescriptors (mkPS shuffled SampleObjects.office) = Ret [0; 1; BAD_TYPE] s.
Proof. eexists. vm_compute. reflexivity. Qed.
