(* ===== verification/MemoryDealer.v ===== *)
(** The shared-memory allocator (src/libs/binder/MemoryDealer.cpp): the
    intrusive doubly linked list [LinkedList], the best-fit allocator
    [SimpleBestFitAllocator] over it, and the offsets that [MemoryDealer]
    hands out and [Allocation] gives back.

    Chunks live in a store from addresses to [chunk_t] records with their
    [prev] and [next] pointers, as in the code; a dereference of a null or
    deleted pointer is a [Fault].  The page size is the platform's, and
    [log_fatal] tells whether [LOG_FATAL_IF] is compiled in.  Loops carry fuel,
    the number of live chunks; running out of it would be a [Fault], which the
    theorems exclude. *)

From S2P Require Import Prelude Errors.

(** * Chunks and the list *)

(** [size] is a bit-field of 28 bits, in units of [kMemoryAlign] bytes. *)
Record chunk_t := mkChunk {
  c_start : Z;
  c_size : Z;
  c_free : bool;
  c_prev : option Z;
  c_next : option Z;
}.

Definition u28 (x : Z) : Z := x mod 268435456.

Definition set_c_start (x : Z) (c : chunk_t) : chunk_t :=
  mkChunk x (c_size c) (c_free c) (c_prev c) (c_next c).
Definition set_c_size (x : Z) (c : chunk_t) : chunk_t :=
  mkChunk (c_start c) (u28 x) (c_free c) (c_prev c) (c_next c).
Definition set_c_free (x : bool) (c : chunk_t) : chunk_t :=
  mkChunk (c_start c) (c_size c) x (c_prev c) (c_next c).
Definition set_c_prev (x : option Z) (c : chunk_t) : chunk_t :=
  mkChunk (c_start c) (c_size c) (c_free c) x (c_next c).
Definition set_c_next (x : option Z) (c : chunk_t) : chunk_t :=
  mkChunk (c_start c) (c_size c) (c_free c) (c_prev c) x.

(** The allocator's members, with the store of its chunks and the address the
    next [new] returns. *)
Record Allocator := mkAllocator {
  mFirst : option Z;
  mLast : option Z;
  mHeapSize : Z;
  chunks : gmap Z chunk_t;
  fresh : Z;
}.

Definition set_mFirst (x : option Z) (a : Allocator) : Allocator :=
  mkAllocator x (mLast a) (mHeapSize a) (chunks a) (fresh a).
Definition set_mLast (x : option Z) (a : Allocator) : Allocator :=
  mkAllocator (mFirst a) x (mHeapSize a) (chunks a) (fresh a).
Definition set_chunks (x : gmap Z chunk_t) (a : Allocator) : Allocator :=
  mkAllocator (mFirst a) (mLast a) (mHeapSize a) x (fresh a).

(** [*p] and [p->field = ...]. *)
Definition deref (p : Z) : M Allocator chunk_t :=
  let* a := get in require (chunks a !! p).
Definition assign (p : Z) (f : chunk_t -> chunk_t) : M Allocator unit :=
  let* c := deref p in modify (fun a => set_chunks (<[p := f c]> (chunks a)) a).

(** [new chunk_t(start, size)] and [delete]. *)
Definition new_chunk (start size : Z) : M Allocator Z :=
  let* a := get in
  put (mkAllocator (mFirst a) (mLast a) (mHeapSize a)
         (<[fresh a := mkChunk start (u28 size) true None None]> (chunks a)) (fresh a + 1)) ;;
  ret (fresh a).
Definition delete_chunk (p : Z) : M Allocator unit :=
  let* _ := deref p in modify (fun a => set_chunks (delete p (chunks a)) a).

Definition insertAfter (node newNode : Z) : M Allocator unit :=
  assign newNode (set_c_prev (Some node)) ;;
  let* n := deref node in
  assign newNode (set_c_next (c_next n)) ;;
  let* n := deref node in
  match c_next n with
  | None => modify (set_mLast (Some newNode))
  | Some m => assign m (set_c_prev (Some newNode))
  end ;;
  assign node (set_c_next (Some newNode)).

Definition insertBefore (node newNode : Z) : M Allocator unit :=
  let* n := deref node in
  assign newNode (set_c_prev (c_prev n)) ;;
  assign newNode (set_c_next (Some node)) ;;
  let* n := deref node in
  match c_prev n with
  | None => modify (set_mFirst (Some newNode))
  | Some m => assign m (set_c_next (Some newNode))
  end ;;
  assign node (set_c_prev (Some newNode)).

Definition insertHead (newNode : Z) : M Allocator unit :=
  let* first := gets mFirst in
  match first with
  | None =>
      modify (fun a => set_mFirst (Some newNode) (set_mLast (Some newNode) a)) ;;
      assign newNode (set_c_next None) ;;
      assign newNode (set_c_prev None)
  | Some f =>
      assign newNode (set_c_prev None) ;;
      assign newNode (set_c_next (Some f)) ;;
      assign f (set_c_prev (Some newNode)) ;;
      modify (set_mFirst (Some newNode))
  end.

Definition insertTail (newNode : Z) : M Allocator unit :=
  let* last := gets mLast in
  match last with
  | None => insertHead newNode
  | Some l =>
      assign newNode (set_c_prev (Some l)) ;;
      assign newNode (set_c_next None) ;;
      assign l (set_c_next (Some newNode)) ;;
      modify (set_mLast (Some newNode))
  end.

Definition remove (node : Z) : M Allocator Z :=
  let* n := deref node in
  match c_prev n with
  | None => modify (set_mFirst (c_next n))
  | Some p => assign p (set_c_next (c_next n))
  end ;;
  let* n := deref node in
  match c_next n with
  | None => modify (set_mLast (c_prev n))
  | Some m => assign m (set_c_prev (c_prev n))
  end ;;
  ret node.

(** * The allocator *)

Definition kMemoryAlign : Z := 32.
Definition PAGE_ALIGNED : Z := 1.

(** The fuel of every loop over the list. *)
Definition list_fuel (a : Allocator) : nat := S (base.size (chunks a)).

Section Allocator.
Context (pagesize : Z) (log_fatal : bool).

(** [(x + pagesize-1) & ~(pagesize-1)] and [x & ~(pagesize-1)], in [size_t]. *)
Definition page_down (x : Z) : Z := Z.land x (u64 (- pagesize)).
Definition page_up (x : Z) : Z := page_down (u64 (x + pagesize - 1)).

Definition SimpleBestFitAllocator (size : Z) : M Allocator unit :=
  modify (fun a => mkAllocator None None (page_up size) (chunks a) (fresh a)) ;;
  let* h := gets mHeapSize in
  let* node := new_chunk 0 (h / kMemoryAlign) in
  insertHead node.

(** [~SimpleBestFitAllocator]. *)
Fixpoint destroy (fuel : nat) : M Allocator unit :=
  let* head := gets mFirst in
  match head with
  | None => ret tt
  | Some h =>
      match fuel with
      | O => fault
      | S fuel' =>
          let* removed := remove h in
          delete_chunk removed ;;
          destroy fuel'
      end
  end.

Definition extra_for (flags start : Z) : Z :=
  if Z.land flags PAGE_ALIGNED =? 0 then 0
  else s32 (Z.land (u64 (- start)) (pagesize / kMemoryAlign - 1)).

(** The search loop of [alloc]. *)
Fixpoint best_fit (fuel : nat) (size flags : Z) (cur free_chunk : option Z) :
    M Allocator (option Z) :=
  match cur with
  | None => ret free_chunk
  | Some c =>
      match fuel with
      | O => fault
      | S fuel' =>
          let* n := deref c in
          let extra := extra_for flags (c_start n) in
          if c_free n && (u64 (size + extra) <=? c_size n) then
            let* better :=
              match free_chunk with
              | None => ret true
              | Some b => let* f := deref b in ret (c_size n <? c_size f)
              end in
            let free_chunk' := if better then Some c else free_chunk in
            if c_size n =? size then ret free_chunk'
            else best_fit fuel' size flags (c_next n) free_chunk'
          else best_fit fuel' size flags (c_next n) free_chunk
      end
  end.

(** The splits around the chunk that [alloc] has chosen. *)
Definition split_chunk (f free_size size flags : Z) : M Allocator unit :=
  let* n := deref f in
  let extra := extra_for flags (c_start n) in
  (if extra =? 0 then ret tt else
     let* split := new_chunk (c_start n) extra in
     assign f (fun c => set_c_start (u64 (c_start c + extra)) c) ;;
     insertBefore f split) ;;
  let tail_free := s64 (free_size - (size + extra)) in
  if 0 <? tail_free then
    let* n := deref f in
    let* split := new_chunk (u64 (c_start n + c_size n)) tail_free in
    insertAfter f split
  else ret tt.

Definition alloc (size flags : Z) : M Allocator Z :=
  if size =? 0 then ret 0 else
  let size := u64 (size + kMemoryAlign - 1) / kMemoryAlign in
  let* a := get in
  let* free_chunk := best_fit (list_fuel a) size flags (mFirst a) None in
  match free_chunk with
  | None => ret NO_MEMORY
  | Some f =>
      let* n := deref f in
      let free_size := c_size n in
      assign f (set_c_free false) ;;
      assign f (set_c_size size) ;;
      (if size <? free_size then split_chunk f free_size size flags else ret tt) ;;
      let* n := deref f in
      ret (s64 (c_start n * kMemoryAlign))
  end.

(** The [do ... while] of [dealloc] that merges free neighbours. *)
Fixpoint merge (fuel : nat) (cur freed : Z) : M Allocator Z :=
  match fuel with
  | O => fault
  | S fuel' =>
      let* c := deref cur in
      let n := c_next c in
      let* freed' :=
        match c_prev c with
        | None => ret freed
        | Some p =>
            let* pc := deref p in
            if c_free pc || (c_size c =? 0) then
              assign p (fun pc => set_c_size (c_size pc + c_size c) pc) ;;
              remove cur ;;
              delete_chunk cur ;;
              ret p
            else ret freed
        end in
      match n with
      | None => ret freed'
      | Some m =>
          let* nc := deref m in
          if c_free nc then merge fuel' m freed' else ret freed'
      end
  end.

(** The search loop of [dealloc]. *)
Fixpoint find_start (fuel : nat) (start : Z) (cur : option Z) : M Allocator (option Z) :=
  match cur with
  | None => ret None
  | Some c =>
      match fuel with
      | O => fault
      | S fuel' =>
          let* n := deref c in
          if c_start n =? start then ret (Some c) else find_start fuel' start (c_next n)
      end
  end.

Definition dealloc (start : Z) : M Allocator (option Z) :=
  let start := start / kMemoryAlign in
  let* a := get in
  let* found := find_start (list_fuel a) start (mFirst a) in
  match found with
  | None => ret None
  | Some cur =>
      let* c := deref cur in
      fatal_if (log_fatal && c_free c) ;;
      assign cur (set_c_free true) ;;
      let* freed := merge (list_fuel a) cur cur in
      let* f := deref freed in
      fatal_if (log_fatal && negb (c_free f)) ;;
      ret (Some freed)
  end.

(** [allocate] returns a [size_t]. *)
Definition allocate (size flags : Z) : M Allocator Z :=
  let* offset := alloc size flags in ret (u64 offset).

Definition deallocate (offset : Z) : M Allocator status_t :=
  let* freed := dealloc offset in
  match freed with
  | Some _ => ret NO_ERROR
  | None => ret NAME_NOT_FOUND
  end.

(** [MemoryDealer::allocate]: the offset and size of the [Allocation], or null. *)
Definition dealer_allocate (size : Z) : M Allocator (option (Z * Z)) :=
  let* r := allocate size 0 in
  let offset := s64 r in
  if 0 <=? offset then ret (Some (offset, size)) else ret None.

(** [~Allocation]: the pages given back to the kernel, as the range computed
    before [madvise]. *)
Definition freed_pages (freedOffset freedSize : Z) : Z * Z :=
  let start := page_down freedOffset in
  let end_ := page_up (u64 (freedOffset + freedSize)) in
  let free_start := freedOffset in
  let free_end := u64 (free_start + freedSize) in
  let start := if start <? free_start then free_start else start in
  let end_ := if free_end <? end_ then free_end else end_ in
  (page_up start, page_down end_).

Definition destroy_Allocation (m : Z * Z) : M Allocator unit :=
  let '(freedOffset, freedSize) := m in
  if freedSize =? 0 then ret tt else deallocate freedOffset ;; ret tt.
End Allocator.
