(* ===== verification/MemoryDealerSpec.v ===== *)
(** The shared-memory allocator refines a list of blocks: the pointer
    structure of MemoryDealer.v represents a list of (start, size, free)
    blocks, each list operation is its counterpart on lists, and [alloc] and
    [dealloc] are their reference definitions [alloc_blocks] and
    [dealloc_blocks].  The allocator's invariant (the blocks tile the heap, none
    is empty, no two free ones touch) is stated on that list. *)

From S2P Require Import Prelude Errors MemoryDealer.

(** * The list a pointer structure represents *)

Record block := mkBlock { b_start : Z; b_size : Z; b_free : bool }.

Definition node_of (b : block) (p n : option Z) : chunk_t :=
  mkChunk (b_start b) (b_size b) (b_free b) p n.
Definition block_of (c : chunk_t) : block := mkBlock (c_start c) (c_size c) (c_free c).

Definition first_id (l : list (Z * block)) (n : option Z) : option Z :=
  match l with [] => n | (i, _) :: _ => Some i end.
Fixpoint last_id (l : list (Z * block)) (p : option Z) : option Z :=
  match l with [] => p | (i, _) :: l' => last_id l' (Some i) end.

Abbreviation ids l := (fmap (M := list) (@fst Z block) l).

(** The nodes of [l] are linked in both directions between [p] and [n]. *)
Fixpoint linked (cs : gmap Z chunk_t) (p : option Z) (l : list (Z * block)) (n : option Z) : Prop :=
  match l with
  | [] => True
  | (i, b) :: l' => cs !! i = Some (node_of b p (first_id l' n)) /\ linked cs (Some i) l' n
  end.

Record lists (a : Allocator) (l : list (Z * block)) : Prop := {
  l_nodup : NoDup (ids l);
  l_linked : linked (chunks a) None l None;
  l_first : mFirst a = first_id l None;
  l_last : mLast a = last_id l None;
}.

(** What the list operations do not touch. *)
Definition same_store (a a' : Allocator) : Prop :=
  dom (chunks a') = dom (chunks a) /\ fresh a' = fresh a /\ mHeapSize a' = mHeapSize a.

#[export] Instance same_store_preorder : PreOrder same_store.
Proof. split; [done|]. intros a b c (?&?&?) (?&?&?). repeat split; congruence. Qed.

Lemma first_id_app l1 l2 n : first_id (l1 ++ l2) n = first_id l1 (first_id l2 n).
Proof. by destruct l1 as [|[]]. Qed.

Lemma last_id_app l1 l2 p : last_id (l1 ++ l2) p = last_id l2 (last_id l1 p).
Proof. revert p. induction l1 as [|[i b] l1 IH]; simpl; auto. Qed.

Lemma linked_app cs l1 l2 p n :
  linked cs p (l1 ++ l2) n <->
  linked cs p l1 (first_id l2 n) /\ linked cs (last_id l1 p) l2 n.
Proof.
  revert p. induction l1 as [|[i b] l1 IH]; intros p; simpl; [tauto|].
  rewrite first_id_app, IH. tauto.
Qed.

Lemma linked_frame cs cs' l p n :
  (forall i, i ∈ (ids l) -> cs' !! i = cs !! i) -> linked cs p l n -> linked cs' p l n.
Proof.
  revert p. induction l as [|[i b] l IH]; intros p Hf; simpl; [done|].
  intros [Hi Hl]. split; [rewrite Hf; [done|by left]|].
  apply IH; [|done]. intros j Hj. apply Hf. by right.
Qed.

Lemma node_lookup a l1 i b l2 :
  lists a (l1 ++ (i, b) :: l2) ->
  chunks a !! i = Some (node_of b (last_id l1 None) (first_id l2 None)).
Proof. intros []. by apply linked_app in l_linked0 as [_ [? _]]. Qed.

(** * Steps of the pointer code *)

Lemma wpg_deref F p c a Q : chunks a !! p = Some c -> Q c a -> wpg F (deref p) a Q.
Proof. intros E H. unfold deref. wp_steps. by apply (wpg_require _ _ c). Qed.

Lemma wpg_assign F p f c a Q :
  chunks a !! p = Some c -> Q tt (set_chunks (<[p := f c]> (chunks a)) a) ->
  wpg F (assign p f) a Q.
Proof. intros E H. unfold assign. wp_steps. by apply (wpg_deref _ _ c). Qed.

(** Run the next dereference or assignment, whose node is found in the context
    after the assignments made so far. *)
Ltac ptr_find := simpl; repeat (rewrite lookup_insert_eq || (rewrite lookup_insert_ne by congruence));
  first [eassumption | reflexivity].
Ltac ptr_step :=
  lazymatch goal with
  | |- wpg _ (bind _ _) _ _ => apply wpg_bind
  | |- wpg _ (deref _) _ _ => eapply wpg_deref; [ptr_find|]
  | |- wpg _ (assign _ _) _ _ => eapply wpg_assign; [ptr_find|]
  | |- _ => wp_step
  end; cbn [c_prev c_next c_start c_size c_free node_of set_c_prev set_c_next set_c_free].
Ltac ptr_steps := repeat ptr_step.

(** Look a node up after a series of assignments, given the disequalities. *)
Ltac lk := simpl; repeat (rewrite lookup_insert_eq || (rewrite lookup_insert_ne by congruence)).
Ltac lk_frame H :=
  eapply linked_frame; [|exact H]; intros ? ?; lk;
  repeat rewrite lookup_insert_ne by (intros ->; set_solver); done.

(** * The list operations *)

Lemma dom_assign (cs : gmap Z chunk_t) p c c' :
  cs !! p = Some c -> dom (<[p := c']> cs) = dom cs.
Proof. intros H. rewrite dom_insert_L. apply subseteq_union_1_L.
  apply singleton_subseteq_l. by eapply elem_of_dom_2. Qed.

Lemma nodup_mid l1 (i : Z) (b : block) l2 :
  NoDup (ids (l1 ++ (i, b) :: l2)) -> (i ∉ ids l1) /\ (i ∉ ids l2) /\ NoDup (ids (l1 ++ l2)) /\
  (forall k, k ∈ (ids l1) -> k ∈ (ids l2) -> False).
Proof.
  rewrite !fmap_app, fmap_cons. simpl. rewrite !NoDup_app, NoDup_cons.
  intros (H1 & H2 & H3 & H4). split_and!; auto.
  - intros Hi. eapply H2; [exact Hi|]. by left.
  - intros k Hk Hk'. eapply H2; [exact Hk|]. by right.
  - intros k Hk Hk'. eapply H2; [exact Hk|]. by right.
Qed.

Lemma nodup_insert l1 (j : Z) (b : block) l2 :
  NoDup (ids (l1 ++ l2)) -> j ∉ (ids (l1 ++ l2)) -> NoDup (ids (l1 ++ (j, b) :: l2)).
Proof.
  rewrite !fmap_app, fmap_cons. simpl. rewrite !NoDup_app, NoDup_cons, not_elem_of_app.
  intros (H1 & H2 & H3) [Hj1 Hj2]. split_and!; auto.
  intros k Hk [->|Hk']%elem_of_cons; [done|by apply (H2 k)].
Qed.

Lemma insertBefore_ok F a l1 i b l2 j cj :
  lists a (l1 ++ (i, b) :: l2) -> chunks a !! j = Some cj -> j ∉ ids (l1 ++ (i, b) :: l2) ->
  wpg F (insertBefore i j) a (fun _ a' =>
    lists a' (l1 ++ (j, block_of cj) :: (i, b) :: l2) /\ same_store a a').
Proof.
  intros L Hj Hn. pose proof (node_lookup _ _ _ _ _ L) as Hi. destruct L as [Hd Hl Hf Hla].
  pose proof (nodup_mid _ _ _ _ Hd) as (Hi1 & Hi2 & _ & Hdis).
  pose proof (nodup_insert l1 j (block_of cj) _ Hd Hn) as Hd'.
  rewrite fmap_app, fmap_cons, not_elem_of_app, not_elem_of_cons in Hn. csimpl in Hn.
  destruct Hn as (Hj1 & Hji & Hj2).
  apply linked_app in Hl as [Hl1 [_ Hl2]].
  unfold insertBefore. destruct l1 as [|[p bp] l1' _] using rev_ind; csimpl in *.
  - ptr_steps. ptr_steps. ptr_steps. split.
    + split; simpl; [done|..|done|done].
      split_and!; [by lk|by lk|]. lk_frame Hl2.
    + repeat split; simpl. by erewrite !dom_assign by ptr_find.
  - rewrite last_id_app in Hi. rewrite fmap_app, not_elem_of_app in Hi1, Hj1. csimpl in *.
    destruct Hi1 as [Hi1 [Hip _]%not_elem_of_cons]. destruct Hj1 as [Hj1 [Hjp _]%not_elem_of_cons].
    apply linked_app in Hl1 as [Hl1 [Hp _]]. simpl in *.
    assert ((p ∉ ids l1') /\ (p ∉ ids l2)) as [Hp1 Hp2].
    { rewrite <- app_assoc in Hd. apply nodup_mid in Hd as (?&Hp2&_).
      csimpl in Hp2. apply not_elem_of_cons in Hp2. tauto. }
    ptr_steps. ptr_steps. ptr_steps. split.
    + split; simpl; [done|..].
      * rewrite <- app_assoc. apply linked_app. split; [lk_frame Hl1|].
        simpl. split_and!; [by lk|by lk|by lk|]. lk_frame Hl2.
      * by rewrite Hf, !first_id_app.
      * by rewrite Hla, !last_id_app.
    + repeat split; simpl. by erewrite !dom_assign by ptr_find.
Qed.

Lemma insertAfter_ok F a l1 i b l2 j cj :
  lists a (l1 ++ (i, b) :: l2) -> chunks a !! j = Some cj -> j ∉ ids (l1 ++ (i, b) :: l2) ->
  wpg F (insertAfter i j) a (fun _ a' =>
    lists a' (l1 ++ (i, b) :: (j, block_of cj) :: l2) /\ same_store a a').
Proof.
  intros L Hj Hn. pose proof (node_lookup _ _ _ _ _ L) as Hi. destruct L as [Hd Hl Hf Hla].
  pose proof (nodup_mid _ _ _ _ Hd) as (Hi1 & Hi2 & _ & Hdis).
  assert (Hd' : NoDup (ids (l1 ++ (i, b) :: (j, block_of cj) :: l2))).
  { rewrite (cons_middle (i, b)), app_assoc. apply nodup_insert; by rewrite <- app_assoc. }
  rewrite fmap_app, fmap_cons, not_elem_of_app, not_elem_of_cons in Hn. csimpl in Hn.
  destruct Hn as (Hj1 & Hji & Hj2).
  apply linked_app in Hl as [Hl1 [_ Hl2]].
  rewrite last_id_app in Hla. rewrite first_id_app in Hf. simpl in Hf, Hla.
  unfold insertAfter. destruct l2 as [|[m bm] l2]; csimpl in *.
  - ptr_steps. ptr_steps. ptr_steps. split.
    + split; simpl; [done| |by rewrite first_id_app|by rewrite last_id_app].
      apply linked_app. split; [lk_frame Hl1|]. simpl. split_and!; [by lk|by lk|done].
    + repeat split; simpl. by erewrite !dom_assign by ptr_find.
  - destruct Hl2 as [Hm Hl2]. apply not_elem_of_cons in Hi2 as [Him Hi2], Hj2 as [Hjm Hj2].
    assert ((m ∉ ids l1) /\ (m ∉ ids l2)) as [Hm1 Hm2].
    { rewrite (cons_middle (i, b)), app_assoc in Hd.
      apply nodup_mid in Hd as (Hm1&?&_). rewrite fmap_app, not_elem_of_app in Hm1. tauto. }
    ptr_steps. ptr_steps. ptr_steps. split.
    + split; simpl; [done| |by rewrite first_id_app|by rewrite last_id_app].
      apply linked_app. split; [lk_frame Hl1|].
      simpl. split_and!; [by lk|by lk|by lk|]. lk_frame Hl2.
    + repeat split; simpl. by erewrite !dom_assign by ptr_find.
Qed.

(** [remove] unlinks the node, which stays allocated. *)
Lemma remove_ok F a l1 i b l2 :
  lists a (l1 ++ (i, b) :: l2) ->
  wpg F (remove i) a (fun r a' => r = i /\ lists a' (l1 ++ l2) /\ same_store a a').
Proof.
  intros L. pose proof (node_lookup _ _ _ _ _ L) as Hi. destruct L as [Hd Hl Hf Hla].
  pose proof (nodup_mid _ _ _ _ Hd) as (Hi1 & Hi2 & Hd' & Hdis).
  apply linked_app in Hl as [Hl1 [_ Hl2]].
  rewrite last_id_app in Hla. rewrite first_id_app in Hf. simpl in Hf, Hla.
  unfold remove.
  destruct l1 as [|[p bp] l1 _] using rev_ind; destruct l2 as [|[m bm] l2]; csimpl in *.
  - ptr_steps. ptr_steps. ptr_steps. done.
  - destruct Hl2 as [Hm Hl2]. apply not_elem_of_cons in Hi2 as [Him Hi2].
    apply NoDup_cons in Hd' as Hd2. destruct Hd2 as [Hm2 _].
    ptr_steps. ptr_steps. ptr_steps. split_and!; [done| |].
    + split; simpl; [done| |done|done]. split; [by lk|]. lk_frame Hl2.
    + repeat split; simpl. by erewrite !dom_assign by ptr_find.
  - rewrite last_id_app in *. rewrite fmap_app, not_elem_of_app in Hi1. csimpl in *.
    destruct Hi1 as [Hi1 [Hip _]%not_elem_of_cons].
    apply linked_app in Hl1 as [Hl1 [Hp _]]. simpl in *.
    assert (p ∉ ids l1) as Hp1. { rewrite app_nil_r in Hd'. apply nodup_mid in Hd'. tauto. }
    ptr_steps. ptr_steps. ptr_steps. split_and!; [done| |].
    + rewrite app_nil_r in *. split; simpl; [done| | |by rewrite last_id_app].
      * apply linked_app. split; [lk_frame Hl1|]. simpl. split; [by lk|done].
      * by rewrite Hf, !first_id_app.
    + repeat split; simpl. by erewrite !dom_assign by ptr_find.
  - rewrite last_id_app in *. rewrite fmap_app, not_elem_of_app in Hi1. csimpl in *.
    destruct Hi1 as [Hi1 [Hip _]%not_elem_of_cons].
    apply linked_app in Hl1 as [Hl1 [Hp _]]. simpl in *.
    destruct Hl2 as [Hm Hl2]. apply not_elem_of_cons in Hi2 as [Him Hi2].
    rewrite <- app_assoc in Hd'. simpl in Hd'.
    pose proof (nodup_mid _ _ _ _ Hd') as (Hp1 & Hpm & Hd2 & _). csimpl in Hpm.
    apply not_elem_of_cons in Hpm as [Hpm Hp2].
    apply nodup_mid in Hd2 as (Hm1 & Hm2 & _).
    ptr_steps. ptr_steps. ptr_steps. split_and!; [done| |].
    + split; simpl; [by rewrite <- app_assoc|..].
      * rewrite <- app_assoc. apply linked_app. split; [lk_frame Hl1|].
        simpl. split_and!; [by lk|by lk|]. lk_frame Hl2.
      * by rewrite Hf, !first_id_app.
      * by rewrite Hla, !last_id_app.
    + repeat split; simpl. by erewrite !dom_assign by ptr_find.
Qed.

Lemma insertHead_ok F a l j cj :
  lists a l -> chunks a !! j = Some cj -> j ∉ ids l ->
  wpg F (insertHead j) a (fun _ a' => lists a' ((j, block_of cj) :: l) /\ same_store a a').
Proof.
  intros [Hd Hl Hf Hla] Hj Hn. unfold insertHead. apply wpg_bind, wpg_gets. rewrite Hf.
  assert (Hd' : NoDup (ids ((j, block_of cj) :: l))) by by apply (nodup_insert []).
  destruct l as [|[i b] l]; csimpl in *.
  - ptr_steps. ptr_steps. split.
    + split; simpl; [done|split; [by lk|done]|done|done].
    + repeat split; simpl. by erewrite !dom_assign by ptr_find.
  - destruct Hl as [Hi Hl]. apply not_elem_of_cons in Hn as [Hji Hn].
    apply NoDup_cons in Hd as [Hi2 _]. ptr_steps. split.
    + split; simpl; [done|split_and!; [by lk|by lk|lk_frame Hl]|done|done].
    + repeat split; simpl. by erewrite !dom_assign by ptr_find.
Qed.

Lemma insertTail_ok F a l j cj :
  lists a l -> chunks a !! j = Some cj -> j ∉ ids l ->
  wpg F (insertTail j) a (fun _ a' => lists a' (l ++ [(j, block_of cj)]) /\ same_store a a').
Proof.
  intros L Hj Hn. pose proof L as [Hd Hl Hf Hla].
  assert (Hd' : NoDup (ids (l ++ [(j, block_of cj)]))).
  { apply nodup_insert; by rewrite app_nil_r. }
  unfold insertTail. apply wpg_bind, wpg_gets. rewrite Hla.
  destruct l as [|[i b] l _] using rev_ind.
  - by apply insertHead_ok.
  - rewrite last_id_app. simpl. rewrite fmap_app, not_elem_of_app in Hn. csimpl in *.
    destruct Hn as [Hn [Hji _]%not_elem_of_cons].
    apply linked_app in Hl as [Hl [Hi _]]. apply nodup_mid in Hd as (Hi1 & _).
    ptr_steps. split.
    + split; simpl; [done| | |by rewrite !last_id_app].
      * rewrite <- app_assoc. apply linked_app. split; [lk_frame Hl|].
        simpl. split_and!; [by lk|by lk|done].
      * by rewrite Hf, !first_id_app.
    + repeat split; simpl. by erewrite !dom_assign by ptr_find.
Qed.

(** * Allocation and deletion of chunks *)

(** The list with nothing else allocated, and the list with one detached chunk
    [j]. *)
Record rep (a : Allocator) (l : list (Z * block)) : Prop := {
  r_lists : lists a l;
  r_dom : dom (chunks a) = list_to_set (ids l);
  r_fresh : Forall (fun i => i < fresh a) (ids l);
}.

Record pending (a : Allocator) (l : list (Z * block)) (j : Z) (bj : block) : Prop := {
  p_lists : lists a l;
  p_new : block_of <$> chunks a !! j = Some bj;
  p_dom : dom (chunks a) = {[ j ]} ∪ list_to_set (ids l);
  p_fresh : Forall (fun i => i < fresh a) (ids l) /\ j < fresh a;
  p_detached : j ∉ ids l;
}.

Lemma lists_frame a a' l :
  lists a l -> mFirst a' = mFirst a -> mLast a' = mLast a ->
  (forall i, i ∈ ids l -> chunks a' !! i = chunks a !! i) -> lists a' l.
Proof. intros [] E1 E2 Hc. split; [done|by eapply linked_frame|congruence|congruence]. Qed.

Lemma fresh_absent (l : list (Z * block)) j : Forall (fun i => i < j) (ids l) -> j ∉ ids l.
Proof. intros H Hj. eapply Forall_forall in H; [|exact Hj]. lia. Qed.

Lemma new_chunk_ok F a l start size :
  rep a l ->
  wpg F (new_chunk start size) a (fun j a' =>
    pending a' l j (mkBlock start (u28 size) true) /\ mHeapSize a' = mHeapSize a).
Proof.
  intros [L Hdom Hf]. unfold new_chunk. wp_steps. split; [|done].
  pose proof (fresh_absent _ _ Hf) as Hn. split; simpl; auto.
  - eapply lists_frame; [exact L|done..|]. intros i Hi. simpl.
    apply lookup_insert_ne. intros E. apply Hn. by rewrite E.
  - by rewrite lookup_insert_eq.
  - by rewrite dom_insert_L, Hdom.
  - split; [|lia]. eapply Forall_impl; [exact Hf|]. simpl. lia.
Qed.

Lemma ids_update l1 i (b b' : block) l2 : ids (l1 ++ (i, b) :: l2) = ids (l1 ++ (i, b') :: l2).
Proof. by rewrite !fmap_app, !fmap_cons. Qed.

(** An assignment to a field other than the links. *)
Lemma lists_assign a l1 i b l2 f g :
  (forall b p n, f (node_of b p n) = node_of (g b) p n) ->
  lists a (l1 ++ (i, b) :: l2) ->
  exists c, chunks a !! i = Some c /\ c = node_of b (last_id l1 None) (first_id l2 None) /\
    lists (set_chunks (<[i := f c]> (chunks a)) a) (l1 ++ (i, g b) :: l2).
Proof.
  intros Hfg L. pose proof (node_lookup _ _ _ _ _ L) as Hi. destruct L as [Hd Hl Hf Hla].
  eexists. split_and!; [exact Hi|done|].
  pose proof (nodup_mid _ _ _ _ Hd) as (Hi1 & Hi2 & _).
  apply linked_app in Hl as [Hl1 [_ Hl2]]. split; simpl.
  - by rewrite (ids_update _ _ _ b).
  - apply linked_app. split; [lk_frame Hl1|]. simpl. split; [lk; by rewrite Hfg|lk_frame Hl2].
  - by rewrite Hf, !first_id_app.
  - by rewrite Hla, !last_id_app.
Qed.

Lemma assign_rep F a l1 i b l2 f g :
  rep a (l1 ++ (i, b) :: l2) -> (forall b p n, f (node_of b p n) = node_of (g b) p n) ->
  wpg F (assign i f) a (fun _ a' => rep a' (l1 ++ (i, g b) :: l2) /\ mHeapSize a' = mHeapSize a).
Proof.
  intros [L Hdom Hfr] Hfg. destruct (lists_assign _ _ _ _ _ f g Hfg L) as (c & Hc & _ & L').
  eapply wpg_assign; [exact Hc|]. split; [|done].
  split; simpl; [done|..]; rewrite (ids_update _ _ _ b); [|done].
  by erewrite dom_assign.
Qed.

Lemma assign_pending F a l1 i b l2 j bj f g :
  pending a (l1 ++ (i, b) :: l2) j bj -> (forall b p n, f (node_of b p n) = node_of (g b) p n) ->
  wpg F (assign i f) a (fun _ a' =>
    pending a' (l1 ++ (i, g b) :: l2) j bj /\ mHeapSize a' = mHeapSize a).
Proof.
  intros [L Hj Hdom Hfr Hn] Hfg.
  destruct (lists_assign _ _ _ _ _ f g Hfg L) as (c & Hc & _ & L').
  eapply wpg_assign; [exact Hc|]. split; [|done].
  split; simpl; [done|..]; rewrite ?(ids_update _ _ _ b); auto.
  - rewrite lookup_insert_ne; [done|]. intros ->. apply Hn.
    rewrite fmap_app, fmap_cons. csimpl. set_solver.
  - by erewrite dom_assign.
Qed.

Lemma pending_rep a a' l j bj l' :
  pending a l j bj -> lists a' l' -> same_store a a' ->
  (forall i, i ∈ ids l' <-> i = j \/ i ∈ ids l) -> rep a' l'.
Proof.
  intros [L Hj Hdom [Hfr1 Hfr2] Hn] L' (Hd & Hf & _) Hids. split; [done|..].
  - rewrite Hd, Hdom. set_unfold. intros i. rewrite Hids. done.
  - rewrite Hf. apply Forall_forall. intros i [->|Hi]%Hids; [done|].
    by eapply Forall_forall in Hfr1.
Qed.

Lemma insertBefore_rep F a l1 i b l2 j bj :
  pending a (l1 ++ (i, b) :: l2) j bj ->
  wpg F (insertBefore i j) a (fun _ a' =>
    rep a' (l1 ++ (j, bj) :: (i, b) :: l2) /\ mHeapSize a' = mHeapSize a).
Proof.
  intros P. pose proof P as [L Hj _ _ Hn].
  destruct (chunks a !! j) as [cj|] eqn:Ej; [|done]. injection Hj as <-.
  wp_use insertBefore_ok; [exact L|exact Ej|exact Hn|]. intros _ a' [L' S].
  split; [|apply S]. eapply pending_rep; [exact P|exact L'|exact S|].
  intros k. rewrite !fmap_app, !fmap_cons. csimpl. set_solver.
Qed.

Lemma insertAfter_rep F a l1 i b l2 j bj :
  pending a (l1 ++ (i, b) :: l2) j bj ->
  wpg F (insertAfter i j) a (fun _ a' =>
    rep a' (l1 ++ (i, b) :: (j, bj) :: l2) /\ mHeapSize a' = mHeapSize a).
Proof.
  intros P. pose proof P as [L Hj _ _ Hn].
  destruct (chunks a !! j) as [cj|] eqn:Ej; [|done]. injection Hj as <-.
  wp_use insertAfter_ok; [exact L|exact Ej|exact Hn|]. intros _ a' [L' S].
  split; [|apply S]. eapply pending_rep; [exact P|exact L'|exact S|].
  intros k. rewrite !fmap_app, !fmap_cons. csimpl. set_solver.
Qed.

(** [mList.remove(cur); delete cur;] *)
Lemma remove_delete_rep {A} F a l1 i b l2 (k : M Allocator A) Q :
  rep a (l1 ++ (i, b) :: l2) ->
  (forall a', rep a' (l1 ++ l2) -> mHeapSize a' = mHeapSize a -> wpg F k a' Q) ->
  wpg F (remove i ;; delete_chunk i ;; k) a Q.
Proof.
  intros [L Hdom Hfr] HQ. apply wpg_bind. wp_use remove_ok; [exact L|].
  intros r a' (-> & L' & Hd & Hf & Hh).
  pose proof (nodup_mid _ _ _ _ (l_nodup _ _ L)) as (Hi1 & Hi2 & _).
  rewrite fmap_app, fmap_cons in Hdom, Hfr. csimpl in *.
  assert (exists c, chunks a' !! i = Some c) as [c Hc].
  { apply elem_of_dom. rewrite Hd, Hdom. set_solver. }
  apply wpg_bind. unfold delete_chunk. apply wpg_bind. eapply wpg_deref; [exact Hc|].
  wp_steps. apply HQ; [|done]. split; simpl.
  - eapply lists_frame; [exact L'|done..|]. intros k' Hk. simpl.
    apply lookup_delete_ne. intros ->. rewrite fmap_app in Hk. set_solver.
  - rewrite dom_delete_L, Hd, Hdom, fmap_app. set_solver.
  - rewrite Hf, fmap_app. apply Forall_app in Hfr as [? [_ ?]%Forall_cons].
    by apply Forall_app.
Qed.
