(* ===== verification/MemoryDealerProps.v ===== *)
(** Correctness of the shared-memory allocator: [alloc] is best fit on the list
    of blocks, [dealloc] frees and merges, and every reachable state keeps the
    blocks a coalesced tiling of the heap. *)

From S2P Require Import Prelude Errors MemoryDealer MemoryDealerSpec.

(** * The invariant on blocks *)

(** The blocks tile the units from [s] to [e], and none is empty. *)
Fixpoint tiles (s : Z) (l : list block) (e : Z) : Prop :=
  match l with
  | [] => s = e
  | b :: l' => b_start b = s /\ 0 < b_size b /\ tiles (s + b_size b) l' e
  end.

(** No two neighbours are free; [f] is whether the block before is. *)
Fixpoint coalesced (f : bool) (l : list block) : Prop :=
  match l with
  | [] => True
  | b :: l' => (f = true -> b_free b = false) /\ coalesced (b_free b) l'
  end.

Definition last_free (f : bool) (l : list block) : bool := default f (b_free <$> last l).

Lemma tiles_app s l1 l2 e :
  tiles s (l1 ++ l2) e <-> exists m, tiles s l1 m /\ tiles m l2 e.
Proof.
  revert s. induction l1 as [|b l1 IH]; intros s; simpl.
  - split; [eauto|]. by intros (m & -> & H).
  - rewrite IH. split; [intros (? & ? & m & ? & ?)|intros (m & (? & ? & ?) & ?)]; eauto 6.
Qed.

Lemma tiles_le s l e : tiles s l e -> s <= e.
Proof. revert s. induction l as [|b l IH]; simpl; intros s; [lia|]. intros (? & ? & H%IH). lia. Qed.

Lemma coalesced_app f l1 l2 :
  coalesced f (l1 ++ l2) <-> coalesced f l1 /\ coalesced (last_free f l1) l2.
Proof.
  revert f. induction l1 as [|b l1 IH]; intros f; simpl; [tauto|].
  rewrite IH. unfold last_free. destruct l1 as [|c l1]; [simpl; tauto|].
  rewrite (last_cons_cons b c l1). simpl default. 
  assert (is_Some (last (c :: l1))) as [x ->] by apply last_is_Some, not_eq_sym, nil_cons.
  simpl. tauto.
Qed.

Lemma last_free_snoc f l b : last_free f (l ++ [b]) = b_free b.
Proof. unfold last_free. by rewrite last_snoc. Qed.

Abbreviation blocks l := (fmap (M := list) (@snd Z block) l).

Record inv (a : Allocator) (l : list (Z * block)) : Prop := {
  i_rep : rep a l;
  i_tiles : tiles 0 (blocks l) (mHeapSize a / kMemoryAlign);
  i_coalesced : coalesced false (blocks l);
  i_small : mHeapSize a / kMemoryAlign < 268435456;
}.

Lemma tiles_mid s l1 b l2 e :
  tiles s (l1 ++ b :: l2) e ->
  s <= b_start b /\ 0 < b_size b /\ b_start b + b_size b <= e /\
  tiles s l1 (b_start b) /\ tiles (b_start b + b_size b) l2 e.
Proof.
  intros (m & H1 & -> & H2 & H3)%tiles_app.
  pose proof (tiles_le _ _ _ H1). pose proof (tiles_le _ _ _ H3). auto with lia.
Qed.

Lemma u28_small x : 0 <= x < 268435456 -> u28 x = x.
Proof. apply Z.mod_small. Qed.

Lemma length_fuel a l : rep a l -> list_fuel a = S (length l).
Proof.
  intros R. unfold list_fuel. f_equal. rewrite <- size_dom, (r_dom _ _ R).
  rewrite size_list_to_set by apply (l_nodup _ _ (r_lists _ _ R)). apply length_fmap.
Qed.

(** * Best fit *)

Section BestFit.
Context (pagesize : Z).

(** The page size is a power of two, at least one alignment unit. *)
Definition page_size_ok : Prop := exists k, 5 <= k <= 30 /\ pagesize = 2 ^ k.

Lemma extra_for_ok flags start :
  page_size_ok ->
  0 <= extra_for pagesize flags start < 33554432 /\
  (Z.land flags PAGE_ALIGNED = 0 -> extra_for pagesize flags start = 0) /\
  (Z.land flags PAGE_ALIGNED <> 0 ->
     (pagesize / kMemoryAlign | start + extra_for pagesize flags start)).
Proof.
  intros (k & Hk & ->). unfold extra_for.
  zcase (Z.land flags PAGE_ALIGNED =? 0); [split_and!; (lia || done)|].
  unfold kMemoryAlign. change 32 with (2 ^ 5). rewrite <- Z.pow_sub_r by lia.
  set (m := k - 5). replace (2 ^ m - 1) with (Z.ones m) by (rewrite Z.ones_equiv; lia).
  rewrite Z.land_ones by (unfold m; lia). unfold u64.
  assert (Hm : 0 < 2 ^ m <= 33554432).
  { split; [apply Z.pow_pos_nonneg; unfold m; lia|].
    change 33554432 with (2 ^ 25). apply Z.pow_le_mono_r; unfold m; lia. }
  replace 18446744073709551616 with (2 ^ (64 - m) * 2 ^ m)
    by (rewrite <- Z.pow_add_r by (unfold m; lia); by replace (64 - m + m) with 64 by lia).
  rewrite Z.mod_mod_divide by apply Z.divide_factor_r.
  pose proof (Z.mod_pos_bound (- start) (2 ^ m) ltac:(lia)).
  rewrite s32_small by (unfold is_s32; lia). split_and!; [lia|lia|lia|].
  intros _. apply Z.mod_divide; [lia|]. rewrite Z.add_mod_idemp_r by lia.
  by rewrite Z.add_opp_diag_r, Z.mod_0_l by lia.
Qed.

(** The condition of [alloc] on a chunk. *)
Definition can_hold (size flags : Z) (b : block) : bool :=
  b_free b && (size + extra_for pagesize flags (b_start b) <=? b_size b).

(** The search as a function of the list. *)
Fixpoint best (size flags : Z) (l : list (Z * block)) (acc : option (Z * block)) :
    option (Z * block) :=
  match l with
  | [] => acc
  | x :: l' =>
      if can_hold size flags (snd x) then
        let acc' := match acc with
                    | Some y => if b_size (snd x) <? b_size (snd y) then Some x else acc
                    | None => Some x
                    end in
        if b_size (snd x) =? size then acc' else best size flags l' acc'
      else best size flags l' acc
  end.

Lemma best_spec size flags l acc :
  (forall b, 0 <= extra_for pagesize flags (b_start b)) ->
  (forall y, acc = Some y -> can_hold size flags (snd y) = true) ->
  match best size flags l acc with
  | None => acc = None /\ forall x, x ∈ l -> can_hold size flags (snd x) = false
  | Some y => can_hold size flags (snd y) = true /\ (y ∈ l \/ acc = Some y) /\
      (forall x, x ∈ l \/ acc = Some x -> can_hold size flags (snd x) = true ->
         b_size (snd y) <= b_size (snd x))
  end.
Proof.
  intros He. revert acc. induction l as [|x l IH]; intros acc Ha; simpl.
  { destruct acc as [y|]; [|split; [done|set_solver]]. split_and!; [auto|auto|].
    intros x [?|[= ->]]; [set_solver|lia]. }
  destruct (can_hold size flags (snd x)) eqn:Ex.
  - set (acc' := match acc with Some y => _ | None => _ end).
    assert (Hacc : exists y, acc' = Some y /\ can_hold size flags (snd y) = true /\
       (y = x \/ acc = Some y) /\ b_size (snd y) <= b_size (snd x) /\
       (forall z, acc = Some z -> b_size (snd y) <= b_size (snd z))).
    { unfold acc'. destruct acc as [y|]; [|exists x; split_and!; auto with lia; done].
      zcase (b_size (snd x) <? b_size (snd y)); [exists x|exists y];
        split_and!; auto with lia; intros ? [= ->]; lia. }
    clearbody acc'. destruct Hacc as (y & -> & Hy & Hor & Hle & Hmin).
    zcase (b_size (snd x) =? size).
    + split_and!; [done|set_solver|]. intros z Hz Hc. unfold can_hold in Hc.
      specialize (He (snd z)). zb. lia.
    + specialize (IH (Some y)). destruct (best size flags l (Some y)) as [r|];
        [|destruct IH as [? _]; [by intros ? [= <-]|done]].
      destruct IH as (Hr & Hin & Hall); [by intros ? [= <-]|].
      split_and!; [done|set_solver|]. intros z [[->|Hz]%elem_of_cons|Hz] Hc.
      * etransitivity; [apply (Hall y); auto|done].
      * apply Hall; auto.
      * etransitivity; [apply (Hall y); auto|auto].
  - specialize (IH acc Ha). destruct (best size flags l acc) as [r|].
    + destruct IH as (Hr & Hin & Hall). split_and!; [done|set_solver|].
      intros z [[->|Hz]%elem_of_cons|Hz] Hc; [congruence|auto|auto].
    + destruct IH as [-> Hall]. split; [done|]. intros z [->|Hz]%elem_of_cons; auto.
Qed.

Lemma best_fit_ok F a l1 l2 size flags acc fuel :
  rep a (l1 ++ l2) -> (forall y, acc = Some y -> y ∈ l1) ->
  (forall x, x ∈ l2 -> 0 <= size + extra_for pagesize flags (b_start (snd x)) < 18446744073709551616) ->
  (length l2 <= fuel)%nat ->
  wpg F (best_fit pagesize fuel size flags (first_id l2 None) (fst <$> acc)) a
    (fun r a' => a' = a /\ r = fst <$> best size flags l2 acc).
Proof.
  revert l1 acc fuel. induction l2 as [|[i b] l2 IH]; intros l1 acc fuel R Hacc Hs Hf.
  { destruct fuel; simpl; by wp_steps. }
  destruct fuel as [|fuel]; [simpl in Hf; lia|]. simpl.
  pose proof (node_lookup _ _ _ _ _ (r_lists _ _ R)) as Hi.
  assert (R' : rep a ((l1 ++ [(i, b)]) ++ l2)) by by rewrite <- app_assoc.
  apply wpg_bind. eapply wpg_deref; [exact Hi|]. cbn [c_free c_start c_size c_next node_of].
  pose proof (Hs (i, b) ltac:(by left)) as Hb. simpl in Hb. rewrite u64_small by done.
  fold (can_hold size flags b). destruct (can_hold size flags b) eqn:Ec.
  - apply wpg_bind.
    apply (wpg_mono _ _ _ (fun (r : bool) a' => a' = a /\ (if r then Some i else fst <$> acc) =
        fst <$> match acc with
                | Some y => if b_size b <? b_size (snd y) then Some (i, b) else acc
                | None => Some (i, b) end)).
    { destruct acc as [[j bj]|]; simpl; [|by wp_steps].
      pose proof (list_elem_of_split _ _ (Hacc _ eq_refl)) as (k & l1' & ->).
      rewrite <- app_assoc in R. simpl in R.
      apply wpg_bind. eapply wpg_deref; [apply (node_lookup _ _ _ _ _ (r_lists _ _ R))|].
      wp_steps. simpl. by destruct (b_size b <? b_size bj). }
    intros better a' [-> E].
    destruct (b_size b =? size); [wp_steps; by rewrite E|]. rewrite E.
    apply (IH (l1 ++ [(i, b)])); [done| |intros; apply Hs; by right|simpl in Hf; lia].
    intros y Hy. rewrite elem_of_app. destruct acc as [z|]; [|injection Hy as <-; set_solver].
    destruct (_ <? _); injection Hy as <-; [set_solver|left; auto].
  - apply (IH (l1 ++ [(i, b)])); [done| |intros; apply Hs; by right|simpl in Hf; lia].
    intros y Hy. rewrite elem_of_app. auto.
Qed.
End BestFit.

(** * Allocation *)

(** What becomes of the chosen block [b] when [size] units are taken from it
    after [e] units of alignment. *)
Definition carve (b : block) (e size : Z) : list block :=
  (if e =? 0 then [] else [mkBlock (b_start b) e true]) ++
  mkBlock (b_start b + e) size false ::
  (if size + e <? b_size b
   then [mkBlock (b_start b + e + size) (b_size b - (size + e)) true] else []).

Lemma carve_tiles b e size s l1 l2 t :
  tiles s (l1 ++ b :: l2) t -> 0 <= e -> 0 < size -> size + e <= b_size b ->
  tiles s (l1 ++ carve b e size ++ l2) t.
Proof.
  intros (m & H1 & <- & Hb & H2)%tiles_app He Hs Hle. apply tiles_app. exists (b_start b).
  split; [done|]. unfold carve. zcase (e =? 0); zcase (size + e <? b_size b); simpl;
    split_and!; try lia;
    match goal with |- tiles ?x _ _ => by replace x with (b_start b + b_size b) by lia end.
Qed.

Lemma carve_coalesced b e size f l1 l2 :
  coalesced f (l1 ++ b :: l2) -> b_free b = true ->
  coalesced f (l1 ++ carve b e size ++ l2).
Proof.
  intros [H1 [Hb H2]]%coalesced_app Hf. apply coalesced_app. split; [done|].
  rewrite Hf in *. unfold carve.
  assert (Hn : coalesced false l2) by (destruct l2; simpl in *; naive_solver).
  destruct (e =? 0), (size + e <? b_size b); simpl; split_and!; auto; done.
Qed.

Lemma split_chunk_ok F pagesize a l1 f b l2 size flags :
  rep a (l1 ++ (f, mkBlock (b_start b) size false) :: l2) ->
  page_size_ok pagesize -> 0 <= b_start b -> b_start b + b_size b < 268435456 -> 0 < size ->
  let e := extra_for pagesize flags (b_start b) in
  size + e <= b_size b ->
  wpg F (split_chunk pagesize f (b_size b) size flags) a (fun _ a' => exists l1' l2',
    rep a' (l1' ++ (f, mkBlock (b_start b + e) size false) :: l2') /\
    mHeapSize a' = mHeapSize a /\
    blocks (l1' ++ (f, mkBlock (b_start b + e) size false) :: l2') =
      blocks l1 ++ carve b e size ++ blocks l2).
Proof.
  intros R Hp Hs Hb Hsize e Hle. unfold split_chunk.
  destruct (extra_for_ok pagesize flags (b_start b) Hp) as [He _]. fold e in He.
  apply wpg_bind. eapply wpg_deref; [apply (node_lookup _ _ _ _ _ (r_lists _ _ R))|].
  cbn [c_start node_of b_start]. fold e. apply wpg_bind.
  apply (wpg_mono _ _ _ (fun _ a' => exists l1',
    rep a' (l1' ++ (f, mkBlock (b_start b + e) size false) :: l2) /\
    mHeapSize a' = mHeapSize a /\
    blocks l1' = blocks l1 ++ if e =? 0 then [] else [mkBlock (b_start b) e true])).
  { zcase (e =? 0).
    - wp_steps. exists l1. replace (b_start b + e) with (b_start b) by lia.
      by rewrite app_nil_r.
    - apply wpg_bind. wp_use new_chunk_ok; [exact R|]. intros j a1 [P1 Hh1].
      apply wpg_bind. wp_use (assign_pending _ _ _ _ _ _ _ _ _
        (fun b => mkBlock (u64 (b_start b + e)) (b_size b) (b_free b)) P1); [done|].
      intros _ a2 [P2 Hh2]. wp_use (insertBefore_rep _ _ _ _ _ _ _ _ P2).
      intros _ a3 [R3 Hh3]. exists (l1 ++ [(j, mkBlock (b_start b) e true)]).
      rewrite <- app_assoc, fmap_app. split_and!; [|congruence|done].
      cbn [b_start b_size b_free] in R3. rewrite u28_small, u64_small in R3 by lia. exact R3. }
  intros _ a1 (l1' & R1 & Hh1 & El1).
  rewrite s64_small by (unfold is_s64; lia).
  zcase (0 <? b_size b - (size + e)).
  - apply wpg_bind. eapply wpg_deref; [apply (node_lookup _ _ _ _ _ (r_lists _ _ R1))|].
    apply wpg_bind. wp_use new_chunk_ok; [exact R1|]. intros j a2 [P2 Hh2].
    wp_use (insertAfter_rep _ _ _ _ _ _ _ _ P2). intros _ a3 [R3 Hh3].
    eexists l1', _. split_and!; [exact R3|congruence|].
    rewrite !fmap_app, !fmap_cons, El1. unfold carve. cbn [node_of c_start c_size b_start b_size snd].
    rewrite u28_small, u64_small by lia.
    replace (size + e <? b_size b) with true by (symmetry; apply Z.ltb_lt; lia).
    by rewrite <- !app_assoc.
  - wp_steps. exists l1', l2. split_and!; [exact R1|congruence|].
    rewrite !fmap_app, !fmap_cons, El1. unfold carve.
    replace (size + e <? b_size b) with false by (symmetry; apply Z.ltb_ge; lia).
    by rewrite <- !app_assoc.
Qed.

(** The units that a request of [size] bytes takes. *)
Definition units (size : Z) : Z := (size + 31) / 32.

Lemma best_fit_alloc_ok F pagesize a l size flags :
  inv a l -> page_size_ok pagesize -> 0 < size -> size + 31 < 18446744073709551616 ->
  wpg F (alloc pagesize size flags) a (fun r a' =>
    match best pagesize (units size) flags l None with
    | None => r = NO_MEMORY /\ a' = a
    | Some (i, b) =>
        let e := extra_for pagesize flags (b_start b) in
        r = (b_start b + e) * kMemoryAlign /\
        exists l1 l2 l', l = l1 ++ (i, b) :: l2 /\ inv a' l' /\
          mHeapSize a' = mHeapSize a /\
          blocks l' = blocks l1 ++ carve b e (units size) ++ blocks l2
    end).
Proof.
  intros [R T C S] Hp H0 Hov. unfold alloc. zdec (size =? 0). cbv iota.
  assert (u64 (size + kMemoryAlign - 1) / kMemoryAlign = units size) as ->.
  { unfold units, kMemoryAlign. rewrite u64_small by lia. by f_equal; lia. }
  assert (Hu : 0 < units size < 1152921504606846976).
  { unfold units. split; [apply Z.div_str_pos; lia|apply Z.div_lt_upper_bound; lia]. }
  apply wpg_bind, wpg_get. apply wpg_bind.
  assert (Hbl : forall x, x ∈ l -> 0 <= b_start (snd x) /\
     b_start (snd x) + b_size (snd x) < 268435456).
  { intros x Hx. apply list_elem_of_split in Hx as (l1 & l2 & ->).
    rewrite fmap_app, fmap_cons in T. apply tiles_mid in T. lia. }
  rewrite (l_first _ _ (r_lists _ _ R)). change (@None Z) with (fst <$> @None (Z * block)).
  eapply wpg_mono; [apply (best_fit_ok pagesize F a [] l)|].
  - exact R.
  - done.
  - intros x Hx. destruct (extra_for_ok pagesize flags (b_start (snd x)) Hp). lia.
  - rewrite (length_fuel _ _ R). lia.
  - cbv beta. intros r a1 [-> ->].
    pose proof (best_spec pagesize (units size) flags l None) as Hbest.
    destruct (best pagesize (units size) flags l None) as [[i b]|]; simpl; [|by wp_steps].
    destruct Hbest as (Hc & Hin & _); [by intros; apply extra_for_ok|done|].
    destruct Hin as [Hin|[=]]. pose proof (Hbl _ Hin) as Hb. simpl in Hb, Hc.
    apply andb_prop in Hc as [Hfree Hc]. zb. set (e := extra_for pagesize flags (b_start b)) in *.
    destruct (extra_for_ok pagesize flags (b_start b) Hp) as [He _]. fold e in He.
    apply list_elem_of_split in Hin as (l1 & l2 & ->).
    rewrite fmap_app, fmap_cons in T, C. simpl in T, C.
    apply wpg_bind. eapply wpg_deref; [apply (node_lookup _ _ _ _ _ (r_lists _ _ R))|].
    cbn [c_size node_of].
    apply wpg_bind. wp_use (assign_rep _ _ _ _ _ _ _
      (fun b => mkBlock (b_start b) (b_size b) false) R); [done|]. intros _ a1 [R1 Hh1].
    apply wpg_bind. wp_use (assign_rep _ _ _ _ _ _ _
      (fun b => mkBlock (b_start b) (u28 (units size)) (b_free b)) R1); [done|].
    intros _ a2 [R2 Hh2]. cbn [b_start b_size b_free] in R2. rewrite u28_small in R2 by lia.
    apply wpg_bind.
    apply (wpg_mono _ _ _ (fun _ a' => exists l1' l2',
      rep a' (l1' ++ (i, mkBlock (b_start b + e) (units size) false) :: l2') /\
      mHeapSize a' = mHeapSize a2 /\
      blocks (l1' ++ (i, mkBlock (b_start b + e) (units size) false) :: l2') =
        blocks l1 ++ carve b e (units size) ++ blocks l2)).
    { zcase (units size <? b_size b).
      - by apply split_chunk_ok; [|done|lia|lia|lia|].
      - wp_steps. exists l1, l2. assert (e = 0) as -> by lia. rewrite Z.add_0_r.
        split_and!; [done|done|]. rewrite fmap_app, fmap_cons. unfold carve. simpl.
        rewrite !Z.add_0_r. by zdec (units size <? b_size b). }
    intros _ a3 (l1' & l2' & R3 & Hh3 & E3).
    apply wpg_bind. eapply wpg_deref; [apply (node_lookup _ _ _ _ _ (r_lists _ _ R3))|].
    wp_steps. cbn [c_start node_of b_start]. unfold kMemoryAlign.
    rewrite s64_small by (unfold is_s64; lia).
    split; [done|]. exists l1, l2. eexists. split_and!; [done| |congruence|exact E3].
    split; [exact R3|..]; rewrite ?E3, ?Hh3, ?Hh2, ?Hh1; [| |done].
    + apply carve_tiles; auto; lia.
    + by apply carve_coalesced.
Qed.

(** * Deallocation *)

(** The free block [b] together with the block after it, if that is free. *)
Definition join_next (b : block) (l2 : list block) : list block :=
  match l2 with
  | c :: l2' => if b_free c then mkBlock (b_start b) (b_size b + b_size c) true :: l2' else b :: l2
  | [] => [b]
  end.

(** The list after freeing [b] between [l1] and [l2]. *)
Definition dealloc_blocks (l1 : list block) (b : block) (l2 : list block) : list block :=
  let b' := mkBlock (b_start b) (b_size b) true in
  match rev l1 with
  | p :: rl =>
      if b_free p
      then rev rl ++ join_next (mkBlock (b_start p) (b_size p + b_size b) true) l2
      else l1 ++ join_next b' l2
  | [] => join_next b' l2
  end.

(** [p->size += cur->size; mList.remove(cur); delete cur;] *)
Lemma absorb_ok {A} F a l1 p bp i b l2 sz (k : M Allocator A) Q :
  rep a (l1 ++ (p, bp) :: (i, b) :: l2) -> sz = b_size b ->
  0 <= b_size bp + b_size b < 268435456 ->
  (forall a', rep a' (l1 ++ (p, mkBlock (b_start bp) (b_size bp + b_size b) (b_free bp)) :: l2) ->
     mHeapSize a' = mHeapSize a -> wpg F k a' Q) ->
  wpg F (assign p (fun pc => set_c_size (c_size pc + sz) pc) ;;
         remove i ;; delete_chunk i ;; k) a Q.
Proof.
  intros R -> Hs HQ. apply wpg_bind.
  wp_use (assign_rep _ _ _ _ _ _ _
    (fun bp => mkBlock (b_start bp) (u28 (b_size bp + b_size b)) (b_free bp)) R); [done|].
  intros _ a1 [R1 H1]. rewrite u28_small in R1 by done.
  rewrite (cons_middle (p, _)), app_assoc in R1.
  eapply remove_delete_rep; [exact R1|]. intros a2 R2 H2.
  apply HQ; [by rewrite <- app_assoc in R2|congruence].
Qed.

Lemma merge_next_ok F a l1 p bp l2 fuel :
  rep a (l1 ++ (p, bp) :: l2) -> b_free bp = true -> coalesced false (blocks l2) ->
  (forall c l2', blocks l2 = c :: l2' -> 0 <= b_size bp + b_size c < 268435456) ->
  wpg F (match first_id l2 None with
         | None => ret p
         | Some m => let* nc := deref m in if c_free nc then merge (S fuel) m p else ret p
         end) a (fun r a' => r = p /\ mHeapSize a' = mHeapSize a /\
    exists bp' l2', rep a' (l1 ++ (p, bp') :: l2') /\ b_free bp' = true /\
      bp' :: blocks l2' = join_next bp (blocks l2)).
Proof.
  intros R Hf C Hs. destruct l2 as [|[m bm] l2]; simpl.
  { wp_steps. split_and!; [done|done|]. by exists bp, []. }
  assert (R' : rep a ((l1 ++ [(p, bp)]) ++ (m, bm) :: l2)) by by rewrite <- app_assoc.
  pose proof (node_lookup _ _ _ _ _ (r_lists _ _ R')) as Hm.
  rewrite last_id_app in Hm. simpl in Hm.
  apply wpg_bind. eapply wpg_deref; [exact Hm|]. cbn [c_free node_of].
  destruct (b_free bm) eqn:Efree.
  2:{ wp_steps. split_and!; [done|done|]. exists bp, ((m, bm) :: l2). by rewrite fmap_cons. }
  cbn [merge]. apply wpg_bind. eapply wpg_deref; [exact Hm|].
  cbn [c_prev c_next c_size node_of]. apply wpg_bind, wpg_bind.
  eapply wpg_deref; [apply (node_lookup _ _ _ _ _ (r_lists _ _ R))|].
  cbn [c_free node_of]. rewrite Hf. cbn [orb].
  eapply absorb_ok; [exact R|done|by eapply Hs|]. intros a1 R1 H1. wp_steps.
  rewrite Hf in R1. csimpl in C. destruct C as [_ C]. rewrite Efree in C.
  assert (G : p = p /\ mHeapSize a1 = mHeapSize a /\ exists bp' l2',
    rep a1 (l1 ++ (p, bp') :: l2') /\ b_free bp' = true /\
    bp' :: blocks l2' = mkBlock (b_start bp) (b_size bp + b_size bm) true :: blocks l2).
  { split_and!; [done|done|]. eexists _, l2. split_and!; [exact R1|done..]. }
  destruct l2 as [|[n bn] l2]; simpl; [by wp_steps|].
  csimpl in C. destruct C as [C _].
  assert (R2 : rep a1 ((l1 ++ [(p, mkBlock (b_start bp) (b_size bp + b_size bm) true)]) ++ (n, bn) :: l2))
    by by rewrite <- app_assoc.
  apply wpg_bind. eapply wpg_deref; [apply (node_lookup _ _ _ _ _ (r_lists _ _ R2))|].
  cbn [c_free node_of]. rewrite C by done. by wp_steps.
Qed.

Lemma merge_ok F a l1 i b l2 fuel :
  rep a (l1 ++ (i, b) :: l2) -> b_free b = true -> tiles 0 (blocks (l1 ++ (i, b) :: l2)) (mHeapSize a / 32) ->
  mHeapSize a / 32 < 268435456 -> coalesced false (blocks l2) ->
  wpg F (merge (S (S fuel)) i i) a (fun r a' => mHeapSize a' = mHeapSize a /\ exists l' c,
    rep a' l' /\ chunks a' !! r = Some c /\ c_free c = true /\
    blocks l' = dealloc_blocks (blocks l1) b (blocks l2)).
Proof.
  intros R Hf T S C. cbn [merge].
  apply wpg_bind. eapply wpg_deref; [apply (node_lookup _ _ _ _ _ (r_lists _ _ R))|].
  cbn [c_prev c_next c_size node_of]. fold merge. apply wpg_bind.
  rewrite fmap_app, fmap_cons in T. simpl in T.
  pose proof (tiles_mid _ _ _ _ _ T) as (Hb0 & Hb1 & Hb2 & T1 & T2).
  assert (Hkeep : dealloc_blocks (blocks l1) b (blocks l2) = blocks l1 ++ join_next b (blocks l2) ->
    wpg F (match first_id l2 None with
           | None => ret i
           | Some m => let* nc := deref m in if c_free nc then merge (Datatypes.S fuel) m i else ret i
           end) a (fun r a' => mHeapSize a' = mHeapSize a /\ exists l' c,
      rep a' l' /\ chunks a' !! r = Some c /\ c_free c = true /\
      blocks l' = dealloc_blocks (blocks l1) b (blocks l2))).
  { intros ->. wp_use merge_next_ok; [exact R|done|done| |].
    - intros c l2' E. rewrite E in T2. destruct T2 as (? & ? & ?%tiles_le). lia.
    - intros r a' (-> & Hh & b' & l2' & R' & Hf' & E). split; [done|].
      eexists _, _. split_and!; [exact R'|apply (node_lookup _ _ _ _ _ (r_lists _ _ R'))|done|].
      by rewrite fmap_app, fmap_cons, <- E. }
  assert (Eb : mkBlock (b_start b) (b_size b) true = b) by (destruct b; simpl in *; by subst).
  destruct l1 as [|[p bp] l1 _] using rev_ind.
  { simpl. wp_steps. apply Hkeep. unfold dealloc_blocks. simpl. by rewrite Eb. }
  rewrite last_id_app. simpl. rewrite <- app_assoc in R. simpl in R.
  apply wpg_bind. eapply wpg_deref; [apply (node_lookup _ _ _ _ _ (r_lists _ _ R))|].
  cbn [c_free node_of]. zdec (b_size b =? 0). rewrite orb_false_r.
  destruct (b_free bp) eqn:Efp.
  2:{ wp_steps. apply Hkeep. unfold dealloc_blocks. rewrite fmap_app, rev_app_distr. simpl.
      by rewrite Efp, Eb. }
  rewrite fmap_app in T1. apply tiles_app in T1 as (m & ?%tiles_le & ? & ? & Hm). simpl in *.
  assert (b_size bp + b_size b < 268435456) by lia.
  eapply absorb_ok; [exact R|done|lia|]. intros a1 R1 Hh1. wp_steps.
  wp_use merge_next_ok; [exact R1|done|done| |].
  - simpl. intros c l2' E. rewrite E in T2. destruct T2 as (? & ? & ?%tiles_le). lia.
  - intros r a' (-> & Hh & b' & l2' & R' & Hf' & E). split; [congruence|].
    eexists _, _. split_and!; [exact R'|apply (node_lookup _ _ _ _ _ (r_lists _ _ R'))|done|].
    rewrite !fmap_app, fmap_cons. unfold dealloc_blocks. rewrite rev_app_distr. simpl.
    rewrite Efp, rev_involutive in *. by rewrite <- E.
Qed.

Lemma join_next_tiles s b l2 e :
  b_start b = s -> 0 < b_size b -> tiles (s + b_size b) l2 e -> tiles s (join_next b l2) e.
Proof.
  intros Hs Hb T. destruct l2 as [|c l2]; simpl in *; [auto|].
  destruct T as (Hc & Hc' & T). destruct (b_free c); simpl; [|auto].
  split_and!; [done|lia|]. by rewrite Z.add_assoc.
Qed.

Lemma dealloc_blocks_tiles s l1 b l2 e :
  tiles s (l1 ++ b :: l2) e -> tiles s (dealloc_blocks l1 b l2) e.
Proof.
  intros T. pose proof (tiles_mid _ _ _ _ _ T) as (_ & Hb & _ & T1 & T2).
  assert (Hkeep : tiles s (l1 ++ join_next (mkBlock (b_start b) (b_size b) true) l2) e).
  { apply tiles_app. exists (b_start b). split; [done|]. by apply join_next_tiles. }
  unfold dealloc_blocks. destruct l1 as [|p l1 _] using rev_ind; [done|].
  rewrite rev_app_distr. simpl. destruct (b_free p); [|done]. rewrite rev_involutive.
  apply tiles_app in T1 as (m & T1 & Hp & ? & Hm). simpl in Hm.
  apply tiles_app. exists m. split; [done|]. apply join_next_tiles; simpl; [done|lia|].
  by replace (m + (b_size p + b_size b)) with (b_start b + b_size b) by lia.
Qed.

Lemma join_next_coalesced f b l2 :
  (f = true -> False) -> b_free b = true -> coalesced false l2 -> coalesced f (join_next b l2).
Proof.
  intros Hf Hb C. destruct l2 as [|c l2]; simpl; [by split|].
  destruct C as [_ C]. destruct (b_free c) eqn:Ec; simpl; (split; [done|]).
  - done.
  - by rewrite Ec.
Qed.

Lemma coalesced_weaken f l : coalesced f l -> coalesced false l.
Proof. destruct l; simpl; naive_solver. Qed.

Lemma dealloc_blocks_coalesced l1 b l2 :
  coalesced false (l1 ++ b :: l2) -> coalesced false (dealloc_blocks l1 b l2).
Proof.
  intros [C1 [Cb C2%coalesced_weaken]]%coalesced_app.
  unfold dealloc_blocks. destruct l1 as [|p l1 _] using rev_ind; simpl.
  { by apply join_next_coalesced. }
  rewrite rev_app_distr. simpl. rewrite rev_involutive.
  pose proof C1 as [C1' [Hp _]]%coalesced_app.
  destruct (b_free p) eqn:Ep; apply coalesced_app; (split; [done|]); apply join_next_coalesced; auto.
  - intros H. specialize (Hp H). congruence.
  - rewrite last_free_snoc. congruence.
Qed.

(** Freeing a free block changes nothing. *)
Lemma dealloc_blocks_free l1 b l2 :
  coalesced false (l1 ++ b :: l2) -> b_free b = true ->
  dealloc_blocks l1 b l2 = l1 ++ b :: l2.
Proof.
  intros [C1 [Cb C2]]%coalesced_app Hf.
  assert (Eb : mkBlock (b_start b) (b_size b) true = b) by (destruct b; simpl in *; by subst).
  assert (Hj : join_next b l2 = b :: l2).
  { destruct l2 as [|c l2]; simpl; [done|]. destruct C2 as [C2 _]. by rewrite C2. }
  unfold dealloc_blocks. rewrite Eb, Hj. destruct l1 as [|p l1 _] using rev_ind; [done|].
  rewrite rev_app_distr. simpl. rewrite last_free_snoc in Cb.
  destruct (b_free p); [|done]. rewrite Cb in Hf; done.
Qed.

(** Freeing what [carve] took gives the block back. *)
Lemma dealloc_carve l1 b e size l2 :
  coalesced false (l1 ++ b :: l2) -> b_free b = true -> 0 <= e -> size + e <= b_size b ->
  exists k1 k2, l1 ++ carve b e size ++ l2 = k1 ++ mkBlock (b_start b + e) size false :: k2 /\
    dealloc_blocks k1 (mkBlock (b_start b + e) size false) k2 = l1 ++ b :: l2.
Proof.
  intros [C1 [Cb C2]]%coalesced_app Hf He Hs. rewrite Hf in C2.
  assert (Hl2 : forall st sz, join_next (mkBlock st sz true) l2 = mkBlock st sz true :: l2).
  { intros. destruct l2 as [|c l2]; simpl; [done|]. destruct C2 as [C2 _]. by rewrite C2. }
  assert (Hend : forall st sz, st = b_start b -> sz = size + e ->
    join_next (mkBlock st sz true)
      ((if size + e <? b_size b
        then [mkBlock (b_start b + e + size) (b_size b - (size + e)) true] else []) ++ l2) = b :: l2).
  { intros st sz -> ->. zcase (size + e <? b_size b); simpl.
    - f_equal. destruct b; simpl in *; f_equal; [lia|done].
    - rewrite Hl2. f_equal. destruct b; simpl in *; f_equal; [lia|done]. }
  unfold carve. exists (l1 ++ if e =? 0 then [] else [mkBlock (b_start b) e true]).
  eexists. split; [by rewrite <- !app_assoc|]. unfold dealloc_blocks.
  rewrite rev_app_distr. zcase (e =? 0); simpl.
  - destruct l1 as [|p l1 _] using rev_ind; simpl; [by rewrite Hend by lia|].
    rewrite rev_app_distr. simpl. rewrite last_free_snoc in Cb.
    destruct (b_free p); [rewrite Cb in Hf; done|]. rewrite app_nil_r, Hend by lia. done.
  - rewrite rev_involutive, Hend by lia. done.
Qed.

Lemma tiles_unique s l1 b l2 l1' b' l2' e :
  tiles s (l1 ++ b :: l2) e -> l1 ++ b :: l2 = l1' ++ b' :: l2' -> b_start b = b_start b' ->
  l1 = l1' /\ b = b' /\ l2 = l2'.
Proof.
  revert s l1'. induction l1 as [|c l1 IH]; intros s [|c' l1'] T E Hs; simpl in *.
  - by injection E as -> ->.
  - injection E as -> ->. destruct T as (? & ? & T).
    apply tiles_mid in T. lia.
  - injection E as -> <-. destruct T as (? & ? & T). apply tiles_mid in T. lia.
  - injection E as -> E. destruct T as (? & ? & T).
    by destruct (IH _ _ T E Hs) as (-> & -> & ->).
Qed.

Lemma find_start_ok F a l1 l2 start fuel :
  rep a (l1 ++ l2) -> (length l2 <= fuel)%nat ->
  wpg F (find_start fuel start (first_id l2 None)) a (fun r a' => a' = a /\
    match r with
    | None => Forall (fun b => b_start b <> start) (blocks l2)
    | Some i => exists k1 b k2, l2 = k1 ++ (i, b) :: k2 /\ b_start b = start
    end).
Proof.
  revert l1 fuel. induction l2 as [|[i b] l2 IH]; intros l1 fuel R Hf.
  { destruct fuel; simpl; wp_steps; (split; [done|]); constructor. }
  destruct fuel as [|fuel]; simpl in *; [lia|].
  apply wpg_bind. eapply wpg_deref; [apply (node_lookup _ _ _ _ _ (r_lists _ _ R))|].
  cbn [c_start c_next node_of]. zcase (b_start b =? start).
  - wp_steps. split; [done|]. by exists [], b, l2.
  - wp_use (IH (l1 ++ [(i, b)]) fuel); [by rewrite <- app_assoc|lia|].
    intros [j|] a' [-> H].
    + destruct H as (k1 & c & k2 & -> & Hc). split; [done|]. by exists ((i, b) :: k1), c, k2.
    + split; [done|]. by constructor.
Qed.

Lemma dealloc_ok a l log_fatal offset :
  inv a l ->
  wpg (log_fatal = true /\
       exists b, b ∈ blocks l /\ b_start b = offset / kMemoryAlign /\ b_free b = true)
    (dealloc log_fatal offset) a (fun r a' =>
    (r = None /\ a' = a /\ Forall (fun b => b_start b <> offset / kMemoryAlign) (blocks l)) \/
    (is_Some r /\ mHeapSize a' = mHeapSize a /\ exists l1 b l2 l',
       blocks l = l1 ++ b :: l2 /\ b_start b = offset / kMemoryAlign /\
       inv a' l' /\ blocks l' = dealloc_blocks l1 b l2)).
Proof.
  intros [R T C S]. unfold dealloc. apply wpg_bind, wpg_get. apply wpg_bind.
  rewrite (l_first _ _ (r_lists _ _ R)).
  wp_use (find_start_ok _ a [] l); [exact R|rewrite (length_fuel _ _ R); lia|].
  intros [i|] a' [-> H]; [|wp_steps; by left].
  destruct H as (k1 & b & k2 & -> & Hs).
  apply wpg_bind. eapply wpg_deref; [apply (node_lookup _ _ _ _ _ (r_lists _ _ R))|].
  cbn [c_free node_of]. apply wpg_bind.
  destruct (log_fatal && b_free b) eqn:El; cbn [fatal_if].
  { apply andb_prop in El as [El Ef]. split; [done|]. exists b.
    rewrite fmap_app, fmap_cons. split; [set_solver|done]. }
  wp_steps.
  wp_use (assign_rep _ _ _ _ _ _ _ (fun b => mkBlock (b_start b) (b_size b) true) R); [done|].
  intros _ a1 [R1 Hh1]. rewrite (length_fuel _ _ R). apply wpg_bind.
  rewrite length_app, Nat.add_comm. simpl length. simpl Nat.add.
  rewrite fmap_app, fmap_cons in T, C. simpl in T, C.
  wp_use merge_ok; [exact R1|done| |by rewrite Hh1| |].
  - rewrite Hh1, fmap_app, fmap_cons. apply tiles_app in T as (m & T1 & T2). apply tiles_app.
    by exists m.
  - apply coalesced_app in C as [_ [_ C]]. by eapply coalesced_weaken.
  - intros r a2 (Hh2 & l' & c & R2 & Hc & Hf & E). apply wpg_bind.
    eapply wpg_deref; [exact Hc|]. rewrite Hf, andb_false_r. wp_steps. right.
    split; [done|]. split; [congruence|]. exists (blocks k1), b, (blocks k2), l'.
    assert (E' : blocks l' = dealloc_blocks (blocks k1) b (blocks k2)) by done.
    split_and!; [by rewrite fmap_app, fmap_cons|done| |done].
    split; [done|..]; rewrite ?E', ?Hh2, ?Hh1; [| |done].
    + by apply dealloc_blocks_tiles.
    + by apply dealloc_blocks_coalesced.
Qed.

(** * Pages *)

Lemma page_down_eq pagesize x :
  page_size_ok pagesize -> 0 <= x < 18446744073709551616 ->
  page_down pagesize x = pagesize * (x / pagesize).
Proof.
  intros (k & Hk & ->) Hx. unfold page_down, u64.
  assert (Hp : 0 < 2 ^ k <= 2 ^ 30) by (split; [apply Z.pow_pos_nonneg|apply Z.pow_le_mono_r]; lia).
  change (2 ^ 30) with 1073741824 in Hp.
  replace (- 2 ^ k mod 18446744073709551616) with (Z.ldiff (Z.ones 64) (Z.ones k)).
  2:{ rewrite <- Z.sub_nocarry_ldiff.
      - rewrite (Z.ones_equiv k). change (Z.ones 64) with 18446744073709551615.
        rewrite <- (Z.mod_add _ 1), Z.mod_small; lia.
      - apply Z.ldiff_ones_r_low; [rewrite Z.ones_equiv; lia|].
        apply Z.log2_lt_pow2; rewrite ?Z.ones_equiv; try lia.
        assert (1 < 2 ^ k) by (apply Z.pow_gt_1; lia). lia. }
  transitivity (Z.ldiff x (Z.ones k)).
  - rewrite <- (Z.mod_small x (2 ^ 64)) at 2 by (change (2 ^ 64) with 18446744073709551616; lia).
    rewrite <- Z.land_ones by lia. apply Z.bits_inj'. intros n Hn.
    rewrite !Z.land_spec, !Z.ldiff_spec, Z.land_spec. by rewrite andb_assoc.
  - rewrite Z.ldiff_ones_r, Z.shiftl_mul_pow2, Z.shiftr_div_pow2 by lia. lia.
Qed.

Lemma page_up_eq pagesize x :
  page_size_ok pagesize -> 0 <= x -> x + pagesize <= 18446744073709551616 ->
  page_up pagesize x = pagesize * ((x + pagesize - 1) / pagesize).
Proof.
  intros Hp Hx Hs. unfold page_up.
  assert (0 < pagesize). { destruct Hp as (k & ? & ->). apply Z.pow_pos_nonneg; lia. }
  rewrite u64_small by lia. apply page_down_eq; [done|lia].
Qed.

Definition empty_allocator : Allocator := mkAllocator None None 0 ∅ 0.

Lemma constructor_ok F pagesize size :
  page_size_ok pagesize -> 0 < size -> page_up pagesize size / kMemoryAlign < 268435456 ->
  size + pagesize <= 18446744073709551616 ->
  wpg F (SimpleBestFitAllocator pagesize size) empty_allocator (fun _ a =>
    mHeapSize a = page_up pagesize size /\ exists i,
    inv a [(i, mkBlock 0 (page_up pagesize size / kMemoryAlign) true)]).
Proof.
  intros Hp H0 Hs Hov. rewrite (page_up_eq pagesize size Hp) in * by lia.
  set (h := pagesize * _) in *.
  assert (0 < h / kMemoryAlign).
  { destruct Hp as (k & Hk & Ek). apply Z.div_str_pos. unfold kMemoryAlign. split; [lia|].
    assert (2 ^ 5 <= pagesize) by (subst pagesize; apply Z.pow_le_mono_r; lia).
    assert (1 <= (size + pagesize - 1) / pagesize) by (apply Z.div_le_lower_bound; lia).
    unfold h. nia. }
  unfold SimpleBestFitAllocator. rewrite page_up_eq by (done || lia). fold h.
  apply wpg_bind, wpg_modify. apply wpg_bind, wpg_gets. simpl mHeapSize.
  apply wpg_bind. wp_use (new_chunk_ok _ _ []).
  { split; simpl; [|done|constructor]. split; [constructor|done..]. }
  intros j a [P Hh]. pose proof P as [L Hj Hdom Hfr Hn].
  destruct (chunks a !! j) as [cj|] eqn:Ej; [|done]. apply (inj Some) in Hj as Ecj.
  wp_use insertHead_ok; [exact L|exact Ej|done|]. intros _ a' [L' S].
  assert (Hh' : mHeapSize a' = h) by (destruct S as (_ & _ & ->); exact Hh).
  split; [done|]. exists j. rewrite Ecj, u28_small in L' by lia.
  split; rewrite ?Hh'; [|simpl; split_and!; (done || lia)|done|done].
  eapply pending_rep; [exact P|exact L'|exact S|]. intros i. simpl. set_solver.
Qed.

(** * The reachable states *)

(** What a process can do with a dealer's allocator: allocate any size that
    does not overflow, and free any offset (also one it does not own). *)
Inductive reachable (pagesize : Z) (log_fatal : bool) (size : Z) : Allocator -> Prop :=
| reach_new a : SimpleBestFitAllocator pagesize size empty_allocator = Ret tt a ->
    reachable pagesize log_fatal size a
| reach_alloc a a' n flags r : reachable pagesize log_fatal size a ->
    0 <= n -> n + 31 < 18446744073709551616 ->
    allocate pagesize n flags a = Ret r a' -> reachable pagesize log_fatal size a'
| reach_dealloc a a' offset r : reachable pagesize log_fatal size a ->
    deallocate log_fatal offset a = Ret r a' -> reachable pagesize log_fatal size a'.

Lemma tiles_disjoint s l1 b l2 e c :
  tiles s (l1 ++ b :: l2) e -> c ∈ l1 ++ l2 ->
  b_start c + b_size c <= b_start b \/ b_start b + b_size b <= b_start c.
Proof.
  intros T [Hc|Hc]%elem_of_app; apply list_elem_of_split in Hc as (k1 & k2 & ->).
  - rewrite <- app_assoc in T. simpl in T.
    apply tiles_mid in T as (_ & _ & _ & _ & T). apply tiles_mid in T. lia.
  - apply tiles_mid in T as (_ & _ & _ & _ & T). apply tiles_mid in T. lia.
Qed.

Lemma allocate_steps pagesize a l n flags :
  inv a l -> page_size_ok pagesize -> 0 <= n -> n + 31 < 18446744073709551616 ->
  wp (allocate pagesize n flags) a (fun _ a' =>
    mHeapSize a' = mHeapSize a /\ exists l', inv a' l').
Proof.
  intros I Hp Hn Hov. unfold allocate. apply wpg_bind.
  destruct (Z.eq_dec n 0) as [->|]; [unfold alloc; rewrite Z.eqb_refl; wp_steps; eauto|].
  wp_use best_fit_alloc_ok; [exact I|exact Hp|lia|lia|]. intros r a' H. wp_steps.
  destruct (best _ _ _ _ _) as [[i b]|]; [|destruct H as [_ ->]; eauto].
  destruct H as (_ & l1 & l2 & l' & _ & I' & Hh & _). eauto.
Qed.

Lemma deallocate_steps a l log_fatal offset :
  inv a l ->
  wpg (log_fatal = true) (deallocate log_fatal offset) a (fun _ a' =>
    mHeapSize a' = mHeapSize a /\ exists l', inv a' l').
Proof.
  intros I. pose proof (dealloc_ok a l log_fatal offset I) as H.
  unfold deallocate, wpg, bind in *. destruct (dealloc log_fatal offset a) as [[r|] a'| |]; simpl.
  - destruct H as [[[=] _]|(_ & Hh & l1 & b & l2 & l' & _ & _ & I' & _)]; eauto.
  - destruct H as [(_ & -> & _)|[[? [=]] _]]; eauto.
  - by destruct H.
  - done.
Qed.

Lemma destroy_ok F a l fuel :
  rep a l -> (length l <= fuel)%nat ->
  wpg F (destroy fuel) a (fun _ a' => chunks a' = ∅).
Proof.
  revert a fuel. induction l as [|[i b] l IH]; intros a fuel R Hf.
  - pose proof R as [L Hdom _].
    destruct fuel; simpl; apply wpg_bind, wpg_gets; rewrite (l_first _ _ L); wp_steps;
      by apply dom_empty_inv_L.
  - destruct fuel as [|fuel]; simpl in *; [lia|]. apply wpg_bind, wpg_gets.
    rewrite (l_first _ _ (r_lists _ _ R)). simpl. apply wpg_bind.
    apply (wpg_bind_inv F (remove i) (fun removed => delete_chunk removed ;; destroy fuel)).
    pose proof (remove_delete_rep F a [] i b l (destroy fuel) (fun _ a' => chunks a' = ∅) R) as H.
    pose proof (remove_ok F a [] i b l (r_lists _ _ R)) as Hr.
    unfold wpg, bind in *. destruct (remove i a) as [r a1| |]; [|done..].
    destruct Hr as (-> & _). apply H. intros a' R' _. apply IH; [done|lia].
Qed.


(** A dealer of two pages that has handed out 100 bytes. *)
Definition two_pages : outcome Allocator Z :=
  (SimpleBestFitAllocator 4096 8192 ;; allocate 4096 100 0) empty_allocator.

Lemma page_4096 : page_size_ok 4096.
Proof. by exists 12. Qed.


Lemma units_bounds size : 0 < size -> 0 < units size /\ size <= units size * 32 < size + 32.
Proof.
  intros. unfold units.
  pose proof (Z.div_mod (size + 31) 32 ltac:(lia)).
  pose proof (Z.mod_pos_bound (size + 31) 32 ltac:(lia)). lia.
Qed.

Lemma elem_carve b e size : mkBlock (b_start b + e) size false ∈ carve b e size.
Proof. unfold carve. apply elem_of_app. right. by left. Qed.

(** The offset of an allocation from [b], and the request, lie in the heap. *)
Lemma carve_offset b e size s l1 l2 t :
  tiles s (l1 ++ b :: l2) t -> 0 <= s -> 0 <= e -> 0 < size -> size + e <= b_size b ->
  0 <= b_start b + e /\ (b_start b + e) + size <= t.
Proof. intros T. apply tiles_mid in T. lia. Qed.

(** [allocate] is best fit.  It returns [NO_MEMORY] (as a [size_t]) and
    changes nothing exactly when no free block can hold the request with its
    alignment.  Otherwise the request comes out of a smallest free block that
    can hold it: the offset is a multiple of 32, and of the page size when
    [PAGE_ALIGNED] is asked, the range lies inside the heap and is disjoint from
    every block allocated before, all of which are still there. *)
Theorem allocate_best_fit (pagesize : Z) (a : Allocator) (l : list (Z * block)) (size flags : Z) :
  inv a l -> page_size_ok pagesize -> 0 < size -> size + 31 < 18446744073709551616 ->
  wp (allocate pagesize size flags) a (fun r a' =>
    (r = u64 NO_MEMORY /\ a' = a /\
     Forall (fun b => can_hold pagesize (units size) flags b = false) (blocks l)) \/
    (exists b l', b ∈ blocks l /\ can_hold pagesize (units size) flags b = true /\
       (forall c, c ∈ blocks l -> can_hold pagesize (units size) flags c = true ->
          b_size b <= b_size c) /\
       inv a' l' /\ (kMemoryAlign | r) /\
       (Z.land flags PAGE_ALIGNED <> 0 -> (pagesize | r)) /\ 0 <= r /\ r + size <= mHeapSize a /\
       mkBlock (r / kMemoryAlign) (units size) false ∈ blocks l' /\
       (forall c, c ∈ blocks l -> b_free c = false -> c ∈ blocks l' /\
          (r + size <= b_start c * kMemoryAlign \/ (b_start c + b_size c) * kMemoryAlign <= r)))).
Proof.
  intros I Hp H0 Hov. pose proof I as [R T C S]. unfold allocate. apply wpg_bind.
  wp_use best_fit_alloc_ok; [exact I|exact Hp|done|done|]. intros r a' H. wp_steps.
  pose proof (best_spec pagesize (units size) flags l None
    ltac:(intros c; by apply extra_for_ok) ltac:(done)) as Hbest.
  destruct (best pagesize (units size) flags l None) as [[i b]|].
  2:{ destruct H as [-> ->]. left. split_and!; [done..|]. apply Forall_forall.
      intros c (x & -> & Hx)%list_elem_of_fmap. by apply Hbest. }
  destruct H as (-> & l1 & l2 & l' & -> & I' & Hh & E), Hbest as (Hc & _ & Hmin).
  set (e := extra_for pagesize flags (b_start b)) in *. simpl in Hc.
  destruct (extra_for_ok pagesize flags (b_start b) Hp) as (He & _ & Hal). fold e in He, Hal.
  pose proof Hc as Hcc. apply andb_prop in Hcc as [Hfree Hfit]. zb. fold e in Hfit.
  pose proof (units_bounds size H0) as [Hu0 Hu].
  rewrite fmap_app, fmap_cons in T |- *. simpl in T |- *.
  destruct (carve_offset b e (units size) 0 _ _ _ T) as [Ho1 Ho2]; [lia..|].
  pose proof (Z.mul_div_le (mHeapSize a) kMemoryAlign eq_refl) as Hheap.
  unfold kMemoryAlign in *. rewrite u64_small by lia. right. exists b, l'.
  split_and!; [set_solver|done| |done|by exists (b_start b + e)| |lia|lia| |].
  - intros c Hin Hcc. assert (c ∈ blocks (l1 ++ (i, b) :: l2)) as (x & -> & Hx)%list_elem_of_fmap
      by by rewrite fmap_app, fmap_cons. apply Hmin; auto.
  - intros Hfl. destruct Hp as (k & Hk & ->). destruct (Hal Hfl) as [q Hq]. exists q.
    rewrite Hq. replace (2 ^ k) with (2 ^ (k - 5) * 2 ^ 5)
      by (rewrite <- Z.pow_add_r by lia; by replace (k - 5 + 5) with k by lia).
    change (2 ^ 5) with 32. rewrite Z.div_mul by done. lia.
  - rewrite Z.div_mul, E by done. rewrite !elem_of_app. right. left. apply elem_carve.
  - intros c Hin Hcf. assert (Hin' : c ∈ blocks l1 ++ blocks l2).
    { apply elem_of_app in Hin as [?|[->|?]%elem_of_cons]; apply elem_of_app; [by left|congruence|by right]. }
    split; [rewrite E; set_solver|].
    destruct (tiles_disjoint _ _ _ _ _ _ T Hin'); lia.
Qed.

(** A fresh dealer of two pages. *)
Lemma two_pages_fresh :
  exists a l, inv a l /\ mHeapSize a = 8192 /\
    SimpleBestFitAllocator 4096 8192 empty_allocator = Ret tt a /\
    blocks l = [mkBlock 0 256 true].
Proof.
  destruct (SimpleBestFitAllocator 4096 8192 empty_allocator) as [[] a| |] eqn:E;
    [|by vm_compute in E..].
  pose proof (constructor_ok False 4096 8192 page_4096 eq_refl eq_refl ltac:(lia)) as H.
  unfold wpg in H. rewrite E in H. destruct H as [Hh [i I]]. exists a. eexists. eauto.
Qed.

Lemma allocate_best_fit_witness :
  exists a l, inv a l /\ wp (allocate 4096 5000 1) a (fun r a' =>
    r = u64 NO_MEMORY \/ ((4096 | r) /\ r + 5000 <= 8192)).
Proof.
  destruct two_pages_fresh as (a & l & I & Hh & _). exists a, l. split; [done|].
  wp_use (allocate_best_fit 4096 a l 5000 1 I page_4096); [lia|lia|].
  rewrite Hh. intros r a' [[-> _]|(b & l' & _ & _ & _ & _ & _ & Hp & _ & Hr & _)]; [by left|].
  right. split; [by apply Hp|done].
Defined.

Lemma deallocate_at a l log_fatal offset k1 b k2 :
  inv a l -> blocks l = k1 ++ b :: k2 -> b_start b = offset / kMemoryAlign -> b_free b = false ->
  wp (deallocate log_fatal offset) a (fun st a' => st = NO_ERROR /\
    exists l', inv a' l' /\ blocks l' = dealloc_blocks k1 b k2).
Proof.
  intros I El Hs Hf. pose proof (dealloc_ok a l log_fatal offset I) as D.
  pose proof (i_tiles _ _ I) as T. rewrite El in *.
  unfold deallocate, wpg, bind in *. destruct (dealloc log_fatal offset a) as [[r|] a'| |]; simpl.
  - destruct D as [[[=] _]|(_ & _ & l1 & b' & l2 & l' & E & Hs' & I' & E')].
    destruct (tiles_unique _ _ _ _ _ _ _ _ T E) as (-> & -> & ->); [congruence|eauto].
  - destruct D as [(_ & _ & D)|[[? [=]] _]].
    apply Forall_app in D as [_ [D _]%Forall_cons]. done.
  - destruct D as (_ & c & Hc & Hs' & Hf'). apply list_elem_of_split in Hc as (l1 & l2 & E).
    destruct (tiles_unique _ _ _ _ _ _ _ _ T E) as (-> & -> & ->); congruence.
  - done.
Qed.

Lemma deallocate_none a l log_fatal offset :
  inv a l -> mHeapSize a / kMemoryAlign <= offset / kMemoryAlign ->
  wp (deallocate log_fatal offset) a (fun st a' => st = NAME_NOT_FOUND /\ a' = a).
Proof.
  intros I Ho. pose proof (dealloc_ok a l log_fatal offset I) as D.
  assert (Hn : forall c, c ∈ blocks l -> b_start c <> offset / kMemoryAlign).
  { intros c (l1 & l2 & E)%list_elem_of_split. pose proof (i_tiles _ _ I) as T.
    rewrite E in T. apply tiles_mid in T. lia. }
  unfold deallocate, wpg, bind in *. destruct (dealloc log_fatal offset a) as [[r|] a'| |]; simpl.
  - destruct D as [[[=] _]|(_ & _ & l1 & b' & l2 & l' & E & Hs' & _)].
    exfalso. apply (Hn b'); [rewrite E; set_solver|done].
  - by destruct D as [(_ & -> & _)|[[? [=]] _]].
  - destruct D as (_ & c & Hc & Hs' & _). by apply (Hn c).
  - done.
Qed.

(** freeing undoes allocating.  An allocation followed by the free of its
    offset brings back exactly the block list of before, whatever was split
    off; [deallocate] succeeds exactly when the allocation did. *)
Theorem allocate_deallocate (pagesize : Z) (log_fatal : bool) (a : Allocator)
    (l : list (Z * block)) (size flags : Z) :
  inv a l -> page_size_ok pagesize -> 0 < size -> size + 31 < 18446744073709551616 ->
  wp (let* r := allocate pagesize size flags in
      let* st := deallocate log_fatal r in ret (r, st)) a (fun '(r, st) a' =>
    (exists l', inv a' l' /\ blocks l' = blocks l) /\
    st = if r =? u64 NO_MEMORY then NAME_NOT_FOUND else NO_ERROR).
Proof.
  intros I Hp H0 Hov. pose proof I as [R T C S]. apply wpg_bind. unfold allocate. apply wpg_bind.
  wp_use best_fit_alloc_ok; [exact I|exact Hp|done|done|]. intros r a1 H. wp_steps.
  pose proof (best_spec pagesize (units size) flags l None
    ltac:(intros c; by apply extra_for_ok) ltac:(done)) as Hbest.
  destruct (best pagesize (units size) flags l None) as [[i b]|].
  - destruct H as (-> & l1 & l2 & l' & -> & I' & Hh & E), Hbest as (Hc & _ & _).
    set (e := extra_for pagesize flags (b_start b)) in *. simpl in Hc.
    destruct (extra_for_ok pagesize flags (b_start b) Hp) as (He & _). fold e in He.
    apply andb_prop in Hc as [Hfree Hfit]. zb. fold e in Hfit.
    pose proof (units_bounds size H0) as [Hu0 Hu].
    rewrite fmap_app, fmap_cons in T, C |- *. simpl in T, C |- *.
    destruct (carve_offset b e (units size) 0 _ _ _ T) as [Ho1 Ho2]; [lia..|].
    destruct (dealloc_carve _ _ e (units size) _ C Hfree) as (k1 & k2 & Ek & Ed); [lia..|].
    rewrite Ek in E. rewrite u64_small by (unfold kMemoryAlign; lia).
    wp_use deallocate_at; [exact I'|exact E|by rewrite Z.div_mul|done|].
    intros st a2 (-> & l2' & I2 & E2). wp_steps. split; [exists l2'; by rewrite E2, Ed|].
    change (u64 NO_MEMORY) with 18446744073709551604. unfold kMemoryAlign.
    by zdec ((b_start b + e) * 32 =? 18446744073709551604).
  - destruct H as [-> ->]. change (u64 NO_MEMORY) with 18446744073709551604.
    wp_use deallocate_none; [exact I|etransitivity; [apply Z.lt_le_incl; exact S|done]|].
    intros st a2 [-> ->]. wp_steps. split; [by exists l|done].
Qed.

Lemma allocate_deallocate_witness :
  exists a l, inv a l /\
    wp (let* r := allocate 4096 100 1 in let* st := deallocate true r in ret (r, st)) a
      (fun _ a' => exists l', inv a' l' /\ blocks l' = [mkBlock 0 256 true]).
Proof.
  destruct two_pages_fresh as (a & l & I & _ & _ & E). exists a, l. split; [done|].
  wp_use (allocate_deallocate 4096 true a l 100 1 I page_4096); [lia|lia|].
  intros [r st] a' [(l' & I' & E') _]. exists l'. by rewrite E', E.
Defined.

(** no fragmentation survives.  When every block has been freed, the heap is
    one block again, so that a request for the whole heap succeeds. *)
Theorem freed_heap_is_whole (pagesize : Z) (a : Allocator) (l : list (Z * block)) :
  inv a l -> page_size_ok pagesize -> (kMemoryAlign | mHeapSize a) -> 0 < mHeapSize a ->
  Forall (fun b => b_free b = true) (blocks l) ->
  blocks l = [mkBlock 0 (mHeapSize a / kMemoryAlign) true] /\
  wp (allocate pagesize (mHeapSize a) 0) a (fun r _ => r = 0).
Proof.
  intros I Hp [q Hq] H0 Hall. pose proof I as [R T C S]. unfold kMemoryAlign in *.
  rewrite Hq, Z.div_mul in * by done.
  assert (E : blocks l = [mkBlock 0 q true]).
  { destruct (blocks l) as [|b [|c k]]; simpl in *; [lia| |].
    - destruct T as (? & ? & ?), b as [st sz f]. apply Forall_cons in Hall as [? _]. simpl in *.
      by subst.
    - apply Forall_cons in Hall as [Hb [Hc _]%Forall_cons]. destruct C as (_ & C & _).
      rewrite C in Hc; done. }
  split; [done|]. unfold allocate. apply wpg_bind.
  wp_use best_fit_alloc_ok; [exact I|exact Hp|lia|lia|]. intros r a' H. wp_steps.
  assert (Hu : units (q * 32) = q).
  { unfold units. rewrite Z.add_comm, Z.div_add by done. by rewrite Z.div_small. }
  rewrite Hu in H. destruct l as [|[i b] [|? ?]]; [done| |done]. injection E as ->.
  simpl in H. unfold can_hold in H. simpl in H. rewrite Z.add_0_r, Z.leb_refl, Z.eqb_refl in H.
  destruct H as (-> & _). done.
Qed.

Lemma freed_heap_is_whole_witness :
  exists a l, inv a l /\ blocks l = [mkBlock 0 256 true] /\
    wp (allocate 4096 8192 0) a (fun r _ => r = 0).
Proof.
  destruct two_pages_fresh as (a & l & I & Hh & _ & E). exists a, l. split; [done|].
  destruct (freed_heap_is_whole 4096 a l I page_4096) as [E' H]; rewrite ?Hh; [by exists 256|lia| |].
  - rewrite E. by repeat constructor.
  - rewrite Hh in *. by split.
Defined.

(** the pages given back.  The page range that [~Allocation] hands to
    [madvise] is page aligned and lies inside the freed allocation: no page
    shared with a neighbour is dropped. *)
Theorem freed_pages_inside (pagesize offset size : Z) :
  page_size_ok pagesize -> 0 <= offset -> 0 < size ->
  offset + size + pagesize <= 18446744073709551616 ->
  let '(s, e) := freed_pages pagesize offset size in
  (pagesize | s) /\ (pagesize | e) /\ offset <= s /\ e <= offset + size /\
  (forall p, (pagesize | p) -> offset <= p -> p + pagesize <= offset + size -> s <= p /\ p + pagesize <= e).
Proof.
  intros Hp H0 Hs Hov. unfold freed_pages.
  assert (Hpos : 0 < pagesize). { destruct Hp as (k & ? & ->). apply Z.pow_pos_nonneg; lia. }
  rewrite (u64_small (offset + size)) by lia.
  rewrite (page_down_eq _ offset), (page_up_eq _ (offset + size)) by (done || lia).
  pose proof (Z.mul_div_le offset pagesize Hpos).
  pose proof (Z.mod_pos_bound (offset + size + pagesize - 1) pagesize Hpos).
  pose proof (Z.div_mod (offset + size + pagesize - 1) pagesize ltac:(lia)).
  assert (E1 : (if pagesize * (offset / pagesize) <? offset then offset
                else pagesize * (offset / pagesize)) = offset)
    by (zcase (pagesize * (offset / pagesize) <? offset); lia).
  rewrite E1.
  set (up := pagesize * ((offset + size + pagesize - 1) / pagesize)) in *.
  assert (E2 : (if offset + size <? up then offset + size else up) = offset + size)
    by (zcase (offset + size <? up); lia).
  rewrite E2, (page_up_eq _ offset), (page_down_eq _ (offset + size)) by (done || lia).
  pose proof (Z.mod_pos_bound (offset + pagesize - 1) pagesize Hpos).
  pose proof (Z.div_mod (offset + pagesize - 1) pagesize ltac:(lia)).
  pose proof (Z.mod_pos_bound (offset + size) pagesize Hpos).
  pose proof (Z.div_mod (offset + size) pagesize ltac:(lia)).
  split_and!; [apply Z.divide_factor_l..|lia|lia|]. intros p [q ->] Hlo Hhi.
  assert ((offset + pagesize - 1) / pagesize < q + 1) by (apply Z.div_lt_upper_bound; lia).
  assert (q + 1 <= (offset + size) / pagesize) by (apply Z.div_le_lower_bound; lia).
  split; nia.
Qed.

Lemma freed_pages_inside_witness :
  freed_pages 4096 100 9000 = (4096, 8192) /\ 100 <= 4096 /\ 8192 <= 9100.
Proof.
  pose proof (freed_pages_inside 4096 100 9000 page_4096) as H.
  destruct (freed_pages 4096 100 9000) as [s e] eqn:E. vm_compute in E. injection E as <- <-.
  destruct H as (_ & _ & H1 & H2 & _); [lia..|]. split_and!; [done|exact H1|exact H2].
Defined.

(** a size that wraps around.  [alloc] rounds the size up in [size_t]
    without a check: a request of [SIZE_MAX] bytes becomes one of zero units,
    and the dealer hands out an [Allocation] of [SIZE_MAX] bytes in a heap of
    one page, leaving an empty chunk in the list. *)
Theorem allocate_size_wraps :
  match (SimpleBestFitAllocator 4096 4096 ;;
         dealer_allocate 4096 18446744073709551615) empty_allocator with
  | Ret r a => r = Some (0, 18446744073709551615) /\ mHeapSize a = 4096 /\
      block_of <$> chunks a !! 0 = Some (mkBlock 0 0 false)
  | _ => False
  end.
Proof. by vm_compute. Qed.
