(* ===== verification/MemoryHeap.v ===== *)
(** Shared memory from another process: src/libs/binder/IMemory.cpp.

    A [BpMemoryHeap] is mapped when it is first used.  All proxies of one heap share
    one mapping: the [HeapCache] keeps, for a binder, the proxy that owns the mapping
    and a count of the others that use it.  Several threads may use a proxy at once;
    [assertMapped] is then a sequence of steps, one for each part under a lock, the
    transaction to the owner of the heap between them.

    A proxy is an address, a binder an identity.  A strong pointer to the proxy in
    the cache is held by the cache and by the threads in [assertMapped]; when
    neither holds it any more its destructor runs, in the step that dropped it.  The kernel's answers (the
    duplicate of a descriptor, the place of a mapping) come with the step; closing
    a descriptor or unmapping a region that is not there is undefined behaviour. *)

From stdpp Require Import gmap sets.
From S2P Require Import Prelude Errors.

(** * State *)

(** [mBase = None] is [MAP_FAILED]. *)
Record BpMemoryHeap := mkBpMemoryHeap {
  h_binder : Z;
  mHeapId : Z;
  mBase : option Z;
  mSize : Z;
  mFlags : Z;
  mOffset : Z;
  mRealHeap : bool;
}.
Definition new_heap (binder : Z) : BpMemoryHeap := mkBpMemoryHeap binder (-1) None 0 0 0 false.

Record heap_info_t := mkHeapInfo { info_heap : Z; info_count : Z }.

(** What the transaction [HEAP_ID] brings. *)
Record Answer := mkAnswer { an_err : status_t; an_size64 : Z; an_offset64 : Z; an_flags : Z }.

(** A thread in [assertMapped]: the proxy it asserts, the one from the cache. *)
Inductive Thread :=
| Found (client heap : Z)
| Answered (client heap : Z) (answer : Answer)
| Checked (client heap : Z).
Definition client_of (t : Thread) : Z := match t with Found a _ | Answered a _ _ | Checked a _ => a end.
Definition heap_of (t : Thread) : Z := match t with Found _ h | Answered _ h _ | Checked _ h => h end.

Record World := mkWorld {
  heaps : gmap Z BpMemoryHeap;
  mHeapCache : gmap Z heap_info_t;
  threads : gmap Z Thread;
  next_address : Z;
  open_fds : gset Z;
  mappings : gmap Z Z;
}.
Definition set_heaps x w := mkWorld x (mHeapCache w) (threads w) (next_address w) (open_fds w) (mappings w).
Definition set_cache x w := mkWorld (heaps w) x (threads w) (next_address w) (open_fds w) (mappings w).
Definition set_threads x w := mkWorld (heaps w) (mHeapCache w) x (next_address w) (open_fds w) (mappings w).
Definition set_next x w := mkWorld (heaps w) (mHeapCache w) (threads w) x (open_fds w) (mappings w).
Definition set_fds x w := mkWorld (heaps w) (mHeapCache w) (threads w) (next_address w) x (mappings w).
Definition set_mappings x w := mkWorld (heaps w) (mHeapCache w) (threads w) (next_address w) (open_fds w) x.

Definition start : World := mkWorld ∅ ∅ ∅ 0 ∅ ∅.

(** An access to a proxy that is gone is undefined behaviour. *)
Definition heap (a : Z) : M World BpMemoryHeap := let* m := gets heaps in require (m !! a).
Definition assign (a : Z) (f : BpMemoryHeap -> BpMemoryHeap) : M World unit :=
  let* b := heap a in modify (fun w => set_heaps (<[a := f b]> (heaps w)) w).

Definition set_mapped (fd : Z) (base : option Z) (size flags offset : Z) (b : BpMemoryHeap) : BpMemoryHeap :=
  mkBpMemoryHeap (h_binder b) fd base size flags offset (mRealHeap b).
Definition set_real (base : option Z) (b : BpMemoryHeap) : BpMemoryHeap :=
  mkBpMemoryHeap (h_binder b) (mHeapId b) base (mSize b) (mFlags b) (mOffset b) true.

(** * The kernel *)

Definition close (fd : Z) : M World unit :=
  let* fds := gets open_fds in
  if bool_decide (fd ∈ fds) then modify (set_fds (fds ∖ {[fd]})) else fault.
Definition munmap (base : option Z) : M World unit :=
  let* m := gets mappings in
  match base with
  | Some base => let* _ := require (m !! base) in modify (set_mappings (delete base m))
  | None => fault
  end.
(** A new descriptor or [-1]; a new mapping or [MAP_FAILED]. *)
Definition opened (fd : option Z) : M World Z :=
  match fd with
  | Some fd => modify (fun w => set_fds ({[fd]} ∪ open_fds w) w) ;; ret fd
  | None => ret (-1)
  end.
Definition mmap (base : option Z) (size : Z) : M World (option Z) :=
  match base with
  | Some base => modify (fun w => set_mappings (<[base := size]> (mappings w)) w) ;; ret (Some base)
  | None => ret None
  end.

(** * The cache *)

Definition make_heap (binder : Z) : M World Z :=
  let* a := gets next_address in
  modify (fun w => set_next (a + 1) (set_heaps (<[a := new_heap binder]> (heaps w)) w)) ;;
  ret a.

Definition find_heap (binder : Z) : M World Z :=
  let* cache := gets mHeapCache in
  match cache !! binder with
  | Some info =>
      modify (set_cache (<[binder := mkHeapInfo (info_heap info) (info_count info + 1)]> cache)) ;;
      ret (info_heap info)
  | None =>
      let* h := make_heap binder in
      modify (fun w => set_cache (<[binder := mkHeapInfo h 1]> (mHeapCache w)) w) ;;
      ret h
  end.

(** [Some h]: the cache's pointer to [h] is the caller's to release. *)
Definition take_heap (binder : Z) : M World (option Z) :=
  let* cache := gets mHeapCache in
  match cache !! binder with
  | Some info =>
      if info_count info - 1 =? 0 then
        modify (set_cache (delete binder cache)) ;; ret (Some (info_heap info))
      else
        modify (set_cache (<[binder := mkHeapInfo (info_heap info) (info_count info - 1)]> cache)) ;;
        ret None
  | None => ret None
  end.

(** Whether the cache or a thread still points at [h]. *)
Definition referenced (h : Z) (w : World) : bool :=
  bool_decide (map_Exists (fun _ info => info_heap info = h) (mHeapCache w)) ||
  bool_decide (map_Exists (fun _ t => heap_of t = h) (threads w)).

(** [~BpMemoryHeap], and [free_heap]: the destructor of a user releases the owner
    of the mapping, whose destructor releases nothing. *)
Fixpoint destroy (fuel : nat) (a : Z) : M World unit :=
  match fuel with
  | O => fault
  | S fuel =>
      let* b := heap a in
      modify (fun w => set_heaps (delete a (heaps w)) w) ;;
      if mHeapId b =? -1 then ret tt else
      close (mHeapId b) ;;
      if mRealHeap b then
        (if bool_decide (mBase b = None) then ret tt else munmap (mBase b))
      else
        let* rel := take_heap (h_binder b) in
        match rel with
        | Some h =>
            let* w := get in
            if referenced h w then ret tt else destroy fuel h
        | None => ret tt
        end
  end.

(** A strong pointer to [h] goes out of scope. *)
Definition drop (h : Z) : M World unit :=
  let* w := get in if referenced h w then ret tt else destroy 2 h.

Definition free_heap (binder : Z) : M World unit :=
  let* rel := take_heap binder in
  match rel with Some h => drop h | None => ret tt end.

Definition get_heap (binder : Z) : M World Z :=
  let* cache := gets mHeapCache in
  match cache !! binder with
  | Some info => ret (info_heap info)
  | None => make_heap binder
  end.

(** * [assertMapped], in steps *)

Definition put_thread (t : Z) (th : Thread) : M World unit :=
  modify (fun w => set_threads (<[t := th]> (threads w)) w).
Definition thread (t : Z) : M World Thread := let* m := gets threads in require (m !! t).

Definition assert_begin (t a : Z) : M World unit :=
  let* b := heap a in
  if negb (mHeapId b =? -1) then ret tt else
  let* h := find_heap (h_binder b) in
  put_thread t (Found a h).

(** [assertReallyMapped] up to the lock: the transaction, if there is need of it. *)
Definition assert_ask (t : Z) (answer : Answer) : M World unit :=
  let* th := thread t in
  let* b := heap (heap_of th) in
  if negb (mHeapId b =? -1) then put_thread t (Checked (client_of th) (heap_of th))
  else put_thread t (Answered (client_of th) (heap_of th) answer).

(** The sizes are compared with those of a [size_t] and an [off_t] of 64 bits. *)
Definition really_map (h : Z) (answer : Answer) (fd base : option Z) : M World unit :=
  if negb (an_err answer =? OK) || negb (u64 (an_size64 answer) =? an_size64 answer)
     || negb (s64 (an_offset64 answer) =? an_offset64 answer) then ret tt else
  let* b := heap h in
  if negb (mHeapId b =? -1) then ret tt else
  let* fd := opened fd in
  let* base := (if fd =? -1 then ret None else mmap base (an_size64 answer)) in
  assign h (set_real base) ;;
  match base with
  | None => if fd =? -1 then ret tt else close fd
  | Some _ => assign h (set_mapped fd base (an_size64 answer) (an_flags answer) (an_offset64 answer))
  end.

Definition assert_map (t : Z) (fd base : option Z) : M World unit :=
  let* th := thread t in
  match th with
  | Answered a h answer => really_map h answer fd base ;; put_thread t (Checked a h)
  | _ => fault
  end.

(** The rest: the fields are copied from the owner of the mapping. *)
Definition copy_heap (a h : Z) (fd : option Z) : M World unit :=
  let* real := heap h in
  let* b := heap a in
  match mBase real with
  | Some _ =>
      if negb (mHeapId b =? -1) then ret tt else
      let* fd := opened fd in
      assign a (set_mapped fd (mBase real) (mSize real) (mFlags b) (mOffset real))
  | None => free_heap (h_binder b)
  end.

Definition assert_end (t : Z) (fd : option Z) : M World unit :=
  let* th := thread t in
  match th with
  | Checked a h =>
      copy_heap a h fd ;;
      modify (fun w => set_threads (delete t (threads w)) w) ;;
      drop h
  | _ => fault
  end.

(** * The process *)

Inductive Event :=
| NewHeap (binder : Z)
| Begin (t a : Z)
| Ask (t : Z) (answer : Answer)
| Map (t : Z) (fd base : option Z)
| End (t : Z) (fd : option Z)
| Destroy (a : Z).

Definition run_event (e : Event) : M World unit :=
  match e with
  | NewHeap binder => make_heap binder ;; ret tt
  | Begin t a => assert_begin t a
  | Ask t answer => assert_ask t answer
  | Map t fd base => assert_map t fd base
  | End t fd => assert_end t fd
  | Destroy a => destroy 2 a
  end.

(** One thread by itself. *)
Definition assertMapped (t a : Z) (answer : Answer) (fd base fd' : option Z) : M World unit :=
  assert_begin t a ;;
  let* m := gets threads in
  match m !! t with
  | None => ret tt
  | Some _ =>
      assert_ask t answer ;;
      let* th := thread t in
      (match th with Answered _ _ _ => assert_map t fd base | _ => ret tt end) ;;
      assert_end t fd'
  end.

(** The getters, by one thread. *)
Section getters.
Variables (t a : Z) (answer : Answer) (fd base fd' : option Z).
Definition getHeapID : M World Z := assertMapped t a answer fd base fd' ;; let* b := heap a in ret (mHeapId b).
Definition getBase : M World (option Z) := assertMapped t a answer fd base fd' ;; let* b := heap a in ret (mBase b).
Definition getSize : M World Z := assertMapped t a answer fd base fd' ;; let* b := heap a in ret (mSize b).
Definition getFlags : M World Z := assertMapped t a answer fd base fd' ;; let* b := heap a in ret (mFlags b).
Definition getOffset : M World Z := assertMapped t a answer fd base fd' ;; let* b := heap a in ret (mOffset b).
End getters.

(** * A piece of a heap *)

Module BpMemory.
(** [mHeap] is what the reply named; its size is asked once. *)
Record BpMemory := mkBpMemory { mHeap : option Z; mOffset : Z; mSize : Z }.
Definition new_memory : BpMemory := mkBpMemory None 0 0.

Record Reply := mkReply { r_err : status_t; r_heap : option Z; r_offset64 : Z; r_size64 : Z; r_heapSize : Z }.

Definition getMemory (r : Reply) : M BpMemory (option Z * Z * Z) :=
  let* b := get in
  (match mHeap b with
   | Some _ => ret tt
   | None =>
       if negb (r_err r =? OK) then ret tt else
       match r_heap r with
       | None => ret tt
       | Some h =>
           let o := s64 (r_offset64 r) in
           let s := u64 (r_size64 r) in
           if (s =? r_size64 r) && (o =? r_offset64 r) && (s <=? r_heapSize r) && (0 <=? o)
              && (o <=? u64 (r_heapSize r - s))
           then put (mkBpMemory (Some h) o s)
           else put (mkBpMemory (Some h) 0 0)
       end
   end) ;;
  let* b := get in
  ret (if 0 <? mSize b then mHeap b else None, mOffset b, mSize b).

(** [bases] gives [base()] of a heap. *)
Definition unsecurePointer (bases : Z -> option Z) (r : Reply) : M BpMemory (option Z) :=
  let* m := getMemory r in
  let '(heap, offset, _) := m in
  let base := match heap with Some h => bases h | None => None end in
  ret (match base with Some base => Some (base + offset) | None => None end).

Definition size (r : Reply) : M BpMemory Z := let* m := getMemory r in ret (snd m).
Definition offset (r : Reply) : M BpMemory Z := let* m := getMemory r in ret (snd (fst m)).
End BpMemory.
