(* ===== verification/MemoryHeapProps.v ===== *)
(** The cache of memory heaps (MemoryHeap.v) under any interleaving of threads: the
    mapping a proxy points into stays while the proxy lives, no descriptor is closed
    twice and no region unmapped twice; and a piece of a heap lies inside it,
    whatever its owner says. *)

From stdpp Require Import gmap sets.
From S2P Require Import Prelude Errors MemoryHeap.

(** * What the environment may do *)

Definition fresh_fd (fd : option Z) (w : World) : Prop :=
  match fd with Some fd => 0 <= fd /\ fd ∉ open_fds w | None => True end.
Definition fresh_base (base : option Z) (w : World) : Prop :=
  match base with Some base => mappings w !! base = None | None => True end.

(** [a] is held by its users, not by the cache. *)
Definition user (a : Z) (w : World) : Prop := is_Some (heaps w !! a) /\ referenced a w = false.

Definition allowed (w : World) (e : Event) : Prop :=
  match e with
  | NewHeap _ => True
  | Begin t a => threads w !! t = None /\ user a w
  | Ask t _ => exists a h, threads w !! t = Some (Found a h)
  | Map t fd base => (exists a h answer, threads w !! t = Some (Answered a h answer)) /\
      fresh_fd fd w /\ fresh_base base w
  | End t fd => (exists a h, threads w !! t = Some (Checked a h)) /\ fresh_fd fd w
  | Destroy a => user a w /\ forall t th, threads w !! t = Some th -> client_of th <> a
  end.

(** * The invariant *)

Definition owner (w : World) (b h : Z) : Prop := exists n, mHeapCache w !! b = Some (mkHeapInfo h n).

(** The owner of a mapping has it, or nothing. *)
Definition owner_ok (w : World) (hb : BpMemoryHeap) : Prop :=
  if mHeapId hb =? -1 then mBase hb = None
  else mRealHeap hb = true /\ mHeapId hb ∈ open_fds w /\
       exists base, mBase hb = Some base /\ mappings w !! base = Some (mSize hb).
(** A user of it has its owner's. *)
Definition user_ok (w : World) (ab : BpMemoryHeap) : Prop :=
  mRealHeap ab = false /\ (mHeapId ab <> -1 -> mHeapId ab ∈ open_fds w /\ mBase ab <> None) /\
  (mBase ab <> None -> exists h hb, owner w (h_binder ab) h /\ heaps w !! h = Some hb /\
     mBase hb = mBase ab /\ mSize hb = mSize ab).

(** Who counts on the entry of a binder: mapped users and threads on their way. *)
Definition holders (w : World) (b h : Z) (X : gset (Z + Z)) : Prop :=
  (forall a ab, heaps w !! a = Some ab -> h_binder ab = b -> a <> h -> mBase ab <> None -> inl a ∈ X) /\
  (forall t th, threads w !! t = Some th -> heap_of th = h -> inr t ∈ X).

(** The part that depends on the cache through [owner] only. *)
Record core (w : World) : Prop := {
  c_next : forall a, is_Some (heaps w !! a) -> a < next_address w;
  c_owner : forall b h, owner w b h -> exists hb, heaps w !! h = Some hb /\ h_binder hb = b /\ owner_ok w hb;
  c_user : forall a ab, heaps w !! a = Some ab -> ~ owner w (h_binder ab) a -> user_ok w ab;
  c_thread : forall t th, threads w !! t = Some th ->
    exists ab, heaps w !! client_of th = Some ab /\ owner w (h_binder ab) (heap_of th) /\
      ~ owner w (h_binder ab) (client_of th);
  c_fds : forall a a' ab ab', heaps w !! a = Some ab -> heaps w !! a' = Some ab' ->
    mHeapId ab = mHeapId ab' -> mHeapId ab <> -1 -> a = a';
  c_bases : forall a a' ab ab', heaps w !! a = Some ab -> heaps w !! a' = Some ab' ->
    owner w (h_binder ab) a -> owner w (h_binder ab') a' ->
    mBase ab = mBase ab' -> mBase ab <> None -> a = a';
}.
Definition counts (w : World) : Prop := forall b h n, mHeapCache w !! b = Some (mkHeapInfo h n) ->
  0 < n /\ exists X, holders w b h X /\ Z.of_nat (size X) <= n.
Definition inv (w : World) : Prop := core w /\ counts w.

Lemma owner_unique w b h h' : owner w b h -> owner w b h' -> h = h'.
Proof. intros [n Hn] [n' Hn']. congruence. Qed.

Lemma owner_binder w b b' h : core w -> owner w b h -> owner w b' h -> b = b'.
Proof.
  intros Hi (hb & Hh & Hb & _)%(c_owner _ Hi) (hb' & Hh' & Hb' & _)%(c_owner _ Hi). congruence.
Qed.

Lemma owner_mapped w h hb base :
  core w -> owner w (h_binder hb) h -> heaps w !! h = Some hb -> mBase hb = Some base ->
  mHeapId hb <> -1 /\ mHeapId hb ∈ open_fds w /\ mRealHeap hb = true /\ mappings w !! base = Some (mSize hb).
Proof.
  intros Hi Hown Hh Hbase. destruct (c_owner _ Hi _ _ Hown) as (hb' & Hh' & _ & Hok).
  rewrite Hh in Hh'. injection Hh' as <-. unfold owner_ok in Hok. zcase (mHeapId hb =? -1); [congruence|].
  destruct Hok as (? & ? & base' & E1 & Hm). split_and!; congruence.
Qed.

Lemma referenced_false w h :
  referenced h w = false <->
  (forall b, ~ owner w b h) /\ (forall t th, threads w !! t = Some th -> heap_of th <> h).
Proof.
  unfold referenced. rewrite orb_false_iff, !bool_decide_eq_false. unfold map_Exists. split.
  - intros [H1 H2]. split.
    + intros b [n E]. apply H1. by exists b, (mkHeapInfo h n).
    + intros t th E Hh. apply H2. by exists t, th.
  - intros [H1 H2]. split.
    + intros (b & [h' n] & E & Hh). simpl in Hh. subst. apply (H1 b). by exists n.
    + intros (t & th & E & Hh). by eapply H2.
Qed.

#[export] Instance owner_dec w b h : Decision (owner w b h).
Proof.
  destruct (mHeapCache w !! b) as [[h' n]|] eqn:E; [|right; intros [n' E']; congruence].
  destruct (decide (h' = h)) as [->|Hne]; [left; by exists n|right; intros [n' E']; congruence].
Defined.

Lemma owner_self w b h hb : core w -> owner w b h -> heaps w !! h = Some hb -> h_binder hb = b /\ owner_ok w hb.
Proof. intros Hi (hb' & Hh' & Hb & Hok)%(c_owner _ Hi) Hh. rewrite Hh in Hh'. by injection Hh' as <-. Qed.

(** What every proxy points into is mapped, and its descriptor is open. *)
Lemma mapped w a ab base :
  core w -> heaps w !! a = Some ab -> mBase ab = Some base -> mappings w !! base = Some (mSize ab).
Proof.
  intros Hi Ha Hb. destruct (decide (owner w (h_binder ab) a)) as [Hown|Hno]; [by eapply owner_mapped|].
  destruct (c_user _ Hi _ _ Ha Hno) as (_ & _ & Hu). destruct Hu as (h & hb & Hown & Hh & E1 & E2); [congruence|].
  rewrite <- E2. destruct (owner_self _ _ _ _ Hi Hown Hh) as [Hbb _]. rewrite <- Hbb in Hown.
  eapply owner_mapped; [done|done|done|congruence].
Qed.

Lemma id_open w a ab : core w -> heaps w !! a = Some ab -> mHeapId ab <> -1 -> mHeapId ab ∈ open_fds w.
Proof.
  intros Hi Ha Hid. destruct (decide (owner w (h_binder ab) a)) as [Hown|Hno].
  - destruct (owner_self _ _ _ _ Hi Hown Ha) as [_ Hok]. unfold owner_ok in Hok. zcase (mHeapId ab =? -1); [done|].
    by destruct Hok as (_ & ? & _).
  - destruct (c_user _ Hi _ _ Ha Hno) as (_ & H2 & _). by apply H2.
Qed.

(** While the owner is not mapped nobody is. *)
Lemma unmapped_users w b h hb a ab :
  core w -> owner w b h -> heaps w !! h = Some hb -> mBase hb = None ->
  heaps w !! a = Some ab -> h_binder ab = b -> mBase ab = None.
Proof.
  intros Hi Hown Hh Hnone Ha Eab. destruct (decide (a = h)) as [->|Hne]; [congruence|].
  destruct (c_user _ Hi a ab Ha) as (_ & _ & H3); [rewrite Eab; intros H; by eapply Hne, owner_unique|].
  destruct (mBase ab) eqn:E; [|done]. destruct H3 as (h' & hb1 & Hown1 & Hh1 & E1 & _); [done|].
  rewrite Eab in Hown1. rewrite (owner_unique _ _ _ _ Hown1 Hown) in Hh1. congruence.
Qed.

(** * Steps of the cache *)

Lemma owner_count w b h n n' b' h' :
  mHeapCache w !! b = Some (mkHeapInfo h n) ->
  owner (set_cache (<[b := mkHeapInfo h n']> (mHeapCache w)) w) b' h' <-> owner w b' h'.
Proof.
  intros Hn. unfold owner. simpl. destruct (decide (b' = b)) as [->|Hne].
  - rewrite lookup_insert_eq, Hn. split; intros [m E]; injection E as -> _; eauto.
  - by rewrite lookup_insert_ne.
Qed.

(** Only the owners of the cache matter, and only counts changed. *)
Lemma core_count w b h n n' :
  mHeapCache w !! b = Some (mkHeapInfo h n) -> core w ->
  core (set_cache (<[b := mkHeapInfo h n']> (mHeapCache w)) w).
Proof.
  intros Hn [H1 H2 H3 H4 H5 H6]. pose proof (owner_count w b h n n') as Ho.
  split; simpl; [done| | | |done|].
  - intros b' h' Hown%Ho; [|done]. by apply H2.
  - intros a ab Ha Hno. destruct (H3 a ab Ha) as (E1 & E2 & E3); [by rewrite <- Ho|].
    split; [done|]. split; [done|]. intros Hm. destruct (E3 Hm) as (h' & hb & Hown & Hr). exists h', hb.
    split; [by apply Ho|done].
  - intros t th Ht. destruct (H4 t th Ht) as (ab & Ha & Hown & Hno). exists ab. rewrite !Ho by done. done.
  - intros a a' ab ab' Ha Ha' Hown%Ho Hown'%Ho; [|done..]. by apply H6.
Qed.

Lemma make_heap_core w b :
  core w -> core (set_next (next_address w + 1) (set_heaps (<[next_address w := new_heap b]> (heaps w)) w)).
Proof.
  intros [H1 H2 H3 H4 H5 H6]. set (a0 := next_address w) in *.
  assert (heaps w !! a0 = None) as Hnew.
  { destruct (heaps w !! a0) eqn:E; [|done]. assert (a0 < a0) by (apply H1; eauto). lia. }
  assert (forall a ab, heaps w !! a = Some ab -> a <> a0) as Hne by congruence.
  set (w' := set_next _ _).
  assert (forall b' h, owner w' b' h <-> owner w b' h) as Ho by done.
  assert (forall h, owner w b h -> h <> a0) as Hoa.
  { intros h (hb & Hh & _)%H2. congruence. }
  split; simpl.
  - intros a [->|[Hn Ha]]%lookup_insert_is_Some; [lia|]. specialize (H1 a Ha). lia.
  - intros b' h Hown. destruct (H2 b' h Hown) as (hb & Hh & Hb & Hok). exists hb.
    rewrite lookup_insert_ne by (symmetry; by eapply Hne). done.
  - intros a ab [[<- <-]|[Hn Ha]]%lookup_insert_Some Hno.
    { split; [done|]. split; [done|]. by intros []. }
    destruct (H3 a ab Ha Hno) as (E1 & E2 & E3). split; [done|]. split; [done|]. intros Hm.
    destruct (E3 Hm) as (h & hb & Hown & Hh & Hr). exists h, hb. split; [done|]. simpl.
    rewrite lookup_insert_ne by (symmetry; by eapply Hne). done.
  - intros t th Ht. destruct (H4 t th Ht) as (ab & Ha & Hr). exists ab.
    rewrite lookup_insert_ne by (symmetry; by eapply Hne). done.
  - intros a a' ab ab' [[<- <-]|[Hn Ha]]%lookup_insert_Some [[<- <-]|[Hn' Ha']]%lookup_insert_Some; simpl; try congruence.
    eauto.
  - intros a a' ab ab' [[<- <-]|[Hn Ha]]%lookup_insert_Some [[<- <-]|[Hn' Ha']]%lookup_insert_Some; simpl; try congruence.
    intros Hown Hown'. eauto.
Qed.

(** Projections of updated states; [simpl] would open the maps. *)
Ltac fields :=
  cbn [heaps mHeapCache threads next_address open_fds mappings set_heaps set_cache set_threads set_next set_fds
       set_mappings heap_of client_of h_binder mHeapId mBase mSize mRealHeap new_heap set_mapped set_real info_heap info_count] in *.

Definition with_new_owner (b : Z) (w : World) : World :=
  set_cache (<[b := mkHeapInfo (next_address w) 1]> (mHeapCache w))
    (set_next (next_address w + 1) (set_heaps (<[next_address w := new_heap b]> (heaps w)) w)).

Lemma new_owner w b b' h : mHeapCache w !! b = None ->
  owner (with_new_owner b w) b' h <-> owner w b' h \/ (b' = b /\ h = next_address w).
Proof.
  intros Hn. unfold owner. simpl. destruct (decide (b' = b)) as [->|Hne].
  - rewrite lookup_insert_eq, Hn. split; [intros [n [= <- _]]; by right|].
    intros [[n ?]|[_ ->]]; [done|]. by exists 1.
  - rewrite lookup_insert_ne by done. split; [by left|]. by intros [?|[? _]].
Qed.

Lemma no_heap_next w : core w -> heaps w !! next_address w = None.
Proof.
  intros Hi. destruct (heaps w !! next_address w) eqn:E; [|done].
  assert (next_address w < next_address w) by (apply (c_next _ Hi); eauto). lia.
Qed.

Lemma with_new_owner_core w b : core w -> mHeapCache w !! b = None -> core (with_new_owner b w).
Proof.
  intros Hi Hn. pose proof (make_heap_core w b Hi) as [H1 H2 H3 H4 H5 H6]. pose proof (no_heap_next w Hi) as Hnew.
  assert (forall h, ~ owner w b h) as Hno by (intros h [m E]; congruence).
  split; [exact H1| | | |exact H5|].
  - intros b' h [Hown|[-> ->]]%new_owner; [by apply (H2 b')| |done].
    exists (new_heap b). simpl. by rewrite lookup_insert_eq.
  - intros a ab Ha Hna. destruct (H3 a ab Ha) as (E1 & E2 & E3).
    { intros Hown. apply Hna, new_owner; [done|]. by left. }
    split; [done|]. split; [done|]. intros Hm. destruct (E3 Hm) as (h & hb & Hown & Hr).
    exists h, hb. split; [|done]. apply new_owner; [done|]. by left.
  - intros t th Ht. destruct (H4 t th Ht) as (ab & Ha & Hown & Hna). exists ab. split; [done|].
    rewrite !new_owner by done. split; [by left|]. intros [?|[_ Ec]]; [done|].
    destruct (c_thread _ Hi t th Ht) as (ab' & Ha' & _). congruence.
  - intros a a' ab ab' Ha Ha' Hown Hown' E Hm. rewrite new_owner in Hown, Hown' by done.
    assert (forall x xb, heaps (with_new_owner b w) !! x = Some xb -> mBase xb <> None ->
      owner w (h_binder xb) x \/ (h_binder xb = b /\ x = next_address w) -> owner w (h_binder xb) x) as Hold.
    { intros x xb Hx Hxm [?|[_ ->]]; [done|]. simpl in Hx. rewrite lookup_insert_eq in Hx. by simplify_eq/=. }
    eapply H6; [done|done|apply Hold; done|apply Hold; [done|congruence|done]|done|done].
Qed.

(** A thread is on its way to the owner of its client's binder. *)
Lemma put_thread_core w t th ab :
  core w -> heaps w !! client_of th = Some ab -> owner w (h_binder ab) (heap_of th) ->
  ~ owner w (h_binder ab) (client_of th) -> core (set_threads (<[t := th]> (threads w)) w).
Proof.
  intros [H1 H2 H3 H4 H5 H6] Ha Hown Hno. split; try done. simpl.
  intros t' th' [[<- <-]|[_ Ht]]%lookup_insert_Some; [by exists ab|by apply H4 in Ht].
Qed.

Lemma holders_threads w w' b h X :
  heaps w' = heaps w -> holders w b h X ->
  (forall t th, threads w' !! t = Some th -> heap_of th = h -> inr t ∈ X) -> holders w' b h X.
Proof. intros E [H1 H2] Hths. split; [by rewrite E|done]. Qed.

Lemma size_add (X : gset (Z + Z)) x : (size ({[x]} ∪ X) <= S (size X))%nat.
Proof.
  destruct (decide (x ∈ X)); [replace ({[x]} ∪ X) with X by set_solver; lia|].
  rewrite size_union by set_solver. rewrite size_singleton. lia.
Qed.
Lemma size_remove (X : gset (Z + Z)) x : x ∈ X -> S (size (X ∖ {[x]})) = size X.
Proof.
  intros Hx. rewrite size_difference by set_solver. rewrite size_singleton.
  assert (size X <> 0%nat). { intros E%size_empty_inv. set_solver. } lia.
Qed.

(** ** A thread begins *)

Lemma counts_found w t a b h n :
  core w -> counts w -> mHeapCache w !! b = Some (mkHeapInfo h n) ->
  counts (set_threads (<[t := Found a h]> (threads w)) (set_cache (<[b := mkHeapInfo h (n + 1)]> (mHeapCache w)) w)).
Proof.
  intros Hc Hn Eb b' h' n' Hn'. fields. assert (owner w b h) as Hown by by exists n. destruct (decide (b' = b)) as [->|Hne].
  - rewrite lookup_insert_eq in Hn'. injection Hn' as <- <-. destruct (Hn b h n Eb) as (Hpos & X & [HX1 HX2] & Hsz).
    split; [lia|]. exists ({[inr t]} ∪ X). pose proof (size_add X (inr t)). split; [|lia]. split; fields.
    + intros a' ab' Ha' Hb' Hah Hm. apply elem_of_union_r. by eapply HX1.
    + intros t' th' [[<- <-]|[_ Ht']]%lookup_insert_Some Hh; [set_solver|]. apply elem_of_union_r. by eapply HX2.
  - rewrite lookup_insert_ne in Hn' by done. destruct (Hn b' h' n' Hn') as (Hpos & X & HX & Hsz).
    split; [done|]. exists X. split; [|done]. apply (holders_threads w); [done|done|]. fields.
    intros t' th' [[<- <-]|[_ Ht']]%lookup_insert_Some Hh; [|by eapply HX].
    fields; subst h'. destruct Hne. exact (eq_sym (owner_binder w b b' h Hc Hown (ex_intro _ n' Hn'))).
Qed.

Lemma counts_new w t a b :
  core w -> counts w -> mHeapCache w !! b = None ->
  counts (set_threads (<[t := Found a (next_address w)]> (threads w)) (with_new_owner b w)).
Proof.
  intros Hc Hn Eb b' h' n' Hn'. unfold with_new_owner in *. pose proof (no_heap_next w Hc) as Hnew. fields.
  destruct (decide (b' = b)) as [->|Hne].
  - rewrite lookup_insert_eq in Hn'. injection Hn' as <- <-. split; [lia|]. exists {[inr t]}.
    rewrite size_singleton. split; [|lia]. split; fields.
    + intros a' ab' [[<- <-]|[Hne Ha']]%lookup_insert_Some Hb' Hah Hm; [done|].
      destruct (c_user _ Hc _ _ Ha') as (_ & _ & H3); [intros [m E']; congruence|].
      destruct (H3 Hm) as (h & hb & [m E'] & _). congruence.
    + intros t' th' [[<- <-]|[_ Ht']]%lookup_insert_Some Hh; [set_solver|].
      destruct (c_thread _ Hc _ _ Ht') as (xb & _ & Hox & _). destruct (c_owner _ Hc _ _ Hox) as (hb & Hhb & _). congruence.
  - rewrite lookup_insert_ne in Hn' by done. destruct (Hn b' h' n' Hn') as (Hpos & X & [HX1 HX2] & Hsz).
    destruct (c_owner _ Hc b' h') as (hb & Hhb & _); [by exists n'|].
    split; [done|]. exists X. split; [|done]. split; fields.
    + intros a' ab' [[<- <-]|[Hne' Ha']]%lookup_insert_Some Hb' Hah Hm; [done|by eapply HX1].
    + intros t' th' [[<- <-]|[_ Ht']]%lookup_insert_Some Hh; [fields; congruence|by eapply HX2].
Qed.

Lemma begin_inv w t a :
  inv w -> allowed w (Begin t a) -> wp (assert_begin t a) w (fun _ => inv).
Proof.
  intros [Hc Hn] [Ht Hu]. pose proof Hu as [[ab Ha] _]. unfold assert_begin, heap. wp_steps. rewrite Ha. wp_steps.
  zcase (mHeapId ab =? -1); cbn [negb]; [|by wp_step]. wp_step. unfold find_heap. wp_step. wp_step.
  assert (~ owner w (h_binder ab) a) as Hno by (apply (proj1 (proj1 (referenced_false _ _) (proj2 Hu)))).
  set (b := h_binder ab) in *.
  destruct (mHeapCache w !! b) as [[h n]|] eqn:Eb.
  - wp_steps. unfold put_thread. fields. wp_step. fields. split; [|by apply counts_found].
    eapply (put_thread_core (set_cache _ w) t (Found a h) ab); [by eapply core_count|done| |]; fold b.
    + apply (owner_count w b h n); [done|by exists n].
    + intros Hown'%(owner_count w b h n); [|done]. done.
  - unfold make_heap. wp_steps. unfold put_thread. fields. wp_step. fields. split; [|by apply (counts_new w)].
    pose proof (no_heap_next w Hc) as Hnew.
    apply (put_thread_core (with_new_owner b w) t (Found a (next_address w)) ab (with_new_owner_core w b Hc Eb)); fold b.
    + unfold with_new_owner. fields. rewrite lookup_insert_ne by congruence. done.
    + apply new_owner; [done|by right].
    + intros [?|[_ E']]%new_owner; [done| |done]. change (a = next_address w) in E'. congruence.
Qed.

(** ** Updates of the proxies *)

Lemma owner_ext w w' : mHeapCache w' = mHeapCache w -> forall b h, owner w' b h <-> owner w b h.
Proof. intros E b h. unfold owner. by rewrite E. Qed.

Lemma user_ok_more w w' ab :
  user_ok w ab -> (forall h, owner w (h_binder ab) h -> owner w' (h_binder ab) h) ->
  (forall h hb, heaps w !! h = Some hb -> owner w (h_binder ab) h -> mBase hb = mBase ab -> mBase ab <> None -> heaps w' !! h = Some hb) ->
  (mHeapId ab <> -1 -> mHeapId ab ∈ open_fds w -> mHeapId ab ∈ open_fds w') -> user_ok w' ab.
Proof.
  intros (E1 & E2 & E3) Ho Hh Hf. split; [done|]. split.
  - intros Hid. destruct (E2 Hid). auto.
  - intros Hm. destruct (E3 Hm) as (h & hb & Hown & Hhb & Eb & Es). exists h, hb. split_and!; auto.
Qed.

(** The owner of a binder, not mapped yet, is mapped or fails to be. *)
Lemma owner_update w w' b h hb hb' :
  inv w -> owner w b h -> heaps w !! h = Some hb -> mHeapId hb = -1 -> h_binder hb' = b ->
  heaps w' = <[h := hb']> (heaps w) -> mHeapCache w' = mHeapCache w -> threads w' = threads w ->
  next_address w' = next_address w -> open_fds w ⊆ open_fds w' ->
  (forall base s, mappings w !! base = Some s -> mappings w' !! base = Some s) ->
  owner_ok w' hb' -> (mHeapId hb' <> -1 -> mHeapId hb' ∉ open_fds w) ->
  (forall base, mBase hb' = Some base -> mappings w !! base = None) -> inv w'.
Proof.
  intros [Hc Hn] Hown Hh Hid Hb' Eh Ec Et En Hf Hm Hok Hfd Hbase.
  pose proof (owner_ext w w' Ec) as Ho.
  destruct (c_owner _ Hc _ _ Hown) as (hb0 & Hh0 & Hb0 & Hok0). rewrite Hh in Hh0. injection Hh0 as <-.
  assert (mBase hb = None) as Hnone. { unfold owner_ok in Hok0. by rewrite Hid, Z.eqb_refl in Hok0. }
  split.
  - split; rewrite ?Eh, ?En.
    + intros a [->|[_ Ha]]%lookup_insert_is_Some; [apply (c_next _ Hc); by eexists|by apply (c_next _ Hc)].
    + intros b1 h1 Hown1%Ho. destruct (decide (h1 = h)) as [->|Hne].
      * exists hb'. rewrite lookup_insert_eq. split; [done|]. split; [|done]. rewrite Hb'. by eapply owner_binder.
      * destruct (c_owner _ Hc b1 h1 Hown1) as (hb1 & Hh1 & Hb1 & Hok1). exists hb1.
        rewrite lookup_insert_ne by done. split_and!; [done|done|]. unfold owner_ok in *.
        destruct (mHeapId hb1 =? -1); [done|]. destruct Hok1 as (? & ? & base & ? & ?). split_and!; [done|set_solver|eauto].
    + intros a ab [[<- <-]|[Hne Ha]]%lookup_insert_Some Hno.
      { destruct Hno. apply Ho. by rewrite Hb'. }
      assert (user_ok w ab) as Hu by (apply (c_user _ Hc a); [done|by rewrite <- Ho]).
      eapply user_ok_more; [exact Hu|by intros; apply Ho| |set_solver].
      intros h1 hb1 Hh1 Hown1 E1 Hm1. rewrite Eh. rewrite lookup_insert_ne; [done|]. intros <-. congruence.
    + intros t th Ht. rewrite Et in Ht. destruct (c_thread _ Hc t th Ht) as (ab & Ha & Hown1 & Hno).
      exists ab. rewrite lookup_insert_ne; [by rewrite !Ho|]. intros E. apply Hno. rewrite <- E in Ha |- *.
      rewrite Hh in Ha. injection Ha as <-. by rewrite Hb0.
    + intros a a' ab ab' [[<- <-]|[Hne Ha]]%lookup_insert_Some [[<- <-]|[Hne' Ha']]%lookup_insert_Some; [done| | |by apply (c_fds _ Hc)].
      * intros E Hi. exfalso. apply (Hfd Hi). rewrite E. eapply id_open; [done|done|congruence].
      * intros E Hi. exfalso. apply Hfd; [congruence|]. rewrite <- E. by eapply id_open.
    + intros a a' ab ab' [[<- <-]|[Hne Ha]]%lookup_insert_Some [[<- <-]|[Hne' Ha']]%lookup_insert_Some; rewrite ?Ho; [done| | |by apply (c_bases _ Hc)].
      * intros _ _ E Hi. destruct (mBase hb') as [base|] eqn:Eb; [|done]. specialize (Hbase base eq_refl).
        rewrite (mapped w _ ab' base Hc Ha') in Hbase by done. done.
      * intros _ _ E Hi. destruct (mBase ab) as [base|] eqn:Eb; [|done]. specialize (Hbase base (eq_sym E)).
        rewrite (mapped w _ ab base Hc Ha) in Hbase by done. done.
  - intros b1 h1 n1 Hn1. rewrite Ec in Hn1. destruct (Hn b1 h1 n1 Hn1) as (Hpos & X & [HX1 HX2] & Hsz).
    split; [done|]. exists X. split; [|done]. split; rewrite ?Eh, ?Et; [|done].
    intros a ab [[<- <-]|[Hne Ha]]%lookup_insert_Some Eab Hah Hmb; [|by eapply HX1].
    destruct Hah. assert (b1 = b) as -> by congruence. eapply owner_unique; [exact Hown|by exists n1].
Qed.

(** A user is mapped like its owner: it takes the place of the thread. *)
Lemma user_update w w' t th a ab ab' h hb :
  inv w -> threads w !! t = Some th -> client_of th = a -> heap_of th = h ->
  heaps w !! a = Some ab -> mHeapId ab = -1 -> owner w (h_binder ab) h -> heaps w !! h = Some hb ->
  mBase hb <> None -> h_binder ab' = h_binder ab -> mRealHeap ab' = mRealHeap ab ->
  mBase ab' = mBase hb -> mSize ab' = mSize hb ->
  heaps w' = <[a := ab']> (heaps w) -> mHeapCache w' = mHeapCache w -> threads w' = delete t (threads w) ->
  next_address w' = next_address w -> mappings w' = mappings w ->
  open_fds w ⊆ open_fds w' -> (mHeapId ab' <> -1 -> mHeapId ab' ∈ open_fds w' /\ mHeapId ab' ∉ open_fds w) -> inv w'.
Proof.
  intros [Hc Hn] Ht <- <- Ha Hid Hown Hh Hmb Hb' Hr' Hbase' Hsz' Eh Ec Et En Em Hf Hfd.
  pose proof (owner_ext w w' Ec) as Ho.
  destruct (c_thread _ Hc t th Ht) as (ab0 & Ha0 & _ & Hno). rewrite Ha in Ha0. injection Ha0 as <-.
  assert (heap_of th <> client_of th) as Hne0 by (intros E; by rewrite E in Hown).
  split.
  - split; rewrite ?Eh, ?En, ?Et.
    + intros x [<-|[_ Hx]]%lookup_insert_is_Some; apply (c_next _ Hc); [by eexists|done].
    + intros b1 h1 Hown1%Ho. destruct (c_owner _ Hc b1 h1 Hown1) as (hb1 & Hh1 & Hb1 & Hok1). exists hb1.
      rewrite lookup_insert_ne by (intros <-; apply Hno; congruence). split_and!; [done|done|]. unfold owner_ok in *.
      destruct (mHeapId hb1 =? -1); [done|]. destruct Hok1 as (? & ? & base & ? & ?). rewrite Em. split_and!; [done|set_solver|eauto].
    + intros x xb [[<- <-]|[Hne Hx]]%lookup_insert_Some Hnx.
      * destruct (c_user _ Hc _ _ Ha Hno) as (E1 & _ & _). split; [congruence|]. split; [intros Hi; split; [by apply Hfd|congruence]|].
        intros _. exists (heap_of th), hb. rewrite Eh, lookup_insert_ne by done. split_and!; [apply Ho; congruence|done..].
      * eapply user_ok_more; [apply (c_user _ Hc x); [done|by rewrite <- Ho]|by intros; apply Ho| |set_solver].
        intros h1 hb1 Hh1 Hown1 E1 Hm1. rewrite Eh, lookup_insert_ne; [done|]. intros <-.
        destruct (owner_self _ _ _ _ Hc Hown1 Hh1) as [Hbb _]. apply Hno. congruence.
    + intros t' th' [_ Ht']%lookup_delete_Some. destruct (c_thread _ Hc t' th' Ht') as (xb & Hx & Hown1 & Hno1).
      destruct (decide (client_of th' = client_of th)) as [E|Hne].
      * exists ab'. rewrite E in Hx, Hno1 |- *. rewrite lookup_insert_eq. split; [done|]. assert (xb = ab) as -> by congruence. by rewrite !Ho, Hb'.
      * exists xb. rewrite lookup_insert_ne by done. by rewrite !Ho.
    + intros x x' xb xb' [[<- <-]|[Hne Hx]]%lookup_insert_Some [[<- <-]|[Hne' Hx']]%lookup_insert_Some; [done| | |by apply (c_fds _ Hc)].
      * intros E Hi. destruct (Hfd Hi) as [_ Hin]. exfalso. apply Hin. rewrite E. eapply id_open; [done|done|congruence].
      * intros E Hi. destruct Hfd as [_ Hin]; [congruence|]. exfalso. apply Hin. rewrite <- E. by eapply id_open.
    + intros x x' xb xb' [[<- <-]|[Hne Hx]]%lookup_insert_Some [[<- <-]|[Hne' Hx']]%lookup_insert_Some; rewrite ?Ho, ?Hb';
        [done|done|done|by apply (c_bases _ Hc)].
  - intros b1 h1 n1 Hn1. rewrite Ec in Hn1. destruct (Hn b1 h1 n1 Hn1) as (Hpos & X & [HX1 HX2] & Hsz).
    split; [done|]. destruct (decide (b1 = h_binder ab)) as [->|Hne].
    + assert (heap_of th = h1) as <- by (eapply owner_unique; [exact Hown|by exists n1]).
      pose proof (size_remove X (inr t) (HX2 t th Ht eq_refl)). pose proof (size_add (X ∖ {[inr t]}) (inl (client_of th))).
      exists ({[inl (client_of th)]} ∪ X ∖ {[inr t]}). split; [|lia]. split; rewrite ?Eh, ?Et.
      * intros x xb [[<- <-]|[Hne Hx]]%lookup_insert_Some Exb Hxh Hm; [set_solver|]. specialize (HX1 x xb Hx Exb Hxh Hm). set_solver.
      * intros t' th' [Hne Ht']%lookup_delete_Some Hh'. specialize (HX2 t' th' Ht' Hh'). set_solver.
    + exists X. split; [|done]. split; rewrite ?Eh, ?Et.
      * intros x xb [[<- <-]|[Hne' Hx]]%lookup_insert_Some Exb Hxh Hm; [congruence|by eapply HX1].
      * intros t' th' [_ Ht']%lookup_delete_Some Hh'. by eapply HX2.
Qed.

(** ** What goes away *)

(** A thread that is done, with or without its share of the count. *)
Lemma delete_thread_core w t : core w -> core (set_threads (delete t (threads w)) w).
Proof. intros [H1 H2 H3 H4 H5 H6]. split; try done. fields. intros t' th [_ Ht]%lookup_delete_Some. by apply (H4 t'). Qed.

Lemma holders_less w w' b h X :
  (forall a ab, heaps w' !! a = Some ab -> heaps w !! a = Some ab) ->
  (forall t th, threads w' !! t = Some th -> threads w !! t = Some th) -> holders w b h X -> holders w' b h X.
Proof. intros Hhs Hths [H1 H2]. split; eauto. Qed.

(** A proxy nobody points at any more. *)
Lemma remove_user_core w w' a ab :
  core w -> heaps w !! a = Some ab -> referenced a w = false ->
  (forall t th, threads w !! t = Some th -> client_of th <> a) ->
  heaps w' = delete a (heaps w) -> mHeapCache w' = mHeapCache w -> threads w' = threads w ->
  next_address w' = next_address w -> mappings w' = mappings w ->
  (forall fd, fd <> mHeapId ab \/ fd = -1 -> fd ∈ open_fds w -> fd ∈ open_fds w') -> core w'.
Proof.
  intros Hc Ha [Hno Hnt]%referenced_false Hcl Eh Ec Et En Em Hf. pose proof (owner_ext w w' Ec) as Ho.
  assert (forall x xb, x <> a -> heaps w !! x = Some xb -> mHeapId xb <> -1 -> mHeapId xb ∈ open_fds w -> mHeapId xb ∈ open_fds w') as Hkeep.
  { intros x xb Hne Hx Hid. apply Hf. left. intros E. by apply Hne, (c_fds _ Hc x a xb ab). }
  split; rewrite ?Eh, ?En, ?Et.
  - intros x [xb [_ Hx]%lookup_delete_Some]. apply (c_next _ Hc). by eexists.
  - intros b1 h1 Hown1%Ho. destruct (c_owner _ Hc b1 h1 Hown1) as (hb1 & Hh1 & Hb1 & Hok1). exists hb1.
    assert (h1 <> a) as Hne by (intros ->; by eapply Hno). rewrite lookup_delete_ne by done. split_and!; [done|done|].
    unfold owner_ok in *. zcase (mHeapId hb1 =? -1); [done|]. destruct Hok1 as (? & ? & base & ? & ?). rewrite Em. split_and!; eauto.
  - intros x xb [Hne Hx]%lookup_delete_Some Hnx.
    eapply user_ok_more; [apply (c_user _ Hc x); [done|by rewrite <- Ho]|by intros; apply Ho| |by eapply Hkeep].
    intros h1 hb1 Hh1 Hown1 _ _. rewrite Eh, lookup_delete_ne; [done|]. intros <-. by eapply Hno.
  - intros t th Ht. destruct (c_thread _ Hc t th Ht) as (xb & Hx & Hown1 & Hno1). exists xb.
    rewrite lookup_delete_ne by (apply not_eq_sym; eauto). by rewrite !Ho.
  - intros x x' xb xb' [_ Hx]%lookup_delete_Some [_ Hx']%lookup_delete_Some. by apply (c_fds _ Hc).
  - intros x x' xb xb' [_ Hx]%lookup_delete_Some [_ Hx']%lookup_delete_Some. rewrite !Ho. by apply (c_bases _ Hc).
Qed.

(** The owner of a binder with its entry, when nobody counts on it. *)
Lemma remove_owner_core w w' b h hb :
  core w -> owner w b h -> heaps w !! h = Some hb ->
  (forall t th, threads w !! t = Some th -> heap_of th <> h) ->
  (forall a ab, heaps w !! a = Some ab -> h_binder ab = b -> a <> h -> mBase ab = None) ->
  heaps w' = delete h (heaps w) -> mHeapCache w' = delete b (mHeapCache w) -> threads w' = threads w ->
  next_address w' = next_address w ->
  (forall fd, fd <> mHeapId hb \/ fd = -1 -> fd ∈ open_fds w -> fd ∈ open_fds w') ->
  (forall base s, mBase hb <> Some base -> mappings w !! base = Some s -> mappings w' !! base = Some s) -> core w'.
Proof.
  intros Hc Hown Hh Hnt Hnu Eh Ec Et En Hf Hm.
  assert (forall b1 h1, owner w' b1 h1 <-> b1 <> b /\ owner w b1 h1) as Ho.
  { intros b1 h1. unfold owner. rewrite Ec. split.
    - intros [n [? ?]%lookup_delete_Some]. split; [congruence|eauto].
    - intros [? [n ?]]. exists n. by rewrite lookup_delete_ne. }
  destruct (owner_self _ _ _ _ Hc Hown Hh) as [Hb _].
  assert (forall b1 h1, b1 <> b -> owner w b1 h1 -> h1 <> h) as Hother by (intros b1 h1 Hne Hown1 ->; by eapply Hne, owner_binder).
  assert (forall x xb, x <> h -> heaps w !! x = Some xb -> mHeapId xb <> -1 -> mHeapId xb ∈ open_fds w -> mHeapId xb ∈ open_fds w') as Hkeep.
  { intros x xb Hne Hx Hid. apply Hf. left. intros E. by apply Hne, (c_fds _ Hc x h xb hb). }
  split; rewrite ?Eh, ?En, ?Et.
  - intros x [xb [_ Hx]%lookup_delete_Some]. apply (c_next _ Hc). by eexists.
  - intros b1 h1 [Hne Hown1]%Ho. destruct (c_owner _ Hc b1 h1 Hown1) as (hb1 & Hh1 & Hb1 & Hok1). exists hb1.
    specialize (Hother b1 h1 Hne Hown1). rewrite lookup_delete_ne by done. split_and!; [done|done|].
    unfold owner_ok in *. zcase (mHeapId hb1 =? -1); [done|]. destruct Hok1 as (? & ? & base & Eb & ?).
    split_and!; [done|eauto|]. exists base. split; [done|]. apply Hm; [|done]. intros E1. apply Hother.
    apply (c_bases _ Hc h1 h hb1 hb); [done|done|congruence|congruence|congruence|congruence].
  - intros x xb [Hne Hx]%lookup_delete_Some Hnx. destruct (decide (h_binder xb = b)) as [Exb|Hxb].
    { rewrite <- Exb in Hown. destruct (c_user _ Hc x xb Hx) as (E1 & E2 & _).
      { intros H. by eapply Hne, owner_unique. }
      pose proof (Hnu x xb Hx Exb (not_eq_sym Hne)) as Hnone. split; [done|]. split; [|done].
      intros Hid. by destruct (E2 Hid). }
    eapply user_ok_more; [apply (c_user _ Hc x); [done|]|..].
    + intros Hown1. apply Hnx, Ho. done.
    + intros h1 Hown1. by apply Ho.
    + intros h1 hb1 Hh1 Hown1 _ _. rewrite Eh, lookup_delete_ne; [done|]. intros <-. by eapply Hother.
    + by eapply Hkeep.
  - intros t th Ht. destruct (c_thread _ Hc t th Ht) as (xb & Hx & Hown1 & Hno1). exists xb.
    assert (h_binder xb <> b) as Hxb.
    { intros E. rewrite E in Hown1. by eapply Hnt, owner_unique. }
    rewrite lookup_delete_ne by (intros E; rewrite <- E in Hx; congruence). rewrite !Ho. split; [done|]. split; [done|]. by intros [_ ?].
  - intros x x' xb xb' [_ Hx]%lookup_delete_Some [_ Hx']%lookup_delete_Some. by apply (c_fds _ Hc).
  - intros x x' xb xb' [_ Hx]%lookup_delete_Some [_ Hx']%lookup_delete_Some [_ Hown1]%Ho [_ Hown2]%Ho. by apply (c_bases _ Hc).
Qed.

(** The counts after some of those who count are gone. *)
Lemma counts_less w w' :
  counts w -> (forall b h n, mHeapCache w' !! b = Some (mkHeapInfo h n) -> mHeapCache w !! b = Some (mkHeapInfo h n)) ->
  (forall a ab, heaps w' !! a = Some ab -> heaps w !! a = Some ab) ->
  (forall t th, threads w' !! t = Some th -> threads w !! t = Some th) -> counts w'.
Proof.
  intros Hn Ec Hhs Hths b h n Eb. destruct (Hn b h n (Ec b h n Eb)) as (Hpos & X & HX & Hsz).
  split; [done|]. exists X. split; [by eapply holders_less|done].
Qed.

(** One of them, [x], gives back its share. *)
Lemma counts_give w w' b h n x :
  counts w -> mHeapCache w !! b = Some (mkHeapInfo h n) -> n <> 1 ->
  (forall X, holders w b h X -> x ∈ X /\ holders w' b h (X ∖ {[x]})) ->
  mHeapCache w' = <[b := mkHeapInfo h (n - 1)]> (mHeapCache w) ->
  (forall a ab, heaps w' !! a = Some ab -> heaps w !! a = Some ab) ->
  (forall t th, threads w' !! t = Some th -> threads w !! t = Some th) -> counts w'.
Proof.
  intros Hn Eb Hn1 Hx Ec Hhs Hths b1 h1 n1. rewrite Ec. intros [[<- [= <- <-]]|[Hne Eb1]]%lookup_insert_Some.
  - destruct (Hn b h n Eb) as (Hpos & X & HX & Hsz). destruct (Hx X HX) as [Hin HX'].
    pose proof (size_remove X x Hin). split; [lia|]. exists (X ∖ {[x]}). split; [done|lia].
  - destruct (Hn b1 h1 n1 Eb1) as (Hpos & X & HX & Hsz). split; [done|]. exists X. split; [by eapply holders_less|done].
Qed.

(** The last one: nobody else counts. *)
Lemma counts_last w b h x :
  counts w -> mHeapCache w !! b = Some (mkHeapInfo h 1) ->
  (forall X, holders w b h X -> x ∈ X) -> holders w b h {[x]}.
Proof.
  intros Hn Eb Hx. destruct (Hn b h 1 Eb) as (_ & X & HX & Hsz). pose proof (Hx X HX) as Hin.
  pose proof (size_remove X x Hin). assert (size (X ∖ {[x]}) = 0%nat) as He%size_empty_inv by lia.
  replace {[x]} with X; [done|]. apply leibniz_equiv. intros y. destruct (decide (y = x)); set_solver.
Qed.

Lemma same_thread_inv w t th th' :
  inv w -> threads w !! t = Some th -> client_of th' = client_of th -> heap_of th' = heap_of th ->
  inv (set_threads (<[t := th']> (threads w)) w).
Proof.
  intros [Hc Hn] Ht Ecl Eh. split.
  - destruct (c_thread _ Hc t th Ht) as (ab & Ha & Hown & Hno). apply (put_thread_core w t th' ab); congruence.
  - intros b h n Eb. destruct (Hn b h n Eb) as (Hpos & X & HX & Hsz). split; [done|]. exists X. split; [|done].
    apply (holders_threads w); [done|done|]. fields. destruct HX as [_ HX].
    intros t' th1 [[<- <-]|[_ Ht']]%lookup_insert_Some E; [apply (HX t th); congruence|by eapply HX].
Qed.

Lemma delete_thread_inv w t : inv w -> inv (set_threads (delete t (threads w)) w).
Proof.
  intros [Hc Hn]. split; [by apply delete_thread_core|]. eapply counts_less; [done|done|done|].
  fields. by intros t' th [_ ?]%lookup_delete_Some.
Qed.

(** ** The steps of a thread *)

Lemma ask_inv w t answer : inv w -> allowed w (Ask t answer) -> wp (assert_ask t answer) w (fun _ => inv).
Proof.
  intros Hi (a & h & Ht). unfold assert_ask, thread, heap. wp_steps. rewrite Ht. wp_steps. fields.
  destruct (c_thread _ (proj1 Hi) t _ Ht) as (ab & _ & Hown & _). fields.
  destruct (c_owner _ (proj1 Hi) _ _ Hown) as (hb & Hh & _). rewrite Hh. wp_steps.
  destruct (negb _); unfold put_thread; wp_step; by eapply same_thread_inv.
Qed.

Ltac by_owner_update :=
  lazymatch goal with
  | Hown : owner ?w ?b ?h, Hh : heaps ?w !! ?h = Some ?hb |- inv ?w' =>
      lazymatch w' with context [<[h := ?hb']> (heaps w)] => eapply (owner_update w w' b h hb hb') end
  end; try done; fields.

Lemma really_map_inv w h b answer fd base :
  inv w -> owner w b h -> fresh_fd fd w -> fresh_base base w ->
  wp (really_map h answer fd base) w (fun _ w' => inv w' /\ threads w' = threads w).
Proof.
  intros Hi Hown Hfd Hbase. unfold really_map. destruct (negb _ || _ || _); [by wp_step|].
  destruct (c_owner _ (proj1 Hi) _ _ Hown) as (hb & Hh & Hb & Hok). unfold heap. wp_steps. rewrite Hh. wp_steps.
  zcase (mHeapId hb =? -1); cbn [negb]; [|by wp_step]. wp_steps.
  destruct fd as [fd|]; unfold opened, mmap, assign, heap, close; wp_steps; fields.
  - destruct Hfd as [Hpos Hfresh]. zcase (fd =? -1); [lia|]. destruct base as [base|]; repeat (wp_steps; fields); rewrite Hh; repeat (wp_steps; fields).
    + rewrite lookup_insert_eq. repeat (wp_steps; fields). rewrite insert_insert_eq. split; [|done].
      by_owner_update; [set_solver| | |].
      * intros base' s Hm. rewrite lookup_insert_ne; [done|]. intros <-. simpl in Hbase. congruence.
      * unfold owner_ok. fields. zcase (fd =? -1); [done|]. split; [done|]. split; [set_solver|]. exists base. by rewrite lookup_insert_eq.
      * by intros ? [= <-].
    + rewrite bool_decide_true by set_solver. wp_step. fields. split; [|done].
      by_owner_update; [set_solver|].
      unfold owner_ok. fields. by rewrite E, Z.eqb_refl.
  - rewrite Z.eqb_refl. wp_steps. rewrite Hh. repeat (wp_steps; fields). split; [|done].
    by_owner_update. unfold owner_ok. fields. by rewrite E, Z.eqb_refl.
Qed.

Lemma map_inv w t fd base : inv w -> allowed w (Map t fd base) -> wp (assert_map t fd base) w (fun _ => inv).
Proof.
  intros Hi ((a & h & answer & Ht) & Hfd & Hbase). unfold assert_map, thread. wp_steps. rewrite Ht. wp_steps.
  destruct (c_thread _ (proj1 Hi) t _ Ht) as (ab & _ & Hown & _). fields.
  wp_use really_map_inv; [done..|]. intros _ w' [Hi' Et]. unfold put_thread. wp_step.
  eapply (same_thread_inv _ _ (Answered a h answer)); [done|by rewrite Et|done..].
Qed.

Lemma referenced_owner w b h : owner w b h -> referenced h w = true.
Proof. intros H. apply not_false_iff_true. intros [Hno _]%referenced_false. by eapply Hno. Qed.
Lemma referenced_thread w t th : threads w !! t = Some th -> referenced (heap_of th) w = true.
Proof. intros H. apply not_false_iff_true. intros [_ Hno]%referenced_false. by eapply Hno. Qed.

(** A strong pointer that is not the last one. *)
Lemma drop_referenced w h Q : referenced h w = true -> Q tt w -> wp (drop h) w Q.
Proof. intros E HQ. unfold drop. wp_steps. rewrite E. by wp_step. Qed.

(** The thread gave up: the owner could not be mapped. *)
Lemma give_up_inv w t a h ab hb :
  inv w -> threads w !! t = Some (Checked a h) -> heaps w !! a = Some ab -> owner w (h_binder ab) h ->
  heaps w !! h = Some hb -> mBase hb = None ->
  wp (free_heap (h_binder ab) ;; modify (fun w => set_threads (delete t (threads w)) w) ;; drop h) w (fun _ => inv).
Proof.
  intros [Hc Hn] Ht Ha Hown Hh Hnone. set (b := h_binder ab) in *.
  destruct (owner_self _ _ _ _ Hc Hown Hh) as [Hb Hok].
  assert (mHeapId hb = -1) as Hid. { unfold owner_ok in Hok. zcase (mHeapId hb =? -1); [done|]. destruct Hok as (_ & _ & ? & ? & _). congruence. }
  pose proof Hown as [n En]. unfold free_heap, take_heap. wp_steps. rewrite En. cbn [info_count info_heap].
  assert (forall X, holders w b h X -> inr t ∈ X) as Hin by (intros X [_ HX]; by apply (HX t _ Ht)).
  zcase (n - 1 =? 0); repeat (wp_steps; fields).
  - assert (n = 1) as -> by lia. destruct (counts_last w b h (inr t) Hn En Hin) as [_ Honly].
    apply drop_referenced; [by eapply (referenced_thread _ t (Checked a h))|]. repeat (wp_steps; fields).
    unfold drop. wp_steps. set (w' := set_threads _ _).
    assert (referenced h w' = false) as Hr.
    { subst w'. apply referenced_false. unfold owner. split; fields.
      - intros b' [m [Hne E']%lookup_delete_Some]. apply Hne. eapply owner_binder; [done|done|by exists m].
      - intros t' th [Hne E']%lookup_delete_Some E1. specialize (Honly t' th E' E1). set_solver. }
    rewrite Hr. cbn [destroy]. unfold heap, w'. repeat (wp_steps; fields). rewrite Hh. repeat (wp_steps; fields).
    rewrite Hid, Z.eqb_refl. wp_step. split.
    + eapply (remove_owner_core (set_threads (delete t (threads w)) w) _ b h hb); try done; fields; [by apply delete_thread_core| |].
      * intros t' th [Hne E']%lookup_delete_Some E1. specialize (Honly t' th E' E1). set_solver.
      * intros a' ab' Ha' Eab _. by eapply unmapped_users.
    + eapply counts_less; [exact Hn|..]; fields; intros *; by intros [_ ?]%lookup_delete_Some.
  - apply drop_referenced; [eapply (referenced_owner _ b); by eapply (owner_count w b h n)|]. split.
    + eapply (delete_thread_core (set_cache _ w)). by eapply core_count.
    + eapply (counts_give w _ b h n (inr t)); [done|done|lia| |done|done|].
      * intros X HX. split; [by apply Hin|]. destruct HX as [HX1 HX2]. split; fields.
        -- intros a' ab' Ha' Hb' Hne Hm. specialize (HX1 a' ab' Ha' Hb' Hne Hm). set_solver.
        -- intros t' th [Hne E']%lookup_delete_Some E1. specialize (HX2 t' th E' E1). set_solver.
      * fields. by intros t' th [_ ?]%lookup_delete_Some.
Qed.

Lemma end_inv w t fd : inv w -> allowed w (End t fd) -> wp (assert_end t fd) w (fun _ => inv).
Proof.
  intros Hi ((a & h & Ht) & Hfd). unfold assert_end, thread. wp_steps. rewrite Ht. wp_steps.
  destruct (c_thread _ (proj1 Hi) t _ Ht) as (ab & Ha & Hown & Hno). fields.
  destruct (c_owner _ (proj1 Hi) _ _ Hown) as (hb & Hh & Hb & Hok).
  unfold copy_heap, heap. wp_steps. rewrite Hh. wp_steps. rewrite Ha. wp_steps.
  destruct (mBase hb) as [base|] eqn:Eb.
  - zcase (mHeapId ab =? -1); cbn [negb].
    + unfold assign, heap. destruct fd as [fd|]; unfold opened; repeat (wp_steps; fields); rewrite Ha; repeat (wp_steps; fields).
      all: apply drop_referenced; [by eapply (referenced_owner _ (h_binder ab))|].
      * eapply (user_update w _ t _ a ab (set_mapped fd (Some base) _ _ _ ab) h hb); try done; fields; [congruence|set_solver|].
        simpl in Hfd. set_solver.
      * by eapply (user_update w _ t _ a ab (set_mapped (-1) (Some base) _ _ _ ab) h hb); try done; fields; try congruence.
    + repeat (wp_steps; fields). apply drop_referenced; [by eapply (referenced_owner _ (h_binder ab))|]. by apply delete_thread_inv.
  - pose proof (give_up_inv w t a h ab hb Hi Ht Ha Hown Hh Eb) as H. apply wpg_bind_inv in H. exact H.
Qed.

(** The last user takes the owner along. *)
Lemma destroy_owner w b h hb :
  core w -> owner w b h -> heaps w !! h = Some hb -> mBase hb <> None ->
  (forall t th, threads w !! t = Some th -> heap_of th <> h) ->
  (forall a ab, heaps w !! a = Some ab -> h_binder ab = b -> a <> h -> mBase ab = None) ->
  wp (let* w := get in if referenced h w then ret tt else destroy 1 h) (set_cache (delete b (mHeapCache w)) w)
    (fun _ w' => core w' /\ heaps w' = delete h (heaps w) /\ mHeapCache w' = delete b (mHeapCache w) /\ threads w' = threads w).
Proof.
  intros Hc Hown Hh Hm Hnt Hnu. wp_steps.
  assert (referenced h (set_cache (delete b (mHeapCache w)) w) = false) as Hr.
  { apply referenced_false. unfold owner. split; fields; [|done].
    intros b' [m [Hne E']%lookup_delete_Some]. apply Hne. eapply owner_binder; [done|done|by exists m]. }
  rewrite Hr. destruct (mBase hb) as [base|] eqn:Eb; [|done].
  destruct (owner_self _ _ _ _ Hc Hown Hh) as [Hb _]. rewrite <- Hb in Hown.
  destruct (owner_mapped w h hb base Hc Hown Hh Eb) as (Hid & Hopen & Hreal & Hmap).
  cbn [destroy]. unfold heap, close, munmap. repeat (wp_steps; fields). rewrite Hh. repeat (wp_steps; fields).
  zcase (mHeapId hb =? -1); [done|]. repeat (wp_steps; fields). rewrite bool_decide_true by done. repeat (wp_steps; fields).
  rewrite Hreal, Eb, bool_decide_false by done. repeat (wp_steps; fields). rewrite Hmap. repeat (wp_steps; fields).
  split; [|done]. rewrite Hb in Hown. eapply (remove_owner_core w _ b h hb); try done; fields.
  - intros fd Hfd Hf. set_solver.
  - intros base' s Hne Hs. rewrite lookup_delete_ne; congruence.
Qed.

Lemma destroy_heap_inv w a : inv w -> allowed w (Destroy a) -> wp (destroy 2 a) w (fun _ => inv).
Proof.
  intros [Hc Hn] [[[ab Ha] Href] Hcl]. pose proof (proj1 (referenced_false _ _) Href) as [Hno Hnt].
  cbn [destroy]. unfold heap at 1. wp_steps. rewrite Ha. repeat (wp_steps; fields).
  zcase (mHeapId ab =? -1).
  { wp_step. split; [eapply (remove_user_core w _ a ab); try done|].
    eapply counts_less; [exact Hn|done|..]; fields; [|done]. by intros a' ab' [_ ?]%lookup_delete_Some. }
  destruct (c_user _ Hc a ab Ha (Hno _)) as (Hreal & Hid & Hm). destruct (Hid E) as [Hopen Hbase]. destruct (Hm Hbase) as (h & hb & Hown & Hh & Eb & Es).
  unfold close at 1. repeat (wp_steps; fields). rewrite bool_decide_true by done. repeat (wp_steps; fields). rewrite Hreal.
  set (b := h_binder ab) in *. pose proof Hown as [n En]. unfold take_heap. wp_steps. fields. rewrite En. cbn [info_count info_heap].
  assert (forall X, holders w b h X -> inl a ∈ X) as Hin.
  { intros X [HX _]. apply (HX a ab); try done. intros ->. by eapply Hno. }
  assert (h <> a) as Hha by (intros ->; by eapply Hno).
  pose proof (remove_user_core w (set_fds (open_fds w ∖ {[mHeapId ab]}) (set_heaps (delete a (heaps w)) w)) a ab Hc Ha Href Hcl
    eq_refl eq_refl eq_refl eq_refl eq_refl) as Hc1.
  fields. specialize (Hc1 ltac:(intros fd Hfd Hf; set_solver)).
  zcase (n - 1 =? 0); repeat (wp_steps; fields).
  - assert (n = 1) as -> by lia. destruct (counts_last w b h (inl a) Hn En Hin) as [Honly1 Honly2].
    eapply wpg_mono; [eapply (destroy_owner (set_fds _ (set_heaps _ w)) b h hb Hc1 Hown)|]; fields.
    + change (delete a (heaps w) !! h = Some hb). by rewrite lookup_delete_ne.
    + congruence.
    + intros t th Ht Eh. specialize (Honly2 t th Ht Eh). set_solver.
    + intros a' ab' [Hne Ha']%lookup_delete_Some Eab Hnh. destruct (mBase ab') eqn:Em; [|done].
      assert (inl a' ∈ ({[inl a]} : gset (Z + Z))) by (apply (Honly1 a' ab'); congruence). set_solver.
    + intros _ w' (Hc' & Eh & Ec & Et). split; [done|]. eapply counts_less; [exact Hn|..]; rewrite ?Eh, ?Ec, ?Et; fields; [..|done].
      * by intros b' h' n' [_ ?]%lookup_delete_Some.
      * by intros a' ab' [_ [_ ?]%lookup_delete_Some]%lookup_delete_Some.
  - split; [exact (core_count (set_fds _ (set_heaps _ w)) b h n (n - 1) En Hc1)|]. eapply (counts_give w _ b h n (inl a)); [done|done|lia| |done| |done].
    + intros X HX. split; [by apply Hin|]. destruct HX as [HX1 HX2]. split; fields.
      * intros a' ab' [Hne Ha']%lookup_delete_Some Hb' Hnh Hm'. specialize (HX1 a' ab' Ha' Hb' Hnh Hm'). set_solver.
      * intros t' th E' E1. specialize (HX2 t' th E' E1). set_solver.
    + fields. by intros a' ab' [_ ?]%lookup_delete_Some.
Qed.

(** * Pointers do not move *)

(** What a proxy points into stays what it points into. *)
Definition keeps (w w' : World) : Prop := next_address w <= next_address w' /\
  forall a ab', heaps w' !! a = Some ab' -> next_address w <= a \/
    exists ab, heaps w !! a = Some ab /\ (mBase ab = None \/ mBase ab' = mBase ab).
Definition steady {A} (m : M World A) (w : World) : Prop :=
  match m w with Ret _ w' => keeps w w' | _ => True end.

Lemma keeps_refl w : keeps w w.
Proof. split; [lia|]. eauto 6. Qed.
Lemma keeps_trans w1 w2 w3 : keeps w1 w2 -> keeps w2 w3 -> keeps w1 w3.
Proof.
  intros [Hn1 H1] [Hn2 H2]. split; [lia|]. intros a ab3 [?|(ab2 & E2 & Hb2)]%H2; [left; lia|].
  destruct (H1 a ab2 E2) as [?|(ab1 & E1 & Hb1)]; [by left|]. right. exists ab1. split; [done|].
  destruct Hb1, Hb2; [by left|by left|left; congruence|right; congruence].
Qed.
Lemma keeps_same w w' : next_address w' = next_address w -> heaps w' = heaps w -> keeps w w'.
Proof. intros En Eh. split; [lia|]. rewrite Eh. eauto 6. Qed.
Lemma keeps_delete w w' a : next_address w' = next_address w -> heaps w' = delete a (heaps w) -> keeps w w'.
Proof. intros En Eh. split; [lia|]. rewrite Eh. intros x xb [_ ?]%lookup_delete_Some. eauto 6. Qed.

Lemma steady_bind {A B} (m : M World A) (k : A -> M World B) w :
  steady m w -> (forall a w', m w = Ret a w' -> steady (k a) w') -> steady (bind m k) w.
Proof.
  unfold steady, bind. destruct (m w) as [a w1| |]; [|done..]. intros H1 H2. specialize (H2 a w1 eq_refl).
  destruct (k a w1); [by eapply keeps_trans|done..].
Qed.
Lemma steady_ret {A} (a : A) w : steady (ret a) w.
Proof. apply keeps_refl. Qed.
Lemma steady_gets {A} (f : World -> A) w : steady (gets f) w.
Proof. apply keeps_refl. Qed.
Lemma steady_require {A} (o : option A) w : steady (require o) w.
Proof. destruct o; [apply keeps_refl|done]. Qed.
Lemma steady_modify f w : keeps w (f w) -> steady (modify f) w.
Proof. done. Qed.

Ltac steadily :=
  repeat lazymatch goal with
  | |- steady (bind (gets _) _) _ => apply steady_bind; [apply steady_gets|intros ? ? [= <- <-]; cbn beta]
  | |- steady (bind get _) _ => apply steady_bind; [apply steady_gets|intros ? ? [= <- <-]; cbn beta]
  | |- steady (bind _ _) _ => apply steady_bind; [|intros ? ? ?; cbn beta]
  | |- steady (ret _) _ => apply steady_ret
  | |- steady (gets _) _ => apply steady_gets
  | |- steady get _ => apply steady_gets
  | |- steady (require _) _ => apply steady_require
  | |- steady fault _ => exact I
  | |- steady (modify _) _ => apply steady_modify; first [by apply keeps_same|by eapply keeps_delete|idtac]
  | |- steady (match ?x with _ => _ end) _ => destruct x eqn:?
  end.

Lemma steady_make_heap b w : steady (make_heap b) w.
Proof.
  unfold make_heap. steadily. split; cbn [next_address set_next set_heaps heaps]; [lia|].
  intros x xb [[<- <-]|[_ Hx]]%lookup_insert_Some; [left; lia|]. eauto 6.
Qed.
Lemma steady_take_heap b w : steady (take_heap b) w.
Proof. unfold take_heap. steadily. Qed.
Lemma steady_destroy fuel : forall a w, steady (destroy fuel a) w.
Proof.
  induction fuel as [|fuel IH]; intros a w; [done|]. cbn [destroy]. unfold heap, close, munmap. steadily.
  all: try apply steady_take_heap. all: try apply IH.
Qed.

Lemma steady_drop h w : steady (drop h) w.
Proof. unfold drop. steadily. apply steady_destroy. Qed.

(** Only a pointer that was not set, or to the same value. *)
Lemma keeps_insert w w' a b b' :
  heaps w !! a = Some b -> mBase b = None \/ mBase b' = mBase b ->
  next_address w' = next_address w -> heaps w' = <[a := b']> (heaps w) -> keeps w w'.
Proof.
  intros Ha Hb En Eh. split; [lia|]. rewrite Eh. intros x xb [[<- <-]|[_ Hx]]%lookup_insert_Some; eauto 6.
Qed.

Lemma steady_really_map w b h answer fd base : inv w -> owner w b h -> steady (really_map h answer fd base) w.
Proof.
  intros Hi Hown. unfold really_map. destruct (negb _ || _ || _); [apply steady_ret|].
  destruct (c_owner _ (proj1 Hi) _ _ Hown) as (hb & Hh & Hb & Hok). unfold owner_ok in Hok.
  unfold steady, heap, bind, gets, require. rewrite Hh. unfold ret. fields. destruct (mHeapId hb =? -1); cbn [negb]; [|apply keeps_refl].
  destruct fd as [fd|]; unfold opened, mmap, assign, close, heap, bind, modify, ret, gets, require; fields.
  - destruct (fd =? -1), base as [base|]; fields; rewrite Hh; unfold ret; fields; rewrite ?lookup_insert_eq; fields;
      try destruct (bool_decide _); try done;
      (eapply keeps_insert; [exact Hh|by left|reflexivity|]); fields; first [reflexivity|apply insert_insert_eq].
  - rewrite Z.eqb_refl, Hh. eapply keeps_insert; [exact Hh|by left|reflexivity|reflexivity].
Qed.

Lemma steady_free_heap b w : steady (free_heap b) w.
Proof. unfold free_heap. steadily; [apply steady_take_heap|apply steady_drop]. Qed.

Lemma steady_copy w t a h fd :
  inv w -> threads w !! t = Some (Checked a h) -> steady (copy_heap a h fd) w.
Proof.
  intros Hi Ht. destruct (c_thread _ (proj1 Hi) t _ Ht) as (ab & Ha & Hown & Hno). fields.
  destruct (c_owner _ (proj1 Hi) _ _ Hown) as (hb & Hh & Hb & Hok).
  assert (mBase ab = None \/ mBase hb = mBase ab) as Hsame.
  { destruct (mBase ab) eqn:Em; [|by left]. right.
    destruct (c_user _ (proj1 Hi) a ab Ha Hno) as (_ & _ & Hu). destruct Hu as (h' & hb' & Hown' & Hh' & E & _); [congruence|].
    rewrite (owner_unique _ _ _ _ Hown' Hown) in Hh'. congruence. }
  unfold steady, copy_heap, heap, bind, gets, require. rewrite Hh. unfold ret. fields. rewrite Ha. fields.
  destruct (mBase hb) as [base|] eqn:Eb; [|apply steady_free_heap].
  destruct (negb _); [apply keeps_refl|].
  destruct fd as [fd|]; unfold opened, assign, heap, bind, modify, ret, gets, require; fields; rewrite Ha;
    (eapply keeps_insert; [exact Ha| |reflexivity|reflexivity]); fields; intuition congruence.
Qed.

Lemma steady_found {B} t th (k : Thread -> M World B) w :
  threads w !! t = Some th -> steady (k th) w -> steady (let* th := (let* m := gets threads in require (m !! t)) in k th) w.
Proof. intros Ht. unfold steady, bind, gets, require. by rewrite Ht. Qed.

Lemma run_event_keeps w e : inv w -> allowed w e -> steady (run_event e) w.
Proof.
  intros Hi He. destruct e as [b|t a|t answer|t fd base|t fd|a]; cbn [run_event]; [|..|apply steady_destroy].
  - steadily. apply steady_make_heap.
  - unfold assert_begin, heap, find_heap, put_thread. steadily. apply steady_make_heap.
  - unfold assert_ask, thread, heap, put_thread. steadily.
  - destruct He as ((a & h & answer & Ht) & _). destruct (c_thread _ (proj1 Hi) t _ Ht) as (ab & _ & Hown & _).
    unfold assert_map, thread. eapply (steady_found _ _ _ _ Ht).
    apply steady_bind; [by eapply steady_really_map|]. intros ? ? _. unfold put_thread. steadily.
  - destruct He as ((a & h & Ht) & _). unfold assert_end, thread. eapply (steady_found _ _ _ _ Ht).
    apply steady_bind; [by eapply steady_copy|]. intros ? ? _. steadily. apply steady_drop.
Qed.

(** * Every interleaving *)

Inductive reachable : World -> Prop :=
| reach_start : reachable start
| reach_step w e w' : reachable w -> allowed w e -> run_event e w = Ret tt w' -> reachable w'.

Lemma run_event_inv w e : inv w -> allowed w e -> wp (run_event e) w (fun _ => inv).
Proof.
  intros Hi He. destruct e as [b|t a|t answer|t fd base|t fd|a]; cbn [run_event].
  - unfold make_heap. wp_steps. split; [by apply make_heap_core, Hi|]. destruct Hi as [Hc Hn].
    intros b' h n E. destruct (Hn b' h n E) as (Hpos & X & [HX1 HX2] & Hsz). split; [done|]. exists X. split; [|done].
    split; fields; [|done]. intros a ab [[<- <-]|[_ Ha]]%lookup_insert_Some Eb Hah Hm; [done|by eapply HX1].
  - by apply begin_inv.
  - by apply ask_inv.
  - by apply map_inv.
  - by apply end_inv.
  - by apply destroy_heap_inv.
Qed.

Lemma start_inv : inv start.
Proof. split; [split|]; unfold counts, owner; cbn; intros *; rewrite ?lookup_empty; try done; by intros []. Qed.

Lemma heaps_inv w : reachable w -> inv w.
Proof.
  induction 1 as [|w e w' _ IH He E]; [apply start_inv|]. pose proof (run_event_inv w e IH He) as H.
  unfold wpg in H. by rewrite E in H.
Qed.


(** * A piece of a heap *)

Section memory.
(** How large each heap is, for its proxy in this process. *)
Variable sizes : Z -> Z.
Hypothesis sizes_fit : forall h, 0 <= sizes h < 2 ^ 64.

Definition sized (r : BpMemory.Reply) : Prop := forall h, BpMemory.r_heap r = Some h -> BpMemory.r_heapSize r = sizes h.
Definition inside (b : BpMemory.BpMemory) : Prop :=
  0 <= BpMemory.mOffset b /\ 0 <= BpMemory.mSize b /\
  match BpMemory.mHeap b with
  | Some h => BpMemory.mOffset b + BpMemory.mSize b <= sizes h
  | None => BpMemory.mSize b = 0
  end.

Lemma getMemory_inside r b :
  sized r -> inside b ->
  wp (BpMemory.getMemory r) b (fun m b' => inside b' /\ (BpMemory.mHeap b <> None -> b' = b) /\
    m = (if 0 <? BpMemory.mSize b' then BpMemory.mHeap b' else None, BpMemory.mOffset b', BpMemory.mSize b')).
Proof.
  intros Hr Hb. unfold BpMemory.getMemory. wp_steps. destruct (BpMemory.mHeap b) as [h|] eqn:Eh; [by wp_steps|].
  destruct (negb _); [by wp_steps|]. destruct (BpMemory.r_heap r) as [h|] eqn:Erh; [|by wp_steps].
  pose proof (sizes_fit h). specialize (Hr h Erh). set (o := s64 _). set (s := u64 _).
  assert (0 <= s) by apply u64_range.
  destruct (_ && _) eqn:Ec; wp_steps; (split; [|done]); unfold inside; cbn; [|lia].
  zb. rewrite Hr in *. rewrite u64_small in *; lia.
Qed.

Fixpoint asked (rs : list BpMemory.Reply) : M BpMemory.BpMemory unit :=
  match rs with [] => ret tt | r :: rs => BpMemory.getMemory r ;; asked rs end.

Lemma asked_inside rs : forall b, Forall sized rs -> inside b -> wp (asked rs) b (fun _ => inside).
Proof.
  induction rs as [|r rs IH]; intros b Hrs Hb; cbn [asked]; [by wp_steps|].
  inversion Hrs; subst. wp_step. wp_use getMemory_inside; [done..|]. intros _ b' (Hb' & _). by apply IH.
Qed.

End memory.

(** * Shared heaps (MemoryHeap.v) on concrete runs, and what they show *)

(** [allowed], computed. *)
Definition userb (a : Z) (w : World) : bool :=
  match heaps w !! a with Some _ => negb (referenced a w) | None => false end.
Definition allowedb (w : World) (e : Event) : bool :=
  match e with
  | NewHeap _ => true
  | Begin t a => match threads w !! t with None => userb a w | Some _ => false end
  | Ask t _ => match threads w !! t with Some (Found _ _) => true | _ => false end
  | Map t fd base => match threads w !! t with Some (Answered _ _ _) => true | _ => false end
      && match fd with Some fd => (0 <=? fd) && bool_decide (fd ∉ open_fds w) | None => true end
      && match base with Some base => match mappings w !! base with None => true | Some _ => false end | None => true end
  | End t fd => match threads w !! t with Some (Checked _ _) => true | _ => false end
      && match fd with Some fd => (0 <=? fd) && bool_decide (fd ∉ open_fds w) | None => true end
  | Destroy a => userb a w && bool_decide (map_Forall (fun _ th => client_of th <> a) (threads w))
  end.

Lemma userb_ok a w : userb a w = true -> user a w.
Proof. unfold userb, user. destruct (heaps w !! a); [|done]. intros H. split; [by eexists|]. by destruct (referenced a w). Qed.

Lemma fresh_fdb fd w :
  match fd with Some fd => (0 <=? fd) && bool_decide (fd ∉ open_fds w) | None => true end = true -> fresh_fd fd w.
Proof. destruct fd; cbn; [|done]. intros H. zb. split; [done|]. by eapply bool_decide_eq_true. Qed.

Lemma allowedb_ok w e : allowedb w e = true -> allowed w e.
Proof.
  destruct e as [b|t a|t answer|t fd base|t fd|a]; cbn [allowedb allowed]; [done| | | | |].
  - destruct (threads w !! t); [done|]. intros H. split; [done|by apply userb_ok].
  - destruct (threads w !! t) as [[]|]; try done. eauto.
  - intros [[Ht Hfd]%andb_prop Hb]%andb_prop. split; [|split; [by apply fresh_fdb|]].
    + destruct (threads w !! t) as [[]|]; try done. eauto.
    + destruct base as [base|]; [|done]. cbn. by destruct (mappings w !! base).
  - intros [Ht Hfd]%andb_prop. split; [|by apply fresh_fdb]. destruct (threads w !! t) as [[]|]; try done. eauto.
  - intros [Hu Hc]%andb_prop. split; [by apply userb_ok|]. apply bool_decide_eq_true in Hc. intros t th Ht. by apply (Hc t).
Qed.

Fixpoint runs (es : list Event) (w : World) : option World :=
  match es with
  | [] => Some w
  | e :: es => if allowedb w e then match run_event e w with Ret _ w' => runs es w' | _ => None end else None
  end.

Lemma runs_reachable es : forall w w', reachable w -> runs es w = Some w' -> reachable w'.
Proof.
  induction es as [|e es IH]; intros w w' Hr; cbn [runs]; [by intros [= <-]|].
  destruct (allowedb w e) eqn:E; [|done]. destruct (run_event e w) as [[] w1| |] eqn:Er; [|done..].
  apply IH. eapply reach_step; [done|by apply allowedb_ok|done].
Qed.

(** A read-only heap of a page. *)
Definition page : Answer := mkAnswer OK 4096 0 1.
Definition one_user : list Event :=
  [NewHeap 7; Begin 1 0; Ask 1 page; Map 1 (Some 10) (Some 65536); End 1 (Some 11)].

Example user_mapped : option_map (fun w => (heaps w !! 0, heaps w !! 1, mHeapCache w !! 7)) (runs one_user start) =
  Some (Some (mkBpMemoryHeap 7 11 (Some 65536) 4096 0 0 false), Some (mkBpMemoryHeap 7 10 (Some 65536) 4096 1 0 true),
        Some (mkHeapInfo 1 1)).
Proof. vm_compute. reflexivity. Qed.

(** With its only user everything goes. *)
Example all_goes : option_map (fun w => (map_to_list (heaps w), map_to_list (mHeapCache w), elements (open_fds w), map_to_list (mappings w)))
  (runs (one_user ++ [Destroy 0]) start) = Some ([], [], [], []).
Proof. vm_compute. reflexivity. Qed.

(** The flags are not copied: the user of a read-only heap reports that it is writable. *)
Example flags_are_lost :
  (let m := runs [NewHeap 7] start in
   match m with
   | Some w => match (let* f := getFlags 1 0 page (Some 10) (Some 65536) (Some 11) in
                      let* g := getFlags 1 1 page None None None in ret (f, g)) w with Ret x _ => Some x | _ => None end
   | None => None
   end) = Some (0, 1).
Proof. vm_compute. reflexivity. Qed.

(** Two threads that use a new proxy at the same time count it twice; it is freed once. *)
Definition two_threads : list Event :=
  [NewHeap 7; Begin 1 0; Begin 2 0; Ask 1 page; Ask 2 page; Map 1 (Some 10) (Some 65536); Map 2 (Some 12) None;
   End 1 (Some 11); End 2 None; Destroy 0].
Example heap_leaks : option_map (fun w => (map_to_list (mHeapCache w), elements (open_fds w), map_to_list (mappings w)))
  (runs two_threads start) = Some ([(7, mkHeapInfo 1 1)], [10], [(65536, 4096)]).
Proof. vm_compute. reflexivity. Qed.



Example piece_too_large : match (BpMemory.unsecurePointer (fun _ => Some 65536) (BpMemory.mkReply OK (Some 3) 97 4000 4096)) BpMemory.new_memory with
  | Ret p b => (p, b) = (None, BpMemory.mkBpMemory (Some 3) 0 0) | _ => False end.
Proof. vm_compute. reflexivity. Qed.
