(* ===== verification/RpcNodes.v ===== *)
(** The state of an RPC session: src/libs/binder/RpcState.cpp and RpcState.h,
    with the wire structures of RpcWireFormat.h.

    A session keeps a node per binder both sides know, by wire address, with the
    number of times the binder was sent and received: each is one reference the
    receiver holds until it sends a dec-strong for it.  The operations act on
    that table and on the binder objects of the process ([promote] of a weak
    reference succeeds for the objects that exist).  [transport] gives the
    outcome of each write on the session, [connection] that of finding a
    connection for a dec-strong (RpcSession.cpp). *)

From S2P Require Import Prelude Errors ParcelState ParcelObject Stability.

(** * The wire *)

Definition RPC_WIRE_ADDRESS_OPTION_CREATED : Z := 1.
Definition RPC_WIRE_ADDRESS_OPTION_FOR_SERVER : Z := 2.

Record RpcWireAddress := mkRpcWireAddress { options : Z; address : Z }.

(** The two 32-bit words as one 64-bit one (little endian). *)
Definition fromRaw (raw : Z) : RpcWireAddress :=
  mkRpcWireAddress (u32 raw) (raw / 4294967296).
Definition toRaw (addr : RpcWireAddress) : Z := options addr + 4294967296 * address addr.

Definition RPC_COMMAND_TRANSACT : Z := 0.
Definition RPC_COMMAND_REPLY : Z := 1.
Definition RPC_COMMAND_DEC_STRONG : Z := 2.

Record RpcWireHeader := mkRpcWireHeader { command : Z; bodySize : Z }.
Record RpcDecStrong := mkRpcDecStrong { ds_address : RpcWireAddress; ds_amount : Z }.
Record RpcWireTransaction := mkRpcWireTransaction {
  tx_address : RpcWireAddress;
  tx_code : Z;
  tx_flags : Z;
  tx_asyncNumber : Z;
}.

Definition sizeof_header : Z := 16.
Definition sizeof_dec_strong : Z := 16.
Definition sizeof_transaction : Z := 40.

Definition wire_address_bytes (a : RpcWireAddress) : bytes :=
  le_bytes 4 (options a) ++ le_bytes 4 (address a).
Definition header_bytes (h : RpcWireHeader) : bytes :=
  le_bytes 4 (command h) ++ le_bytes 4 (bodySize h) ++ zeros 8.
Definition dec_strong_bytes (d : RpcDecStrong) : bytes :=
  wire_address_bytes (ds_address d) ++ le_bytes 4 (ds_amount d) ++ zeros 4.
Definition transaction_bytes (t : RpcWireTransaction) : bytes :=
  wire_address_bytes (tx_address t) ++ le_bytes 4 (tx_code t) ++ le_bytes 4 (tx_flags t) ++
  le_bytes 8 (tx_asyncNumber t) ++ zeros 16.

(** The casts of received bytes; [word n off bs] is the [n]-byte word at [off]. *)
Definition word (n off : Z) (bs : bytes) : Z := le_val (ztake n (zdrop off bs)).
Definition wire_address_of (bs : bytes) : RpcWireAddress :=
  mkRpcWireAddress (word 4 0 bs) (word 4 4 bs).
Definition header_of (bs : bytes) : RpcWireHeader :=
  mkRpcWireHeader (word 4 0 bs) (word 4 4 bs).
Definition dec_strong_of (bs : bytes) : RpcDecStrong :=
  mkRpcDecStrong (wire_address_of bs) (word 4 8 bs).
Definition transaction_of (bs : bytes) : RpcWireTransaction :=
  mkRpcWireTransaction (wire_address_of bs) (word 4 8 bs) (word 4 12 bs) (word 8 16 bs).

(** * State *)

Record RS := mkRS { state : RpcState; objects : gmap Z IBinder }.

Definition set_nodes (x : gmap Z BinderNode) (s : RpcState) : RpcState :=
  mkRpcState (mTerminated s) (mNextId s) x (server s) (rpc_sent s) (rpc_obituaries s).
Definition set_next_id (x : Z) (s : RpcState) : RpcState :=
  mkRpcState (mTerminated s) x (mNodeForAddress s) (server s) (rpc_sent s) (rpc_obituaries s).
Definition set_terminated (x : bool) (s : RpcState) : RpcState :=
  mkRpcState x (mNextId s) (mNodeForAddress s) (server s) (rpc_sent s) (rpc_obituaries s).
Definition set_sent (x : list bytes) (s : RpcState) : RpcState :=
  mkRpcState (mTerminated s) (mNextId s) (mNodeForAddress s) (server s) x (rpc_obituaries s).
Definition set_obituaries (x : list Z) (s : RpcState) : RpcState :=
  mkRpcState (mTerminated s) (mNextId s) (mNodeForAddress s) (server s) (rpc_sent s) x.

Definition n_set_counts (snt : option Z) (ts tr : Z) (n : BinderNode) : BinderNode :=
  mkBinderNode (binder n) snt ts tr (asyncNumber n) (asyncTodo n).
Definition n_set_async (x : Z) (n : BinderNode) : BinderNode :=
  mkBinderNode (binder n) (sentRef n) (timesSent n) (timesRecd n) x (asyncTodo n).

Abbreviation mods f := (modify (fun s => mkRS (f (state s)) (objects s))).
Abbreviation getn f := (gets (fun s => f (state s))).
Definition put_node (addr : Z) (n : BinderNode) : M RS unit :=
  mods (fun st => set_nodes (<[addr := n]> (mNodeForAddress st)) st).

(** [wp<IBinder>::promote]. *)
Definition promote (a : Z) : M RS (option Z) :=
  gets (fun s => match objects s !! a with Some _ => Some a | None => None end).

Definition is_remote (o : IBinder) : bool := negb (is_local o).
Definition rpc_handle (o : IBinder) : option (Z * Z) :=
  match b_kind o with RpcProxy session address => Some (session, address) | _ => None end.

(** [BpBinder::create(session, address)]: a new proxy object. *)
Definition create_proxy (session addr : Z) : M RS Z :=
  let* os := gets objects in
  let a := fresh (dom os) in
  modify (fun s => mkRS (state s)
    (<[a := mkIBinder (RpcProxy session addr) UNDECLARED 0 0 false false false 0]> (objects s))) ;;
  ret a.

Section RpcState.
Context (transport : nat -> status_t) (connection : status_t) (session : Z).

(** * Shutting down *)

Definition sendObituaries : M RS status_t :=
  let* s := get in
  let remoteBinders := omap (fun '(_, n) =>
      match objects s !! binder n with
      | Some o => match rpc_handle o with
                  | Some (sess, _) => if sess =? session then Some (binder n) else None
                  | None => None
                  end
      | None => None
      end) (map_to_list (mNodeForAddress (state s))) in
  mods (fun st => set_obituaries (rpc_obituaries st ++ remoteBinders) st) ;;
  ret OK.

Definition clear_state : M RS unit :=
  let* s := get in
  if mTerminated (state s) then fatal_if (negb (bool_decide (mNodeForAddress (state s) = ∅)))
  else
    mods (set_terminated true) ;;
    fatal_if (existsb (fun '(_, n) => bool_decide (objects s !! binder n = None))
                (map_to_list (mNodeForAddress (state s)))) ;;
    mods (set_nodes ∅).

(** [RpcSession::shutdownAndWait(false)]. *)
Definition shutdown : M RS unit := sendObituaries ;; clear_state.

(** Once the session is shut down its trigger is set and nothing is written. *)
Definition rpcSend (iovs : list bytes) : M RS status_t :=
  let* st := gets state in
  let status := if mTerminated st then DEAD_OBJECT else transport (length (rpc_sent st)) in
  if status =? OK then
    mods (fun st => set_sent (rpc_sent st ++ [concat iovs]) st) ;; ret OK
  else shutdown ;; ret status.

(** * Nodes *)

(** The first node of the table, in address order, for the binder [a]. *)
Definition find_node (a : Z) (nodes : gmap Z BinderNode) : option (Z * BinderNode) :=
  foldr (fun '(addr, n) best =>
      if binder n =? a then
        match best with
        | Some (addr', _) => if addr <? addr' then Some (addr, n) else best
        | None => Some (addr, n)
        end
      else best) None (map_to_list nodes).

Definition new_address (forServer : bool) (id : Z) : Z :=
  toRaw (mkRpcWireAddress
    (if forServer
     then Z.lor RPC_WIRE_ADDRESS_OPTION_CREATED RPC_WIRE_ADDRESS_OPTION_FOR_SERVER
     else RPC_WIRE_ADDRESS_OPTION_CREATED) id).

(** The [while (true)] of [onBinderLeaving]. *)
Fixpoint insert_fresh (fuel : nat) (forServer : bool) (a : Z) : M RS (res Z) :=
  match fuel with
  | O => fault
  | S fuel' =>
      let* st := gets state in
      let addr := new_address forServer (mNextId st) in
      mods (fun st => set_next_id (if 4294967295 <=? mNextId st then 0 else mNextId st + 1) st) ;;
      match mNodeForAddress st !! addr with
      | None => put_node addr (mkBinderNode a (Some a) 1 0 0 []) ;; ret (Good addr)
      | Some _ => insert_fresh fuel' forServer a
      end
  end.

Definition onBinderLeaving (a : Z) : M RS (res Z) :=
  let* o := let* os := gets objects in require (os !! a) in
  let isRemote := is_remote o in
  let isRpc := match rpc_handle o with Some _ => true | None => false end in
  if match rpc_handle o with Some (sess, _) => negb (sess =? session) | None => false end
  then ret (Err INVALID_OPERATION) else
  if isRemote && negb isRpc then ret (Err INVALID_OPERATION) else
  let* st := gets state in
  if mTerminated st then ret (Err DEAD_OBJECT) else
  match find_node a (mNodeForAddress st) with
  | Some (addr, n) =>
      fatal_if (match rpc_handle o with
                | Some (_, actualAddr) => negb (addr =? actualAddr)
                | None => false
                end) ;;
      put_node addr (n_set_counts (Some a) (u64 (timesSent n + 1)) (timesRecd n) n) ;;
      ret (Good addr)
  | None =>
      fatal_if isRpc ;;
      if 100000 <? Z.of_nat (base.size (mNodeForAddress st)) then ret (Err NO_MEMORY) else
      insert_fresh (S (base.size (mNodeForAddress st))) (server st) a
  end.

Definition kKnownOptions : Z :=
  Z.lor RPC_WIRE_ADDRESS_OPTION_CREATED RPC_WIRE_ADDRESS_OPTION_FOR_SERVER.

Definition onBinderEntering (address : Z) : M RS (res (option Z)) :=
  let addr := fromRaw address in
  if negb (Z.land (options addr) (Z.lxor kKnownOptions 4294967295) =? 0)
  then ret (Err BAD_VALUE) else
  let* st := gets state in
  if mTerminated st then ret (Err DEAD_OBJECT) else
  match mNodeForAddress st !! address with
  | Some n =>
      let* out := promote (binder n) in
      put_node address (n_set_counts (sentRef n) (timesSent n) (u64 (timesRecd n + 1)) n) ;;
      ret (Good out)
  | None =>
      if Z.land (options addr) RPC_WIRE_ADDRESS_OPTION_FOR_SERVER =? Z.b2z (server st)
      then ret (Err BAD_VALUE) else
      let* out := create_proxy session address in
      put_node address (mkBinderNode out None 0 1 0 []) ;;
      ret (Good (Some out))
  end.

(** [tryEraseNode] on the node at [addr]; the result is the strong reference
    the node held. *)
Definition tryEraseNode (addr : Z) : M RS (option Z) :=
  let* st := gets state in
  let* n := require (mNodeForAddress st !! addr) in
  if timesSent n =? 0 then
    (if timesRecd n =? 0 then
       fatal_if (negb (bool_decide (asyncTodo n = []))) ;;
       mods (fun st => set_nodes (delete addr (mNodeForAddress st)) st)
     else put_node addr (n_set_counts None (timesSent n) (timesRecd n) n)) ;;
    ret (sentRef n)
  else ret None.

Definition sendDecStrongToTarget (addr target : Z) : M RS status_t :=
  let* st := gets state in
  if mTerminated st then ret DEAD_OBJECT else
  match mNodeForAddress st !! addr with
  | None => fatal
  | Some n =>
      fatal_if (timesRecd n <? target) ;;
      if timesRecd n =? target then ret OK else
      let amount := u32 (timesRecd n - target) in
      put_node addr (n_set_counts (sentRef n) (timesSent n) target n) ;;
      let* held := tryEraseNode addr in
      fatal_if (match held with Some _ => true | None => false end) ;;
      rpcSend [header_bytes (mkRpcWireHeader RPC_COMMAND_DEC_STRONG sizeof_dec_strong);
               dec_strong_bytes (mkRpcDecStrong (fromRaw addr) amount)]
  end.

(** [RpcSession::sendDecStrongToTarget]. *)
Definition session_sendDecStrongToTarget (addr target : Z) : M RS status_t :=
  if connection =? OK then sendDecStrongToTarget addr target else ret connection.

Definition flushExcessBinderRefs (address : Z) (b : option Z) : M RS status_t :=
  let* o := let* os := gets objects in
            let* a := require b in require (os !! a) in
  if is_remote o then ret OK else
  let* st := gets state in
  if mTerminated st then ret DEAD_OBJECT else
  match mNodeForAddress st !! address with
  | None => fatal
  | Some n =>
      fatal_if (negb (bool_decide (Some (binder n) = b))) ;;
      fatal_if (timesSent n <=? 0) ;;
      if timesRecd n =? 0 then ret OK else session_sendDecStrongToTarget address 0
  end.

Definition countBinders (st : RpcState) : Z := Z.of_nat (base.size (mNodeForAddress st)).

(** * Commands *)

Definition kMaxTransactionAllocation : Z := 100000.

(** Whether the buffer of a command of this size can be had, when the
    allocation itself succeeds. *)
Definition CommandData_valid (size : Z) : bool :=
  (size =? 0) || (size <=? kMaxTransactionAllocation).

(** [processDecStrong] on the body [body] that was received for [command]. *)
Definition processDecStrong (cmd : RpcWireHeader) (body : bytes) : M RS status_t :=
  fatal_if (negb (command cmd =? RPC_COMMAND_DEC_STRONG)) ;;
  if negb (CommandData_valid (bodySize cmd)) then ret NO_MEMORY else
  if negb (bodySize cmd =? sizeof_dec_strong) then shutdown ;; ret BAD_VALUE else
  let d := dec_strong_of body in
  let addr := toRaw (ds_address d) in
  let* st := gets state in
  match mNodeForAddress st !! addr with
  | None => ret OK
  | Some n =>
      let* target := promote (binder n) in
      match target with
      | None => shutdown ;; ret BAD_VALUE
      | Some _ =>
          if timesSent n <? ds_amount d then ret OK else
          fatal_if (match sentRef n with None => true | Some _ => false end) ;;
          put_node addr (n_set_counts (sentRef n) (timesSent n - ds_amount d) (timesRecd n) n) ;;
          tryEraseNode addr ;;
          ret OK
      end
  end.

(** [nodeProgressAsyncNumber]: [None] when the numbers have run out. *)
Definition nodeProgressAsyncNumber (n : BinderNode) : option BinderNode :=
  if 18446744073709551615 <=? asyncNumber n then None
  else Some (n_set_async (asyncNumber n + 1) n).
End RpcState.

(** * The interface of the Parcel code *)

(** An operation of the session [session] in the world of a parcel. *)
Definition on_session {A} (session : Z) (m : M RS A) : M PS A :=
  fun s => match w_rpc (world s) !! session with
           | None => Fault
           | Some st =>
               match m (mkRS st (w_binders (world s))) with
               | Ret a r => Ret a (mkPS (this s)
                   (set_w_binders (objects r) (set_w_rpc (<[session := state r]> (w_rpc (world s))) (world s))))
               | Fatal => Fatal
               | Fault => Fault
               end
           end.

#[export] Instance rpc_nodes (transport : nat -> status_t) (connection : status_t) :
    RpcBinders := {
  ParcelObject.onBinderLeaving session a := on_session session (onBinderLeaving session a);
  ParcelObject.onBinderEntering session address :=
    on_session session (onBinderEntering session address);
  ParcelObject.flushExcessBinderRefs session address b :=
    on_session session (flushExcessBinderRefs transport connection session address b);
}.
