(* ===== verification/RpcNodesProps.v ===== *)
(** Correctness of the RPC session state: wire round trips, fresh addresses, and
    the reference-counting protocol between the two ends of a session. *)

From S2P Require Import Prelude Errors ParcelState Stability ParcelObject ParcelWriteSpec RpcNodes.

(** * The wire structures *)

Lemma toRaw_fromRaw raw : toRaw (fromRaw raw) = raw.
Proof.
  unfold toRaw, fromRaw, u32. simpl. pose proof (Z.div_mod raw 4294967296 ltac:(lia)). lia.
Qed.

Lemma word_skip n off bs1 bs2 :
  zlen bs1 <= off -> word n off (bs1 ++ bs2) = word n (off - zlen bs1) bs2.
Proof.
  intros. unfold word, zdrop. do 2 f_equal. rewrite drop_app_ge by (unfold zlen in *; lia).
  f_equal. unfold zlen. lia.
Qed.

Lemma word_head n bs1 bs2 : n = zlen bs1 -> word n 0 (bs1 ++ bs2) = le_val bs1.
Proof. intros ->. unfold word. by rewrite zdrop_0, ztake_app_exact. Qed.

(** Pick a word out of a concatenation of words. *)
Ltac pick_word :=
  repeat (rewrite word_skip by (rewrite zlen_le_bytes; lia); rewrite zlen_le_bytes; simpl Z.sub);
  rewrite word_head by (by rewrite zlen_le_bytes);
  first [rewrite le_val_4, u32_small by done | rewrite le_val_8, u64_small by done]; done.

Definition wire_address_ok (a : RpcWireAddress) : Prop :=
  is_u32 (options a) /\ is_u32 (address a).

Lemma fromRaw_ok raw : is_u64 raw -> wire_address_ok (fromRaw raw).
Proof.
  unfold is_u64, wire_address_ok, is_u32, fromRaw, u32. simpl. intros.
  pose proof (Z.div_mod raw 4294967296 ltac:(lia)).
  pose proof (Z.mod_pos_bound raw 4294967296 ltac:(lia)). lia.
Qed.

Definition header_ok (h : RpcWireHeader) : Prop := is_u32 (command h) /\ is_u32 (bodySize h).
Definition dec_strong_ok (d : RpcDecStrong) : Prop :=
  wire_address_ok (ds_address d) /\ is_u32 (ds_amount d).
Definition transaction_ok (t : RpcWireTransaction) : Prop :=
  wire_address_ok (tx_address t) /\ is_u32 (tx_code t) /\ is_u32 (tx_flags t) /\
  is_u64 (tx_asyncNumber t).

Lemma header_round_trip h rest : header_ok h -> header_of (header_bytes h ++ rest) = h.
Proof.
  destruct h as [c b]. intros [Hc Hb]. unfold header_of, header_bytes.
  cbn [command bodySize ds_address ds_amount tx_address tx_code tx_flags tx_asyncNumber options address] in *.
  rewrite <- !app_assoc. f_equal; pick_word.
Qed.

Lemma dec_strong_round_trip d rest : dec_strong_ok d -> dec_strong_of (dec_strong_bytes d ++ rest) = d.
Proof.
  destruct d as [[o a] m]. intros [[Ho Ha] Hm].
  unfold dec_strong_of, dec_strong_bytes, wire_address_of, wire_address_bytes.
  cbn [command bodySize ds_address ds_amount tx_address tx_code tx_flags tx_asyncNumber options address] in *.
  rewrite <- !app_assoc. f_equal; [f_equal|]; pick_word.
Qed.

Lemma transaction_round_trip t rest :
  transaction_ok t -> transaction_of (transaction_bytes t ++ rest) = t.
Proof.
  destruct t as [[o a] c f n]. intros ([Ho Ha] & Hc & Hf & Hn).
  unfold transaction_of, transaction_bytes, wire_address_of, wire_address_bytes.
  cbn [command bodySize ds_address ds_amount tx_address tx_code tx_flags tx_asyncNumber options address] in *.
  rewrite <- !app_assoc. f_equal; [f_equal|..]; pick_word.
Qed.

Lemma zlen_header h : zlen (header_bytes h) = sizeof_header.
Proof. unfold header_bytes. by rewrite !zlen_app, !zlen_le_bytes, zlen_zeros by lia. Qed.

(** * Effects of the operations *)

(** How often the binder at an address was sent and received. *)
Definition sent (r : RS) (addr : Z) : Z := default 0 (timesSent <$> mNodeForAddress (state r) !! addr).
Definition recd (r : RS) (addr : Z) : Z := default 0 (timesRecd <$> mNodeForAddress (state r) !! addr).

(** A node: the reference of the table is held exactly while the binder is
    sent, and keeps the object alive. *)
Record node_ok (r : RS) (addr : Z) (n : BinderNode) : Prop := {
  nd_addr : is_u64 addr;
  nd_sent : is_u64 (timesSent n);
  nd_recd : is_u64 (timesRecd n);
  nd_held : sentRef n = None <-> timesSent n = 0;
  nd_live : sentRef n <> None -> is_Some (objects r !! binder n);
  nd_idle : asyncTodo n = [];
}.

Record state_ok (r : RS) : Prop := {
  so_nodes : forall addr n, mNodeForAddress (state r) !! addr = Some n -> node_ok r addr n;
  so_next : is_u32 (mNextId (state r));
}.

(** Use an equation between two returned results. *)
Ltac ret_eq H :=
  let E := fresh "Er" in
  apply ret_inj in H as [E <-];
  match type of E with
  | ?x = ?y => first [is_var y; subst y | is_var x; subst x | idtac]
  end.

(** Invert a run of the code that returned. *)
Ltac run :=
  repeat match goal with
  | H : bind _ _ _ = Ret _ _ |- _ =>
      let a := fresh "v" in let r := fresh "r" in let E := fresh "E" in
      apply bind_ret_inv in H as (a & r & E & H)
  | H : gets _ _ = Ret _ _ |- _ => unfold gets in H; ret_eq H
  | H : get _ = Ret _ _ |- _ => unfold get in H; ret_eq H
  | H : modify _ _ = Ret _ _ |- _ => unfold modify in H; ret_eq H
  | H : put_node _ _ _ = Ret _ _ |- _ => unfold put_node, modify in H; ret_eq H
  | H : promote _ _ = Ret _ _ |- _ => unfold promote, gets in H; ret_eq H
  | H : fatal_if ?b _ = Ret _ _ |- _ =>
      let E := fresh "Ef" in destruct b eqn:E; [discriminate H|unfold fatal_if, ret in H; ret_eq H]
  | H : require ?o _ = Ret _ _ |- _ =>
      let E := fresh "Eo" in destruct o eqn:E; [unfold require, ret in H; ret_eq H|discriminate H]
  | H : ret _ _ = Ret _ _ |- _ => unfold ret in H; ret_eq H
  | H : fatal _ = Ret _ _ |- _ => discriminate H
  | H : fault _ = Ret _ _ |- _ => discriminate H
  end; cbn [state objects mNodeForAddress set_nodes set_next_id set_sent] in *.

Lemma find_node_ok a nodes :
  match find_node a nodes with
  | Some (addr, n) => nodes !! addr = Some n /\ binder n = a
  | None => forall addr n, nodes !! addr = Some n -> binder n <> a
  end.
Proof.
  unfold find_node.
  assert (H : match foldr (fun '(addr, n) best =>
      if binder n =? a then
        match best with
        | Some (addr', _) => if addr <? addr' then Some (addr, n) else best
        | None => Some (addr, n)
        end
      else best) None (map_to_list nodes) with
    | Some (addr, n) => (addr, n) ∈ map_to_list nodes /\ binder n = a
    | None => forall addr n, (addr, n) ∈ map_to_list nodes -> binder n <> a
    end).
  { induction (map_to_list nodes) as [|[addr n] l IH]; simpl; [by intros ? ? ?%not_elem_of_nil|].
    zcase (binder n =? a).
    - destruct (foldr _ _ l) as [[addr' n']|]; [|split; [by left|done]].
      destruct (addr <? addr'); (split; [|apply IH || done]); [by left|right; apply IH].
    - destruct (foldr _ _ l) as [[addr' n']|]; [by split; [right|]; apply IH|].
      intros addr' n' [[= -> ->]|?]%elem_of_cons; [done|by eapply IH]. }
  destruct (foldr _ _ _) as [[addr n]|].
  - by rewrite <- elem_of_map_to_list.
  - intros addr n Hn. apply (H addr). by apply elem_of_map_to_list.
Qed.

Section Update.
Context (r r' : RS) (addr : Z).

Lemma counts_insert n :
  mNodeForAddress (state r') = <[addr := n]> (mNodeForAddress (state r)) ->
  (forall k, sent r' k = if k =? addr then timesSent n else sent r k) /\
  (forall k, recd r' k = if k =? addr then timesRecd n else recd r k).
Proof.
  intros E. unfold sent, recd. rewrite E.
  split; intros k; (zcase (k =? addr); [subst; by rewrite lookup_insert_eq|
    by rewrite lookup_insert_ne by congruence]).
Qed.

Lemma counts_delete :
  mNodeForAddress (state r') = delete addr (mNodeForAddress (state r)) ->
  (forall k, sent r' k = if k =? addr then 0 else sent r k) /\
  (forall k, recd r' k = if k =? addr then 0 else recd r k).
Proof.
  intros E. unfold sent, recd. rewrite E.
  split; intros k; (zcase (k =? addr); [subst; by rewrite lookup_delete_eq|
    by rewrite lookup_delete_ne by congruence]).
Qed.

Lemma node_ok_objects k n :
  (forall x, is_Some (objects r !! x) -> is_Some (objects r' !! x)) ->
  node_ok r k n -> node_ok r' k n.
Proof. intros Ho []. by split; auto. Qed.

Lemma state_ok_insert n :
  state_ok r -> mNodeForAddress (state r') = <[addr := n]> (mNodeForAddress (state r)) ->
  (forall x, is_Some (objects r !! x) -> is_Some (objects r' !! x)) ->
  is_u32 (mNextId (state r')) -> node_ok r' addr n -> state_ok r'.
Proof.
  intros [Hn _] E Ho Hid Hnew. split; [|done]. intros k m Hk. rewrite E in Hk.
  destruct (decide (k = addr)) as [->|].
  - rewrite lookup_insert_eq in Hk. by injection Hk as <-.
  - rewrite lookup_insert_ne in Hk by congruence. apply node_ok_objects; auto.
Qed.

Lemma state_ok_delete :
  state_ok r -> mNodeForAddress (state r') = delete addr (mNodeForAddress (state r)) ->
  objects r' = objects r -> mNextId (state r') = mNextId (state r) -> state_ok r'.
Proof.
  intros [Hn Hid] E Ho Hid'. split; [|by rewrite Hid']. intros k m Hk. rewrite E in Hk.
  apply lookup_delete_Some in Hk as [_ Hk]. apply node_ok_objects; [by rewrite Ho|auto].
Qed.
End Update.

Lemma new_address_u64 b id : is_u32 id -> is_u64 (new_address b id).
Proof.
  unfold is_u32, is_u64, new_address, toRaw. cbn [options address].
  assert (1 <= (if b then Z.lor RPC_WIRE_ADDRESS_OPTION_CREATED RPC_WIRE_ADDRESS_OPTION_FOR_SERVER
          else RPC_WIRE_ADDRESS_OPTION_CREATED) <= 3) by by destruct b. lia.
Qed.

Lemma insert_fresh_run fuel b a r v r' :
  is_u32 (mNextId (state r)) -> insert_fresh fuel b a r = Ret v r' ->
  exists addr, v = Good addr /\ (exists id, is_u32 id /\ addr = new_address b id) /\
    mNodeForAddress (state r) !! addr = None /\ objects r' = objects r /\
    mNodeForAddress (state r') = <[addr := mkBinderNode a (Some a) 1 0 0 []]> (mNodeForAddress (state r)) /\
    is_u32 (mNextId (state r')) /\ rpc_sent (state r') = rpc_sent (state r).
Proof.
  revert r. induction fuel as [|fuel IH]; intros r Hid H; [done|]. cbn [insert_fresh] in H. run.
  assert (Hid' : is_u32 (if 4294967295 <=? mNextId (state r) then 0 else mNextId (state r) + 1)).
  { unfold is_u32 in *. zcase (4294967295 <=? mNextId (state r)); lia. }
  destruct (mNodeForAddress (state r) !! new_address b (mNextId (state r))) eqn:E.
  - apply IH in H; simpl in *; auto.
  - run. exists (new_address b (mNextId (state r))). split_and!; eauto.
Qed.

Lemma leaving_run session a r v r' :
  state_ok r -> onBinderLeaving session a r = Ret v r' ->
  objects r' = objects r /\ rpc_sent (state r') = rpc_sent (state r) /\
  match v with
  | Err _ => r' = r
  | Good addr => sent r addr + 1 < 18446744073709551616 -> state_ok r' /\
      (forall k, sent r' k = sent r k + Z.b2z (k =? addr)) /\ (forall k, recd r' k = recd r k)
  end.
Proof.
  intros OK H. unfold onBinderLeaving in H. run. rename i into o.
  destruct (match rpc_handle o with Some (sess, _) => _ | None => _ end); [by run|].
  destruct (_ && _); [by run|]. run. destruct (mTerminated (state r)); [by run|].
  pose proof (find_node_ok a (mNodeForAddress (state r))) as Hf.
  destruct (find_node a _) as [[addr n]|].
  - run. destruct Hf as [Hn Ha]. split_and!; [done|done|]. intros Hov.
    assert (Es : sent r addr = timesSent n) by (unfold sent; by rewrite Hn).
    assert (Er : recd r addr = timesRecd n) by (unfold recd; by rewrite Hn).
    pose proof (so_nodes _ OK _ _ Hn) as [? Hs ? ? ? ?]. unfold is_u64 in Hs.
    rewrite u64_small by lia.
    destruct (counts_insert r (mkRS (set_nodes (<[addr := n_set_counts (Some a) (timesSent n + 1) (timesRecd n) n]> (mNodeForAddress (state r))) (state r)) (objects r)) addr _ eq_refl) as [Cs Cr].
    split_and!.
    + eapply state_ok_insert; [exact OK|reflexivity|done|apply OK|].
      split; simpl; auto; [unfold is_u64; lia|split; [done|lia]|]. intros _. by rewrite Ha, Eo.
    + intros k. rewrite Cs. simpl. zcase (k =? addr); subst; simpl; lia.
    + intros k. rewrite Cr. simpl. zcase (k =? addr); subst; simpl; lia.
  - run. destruct (100000 <? _); [by run|].
    apply insert_fresh_run in H as (addr & -> & (id & Hid & ->) & Hnone & Ho & En & Hid' & Hs); [|apply OK].
    split_and!; [done|done|]. intros _.
    destruct (counts_insert r r' _ _ En) as [Cs Cr].
    assert (Es : sent r (new_address (server (state r)) id) = 0) by (unfold sent; by rewrite Hnone).
    assert (Er : recd r (new_address (server (state r)) id) = 0) by (unfold recd; by rewrite Hnone).
    split_and!.
    + eapply state_ok_insert; [exact OK|exact En|by rewrite Ho|done|].
      split; simpl; try done; [by apply new_address_u64|]. intros _. by rewrite Ho, Eo.
    + intros k. rewrite Cs. simpl. zcase (k =? new_address (server (state r)) id); subst; simpl; lia.
    + intros k. rewrite Cr. simpl. zcase (k =? new_address (server (state r)) id); subst; simpl; lia.
Qed.

Lemma entering_run session addr r v r' :
  state_ok r -> is_u64 addr -> onBinderEntering session addr r = Ret v r' ->
  rpc_sent (state r') = rpc_sent (state r) /\
  (forall x, is_Some (objects r !! x) -> is_Some (objects r' !! x)) /\
  match v with
  | Err _ => r' = r
  | Good _ => recd r addr + 1 < 18446744073709551616 -> state_ok r' /\
      (forall k, recd r' k = recd r k + Z.b2z (k =? addr)) /\ (forall k, sent r' k = sent r k)
  end.
Proof.
  intros OK Haddr H. unfold onBinderEntering in H. cbv zeta in H.
  destruct (negb (Z.land _ _ =? 0)); [by run|]. run. destruct (mTerminated (state r)); [by run|].
  destruct (mNodeForAddress (state r) !! addr) as [n|] eqn:Hn.
  - run. split_and!; [done|done|]. intros Hov.
    assert (Es : sent r addr = timesSent n) by (unfold sent; by rewrite Hn).
    assert (Er : recd r addr = timesRecd n) by (unfold recd; by rewrite Hn).
    pose proof (so_nodes _ OK _ _ Hn) as [? ? Hr ? ? ?]. unfold is_u64 in Hr.
    rewrite u64_small by lia.
    match goal with |- state_ok ?x /\ _ => destruct (counts_insert r x addr _ eq_refl) as [Cs Cr] end.
    split_and!.
    + eapply state_ok_insert; [exact OK|reflexivity|done|apply OK|].
      split; simpl; auto. unfold is_u64; lia.
    + intros k. rewrite Cr. simpl. zcase (k =? addr); subst; simpl; lia.
    + intros k. rewrite Cs. simpl. zcase (k =? addr); subst; simpl; lia.
  - destruct (Z.land _ _ =? _); [by run|]. unfold create_proxy in H. run.
    assert (Ho : forall x o', is_Some (objects r !! x) ->
       is_Some ((<[fresh (dom (objects r)) := o']> (objects r)) !! x)).
    { intros x o' Hx. rewrite lookup_insert_is_Some'. auto. }
    split_and!; [done|auto|]. intros _.
    assert (Es : sent r addr = 0) by (unfold sent; by rewrite Hn).
    assert (Er : recd r addr = 0) by (unfold recd; by rewrite Hn).
    match goal with |- state_ok ?x /\ _ => destruct (counts_insert r x addr _ eq_refl) as [Cs Cr] end.
    split_and!.
    + eapply state_ok_insert; [exact OK|reflexivity|simpl; auto|apply OK|].
      by split; simpl.
    + intros k. rewrite Cr. simpl. zcase (k =? addr); subst; simpl; lia.
    + intros k. rewrite Cs. simpl. zcase (k =? addr); subst; simpl; lia.
Qed.

(** Lowering the counts of a node and erasing it when nothing is left. *)
Lemma erase_run addr n n' r v r' :
  state_ok r -> mNodeForAddress (state r) !! addr = Some n ->
  n' = n_set_counts (sentRef n) (timesSent n') (timesRecd n') n ->
  is_u64 (timesSent n') -> is_u64 (timesRecd n') ->
  (sentRef n = None -> timesSent n' = 0) ->
  tryEraseNode addr (mkRS (set_nodes (<[addr := n']> (mNodeForAddress (state r))) (state r)) (objects r))
    = Ret v r' ->
  v = (if timesSent n' =? 0 then sentRef n else None) /\
  state_ok r' /\ objects r' = objects r /\ rpc_sent (state r') = rpc_sent (state r) /\
  (forall k, sent r' k = if k =? addr then timesSent n' else sent r k) /\
  (forall k, recd r' k = if k =? addr then timesRecd n' else recd r k).
Proof.
  intros OK Hn En' Hs Hr Hnone H. unfold tryEraseNode in H. run.
  rewrite lookup_insert_eq in Eo. injection Eo as <-.
  pose proof (so_nodes _ OK _ _ Hn) as [Ha ? ? Hheld Hlive Hidle].
  assert (Esr : sentRef n' = sentRef n) by (rewrite En'; done).
  zcase (timesSent n' =? 0).
  - run. zcase (timesRecd n' =? 0); run.
    + rewrite Esr. split; [done|]. rewrite delete_insert_eq.
      match goal with |- state_ok ?x /\ _ =>
        destruct (counts_delete r x addr eq_refl) as [Cs Cr] end.
      split_and!; [by eapply state_ok_delete|done|done|..]; intros k.
      * rewrite Cs. zcase (k =? addr); lia.
      * rewrite Cr. zcase (k =? addr); lia.
    + rewrite Esr. split; [done|]. rewrite insert_insert_eq.
      match goal with |- state_ok ?x /\ _ =>
        destruct (counts_insert r x addr _ eq_refl) as [Cs Cr] end.
      split_and!; [|done|done|done|done].
      eapply state_ok_insert; [exact OK|reflexivity|done|apply OK|].
      rewrite En'. by split; simpl.
  - run. split; [done|].
    match goal with |- state_ok ?x /\ _ =>
      destruct (counts_insert r x addr _ eq_refl) as [Cs Cr] end.
    split_and!; [|done|done|done|done].
    eapply state_ok_insert; [exact OK|reflexivity|done|apply OK|].
    rewrite En' in *. split; simpl in *; auto.
    split; [auto|lia].
Qed.

(** The bytes of a dec-strong command. *)
Definition dec_message (addr amount : Z) : bytes :=
  header_bytes (mkRpcWireHeader RPC_COMMAND_DEC_STRONG sizeof_dec_strong) ++
  dec_strong_bytes (mkRpcDecStrong (fromRaw addr) amount).

Lemma concat_pair (x y : bytes) : concat [x; y] = x ++ y.
Proof. simpl. by rewrite app_nil_r. Qed.

Lemma send_dec_run transport session addr target r r' :
  state_ok r -> 0 <= target -> recd r addr - target < 4294967296 ->
  sendDecStrongToTarget transport session addr target r = Ret OK r' ->
  rpc_sent (state r') = rpc_sent (state r) ++
    (if recd r addr =? target then [] else [dec_message addr (recd r addr - target)]) /\
  is_u64 addr /\ target <= recd r addr /\ objects r' = objects r /\ state_ok r' /\
  (forall k, recd r' k = if k =? addr then target else recd r k) /\
  (forall k, sent r' k = sent r k).
Proof.
  intros OK H0 Hlim H. unfold sendDecStrongToTarget in H. run.
  destruct (mTerminated (state r)); [by run|].
  destruct (mNodeForAddress (state r) !! addr) as [n|] eqn:Hn; [|by run].
  assert (Er : recd r addr = timesRecd n) by (unfold recd; by rewrite Hn).
  assert (Es : sent r addr = timesSent n) by (unfold sent; by rewrite Hn).
  pose proof (so_nodes _ OK _ _ Hn) as [Ha Hs Hr Hheld Hlive Hidle]. unfold is_u64 in Hr.
  run. zb. zcase (timesRecd n =? target).
  - run. zdec (recd r addr =? target). rewrite app_nil_r.
    split_and!; try (done || lia). intros k. zcase (k =? addr); [congruence|done].
  - run. zdec (recd r addr =? target).
    match goal with Ht : tryEraseNode _ _ = _ |- _ =>
      eapply (erase_run addr n _ r _ _ OK Hn) in Ht as (-> & OK1 & Ho1 & Hlog & Cs & Cr);
        [|done|done|unfold is_u64; simpl; lia|apply Hheld] end.
    unfold rpcSend in H. run. match goal with H : context [if ?b =? Errors.OK then _ else _] |- _ => destruct (b =? Errors.OK) eqn:Et end.
    + run. rewrite (u32_small (timesRecd n - target)) by (unfold is_u32; lia).
      rewrite concat_pair. unfold set_sent at 1. cbn [rpc_sent]. rewrite Hlog, Er. split_and!; try (done || lia).
      * split; [|apply OK1]. intros k m Hk. eapply node_ok_objects; [|by apply OK1]. done.
      * intros k. transitivity (sent r1 k); [done|]. rewrite Cs. simpl. zcase (k =? addr); [congruence|done].
    + run. zb. congruence.
Qed.

Lemma erase_returns addr r n :
  mNodeForAddress (state r) !! addr = Some n -> asyncTodo n = [] ->
  exists v r', tryEraseNode addr r = Ret v r'.
Proof.
  intros Hn Hi. unfold tryEraseNode, bind, gets. rewrite Hn. simpl.
  destruct (timesSent n =? 0); [|by eauto]. destruct (timesRecd n =? 0); [|by simpl; eauto].
  rewrite bool_decide_true by done. simpl. eauto.
Qed.

Lemma process_dec_ok F session addr amount r :
  state_ok r -> is_u64 addr -> 0 < amount < 4294967296 -> amount <= sent r addr ->
  wpg F (processDecStrong session (header_of (dec_message addr amount))
           (zdrop sizeof_header (dec_message addr amount))) r (fun v r' =>
    v = OK /\ state_ok r' /\ objects r' = objects r /\ rpc_sent (state r') = rpc_sent (state r) /\
    (forall k, sent r' k = sent r k - (if k =? addr then amount else 0)) /\
    (forall k, recd r' k = recd r k)).
Proof.
  intros OK Ha Ham Hle. unfold dec_message.
  rewrite header_round_trip by done. rewrite zdrop_app_exact by by rewrite zlen_header.
  unfold processDecStrong. cbn [command bodySize]. rewrite Z.eqb_refl. cbn [negb].
  rewrite <- (app_nil_r (dec_strong_bytes _)), dec_strong_round_trip
    by (split; [by apply fromRaw_ok|unfold is_u32; simpl; lia]).
  cbn [ds_address ds_amount]. rewrite toRaw_fromRaw.
  apply wpg_bind, wpg_ret. change (CommandData_valid sizeof_dec_strong) with true.
  rewrite Z.eqb_refl. cbn [negb]. apply wpg_bind, wpg_gets.
  unfold sent in Hle. destruct (mNodeForAddress (state r) !! addr) as [n|] eqn:Hn; simpl in Hle; [|lia].
  pose proof (so_nodes _ OK _ _ Hn) as [_ Hs Hr Hheld Hlive Hidle].
  assert (Hsr : sentRef n <> None) by (intros E%Hheld; lia).
  destruct (Hlive Hsr) as [o Ho]. apply wpg_bind. unfold promote. apply wpg_gets. rewrite Ho.
  zdec (timesSent n <? amount). apply wpg_bind.
  destruct (sentRef n) as [x|] eqn:Esr; [|done]. apply wpg_ret. apply wpg_bind, wpg_modify.
  apply wpg_bind. unfold wpg.
  set (n' := n_set_counts (Some x) (timesSent n - amount) (timesRecd n) n).
  destruct (erase_returns addr (mkRS (set_nodes (<[addr := n']> (mNodeForAddress (state r))) (state r)) (objects r)) n')
    as (v & r' & E); [by simpl; rewrite lookup_insert_eq|done|].
  simpl in *. rewrite E. unfold is_u64 in *.
  eapply (erase_run addr n n' r _ _ OK Hn) in E as (_ & OK1 & Ho1 & Hlog & Cs & Cr);
    [|unfold n'; by rewrite Esr|unfold is_u64; simpl; lia|done|by rewrite Esr].
  assert (Er : recd r addr = timesRecd n) by (unfold recd; by rewrite Hn).
  assert (Es : sent r addr = timesSent n) by (unfold sent; by rewrite Hn).
  split_and!; try done; intros k.
  - rewrite Cs. simpl. zcase (k =? addr); subst; lia.
  - rewrite Cr. simpl. zcase (k =? addr); subst; lia.
Qed.

(** * The two ends of a session *)

(** What travels: a binder in a parcel, which carries one reference, or the
    bytes of a dec-strong command.  Connections are many, so messages may
    overtake each other. *)
Inductive msg :=
| Carry (addr : Z)
| Dec (m : bytes).

Definition carries (addr : Z) (l : list msg) : Z :=
  foldr (fun m acc => match m with Carry a => Z.b2z (a =? addr) | Dec _ => 0 end + acc) 0 l.

Definition dec_of (addr : Z) (m : bytes) : Z :=
  let d := dec_strong_of (zdrop sizeof_header m) in
  if toRaw (ds_address d) =? addr then ds_amount d else 0.
Definition decs (addr : Z) (l : list msg) : Z :=
  foldr (fun m acc => match m with Carry _ => 0 | Dec b => dec_of addr b end + acc) 0 l.

Definition msg_ok (m : msg) : Prop :=
  match m with
  | Carry addr => is_u64 addr
  | Dec b => exists addr amount, is_u64 addr /\ 0 < amount < 4294967296 /\ b = dec_message addr amount
  end.

(** One end acts: [o] is what is on its way to the other end, [i] what is on its
    way here.  The counters are far from their limits. *)
Inductive act (transport : nat -> status_t) (session : Z) :
  RS -> list msg -> list msg -> RS -> list msg -> list msg -> Prop :=
| act_send x x' o i a addr :
    onBinderLeaving session a x = Ret (Good addr) x' ->
    sent x addr + 1 < 18446744073709551616 ->
    act transport session x o i x' (Carry addr :: o) i
| act_receive x x' o i1 i2 addr out :
    onBinderEntering session addr x = Ret (Good out) x' ->
    recd x addr + 1 < 18446744073709551616 ->
    act transport session x o (i1 ++ Carry addr :: i2) x' o (i1 ++ i2)
| act_drop x x' o i addr target ms :
    sendDecStrongToTarget transport session addr target x = Ret OK x' ->
    0 <= target -> recd x addr - target < 4294967296 ->
    rpc_sent (state x') = rpc_sent (state x) ++ ms ->
    act transport session x o i x' (map Dec ms ++ o) i
| act_dec x x' o i1 i2 m st :
    processDecStrong session (header_of m) (zdrop sizeof_header m) x = Ret st x' ->
    act transport session x o (i1 ++ Dec m :: i2) x' o (i1 ++ i2)
| act_objects x os o i :
    (forall addr n, mNodeForAddress (state x) !! addr = Some n -> sentRef n <> None ->
       is_Some (os !! binder n)) ->
    act transport session x o i (mkRS (state x) os) o i.

Record net := mkNet { client : RS; peer : RS; to_peer : list msg; to_client : list msg }.

Definition fresh_end (isServer : bool) (os : gmap Z IBinder) : RS :=
  mkRS (mkRpcState false 0 ∅ isServer [] []) os.

Inductive net_reachable (transport : nat -> status_t) (session : Z) : net -> Prop :=
| net_start os os' : net_reachable transport session
    (mkNet (fresh_end false os) (fresh_end true os') [] [])
| net_client x y o i x' o' i' : net_reachable transport session (mkNet x y o i) ->
    act transport session x o i x' o' i' -> net_reachable transport session (mkNet x' y o' i')
| net_peer x y o i y' o' i' : net_reachable transport session (mkNet x y o i) ->
    act transport session y i o y' i' o' -> net_reachable transport session (mkNet x y' o' i').

(** Every reference sent is on its way, held by the receiver, or on its way
    back. *)
Record agree (x y : RS) (o i : list msg) : Prop := {
  ag_ok : state_ok x /\ state_ok y;
  ag_out : forall k, sent x k = carries k o + recd y k + decs k i;
  ag_in : forall k, sent y k = carries k i + recd x k + decs k o;
  ag_msgs : Forall msg_ok o /\ Forall msg_ok i;
}.

Lemma agree_sym x y o i : agree x y o i -> agree y x i o.
Proof. intros [[] ? ? []]. by split. Qed.

Lemma carries_app k l1 l2 : carries k (l1 ++ l2) = carries k l1 + carries k l2.
Proof. unfold carries. induction l1; simpl in *; lia. Qed.
Lemma decs_app k l1 l2 : decs k (l1 ++ l2) = decs k l1 + decs k l2.
Proof. unfold decs. induction l1; simpl in *; lia. Qed.

Lemma dec_of_message k addr amount :
  is_u64 addr -> 0 < amount < 4294967296 ->
  dec_of k (dec_message addr amount) = if k =? addr then amount else 0.
Proof.
  intros Ha Hm. unfold dec_of, dec_message. rewrite zdrop_app_exact by by rewrite zlen_header.
  rewrite <- (app_nil_r (dec_strong_bytes _)), dec_strong_round_trip
    by (split; [by apply fromRaw_ok|unfold is_u32; simpl; lia]).
  cbn [ds_address ds_amount]. rewrite toRaw_fromRaw, Z.eqb_sym. done.
Qed.

Lemma carries_nonneg k l : 0 <= carries k l.
Proof. induction l as [|[a|b] l IH]; simpl in *; [done| |lia]. destruct (a =? k); simpl; lia. Qed.

Lemma decs_nonneg k l : Forall msg_ok l -> 0 <= decs k l.
Proof.
  induction 1 as [|[a|b] l Hm Hl IH]; simpl in *; [done|lia|].
  destruct Hm as (addr & amount & Ha & Hr & ->). rewrite dec_of_message by done.
  destruct (k =? addr); lia.
Qed.

Lemma recd_nonneg x k : state_ok x -> 0 <= recd x k.
Proof.
  intros OK. unfold recd. destruct (mNodeForAddress (state x) !! k) as [n|] eqn:E; simpl; [|lia].
  by apply (so_nodes _ OK) in E as [_ _ [? _] _ _ _].
Qed.

(** A dec-strong on its way is covered by the count it lowers. *)
Lemma dec_covered x y o i1 i2 addr amount :
  agree x y o (i1 ++ Dec (dec_message addr amount) :: i2) ->
  is_u64 addr -> 0 < amount < 4294967296 -> amount <= sent x addr.
Proof.
  intros [[OKx OKy] Ho _ [_ Hi]] Ha Hr. rewrite Ho, decs_app. simpl decs.
  rewrite dec_of_message, Z.eqb_refl by done.
  apply Forall_app in Hi as [H1 [_ H2]%Forall_cons].
  pose proof (carries_nonneg addr o). pose proof (recd_nonneg y addr OKy).
  pose proof (decs_nonneg addr i1 H1). pose proof (decs_nonneg addr i2 H2).
  fold (decs addr i2). lia.
Qed.

Lemma sent_nonneg x k : state_ok x -> 0 <= sent x k.
Proof.
  intros OK. unfold sent. destruct (mNodeForAddress (state x) !! k) as [n|] eqn:E; simpl; [|lia].
  by apply (so_nodes _ OK) in E as [_ [? _] _ _ _ _].
Qed.

Lemma sent_address x k : state_ok x -> sent x k <> 0 -> is_u64 k.
Proof.
  intros OK. unfold sent. destruct (mNodeForAddress (state x) !! k) as [n|] eqn:E; simpl; [|lia].
  intros _. by apply (so_nodes _ OK) in E as [].
Qed.

Lemma act_agree transport session x y o i x' o' i' :
  agree x y o i -> act transport session x o i x' o' i' -> agree x' y o' i'.
Proof.
  intros A H. pose proof A as [[OKx OKy] Ho Hi [Mo Mi]].
  destruct H as [x x' o i a addr H Hov|x x' o i1 i2 addr out H Hov|x x' o i addr target ms H H0 Hl Hms
                |x x' o i1 i2 m st H|x os o i Hlive].
  - apply leaving_run in H as (_ & _ & H); [|done]. destruct (H Hov) as (OK' & Hs & Hr).
    pose proof (sent_nonneg x addr OKx).
    assert (is_u64 addr).
    { apply (sent_address x'); [done|]. rewrite Hs, Z.eqb_refl. simpl. lia. }
    split; [done| | |by split; [constructor|]]; intros k; simpl; rewrite ?Hs, ?Hr, ?Ho, ?Hi.
    + rewrite (Z.eqb_sym addr k). unfold carries. lia.
    + unfold decs. lia.
  - apply Forall_app in Mi as [M1 [Hm M2]%Forall_cons].
    apply entering_run in H as (_ & _ & H); [|done|done]. destruct (H Hov) as (OK' & Hr & Hs).
    split; [done| | |by split; [|apply Forall_app]]; intros k; rewrite ?Hs, ?Hr, ?Ho, ?Hi.
    + rewrite !decs_app. simpl. unfold decs. lia.
    + rewrite !carries_app. simpl. rewrite (Z.eqb_sym addr k). unfold carries. lia.
  - apply send_dec_run in H as (Hlog & Ha & Hle & _ & OK' & Hr & Hs); [|done..].
    rewrite Hms in Hlog. apply app_inv_head in Hlog. subst ms.
    zcase (recd x addr =? target); simpl.
    + split; [done| | |done]; intros k; rewrite ?Hs, ?Hr, ?Ho, ?Hi; [done|].
      zcase (k =? addr); [subst; lia|lia].
    + split; [done| | |]; [intros k|intros k|split; [|done]].
      * rewrite Hs, Ho. simpl. unfold carries. lia.
      * rewrite Hr, Hi. simpl. rewrite dec_of_message by (done || lia). unfold decs.
        zcase (k =? addr); [subst; lia|lia].
      * constructor; [|done]. exists addr, (recd x addr - target). split_and!; (done || lia).
  - apply Forall_app in Mi as [M1 [(addr & amount & Ha & Hr & ->) M2]%Forall_cons].
    pose proof (dec_covered _ _ _ _ _ _ _ A Ha Hr) as Hc.
    pose proof (process_dec_ok False session addr amount x OKx Ha Hr Hc) as P.
    unfold wpg in P. rewrite H in P. destruct P as (_ & OK' & _ & _ & Hs & Hrr).
    split; [done| | |by split; [|apply Forall_app]]; intros k; rewrite ?Hs, ?Hrr, ?Ho, ?Hi.
    + rewrite !decs_app. simpl. rewrite dec_of_message by done. unfold decs. lia.
    + rewrite !carries_app. simpl. unfold carries. lia.
  - split; [|done|done|done]. split; [|done]. destruct OKx as [Hn Hid]. split; [|done].
    intros addr n E. destruct (Hn _ _ E). split; auto. intros Hsr. by apply (Hlive addr).
Qed.

Lemma reachable_agree transport session n :
  net_reachable transport session n -> agree (client n) (peer n) (to_peer n) (to_client n).
Proof.
  induction 1 as [os os'|x y o i x' o' i' _ IH H|x y o i y' o' i' _ IH H]; simpl in *.
  - split; [|done|done|done]. split; (split; simpl; [by intros|done]).
  - by eapply act_agree.
  - apply agree_sym in IH. apply agree_sym. by eapply act_agree.
Qed.

(** C22: the reference counts of the two ends of a session agree.  In every state
    reached by sending and receiving binders, dropping received references and
    processing dec-strong commands, in any order and with messages overtaking
    each other: for every address, the number of times one end has sent the
    binder is the number of its carriers on their way, plus the references the
    other end holds, plus those on their way back.  Hence an end keeps its node,
    and the object in it alive, as long as the other end holds or is about to
    receive a reference; and every dec-strong command on its way will be
    accepted and lower the count by exactly its amount. *)
Theorem rpc_references_agree (transport : nat -> status_t) (session : Z) (n : net) :
  net_reachable transport session n ->
  (forall k, sent (client n) k = carries k (to_peer n) + recd (peer n) k + decs k (to_client n)) /\
  (forall k, sent (peer n) k = carries k (to_client n) + recd (client n) k + decs k (to_peer n)) /\
  (forall k, 0 < recd (peer n) k + carries k (to_peer n) -> exists nd b,
     mNodeForAddress (state (client n)) !! k = Some nd /\ objects (client n) !! binder nd = Some b) /\
  (forall m, Dec m ∈ to_client n -> exists addr amount, m = dec_message addr amount /\
     wp (processDecStrong session (header_of m) (zdrop sizeof_header m)) (client n) (fun st x' =>
       st = OK /\ sent x' addr = sent (client n) addr - amount)).
Proof.
  intros R%reachable_agree. pose proof R as [[OKx OKy] Ho Hi [Mo Mi]].
  split_and!; [done|done|..].
  - intros k Hk. assert (Hs : 0 < sent (client n) k).
    { rewrite Ho. pose proof (decs_nonneg k _ Mi). lia. }
    unfold sent in Hs. destruct (mNodeForAddress _ !! k) as [nd|] eqn:E; simpl in Hs; [|lia].
    destruct (so_nodes _ OKx _ _ E) as [_ _ _ Hheld Hlive _].
    destruct Hlive as [b Hb]; [rewrite Hheld; lia|]. eauto.
  - intros m (i1 & i2 & E)%list_elem_of_split. rewrite E in *.
    apply Forall_app in Mi as [_ [(addr & amount & Ha & Hr & ->) _]%Forall_cons].
    exists addr, amount. split; [done|].
    wp_use process_dec_ok; [done|done|done|by eapply dec_covered|].
    intros st x' (-> & _ & _ & _ & Hs & _). split; [done|]. by rewrite Hs, Z.eqb_refl.
Qed.

(** A client that sends its binder 7, which the server receives and drops. *)
Definition local_seven : gmap Z IBinder :=
  {[ 7 := mkIBinder LocalBinder UNDECLARED 0 0 false false false 0 ]}.
Definition after {A} (m : M RS A) (r : RS) : RS := match m r with Ret _ r' => r' | _ => r end.
Definition client_sent : RS := after (onBinderLeaving 1 7) (fresh_end false local_seven).
Definition server_holds : RS := after (onBinderEntering 1 (new_address false 0)) (fresh_end true ∅).
Definition server_dropped : RS :=
  after (sendDecStrongToTarget (fun _ => OK) 1 (new_address false 0) 0) server_holds.

Lemma dropped_reachable :
  net_reachable (fun _ => OK) 1 (mkNet client_sent server_dropped []
    [Dec (dec_message (new_address false 0) 1)]).
Proof.
  apply (net_peer _ _ client_sent server_holds [] [] server_dropped []
    (map Dec [dec_message (new_address false 0) 1] ++ [])).
  - apply (net_peer _ _ client_sent (fresh_end true ∅) [Carry (new_address false 0)] []
      server_holds [] []).
    + apply (net_client _ _ (fresh_end false local_seven) (fresh_end true ∅) [] []);
        [apply net_start|]. by apply (act_send _ _ _ _ _ _ 7); vm_compute.
    + by eapply (act_receive _ _ _ _ [] [] []); vm_compute.
  - by apply (act_drop _ _ _ _ _ _ (new_address false 0) 0); vm_compute.
Qed.

Lemma rpc_references_agree_witness :
  sent client_sent (new_address false 0) = 1 /\ recd server_dropped (new_address false 0) = 0 /\
  (exists addr amount, dec_message (new_address false 0) 1 = dec_message addr amount).
Proof.
  destruct (rpc_references_agree _ _ _ dropped_reachable) as (H1 & _ & _ & H4).
  split; [rewrite H1; by vm_compute|]. split; [by vm_compute|].
  destruct (H4 (dec_message (new_address false 0) 1)) as (addr & amount & E & _);
    [by left|]. by exists addr, amount.
Defined.

(** * Addresses *)

Lemma new_address_inj b id id' : new_address b id = new_address b id' -> id = id'.
Proof. unfold new_address, toRaw. cbn [options address]. lia. Qed.

(** The search for an unused id ends: [tried] are the addresses found in use. *)
Lemma insert_fresh_returns fuel b a r (tried : gset Z) :
  is_u32 (mNextId (state r)) -> tried ⊆ dom (mNodeForAddress (state r)) ->
  (base.size (mNodeForAddress (state r)) < base.size tried + fuel)%nat ->
  Z.of_nat fuel <= 4294967296 ->
  (forall m, 0 <= m < Z.of_nat fuel ->
     new_address b ((mNextId (state r) + m) mod 4294967296) ∉ tried) ->
  exists v r', insert_fresh fuel b a r = Ret v r'.
Proof.
  revert r tried. induction fuel as [|fuel IH]; intros r tried Hid Ht Hsz Hf Hn.
  { apply subseteq_size in Ht. rewrite size_dom in Ht. lia. }
  cbn [insert_fresh]. unfold bind, gets, modify. unfold is_u32 in Hid.
  set (id := mNextId (state r)) in *.
  assert (Hnext : (if 4294967295 <=? id then 0 else id + 1) = (id + 1) mod 4294967296).
  { zcase (4294967295 <=? id); [|by rewrite Z.mod_small by lia].
    by replace id with 4294967295 by lia. }
  destruct (mNodeForAddress (state r) !! new_address b id) as [n|] eqn:E; [|by eexists _, _].
  pose proof (Hn 0 ltac:(lia)) as H0. rewrite Z.add_0_r, Z.mod_small in H0 by lia.
  apply (IH _ ({[ new_address b id ]} ∪ tried)); simpl; rewrite ?Hnext.
  - unfold is_u32. apply Z.mod_pos_bound. lia.
  - apply union_subseteq. split; [|done]. apply singleton_subseteq_l. by eapply elem_of_dom_2.
  - rewrite size_union by set_solver. rewrite size_singleton. lia.
  - lia.
  - intros m Hm. rewrite Zplus_mod_idemp_l, <- Z.add_assoc, not_elem_of_union, not_elem_of_singleton.
    split; [|apply Hn; lia]. intros Eid%new_address_inj.
    pose proof (Z.mod_small id 4294967296 ltac:(lia)) as Hsm. rewrite <- Hsm in Eid at 2.
    assert (Hd : (1 + m) mod 4294967296 = 0).
    { replace (1 + m) with ((id + (1 + m)) - id) by lia. by rewrite Zminus_mod, Eid, Z.sub_diag. }
    rewrite Z.mod_small in Hd; lia.
Qed.

(** a new binder gets an address of its own.  For a local binder the session
    does not know yet, on a live session with at most 100000 nodes, the search
    loop of [onBinderLeaving] ends, and the binder is entered, sent once, at an
    address that was unused, created by this end of the session (the server bit
    tells which); no other node changes.  Beyond the limit the answer is
    [NO_MEMORY]. *)
Theorem new_binder_address (session a : Z) (r : RS) (o : IBinder) :
  state_ok r -> mTerminated (state r) = false -> objects r !! a = Some o ->
  b_kind o = LocalBinder ->
  (forall addr n, mNodeForAddress (state r) !! addr = Some n -> binder n <> a) ->
  wp (onBinderLeaving session a) r (fun v r' =>
    if 100000 <? countBinders (state r) then v = Err NO_MEMORY /\ r' = r
    else exists id, let addr := new_address (server (state r)) id in
      v = Good addr /\ is_u32 id /\ mNodeForAddress (state r) !! addr = None /\
      mNodeForAddress (state r') =
        <[addr := mkBinderNode a (Some a) 1 0 0 []]> (mNodeForAddress (state r)) /\
      state_ok r').
Proof.
  intros OK Ht Ho Hk Hn. unfold onBinderLeaving. apply wpg_bind, wpg_bind, wpg_gets.
  eapply wpg_require; [exact Ho|]. unfold rpc_handle, is_remote, is_local. rewrite Hk. cbn [negb andb].
  apply wpg_bind, wpg_gets. rewrite Ht.
  pose proof (find_node_ok a (mNodeForAddress (state r))) as Hf.
  destruct (find_node a _) as [[addr n]|]; [destruct Hf as [Hx Hb]; by apply Hn in Hx|].
  apply wpg_bind, wpg_ret. unfold countBinders. zcase (100000 <? Z.of_nat (base.size (mNodeForAddress (state r)))).
  { by apply wpg_ret. }
  destruct (insert_fresh_returns (S (base.size (mNodeForAddress (state r)))) (server (state r)) a r ∅)
    as (v & r' & Erun); [apply OK|set_solver|rewrite size_empty; lia|lia|set_solver|].
  unfold wpg. rewrite Erun.
  apply insert_fresh_run in Erun as (addr & -> & (id & Hid & ->) & Hnone & Ho' & En & Hid' & _); [|apply OK].
  exists id. split_and!; [done|apply Hid..|done|done|].
  eapply state_ok_insert; [exact OK|exact En|by rewrite Ho'|done|].
  split; simpl; try done; [by apply new_address_u64|]. intros _. by rewrite Ho', Ho.
Qed.

Lemma new_binder_address_witness :
  wp (onBinderLeaving 1 7) (fresh_end false local_seven) (fun v _ =>
    exists id, v = Good (new_address false id)).
Proof.
  wp_use (new_binder_address 1 7 (fresh_end false local_seven)
    (mkIBinder LocalBinder UNDECLARED 0 0 false false false 0)); [|done|done|done|done|].
  - split; [by intros ? ?|by vm_compute].
  - intros v r' H. change (100000 <? countBinders (state (fresh_end false local_seven))) with false in H.
    destruct H as (id & Hv & _). by exists id.
Defined.

(** the check for unknown addresses.  [onBinderEntering] compares the server
    bit of the address (0 or 2) with a boolean (0 or 1).  A server therefore
    accepts an address it should have created itself but does not know, and
    makes a proxy for it; a client refuses its own, as intended. *)
Theorem server_accepts_own_address :
  (match onBinderEntering 1 (new_address true 5) (fresh_end true ∅) with
   | Ret (Good (Some a)) r =>
       recd r (new_address true 5) = 1 /\ rpc_handle <$> objects r !! a = Some (Some (1, new_address true 5))
   | _ => False
   end) /\
  onBinderEntering 1 (new_address false 5) (fresh_end false ∅) =
    Ret (Err BAD_VALUE) (fresh_end false ∅).
Proof. by vm_compute. Qed.
