(* ===== verification/BinderStatus.v ===== *)
(** [binder::Status] (src/libs/binder/Status.cpp and include/binder/Status.h):
    the result of a call as it travels in a reply parcel, and its correctness.

    The conversions between [String8] and [String16] are those of libutils:
    [to_utf16] and [to_utf8] are parameters. *)

From S2P Require Import Prelude Errors ParcelState ParcelWrite ParcelRead ParcelInv ParcelWriteSpec.
From S2P Require Import ParcelReadSpec ParcelData ParcelDataSpec ParcelProps.

Definition EX_NONE : Z := 0.
Definition EX_SECURITY : Z := -1.
Definition EX_BAD_PARCELABLE : Z := -2.
Definition EX_ILLEGAL_ARGUMENT : Z := -3.
Definition EX_NULL_POINTER : Z := -4.
Definition EX_ILLEGAL_STATE : Z := -5.
Definition EX_NETWORK_MAIN_THREAD : Z := -6.
Definition EX_UNSUPPORTED_OPERATION : Z := -7.
Definition EX_SERVICE_SPECIFIC : Z := -8.
Definition EX_PARCELABLE : Z := -9.
Definition EX_HAS_REPLY_HEADER : Z := -128.
Definition EX_TRANSACTION_FAILED : Z := -129.

Record Status := mkStatus { mException : Z; mErrorCode : Z; mMessage : bytes }.

Definition Status_ok : Status := mkStatus EX_NONE 0 [].
Definition fromExceptionCode (exceptionCode : Z) (message : bytes) : Status :=
  if exceptionCode =? EX_TRANSACTION_FAILED
  then mkStatus exceptionCode FAILED_TRANSACTION message
  else mkStatus exceptionCode OK message.
Definition fromServiceSpecificError (code : Z) (message : bytes) : Status :=
  mkStatus EX_SERVICE_SPECIFIC code message.

Definition setException (ex : Z) (message : bytes) : Status :=
  mkStatus ex (if ex =? EX_TRANSACTION_FAILED then FAILED_TRANSACTION else NO_ERROR) message.
Definition setServiceSpecificError (errorCode : Z) (message : bytes) : Status :=
  mkStatus (mException (setException EX_SERVICE_SPECIFIC message)) errorCode message.
Definition setFromStatusT (status : status_t) : Status :=
  mkStatus (if status =? NO_ERROR then EX_NONE else EX_TRANSACTION_FAILED) status [].
Definition fromStatusT (status : status_t) : Status := setFromStatusT status.

Definition exceptionCode (s : Status) : Z := mException s.
Definition exceptionMessage (s : Status) : bytes := mMessage s.
Definition transactionError (s : Status) : status_t :=
  if mException s =? EX_TRANSACTION_FAILED then mErrorCode s else OK.
Definition serviceSpecificErrorCode (s : Status) : Z :=
  if mException s =? EX_SERVICE_SPECIFIC then mErrorCode s else 0.
Definition isOk (s : Status) : bool := mException s =? EX_NONE.

(** A reply holds no Parcelables of its own here. *)
#[export] Instance no_parcelables : Parcelable Empty_set := {
  pvalue k := match k with end;
  writeToParcel k := match k with end;
  readFromParcel k := match k with end;
}.

#[export] Instance no_parcelables_laws : ParcelableLaws Empty_set := {
  p_encode k := match k with end;
  p_valid k := match k with end;
  p_write k := match k with end;
  p_read k := match k with end;
  p_safe k := match k with end;
}.

Section Status.
Context (to_utf16 : bytes -> list Z) (to_utf8 : list Z -> bytes).

Definition status_writeToParcel (s : Status) : M PS status_t :=
  if mException s =? EX_TRANSACTION_FAILED then ret (mErrorCode s) else
  writeInt32 (mException s) ;;?
  if mException s =? EX_NONE then ret OK else
  let message := to_utf16 (mMessage s) in
  writeString16 (Some message) (zlen message) ;;?
  writeInt32 0 ;;?
  if mException s =? EX_SERVICE_SPECIFIC then writeInt32 (mErrorCode s)
  else if mException s =? EX_PARCELABLE then writeInt32 0
  else ret OK.

Definition writeNoException : M PS status_t := status_writeToParcel Status_ok.

Definition status_writeOverParcel (s : Status) : M PS status_t :=
  setDataSize 0 ;;
  setDataPosition 0 ;;
  status_writeToParcel s.

(** Skip a header or blob whose size, read first, includes the size field. *)
Definition skip_header : M PS status_t :=
  let* header_start := getp dataPosition in
  let* header_avail := dataAvail in
  let* r := readInt32 in
  match r with
  | Err st => ret st
  | Good header_size =>
      if (header_size <? 0) || (header_avail <? header_size) then ret UNKNOWN_ERROR else
      setDataPosition (u64 (header_start + header_size)) ;; ret OK
  end.

(** Skip the remote stack trace, whose size does not include the size field. *)
Definition skip_stack_trace : M PS status_t :=
  let* r := readInt32 in
  match r with
  | Err st => ret st
  | Good size =>
      let* avail := dataAvail in
      if (size <? 0) || (avail <? size) then ret UNKNOWN_ERROR else
      let* pos := getp dataPosition in
      setDataPosition (u64 (pos + size)) ;; ret OK
  end.

(** The end of [readFromParcel]: the data of an exception. *)
Definition read_exception (ex errorCode : Z) : M PS (status_t * Status) :=
  let* m := readData (K := Empty_set) (TOptional TString16) in
  match m with
  | Err st => ret (st, setFromStatusT st)
  | Good message =>
      let msg := to_utf8 (default [] message) in
      let* st := skip_stack_trace in
      if negb (st =? OK) then ret (st, setFromStatusT st) else
      if ex =? EX_SERVICE_SPECIFIC then
        let* r := readInt32 in
        match r with
        | Err st => ret (st, setFromStatusT st)
        | Good code => ret (OK, mkStatus ex code msg)
        end
      else if ex =? EX_PARCELABLE then
        let* st := skip_header in
        if negb (st =? OK) then ret (st, setFromStatusT st)
        else ret (OK, mkStatus ex errorCode msg)
      else ret (OK, mkStatus ex errorCode msg)
  end.

(** [self] is the status object before the call. *)
Definition status_readFromParcel (self : Status) : M PS (status_t * Status) :=
  let* r := readInt32 in
  match r with
  | Err st => ret (st, setFromStatusT st)
  | Good ex0 =>
      let* st := if ex0 =? EX_HAS_REPLY_HEADER then skip_header else ret OK in
      if negb (st =? OK) then ret (st, setFromStatusT st) else
      let ex := if ex0 =? EX_HAS_REPLY_HEADER then EX_NONE else ex0 in
      if ex =? EX_NONE then ret (OK, mkStatus ex (mErrorCode self) (mMessage self))
      else read_exception ex (mErrorCode self)
  end.

(** [Parcel::readExceptionCode]. *)
Definition readExceptionCode : M PS Z :=
  let* r := status_readFromParcel Status_ok in ret (exceptionCode (snd r)).

(** * Correctness *)

Definition status_bytes (s : Status) : bytes :=
  le_bytes 4 (mException s) ++
  if mException s =? EX_NONE then [] else
  string16_bytes (to_utf16 (mMessage s)) ++ le_bytes 4 0 ++
  (if mException s =? EX_SERVICE_SPECIFIC then le_bytes 4 (mErrorCode s)
   else if mException s =? EX_PARCELABLE then le_bytes 4 0 else []).

Lemma ret_ok_post F s : wf (this s) -> wpg F (ret OK) s (write_post s []).
Proof.
  intros Hwf. wp_step. split; [reflexivity|left]. split; [done|by apply wrote_nil].
Qed.

Lemma status_write_ok F st s :
  wf (this s) -> mException st <> EX_TRANSACTION_FAILED ->
  fits (this s) (zlen (status_bytes st)) ->
  wpg F (status_writeToParcel st) s (write_post s (status_bytes st)).
Proof.
  intros Hwf Hex Hf. unfold status_writeToParcel, status_bytes in *.
  zdec (mException st =? EX_TRANSACTION_FAILED). zl.
  apply write_post_seq; [done|by zl|intros; by apply writeInt32_ok|]. intros s1 Hwf1 Hf1.
  zcase (mException st =? EX_NONE); [by apply ret_ok_post|].
  set (m := to_utf16 (mMessage st)) in *. zl.
  apply write_post_seq; [done|by zl|intros; by apply writeString16_ok|]. intros s2 Hwf2 Hf2.
  zl. apply write_post_seq; [done|by zl|intros; by apply writeInt32_ok|]. intros s3 Hwf3 Hf3.
  destruct (mException st =? EX_SERVICE_SPECIFIC); [by apply writeInt32_ok|].
  destruct (mException st =? EX_PARCELABLE); [by apply writeInt32_ok|by apply ret_ok_post].
Qed.

Lemma peq_pos_self p q : peq (set_mDataPos (mDataPos p) p) q -> peq p q.
Proof. by destruct p. Qed.

Lemma skip_stack_trace_decodes : decodes skip_stack_trace (le_bytes 4 0) OK.
Proof.
  intros F s Hwf Hav. unfold skip_stack_trace. wp_step.
  wp_use (readInt32_decodes 0); [by vm_compute|done|done|]. intros r s1 [-> Hc]. pose proof Hc as (Hw1 & Hwf1 & Hp1).
  wp_step. apply dataAvail_ok; [done|]. pose proof (ParcelInv.wf_pos _ Hwf1) as Hpos.
  zdec (mDataSize (this s1) - mDataPos (this s1) <? 0). change (0 <? 0) with false. cbn [orb].
  wp_steps. unfold dataPosition. rewrite Z.add_0_r.
  pose proof (wf_size _ Hwf1). pose proof (wf_cap _ Hwf1). rewrite u64_small by lia.
  apply setDataPosition_ok; [done|lia|]. intros s2 Hw2 Hwf2 Hp2%peq_pos_self. wp_steps.
  split; [done|]. split_and!; [congruence|done|]. by etransitivity.
Qed.

(** A size of 0 does not cover the size field itself: nothing is skipped. *)
Lemma skip_header_zero F s :
  wf (this s) -> avail (this s) (le_bytes 4 0) ->
  wpg F skip_header s (fun st s' => st = OK /\ world s' = world s /\ wf (this s') /\
    peq (this s) (this s')).
Proof.
  intros Hwf Hav. unfold skip_header. wp_steps. apply dataAvail_ok; [done|].
  wp_steps. wp_use (readInt32_decodes 0); [by vm_compute|done|done|]. intros r s1 [-> Hc].
  pose proof (ParcelInv.wf_pos _ Hwf) as Hpos. pose proof (av_size _ _ Hav) as Hs.
  rewrite zlen_le_bytes in Hs. change (0 <? 0) with false. cbn [orb].
  zdec (mDataSize (this s) - mDataPos (this s) <? 0). wp_steps. unfold dataPosition.
  pose proof (wf_size _ Hwf). pose proof (wf_cap _ Hwf). rewrite Z.add_0_r, u64_small by lia.
  eapply rewind_ok; [done|exact Hc|]. intros s2 Hw2 Hwf2 Hp2. by wp_steps.
Qed.

(** What reading gives back: the error code only travels with a service
    specific error. *)
Definition received (self st : Status) : Status :=
  if mException st =? EX_NONE then mkStatus EX_NONE (mErrorCode self) (mMessage self)
  else mkStatus (mException st)
    (if mException st =? EX_SERVICE_SPECIFIC then mErrorCode st else mErrorCode self) (mMessage st).

Definition status_valid (st : Status) : Prop :=
  is_s32 (mException st) /\ is_s32 (mErrorCode st) /\ mException st <> EX_TRANSACTION_FAILED /\
  mException st <> EX_HAS_REPLY_HEADER /\ Forall is_u16 (to_utf16 (mMessage st)) /\
  to_utf8 (to_utf16 (mMessage st)) = mMessage st.

Lemma status_read_ok F self st s :
  wf (this s) -> status_valid st -> avail (this s) (status_bytes st) ->
  wpg F (status_readFromParcel self) s (fun r s' => r = (OK, received self st) /\
    mDataPos (this s') = mDataPos (this s) + zlen (status_bytes st) -
      (if mException st =? EX_PARCELABLE then 4 else 0)).
Proof.
  intros Hwf (He & Hc & _ & Hh & Hu & Hround) Hav. unfold status_readFromParcel, status_bytes in *.
  wp_step. wp_use readInt32_decodes; [exact He|done|by eapply avail_app|]. intros r s1 [-> Hc1].
  pose proof (avail_rest _ _ _ _ Hwf Hav Hc1) as Hav1. pose proof Hc1 as (Hw1 & Hwf1 & Hp1).
  zdec (mException st =? EX_HAS_REPLY_HEADER). wp_steps. rewrite Z.eqb_refl. cbn [negb].
  rewrite zlen_app, zlen_le_bytes. pose proof (peq_pos _ _ Hp1) as Ep1. rewrite zlen_le_bytes in Ep1.
  simpl in Ep1. unfold received. zcase (mException st =? EX_NONE).
  { wp_steps. rewrite E. split; [done|]. rewrite Ep1, zlen_nil. change (EX_NONE =? EX_PARCELABLE) with false. lia. }
  unfold read_exception. wp_step.
  pose proof (readData_decodes (K := Empty_set) (TOptional TString16) (Some (to_utf16 (mMessage st)))
    eq_refl Hu) as Hrd. cbn [encode] in Hrd.
  wp_use Hrd; [done|by eapply avail_app|]. intros r s2 [-> Hc2].
  pose proof (avail_rest _ _ _ _ Hwf1 Hav1 Hc2) as Hav2. pose proof Hc2 as (Hw2 & Hwf2 & Hp2).
  pose proof (peq_pos _ _ Hp2) as Ep2. simpl in Ep2.
  wp_steps. wp_use skip_stack_trace_decodes; [done|by eapply avail_app|]. intros r s3 [-> Hc3].
  pose proof (avail_rest _ _ _ _ Hwf2 Hav2 Hc3) as Hav3. pose proof Hc3 as (Hw3 & Hwf3 & Hp3).
  pose proof (peq_pos _ _ Hp3) as Ep3. rewrite zlen_le_bytes in Ep3. simpl in Ep3.
  rewrite Z.eqb_refl. cbn [negb default from_option id]. unfold id. rewrite Hround, zlen_app, zlen_app, zlen_le_bytes.
  zcase (mException st =? EX_SERVICE_SPECIFIC).
  - wp_steps. wp_use readInt32_decodes; [exact Hc|done|done|]. intros r s4 [-> Hc4]. wp_steps.
    split; [done|]. destruct Hc4 as (_ & _ & Hp4). rewrite (peq_pos _ _ Hp4), zlen_le_bytes. simpl.
    rewrite E0. change (EX_SERVICE_SPECIFIC =? EX_PARCELABLE) with false. lia.
  - zcase (mException st =? EX_PARCELABLE).
    + wp_steps. wp_use skip_header_zero; [done|done|]. intros r s4 (-> & _ & _ & Hp4).
      wp_steps. split; [done|]. rewrite (peq_pos _ _ Hp4), zlen_le_bytes. lia.
    + wp_steps. split; [done|]. rewrite zlen_nil. lia.
Qed.

Lemma skip_to_safe F s s1 start size :
  wf (this s) -> stays s s1 -> 0 <= start <= mDataSize (this s) -> 0 <= size ->
  start + size <= mDataSize (this s) ->
  wpg F (setDataPosition (u64 (start + size)) ;; ret OK) s1 (fun _ s' => stays s s').
Proof.
  intros Hwf Hst Hs H0 Hle. pose proof (wf_size _ Hwf). pose proof (wf_cap _ Hwf).
  rewrite u64_small by lia. wp_step. destruct Hst as (Hw & Hwf1 & Hp1).
  wp_use setDataPosition_safe; [done|rewrite (peq_size _ _ Hp1); simpl; lia|].
  intros _ s2 H2. wp_step. eapply stays_trans; [|exact H2]. by split_and!.
Qed.

Lemma skip_header_safe : safe_read skip_header.
Proof.
  intros F s Hwf. unfold skip_header. wp_steps. apply dataAvail_ok; [done|]. wp_steps.
  wp_use readInt32_safe; [done|]. intros [size|st] s1 H1; [|by wp_step].
  pose proof (ParcelInv.wf_pos _ Hwf). destruct (_ || _) eqn:E; [by wp_step|]. zb.
  apply skip_to_safe; [done|done|unfold dataPosition; lia|lia|unfold dataPosition; lia].
Qed.

Lemma skip_stack_trace_safe : safe_read skip_stack_trace.
Proof.
  intros F s Hwf. unfold skip_stack_trace. wp_step. wp_use readInt32_safe; [done|].
  intros [size|st] s1 H1; [|by wp_step]. pose proof H1 as (_ & Hwf1 & Hp1).
  wp_step. apply dataAvail_ok; [done|]. pose proof (ParcelInv.wf_pos _ Hwf1).
  destruct (_ || _) eqn:E; [by wp_step|]. zb. wp_steps.
  apply wpg_bind_inv. pose proof (peq_size _ _ Hp1) as Es. simpl in Es.
  apply skip_to_safe; [done|done|unfold dataPosition; lia|lia|unfold dataPosition; lia].
Qed.

(** The outcome of a read: a status that says what happened. *)
Definition reported (r : status_t * Status) : Prop :=
  fst r = OK \/ snd r = setFromStatusT (fst r).

(** A safe step followed by one that reports. *)
Lemma then_report {A} F (m : M PS A) (k : A -> M PS (status_t * Status)) s s0 :
  stays s0 s -> wf (this s) -> safe_read m ->
  (forall a s1, stays s0 s1 -> wpg F (k a) s1 (fun r s' => stays s0 s' /\ reported r)) ->
  wpg F (let* a := m in k a) s (fun r s' => stays s0 s' /\ reported r).
Proof.
  intros H0 Hwf Hm Hk. wp_step. wp_use Hm; [done|]. intros a s1 H1. apply Hk.
  by eapply stays_trans.
Qed.

Lemma read_exception_safe F ex code s s0 :
  stays s0 s -> wpg F (read_exception ex code) s (fun r s' => stays s0 s' /\ reported r).
Proof.
  intros H0. unfold read_exception.
  apply then_report; [done|apply H0|by apply readData_safe|]. intros [m|st] s1 H1; [|wp_step; by split; [|right]].
  apply then_report; [done|apply H1|apply skip_stack_trace_safe|]. intros st s2 H2.
  destruct (negb _); [wp_step; by split; [|right]|].
  destruct (ex =? EX_SERVICE_SPECIFIC).
  { apply then_report; [done|apply H2|apply readInt32_safe|].
    intros [c|st'] s3 H3; wp_step; (split; [done|]); [by left|by right]. }
  destruct (ex =? EX_PARCELABLE); [|wp_step; by split; [|left]].
  apply then_report; [done|apply H2|apply skip_header_safe|]. intros st' s3 H3.
  destruct (negb _); wp_step; (split; [done|]); [by right|by left].
Qed.

Lemma status_read_safe F self s :
  wf (this s) ->
  wpg F (status_readFromParcel self) s (fun r s' => stays s s' /\ reported r).
Proof.
  intros Hwf. unfold status_readFromParcel. pose proof (stays_refl s Hwf) as H0.
  apply then_report; [done|done|apply readInt32_safe|].
  intros [ex|st] s1 H1; [|wp_step; by split; [|right]].
  apply then_report; [done|apply H1| |].
  { destruct (ex =? EX_HAS_REPLY_HEADER); [apply skip_header_safe|apply safe_ret]. }
  intros st s2 H2. destruct (negb _); [wp_step; by split; [|right]|].
  destruct (_ =? EX_NONE); [wp_step; by split; [|left]|]. by apply read_exception_safe.
Qed.

(** C32: a status survives the reply parcel.  A status written with
    [writeToParcel] and read from the same place by a fresh object comes back
    with its exception code and message, and its error code if it is service
    specific, for every exception code but the two special ones; the position
    ends after what was written (except for [EX_PARCELABLE], whose empty blob is
    left unread). *)
Theorem status_roundtrip (s : PS) (st : Status) :
  wf (this s) -> status_valid st -> ~ can_fail (world s) ->
  fits (this s) (zlen (status_bytes st)) -> clear (this s) (zlen (status_bytes st)) ->
  wp (let* pos := getp dataPosition in
      let* w := status_writeToParcel st in
      setDataPosition pos ;;
      let* r := status_readFromParcel Status_ok in
      ret (w, r)) s (fun '(w, r) s' =>
    w = OK /\ fst r = OK /\ exceptionCode (snd r) = exceptionCode st /\
    (isOk st = false -> exceptionMessage (snd r) = exceptionMessage st) /\
    serviceSpecificErrorCode (snd r) = serviceSpecificErrorCode st /\
    dataPosition (this s') = dataPosition (this s) + zlen (status_bytes st) -
      (if mException st =? EX_PARCELABLE then 4 else 0)).
Proof.
  intros Hwf Hv Hmem Hf Hcl. pose proof (ParcelInv.wf_pos _ Hwf). wp_steps.
  wp_use status_write_ok; [done|apply Hv|done|]. intros w s1 [_ [[-> Hw]|[_ []]]]; [|done]. wp_step.
  apply setDataPosition_ok; [apply Hw|rewrite (wrote_size _ _ _ Hwf Hw); unfold dataPosition; lia|].
  intros s2 _ Hwf2 Hp. wp_step.
  wp_use status_read_ok; [done|exact Hv|exact (wrote_avail _ _ _ _ Hwf Hw Hcl Hp)|].
  intros r s3 [-> Hpos]. wp_step. split; [done|]. rewrite (peq_pos _ _ Hp) in Hpos. simpl in Hpos.
  unfold received, isOk, exceptionCode, exceptionMessage, serviceSpecificErrorCode, dataPosition in *.
  zcase (mException st =? EX_NONE); cbn [fst snd mException mMessage mErrorCode].
  - rewrite E in *. by split_and!.
  - split_and!; try done. by destruct (mException st =? EX_SERVICE_SPECIFIC).
Qed.

(** a hostile status.  Whatever a well-formed reply parcel holds,
    [readFromParcel] returns without touching memory outside it; when it
    returns an error, the status object itself says that the transaction failed
    with that error. *)
Theorem status_read_total (s : PS) (self : Status) :
  wf (this s) ->
  wp (status_readFromParcel self) s (fun r s' =>
    world s' = world s /\ wf (this s') /\ contents (this s') = contents (this s) /\
    (fst r = OK \/
     (transactionError (snd r) = fst r /\ exceptionCode (snd r) = EX_TRANSACTION_FAILED))).
Proof.
  intros Hwf. wp_use status_read_safe; [done|]. intros [st r] s' [(Hw & Hwf' & Hp) Hr].
  split_and!; [done|done|by rewrite (peq_contents _ _ Hp)|]. destruct Hr as [Hr|Hr]; simpl in *; [by left|].
  destruct (Z.eq_dec st OK) as [|Hst]; [by left|right]. subst r.
  unfold transactionError, exceptionCode, setFromStatusT. cbn [mException mErrorCode].
  change NO_ERROR with OK. by zdec (st =? OK).
Qed.
End Status.

(** On ASCII, the conversions copy the characters. *)
Lemma status_roundtrip_witness :
  wp (let* pos := getp dataPosition in
      let* w := status_writeToParcel id (mkStatus EX_SERVICE_SPECIFIC 42 [110; 111]) in
      setDataPosition pos ;;
      let* r := status_readFromParcel id Status_ok in
      ret (w, r)) Sample.fresh (fun '(w, r) _ => w = OK /\ serviceSpecificErrorCode (snd r) = 42).
Proof.
  wp_use (status_roundtrip id id Sample.fresh (mkStatus EX_SERVICE_SPECIFIC 42 [110; 111]));
    [apply init_parcel_wf| | |by vm_compute|constructor|].
  - split_and!; try by vm_compute. by repeat (constructor; [by vm_compute|]).
  - apply Sample.calm_allocates.
  - intros [w r] s' (-> & _ & _ & _ & H & _). done.
Defined.

Lemma status_read_total_witness :
  wp (status_readFromParcel id Status_ok) Sample.fresh (fun r _ =>
    fst r = OK \/ exceptionCode (snd r) = EX_TRANSACTION_FAILED).
Proof.
  wp_use (status_read_total id Sample.fresh Status_ok (init_parcel_wf)).
  intros r s' (_ & _ & _ & [H|[_ H]]); auto.
Defined.
