(* ===== verification/PersistableBundle.v ===== *)
(** src/libs/binder/PersistableBundle.cpp: a map from strings to values of eleven
    types, kept in one [std::map] per type, and its format in a parcel.

    A [std::map] is the list of its entries in the order of the keys.  The order of
    [String16] is in libutils: it is a parameter of the development.  As elsewhere a
    [bool] is 0 or 1 and a [double] its bit pattern.  [readFromParcel] adds to the
    object it is called on; what it leaves there when it reports an error is not
    modelled. *)

From S2P Require Import Prelude Errors ParcelState ParcelWrite ParcelRead ParcelData ParcelObject.
From S2P Require Import BinderStatus.

Abbreviation String16 := (list Z).

(** [String16::operator<]. *)
Class String16Order := str_ltb : String16 -> String16 -> bool.

(** * [std::map] *)

Section Map.
Context `{String16Order} {A : Type}.

Fixpoint map_find (key : String16) (m : list (String16 * A)) : option A :=
  match m with
  | [] => None
  | (k, v) :: m' =>
      if str_ltb k key then map_find key m' else if str_ltb key k then None else Some v
  end.

(** [m[key] = v] *)
Fixpoint map_set (key : String16) (v : A) (m : list (String16 * A)) : list (String16 * A) :=
  match m with
  | [] => [(key, v)]
  | (k, x) :: m' =>
      if str_ltb k key then (k, x) :: map_set key v m'
      else if str_ltb key k then (key, v) :: m else (k, v) :: m'
  end.

Fixpoint map_erase (key : String16) (m : list (String16 * A)) : Z * list (String16 * A) :=
  match m with
  | [] => (0, [])
  | (k, x) :: m' =>
      if str_ltb k key then let r := map_erase key m' in (fst r, (k, x) :: snd r)
      else if str_ltb key k then (0, m) else (1, m')
  end.

Definition getValue (key : String16) (m : list (String16 * A)) : option A := map_find key m.
Definition getKeys (m : list (String16 * A)) : list String16 := map fst m.
End Map.

(** * The bundle *)

Definition BUNDLE_MAGIC : Z := 0x4C444E42.
Definition BUNDLE_MAGIC_NATIVE : Z := 0x4C444E44.

Definition VAL_STRING : Z := 0.
Definition VAL_INTEGER : Z := 1.
Definition VAL_LONG : Z := 6.
Definition VAL_DOUBLE : Z := 8.
Definition VAL_BOOLEAN : Z := 9.
Definition VAL_STRINGARRAY : Z := 14.
Definition VAL_INTARRAY : Z := 18.
Definition VAL_LONGARRAY : Z := 19.
Definition VAL_BOOLEANARRAY : Z := 23.
Definition VAL_PERSISTABLEBUNDLE : Z := 25.
Definition VAL_DOUBLEARRAY : Z := 28.

Inductive PersistableBundle := mkPersistableBundle {
  mBoolMap : list (String16 * Z);
  mIntMap : list (String16 * Z);
  mLongMap : list (String16 * Z);
  mDoubleMap : list (String16 * Z);
  mStringMap : list (String16 * String16);
  mBoolVectorMap : list (String16 * list Z);
  mIntVectorMap : list (String16 * list Z);
  mLongVectorMap : list (String16 * list Z);
  mDoubleVectorMap : list (String16 * list Z);
  mStringVectorMap : list (String16 * list String16);
  mPersistableBundleMap : list (String16 * PersistableBundle);
}.

Definition set_mBoolMap (x : list (String16 * Z)) (b : PersistableBundle) :
    PersistableBundle :=
  mkPersistableBundle
    x (mIntMap b) (mLongMap b) (mDoubleMap b) (mStringMap b) (mBoolVectorMap b)
    (mIntVectorMap b) (mLongVectorMap b) (mDoubleVectorMap b) (mStringVectorMap b)
    (mPersistableBundleMap b).
Definition set_mIntMap (x : list (String16 * Z)) (b : PersistableBundle) :
    PersistableBundle :=
  mkPersistableBundle
    (mBoolMap b) x (mLongMap b) (mDoubleMap b) (mStringMap b) (mBoolVectorMap b)
    (mIntVectorMap b) (mLongVectorMap b) (mDoubleVectorMap b) (mStringVectorMap b)
    (mPersistableBundleMap b).
Definition set_mLongMap (x : list (String16 * Z)) (b : PersistableBundle) :
    PersistableBundle :=
  mkPersistableBundle
    (mBoolMap b) (mIntMap b) x (mDoubleMap b) (mStringMap b) (mBoolVectorMap b)
    (mIntVectorMap b) (mLongVectorMap b) (mDoubleVectorMap b) (mStringVectorMap b)
    (mPersistableBundleMap b).
Definition set_mDoubleMap (x : list (String16 * Z)) (b : PersistableBundle) :
    PersistableBundle :=
  mkPersistableBundle
    (mBoolMap b) (mIntMap b) (mLongMap b) x (mStringMap b) (mBoolVectorMap b)
    (mIntVectorMap b) (mLongVectorMap b) (mDoubleVectorMap b) (mStringVectorMap b)
    (mPersistableBundleMap b).
Definition set_mStringMap (x : list (String16 * String16)) (b : PersistableBundle) :
    PersistableBundle :=
  mkPersistableBundle
    (mBoolMap b) (mIntMap b) (mLongMap b) (mDoubleMap b) x (mBoolVectorMap b)
    (mIntVectorMap b) (mLongVectorMap b) (mDoubleVectorMap b) (mStringVectorMap b)
    (mPersistableBundleMap b).
Definition set_mBoolVectorMap (x : list (String16 * list Z)) (b : PersistableBundle) :
    PersistableBundle :=
  mkPersistableBundle
    (mBoolMap b) (mIntMap b) (mLongMap b) (mDoubleMap b) (mStringMap b) x
    (mIntVectorMap b) (mLongVectorMap b) (mDoubleVectorMap b) (mStringVectorMap b)
    (mPersistableBundleMap b).
Definition set_mIntVectorMap (x : list (String16 * list Z)) (b : PersistableBundle) :
    PersistableBundle :=
  mkPersistableBundle
    (mBoolMap b) (mIntMap b) (mLongMap b) (mDoubleMap b) (mStringMap b)
    (mBoolVectorMap b) x (mLongVectorMap b) (mDoubleVectorMap b) (mStringVectorMap b)
    (mPersistableBundleMap b).
Definition set_mLongVectorMap (x : list (String16 * list Z)) (b : PersistableBundle) :
    PersistableBundle :=
  mkPersistableBundle
    (mBoolMap b) (mIntMap b) (mLongMap b) (mDoubleMap b) (mStringMap b)
    (mBoolVectorMap b) (mIntVectorMap b) x (mDoubleVectorMap b) (mStringVectorMap b)
    (mPersistableBundleMap b).
Definition set_mDoubleVectorMap (x : list (String16 * list Z)) (b : PersistableBundle) :
    PersistableBundle :=
  mkPersistableBundle
    (mBoolMap b) (mIntMap b) (mLongMap b) (mDoubleMap b) (mStringMap b)
    (mBoolVectorMap b) (mIntVectorMap b) (mLongVectorMap b) x (mStringVectorMap b)
    (mPersistableBundleMap b).
Definition set_mStringVectorMap (x : list (String16 * list String16)) (b : PersistableBundle) :
    PersistableBundle :=
  mkPersistableBundle
    (mBoolMap b) (mIntMap b) (mLongMap b) (mDoubleMap b) (mStringMap b)
    (mBoolVectorMap b) (mIntVectorMap b) (mLongVectorMap b) (mDoubleVectorMap b) x
    (mPersistableBundleMap b).
Definition set_mPersistableBundleMap (x : list (String16 * PersistableBundle)) (b : PersistableBundle) :
    PersistableBundle :=
  mkPersistableBundle
    (mBoolMap b) (mIntMap b) (mLongMap b) (mDoubleMap b) (mStringMap b)
    (mBoolVectorMap b) (mIntVectorMap b) (mLongVectorMap b) (mDoubleVectorMap b)
    (mStringVectorMap b) x.

Definition empty_bundle : PersistableBundle :=
  mkPersistableBundle [] [] [] [] [] [] [] [] [] [] [].

Definition bundle_size (b : PersistableBundle) : Z :=
  zlen (mBoolMap b) +
  zlen (mIntMap b) +
  zlen (mLongMap b) +
  zlen (mDoubleMap b) +
  zlen (mStringMap b) +
  zlen (mBoolVectorMap b) +
  zlen (mIntVectorMap b) +
  zlen (mLongVectorMap b) +
  zlen (mDoubleVectorMap b) +
  zlen (mStringVectorMap b) +
  zlen (mPersistableBundleMap b).

Definition bundle_empty (b : PersistableBundle) : bool := bundle_size b =? 0.

Section Bundle.
Context `{String16Order}.

(** [RETURN_IF_ENTRY_ERASED] *)
Definition erase_or {A} (key : String16) (m : list (String16 * A))
    (set : list (String16 * A) -> PersistableBundle) (next : Z * PersistableBundle) :
    Z * PersistableBundle :=
  let r := map_erase key m in
  if negb (fst r =? 0) then (fst r, set (snd r)) else next.

Definition erase (key : String16) (b : PersistableBundle) : Z * PersistableBundle :=
  erase_or key (mBoolMap b) (fun m => set_mBoolMap m b) (
  erase_or key (mIntMap b) (fun m => set_mIntMap m b) (
  erase_or key (mLongMap b) (fun m => set_mLongMap m b) (
  erase_or key (mDoubleMap b) (fun m => set_mDoubleMap m b) (
  erase_or key (mStringMap b) (fun m => set_mStringMap m b) (
  erase_or key (mBoolVectorMap b) (fun m => set_mBoolVectorMap m b) (
  erase_or key (mIntVectorMap b) (fun m => set_mIntVectorMap m b) (
  erase_or key (mLongVectorMap b) (fun m => set_mLongVectorMap m b) (
  erase_or key (mDoubleVectorMap b) (fun m => set_mDoubleVectorMap m b) (
  erase_or key (mStringVectorMap b) (fun m => set_mStringVectorMap m b) (
  let r := map_erase key (mPersistableBundleMap b) in (fst r, set_mPersistableBundleMap (snd r) b))))))))))).

Definition putBoolean (key : String16) (value : Z) (b : PersistableBundle) : PersistableBundle :=
  let b := snd (erase key b) in set_mBoolMap (map_set key value (mBoolMap b)) b.
Definition putInt (key : String16) (value : Z) (b : PersistableBundle) : PersistableBundle :=
  let b := snd (erase key b) in set_mIntMap (map_set key value (mIntMap b)) b.
Definition putLong (key : String16) (value : Z) (b : PersistableBundle) : PersistableBundle :=
  let b := snd (erase key b) in set_mLongMap (map_set key value (mLongMap b)) b.
Definition putDouble (key : String16) (value : Z) (b : PersistableBundle) : PersistableBundle :=
  let b := snd (erase key b) in set_mDoubleMap (map_set key value (mDoubleMap b)) b.
Definition putString (key : String16) (value : String16) (b : PersistableBundle) : PersistableBundle :=
  let b := snd (erase key b) in set_mStringMap (map_set key value (mStringMap b)) b.
Definition putBooleanVector (key : String16) (value : list Z) (b : PersistableBundle) : PersistableBundle :=
  let b := snd (erase key b) in set_mBoolVectorMap (map_set key value (mBoolVectorMap b)) b.
Definition putIntVector (key : String16) (value : list Z) (b : PersistableBundle) : PersistableBundle :=
  let b := snd (erase key b) in set_mIntVectorMap (map_set key value (mIntVectorMap b)) b.
Definition putLongVector (key : String16) (value : list Z) (b : PersistableBundle) : PersistableBundle :=
  let b := snd (erase key b) in set_mLongVectorMap (map_set key value (mLongVectorMap b)) b.
Definition putDoubleVector (key : String16) (value : list Z) (b : PersistableBundle) : PersistableBundle :=
  let b := snd (erase key b) in set_mDoubleVectorMap (map_set key value (mDoubleVectorMap b)) b.
Definition putStringVector (key : String16) (value : list String16) (b : PersistableBundle) : PersistableBundle :=
  let b := snd (erase key b) in set_mStringVectorMap (map_set key value (mStringVectorMap b)) b.
Definition putPersistableBundle (key : String16) (value : PersistableBundle) (b : PersistableBundle) : PersistableBundle :=
  let b := snd (erase key b) in set_mPersistableBundleMap (map_set key value (mPersistableBundleMap b)) b.

Definition getBoolean (key : String16) (b : PersistableBundle) : option Z := getValue key (mBoolMap b).
Definition getInt (key : String16) (b : PersistableBundle) : option Z := getValue key (mIntMap b).
Definition getLong (key : String16) (b : PersistableBundle) : option Z := getValue key (mLongMap b).
Definition getDouble (key : String16) (b : PersistableBundle) : option Z := getValue key (mDoubleMap b).
Definition getString (key : String16) (b : PersistableBundle) : option String16 := getValue key (mStringMap b).
Definition getBooleanVector (key : String16) (b : PersistableBundle) : option (list Z) := getValue key (mBoolVectorMap b).
Definition getIntVector (key : String16) (b : PersistableBundle) : option (list Z) := getValue key (mIntVectorMap b).
Definition getLongVector (key : String16) (b : PersistableBundle) : option (list Z) := getValue key (mLongVectorMap b).
Definition getDoubleVector (key : String16) (b : PersistableBundle) : option (list Z) := getValue key (mDoubleVectorMap b).
Definition getStringVector (key : String16) (b : PersistableBundle) : option (list String16) := getValue key (mStringVectorMap b).
Definition getPersistableBundle (key : String16) (b : PersistableBundle) : option PersistableBundle := getValue key (mPersistableBundleMap b).

Definition getBooleanKeys (b : PersistableBundle) : list String16 := getKeys (mBoolMap b).
Definition getIntKeys (b : PersistableBundle) : list String16 := getKeys (mIntMap b).
Definition getLongKeys (b : PersistableBundle) : list String16 := getKeys (mLongMap b).
Definition getDoubleKeys (b : PersistableBundle) : list String16 := getKeys (mDoubleMap b).
Definition getStringKeys (b : PersistableBundle) : list String16 := getKeys (mStringMap b).
Definition getBooleanVectorKeys (b : PersistableBundle) : list String16 := getKeys (mBoolVectorMap b).
Definition getIntVectorKeys (b : PersistableBundle) : list String16 := getKeys (mIntVectorMap b).
Definition getLongVectorKeys (b : PersistableBundle) : list String16 := getKeys (mLongVectorMap b).
Definition getDoubleVectorKeys (b : PersistableBundle) : list String16 := getKeys (mDoubleVectorMap b).
Definition getStringVectorKeys (b : PersistableBundle) : list String16 := getKeys (mStringVectorMap b).
Definition getPersistableBundleKeys (b : PersistableBundle) : list String16 := getKeys (mPersistableBundleMap b).

(** * Writing *)

Definition write_entry {A} (type : Z) (value : A -> M PS status_t) (e : String16 * A) : M PS status_t :=
  writeString16 (Some (fst e)) (zlen (fst e)) ;;?
  writeInt32 type ;;?
  value (snd e).

(** [nested]: [writeToParcel] of the bundles in the bundle. *)
Definition writeToParcelInner (nested : PersistableBundle -> M PS status_t) (b : PersistableBundle) :
    M PS status_t :=
  if INT32_MAX <? bundle_size b then ret BAD_VALUE else
  writeInt32 (s32 (bundle_size b)) ;;?
  write_each (write_entry VAL_BOOLEAN (writeData (K := Empty_set) (TPrim Bool))) (mBoolMap b) ;;?
  write_each (write_entry VAL_INTEGER (writeData (K := Empty_set) (TPrim Int32))) (mIntMap b) ;;?
  write_each (write_entry VAL_LONG (writeData (K := Empty_set) (TPrim Int64))) (mLongMap b) ;;?
  write_each (write_entry VAL_DOUBLE (writeData (K := Empty_set) (TPrim Double))) (mDoubleMap b) ;;?
  write_each (write_entry VAL_STRING (writeData (K := Empty_set) TString16)) (mStringMap b) ;;?
  write_each (write_entry VAL_BOOLEANARRAY (writeData (K := Empty_set) (TVector (TPrim Bool)))) (mBoolVectorMap b) ;;?
  write_each (write_entry VAL_INTARRAY (writeData (K := Empty_set) (TVector (TPrim Int32)))) (mIntVectorMap b) ;;?
  write_each (write_entry VAL_LONGARRAY (writeData (K := Empty_set) (TVector (TPrim Int64)))) (mLongVectorMap b) ;;?
  write_each (write_entry VAL_DOUBLEARRAY (writeData (K := Empty_set) (TVector (TPrim Double)))) (mDoubleVectorMap b) ;;?
  write_each (write_entry VAL_STRINGARRAY (writeData (K := Empty_set) (TVector TString16))) (mStringVectorMap b) ;;?
  write_each (write_entry VAL_PERSISTABLEBUNDLE nested) (mPersistableBundleMap b).

Fixpoint writeToParcel_ (b : PersistableBundle) : M PS status_t :=
  if bundle_empty b then writeInt32 0 else
  let* length_pos := getp dataPosition in
  writeInt32 1 ;;?
  writeInt32 BUNDLE_MAGIC_NATIVE ;;?
  let* start_pos := getp dataPosition in
  writeToParcelInner writeToParcel_ b ;;?
  let* end_pos := getp dataPosition in
  setDataPosition length_pos ;;
  let length := u64 (end_pos - start_pos) in
  if INT32_MAX <? length then ret BAD_VALUE else
  writeInt32 (s32 length) ;;?
  setDataPosition end_pos ;;
  ret NO_ERROR.

(** * Reading *)

(** [loop]: the entries of a bundle, from [num_entries] and the bundle so far. *)
Definition readFromParcelInner (loop : Z -> PersistableBundle -> M PS (res PersistableBundle))
    (b : PersistableBundle) (length : Z) : M PS (res PersistableBundle) :=
  if length =? 0 then ret (Good b) else
  let? magic := readInt32 in
  if negb (magic =? BUNDLE_MAGIC) && negb (magic =? BUNDLE_MAGIC_NATIVE) then ret (Err BAD_VALUE) else
  let? num_entries := readInt32 in
  loop num_entries b.

Definition read_bundle (loop : Z -> PersistableBundle -> M PS (res PersistableBundle))
    (b : PersistableBundle) : M PS (res PersistableBundle) :=
  let* length := readInt32_ in
  if length <? 0 then ret (Err UNEXPECTED_NULL) else
  readFromParcelInner loop b length.

(** A value of the types below read into the entry of [key]. *)
Definition read_into {A} (value : M PS (res A)) (key : String16) (m : list (String16 * A))
    (set : list (String16 * A) -> PersistableBundle) : M PS (res PersistableBundle) :=
  let? v := value in ret (Good (set (map_set key v m))).

Definition read_value (loop : Z -> PersistableBundle -> M PS (res PersistableBundle))
    (value_type : Z) (key : String16) (b : PersistableBundle) : M PS (res PersistableBundle) :=
  if value_type =? VAL_STRING then
    read_into (readData (K := Empty_set) TString16) key (mStringMap b) (fun m => set_mStringMap m b)
  else if value_type =? VAL_INTEGER then
    read_into (readData (K := Empty_set) (TPrim Int32)) key (mIntMap b) (fun m => set_mIntMap m b)
  else if value_type =? VAL_LONG then
    read_into (readData (K := Empty_set) (TPrim Int64)) key (mLongMap b) (fun m => set_mLongMap m b)
  else if value_type =? VAL_DOUBLE then
    read_into (readData (K := Empty_set) (TPrim Double)) key (mDoubleMap b) (fun m => set_mDoubleMap m b)
  else if value_type =? VAL_BOOLEAN then
    read_into (readData (K := Empty_set) (TPrim Bool)) key (mBoolMap b) (fun m => set_mBoolMap m b)
  else if value_type =? VAL_STRINGARRAY then
    read_into (readData (K := Empty_set) (TVector TString16)) key (mStringVectorMap b) (fun m => set_mStringVectorMap m b)
  else if value_type =? VAL_INTARRAY then
    read_into (readData (K := Empty_set) (TVector (TPrim Int32))) key (mIntVectorMap b) (fun m => set_mIntVectorMap m b)
  else if value_type =? VAL_LONGARRAY then
    read_into (readData (K := Empty_set) (TVector (TPrim Int64))) key (mLongVectorMap b) (fun m => set_mLongVectorMap m b)
  else if value_type =? VAL_BOOLEANARRAY then
    read_into (readData (K := Empty_set) (TVector (TPrim Bool))) key (mBoolVectorMap b) (fun m => set_mBoolVectorMap m b)
  else if value_type =? VAL_PERSISTABLEBUNDLE then
    read_into (read_bundle loop (default empty_bundle (map_find key (mPersistableBundleMap b)))) key (mPersistableBundleMap b)
      (fun m => set_mPersistableBundleMap m b)
  else if value_type =? VAL_DOUBLEARRAY then
    read_into (readData (K := Empty_set) (TVector (TPrim Double))) key (mDoubleVectorMap b) (fun m => set_mDoubleVectorMap m b)
  else ret (Err BAD_TYPE).

Fixpoint read_entries (fuel : nat) (num_entries : Z) (b : PersistableBundle) :
    M PS (res PersistableBundle) :=
  match fuel with
  | 0%nat => fault
  | S fuel =>
      if num_entries <=? 0 then ret (Good b) else
      let? key := (let* r := readString16 in ret (res_of r)) in
      let? value_type := readInt32 in
      let? b := read_value (read_entries fuel) value_type key b in
      read_entries fuel (num_entries - 1) b
  end.

(** Every entry takes bytes off the parcel, so their number bounds the loops. *)
Definition readFromParcel_ (b : PersistableBundle) : M PS (res PersistableBundle) :=
  let* p := gets this in
  read_bundle (read_entries (S (Z.to_nat (mDataSize p)))) b.
End Bundle.
