(* ===== verification/BundleProps.v ===== *)
(** The eleven maps of a bundle implement one map: what [put], [get] and [erase] of
    src/libs/binder/PersistableBundle.cpp do to it. *)

From S2P Require Import Prelude Errors ParcelState ParcelData PersistableBundle.
From Stdlib Require Import Sorting.Sorted.

(** [operator<] of strings is a strict total order. *)
Class String16OrderLaws `{String16Order} : Prop := {
  ltb_irrefl a : str_ltb a a = false;
  ltb_trans a b c : str_ltb a b = true -> str_ltb b c = true -> str_ltb a c = true;
  ltb_total a b : str_ltb a b = false -> str_ltb b a = false -> a = b;
}.

(** * One [std::map] *)

Section Map.
Context `{String16OrderLaws} {A : Type}.
Implicit Types (key : String16) (m : list (String16 * A)).

Definition before (x y : String16 * A) : Prop := str_ltb (fst x) (fst y) = true.
Definition sorted m : Prop := StronglySorted before m.

Lemma ltb_ne a b : str_ltb a b = true -> a <> b.
Proof. intros E ->. by rewrite ltb_irrefl in E. Qed.

Lemma before_absent key m x :
  str_ltb key x = true -> Forall (fun e => str_ltb x (fst e) = true) m -> key ∉ m.*1.
Proof.
  intros Hx Hm (e & -> & He)%list_elem_of_fmap. rewrite Forall_forall in Hm.
  pose proof (ltb_trans _ _ _ Hx (Hm e He)) as E. by rewrite ltb_irrefl in E.
Qed.

(** The first entry of a sorted map, and how it compares with a key. *)
Lemma sorted_cons k x m : sorted ((k, x) :: m) ->
  sorted m /\ Forall (fun e => str_ltb k (fst e) = true) m /\ k ∉ m.*1.
Proof.
  intros [Hs Hf]%StronglySorted_inv. split_and!; [done|done|].
  intros (e & E & He)%list_elem_of_fmap. rewrite Forall_forall in Hf. specialize (Hf e He).
  unfold before in Hf. cbn in Hf. rewrite <- E, ltb_irrefl in Hf. done.
Qed.

Lemma map_find_spec key m : sorted m -> map_find key m = (list_to_map m : gmap String16 A) !! key.
Proof.
  induction m as [|[k x] m IH]; intros Hs; cbn; [done|].
  apply sorted_cons in Hs as (Hs & Hf & Ha). destruct (str_ltb k key) eqn:E1.
  - rewrite lookup_insert_ne by (by apply ltb_ne). by apply IH.
  - destruct (str_ltb key k) eqn:E2.
    + rewrite lookup_insert_ne by (intros ->; by rewrite ltb_irrefl in E2).
      symmetry. by eapply not_elem_of_list_to_map, before_absent.
    + rewrite (ltb_total _ _ E1 E2). by rewrite lookup_insert_eq.
Qed.

Lemma map_set_after key v m x : str_ltb x key = true ->
  Forall (fun e => str_ltb x (fst e) = true) m -> Forall (fun e => str_ltb x (fst e) = true) (map_set key v m).
Proof.
  intros Hx. induction m as [|[k y] m IH]; intros Hf; cbn; [by repeat constructor|].
  apply Forall_cons in Hf as [Hk Hf]. repeat case_match; repeat constructor; auto.
Qed.

Lemma map_set_sorted key v m : sorted m -> sorted (map_set key v m).
Proof.
  induction m as [|[k x] m IH]; intros Hs; cbn; [by repeat constructor|].
  pose proof Hs as (Hs' & Hf & _)%sorted_cons. destruct (str_ltb k key) eqn:E1.
  - constructor; [by apply IH|]. by apply map_set_after.
  - destruct (str_ltb key k) eqn:E2; [|rewrite <- (ltb_total _ _ E1 E2) in *; by constructor].
    constructor; [done|]. constructor; [done|]. eapply Forall_impl; [exact Hf|].
    intros e He. by eapply ltb_trans.
Qed.

Lemma map_set_new key v m : sorted m -> key ∉ m.*1 -> map_set key v m ≡ₚ (key, v) :: m.
Proof.
  induction m as [|[k x] m IH]; intros Hs Ha; cbn; [done|]. apply not_elem_of_cons in Ha as [Hne Ha].
  apply sorted_cons in Hs as (Hs & _ & _). destruct (str_ltb k key) eqn:E1.
  - rewrite IH by done. apply Permutation_swap.
  - destruct (str_ltb key k) eqn:E2; [done|]. by destruct (Hne (ltb_total _ _ E2 E1)).
Qed.

(** Entries in order are added at the end. *)
Lemma map_set_last key v m : Forall (fun e => str_ltb (fst e) key = true) m -> map_set key v m = m ++ [(key, v)].
Proof.
  induction m as [|[k x] m IH]; intros Hf; cbn; [done|]. apply Forall_cons in Hf as [Hk Hf]. cbn in Hk. rewrite Hk. by rewrite IH.
Qed.

Lemma filter_absent key m : key ∉ m.*1 -> filter (fun e => fst e <> key) m = m.
Proof.
  induction m as [|e m IH]; intros Ha; [done|]. apply not_elem_of_cons in Ha as [Hne Ha].
  rewrite filter_cons_True, IH; [done|done|]. intros E. by apply Hne.
Qed.

Lemma map_erase_spec key m : sorted m ->
  map_erase key m = (if decide (key ∈ m.*1) then 1 else 0, filter (fun e => fst e <> key) m).
Proof.
  induction m as [|[k x] m IH]; intros Hs; cbn [map_erase]; [done|].
  apply sorted_cons in Hs as (Hs & Hf & Ha). rewrite filter_cons. cbn [fst fmap list_fmap].
  destruct (str_ltb k key) eqn:E1.
  - pose proof (ltb_ne _ _ E1) as Hne. rewrite IH by done.
    rewrite (decide_True (P := k <> key)) by done. cbn [fst snd]. f_equal.
    destruct (decide (key ∈ m.*1)), (decide (key ∈ k :: m.*1)); try done; exfalso; set_solver.
  - destruct (str_ltb key k) eqn:E2.
    + pose proof (before_absent key m k E2 Hf) as Hn. pose proof (ltb_ne _ _ E2) as Hne.
      rewrite decide_False by set_solver.
      rewrite (decide_True (P := k <> key)) by congruence. by rewrite filter_absent.
    + rewrite <- (ltb_total _ _ E1 E2) in *. rewrite decide_True by left.
      rewrite decide_False by auto. by rewrite filter_absent.
Qed.

Lemma sorted_filter (P : String16 * A -> Prop) `{!forall e, Decision (P e)} m : sorted m -> sorted (filter P m).
Proof.
  induction m as [|e m IH]; intros Hs; [constructor|]. apply StronglySorted_inv in Hs as [Hs Hf].
  rewrite filter_cons. case_decide; [|by apply IH]. constructor; [by apply IH|].
  rewrite Forall_forall in Hf |- *. intros x [_ Hx]%list_elem_of_filter. by apply Hf.
Qed.
End Map.

(** * The bundle as one map *)

Inductive value :=
| VBoolean (v : Z)
| VInt (v : Z)
| VLong (v : Z)
| VDouble (v : Z)
| VString (v : String16)
| VBooleanVector (v : list Z)
| VIntVector (v : list Z)
| VLongVector (v : list Z)
| VDoubleVector (v : list Z)
| VStringVector (v : list String16)
| VPersistableBundle (v : PersistableBundle).

Definition tag {A} (f : A -> value) (m : list (String16 * A)) : list (String16 * value) :=
  map (fun e => (fst e, f (snd e))) m.

Definition entries (b : PersistableBundle) : list (String16 * value) :=
  tag VBoolean (mBoolMap b) ++ tag VInt (mIntMap b) ++ tag VLong (mLongMap b) ++
  tag VDouble (mDoubleMap b) ++ tag VString (mStringMap b) ++ tag VBooleanVector (mBoolVectorMap b) ++
  tag VIntVector (mIntVectorMap b) ++ tag VLongVector (mLongVectorMap b) ++ tag VDoubleVector (mDoubleVectorMap b) ++
  tag VStringVector (mStringVectorMap b) ++ tag VPersistableBundle (mPersistableBundleMap b).

(** The map from keys to values that a bundle stands for. *)
Definition view (b : PersistableBundle) : gmap String16 value := list_to_map (entries b).

Definition put `{String16Order} (key : String16) (v : value) : PersistableBundle -> PersistableBundle :=
  match v with
  | VBoolean x => putBoolean key x
  | VInt x => putInt key x
  | VLong x => putLong key x
  | VDouble x => putDouble key x
  | VString x => putString key x
  | VBooleanVector x => putBooleanVector key x
  | VIntVector x => putIntVector key x
  | VLongVector x => putLongVector key x
  | VDoubleVector x => putDoubleVector key x
  | VStringVector x => putStringVector key x
  | VPersistableBundle x => putPersistableBundle key x
  end.

Lemma tag_keys {A} (f : A -> value) m : (tag f m).*1 = m.*1.
Proof. induction m as [|e m IH]; cbn; [done|]. by f_equal. Qed.

Lemma elem_of_tag {A} (f : A -> value) m k v : (k, v) ∈ tag f m <-> exists x, v = f x /\ (k, x) ∈ m.
Proof.
  unfold tag. rewrite list_elem_of_fmap. split.
  - intros ([k' x] & [= -> ->] & H). eauto.
  - intros (x & -> & H). by exists (k, x).
Qed.

Lemma tag_filter {A} (f : A -> value) key m :
  filter (fun e => fst e <> key) (tag f m) = tag f (filter (fun e => fst e <> key) m).
Proof.
  induction m as [|e m IH]; [done|]. cbn [tag map]. rewrite !filter_cons. cbn [fst].
  case_decide; cbn [tag map]; fold (tag f m); by rewrite IH.
Qed.

Section Bundle.
Context `{String16OrderLaws}.
Implicit Types b : PersistableBundle.

(** Every map is in order, and a key is in at most one of them. *)
Record maps_sorted b : Prop := {
  so_mBoolMap : sorted (mBoolMap b);
  so_mIntMap : sorted (mIntMap b);
  so_mLongMap : sorted (mLongMap b);
  so_mDoubleMap : sorted (mDoubleMap b);
  so_mStringMap : sorted (mStringMap b);
  so_mBoolVectorMap : sorted (mBoolVectorMap b);
  so_mIntVectorMap : sorted (mIntVectorMap b);
  so_mLongVectorMap : sorted (mLongVectorMap b);
  so_mDoubleVectorMap : sorted (mDoubleVectorMap b);
  so_mStringVectorMap : sorted (mStringVectorMap b);
  so_mPersistableBundleMap : sorted (mPersistableBundleMap b);
}.
Record distinct b : Prop := {
  ds_sorted : maps_sorted b;
  ds_keys : NoDup (entries b).*1;
}.

Lemma key_in_entries b key : key ∈ (entries b).*1 <->
  key ∈ (mBoolMap b).*1 \/
  key ∈ (mIntMap b).*1 \/
  key ∈ (mLongMap b).*1 \/
  key ∈ (mDoubleMap b).*1 \/
  key ∈ (mStringMap b).*1 \/
  key ∈ (mBoolVectorMap b).*1 \/
  key ∈ (mIntVectorMap b).*1 \/
  key ∈ (mLongVectorMap b).*1 \/
  key ∈ (mDoubleVectorMap b).*1 \/
  key ∈ (mStringVectorMap b).*1 \/
  key ∈ (mPersistableBundleMap b).*1.
Proof. unfold entries. by rewrite !fmap_app, !elem_of_app, !tag_keys. Qed.

(** The entries [l] that follow [pre] in the bundle, without the key. *)
Record erased (key : String16) (pre l : list (String16 * value)) (r : Z * PersistableBundle) : Prop := {
  er_entries : entries (snd r) = pre ++ filter (fun e => fst e <> key) l;
  er_sorted : maps_sorted (snd r);
  er_count : fst r = if decide (key ∈ l.*1) then 1 else 0;
}.

Lemma erase_or_ok {A} key (m : list (String16 * A)) f set next pre l :
  sorted m -> NoDup (tag f m ++ l).*1 ->
  (forall m', sorted m' -> entries (set m') = pre ++ tag f m' ++ l /\ maps_sorted (set m')) ->
  erased key (pre ++ tag f m) l next -> erased key pre (tag f m ++ l) (erase_or key m set next).
Proof.
  intros Hm Hd Hset [N1 N2 N3]. unfold erase_or. rewrite map_erase_spec by done. cbn [fst snd].
  rewrite fmap_app, tag_keys in Hd. apply NoDup_app in Hd as (_ & Hd & _).
  destruct (decide (key ∈ m.*1)) as [Hk|Hk]; cbn [negb Z.eqb].
  - destruct (Hset (filter (fun e => fst e <> key) m)) as [E1 E2]; [by apply sorted_filter|].
    split; cbn [fst snd]; [|done|].
    + rewrite E1, filter_app, tag_filter. f_equal. f_equal. symmetry. apply filter_absent. by apply Hd.
    + rewrite decide_True; [done|]. rewrite fmap_app, tag_keys. set_solver.
  - split; cbn [fst snd]; [|done|].
    + rewrite N1, filter_app, tag_filter, (filter_absent key m) by done. by rewrite <- app_assoc.
    + rewrite N3. rewrite fmap_app, tag_keys.
      destruct (decide (key ∈ l.*1)), (decide (key ∈ m.*1 ++ l.*1)); try done; exfalso; set_solver.
Qed.

(** [erase] removes the entry of the key, if there is one. *)
Lemma erase_spec key b : distinct b -> erased key [] (entries b) (erase key b).
Proof.
  intros [Hs Hd]. unfold entries at 1 in Hd. unfold entries. pose proof Hs as []. unfold erase.
  repeat (eapply erase_or_ok; [done|exact Hd| |
    let H' := fresh in rewrite fmap_app in Hd; apply NoDup_app in Hd as (_ & _ & Hd)];
    [intros m' Hm'; split; [by rewrite <- ?app_assoc|by split]|]).
  rewrite map_erase_spec by done. split; cbn [fst snd].
  - unfold entries. cbn. rewrite tag_filter, <- ?app_assoc. done.
  - split; cbn; try done. by apply sorted_filter.
  - by rewrite tag_keys.
Qed.

Lemma tag_set {A} (f : A -> value) key x m :
  sorted m -> key ∉ m.*1 -> tag f (map_set key x m) ≡ₚ (key, f x) :: tag f m.
Proof. intros Hs Ha. unfold tag. by rewrite (map_set_new key x m Hs Ha). Qed.

Lemma filter_keys key (l : list (String16 * value)) : key ∉ (filter (fun e => fst e <> key) l).*1.
Proof. intros (e & -> & [He _]%list_elem_of_filter)%list_elem_of_fmap. done. Qed.

Lemma filter_NoDup key (l : list (String16 * value)) :
  NoDup l.*1 -> NoDup (filter (fun e => fst e <> key) l).*1.
Proof.
  induction l as [|e l IH]; intros Hd; [done|]. apply NoDup_cons in Hd as [Hn Hd]. rewrite filter_cons.
  case_decide; [|by apply IH]. cbn. apply NoDup_cons. split; [|by apply IH].
  intros (x & E & [_ Hx]%list_elem_of_filter)%list_elem_of_fmap. apply Hn, list_elem_of_fmap. eauto.
Qed.

(** [put] replaces the entry of the key. *)
Lemma put_spec key v b : distinct b ->
  entries (put key v b) ≡ₚ (key, v) :: filter (fun e => fst e <> key) (entries b) /\
  maps_sorted (put key v b).
Proof.
  intros Hb. destruct (erase_spec key b Hb) as [E1 E2 _]. cbn in E1.
  assert (Ha : key ∉ (entries (snd (erase key b))).*1) by (rewrite E1; apply filter_keys).
  rewrite <- E1. clear E1. rewrite key_in_entries in Ha. repeat apply Decidable.not_or in Ha as [? Ha].
  pose proof E2 as [].
  destruct v; cbn [put]; (split; [|by split; try done; cbn; apply map_set_sorted]);
    unfold entries; cbn -[tag map_set erase]; rewrite tag_set by done; cbn -[tag erase];
    by rewrite <- ?Permutation_middle.
Qed.

Lemma list_to_map_filter key (l : list (String16 * value)) :
  list_to_map (M := gmap String16 value) (filter (fun e => fst e <> key) l) =
  delete key (list_to_map l).
Proof.
  induction l as [|[k v] l IH]; [cbn; by rewrite delete_empty|]. rewrite filter_cons. cbn [fst].
  case_decide as E; cbn.
  - by rewrite IH, delete_insert_ne by congruence.
  - subst k. by rewrite IH, delete_insert_eq.
Qed.

Lemma put_ok key v b : distinct b ->
  distinct (put key v b) /\ view (put key v b) = <[key := v]> (view b).
Proof.
  intros Hb. destruct (put_spec key v b Hb) as [E1 E2].
  assert (Hd : NoDup (entries (put key v b)).*1).
  { rewrite E1. cbn. apply NoDup_cons. split; [apply filter_keys|]. apply filter_NoDup, Hb. }
  split; [done|]. unfold view. rewrite (list_to_map_proper _ _ Hd E1). cbn.
  by rewrite list_to_map_filter, insert_delete_eq.
Qed.

Lemma erase_ok key b : distinct b ->
  distinct (snd (erase key b)) /\ view (snd (erase key b)) = delete key (view b) /\
  fst (erase key b) = if decide (is_Some (view b !! key)) then 1 else 0.
Proof.
  intros Hb. destruct (erase_spec key b Hb) as [E1 E2 E3]. cbn in E1. split_and!.
  - split; [done|]. rewrite E1. apply filter_NoDup, Hb.
  - unfold view. rewrite E1. apply list_to_map_filter.
  - rewrite E3. apply decide_ext. unfold view.
    by rewrite <- elem_of_dom, dom_list_to_map_L, elem_of_list_to_set.
Qed.

(** What a getter and the list of keys of its type return. *)
Definition reads {A} (get : option A) (keys : list String16) (f : A -> value) (key : String16)
    (m : gmap String16 value) : Prop :=
  (forall x, get = Some x <-> m !! key = Some (f x)) /\
  (key ∈ keys <-> exists x, m !! key = Some (f x)).

Lemma reads_ok {A} (m : list (String16 * A)) (f : A -> value) key b :
  distinct b -> sorted m -> NoDup m.*1 ->
  (forall x, (key, f x) ∈ entries b <-> (key, x) ∈ m) ->
  reads (getValue key m) (getKeys m) f key (view b).
Proof.
  intros [_ Hd] Hm Hn Hx.
  assert (Hv : forall x, view b !! key = Some (f x) <-> (key, x) ∈ m).
  { intros x. rewrite <- Hx. symmetry. by apply elem_of_list_to_map. }
  split.
  - intros x. unfold getValue. rewrite Hv, map_find_spec by done. symmetry. by apply elem_of_list_to_map.
  - unfold getKeys. rewrite list_elem_of_fmap. setoid_rewrite Hv. split.
    + intros ([k x] & -> & H'). eauto.
    + intros [x H']. by exists (key, x).
Qed.

Lemma entries_size b : bundle_size b = zlen (entries b).
Proof. unfold bundle_size, entries, tag. rewrite !zlen_app, !zlen_map. lia. Qed.

(** C6: a bundle is one map.  Whatever is put into it and erased from it, a bundle
    holds for each key at most one value, of one type: [put] of any of the eleven
    types replaces what the key had before, also a value of another type, and
    changes nothing else; [erase] removes the key and returns how many entries that
    were; the getter of a type succeeds exactly when the key has a value of this
    type, and returns it; the keys of a type are those; and [size] counts the keys. *)
Theorem bundle_is_a_map (key : String16) (v : value) (b : PersistableBundle) :
  distinct b ->
  (distinct (put key v b) /\ view (put key v b) = <[key := v]> (view b)) /\
  (distinct (snd (erase key b)) /\ view (snd (erase key b)) = delete key (view b) /\
   fst (erase key b) = if decide (is_Some (view b !! key)) then 1 else 0) /\
  bundle_size b = Z.of_nat (base.size (view b)) /\
  reads (getBoolean key b) (getBooleanKeys b) VBoolean key (view b) /\
  reads (getInt key b) (getIntKeys b) VInt key (view b) /\
  reads (getLong key b) (getLongKeys b) VLong key (view b) /\
  reads (getDouble key b) (getDoubleKeys b) VDouble key (view b) /\
  reads (getString key b) (getStringKeys b) VString key (view b) /\
  reads (getBooleanVector key b) (getBooleanVectorKeys b) VBooleanVector key (view b) /\
  reads (getIntVector key b) (getIntVectorKeys b) VIntVector key (view b) /\
  reads (getLongVector key b) (getLongVectorKeys b) VLongVector key (view b) /\
  reads (getDoubleVector key b) (getDoubleVectorKeys b) VDoubleVector key (view b) /\
  reads (getStringVector key b) (getStringVectorKeys b) VStringVector key (view b) /\
  reads (getPersistableBundle key b) (getPersistableBundleKeys b) VPersistableBundle key (view b).
Proof.
  intros Hb. pose proof Hb as [Hs Hd]. split; [by apply put_ok|]. split; [by apply erase_ok|]. split.
  { rewrite entries_size. unfold view. by rewrite map_size_list_to_map. }
  pose proof Hs as []. pose proof Hd as Hn. unfold entries in Hn. rewrite !fmap_app, !tag_keys in Hn.
  repeat match type of Hn with NoDup (_ ++ _) => apply NoDup_app in Hn as (? & _ & Hn) end.
  split_and!; (apply reads_ok; [done|done|done|]); intros x; unfold entries;
    rewrite !elem_of_app, !elem_of_tag; naive_solver.
Qed.
End Bundle.
