(* ===== verification/BundleParcel.v ===== *)
(** Bundles in parcels: what [writeToParcel] of PersistableBundle.cpp writes is what
    [readFromParcel] reads, and reading anything else is safe and ends.  A bundle
    thereby meets the interface of the parcelable classes. *)

From S2P Require Import Prelude Errors ParcelState ParcelWrite ParcelRead ParcelInv ParcelWriteSpec.
From S2P Require Import ParcelReadSpec ParcelData ParcelDataSpec ParcelProps BinderStatus.
From S2P Require Import PersistableBundle BundleProps.

(** * The format *)

Definition entry_bytes {A} (type : Z) (enc : A -> bytes) (e : String16 * A) : bytes :=
  string16_bytes (fst e) ++ le_bytes 4 type ++ enc (snd e).
Definition entries_bytes {A} (type : Z) (enc : A -> bytes) (m : list (String16 * A)) : bytes :=
  concat (map (entry_bytes type enc) m).

Abbreviation encode_as t := (encode (K := Empty_set) t).

Definition inner_bytes (nested : PersistableBundle -> bytes) (b : PersistableBundle) : bytes :=
  le_bytes 4 (bundle_size b) ++
  entries_bytes VAL_BOOLEAN (encode_as (TPrim Bool)) (mBoolMap b) ++
  entries_bytes VAL_INTEGER (encode_as (TPrim Int32)) (mIntMap b) ++
  entries_bytes VAL_LONG (encode_as (TPrim Int64)) (mLongMap b) ++
  entries_bytes VAL_DOUBLE (encode_as (TPrim Double)) (mDoubleMap b) ++
  entries_bytes VAL_STRING (encode_as TString16) (mStringMap b) ++
  entries_bytes VAL_BOOLEANARRAY (encode_as (TVector (TPrim Bool))) (mBoolVectorMap b) ++
  entries_bytes VAL_INTARRAY (encode_as (TVector (TPrim Int32))) (mIntVectorMap b) ++
  entries_bytes VAL_LONGARRAY (encode_as (TVector (TPrim Int64))) (mLongVectorMap b) ++
  entries_bytes VAL_DOUBLEARRAY (encode_as (TVector (TPrim Double))) (mDoubleVectorMap b) ++
  entries_bytes VAL_STRINGARRAY (encode_as (TVector TString16)) (mStringVectorMap b) ++
  entries_bytes VAL_PERSISTABLEBUNDLE nested (mPersistableBundleMap b).

Fixpoint bundle_bytes (b : PersistableBundle) : bytes :=
  if bundle_empty b then le_bytes 4 0 else
  let inner := inner_bytes bundle_bytes b in
  le_bytes 4 (zlen inner) ++ le_bytes 4 BUNDLE_MAGIC_NATIVE ++ inner.

(** * Well-typed bundles *)

Fixpoint all_of {A} (P : A -> Prop) (l : list A) : Prop :=
  match l with [] => True | x :: l => P x /\ all_of P l end.

Lemma all_of_Forall {A} (P : A -> Prop) l : all_of P l <-> Forall P l.
Proof. induction l; cbn; [done|]. rewrite Forall_cons. naive_solver. Qed.

Section Typed.
Context `{String16Order}.

Definition entry_ok {A} (P : A -> Prop) (e : String16 * A) : Prop := Forall is_u16 (fst e) /\ P (snd e).
Definition map_ok {A} (P : A -> Prop) (m : list (String16 * A)) : Prop := sorted m /\ all_of (entry_ok P) m.

Abbreviation valid_as t := (valid (K := Empty_set) t).

(** Every map is in order, its keys are strings and its values are of its type. *)
Fixpoint typed (b : PersistableBundle) : Prop :=
  map_ok (valid_as (TPrim Bool)) (mBoolMap b) /\
  map_ok (valid_as (TPrim Int32)) (mIntMap b) /\
  map_ok (valid_as (TPrim Int64)) (mLongMap b) /\
  map_ok (valid_as (TPrim Double)) (mDoubleMap b) /\
  map_ok (valid_as TString16) (mStringMap b) /\
  map_ok (valid_as (TVector (TPrim Bool))) (mBoolVectorMap b) /\
  map_ok (valid_as (TVector (TPrim Int32))) (mIntVectorMap b) /\
  map_ok (valid_as (TVector (TPrim Int64))) (mLongVectorMap b) /\
  map_ok (valid_as (TVector (TPrim Double))) (mDoubleVectorMap b) /\
  map_ok (valid_as (TVector TString16)) (mStringVectorMap b) /\
  map_ok typed (mPersistableBundleMap b).

Lemma typed_eq b : typed b = (
  map_ok (valid_as (TPrim Bool)) (mBoolMap b) /\
  map_ok (valid_as (TPrim Int32)) (mIntMap b) /\
  map_ok (valid_as (TPrim Int64)) (mLongMap b) /\
  map_ok (valid_as (TPrim Double)) (mDoubleMap b) /\
  map_ok (valid_as TString16) (mStringMap b) /\
  map_ok (valid_as (TVector (TPrim Bool))) (mBoolVectorMap b) /\
  map_ok (valid_as (TVector (TPrim Int32))) (mIntVectorMap b) /\
  map_ok (valid_as (TVector (TPrim Int64))) (mLongVectorMap b) /\
  map_ok (valid_as (TVector (TPrim Double))) (mDoubleVectorMap b) /\
  map_ok (valid_as (TVector TString16)) (mStringVectorMap b) /\
  map_ok typed (mPersistableBundleMap b)).
Proof. by destruct b. Qed.

(** Induction over the nested bundles. *)
Lemma bundle_induction (P : PersistableBundle -> Prop) :
  (forall b, Forall (fun e => P (snd e)) (mPersistableBundleMap b) -> P b) -> forall b, P b.
Proof.
  intros Hstep. fix IH 1. intros b. apply Hstep. destruct b as [? ? ? ? ? ? ? ? ? ? m]. cbn.
  induction m as [|[k c] m IHm]; constructor; [apply IH|exact IHm].
Qed.
End Typed.

(** * Writing *)

(** Writers in sequence, each checked. *)
Lemma data_post_check F (m k : M PS status_t) s a b :
  wf (this s) -> fits (this s) (zlen (a ++ b)) ->
  (fits (this s) (zlen a) -> wpg F m s (data_post s a)) ->
  (forall s1, wf (this s1) -> fits (this s1) (zlen b) -> wpg F k s1 (data_post s1 b)) ->
  wpg F (m ;;? k) s (data_post s (a ++ b)).
Proof.
  intros Hwf Hf Hm Hk. apply wpg_check_ok. pose proof Hf as Hf'. rewrite zlen_app in Hf'.
  pose proof (zlen_nonneg b). pose proof (zlen_nonneg a).
  wp_use Hm; [eapply fits_le; [exact Hf'|lia]|].
  intros st s1 [Hb1 Hp1]. split; [intros ->|].
  - destruct Hp1 as [[_ Hw1]|Hfl1].
    + wp_use Hk; [apply Hw1|by eapply fits_wrote|].
      intros st2 s2 [Hb2 [[-> Hw2]|Hfl2]]; (split; [by etransitivity|]).
      * left. split; [done|]. by eapply wrote_app.
      * right. by eapply failed_app.
    + wp_use Hk; [apply Hfl1|by eapply fits_failed|]. intros st2 s2 H2. pose proof H2 as [Hb2 _].
      split; [by etransitivity|right]. eapply failed_then; [done|done|apply Hfl1|by apply data_weak_post].
  - intros Hst. destruct Hp1 as [[-> _]|Hfl1]; [done|]. split; [done|right].
    eapply failed_le; [|exact Hfl1]. rewrite zlen_app. lia.
Qed.

Lemma string16_len str : 4 <= zlen (string16_bytes str).
Proof.
  unfold string16_bytes. rewrite zlen_app, zlen_le_bytes. pose proof (zlen_nonneg (padded (array_bytes 2 str ++ [0; 0]))). lia.
Qed.

Lemma write_entries_ok {A} F type (f : A -> M PS status_t) (enc : A -> bytes) m s :
  (forall e s, e ∈ m -> wf (this s) -> fits (this s) (zlen (enc (snd e))) ->
     wpg F (f (snd e)) s (data_post s (enc (snd e)))) ->
  wf (this s) -> fits (this s) (zlen (entries_bytes type enc m)) ->
  wpg F (write_each (write_entry type f) m) s (data_post s (entries_bytes type enc m)).
Proof.
  intros Hv Hwf Hf. apply write_each_ok; [|intros e; unfold entry_bytes|done|done].
  - intros e s1 He Hwf1 Hf1. unfold write_entry, entry_bytes in *.
    apply data_post_check; [done|done| |].
    + intros Hk. eapply wpg_mono; [by apply writeString16_ok|]. intros. by apply write_data_post.
    + intros s2 Hwf2 Hf2. apply data_post_check; [done|done| |].
      * intros Hk. eapply wpg_mono; [apply writeInt32_ok; [done|by rewrite zlen_le_bytes in Hk]|].
        intros. by apply write_data_post.
      * intros s3 Hwf3 Hf3. by apply Hv.
  - rewrite zlen_app. pose proof (string16_len (fst e)). pose proof (zlen_nonneg (le_bytes 4 type ++ enc (snd e))). lia.
Qed.

Section Write.
Context `{String16Order}.

Lemma write_typed_ok F type t (m : list (String16 * denote (K := Empty_set) t)) s :
  compiles t = true -> map_ok (valid (K := Empty_set) t) m -> wf (this s) ->
  fits (this s) (zlen (entries_bytes type (encode_as t) m)) ->
  wpg F (write_each (write_entry type (writeData t)) m) s (data_post s (entries_bytes type (encode_as t) m)).
Proof.
  intros Hc [_ Hm] Hwf Hf. rewrite all_of_Forall, Forall_forall in Hm. apply write_entries_ok; [|done|done].
  intros e s1 He Hwf1 Hf1. apply writeData_ok; [done| |done|done]. by apply Hm.
Qed.

Lemma size_fits s b n : wf (this s) -> fits (this s) n -> zlen (entries b) <= n -> is_s32 (bundle_size b).
Proof.
  intros Hwf Hf Hn. rewrite entries_size. pose proof (zlen_nonneg (entries b)).
  pose proof (fits_bound _ _ Hwf Hf). unfold is_s32. lia.
Qed.

Lemma entries_bytes_len {A} type (enc : A -> bytes) m : zlen m <= zlen (entries_bytes type enc m).
Proof.
  unfold entries_bytes. induction m as [|e m IH]; [done|]. cbn [map concat]. unfold entry_bytes at 1.
  rewrite zlen_cons, !zlen_app.
  pose proof (string16_len (fst e)). pose proof (zlen_nonneg (le_bytes 4 type)). pose proof (zlen_nonneg (enc (snd e))). lia.
Qed.

Lemma inner_len nested b : bundle_size b <= zlen (inner_bytes nested b).
Proof.
  unfold inner_bytes. rewrite !zlen_app, zlen_le_bytes. unfold bundle_size.
  repeat match goal with |- context [zlen (entries_bytes ?t ?e ?m)] =>
    generalize (entries_bytes_len t e m); generalize (zlen (entries_bytes t e m)); intros ? ? end.
  cbn [denote] in *. lia.
Qed.

Lemma write_inner_ok F nested (enc : PersistableBundle -> bytes) b s :
  (forall e s, e ∈ mPersistableBundleMap b -> wf (this s) -> fits (this s) (zlen (enc (snd e))) ->
     wpg F (nested (snd e)) s (data_post s (enc (snd e)))) ->
  typed b -> wf (this s) -> fits (this s) (zlen (inner_bytes enc b)) ->
  wpg F (writeToParcelInner nested b) s (data_post s (inner_bytes enc b)).
Proof.
  intros Hn Ht Hwf Hf. pose proof (inner_len enc b). pose proof (fits_bound _ _ Hwf Hf).
  assert (0 <= bundle_size b) by (rewrite entries_size; apply zlen_nonneg).
  unfold writeToParcelInner. zdec (INT32_MAX <? bundle_size b). rewrite s32_small by (unfold is_s32; lia).
  unfold inner_bytes in *. rewrite typed_eq in Ht. destruct_and! Ht.
  apply data_post_check; [done|done| |].
  { intros Hk. eapply wpg_mono; [apply writeInt32_ok; [done|by rewrite zlen_le_bytes in Hk]|].
    intros. by apply write_data_post. }
  clear dependent s. intros s Hwf Hf.
  repeat (apply data_post_check; [done|done|intros ?; by apply write_typed_ok|clear dependent s; intros s Hwf Hf]).
  by apply write_entries_ok.
Qed.
(** Going back to patch a word. *)

Definition at_pos (n : Z) (p : Parcel) : Parcel :=
  set_mObjectsSorted false (set_mNextObjectHint 0 (set_mDataPos n p)).

Lemma at_pos_wf n p : wf p -> 0 <= n <= mDataSize p -> wf (at_pos n p).
Proof. intros [] Hn. split; try done; cbn; lia. Qed.

Lemma at_pos_ok F n s (Q : unit -> PS -> Prop) :
  wf (this s) -> 0 <= n <= mDataSize (this s) -> Q tt (mkPS (at_pos n (this s)) (world s)) ->
  wpg F (setDataPosition n) s Q.
Proof.
  intros Hwf Hn HQ. pose proof Hwf as []. unfold setDataPosition. zdec (INT32_MAX <? n). by wp_step.
Qed.

Lemma at_pos_balanced n p w : balanced (mkPS p w) (mkPS (at_pos n p) w).
Proof. by apply balanced_same_owner. Qed.

Lemma patch_ok F v s :
  wf (this s) -> mDataPos (this s) + 4 <= mDataSize (this s) ->
  wpg F (writeInt32 v) s (fun st s' => balanced s s' /\ st = NO_ERROR /\ wrote (this s) (this s') (le_bytes 4 v)).
Proof.
  intros Hwf Hp. pose proof Hwf as []. pose proof (zlen_le_bytes 4 v) as El. unfold writeInt32, writeAligned.
  wp_steps. rewrite <- El in *. change (Z.of_nat 4) with 4 in El. rewrite u64_small by lia.
  zdec (mDataPos (this s) + zlen (le_bytes 4 v) <=? mDataCapacity (this s)).
  apply write_here_wrote; [done|auto with binder|lia].
Qed.

Lemma patched p p3 p5 x y rest :
  wf p -> zlen x = zlen y -> wrote p p3 (x ++ rest) -> wrote (at_pos (mDataPos p) p3) p5 y ->
  wrote p (at_pos (mDataPos p3) p5) (y ++ rest).
Proof.
  intros Hwf Hxy Hw3 Hw5. pose proof (wrote_size _ _ _ Hwf Hw3) as Hs3. pose proof (ParcelInv.wf_pos _ Hwf).
  pose proof Hw3 as [Hwf3 Hp3 Hc3 Ho3 Hm3]. pose proof (zlen_nonneg x). pose proof (zlen_nonneg rest).
  rewrite zlen_app in *. assert (Hwf4 : wf (at_pos (mDataPos p) p3)) by (apply at_pos_wf; [done|lia]).
  pose proof (wrote_size _ _ _ Hwf4 Hw5) as Hs5. cbn in Hs5. destruct Hw5 as [Hwf5 Hp5 Hc5 Ho5 Hm5].
  split; cbn.
  - apply at_pos_wf; [done|lia].
  - rewrite zlen_app. lia.
  - change (contents (at_pos (mDataPos p3) p5)) with (contents p5). rewrite Hc5. cbn.
    change (contents (at_pos (mDataPos p) p3)) with (contents p3). rewrite Hc3.
    rewrite <- (Z.add_0_r (mDataPos p)) at 2. rewrite overwrite_inside; [|rewrite zlen_contents by done; lia|lia|rewrite zlen_app; lia].
    by rewrite overwrite_head.
  - exact (eq_trans Ho5 Ho3).
  - exact (eq_trans Hm5 Hm3).
Qed.

Lemma failed_patched s s3 p5 w5 n m y :
  failed s n s3 -> wf (this s) -> 0 <= m <= mDataSize (this s3) ->
  0 <= mDataPos (this s) -> mDataPos (this s) + zlen y <= mDataSize (this s3) ->
  wrote (at_pos (mDataPos (this s)) (this s3)) p5 y -> failed s n (mkPS (at_pos m p5) w5).
Proof.
  intros [] Hwf Hm Hp Hy Hw5. assert (Hwf4 : wf (at_pos (mDataPos (this s)) (this s3))).
  { apply at_pos_wf; [done|]. pose proof (zlen_nonneg y). lia. }
  pose proof (wrote_size _ _ _ Hwf4 Hw5) as Hs5. cbn in Hs5. destruct Hw5 as [Hwf5 Hp5 Hc5 Ho5 Hm5].
  split; cbn; [apply at_pos_wf; [done|lia]| |done|lia].
  change (mError (at_pos m p5)) with (mError p5). unfold meta in Hm5. cbn in Hm5. congruence.
Qed.

(** The two words in front of the entries. *)
Lemma write_head_ok F s n (Q : status_t -> PS -> Prop) (k : M PS status_t) :
  wf (this s) -> fits (this s) (8 + n) -> 0 <= n ->
  (forall st s', balanced s s' -> failed s (8 + n) s' -> Q st s') ->
  (forall s2, balanced s s2 -> wrote (this s) (this s2) (le_bytes 4 1 ++ le_bytes 4 BUNDLE_MAGIC_NATIVE) ->
     wpg F k s2 Q) ->
  wpg F (writeInt32 1 ;;? writeInt32 BUNDLE_MAGIC_NATIVE ;;? k) s Q.
Proof.
  intros Hwf Hf Hn Hbad Hk. set (a := le_bytes 4 1). set (b := le_bytes 4 BUNDLE_MAGIC_NATIVE).
  assert (Ha : zlen a = 4) by (unfold a; by rewrite zlen_le_bytes).
  assert (Hb : zlen b = 4) by (unfold b; by rewrite zlen_le_bytes).
  apply wpg_check_ok. wp_use writeInt32_ok; [done|eapply fits_le; [exact Hf|lia]|].
  intros st1 s1 [Hb1 [[-> Hw1]|[Hst1 Hfl1]]]; split; intros E1; try done.
  2: { apply Hbad; [done|]. eapply failed_le; [|exact Hfl1]. fold a. lia. }
  assert (Hf1 : fits (this s1) (4 + n)) by (eapply (fits_wrote _ _ a); [exact Hwf|exact Hw1|lia|by rewrite Ha, Z.add_assoc]).
  apply wpg_check_ok. wp_use writeInt32_ok; [apply Hw1|eapply fits_le; [exact Hf1|lia]|].
  intros st2 s2 [Hb2 [[-> Hw2]|[Hst2 Hfl2]]]; split; intros E2; try done.
  - apply Hk; [by etransitivity|]. by eapply wrote_app.
  - apply Hbad; [by etransitivity|]. eapply failed_le; [|by eapply failed_app].
    fold a b. rewrite zlen_app. lia.
Qed.

(** The length, once the entries are there. *)
Lemma write_tail_ok F s s2 s3 x mg inner :
  wf (this s) -> balanced s s2 -> wrote (this s) (this s2) (x ++ mg) -> zlen x = 4 -> zlen mg = 4 ->
  balanced s2 s3 -> wrote (this s2) (this s3) inner \/ failed s2 (zlen inner) s3 ->
  8 + zlen inner <= 1431655765 ->
  wpg F (let* end_pos := getp dataPosition in
         setDataPosition (dataPosition (this s)) ;;
         let length := u64 (end_pos - dataPosition (this s2)) in
         if INT32_MAX <? length then ret BAD_VALUE else
         writeInt32 (s32 length) ;;? setDataPosition end_pos ;; ret NO_ERROR) s3
    (data_post s (le_bytes 4 (zlen inner) ++ mg ++ inner)).
Proof.
  intros Hwf Hb2 Hw2 Hx Hmg Hb3 Hp3 Hmax. pose proof (ParcelInv.wf_pos _ Hwf). pose proof (zlen_nonneg inner).
  pose proof (wrote_size _ _ _ Hwf Hw2) as Hs2. pose proof (wr_pos _ _ _ Hw2) as Hp2. rewrite zlen_app, Hx, Hmg in *.
  remember (le_bytes 4 (zlen inner) ++ mg ++ inner) as out eqn:Eout.
  assert (Elen : zlen out = 8 + zlen inner) by (rewrite Eout, !zlen_app, !zlen_le_bytes; lia).
  assert (H3 : wf (this s3) /\ mDataSize (this s2) <= mDataSize (this s3)).
  { destruct Hp3 as [Hw3|[]]; [|split; [done|lia]]. split; [apply Hw3|].
    rewrite (wrote_size _ _ _ (wr_wf _ _ _ Hw2) Hw3). lia. }
  destruct H3 as [Hwf3 Hs3]. pose proof (ParcelInv.wf_pos _ Hwf3).
  assert (Hfail : forall s', failed s2 (zlen inner) s' -> failed s (zlen out) s').
  { intros s' Hfl. eapply failed_le; [|by eapply (failed_app s s2 s' (x ++ mg))]. rewrite !zlen_app. lia. }
  wp_steps. unfold dataPosition. apply at_pos_ok; [done|lia|]. cbv zeta.
  set (s4 := mkPS (at_pos _ _) _). assert (Hwf4 : wf (this s4)) by (apply at_pos_wf; [done|lia]).
  assert (Hb4 : balanced s s4).
  { etransitivity; [exact Hb2|]. etransitivity; [exact Hb3|]. destruct s3. apply at_pos_balanced. }
  destruct Hp3 as [Hw3|Hfl3].
  - pose proof (wr_pos _ _ _ Hw3) as Hp3. assert (Hw : wrote (this s) (this s3) (x ++ mg ++ inner)).
    { rewrite app_assoc. by eapply wrote_app. }
    rewrite (u64_small _) by lia. replace (mDataPos (this s3) - mDataPos (this s2)) with (zlen inner) by lia.
    zdec (INT32_MAX <? zlen inner). rewrite s32_small by (unfold is_s32; lia).
    apply wpg_check_ok. wp_use patch_ok; [done|cbn; lia|]. intros st s5 (Hb5 & -> & Hw5). split; [intros _|done].
    pose proof (wrote_size _ _ _ Hwf4 Hw5) as Hs5. cbn in Hs5.
    wp_step. apply at_pos_ok; [apply Hw5|lia|]. wp_step. split.
    + etransitivity; [exact Hb4|]. etransitivity; [exact Hb5|]. destruct s5. apply at_pos_balanced.
    + left. split; [done|]. rewrite Eout. eapply (patched _ (this s3) _ x); [done|by rewrite zlen_le_bytes|done|done].
  - apply Hfail in Hfl3. destruct (INT32_MAX <? u64 _).
    { wp_step. split; [done|right]. destruct Hfl3. by split. }
    apply wpg_check_ok. wp_use patch_ok; [done|cbn; lia|]. intros st s5 (Hb5 & -> & Hw5). split; [intros _|done].
    pose proof (wrote_size _ _ _ Hwf4 Hw5) as Hs5. cbn in Hs5. 
    wp_step. apply at_pos_ok; [apply Hw5|lia|]. wp_step. split.
    + etransitivity; [exact Hb4|]. etransitivity; [exact Hb5|]. destruct s5. apply at_pos_balanced.
    + right. eapply failed_patched; [exact Hfl3|done|lia|lia| |exact Hw5]. rewrite zlen_le_bytes. lia.
Qed.

(** Writing a bundle appends its format. *)
Lemma write_bundle_ok F b s :
  typed b -> wf (this s) -> fits (this s) (zlen (bundle_bytes b)) ->
  wpg F (writeToParcel_ b) s (data_post s (bundle_bytes b)).
Proof.
  revert s. induction b as [b IH] using bundle_induction. intros s Ht Hwf Hf.
  assert (Eb : bundle_bytes b = if bundle_empty b then le_bytes 4 0 else
    le_bytes 4 (zlen (inner_bytes bundle_bytes b)) ++ le_bytes 4 BUNDLE_MAGIC_NATIVE ++ inner_bytes bundle_bytes b)
    by (by destruct b).
  assert (Ew : writeToParcel_ b = if bundle_empty b then writeInt32 0 else
    let* length_pos := getp dataPosition in
    writeInt32 1 ;;? writeInt32 BUNDLE_MAGIC_NATIVE ;;?
    let* start_pos := getp dataPosition in
    writeToParcelInner writeToParcel_ b ;;?
    let* end_pos := getp dataPosition in
    setDataPosition length_pos ;;
    let length := u64 (end_pos - start_pos) in
    if INT32_MAX <? length then ret BAD_VALUE else
    writeInt32 (s32 length) ;;? setDataPosition end_pos ;; ret NO_ERROR) by (by destruct b).
  rewrite Eb, Ew in *. clear Eb Ew. destruct (bundle_empty b).
  { eapply wpg_mono; [apply writeInt32_ok; [done|by rewrite zlen_le_bytes in Hf]|]. intros. by apply write_data_post. }
  set (inner := inner_bytes bundle_bytes b) in *. pose proof (zlen_nonneg inner) as Hin.
  remember (le_bytes 4 (zlen inner) ++ le_bytes 4 BUNDLE_MAGIC_NATIVE ++ inner) as out eqn:Eout.
  assert (Elen : zlen out = 8 + zlen inner) by (rewrite Eout, !zlen_app, !zlen_le_bytes; lia).
  pose proof (fits_bound _ _ Hwf Hf) as Hmax. rewrite Elen in Hf, Hmax. wp_steps.
  eapply write_head_ok; [done|exact Hf|done| |].
  { intros st s' Hb Hfl. split; [done|right]. by rewrite Elen. }
  set (x := le_bytes 4 1). set (mg := le_bytes 4 BUNDLE_MAGIC_NATIVE).
  assert (Hx : zlen x = 4) by (unfold x; by rewrite zlen_le_bytes).
  assert (Hmg : zlen mg = 4) by (unfold mg; by rewrite zlen_le_bytes).
  intros s2 Hb2 Hw2. wp_steps. apply wpg_check_ok.
  assert (Hf2 : fits (this s2) (zlen inner)).
  { eapply (fits_wrote _ _ (x ++ mg)); [exact Hwf|exact Hw2|done|]. by rewrite zlen_app, Hx, Hmg. }
  rewrite Forall_forall in IH. pose proof Ht as Ht'. rewrite typed_eq in Ht'. destruct_and! Ht'.
  match goal with H : map_ok typed _ |- _ => destruct H as [_ Hnest] end.
  rewrite all_of_Forall, Forall_forall in Hnest.
  wp_use (write_inner_ok F writeToParcel_ bundle_bytes); [|done|apply Hw2|exact Hf2|].
  { intros e s3 He Hwf3 Hf3. apply IH; [done|by apply Hnest|done|done]. }
  fold inner. intros st s3 [Hb3 Hp3]. pose proof (wrote_size _ _ _ Hwf Hw2) as Hs2. pose proof (ParcelInv.wf_pos _ Hwf).
  rewrite zlen_app, Hx, Hmg in Hs2. split; [intros ->|intros Hst; destruct Hp3 as [[-> _]|Hfl]; [done|]].
  2: { split; [by etransitivity|right]. rewrite Elen. eapply failed_le; [|by eapply failed_app]. rewrite !zlen_app. lia. }
  rewrite Eout. eapply write_tail_ok; [done|exact Hb2|exact Hw2|exact Hx|done|exact Hb3| |lia].
  destruct Hp3 as [[_ H']|H']; auto.
Qed.
End Write.
