(* ===== verification/BundleRead.v ===== *)
(** Reading bundles: [readFromParcel] of PersistableBundle.cpp undoes [writeToParcel],
    and on any other data it ends, stays inside the parcel and gives a well-typed
    bundle. *)

From S2P Require Import Prelude Errors ParcelState ParcelWrite ParcelRead ParcelInv ParcelWriteSpec.
From S2P Require Import ParcelReadSpec ParcelData ParcelDataSpec ParcelProps ParcelTyped BinderStatus.
From S2P Require Import PersistableBundle BundleProps BundleParcel.
From Stdlib Require Import Sorting.Sorted.

#[export] Instance no_parcelables_typed : TypedParcelables (K := Empty_set).
Proof. split. intros []. Qed.

(** * One entry *)

Definition value_type (v : value) : Z :=
  match v with
  | VBoolean _ => VAL_BOOLEAN
  | VInt _ => VAL_INTEGER
  | VLong _ => VAL_LONG
  | VDouble _ => VAL_DOUBLE
  | VString _ => VAL_STRING
  | VBooleanVector _ => VAL_BOOLEANARRAY
  | VIntVector _ => VAL_INTARRAY
  | VLongVector _ => VAL_LONGARRAY
  | VDoubleVector _ => VAL_DOUBLEARRAY
  | VStringVector _ => VAL_STRINGARRAY
  | VPersistableBundle _ => VAL_PERSISTABLEBUNDLE
  end.

Definition value_bytes (v : value) : bytes :=
  match v with
  | VBoolean x => encode_as (TPrim Bool) x
  | VInt x => encode_as (TPrim Int32) x
  | VLong x => encode_as (TPrim Int64) x
  | VDouble x => encode_as (TPrim Double) x
  | VString x => encode_as TString16 x
  | VBooleanVector x => encode_as (TVector (TPrim Bool)) x
  | VIntVector x => encode_as (TVector (TPrim Int32)) x
  | VLongVector x => encode_as (TVector (TPrim Int64)) x
  | VDoubleVector x => encode_as (TVector (TPrim Double)) x
  | VStringVector x => encode_as (TVector TString16) x
  | VPersistableBundle x => bundle_bytes x
  end.

Section Read.
Context `{String16OrderLaws}.

Definition value_ok (v : value) : Prop :=
  match v with
  | VBoolean x => valid (K := Empty_set) (TPrim Bool) x
  | VInt x => valid (K := Empty_set) (TPrim Int32) x
  | VLong x => valid (K := Empty_set) (TPrim Int64) x
  | VDouble x => valid (K := Empty_set) (TPrim Double) x
  | VString x => valid (K := Empty_set) TString16 x
  | VBooleanVector x => valid (K := Empty_set) (TVector (TPrim Bool)) x
  | VIntVector x => valid (K := Empty_set) (TVector (TPrim Int32)) x
  | VLongVector x => valid (K := Empty_set) (TVector (TPrim Int64)) x
  | VDoubleVector x => valid (K := Empty_set) (TVector (TPrim Double)) x
  | VStringVector x => valid (K := Empty_set) (TVector TString16) x
  | VPersistableBundle x => typed x
  end.

(** The entry added to its map. *)
Definition add (e : String16 * value) (b : PersistableBundle) : PersistableBundle :=
  match snd e with
  | VBoolean x => set_mBoolMap (map_set (fst e) x (mBoolMap b)) b
  | VInt x => set_mIntMap (map_set (fst e) x (mIntMap b)) b
  | VLong x => set_mLongMap (map_set (fst e) x (mLongMap b)) b
  | VDouble x => set_mDoubleMap (map_set (fst e) x (mDoubleMap b)) b
  | VString x => set_mStringMap (map_set (fst e) x (mStringMap b)) b
  | VBooleanVector x => set_mBoolVectorMap (map_set (fst e) x (mBoolVectorMap b)) b
  | VIntVector x => set_mIntVectorMap (map_set (fst e) x (mIntVectorMap b)) b
  | VLongVector x => set_mLongVectorMap (map_set (fst e) x (mLongVectorMap b)) b
  | VDoubleVector x => set_mDoubleVectorMap (map_set (fst e) x (mDoubleVectorMap b)) b
  | VStringVector x => set_mStringVectorMap (map_set (fst e) x (mStringVectorMap b)) b
  | VPersistableBundle x => set_mPersistableBundleMap (map_set (fst e) x (mPersistableBundleMap b)) b
  end.
Definition add_all (es : list (String16 * value)) (b : PersistableBundle) : PersistableBundle :=
  fold_left (fun b e => add e b) es b.

Lemma readData_into_decodes t (x : denote (K := Empty_set) t) key (m : list (String16 * denote (K := Empty_set) t)) set :
  compiles t = true -> valid t x ->
  decodes (read_into (readData t) key m set) (encode_as t x) (Good (set (map_set key x m))).
Proof.
  intros Hc Hx. unfold read_into. rewrite <- (app_nil_r (encode_as t x)).
  apply (decodes_res _ _ _ _ x); [by apply readData_decodes|apply decodes_ret].
Qed.

(** [loop] reads the nested bundles. *)
Lemma read_value_decodes loop key v b :
  value_ok v ->
  (forall c, v = VPersistableBundle c -> map_find key (mPersistableBundleMap b) = None /\
     decodes (read_bundle loop empty_bundle) (bundle_bytes c) (Good c)) ->
  decodes (read_value loop (value_type v) key b) (value_bytes v) (Good (add (key, v) b)).
Proof.
  intros Hv Hn. destruct v; unfold read_value; cbn [value_type value_bytes add snd fst];
    repeat match goal with |- context [if ?x =? ?y then _ else _] =>
      let r := eval vm_compute in (x =? y) in change (x =? y) with r; cbn iota end;
    try (by apply readData_into_decodes).
  destruct (Hn v eq_refl) as [-> Hd]. cbn [default]. unfold read_into.
  rewrite <- (app_nil_r (bundle_bytes v)). apply (decodes_res _ _ _ _ v); [done|apply decodes_ret].
Qed.

(** * The entries of a bundle *)

Definition entry_of (e : String16 * value) : bytes := entry_bytes (value_type (snd e)) value_bytes e.

Lemma tag_bytes {A} (f : A -> value) type enc m :
  (forall x, value_type (f x) = type) -> (forall x, value_bytes (f x) = enc x) ->
  concat (map entry_of (tag f m)) = entries_bytes type enc m.
Proof.
  intros Ht He. unfold entries_bytes, tag. rewrite map_map. f_equal. apply map_ext. intros [k x].
  unfold entry_of, entry_bytes. cbn [fst snd]. by rewrite Ht, He.
Qed.

Lemma inner_entries b : inner_bytes bundle_bytes b = le_bytes 4 (bundle_size b) ++ concat (map entry_of (entries b)).
Proof.
  unfold inner_bytes, entries. rewrite !map_app, !concat_app. f_equal.
  repeat (f_equal; [symmetry; by apply tag_bytes|]). symmetry. by apply tag_bytes.
Qed.

Lemma string16_room str : 4 + (2 * zlen str + 2) <= zlen (string16_bytes str).
Proof.
  unfold string16_bytes. rewrite zlen_app, zlen_le_bytes, zlen_padded, zlen_app, zlen_array_bytes.
  pose proof (padz_ge (Z.of_nat 2 * zlen str + zlen [0; 0])). change (zlen [0; 0]) with 2 in *. lia.
Qed.

(** The keys of the nested bundles among the entries. *)
Fixpoint nested_keys (es : list (String16 * value)) : list String16 :=
  match es with
  | [] => []
  | (k, VPersistableBundle _) :: es => k :: nested_keys es
  | _ :: es => nested_keys es
  end.

Lemma map_find_other {A} key key' (x : A) m : sorted m -> key' <> key -> map_find key' m = None ->
  map_find key' (map_set key x m) = None.
Proof.
  intros Hs Hne Hf. rewrite map_find_spec in Hf |- * by (try apply map_set_sorted; done).
  apply not_elem_of_list_to_map_2 in Hf. apply not_elem_of_list_to_map_1. intros Hin. apply Hf. clear Hf Hs.
  induction m as [|[k y] m IH]; cbn in *; [set_solver|].
  destruct (str_ltb k key); cbn in *; [set_solver|]. destruct (str_ltb key k); cbn in *; set_solver.
Qed.

(** The loop reads what the entries say into the bundle. *)
Lemma read_entries_decodes fuel es b :
  Forall (fun e => Forall is_u16 (fst e) /\ value_ok (snd e)) es ->
  Forall (fun e => forall c, snd e = VPersistableBundle c -> forall fuel,
    zlen (bundle_bytes c) < Z.of_nat fuel -> zlen (bundle_bytes c) <= INT32_MAX ->
    decodes (read_bundle (read_entries fuel) empty_bundle) (bundle_bytes c) (Good c)) es ->
  NoDup (nested_keys es) -> sorted (mPersistableBundleMap b) ->
  (forall k, k ∈ nested_keys es -> map_find k (mPersistableBundleMap b) = None) ->
  zlen (concat (map entry_of es)) < Z.of_nat fuel -> zlen (concat (map entry_of es)) <= INT32_MAX ->
  decodes (read_entries fuel (zlen es) b) (concat (map entry_of es)) (Good (add_all es b)).
Proof.
  revert fuel b. induction es as [|[k v] es IH]; intros fuel b Hes Hnest Hd Hs Hfind Hf Hmax;
    (destruct fuel as [|fuel];
      [match type of Hf with zlen ?l < _ => pose proof (zlen_nonneg l) end; lia|]); cbn [read_entries].
  { apply decodes_ret. }
  cbn [map concat] in *. rewrite zlen_cons in *. rewrite zlen_app in Hf, Hmax. pose proof (zlen_nonneg es).
  zdec (1 + zlen es <=? 0). replace (1 + zlen es - 1) with (zlen es) by lia.
  apply Forall_cons in Hes as [[Hk Hv] Hes]. apply Forall_cons in Hnest as [Hn Hnest]. cbn [fst snd] in *.
  assert (Ee : entry_of (k, v) = string16_bytes k ++ le_bytes 4 (value_type v) ++ value_bytes v) by done.
  rewrite Ee in Hf, Hmax |- *.
  rewrite !zlen_app, zlen_le_bytes in Hf, Hmax.
  pose proof (string16_room k). pose proof (zlen_nonneg k). pose proof (zlen_nonneg (value_bytes v)). pose proof (zlen_nonneg (concat (map entry_of es))).
  rewrite <- !app_assoc.
  eapply decodes_res; [apply (decodes_map _ res_of _ (OK, k)), readString16_decodes; [done|lia]|].
  eapply decodes_res; [apply readInt32_decodes; by destruct v|].
  eapply decodes_res; [apply read_value_decodes; [done|]|].
  { intros c ->. cbn in *. split; [apply Hfind; left|]. apply (Hn c eq_refl); lia. }
  apply IH; [done|done| | | |lia|lia].
  - by destruct v; cbn in Hd; [..|apply NoDup_cons in Hd as [_ Hd]].
  - destruct v; cbn; try done. by apply map_set_sorted.
  - intros k' Hk'. destruct v; cbn in Hd, Hfind |- *; try by apply Hfind.
    apply NoDup_cons in Hd as [Hne Hd]. apply map_find_other; [done|by intros ->|]. apply Hfind. by right.
Qed.
(** * Entries in order make the bundle again *)

Lemma sorted_before {A} (pre : list (String16 * A)) k x m :
  sorted (pre ++ (k, x) :: m) -> Forall (fun e => str_ltb (fst e) k = true) pre.
Proof.
  induction pre as [|e pre IH]; intros Hs; [done|]. cbn in Hs. apply StronglySorted_inv in Hs as [Hs Hf].
  constructor; [|by apply IH]. apply Forall_app in Hf as [_ [Hf _]%Forall_cons]. exact Hf.
Qed.

Lemma fold_sorted {A} (m pre : list (String16 * A)) :
  sorted (pre ++ m) -> fold_left (fun acc e => map_set (fst e) (snd e) acc) m pre = pre ++ m.
Proof.
  revert pre. induction m as [|[k x] m IH]; intros pre Hs; cbn; [by rewrite app_nil_r|].
  rewrite map_set_last by (by eapply sorted_before). rewrite IH; by rewrite <- app_assoc.
Qed.

Lemma add_all_tag {A} (f : A -> value) get set m b :
  (forall k x b, add (k, f x) b = set (map_set k x (get b)) b) ->
  (forall m b, get (set m b) = m) -> (forall m m' b, set m (set m' b) = set m b) ->
  (forall b, set (get b) b = b) ->
  add_all (tag f m) b = set (fold_left (fun acc e => map_set (fst e) (snd e) acc) m (get b)) b.
Proof.
  intros Ha Hgs Hss Hsg. revert b. induction m as [|[k x] m IH]; intros b; cbn; [by rewrite Hsg|].
  change (add_all (tag f m) (add (k, f x) b) = set (fold_left (fun acc e => map_set (fst e) (snd e) acc) m
    (map_set k x (get b))) b).
  by rewrite IH, Ha, Hgs, Hss.
Qed.

Lemma add_all_entries c : maps_sorted c -> add_all (entries c) empty_bundle = c.
Proof.
  intros []. unfold entries, add_all. rewrite !fold_left_app. fold (add_all (tag VBoolean (mBoolMap c)) empty_bundle).
  change (fold_left (fun b e => add e b)) with (fun es b => add_all es b). cbn beta.
  rewrite (add_all_tag VBoolean mBoolMap set_mBoolMap) by (done || by intros []).
  rewrite (add_all_tag VInt mIntMap set_mIntMap) by (done || by intros []).
  rewrite (add_all_tag VLong mLongMap set_mLongMap) by (done || by intros []).
  rewrite (add_all_tag VDouble mDoubleMap set_mDoubleMap) by (done || by intros []).
  rewrite (add_all_tag VString mStringMap set_mStringMap) by (done || by intros []).
  rewrite (add_all_tag VBooleanVector mBoolVectorMap set_mBoolVectorMap) by (done || by intros []).
  rewrite (add_all_tag VIntVector mIntVectorMap set_mIntVectorMap) by (done || by intros []).
  rewrite (add_all_tag VLongVector mLongVectorMap set_mLongVectorMap) by (done || by intros []).
  rewrite (add_all_tag VDoubleVector mDoubleVectorMap set_mDoubleVectorMap) by (done || by intros []).
  rewrite (add_all_tag VStringVector mStringVectorMap set_mStringVectorMap) by (done || by intros []).
  rewrite (add_all_tag VPersistableBundle mPersistableBundleMap set_mPersistableBundleMap) by (done || by intros []).
  cbn. rewrite !fold_sorted by done. by destruct c.
Qed.

Lemma typed_sorted c : typed c -> maps_sorted c.
Proof. rewrite typed_eq. unfold map_ok. intros Ht. destruct_and! Ht. by split. Qed.

Lemma sorted_NoDup {A} (m : list (String16 * A)) : sorted m -> NoDup m.*1.
Proof.
  induction m as [|[k x] m IH]; intros Hs; cbn; [constructor|]. apply sorted_cons in Hs as (Hs & _ & Ha).
  apply NoDup_cons. auto.
Qed.

Lemma nested_keys_app l1 l2 : nested_keys (l1 ++ l2) = nested_keys l1 ++ nested_keys l2.
Proof. induction l1 as [|[k v] l1 IH]; cbn; [done|]. destruct v; cbn; by rewrite IH. Qed.

Lemma nested_keys_other {A} (f : A -> value) m :
  (forall x c, f x <> VPersistableBundle c) -> nested_keys (tag f m) = [].
Proof.
  intros Hf. induction m as [|[k x] m IH]; cbn; [done|]. destruct (f x) eqn:E; try done. by destruct (Hf x v).
Qed.

Lemma nested_keys_entries c : nested_keys (entries c) = (mPersistableBundleMap c).*1.
Proof.
  unfold entries. rewrite !nested_keys_app, !nested_keys_other by done. cbn [app].
  induction (mPersistableBundleMap c) as [|[k x] m IH]; cbn; [done|]. by f_equal.
Qed.

Lemma tag_entries_ok {A} (P : A -> Prop) (f : A -> value) m :
  map_ok P m -> (forall x, P x -> value_ok (f x)) ->
  Forall (fun e => Forall is_u16 (fst e) /\ value_ok (snd e)) (tag f m).
Proof.
  intros [_ Hm] Hf. rewrite all_of_Forall in Hm. unfold tag. apply Forall_fmap. eapply Forall_impl; [exact Hm|].
  intros [k x] [Hk Hx]. cbn in *. auto.
Qed.

Lemma typed_entries c : typed c -> Forall (fun e => Forall is_u16 (fst e) /\ value_ok (snd e)) (entries c).
Proof.
  rewrite typed_eq. intros Ht. destruct_and! Ht. unfold entries.
  repeat (apply Forall_app; split); (eapply tag_entries_ok; [eassumption|done]).
Qed.

Lemma no_entries c : bundle_empty c = true -> c = empty_bundle.
Proof.
  unfold bundle_empty, bundle_size. intros E%Z.eqb_eq. destruct c as [m1 m2 m3 m4 m5 m6 m7 m8 m9 m10 m11]. cbn in E.
  pose proof (zlen_nonneg m1). pose proof (zlen_nonneg m2). pose proof (zlen_nonneg m3). pose proof (zlen_nonneg m4).
  pose proof (zlen_nonneg m5). pose proof (zlen_nonneg m6). pose proof (zlen_nonneg m7). pose proof (zlen_nonneg m8).
  pose proof (zlen_nonneg m9). pose proof (zlen_nonneg m10). pose proof (zlen_nonneg m11).
  unfold empty_bundle. f_equal; apply zlen_zero; lia.
Qed.

(** Reading what was written. *)
Lemma read_bundle_decodes c fuel :
  typed c -> zlen (bundle_bytes c) < Z.of_nat fuel -> zlen (bundle_bytes c) <= INT32_MAX ->
  decodes (read_bundle (read_entries fuel) empty_bundle) (bundle_bytes c) (Good c).
Proof.
  revert fuel. induction c as [c IH] using bundle_induction. intros fuel Ht Hf Hmax.
  assert (Eb : bundle_bytes c = if bundle_empty c then le_bytes 4 0 else
    le_bytes 4 (zlen (inner_bytes bundle_bytes c)) ++ le_bytes 4 BUNDLE_MAGIC_NATIVE ++ inner_bytes bundle_bytes c)
    by (by destruct c).
  rewrite Eb in *. destruct (bundle_empty c) eqn:Ee.
  { apply no_entries in Ee as ->. rewrite <- (app_nil_r (le_bytes 4 0)).
    eapply decodes_bind; [by apply (readInt32_decodes_ 0)|]. apply decodes_ret. }
  pose proof (inner_len bundle_bytes c) as Hlen. rewrite !inner_entries in *. set (body := concat _) in *.
  pose proof (zlen_nonneg body). rewrite !zlen_app, !zlen_le_bytes in *.
  assert (Hsz : bundle_size c = zlen (entries c)) by apply entries_size. pose proof (zlen_nonneg (entries c)).
  eapply decodes_bind; [apply readInt32_decodes_; unfold is_s32; lia|].
  zdec (Z.of_nat 4 + zlen body <? 0). unfold readFromParcelInner. zdec (Z.of_nat 4 + zlen body =? 0).
  eapply decodes_res; [by apply readInt32_decodes|].
  change (negb (BUNDLE_MAGIC_NATIVE =? BUNDLE_MAGIC) && negb (BUNDLE_MAGIC_NATIVE =? BUNDLE_MAGIC_NATIVE)) with false.
  cbn iota. eapply decodes_res; [apply readInt32_decodes; unfold is_s32; lia|].
  rewrite Hsz. pose proof (typed_sorted c Ht) as Hsort.
  replace (Good c) with (Good (add_all (entries c) empty_bundle)) by (by rewrite add_all_entries).
  apply read_entries_decodes; [by apply typed_entries| | |constructor| |fold body; lia|fold body; lia].
  - rewrite Forall_forall in IH. apply Forall_forall. intros [k v] He d E fuel' Hf' Hmax'. cbn in E. subst v.
    assert (Hin : (k, d) ∈ mPersistableBundleMap c).
    { unfold entries in He. rewrite !elem_of_app, !elem_of_tag in He. naive_solver. }
    apply (IH (k, d) Hin); [|done|done]. rewrite typed_eq in Ht. destruct_and! Ht.
    match goal with Hm : map_ok typed _ |- _ => destruct Hm as [_ Hm]; rewrite all_of_Forall, Forall_forall in Hm;
      by apply (Hm (k, d)) end.
  - rewrite nested_keys_entries. apply sorted_NoDup, Hsort.
  - done.
Qed.

(** * Any data *)

Definition left (s : PS) : Z := mDataSize (this s) - mDataPos (this s).

(** [m] reads forward with at most [n] bytes left to read. *)
Definition within {A} (n : Z) (P : A -> Prop) (m : M PS A) : Prop :=
  forall F s, wf (this s) -> left s < n -> wpg F m s (fun a s' => ahead s s' /\ P a).

Lemma ahead_left s s' : ahead s s' -> left s' <= left s.
Proof. intros [(_ & _ & Hp) Hpos]. unfold left. rewrite (peq_size _ _ Hp). cbn. lia. Qed.

Lemma yields_within {A} n (P : A -> Prop) m : yields P m -> within n P m.
Proof. intros Hm F s Hwf _. by apply Hm. Qed.

Lemma within_bind {A B} n (P : A -> Prop) (Q : B -> Prop) (m : M PS A) (k : A -> M PS B) :
  within n P m -> (forall a, P a -> within n Q (k a)) -> within n Q (let* a := m in k a).
Proof.
  intros Hm Hk F s Hwf Hn. wp_step. wp_use Hm; [done|done|]. intros a s1 [A1 Ha].
  pose proof (ahead_left _ _ A1). wp_use (Hk a Ha); [by eapply ahead_wf|lia|]. intros b s2 [A2 Hb].
  split; [by eapply ahead_trans|done].
Qed.

Lemma within_res {A B} n (P : A -> Prop) (Q : B -> Prop) (m : M PS (res A)) (k : A -> M PS (res B)) :
  within n (if_good P) m -> (forall a, P a -> within n (if_good Q) (k a)) ->
  within n (if_good Q) (let? a := m in k a).
Proof.
  intros Hm Hk. eapply within_bind; [exact Hm|]. intros [a|st] Ha; [by apply Hk|].
  by apply yields_within, yields_ret.
Qed.

(** A word that is read is no longer there. *)
Lemma within_word {A} n (Q : res A -> Prop) (k : Z -> M PS (res A)) :
  0 <= n -> (forall st, Q (Err st)) -> (forall a, is_s32 a -> within n Q (k a)) ->
  within (n + 1) Q (let? a := readInt32 in k a).
Proof.
  intros Hn Herr Hk F s Hwf Hl. apply wpg_bind_res.
  assert (Hw : wpg F readInt32 s (fun r s1 => forall v, r = Good v -> left s1 + 4 <= left s)).
  { unfold readInt32. wp_step. wp_use readAligned_ok; [done|done|]. intros r s1 [-> Hs]. wp_step.
    unfold aligned_result, aligned_state in *. change (Z.of_nat 4) with 4 in *.
    zcase (mDataSize (this s) <? mDataPos (this s) + 4); [done|]. intros v _. destruct Hs as (_ & _ & Hp).
    unfold left. rewrite (peq_size _ _ Hp), (peq_pos _ _ Hp). cbn. lia. }
  eapply wpg_mono; [apply wpg_and; [by apply readInt32_typed|exact Hw]|].
  intros [v|st] s1 [[A1 Hv] Hless]; [|split; [done|apply Herr]]. specialize (Hless v eq_refl).
  wp_use (Hk v Hv); [by eapply ahead_wf|lia|]. intros r s2 [A2 Hr]. split; [by eapply ahead_trans|done].
Qed.

Lemma map_set_all {A} (P : A -> Prop) key v m :
  map_ok P m -> Forall is_u16 key -> P v -> map_ok P (map_set key v m).
Proof.
  intros [Hs Hm] Hk Hv. split; [by apply map_set_sorted|]. clear Hs.
  induction m as [|[k x] m IH]; cbn in *; [by repeat split|]. destruct Hm as [[Hk' Hx] Hm].
  destruct (str_ltb k key); cbn; [by repeat split; try apply IH|]. destruct (str_ltb key k); cbn; by repeat split.
Qed.

Lemma map_find_ok {A} (P : A -> Prop) key v m : map_ok P m -> map_find key m = Some v -> P v.
Proof.
  intros [_ Hm]. induction m as [|[k x] m IH]; cbn in *; [done|]. destruct Hm as [[_ Hx] Hm].
  destruct (str_ltb k key); [by apply IH|]. destruct (str_ltb key k); [done|]. by intros [= <-].
Qed.

Lemma typed_empty : typed empty_bundle.
Proof. rewrite typed_eq. repeat split; constructor. Qed.

Lemma typed_field c :
  (forall m, typed c -> map_ok (valid (K := Empty_set) (TPrim Bool)) m -> typed (set_mBoolMap m c)) /\
  (forall m, typed c -> map_ok (valid (K := Empty_set) (TPrim Int32)) m -> typed (set_mIntMap m c)) /\
  (forall m, typed c -> map_ok (valid (K := Empty_set) (TPrim Int64)) m -> typed (set_mLongMap m c)) /\
  (forall m, typed c -> map_ok (valid (K := Empty_set) (TPrim Double)) m -> typed (set_mDoubleMap m c)) /\
  (forall m, typed c -> map_ok (valid (K := Empty_set) TString16) m -> typed (set_mStringMap m c)) /\
  (forall m, typed c -> map_ok (valid (K := Empty_set) (TVector (TPrim Bool))) m -> typed (set_mBoolVectorMap m c)) /\
  (forall m, typed c -> map_ok (valid (K := Empty_set) (TVector (TPrim Int32))) m -> typed (set_mIntVectorMap m c)) /\
  (forall m, typed c -> map_ok (valid (K := Empty_set) (TVector (TPrim Int64))) m -> typed (set_mLongVectorMap m c)) /\
  (forall m, typed c -> map_ok (valid (K := Empty_set) (TVector (TPrim Double))) m -> typed (set_mDoubleVectorMap m c)) /\
  (forall m, typed c -> map_ok (valid (K := Empty_set) (TVector TString16)) m -> typed (set_mStringVectorMap m c)) /\
  (forall m, typed c -> map_ok typed m -> typed (set_mPersistableBundleMap m c)).
Proof. split_and!; intros m Ht Hm; rewrite typed_eq in Ht |- *; destruct_and! Ht; by split_and!. Qed.

Lemma read_into_within {A} n (P : A -> Prop) value key m set :
  within n (if_good P) value -> map_ok P m -> Forall is_u16 key ->
  (forall m, map_ok P m -> typed (set m)) ->
  within n (if_good typed) (read_into value key m set).
Proof.
  intros Hv Hm Hk Hset. eapply within_res; [exact Hv|]. intros x Hx. apply yields_within, yields_ret. cbn.
  by apply Hset, map_set_all.
Qed.

Lemma read_value_within n loop type key b :
  typed b -> Forall is_u16 key ->
  (forall c, typed c -> within n (if_good typed) (read_bundle loop c)) ->
  within n (if_good typed) (read_value loop type key b).
Proof.
  intros Ht Hk Hn. pose proof (typed_field b) as Hf. pose proof Ht as Ht'. rewrite typed_eq in Ht'.
  destruct_and! Ht'. destruct_and! Hf. unfold read_value.
  repeat match goal with |- within _ _ (if _ then _ else _) => destruct (_ =? _) end;
    try (eapply read_into_within; [apply yields_within, readData_reads; done|done|done|by auto]).
  - eapply read_into_within; [apply Hn|done|done|by auto].
    destruct (map_find key (mPersistableBundleMap b)) eqn:E; [by eapply map_find_ok|apply typed_empty].
  - by apply yields_within, yields_ret.
Qed.

Lemma read_bundle_within n loop b :
  0 <= n -> typed b -> (forall k c, typed c -> within n (if_good typed) (loop k c)) ->
  within n (if_good typed) (read_bundle loop b).
Proof.
  intros Hn Ht Hl. eapply within_bind; [apply yields_within, readInt32_typed_|]. intros length _.
  destruct (length <? 0); [by apply yields_within, yields_ret|]. unfold readFromParcelInner.
  destruct (length =? 0); [by apply yields_within, yields_ret|].
  eapply within_res; [apply yields_within, readInt32_typed|]. intros magic _.
  destruct (_ && _); [by apply yields_within, yields_ret|].
  eapply within_res; [apply yields_within, readInt32_typed|]. intros num _. by apply Hl.
Qed.

Lemma read_entries_within fuel num b :
  typed b -> within (Z.of_nat fuel) (if_good typed) (read_entries fuel num b).
Proof.
  revert num b. induction fuel as [|fuel IH]; intros num b Ht.
  { intros F s Hwf Hl. pose proof (ParcelInv.wf_pos _ Hwf). unfold left in Hl. lia. }
  cbn [read_entries]. destruct (num <=? 0); [by apply yields_within, yields_ret|].
  rewrite Nat2Z.inj_succ, <- Z.add_1_r.
  eapply within_res; [apply yields_within, readString16_typed|]. intros key Hk.
  apply within_word; [lia|done|]. intros type _.
  eapply within_res; [apply read_value_within; [done|done|]|].
  - intros c Hc. apply read_bundle_within; [lia|done|]. intros k d Hd. by apply IH.
  - intros c Hc. by apply IH.
Qed.

Lemma readFromParcel_reads b : typed b -> reads_as typed (readFromParcel_ b).
Proof.
  intros Ht F s Hwf. unfold readFromParcel_. wp_steps. pose proof (ParcelInv.wf_pos _ Hwf).
  pose proof (ParcelInv.wf_size _ Hwf).
  eapply (read_bundle_within (Z.of_nat (S (Z.to_nat (mDataSize (this s)))))); [lia|done| |done|unfold left; lia].
  intros k c Hc. by apply read_entries_within.
Qed.

Lemma readFromParcel_decodes c : typed c -> decodes (readFromParcel_ empty_bundle) (bundle_bytes c) (Good c).
Proof.
  intros Ht F s Hwf Hav. unfold readFromParcel_. wp_steps. pose proof (avail_bound _ _ Hwf Hav).
  pose proof (ParcelInv.wf_pos _ Hwf). pose proof (av_size _ _ Hav). pose proof (zlen_nonneg (bundle_bytes c)).
  apply read_bundle_decodes; [done|lia|done|done|done].
Qed.

(** * A parcelable class *)

#[export] Instance bundle_parcelable : Parcelable unit := {
  pvalue _ := PersistableBundle;
  writeToParcel _ := writeToParcel_;
  readFromParcel _ := readFromParcel_ empty_bundle;
}.

Lemma readFromParcel_safe : safe_read (readFromParcel_ empty_bundle).
Proof.
  intros F s Hwf. wp_use readFromParcel_reads; [apply typed_empty|done|]. by intros r s' [[Hs _] _].
Qed.

#[export] Instance bundle_laws : ParcelableLaws unit := {
  p_encode _ := bundle_bytes;
  p_valid _ := typed;
  p_write _ v F s Hwf Hv Hf := write_bundle_ok F v s Hv Hwf Hf;
  p_read _ v Hv := readFromParcel_decodes v Hv;
  p_safe _ := readFromParcel_safe;
}.

#[export] Instance bundle_typed : TypedParcelables (K := unit).
Proof. split. intros []. apply readFromParcel_reads, typed_empty. Qed.

(** C4: the bundle round trip.  A well-typed bundle, with bundles nested in it to
    any depth, written with [writeToParcel] and read back with [readFromParcel] from
    where it starts, is the same bundle in all eleven maps, and the position is where
    the write ended: in particular the length that is patched in afterwards, over a
    placeholder, leaves the entries intact. *)
Theorem bundle_round_trip (b : PersistableBundle) (s : PS) :
  typed b -> wf (this s) -> fits (this s) (zlen (bundle_bytes b)) ->
  clear (this s) (zlen (bundle_bytes b)) -> ~ can_fail (world s) ->
  wp (let* pos := getp dataPosition in
      let* st := writeToParcel_ b in
      setDataPosition pos ;;
      let* r := readFromParcel_ empty_bundle in
      ret (st, r)) s
    (fun '(st, r) s' => st = OK /\ r = Good b /\ wf (this s') /\
       dataPosition (this s') = dataPosition (this s) + zlen (bundle_bytes b)).
Proof.
  intros Hb Hwf Hf Hcl Hmem. pose proof (ParcelInv.wf_pos _ Hwf). wp_steps.
  wp_use write_bundle_ok; [done..|]. intros st s1 [_ [[-> Hw]|[]]]; [|done]. wp_step.
  apply setDataPosition_ok; [apply Hw|rewrite (wrote_size _ _ _ Hwf Hw); unfold dataPosition; lia|].
  intros s2 _ Hwf2 Hp. wp_step.
  wp_use readFromParcel_decodes; [done|done|exact (wrote_avail _ _ _ _ Hwf Hw Hcl Hp)|].
  intros r s3 [-> (_ & Hwf3 & Hp3)]. wp_step. split_and!; [done|done|done|].
  unfold dataPosition. by rewrite (peq_pos _ _ Hp3), (peq_pos _ _ Hp).
Qed.

(** C5: reading a bundle from any data.  On every well-formed parcel, whatever its
    bytes, [readFromParcel] returns: every entry it goes on to takes bytes off the
    parcel, so a huge number of entries or deeply nested bundles cannot keep it
    going.  It leaves the data alone, and a bundle it reports success for is
    well typed: each of the maps in the order of its keys, the keys and the values of
    their types, and so for every nested bundle. *)
Theorem bundle_read_ends (b : PersistableBundle) (s : PS) :
  typed b -> wf (this s) ->
  wp (readFromParcel_ b) s (fun r s' => world s' = world s /\ wf (this s') /\
    contents (this s') = contents (this s) /\ mDataPos (this s) <= mDataPos (this s') /\
    (match r with Good b' => typed b' | Err st => True end : Prop)).
Proof.
  intros Hb Hwf. wp_use readFromParcel_reads; [done..|]. intros r s' [[(Hw & Hwf' & Hp) Hpos] Hr].
  split_and!; [done|done|by rewrite (peq_contents _ _ Hp)|done|done].
Qed.
End Read.

(** * Concrete bundles, with strings in lexicographic order *)

Fixpoint lexicographic (a b : String16) : bool :=
  match a, b with
  | _, [] => false
  | [], _ :: _ => true
  | x :: a, y :: b => (x <? y) || ((x =? y) && lexicographic a b)
  end.

#[export] Instance lex_order : String16Order := lexicographic.

#[export] Instance lex_laws : String16OrderLaws.
Proof.
  split; unfold str_ltb, lex_order.
  - induction a as [|x a IH]; cbn; [done|]. by rewrite Z.ltb_irrefl, Z.eqb_refl, IH.
  - induction a as [|x a IH]; intros [|y b] [|z c]; cbn; try done.
    rewrite !orb_true_iff, !andb_true_iff, !Z.ltb_lt, !Z.eqb_eq.
    intros [?|[-> ?]] [?|[-> ?]]; [left; lia|left; lia|left; lia|right]. split; [done|by eapply IH].
  - induction a as [|x a IH]; intros [|y b]; cbn; try done.
    rewrite !orb_false_iff, !andb_false_iff, !Z.ltb_ge, !Z.eqb_neq.
    intros [? H1] [? H2]. assert (x = y) as -> by lia. f_equal. apply IH.
    + destruct H1 as [[]|H1]; done.
    + destruct H2 as [[]|H2]; done.
Qed.

(** {"a": 7, "b": [1, 2], "c": {"x": true}} *)
Definition inside : PersistableBundle := putBoolean [120] 1 empty_bundle.
Definition sample : PersistableBundle :=
  putPersistableBundle [99] inside (putIntVector [98] [1; 2] (putInt [97] 7 empty_bundle)).

Lemma one_entry {A} (P : A -> Prop) k x : Forall is_u16 k -> P x -> map_ok P [(k, x)].
Proof. intros Hk Hx. split; [by repeat constructor|]. by split. Qed.

Lemma no_entry {A} (P : A -> Prop) : map_ok P [].
Proof. by split; [constructor|]. Qed.

Lemma letter n : 0 <= n < 128 -> Forall is_u16 [n].
Proof. intros Hn. repeat constructor; lia. Qed.

Lemma inside_typed : typed inside.
Proof.
  rewrite typed_eq. split_and!; try apply no_entry. apply one_entry; [apply letter; lia|by right].
Qed.

Lemma sample_typed : typed sample.
Proof.
  rewrite typed_eq. split_and!; try apply no_entry; apply one_entry; try (apply letter; lia).
  - cbn. unfold is_s32. lia.
  - repeat constructor; lia.
  - apply inside_typed.
Qed.

Lemma sample_distinct : distinct sample.
Proof.
  split; [apply typed_sorted, sample_typed|]. apply (bool_decide_eq_true_1 _). by vm_compute.
Qed.

(** The key "a" is given a string instead of its integer. *)
Lemma bundle_is_a_map_witness :
  view (put [97] (VString [104; 105]) sample) = <[[97] := VString [104; 105]]> (view sample) /\
  bundle_size sample = 3.
Proof.
  destruct (bundle_is_a_map [97] (VString [104; 105]) sample sample_distinct) as [[_ H1] [_ [H2 _]]].
  split; [exact H1|]. rewrite H2. by vm_compute.
Defined.

Lemma bundle_round_trip_witness :
  wp (let* pos := getp dataPosition in
      let* st := writeToParcel_ sample in
      setDataPosition pos ;;
      let* r := readFromParcel_ empty_bundle in
      ret (st, r)) Sample.fresh
    (fun '(st, r) s' => st = OK /\ r = Good sample /\ wf (this s') /\
       dataPosition (this s') = dataPosition init_parcel + zlen (bundle_bytes sample)).
Proof.
  apply (bundle_round_trip sample Sample.fresh).
  - apply sample_typed.
  - apply init_parcel_wf.
  - by vm_compute.
  - constructor.
  - apply Sample.calm_allocates.
Defined.

(** A parcel that holds [bs]. *)
Definition parcel_of (bs : bytes) : Parcel :=
  set_mData (Some bs) (set_mDataSize (zlen bs) (set_mDataCapacity (zlen bs) init_parcel)).

Lemma parcel_of_wf bs : Forall is_byte bs -> zlen bs <= INT32_MAX -> wf (parcel_of bs).
Proof. intros Hb Hz. pose proof (zlen_nonneg bs). split; try done; cbn; try lia. Qed.

(** A bundle that announces two thousand million entries and ends there. *)
Definition announcing : PS :=
  mkPS (parcel_of (le_bytes 4 100 ++ le_bytes 4 BUNDLE_MAGIC ++ le_bytes 4 2000000000)) Sample.calm.

Lemma bundle_read_ends_witness :
  wp (readFromParcel_ sample) announcing (fun r s' => world s' = Sample.calm /\ wf (this s') /\
    contents (this s') = contents (this announcing) /\ 0 <= mDataPos (this s') /\
    (match r with Good b' => typed b' | Err st => True end : Prop)).
Proof.
  apply (bundle_read_ends sample announcing); [apply sample_typed|].
  apply parcel_of_wf; [|by vm_compute]. apply (bool_decide_eq_true_1 _). by vm_compute.
Defined.

(** Two entries under one key leave it with two values. *)
Definition twice : bytes :=
  le_bytes 4 100 ++ le_bytes 4 BUNDLE_MAGIC ++ le_bytes 4 2 ++
  entry_bytes VAL_INTEGER (le_bytes 4) ([97], 7) ++ entry_bytes VAL_BOOLEAN (le_bytes 4) ([97], 1).
Definition doubled : PS := mkPS (parcel_of twice) Sample.calm.

Lemma duplicate_keys_accepted :
  match readFromParcel_ empty_bundle doubled with
  | Ret (Good b) _ => getInt [97] b = Some 7 /\ getBoolean [97] b = Some 1 /\ bundle_size b = 2
  | _ => False
  end.
Proof. by vm_compute. Qed.
