(* ===== verification/ServiceManager.v ===== *)
(** The service manager: src/cmds/servicemanager/ServiceManager.cpp, its header,
    and the access control of Access.cpp.

    A binder, and a callback interface through its [asBinder], is an identity
    in [Z]; [None] is a null pointer.  A [std::map] keyed by name is a [gmap]
    whose iteration order is [in_order]; the calls that leave the process (a
    oneway callback, the request to start a service) are appended to a log.
    SELinux, libvintf, the AID table and the kernel are parameters; the build is
    the one without [VENDORSERVICEMANAGER]. *)

From Stdlib Require Import Ascii.
From stdpp Require Import strings sorting.
From S2P Require Import Prelude Errors ParcelState Stability ParcelWrite ParcelRead ParcelInv ParcelData BinderStatus.

(** * Strings *)

Fixpoint find_char (c : ascii) (s : string) : option nat :=
  match s with
  | EmptyString => None
  | String d s => if decide (c = d) then Some 0%nat else S <$> find_char c s
  end.

(** The last occurrence at or before [pos]; [None] is [npos]. *)
Fixpoint rfind_char (c : ascii) (pos : option nat) (s : string) : option nat :=
  match s with
  | EmptyString => None
  | String d s =>
      let here := if decide (c = d) then Some 0%nat else None in
      match pos with
      | Some O => here
      | _ => match rfind_char c (pred <$> pos) s with
             | Some i => Some (S i)
             | None => here
             end
      end
  end.

Definition substr (pos n : nat) (s : string) : string := String.substring pos n s.
Definition substr_from (pos : nat) (s : string) : string :=
  String.substring pos (String.length s - pos) s.

Fixpoint c_str (s : string) : string :=
  match s with
  | EmptyString => EmptyString
  | String d s => if decide (d = Ascii.zero) then EmptyString else String d (c_str s)
  end.

Fixpoint chars (s : string) : list Z :=
  match s with
  | EmptyString => []
  | String d s => Z.of_N (Ascii.N_of_ascii d) :: chars s
  end.

Definition name_le (a b : string) : Prop := String.leb a b = true.
Definition entry_le {A} (a b : string * A) : Prop := name_le (fst a) (fst b).
#[export] Instance entry_le_dec {A} : RelDecision (@entry_le A).
Proof. intros a b. unfold entry_le, name_le. apply _. Defined.

(** The entries of a [std::map], in the order of its iterators. *)
Definition in_order {A} (m : gmap string A) : list (string * A) :=
  merge_sort entry_le (map_to_list m).

(** * Access control *)

Record Caller := mkCaller {
  c_sid : option string;
  c_pid : Z;
  c_uid : Z;
}.
Record CallingContext := mkCallingContext { debugPid : Z; uid : Z; sid : string }.

(** What the service manager asks of [Access]. *)
Class Access := {
  getCallingContext : Caller -> CallingContext;
  canFind : CallingContext -> string -> bool;
  canAdd : CallingContext -> string -> bool;
  canList : CallingContext -> bool;
}.

(** Access.cpp on Android: the decisions are those of SELinux. *)
Module SELinuxAccess.
Section SELinuxAccess.
Context (getpidcon : Z -> option string) (mThisProcessContext : string).
Context (selabel_lookup : string -> option string).
Context (selinux_check_access : string -> string -> string -> string -> Z).

Definition getPidcon (pid : Z) : string := default EmptyString (getpidcon pid).
Definition calling_context (c : Caller) : CallingContext :=
  mkCallingContext (c_pid c) (c_uid c)
    (match c_sid c with Some s => s | None => getPidcon (c_pid c) end).
Definition actionAllowed (sctx : CallingContext) (tctx perm : string) : bool :=
  selinux_check_access (c_str (sid sctx)) tctx "service_manager" perm =? 0.
Definition actionAllowedFromLookup (sctx : CallingContext) (name perm : string) : bool :=
  match selabel_lookup (c_str name) with
  | None => false
  | Some tctx => actionAllowed sctx tctx perm
  end.

Definition access : Access := {|
  getCallingContext := calling_context;
  canFind ctx name := actionAllowedFromLookup ctx name "find";
  canAdd ctx name := actionAllowedFromLookup ctx name "add";
  canList ctx := actionAllowed ctx mThisProcessContext "list";
|}.
End SELinuxAccess.
End SELinuxAccess.

(** Access.cpp elsewhere: no caller is known and everything is allowed. *)
Definition open_access : Access := {|
  getCallingContext _ := mkCallingContext 0 0 EmptyString;
  canFind _ _ := true;
  canAdd _ _ := true;
  canList _ := true;
|}.

(** The uid scheme of libcutils. *)
Class Platform := {
  multiuser_get_app_id : Z -> Z;
  AID_APP : Z;
  AID_ISOLATED_START : Z;
  AID_ISOLATED_END : Z;
}.

(** * The VINTF manifests *)

Record AidlName := mkAidlName { package : string; iface : string; instance : string }.

Definition fill (name : string) : option AidlName :=
  let firstSlash := find_char "/" name in
  let lastDot := rfind_char "." firstSlash name in
  match firstSlash, lastDot with
  | Some slash, Some dot =>
      Some (mkAidlName (substr 0 dot name) (substr (dot + 1) (slash - dot - 1) name)
              (substr_from (slash + 1) name))
  | _, _ => None
  end.

(** An instance as [forEachInstance] of libvintf shows it. *)
Record ManifestInstance := mkManifestInstance {
  mi_aidl : bool;
  mi_name : AidlName;
  mi_updatableViaApex : option string;
  mi_ip : option string;
  mi_port : option Z;
}.

(** What is used of [vintf::HalManifest]. *)
Class HalManifest (mf : Type) := {
  hasAidlInstance : mf -> string -> string -> string -> bool;
  getAidlInstances : mf -> string -> string -> list string;
  manifest_instances : mf -> list ManifestInstance;
}.

Record ConnectionInfo := mkConnectionInfo { ipAddress : string; port : Z }.

#[export] Instance AidlName_eq_dec : EqDecision AidlName.
Proof. solve_decision. Defined.

Section Vintf.
Context {mf : Type} {hal : HalManifest mf} (manifests : list (option mf)).

(** [func] true stops the search. *)
Fixpoint forEachManifest_in (l : list (option mf)) (func : mf -> bool) : bool :=
  match l with
  | [] => false
  | None :: l => forEachManifest_in l func
  | Some m :: l => if func m then true else forEachManifest_in l func
  end.
Definition forEachManifest (func : mf -> bool) : bool := forEachManifest_in manifests func.

Definition isVintfDeclared (name : string) : bool :=
  match fill name with
  | None => false
  | Some aname =>
      forEachManifest (fun m => hasAidlInstance m (package aname) (iface aname) (instance aname))
  end.

(** The instance [forEachInstance] stops at. *)
Fixpoint first_instance (aname : AidlName) (l : list ManifestInstance) : option ManifestInstance :=
  match l with
  | [] => None
  | i :: l =>
      if negb (mi_aidl i) then first_instance aname l else
      if decide (mi_name i = aname) then Some i else first_instance aname l
  end.

(** The search never stops: a later manifest overwrites what an earlier one gave. *)
Fixpoint overwrite {A} (f : ManifestInstance -> A) (aname : AidlName) (l : list (option mf)) (acc : A) : A :=
  match l with
  | [] => acc
  | None :: l => overwrite f aname l acc
  | Some m :: l =>
      overwrite f aname l
        (match first_instance aname (manifest_instances m) with Some i => f i | None => acc end)
  end.

Definition getVintfUpdatableApex (name : string) : option string :=
  aname ← fill name; overwrite mi_updatableViaApex aname manifests None.

Definition getVintfConnectionInfo (name : string) : option ConnectionInfo :=
  aname ← fill name;
  match overwrite (fun i => (mi_ip i, mi_port i)) aname manifests (None, None) with
  | (Some ip, Some port) => Some (mkConnectionInfo ip port)
  | _ => None
  end.

Definition getVintfInstances (interface : string) : list string :=
  match rfind_char "." None interface with
  | None => []
  | Some lastDot =>
      let package := substr 0 lastDot interface in
      let iface := substr_from (lastDot + 1) interface in
      m ← manifests; match m with Some m => getAidlInstances m package iface | None => [] end
  end.
End Vintf.

(** * State *)

Record Service := mkService {
  s_binder : option Z;
  allowIsolated : bool;
  dumpPriority : Z;
  hasClients : bool;
  guaranteeClient : bool;
  s_debugPid : Z;
}.
Definition set_hasClients (b : bool) (s : Service) : Service :=
  mkService (s_binder s) (allowIsolated s) (dumpPriority s) b (guaranteeClient s) (s_debugPid s).
Definition set_guaranteeClient (b : bool) (s : Service) : Service :=
  mkService (s_binder s) (allowIsolated s) (dumpPriority s) (hasClients s) b (s_debugPid s).

(** What leaves the process. *)
Inductive Event :=
| OnRegistration (callback : Z) (name : string) (binder : Z)
| OnClients (callback : Z) (service : option Z) (hasClients : bool)
| StartService (name : string).

Record SM := mkSM {
  mNameToService : gmap string Service;
  mNameToRegistrationCallback : gmap string (list Z);
  mNameToClientCallback : gmap string (list Z);
  sm_log : list Event;
}.
Definition ServiceManager : SM := mkSM ∅ ∅ ∅ [].

Definition put_services (x : gmap string Service) (s : SM) : SM :=
  mkSM x (mNameToRegistrationCallback s) (mNameToClientCallback s) (sm_log s).
Definition put_registration (x : gmap string (list Z)) (s : SM) : SM :=
  mkSM (mNameToService s) x (mNameToClientCallback s) (sm_log s).
Definition put_client (x : gmap string (list Z)) (s : SM) : SM :=
  mkSM (mNameToService s) (mNameToRegistrationCallback s) x (sm_log s).
Definition put_log (x : list Event) (s : SM) : SM :=
  mkSM (mNameToService s) (mNameToRegistrationCallback s) (mNameToClientCallback s) x.

(** An assignment to a field of a service that is in the map. *)
Definition mod_service (name : string) (f : Service -> Service) : M SM unit :=
  modify (fun s => put_services (alter f name (mNameToService s)) s).
Definition emit (e : Event) : M SM unit := modify (fun s => put_log (sm_log s ++ [e]) s).

(** The kernel and the proxies, at the time of a call. *)
Record Kernel := mkKernel {
  remoteBinder : Z -> bool;
  linkToDeath : Z -> status_t;
  getStrongRefCountForNode : Z -> Z;
  stabilityRepr : Z -> Z;
}.

Definition exception (code : Z) : Status := fromExceptionCode code [].
Definition exception_msg (code : Z) (message : string) : Status := fromExceptionCode code (chars message).

Definition isValidServiceName_char (c : ascii) : bool :=
  let n := Z.of_N (Ascii.N_of_ascii c) in
  (n =? 95) || (n =? 45) || (n =? 46) || (n =? 47) ||
  ((97 <=? n) && (n <=? 122)) || ((65 <=? n) && (n <=? 90)) || ((48 <=? n) && (n <=? 57)).
Fixpoint all_chars (p : ascii -> bool) (s : string) : bool :=
  match s with EmptyString => true | String d s => p d && all_chars p s end.
Definition isValidServiceName (name : string) : bool :=
  if Nat.eqb (String.length name) 0 then false else
  if Nat.ltb 127 (String.length name) then false else
  all_chars isValidServiceName_char name.

Section ServiceManager.
Context {acc : Access} {plat : Platform}.
Context {mf : Type} {hal : HalManifest mf} (manifests : list (option mf)).

(** [k] is the kernel during the call, [who] the calling process. *)
Section Call.
Context (k : Kernel) (who : Caller).

Definition ctx : CallingContext := getCallingContext who.
Definition getCallingPid : Z := c_pid who.

Definition meetsDeclarationRequirements (binder : Z) (name : string) : bool :=
  if negb (Stability.check (stabilityRepr k binder) VINTF) then true
  else isVintfDeclared manifests name.

Definition tryStartService (name : string) : M SM unit := emit (StartService name).

Definition isIsolated : bool :=
  let appid := multiuser_get_app_id (uid ctx) in
  (AID_ISOLATED_START <=? appid) && (appid <=? AID_ISOLATED_END).

Definition tryGetService (name : string) (startIfNotFound : bool) : M SM (option Z) :=
  let* services := gets mNameToService in
  let service := services !! name in
  let refused := match service with
                 | Some service => negb (allowIsolated service) && isIsolated
                 | None => false
                 end in
  if refused then ret None else
  let out := service ≫= s_binder in
  if negb (canFind ctx name) then ret None else
  (if negb (bool_decide (is_Some out)) && startIfNotFound then tryStartService name else ret tt) ;;
  (if bool_decide (is_Some out) then mod_service name (set_guaranteeClient true) else ret tt) ;;
  ret out.

Definition getService (name : string) : M SM (Status * option Z) :=
  let* outBinder := tryGetService name true in ret (Status_ok, outBinder).
Definition checkService (name : string) : M SM (Status * option Z) :=
  let* outBinder := tryGetService name false in ret (Status_ok, outBinder).

Definition addService (name : string) (binder : option Z) (allowIsolated : bool)
    (dumpPriority : Z) : M SM Status :=
  if AID_APP <=? multiuser_get_app_id (uid ctx) then
    ret (exception_msg EX_SECURITY "App UIDs cannot add services") else
  if negb (canAdd ctx name) then ret (exception_msg EX_SECURITY "SELinux denial") else
  match binder with
  | None => ret (exception_msg EX_ILLEGAL_ARGUMENT "Null binder")
  | Some binder =>
      if negb (isValidServiceName name) then
        ret (exception_msg EX_ILLEGAL_ARGUMENT "Invalid service name") else
      if negb (meetsDeclarationRequirements binder name) then
        ret (exception_msg EX_ILLEGAL_ARGUMENT "VINTF declaration error") else
      if remoteBinder k binder && negb (linkToDeath k binder =? OK) then
        ret (exception_msg EX_ILLEGAL_STATE "linkToDeath failure") else
      modify (fun s => put_services (<[name := mkService (Some binder) allowIsolated dumpPriority
        false false (debugPid ctx)]> (mNameToService s)) s) ;;
      let* callbacks := gets mNameToRegistrationCallback in
      match callbacks !! name with
      | None => ret tt
      | Some l => for_each l (fun cb =>
          mod_service name (set_guaranteeClient true) ;; emit (OnRegistration cb name binder))
      end ;;
      ret Status_ok
  end.

Definition dumped (priority : Z) (e : string * Service) : bool :=
  negb (Z.land (dumpPriority (snd e)) priority =? 0).

(** [outList] is the vector passed in. *)
Definition listServices (priority : Z) (outList : list string) : M SM (Status * list string) :=
  if negb (canList ctx) then ret (exception EX_SECURITY, outList) else
  let* services := gets mNameToService in
  fatal_if (negb (bool_decide (outList = []))) ;;
  ret (Status_ok, outList ++ map fst (List.filter (dumped priority) (in_order services))).

Definition registerForNotifications (name : string) (callback : option Z) : M SM Status :=
  if negb (canFind ctx name) then ret (exception EX_SECURITY) else
  if negb (isValidServiceName name) then ret (exception EX_ILLEGAL_ARGUMENT) else
  match callback with
  | None => ret (exception EX_NULL_POINTER)
  | Some callback =>
      if negb (linkToDeath k callback =? OK) then ret (exception EX_ILLEGAL_STATE) else
      modify (fun s => put_registration
        (<[name := default [] (mNameToRegistrationCallback s !! name) ++ [callback]]>
           (mNameToRegistrationCallback s)) s) ;;
      let* services := gets mNameToService in
      match services !! name with
      | None => ret tt
      | Some service =>
          fatal_if (negb (bool_decide (is_Some (s_binder service)))) ;;
          let* binder := require (s_binder service) in
          emit (OnRegistration callback name binder)
      end ;;
      ret Status_ok
  end.

(** The listeners that are not [dead]; [it] points at the entry of [name]. *)
Definition removeRegistrationCallback (dead : option Z) (name : string) : M SM bool :=
  let* m := gets mNameToRegistrationCallback in
  let* listeners := require (m !! name) in
  let found := existsb (fun l => bool_decide (Some l = dead)) listeners in
  let listeners := List.filter (fun l => negb (bool_decide (Some l = dead))) listeners in
  (if bool_decide (listeners = [])
   then modify (put_registration (delete name m))
   else modify (put_registration (<[name := listeners]> m))) ;;
  ret found.

Definition removeClientCallback (dead : option Z) (name : string) : M SM unit :=
  let* m := gets mNameToClientCallback in
  let* listeners := require (m !! name) in
  let listeners := List.filter (fun l => negb (bool_decide (Some l = dead))) listeners in
  if bool_decide (listeners = [])
  then modify (put_client (delete name m))
  else modify (put_client (<[name := listeners]> m)).

Definition unregisterForNotifications (name : string) (callback : option Z) : M SM Status :=
  if negb (canFind ctx name) then ret (exception EX_SECURITY) else
  let* m := gets mNameToRegistrationCallback in
  let* found := match m !! name with
                | Some _ => removeRegistrationCallback callback name
                | None => ret false
                end in
  if negb found then ret (exception EX_ILLEGAL_STATE) else ret Status_ok.

Definition isDeclared (name : string) : M SM (Status * option bool) :=
  if negb (canFind ctx name) then ret (exception EX_SECURITY, None) else
  ret (Status_ok, Some (isVintfDeclared manifests name)).

Definition getDeclaredInstances (interface : string) : M SM (Status * list string) :=
  let allInstances := getVintfInstances manifests interface in
  let out := List.filter (fun i => canFind ctx (interface +:+ "/" +:+ i)) allInstances in
  if (zlen out =? 0) && negb (zlen allInstances =? 0) then ret (exception EX_SECURITY, out) else
  ret (Status_ok, out).

Definition updatableViaApex (name : string) : M SM (Status * option string) :=
  if negb (canFind ctx name) then ret (exception EX_SECURITY, None) else
  ret (Status_ok, getVintfUpdatableApex manifests name).

Definition getConnectionInfo (name : string) : M SM (Status * option ConnectionInfo) :=
  if negb (canFind ctx name) then ret (exception EX_SECURITY, None) else
  ret (Status_ok, getVintfConnectionInfo manifests name).

Definition registerClientCallback (name : string) (service cb : option Z) : M SM Status :=
  match cb with
  | None => ret (exception EX_NULL_POINTER)
  | Some cb =>
      if negb (canAdd ctx name) then ret (exception EX_SECURITY) else
      let* services := gets mNameToService in
      match services !! name with
      | None => ret (exception EX_ILLEGAL_ARGUMENT)
      | Some entry =>
          if negb (s_debugPid entry =? getCallingPid) then ret (exception EX_UNSUPPORTED_OPERATION) else
          if negb (bool_decide (s_binder entry = service)) then ret (exception EX_ILLEGAL_ARGUMENT) else
          if negb (linkToDeath k cb =? OK) then ret (exception EX_ILLEGAL_STATE) else
          modify (fun s => put_client
            (<[name := default [] (mNameToClientCallback s !! name) ++ [cb]]>
               (mNameToClientCallback s)) s) ;;
          ret Status_ok
      end
  end.

(** [Service::getNodeStrongRefCount]. *)
Definition getNodeStrongRefCount (service : Service) : M SM Z :=
  let* binder := require (s_binder service) in
  if negb (remoteBinder k binder) then ret (-1) else
  ret (getStrongRefCountForNode k binder).

Definition sendClientCallbackNotifications (serviceName : string) (has : bool) : M SM unit :=
  let* s := get in
  match mNameToService s !! serviceName with
  | None => ret tt
  | Some service =>
      fatal_if (Bool.eqb has (hasClients service)) ;;
      match mNameToClientCallback s !! serviceName with
      | None => fatal
      | Some callbacks =>
          for_each callbacks (fun callback => emit (OnClients callback (s_binder service) has)) ;;
          mod_service serviceName (set_hasClients has)
      end
  end.

Definition service_flag (name : string) (flag : Service -> bool) : M SM bool :=
  let* services := gets mNameToService in
  let* service := require (services !! name) in ret (flag service).

Definition handleServiceClientCallback (serviceName : string) (isCalledOnInterval : bool) : M SM Z :=
  let* s := get in
  match mNameToService s !! serviceName, mNameToClientCallback s !! serviceName with
  | Some service, Some _ =>
      let* count := getNodeStrongRefCount service in
      if count =? -1 then ret count else
      let has := 1 <? count in
      (if guaranteeClient service then
         (if negb (hasClients service) && negb has
          then sendClientCallbackNotifications serviceName true else ret tt) ;;
         mod_service serviceName (set_guaranteeClient false)
       else ret tt) ;;
      (if isCalledOnInterval then
         let* had := service_flag serviceName hasClients in
         (if has && negb had then sendClientCallbackNotifications serviceName true else ret tt) ;;
         let* had := service_flag serviceName hasClients in
         (if negb has && had then sendClientCallbackNotifications serviceName false else ret tt)
       else ret tt) ;;
      ret count
  | _, _ => ret (-1)
  end.

Definition handleClientCallbacks : M SM unit :=
  let* services := gets mNameToService in
  for_each (map fst (in_order services)) (fun name =>
    handleServiceClientCallback name true ;; ret tt).

Definition tryUnregisterService (name : string) (binder : option Z) : M SM Status :=
  match binder with
  | None => ret (exception EX_NULL_POINTER)
  | Some _ =>
      if negb (canAdd ctx name) then ret (exception EX_SECURITY) else
      let* services := gets mNameToService in
      match services !! name with
      | None => ret (exception EX_ILLEGAL_STATE)
      | Some entry =>
          if negb (s_debugPid entry =? getCallingPid) then ret (exception EX_UNSUPPORTED_OPERATION) else
          if negb (bool_decide (binder = s_binder entry)) then ret (exception EX_ILLEGAL_STATE) else
          if guaranteeClient entry then ret (exception EX_ILLEGAL_STATE) else
          let* count := handleServiceClientCallback name false in
          let clients := s32 count in
          if (clients <? 0) || (2 <? clients) then
            mod_service name (set_guaranteeClient true) ;; ret (exception EX_ILLEGAL_STATE) else
          modify (fun s => put_services (delete name (mNameToService s)) s) ;;
          ret Status_ok
      end
  end.

Definition getServiceDebugInfo (outReturn : list (string * Z)) : M SM (Status * list (string * Z)) :=
  if negb (canList ctx) then ret (exception EX_SECURITY, outReturn) else
  let* services := gets mNameToService in
  ret (Status_ok, outReturn ++ map (fun e => (fst e, s_debugPid (snd e))) (in_order services)).
End Call.

Definition binderDied (dead : Z) : M SM unit :=
  let* services := gets mNameToService in
  for_each (in_order services) (fun '(name, service) =>
    if bool_decide (Some dead = s_binder service)
    then modify (fun s => put_services (delete name (mNameToService s)) s) else ret tt) ;;
  let* registrations := gets mNameToRegistrationCallback in
  for_each (map fst (in_order registrations)) (fun name =>
    removeRegistrationCallback (Some dead) name ;; ret tt) ;;
  let* clients := gets mNameToClientCallback in
  for_each (map fst (in_order clients)) (fun name => removeClientCallback (Some dead) name).

(** [~ServiceManager]. *)
Definition destructor : M SM unit :=
  let* registrations := gets mNameToRegistrationCallback in
  for_each (in_order registrations) (fun '(_, callbacks) =>
    fatal_if (bool_decide (callbacks = []))) ;;
  let* services := gets mNameToService in
  for_each (in_order services) (fun '(_, service) =>
    fatal_if (negb (bool_decide (is_Some (s_binder service))))).

(** * The calls *)

Inductive Request :=
| GetService (name : string)
| CheckService (name : string)
| AddService (name : string) (binder : option Z) (allowIsolated : bool) (dumpPriority : Z)
| ListServices (dumpPriority : Z)
| RegisterForNotifications (name : string) (callback : option Z)
| UnregisterForNotifications (name : string) (callback : option Z)
| IsDeclared (name : string)
| GetDeclaredInstances (interface : string)
| UpdatableViaApex (name : string)
| GetConnectionInfo (name : string)
| RegisterClientCallback (name : string) (service cb : option Z)
| TryUnregisterService (name : string) (binder : option Z)
| GetServiceDebugInfo
| BinderDied (dead : Z)
| HandleClientCallbacks.

Definition discard {A} (m : M SM A) : M SM unit := m ;; ret tt.

(** One message of the looper: a transaction, an obituary, or the timer. *)
Definition handle (k : Kernel) (who : Caller) (r : Request) : M SM unit :=
  match r with
  | GetService name => discard (getService who name)
  | CheckService name => discard (checkService who name)
  | AddService name b iso prio => discard (addService k who name b iso prio)
  | ListServices prio => discard (listServices who prio [])
  | RegisterForNotifications name cb => discard (registerForNotifications k who name cb)
  | UnregisterForNotifications name cb => discard (unregisterForNotifications who name cb)
  | IsDeclared name => discard (isDeclared who name)
  | GetDeclaredInstances i => discard (getDeclaredInstances who i)
  | UpdatableViaApex name => discard (updatableViaApex who name)
  | GetConnectionInfo name => discard (getConnectionInfo who name)
  | RegisterClientCallback name srv cb => discard (registerClientCallback k who name srv cb)
  | TryUnregisterService name b => discard (tryUnregisterService k who name b)
  | GetServiceDebugInfo => discard (getServiceDebugInfo who [])
  | BinderDied dead => binderDied dead
  | HandleClientCallbacks => handleClientCallbacks k
  end.

Inductive sm_reachable : SM -> Prop :=
| sm_start : sm_reachable ServiceManager
| sm_step k who r s s' : sm_reachable s -> handle k who r s = Ret tt s' -> sm_reachable s'.
End ServiceManager.
