(* ===== verification/ServiceManagerProps.v ===== *)
(** Correctness of the service manager: the invariant of its tables, the
    registry as a map from names to binders, what dies with a binder, and the
    client notifications. *)

From Stdlib Require Import Ascii.
From stdpp Require Import strings sorting.
From S2P Require Import Prelude Errors ParcelState Stability ParcelWrite ParcelRead ParcelInv ParcelData BinderStatus.
From S2P Require Import ServiceManager.

(** * Names *)

Lemma find_char_Some c s i :
  find_char c s = Some i ->
  exists a b, s = a +:+ String c b /\ String.length a = i /\ find_char c a = None.
Proof.
  revert i. induction s as [|d s IH]; intros i; [done|]. simpl. destruct (decide (c = d)) as [->|Hne].
  - intros [= <-]. by exists EmptyString, s.
  - destruct (find_char c s) as [j|]; [|done]. intros [= <-].
    destruct (IH j eq_refl) as (a & b & -> & <- & Hn). exists (String d a), b.
    simpl. rewrite decide_False by done. by rewrite Hn.
Qed.

(** No occurrence in the part of the string up to [pos]. *)
Lemma rfind_char_app c a b :
  rfind_char c (Some (String.length a)) (a +:+ b) = None ->
  find_char c a = None.
Proof.
  revert b. induction a as [|d a IH]; intros b; [done|]. simpl.
  destruct (rfind_char c _ (a +:+ b)) eqn:E; [done|].
  destruct (decide (c = d)); [done|]. by rewrite (IH b).
Qed.

Lemma rfind_char_Some c d a b i :
  c <> d -> rfind_char c (Some (String.length a)) (a +:+ String d b) = Some i ->
  exists p q, a = p +:+ String c q /\ String.length p = i /\ find_char c q = None.
Proof.
  intros Hne. revert i. induction a as [|e a IH]; intros i.
  { simpl. by rewrite decide_False. }
  simpl. destruct (rfind_char c _ (a +:+ String d b)) as [j|] eqn:E.
  - intros [= <-]. destruct (IH j eq_refl) as (p & q & -> & <- & Hq). by exists (String e p), q.
  - destruct (decide (c = e)) as [->|]; [|done]. intros [= <-]. exists EmptyString, a.
    split_and!; [done|done|]. by eapply rfind_char_app.
Qed.

Lemma substring_prefix b c : String.substring 0 (String.length b) (b +:+ c) = b.
Proof. induction b as [|d b IH]; [by destruct c|]. exact (f_equal (String d) IH). Qed.

Lemma substring_mid a b c n :
  n = String.length b -> String.substring (String.length a) n (a +:+ b +:+ c) = b.
Proof. intros ->. induction a as [|d a IH]; [apply (substring_prefix b c)|exact IH]. Qed.

Lemma string_length_app a b : String.length (a +:+ b) = (String.length a + String.length b)%nat.
Proof. induction a as [|d a IH]; [done|]. exact (f_equal S IH). Qed.

Lemma string_app_nil a : a +:+ EmptyString = a.
Proof. induction a as [|d a IH]; [done|]. exact (f_equal (String d) IH). Qed.

Lemma string_app_assoc a b c : (a +:+ b) +:+ c = a +:+ b +:+ c.
Proof. induction a as [|d a IH]; [done|]. exact (f_equal (String d) IH). Qed.

(** A name that splits is [package.iface/instance]. *)
Lemma fill_parts name aname :
  fill name = Some aname ->
  name = package aname +:+ "." +:+ iface aname +:+ "/" +:+ instance aname /\
  find_char "." (iface aname) = None /\ find_char "/" (package aname +:+ "." +:+ iface aname) = None.
Proof.
  unfold fill. destruct (find_char "/" name) as [slash|] eqn:E1; [|done].
  destruct (find_char_Some _ _ _ E1) as (a & rest & -> & <- & Hs).
  destruct (rfind_char "." _ _) as [dot|] eqn:E2; [|done].
  destruct (rfind_char_Some "." "/" _ _ _ ltac:(discriminate) E2) as (p & q & -> & <- & Hd).
  intros [= <-]. cbn [package iface instance].
  assert (substr 0 (String.length p) ((p +:+ String "." q) +:+ String "/" rest) = p) as ->.
  { rewrite string_app_assoc. by apply (substring_mid EmptyString). }
  assert (substr (String.length p + 1) (String.length (p +:+ String "." q) - String.length p - 1)
    ((p +:+ String "." q) +:+ String "/" rest) = q) as ->.
  { replace ((p +:+ String "." q) +:+ String "/" rest) with ((p +:+ ".") +:+ q +:+ String "/" rest)
      by (by rewrite !string_app_assoc).
    replace (String.length p + 1)%nat with (String.length (p +:+ "."))
      by (by rewrite string_length_app).
    apply substring_mid. rewrite string_length_app. simpl. lia. }
  assert (substr_from (String.length (p +:+ String "." q) + 1)
    ((p +:+ String "." q) +:+ String "/" rest) = rest) as ->.
  { unfold substr_from. change (String "/" rest) with ("/" +:+ rest).
    rewrite <- string_app_assoc, (string_length_app _ rest).
    replace (String.length (p +:+ String "." q) + 1)%nat
      with (String.length ((p +:+ String "." q) +:+ "/")) by (rewrite string_length_app; simpl; lia).
    rewrite <- (string_app_nil rest) at 2. apply substring_mid. lia. }
  split_and!; [by rewrite string_app_assoc|done|done].
Qed.

(** * Iteration in order *)

Lemma elem_of_in_order {A} (m : gmap string A) name x :
  (name, x) ∈ in_order m <-> m !! name = Some x.
Proof. unfold in_order. by rewrite merge_sort_Permutation, elem_of_map_to_list. Qed.

Lemma elem_of_names {A} (m : gmap string A) name :
  name ∈ map fst (in_order m) <-> is_Some (m !! name).
Proof.
  rewrite list_elem_of_fmap. split.
  - intros ([n x] & -> & H%elem_of_in_order). eauto.
  - intros [x H]. exists (name, x). by rewrite elem_of_in_order.
Qed.

Lemma names_NoDup {A} (m : gmap string A) : NoDup (map fst (in_order m)).
Proof.
  assert (map fst (in_order m) ≡ₚ (map_to_list m).*1) as ->
    by apply fmap_Permutation, merge_sort_Permutation.
  apply NoDup_fst_map_to_list.
Qed.

(** A loop over distinct keys whose body only touches the entry of its key. *)
Lemma for_each_keys {S V} F (l : list string) (body : string -> M S unit)
    (tbl : S -> gmap string V) (upd : V -> option V) (same : S -> S -> Prop) s :
  NoDup l -> PreOrder same ->
  (forall name, name ∈ l -> is_Some (tbl s !! name)) ->
  (forall name s v, tbl s !! name = Some v ->
    wpg F (body name) s (fun _ s' => same s s' /\ tbl s' = partial_alter (fun _ => upd v) name (tbl s))) ->
  wpg F (for_each l body) s (fun _ s' => same s s' /\ forall name, tbl s' !! name =
    if decide (name ∈ l) then tbl s !! name ≫= upd else tbl s !! name).
Proof.
  intros Hnd Hpre Hin Hbody. revert s Hin. induction l as [|n l IH]; intros s Hin; cbn [for_each].
  - wp_step. split; [done|]. intros name. by rewrite decide_False by apply not_elem_of_nil.
  - apply NoDup_cons in Hnd as [Hn Hnd]. destruct (Hin n) as [v Hv]; [by left|].
    wp_step. wp_use Hbody; [exact Hv|]. intros _ s1 [H1 Ht].
    eapply wpg_mono; [apply IH; [done|]|].
    + intros name Hname. rewrite Ht, lookup_partial_alter_ne by set_solver. apply Hin. by right.
    + intros _ s2 [H2 Ht2]. split; [by etransitivity|]. intros name. rewrite Ht2, Ht.
      destruct (decide (name = n)) as [->|Hne].
      * rewrite decide_False by done. rewrite decide_True by left. by rewrite lookup_partial_alter_eq, Hv.
      * rewrite lookup_partial_alter_ne by done.
        destruct (decide (name ∈ l)); [rewrite decide_True by (by right); done|].
        rewrite decide_False; [done|]. by intros [->|?]%elem_of_cons.
Qed.

(** * The invariant *)

Definition service_ok (name : string) (service : Service) : Prop :=
  isValidServiceName name = true /\ is_Some (s_binder service).
Definition callbacks_ok (name : string) (callbacks : list Z) : Prop :=
  isValidServiceName name = true /\ callbacks <> [].

Record sm_inv (s : SM) : Prop := {
  inv_services : map_Forall service_ok (mNameToService s);
  inv_registration : map_Forall callbacks_ok (mNameToRegistrationCallback s);
  inv_client : map_Forall callbacks_ok (mNameToClientCallback s);
}.

Lemma alter_ok f name (m : gmap string Service) :
  (forall s, s_binder (f s) = s_binder s) ->
  map_Forall service_ok m -> map_Forall service_ok (alter f name m).
Proof.
  intros Hf Hm n x H. destruct (decide (n = name)) as [->|Hne].
  - rewrite lookup_alter_eq in H. destruct (m !! name) as [y|] eqn:E; [|done].
    simplify_eq/=. unfold service_ok. rewrite Hf. by apply (Hm name).
  - rewrite lookup_alter_ne in H by done. by apply Hm.
Qed.

Lemma delete_ok {A} (P : string -> A -> Prop) name (m : gmap string A) :
  map_Forall P m -> map_Forall P (delete name m).
Proof. apply map_Forall_delete. Qed.

Lemma append_ok name cb (m : gmap string (list Z)) :
  isValidServiceName name = true -> map_Forall callbacks_ok m ->
  map_Forall callbacks_ok (<[name := default [] (m !! name) ++ [cb]]> m).
Proof.
  intros Hv Hm. apply map_Forall_insert_2; [|done]. split; [done|]. by destruct (default _ _).
Qed.

Lemma emit_inv F e s : sm_inv s -> wpg F (emit e) s (fun _ => sm_inv).
Proof. intros []. unfold emit. wp_step. by constructor. Qed.

Lemma mod_service_inv F name f s :
  (forall s, s_binder (f s) = s_binder s) -> sm_inv s ->
  wpg F (mod_service name f) s (fun _ => sm_inv).
Proof. intros Hf []. unfold mod_service. wp_step. constructor; simpl; [by apply alter_ok|done|done]. Qed.

Lemma ret_inv F {A} (a : A) s : sm_inv s -> wpg F (ret a) s (fun _ => sm_inv).
Proof. done. Qed.

Lemma bind_inv F {A B} (m : M SM A) (k : A -> M SM B) s :
  wpg F m s (fun _ => sm_inv) -> (forall a s', sm_inv s' -> wpg F (k a) s' (fun _ => sm_inv)) ->
  wpg F (bind m k) s (fun _ => sm_inv).
Proof. intros Hm Hk. wp_step. eapply wpg_mono; [exact Hm|]. auto. Qed.

Create HintDb sm.
#[export] Hint Resolve emit_inv ret_inv delete_ok : sm.
#[export] Hint Extern 4 (wpg _ (mod_service _ _) _ _) => apply mod_service_inv; [done|] : sm.

(** The next test of a program. *)
Ltac sm_if :=
  lazymatch goal with
  | |- wpg _ (if ?b then _ else _) _ _ => let E := fresh "E" in destruct b eqn:E
  end.

Section Inv.
Context {acc : Access} {plat : Platform}.
Context {mf : Type} {hal : HalManifest mf} (manifests : list (option mf)).
Context (k : Kernel) (who : Caller) (F : Prop).

Lemma tryGetService_inv name start s :
  sm_inv s -> wpg F (tryGetService who name start) s (fun _ => sm_inv).
Proof.
  intros Hi. unfold tryGetService, tryStartService. wp_step. wp_step. cbv zeta.
  sm_if; [by apply ret_inv|]. sm_if; [by apply ret_inv|].
  apply bind_inv; [sm_if; auto with sm|]. intros _ s1 H1.
  apply bind_inv; [sm_if; auto with sm|]. auto with sm.
Qed.

Lemma addService_inv name b iso prio s :
  sm_inv s -> wpg F (addService manifests k who name b iso prio) s (fun _ => sm_inv).
Proof.
  intros Hi. unfold addService.
  sm_if; [by apply ret_inv|]. sm_if; [by apply ret_inv|]. destruct b as [b|]; [|auto with sm].
  destruct (isValidServiceName name) eqn:Hv; [|by apply ret_inv]. cbn [negb].
  sm_if; [by apply ret_inv|]. sm_if; [by apply ret_inv|].
  apply bind_inv.
  { wp_step. destruct Hi. constructor; simpl; [|done|done].
    apply map_Forall_insert_2; [|done]. by split; [|eexists]. }
  intros _ s1 H1. wp_step. wp_step. apply bind_inv; [|auto with sm].
  case_match; [|auto with sm]. apply for_each_ok; [done|]. intros cb s2 _ H2.
  apply bind_inv; auto with sm.
Qed.

Lemma registerForNotifications_inv name cb s :
  sm_inv s -> wpg F (registerForNotifications k who name cb) s (fun _ => sm_inv).
Proof.
  intros Hi. unfold registerForNotifications. sm_if; [by apply ret_inv|].
  destruct (isValidServiceName name) eqn:Hv; [|by apply ret_inv]. cbn [negb].
  destruct cb as [cb|]; [|auto with sm]. sm_if; [by apply ret_inv|].
  apply bind_inv. { wp_step. destruct Hi. constructor; simpl; [done|by apply append_ok|done]. }
  intros _ s1 H1. wp_step. wp_step. apply bind_inv; [|auto with sm].
  destruct (mNameToService s1 !! name) as [service|] eqn:Es; [|auto with sm].
  destruct (inv_services _ H1 _ _ Es) as [_ [b Hb]]. rewrite Hb.
  rewrite bool_decide_eq_true_2 by done. cbn [negb]. wp_steps. auto with sm.
Qed.

Lemma filter_ok (dead : option Z) name (l : list Z) (m : gmap string (list Z)) :
  map_Forall callbacks_ok m -> m !! name = Some l ->
  map_Forall callbacks_ok (let l' := List.filter (fun x => negb (bool_decide (Some x = dead))) l in
    if bool_decide (l' = []) then delete name m else <[name := l']> m).
Proof.
  intros Hm Hl. cbv zeta. case_bool_decide; [auto with sm|].
  apply map_Forall_insert_2; [|done]. split; [apply (Hm _ _ Hl)|done].
Qed.

Lemma removeRegistrationCallback_inv dead name s :
  sm_inv s -> is_Some (mNameToRegistrationCallback s !! name) ->
  wpg F (removeRegistrationCallback dead name) s (fun _ => sm_inv).
Proof.
  intros [] [l Hl]. unfold removeRegistrationCallback. wp_step. wp_step. rewrite Hl. wp_step. wp_step.
  apply bind_inv; [|auto with sm]. pose proof (filter_ok dead _ _ _ inv_registration0 Hl) as Hf.
  cbv zeta in Hf. case_bool_decide; wp_step; by constructor.
Qed.

Lemma unregisterForNotifications_inv name cb s :
  sm_inv s -> wpg F (unregisterForNotifications who name cb) s (fun _ => sm_inv).
Proof.
  intros Hi. unfold unregisterForNotifications. sm_if; [by apply ret_inv|]. wp_step. wp_step.
  apply bind_inv; [|intros; sm_if; auto with sm].
  case_match; [|auto with sm]. by apply removeRegistrationCallback_inv.
Qed.

Lemma registerClientCallback_inv name srv cb s :
  sm_inv s -> wpg F (registerClientCallback k who name srv cb) s (fun _ => sm_inv).
Proof.
  intros Hi. unfold registerClientCallback. destruct cb as [cb|]; [|auto with sm].
  sm_if; [by apply ret_inv|]. wp_step. wp_step.
  destruct (mNameToService s !! name) as [service|] eqn:Es; [|auto with sm].
  sm_if; [by apply ret_inv|]. sm_if; [by apply ret_inv|]. sm_if; [by apply ret_inv|].
  wp_step. wp_step. wp_step. pose proof (proj1 (inv_services _ Hi _ _ Es)). destruct Hi.
  constructor; simpl; [done|done|by apply append_ok].
Qed.

(** ** Client notifications *)

Lemma emit_all {A} (f : A -> Event) l s :
  wpg F (for_each l (fun x => emit (f x))) s (fun _ s' => s' = put_log (sm_log s ++ map f l) s).
Proof.
  revert s. induction l as [|x l IH]; intros s; cbn [for_each map].
  - wp_step. rewrite app_nil_r. by destruct s.
  - wp_step. unfold emit at 1. wp_step. wp_use IH. intros _ s' ->. unfold put_log. simpl.
    by rewrite <- app_assoc.
Qed.

(** The state after the notifications [said] about [name] and a new entry. *)
Definition told (name : string) (service : Service) (cbs : list Z) (said : list bool) (s : SM) : SM :=
  mkSM (<[name := service]> (mNameToService s)) (mNameToRegistrationCallback s) (mNameToClientCallback s)
    (sm_log s ++ flat_map (fun h => map (fun cb => OnClients cb (s_binder service) h) cbs) said).

Lemma told_nothing name service cbs s :
  mNameToService s !! name = Some service -> told name service cbs [] s = s.
Proof. intros H. unfold told. simpl. rewrite insert_id, app_nil_r by done. by destruct s. Qed.

Lemma told_mod name f service cbs said s :
  s_binder (f service) = s_binder service ->
  wpg F (mod_service name f) (told name service cbs said s)
    (fun _ s' => s' = told name (f service) cbs said s).
Proof.
  intros Hb. unfold mod_service. wp_step. unfold told, put_services. simpl. rewrite Hb.
  by rewrite (alter_is_insert _ _ _ service), insert_insert_eq by apply lookup_insert_eq.
Qed.

Lemma told_flag name flag service cbs said s :
  wpg F (service_flag name flag) (told name service cbs said s)
    (fun r s' => r = flag service /\ s' = told name service cbs said s).
Proof. unfold service_flag. wp_steps. simpl. rewrite lookup_insert_eq. by wp_steps. Qed.

Lemma told_send name has service cbs said s :
  hasClients service = negb has -> mNameToClientCallback s !! name = Some cbs ->
  wpg F (sendClientCallbackNotifications name has) (told name service cbs said s)
    (fun _ s' => s' = told name (set_hasClients has service) cbs (said ++ [has]) s).
Proof.
  intros Hh Hc. unfold sendClientCallbackNotifications. wp_step. wp_step. simpl.
  rewrite lookup_insert_eq, Hc, Hh.
  replace (Bool.eqb has (negb has)) with false by (by destruct has). wp_steps.
  wp_use emit_all. intros _ s1 ->.
  replace (put_log _ _) with (told name service cbs (said ++ [has]) s).
  - wp_use told_mod; done.
  - unfold told, put_log. rewrite flat_map_app. simpl. by rewrite app_nil_r, app_assoc.
Qed.

(** What the callbacks are told when a service had clients ([had]), was promised
    one ([guaranteed]) and now has some or none ([has]); and what it is recorded
    to have had after the promise is settled. *)
Definition settled (guaranteed had has : bool) : bool := had || (guaranteed && negb has).
Definition announcements (interval guaranteed had has : bool) : list bool :=
  (if guaranteed && negb had && negb has then [true] else []) ++
  (if interval && negb (Bool.eqb has (settled guaranteed had has)) then [has] else []).
Definition recorded (interval guaranteed had has : bool) : bool :=
  if interval then has else settled guaranteed had has.

Lemma promise_settled name service cbs has s :
  mNameToClientCallback s !! name = Some cbs ->
  let g := guaranteeClient service in let had := hasClients service in
  wpg F (if g then (if negb had && negb has then sendClientCallbackNotifications name true else ret tt) ;;
                   mod_service name (set_guaranteeClient false) else ret tt) (told name service cbs [] s)
    (fun _ s' => s' = told name (set_hasClients (settled g had has) (set_guaranteeClient false service)) cbs
      (if g && negb had && negb has then [true] else []) s).
Proof.
  intros Hc g had. unfold settled. destruct g eqn:Eg; cbn [andb].
  - wp_step. destruct had eqn:Eh; cbn [negb andb orb].
    + wp_step. wp_use told_mod; [done|]. intros _ s1 ->. unfold g, had in *. by destruct service; simplify_eq/=.
    + destruct has; cbn [negb andb].
      * wp_step. wp_use told_mod; [done|]. intros _ s1 ->. unfold g, had in *. by destruct service; simplify_eq/=.
      * wp_use told_send; [done|done|]. intros _ s1 ->. wp_use told_mod; [done|]. by intros _ s1 ->.
  - wp_step. unfold g, had in *. rewrite orb_false_r. by destruct service; simplify_eq/=.
Qed.

Lemma interval_told name has service cbs said s :
  mNameToClientCallback s !! name = Some cbs ->
  wpg F (let* had := service_flag name hasClients in
         (if has && negb had then sendClientCallbackNotifications name true else ret tt) ;;
         let* had := service_flag name hasClients in
         (if negb has && had then sendClientCallbackNotifications name false else ret tt))
    (told name service cbs said s)
    (fun _ s' => s' = told name (set_hasClients has service) cbs
      (said ++ if negb (Bool.eqb has (hasClients service)) then [has] else []) s).
Proof.
  intros Hc. wp_step. wp_use told_flag. intros had s1 [-> ->]. wp_step.
  destruct has, (hasClients service) eqn:E; cbn [negb andb Bool.eqb].
  - wp_step. wp_step. wp_use told_flag. intros had s2 [-> ->]. wp_step. rewrite app_nil_r.
    by destruct service; simplify_eq/=.
  - wp_use told_send; [done|done|]. intros _ s1 ->. wp_step. wp_use told_flag.
    intros had s2 [-> ->]. by wp_step.
  - wp_step. wp_step. wp_use told_flag. intros had s2 [-> ->]. rewrite E. cbn [andb].
    by apply told_send.
  - wp_step. wp_step. wp_use told_flag. intros had s2 [-> ->]. rewrite E. cbn [andb]. wp_step. rewrite app_nil_r.
    by destruct service; simplify_eq/=.
Qed.

Lemma handle_spec name interval service b cbs s :
  mNameToService s !! name = Some service -> s_binder service = Some b ->
  mNameToClientCallback s !! name = Some cbs -> remoteBinder k b = true ->
  let count := getStrongRefCountForNode k b in
  let g := guaranteeClient service in let had := hasClients service in let has := 1 <? count in
  count <> -1 ->
  wpg F (handleServiceClientCallback k name interval) s (fun r s' => r = count /\
    s' = told name (set_hasClients (recorded interval g had has) (set_guaranteeClient false service))
           cbs (announcements interval g had has) s).
Proof.
  intros Hs Hb Hc Hr count g had has Hcount. unfold handleServiceClientCallback.
  wp_step. wp_step. rewrite Hs, Hc. wp_step. unfold getNodeStrongRefCount. rewrite Hb. wp_step. wp_step.
  rewrite Hr. cbn [negb]. wp_step. zdec (getStrongRefCountForNode k b =? -1). fold count has g had. wp_step.
  rewrite <- (told_nothing name service cbs s Hs) at 1.
  eapply wpg_mono with (P := fun _ s' => s' = told name
    (set_hasClients (settled g had has) (set_guaranteeClient false service)) cbs
    (if g && negb had && negb has then [true] else []) s); [by apply promise_settled|].
  intros _ s1 ->. wp_step. unfold announcements, recorded.
  set (x := set_hasClients (settled g had has) _). set (said := if g && _ && _ then [true] else _).
  destruct interval; cbn [andb]; [|wp_steps; rewrite app_nil_r; done].
  wp_use (interval_told name has x cbs said s Hc). intros _ s2 ->. wp_step. done.
Qed.

Lemma told_inv name service cbs said s :
  sm_inv s -> service_ok name service -> sm_inv (told name service cbs said s).
Proof. intros [] Hok. constructor; simpl; [by apply map_Forall_insert_2|done|done]. Qed.

Lemma handleServiceClientCallback_inv name interval s :
  sm_inv s -> wpg F (handleServiceClientCallback k name interval) s (fun _ => sm_inv).
Proof.
  intros Hi. destruct (mNameToService s !! name) as [service|] eqn:Es.
  2: { unfold handleServiceClientCallback. wp_step. wp_step. rewrite Es. auto with sm. }
  destruct (mNameToClientCallback s !! name) as [cbs|] eqn:Ec.
  2: { unfold handleServiceClientCallback. wp_step. wp_step. rewrite Es, Ec. auto with sm. }
  destruct (inv_services _ Hi _ _ Es) as [Hv [b Hb]].
  destruct (remoteBinder k b && negb (getStrongRefCountForNode k b =? -1)) eqn:E.
  - apply andb_prop in E as [Hr Hn%negb_true_iff]. zb. wp_use handle_spec; [done..|].
    intros r s' [_ ->]. apply told_inv; [done|]. by split; [|exists b].
  - unfold handleServiceClientCallback. wp_step. wp_step. rewrite Es, Ec. wp_step.
    unfold getNodeStrongRefCount. rewrite Hb. wp_step. wp_step.
    destruct (remoteBinder k b); cbn [negb andb] in *; wp_step; [|rewrite Z.eqb_refl; by wp_step].
    apply negb_false_iff in E. rewrite E. by wp_step.
Qed.

Lemma handleClientCallbacks_inv s :
  sm_inv s -> wpg F (handleClientCallbacks k) s (fun _ => sm_inv).
Proof.
  intros Hi. unfold handleClientCallbacks. wp_step. wp_step. apply for_each_ok; [done|].
  intros name s1 _ H1. apply bind_inv; [by apply handleServiceClientCallback_inv|auto with sm].
Qed.

Lemma tryUnregisterService_inv name b s :
  sm_inv s -> wpg F (tryUnregisterService k who name b) s (fun _ => sm_inv).
Proof.
  intros Hi. unfold tryUnregisterService. destruct b as [b|]; [|auto with sm].
  sm_if; [by apply ret_inv|]. wp_step. wp_step. destruct (mNameToService s !! name); [|auto with sm].
  do 3 (sm_if; [by apply ret_inv|]).
  apply bind_inv; [by apply handleServiceClientCallback_inv|]. intros count s1 H1. cbv zeta.
  sm_if; [apply bind_inv; auto with sm|]. wp_step. wp_step. wp_step.
  destruct H1. constructor; simpl; auto with sm.
Qed.

(** ** The death of a binder *)

Definition without (dead : Z) (l : list Z) : list Z :=
  List.filter (fun x => negb (bool_decide (Some x = Some dead))) l.
Definition survivors (dead : Z) (l : list Z) : option (list Z) :=
  if bool_decide (without dead l = []) then None else Some (without dead l).

Lemma removeRegistrationCallback_spec dead name l s :
  mNameToRegistrationCallback s !! name = Some l ->
  wpg F (removeRegistrationCallback (Some dead) name) s (fun found s' =>
    (found = true <-> dead ∈ l) /\
    s' = put_registration (partial_alter (fun _ => survivors dead l) name (mNameToRegistrationCallback s)) s).
Proof.
  intros Hl. unfold removeRegistrationCallback, survivors, without. wp_step. wp_step. rewrite Hl. wp_step. wp_step.
  assert (existsb (fun x => bool_decide (Some x = Some dead)) l = true <-> dead ∈ l) as Hf.
  { rewrite existsb_exists. setoid_rewrite bool_decide_eq_true. split.
    - intros (x & Hx & [= <-]). by apply list_elem_of_In.
    - intros H. exists dead. split; [by apply list_elem_of_In|done]. }
  cbv zeta. case_bool_decide; repeat wp_step; done.
Qed.

Lemma removeClientCallback_spec dead name l s :
  mNameToClientCallback s !! name = Some l ->
  wpg F (removeClientCallback (Some dead) name) s (fun _ s' =>
    s' = put_client (partial_alter (fun _ => survivors dead l) name (mNameToClientCallback s)) s).
Proof.
  intros Hl. unfold removeClientCallback, survivors, without. wp_step. wp_step. rewrite Hl. wp_step. wp_step.
  cbv zeta. case_bool_decide; repeat wp_step; done.
Qed.

(** The tables other than the one named are as they were. *)
Definition only_services (s s' : SM) : Prop := exists m, s' = put_services m s.
Definition only_registration (s s' : SM) : Prop := exists m, s' = put_registration m s.
Definition only_client (s s' : SM) : Prop := exists m, s' = put_client m s.

Instance only_services_pre : PreOrder only_services.
Proof.
  split; [intros s; exists (mNameToService s); by destruct s|].
  intros s1 s2 s3 [m1 ->] [m2 ->]. by exists m2.
Qed.
Instance only_registration_pre : PreOrder only_registration.
Proof.
  split; [intros s; exists (mNameToRegistrationCallback s); by destruct s|].
  intros s1 s2 s3 [m1 ->] [m2 ->]. by exists m2.
Qed.
Instance only_client_pre : PreOrder only_client.
Proof.
  split; [intros s; exists (mNameToClientCallback s); by destruct s|].
  intros s1 s2 s3 [m1 ->] [m2 ->]. by exists m2.
Qed.

Lemma bury_services dead l s :
  wpg F (for_each l (fun '(name, service) =>
    if bool_decide (Some dead = s_binder service)
    then modify (fun s => put_services (delete name (mNameToService s)) s) else ret tt)) s
  (fun _ s' => only_services s s' /\
    (forall name, mNameToService s' !! name = mNameToService s !! name \/ mNameToService s' !! name = None) /\
    (forall name service, (name, service) ∈ l -> s_binder service = Some dead -> mNameToService s' !! name = None) /\
    (forall name, (forall service, (name, service) ∈ l -> s_binder service <> Some dead) ->
       mNameToService s' !! name = mNameToService s !! name)).
Proof.
  revert s. induction l as [|[n x] l IH]; intros s; cbn [for_each].
  { wp_step. split_and!; [done|by left| |done]. by intros ? ? ?%elem_of_nil. }
  wp_step. case_bool_decide as E; wp_step; (wp_use IH; intros _ s' (Ho & Hsub & Hdel & Hkeep); simpl in *; split_and!).
  - etransitivity; [by eexists|exact Ho].
  - intros name. destruct (Hsub name) as [->|]; [|by right].
    destruct (decide (name = n)) as [->|]; [right; apply lookup_delete_eq|left; by apply lookup_delete_ne].
  - intros name service [[= -> ->]|Hin]%elem_of_cons Hb; [|by eapply Hdel].
    destruct (Hsub n) as [->|]; [apply lookup_delete_eq|done].
  - intros name Hne. rewrite Hkeep by (intros; apply Hne; by right). apply lookup_delete_ne.
    intros <-. eapply Hne; [by left|done].
  - done.
  - done.
  - intros name service [[= -> ->]|Hin]%elem_of_cons Hb; [done|by eapply Hdel].
  - intros name Hne. apply Hkeep. intros. apply Hne. by right.
Qed.

Lemma binderDied_spec dead s :
  wpg F (binderDied dead) s (fun _ s' =>
    (forall name service, mNameToService s' !! name = Some service <->
       mNameToService s !! name = Some service /\ s_binder service <> Some dead) /\
    (forall name, mNameToRegistrationCallback s' !! name =
       mNameToRegistrationCallback s !! name ≫= survivors dead) /\
    (forall name, mNameToClientCallback s' !! name = mNameToClientCallback s !! name ≫= survivors dead) /\
    sm_log s' = sm_log s).
Proof.
  unfold binderDied. wp_steps. wp_use bury_services. intros _ s1 ([m1 ->] & Hsub & Hdel & Hkeep). wp_steps.
  simpl in *. eapply wpg_mono; [apply (for_each_keys F _ _ mNameToRegistrationCallback (survivors dead) only_registration)|].
  { apply names_NoDup. } { apply _. } { intros name. by rewrite elem_of_names. }
  { intros name s2 l Hl. wp_step. wp_use removeRegistrationCallback_spec; [exact Hl|].
    intros _ s3 [_ ->]. wp_step. split; [by eexists|done]. }
  intros _ s2 [[m2 ->] Hreg]. wp_steps. simpl in *.
  eapply wpg_mono; [apply (for_each_keys F _ _ mNameToClientCallback (survivors dead) only_client)|].
  { apply names_NoDup. } { apply _. } { intros name. by rewrite elem_of_names. }
  { intros name s2 l Hl. wp_use removeClientCallback_spec; [exact Hl|].
    intros _ s3 ->. split; [by eexists|done]. }
  intros _ s3 [[m3 ->] Hcl]. simpl in *. split_and!; [| | |done].
  - intros name service. split.
    + intros H. destruct (Hsub name) as [E|E]; [|congruence]. rewrite E in H. split; [done|].
      intros Hb. rewrite (Hdel name service) in *; [congruence|by apply elem_of_in_order|done].
    + intros [H Hb]. rewrite Hkeep; [done|]. intros service' Hin%elem_of_in_order. congruence.
  - intros name. rewrite Hreg. case_decide as E; [done|]. rewrite elem_of_names, <- eq_None_not_Some in E.
    by rewrite E.
  - intros name. rewrite Hcl. case_decide as E; [done|]. rewrite elem_of_names, <- eq_None_not_Some in E.
    by rewrite E.
Qed.

Lemma survivors_ok dead (m m' : gmap string (list Z)) :
  map_Forall callbacks_ok m -> (forall name, m' !! name = m !! name ≫= survivors dead) ->
  map_Forall callbacks_ok m'.
Proof.
  intros Hm H name l Hl. rewrite H in Hl. destruct (m !! name) as [l0|] eqn:E; [|done].
  simpl in Hl. unfold survivors in Hl. case_bool_decide; simplify_eq. split; [|done].
  apply (Hm _ _ E).
Qed.

Lemma binderDied_inv dead s : sm_inv s -> wpg F (binderDied dead) s (fun _ => sm_inv).
Proof.
  intros []. wp_use binderDied_spec. intros _ s' (Hs & Hr & Hc & _). constructor.
  - intros name service [H _]%Hs. by apply inv_services0.
  - exact (survivors_ok _ _ _ inv_registration0 Hr).
  - exact (survivors_ok _ _ _ inv_client0 Hc).
Qed.

Lemma survivors_default dead (o : option (list Z)) :
  default [] (o ≫= survivors dead) = filter (fun cb => cb <> dead) (default [] o).
Proof.
  destruct o as [l|]; [|done]. simpl.
  assert (without dead l = filter (fun cb => cb <> dead) l) as E.
  { induction l as [|x l IH]; [done|]. unfold without in *. simpl. rewrite filter_cons.
    destruct (decide (x = dead)) as [->|Hne].
    - rewrite bool_decide_eq_true_2 by done. by rewrite decide_False by auto.
    - rewrite bool_decide_eq_false_2 by congruence. rewrite decide_True by done. simpl. by rewrite IH. }
  unfold survivors. rewrite E. case_bool_decide as H; [by rewrite H|done].
Qed.

Lemma destructor_ok s : sm_inv s -> wpg F destructor s (fun _ s' => s' = s).
Proof.
  intros Hi. unfold destructor. wp_step. wp_step. wp_step. wp_use (for_each_ok F _ _ (fun s' => s' = s)); [done| |].
  { intros [name l] s1 Hin%elem_of_in_order ->. destruct (inv_registration _ Hi _ _ Hin).
    rewrite bool_decide_eq_false_2 by done. by wp_step. }
  intros _ s1 ->. wp_steps. apply for_each_ok; [done|].
  intros [name x] s1 Hin%elem_of_in_order ->. destruct (inv_services _ Hi _ _ Hin).
  rewrite bool_decide_eq_true_2 by done. cbn [negb]. by wp_step.
Qed.

Lemma discard_inv {A} (m : M SM A) s :
  wpg F m s (fun _ => sm_inv) -> wpg F (discard m) s (fun _ => sm_inv).
Proof. intros Hm. apply bind_inv; auto with sm. Qed.
End Inv.

(** * The theorems *)

Section Theorems.
Context {acc : Access} {plat : Platform}.
Context {mf : Type} {hal : HalManifest mf} (manifests : list (option mf)).

Lemma handle_inv F k who r s :
  sm_inv s -> wpg F (handle manifests k who r) s (fun _ => sm_inv).
Proof.
  intros Hi. destruct r; cbn [handle]; try apply discard_inv; clear -Hi.
  - unfold getService. apply bind_inv; [by apply tryGetService_inv|auto with sm].
  - unfold checkService. apply bind_inv; [by apply tryGetService_inv|auto with sm].
  - by apply addService_inv.
  - unfold listServices. sm_if; [by apply ret_inv|]. by wp_steps.
  - by apply registerForNotifications_inv.
  - by apply unregisterForNotifications_inv.
  - unfold isDeclared. sm_if; by apply ret_inv.
  - unfold getDeclaredInstances. cbv zeta. sm_if; by apply ret_inv.
  - unfold updatableViaApex. sm_if; by apply ret_inv.
  - unfold getConnectionInfo. sm_if; by apply ret_inv.
  - by apply registerClientCallback_inv.
  - by apply tryUnregisterService_inv.
  - unfold getServiceDebugInfo. sm_if; [by apply ret_inv|]. by wp_steps.
  - by apply binderDied_inv.
  - by apply handleClientCallbacks_inv.
Qed.

Lemma reachable_inv s : sm_reachable manifests s -> sm_inv s.
Proof.
  induction 1 as [|k who r s s' _ Hi Hs]; [constructor; apply map_Forall_empty|].
  pose proof (handle_inv True k who r s Hi) as H. unfold wpg in H. by rewrite Hs in H.
Qed.


(** ** Registration and lookup *)

(** What [addService] checks before it stores a binder. *)
Definition may_add (k : Kernel) (who : Caller) (name : string) (b : Z) : Prop :=
  multiuser_get_app_id (uid (ctx who)) < AID_APP /\ canAdd (ctx who) name = true /\
  isValidServiceName name = true /\ meetsDeclarationRequirements manifests k b name = true /\
  (remoteBinder k b = true -> linkToDeath k b = OK).

(** The promise made to the listeners of a name. *)
Lemma announce_all F name b l s service :
  mNameToService s !! name = Some service ->
  wpg F (for_each l (fun cb => mod_service name (set_guaranteeClient true) ;; emit (OnRegistration cb name b))) s
    (fun _ s' => s' = put_log (sm_log s ++ map (fun cb => OnRegistration cb name b) l)
      (put_services (<[name := if bool_decide (l = []) then service else set_guaranteeClient true service]>
        (mNameToService s)) s)).
Proof.
  revert s service. induction l as [|cb l IH]; intros s service Hs; cbn [for_each map].
  - wp_step. rewrite bool_decide_eq_true_2 by done. rewrite insert_id, app_nil_r by done. by destruct s.
  - wp_step. wp_step. unfold mod_service at 1, emit at 1. wp_step. wp_step.
    rewrite (alter_is_insert _ _ _ service) by done.
    wp_use (IH _ (set_guaranteeClient true service)); [simpl; apply lookup_insert_eq|].
    intros _ s' ->. unfold put_log, put_services. simpl. rewrite insert_insert_eq, <- app_assoc. simpl.
    by destruct (bool_decide (l = [])).
Qed.

Lemma addService_spec F k who name b iso prio s :
  wpg F (addService manifests k who name (Some b) iso prio) s (fun st s' =>
    (isOk st = false /\ ~ may_add k who name b /\ s' = s) \/
    (isOk st = true /\ may_add k who name b /\
     let l := default [] (mNameToRegistrationCallback s !! name) in
     s' = put_log (sm_log s ++ map (fun cb => OnRegistration cb name b) l)
       (put_services (<[name := mkService (Some b) iso prio false (negb (bool_decide (l = [])))
          (debugPid (ctx who))]> (mNameToService s)) s))).
Proof.
  unfold addService, may_add.
  zcase (AID_APP <=? multiuser_get_app_id (uid (ctx who))). { wp_step. left. split_and!; [done| |done]. lia. }
  destruct (canAdd (ctx who) name); cbn [negb]; [|wp_step; left; intuition congruence].
  destruct (isValidServiceName name); cbn [negb]; [|wp_step; left; intuition congruence].
  destruct (meetsDeclarationRequirements manifests k b name); cbn [negb]; [|wp_step; left; intuition congruence].
  destruct (remoteBinder k b && negb (linkToDeath k b =? OK)) eqn:El.
  { apply andb_prop in El as [Hr Hl%negb_true_iff]. zb. wp_step. left. intuition congruence. }
  assert (remoteBinder k b = true -> linkToDeath k b = OK) as Hlink.
  { intros Hr. rewrite Hr in El. apply negb_false_iff in El. by zb. }
  wp_steps. simpl. destruct (mNameToRegistrationCallback s !! name) as [l|]; simpl.
  - wp_use announce_all; [simpl; apply lookup_insert_eq|]. intros _ s' ->. wp_step. right.
    split_and!; try done. unfold put_log, put_services. simpl. rewrite insert_insert_eq.
    by case_bool_decide.
  - wp_steps. right. split_and!; try done. unfold put_log, put_services. simpl. by rewrite app_nil_r.
Qed.

Lemma tryGetService_found F who name start service b s :
  mNameToService s !! name = Some service -> s_binder service = Some b ->
  wpg F (tryGetService who name start) s (fun r s' =>
    if canFind (ctx who) name && (allowIsolated service || negb (isIsolated who))
    then r = Some b /\
      s' = put_services (<[name := set_guaranteeClient true service]> (mNameToService s)) s
    else r = None /\ s' = s).
Proof.
  intros Hs Hb. unfold tryGetService. wp_step. wp_step. rewrite Hs.
  cbn [mbind option_bind]. rewrite Hb. rewrite bool_decide_eq_true_2 by done. cbv zeta.
  destruct (allowIsolated service), (isIsolated who), (canFind (ctx who) name); cbn [negb andb orb];
    wp_steps; try done; unfold mod_service; wp_steps; by rewrite (alter_is_insert _ _ _ service).
Qed.

(** registration and lookup.  [addService] of a non-null binder succeeds
    exactly when the caller's uid, SELinux, the name, the VINTF declaration and
    the death link allow it, and otherwise changes nothing.  On success every
    listener of the name is told once, in order, nothing else in the tables
    changes, and from then on a lookup by any caller that may find the name, and
    is not isolated from it, returns that binder and promises a client; any other
    caller gets null and leaves no trace. *)
Theorem add_then_get (k : Kernel) (who : Caller) (name : string) (b : Z) (iso : bool) (prio : Z) (s : SM) :
  wp (addService manifests k who name (Some b) iso prio) s (fun st s' =>
    (isOk st = true <-> may_add k who name b) /\
    (isOk st = false -> s' = s) /\
    (isOk st = true ->
      (forall other, other <> name -> mNameToService s' !! other = mNameToService s !! other) /\
      mNameToRegistrationCallback s' = mNameToRegistrationCallback s /\
      mNameToClientCallback s' = mNameToClientCallback s /\
      sm_log s' = sm_log s ++ map (fun cb => OnRegistration cb name b)
        (default [] (mNameToRegistrationCallback s !! name)) /\
      forall reader start, wp (tryGetService reader name start) s' (fun r s'' =>
        sm_log s'' = sm_log s' /\
        if canFind (ctx reader) name && (iso || negb (isIsolated reader))
        then r = Some b /\ guaranteeClient <$> (mNameToService s'' !! name) = Some true
        else r = None /\ s'' = s'))).
Proof.
  wp_use addService_spec. intros st s' [(Ho & Hno & ->)|(Ho & Hyes & ->)]; rewrite Ho.
  { split_and!; [by split|done|done]. }
  split_and!; [by split|done|]. intros _. simpl. split_and!; try done.
  - intros other Hne. by apply lookup_insert_ne.
  - intros reader start. wp_use tryGetService_found; [simpl; apply lookup_insert_eq|done|].
    intros r s''. simpl. destruct (canFind _ _ && _); [|by intros [-> ->]].
    intros [-> ->]. simpl. split_and!; [done|done|]. by rewrite lookup_insert_eq.
Qed.

(** what dies with a binder.  An obituary removes exactly the services
    whose binder died and exactly that binder's callbacks, from every name; the
    other services, the other callbacks and their order are kept, the callbacks
    are not told anything, and the tables stay well-formed (a list that becomes
    empty is dropped). *)
Theorem death_is_forgotten (dead : Z) (s : SM) :
  sm_inv s ->
  wp (binderDied dead) s (fun _ s' => sm_inv s' /\ sm_log s' = sm_log s /\
    (forall name service, mNameToService s' !! name = Some service <->
       mNameToService s !! name = Some service /\ s_binder service <> Some dead) /\
    (forall name, default [] (mNameToRegistrationCallback s' !! name) =
       filter (fun cb => cb <> dead) (default [] (mNameToRegistrationCallback s !! name))) /\
    (forall name, default [] (mNameToClientCallback s' !! name) =
       filter (fun cb => cb <> dead) (default [] (mNameToClientCallback s !! name)))).
Proof.
  intros Hi. wp_use wpg_and; [by apply binderDied_inv|apply binderDied_spec|].
  intros _ s' (Hi' & Hs & Hr & Hc & Hl). split_and!; [done|done|done| |]; intros name.
  - by rewrite Hr, survivors_default.
  - by rewrite Hc, survivors_default.
Qed.

(** A withdrawn service was the caller's own, idle, and had client callbacks. *)
Lemma unregister_ok F k who name b s :
  sm_inv s ->
  wpg F (tryUnregisterService k who name b) s (fun st s' =>
    isOk st = true -> mNameToService s' !! name = None /\
    exists service binder, mNameToService s !! name = Some service /\ b = Some binder /\
      s_binder service = Some binder /\ s_debugPid service = c_pid who /\
      canAdd (ctx who) name = true /\ guaranteeClient service = false /\
      is_Some (mNameToClientCallback s !! name)).
Proof.
  intros Hi. unfold tryUnregisterService. destruct b as [b|]; [|by wp_step].
  destruct (canAdd (ctx who) name); cbn [negb]; [|by wp_step]. wp_step. wp_step.
  destruct (mNameToService s !! name) as [service|] eqn:Es; [|by wp_step].
  zcase (s_debugPid service =? getCallingPid who); cbn [negb]; [|by wp_step].
  case_bool_decide as Hb; cbn [negb]; [|by wp_step].
  destruct (guaranteeClient service) eqn:Eg; [by wp_step|]. wp_step.
  destruct (mNameToClientCallback s !! name) as [cbs|] eqn:Ec.
  - wp_use handleServiceClientCallback_inv; [done|]. intros count s1 _. cbv zeta.
    destruct (_ || _); [wp_step; unfold mod_service; by wp_steps|]. wp_steps. intros _. simpl. split; [apply lookup_delete_eq|].
    exists service, b. by split_and!.
  - unfold handleServiceClientCallback. wp_step. wp_step. rewrite Es, Ec. wp_step.
    change (s32 (-1)) with (-1). simpl. unfold mod_service. by wp_steps.
Qed.

(** client notifications.  When the timer fires for a service that has
    client callbacks and a reference count from the driver, the callbacks are
    told each change between having and not having clients once, in order and
    alternating; a client that was promised and left unseen is announced as a
    pair true, false; afterwards the recorded state is whether the count exceeds
    the manager's own reference, and the promise is cleared. *)
Theorem client_notifications (k : Kernel) (name : string) (service : Service) (b : Z) (cbs : list Z) (s : SM) :
  mNameToService s !! name = Some service -> s_binder service = Some b ->
  mNameToClientCallback s !! name = Some cbs -> remoteBinder k b = true ->
  getStrongRefCountForNode k b <> -1 ->
  let has := 1 <? getStrongRefCountForNode k b in
  let unseen := guaranteeClient service && negb (hasClients service) && negb has in
  wp (handleServiceClientCallback k name true) s (fun r s' =>
    r = getStrongRefCountForNode k b /\
    mNameToService s' !! name = Some (set_hasClients has (set_guaranteeClient false service)) /\
    (forall other, other <> name -> mNameToService s' !! other = mNameToService s !! other) /\
    sm_log s' = sm_log s ++
      (if unseen then map (fun cb => OnClients cb (Some b) true) cbs ++
                      map (fun cb => OnClients cb (Some b) false) cbs
       else if Bool.eqb (hasClients service) has then []
       else map (fun cb => OnClients cb (Some b) has) cbs)).
Proof.
  intros Hs Hb Hc Hr Hn has unseen. wp_use handle_spec; [done..|]. fold has. intros r s' [-> ->].
  unfold told. simpl. split_and!; [done|by rewrite lookup_insert_eq|intros; by apply lookup_insert_ne|].
  f_equal. unfold unseen, announcements, settled. rewrite Hb.
  destruct (guaranteeClient service), (hasClients service), has; simpl; by rewrite ?app_nil_r.
Qed.
End Theorems.

(** Where no caller is known, services are registered for process 0 and no real
    process can withdraw them. *)
Lemma open_access_never_unregisters {plat : Platform} k who name b s :
  c_pid who <> 0 -> map_Forall (fun _ x => s_debugPid x = 0) (mNameToService s) ->
  wp (tryUnregisterService (acc := open_access) k who name b) s (fun st s' => isOk st = false /\ s' = s).
Proof.
  intros Hp Hs. unfold tryUnregisterService. destruct b as [b|]; [|by wp_step]. cbn [canAdd open_access negb].
  wp_step. wp_step. destruct (mNameToService s !! name) as [x|] eqn:E; [|by wp_step].
  rewrite (Hs _ _ E). unfold getCallingPid. zdec (0 =? c_pid who). cbn [negb]. by wp_step.
Qed.

(** * Examples *)

Module SmSample.
(** The uid ranges of Android: 100000 ids per user, apps from 10000, isolated
    processes from 90000 to 99999. *)
Definition android : Platform := {|
  multiuser_get_app_id uid := uid mod 100000;
  AID_APP := 10000;
  AID_ISOLATED_START := 90000;
  AID_ISOLATED_END := 99999;
|}.

(** A manifest given by the list of its AIDL instances. *)
Definition listed : HalManifest (list AidlName) := {|
  hasAidlInstance m p i n := bool_decide (mkAidlName p i n ∈ m);
  getAidlInstances m p i := map instance (List.filter (fun a => bool_decide (package a = p /\ iface a = i)) m);
  manifest_instances m := map (fun a => mkManifestInstance true a None None None) m;
|}.

(** All binders are proxies, of system stability, with two references. *)
Definition kernel : Kernel := mkKernel (fun _ => true) (fun _ => OK) (fun _ => 2) (fun _ => SYSTEM).
Definition server : Caller := mkCaller None 100 1000.

(** After a listener and a service were registered. *)
Definition listener_then_service : SM := mkSM
  {[ "clock" := mkService (Some 7) false 1 false true 0 ]} {[ "clock" := [8] ]} ∅ [OnRegistration 8 "clock" 7].
(** The same with a client callback. *)
Definition with_callback : SM := mkSM
  {[ "clock" := mkService (Some 7) false 1 false true 0 ]} {[ "clock" := [8] ]} {[ "clock" := [9] ]} [].
End SmSample.


Lemma with_callback_inv : sm_inv SmSample.with_callback.
Proof.
  constructor; simpl; intros name x [<- <-]%lookup_singleton_Some; (split; [by vm_compute|done]).
Qed.

Lemma death_is_forgotten_witness :
  wp (binderDied 7) SmSample.with_callback (fun _ s' => mNameToService s' !! "clock" = None).
Proof.
  wp_use (death_is_forgotten 7 SmSample.with_callback with_callback_inv).
  intros _ s' (_ & _ & Hs & _). destruct (mNameToService s' !! "clock") as [x|] eqn:E; [|done].
  apply Hs in E as [[= <-] Hb]. by destruct Hb.
Defined.

Lemma client_notifications_witness :
  wp (handleServiceClientCallback SmSample.kernel "clock" true) SmSample.with_callback (fun r s' =>
    r = 2 /\ sm_log s' = [OnClients 9 (Some 7) true]).
Proof.
  wp_use (client_notifications SmSample.kernel "clock" (mkService (Some 7) false 1 false true 0) 7 [9]
    SmSample.with_callback); [done|done|done|done|done|].
  intros r s' (-> & _ & _ & Hl). split; [done|exact Hl].
Defined.
