(* ===== verification/ManagerClient.v ===== *)
(** The service manager as its clients see it: the generated proxy of
    [android.os.IServiceManager], with a status for every call.

    [AidlServiceManager] is the interface; [shared_manager] implements it by the
    requests of ServiceManager.v.  The manager serves other processes between
    two calls of one process: what it does before the next call of this one is a
    [Turn]. *)

From stdpp Require Import strings.
From S2P Require Import Prelude Errors ParcelState ParcelInv BinderStatus ServiceManager ServiceManagerProps.

(** The out-parameter of a call is meant only when its status is ok. *)
Class AidlServiceManager (W : Type) := {
  am_getService : string -> M W (Status * option Z);
  am_checkService : string -> M W (Status * option Z);
  am_addService : string -> option Z -> bool -> Z -> M W Status;
  am_listServices : Z -> M W (Status * list string);
  am_registerForNotifications : string -> option Z -> M W Status;
  am_unregisterForNotifications : string -> option Z -> M W Status;
  am_isDeclared : string -> M W (Status * option bool);
  am_getDeclaredInstances : string -> M W (Status * list string);
  am_updatableViaApex : string -> M W (Status * option string);
  am_getConnectionInfo : string -> M W (Status * option ConnectionInfo);
  am_registerClientCallback : string -> option Z -> option Z -> M W Status;
  am_tryUnregisterService : string -> option Z -> M W Status;
  am_getServiceDebugInfo : M W (Status * list (string * Z));
}.

(** * The manager, shared with other processes *)

(** One message of another process, of the driver or of the timer. *)
Definition Message : Type := Kernel * Caller * Request.
(** [heard]: the callbacks the manager has sent reach this process in time. *)
Record Turn := mkTurn { others : list Message; kernel : Kernel; heard : bool }.
Record Shared := mkShared { sh_sm : SM; sh_turns : list Turn }.

Section Shared.
Context {acc : Access} {plat : Platform}.
Context {mf : Type} {hal : HalManifest mf} (manifests : list (option mf)).

Definition serve (ms : list Message) : M SM unit :=
  for_each ms (fun '(k, who, r) => handle manifests k who r).

(** [who] is this process; [k0] is the kernel when no turn is left. *)
Context (who : Caller) (k0 : Kernel).

Definition next_turn (s : Shared) : Turn := default (mkTurn [] k0 true) (head (sh_turns s)).
Definition my_turn {A} (call : Kernel -> M SM A) : M Shared A :=
  let* t := gets next_turn in
  zoom sh_sm (fun m s => mkShared m (tail (sh_turns s))) (serve (others t) ;; call (kernel t)).

(** The last binder a waiter of this process was told of, if it has heard. *)
Definition announced (waiter : Z) (s : SM) : option Z :=
  foldl (fun mBinder e => match e with
    | OnRegistration cb _ b => if cb =? waiter then Some b else mBinder
    | _ => mBinder
    end) None (sm_log s).
Definition wait_turn (waiter : Z) : M Shared (option Z) :=
  let* t := gets next_turn in
  let* mBinder := my_turn (fun _ => gets (announced waiter)) in
  ret (if heard t then mBinder else None).

Definition shared_manager : AidlServiceManager Shared := {|
  am_getService name := my_turn (fun _ => getService who name);
  am_checkService name := my_turn (fun _ => checkService who name);
  am_addService name b iso prio := my_turn (fun k => addService manifests k who name b iso prio);
  am_listServices prio := my_turn (fun _ => listServices who prio []);
  am_registerForNotifications name cb := my_turn (fun k => registerForNotifications k who name cb);
  am_unregisterForNotifications name cb := my_turn (fun _ => unregisterForNotifications who name cb);
  am_isDeclared name := my_turn (fun _ => isDeclared manifests who name);
  am_getDeclaredInstances i := my_turn (fun _ => getDeclaredInstances manifests who i);
  am_updatableViaApex name := my_turn (fun _ => updatableViaApex manifests who name);
  am_getConnectionInfo name := my_turn (fun _ => getConnectionInfo manifests who name);
  am_registerClientCallback name b cb := my_turn (fun k => registerClientCallback k who name b cb);
  am_tryUnregisterService name b := my_turn (fun k => tryUnregisterService k who name b);
  am_getServiceDebugInfo := my_turn (fun _ => getServiceDebugInfo who []);
|}.
End Shared.

(** * What a message does to the services *)

(** Two entries of the registry up to what is known of the clients. *)
Definition same_service (x x' : Service) : Prop :=
  s_binder x' = s_binder x /\ allowIsolated x' = allowIsolated x /\
  dumpPriority x' = dumpPriority x /\ s_debugPid x' = s_debugPid x.

Section Changes.
Context {acc : Access} {plat : Platform}.
Context {mf : Type} {hal : HalManifest mf} (manifests : list (option mf)).

(** The entry of [name] before and after a message of [who]: it is kept, or it
    is what [who] adds, or it is withdrawn by its owner, or its binder died. *)
Inductive change (who : Caller) (r : Request) (name : string) : option Service -> option Service -> Prop :=
| change_none : change who r name None None
| change_kept x x' : same_service x x' -> change who r name (Some x) (Some x')
| change_added o x b iso prio : r = AddService name b iso prio -> s_binder x = b ->
    s_debugPid x = debugPid (ctx who) -> change who r name o (Some x)
| change_withdrawn x b : r = TryUnregisterService name b -> s_debugPid x = c_pid who ->
    s_binder x = b -> change who r name (Some x) None
| change_died x dead : r = BinderDied dead -> s_binder x = Some dead -> change who r name (Some x) None.

Definition changes (who : Caller) (r : Request) (s s' : SM) : Prop :=
  forall name, change who r name (mNameToService s !! name) (mNameToService s' !! name).

Lemma change_back who r name o x' :
  change who r name o (Some x') ->
  (exists x, o = Some x /\ same_service x x') \/
  (s_debugPid x' = debugPid (ctx who) /\ exists b iso prio, r = AddService name b iso prio).
Proof. inversion 1; subst; [left|right]; eauto 6. Qed.

Lemma change_forth who r name x o' :
  change who r name (Some x) o' ->
  (exists x', o' = Some x' /\ same_service x x') \/
  (exists b iso prio, r = AddService name b iso prio) \/ s_debugPid x = c_pid who \/
  exists dead, r = BinderDied dead /\ s_binder x = Some dead.
Proof. inversion 1; subst; eauto 7. Qed.

(** Nothing but the flags of entries changes. *)
Definition keeps (s s' : SM) : Prop :=
  forall name, option_Forall2 same_service (mNameToService s !! name) (mNameToService s' !! name).
Lemma same_back o x' : option_Forall2 same_service o (Some x') -> exists x, o = Some x /\ same_service x x'.
Proof. inversion 1; subst; eauto. Qed.
Lemma same_forth x o' : option_Forall2 same_service (Some x) o' -> exists x', o' = Some x' /\ same_service x x'.
Proof. inversion 1; subst; eauto. Qed.
End Changes.

(** * Partial correctness: what holds if a run returns *)

Definition wpp {S A} (m : M S A) (s : S) (Q : A -> S -> Prop) : Prop :=
  forall a s', m s = Ret a s' -> Q a s'.
Definition within {S A} (R : S -> S -> Prop) (m : M S A) : Prop :=
  forall s, wpp m s (fun _ s' => R s s').

Section Within.
Context {S : Type}.
Implicit Types s : S.

Lemma wpp_ret {A} (a : A) s Q : Q a s -> wpp (ret a) s Q.
Proof. by intros HQ b s' [= <- <-]. Qed.
Lemma wpp_bind {A B} (m : M S A) (k : A -> M S B) s Q :
  wpp m s (fun a s' => wpp (k a) s' Q) -> wpp (bind m k) s Q.
Proof. intros Hm b s' (a & s1 & Ha & Hb)%bind_ret_inv. by eapply Hm. Qed.
Lemma wpp_mono {A} (m : M S A) s (P Q : A -> S -> Prop) :
  wpp m s P -> (forall a s', P a s' -> Q a s') -> wpp m s Q.
Proof. intros Hm HPQ a s' E. apply HPQ. by apply Hm. Qed.
Lemma wpp_wpg {A} F (m : M S A) s P Q :
  wpg F m s P -> wpp m s Q -> wpg F m s (fun a s' => P a s' /\ Q a s').
Proof. unfold wpg, wpp. destruct (m s); auto. Qed.

Context (R : S -> S -> Prop) `{!PreOrder R}.

Lemma within_ret {A} (a : A) : within R (ret a).
Proof. intros s. by apply wpp_ret. Qed.
Lemma within_gets {A} (f : S -> A) : within R (gets f).
Proof. by intros s a s' [= <- <-]. Qed.
Lemma within_get : within R get.
Proof. by intros s a s' [= <- <-]. Qed.
Lemma within_require {A} (o : option A) : within R (require o).
Proof. destruct o; [apply within_ret|done]. Qed.
Lemma within_fatal_if b : within R (fatal_if b).
Proof. destruct b; [done|apply within_ret]. Qed.
Lemma within_fatal {A} : within R (fatal (A := A)).
Proof. done. Qed.
Lemma within_modify f : (forall s, R s (f s)) -> within R (modify f).
Proof. by intros Hf s a s' [= <- <-]. Qed.
Lemma within_seq {A B} (m : M S A) (k : A -> M S B) :
  within R m -> (forall a, within R (k a)) -> within R (bind m k).
Proof.
  intros Hm Hk s b s' (a & s1 & Ha & Hb)%bind_ret_inv.
  etransitivity; [by eapply Hm|by eapply Hk].
Qed.
Lemma within_for_each {A} (l : list A) f : (forall a, within R (f a)) -> within R (for_each l f).
Proof.
  intros Hf. induction l as [|a l IH]; cbn [for_each]; [apply within_ret|]. apply within_seq; [apply Hf|done].
Qed.
End Within.

(** Follows the structure of a program; leaves what [auto] does not know. *)
Ltac within_step :=
  lazymatch goal with
  | |- within _ (bind _ _) => apply within_seq; [typeclasses eauto| |intros]
  | |- within _ (ret _) => apply within_ret; typeclasses eauto
  | |- within _ (gets _) => apply within_gets; typeclasses eauto
  | |- within _ get => apply within_get; typeclasses eauto
  | |- within _ (require _) => apply within_require; typeclasses eauto
  | |- within _ (fatal_if _) => apply within_fatal_if; typeclasses eauto
  | |- within _ fatal => apply within_fatal
  | |- within _ (for_each _ _) => apply within_for_each; [typeclasses eauto|intros]
  | |- within _ (let _ := _ in _) => cbv zeta
  | |- within _ (if ?b then _ else _) => destruct b
  | |- within _ (match ?x with _ => _ end) => destruct x
  | |- within _ (discard _) => unfold discard
  end.
Ltac within_steps := repeat (within_step; auto with within).
Create HintDb within.

(** * Every message *)

#[export] Instance same_service_equiv : Equivalence same_service.
Proof.
  unfold same_service. split; [by intros x|intros x y; naive_solver|].
  intros x y z (-> & -> & -> & ->) (-> & -> & -> & ->). done.
Qed.
#[export] Instance keeps_preorder : PreOrder keeps.
Proof.
  split; unfold keeps; [by intros s name|]. intros s1 s2 s3 H1 H2 name.
  by etransitivity; [apply H1|apply H2].
Qed.

Lemma mod_service_within name f :
  (forall x, same_service x (f x)) -> within keeps (mod_service name f).
Proof.
  intros Hf. apply within_modify. intros s n. simpl. destruct (decide (n = name)) as [->|Hne].
  - rewrite lookup_alter_eq. destruct (mNameToService s !! name); constructor. apply Hf.
  - rewrite lookup_alter_ne by done. reflexivity.
Qed.
Lemma emit_within e : within keeps (emit e).
Proof. apply within_modify. intros s n. reflexivity. Qed.
#[export] Hint Resolve emit_within : within.
#[export] Hint Extern 1 (within _ (mod_service _ _)) => apply mod_service_within; repeat split : within.
#[export] Hint Extern 1 (within keeps (modify _)) => apply within_modify; intros ? ?; reflexivity : within.

Section Messages.
Context {acc : Access} {plat : Platform}.
Context {mf : Type} {hal : HalManifest mf} (manifests : list (option mf)).
Context (k : Kernel) (who : Caller).

Lemma handleServiceClientCallback_within name i : within keeps (handleServiceClientCallback k name i).
Proof.
  assert (forall has, within keeps (sendClientCallbackNotifications name has)).
  { intros has. unfold sendClientCallbackNotifications. within_steps. }
  unfold handleServiceClientCallback, getNodeStrongRefCount, service_flag. within_steps.
Qed.

Lemma tryGetService_within name start : within keeps (tryGetService who name start).
Proof. unfold tryGetService, tryStartService. within_steps. Qed.
Lemma removeRegistrationCallback_within dead name : within keeps (removeRegistrationCallback dead name).
Proof. unfold removeRegistrationCallback. within_steps. Qed.
Lemma removeClientCallback_within dead name : within keeps (removeClientCallback dead name).
Proof. unfold removeClientCallback. within_steps. Qed.
Hint Resolve handleServiceClientCallback_within tryGetService_within removeRegistrationCallback_within
  removeClientCallback_within : within.

Lemma keeps_changes r s s' : keeps s s' -> changes who r s s'.
Proof. intros H name. specialize (H name). destruct H; by constructor. Qed.

Lemma addService_adds name b iso prio s :
  wpp (addService manifests k who name b iso prio) s (fun st s' =>
    if isOk st
    then (forall n, n <> name -> mNameToService s' !! n = mNameToService s !! n) /\
      exists x, mNameToService s' !! name = Some x /\ s_binder x = b /\ is_Some b /\
        s_debugPid x = debugPid (ctx who)
    else s' = s).
Proof.
  intros st s' E. destruct b as [b|].
  2: { revert E. unfold addService. repeat case_match; by intros [= <- <-]. }
  pose proof (addService_spec manifests True k who name b iso prio s) as H. unfold wpg in H. rewrite E in H.
  destruct H as [(-> & _ & ->)|(-> & _ & ->)]; [done|]. cbv zeta. simpl. split.
  - intros n Hne. by apply lookup_insert_ne.
  - eexists. by rewrite lookup_insert_eq.
Qed.

Lemma addService_changes name b iso prio :
  within (changes who (AddService name b iso prio)) (addService manifests k who name b iso prio).
Proof.
  intros s st s' H%addService_adds. destruct (isOk st); [|by subst; apply keeps_changes].
  destruct H as (Ho & x & Hx & Hb & _ & Hp). intros n. destruct (decide (n = name)) as [->|Hne].
  - rewrite Hx. by eapply change_added.
  - rewrite Ho by done. destruct (mNameToService s !! n); constructor. reflexivity.
Qed.

Lemma registerClientCallback_checks name b cb s :
  wpp (registerClientCallback k who name b cb) s (fun st s' =>
    mNameToService s' = mNameToService s /\
    (isOk st = true -> exists x, mNameToService s !! name = Some x /\ s_debugPid x = c_pid who /\ s_binder x = b)).
Proof.
  unfold registerClientCallback. destruct cb as [cb|]; [|by apply wpp_ret].
  destruct (canAdd (ctx who) name); cbn [negb]; [|by apply wpp_ret].
  apply wpp_bind. intros services s0 [= <- <-].
  destruct (mNameToService s !! name) as [x|] eqn:Ex; [|by apply wpp_ret].
  zcase (s_debugPid x =? getCallingPid who); cbn [negb]; [|by apply wpp_ret].
  case_bool_decide as Hb; cbn [negb]; [|by apply wpp_ret].
  destruct (linkToDeath k cb =? OK); cbn [negb]; [|by apply wpp_ret].
  intros st s' [= <- <-]. split; [done|]. intros _. by exists x.
Qed.

Definition others_kept (name : string) (s s' : SM) : Prop :=
  forall n, n <> name -> option_Forall2 same_service (mNameToService s !! n) (mNameToService s' !! n).

Lemma tryUnregisterService_withdraws name b s :
  wpp (tryUnregisterService k who name b) s (fun st s' =>
    if isOk st
    then others_kept name s s' /\ mNameToService s' !! name = None /\
      exists x, mNameToService s !! name = Some x /\ s_debugPid x = c_pid who /\ s_binder x = b
    else keeps s s').
Proof.
  unfold tryUnregisterService. destruct b as [b|]; [|apply wpp_ret; change (keeps s s); reflexivity].
  destruct (canAdd (ctx who) name); cbn [negb]; [|apply wpp_ret; change (keeps s s); reflexivity].
  apply wpp_bind. intros services s0 [= <- <-].
  destruct (mNameToService s !! name) as [x|] eqn:Ex; [|apply wpp_ret; change (keeps s s); reflexivity].
  zcase (s_debugPid x =? getCallingPid who); cbn [negb]; [|apply wpp_ret; change (keeps s s); reflexivity].
  case_bool_decide as Hb; cbn [negb]; [|apply wpp_ret; change (keeps s s); reflexivity].
  destruct (guaranteeClient x); [apply wpp_ret; change (keeps s s); reflexivity|].
  apply wpp_bind. intros count s1 Hk%handleServiceClientCallback_within. cbv zeta.
  destruct (_ || _).
  - assert (within keeps (mod_service name (set_guaranteeClient true))) as Hw by auto with within.
    apply wpp_bind. intros [] s2 Hr%Hw. apply wpp_ret. simpl. by etransitivity.
  - intros st s2 [= <- <-]. simpl. split_and!; [|apply lookup_delete_eq|by exists x].
    intros n Hne. simpl. rewrite lookup_delete_ne by done. apply Hk.
Qed.

Lemma tryUnregisterService_changes name b :
  within (changes who (TryUnregisterService name b)) (tryUnregisterService k who name b).
Proof.
  intros s st s' H%tryUnregisterService_withdraws. destruct (isOk st); [|by apply keeps_changes].
  destruct H as (Ho & Hn & x & Hx & Hp & Hb). intros n. destruct (decide (n = name)) as [->|Hne].
  - rewrite Hn, Hx. by eapply change_withdrawn.
  - specialize (Ho n Hne). destruct Ho; by constructor.
Qed.

Lemma binderDied_changes dead : within (changes who (BinderDied dead)) (binderDied dead).
Proof.
  intros s u s' E. pose proof (binderDied_spec True dead s) as H. unfold wpg in H. rewrite E in H.
  destruct H as [Hs _]. intros name. destruct (mNameToService s' !! name) as [x|] eqn:Ex.
  - apply Hs in Ex as [-> _]. by constructor.
  - destruct (mNameToService s !! name) as [x|] eqn:E0; [|constructor].
    apply (change_died _ _ _ _ dead); [done|]. destruct (decide (s_binder x = Some dead)) as [|Hne]; [done|].
    exfalso. assert (mNameToService s' !! name = Some x) by by apply Hs. congruence.
Qed.

(** Every message changes the registry in one of these ways. *)
Lemma handle_changes r : within (changes who r) (handle manifests k who r).
Proof.
  assert (forall A (m : M SM A), within keeps m -> within (changes who r) (discard m)) as Hk.
  { intros A m Hm s u s' (a & s1 & Ha & [= <- <-])%bind_ret_inv. by eapply keeps_changes, Hm. }
  assert (forall A (m : M SM A), within (changes who r) m -> within (changes who r) (discard m)) as Hc.
  { intros A m Hm s u s' (a & s1 & Ha & [= <- <-])%bind_ret_inv. by eapply Hm. }
  destruct r; cbn [handle]; try (apply Hc; first [apply addService_changes|apply tryUnregisterService_changes]);
    try apply binderDied_changes; try apply Hk; clear Hk Hc.
  - unfold getService. within_steps.
  - unfold checkService. within_steps.
  - unfold listServices. within_steps.
  - unfold registerForNotifications. within_steps.
  - unfold unregisterForNotifications. within_steps.
  - unfold isDeclared. within_steps.
  - unfold getDeclaredInstances. within_steps.
  - unfold updatableViaApex. within_steps.
  - unfold getConnectionInfo. within_steps.
  - unfold registerClientCallback. within_steps.
  - unfold getServiceDebugInfo. within_steps.
  - intros s u s' E. apply keeps_changes. revert s u s' E. change (within keeps (handleClientCallbacks k)).
    unfold handleClientCallbacks. within_steps.
Qed.
End Messages.

(** * What a message does to the listeners *)

Definition listeners (s : SM) (name : string) : list Z := default [] (mNameToRegistrationCallback s !! name).

(** No listener is added and nobody is told of a registration. *)
Definition quiet (s s' : SM) : Prop :=
  (forall name cb, cb ∈ listeners s' name -> cb ∈ listeners s name) /\
  (forall cb name b, OnRegistration cb name b ∈ sm_log s' -> OnRegistration cb name b ∈ sm_log s).
#[export] Instance quiet_preorder : PreOrder quiet.
Proof. split; [done|]. intros s1 s2 s3 [H1 H2] [H3 H4]. split; intros; eauto. Qed.

(** A listener is added by its registration only, and told of a service only when
    it listens to the name and that service is the one registered. *)
Definition notes (r : Request) (s s' : SM) : Prop :=
  (forall name cb, cb ∈ listeners s' name -> cb ∈ listeners s name \/ r = RegisterForNotifications name (Some cb)) /\
  (forall cb name b, OnRegistration cb name b ∈ sm_log s' ->
     OnRegistration cb name b ∈ sm_log s \/
     (cb ∈ listeners s' name /\ exists x, mNameToService s' !! name = Some x /\ s_binder x = Some b)).

Lemma quiet_notes r s s' : quiet s s' -> notes r s s'.
Proof. intros [H1 H2]. split; intros; left; eauto. Qed.

Lemma emit_quiet e : (match e with OnRegistration _ _ _ => False | _ => True end) -> within quiet (emit e).
Proof.
  intros He. apply within_modify. intros s. split; [done|]. simpl. intros cb name b [?|E%list_elem_of_singleton]%elem_of_app; [done|].
  by subst e.
Qed.
#[export] Hint Extern 1 (within quiet (emit _)) => apply emit_quiet; exact I : within.
#[export] Hint Extern 1 (within quiet (modify _)) => apply within_modify; intros ?; split; done : within.
#[export] Hint Extern 1 (within quiet (mod_service _ _)) => apply within_modify; intros ?; split; done : within.

Section Listeners.
Context {acc : Access} {plat : Platform}.
Context {mf : Type} {hal : HalManifest mf} (manifests : list (option mf)).
Context (k : Kernel) (who : Caller).

Lemma handleServiceClientCallback_quiet name i : within quiet (handleServiceClientCallback k name i).
Proof.
  assert (forall has, within quiet (sendClientCallbackNotifications name has)).
  { intros has. unfold sendClientCallbackNotifications. within_steps. }
  unfold handleServiceClientCallback, getNodeStrongRefCount, service_flag. within_steps.
Qed.
Lemma tryGetService_quiet name start : within quiet (tryGetService who name start).
Proof. unfold tryGetService, tryStartService. within_steps. Qed.
Lemma removeClientCallback_quiet dead name : within quiet (removeClientCallback dead name).
Proof. unfold removeClientCallback. within_steps. Qed.
Lemma removeRegistrationCallback_quiet dead name : within quiet (removeRegistrationCallback dead name).
Proof.
  intros s. unfold removeRegistrationCallback. apply wpp_bind. intros m s0 [= <- <-].
  destruct (mNameToRegistrationCallback s !! name) as [l|] eqn:El; [|done]. cbn [require].
  apply wpp_bind. intros ? ? [= <- <-]. cbv zeta. set (l' := List.filter _ l).
  assert (forall cb, cb ∈ l' -> cb ∈ l) as Hl.
  { intros cb. unfold l'. rewrite !list_elem_of_In, filter_In. by intros []. }
  case_bool_decide; (apply wpp_bind; intros ? ? [= <- <-]; apply wpp_ret; split; [|done]); intros n cb;
    unfold listeners; simpl; (destruct (decide (n = name)) as [->|Hne];
      [rewrite ?lookup_delete_eq, ?lookup_insert_eq, El|by rewrite ?lookup_delete_ne, ?lookup_insert_ne by done]).
  - by intros ?%elem_of_nil.
  - simpl. apply Hl.
Qed.
Hint Resolve handleServiceClientCallback_quiet tryGetService_quiet removeRegistrationCallback_quiet
  removeClientCallback_quiet : within.

Lemma registerForNotifications_notes name cb :
  within (notes (RegisterForNotifications name cb)) (registerForNotifications k who name cb).
Proof.
  intros s. unfold registerForNotifications.
  destruct (canFind (ctx who) name); cbn [negb]; [|by apply wpp_ret, quiet_notes].
  destruct (isValidServiceName name); cbn [negb]; [|by apply wpp_ret, quiet_notes].
  destruct cb as [cb|]; [|by apply wpp_ret, quiet_notes].
  destruct (linkToDeath k cb =? OK); cbn [negb]; [|by apply wpp_ret, quiet_notes].
  apply wpp_bind. intros u s1 [= <- <-]. apply wpp_bind. intros services s2 [= <- <-].
  set (s1 := put_registration _ s).
  assert (forall n c, c ∈ listeners s1 n -> c ∈ listeners s n \/ (n = name /\ c = cb)) as Hl.
  { intros n c. unfold listeners. simpl. destruct (decide (n = name)) as [->|Hne];
      [rewrite lookup_insert_eq; simpl; set_solver|rewrite lookup_insert_ne by done; auto]. }
  assert (cb ∈ listeners s1 name) as Hcb.
  { unfold listeners. simpl. rewrite lookup_insert_eq. simpl. set_solver. }
  destruct (mNameToService s !! name) as [x|] eqn:Ex.
  - destruct (s_binder x) as [b|] eqn:Eb; [|by rewrite bool_decide_eq_false_2 by by intros []].
    rewrite bool_decide_eq_true_2 by done. cbn [negb fatal_if].
    apply wpp_bind. apply wpp_bind, wpp_ret. apply wpp_bind. intros ? ? [= <- <-]. intros ? ? [= <- <-].
    apply wpp_ret. split.
    + intros n c [?|[-> ->]]%Hl; [by left|by right].
    + simpl. intros c n b' [?|E%list_elem_of_singleton]%elem_of_app; [by left|right].
      injection E as -> -> ->. split; [done|by exists x].
  - apply wpp_bind, wpp_ret, wpp_ret. split; [|by left]. intros n c [?|[-> ->]]%Hl; [by left|by right].
Qed.

Lemma addService_notes name b iso prio :
  within (notes (AddService name b iso prio)) (addService manifests k who name b iso prio).
Proof.
  intros s st s' E. destruct b as [b|].
  2: { apply quiet_notes. revert s st s' E. change (within quiet (addService manifests k who name None iso prio)).
       unfold addService. within_steps. }
  pose proof (addService_spec manifests True k who name b iso prio s) as H. unfold wpg in H. rewrite E in H.
  destruct H as [(_ & _ & ->)|(_ & _ & ->)]; [by apply quiet_notes|]. cbv zeta. split; [by left|].
  simpl. intros c n b' [?|Hin]%elem_of_app; [by left|right].
  apply list_elem_of_fmap in Hin as (c' & [= -> -> ->] & Hc). split; [done|].
  eexists. by rewrite lookup_insert_eq.
Qed.

Lemma handle_notes r : within (notes r) (handle manifests k who r).
Proof.
  assert (forall A (m : M SM A), within quiet m -> within (notes r) (discard m)) as Hq.
  { intros A m Hm s u s' (a & s1 & Ha & [= <- <-])%bind_ret_inv. by eapply quiet_notes, Hm. }
  assert (forall A (m : M SM A), within (notes r) m -> within (notes r) (discard m)) as Hn.
  { intros A m Hm s u s' (a & s1 & Ha & [= <- <-])%bind_ret_inv. by eapply Hm. }
  destruct r; cbn [handle]; try (apply Hn; first [apply addService_notes|apply registerForNotifications_notes]);
    try (apply Hq; clear Hq Hn).
  - unfold getService. within_steps.
  - unfold checkService. within_steps.
  - unfold listServices. within_steps.
  - unfold unregisterForNotifications. within_steps.
  - unfold isDeclared. within_steps.
  - unfold getDeclaredInstances. within_steps.
  - unfold updatableViaApex. within_steps.
  - unfold getConnectionInfo. within_steps.
  - unfold registerClientCallback. within_steps.
  - unfold tryUnregisterService. within_steps.
  - unfold getServiceDebugInfo. within_steps.
  - intros s u s' E. apply quiet_notes. revert s u s' E. change (within quiet (binderDied dead)).
    unfold binderDied. within_steps.
  - intros s u s' E. apply quiet_notes. revert s u s' E. change (within quiet (handleClientCallbacks k)).
    unfold handleClientCallbacks. within_steps.
Qed.
End Listeners.

(** * What this process can rely on between its calls

    [P] holds of every message of others, and [R] of what such messages do. *)

Section Reliance.
Context {acc : Access} {plat : Platform}.
Context {mf : Type} {hal : HalManifest mf} (manifests : list (option mf)) (k0 : Kernel).
Context (P : Message -> Prop) (R : SM -> SM -> Prop) `{!PreOrder R}.
Context (HR : forall k who r s u s', P (k, who, r) -> handle manifests k who r s = Ret u s' -> R s s').

Definition turns_ok (ts : list Turn) : Prop := Forall (fun t => Forall P (others t)) ts.
Definition shared_ok (w : Shared) : Prop := sm_inv (sh_sm w) /\ turns_ok (sh_turns w).

Lemma serve_relies F ms s :
  Forall P ms -> sm_inv s -> wpg F (serve manifests ms) s (fun _ s' => sm_inv s' /\ R s s').
Proof.
  unfold serve. intros HP. revert s. induction HP as [|[[k who] r] ms Hm HP IH]; intros s Hi; cbn [for_each].
  { by wp_step. }
  wp_step. eapply wpg_mono; [apply wpp_wpg; [by apply handle_inv|intros u s1 E; exact (HR _ _ _ _ _ _ Hm E)]|].
  intros _ s1 [Hi1 H1]. wp_use IH; [done|]. intros _ s2 [Hi2 H2]. split; [done|]. by etransitivity.
Qed.

Lemma my_turn_ok F {A} (call : Kernel -> M SM A) w (Q : A -> SM -> Prop) :
  shared_ok w ->
  (forall k s, R (sh_sm w) s -> sm_inv s -> wpg F (call k) s (fun a s' => sm_inv s' /\ Q a s')) ->
  wpg F (my_turn manifests k0 call) w (fun a w' => shared_ok w' /\ Q a (sh_sm w')).
Proof.
  intros [Hi Ht] Hcall. unfold my_turn. wp_step. wp_step. apply wpg_zoom. wp_step.
  assert (Forall P (others (next_turn k0 w)) /\ turns_ok (tail (sh_turns w))) as [Hn Ht'].
  { unfold next_turn. destruct Ht as [|t ts]; [by repeat constructor|done]. }
  wp_use serve_relies; [done|done|]. intros _ s1 [Hi1 H1]. wp_use Hcall; [done|done|].
  intros a s2 [Hi2 HQ]. done.
Qed.
End Reliance.
