(* ===== verification/LazyServices.v ===== *)
(** Services that exist only while they have clients:
    src/libs/binder/LazyServiceRegistrar.cpp.

    One [ClientCounterCallbackImpl] keeps the services of a process, is told by
    the service manager which of them have clients, and ends the process when
    none has.  Its mutex makes each operation atomic for the process; what the
    manager does in between is up to [AidlServiceManager].  [exit] ends the run
    with [Exited].  The active services callback is code of the user; while it
    runs the mutex is held, so of the registrar it can call [tryUnregister] and
    [reRegister] only: it is a [Script] of such calls. *)

From stdpp Require Import strings gmap.
From S2P Require Import Prelude Errors ParcelState ParcelInv BinderStatus ServiceManager ManagerClient.

(** * State *)

Record Service := mkService {
  service : option Z;
  allowIsolated : bool;
  dumpFlags : Z;
  clients : bool;
  registered : bool;
}.
Definition set_clients (b : bool) (s : Service) : Service :=
  mkService (service s) (allowIsolated s) (dumpFlags s) b (registered s).
Definition set_registered (b : bool) (s : Service) : Service :=
  mkService (service s) (allowIsolated s) (dumpFlags s) (clients s) b.

(** The user's callback: calls of the registrar, then its result, or [exit]. *)
Inductive Script :=
| Handled (result : bool)
| CallTryUnregister (next : bool -> Script)
| CallReRegister (next : Script)
| CallExit.
Definition ActiveServicesCallback : Type := bool -> Script.

(** Whether the process still runs; [by_callback] tells who ended it. *)
Inductive life := Running | Exited (by_callback : bool).

(** [mManager] is the service manager and everything around it. *)
Record Impl (W : Type) := mkImpl {
  mNumConnectedServices : Z;
  mPreviousHasClients : option bool;
  mRegisteredServices : gmap string Service;
  mForcePersist : bool;
  mActiveServicesCallback : option ActiveServicesCallback;
  mManager : W;
}.
Arguments mkImpl {W}.
Arguments mNumConnectedServices {W}.
Arguments mPreviousHasClients {W}.
Arguments mRegisteredServices {W}.
Arguments mForcePersist {W}.
Arguments mActiveServicesCallback {W}.
Arguments mManager {W}.

Section Impl.
Context {W : Type}.
Implicit Types s : Impl W.

Definition set_num n s : Impl W :=
  mkImpl n (mPreviousHasClients s) (mRegisteredServices s) (mForcePersist s) (mActiveServicesCallback s) (mManager s).
Definition set_previous b s : Impl W :=
  mkImpl (mNumConnectedServices s) b (mRegisteredServices s) (mForcePersist s) (mActiveServicesCallback s) (mManager s).
Definition set_services m s : Impl W :=
  mkImpl (mNumConnectedServices s) (mPreviousHasClients s) m (mForcePersist s) (mActiveServicesCallback s) (mManager s).
Definition set_persist b s : Impl W :=
  mkImpl (mNumConnectedServices s) (mPreviousHasClients s) (mRegisteredServices s) b (mActiveServicesCallback s) (mManager s).
Definition set_callback f s : Impl W :=
  mkImpl (mNumConnectedServices s) (mPreviousHasClients s) (mRegisteredServices s) (mForcePersist s) f (mManager s).
Definition set_manager w s : Impl W :=
  mkImpl (mNumConnectedServices s) (mPreviousHasClients s) (mRegisteredServices s) (mForcePersist s) (mActiveServicesCallback s) w.

Definition ClientCounterCallbackImpl (w : W) : Impl W := mkImpl 0 None ∅ false None w.

Definition manager {A} : M W A -> M (Impl W) A := zoom mManager set_manager.
Definition mod_entry (name : string) (f : Service -> Service) : M (Impl W) unit :=
  modify (fun s => set_services (alter f name (mRegisteredServices s)) s).

Context `{!AidlServiceManager W} (this : Z).

(** * Operations *)

Definition registerServiceLocked (service : option Z) (name : string) (allowIsolated : bool)
    (dumpFlags : Z) : M (Impl W) bool :=
  let* services := gets mRegisteredServices in
  let reRegister := bool_decide (is_Some (services !! name)) in
  let* status := manager (am_addService (c_str name) service allowIsolated dumpFlags) in
  if negb (isOk status) then ret false else
  if reRegister then ret true else
  let* status := manager (am_registerClientCallback name service (Some this)) in
  if negb (isOk status) then ret false else
  modify (fun s => set_services
    (<[name := mkService service allowIsolated dumpFlags false true]> (mRegisteredServices s)) s) ;;
  ret true.

Definition registerService := registerServiceLocked.

(** The first entry with that binder, in the order of the map. *)
Definition find_service (service' : option Z) (l : list (string * Service)) : option (string * Service) :=
  List.find (fun e => bool_decide (service (snd e) = service')) l.
Definition assertRegisteredService (service : option Z) : M (Impl W) (string * Service) :=
  fatal_if (negb (bool_decide (is_Some service))) ;;
  let* services := gets mRegisteredServices in
  match find_service service (in_order services) with
  | Some e => ret e
  | None => fatal
  end.

Fixpoint try_unregister_in (names : list string) : M (Impl W) bool :=
  match names with
  | [] => ret true
  | name :: names =>
      let* services := gets mRegisteredServices in
      let* entry := require (services !! name) in
      let* status := manager (am_tryUnregisterService name (service entry)) in
      if negb (isOk status) then ret false else
      mod_entry name (set_registered false) ;;
      try_unregister_in names
  end.
Definition tryUnregisterLocked : M (Impl W) bool :=
  let* services := gets mRegisteredServices in
  try_unregister_in (map fst (in_order services)).

Fixpoint re_register_in (names : list string) : M (Impl W) unit :=
  match names with
  | [] => ret tt
  | name :: names =>
      let* services := gets mRegisteredServices in
      let* entry := require (services !! name) in
      if registered entry then re_register_in names else
      let* ok := registerServiceLocked (service entry) name (allowIsolated entry) (dumpFlags entry) in
      fatal_if (negb ok) ;;
      mod_entry name (set_registered true) ;;
      re_register_in names
  end.
Definition reRegisterLocked : M (Impl W) unit :=
  let* services := gets mRegisteredServices in
  re_register_in (map fst (in_order services)).

Definition tryUnregister : M (Impl W) bool := tryUnregisterLocked.
Definition reRegister : M (Impl W) unit := reRegisterLocked.

Definition tryShutdownLocked : M (Impl W) life :=
  let* all := tryUnregisterLocked in
  if all then ret (Exited false) else
  reRegisterLocked ;; ret Running.

(** [None]: the callback has ended the process. *)
Fixpoint run_callback (f : Script) : M (Impl W) (option bool) :=
  match f with
  | Handled result => ret (Some result)
  | CallTryUnregister next => let* ok := tryUnregister in run_callback (next ok)
  | CallReRegister next => reRegister ;; run_callback next
  | CallExit => ret None
  end.

Definition ask_callback : M (Impl W) (option bool) :=
  let* callback := gets mActiveServicesCallback in
  match callback with
  | None => ret (Some false)
  | Some callback =>
      let* n := gets mNumConnectedServices in
      let hasClients := negb (n =? 0) in
      let* previous := gets mPreviousHasClients in
      if bool_decide (Some hasClients = previous) then ret (Some false) else
      let* handledInCallback := run_callback (callback hasClients) in
      match handledInCallback with
      | None => ret None
      | Some handled => modify (set_previous (Some hasClients)) ;; ret (Some handled)
      end
  end.

Definition maybeTryShutdownLocked : M (Impl W) life :=
  let* persist := gets mForcePersist in
  if persist then ret Running else
  let* handledInCallback := ask_callback in
  match handledInCallback with
  | None => ret (Exited true)
  | Some handled =>
      let* n := gets mNumConnectedServices in
      if negb handled && (n =? 0) then tryShutdownLocked else ret Running
  end.

Definition forcePersist (persist : bool) : M (Impl W) life :=
  modify (set_persist persist) ;;
  if negb persist then maybeTryShutdownLocked else ret Running.

Definition count_clients (m : gmap string Service) : Z :=
  zlen (List.filter (fun e => clients (snd e)) (in_order m)).

Definition onClients (service : option Z) (has : bool) : M (Impl W) life :=
  let* entry := assertRegisteredService service in
  fatal_if (Bool.eqb (clients (snd entry)) has) ;;
  mod_entry (fst entry) (set_clients has) ;;
  modify (fun s => set_num (count_clients (mRegisteredServices s)) s) ;;
  maybeTryShutdownLocked.

Definition setActiveServicesCallback (f : option ActiveServicesCallback) : M (Impl W) unit :=
  modify (set_callback f).

(** [LazyServiceRegistrar::registerService]. *)
Definition registrar_registerService (service : option Z) (name : string) (allowIsolated : bool)
    (dumpFlags : Z) : M (Impl W) status_t :=
  let* ok := registerService service name allowIsolated dumpFlags in
  ret (if ok then OK else UNKNOWN_ERROR).

(** * The process: its own calls, and the callbacks it receives *)

Inductive Call :=
| RegisterService (service : option Z) (name : string) (allowIsolated : bool) (dumpFlags : Z)
| ForcePersist (persist : bool)
| SetActiveServicesCallback (f : option ActiveServicesCallback)
| OnClients (service : option Z) (has : bool)
| TryUnregister
| ReRegister.

Definition run_call (c : Call) : M (Impl W) (life * bool) :=
  match c with
  | RegisterService b name iso flags =>
      let* st := registrar_registerService b name iso flags in ret (Running, st =? OK)
  | ForcePersist b => let* l := forcePersist b in ret (l, true)
  | SetActiveServicesCallback f => setActiveServicesCallback f ;; ret (Running, true)
  | OnClients b has => let* l := onClients b has in ret (l, true)
  | TryUnregister => let* ok := tryUnregister in ret (Running, ok)
  | ReRegister => reRegister ;; ret (Running, true)
  end.
End Impl.
