(* ===== verification/LazyServicesProps.v ===== *)
(** A process with lazy services beside the service manager: the registrar of
    LazyServices.v over the manager of ServiceManager.v, with other processes
    that send the manager what they like between its calls.

    When the process exits nothing of it is left in the registry; until then the
    services it counts as registered are found there. *)

From S2P Require Import Stability.
From stdpp Require Import strings gmap sorting.
From S2P Require Import Prelude Errors ParcelState ParcelInv BinderStatus ServiceManager ServiceManagerProps ManagerClient LazyServices.

(** * Counting entries *)

Lemma count_insert n e (m : gmap string LazyServices.Service) :
  m !! n = None -> count_clients (<[n := e]> m) = (if clients e then 1 else 0) + count_clients m.
Proof.
  intros Hn. unfold count_clients, in_order.
  assert (forall l l' : list (string * LazyServices.Service), l ≡ₚ l' ->
    zlen (List.filter (fun e => clients (snd e)) l) = zlen (List.filter (fun e => clients (snd e)) l')) as Hp.
  { intros l l'. induction 1 as [|x l l' _ IH|x y l|]; simpl; repeat case_match; unfold zlen in *; simpl; lia. }
  rewrite !(Hp _ _ (merge_sort_Permutation _ _)), (Hp _ _ (map_to_list_insert _ _ e Hn)). simpl.
  destruct (clients e); [rewrite zlen_cons|]; lia.
Qed.

Lemma count_alter f n (m : gmap string LazyServices.Service) :
  (forall e, clients (f e) = clients e) -> count_clients (alter f n m) = count_clients m.
Proof.
  intros Hf. destruct (m !! n) as [e|] eqn:E; [|by rewrite alter_id; [|congruence]].
  rewrite (alter_is_insert _ _ _ e), <- insert_delete_eq, count_insert by (done || apply lookup_delete_eq).
  rewrite <- (insert_id m n e) at 2 by done. rewrite <- (insert_delete_eq m n e), count_insert by apply lookup_delete_eq.
  by rewrite Hf.
Qed.

Lemma count_zero (m : gmap string LazyServices.Service) :
  count_clients m = 0 <-> map_Forall (fun _ e => clients e = false) m.
Proof.
  induction m as [|n e m Hn IH] using map_ind.
  { split; [intros _; apply map_Forall_empty|done]. }
  rewrite count_insert, map_Forall_insert by done. rewrite <- IH.
  assert (0 <= count_clients m) by (unfold count_clients, zlen; lia).
  destruct (clients e); split; intros; intuition (congruence || lia).
Qed.

Section Process.
Context {acc : Access} {plat : Platform}.
Context {mf : Type} {hal : HalManifest mf} (manifests : list (option mf)).
(** The process, its callback object, and the kernel when all turns are over. *)
Context (who : Caller) (this : Z) (k0 : Kernel).
Context (Hself : debugPid (ctx who) = c_pid who).
#[local] Instance world : AidlServiceManager Shared := shared_manager manifests who k0.
(** The names nobody else touches, and the binders this process has for them. *)
Context (N : string -> Prop) (binder_of : string -> Z).

(** * What others may do *)

Definition stranger (c : Caller) : Prop := debugPid (ctx c) <> c_pid who /\ c_pid c <> c_pid who.
Definition harmless (m : Message) : Prop :=
  let '(_, c, r) := m in
  stranger c /\ forall n, N n ->
    (forall b iso prio, r <> AddService n b iso prio) /\ r <> BinderDied (binder_of n).

(** The registry has [n] from this process; with its right binder. *)
Definition ours (m : SM) (n : string) : Prop :=
  exists x, mNameToService m !! n = Some x /\ s_debugPid x = c_pid who.
Definition lists (m : SM) (n : string) : Prop :=
  exists x, mNameToService m !! n = Some x /\ s_debugPid x = c_pid who /\ s_binder x = Some (binder_of n).

Definition reliable (m m' : SM) : Prop :=
  (forall n, ours m' n -> ours m n) /\ (forall n, N n -> lists m n -> lists m' n).
#[local] Instance reliable_preorder : PreOrder reliable.
Proof. split; unfold reliable; [done|]. intros m1 m2 m3 [] []. split; eauto. Qed.

Lemma ours_back m n o x' :
  o = mNameToService m !! n -> option_Forall2 same_service o (Some x') -> s_debugPid x' = c_pid who -> ours m n.
Proof. intros -> (x & Hx & _ & _ & _ & E)%same_back Hp. exists x. by rewrite <- E. Qed.

Lemma lists_forth m m' n :
  option_Forall2 same_service (mNameToService m !! n) (mNameToService m' !! n) -> lists m n -> lists m' n.
Proof.
  intros Hs (x & Hx & Hp & Hb). rewrite Hx in Hs. apply same_forth in Hs as (x' & Hx' & E1 & _ & _ & E2).
  exists x'. by rewrite E1, E2.
Qed.

Lemma keeps_reliable m m' : keeps m m' -> reliable m m'.
Proof.
  intros Hk. split; intros n.
  - intros (x' & Hx' & Hp). specialize (Hk n). rewrite Hx' in Hk. by eapply ours_back.
  - intros _. by apply lists_forth.
Qed.

Lemma others_reliable k c r m m' : harmless (k, c, r) -> changes c r m m' -> reliable m m'.
Proof.
  intros [[Hd Hc] Hn] Hch. split; intros n; specialize (Hch n).
  - intros (x' & Hx' & Hp). rewrite Hx' in Hch. apply change_back in Hch as [(x & Hx & Hs)|[E _]]; [|congruence].
    exists x. split; [done|]. destruct Hs as (_ & _ & _ & E). congruence.
  - intros HN Hl. pose proof Hl as (x & Hx & Hp & Hb). destruct (Hn n HN) as [Hadd Hdie]. rewrite Hx in Hch.
    apply change_forth in Hch as [(x' & Hx' & E1 & _ & _ & E2)|[(? & ? & ? & E)|[E|(dead & E & Ed)]]].
    + exists x'. by rewrite E1, E2.
    + by edestruct Hadd.
    + congruence.
    + exfalso. apply Hdie. congruence.
Qed.

(** * The three calls of the registrar *)

Abbreviation ok := (shared_ok harmless).
Definition lists_kept (m m' : SM) (out : string) : Prop :=
  forall n, n <> out -> N n -> lists m n -> lists m' n.

Lemma turn_ok F {A} (call : Kernel -> M SM A) w (Q : A -> SM -> Prop) :
  ok w ->
  (forall k m, reliable (sh_sm w) m -> sm_inv m -> wpg F (call k) m (fun _ => sm_inv)) ->
  (forall k m, reliable (sh_sm w) m -> wpp (call k) m Q) ->
  wpg F (my_turn manifests k0 call) w (fun a w' => ok w' /\ Q a (sh_sm w')).
Proof.
  intros Hw Hinv Hcall. apply (my_turn_ok manifests k0 harmless reliable); [|done|].
  { intros k c r m u m' Hm E. eapply others_reliable; [exact Hm|]. by eapply handle_changes. }
  intros k m Hm Hi. apply wpp_wpg; auto.
Qed.

Definition added (name : string) (m : SM) (st : Status) (m' : SM) : Prop :=
  if isOk st
  then (forall n, ours m' n -> ours m n \/ n = name) /\ lists_kept m m' name /\ (N name -> lists m' name)
  else reliable m m'.
Definition withdrawn (name : string) (m : SM) (st : Status) (m' : SM) : Prop :=
  if isOk st
  then (forall n, ours m' n -> ours m n /\ n <> name) /\ lists_kept m m' name
  else reliable m m'.

Lemma add_ok F name b iso flags w :
  ok w -> (N name -> b = Some (binder_of name)) ->
  wpg F (am_addService name b iso flags) w (fun st w' => ok w' /\ added name (sh_sm w) st (sh_sm w')).
Proof.
  intros Hw Hb. apply turn_ok; [done|by intros; apply addService_inv|].
  intros k m [Ho Hl] st m' H%addService_adds. unfold added. destruct (isOk st); [|by subst].
  destruct H as (Hne & x & Hx & Hxb & [b' Hb'] & Hp). split_and!.
  - intros n (y & Hy & Hyp). destruct (decide (n = name)) as [|Hn]; [by right|left].
    apply Ho. exists y. by rewrite <- Hne.
  - intros n Hn HN Hm. destruct (Hl n HN Hm) as (y & Hy & Hyp). exists y. by rewrite Hne.
  - intros HN. exists x. rewrite Hp, Hxb. auto.
Qed.

Lemma callback_ok F name b w :
  ok w ->
  wpg F (am_registerClientCallback name b (Some this)) w (fun st w' => ok w' /\
    reliable (sh_sm w) (sh_sm w') /\ (isOk st = true -> ours (sh_sm w') name)).
Proof.
  intros Hw. apply (turn_ok F _ w (fun st m' => reliable (sh_sm w) m' /\ (isOk st = true -> ours m' name)));
    [done|by intros; apply registerClientCallback_inv|].
  intros k m Hr st m' [Hs Hok]%registerClientCallback_checks. split.
  - etransitivity; [exact Hr|]. apply keeps_reliable. intros n. rewrite Hs. reflexivity.
  - intros E. destruct (Hok E) as (x & Hx & Hp & _). exists x. by rewrite Hs.
Qed.

Lemma withdraw_ok F name b w :
  ok w ->
  wpg F (am_tryUnregisterService name b) w (fun st w' => ok w' /\ withdrawn name (sh_sm w) st (sh_sm w')).
Proof.
  intros Hw. apply turn_ok; [done|by intros; apply tryUnregisterService_inv|].
  intros k m Hr st m' H%tryUnregisterService_withdraws. unfold withdrawn. destruct (isOk st).
  2: { etransitivity; [exact Hr|by apply keeps_reliable]. }
  destruct H as (Hk & Hn & _). destruct Hr as [Ho Hl]. split.
  - intros n (x' & Hx' & Hp). destruct (decide (n = name)) as [->|Hne]; [congruence|]. split; [|done].
    apply Ho. specialize (Hk n Hne). rewrite Hx' in Hk. by eapply ours_back.
  - intros n Hne HN Hm. eapply lists_forth; [by apply Hk|]. by apply Hl.
Qed.

(** * The invariant of the registrar

    [stray] are the names whose registration failed halfway: the manager may
    have them although the registrar does not. *)

Abbreviation sm s := (sh_sm (mManager s)).
Abbreviation reg := mRegisteredServices.
Implicit Types s : Impl Shared.

Record inv (stray : gset string) (s : Impl Shared) : Prop := {
  inv_world : ok (mManager s);
  inv_count : mNumConnectedServices s = count_clients (reg s);
  inv_names : forall n e, reg s !! n = Some e -> c_str n = n /\ (N n -> service e = Some (binder_of n));
  inv_cover : forall n, ours (sm s) n -> is_Some (reg s !! n) \/ n ∈ stray;
  inv_listed : forall n e, reg s !! n = Some e -> N n -> registered e = true -> lists (sm s) n;
}.

(** Nothing of this process is in the registry, the strays apart. *)
Definition clean (stray : gset string) s : Prop := forall n, ours (sm s) n -> n ∈ stray.
(** Every service counts as registered. *)
Definition whole s : Prop := map_Forall (fun _ e => registered e = true) (reg s).

(** Only the manager and the [registered] marks differ. *)
Definition alike (e e' : LazyServices.Service) : Prop := e' = set_registered (registered e') e.
Record steady (s s' : Impl Shared) : Prop := {
  st_num : mNumConnectedServices s' = mNumConnectedServices s;
  st_previous : mPreviousHasClients s' = mPreviousHasClients s;
  st_persist : mForcePersist s' = mForcePersist s;
  st_callback : mActiveServicesCallback s' = mActiveServicesCallback s;
  st_entries : forall n, option_Forall2 alike (reg s !! n) (reg s' !! n);
}.
#[local] Instance alike_preorder : PreOrder alike.
Proof.
  split; unfold alike; [by intros []|]. intros [] [] [] E1 E2. unfold set_registered in *. simpl in *. congruence.
Qed.
#[local] Instance steady_preorder : PreOrder steady.
Proof.
  split; [intros s; split; try done; intros n; reflexivity|]. intros s1 s2 s3 [] []. split; try congruence.
  intros n. etransitivity; eauto.
Qed.

Lemma steady_manager s w : steady s (set_manager w s).
Proof. split; done. Qed.

Lemma valid_c_str name : isValidServiceName name = true -> c_str name = name.
Proof.
  unfold isValidServiceName. destruct (Nat.eqb _ _); [done|]. destruct (Nat.ltb _ _); [done|].
  induction name as [|a name IH]; [done|]. cbn [all_chars c_str]. intros [Ha Hn]%andb_prop.
  destruct (decide (a = Ascii.zero)) as [->|]; [done|]. by rewrite IH.
Qed.

Lemma set_manager_inv stray stray' s w :
  inv stray s -> ok w ->
  (forall n, ours (sh_sm w) n -> is_Some (reg s !! n) \/ n ∈ stray') ->
  (forall n e, reg s !! n = Some e -> N n -> registered e = true -> lists (sh_sm w) n) ->
  inv stray' (set_manager w s).
Proof. intros [] Hw Hc Hl. by split. Qed.

Lemma reliable_inv stray s w : inv stray s -> ok w -> reliable (sm s) (sh_sm w) -> inv stray (set_manager w s).
Proof.
  intros Hi Hw [Ho Hl]. apply (set_manager_inv stray); [done|done| |].
  - intros n Hn. by apply (inv_cover _ _ Hi), Ho.
  - intros n e He HN Hr. apply Hl; [done|]. by eapply inv_listed.
Qed.

(** Who registers a name of [N] registers its binder. *)
Definition rightly (name : string) (b : option Z) : Prop := N (c_str name) -> b = Some (binder_of (c_str name)).

Lemma register_again F stray s b name iso flags :
  inv stray s -> rightly name b -> is_Some (reg s !! name) ->
  wpg F (registerServiceLocked this b name iso flags) s (fun done s' =>
    inv stray s' /\ steady s s' /\ reg s' = reg s /\ (done = true -> N name -> lists (sm s') name)).
Proof.
  intros Hi Hb Hn. pose proof Hn as [e He]. destruct (inv_names _ _ Hi _ _ He) as [Hname _].
  unfold registerServiceLocked, rightly in *. rewrite Hname in *. wp_step. wp_step.
  rewrite bool_decide_eq_true_2 by done. wp_step. apply wpg_zoom.
  wp_use add_ok; [apply Hi|done|]. intros st w [Hw Ha]. unfold added in Ha.
  destruct (isOk st); cbn [negb]; wp_step.
  2: { split_and!; [by apply reliable_inv|apply steady_manager|done|done]. }
  destruct Ha as (Ho & Hl & Hnew). split_and!; [|apply steady_manager|done|done].
  apply (set_manager_inv stray); [done|done| |].
  - intros n [Hn'| ->]%Ho; [by apply (inv_cover _ _ Hi)|by left].
  - intros n e' He' HN Hr. destruct (decide (n = name)) as [->|Hne]; [by apply Hnew|].
    apply Hl; [done|done|]. by eapply inv_listed.
Qed.

Lemma register_new F stray s b name iso flags :
  inv stray s -> rightly name b -> reg s !! name = None ->
  wpg F (registerServiceLocked this b name iso flags) s (fun done s' =>
    inv (if done then stray else stray ∪ {[c_str name]}) s' /\
    mForcePersist s' = mForcePersist s /\ mActiveServicesCallback s' = mActiveServicesCallback s /\
    (whole s -> whole s')).
Proof.
  intros Hi Hb Hn. unfold registerServiceLocked, rightly in *. wp_step. wp_step.
  rewrite Hn, bool_decide_eq_false_2 by by intros []. wp_step. apply wpg_zoom.
  wp_use add_ok; [apply Hi|done|]. intros st w [Hw Ha]. unfold added in Ha.
  destruct (isOk st); cbn [negb].
  2: { wp_step. split_and!; [|done..]. apply (set_manager_inv stray); [done|done| |].
       - intros n Hn'. destruct (inv_cover _ _ Hi n); [by apply Ha|by left|right; set_solver].
       - intros n e' He' HN Hr. apply Ha; [done|]. by eapply inv_listed. }
  destruct Ha as (Ho & Hl & Hnew).
  assert (inv (stray ∪ {[c_str name]}) (set_manager w s)) as H1.
  { apply (set_manager_inv stray); [done|done| |].
    - intros n [Hn'| ->]%Ho; [|set_solver]. destruct (inv_cover _ _ Hi n); [done|by left|right; set_solver].
    - intros n e' He' HN Hr. destruct (inv_names _ _ Hi _ _ He') as [Hc' _].
      destruct (decide (n = c_str name)) as [->|Hne]; [by apply Hnew|].
      apply Hl; [done|done|]. by eapply inv_listed. }
  wp_step. apply wpg_zoom. wp_use callback_ok; [done|]. intros st' w' (Hw' & [Ho' Hl'] & Hreg).
  assert (inv (stray ∪ {[c_str name]}) (set_manager w' (set_manager w s))) as H2.
  { by apply reliable_inv. }
  destruct (isOk st'); cbn [negb]; [|by wp_step].
  destruct (Hreg eq_refl) as (x & Hx & _).
  assert (c_str name = name) as Hname.
  { apply valid_c_str. apply (inv_services _ (proj1 Hw') _ _ Hx). }
  rewrite Hname in *. wp_steps. split_and!; [|done|done|].
  - destruct H2 as [Hok Hcount Hnames Hcov Hlst]. simpl in *. split; simpl.
    + done.
    + rewrite count_insert by done. simpl. done.
    + intros n e [[<- <-]|[Hne He]]%lookup_insert_Some; [by split|by eapply Hnames].
    + intros n Hn'. destruct (decide (n = name)) as [->|Hne]; [left; by rewrite lookup_insert_eq|].
      rewrite lookup_insert_ne by done. destruct (Hcov n Hn') as [?|Hs]; [by left|right; set_solver].
    + intros n e [[<- <-]|[Hne He]]%lookup_insert_Some HN Hr; [by apply Hl', Hnew|by eapply Hlst].
  - intros Hwh. unfold whole. simpl. by apply map_Forall_insert_2.
Qed.

(** * Marking entries *)

Lemma alter_alike b n (m : gmap string LazyServices.Service) i :
  option_Forall2 alike (m !! i) (alter (set_registered b) n m !! i).
Proof.
  destruct (decide (i = n)) as [->|Hne]; [|by rewrite lookup_alter_ne].
  rewrite lookup_alter_eq. destruct (m !! n) as [[]|]; by constructor.
Qed.

Lemma mark_steady s b n :
  steady s (set_services (alter (set_registered b) n (reg s)) s).
Proof. split; try done. intros i. apply alter_alike. Qed.

Lemma mark_inv stray s b n :
  inv stray s -> (b = true -> N n -> lists (sm s) n) ->
  inv stray (set_services (alter (set_registered b) n (reg s)) s).
Proof.
  intros [Hok Hcount Hnames Hcov Hlst] Hb. split; simpl.
  - done.
  - by rewrite count_alter.
  - intros i e. destruct (decide (i = n)) as [->|Hne]; [|rewrite lookup_alter_ne by done; apply Hnames].
    rewrite lookup_alter_eq. destruct (reg s !! n) as [e0|] eqn:E; [|done]. intros [= <-]. simpl. eauto.
  - intros i Hi. destruct (Hcov i Hi) as [Hs|?]; [left|by right].
    destruct (decide (i = n)) as [->|Hne]; [rewrite lookup_alter_eq|by rewrite lookup_alter_ne].
    by destruct Hs as [e ->].
  - intros i e. destruct (decide (i = n)) as [->|Hne]; [|rewrite lookup_alter_ne by done; apply Hlst].
    rewrite lookup_alter_eq. destruct (reg s !! n) as [e0|] eqn:E; [|done]. intros [= <-] HN Hr. by apply Hb.
Qed.

Lemma steady_is_Some s s' n : steady s s' -> is_Some (reg s !! n) -> is_Some (reg s' !! n).
Proof. intros Hst [e He]. pose proof (st_entries _ _ Hst n) as H. rewrite He in H. inversion H; eauto. Qed.

Lemma steady_is_Some_back s s' n : steady s s' -> is_Some (reg s' !! n) -> is_Some (reg s !! n).
Proof. intros Hst [e He]. pose proof (st_entries _ _ Hst n) as H. rewrite He in H. inversion H; eauto. Qed.

(** * Withdrawing everything *)

Definition off s n : Prop := ~ ours (sm s) n /\ forall e, reg s !! n = Some e -> registered e = false.

Lemma try_unregister_in_ok F stray names s :
  inv stray s -> (forall n, n ∈ names -> is_Some (reg s !! n)) ->
  wpg F (try_unregister_in names) s (fun done s' =>
    inv stray s' /\ steady s s' /\ (forall n, off s n -> off s' n) /\
    (done = true -> forall n, n ∈ names -> off s' n)).
Proof.
  revert s. induction names as [|name names IH]; intros s Hi Hin; cbn [try_unregister_in].
  { wp_step. split_and!; [done|reflexivity|done|]. by intros _ n ?%elem_of_nil. }
  wp_step. wp_step. destruct (Hin name) as [e He]; [by left|]. rewrite He. wp_step. wp_step. wp_step.
  apply wpg_zoom. wp_use withdraw_ok; [apply Hi|]. intros st w [Hw Ha]. unfold withdrawn in Ha.
  destruct (isOk st); cbn [negb].
  2: { wp_step. split_and!; [by apply reliable_inv|apply steady_manager| |done].
       intros n [Hn Hr]. split; [|done]. intros Ho. by apply Hn, Ha. }
  destruct Ha as [Ho Hl]. unfold mod_entry. wp_step. wp_step.
  set (s1 := set_services _ _).
  assert (steady s s1) as Hst1.
  { etransitivity; [apply steady_manager|]. apply mark_steady. }
  assert (inv stray s1) as Hi1.
  { change (inv stray (set_manager w (set_services (alter (set_registered false) name (reg s)) s))).
    apply (set_manager_inv stray); [by apply mark_inv|done| |]; simpl.
    - intros i [Hi' Hne]%Ho. rewrite lookup_alter_ne by done. by apply (inv_cover _ _ Hi).
    - intros i e' He' HN Hr. destruct (decide (i = name)) as [->|Hne].
      { rewrite lookup_alter_eq, He in He'. by simplify_eq/=. }
      rewrite lookup_alter_ne in He' by done. apply Hl; [done|done|]. by eapply inv_listed. }
  assert (forall n, off s n -> off s1 n) as Hoff.
  { intros n [Hn Hr]. split; [by intros [? _]%Ho|]. intros e'. simpl.
    destruct (decide (n = name)) as [->|Hne]; [rewrite lookup_alter_eq, He; by intros [= <-]|].
    rewrite lookup_alter_ne by done. apply Hr. }
  assert (off s1 name) as Hname.
  { split; [by intros [_ ?]%Ho|]. intros e'. simpl. rewrite lookup_alter_eq, He. by intros [= <-]. }
  wp_use IH; [done|intros n Hn; eapply steady_is_Some; [exact Hst1|apply Hin; by right]|].
  intros b s' (Hi' & Hst' & Hoff' & Hall). split_and!; [done|by etransitivity|auto|].
  intros -> n [->|Hn]%elem_of_cons; auto.
Qed.

Lemma in_order_Some s n : n ∈ map fst (in_order (reg s)) -> is_Some (reg s !! n).
Proof. by rewrite elem_of_names. Qed.

Lemma tryUnregisterLocked_ok F stray s :
  inv stray s ->
  wpg F tryUnregisterLocked s (fun done s' =>
    inv stray s' /\ steady s s' /\
    (done = true -> clean stray s' /\ map_Forall (fun _ e => registered e = false) (reg s'))).
Proof.
  intros Hi. unfold tryUnregisterLocked. wp_step. wp_step.
  wp_use try_unregister_in_ok; [done|by apply in_order_Some|].
  intros b s' (Hi' & Hst & _ & Hall). split_and!; [done|done|]. intros Hb. specialize (Hall Hb). split.
  - intros n Hn. destruct (inv_cover _ _ Hi' n Hn) as [Hs|]; [|done].
    eapply steady_is_Some_back in Hs; [|done]. by destruct (Hall n) as [? _]; [apply elem_of_names|].
  - intros n e He. destruct (Hall n) as [_ H]; [|by apply H].
    apply elem_of_names. by eapply steady_is_Some_back.
Qed.

(** * Registering again *)

Lemma re_register_in_ok stray names s :
  inv stray s -> (forall n, n ∈ names -> is_Some (reg s !! n)) ->
  wsafe (re_register_in this names) s (fun _ s' =>
    inv stray s' /\ steady s s' /\
    (forall n e', reg s' !! n = Some e' -> registered e' = false -> reg s !! n = Some e' /\ n ∉ names)).
Proof.
  revert s. induction names as [|name names IH]; intros s Hi Hin; cbn [re_register_in].
  { wp_step. split_and!; [done|reflexivity|]. intros n e' He' _. split; [done|]. by intros ?%elem_of_nil. }
  wp_step. wp_step. destruct (Hin name) as [e He]; [by left|]. rewrite He. wp_step. wp_step.
  assert (forall n, n ∈ names -> is_Some (reg s !! n)) as Hin' by (intros; apply Hin; by right).
  destruct (registered e) eqn:Er.
  { wp_use IH; [done|done|]. intros _ s' (Hi' & Hst & Hall). split_and!; [done|done|].
    intros n e' He' Hr. destruct (Hall n e' He' Hr) as [Hs Hn]. split; [done|].
    intros [->|?]%elem_of_cons; [congruence|done]. }
  wp_step. wp_use register_again; [done| |by eexists|].
  { destruct (inv_names _ _ Hi _ _ He) as [Hc Hb]. unfold rightly. by rewrite Hc. }
  intros b s1 (Hi1 & Hst1 & Hreg1 & Hlist). destruct b; cbn [negb fatal_if]; [|done].
  unfold mod_entry. do 4 wp_step. set (s2 := set_services _ _).
  assert (inv stray s2) as Hi2 by by apply mark_inv; [|intros; apply Hlist].
  assert (steady s s2) as Hst2 by (etransitivity; [exact Hst1|apply mark_steady]).
  wp_use IH; [done|intros n Hn; eapply steady_is_Some; [exact Hst2|auto]|].
  intros _ s' (Hi' & Hst & Hall). split_and!; [done|by etransitivity|].
  intros n e' He' Hr. destruct (Hall n e' He' Hr) as [Hs Hn]. simpl in Hs. rewrite Hreg1 in Hs.
  destruct (decide (n = name)) as [->|Hne].
  { rewrite lookup_alter_eq, He in Hs. by simplify_eq/=. }
  rewrite lookup_alter_ne in Hs by done. split; [done|]. by intros [->|?]%elem_of_cons.
Qed.

Lemma reRegisterLocked_ok stray s :
  inv stray s -> wsafe (reRegisterLocked this) s (fun _ s' => inv stray s' /\ steady s s' /\ whole s').
Proof.
  intros Hi. unfold reRegisterLocked. wp_step. wp_step.
  wp_use re_register_in_ok; [done|by apply in_order_Some|].
  intros _ s' (Hi' & Hst & Hall). split_and!; [done|done|]. intros n e He.
  destruct (registered e) eqn:Er; [done|]. destruct (Hall n e He Er) as [Hs Hn]. destruct Hn.
  apply elem_of_names. by eexists.
Qed.

(** * The callback of the user *)

(** It ends the process only right after it has withdrawn every service. *)
Fixpoint polite (f : Script) : Prop :=
  match f with
  | Handled _ => True
  | CallTryUnregister next => polite (next false) /\ (next true = CallExit \/ polite (next true))
  | CallReRegister next => polite next
  | CallExit => False
  end.

Lemma run_callback_ok stray f s :
  inv stray s ->
  wsafe (run_callback this f) s (fun r s' =>
    inv stray s' /\ steady s s' /\ (f = CallExit -> s' = s) /\ (polite f -> r = None -> clean stray s')).
Proof.
  revert s. induction f as [b|next IH|next IH|]; intros s Hi; cbn [run_callback polite].
  - wp_step. split_and!; [done|reflexivity|done|done].
  - wp_step. unfold tryUnregister. wp_use tryUnregisterLocked_ok; [done|]. intros b s1 (Hi1 & Hst1 & Hall).
    wp_use IH; [done|]. intros r s' (Hi' & Hst' & He & Hp). split_and!; [done|by etransitivity|done|].
    intros [Hf Ht] ->. destruct b; [|by apply Hp]. destruct Ht as [E|Ht]; [|by apply Hp].
    rewrite (He E). by apply Hall.
  - wp_step. unfold reRegister. wp_use reRegisterLocked_ok; [done|]. intros _ s1 (Hi1 & Hst1 & _).
    wp_use IH; [done|]. intros r s' (Hi' & Hst' & _ & Hp). split_and!; [done|by etransitivity|done|done].
  - wp_step. split_and!; [done|reflexivity|done|done].
Qed.

(** What holds when the process has ended, and what when it goes on. *)
Definition ended (stray : gset string) (by_callback : bool) s : Prop :=
  clean stray s /\
  (by_callback = false -> mForcePersist s = false /\
    map_Forall (fun _ e => clients e = false /\ registered e = false) (reg s)).
Definition polite_callback (o : option ActiveServicesCallback) : Prop :=
  match o with Some f => forall b, polite (f b) | None => True end.

Lemma ask_callback_ok stray s :
  inv stray s ->
  wsafe (ask_callback this) s (fun r s' =>
    inv stray s' /\ mForcePersist s' = mForcePersist s /\ mActiveServicesCallback s' = mActiveServicesCallback s /\
    (mActiveServicesCallback s = None -> s' = s) /\
    (polite_callback (mActiveServicesCallback s) -> r = None -> clean stray s')).
Proof.
  intros Hi. unfold ask_callback. wp_step. wp_step.
  destruct (mActiveServicesCallback s) as [f|] eqn:Ef; [|by wp_step].
  do 4 wp_step. cbv zeta. case_bool_decide; [by wp_step|]. wp_step.
  wp_use run_callback_ok; [done|]. intros r s1 (Hi1 & Hst1 & _ & Hp). destruct Hst1.
  destruct r as [b|].
  - do 3 wp_step. split_and!; simpl; try congruence. destruct Hi1. by split.
  - wp_step. split_and!; try congruence. intros Hpol _. by apply Hp.
Qed.

Lemma maybeTryShutdownLocked_ok stray s :
  inv stray s ->
  wsafe (maybeTryShutdownLocked this) s (fun l s' =>
    match l with
    | Running => inv stray s' /\ mActiveServicesCallback s' = mActiveServicesCallback s /\
        (mActiveServicesCallback s = None -> whole s -> whole s')
    | Exited by_callback =>
        polite_callback (mActiveServicesCallback s) -> ended stray by_callback s'
    end).
Proof.
  intros Hi. unfold maybeTryShutdownLocked. wp_step. wp_step.
  destruct (mForcePersist s) eqn:Ep; [by wp_step|]. wp_step.
  wp_use ask_callback_ok; [done|]. intros r s1 (Hi1 & Hp1 & Hc1 & Hsame & Hclean).
  destruct r as [b|].
  2: { wp_step. intros Hpol. split; [by apply Hclean|done]. }
  wp_step. wp_step. destruct (negb b && (mNumConnectedServices s1 =? 0)) eqn:E.
  2: { wp_step. split_and!; [done|done|]. intros Hn. by rewrite (Hsame Hn). }
  unfold tryShutdownLocked. wp_step. wp_use tryUnregisterLocked_ok; [done|].
  intros all s2 (Hi2 & Hst2 & Hall). destruct all.
  - wp_step. intros _. destruct (Hall eq_refl) as [Hc Hr]. split; [done|]. intros _.
    split; [by rewrite (st_persist _ _ Hst2), Hp1|].
    assert (count_clients (reg s2) = 0) as Hz%count_zero.
    { rewrite <- (inv_count _ _ Hi2), (st_num _ _ Hst2). zb. done. }
    intros n e He. split; [by eapply Hz|by eapply Hr].
  - wp_step. wp_use reRegisterLocked_ok; [done|]. intros _ s3 (Hi3 & Hst3 & Hw). wp_step.
    split_and!; [done|by rewrite (st_callback _ _ Hst3), (st_callback _ _ Hst2)|done].
Qed.

(** * The calls of the process *)

Definition proper (c : Call) : Prop :=
  match c with RegisterService b name _ _ => rightly name b | _ => True end.
Definition after (c : Call) (done : bool) (stray : gset string) : gset string :=
  match c with
  | RegisterService _ name _ _ => if done then stray else stray ∪ {[c_str name]}
  | _ => stray
  end.

Lemma stray_mono stray stray' s : stray ⊆ stray' -> inv stray s -> inv stray' s.
Proof. intros Hs []. split; try done. intros n Hn. destruct (inv_cover0 n Hn); [by left|right; set_solver]. Qed.

Lemma registerService_ok F stray s b name iso flags :
  inv stray s -> rightly name b ->
  wpg F (registrar_registerService this b name iso flags) s (fun st s' =>
    inv (if st =? OK then stray else stray ∪ {[c_str name]}) s' /\ (whole s -> whole s')).
Proof.
  intros Hi Hb. unfold registrar_registerService, registerService. wp_step.
  destruct (reg s !! name) as [e|] eqn:E.
  - wp_use register_again; [done|done|by eexists|]. intros done s' (Hi' & _ & Hreg & _). wp_step.
    split; [|unfold whole; by rewrite Hreg]. destruct done; [done|]. eapply stray_mono; [|done]. simpl. set_solver.
  - wp_use register_new; [done|done|done|]. intros done s' (Hi' & _ & _ & Hw). wp_step.
    split; [|done]. by destruct done.
Qed.

Lemma onClients_ok stray s b has :
  inv stray s ->
  wsafe (onClients this b has) s (fun l s' =>
    match l with
    | Running => inv stray s' /\ (mActiveServicesCallback s = None -> whole s -> whole s')
    | Exited by_callback =>
        polite_callback (mActiveServicesCallback s) -> ended stray by_callback s'
    end).
Proof.
  intros Hi. unfold onClients, assertRegisteredService. do 2 wp_step.
  case_bool_decide; cbn [negb fatal_if]; [|done]. wp_step. wp_step. wp_step.
  destruct (find_service b (in_order (reg s))) as [[n e]|] eqn:Ef; [|done]. wp_step. wp_step.
  destruct (Bool.eqb _ _); [done|]. unfold mod_entry. cbn [fatal_if fst]. do 5 wp_step.
  apply find_some in Ef as [Hin _]. apply list_elem_of_In, elem_of_in_order in Hin.
  set (s1 := set_num _ _). assert (inv stray s1) as Hi1.
  { destruct Hi as [Hok Hcount Hnames Hcov Hlst]. split; simpl; [done|done| |by intros i Hi; rewrite lookup_alter_is_Some; auto|].
    - intros i e'. destruct (decide (i = n)) as [->|Hne]; [|rewrite lookup_alter_ne by done; apply Hnames].
      rewrite lookup_alter_eq, Hin. intros [= <-]. simpl. eauto.
    - intros i e'. destruct (decide (i = n)) as [->|Hne]; [|rewrite lookup_alter_ne by done; apply Hlst].
      rewrite lookup_alter_eq, Hin. intros [= <-]. simpl. eauto. }
  wp_use maybeTryShutdownLocked_ok; [done|]. intros [|by_cb] s' H1; [|done].
  destruct H1 as (Hi' & _ & Hw). split; [done|]. intros Hn Hwh. apply Hw; [done|].
  intros i e' He'. simpl in He'. destruct (decide (i = n)) as [->|Hne].
  - rewrite lookup_alter_eq, Hin in He'. simplify_eq/=. by eapply Hwh.
  - rewrite lookup_alter_ne in He' by done. by eapply Hwh.
Qed.

Lemma run_call_ok stray s c :
  inv stray s -> proper c ->
  wsafe (run_call this c) s (fun r s' =>
    match fst r with
    | Running => inv (after c (snd r) stray) s' /\
        (mActiveServicesCallback s = None -> c <> TryUnregister -> whole s -> whole s')
    | Exited by_callback =>
        polite_callback (mActiveServicesCallback s) -> ended stray by_callback s'
    end).
Proof.
  intros Hi Hc. destruct c as [b name iso flags|persist|f|b has| |]; cbn [run_call after proper] in *; wp_step.
  - wp_use registerService_ok; [done|done|]. intros st s' [Hi' Hw]. by wp_step.
  - unfold forcePersist. wp_step. wp_step.
    assert (inv stray (set_persist persist s)) as Hi1 by (destruct Hi; by split).
    destruct persist; cbn [negb]; [by do 2 wp_step|].
    wp_use maybeTryShutdownLocked_ok; [done|]. intros l s' H. wp_step. simpl. destruct l; [|done].
    destruct H as (Hi' & _ & Hw). split; [done|]. intros Hn _ Hwh. by apply Hw.
  - unfold setActiveServicesCallback. do 2 wp_step. split; [destruct Hi; by split|done].
  - wp_use onClients_ok; [done|]. intros l s' H. wp_step. simpl. destruct l; [|done].
    destruct H as [Hi' Hw]. split; [done|]. intros Hn _. by apply Hw.
  - unfold tryUnregister. wp_use tryUnregisterLocked_ok; [done|]. intros b s' (Hi' & _ & _). by wp_step.
  - unfold reRegister. wp_use reRegisterLocked_ok; [done|]. intros _ s' (Hi' & _ & Hw). by wp_step.
Qed.

(** * The theorems *)

(** A process that starts with nothing in the registry, and its calls; what
    strays is recorded.  Other processes run on in the turns of its manager. *)
Inductive process : gset string -> Impl Shared -> Prop :=
| process_start w : ok w -> (forall n, ~ ours (sh_sm w) n) -> process ∅ (ClientCounterCallbackImpl w)
| process_step stray s c done s' :
    process stray s -> proper c -> run_call this c s = Ret (Running, done) s' ->
    process (after c done stray) s'.

Lemma process_inv stray s : process stray s -> inv stray s.
Proof.
  induction 1 as [w Hw Hn|stray s c done s' _ Hi Hc E].
  - split; simpl; [done| |done|by intros n ?%Hn|done]. symmetry. apply count_zero, map_Forall_empty.
  - pose proof (run_call_ok stray s c Hi Hc) as H. unfold wpg in H. rewrite E in H. by destruct H.
Qed.

(** C36: when a process of lazy services exits, none of its services is left in
    the service manager's registry.  For every history of a process that
    registers services, hears of clients, persists and lets go, with any active
    services callback, beside other processes that send the manager anything:
    no call has undefined behaviour, and if the next one ends the process, the
    registry has no service of this process any more (but for names whose
    registration was reported as failed); unless the callback itself called exit,
    [forcePersist] was off, no service had a client that the process knew of, and
    all had been withdrawn.  The callback is assumed to call exit only after a
    [tryUnregister] that returned true. *)
Theorem lazy_exit_is_clean (stray : gset string) (s : Impl Shared) (c : Call) :
  process stray s -> proper c -> polite_callback (mActiveServicesCallback s) ->
  wsafe (run_call this c) s (fun r s' => forall by_callback, fst r = Exited by_callback ->
    (forall n x, mNameToService (sm s') !! n = Some x -> s_debugPid x = c_pid who -> n ∈ stray) /\
    (by_callback = false -> mForcePersist s' = false /\
      map_Forall (fun _ e => clients e = false /\ registered e = false) (reg s'))).
Proof.
  intros Hs Hc Hp. wp_use run_call_ok; [by apply process_inv|done|]. intros [l done] s' H by_cb E. simpl in *. subst l.
  destruct (H Hp) as [Hcl Hrest]. split; [|naive_solver]. intros n x Hx Hpid. apply Hcl. by exists x.
Qed.

End Process.

(** * Concrete runs of a process with lazy services beside the service manager *)

Module LazySample.
(** SELinux that allows everything. *)
#[export] Instance access : Access :=
  SELinuxAccess.access (fun _ => Some "u:r:server:s0"%string) "u:r:servicemanager:s0"
    (fun _ => Some "u:object_r:service:s0"%string) (fun _ _ _ _ => 0).
#[export] Instance platform : Platform := SmSample.android.
#[export] Instance hal : HalManifest (list AidlName) := SmSample.listed.

(** The process is 100; its callback object is 9; 200 is a client. *)
Definition who : Caller := mkCaller None 100 1000.
Definition client : Caller := mkCaller None 200 1000.
(** Every binder is a proxy with [n] strong references in the driver: one is the
    manager's, and a transaction adds one. *)
Definition counted (n : Z) : Kernel := mkKernel (fun _ => true) (fun _ => OK) (fun _ => n) (fun _ => SYSTEM).
Definition timer (n : Z) : Message := (counted n, client, HandleClientCallbacks).
Definition idle : Kernel := counted 2.
Abbreviation run := (@run_call Shared (world [] who idle) 9).

Definition start (ts : list Turn) : Impl Shared := ClientCounterCallbackImpl (mkShared ServiceManager ts).
(** Calls in a row; what the last one returned. *)
Fixpoint calls (cs : list Call) (s : Impl Shared) : outcome (Impl Shared) (life * bool) :=
  match cs with
  | [] => Ret (Running, true) s
  | [c] => run c s
  | c :: cs => match run c s with Ret _ s' => calls cs s' | Fatal => Fatal | Fault => Fault end
  end.
Definition state (o : outcome (Impl Shared) (life * bool)) : Impl Shared :=
  match o with Ret _ s => s | _ => start [] end.
(** What the timer of the manager sends to the process. *)
Definition told (n : Z) (s : Impl Shared) : list Event :=
  match serve [] [timer n] (put_log [] (sh_sm (mManager s))) with Ret _ m => sm_log m | _ => [] end.

Definition clock : Call := RegisterService (Some 7) "clock" false 1.
Definition alarm : Call := RegisterService (Some 8) "alarm" false 1.
End LazySample.
Import LazySample.

Definition one_service : Impl Shared := state (calls [clock] (start [])).

Lemma registered_process N b :
  (N "clock"%string -> b "clock"%string = 7) -> process [] who 9 idle N b ∅ one_service.
Proof.
  intros Hb. apply (process_step [] who 9 idle _ _ ∅ (start []) clock true).
  - apply process_start; [split; [by split; apply map_Forall_empty|constructor]|]. by intros n (x & Hx & _).
  - intros Hn. change (Some 7 = Some (b "clock"%string)). by rewrite Hb.
  - vm_compute. reflexivity.
Qed.

Lemma letting_go_exits : exists s', run (ForcePersist false) one_service = Ret (Exited false, true) s'.
Proof. eexists. vm_compute. reflexivity. Qed.

(** Nothing is left of a process that lets go of its only service. *)
Lemma lazy_exit_is_clean_witness :
  exists s', run (ForcePersist false) one_service = Ret (Exited false, true) s' /\
    forall n x, mNameToService (sh_sm (mManager s')) !! n = Some x -> s_debugPid x = 100 -> n ∈ (∅ : gset string).
Proof.
  destruct letting_go_exits as [s' E]. exists s'. split; [exact E|].
  pose proof (lazy_exit_is_clean [] who 9 idle eq_refl (fun _ => False) (fun _ => 0) ∅ one_service
    (ForcePersist false) (registered_process (fun _ => False) (fun _ => 0) (False_ind _)) I I) as H.
  unfold wpg in H. rewrite E in H. exact (proj1 (H false eq_refl)).
Defined.

(** The client of a service that was registered finds it. *)
Lemma asking_again_runs : exists s', run ReRegister one_service = Ret (Running, true) s' /\
  exists e, mRegisteredServices s' !! "clock" = Some e /\ registered e = true.
Proof. eexists. split; [vm_compute; reflexivity|]. eexists. split; vm_compute; reflexivity. Qed.


(** * Where it falls short *)

(** One binder under two names: the manager tells of it once for each name, and
    the registrar takes both for the first. *)
Lemma same_binder_twice_aborts :
  let s := state (calls [clock; RegisterService (Some 7) "watch" false 1] (start [])) in
  told 3 s = [ServiceManager.OnClients 9 (Some 7) true; ServiceManager.OnClients 9 (Some 7) true] /\
  calls [OnClients (Some 7) true; OnClients (Some 7) true] s = Fatal.
Proof. split; vm_compute; reflexivity. Qed.

(** A name registered again with another binder: the manager tells of the new
    binder, which the registrar has not kept. *)
Lemma replaced_binder_aborts :
  let s := state (calls [clock; RegisterService (Some 8) "clock" false 1] (start [])) in
  told 3 s = [ServiceManager.OnClients 9 (Some 8) true] /\
  run (OnClients (Some 8) true) s = Fatal.
Proof. split; vm_compute; reflexivity. Qed.

(** A shutdown while a notification is on its way: the client has gone when the
    service is withdrawn, the other service is in use, the service is registered
    again; the manager has forgotten that it told of a client, tells of the next
    one, and the registrar aborts. *)

Definition shutdown_turns : list Turn :=
  [ mkTurn [] idle true; mkTurn [] idle true; mkTurn [] idle true; mkTurn [] idle true;
    mkTurn [(counted 1, client, HandleClientCallbacks); timer 3] idle true;
    mkTurn [(idle, client, GetService "clock")] idle true ].
Definition after_shutdown : Impl Shared := state (calls [alarm; clock; ForcePersist false] (start shutdown_turns)).
Lemma late_notification_aborts :
  sm_log (sh_sm (mManager after_shutdown)) =
    [ServiceManager.OnClients 9 (Some 8) true; ServiceManager.OnClients 9 (Some 7) true] /\
  told 3 after_shutdown = [ServiceManager.OnClients 9 (Some 8) true] /\
  calls [OnClients (Some 8) true; OnClients (Some 7) true; OnClients (Some 8) true] after_shutdown = Fatal.
Proof. split_and!; vm_compute; reflexivity. Qed.

(** A registration that fails at the client callback leaves the service in the
    registry, where no shutdown looks for it. *)
Definition deaf : Kernel := mkKernel (fun b => negb (b =? 9)) (fun b => if b =? 9 then DEAD_OBJECT else OK) (fun _ => 2)
  (fun _ => SYSTEM).
Lemma failed_registration_stays :
  let s := start [mkTurn [] idle true; mkTurn [] deaf true] in
  exists s', run clock s = Ret (Running, false) s' /\
    mRegisteredServices s' !! "clock" = None /\
    (exists x, mNameToService (sh_sm (mManager s')) !! "clock" = Some x /\ s_debugPid x = 100) /\
    exists s'', run (ForcePersist false) s' = Ret (Exited false, true) s'' /\
      exists x, mNameToService (sh_sm (mManager s'')) !! "clock" = Some x.
Proof.
  eexists. split; [vm_compute; reflexivity|]. split; [vm_compute; reflexivity|].
  split; [eexists; split; vm_compute; reflexivity|].
  eexists. split; [vm_compute; reflexivity|]. eexists. vm_compute. reflexivity.
Qed.
