(* ===== verification/ServiceClient.v ===== *)
(** The client library of the service manager: src/libs/binder/IServiceManager.cpp.

    [ServiceManagerShim] gives the old interface, in UTF-16, over the generated
    proxy ([AidlServiceManager]); below it are the process's default manager and
    [checkPermission].  Callbacks, waiters and binders are identities in [Z]; a
    new object takes the next one.  Time, the callbacks that arrive while a thread
    waits, the context object and the permission controllers are the environment
    (a class each); the conversions of libutils are [StringConversions].
    The build is the one without [__ANDROID__]. *)

From stdpp Require Import strings gmap.
From S2P Require Import Prelude Errors ParcelState ParcelInv BinderStatus ServiceManager ManagerClient.

(** [String8(name).string()] and [String16(name)]. *)
Class StringConversions := {
  String8 : list Z -> string;
  String16 : string -> list Z;
}.

(** Time. *)
Class Clock (W : Type) := {
  uptimeMillis : M W Z;
  usleep : Z -> M W unit;
}.
(** [mCv.wait_for] of a waiter for one second, and its [mBinder] afterwards. *)
Class Waiting (W : Type) := { wait_one_second : Z -> M W (option Z) }.
(** [ProcessState::getContextObject]. *)
Class ContextObject (W : Type) := { getContextObject : M W (option Z) }.
(** The proxies of permission controllers. *)
Class PermissionControllers (W : Type) := {
  controller_checkPermission : Z -> list Z -> Z -> Z -> M W bool;
  isBinderAlive : Z -> M W bool;
}.

(** * State

    The first field is the shim's, the next three are statics of the file. *)

Record Client (W : Type) := mkClient {
  mNameToRegistrationCallback : gmap string (list (Z * Z));
  gSystemBootCompleted : bool;
  gDefaultServiceManager : option (option Z);
  gPermissionController : option Z;
  next_object : Z;
  mTheRealServiceManager : W;
}.
Arguments mkClient {W}.
Arguments mNameToRegistrationCallback {W}.
Arguments gSystemBootCompleted {W}.
Arguments gDefaultServiceManager {W}.
Arguments gPermissionController {W}.
Arguments next_object {W}.
Arguments mTheRealServiceManager {W}.

Section Client.
Context {W : Type}.
Implicit Types s : Client W.

Definition set_callbacks m s : Client W :=
  mkClient m (gSystemBootCompleted s) (gDefaultServiceManager s) (gPermissionController s) (next_object s) (mTheRealServiceManager s).
Definition set_booted b s : Client W :=
  mkClient (mNameToRegistrationCallback s) b (gDefaultServiceManager s) (gPermissionController s) (next_object s) (mTheRealServiceManager s).
Definition set_default g s : Client W :=
  mkClient (mNameToRegistrationCallback s) (gSystemBootCompleted s) g (gPermissionController s) (next_object s) (mTheRealServiceManager s).
Definition set_controller c s : Client W :=
  mkClient (mNameToRegistrationCallback s) (gSystemBootCompleted s) (gDefaultServiceManager s) c (next_object s) (mTheRealServiceManager s).
Definition set_next n s : Client W :=
  mkClient (mNameToRegistrationCallback s) (gSystemBootCompleted s) (gDefaultServiceManager s) (gPermissionController s) n (mTheRealServiceManager s).
Definition set_world w s : Client W :=
  mkClient (mNameToRegistrationCallback s) (gSystemBootCompleted s) (gDefaultServiceManager s) (gPermissionController s) (next_object s) w.

Definition world {A} : M W A -> M (Client W) A := zoom mTheRealServiceManager set_world.
Definition make : M (Client W) Z :=
  let* n := gets next_object in modify (set_next (n + 1)) ;; ret n.

Context `{!AidlServiceManager W} {strings : StringConversions}.
(** [ProcessState::self()->getDriverName()] is "/dev/vndbinder". *)
Context (isVendorService : bool).

(** * The default service manager

    [Some sm] is the state of [gSmOnce] after its call. *)

Fixpoint await_context_object `{!ContextObject W} `{!Clock W} (fuel : nat) : M (Client W) Z :=
  match fuel with
  | O => fatal
  | S fuel =>
      let* sm := world getContextObject in
      match sm with
      | Some sm => ret sm
      | None => world (usleep 1000000) ;; await_context_object fuel
      end
  end.

Definition defaultServiceManager `{!ContextObject W} `{!Clock W} (fuel : nat) : M (Client W) (option Z) :=
  let* once := gets gDefaultServiceManager in
  match once with
  | Some sm => ret sm
  | None =>
      let* sm := await_context_object fuel in
      modify (set_default (Some (Some sm))) ;; ret (Some sm)
  end.

Definition setDefaultServiceManager (sm : option Z) : M (Client W) unit :=
  let* once := gets gDefaultServiceManager in
  match once with
  | None => modify (set_default (Some sm))
  | Some _ => fatal
  end.

(** * Looking services up *)

Definition checkService (name : list Z) : M (Client W) (option Z) :=
  let* r := world (am_checkService (c_str (String8 name))) in
  ret (if isOk (fst r) then snd r else None).

Definition timeout : Z := 5000.

Fixpoint poll_service `{!Clock W} (fuel : nat) (name : list Z) (startTime sleepTime : Z) : M (Client W) (option Z) :=
  match fuel with
  | O => fault
  | S fuel =>
      let* now := world uptimeMillis in
      if negb (now - startTime <? timeout) then ret None else
      world (usleep (1000 * sleepTime)) ;;
      let* svc := checkService name in
      match svc with
      | Some svc => ret (Some svc)
      | None => poll_service fuel name startTime sleepTime
      end
  end.

Definition getService `{!Clock W} (fuel : nat) (name : list Z) : M (Client W) (option Z) :=
  let* svc := checkService name in
  match svc with
  | Some svc => ret (Some svc)
  | None =>
      let* startTime := world uptimeMillis in
      let* booted := gets gSystemBootCompleted in
      (if negb booted && negb isVendorService then modify (set_booted true) else ret tt) ;;
      let* booted := gets gSystemBootCompleted in
      let sleepTime := if booted then 1000 else 100 in
      poll_service fuel name startTime sleepTime
  end.

Definition realGetService (name : string) : M (Client W) (Status * option Z) := world (am_getService name).

Fixpoint wait_loop `{!Waiting W} (fuel : nat) (name : string) (waiter : Z) : M (Client W) (option Z) :=
  match fuel with
  | O => fatal
  | S fuel =>
      let* mBinder := world (wait_one_second waiter) in
      match mBinder with
      | Some b => ret (Some b)
      | None =>
          let* r := realGetService name in
          if negb (isOk (fst r)) then ret None else
          match snd r with
          | Some out => ret (Some out)
          | None => wait_loop fuel name waiter
          end
      end
  end.

(** [Defer] unregisters on every way out of the loop. *)
Definition waitForService `{!Waiting W} (fuel : nat) (name16 : list Z) : M (Client W) (option Z) :=
  let name := c_str (String8 name16) in
  let* r := realGetService name in
  if negb (isOk (fst r)) then ret None else
  match snd r with
  | Some out => ret (Some out)
  | None =>
      let* waiter := make in
      let* status := world (am_registerForNotifications name (Some waiter)) in
      if negb (isOk status) then ret None else
      let* out := wait_loop fuel name waiter in
      world (am_unregisterForNotifications name (Some waiter)) ;;
      ret out
  end.

(** * Calls that only translate *)

Definition addService (name : list Z) (service : option Z) (allowIsolated : bool)
    (dumpsysPriority : Z) : M (Client W) Z :=
  let* status := world (am_addService (c_str (String8 name)) service allowIsolated dumpsysPriority) in
  ret (exceptionCode status).

Definition listServices (dumpsysPriority : Z) : M (Client W) (list (list Z)) :=
  let* r := world (am_listServices dumpsysPriority) in
  ret (if isOk (fst r) then map (fun name => String16 (c_str name)) (snd r) else []).

(** [None]: the variable [declared] is returned unset. *)
Definition isDeclared (name : list Z) : M (Client W) (option bool) :=
  let* r := world (am_isDeclared (c_str (String8 name))) in
  ret (if isOk (fst r) then snd r else Some false).

Definition getDeclaredInstances (interface : list Z) : M (Client W) (list (list Z)) :=
  let* r := world (am_getDeclaredInstances (c_str (String8 interface))) in
  ret (if isOk (fst r) then map (fun i => String16 (c_str i)) (snd r) else []).

Definition updatableViaApex (name : list Z) : M (Client W) (option (list Z)) :=
  let* r := world (am_updatableViaApex (c_str (String8 name))) in
  ret (if isOk (fst r) then (fun d => String16 (c_str d)) <$> snd r else None).

(** What a failed call leaves in [connectionInfo] is returned too. *)
Definition getConnectionInfo (name : list Z) : M (Client W) (option ConnectionInfo) :=
  let* r := world (am_getConnectionInfo (c_str (String8 name))) in
  ret ((fun i => mkConnectionInfo (ipAddress i) (u32 (port i))) <$> snd r).

Definition getServiceDebugInfo : M (Client W) (list (string * Z)) :=
  let* r := world am_getServiceDebugInfo in
  ret (if isOk (fst r) then snd r else []).

(** * Notifications *)

Definition registerForNotifications (name : list Z) (cb : option Z) : M (Client W) status_t :=
  match cb with
  | None => ret BAD_VALUE
  | Some cb =>
      let nameStr := c_str (String8 name) in
      let* registrationWaiter := make in
      let* status := world (am_registerForNotifications nameStr (Some registrationWaiter)) in
      if negb (isOk status) then ret UNKNOWN_ERROR else
      modify (fun s => set_callbacks
        (<[nameStr := default [] (mNameToRegistrationCallback s !! nameStr) ++ [(cb, registrationWaiter)]]>
           (mNameToRegistrationCallback s)) s) ;;
      ret OK
  end.

(** The pairs of [cb] are erased; [waiter] is that of the last one. *)
Fixpoint erase_callbacks (cb : Z) (l : list (Z * Z)) (waiter : option Z) : list (Z * Z) * option Z :=
  match l with
  | [] => ([], waiter)
  | (first, second) :: l =>
      if first =? cb then erase_callbacks cb l (Some second)
      else let '(rest, waiter) := erase_callbacks cb l waiter in ((first, second) :: rest, waiter)
  end.

Definition removeRegistrationCallbackLocked (cb : Z) (nameStr : string) : M (Client W) (option Z) :=
  let* m := gets mNameToRegistrationCallback in
  let* l := require (m !! nameStr) in
  let '(rest, waiter) := erase_callbacks cb l None in
  (if bool_decide (rest = []) then modify (set_callbacks (delete nameStr m))
   else modify (set_callbacks (<[nameStr := rest]> m))) ;;
  ret waiter.

Definition unregisterForNotifications (name : list Z) (cb : option Z) : M (Client W) status_t :=
  match cb with
  | None => ret BAD_VALUE
  | Some cb =>
      let nameStr := c_str (String8 name) in
      let* m := gets mNameToRegistrationCallback in
      match m !! nameStr with
      | None => ret BAD_VALUE
      | Some _ =>
          let* registrationWaiter := removeRegistrationCallbackLocked cb nameStr in
          match registrationWaiter with
          | None => ret BAD_VALUE
          | Some waiter =>
              let* status := world (am_unregisterForNotifications nameStr (Some waiter)) in
              ret (if isOk status then OK else UNKNOWN_ERROR)
          end
      end
  end.

(** * Permissions *)

(** [pc] is the local copy of the controller. *)
Fixpoint check_permission `{!Clock W} `{!PermissionControllers W} (fuel : nat) (permission : list Z) (pid uid : Z) (pc : option Z) : M (Client W) bool :=
  match fuel with
  | O => fatal
  | S fuel =>
      let look_up : M (Client W) bool :=
        let* binder := checkService (String16 "permission") in
        match binder with
        | None => world (usleep 1000000) ;; check_permission fuel permission pid uid pc
        | Some b => modify (set_controller (Some b)) ;; check_permission fuel permission pid uid (Some b)
        end in
      match pc with
      | None => look_up
      | Some p =>
          let* res := world (controller_checkPermission p permission pid uid) in
          if res then ret true else
          let* alive := world (isBinderAlive p) in
          if alive then ret false else
          let* g := gets gPermissionController in
          (if bool_decide (g = Some p) then modify (set_controller None) else ret tt) ;;
          look_up
      end
  end.

Definition checkPermission `{!Clock W} `{!PermissionControllers W} (fuel : nat) (permission : list Z) (pid uid : Z) : M (Client W) bool :=
  let* pc := gets gPermissionController in
  check_permission fuel permission pid uid pc.
End Client.
