(* ===== verification/ServiceClientProps.v ===== *)
(** The client library of ServiceClient.v over the manager of ServiceManager.v:
    waiting for a service beside other processes that send the manager what they
    like.

    [waitForService] leaves no listener behind and returns only binders that were
    registered under the name; and it does return once the name is registered,
    whether or not the notification of it arrives.  A callback that is registered
    and unregistered leaves nothing behind either; [getService] gives up after five
    seconds; [checkPermission] refuses only on the word of a live controller. *)

From S2P Require Import LazyServices LazyServicesProps Stability.
From stdpp Require Import strings gmap.
From S2P Require Import Prelude Errors ParcelState ParcelInv BinderStatus ServiceManager ServiceManagerProps ManagerClient ServiceClient.

Section Waiting.
Context {acc : Access} {plat : Platform}.
Context {mf : Type} {hal : HalManifest mf} (manifests : list (option mf)).
Context (who : Caller) (k0 : Kernel) {strings : StringConversions}.
#[local] Instance shared : AidlServiceManager Shared := shared_manager manifests who k0.
#[local] Instance heard_turns : Waiting Shared := {| wait_one_second := wait_turn manifests k0 |}.

(** The name waited for, the waiter that is made for it, and the binders that
    others may register under the name. *)
Context (name : string) (waiter : Z) (Good : Z -> Prop).

(** Others do not have the waiter. *)
Definition waiter_fresh (m : Message) : Prop :=
  let '(_, _, r) := m in
  (forall n, r <> RegisterForNotifications n (Some waiter)) /\
  (forall b iso prio, r = AddService name (Some b) iso prio -> Good b).

(** [on]: the waiter may be listening. *)
Record sound (on : Prop) (m : SM) : Prop := {
  sound_services : forall x b, mNameToService m !! name = Some x -> s_binder x = Some b -> Good b;
  sound_log : forall n b, OnRegistration waiter n b ∈ sm_log m -> Good b;
  sound_listeners : forall n, waiter ∈ listeners m n -> on /\ n = name;
}.
Definition still_sound (m m' : SM) : Prop := forall on, sound on m -> sound on m'.
#[local] Instance still_sound_preorder : PreOrder still_sound.
Proof. split; unfold still_sound; auto. Qed.

Lemma changes_sound (on on' : Prop) who' r m m' :
  changes who' r m m' -> notes r m m' -> (on -> on') ->
  (forall n, r = RegisterForNotifications n (Some waiter) -> on' /\ n = name) ->
  (forall b iso prio, r = AddService name (Some b) iso prio -> Good b) -> sound on m -> sound on' m'.
Proof.
  intros Hc [Hl Hlog] Hon Hr Ha [H1 H2 H3].
  assert (forall x b, mNameToService m' !! name = Some x -> s_binder x = Some b -> Good b) as Hs.
  { intros x b Hx Hb. specialize (Hc name). rewrite Hx in Hc.
    inversion Hc as [|x0 ? Hsame E|? ? b' iso prio E| |]; subst.
    - eapply H1; [done|]. destruct Hsame as [<- _]. done.
    - rewrite Hb in *. by eapply Ha. }
  assert (forall n, waiter ∈ listeners m' n -> on' /\ n = name) as Hn.
  { intros n Hin. destruct (Hl n waiter Hin) as [Hw|E]; [destruct (H3 _ Hw); auto|by apply Hr]. }
  split; [done| |done].
  intros n b Hin. destruct (Hlog _ _ _ Hin) as [?|(Hw & x & Hx & Hb)]; [by eapply H2|].
  apply Hn in Hw as [_ ->]. by eapply Hs.
Qed.

Lemma others_sound k c r m u m' :
  waiter_fresh (k, c, r) -> handle manifests k c r m = Ret u m' -> still_sound m m'.
Proof.
  intros [Hr Ha] E on. eapply changes_sound; [by eapply handle_changes|by eapply handle_notes|done| |done].
  intros n Hn. by edestruct Hr.
Qed.

Lemma keeps_quiet_sound on m m' : keeps m m' -> quiet m m' -> sound on m -> sound on m'.
Proof.
  intros Hk Hq. apply (changes_sound on on who GetServiceDebugInfo);
    [by apply keeps_changes|by apply quiet_notes|done|done|done].
Qed.

Lemma sound_mono (on on' : Prop) m : (on -> on') -> sound on m -> sound on' m.
Proof. intros Hon []. split; [done|done|]. intros n Hn. destruct (sound_listeners0 n Hn). auto. Qed.

(** * The calls of a waiting thread *)

Definition fine (on : Prop) (w : Shared) : Prop := shared_ok waiter_fresh w /\ sound on (sh_sm w).

Lemma fine_turn F {A} (on : Prop) (call : Kernel -> M SM A) w (Q : A -> SM -> Prop) :
  fine on w ->
  (forall k m, sm_inv m -> wpg F (call k) m (fun _ => sm_inv)) ->
  (forall k m, sound on m -> wpp (call k) m Q) ->
  wpg F (my_turn manifests k0 call) w (fun a w' => shared_ok waiter_fresh w' /\ Q a (sh_sm w')).
Proof.
  intros [Hw Hs] Hinv Hcall. apply (my_turn_ok manifests k0 waiter_fresh still_sound); [exact others_sound|done|].
  intros k m Hm Hi. apply wpp_wpg; auto.
Qed.

Lemma tryGetService_finds start m :
  wpp (tryGetService who name start) m (fun r m' => keeps m m' /\ quiet m m' /\
    forall b, r = Some b -> exists x, mNameToService m !! name = Some x /\ s_binder x = Some b).
Proof.
  intros r m' E. split_and!; [by eapply tryGetService_within|by eapply tryGetService_quiet|]. revert r m' E.
  change (wpp (tryGetService who name start) m (fun r _ =>
    forall b, r = Some b -> exists x, mNameToService m !! name = Some x /\ s_binder x = Some b)).
  unfold tryGetService. apply wpp_bind. intros services ? [= <- <-]. cbv zeta.
  destruct (match _ with Some _ => _ | None => _ end); [by apply wpp_ret|].
  destruct (canFind (ctx who) name); cbn [negb]; [|by apply wpp_ret].
  apply wpp_bind. intros [] m1 _. apply wpp_bind. intros [] m2 _. apply wpp_ret.
  intros b Hb. destruct (mNameToService m !! name) as [x|]; [by exists x|done].
Qed.

Lemma announced_log m b : announced waiter m = Some b -> exists n, OnRegistration waiter n b ∈ sm_log m.
Proof.
  unfold announced. induction (sm_log m) as [|e l IH] using rev_ind; [done|]. rewrite foldl_app. simpl.
  destruct e as [cb n b'| |]; [|intros [n Hn]%IH; exists n; apply elem_of_app; by left..].
  zcase (cb =? waiter).
  - intros [= ->]. subst. exists n. apply elem_of_app. right. by apply list_elem_of_singleton.
  - intros [n' Hn]%IH. exists n'. apply elem_of_app. by left.
Qed.

Lemma get_ok F on w :
  fine on w ->
  wpg F (am_getService name) w (fun r w' => fine on w' /\ isOk (fst r) = true /\ forall b, snd r = Some b -> Good b).
Proof.
  intros Hw. wp_use (fine_turn F on (fun _ => ServiceManager.getService who name) w
    (fun r m' => sound on m' /\ isOk (fst r) = true /\ forall b, snd r = Some b -> Good b)); [done| | |].
  - intros _ m Hi. unfold ServiceManager.getService. apply bind_inv; [by apply tryGetService_inv|auto with sm].
  - intros _ m Hm. unfold ServiceManager.getService. apply wpp_bind. eapply wpp_mono; [apply tryGetService_finds|].
    intros r m' (Hk & Hq & Hb). apply wpp_ret. split_and!; [by eapply keeps_quiet_sound|done|].
    intros b E. destruct (Hb b E) as (x & Hx & Hxb). by eapply sound_services.
  - intros r w' (Hok & Hs & Hr & Hb). split_and!; [by split|done|done].
Qed.

Lemma wait_ok F on w :
  fine on w -> wpg F (wait_one_second waiter) w (fun r w' => fine on w' /\ forall b, r = Some b -> Good b).
Proof.
  intros Hw. unfold wait_one_second, heard_turns, wait_turn. wp_step. wp_step. wp_step.
  wp_use (fine_turn F on (fun _ => gets (announced waiter)) w
    (fun r m' => sound on m' /\ forall b, r = Some b -> Good b)); [done|by intros; wp_step| |].
  - intros _ m Hm r m' [= <- <-]. split; [done|]. intros b [n Hn]%announced_log. by eapply sound_log.
  - intros r w' (Hok & Hs & Hr). wp_step. split; [done|]. destruct (heard _); [done|by intros].
Qed.

Lemma register_ok F w :
  fine False w ->
  wpg F (am_registerForNotifications name (Some waiter)) w (fun st w' =>
    if isOk st then fine True w' /\ canFind (ctx who) name = true else fine False w').
Proof.
  intros Hw. wp_use (fine_turn F False (fun k => ServiceManager.registerForNotifications k who name (Some waiter)) w
    (fun st m' => if isOk st then sound True m' /\ canFind (ctx who) name = true else sound False m')); [done| | |].
  - intros k m Hi. by apply registerForNotifications_inv.
  - intros k m Hm st m' E.
    assert (keeps m m') as Hk.
    { revert E. revert m st m' Hm. cut (within keeps (ServiceManager.registerForNotifications k who name (Some waiter))).
      { intros H m st m' _ E. by eapply H. }
      unfold ServiceManager.registerForNotifications. within_steps. }
    pose proof (registerForNotifications_notes _ _ _ _ _ _ _ E) as Hn.
    assert (if isOk st then canFind (ctx who) name = true else m' = m) as Hst.
    { revert E. unfold ServiceManager.registerForNotifications.
      destruct (canFind (ctx who) name); cbn [negb]; [|by intros [= <- <-]].
      destruct (isValidServiceName name); cbn [negb]; [|by intros [= <- <-]].
      destruct (linkToDeath k waiter =? OK); cbn [negb]; [|by intros [= <- <-]].
      intros (? & ? & _ & (? & ? & _ & (? & ? & _ & [= <- <-])%bind_ret_inv)%bind_ret_inv)%bind_ret_inv. done. }
    destruct (isOk st); [|by subst]. split; [|done].
    eapply (changes_sound False True who); [by apply keeps_changes|exact Hn|done| |done|done].
    intros n [= <-]. done.
  - intros st w' [Hok Hs]. by destruct (isOk st); [destruct Hs|].
Qed.

Lemma unregister_listener F w :
  fine True w -> canFind (ctx who) name = true ->
  wpg F (am_unregisterForNotifications name (Some waiter)) w (fun _ w' => fine False w').
Proof.
  intros Hw Hc. wp_use (fine_turn F True (fun _ => ServiceManager.unregisterForNotifications who name (Some waiter)) w
    (fun _ m' => sound False m')); [done| | |by intros ? ? [? ?]].
  - intros _ m Hi. by apply unregisterForNotifications_inv.
  - intros _ m Hm. unfold ServiceManager.unregisterForNotifications. rewrite Hc. cbn [negb].
    apply wpp_bind. intros l ? [= <- <-]. apply wpp_bind.
    destruct (ServiceManager.mNameToRegistrationCallback m !! name) as [l|] eqn:El.
    + pose proof (removeRegistrationCallback_spec False waiter name l m El) as H. unfold wpg in H.
      intros found m' E. rewrite E in H. destruct H as [_ ->]. cut (sound False (put_registration
        (partial_alter (fun _ => survivors waiter l) name (ServiceManager.mNameToRegistrationCallback m)) m)).
      { intros Hs. destruct found; by apply wpp_ret. }
      destruct Hm as [H1 H2 H3]. split; [done|done|]. intros n. unfold listeners. simpl.
      destruct (decide (n = name)) as [->|Hne].
      * rewrite lookup_partial_alter_eq. unfold survivors, without. case_bool_decide; [by intros ?%elem_of_nil|]. simpl.
        rewrite list_elem_of_In, filter_In. intros [_ Hw']. by rewrite bool_decide_eq_true_2 in Hw'.
      * rewrite lookup_partial_alter_ne by done. intros Hn. by destruct (H3 n Hn).
    + apply wpp_ret. apply wpp_ret. destruct Hm as [H1 H2 H3]. split; [done|done|]. intros n Hn.
      destruct (H3 n Hn) as [_ ->]. unfold listeners in Hn. rewrite El in Hn. by apply elem_of_nil in Hn.
Qed.

(** * Waiting *)

Implicit Types s : Client Shared.
Abbreviation around s := (mTheRealServiceManager s).

Definition good (r : option Z) : Prop := forall b, r = Some b -> Good b.

Lemma waiting_loop_ok fuel on s :
  fine on (around s) ->
  wsafe (wait_loop fuel name waiter) s (fun r s' => fine on (around s') /\ good r).
Proof.
  revert s. induction fuel as [|fuel IH]; intros s Hs; [done|]. cbn [wait_loop]. wp_step. apply wpg_zoom.
  wp_use wait_ok; [done|]. intros r w [Hw Hr]. destruct r as [b|]; [by wp_step|].
  wp_step. unfold realGetService. apply wpg_zoom. wp_use get_ok; [exact Hw|]. intros [st r] w' (Hw' & -> & Hr').
  cbn [fst snd negb] in *. destruct r as [b|]; [by wp_step|]. by apply IH.
Qed.

(** C39: waiting for a service leaves nothing behind and returns nothing invented.
    [waitForService], beside other processes that send the manager any messages
    but do not have its waiter, never has undefined behaviour.  Whenever it
    returns, the waiter it made is in no list of listeners of the manager,
    whichever way it left; and a binder it returns was registered under the name:
    it has any property [Good] that those registered so far have and that all those
    others register have. *)
Theorem wait_leaves_no_listener (fuel : nat) (name16 : list Z) (s : Client Shared) :
  c_str (String8 name16) = name -> next_object s = waiter -> fine False (around s) ->
  wsafe (waitForService fuel name16) s (fun r s' =>
    (forall n, waiter ∉ listeners (sh_sm (around s')) n) /\ (forall b, r = Some b -> Good b)).
Proof.
  intros Hname Hwaiter Hs. unfold waitForService. rewrite Hname. cbv zeta.
  assert (forall w, fine False w -> forall n, waiter ∉ listeners (sh_sm w) n) as Hout.
  { intros w [_ Hw] n Hn. by destruct (sound_listeners _ _ Hw n Hn). }
  wp_step. unfold realGetService. apply wpg_zoom. wp_use get_ok; [exact Hs|].
  intros [st r] w (Hw & -> & Hr). cbn [fst snd negb] in *.
  destruct r as [b|]; [by wp_step; split; [apply Hout|]|].
  unfold make. do 6 wp_step. cbn [next_object set_world]. rewrite Hwaiter. wp_step. apply wpg_zoom. wp_use register_ok; [exact Hw|].
  intros st' w1 H1. destruct (isOk st'); cbn [negb]; [|by wp_step; split; [apply Hout|]].
  destruct H1 as [Hw1 Hc]. wp_step. wp_use waiting_loop_ok; [exact Hw1|]. intros out s2 [Hs2 Hout2].
  wp_step. apply wpg_zoom. wp_use unregister_listener; [done|done|]. intros _ w3 Hw3. wp_step.
  split; [by apply Hout|done].
Qed.

(** ** Listening with a callback *)

Lemma erase_absent cb l w : (forall p, p ∈ l -> fst p <> cb) -> erase_callbacks cb l w = (l, w).
Proof.
  intros Hl. induction l as [|[c v] l IH]; [done|]. cbn [erase_callbacks].
  assert (c <> cb) by (apply (Hl (c, v)); by left). zdec (c =? cb).
  rewrite IH; [done|]. intros p Hp. apply Hl. by right.
Qed.

Lemma erase_last cb l w v : (forall p, p ∈ l -> fst p <> cb) -> erase_callbacks cb (l ++ [(cb, v)]) w = (l, Some v).
Proof.
  intros Hl. induction l as [|[c u] l IH]; cbn [app erase_callbacks]; [by rewrite Z.eqb_refl|].
  assert (c <> cb) by (apply (Hl (c, u)); by left). zdec (c =? cb).
  rewrite IH; [done|]. intros p Hp. apply Hl. by right.
Qed.

(** A callback that listens to a name and then no longer does leaves nothing
    behind: the shim's table is as before, and the manager does not have the waiter
    made for it, whether or not the manager accepted it. *)
Theorem listening_undone (name16 : list Z) (cb : Z) (s : Client Shared) :
  c_str (String8 name16) = name -> next_object s = waiter -> fine False (around s) ->
  (forall n l, mNameToRegistrationCallback s !! n = Some l -> l <> []) ->
  (forall p, p ∈ default [] (mNameToRegistrationCallback s !! name) -> fst p <> cb) ->
  wp (registerForNotifications name16 (Some cb) ;; unregisterForNotifications name16 (Some cb)) s (fun _ s' =>
    mNameToRegistrationCallback s' = mNameToRegistrationCallback s /\
    forall n, waiter ∉ listeners (sh_sm (around s')) n).
Proof.
  intros Hname Hwaiter Hs Hne Hcb. unfold registerForNotifications, unregisterForNotifications.
  rewrite Hname. cbv zeta.
  assert (forall w, fine False w -> forall n, waiter ∉ listeners (sh_sm w) n) as Hout.
  { intros w [_ Hw] n Hn. by destruct (sound_listeners _ _ Hw n Hn). }
  unfold make. do 7 wp_step. rewrite Hwaiter. wp_step. apply wpg_zoom. wp_use register_ok; [exact Hs|].
  intros st w H1. destruct (isOk st); cbn [negb].
  - destruct H1 as [Hw Hc]. wp_steps. cbn [mNameToRegistrationCallback set_callbacks set_world set_next].
    rewrite lookup_insert_eq. wp_step. unfold removeRegistrationCallbackLocked. wp_steps.
    cbn [mNameToRegistrationCallback set_callbacks set_world set_next]. rewrite lookup_insert_eq. wp_step.
    rewrite erase_last by done. cbv iota. wp_step.
    set (l := default [] (mNameToRegistrationCallback s !! name)) in *.
    assert (forall s1, fine True (around s1) ->
      mNameToRegistrationCallback s1 = mNameToRegistrationCallback s ->
      wp (ret (Some waiter)) s1 (fun a s2 => wp (match a with
        | Some waiter => let* status := world (am_unregisterForNotifications name (Some waiter)) in
                         ret (if isOk status then OK else UNKNOWN_ERROR)
        | None => ret BAD_VALUE end) s2 (fun _ s' =>
          mNameToRegistrationCallback s' = mNameToRegistrationCallback s /\
          forall n, waiter ∉ listeners (sh_sm (around s')) n))) as Hend.
    { intros s1 Hs1 Hm. wp_step. wp_step. apply wpg_zoom. wp_use unregister_listener; [done|done|].
      intros st2 w2 Hw2. wp_step. split; [done|by apply Hout]. }
    case_bool_decide as El; wp_step; apply Hend; try done; simpl.
    + rewrite delete_insert_id; [done|]. unfold l in El. destruct (mNameToRegistrationCallback s !! name) eqn:E; [|done].
      by destruct (Hne _ _ E).
    + rewrite insert_insert_eq. apply insert_id. unfold l in *. by destruct (mNameToRegistrationCallback s !! name).
  - wp_steps. cbn [mNameToRegistrationCallback set_world set_next].
    destruct (mNameToRegistrationCallback s !! name) as [l|] eqn:E; [|wp_step; split; [done|by apply Hout]].
    wp_step. unfold removeRegistrationCallbackLocked. wp_steps.
    cbn [mNameToRegistrationCallback set_world set_next]. rewrite E. wp_step. rewrite erase_absent by done. cbv iota.
    wp_step. rewrite bool_decide_eq_false_2 by by eapply Hne. do 3 wp_step. split; [simpl; by apply insert_id|by apply Hout].
Qed.
End Waiting.

(** * Waiting ends *)

Section Arrival.
Context {acc : Access} {plat : Platform}.
Context {mf : Type} {hal : HalManifest mf} (manifests : list (option mf)).
Context (who : Caller) (k0 : Kernel) {strings : StringConversions}.
#[local] Instance shared' : AidlServiceManager Shared := shared_manager manifests who k0.
#[local] Instance heard_turns' : Waiting Shared := {| wait_one_second := wait_turn manifests k0 |}.
Abbreviation around s := (mTheRealServiceManager s).

(** The service that appears: its name, its binder, who registers it; and the
    waiter, whose death the driver agrees to report. *)
Context (name : string) (service : Z) (server : Caller) (iso : bool) (waiter : Z).
Definition links (k : Kernel) : Prop := linkToDeath k waiter = OK.
Context (Hlink : links k0) (Hvalid : isValidServiceName name = true).
Context (Hfind : canFind (ctx who) name = true) (Hiso : iso || negb (isIsolated who) = true).

Definition listed (m : SM) : Prop :=
  exists x, mNameToService m !! name = Some x /\ s_binder x = Some service /\
    allowIsolated x = iso /\ s_debugPid x = debugPid (ctx server).

(** A message that leaves the service in the registry. *)
Definition leaves (msg : Message) : Prop :=
  let '(_, c, r) := msg in
  (forall b i p, r <> AddService name b i p) /\ r <> BinderDied service /\ c_pid c <> debugPid (ctx server).
Definition leaves_turn (t : Turn) : Prop := Forall leaves (others t).

Definition lasting (m m' : SM) : Prop := listed m -> listed m'.
#[local] Instance lasting_preorder : PreOrder lasting.
Proof. split; unfold lasting; auto. Qed.

Lemma keeps_lasting m m' : keeps m m' -> lasting m m'.
Proof.
  intros Hk (x & Hx & Hb & Hi & Hp). specialize (Hk name). rewrite Hx in Hk.
  apply same_forth in Hk as (x' & Hx' & E1 & E2 & _ & E3). exists x'. by rewrite E1, E2, E3.
Qed.

Lemma leaves_lasting k c r m u m' : leaves (k, c, r) -> handle manifests k c r m = Ret u m' -> lasting m m'.
Proof.
  intros (Ha & Hd & Hc) E%handle_changes (x & Hx & Hb & Hi & Hp). specialize (E name). rewrite Hx in E.
  apply change_forth in E as [(x' & Hx' & E1 & E2 & _ & E3)|[(b & i & p & E)|[E|(dead & E & Ed)]]].
  - exists x'. by rewrite E1, E2, E3.
  - by edestruct Ha.
  - congruence.
  - exfalso. apply Hd. congruence.
Qed.

(** The turn in which [server] registers the service. *)
Definition registers (t : Turn) : Prop :=
  exists before k prio after, others t = before ++ (k, server, AddService name (Some service) iso prio) :: after /\
    may_add manifests k server name service /\ Forall leaves after.

(** The service is there after [n] more turns, and stays. *)
Definition due (n : nat) (w : Shared) : Prop :=
  sm_inv (sh_sm w) /\ Forall (fun t => links (kernel t)) (sh_turns w) /\
  match n with
  | O => listed (sh_sm w) /\ Forall leaves_turn (sh_turns w)
  | S n => exists before t after, sh_turns w = before ++ t :: after /\ length before = n /\
             registers t /\ Forall leaves_turn after
  end.

Definition any (m m' : SM) : Prop := True.
#[local] Instance any_preorder : PreOrder any.
Proof. by split. Qed.

Lemma serve_any F ms m : sm_inv m -> wpg F (serve manifests ms) m (fun _ => sm_inv).
Proof.
  intros Hi. wp_use (serve_relies manifests (fun _ => True) any); [done|by apply Forall_true|done|].
  by intros _ m' [Hi' _].
Qed.

Lemma serve_lasting F ms m : Forall leaves ms -> sm_inv m -> listed m ->
  wpg F (serve manifests ms) m (fun _ m' => sm_inv m' /\ listed m').
Proof.
  intros Hms Hi Hl. wp_use (serve_relies manifests leaves lasting leaves_lasting); [done|done|].
  intros _ m' [Hi' H']. split; [done|by apply H'].
Qed.

Lemma serve_registers F t m : registers t -> sm_inv m ->
  wpg F (serve manifests (others t)) m (fun _ m' => sm_inv m' /\ listed m').
Proof.
  intros (before & k & prio & after & E & Hadd & Hafter) Hi. rewrite E. clear E.
  unfold serve. revert m Hi. induction before as [|[[k' c'] r'] before IH]; intros m Hi; cbn [app for_each]; wp_step.
  - cbn [handle]. unfold discard. wp_step. eapply wpg_mono; [apply wpg_and;
      [apply (addService_inv manifests k server F name (Some service) iso prio m Hi)|apply addService_spec]|].
    intros st m1 [Hi1 H1]. wp_step. destruct H1 as [(_ & Hno & _)|(_ & _ & ->)]; [done|].
    apply serve_lasting; [done|done|]. eexists. cbv zeta. simpl. rewrite lookup_insert_eq. by split_and!.
  - wp_use handle_inv; [done|]. intros _ m1 Hi1. by apply IH.
Qed.

Lemma due_turn F {A} (call : Kernel -> M SM A) n w (Q0 Q : A -> Prop) :
  due n w ->
  (forall k m, links k -> sm_inv m -> wpg F (call k) m (fun a m' => sm_inv m' /\ keeps m m' /\
     Q0 a /\ ((n <= 1)%nat -> listed m -> Q a))) ->
  wpg F (my_turn manifests k0 call) w (fun a w' => due (pred n) w' /\ Q0 a /\ ((n <= 1)%nat -> Q a)).
Proof.
  intros (Hi & Hk & Hn) Hcall. unfold my_turn. wp_step. wp_step. apply wpg_zoom. wp_step. unfold next_turn.
  assert (links (kernel (default (mkTurn [] k0 true) (head (sh_turns w)))) /\
    Forall (fun t => links (kernel t)) (tail (sh_turns w))) as [Hlk Hks].
  { destruct Hk; [by split|done]. }
  assert (forall m1, sm_inv m1 -> ((n <= 1)%nat -> listed m1) ->
    wpg F (call (kernel (default (mkTurn [] k0 true) (head (sh_turns w))))) m1 (fun a m2 =>
      sm_inv m2 /\ Q0 a /\ ((n <= 1)%nat -> listed m2 /\ Q a))) as Hrun.
  { intros m1 Hi1 Hl1. wp_use Hcall; [done|done|]. intros a m2 (Hi2 & Hkp & HQ0 & HQ). split_and!; [done|done|].
    intros Hle. split; [by eapply keeps_lasting; [|apply Hl1]|by apply HQ; [|apply Hl1]]. }
  destruct n as [|n].
  - destruct Hn as [Hl Ht].
    assert (Forall leaves (others (default (mkTurn [] k0 true) (head (sh_turns w)))) /\
      Forall leaves_turn (tail (sh_turns w))) as [Ho Ht'].
    { destruct Ht; [by split|done]. }
    wp_use serve_lasting; [done|done|done|]. intros _ m1 [Hi1 Hl1]. wp_use Hrun; [done|done|].
    intros a m2 (Hi2 & H0 & H2). split; [|split; [done|apply H2]]. split_and!; [done|done|].
    split; [apply H2; lia|done].
  - destruct Hn as (before & t & after & Et & Hlen & Hreg & Haft). rewrite Et in *.
    destruct before as [|t0 before]; simpl in *.
    + subst n. wp_use serve_registers; [done|done|]. intros _ m1 [Hi1 Hl1]. wp_use Hrun; [done|done|].
      intros a m2 (Hi2 & H0 & H2). split; [|split; [done|apply H2]]. split_and!; [done|done|apply H2; lia|done].
    + wp_use serve_any; [done|]. intros _ m1 Hi1. wp_use Hrun; [done|lia|].
      intros a m2 (Hi2 & H0 & H2). split; [|split; [done|apply H2]]. split_and!; [done|done|].
      destruct n as [|n]; [done|]. exists before, t, after. split_and!; [done|lia|done|done].
Qed.

(** * The calls, once the service is due *)

Lemma due_get F n w :
  due n w ->
  wpg F (am_getService name) w (fun r w' => due (pred n) w' /\ isOk (fst r) = true /\
    ((n <= 1)%nat -> snd r = Some service)).
Proof.
  intros Hw. apply (due_turn F (fun _ => ServiceManager.getService who name)); [exact Hw|].
  intros k m _ Hi. unfold ServiceManager.getService. wp_step.
  eapply wpg_mono; [apply wpp_wpg with (Q := fun r m' => keeps m m' /\ (listed m -> r = Some service));
    [by apply tryGetService_inv|]|].
  - intros r m' E. split; [by eapply tryGetService_within|]. intros (x & Hx & Hb & Hix & _).
    pose proof (tryGetService_found True who name true x service m Hx Hb) as H. unfold wpg in H. rewrite E in H.
    rewrite Hfind, Hix, Hiso in H. by destruct H.
  - intros r m' (Hi' & Hk & Hr). wp_step. split_and!; [done|done|done|]. intros _ Hl. simpl. auto.
Qed.

Lemma due_wait F n w :
  due n w -> wpg F (wait_one_second waiter) w (fun _ w' => due (pred n) w').
Proof.
  intros Hw. unfold wait_one_second, heard_turns', wait_turn. wp_step. wp_step. wp_step.
  wp_use (due_turn F (fun _ => gets (announced waiter)) n w (fun _ => True) (fun _ => True)); [done| |].
  - intros k m _ Hi. wp_step. split_and!; [done|reflexivity|done|done].
  - intros r w' [Hw' _]. by wp_step.
Qed.

Lemma due_register F n w :
  due n w ->
  wpg F (am_registerForNotifications name (Some waiter)) w (fun st w' => due (pred n) w' /\ isOk st = true).
Proof.
  intros Hw. eapply wpg_mono; [apply (due_turn F (fun k => ServiceManager.registerForNotifications k who name (Some waiter))
    n w (fun st => isOk st = true) (fun _ => True)); [done|]|].
  - intros k m Hk Hi. eapply wpg_mono; [apply wpp_wpg with (Q := fun st m' => keeps m m' /\ isOk st = true);
      [by apply registerForNotifications_inv|]|].
    + intros st m' E. split.
      { revert E. cut (within keeps (ServiceManager.registerForNotifications k who name (Some waiter))).
        { intros H E. by eapply H. }
        unfold ServiceManager.registerForNotifications. within_steps. }
      revert E. unfold ServiceManager.registerForNotifications. rewrite Hfind, Hvalid. cbn [negb].
      unfold links in Hk. rewrite Hk. cbn [negb Z.eqb].
      intros (? & ? & _ & (? & ? & _ & (? & ? & _ & [= <- <-])%bind_ret_inv)%bind_ret_inv)%bind_ret_inv. done.
    + intros st m' (Hi' & Hkp & Hst). by split_and!.
  - by intros st w' (Hw' & Hst & _).
Qed.

Lemma due_unregister F n w :
  due n w -> wpg F (am_unregisterForNotifications name (Some waiter)) w (fun _ w' => True).
Proof.
  intros (Hi & _). unfold am_unregisterForNotifications, shared', shared_manager, my_turn. wp_step. wp_step.
  apply wpg_zoom. wp_step. wp_use serve_any; [done|]. intros _ m1 Hi1.
  wp_use (unregisterForNotifications_inv who F name (Some waiter) m1 Hi1). done.
Qed.

Implicit Types s : Client Shared.

Lemma due_loop fuel n s :
  due n (around s) -> (n <= fuel)%nat -> (0 < fuel)%nat ->
  wp (wait_loop fuel name waiter) s (fun r s' => is_Some r /\ exists n', due n' (around s')).
Proof.
  revert n s. induction fuel as [|fuel IH]; intros n s Hs Hn Hpos; [lia|]. cbn [wait_loop]. wp_step. apply wpg_zoom.
  wp_use due_wait; [done|]. intros r w Hw. destruct r as [b|]; [wp_step; split; [done|by eexists]|].
  wp_step. unfold realGetService. apply wpg_zoom. wp_use due_get; [exact Hw|].
  intros [st r] w' (Hw' & -> & Hr). cbn [fst snd negb] in *.
  destruct r as [b|]; [wp_step; split; [done|by eexists]|].
  assert (2 < n)%nat. { destruct (Nat.le_gt_cases n 2); [|done]. by specialize (Hr ltac:(lia)). }
  apply (IH (pred (pred n))); [done|lia|lia].
Qed.

End Arrival.

(** * Giving up *)

Section Polling.
Context {W : Type} `{!AidlServiceManager W} `{!Clock W} {strings : StringConversions}.
(** The clock of the world: it runs on, and sleeping takes its time. *)
Context (now : W -> Z).
Context (Huptime : forall w, wp uptimeMillis w (fun t w' => t = now w' /\ now w <= now w')).
Context (Husleep : forall us w, 0 <= us -> wp (usleep us) w (fun _ w' => now w + us / 1000 <= now w')).
Context (Hcheck : forall name w, wp (am_checkService name) w (fun _ w' => now w <= now w')).
Abbreviation time s := (now (mTheRealServiceManager s)).

Lemma checkService_time name s : wp (checkService name) s (fun _ s' => time s <= time s').
Proof. unfold checkService. wp_step. apply wpg_zoom. wp_use Hcheck. intros r w Hw. by wp_step. Qed.

Lemma poll_service_ends fuel name start sleepTime s :
  0 < sleepTime -> start <= time s -> start + timeout <= time s + Z.of_nat fuel * sleepTime ->
  wp (poll_service (S fuel) name start sleepTime) s (fun r s' => r = None -> start + timeout <= time s').
Proof.
  intros Hpos. revert s. induction fuel as [|fuel IH]; intros s Hstart Hfuel; remember (S _) as n; cbn [poll_service]; subst n; cbn [poll_service].
  all: wp_step; apply wpg_zoom; wp_use Huptime; intros t w [-> Ht]; destruct (now w - start <? timeout) eqn:E; cbn [negb]; zb.
  2, 4: wp_step; intros _; simpl; lia.
  - lia.
  - wp_step. apply wpg_zoom. wp_use Husleep; [lia|]. intros _ w1 H1. cbn [mTheRealServiceManager set_world] in *.
    rewrite Z.mul_comm, Z.div_mul in H1 by lia.
    wp_step. wp_use checkService_time. intros r s1 Hs1. cbn [mTheRealServiceManager set_world] in *.
    destruct r; [by wp_step|]. apply IH; lia.
Qed.

(** [getService] always returns, and null only when five seconds have passed; 52
    rounds are enough. *)
Theorem get_service_ends isVendorService (name : list Z) (s : Client W) :
  wp (getService isVendorService 52 name) s (fun r s' => r = None -> time s + timeout <= time s').
Proof.
  unfold getService. wp_step. wp_use checkService_time. intros r s1 H1. destruct r; [by wp_step|].
  wp_step. apply wpg_zoom. wp_use Huptime. intros t w [-> Ht]. wp_step. wp_step. wp_step.
  assert (forall (b : bool) s2, time s2 = now w ->
    wp (poll_service 52 name (now w) (if b then 1000 else 100)) s2 (fun r s' => r = None -> time s + timeout <= time s'))
    as Hpoll.
  { intros b s2 E. wp_use poll_service_ends; [by destruct b|lia|rewrite E; destruct b; unfold timeout; lia|].
    intros r' s3 H Hr. specialize (H Hr). simpl in H1. lia. }
  destruct (_ && _); wp_steps; by apply Hpoll.
Qed.
End Polling.

(** * Permissions *)

Section Permissions.
Context {W : Type} `{!AidlServiceManager W} `{!Clock W} `{!PermissionControllers W} {strings : StringConversions}.
Context (permission : list Z) (pid uid : Z).
(** What the answers of a controller mean. *)
Context (Granted Denied Live : Z -> Prop).
Context (Hanswer : forall p w, wp (controller_checkPermission p permission pid uid) w
  (fun r _ => if r then Granted p else Denied p)).
Context (Halive : forall p w, wp (isBinderAlive p) w (fun r _ => r = true -> Live p)).
Context (Hsleep : forall us w, wp (usleep us) w (fun _ _ => True)).
Context (Hcheck : forall name w, wp (am_checkService name) w (fun _ _ => True)).

Definition answered (r : bool) : Prop :=
  if r then exists p, Granted p else exists p, Denied p /\ Live p.

Lemma checkService_runs name (s : Client W) : wp (checkService name) s (fun _ _ => True).
Proof. unfold checkService. wp_step. apply wpg_zoom. wp_use Hcheck. intros r w _. by wp_step. Qed.

(** An answer is always that of a controller; a refusal that of one which was
    still alive after it refused.  A controller that died is never believed. *)
Theorem permission_answered fuel (s : Client W) :
  wsafe (checkPermission fuel permission pid uid) s (fun r _ => answered r).
Proof.
  unfold checkPermission. wp_step. wp_step. generalize (gPermissionController s). revert s.
  induction fuel as [|fuel IH]; intros s pc; [done|]. cbn [check_permission]. cbv zeta.
  assert (forall s1, wsafe (let* binder := checkService (String16 "permission") in
    match binder with
    | None => world (usleep 1000000) ;; check_permission fuel permission pid uid pc
    | Some b => modify (set_controller (Some b)) ;; check_permission fuel permission pid uid (Some b)
    end) s1 (fun r _ => answered r)) as Hlook.
  { intros s1. wp_step. eapply wpg_mono; [apply wp_wpg, checkService_runs|]. intros [b|] s2 _; wp_step.
    - wp_step. apply IH.
    - apply wpg_zoom. eapply wpg_mono; [apply wp_wpg, Hsleep|]. intros _ w _. apply IH. }
  destruct pc as [p|]; [|apply Hlook]. wp_step. apply wpg_zoom.
  eapply wpg_mono; [apply wp_wpg, Hanswer|]. intros [] w Hp; [wp_step; by exists p|].
  wp_step. apply wpg_zoom. eapply wpg_mono; [apply wp_wpg, Halive|]. intros [] w' Hl; [wp_step; exists p; auto|].
  do 3 wp_step. case_bool_decide; wp_step; apply Hlook.
Qed.
End Permissions.

(** * The default manager *)

(** A process has one default manager: once there is one, every later call gives
    it, and setting another aborts. *)
Lemma default_manager_is_one {W} `{!ContextObject W} `{!Clock W} fuel sm (s : Client W) :
  gDefaultServiceManager s = Some sm ->
  wp (defaultServiceManager fuel) s (fun r s' => r = sm /\ s' = s) /\
  forall other, setDefaultServiceManager other s = Fatal.
Proof.
  intros E. unfold defaultServiceManager, setDefaultServiceManager. split.
  - wp_step. wp_step. rewrite E. by wp_step.
  - intros other. unfold bind, gets. by rewrite E.
Qed.

(** * Concrete runs of the client library beside the service manager *)

Module ClientSample.
(** Names of one byte characters. *)
#[export] Instance conversions : StringConversions := {|
  String8 l := foldr (fun c s => String (Ascii.ascii_of_N (Z.to_N c)) s) EmptyString l;
  String16 s := chars s;
|}.
Definition clock16 : list Z := chars "clock".

(** The client is process 200, its next object 50; the server is process 100. *)
Definition client : Caller := LazySample.client.
Definition server : Caller := LazySample.who.
Definition idle : Kernel := LazySample.idle.
Definition quiet_turn : Turn := mkTurn [] idle false.
(** The server registers the clock; the notification does not arrive. *)
Definition clock_turn : Turn := mkTurn [(idle, server, AddService "clock" (Some 7) false 1)] idle false.
Definition client_with (ts : list Turn) : Client Shared := mkClient ∅ false None None 50 (mkShared ServiceManager ts).
Definition later : Client Shared := client_with [quiet_turn; quiet_turn; quiet_turn; clock_turn].
End ClientSample.
Import LazySample ClientSample.

Lemma later_is_fine :
  fine "clock" 50 (fun b => b = 7) False (mTheRealServiceManager later).
Proof.
  split; [split|].
  - split; apply map_Forall_empty.
  - repeat constructor; try done. by intros b iso prio [= -> _ _].
  - split; [done| |].
    + intros n b H. by apply elem_of_nil in H.
    + intros n H. by apply elem_of_nil in H.
Qed.

Lemma wait_leaves_no_listener_witness :
  wsafe (waitForService (AidlServiceManager0 := shared [] ClientSample.client ClientSample.idle)
      (Waiting0 := heard_turns [] ClientSample.idle) 9 clock16) later (fun r s' =>
    (forall n, 50 ∉ listeners (sh_sm (mTheRealServiceManager s')) n) /\ (forall b, r = Some b -> b = 7)).
Proof.
  exact (wait_leaves_no_listener [] ClientSample.client ClientSample.idle "clock" 50 (fun b => b = 7) 9 clock16 later
    eq_refl eq_refl later_is_fine).
Defined.

Lemma later_is_due : due [] "clock" 7 ClientSample.server false 50 4 (mTheRealServiceManager later).
Proof.
  split; [split; apply map_Forall_empty|]. split; [by repeat constructor|].
  exists [quiet_turn; quiet_turn; quiet_turn], clock_turn, []. split_and!; [done|done| |constructor].
  exists [], ClientSample.idle, 1, []. split_and!; [done| |constructor].
  split_and!; [done|done|done|done|done].
Qed.


(** * Where it falls short *)

(** A callback that registered twice for a name: unregistering erases both pairs,
    but only the second waiter is unregistered at the manager; the first listens on,
    and no further call reaches it. *)
Definition twice (A : AidlServiceManager Shared) : M (Client Shared) (status_t * status_t) :=
  ServiceClient.registerForNotifications clock16 (Some 5) ;;
  ServiceClient.registerForNotifications clock16 (Some 5) ;;
  let* first := ServiceClient.unregisterForNotifications clock16 (Some 5) in
  let* second := ServiceClient.unregisterForNotifications clock16 (Some 5) in
  ret (first, second).
Lemma registered_twice_listens_on :
  exists s', twice (shared [] ClientSample.client ClientSample.idle) (client_with []) = Ret (OK, BAD_VALUE) s' /\
    ServiceClient.mNameToRegistrationCallback s' !! "clock" = None /\
    listeners (sh_sm (mTheRealServiceManager s')) "clock" = [50].
Proof. eexists. split; [vm_compute; reflexivity|]. split; vm_compute; reflexivity. Qed.
