(* ===== verification/Permissions.v ===== *)
(** Asking for permissions: PermissionCache.cpp and PermissionController.cpp of
    src/libs/binder.

    The cache keeps the answer for a permission and a uid until it is purged.  Its
    sorted vectors are ordered by uid and name ([SortedVector] of libutils keeps one
    item of each): a map from the pair, and a set of names. *)

From stdpp Require Import strings gmap sets.
From S2P Require Import Prelude Errors ParcelState ParcelInv BinderStatus ServiceManager ManagerClient ServiceClient.

Module PermissionCache.
Record Cache (W : Type) := mkCache {
  mPermissionNamesPool : gset (list Z);
  mCache : gmap (Z * list Z) bool;
  outside : W;
}.
Arguments mkCache {W}.
Arguments mPermissionNamesPool {W}.
Arguments mCache {W}.
Arguments outside {W}.

Section PermissionCache.
Context {W : Type}.
Implicit Types c : Cache W.
Definition set_pool p c : Cache W := mkCache p (mCache c) (outside c).
Definition set_cache m c : Cache W := mkCache (mPermissionNamesPool c) m (outside c).
Definition set_outside w c : Cache W := mkCache (mPermissionNamesPool c) (mCache c) w.

(** [android::checkPermission], and the process's own id. *)
Context (slow_check : list Z -> Z -> Z -> M W bool) (getpid : Z).

Definition check (permission : list Z) (uid : Z) : M (Cache W) (option bool) :=
  let* m := gets mCache in ret (m !! (uid, permission)).

Definition cache (permission : list Z) (uid : Z) (granted : bool) : M (Cache W) unit :=
  modify (fun c => set_pool ({[permission]} ∪ mPermissionNamesPool c) c) ;;
  let* m := gets mCache in
  match m !! (uid, permission) with
  | Some _ => ret tt
  | None => modify (set_cache (<[(uid, permission) := granted]> m))
  end.

Definition purge : M (Cache W) unit := modify (set_cache ∅).

Definition checkPermission (permission : list Z) (pid uid : Z) : M (Cache W) bool :=
  if (uid =? 0) || (pid =? getpid) then ret true else
  let* cached := check permission uid in
  match cached with
  | Some granted => ret granted
  | None =>
      let* granted := zoom outside set_outside (slow_check permission pid uid) in
      cache permission uid granted ;;
      ret granted
  end.

(** * The cache gives the answers of the controller

    As long as these depend on the permission and the uid only. *)

Context (answer : list Z -> Z -> bool).
Context (Hanswer : forall permission pid uid w, wsafe (slow_check permission pid uid) w (fun r _ => r = answer permission uid)).

Inductive use := Ask (permission : list Z) (pid uid : Z) | Purge.
Definition run_use (u : use) : M (Cache W) bool :=
  match u with Ask permission pid uid => checkPermission permission pid uid | Purge => purge ;; ret true end.
(** What the controller, asked every time, would say. *)
Definition reference (u : use) : bool :=
  match u with
  | Ask permission pid uid => (uid =? 0) || (pid =? getpid) || answer permission uid
  | Purge => true
  end.

Definition right c : Prop := map_Forall (fun '(uid, permission) granted => granted = answer permission uid) (mCache c).

Lemma run_use_right u c : right c -> wsafe (run_use u) c (fun r c' => right c' /\ r = reference u).
Proof.
  intros Hc. destruct u as [permission pid uid|]; cbn [run_use reference].
  - unfold checkPermission. destruct (_ || _); [by wp_step|]. wp_step. unfold check. do 3 wp_step.
    destruct (mCache c !! (uid, permission)) as [granted|] eqn:E; [wp_step; split; [done|by apply (Hc _ _ E)]|].
    wp_step. apply wpg_zoom. wp_use Hanswer. intros r w ->. wp_step. unfold cache. do 4 wp_step.
    cbn [mCache set_pool set_outside]. rewrite E. do 2 wp_step. split; [|done]. by apply map_Forall_insert_2.
  - wp_step. unfold purge. do 2 wp_step. split; [|done]. apply map_Forall_empty.
Qed.

Fixpoint run_uses (us : list use) : M (Cache W) (list bool) :=
  match us with
  | [] => ret []
  | u :: us => let* r := run_use u in let* rs := run_uses us in ret (r :: rs)
  end.

(** Any sequence of checks and purges from an empty cache gives what the
    controller would have said each time, root and the process itself apart. *)
Theorem cache_is_transparent (us : list use) (w : W) :
  wsafe (run_uses us) (mkCache ∅ ∅ w) (fun rs _ => rs = map reference us).
Proof.
  assert (forall c, right c -> wsafe (run_uses us) c (fun rs _ => rs = map reference us)) as H.
  { induction us as [|u us IH]; intros c Hc; cbn [run_uses map]; [done|].
    wp_step. wp_use run_use_right; [done|]. intros r c1 [Hc1 ->]. wp_step. wp_use IH; [done|].
    intros rs c2 ->. by wp_step. }
  apply H. apply map_Forall_empty.
Qed.

(** While the answer is in the cache the controller is not asked. *)
Lemma cached_is_not_asked permission pid uid granted c :
  (uid =? 0) || (pid =? getpid) = false -> mCache c !! (uid, permission) = Some granted ->
  checkPermission permission pid uid c = Ret granted c.
Proof. intros E H. unfold checkPermission, check, bind, gets, ret. by rewrite E, H. Qed.
End PermissionCache.
End PermissionCache.

Module PermissionController.
(** [mService], and the client of the service manager it asks. *)
Record Controller (W : Type) := mkController { mService : option Z; client : Client W }.
Arguments mkController {W}.
Arguments mService {W}.
Arguments client {W}.

Section PermissionController.
Context {W : Type} `{!AidlServiceManager W} `{!Clock W} `{!PermissionControllers W} {strings : StringConversions}.
Definition set_service o (c : Controller W) : Controller W := mkController o (client c).
Definition asking {A} : M (Client W) A -> M (Controller W) A :=
  zoom client (fun cl c => mkController (mService c) cl).

Definition alive (service : option Z) : M (Controller W) bool :=
  match service with None => ret false | Some p => asking (world (isBinderAlive p)) end.

Fixpoint find_service (fuel : nat) (startTime : Z) (service : option Z) : M (Controller W) (option Z) :=
  match fuel with
  | O => fatal
  | S fuel =>
      let* ok := alive service in
      if ok then ret service else
      let* binder := asking (checkService (String16 "permission")) in
      match binder with
      | None =>
          let* now := asking (world uptimeMillis) in
          if startTime =? 0 then asking (world (usleep 1000000)) ;; find_service fuel now service
          else if 10000 <? now - startTime then ret None
          else asking (world (usleep 1000000)) ;; find_service fuel startTime service
      | Some b => modify (set_service (Some b)) ;; find_service fuel startTime (Some b)
      end
  end.
Definition getService (fuel : nat) : M (Controller W) (option Z) :=
  let* service := gets mService in find_service fuel 0 service.

Definition checkPermission (fuel : nat) (permission : list Z) (pid uid : Z) : M (Controller W) bool :=
  let* service := getService fuel in
  match service with
  | Some p => asking (world (controller_checkPermission p permission pid uid))
  | None => ret false
  end.

(** The controller it uses was alive when it was chosen. *)
Context (Live : Z -> Prop).
Context (Halive : forall p w, wsafe (isBinderAlive p) w (fun r _ => r = true -> Live p)).
Context (Hcheck : forall name w, wsafe (am_checkService name) w (fun _ _ => True)).
Context (Htime : forall w, wsafe uptimeMillis w (fun _ _ => True)).
Context (Hsleep : forall us w, wsafe (usleep us) w (fun _ _ => True)).

Lemma getService_is_alive fuel (c : Controller W) :
  wsafe (getService fuel) c (fun r _ => match r with Some p => Live p | None => True end).
Proof.
  unfold getService. wp_step. wp_step. generalize 0 (mService c). revert c.
  induction fuel as [|fuel IH]; intros c start service; [done|]. cbn [find_service].
  wp_step. eapply wpg_mono with (P := fun ok _ => ok = true -> match service with Some p => Live p | None => True end).
  { unfold alive, asking. destruct service as [p|]; [|by wp_step]. do 2 apply wpg_zoom. wp_use Halive. done. }
  intros [] c1 Hok; [wp_step; destruct service; auto|]. wp_step. apply wpg_zoom.
  unfold checkService. wp_step. apply wpg_zoom. wp_use Hcheck. intros st w _. wp_step.
  destruct (if isOk (fst st) then snd st else None); [wp_step; wp_step; apply IH|].
  wp_step. do 2 apply wpg_zoom. wp_use Htime. intros now w1 _.
  assert (forall start c2, wsafe (asking (world (usleep 1000000)) ;; find_service fuel start service) c2
    (fun r _ => match r with Some p => Live p | None => True end)) as Hagain.
  { intros start' c2. wp_step. do 2 apply wpg_zoom. wp_use Hsleep. intros _ w2 _. apply IH. }
  destruct (start =? 0); [apply Hagain|]. destruct (10000 <? _); [by wp_step|apply Hagain].
Qed.
End PermissionController.
End PermissionController.
