(* ===== verification/Driver.v ===== *)
(** The protocol of the kernel driver, as far as libbinder speaks it.

    The command codes and structures are those of <linux/android/binder.h> on a
    64-bit kernel, which src/libs/binder/binder_module.h includes.  [Command] is
    what a thread sends ([BC_...]), with its encoding in the write buffer of
    [BINDER_WRITE_READ]; the driver reads the buffer back with [parse_commands]. *)

From S2P Require Import Prelude Errors ParcelState.

(** * Transactions *)

Record binder_transaction_data := mkTr {
  tr_target : Z;       (* handle, or the object's weak references *)
  tr_cookie : Z;
  tr_code : Z;
  tr_flags : Z;
  tr_sender_pid : Z;
  tr_sender_euid : Z;
  tr_data_size : Z;
  tr_offsets_size : Z;
  tr_buffer : Z;
  tr_offsets : Z;
}.

Definition sizeof_tr : Z := 64.
Definition sizeof_tr_secctx : Z := 72.

Definition tr_bytes (t : binder_transaction_data) : bytes :=
  le_bytes 8 (tr_target t) ++ le_bytes 8 (tr_cookie t) ++ le_bytes 4 (tr_code t) ++
  le_bytes 4 (tr_flags t) ++ le_bytes 4 (tr_sender_pid t) ++ le_bytes 4 (tr_sender_euid t) ++
  le_bytes 8 (tr_data_size t) ++ le_bytes 8 (tr_offsets_size t) ++ le_bytes 8 (tr_buffer t) ++
  le_bytes 8 (tr_offsets t).

(** The [n]-byte word at offset [off]. *)
Definition field (n off : Z) (bs : bytes) : Z := le_val (ztake n (zdrop off bs)).

Definition tr_of_bytes (bs : bytes) : binder_transaction_data :=
  mkTr (field 8 0 bs) (field 8 8 bs) (field 4 16 bs) (field 4 20 bs) (s32 (field 4 24 bs))
    (field 4 28 bs) (field 8 32 bs) (field 8 40 bs) (field 8 48 bs) (field 8 56 bs).

Definition TF_ONE_WAY : Z := 0x01.
Definition TF_STATUS_CODE : Z := 0x08.
Definition TF_ACCEPT_FDS : Z := 0x10.
Definition TF_CLEAR_BUF : Z := 0x20.

(** * Commands *)

Definition BC_TRANSACTION : Z := 0x40406300.
Definition BC_REPLY : Z := 0x40406301.
Definition BC_ACQUIRE_RESULT : Z := 0x40046302.
Definition BC_FREE_BUFFER : Z := 0x40086303.
Definition BC_INCREFS : Z := 0x40046304.
Definition BC_ACQUIRE : Z := 0x40046305.
Definition BC_RELEASE : Z := 0x40046306.
Definition BC_DECREFS : Z := 0x40046307.
Definition BC_INCREFS_DONE : Z := 0x40106308.
Definition BC_ACQUIRE_DONE : Z := 0x40106309.
Definition BC_REGISTER_LOOPER : Z := 0x630b.
Definition BC_ENTER_LOOPER : Z := 0x630c.
Definition BC_EXIT_LOOPER : Z := 0x630d.
Definition BC_REQUEST_DEATH_NOTIFICATION : Z := 0x400c630e.
Definition BC_CLEAR_DEATH_NOTIFICATION : Z := 0x400c630f.
Definition BC_DEAD_BINDER_DONE : Z := 0x40086310.

Definition BR_ERROR : Z := 0x80047200.
Definition BR_OK : Z := 0x7201.
Definition BR_TRANSACTION_SEC_CTX : Z := 0x80487202.
Definition BR_TRANSACTION : Z := 0x80407202.
Definition BR_REPLY : Z := 0x80407203.
Definition BR_ACQUIRE_RESULT : Z := 0x80047204.
Definition BR_DEAD_REPLY : Z := 0x7205.
Definition BR_TRANSACTION_COMPLETE : Z := 0x7206.
Definition BR_INCREFS : Z := 0x80107207.
Definition BR_ACQUIRE : Z := 0x80107208.
Definition BR_RELEASE : Z := 0x80107209.
Definition BR_DECREFS : Z := 0x8010720a.
Definition BR_ATTEMPT_ACQUIRE : Z := 0x8018720b.
Definition BR_NOOP : Z := 0x720c.
Definition BR_SPAWN_LOOPER : Z := 0x720d.
Definition BR_FINISHED : Z := 0x720e.
Definition BR_DEAD_BINDER : Z := 0x8008720f.
Definition BR_CLEAR_DEATH_NOTIFICATION_DONE : Z := 0x80087210.
Definition BR_FAILED_REPLY : Z := 0x7211.
Definition BR_FROZEN_REPLY : Z := 0x7212.
Definition BR_ONEWAY_SPAM_SUSPECT : Z := 0x7213.

Inductive Command :=
| Transaction (tr : binder_transaction_data)
| Reply (tr : binder_transaction_data)
| AcquireResult (result : Z)
| FreeBuffer (buffer : Z)
| IncRefs (handle : Z)
| Acquire (handle : Z)
| Release (handle : Z)
| DecRefs (handle : Z)
| IncRefsDone (ptr cookie : Z)
| AcquireDone (ptr cookie : Z)
| RegisterLooper
| EnterLooper
| ExitLooper
| RequestDeathNotification (handle cookie : Z)
| ClearDeathNotification (handle cookie : Z)
| DeadBinderDone (cookie : Z).

Definition encode_command (c : Command) : bytes :=
  match c with
  | Transaction tr => le_bytes 4 BC_TRANSACTION ++ tr_bytes tr
  | Reply tr => le_bytes 4 BC_REPLY ++ tr_bytes tr
  | AcquireResult r => le_bytes 4 BC_ACQUIRE_RESULT ++ le_bytes 4 r
  | FreeBuffer a => le_bytes 4 BC_FREE_BUFFER ++ le_bytes 8 a
  | IncRefs h => le_bytes 4 BC_INCREFS ++ le_bytes 4 h
  | Acquire h => le_bytes 4 BC_ACQUIRE ++ le_bytes 4 h
  | Release h => le_bytes 4 BC_RELEASE ++ le_bytes 4 h
  | DecRefs h => le_bytes 4 BC_DECREFS ++ le_bytes 4 h
  | IncRefsDone p c => le_bytes 4 BC_INCREFS_DONE ++ le_bytes 8 p ++ le_bytes 8 c
  | AcquireDone p c => le_bytes 4 BC_ACQUIRE_DONE ++ le_bytes 8 p ++ le_bytes 8 c
  | RegisterLooper => le_bytes 4 BC_REGISTER_LOOPER
  | EnterLooper => le_bytes 4 BC_ENTER_LOOPER
  | ExitLooper => le_bytes 4 BC_EXIT_LOOPER
  | RequestDeathNotification h c =>
      le_bytes 4 BC_REQUEST_DEATH_NOTIFICATION ++ le_bytes 4 h ++ le_bytes 8 c
  | ClearDeathNotification h c =>
      le_bytes 4 BC_CLEAR_DEATH_NOTIFICATION ++ le_bytes 4 h ++ le_bytes 8 c
  | DeadBinderDone c => le_bytes 4 BC_DEAD_BINDER_DONE ++ le_bytes 8 c
  end.

Definition encode_commands (l : list Command) : bytes := concat (map encode_command l).

(** The driver takes the commands off the buffer one by one. *)
Definition parse_one (bs : bytes) : option (Command * bytes) :=
  let code := field 4 0 bs in
  let take_ (n : Z) (c : Command) := if zlen bs <? n then None else Some (c, zdrop n bs) in
  if zlen bs <? 4 then None else
  if code =? BC_TRANSACTION then take_ 68 (Transaction (tr_of_bytes (zdrop 4 bs))) else
  if code =? BC_REPLY then take_ 68 (Reply (tr_of_bytes (zdrop 4 bs))) else
  if code =? BC_ACQUIRE_RESULT then take_ 8 (AcquireResult (s32 (field 4 4 bs))) else
  if code =? BC_FREE_BUFFER then take_ 12 (FreeBuffer (field 8 4 bs)) else
  if code =? BC_INCREFS then take_ 8 (IncRefs (s32 (field 4 4 bs))) else
  if code =? BC_ACQUIRE then take_ 8 (Acquire (s32 (field 4 4 bs))) else
  if code =? BC_RELEASE then take_ 8 (Release (s32 (field 4 4 bs))) else
  if code =? BC_DECREFS then take_ 8 (DecRefs (s32 (field 4 4 bs))) else
  if code =? BC_INCREFS_DONE then take_ 20 (IncRefsDone (field 8 4 bs) (field 8 12 bs)) else
  if code =? BC_ACQUIRE_DONE then take_ 20 (AcquireDone (field 8 4 bs) (field 8 12 bs)) else
  if code =? BC_REGISTER_LOOPER then take_ 4 RegisterLooper else
  if code =? BC_ENTER_LOOPER then take_ 4 EnterLooper else
  if code =? BC_EXIT_LOOPER then take_ 4 ExitLooper else
  if code =? BC_REQUEST_DEATH_NOTIFICATION
  then take_ 16 (RequestDeathNotification (s32 (field 4 4 bs)) (field 8 8 bs)) else
  if code =? BC_CLEAR_DEATH_NOTIFICATION
  then take_ 16 (ClearDeathNotification (s32 (field 4 4 bs)) (field 8 8 bs)) else
  if code =? BC_DEAD_BINDER_DONE then take_ 12 (DeadBinderDone (field 8 4 bs)) else None.

(** Every command takes at least four bytes: the length is enough fuel. *)
Fixpoint parse_from (fuel : nat) (bs : bytes) : option (list Command) :=
  match bs, fuel with
  | [], _ => Some []
  | _, O => None
  | _, S fuel => '(c, rest) ← parse_one bs; l ← parse_from fuel rest; Some (c :: l)
  end.
Definition parse_commands (bs : bytes) : option (list Command) := parse_from (length bs) bs.

(** * The driver reads back what was sent *)

Definition tr_ok (t : binder_transaction_data) : Prop :=
  is_u64 (tr_target t) /\ is_u64 (tr_cookie t) /\ is_u32 (tr_code t) /\ is_u32 (tr_flags t) /\
  is_s32 (tr_sender_pid t) /\ is_u32 (tr_sender_euid t) /\ is_u64 (tr_data_size t) /\
  is_u64 (tr_offsets_size t) /\ is_u64 (tr_buffer t) /\ is_u64 (tr_offsets t).

Definition command_ok (c : Command) : Prop :=
  match c with
  | Transaction tr | Reply tr => tr_ok tr
  | AcquireResult h | IncRefs h | Acquire h | Release h | DecRefs h => is_s32 h
  | FreeBuffer a | DeadBinderDone a => is_u64 a
  | IncRefsDone p c | AcquireDone p c => is_u64 p /\ is_u64 c
  | RequestDeathNotification h c | ClearDeathNotification h c => is_s32 h /\ is_u64 c
  | RegisterLooper | EnterLooper | ExitLooper => True
  end.

Lemma field_skip n off off' k v bs :
  off = Z.of_nat k + off' -> 0 <= off' -> field n off (le_bytes k v ++ bs) = field n off' bs.
Proof.
  intros -> H. unfold field, zdrop. do 2 f_equal.
  rewrite drop_app_ge by (rewrite length_le_bytes; lia). f_equal. rewrite length_le_bytes. lia.
Qed.

Lemma field_head n bs1 bs2 : n = zlen bs1 -> field n 0 (bs1 ++ bs2) = le_val bs1.
Proof. intros ->. unfold field. by rewrite zdrop_0, ztake_app_exact. Qed.

Lemma field_4s v bs : is_s32 v -> s32 (field 4 0 (le_bytes 4 v ++ bs)) = v.
Proof.
  intros H. rewrite field_head by (by rewrite zlen_le_bytes). rewrite le_val_4. unfold u32.
  rewrite s32_mod. by apply s32_small.
Qed.

Lemma field_4 v bs : is_u32 v -> field 4 0 (le_bytes 4 v ++ bs) = v.
Proof.
  intros H. rewrite field_head by (by rewrite zlen_le_bytes). rewrite le_val_4. by apply u32_small.
Qed.

Lemma field_8 v bs : is_u64 v -> field 8 0 (le_bytes 8 v ++ bs) = v.
Proof.
  intros H. rewrite field_head by (by rewrite zlen_le_bytes). rewrite le_val_8. by apply u64_small.
Qed.

(** Pick a field out of a concatenation of words. *)
Ltac skip_field :=
  match goal with
  | |- context [field ?n ?off (le_bytes ?k ?v ++ ?bs)] =>
      let off' := eval vm_compute in (off - Z.of_nat k) in
      rewrite (field_skip n off off' k v bs) by (vm_compute; first [reflexivity|discriminate])
  end.
Ltac pick_field :=
  repeat skip_field;
  repeat first [rewrite field_8 by done | rewrite field_4s by done | rewrite field_4 by done];
  reflexivity.

Lemma zlen_tr_bytes t : zlen (tr_bytes t) = 64.
Proof. unfold tr_bytes. by rewrite !zlen_app, !zlen_le_bytes. Qed.

Lemma tr_round_trip t rest : tr_ok t -> tr_of_bytes (tr_bytes t ++ rest) = t.
Proof.
  destruct t as [a b c d e f g h i j].
  intros (Ha & Hb & Hc & Hd & He & Hf & Hg & Hh & Hi & Hj).
  unfold tr_of_bytes, tr_bytes. cbn [tr_target tr_cookie tr_code tr_flags tr_sender_pid
    tr_sender_euid tr_data_size tr_offsets_size tr_buffer tr_offsets] in *.
  rewrite <- !app_assoc. pick_field.
Qed.

Definition command_size (c : Command) : Z :=
  match c with
  | Transaction _ | Reply _ => 68
  | AcquireResult _ | IncRefs _ | Acquire _ | Release _ | DecRefs _ => 8
  | FreeBuffer _ | DeadBinderDone _ => 12
  | IncRefsDone _ _ | AcquireDone _ _ => 20
  | RegisterLooper | EnterLooper | ExitLooper => 4
  | RequestDeathNotification _ _ | ClearDeathNotification _ _ => 16
  end.

Lemma zlen_encode_command c : zlen (encode_command c) = command_size c.
Proof. destruct c; cbn [encode_command]; by rewrite ?zlen_app, ?zlen_tr_bytes, ?zlen_le_bytes. Qed.

Lemma command_size_ge c : 4 <= command_size c.
Proof. destruct c; simpl; lia. Qed.

Lemma zdrop_app_head {A} n (l k : list A) : n = zlen l -> zdrop n (l ++ k) = k.
Proof. apply zdrop_app_exact. Qed.

(** The tests of [parse_one] on a known code and size. *)
Ltac known_code :=
  repeat match goal with
  | |- context [?a =? ?b] =>
      let r := eval vm_compute in (a =? b) in change (a =? b) with r; cbv iota
  end.

Lemma parse_one_encode c rest :
  command_ok c -> parse_one (encode_command c ++ rest) = Some (c, rest).
Proof.
  intros Hc. unfold parse_one.
  assert (Hlen : zlen (encode_command c ++ rest) = command_size c + zlen rest)
    by (by rewrite zlen_app, zlen_encode_command).
  assert (Hrest : zdrop (command_size c) (encode_command c ++ rest) = rest)
    by (apply zdrop_app_exact; by rewrite zlen_encode_command).
  pose proof (zlen_nonneg rest) as Hr. pose proof (command_size_ge c) as Hs. rewrite Hlen.
  zdec (command_size c + zlen rest <? 4).
  destruct c; cbn [command_size command_ok] in *; cbn [encode_command] in *;
    rewrite <- ?app_assoc in *; rewrite field_4 by done; known_code; rewrite Hrest;
    try (match goal with |- context [?a <? ?b] => zdec (a <? b) end); cbv iota.
  all: try (rewrite zdrop_app_head by (by rewrite zlen_le_bytes); by rewrite tr_round_trip).
  all: try destruct Hc; pick_field.
Qed.

Lemma parse_encode_commands l : Forall command_ok l -> parse_commands (encode_commands l) = Some l.
Proof.
  unfold parse_commands. intros Hl.
  assert (H : forall fuel, (length (encode_commands l) <= fuel)%nat -> parse_from fuel (encode_commands l) = Some l); [|by apply H].
  induction Hl as [|c l Hc Hl IH]; intros fuel Hf; [by destruct fuel|].
  change (encode_commands (c :: l)) with (encode_command c ++ encode_commands l) in *.
  pose proof (zlen_encode_command c) as Hz. pose proof (command_size_ge c) as Hs.
  rewrite length_app in Hf. unfold zlen in Hz.
  destruct fuel as [|fuel]; [lia|]. cbn [parse_from].
  destruct (encode_command c ++ encode_commands l) as [|b bs] eqn:E.
  { apply (f_equal length) in E. rewrite length_app in E. simpl in E. lia. }
  rewrite <- E, parse_one_encode by done. cbn [mbind option_bind]. by rewrite IH by lia.
Qed.

Lemma encode_commands_app l k : encode_commands (l ++ k) = encode_commands l ++ encode_commands k.
Proof. unfold encode_commands. by rewrite map_app, concat_app. Qed.

Lemma encode_one c : encode_commands [c] = encode_command c.
Proof. unfold encode_commands. simpl. by rewrite app_nil_r. Qed.
