(* ===== verification/Proxy.v ===== *)
(** Proxies of remote binders: src/libs/binder/BpBinder.cpp and the handle table
    of ProcessState.cpp.

    A proxy is an object at an address, with its strong and weak counts: RefBase
    (libutils) calls [onFirstRef], [onLastStrongRef] and the destructor, and a
    strong reference also counts as a weak one.  The commands for the driver are
    appended to a log, the notifications to another; [IpcThread] shows that the
    log is what the driver receives.  Each operation runs under the lock the
    code holds. *)

From stdpp Require Import sorting.
From S2P Require Import Prelude Errors ParcelState Driver.

(** * Attached objects *)

Record entry_t := mkEntry { e_object : Z; e_cleanupCookie : Z; e_func : Z }.

(** [std::map] iterates by key. *)
Definition key_le (a b : Z * entry_t) : Prop := fst a <= fst b.
#[export] Instance key_le_dec : RelDecision key_le.
Proof. intros a b. unfold key_le. apply _. Defined.

Module ObjectManager.
Definition t := gmap Z entry_t.

(** The object already there ([0] when there was none), and the new table. *)
Definition attach (objectID object cleanupCookie func : Z) (m : t) : Z * t :=
  match m !! objectID with
  | Some e => (e_object e, m)
  | None => (0, <[objectID := mkEntry object cleanupCookie func]> m)
  end.

Definition find (objectID : Z) (m : t) : Z :=
  match m !! objectID with Some e => e_object e | None => 0 end.

Definition detach (objectID : Z) (m : t) : Z * t :=
  match m !! objectID with
  | Some e => (e_object e, delete objectID m)
  | None => (0, m)
  end.

(** The clean-up calls made, and the empty table. *)
Definition kill (m : t) : list (Z * entry_t) * t :=
  (List.filter (fun e => negb (e_func (snd e) =? 0)) (merge_sort key_le (map_to_list m)), ∅).
End ObjectManager.

(** * State *)

Inductive Handle :=
| BinderHandle (handle : Z)
| RpcHandle (session address : Z).

Record Obituary := mkObituary { recipient : Z; ob_cookie : Z; ob_flags : Z }.

(** [p_strong] is [None] before the first strong reference. *)
Record BpBinder := mkBpBinder {
  mHandle : Handle;
  mAlive : bool;
  mObitsSent : bool;
  mObituaries : option (list Obituary);
  mAttached : ObjectManager.t;
  mTrackedUid : Z;
  p_strong : option Z;
  p_weak : Z;
}.

Record handle_entry := mkHandleEntry { he_binder : option Z; he_refs : option Z }.

Record BP := mkBP {
  proxies : gmap Z BpBinder;
  next_proxy : Z;
  sTrackingMap : gmap Z Z;
  sLastLimitCallbackMap : gmap Z Z;
  sCountByUidEnabled : bool;
  sLimitCallback : bool;
  sBinderProxyThrottleCreate : bool;
  sBinderProxyCountHighWatermark : Z;
  sBinderProxyCountLowWatermark : Z;
  mHandleToObject : list handle_entry;
  bp_callRestriction : Z;
  commands : list Command;
  deaths_told : list (Z * Z);
  limits_told : list Z;
  cleanups : list (Z * entry_t);
}.

Definition LIMIT_REACHED_MASK : Z := 0x80000000.
Definition COUNTING_VALUE_MASK : Z := 0x7fffffff.

Definition start : BP :=
  mkBP ∅ 1 ∅ ∅ false false false 2500 2000 [] 0 [] [] [] [].

Definition with_proxies (x : gmap Z BpBinder) (s : BP) : BP :=
  mkBP x (next_proxy s) (sTrackingMap s) (sLastLimitCallbackMap s) (sCountByUidEnabled s)
    (sLimitCallback s) (sBinderProxyThrottleCreate s) (sBinderProxyCountHighWatermark s)
    (sBinderProxyCountLowWatermark s) (mHandleToObject s) (bp_callRestriction s) (commands s)
    (deaths_told s) (limits_told s) (cleanups s).
Definition with_next (x : Z) (s : BP) : BP :=
  mkBP (proxies s) x (sTrackingMap s) (sLastLimitCallbackMap s) (sCountByUidEnabled s)
    (sLimitCallback s) (sBinderProxyThrottleCreate s) (sBinderProxyCountHighWatermark s)
    (sBinderProxyCountLowWatermark s) (mHandleToObject s) (bp_callRestriction s) (commands s)
    (deaths_told s) (limits_told s) (cleanups s).
Definition with_tracking (x y : gmap Z Z) (s : BP) : BP :=
  mkBP (proxies s) (next_proxy s) x y (sCountByUidEnabled s)
    (sLimitCallback s) (sBinderProxyThrottleCreate s) (sBinderProxyCountHighWatermark s)
    (sBinderProxyCountLowWatermark s) (mHandleToObject s) (bp_callRestriction s) (commands s)
    (deaths_told s) (limits_told s) (cleanups s).
Definition with_settings (enabled callback throttle : bool) (high low : Z) (s : BP) : BP :=
  mkBP (proxies s) (next_proxy s) (sTrackingMap s) (sLastLimitCallbackMap s) enabled
    callback throttle high low (mHandleToObject s) (bp_callRestriction s) (commands s)
    (deaths_told s) (limits_told s) (cleanups s).
Definition with_handles (x : list handle_entry) (s : BP) : BP :=
  mkBP (proxies s) (next_proxy s) (sTrackingMap s) (sLastLimitCallbackMap s) (sCountByUidEnabled s)
    (sLimitCallback s) (sBinderProxyThrottleCreate s) (sBinderProxyCountHighWatermark s)
    (sBinderProxyCountLowWatermark s) x (bp_callRestriction s) (commands s)
    (deaths_told s) (limits_told s) (cleanups s).
Definition with_restriction (x : Z) (s : BP) : BP :=
  mkBP (proxies s) (next_proxy s) (sTrackingMap s) (sLastLimitCallbackMap s) (sCountByUidEnabled s)
    (sLimitCallback s) (sBinderProxyThrottleCreate s) (sBinderProxyCountHighWatermark s)
    (sBinderProxyCountLowWatermark s) (mHandleToObject s) x (commands s)
    (deaths_told s) (limits_told s) (cleanups s).
Definition with_logs (c : list Command) (d : list (Z * Z)) (l : list Z) (k : list (Z * entry_t))
    (s : BP) : BP :=
  mkBP (proxies s) (next_proxy s) (sTrackingMap s) (sLastLimitCallbackMap s) (sCountByUidEnabled s)
    (sLimitCallback s) (sBinderProxyThrottleCreate s) (sBinderProxyCountHighWatermark s)
    (sBinderProxyCountLowWatermark s) (mHandleToObject s) (bp_callRestriction s) c d l k.

Definition issue (c : Command) : M BP unit :=
  modify (fun s => with_logs (commands s ++ [c]) (deaths_told s) (limits_told s) (cleanups s) s).
Definition tell_death (r a : Z) : M BP unit :=
  modify (fun s => with_logs (commands s) (deaths_told s ++ [(r, a)]) (limits_told s) (cleanups s) s).
Definition tell_limit (u : Z) : M BP unit :=
  modify (fun s => with_logs (commands s) (deaths_told s) (limits_told s ++ [u]) (cleanups s) s).

(** A proxy is used through a pointer: using one that is gone is a fault. *)
Definition proxy_at (a : Z) : M BP BpBinder :=
  let* m := gets proxies in require (m !! a).
Definition put_proxy (a : Z) (p : BpBinder) : M BP unit :=
  modify (fun s => with_proxies (<[a := p]> (proxies s)) s).

Definition set_refs (strong : option Z) (weak : Z) (p : BpBinder) : BpBinder :=
  mkBpBinder (mHandle p) (mAlive p) (mObitsSent p) (mObituaries p) (mAttached p) (mTrackedUid p)
    strong weak.
Definition set_death (alive sent : bool) (obits : option (list Obituary)) (p : BpBinder) : BpBinder :=
  mkBpBinder (mHandle p) alive sent obits (mAttached p) (mTrackedUid p) (p_strong p) (p_weak p).
Definition set_attached (m : ObjectManager.t) (p : BpBinder) : BpBinder :=
  mkBpBinder (mHandle p) (mAlive p) (mObitsSent p) (mObituaries p) m (mTrackedUid p)
    (p_strong p) (p_weak p).

Definition isRpcBinder (p : BpBinder) : bool :=
  match mHandle p with RpcHandle _ _ => true | BinderHandle _ => false end.
(** [std::get] throws on the other alternative. *)
Definition binderHandle (p : BpBinder) : M BP Z :=
  match mHandle p with BinderHandle h => ret h | RpcHandle _ _ => fault end.
Definition isBinderAlive (p : BpBinder) : bool := mAlive p.

(** * References *)

(** [sendDecStrong] of an RPC session is modelled with the session. *)
Definition onFirstRef (a : Z) : M BP unit :=
  let* p := proxy_at a in
  if isRpcBinder p then ret tt else
  let* h := binderHandle p in issue (Acquire h).

Definition onLastStrongRef (a : Z) : M BP unit :=
  let* p := proxy_at a in
  if isRpcBinder p then ret tt else
  let* h := binderHandle p in
  issue (Release h) ;;
  match mObituaries p with
  | None => ret tt
  | Some _ =>
      issue (ClearDeathNotification h a) ;;
      put_proxy a (set_death (mAlive p) (mObitsSent p) None p)
  end.

Definition incWeak (a : Z) : M BP unit :=
  let* p := proxy_at a in put_proxy a (set_refs (p_strong p) (p_weak p + 1) p).
(** At zero the object is about to be destroyed: [destroy] follows. *)
Definition decWeak (a : Z) : M BP unit :=
  let* p := proxy_at a in put_proxy a (set_refs (p_strong p) (p_weak p - 1) p).

Definition incStrong (a : Z) : M BP unit :=
  let* p := proxy_at a in
  put_proxy a (set_refs (Some (default 0 (p_strong p) + 1)) (p_weak p + 1) p) ;;
  match p_strong p with None => onFirstRef a | Some _ => ret tt end.

(** [forceIncStrong] also revives an object whose last strong reference is gone. *)
Definition forceIncStrong (a : Z) : M BP unit :=
  let* p := proxy_at a in
  put_proxy a (set_refs (Some (default 0 (p_strong p) + 1)) (p_weak p + 1) p) ;;
  if default 0 (p_strong p) =? 0 then onFirstRef a else ret tt.

Definition decStrong (a : Z) : M BP unit :=
  let* p := proxy_at a in
  let c := default 0 (p_strong p) - 1 in
  put_proxy a (set_refs (Some c) (p_weak p) p) ;;
  (if c =? 0 then onLastStrongRef a else ret tt) ;;
  decWeak a.

(** * Creation and destruction *)

Definition tracked (m : gmap Z Z) (u : Z) : Z := default 0 (m !! u).

(** The accounting of [create]; [false]: the creation is throttled.  An access
    with [operator[]] adds the entry. *)
Definition track_create (u : Z) : M BP bool :=
  let* s := get in
  let v := tracked (sTrackingMap s) u in
  let m := <[u := v]> (sTrackingMap s) in
  let count (m l : gmap Z Z) :=
    modify (with_tracking (<[u := u32 (tracked m u + 1)]> m) l) ;; ret true in
  if negb (Z.land v LIMIT_REACHED_MASK =? 0) then
    if sBinderProxyThrottleCreate s then modify (with_tracking m (sLastLimitCallbackMap s)) ;; ret false
    else
      let v' := Z.land v COUNTING_VALUE_MASK in
      let last := tracked (sLastLimitCallbackMap s) u in
      let l := <[u := last]> (sLastLimitCallbackMap s) in
      if (last <? v') && (sBinderProxyCountHighWatermark s <? v' - last) then
        (if sLimitCallback s then tell_limit u else ret tt) ;;
        count m (<[u := v']> l)
      else count m l
  else if sBinderProxyCountHighWatermark s <=? Z.land v COUNTING_VALUE_MASK then
    let m' := <[u := Z.lor v LIMIT_REACHED_MASK]> m in
    (if sLimitCallback s then tell_limit u else ret tt) ;;
    let l := <[u := Z.land v COUNTING_VALUE_MASK]> (sLastLimitCallbackMap s) in
    if sBinderProxyThrottleCreate s then modify (with_tracking m' l) ;; ret false
    else count m' l
  else count m (sLastLimitCallbackMap s).

Definition new_proxy (h : Handle) (trackedUid : Z) : M BP Z :=
  let* a := gets next_proxy in
  modify (with_next (a + 1)) ;;
  put_proxy a (mkBpBinder h true false None ∅ trackedUid None 0) ;;
  (match h with BinderHandle h => issue (IncRefs h) | RpcHandle _ _ => ret tt end) ;;
  incStrong a ;;
  ret a.

(** [callingUid] is the uid of the call being served. *)
Definition create (handle callingUid : Z) : M BP (option Z) :=
  let* enabled := gets sCountByUidEnabled in
  if enabled then
    let trackedUid := s32 callingUid in
    let* ok := track_create trackedUid in
    if ok then let* a := new_proxy (BinderHandle handle) trackedUid in ret (Some a) else ret None
  else let* a := new_proxy (BinderHandle handle) (-1) in ret (Some a).

Definition create_rpc (session address : Z) : M BP (option Z) :=
  let* a := new_proxy (RpcHandle session address) (-1) in ret (Some a).

(** The accounting of the destructor. *)
Definition track_destroy (u : Z) : M BP unit :=
  let* s := get in
  let v := tracked (sTrackingMap s) u in
  let m := <[u := v]> (sTrackingMap s) in
  if Z.land v COUNTING_VALUE_MASK =? 0 then modify (with_tracking m (sLastLimitCallbackMap s)) else
  let reset := negb (Z.land v LIMIT_REACHED_MASK =? 0) &&
               (Z.land v COUNTING_VALUE_MASK <=? sBinderProxyCountLowWatermark s) in
  let v' := if reset then Z.land v COUNTING_VALUE_MASK else v in
  let l := if reset then delete u (sLastLimitCallbackMap s) else sLastLimitCallbackMap s in
  let v'' := u32 (v' - 1) in
  modify (with_tracking (if v'' =? 0 then delete u m else <[u := v'']> m) l).

(** * The handle table *)

Section Table.
(** [grow_ok n]: the vector can grow to [n] entries. *)
Context (grow_ok : Z -> bool).

(** The index of the entry of [handle], once the table covers it. *)
Definition lookupHandleLocked (handle : Z) : M BP (option nat) :=
  let* t := gets mHandleToObject in
  let N := zlen t in
  if N <=? u64 handle then
    let count := u64 (handle + 1 - N) in
    if grow_ok (N + count) then
      modify (with_handles (t ++ replicate (Z.to_nat count) (mkHandleEntry None None))) ;;
      ret (Some (Z.to_nat (u64 handle)))
    else ret None
  else ret (Some (Z.to_nat (u64 handle))).

Definition entry_at (i : nat) : M BP handle_entry :=
  let* t := gets mHandleToObject in require (t !! i).
Definition put_entry (i : nat) (e : handle_entry) : M BP unit :=
  modify (fun s => with_handles (<[i := e]> (mHandleToObject s)) s).

(** [refs->attemptIncWeak]: fails once the last weak reference is gone. *)
Definition attemptIncWeak (a : Z) : M BP bool :=
  let* p := proxy_at a in
  if 0 <? p_weak p then incWeak a ;; ret true else ret false.

Definition CALL_RESTRICTION_NONE : Z := 0.

(** The first branch of [getStrongProxyForHandle]: no proxy, or one that is
    dying.  [ping] is the outcome of the dummy transaction to the context manager
    under a call restriction. *)
Definition make_proxy (ping : Z -> status_t) (callingUid handle : Z) (i : nat) : M BP (option Z) :=
  let* status :=
    if handle =? 0 then
      let* original := gets bp_callRestriction in
      modify (with_restriction CALL_RESTRICTION_NONE) ;;
      let* restriction := gets bp_callRestriction in
      let status := ping restriction in
      modify (with_restriction original) ;;
      ret status
    else ret OK in
  if (handle =? 0) && (status =? DEAD_OBJECT) then ret None else
  let* b := create handle callingUid in
  let* e := entry_at i in
  put_entry i (mkHandleEntry b (match b with Some _ => b | None => he_refs e end)) ;;
  ret b.

Definition getStrongProxyForHandle (ping : Z -> status_t) (callingUid handle : Z) : M BP (option Z) :=
  let* i := lookupHandleLocked handle in
  match i with
  | None => ret None
  | Some i =>
      let* e := entry_at i in
      match he_binder e with
      | None => make_proxy ping callingUid handle i
      | Some b =>
          let* r := require (he_refs e) in
          let* live := attemptIncWeak r in
          if live then
            forceIncStrong b ;;
            decWeak r ;;
            ret (Some b)
          else make_proxy ping callingUid handle i
      end
  end.

Definition expungeHandle (handle a : Z) : M BP unit :=
  let* i := lookupHandleLocked handle in
  match i with
  | None => ret tt
  | Some i =>
      let* e := entry_at i in
      if bool_decide (he_binder e = Some a) then put_entry i (mkHandleEntry None (he_refs e)) else ret tt
  end.

(** [~BpBinder], with the members' destructors. *)
Definition destroy (a : Z) : M BP unit :=
  let* p := proxy_at a in
  (if isRpcBinder p then ret tt else
   let* h := binderHandle p in
   (if 0 <=? mTrackedUid p then track_destroy (mTrackedUid p) else ret tt) ;;
   expungeHandle h a ;;
   issue (DecRefs h)) ;;
  modify (fun s => with_logs (commands s) (deaths_told s) (limits_told s)
    (cleanups s ++ fst (ObjectManager.kill (mAttached p))) s) ;;
  modify (fun s => with_proxies (delete a (proxies s)) s).
End Table.

(** * Death *)

(** [maxIncoming]: the incoming threads of the proxy's RPC session. *)
Definition linkToDeath (maxIncoming : Z -> Z) (a : Z) (who : option Z) (cookie flags : Z) : M BP status_t :=
  let* p := proxy_at a in
  fatal_if (match mHandle p with RpcHandle session _ => maxIncoming session <? 1 | BinderHandle _ => false end) ;;
  match who with
  | None => fatal
  | Some who =>
      let ob := mkObituary who cookie flags in
      if mObitsSent p then ret DEAD_OBJECT else
      (match mObituaries p with
       | Some _ => ret tt
       | None =>
           put_proxy a (set_death (mAlive p) (mObitsSent p) (Some []) p) ;;
           if isRpcBinder p then ret tt else
           let* h := binderHandle p in
           incWeak a ;;
           issue (RequestDeathNotification h a)
       end) ;;
      let* p := proxy_at a in
      put_proxy a (set_death (mAlive p) (mObitsSent p) (Some (default [] (mObituaries p) ++ [ob])) p) ;;
      ret NO_ERROR
  end.

(** The first obituary of the recipient, or of the cookie when no recipient is
    given. *)
Fixpoint find_obituary (who : option Z) (cookie flags : Z) (l : list Obituary) : option nat :=
  match l with
  | [] => None
  | o :: l =>
      if (bool_decide (who = Some (recipient o)) || (bool_decide (who = None) && (ob_cookie o =? cookie)))
         && (ob_flags o =? flags)
      then Some 0%nat else S <$> find_obituary who cookie flags l
  end.

Definition unlinkToDeath (a : Z) (who : option Z) (cookie flags : Z) : M BP (status_t * option Z) :=
  let* p := proxy_at a in
  if mObitsSent p then ret (DEAD_OBJECT, None) else
  let obits := default [] (mObituaries p) in
  match find_obituary who cookie flags obits with
  | None => ret (NAME_NOT_FOUND, None)
  | Some i =>
      let rest := delete i obits in
      (if bool_decide (rest = []) then
         (if isRpcBinder p then ret tt else
          let* h := binderHandle p in issue (ClearDeathNotification h a)) ;;
         put_proxy a (set_death (mAlive p) (mObitsSent p) None p)
       else put_proxy a (set_death (mAlive p) (mObitsSent p) (Some rest) p)) ;;
      ret (NO_ERROR, recipient <$> obits !! i)
  end.

(** [promote]: whether a recipient still exists. *)
Definition reportOneDeath (promote : Z -> bool) (a : Z) (obit : Obituary) : M BP unit :=
  if promote (recipient obit) then tell_death (recipient obit) a else ret tt.

Definition sendObituary (promote : Z -> bool) (a : Z) : M BP unit :=
  let* p := proxy_at a in
  put_proxy a (set_death false (mObitsSent p) (mObituaries p) p) ;;
  if mObitsSent p then ret tt else
  (match mObituaries p with
   | None => ret tt
   | Some _ =>
       if isRpcBinder p then ret tt else
       let* h := binderHandle p in issue (ClearDeathNotification h a)
   end) ;;
  put_proxy a (set_death false true None p) ;;
  for_each (default [] (mObituaries p)) (reportOneDeath promote a).

(** * Transactions *)

(** [send] is the outcome of the call through the driver or the session; the
    flags it is given have lost the private vendor bit. *)
Definition FLAG_PRIVATE_VENDOR : Z := 0x10000000.
Definition proxy_transact (send : Z -> status_t) (a flags : Z) : M BP status_t :=
  let* p := proxy_at a in
  if mAlive p then
    let status := send (Z.land flags (Z.lxor 0xffffffff FLAG_PRIVATE_VENDOR)) in
    (if status =? DEAD_OBJECT then
       put_proxy a (set_death false (mObitsSent p) (mObituaries p) p) else ret tt) ;;
    ret status
  else ret DEAD_OBJECT.

(** * Attached objects of a proxy *)

Definition attachObject (a objectID object cookie func : Z) : M BP Z :=
  let* p := proxy_at a in
  let '(r, m) := ObjectManager.attach objectID object cookie func (mAttached p) in
  put_proxy a (set_attached m p) ;; ret r.
Definition findObject (a objectID : Z) : M BP Z :=
  let* p := proxy_at a in ret (ObjectManager.find objectID (mAttached p)).
Definition detachObject (a objectID : Z) : M BP Z :=
  let* p := proxy_at a in
  let '(r, m) := ObjectManager.detach objectID (mAttached p) in
  put_proxy a (set_attached m p) ;; ret r.

(** * Accounting interface *)

Definition getBinderProxyCount (u : Z) (s : BP) : Z :=
  match sTrackingMap s !! u with Some v => Z.land v COUNTING_VALUE_MASK | None => 0 end.
Definition getCountByUid (s : BP) : list (Z * Z) :=
  map (fun '(u, v) => (u, Z.land v COUNTING_VALUE_MASK)) (map_to_list (sTrackingMap s)).
Definition setCountByUidEnabled (enable : bool) : M BP unit :=
  modify (fun s => with_settings enable (sLimitCallback s) (sBinderProxyThrottleCreate s)
    (sBinderProxyCountHighWatermark s) (sBinderProxyCountLowWatermark s) s).
Definition setLimitCallback (cb : bool) : M BP unit :=
  modify (fun s => with_settings (sCountByUidEnabled s) cb (sBinderProxyThrottleCreate s)
    (sBinderProxyCountHighWatermark s) (sBinderProxyCountLowWatermark s) s).
Definition setBinderProxyCountWatermarks (high low : Z) : M BP unit :=
  modify (fun s => with_settings (sCountByUidEnabled s) (sLimitCallback s) (sBinderProxyThrottleCreate s)
    (u32 high) (u32 low) s).
