(* ===== verification/ProxyProps.v ===== *)
(** Correctness of the proxies: what the driver is told and what it may call
    back, one proxy per handle, and the accounting by uid. *)

From stdpp Require Import sorting.
From S2P Require Import Prelude Errors ParcelState ParcelInv Driver Proxy.

(** * Counting *)

(** How many commands of a log satisfy [f]. *)
Definition tally (f : Command -> bool) (l : list Command) : Z := zlen (List.filter f l).

Lemma tally_app f l k : tally f (l ++ k) = tally f l + tally f k.
Proof. unfold tally. by rewrite List.filter_app, zlen_app. Qed.

Lemma tally_nonneg f l : 0 <= tally f l.
Proof. apply zlen_nonneg. Qed.

Definition requests (a : Z) : list Command -> Z :=
  tally (fun c => match c with RequestDeathNotification _ b => a =? b | _ => false end).
Definition clears (a : Z) : list Command -> Z :=
  tally (fun c => match c with ClearDeathNotification _ b => a =? b | _ => false end).
Definition acquires (h : Z) : list Command -> Z :=
  tally (fun c => match c with Acquire g => h =? g | _ => false end).
Definition releases (h : Z) : list Command -> Z :=
  tally (fun c => match c with Release g => h =? g | _ => false end).
Definition increfs (h : Z) : list Command -> Z :=
  tally (fun c => match c with IncRefs g => h =? g | _ => false end).
Definition decrefs (h : Z) : list Command -> Z :=
  tally (fun c => match c with DecRefs g => h =? g | _ => false end).
Definition dones (a : Z) (d : list Z) : Z := zlen (List.filter (Z.eqb a) d).

Definition b2z (b : bool) : Z := if b then 1 else 0.

(** How many proxies satisfy [P]. *)
Definition pcount (P : BpBinder -> bool) (m : gmap Z BpBinder) : Z :=
  Z.of_nat (size (filter (fun kv => P kv.2 = true) m)).

Lemma pcount_new P m a p :
  m !! a = None -> pcount P (<[a := p]> m) = b2z (P p) + pcount P m.
Proof.
  intros Hm. unfold pcount, b2z. destruct (P p) eqn:E.
  - rewrite map_filter_insert_True by done. rewrite map_size_insert_None; [lia|].
    apply map_lookup_filter_None. by left.
  - rewrite map_filter_insert_not'; [done|simpl; congruence|by rewrite Hm].
Qed.

Lemma pcount_delete P m a p :
  m !! a = Some p -> pcount P (delete a m) = pcount P m - b2z (P p).
Proof.
  intros Hm. rewrite <- (insert_delete_id m a p Hm) at 2.
  rewrite pcount_new by apply lookup_delete_eq. lia.
Qed.

Lemma pcount_update P m a p p' :
  m !! a = Some p -> pcount P (<[a := p']> m) = pcount P m - b2z (P p) + b2z (P p').
Proof.
  intros Hm. rewrite <- insert_delete_eq, pcount_new by apply lookup_delete_eq.
  rewrite (pcount_delete P m a p Hm). lia.
Qed.

Lemma pcount_pos P m a p : m !! a = Some p -> P p = true -> 0 < pcount P m.
Proof.
  intros Hm Hp. pose proof (pcount_delete P m a p Hm) as H. rewrite Hp in H. simpl in H.
  unfold pcount in *. lia.
Qed.

(** * What the driver and the threads may do

    [d] holds the cookies for which the driver reported
    [BR_CLEAR_DEATH_NOTIFICATION_DONE].  A thread uses a proxy through a strong
    reference it owns; the driver uses the cookie of a death request until it has
    reported that the request is cleared. *)

Inductive op :=
| GetProxy (callingUid handle : Z)
| RpcProxy (session address : Z)
| IncStrong (a : Z)
| DecStrong (a : Z)
| IncWeak (a : Z)
| DecWeak (a : Z)
| Link (a who cookie flags : Z)
| Unlink (a : Z) (who : option Z) (cookie flags : Z)
| Transact (a flags : Z)
| Attach (a objectID object cookie func : Z)
| Detach (a objectID : Z)
| DeadBinder (a : Z)
| ClearDone (a : Z)
| Destroy (a : Z)
| SetCounting (enable : bool)
| SetCallback (cb : bool)
| SetWatermarks (high low : Z).

Section Run.
Context (grow_ok : Z -> bool) (ping : Z -> status_t) (maxIncoming : Z -> Z).
Context (promote : Z -> bool) (send : Z -> status_t).

Definition exec (o : op) : M BP unit :=
  match o with
  | GetProxy uid h => getStrongProxyForHandle grow_ok ping uid h ;; ret tt
  | RpcProxy ss addr => create_rpc ss addr ;; ret tt
  | IncStrong a => incStrong a
  | DecStrong a => decStrong a
  | IncWeak a => incWeak a
  | DecWeak a => decWeak a
  | Link a who cookie flags => linkToDeath maxIncoming a (Some who) cookie flags ;; ret tt
  | Unlink a who cookie flags => unlinkToDeath a who cookie flags ;; ret tt
  | Transact a flags => proxy_transact send a flags ;; ret tt
  | Attach a id object cookie func => attachObject a id object cookie func ;; ret tt
  | Detach a id => detachObject a id ;; ret tt
  | DeadBinder a => sendObituary promote a
  | ClearDone a => decWeak a
  | Destroy a => destroy grow_ok a
  | SetCounting b => setCountByUidEnabled b
  | SetCallback b => setLimitCallback b
  | SetWatermarks h l => setBinderProxyCountWatermarks h l
  end.

Definition strong_of (s : BP) (a : Z) : Z := default 0 (proxies s !! a ≫= p_strong).
Definition weak_of (s : BP) (a : Z) : Z := default 0 (p_weak <$> proxies s !! a).
(** The death requests of [a] the driver still knows. *)
Definition outstanding (s : BP) (d : list Z) (a : Z) : Z := requests a (commands s) - dones a d.

Definition enabled (s : BP) (d : list Z) (o : op) : Prop :=
  match o with
  | GetProxy uid h =>
      is_u32 uid /\ 0 <= h < 2147483648 /\ Z.of_nat (size (proxies s)) < 2147483647
  | IncStrong a | DecStrong a | Link a _ _ _ | Unlink a _ _ _ | Transact a _ | Attach a _ _ _ _
  | Detach a _ => 0 < strong_of s a
  | IncWeak a => 0 < weak_of s a
  | DecWeak a => strong_of s a + outstanding s d a < weak_of s a
  | DeadBinder a => 0 < outstanding s d a
  | ClearDone a => dones a d < clears a (commands s)
  | Destroy a => is_Some (proxies s !! a) /\ weak_of s a = 0
  | RpcProxy _ _ | SetCounting _ | SetCallback _ | SetWatermarks _ _ => True
  end.

Definition after (o : op) (d : list Z) : list Z :=
  match o with ClearDone a => d ++ [a] | _ => d end.

Inductive reach : BP -> list Z -> Prop :=
| reach_start : reach start []
| reach_step s d o s' :
    reach s d -> enabled s d o -> exec o s = Ret tt s' -> reach s' (after o d).
End Run.

(** * The invariant *)

(** A proxy of the driver: the request outstanding when there are recipients,
    and the weak references held for the driver. *)
Record kernel_ok (a : Z) (p : BpBinder) (h : Z) (cs : list Command) (d : list Z) : Prop := {
  ko_handle : 0 <= h < 2147483648;
  ko_uid : -2147483648 <= mTrackedUid p < 2147483648;
  ko_dones : dones a d <= clears a cs;
  ko_requests : requests a cs = clears a cs + b2z (bool_decide (is_Some (mObituaries p)));
  ko_weak : default 0 (p_strong p) + (requests a cs - dones a d) <= p_weak p;
  ko_obits : is_Some (mObituaries p) -> mObitsSent p = false /\ 0 < default 0 (p_strong p);
}.

Record rpc_ok (a : Z) (p : BpBinder) (cs : list Command) (d : list Z) : Prop := {
  ro_uid : mTrackedUid p = -1;
  ro_requests : requests a cs = dones a d;
  ro_clears : clears a cs = dones a d;
  ro_weak : default 0 (p_strong p) <= p_weak p;
}.

Definition proxy_ok (a : Z) (p : BpBinder) (cs : list Command) (d : list Z) : Prop :=
  is_Some (p_strong p) /\ 0 <= default 0 (p_strong p) /\
  (forall l, mObituaries p = Some l -> l <> []) /\
  match mHandle p with
  | BinderHandle h => kernel_ok a p h cs d
  | RpcHandle _ _ => rpc_ok a p cs d
  end.

Definition is_handle (h : Z) (p : BpBinder) : bool :=
  match mHandle p with BinderHandle g => h =? g | RpcHandle _ _ => false end.
Definition is_held (h : Z) (p : BpBinder) : bool := is_handle h p && (0 <? default 0 (p_strong p)).
Definition is_tracked (u : Z) (p : BpBinder) : bool := u =? mTrackedUid p.

(** A count, and whether the limit bit is set. *)
Definition track_value (c : Z) (limit : bool) : Z := if limit then c + 2147483648 else c.

Definition counted (s : BP) (u c : Z) : Prop :=
  c < 2147483648 /\ exists limit, tracked (sTrackingMap s) u = track_value c limit.

Record inv (s : BP) (d : list Z) : Prop := {
  i_fresh : forall a, is_Some (proxies s !! a) -> 0 < a < next_proxy s;
  i_next : 0 < next_proxy s;
  i_gone : forall a, proxies s !! a = None ->
    requests a (commands s) = dones a d /\ clears a (commands s) = dones a d;
  i_proxy : forall a p, proxies s !! a = Some p -> proxy_ok a p (commands s) d;
  i_table : forall (i : nat) e a, mHandleToObject s !! i = Some e -> he_binder e = Some a ->
    he_refs e = Some a /\ exists p, proxies s !! a = Some p /\ mHandle p = BinderHandle (Z.of_nat i);
  i_listed : forall a p h, proxies s !! a = Some p -> mHandle p = BinderHandle h ->
    exists e, mHandleToObject s !! Z.to_nat h = Some e /\ (0 < p_weak p -> he_binder e = Some a);
  i_acquires : forall h,
    acquires h (commands s) - releases h (commands s) = pcount (is_held h) (proxies s);
  i_increfs : forall h,
    increfs h (commands s) - decrefs h (commands s) = pcount (is_handle h) (proxies s);
  i_tracked : forall u, 0 <= u -> counted s u (pcount (is_tracked u) (proxies s));
}.

Lemma tally_cons f c l : tally f (c :: l) = b2z (f c) + tally f l.
Proof. unfold tally. cbn [List.filter]. destruct (f c); cbn [b2z]; rewrite ?zlen_cons; lia. Qed.

Lemma requests_app a l k : requests a (l ++ k) = requests a l + requests a k.
Proof. apply tally_app. Qed.
Lemma requests_cons a c l :
  requests a (c :: l) = b2z (match c with RequestDeathNotification _ b => a =? b | _ => false end) + requests a l.
Proof. apply tally_cons. Qed.
Lemma clears_app a l k : clears a (l ++ k) = clears a l + clears a k.
Proof. apply tally_app. Qed.
Lemma clears_cons a c l :
  clears a (c :: l) = b2z (match c with ClearDeathNotification _ b => a =? b | _ => false end) + clears a l.
Proof. apply tally_cons. Qed.
Lemma acquires_app a l k : acquires a (l ++ k) = acquires a l + acquires a k.
Proof. apply tally_app. Qed.
Lemma acquires_cons a c l :
  acquires a (c :: l) = b2z (match c with Acquire b => a =? b | _ => false end) + acquires a l.
Proof. apply tally_cons. Qed.
Lemma releases_app a l k : releases a (l ++ k) = releases a l + releases a k.
Proof. apply tally_app. Qed.
Lemma releases_cons a c l :
  releases a (c :: l) = b2z (match c with Release b => a =? b | _ => false end) + releases a l.
Proof. apply tally_cons. Qed.
Lemma increfs_app a l k : increfs a (l ++ k) = increfs a l + increfs a k.
Proof. apply tally_app. Qed.
Lemma increfs_cons a c l :
  increfs a (c :: l) = b2z (match c with IncRefs b => a =? b | _ => false end) + increfs a l.
Proof. apply tally_cons. Qed.
Lemma decrefs_app a l k : decrefs a (l ++ k) = decrefs a l + decrefs a k.
Proof. apply tally_app. Qed.
Lemma decrefs_cons a c l :
  decrefs a (c :: l) = b2z (match c with DecRefs b => a =? b | _ => false end) + decrefs a l.
Proof. apply tally_cons. Qed.

Create Rewrite HintDb tallies.
#[export] Hint Rewrite requests_app requests_cons : tallies.
#[export] Hint Rewrite clears_app clears_cons : tallies.
#[export] Hint Rewrite acquires_app acquires_cons : tallies.
#[export] Hint Rewrite releases_app releases_cons : tallies.
#[export] Hint Rewrite increfs_app increfs_cons : tallies.
#[export] Hint Rewrite decrefs_app decrefs_cons : tallies.

(** Count the commands of an explicit list. *)
Ltac tallies :=
  autorewrite with tallies in *; cbv iota in *;
  repeat match goal with
  | |- context [requests ?a []] => change (requests a []) with 0
  | |- context [clears ?a []] => change (clears a []) with 0
  | |- context [acquires ?a []] => change (acquires a []) with 0
  | |- context [releases ?a []] => change (releases a []) with 0
  | |- context [increfs ?a []] => change (increfs a []) with 0
  | |- context [decrefs ?a []] => change (decrefs a []) with 0
  end; rewrite ?Z.eqb_refl;
  repeat match goal with
  | |- context [bool_decide (is_Some (@None ?A))] => change (bool_decide (is_Some (@None A))) with false
  | |- context [bool_decide (is_Some (Some ?x))] => change (bool_decide (is_Some (Some x))) with true
  | |- context [default ?d (Some ?x)] => change (default d (Some x)) with x
  | H : context [default ?d (Some ?x)] |- _ => change (default d (Some x)) with x in H
  | H : context [bool_decide (is_Some (@None ?A))] |- _ =>
      change (bool_decide (is_Some (@None A))) with false in H
  | H : context [bool_decide (is_Some (Some ?x))] |- _ =>
      change (bool_decide (is_Some (Some x))) with true in H
  | |- context [b2z (?x =? ?y)] => let E := fresh "E" in destruct (x =? y) eqn:E
  end; cbn [b2z] in *; zb.

Lemma proxy_ok_frame a p cs cs' d d' :
  proxy_ok a p cs d -> requests a cs' = requests a cs -> clears a cs' = clears a cs ->
  dones a d' = dones a d -> proxy_ok a p cs' d'.
Proof.
  intros (H1 & H2 & H3 & H4) Er Ec Ed. unfold proxy_ok. split_and!; [done..|].
  destruct (mHandle p).
  - destruct H4. constructor; rewrite ?Er, ?Ec, ?Ed; done.
  - destruct H4. constructor; rewrite ?Er, ?Ec, ?Ed; done.
Qed.

(** The effect of an operation on one proxy: its new state and the commands. *)
Definition upd (a : Z) (p' : BpBinder) (cs : list Command) (s s' : BP) : Prop :=
  proxies s' = <[a := p']> (proxies s) /\ commands s' = commands s ++ cs /\
  next_proxy s' = next_proxy s /\ mHandleToObject s' = mHandleToObject s /\
  sTrackingMap s' = sTrackingMap s.

(** The commands concern [a] alone, and account for the change of its strong
    count. *)
Definition fair (a : Z) (p p' : BpBinder) (cs : list Command) : Prop :=
  (forall b, b <> a -> requests b cs = 0 /\ clears b cs = 0) /\
  (forall h, acquires h cs - releases h cs = b2z (is_held h p') - b2z (is_held h p)) /\
  (forall h, increfs h cs = decrefs h cs).

Lemma inv_upd s s' d d' a p p' cs :
  inv s d -> proxies s !! a = Some p -> upd a p' cs s s' ->
  mHandle p' = mHandle p -> mTrackedUid p' = mTrackedUid p -> (0 < p_weak p' -> 0 < p_weak p) ->
  fair a p p' cs -> (forall b, b <> a -> dones b d' = dones b d) ->
  proxy_ok a p' (commands s ++ cs) d' -> inv s' d'.
Proof.
  intros [] Hp (Ep & Ec & En & Et & Em) Hh Hu Hw (F1 & F2 & F3) Hd Hok.
  assert (Hk : forall h, is_handle h p' = is_handle h p) by (intros h; unfold is_handle; by rewrite Hh).
  constructor; rewrite ?Ep, ?Ec, ?En, ?Et, ?Em.
  - intros b [<-|?]%lookup_insert_is_Some'; eauto.
  - done.
  - intros b [H H']%lookup_insert_None. destruct (F1 b) as [G1 G2]; [congruence|].
    autorewrite with tallies. rewrite G1, G2, Hd, !Z.add_0_r by congruence. auto.
  - intros b q [[<- <-]|[Hne Hq]]%lookup_insert_Some; [done|].
    destruct (F1 b) as [G1 G2]; [congruence|].
    eapply proxy_ok_frame; [by apply i_proxy0|autorewrite with tallies; lia..|by apply Hd].
  - intros i e b He Hb. destruct (i_table0 i e b He Hb) as (Hr & q & Hq & Hqh). split; [done|].
    destruct (decide (b = a)) as [->|Hne].
    + exists p'. rewrite lookup_insert_eq. split; [done|]. congruence.
    + exists q. by rewrite lookup_insert_ne.
  - intros b q h [[<- <-]|[Hne Hq]]%lookup_insert_Some Hqh; [|eauto].
    rewrite Hh in Hqh. destruct (i_listed0 a p h Hp Hqh) as (e & He & Hb). eauto.
  - intros h. autorewrite with tallies. rewrite (pcount_update _ _ _ _ _ Hp).
    specialize (i_acquires0 h). specialize (F2 h). lia.
  - intros h. autorewrite with tallies. rewrite (pcount_update _ _ _ _ _ Hp), Hk.
    specialize (i_increfs0 h). specialize (F3 h). lia.
  - intros u Hpos. unfold counted. rewrite Em, (pcount_update _ _ _ _ _ Hp).
    unfold is_tracked at 2 3 5 6. rewrite Hu, Z.sub_add. by apply i_tracked0.
Qed.

(** * The operations on one proxy *)

(** Run the code on a proxy that is there. *)
Ltac px_lookup :=
  cbn [proxies with_proxies with_logs]; rewrite ?lookup_insert_eq; first [eassumption | reflexivity].
Ltac px :=
  repeat first
  [ progress wp_steps
  | progress unfold put_proxy, issue, proxy_at, tell_death
  | eapply wpg_require; [px_lookup|]; cbn beta ].
Ltac upd_done :=
  unfold upd; cbn [proxies commands next_proxy mHandleToObject sTrackingMap with_proxies with_logs];
  rewrite ?insert_insert_eq, ?app_nil_r, <- ?app_assoc; split_and!; reflexivity.

Lemma incWeak_eff F s a p Q :
  proxies s !! a = Some p ->
  (forall s', upd a (set_refs (p_strong p) (p_weak p + 1) p) [] s s' -> Q tt s') ->
  wpg F (incWeak a) s Q.
Proof. intros Hp HQ. unfold incWeak. px. apply HQ. upd_done. Qed.

Lemma decWeak_eff F s a p Q :
  proxies s !! a = Some p ->
  (forall s', upd a (set_refs (p_strong p) (p_weak p - 1) p) [] s s' -> Q tt s') ->
  wpg F (decWeak a) s Q.
Proof. intros Hp HQ. unfold decWeak. px. apply HQ. upd_done. Qed.

(** The commands of the first and of the last strong reference. *)
Definition first_ref (p : BpBinder) : list Command :=
  match mHandle p with BinderHandle h => [Acquire h] | RpcHandle _ _ => [] end.
Definition last_ref (a : Z) (p : BpBinder) : list Command :=
  match mHandle p with
  | BinderHandle h =>
      Release h :: (if bool_decide (is_Some (mObituaries p)) then [ClearDeathNotification h a] else [])
  | RpcHandle _ _ => []
  end.

Lemma forceIncStrong_eff F s a p Q :
  proxies s !! a = Some p ->
  (forall s', upd a (set_refs (Some (default 0 (p_strong p) + 1)) (p_weak p + 1) p)
      (if default 0 (p_strong p) =? 0 then first_ref p else []) s s' -> Q tt s') ->
  wpg F (forceIncStrong a) s Q.
Proof.
  intros Hp HQ. unfold forceIncStrong. px. unfold first_ref in HQ.
  destruct (default 0 (p_strong p) =? 0).
  - unfold onFirstRef. px. unfold isRpcBinder, binderHandle. cbn [mHandle set_refs].
    destruct (mHandle p) eqn:Eh; px; apply HQ; upd_done.
  - px. apply HQ. upd_done.
Qed.

Lemma incStrong_eff F s a p c Q :
  proxies s !! a = Some p -> p_strong p = Some c ->
  (forall s', upd a (set_refs (Some (c + 1)) (p_weak p + 1) p) [] s s' -> Q tt s') ->
  wpg F (incStrong a) s Q.
Proof. intros Hp Hc HQ. unfold incStrong. px. rewrite Hc. px. apply HQ. upd_done. Qed.

(** Without strong references there are no recipients. *)
Definition drop_obits (p : BpBinder) : BpBinder :=
  match mHandle p with
  | BinderHandle _ => set_death (mAlive p) (mObitsSent p) None p
  | RpcHandle _ _ => p
  end.

Lemma decStrong_eff F s a p c Q :
  proxies s !! a = Some p -> p_strong p = Some c ->
  (forall s', upd a (set_refs (Some (c - 1)) (p_weak p - 1) (if c =? 1 then drop_obits p else p))
      (if c =? 1 then last_ref a p else []) s s' -> Q tt s') ->
  wpg F (decStrong a) s Q.
Proof.
  intros Hp Hc HQ. unfold decStrong, decWeak. px. rewrite Hc. change (default 0 (Some c)) with c.
  replace (c - 1 =? 0) with (c =? 1) by (apply Bool.eq_iff_eq_true; rewrite !Z.eqb_eq; lia).
  destruct (c =? 1) eqn:E1.
  - unfold onLastStrongRef. px. unfold isRpcBinder, binderHandle. cbn [mHandle set_refs mObituaries].
    unfold last_ref, drop_obits in HQ. destruct (mHandle p) as [h|ss ad] eqn:Eh.
    + px. destruct (mObituaries p) eqn:Eo; px; apply HQ; [upd_done|].
      replace (set_death _ _ _ p) with p by (destruct p; cbn in *; by subst). upd_done.
    + px. apply HQ. upd_done.
  - px. apply HQ. upd_done.
Qed.

Lemma linkToDeath_eff F maxIncoming s a p who cookie flags Q :
  proxies s !! a = Some p ->
  (match mHandle p with RpcHandle ss _ => maxIncoming ss <? 1 | BinderHandle _ => false end = true -> F) ->
  (mObitsSent p = true -> Q DEAD_OBJECT s) ->
  (mObitsSent p = false -> forall s',
    let new := bool_decide (mObituaries p = None) in
    upd a (set_death (mAlive p) false (Some (default [] (mObituaries p) ++ [mkObituary who cookie flags]))
             (if new && negb (isRpcBinder p) then set_refs (p_strong p) (p_weak p + 1) p else p))
      (match mHandle p with
       | BinderHandle h => if new then [RequestDeathNotification h a] else []
       | RpcHandle _ _ => [] end) s s' -> Q NO_ERROR s') ->
  wpg F (linkToDeath maxIncoming a (Some who) cookie flags) s Q.
Proof.
  intros Hp HF Hdead HQ. unfold linkToDeath. px.
  unfold fatal_if. match goal with |- wpg _ (if ?b then _ else _) _ _ => destruct b eqn:Em end;
    [by apply HF|]. px.
  destruct (mObitsSent p) eqn:Es; [px; by apply Hdead|]. specialize (HQ eq_refl). cbv zeta in HQ.
  unfold incWeak, isRpcBinder, binderHandle in *. destruct (mObituaries p) as [l|] eqn:Eo.
  - px. apply HQ. rewrite bool_decide_false by done. rewrite Es. cbn [andb].
    destruct (mHandle p) eqn:Eh; rewrite Eo; upd_done.
  - px. rewrite bool_decide_true in HQ by done. destruct (mHandle p) eqn:Eh; cbn [andb negb] in HQ; px;
      apply HQ; cbn [set_refs set_death mHandle mAlive mObitsSent mObituaries mAttached mTrackedUid p_strong p_weak];
      rewrite ?Es; upd_done.
Qed.

Lemma unlinkToDeath_eff F s a p who cookie flags Q :
  proxies s !! a = Some p ->
  (mObitsSent p = true -> Q (DEAD_OBJECT, None) s) ->
  (mObitsSent p = false -> find_obituary who cookie flags (default [] (mObituaries p)) = None ->
    Q (NAME_NOT_FOUND, None) s) ->
  (forall i l s', mObitsSent p = false -> mObituaries p = Some l ->
    find_obituary who cookie flags l = Some i ->
    let last := bool_decide (delete i l = []) in
    upd a (set_death (mAlive p) false (if last then None else Some (delete i l)) p)
      (match mHandle p with
       | BinderHandle h => if last then [ClearDeathNotification h a] else []
       | RpcHandle _ _ => [] end) s s' -> Q (NO_ERROR, recipient <$> l !! i) s') ->
  wpg F (unlinkToDeath a who cookie flags) s Q.
Proof.
  intros Hp Hdead Hnone HQ. unfold unlinkToDeath. px.
  destruct (mObitsSent p) eqn:Es; [px; by apply Hdead|].
  destruct (find_obituary _ _ _ _) as [i|] eqn:Ef; [|px; by apply Hnone].
  destruct (mObituaries p) as [l|] eqn:Eo; [|done]. change (default [] (Some l)) with l in *.
  specialize (HQ i l). unfold isRpcBinder, binderHandle in *.
  destruct (bool_decide (delete i l = [])) eqn:Ed.
  - destruct (mHandle p) eqn:Eh; px; apply HQ; try done; cbn; upd_done.
  - px. apply HQ; try done. cbn. destruct (mHandle p) eqn:Eh; upd_done.
Qed.

(** The recipients that still exist are told, in the order they were linked. *)
Lemma report_deaths F promote a obits s Q :
  Q tt (with_logs (commands s)
          (deaths_told s ++ map (fun o => (recipient o, a)) (List.filter (fun o => promote (recipient o)) obits))
          (limits_told s) (cleanups s) s) ->
  wpg F (for_each obits (reportOneDeath promote a)) s Q.
Proof.
  revert s. induction obits as [|o obits IH]; intros s HQ; cbn [for_each].
  - px. cbn in HQ. rewrite app_nil_r in HQ. by destruct s.
  - unfold reportOneDeath at 1. cbn [List.filter map] in HQ.
    destruct (promote (recipient o)); px; apply IH; [|done].
    cbn [deaths_told commands limits_told cleanups with_logs]. cbn [map] in HQ.
    rewrite <- app_assoc. exact HQ.
Qed.

Lemma sendObituary_eff F promote s a p Q :
  proxies s !! a = Some p ->
  (mObitsSent p = true -> forall s', upd a (set_death false true (mObituaries p) p) [] s s' ->
    deaths_told s' = deaths_told s -> Q tt s') ->
  (mObitsSent p = false -> forall s',
    upd a (set_death false true None p)
      (match mHandle p with
       | BinderHandle h => if bool_decide (is_Some (mObituaries p)) then [ClearDeathNotification h a] else []
       | RpcHandle _ _ => [] end) s s' ->
    deaths_told s' = deaths_told s ++ map (fun o => (recipient o, a))
      (List.filter (fun o => promote (recipient o)) (default [] (mObituaries p))) -> Q tt s') ->
  wpg F (sendObituary promote a) s Q.
Proof.
  intros Hp Hsent HQ. unfold sendObituary. px. destruct (mObitsSent p) eqn:Es.
  - px. apply Hsent; [done| |done]. upd_done.
  - unfold isRpcBinder, binderHandle in *. px.
    destruct (mObituaries p) as [l|] eqn:Eo; [destruct (mHandle p) eqn:Eh|]; px;
      apply report_deaths; apply HQ; try done; destruct (mHandle p) eqn:Eh'; upd_done.
Qed.

Lemma proxy_transact_eff F send s a p flags Q :
  proxies s !! a = Some p ->
  (forall st alive s', upd a (set_death alive (mObitsSent p) (mObituaries p) p) [] s s' -> Q st s') ->
  wpg F (proxy_transact send a flags) s Q.
Proof.
  intros Hp HQ. unfold proxy_transact. px.
  assert (Hid : forall b, mAlive p = b -> upd a (set_death b (mObitsSent p) (mObituaries p) p) [] s s).
  { intros b <-. replace (set_death _ _ _ p) with p by by destruct p.
    unfold upd. rewrite insert_id, app_nil_r by done. done. }
  destruct (mAlive p) eqn:Ea; [|px; eapply HQ; by apply Hid].
  px. destruct (_ =? DEAD_OBJECT); px; eapply HQ; [upd_done|by apply Hid].
Qed.

Lemma attachObject_eff F s a p id object cookie func Q :
  proxies s !! a = Some p ->
  (forall r m s', upd a (set_attached m p) [] s s' -> Q r s') ->
  wpg F (attachObject a id object cookie func) s Q.
Proof.
  intros Hp HQ. unfold attachObject. px. destruct (ObjectManager.attach _ _ _ _ _). px. eapply HQ. upd_done.
Qed.

Lemma detachObject_eff F s a p id Q :
  proxies s !! a = Some p ->
  (forall r m s', upd a (set_attached m p) [] s s' -> Q r s') ->
  wpg F (detachObject a id) s Q.
Proof.
  intros Hp HQ. unfold detachObject. px. destruct (ObjectManager.detach _ _). px. eapply HQ. upd_done.
Qed.

(** * One-proxy operations keep the invariant *)

Lemma strong_live s a : 0 < strong_of s a ->
  exists p c, proxies s !! a = Some p /\ p_strong p = Some c /\ 0 < c.
Proof.
  unfold strong_of. destruct (proxies s !! a) as [p|]; cbn; [|lia].
  destruct (p_strong p) as [c|] eqn:E; cbn; [|lia]. eauto.
Qed.

Lemma weak_live s a : 0 < weak_of s a -> exists p, proxies s !! a = Some p /\ 0 < p_weak p.
Proof. unfold weak_of. destruct (proxies s !! a) as [p|]; cbn; [eauto|lia]. Qed.

Lemma weak_of_eq s a p : proxies s !! a = Some p -> weak_of s a = p_weak p.
Proof. unfold weak_of. by intros ->. Qed.
Lemma strong_of_eq s a p : proxies s !! a = Some p -> strong_of s a = default 0 (p_strong p).
Proof. unfold strong_of. by intros ->. Qed.

(** The commands an operation may give for a proxy; the strong count may pass
    through zero only with the matching command. *)
Lemma fair_quiet a p p' :
  mHandle p' = mHandle p -> (0 <? default 0 (p_strong p')) = (0 <? default 0 (p_strong p)) ->
  fair a p p' [].
Proof.
  intros Hh Hs. unfold fair, is_held, is_handle. rewrite Hh, Hs. split_and!; [done| |done].
  intros. tallies; lia.
Qed.

Lemma fair_death a p p' cs :
  mHandle p' = mHandle p -> (0 <? default 0 (p_strong p')) = (0 <? default 0 (p_strong p)) ->
  Forall (fun c => match c with
    | RequestDeathNotification _ b | ClearDeathNotification _ b => b = a | _ => False end) cs ->
  fair a p p' cs.
Proof.
  intros Hh Hs Hcs. unfold fair, is_held, is_handle. rewrite Hh, Hs. unfold requests, clears, acquires,
    releases, increfs, decrefs, tally.
  induction Hcs as [|c cs Hc _ (IH1 & IH2 & IH3)]; [split_and!; try done; intros; cbn; lia|].
  split_and!; destruct c; try done; intros; cbn [List.filter]; auto; subst;
    (zdec (b =? a)); auto.
Qed.

Lemma fair_first a p p' :
  mHandle p' = mHandle p -> default 0 (p_strong p) = 0 -> 0 < default 0 (p_strong p') ->
  fair a p p' (first_ref p).
Proof.
  intros Hh Hs Hs'. unfold fair, is_held, is_handle, first_ref. rewrite Hh, Hs.
  zdec (0 <? default 0 (p_strong p')). zdec (0 <? 0).
  destruct (mHandle p); split_and!; try done; intros; tallies; cbn; lia.
Qed.

Lemma fair_last a p p' :
  mHandle p' = mHandle p -> 0 < default 0 (p_strong p) -> default 0 (p_strong p') = 0 ->
  fair a p p' (last_ref a p).
Proof.
  intros Hh Hs Hs'. unfold fair, is_held, is_handle, last_ref. rewrite Hh, Hs'.
  zdec (0 <? default 0 (p_strong p)). zdec (0 <? 0).
  destruct (mHandle p); [destruct (bool_decide _)|]; split_and!; try done; intros;
    try split; tallies; zb; cbn; lia.
Qed.

Ltac pf := cbn [set_refs set_death set_attached mHandle mAlive mObitsSent mObituaries mAttached mTrackedUid
  p_strong p_weak] in *.

(** Nothing of what the driver knows changes. *)
Lemma proxy_ok_quiet a p p' cs d :
  proxy_ok a p cs d -> mHandle p' = mHandle p -> mTrackedUid p' = mTrackedUid p ->
  mObituaries p' = mObituaries p -> mObitsSent p' = mObitsSent p -> is_Some (p_strong p') ->
  0 <= default 0 (p_strong p') -> default 0 (p_strong p') - default 0 (p_strong p) <= p_weak p' - p_weak p ->
  (0 < default 0 (p_strong p) -> 0 < default 0 (p_strong p')) ->
  proxy_ok a p' cs d.
Proof.
  intros (H1 & H2 & H3 & H4) Eh Eu Eo Es Hc Hc0 Hw Hpos. unfold proxy_ok. rewrite Eh, Eo.
  split_and!; [done..|]. destruct (mHandle p).
  - destruct H4. constructor; rewrite ?Eu, ?Eo, ?Es; try done; [lia|].
    intros [? ?]%ko_obits0. split; [done|auto].
  - destruct H4. constructor; rewrite ?Eu; try done. lia.
Qed.

Section Preserve.
Context (s : BP) (d : list Z) (Hinv : inv s d).

Lemma keep_quiet a p p' s' :
  proxies s !! a = Some p -> upd a p' [] s s' ->
  mHandle p' = mHandle p -> mTrackedUid p' = mTrackedUid p ->
  mObituaries p' = mObituaries p -> mObitsSent p' = mObitsSent p -> is_Some (p_strong p') ->
  0 <= default 0 (p_strong p') -> default 0 (p_strong p') - default 0 (p_strong p) <= p_weak p' - p_weak p ->
  (0 <? default 0 (p_strong p')) = (0 <? default 0 (p_strong p)) -> (0 < p_weak p' -> 0 < p_weak p) ->
  inv s' d.
Proof.
  intros Hp Hu Eh Eu Eo Es Hc Hc0 Hw Hpos Hw0.
  eapply inv_upd; eauto using fair_quiet. rewrite app_nil_r.
  eapply proxy_ok_quiet; eauto using i_proxy. intros H. apply Z.ltb_lt. rewrite Hpos. by apply Z.ltb_lt.
Qed.

Lemma proxy_facts a p : proxies s !! a = Some p ->
  is_Some (p_strong p) /\ 0 <= default 0 (p_strong p) <= p_weak p.
Proof.
  intros Hp. destruct (i_proxy s d Hinv a p Hp) as (H1 & H2 & H3 & H4). split; [done|].
  destruct (mHandle p); destruct H4; [|lia].
  assert (0 <= b2z (bool_decide (is_Some (mObituaries p)))) by (destruct (bool_decide _); cbn; lia). lia.
Qed.

Lemma incWeak_inv F a : 0 < weak_of s a -> wpg F (incWeak a) s (fun _ s' => inv s' d).
Proof.
  intros (p & Hp & Hw)%weak_live. pose proof (proxy_facts a p Hp) as [Hc Hs].
  eapply incWeak_eff; [done|]. intros s' Hu. eapply keep_quiet; eauto; pf; try done; lia.
Qed.

Lemma decWeak_inv F a :
  strong_of s a + outstanding s d a < weak_of s a -> wpg F (decWeak a) s (fun _ s' => inv s' d).
Proof.
  intros Hd. destruct (proxies s !! a) as [p|] eqn:Hp.
  2:{ unfold weak_of, strong_of, outstanding in Hd. rewrite Hp in Hd. cbn in Hd.
      destruct (i_gone s d Hinv a Hp). lia. }
  rewrite (strong_of_eq _ _ _ Hp), (weak_of_eq _ _ _ Hp) in Hd. unfold outstanding in Hd.
  eapply decWeak_eff; [done|]. intros s' Hu.
  pose proof (i_proxy s d Hinv a p Hp) as (H1 & H2 & H3 & H4).
  eapply inv_upd; eauto; pf; try done; [lia|by apply fair_quiet|].
  rewrite app_nil_r. unfold proxy_ok. pf. split_and!; [done..|].
  destruct (mHandle p); destruct H4; constructor; pf; try done; lia.
Qed.

Lemma incStrong_inv F a : 0 < strong_of s a -> wpg F (incStrong a) s (fun _ s' => inv s' d).
Proof.
  intros (p & c & Hp & Hc & Hpos)%strong_live. pose proof (proxy_facts a p Hp) as [_ Hs].
  eapply incStrong_eff; [done..|]. intros s' Hu. rewrite Hc in Hs. cbn in Hs.
  eapply keep_quiet; eauto; pf; try done; rewrite ?Hc; cbn; lia.
Qed.

Lemma decStrong_inv F a : 0 < strong_of s a -> wpg F (decStrong a) s (fun _ s' => inv s' d).
Proof.
  intros (p & c & Hp & Hc & Hpos)%strong_live. pose proof (proxy_facts a p Hp) as [_ Hs].
  eapply decStrong_eff; [done..|]. intros s' Hu. rewrite Hc in Hs. cbn in Hs.
  destruct (c =? 1) eqn:E1; zb.
  2:{ eapply keep_quiet; eauto; pf; try done; rewrite ?Hc; cbn; lia. }
  subst c. unfold drop_obits in Hu. pose proof (i_proxy s d Hinv a p Hp) as (H1 & H2 & H3 & H4).
  eapply inv_upd; eauto; pf; try done; try lia.
  - destruct (mHandle p) eqn:Eh; pf; congruence.
  - by destruct (mHandle p).
  - apply fair_last; [destruct (mHandle p) eqn:Eh; pf; congruence|by rewrite Hc|done].
  - unfold proxy_ok. pf. split_and!; [done..| |].
    { destruct (mHandle p); pf; [done|]. exact H3. }
    unfold last_ref. destruct (mHandle p) eqn:Eh; pf; rewrite Eh.
    + destruct H4. rewrite Hc in *. cbn in ko_weak0. autorewrite with tallies.
      destruct (bool_decide (is_Some (mObituaries p))) eqn:Eo; cbn [b2z] in *;
        (constructor; pf; try done; tallies; lia).
    + rewrite app_nil_r. destruct H4. constructor; pf; try done. rewrite Hc in *. cbn in *. lia.
Qed.

Lemma link_inv F maxIncoming a who cookie flags :
  (forall p ss ad, proxies s !! a = Some p -> mHandle p = RpcHandle ss ad -> maxIncoming ss < 1 -> F) ->
  0 < strong_of s a -> wpg F (linkToDeath maxIncoming a (Some who) cookie flags) s (fun _ s' => inv s' d).
Proof.
  intros HF (p & c & Hp & Hc & Hpos)%strong_live.
  pose proof (i_proxy s d Hinv a p Hp) as (H1 & H2 & H3 & H4).
  eapply linkToDeath_eff; [done| |done|].
  { destruct (mHandle p) eqn:Eh; [done|]. intros H. zb. eauto. }
  cbv zeta. intros Es s' Hu. unfold isRpcBinder in Hu. pose proof (proxy_facts a p Hp) as [_ Hw].
  rewrite Hc in Hw. change (default 0 (Some c)) with c in Hw.
  destruct (mHandle p) as [h|ss ad] eqn:Eh.
  - destruct H4. destruct (mObituaries p) as [l|] eqn:Eo.
    + rewrite bool_decide_false in Hu by done. cbn [andb] in Hu. eapply inv_upd; eauto; pf; try done.
      { by apply fair_quiet. }
      unfold proxy_ok. pf. rewrite Eh, app_nil_r. split_and!; [done..|by destruct l; intros ? [= <-]|].
      constructor; pf; try done. split; [done|by apply ko_obits0].
    + rewrite bool_decide_true in Hu by done. cbn [andb negb] in Hu.
      eapply inv_upd; eauto; pf; try done; [lia|by apply fair_death; [..|repeat constructor]|].
      unfold proxy_ok. pf. rewrite Eh. split_and!; [done..|by intros ? [= <-]|].
      constructor; pf; try done; rewrite ?Hc in *; tallies; lia.
  - destruct H4. rewrite andb_false_r in Hu. eapply inv_upd; eauto; pf; try done.
    { by apply fair_quiet. }
    unfold proxy_ok. pf. rewrite Eh, app_nil_r. split_and!; [done..| |done].
    by destruct (default [] (mObituaries p)); intros ? [= <-].
Qed.

Lemma unlink_inv F a who cookie flags :
  0 < strong_of s a -> wpg F (unlinkToDeath a who cookie flags) s (fun _ s' => inv s' d).
Proof.
  intros (p & c & Hp & Hc & Hpos)%strong_live.
  pose proof (i_proxy s d Hinv a p Hp) as (H1 & H2 & H3 & H4).
  eapply unlinkToDeath_eff; [done..|]. cbv zeta. intros i l s' Es Eo Ef Hu.
  destruct (mHandle p) as [h|ss ad] eqn:Eh.
  - destruct H4. rewrite Eo in *. destruct (bool_decide (delete i l = [])) eqn:El.
    + eapply inv_upd; eauto; pf; try done; [by apply fair_death; [..|repeat constructor]|].
      unfold proxy_ok. pf. rewrite Eh. split_and!; [done..|].
      constructor; pf; try done; rewrite ?Hc in *; tallies; lia.
    + apply bool_decide_eq_false in El. eapply inv_upd; eauto; pf; try done; [by apply fair_quiet|].
      unfold proxy_ok. pf. rewrite Eh, app_nil_r. split_and!; [done..|by intros ? [= <-]|].
      constructor; pf; try done. split; [done|by apply ko_obits0].
  - destruct H4. eapply inv_upd; eauto; pf; try done.
    { by apply fair_quiet. }
    unfold proxy_ok. pf. rewrite Eh, app_nil_r. split_and!; [done..| |done].
    destruct (bool_decide (delete i l = [])) eqn:El; [done|].
    apply bool_decide_eq_false in El. by intros ? [= <-].
Qed.

(** The driver has a death request of [a], so the proxy is there. *)
Lemma outstanding_live a : 0 < outstanding s d a -> exists p, proxies s !! a = Some p.
Proof.
  unfold outstanding. intros H. destruct (proxies s !! a) as [p|] eqn:Hp; [eauto|].
  destruct (i_gone s d Hinv a Hp). lia.
Qed.

Lemma obituary_inv F promote a :
  0 < outstanding s d a -> wpg F (sendObituary promote a) s (fun _ s' => inv s' d).
Proof.
  intros [p Hp]%outstanding_live.
  pose proof (i_proxy s d Hinv a p Hp) as (H1 & H2 & H3 & H4).
  eapply sendObituary_eff; [done|..].
  - intros Es s' Hu _. eapply keep_quiet; eauto; pf; try done; lia.
  - intros Es s' Hu _. eapply inv_upd; eauto; pf; try done.
    + destruct (mHandle p); [destruct (bool_decide _)|]; apply fair_death; try done; by repeat constructor.
    + unfold proxy_ok. pf. split_and!; [done..|]. destruct (mHandle p) as [h|ss ad] eqn:Eh.
      * destruct H4. destruct (bool_decide _) eqn:Eo; cbn [b2z] in *;
          constructor; pf; try done; tallies; lia.
      * rewrite app_nil_r. destruct H4. by constructor.
Qed.

Lemma transact_inv F send a flags :
  0 < strong_of s a -> wpg F (proxy_transact send a flags) s (fun _ s' => inv s' d).
Proof.
  intros (p & c & Hp & Hc & Hpos)%strong_live. pose proof (proxy_facts a p Hp) as [? ?].
  eapply proxy_transact_eff; [done|]. intros st b s' Hu. eapply keep_quiet; eauto; pf; try done; lia.
Qed.

Lemma attach_inv F a id object cookie func :
  0 < strong_of s a -> wpg F (attachObject a id object cookie func) s (fun _ s' => inv s' d).
Proof.
  intros (p & c & Hp & Hc & Hpos)%strong_live. pose proof (proxy_facts a p Hp) as [? ?].
  eapply attachObject_eff; [done|]. intros st b s' Hu. eapply keep_quiet; eauto; pf; try done; lia.
Qed.

Lemma detach_inv F a id :
  0 < strong_of s a -> wpg F (detachObject a id) s (fun _ s' => inv s' d).
Proof.
  intros (p & c & Hp & Hc & Hpos)%strong_live. pose proof (proxy_facts a p Hp) as [? ?].
  eapply detachObject_eff; [done|]. intros st b s' Hu. eapply keep_quiet; eauto; pf; try done; lia.
Qed.

Lemma dones_app a l k : dones a (l ++ k) = dones a l + dones a k.
Proof. unfold dones. by rewrite List.filter_app, zlen_app. Qed.

(** The driver gives back the weak reference of a cleared request. *)
Lemma clear_done_inv F a :
  dones a d < clears a (commands s) -> wpg F (decWeak a) s (fun _ s' => inv s' (d ++ [a])).
Proof.
  intros Hd. destruct (proxies s !! a) as [p|] eqn:Hp.
  2:{ destruct (i_gone s d Hinv a Hp). lia. }
  pose proof (i_proxy s d Hinv a p Hp) as (H1 & H2 & H3 & H4).
  assert (Ha : dones a (d ++ [a]) = dones a d + 1).
  { rewrite dones_app. unfold dones at 2. cbn. by rewrite Z.eqb_refl. }
  eapply decWeak_eff; [done|]. intros s' Hu. eapply inv_upd; eauto; pf; try done.
  - lia.
  - by apply fair_quiet.
  - intros b Hb. rewrite dones_app. unfold dones at 2. cbn [List.filter]. zdec (b =? a). rewrite zlen_nil. lia.
  - rewrite app_nil_r. unfold proxy_ok. pf. split_and!; [done..|].
    destruct (mHandle p); destruct H4; [|lia].
    constructor; pf; rewrite ?Ha; try done; lia.
Qed.
End Preserve.

(** Split on the condition the code tests. *)
Ltac wp_if :=
  cbv zeta; match goal with |- wpg _ (if ?b then _ else _) _ _ => let E := fresh "E" in destruct b eqn:E end.

(** * The accounting word *)

Lemma land_small c : 0 <= c < 2147483648 -> Z.land c COUNTING_VALUE_MASK = c.
Proof.
  intros. change COUNTING_VALUE_MASK with (Z.ones 31). rewrite Z.land_ones by lia.
  apply Z.mod_small. lia.
Qed.

Lemma land_limit_small c : 0 <= c < 2147483648 -> Z.land c LIMIT_REACHED_MASK = 0.
Proof.
  intros. rewrite <- (land_small c) by done. rewrite <- Z.land_assoc. apply Z.land_0_r.
Qed.

Lemma lor_limit c : 0 <= c < 2147483648 -> Z.lor c LIMIT_REACHED_MASK = c + 2147483648.
Proof.
  intros. pose proof (land_limit_small c ltac:(done)) as H0.
  change 2147483648 with LIMIT_REACHED_MASK. rewrite Z.add_nocarry_lxor by done.
  by rewrite Z.lxor_lor.
Qed.

Section Word.
Context (c : Z) (limit : bool) (Hc : 0 <= c < 2147483648).

Lemma track_count : Z.land (track_value c limit) COUNTING_VALUE_MASK = c.
Proof.
  destruct limit; cbn [track_value]; [|by apply land_small].
  rewrite <- lor_limit, Z.land_lor_distr_l, land_small by done. apply Z.lor_0_r.
Qed.

Lemma track_limit : (Z.land (track_value c limit) LIMIT_REACHED_MASK =? 0) = negb limit.
Proof.
  destruct limit; cbn [track_value]; [|by rewrite land_limit_small].
  by rewrite <- lor_limit, Z.land_lor_distr_l, land_limit_small by done.
Qed.

Lemma track_lor : Z.lor (track_value c limit) LIMIT_REACHED_MASK = track_value c true.
Proof.
  destruct limit; cbn [track_value]; [|by apply lor_limit].
  rewrite <- lor_limit, <- Z.lor_assoc by done. by rewrite Z.lor_diag.
Qed.
End Word.

Lemma track_succ c limit : 0 <= c < 2147483647 -> u32 (track_value c limit + 1) = track_value (c + 1) limit.
Proof. intros. unfold track_value. destruct limit; rewrite u32_small; lia. Qed.

Lemma track_pred c limit : 0 < c < 2147483648 -> u32 (track_value c limit - 1) = track_value (c - 1) limit.
Proof. intros. unfold track_value. destruct limit; rewrite u32_small; lia. Qed.

Lemma tracked_insert_eq m u v : tracked (<[u := v]> m) u = v.
Proof. unfold tracked. by rewrite lookup_insert_eq. Qed.
Lemma tracked_insert_ne m u v w : u <> w -> tracked (<[u := v]> m) w = tracked m w.
Proof. intros. unfold tracked. by rewrite lookup_insert_ne. Qed.

(** What creation and destruction leave of the state. *)
Definition core_same (s s' : BP) : Prop :=
  proxies s' = proxies s /\ commands s' = commands s /\ next_proxy s' = next_proxy s /\
  mHandleToObject s' = mHandleToObject s.

Ltac core_done := unfold core_same; split_and!; reflexivity.

Lemma track_create_eff F s u c Q :
  (0 <= u -> counted s u c /\ 0 <= c < 2147483647) ->
  (forall (b : bool) s', core_same s s' ->
    (forall w, w <> u -> tracked (sTrackingMap s') w = tracked (sTrackingMap s) w) ->
    (0 <= u -> counted s' u (if b then c + 1 else c)) -> Q b s') ->
  wpg F (track_create u) s Q.
Proof.
  intros Hu HQ. unfold track_create. wp_steps.
  assert (Hleaf : forall (b : bool) v (m l : gmap Z Z) lt, core_same s lt ->
    (forall w, w <> u -> tracked m w = tracked (sTrackingMap s) w) ->
    (0 <= u -> exists limit, v = track_value (if b then c + 1 else c) limit) ->
    Q b (with_tracking (<[u := v]> m) l lt)).
  { intros b v m l lt Hlt Hm Hv. apply HQ; [exact Hlt|..].
    - intros w Hw. cbn. rewrite tracked_insert_ne by done. by apply Hm.
    - intros H0. destruct (Hv H0) as [limit ->]. destruct (Hu H0). split; [destruct b; lia|].
      exists limit. cbn. apply tracked_insert_eq. }
  assert (Hm0 : forall v w, w <> u -> tracked (<[u := v]> (sTrackingMap s)) w = tracked (sTrackingMap s) w).
  { intros. by apply tracked_insert_ne. }
  assert (Hv0 : 0 <= u -> exists limit, tracked (sTrackingMap s) u = track_value c limit).
  { intros H0. by destruct (Hu H0) as [[_ ?] _]. }
  assert (Htrue : forall v l lt, core_same s lt -> (0 <= u -> exists limit, v = track_value c limit) ->
    Q true (with_tracking (<[u := u32 (tracked (<[u := v]> (sTrackingMap s)) u + 1)]>
                             (<[u := v]> (sTrackingMap s))) l lt)).
  { intros v l lt Hlt Hv. apply (Hleaf true); [done|by apply Hm0|].
    intros H0. destruct (Hv H0) as [limit ->]. destruct (Hu H0) as [_ Hc]. exists limit.
    rewrite tracked_insert_eq. by apply track_succ. }
  wp_if.
  - wp_if; wp_steps; [by apply (Hleaf false)|].
    wp_if; wp_steps; [wp_if; unfold tell_limit; wp_steps|]; apply Htrue; try done; core_done.
  - wp_if; wp_steps; [|apply Htrue; try done; core_done].
    assert (Hor : 0 <= u -> exists limit,
      Z.lor (tracked (sTrackingMap s) u) LIMIT_REACHED_MASK = track_value c limit).
    { intros H0. destruct (Hu H0) as [[_ [limit ->]] Hc]. exists true. apply track_lor. lia. }
    rewrite insert_insert_eq. wp_if; unfold tell_limit; wp_steps; wp_if; wp_steps;
      first [apply Htrue; try done; core_done | apply (Hleaf false); try done; core_done].
Qed.

Lemma track_destroy_eff F s u c Q :
  counted s u c -> 0 < c < 2147483648 ->
  (forall s', core_same s s' ->
    (forall w, w <> u -> tracked (sTrackingMap s') w = tracked (sTrackingMap s) w) ->
    counted s' u (c - 1) -> Q tt s') ->
  wpg F (track_destroy u) s Q.
Proof.
  intros [_ [limit Hv]] Hc HQ. unfold track_destroy. wp_steps. cbv zeta. rewrite Hv.
  rewrite track_count, track_limit by lia. zdec (c =? 0). wp_steps. rewrite negb_involutive.
  assert (Hleaf : forall limit' l,
    let v := u32 (track_value c limit' - 1) in
    Q tt (with_tracking (if v =? 0 then delete u (<[u := track_value c limit]> (sTrackingMap s))
                         else <[u := v]> (<[u := track_value c limit]> (sTrackingMap s))) l s)).
  { intros limit' l v. unfold v. rewrite track_pred by done.
    apply HQ; [core_done|..].
    - intros w Hw. unfold tracked. cbn [sTrackingMap with_tracking].
      destruct (_ =? 0); [rewrite lookup_delete_ne|rewrite lookup_insert_ne]; try done;
        by rewrite lookup_insert_ne.
    - split; [lia|]. unfold tracked. cbn [sTrackingMap with_tracking]. destruct (_ =? 0) eqn:E0.
      + exists false. rewrite lookup_delete_eq. cbn. destruct limit'; cbn [track_value] in E0; zb; lia.
      + exists limit'. by rewrite lookup_insert_eq. }
  destruct (limit && _); [apply (Hleaf false)|apply (Hleaf limit)].
Qed.

(** * Creation *)

Definition new_binder (h : Handle) (u : Z) : BpBinder := mkBpBinder h true false None ∅ u (Some 1) 1.
Definition new_commands (h : Handle) : list Command :=
  match h with BinderHandle h => [IncRefs h; Acquire h] | RpcHandle _ _ => [] end.

Lemma new_proxy_eff F s h u Q :
  (forall s', proxies s' = <[next_proxy s := new_binder h u]> (proxies s) ->
    next_proxy s' = next_proxy s + 1 -> commands s' = commands s ++ new_commands h ->
    mHandleToObject s' = mHandleToObject s -> sTrackingMap s' = sTrackingMap s ->
    Q (next_proxy s) s') ->
  wpg F (new_proxy h u) s Q.
Proof.
  intros HQ. unfold new_proxy. wp_steps. unfold put_proxy. wp_steps.
  eapply wpg_mono with (P := fun _ s1 => proxies s1 = <[next_proxy s := mkBpBinder h true false None ∅ u None 0]> (proxies s)
    /\ next_proxy s1 = next_proxy s + 1 /\ commands s1 = commands s ++ match h with BinderHandle h => [IncRefs h] | _ => [] end
    /\ mHandleToObject s1 = mHandleToObject s /\ sTrackingMap s1 = sTrackingMap s).
  { destruct h; unfold issue; wp_steps; cbn; rewrite ?app_nil_r; done. }
  intros _ s1 (E1 & E2 & E3 & E4 & E5). unfold incStrong, proxy_at, onFirstRef, proxy_at, put_proxy, issue.
  wp_steps. eapply wpg_require; [rewrite E1; apply lookup_insert_eq|]. wp_steps. cbn [p_strong].
  wp_steps. eapply wpg_require; [cbn; apply lookup_insert_eq|]. unfold isRpcBinder, binderHandle. pf.
  destruct h; wp_steps; apply HQ; cbn; rewrite ?E1, ?E2, ?E3, ?E4, ?E5, ?insert_insert_eq, <- ?app_assoc; done.
Qed.

(** A new proxy of the driver takes the table entry of its handle. *)
Lemma inv_new s s' d h u e :
  inv s d -> 0 <= h < 2147483648 -> -2147483648 <= u < 2147483648 ->
  mHandleToObject s !! Z.to_nat h = Some e ->
  (forall a p, proxies s !! a = Some p -> mHandle p = BinderHandle h -> p_weak p <= 0) ->
  proxies s' = <[next_proxy s := new_binder (BinderHandle h) u]> (proxies s) ->
  next_proxy s' = next_proxy s + 1 -> commands s' = commands s ++ new_commands (BinderHandle h) ->
  mHandleToObject s' = <[Z.to_nat h := mkHandleEntry (Some (next_proxy s)) (Some (next_proxy s))]> (mHandleToObject s) ->
  (forall w, 0 <= w -> counted s' w (pcount (is_tracked w) (proxies s) + b2z (w =? u))) ->
  inv s' d.
Proof.
  intros Hi Hh Hu He Hdead Ep En Ec Et Em. pose proof Hi as [].
  assert (Hnone : proxies s !! next_proxy s = None).
  { apply eq_None_not_Some. intros ?%i_fresh0. lia. }
  assert (Hne : forall b, is_Some (proxies s !! b) -> b <> next_proxy s) by (intros b Hb ->; by rewrite Hnone in Hb; destruct Hb).
  cbn [new_commands] in Ec. constructor; rewrite ?Ep, ?En, ?Ec, ?Et.
  - intros b [<-|Hb]%lookup_insert_is_Some'; [lia|]. specialize (i_fresh0 b Hb). lia.
  - lia.
  - intros b [Hb Hbn]%lookup_insert_None. destruct (i_gone0 b Hb). split; tallies; lia.
  - intros b q [[<- <-]|[Hbn Hq]]%lookup_insert_Some.
    + destruct (i_gone0 _ Hnone) as [G1 G2]. unfold proxy_ok, new_binder. pf.
      split_and!; [done..|]. constructor; pf; try done; tallies; lia.
    + eapply proxy_ok_frame; [by apply i_proxy0|tallies; lia..|done].
  - intros i f b [(<- & <- & _)|[Hin Hf]]%list_lookup_insert_Some Hb.
    + injection Hb as <-. split; [done|]. eexists. rewrite lookup_insert_eq. split; [done|].
      cbn. f_equal. lia.
    + destruct (i_table0 i f b Hf Hb) as (Hr & q & Hq & Hqh). split; [done|]. exists q.
      rewrite lookup_insert_ne; [done|]. apply not_eq_sym, Hne. by rewrite Hq.
  - intros b q g Hq Hqh. pose proof (lookup_lt_Some _ _ _ He) as Hlt.
    apply lookup_insert_Some in Hq as [[<- <-]|[Hbn Hq]].
    + injection Hqh as <-. eexists. rewrite list_lookup_insert_eq by done. by split.
    + destruct (i_listed0 b q g Hq Hqh) as (f & Hf & Hb).
      destruct (decide (Z.to_nat h = Z.to_nat g)) as [Eg|Eg].
      * rewrite <- Eg, list_lookup_insert_eq by done. eexists. split; [done|].
        intros Hw. pose proof (i_proxy0 b q Hq) as (_ & _ & _ & Hk). rewrite Hqh in Hk. destruct Hk.
        assert (g = h) as -> by lia. specialize (Hdead b q Hq Hqh). lia.
      * rewrite list_lookup_insert_ne by done. eauto.
  - intros g. rewrite (pcount_new _ _ _ _ Hnone). specialize (i_acquires0 g).
    assert (is_held g (new_binder (BinderHandle h) u) = (g =? h)) as -> by apply andb_true_r. tallies; lia.
  - intros g. rewrite (pcount_new _ _ _ _ Hnone). specialize (i_increfs0 g).
    assert (is_handle g (new_binder (BinderHandle h) u) = (g =? h)) as -> by done. tallies; lia.
  - intros w Hw. rewrite (pcount_new _ _ _ _ Hnone). unfold is_tracked at 1, new_binder. pf.
    rewrite Z.add_comm. by apply Em.
Qed.

Lemma inv_new_rpc s s' d ss ad :
  inv s d -> proxies s' = <[next_proxy s := new_binder (RpcHandle ss ad) (-1)]> (proxies s) ->
  next_proxy s' = next_proxy s + 1 -> commands s' = commands s ->
  mHandleToObject s' = mHandleToObject s -> sTrackingMap s' = sTrackingMap s -> inv s' d.
Proof.
  intros Hi Ep En Ec Et Em. pose proof Hi as [].
  assert (Hnone : proxies s !! next_proxy s = None).
  { apply eq_None_not_Some. intros ?%i_fresh0. lia. }
  constructor; rewrite ?Ep, ?En, ?Ec, ?Et, ?Em.
  - intros b [<-|Hb]%lookup_insert_is_Some'; [lia|]. specialize (i_fresh0 b Hb). lia.
  - lia.
  - intros b [Hb Hbn]%lookup_insert_None. auto.
  - intros b q [[<- <-]|[Hbn Hq]]%lookup_insert_Some; [|auto].
    destruct (i_gone0 _ Hnone) as [G1 G2]. split_and!; [done..|]. by constructor.
  - intros i f b Hf Hb. destruct (i_table0 i f b Hf Hb) as (Hr & q & Hq & Hqh). split; [done|].
    exists q. rewrite lookup_insert_ne; [done|]. congruence.
  - intros b q g [[<- <-]|[Hbn Hq]]%lookup_insert_Some Hqh; [done|eauto].
  - intros g. rewrite (pcount_new _ _ _ _ Hnone). apply i_acquires0.
  - intros g. rewrite (pcount_new _ _ _ _ Hnone). apply i_increfs0.
  - intros w Hw. rewrite (pcount_new _ _ _ _ Hnone). unfold is_tracked at 1, new_binder. pf.
    zdec (w =? -1). unfold counted. rewrite Em. by apply i_tracked0.
Qed.

(** The table may change as long as it lists the live proxies. *)
Lemma inv_table s s' d :
  inv s d -> proxies s' = proxies s -> next_proxy s' = next_proxy s -> commands s' = commands s ->
  sTrackingMap s' = sTrackingMap s ->
  (forall i e', mHandleToObject s' !! i = Some e' -> forall a, he_binder e' = Some a ->
     mHandleToObject s !! i = Some e') ->
  (forall (i : nat) e, mHandleToObject s !! i = Some e -> exists e', mHandleToObject s' !! i = Some e' /\
     forall a, he_binder e = Some a -> 0 < weak_of s a -> he_binder e' = Some a) ->
  inv s' d.
Proof.
  intros [] Ep En Ec Em H1 H2. constructor; unfold counted; rewrite ?Ep, ?En, ?Ec, ?Em; auto.
  - intros i e a He Ha. eauto.
  - intros a p h Hp Hh. destruct (i_listed0 a p h Hp Hh) as (e & He & Hb).
    destruct (H2 _ _ He) as (e' & He' & Hk). exists e'. split; [done|]. intros Hw.
    apply Hk; [auto|]. by rewrite (weak_of_eq _ _ _ Hp).
Qed.

Lemma lookupHandle_eff F grow_ok s d h Q :
  inv s d -> 0 <= h < 2147483648 ->
  Q None s ->
  (forall e s', inv s' d -> mHandleToObject s' !! Z.to_nat h = Some e -> proxies s' = proxies s ->
    sTrackingMap s' = sTrackingMap s -> sCountByUidEnabled s' = sCountByUidEnabled s ->
    commands s' = commands s -> next_proxy s' = next_proxy s ->
    (mHandleToObject s !! Z.to_nat h = Some e -> s' = s) -> Q (Some (Z.to_nat h)) s') ->
  wpg F (lookupHandleLocked grow_ok h) s Q.
Proof.
  intros Hi Hh Hnone HQ. unfold lookupHandleLocked. wp_steps. rewrite (u64_small h) by lia.
  destruct (zlen (mHandleToObject s) <=? h) eqn:E; zb.
  - pose proof (zlen_nonneg (mHandleToObject s)). rewrite u64_small by lia. wp_if; wp_steps; [|done].
    assert (Hl : (length (mHandleToObject s) <= Z.to_nat h)%nat) by (unfold zlen in *; lia).
    eapply HQ; cbn; try done.
    + eapply inv_table; eauto.
      * cbn. intros i e' [He|[Hge He]]%lookup_app_Some a Ha; [done|].
        apply lookup_replicate in He as [-> _]. done.
      * cbn. intros i e He. exists e. split; [by apply lookup_app_l_Some|done].
    + rewrite lookup_app_r by done. apply lookup_replicate. split; [done|]. unfold zlen in *. lia.
    + intros H'%lookup_lt_Some. lia.
  - wp_steps. destruct (lookup_lt_is_Some_2 (mHandleToObject s) (Z.to_nat h)) as [e He].
    { unfold zlen in *. lia. }
    by eapply HQ.
Qed.

Lemma pcount_range P m : 0 <= pcount P m <= Z.of_nat (size m).
Proof.
  unfold pcount. split; [lia|]. apply inj_le, map_subseteq_size, map_filter_subseteq.
Qed.

Lemma inv_core s s' d :
  inv s d -> core_same s s' -> (forall w, 0 <= w -> counted s' w (pcount (is_tracked w) (proxies s))) ->
  inv s' d.
Proof.
  intros [] (Ep & Ec & En & Et) Hc. constructor; rewrite ?Ep, ?Ec, ?En, ?Et; auto.
Qed.

Lemma create_eff F s d h uid Q :
  inv s d -> Z.of_nat (size (proxies s)) < 2147483647 ->
  (forall s', inv s' d -> core_same s s' -> Q None s') ->
  (forall u s', proxies s' = <[next_proxy s := new_binder (BinderHandle h) u]> (proxies s) ->
    -2147483648 <= u < 2147483648 ->
    next_proxy s' = next_proxy s + 1 -> commands s' = commands s ++ new_commands (BinderHandle h) ->
    mHandleToObject s' = mHandleToObject s ->
    (forall w, 0 <= w -> counted s' w (pcount (is_tracked w) (proxies s) + b2z (w =? u))) ->
    Q (Some (next_proxy s)) s') ->
  wpg F (create h uid) s Q.
Proof.
  intros Hi Hsize Hnone HQ. unfold create. wp_steps.
  assert (Hcount : forall w, 0 <= w -> counted s w (pcount (is_tracked w) (proxies s)))
    by (intros; by apply (i_tracked s d Hi)).
  wp_if; wp_steps.
  - pose proof (s32_range uid) as Hu. unfold is_s32 in Hu.
    apply (track_create_eff _ _ _ (pcount (is_tracked (s32 uid)) (proxies s))).
    { intros H0. split; [auto|]. pose proof (pcount_range (is_tracked (s32 uid)) (proxies s)). lia. }
    intros b s1 Hs1 Hother Hb. pose proof Hs1 as (Ep & Ec & En & Et). destruct b; wp_steps.
    + apply new_proxy_eff. intros s2 Ep2 En2 Ec2 Et2 Em2. wp_steps. rewrite En.
      apply (HQ (s32 uid)); try done; rewrite ?Ep2, ?En2, ?Ec2, ?Et2, ?Ep, ?En, ?Ec, ?Et; try done.
      intros w Hw. unfold counted. rewrite Em2.
      destruct (w =? s32 uid) eqn:Ew; zb; cbn [b2z]; [by subst w; apply Hb|].
      rewrite Z.add_0_r, Hother by done. by apply Hcount.
    + apply Hnone; [|done]. apply (inv_core s); try done. intros w Hw.
      destruct (decide (w = s32 uid)) as [->|Hne]; [by apply Hb|].
      unfold counted. rewrite Hother by done. by apply Hcount.
  - apply new_proxy_eff. intros s2 Ep2 En2 Ec2 Et2 Em2. wp_steps. apply (HQ (-1)); try done.
    intros w Hw. zdec (w =? -1). cbn [b2z]. rewrite Z.add_0_r. unfold counted. rewrite Em2.
    by apply Hcount.
Qed.

Lemma entry_at_eff F s i e Q : mHandleToObject s !! i = Some e -> Q e s -> wpg F (entry_at i) s Q.
Proof. intros. unfold entry_at. wp_steps. by eapply wpg_require. Qed.

(** No proxy, or one whose last weak reference is gone. *)
Lemma make_proxy_inv F s d ping uid h e :
  inv s d -> 0 <= h < 2147483648 -> Z.of_nat (size (proxies s)) < 2147483647 ->
  mHandleToObject s !! Z.to_nat h = Some e ->
  (forall a, he_binder e = Some a -> weak_of s a <= 0) ->
  wpg F (make_proxy ping uid h (Z.to_nat h)) s (fun r s' => inv s' d /\
    forall a, r = Some a -> exists p, proxies s' !! a = Some p /\ mHandle p = BinderHandle h /\
      p_strong p = Some 1).
Proof.
  intros Hi Hh Hsize He Hdead. unfold make_proxy. wp_steps.
  eapply wpg_mono with (P := fun _ s1 => inv s1 d /\ core_same s s1).
  { destruct (h =? 0); wp_steps; (split; [|core_done]);
      (apply (inv_core s); [done|core_done|intros; by apply (i_tracked s d Hi)]). }
  intros st s1 [Hi1 (Ep & Ec & En & Et)]. wp_if; wp_steps; [done|].
  assert (Hdead1 : forall a p, proxies s1 !! a = Some p -> mHandle p = BinderHandle h -> p_weak p <= 0).
  { intros a p Hp Hph. destruct (i_listed s1 d Hi1 a p h Hp Hph) as (e1 & He1 & Hb).
    rewrite Et, He in He1. injection He1 as <-. apply Z.nlt_ge. intros Hw.
    specialize (Hdead a (Hb Hw)). rewrite Ep in Hp. rewrite (weak_of_eq _ _ _ Hp) in Hdead. lia. }
  rewrite <- Et in He. pose proof (lookup_lt_Some _ _ _ He) as Hlt.
  eapply create_eff; [done|by rewrite Ep|..].
  - intros s2 Hi2 (Ep2 & Ec2 & En2 & Et2). wp_steps. eapply entry_at_eff; [by rewrite Et2|].
    unfold put_entry. wp_steps. split; [|done]. eapply inv_table; eauto; cbn.
    + intros i e' [(<- & <- & _)|[Hne He']]%list_lookup_insert_Some a Ha; [done|done].
    + intros i f Hf. destruct (decide (i = Z.to_nat h)) as [->|Hne].
      * rewrite list_lookup_insert_eq by (by rewrite Et2). eexists. split; [done|].
        intros a Ha Hw. rewrite Et2, He in Hf. injection Hf as <-.
        unfold weak_of in *. rewrite Ep2, Ep in Hw. specialize (Hdead a Ha). lia.
      * rewrite list_lookup_insert_ne by done. eauto.
  - intros u s2 Ep2 Hu En2 Ec2 Et2 Hc2. wp_steps. eapply entry_at_eff; [by rewrite Et2|].
    unfold put_entry. wp_steps. split.
    + eapply (inv_new s1); eauto. cbn. by rewrite Et2.
    + intros a [= <-]. cbn. rewrite Ep2, lookup_insert_eq. eauto.
Qed.

Lemma upd_trans a p1 p2 c1 c2 s s1 s2 :
  upd a p1 c1 s s1 -> upd a p2 c2 s1 s2 -> upd a p2 (c1 ++ c2) s s2.
Proof.
  intros (E1 & E2 & E3 & E4 & E5) (F1 & F2 & F3 & F4 & F5).
  unfold upd. rewrite F1, F2, F3, F4, F5, E1, E2, E3, E4, E5, insert_insert_eq, app_assoc. done.
Qed.

Lemma upd_lookup a p cs s s' : upd a p cs s s' -> proxies s' !! a = Some p.
Proof. intros (-> & _). apply lookup_insert_eq. Qed.

(** A strong reference taken under a temporary weak one. *)
Lemma revive_eff F s a p (K : M BP (option Z)) Q :
  proxies s !! a = Some p -> 0 < p_weak p ->
  (forall s', upd a (set_refs (Some (default 0 (p_strong p) + 1)) (p_weak p + 1) p)
      (if default 0 (p_strong p) =? 0 then first_ref p else []) s s' -> Q (Some a) s') ->
  wpg F (let* live := attemptIncWeak a in
         if live then forceIncStrong a ;; decWeak a ;; ret (Some a) else K) s Q.
Proof.
  intros Hp Hw HQ. unfold attemptIncWeak, proxy_at. wp_steps. eapply wpg_require; [done|].
  zdec (0 <? p_weak p). wp_steps. eapply incWeak_eff; [done|]. intros s1 U1. wp_steps.
  eapply forceIncStrong_eff; [by eapply upd_lookup|]. intros s2 U2. pf. wp_steps.
  eapply decWeak_eff; [by eapply upd_lookup|]. intros s3 U3. pf. wp_steps. apply HQ.
  pose proof (upd_trans _ _ _ _ _ _ _ _ (upd_trans _ _ _ _ _ _ _ _ U1 U2) U3) as U.
  rewrite app_nil_r in U. cbn [app] in U.
  replace (p_weak p + 1 + 1 - 1) with (p_weak p + 1) in U by lia. exact U.
Qed.

Lemma revive_inv s s' d a p :
  inv s d -> proxies s !! a = Some p -> 0 < p_weak p ->
  upd a (set_refs (Some (default 0 (p_strong p) + 1)) (p_weak p + 1) p)
      (if default 0 (p_strong p) =? 0 then first_ref p else []) s s' -> inv s' d.
Proof.
  intros Hi Hp Hw Hu. pose proof (proxy_facts s d Hi a p Hp) as [Hs H0].
  pose proof (i_proxy s d Hi a p Hp) as Hok.
  eapply inv_upd; eauto; pf.
  - destruct (_ =? 0) eqn:E; zb.
    + apply fair_first; [done|done|]. pf. change (default 0 (Some ?x)) with x. lia.
    + apply fair_quiet; [done|]. pf. change (default 0 (Some ?x)) with x. lia.
  - assert (Hn : forall b, requests b (if default 0 (p_strong p) =? 0 then first_ref p else []) = 0 /\
                           clears b (if default 0 (p_strong p) =? 0 then first_ref p else []) = 0).
    { intros b. unfold first_ref. destruct (_ =? 0); [destruct (mHandle p)|]; done. }
    eapply proxy_ok_frame with (cs := commands s) (d := d); [|destruct (Hn a); tallies; lia..|done].
    eapply proxy_ok_quiet; eauto; pf; try done; change (default 0 (Some ?x)) with x; lia.
Qed.

Lemma getStrong_inv F grow_ok s d ping uid h :
  inv s d -> 0 <= h < 2147483648 -> Z.of_nat (size (proxies s)) < 2147483647 ->
  wpg F (getStrongProxyForHandle grow_ok ping uid h) s (fun r s' => inv s' d /\
    forall a, r = Some a -> exists p, proxies s' !! a = Some p /\ mHandle p = BinderHandle h /\
      0 < default 0 (p_strong p) /\
      (forall b q, proxies s !! b = Some q -> mHandle q = BinderHandle h -> 0 < p_weak q -> a = b)).
Proof.
  intros Hi Hh Hsize. unfold getStrongProxyForHandle. wp_steps.
  eapply lookupHandle_eff; [done|done|by wp_steps|].
  intros e s1 Hi1 He Ep _ _ _ _ _. wp_steps. eapply entry_at_eff; [done|].
  assert (Hmake : (forall a, he_binder e = Some a -> weak_of s1 a <= 0) ->
    wpg F (make_proxy ping uid h (Z.to_nat h)) s1 (fun r s' => inv s' d /\
    forall a, r = Some a -> exists p, proxies s' !! a = Some p /\ mHandle p = BinderHandle h /\
      0 < default 0 (p_strong p) /\
      (forall b q, proxies s !! b = Some q -> mHandle q = BinderHandle h -> 0 < p_weak q -> a = b))).
  { intros Hdead. eapply wpg_mono; [eapply make_proxy_inv; eauto; by rewrite Ep|].
    intros r s2 [Hi2 Hr]. split; [done|]. intros a Ha. destruct (Hr a Ha) as (p & Hp & Hph & Hps).
    exists p. split_and!; [done..|by rewrite Hps|]. intros b q Hq Hqh Hqw. rewrite <- Ep in Hq.
    destruct (i_listed s1 d Hi1 b q h Hq Hqh) as (e1 & He1 & Hb). rewrite He in He1.
    injection He1 as <-. specialize (Hdead b (Hb Hqw)). rewrite (weak_of_eq _ _ _ Hq) in Hdead. lia. }
  destruct (he_binder e) as [a|] eqn:Ea; [|by apply Hmake].
  destruct (i_table s1 d Hi1 _ _ _ He Ea) as (Hr & p & Hp & Hph).
  rewrite Z2Nat.id in Hph by lia. rewrite Hr. wp_steps.
  destruct (0 <? p_weak p) eqn:Ew; zb.
  - eapply wpg_bind_inv, revive_eff; [done..|]. intros s2 U. split; [by eapply revive_inv|].
    intros b [= <-]. eexists. split; [by eapply upd_lookup|]. pf. split; [done|].
    pose proof (proxy_facts s1 d Hi1 a p Hp) as [_ Hs].
    split; [by change (default 0 (Some ?x)) with x; lia|].
    intros b q Hq Hqh Hqw. rewrite <- Ep in Hq.
    destruct (i_listed s1 d Hi1 b q h Hq Hqh) as (e1 & He1 & Hb). rewrite He in He1. specialize (Hb Hqw). congruence.
  - unfold attemptIncWeak, proxy_at. wp_steps. eapply wpg_require; [done|]. zdec (0 <? p_weak p).
    wp_steps. apply Hmake. intros b [= <-]. by rewrite (weak_of_eq _ _ _ Hp).
Qed.

(** * Destruction *)

Lemma dying_facts s d a p :
  inv s d -> proxies s !! a = Some p -> p_weak p = 0 ->
  p_strong p = Some 0 /\ requests a (commands s) = dones a d /\ clears a (commands s) = dones a d.
Proof.
  intros Hi Hp Hw. pose proof (proxy_facts s d Hi a p Hp) as [[c Hc] Hs].
  pose proof (i_proxy s d Hi a p Hp) as (_ & _ & _ & H4). rewrite Hc in *.
  change (default 0 (Some c)) with c in *. split; [f_equal; lia|].
  destruct (mHandle p); destruct H4; [|done]. rewrite Hc in *. change (default 0 (Some c)) with c in *.
  destruct (bool_decide _); cbn [b2z] in *; lia.
Qed.

Lemma inv_delete s s' d a p cs :
  inv s d -> proxies s !! a = Some p -> p_weak p = 0 ->
  proxies s' = delete a (proxies s) -> next_proxy s' = next_proxy s -> commands s' = commands s ++ cs ->
  cs = match mHandle p with BinderHandle h => [DecRefs h] | RpcHandle _ _ => [] end ->
  (forall i e', mHandleToObject s' !! i = Some e' -> forall b, he_binder e' = Some b ->
     b <> a /\ mHandleToObject s !! i = Some e') ->
  (forall (i : nat) e, mHandleToObject s !! i = Some e -> exists e', mHandleToObject s' !! i = Some e' /\
     forall b, b <> a -> he_binder e = Some b -> he_binder e' = Some b) ->
  (forall w, 0 <= w -> counted s' w (pcount (is_tracked w) (proxies s) - b2z (is_tracked w p))) ->
  inv s' d.
Proof.
  intros Hi Hp Hw Ep En Ec Hcs H1 H2 H3. destruct (dying_facts s d a p Hi Hp Hw) as (Hc & Hr & Hcl).
  destruct Hi. assert (Hq0 : forall b, requests b cs = 0 /\ clears b cs = 0).
  { intros b. subst cs. by destruct (mHandle p). }
  constructor; rewrite ?Ep, ?En, ?Ec.
  - intros b [q [_ Hq]%lookup_delete_Some]. eauto.
  - done.
  - intros b Hb. destruct (Hq0 b). autorewrite with tallies.
    destruct (decide (b = a)) as [->|Hne]; [lia|]. rewrite lookup_delete_ne in Hb by done.
    destruct (i_gone0 b Hb). lia.
  - intros b q [_ Hq]%lookup_delete_Some. destruct (Hq0 b).
    eapply proxy_ok_frame; [by apply i_proxy0|autorewrite with tallies; lia..|done].
  - intros i e b He Hb. destruct (H1 i e He b Hb) as [Hne He0].
    destruct (i_table0 i e b He0 Hb) as (Hr0 & q & Hq & Hqh). split; [done|]. exists q.
    by rewrite lookup_delete_ne.
  - intros b q h [Hne Hq]%lookup_delete_Some Hqh. destruct (i_listed0 b q h Hq Hqh) as (e & He & Hb).
    destruct (H2 _ _ He) as (e' & He' & Hk). exists e'. split; [done|]. auto.
  - intros h. rewrite (pcount_delete _ _ _ _ Hp). unfold is_held at 2. rewrite Hc.
    change (0 <? default 0 (Some 0)) with false. rewrite andb_false_r. specialize (i_acquires0 h).
    subst cs. destruct (mHandle p); tallies; lia.
  - intros h. rewrite (pcount_delete _ _ _ _ Hp). specialize (i_increfs0 h). unfold is_handle at 2.
    subst cs. destruct (mHandle p); tallies; lia.
  - intros w Hwp. rewrite (pcount_delete _ _ _ _ Hp). by apply H3.
Qed.

Lemma expunge_eff F grow_ok s0 s d h a p Q :
  inv s0 d -> core_same s0 s -> 0 <= h < 2147483648 -> proxies s0 !! a = Some p -> mHandle p = BinderHandle h ->
  (forall s', proxies s' = proxies s -> commands s' = commands s -> next_proxy s' = next_proxy s ->
    sTrackingMap s' = sTrackingMap s ->
    (forall i e', mHandleToObject s' !! i = Some e' -> forall b, he_binder e' = Some b ->
       b <> a /\ mHandleToObject s0 !! i = Some e') ->
    (forall (i : nat) e, mHandleToObject s0 !! i = Some e -> exists e', mHandleToObject s' !! i = Some e' /\
       forall b, b <> a -> he_binder e = Some b -> he_binder e' = Some b) -> Q tt s') ->
  wpg F (expungeHandle grow_ok h a) s Q.
Proof.
  intros Hi (Ep & _ & _ & Et) Hh Hp Hph HQ. rewrite <- Et in HQ.
  destruct (i_listed s0 d Hi a p h Hp Hph) as (e & He & _). rewrite <- Et in He.
  unfold expungeHandle, lookupHandleLocked. wp_steps. rewrite (u64_small h) by lia.
  pose proof (lookup_lt_Some _ _ _ He) as Hlt.
  replace (zlen (mHandleToObject s) <=? h) with false by (symmetry; apply Z.leb_gt; unfold zlen; lia).
  wp_steps. eapply entry_at_eff; [done|].
  assert (Honly : forall i e, mHandleToObject s !! i = Some e -> he_binder e = Some a -> i = Z.to_nat h).
  { intros i f Hf Hb. rewrite Et in Hf. destruct (i_table s0 d Hi i f a Hf Hb) as (_ & q & Hq & Hqh).
    rewrite Hp in Hq. injection Hq as <-. rewrite Hph in Hqh. injection Hqh as ->. lia. }
  destruct (bool_decide (he_binder e = Some a)) eqn:Eb.
  - apply bool_decide_eq_true in Eb. unfold put_entry. wp_steps. apply HQ; try done; cbn.
    + intros i e' [(<- & <- & _)|[Hne He']]%list_lookup_insert_Some b Hb; [done|].
      split; [|done]. intros ->. by specialize (Honly i e' He' Hb).
    + intros i f Hf. destruct (decide (i = Z.to_nat h)) as [->|Hne].
      * rewrite list_lookup_insert_eq by done. eexists. split; [done|]. cbn. intros b Hb Hf'. congruence.
      * rewrite list_lookup_insert_ne by done. eauto.
  - apply bool_decide_eq_false in Eb. wp_steps. apply HQ; try done; [|eauto].
    intros i e' He' b Hb. split; [|done]. intros ->. pose proof (Honly i e' He' Hb) as ->. congruence.
Qed.

Lemma destroy_inv F grow_ok s d a :
  inv s d -> is_Some (proxies s !! a) -> weak_of s a = 0 ->
  wpg F (destroy grow_ok a) s (fun _ s' => inv s' d).
Proof.
  intros Hi [p Hp] Hw. rewrite (weak_of_eq _ _ _ Hp) in Hw.
  assert (Hcount : forall w, 0 <= w -> counted s w (pcount (is_tracked w) (proxies s)))
    by (intros; by apply (i_tracked s d Hi)).
  pose proof (i_proxy s d Hi a p Hp) as (_ & _ & _ & Hok).
  unfold destroy, proxy_at. wp_steps. eapply wpg_require; [done|]. wp_steps.
  unfold isRpcBinder, binderHandle. destruct (mHandle p) as [h|ss ad] eqn:Eh; wp_steps.
  2:{ destruct Hok. eapply (inv_delete s _ d a p []); try done; cbn.
      - by rewrite app_nil_r.
      - by rewrite Eh.
      - intros i e' He' b Hb. split; [|done]. intros ->.
        destruct (i_table s d Hi i e' a He' Hb) as (_ & q & Hq & Hqh). congruence.
      - eauto.
      - intros w Hw0. unfold is_tracked at 2. rewrite ro_uid0. zdec (w =? -1). cbn [b2z].
        rewrite Z.sub_0_r. by apply Hcount. }
  destruct Hok.
  eapply wpg_mono with (P := fun _ s1 => core_same s s1 /\
    forall w, 0 <= w -> counted s1 w (pcount (is_tracked w) (proxies s) - b2z (is_tracked w p))).
  { wp_if; zb.
    - eapply track_destroy_eff; [by apply Hcount|..].
      + destruct (Hcount (mTrackedUid p) ltac:(done)) as [? _].
        pose proof (pcount_pos (is_tracked (mTrackedUid p)) _ _ _ Hp ltac:(apply Z.eqb_refl)). lia.
      + intros s1 Hs1 Hother Hc. split; [done|]. intros w Hw0. unfold is_tracked at 2.
        destruct (w =? mTrackedUid p) eqn:Ew; zb; cbn [b2z]; [by subst w|].
        unfold counted. rewrite Hother, Z.sub_0_r by done. by apply Hcount.
    - wp_steps. split; [core_done|]. intros w Hw0. unfold is_tracked at 2.
      zdec (w =? mTrackedUid p). cbn [b2z]. rewrite Z.sub_0_r. by apply Hcount. }
  intros _ s1 [Hs1 Hc1]. pose proof Hs1 as (Ep & Ec & En & Et). wp_steps.
  eapply (expunge_eff _ _ s); [done..|]. intros s2 Ep2 Ec2 En2 Em2 HT1 HT2. unfold issue. wp_steps.
  eapply (inv_delete s _ d a p); try done; cbn.
  - by rewrite Ep2, Ep.
  - by rewrite En2, En.
  - by rewrite Ec2, Ec, Eh.
  - intros w Hw0. unfold counted. cbn. rewrite Em2. by apply Hc1.
Qed.

(** * All operations *)

Section Reachable.
Context (grow_ok : Z -> bool) (ping : Z -> status_t) (maxIncoming : Z -> Z).
Context (promote : Z -> bool) (send : Z -> status_t).
Let exec := exec grow_ok ping maxIncoming promote send.
Let reach := reach grow_ok ping maxIncoming promote send.

(** [linkToDeath] on an RPC proxy aborts without incoming threads; nothing else
    aborts. *)
Definition may_abort (s : BP) (o : op) : Prop :=
  match o with
  | Link a _ _ _ => exists p ss ad, proxies s !! a = Some p /\ mHandle p = RpcHandle ss ad /\ maxIncoming ss < 1
  | _ => False
  end.

Lemma exec_inv s d o :
  inv s d -> enabled s d o -> wpg (may_abort s o) (exec o) s (fun _ s' => inv s' (after o d)).
Proof.
  intros Hi He. unfold exec, ProxyProps.exec. destruct o; cbn [enabled after] in *; wp_steps.
  - destruct He as (Hu & Hh & Hs). eapply wpg_mono; [by apply getStrong_inv|]. by intros r s' [? _].
  - unfold create_rpc. wp_steps. apply new_proxy_eff. intros s' E1 E2 E3 E4 E5. wp_steps.
    rewrite app_nil_r in E3. by eapply inv_new_rpc.
  - by apply incStrong_inv.
  - by apply decStrong_inv.
  - by apply incWeak_inv.
  - by apply decWeak_inv.
  - eapply wpg_mono; [apply link_inv; [done| |done]|done]. cbn [may_abort]. eauto 10.
  - eapply wpg_mono; [by apply unlink_inv|done].
  - eapply wpg_mono; [by apply transact_inv|done].
  - eapply wpg_mono; [by apply attach_inv|done].
  - eapply wpg_mono; [by apply detach_inv|done].
  - by apply obituary_inv.
  - by apply clear_done_inv.
  - destruct He as [? ?]. by apply destroy_inv.
  - unfold setCountByUidEnabled. wp_steps. destruct s, Hi. by constructor.
  - unfold setLimitCallback. wp_steps. destruct s, Hi. by constructor.
  - unfold setBinderProxyCountWatermarks. wp_steps. destruct s, Hi. by constructor.
Qed.

Lemma reach_inv s d : reach s d -> inv s d.
Proof.
  induction 1 as [|s d o s' _ IH He Hx].
  - constructor; cbn; try done.
    + intros a [p Hp]. done.
    + intros u _. split; [done|]. by exists false.
  - apply (wpg_ret_inv _ _ _ (fun _ s' => inv s' (after o d)) _ _ (exec_inv s d o IH He) Hx).
Qed.
End Reachable.

(** * The theorems *)

(** C14: in every order of calls, drops of references and driver callbacks, an
    operation that its caller may make never touches a destroyed proxy and never
    aborts (except [linkToDeath] on an RPC proxy whose session has no incoming
    thread); and while the driver still knows a cookie (a death request whose
    clearing it has not confirmed), the proxy the cookie denotes exists and has a
    weak reference for each such request. *)
Theorem driver_cookies_never_dangle grow_ok ping maxIncoming promote send s d o :
  reach grow_ok ping maxIncoming promote send s d -> enabled s d o ->
  wpg (may_abort maxIncoming s o) (exec grow_ok ping maxIncoming promote send o) s (fun _ _ => True) /\
  (forall a, 0 < outstanding s d a ->
     exists p, proxies s !! a = Some p /\ outstanding s d a <= p_weak p).
Proof.
  intros Hi%reach_inv He. split; [by eapply wpg_mono; [apply exec_inv|]|].
  intros a Ha. destruct (outstanding_live s d Hi a Ha) as [p Hp]. exists p. split; [done|].
  pose proof (i_proxy s d Hi a p Hp) as (_ & Hc & _ & Hk). unfold outstanding in *.
  destruct (mHandle p); destruct Hk; lia.
Qed.


(** the references the process holds at the driver are those of its proxies:
    for every handle the acquires sent minus the releases is the number of its
    proxies with a strong reference, the increfs minus the decrefs the number of
    its proxies; so once they are gone every reference has been given back. *)
Theorem driver_references_balanced grow_ok ping maxIncoming promote send s d h :
  reach grow_ok ping maxIncoming promote send s d ->
  acquires h (commands s) - releases h (commands s) = pcount (is_held h) (proxies s) /\
  increfs h (commands s) - decrefs h (commands s) = pcount (is_handle h) (proxies s).
Proof. intros Hi%reach_inv. split; [by apply (i_acquires s d Hi)|by apply (i_increfs s d Hi)]. Qed.

(** with the counting by uid, [getBinderProxyCount] is the number of proxies
    that exist for that uid, whatever was created, destroyed or limited before, and
    whether or not counting was switched on and off in between. *)
Theorem proxies_counted_by_uid grow_ok ping maxIncoming promote send s d u :
  reach grow_ok ping maxIncoming promote send s d -> 0 <= u ->
  getBinderProxyCount u s = pcount (is_tracked u) (proxies s).
Proof.
  intros Hi%reach_inv Hu. destruct (i_tracked s d Hi u Hu) as [Hlt [limit Hl]].
  pose proof (pcount_range (is_tracked u) (proxies s)) as Hr. unfold getBinderProxyCount.
  unfold tracked in Hl. destruct (sTrackingMap s !! u) as [v|]; cbn in Hl.
  - subst v. apply track_count. lia.
  - destruct limit; cbn [track_value] in Hl; lia.
Qed.

(** when the driver reports the death of a proxy, every recipient linked to
    it that still exists is told once, in the order of linking; a second report
    tells nobody, and a later [linkToDeath] or [unlinkToDeath] answers DEAD_OBJECT
    and changes nothing. *)
Theorem obituaries_sent_once promote maxIncoming s a p h who cookie flags :
  proxies s !! a = Some p -> mHandle p = BinderHandle h -> mObitsSent p = false ->
  wp (sendObituary promote a) s (fun _ s1 =>
    deaths_told s1 = deaths_told s ++
      map (fun o => (recipient o, a)) (List.filter (fun o => promote (recipient o)) (default [] (mObituaries p))) /\
    wp (sendObituary promote a) s1 (fun _ s2 => deaths_told s2 = deaths_told s1 /\ commands s2 = commands s1) /\
    linkToDeath maxIncoming a (Some who) cookie flags s1 = Ret DEAD_OBJECT s1 /\
    unlinkToDeath a (Some who) cookie flags s1 = Ret (DEAD_OBJECT, None) s1).
Proof.
  intros Hp Hh Hs. eapply sendObituary_eff; [done|congruence|]. intros _ s1 U1 Hd1.
  split; [exact Hd1|]. pose proof (upd_lookup _ _ _ _ _ U1) as Hp1. split_and!.
  - eapply sendObituary_eff; [done| |done]. intros _ s2 (_ & Ec & _) Hd2. by rewrite app_nil_r in Ec.
  - unfold linkToDeath, proxy_at, bind, gets. rewrite Hp1. cbn. by rewrite Hh.
  - unfold unlinkToDeath, proxy_at, bind, gets. by rewrite Hp1.
Qed.

#[export] Instance enabled_dec s d o : Decision (enabled s d o).
Proof. destruct o; cbn [enabled]; unfold is_u32; apply _. Defined.

(** * Witnesses *)

Module ProxyWitness.
Definition always (_ : Z) : bool := true.
Definition nobody (_ : Z) : Z := 0.

Abbreviation run := (exec always nobody nobody always nobody).
Abbreviation reachable := (reach always nobody nobody always nobody).

(** Run a list of operations, checking that each is enabled. *)
Fixpoint run_all (l : list op) (s : BP) (d : list Z) : option (BP * list Z) :=
  match l with
  | [] => Some (s, d)
  | o :: l =>
      if decide (enabled s d o) then
        match run o s with Ret _ s' => run_all l s' (after o d) | _ => None end
      else None
  end.

Lemma run_all_reach l s d s' d' :
  reachable s d -> run_all l s d = Some (s', d') -> reachable s' d'.
Proof.
  revert s d. induction l as [|o l IH]; intros s d Hr; cbn [run_all].
  - by intros [= <- <-].
  - destruct (decide _) as [He|]; [|done]. destruct (run o s) as [[] s1| |] eqn:Ex; [|done..].
    apply IH. by eapply reach_step.
Qed.

(** A proxy of handle 3 with two strong references, one dropped again, an RPC
    proxy, and a recipient. *)
Definition trace : list op :=
  [SetCounting true; GetProxy 1000 3; GetProxy 1000 3; RpcProxy 7 9; DecStrong 1; Link 1 55 66 0].
Definition final : BP := default start (fst <$> run_all trace start []).

Lemma final_reach : reachable final [].
Proof. eapply (run_all_reach trace); [constructor|]. by vm_compute. Qed.

Lemma driver_cookies_never_dangle_witness :
  outstanding final [] 1 = 1 /\ exists p, proxies final !! 1 = Some p /\ outstanding final [] 1 <= p_weak p.
Proof.
  split; [by vm_compute|].
  apply (driver_cookies_never_dangle _ _ _ _ _ final [] (DecStrong 1) final_reach); by vm_compute.
Defined.


Lemma driver_references_balanced_witness : pcount (is_held 3) (proxies final) = 1.
Proof.
  rewrite <- (proj1 (driver_references_balanced _ _ _ _ _ final [] 3 final_reach)). by vm_compute.
Defined.

Lemma proxies_counted_by_uid_witness : getBinderProxyCount 1000 final = 1.
Proof. rewrite (proxies_counted_by_uid _ _ _ _ _ final [] 1000 final_reach); [by vm_compute|done]. Defined.

Lemma obituaries_sent_once_witness :
  wp (sendObituary always 1) final (fun _ s1 => deaths_told s1 = [(55, 1)]).
Proof.
  eapply wpg_mono; [eapply (obituaries_sent_once always nobody final 1 _ 3 0 0 0); by vm_compute|].
  intros [] s1 [H _]. rewrite H. by vm_compute.
Defined.
End ProxyWitness.
