(* ===== verification/IpcThread.v ===== *)
(** A thread of the kernel-binder transport: src/libs/binder/IPCThreadState.cpp,
    with the thread pool part of ProcessState.cpp.

    [TS] is what the methods of [IPCThreadState] touch: the two command buffers
    (Parcels of their own), the caller's identity, the reference counts to drop
    later, the process and the environment.  The environment [E] is the kernel: it
    answers [ioctl(BINDER_WRITE_READ)] and [poll], and maps the buffers of incoming
    transactions.  The objects called through virtual functions and reference
    counts are the interface [Objects]; their code may call back into the thread.

    Loops take fuel; a loop that runs out of it is [Fatal] here, so a theorem that
    a call returns says that the fuel was enough.  [acquireResult] is always null:
    BC_ATTEMPT_ACQUIRE is not compiled in. *)

From S2P Require Import Prelude Errors ParcelState ParcelWrite ParcelRead ThreadState ParcelObject ParcelIpc.
From S2P Require Import Driver.

(** * State *)

Record Caller := mkCaller {
  mCallingPid : Z;
  mCallingSid : Z;
  mCallingUid : Z;
}.

(** [pool_threads] logs the threads started, with their [isMain]. *)
Record Process := mkProcess {
  mDriverFD : Z;
  mContextObject : option Z;
  mExecutingThreadsCount : Z;
  mMaxThreads : Z;
  mWaitingForThreads : Z;
  mStarvationStartTimeMs : Z;
  mExitRequested : bool;
  mThreadPoolStarted : bool;
  mThreadPoolSeq : Z;
  mThreadPoolSet : gset Z;
  pool_threads : list bool;
}.

Definition set_mDriverFD (x : Z) (p : Process) : Process :=
  mkProcess
    x (mContextObject p) (mExecutingThreadsCount p) (mMaxThreads p) (mWaitingForThreads p)
    (mStarvationStartTimeMs p) (mExitRequested p) (mThreadPoolStarted p) (mThreadPoolSeq p)
    (mThreadPoolSet p) (pool_threads p).
Definition set_mContextObject (x : option Z) (p : Process) : Process :=
  mkProcess
    (mDriverFD p) x (mExecutingThreadsCount p) (mMaxThreads p) (mWaitingForThreads p)
    (mStarvationStartTimeMs p) (mExitRequested p) (mThreadPoolStarted p) (mThreadPoolSeq p)
    (mThreadPoolSet p) (pool_threads p).
Definition set_mExecutingThreadsCount (x : Z) (p : Process) : Process :=
  mkProcess
    (mDriverFD p) (mContextObject p) x (mMaxThreads p) (mWaitingForThreads p)
    (mStarvationStartTimeMs p) (mExitRequested p) (mThreadPoolStarted p) (mThreadPoolSeq p)
    (mThreadPoolSet p) (pool_threads p).
Definition set_mMaxThreads (x : Z) (p : Process) : Process :=
  mkProcess
    (mDriverFD p) (mContextObject p) (mExecutingThreadsCount p) x (mWaitingForThreads p)
    (mStarvationStartTimeMs p) (mExitRequested p) (mThreadPoolStarted p) (mThreadPoolSeq p)
    (mThreadPoolSet p) (pool_threads p).
Definition set_mWaitingForThreads (x : Z) (p : Process) : Process :=
  mkProcess
    (mDriverFD p) (mContextObject p) (mExecutingThreadsCount p) (mMaxThreads p) x
    (mStarvationStartTimeMs p) (mExitRequested p) (mThreadPoolStarted p) (mThreadPoolSeq p)
    (mThreadPoolSet p) (pool_threads p).
Definition set_mStarvationStartTimeMs (x : Z) (p : Process) : Process :=
  mkProcess
    (mDriverFD p) (mContextObject p) (mExecutingThreadsCount p) (mMaxThreads p)
    (mWaitingForThreads p) x (mExitRequested p) (mThreadPoolStarted p) (mThreadPoolSeq p)
    (mThreadPoolSet p) (pool_threads p).
Definition set_mExitRequested (x : bool) (p : Process) : Process :=
  mkProcess
    (mDriverFD p) (mContextObject p) (mExecutingThreadsCount p) (mMaxThreads p)
    (mWaitingForThreads p) (mStarvationStartTimeMs p) x (mThreadPoolStarted p) (mThreadPoolSeq p)
    (mThreadPoolSet p) (pool_threads p).
Definition set_mThreadPoolStarted (x : bool) (p : Process) : Process :=
  mkProcess
    (mDriverFD p) (mContextObject p) (mExecutingThreadsCount p) (mMaxThreads p)
    (mWaitingForThreads p) (mStarvationStartTimeMs p) (mExitRequested p) x (mThreadPoolSeq p)
    (mThreadPoolSet p) (pool_threads p).
Definition set_mThreadPoolSeq (x : Z) (p : Process) : Process :=
  mkProcess
    (mDriverFD p) (mContextObject p) (mExecutingThreadsCount p) (mMaxThreads p)
    (mWaitingForThreads p) (mStarvationStartTimeMs p) (mExitRequested p) (mThreadPoolStarted p) x
    (mThreadPoolSet p) (pool_threads p).
Definition set_mThreadPoolSet (x : gset Z) (p : Process) : Process :=
  mkProcess
    (mDriverFD p) (mContextObject p) (mExecutingThreadsCount p) (mMaxThreads p)
    (mWaitingForThreads p) (mStarvationStartTimeMs p) (mExitRequested p) (mThreadPoolStarted p)
    (mThreadPoolSeq p) x (pool_threads p).
Definition set_pool_threads (x : list bool) (p : Process) : Process :=
  mkProcess
    (mDriverFD p) (mContextObject p) (mExecutingThreadsCount p) (mMaxThreads p)
    (mWaitingForThreads p) (mStarvationStartTimeMs p) (mExitRequested p) (mThreadPoolStarted p)
    (mThreadPoolSeq p) (mThreadPoolSet p) x.

Record TS (E : Type) := mkTS {
  mIn : Parcel;
  mOut : Parcel;
  t_world : World;
  caller : Caller;
  mServingStackPointer : Z;
  mServingStackPointerGuard : option Z;
  mIsLooper : bool;
  mIsFlushing : bool;
  mLastError : status_t;
  mCallRestriction : Z;
  mPendingWeakDerefs : list Z;
  mPendingStrongDerefs : list Z;
  mPostWriteWeakDerefs : list Z;
  mPostWriteStrongDerefs : list Z;
  proc : Process;
  env : E;
}.
Arguments mkTS {E}.
Arguments mIn {E}.
Arguments mOut {E}.
Arguments t_world {E}.
Arguments caller {E}.
Arguments mServingStackPointer {E}.
Arguments mServingStackPointerGuard {E}.
Arguments mIsLooper {E}.
Arguments mIsFlushing {E}.
Arguments mLastError {E}.
Arguments mCallRestriction {E}.
Arguments mPendingWeakDerefs {E}.
Arguments mPendingStrongDerefs {E}.
Arguments mPostWriteWeakDerefs {E}.
Arguments mPostWriteStrongDerefs {E}.
Arguments proc {E}.
Arguments env {E}.

Definition set_mIn {E} (x : Parcel) (t : TS E) : TS E :=
  mkTS
    x (mOut t) (t_world t) (caller t) (mServingStackPointer t) (mServingStackPointerGuard t)
    (mIsLooper t) (mIsFlushing t) (mLastError t) (mCallRestriction t) (mPendingWeakDerefs t)
    (mPendingStrongDerefs t) (mPostWriteWeakDerefs t) (mPostWriteStrongDerefs t) (proc t) (env t).
Definition set_mOut {E} (x : Parcel) (t : TS E) : TS E :=
  mkTS
    (mIn t) x (t_world t) (caller t) (mServingStackPointer t) (mServingStackPointerGuard t)
    (mIsLooper t) (mIsFlushing t) (mLastError t) (mCallRestriction t) (mPendingWeakDerefs t)
    (mPendingStrongDerefs t) (mPostWriteWeakDerefs t) (mPostWriteStrongDerefs t) (proc t) (env t).
Definition set_t_world {E} (x : World) (t : TS E) : TS E :=
  mkTS
    (mIn t) (mOut t) x (caller t) (mServingStackPointer t) (mServingStackPointerGuard t)
    (mIsLooper t) (mIsFlushing t) (mLastError t) (mCallRestriction t) (mPendingWeakDerefs t)
    (mPendingStrongDerefs t) (mPostWriteWeakDerefs t) (mPostWriteStrongDerefs t) (proc t) (env t).
Definition set_caller {E} (x : Caller) (t : TS E) : TS E :=
  mkTS
    (mIn t) (mOut t) (t_world t) x (mServingStackPointer t) (mServingStackPointerGuard t)
    (mIsLooper t) (mIsFlushing t) (mLastError t) (mCallRestriction t) (mPendingWeakDerefs t)
    (mPendingStrongDerefs t) (mPostWriteWeakDerefs t) (mPostWriteStrongDerefs t) (proc t) (env t).
Definition set_mServingStackPointer {E} (x : Z) (t : TS E) : TS E :=
  mkTS
    (mIn t) (mOut t) (t_world t) (caller t) x (mServingStackPointerGuard t) (mIsLooper t)
    (mIsFlushing t) (mLastError t) (mCallRestriction t) (mPendingWeakDerefs t)
    (mPendingStrongDerefs t) (mPostWriteWeakDerefs t) (mPostWriteStrongDerefs t) (proc t) (env t).
Definition set_mServingStackPointerGuard {E} (x : option Z) (t : TS E) : TS E :=
  mkTS
    (mIn t) (mOut t) (t_world t) (caller t) (mServingStackPointer t) x (mIsLooper t)
    (mIsFlushing t) (mLastError t) (mCallRestriction t) (mPendingWeakDerefs t)
    (mPendingStrongDerefs t) (mPostWriteWeakDerefs t) (mPostWriteStrongDerefs t) (proc t) (env t).
Definition set_mIsLooper {E} (x : bool) (t : TS E) : TS E :=
  mkTS
    (mIn t) (mOut t) (t_world t) (caller t) (mServingStackPointer t) (mServingStackPointerGuard t)
    x (mIsFlushing t) (mLastError t) (mCallRestriction t) (mPendingWeakDerefs t)
    (mPendingStrongDerefs t) (mPostWriteWeakDerefs t) (mPostWriteStrongDerefs t) (proc t) (env t).
Definition set_mIsFlushing {E} (x : bool) (t : TS E) : TS E :=
  mkTS
    (mIn t) (mOut t) (t_world t) (caller t) (mServingStackPointer t) (mServingStackPointerGuard t)
    (mIsLooper t) x (mLastError t) (mCallRestriction t) (mPendingWeakDerefs t)
    (mPendingStrongDerefs t) (mPostWriteWeakDerefs t) (mPostWriteStrongDerefs t) (proc t) (env t).
Definition set_mLastError {E} (x : status_t) (t : TS E) : TS E :=
  mkTS
    (mIn t) (mOut t) (t_world t) (caller t) (mServingStackPointer t) (mServingStackPointerGuard t)
    (mIsLooper t) (mIsFlushing t) x (mCallRestriction t) (mPendingWeakDerefs t)
    (mPendingStrongDerefs t) (mPostWriteWeakDerefs t) (mPostWriteStrongDerefs t) (proc t) (env t).
Definition set_mCallRestriction {E} (x : Z) (t : TS E) : TS E :=
  mkTS
    (mIn t) (mOut t) (t_world t) (caller t) (mServingStackPointer t) (mServingStackPointerGuard t)
    (mIsLooper t) (mIsFlushing t) (mLastError t) x (mPendingWeakDerefs t) (mPendingStrongDerefs t)
    (mPostWriteWeakDerefs t) (mPostWriteStrongDerefs t) (proc t) (env t).
Definition set_mPendingWeakDerefs {E} (x : list Z) (t : TS E) : TS E :=
  mkTS
    (mIn t) (mOut t) (t_world t) (caller t) (mServingStackPointer t) (mServingStackPointerGuard t)
    (mIsLooper t) (mIsFlushing t) (mLastError t) (mCallRestriction t) x (mPendingStrongDerefs t)
    (mPostWriteWeakDerefs t) (mPostWriteStrongDerefs t) (proc t) (env t).
Definition set_mPendingStrongDerefs {E} (x : list Z) (t : TS E) : TS E :=
  mkTS
    (mIn t) (mOut t) (t_world t) (caller t) (mServingStackPointer t) (mServingStackPointerGuard t)
    (mIsLooper t) (mIsFlushing t) (mLastError t) (mCallRestriction t) (mPendingWeakDerefs t) x
    (mPostWriteWeakDerefs t) (mPostWriteStrongDerefs t) (proc t) (env t).
Definition set_mPostWriteWeakDerefs {E} (x : list Z) (t : TS E) : TS E :=
  mkTS
    (mIn t) (mOut t) (t_world t) (caller t) (mServingStackPointer t) (mServingStackPointerGuard t)
    (mIsLooper t) (mIsFlushing t) (mLastError t) (mCallRestriction t) (mPendingWeakDerefs t)
    (mPendingStrongDerefs t) x (mPostWriteStrongDerefs t) (proc t) (env t).
Definition set_mPostWriteStrongDerefs {E} (x : list Z) (t : TS E) : TS E :=
  mkTS
    (mIn t) (mOut t) (t_world t) (caller t) (mServingStackPointer t) (mServingStackPointerGuard t)
    (mIsLooper t) (mIsFlushing t) (mLastError t) (mCallRestriction t) (mPendingWeakDerefs t)
    (mPendingStrongDerefs t) (mPostWriteWeakDerefs t) x (proc t) (env t).
Definition set_proc {E} (x : Process) (t : TS E) : TS E :=
  mkTS
    (mIn t) (mOut t) (t_world t) (caller t) (mServingStackPointer t) (mServingStackPointerGuard t)
    (mIsLooper t) (mIsFlushing t) (mLastError t) (mCallRestriction t) (mPendingWeakDerefs t)
    (mPendingStrongDerefs t) (mPostWriteWeakDerefs t) (mPostWriteStrongDerefs t) x (env t).
Definition set_env {E} (x : E) (t : TS E) : TS E :=
  mkTS
    (mIn t) (mOut t) (t_world t) (caller t) (mServingStackPointer t) (mServingStackPointerGuard t)
    (mIsLooper t) (mIsFlushing t) (mLastError t) (mCallRestriction t) (mPendingWeakDerefs t)
    (mPendingStrongDerefs t) (mPostWriteWeakDerefs t) (mPostWriteStrongDerefs t) (proc t) x.

(** [struct binder_write_read]: the commands to write, how much the driver took,
    the room to read and what it returned there. *)
Record binder_write_read := mkBwr {
  write_buffer : bytes;
  write_consumed : Z;
  read_size : Z;
  read_consumed : Z;
  read_data : bytes;
}.

(** * The objects of the process *)

(** What the thread calls on objects it only knows by address: reference counts
    (RefBase), the incoming call, the death notice.  Each may run any code. *)
Class Objects (E : Type) := {
  obj_incStrong : Z -> M (TS E) unit;
  obj_decStrong : Z -> M (TS E) unit;
  obj_incWeak : Z -> M (TS E) unit;
  obj_decWeak : Z -> M (TS E) unit;
  obj_attemptIncStrong : Z -> M (TS E) bool;
  obj_transact : Z -> Z -> Parcel -> Parcel -> Z -> M (TS E) (status_t * Parcel * Parcel);
  obj_sendObituary : Z -> M (TS E) unit;
}.

(** The kernel and the C library. *)
Class Kernel (E : Type) := {
  ioctl : E -> binder_write_read -> E * (Z * binder_write_read);
  poll : E -> E * Z;
  uptimeMillis : E -> Z;
  mapped : E -> Z -> Z -> bytes;
  ipcData : Parcel -> Z;
  ipcObjects : Parcel -> Z;
  getpid : Z;
  getuid : Z;
  gettid : Z;
  frame_address : nat -> Z;
  status_buffer : nat -> Z;
}.

Definition EINTR : Z := 4.
Definition EAGAIN : Z := 11.
Definition ECONNREFUSED : Z := 111.

Abbreviation modt f := (modify f).
Abbreviation modproc f := (modify (fun t => set_proc (f (proc t)) t)).

Section Identity.
Context {E : Type} `{Kernel E}.

(** * The caller's identity *)

Definition clearLastError : M (TS E) status_t :=
  let* err := gets mLastError in modt (set_mLastError NO_ERROR) ;; ret err.

Definition checkContextIsBinderForUse : M (TS E) unit :=
  let* t := get in
  match mServingStackPointerGuard t with
  | None => ret tt
  | Some address => fatal_if ((mServingStackPointer t =? 0) || (address <? mServingStackPointer t))
  end.

Definition getCallingPid : M (TS E) Z :=
  checkContextIsBinderForUse ;; gets (fun t => mCallingPid (caller t)).
Definition getCallingSid : M (TS E) Z :=
  checkContextIsBinderForUse ;; gets (fun t => mCallingSid (caller t)).
Definition getCallingUid : M (TS E) Z :=
  checkContextIsBinderForUse ;; gets (fun t => mCallingUid (caller t)).

Definition pushGetCallingSpGuard (guard : option Z) : M (TS E) (option Z) :=
  let* orig := gets mServingStackPointerGuard in
  modt (set_mServingStackPointerGuard guard) ;; ret orig.
Definition restoreGetCallingSpGuard (guard : option Z) : M (TS E) unit :=
  modt (set_mServingStackPointerGuard guard).

Definition clearCaller : M (TS E) unit :=
  modt (set_caller (mkCaller getpid 0 getuid)).

(** The uid in the high half, the pid (sign-extended) in the low one. *)
Definition clearCallingIdentity : M (TS E) Z :=
  let* c := gets caller in
  let token := s64 (Z.lor (s64 (Z.shiftl (mCallingUid c) 32)) (mCallingPid c)) in
  clearCaller ;; ret token.

Definition restoreCallingIdentity (token : Z) : M (TS E) unit :=
  modt (set_caller (mkCaller (s32 token) 0 (u32 (s32 (Z.shiftr token 32))))).

Definition setCallRestriction (restriction : Z) : M (TS E) unit :=
  modt (set_mCallRestriction restriction).
Definition getCallRestriction : M (TS E) Z := gets mCallRestriction.
Definition getServingStackPointer : M (TS E) Z := gets mServingStackPointer.
Definition setTheContextObject (obj : Z) : M (TS E) unit := modproc (set_mContextObject (Some obj)).
End Identity.

(** * The command buffers *)

Section Thread.
Context {E : Type} {K : Kernel E} {Obj : Objects E}.

Definition on_out {A} (m : M PS A) : M (TS E) A :=
  zoom (fun t => mkPS (mOut t) (t_world t))
       (fun s t => set_t_world (world s) (set_mOut (this s) t)) m.
Definition on_in {A} (m : M PS A) : M (TS E) A :=
  zoom (fun t => mkPS (mIn t) (t_world t))
       (fun s t => set_t_world (world s) (set_mIn (this s) t)) m.

Definition out_int32 (v : Z) : M (TS E) unit := on_out (writeInt32 v) ;; ret tt.
Definition out_pointer (v : Z) : M (TS E) unit := on_out (writePointer v) ;; ret tt.

(** The size of the vector is tested anew for every element. *)
Fixpoint post_weak_derefs (fuel i : nat) : M (TS E) unit :=
  match fuel with
  | O => fatal
  | S fuel =>
      let* q := gets mPostWriteWeakDerefs in
      match q !! i with
      | None => ret tt
      | Some refs => obj_decWeak refs ;; post_weak_derefs fuel (S i)
      end
  end.
Fixpoint post_strong_derefs (fuel i : nat) : M (TS E) unit :=
  match fuel with
  | O => fatal
  | S fuel =>
      let* q := gets mPostWriteStrongDerefs in
      match q !! i with
      | None => ret tt
      | Some obj => obj_decStrong obj ;; post_strong_derefs fuel (S i)
      end
  end.
Definition processPostWriteDerefs (fuel : nat) : M (TS E) unit :=
  post_weak_derefs fuel 0 ;;
  modt (set_mPostWriteWeakDerefs []) ;;
  post_strong_derefs fuel 0 ;;
  modt (set_mPostWriteStrongDerefs []).

(** The [do ... while (err == -EINTR)] around [ioctl]. *)
Fixpoint ioctl_loop (fuel : nat) (b : binder_write_read) : M (TS E) (status_t * binder_write_read) :=
  match fuel with
  | O => fatal
  | S fuel =>
      let* t := get in
      let '(e, (errno, b)) := ioctl (env t) b in
      modt (set_env e) ;;
      let err := if errno =? 0 then NO_ERROR else - errno in
      let err := if mDriverFD (proc t) <? 0 then - EBADF else err in
      if err =? - EINTR then ioctl_loop fuel b else ret (err, b)
  end.

(** The driver has put [bs] at the start of the read buffer. *)
Definition fill_in (bs : bytes) : M (TS E) unit := on_in (store 0 bs).

Definition talkWithDriver (fuel : nat) (doReceive : bool) : M (TS E) status_t :=
  let* t := get in
  if mDriverFD (proc t) <? 0 then ret (- EBADF) else
  let needRead := dataSize (mIn t) <=? dataPosition (mIn t) in
  let outAvail := if negb doReceive || needRead then dataSize (mOut t) else 0 in
  let readSize := if doReceive && needRead then dataCapacity (mIn t) else 0 in
  if (outAvail =? 0) && (readSize =? 0) then ret NO_ERROR else
  let* out := require (mem_read (data_block (mOut t)) 0 outAvail) in
  let* r := ioctl_loop fuel (mkBwr out 0 readSize 0 []) in
  let '(err, b) := r in
  (if 0 <? read_consumed b then fill_in (read_data b) else ret tt) ;;
  if NO_ERROR <=? err then
    (if 0 <? write_consumed b then
       let* size := gets (fun t => dataSize (mOut t)) in
       if write_consumed b <? size then fatal
       else on_out (setDataSize 0) ;; processPostWriteDerefs fuel
     else ret tt) ;;
    (if 0 <? read_consumed b then
       on_in (setDataSize (read_consumed b)) ;; on_in (setDataPosition 0)
     else ret tt) ;;
    ret NO_ERROR
  else ret err.

Definition flushCommands (fuel : nat) : M (TS E) unit :=
  let* fd := gets (fun t => mDriverFD (proc t)) in
  if fd <? 0 then ret tt else
  talkWithDriver fuel false ;;
  let* size := gets (fun t => dataSize (mOut t)) in
  if 0 <? size then talkWithDriver fuel false ;; ret tt else ret tt.

Definition flushIfNeeded (fuel : nat) : M (TS E) bool :=
  let* t := get in
  if mIsLooper t || negb (mServingStackPointer t =? 0) || mIsFlushing t then ret false else
  modt (set_mIsFlushing true) ;;
  flushCommands fuel ;;
  modt (set_mIsFlushing false) ;;
  ret true.

(** [proxy] is kept alive until the driver has handled the command. *)
Definition incStrongHandle (fuel : nat) (handle proxy : Z) : M (TS E) unit :=
  out_int32 BC_ACQUIRE ;;
  out_int32 handle ;;
  let* flushed := flushIfNeeded fuel in
  if flushed then ret tt else
  obj_incStrong proxy ;;
  modt (fun t => set_mPostWriteStrongDerefs (mPostWriteStrongDerefs t ++ [proxy]) t).

Definition decStrongHandle (fuel : nat) (handle : Z) : M (TS E) unit :=
  out_int32 BC_RELEASE ;;
  out_int32 handle ;;
  flushIfNeeded fuel ;; ret tt.

Definition incWeakHandle (fuel : nat) (handle proxy : Z) : M (TS E) unit :=
  out_int32 BC_INCREFS ;;
  out_int32 handle ;;
  let* flushed := flushIfNeeded fuel in
  if flushed then ret tt else
  obj_incWeak proxy ;;
  modt (fun t => set_mPostWriteWeakDerefs (mPostWriteWeakDerefs t ++ [proxy]) t).

Definition decWeakHandle (fuel : nat) (handle : Z) : M (TS E) unit :=
  out_int32 BC_DECREFS ;;
  out_int32 handle ;;
  flushIfNeeded fuel ;; ret tt.

Definition attemptIncStrongHandle (handle : Z) : M (TS E) status_t := ret INVALID_OPERATION.

Definition requestDeathNotification (handle proxy : Z) : M (TS E) status_t :=
  out_int32 BC_REQUEST_DEATH_NOTIFICATION ;;
  out_int32 handle ;;
  out_pointer proxy ;;
  ret NO_ERROR.

Definition clearDeathNotification (handle proxy : Z) : M (TS E) status_t :=
  out_int32 BC_CLEAR_DEATH_NOTIFICATION ;;
  out_int32 handle ;;
  out_pointer proxy ;;
  ret NO_ERROR.

(** [freeBuffer]; the descriptors of the parcel are closed by [call_owner]. *)
Definition free_buffer (fuel : nat) (data : Z) : M (TS E) unit :=
  out_int32 BC_FREE_BUFFER ;;
  out_pointer data ;;
  flushIfNeeded fuel ;; ret tt.

(** A method of another Parcel, then the owner callbacks it made. *)
Definition on_parcel {A} (fuel : nat) (p : Parcel) (m : M PS A) : M (TS E) (A * Parcel) :=
  let* before := gets (fun t => length (w_released (t_world t))) in
  let* r := zoom (fun t => mkPS p (t_world t)) (fun s t => set_t_world (world s) t)
              (let* a := m in let* p' := gets this in ret (a, p')) in
  let* log := gets (fun t => w_released (t_world t)) in
  for_each (rev (take (length log - before) log)) (fun rel =>
    match rel with freeBuffer data => free_buffer fuel data | _ => ret tt end) ;;
  ret r.

(** * Transactions *)

Definition sizeof_size : Z := 8.

(** [statusBuffer]: the address of the caller's status variable, if it gave one. *)
Definition writeTransactionData (cmd binderFlags handle code : Z) (data : Parcel)
    (statusBuffer : option Z) : M (TS E) status_t :=
  let tr flags size buffer osize offsets :=
    mkTr (u32 handle) 0 (u32 code) (u32 flags) 0 0 size osize buffer offsets in
  let send (t : binder_transaction_data) :=
    out_int32 cmd ;;
    on_out (write (Some (tr_bytes t)) sizeof_tr) ;;
    ret NO_ERROR in
  let err := errorCheck data in
  if err =? NO_ERROR then
    send (tr binderFlags (ipcDataSize data) (ipcData data)
            (ipcObjectsCount data * sizeof_size) (ipcObjects data))
  else match statusBuffer with
  | Some a => send (tr (Z.lor binderFlags TF_STATUS_CODE) 4 a 0 0)
  | None => modt (set_mLastError err) ;; ret err
  end.

(** The parts of a received transaction in the mapped area. *)
Definition tr_data (e : E) (t : binder_transaction_data) : option bytes :=
  if tr_buffer t =? 0 then None else Some (mapped e (tr_buffer t) (tr_data_size t)).
Definition tr_objects (e : E) (t : binder_transaction_data) : list Z :=
  let n := tr_offsets_size t / sizeof_size in
  split_array 8 (Z.to_nat n) (mapped e (tr_offsets t) (n * sizeof_size)).

Definition set_reference (fuel : nat) (p : Parcel) (t : binder_transaction_data) : M (TS E) Parcel :=
  let* e := gets env in
  let* r := on_parcel fuel p
    (ipcSetDataReference (tr_data e t) (tr_data_size t) (tr_objects e t) (freeBuffer (tr_buffer t))) in
  ret (snd r).

(** The end of [waitForResponse]. *)
Definition finish (err : status_t) (reply : option Parcel) : M (TS E) (status_t * option Parcel) :=
  if err =? NO_ERROR then ret (err, reply) else
  modt (set_mLastError err) ;;
  ret (err, set_mError err <$> reply).

(** The [switch] of [waitForResponse]; [again] is its loop, [execute] is
    [executeCommand], [err] the status so far. *)
Definition wait_command (fuel : nat) (again : option Parcel -> M (TS E) (status_t * option Parcel))
    (execute : Z -> M (TS E) status_t) (reply : option Parcel) (err : status_t) (cmd : Z) :
    M (TS E) (status_t * option Parcel) :=
  if (cmd =? BR_ONEWAY_SPAM_SUSPECT) || (cmd =? BR_TRANSACTION_COMPLETE) then
    match reply with None => finish err reply | Some _ => again reply end
  else if cmd =? BR_DEAD_REPLY then finish DEAD_OBJECT reply
  else if cmd =? BR_FAILED_REPLY then finish FAILED_TRANSACTION reply
  else if cmd =? BR_FROZEN_REPLY then finish FAILED_TRANSACTION reply
  else if cmd =? BR_ACQUIRE_RESULT then on_in readInt32_ ;; again reply
  else if cmd =? BR_REPLY then
    let* r := on_in (read sizeof_tr) in
    match r with
    | Err err => finish err reply
    | Good bs =>
        let tr := tr_of_bytes bs in
        match reply with
        | None => free_buffer fuel (tr_buffer tr) ;; again reply
        | Some p =>
            if Z.land (tr_flags tr) TF_STATUS_CODE =? 0 then
              let* p := set_reference fuel p tr in finish NO_ERROR (Some p)
            else
              let* e := gets env in
              let err := s32 (le_val (mapped e (tr_buffer tr) 4)) in
              free_buffer fuel (tr_buffer tr) ;;
              finish err (Some p)
        end
    end
  else
    let* err := execute cmd in
    if err =? NO_ERROR then again reply else finish err reply.

(** One round of the loop; an interrupted read is polled for and repeated. *)
Definition wait_step (fuel : nat) (again : option Parcel -> M (TS E) (status_t * option Parcel))
    (execute : Z -> M (TS E) status_t) (reply : option Parcel) : M (TS E) (status_t * option Parcel) :=
  let broken err :=
    if err =? - EAGAIN then
      let* e := gets env in
      let '(e, errno) := poll e in
      modt (set_env e) ;;
      if errno =? 0 then again reply else finish (- errno) reply
    else finish err reply in
  let* err := talkWithDriver fuel true in
  if err <? NO_ERROR then broken err else
  let* err := gets (fun t => errorCheck (mIn t)) in
  if err <? NO_ERROR then broken err else
  let* avail := on_in dataAvail in
  if avail =? 0 then again reply else
  let* cmd := on_in readInt32_ in
  wait_command fuel again execute reply err (u32 cmd).

(** [waitForResponse] before its loop. *)
Definition wait_with (fuel : nat) (loop : option Parcel -> M (TS E) (status_t * option Parcel))
    (reply : option Parcel) : M (TS E) (status_t * option Parcel) :=
  (match reply with None => talkWithDriver fuel false ;; ret tt | Some _ => ret tt end) ;;
  loop reply.

Definition reply_with (fuel : nat) (wait : option Parcel -> M (TS E) (status_t * option Parcel))
    (reply : Parcel) (flags : Z) : M (TS E) status_t :=
  let* err := writeTransactionData BC_REPLY flags (-1) 0 reply (Some (status_buffer fuel)) in
  if err <? NO_ERROR then ret err else
  let* r := wait None in ret (fst r).

(** What [BR_TRANSACTION] saves and restores. *)
Record saved := mkSaved { sv_serving : Z; sv_caller : Caller; sv_thread : ThreadState }.
Definition save (t : TS E) : saved := mkSaved (mServingStackPointer t) (caller t) (w_thread (t_world t)).
Definition restore (v : saved) (t : TS E) : TS E :=
  set_mServingStackPointer (sv_serving v) (set_caller (sv_caller v)
    (set_t_world (set_w_thread
       (mkThreadState (mStrictModePolicy (sv_thread v)) (mWorkSource (sv_thread v))
          (mPropagateWorkSource (sv_thread v)) (mLastTransactionBinderFlags (sv_thread v))
          (mBackgroundSchedulingDisabled (w_thread (t_world t)))) (t_world t)) t)).

(** The identity the service sees. *)
Definition serve_as (frame sid : Z) (tr : binder_transaction_data) (t : TS E) : TS E :=
  let th := w_thread (t_world t) in
  let th := clearPropagateWorkSource (snd (clearCallingWorkSource th)) in
  set_mServingStackPointer frame
    (set_caller (mkCaller (tr_sender_pid tr) sid (tr_sender_euid tr))
    (set_t_world (set_w_thread (setLastTransactionBinderFlags (s32 (tr_flags tr)) th) (t_world t)) t)).

(** The call on the target object. *)
Definition call_target (tr : binder_transaction_data) (buffer reply : Parcel) :
    M (TS E) (status_t * Parcel * Parcel) :=
  if tr_target tr =? 0 then
    let* ctx := gets (fun t => mContextObject (proc t)) in
    let* ctx := require ctx in
    obj_transact ctx (tr_code tr) buffer reply (tr_flags tr)
  else
    let* ok := obj_attemptIncStrong (tr_target tr) in
    if ok then
      let* r := obj_transact (tr_cookie tr) (tr_code tr) buffer reply (tr_flags tr) in
      obj_decStrong (tr_cookie tr) ;;
      ret r
    else ret (UNKNOWN_TRANSACTION, buffer, reply).

Definition run_transaction (fuel : nat) (wait : option Parcel -> M (TS E) (status_t * option Parcel))
    (tr : binder_transaction_data) (secctx : Z) : M (TS E) status_t :=
  let* b := on_parcel fuel init_parcel initState in
  let* buffer := set_reference fuel (snd b) tr in
  let* v := gets save in
  modt (serve_as (frame_address fuel) secctx tr) ;;
  let* b := on_parcel fuel init_parcel initState in
  let* r := call_target tr buffer (snd b) in
  let '(error, buffer, reply) := r in
  let* r :=
    if Z.land (tr_flags tr) TF_ONE_WAY =? 0 then
      let reply := if error <? NO_ERROR then set_mError error reply else reply in
      let* b := on_parcel fuel buffer (setDataSize 0) in
      reply_with fuel wait reply (Z.land (tr_flags tr) TF_CLEAR_BUF) ;;
      ret (snd b, reply)
    else ret (buffer, reply) in
  let '(buffer, reply) := r in
  modt (restore v) ;;
  on_parcel fuel reply freeDataNoInit ;;
  on_parcel fuel buffer freeDataNoInit ;;
  ret NO_ERROR.

Definition execute_transaction (fuel : nat)
    (wait : option Parcel -> M (TS E) (status_t * option Parcel)) (cmd : Z) : M (TS E) status_t :=
  if cmd =? BR_TRANSACTION_SEC_CTX then
    let* r := on_in (read sizeof_tr_secctx) in
    match r with
    | Err err => ret err
    | Good bs => run_transaction fuel wait (tr_of_bytes bs) (field 8 sizeof_tr bs)
    end
  else
    let* r := on_in (read sizeof_tr) in
    match r with
    | Err err => ret err
    | Good bs => run_transaction fuel wait (tr_of_bytes bs) 0
    end.

(** [ProcessState::spawnPooledThread]. *)
Definition spawnPooledThread (isMain : bool) : M (TS E) unit :=
  let* started := gets (fun t => mThreadPoolStarted (proc t)) in
  if started then
    modproc (fun p => set_pool_threads (pool_threads p ++ [isMain])
                        (set_mThreadPoolSeq (s32 (mThreadPoolSeq p + 1)) p))
  else ret tt.

(** A pair of pointers from the driver. *)
Definition in_object : M (TS E) (Z * Z) :=
  let* refs := on_in readPointer_ in
  let* obj := on_in readPointer_ in
  ret (refs, obj).

Definition execute_command (fuel : nat) (wait : option Parcel -> M (TS E) (status_t * option Parcel))
    (cmd : Z) : M (TS E) status_t :=
  let* result :=
    if cmd =? BR_ERROR then on_in readInt32_
    else if cmd =? BR_OK then ret NO_ERROR
    else if cmd =? BR_ACQUIRE then
      let* p := in_object in
      let '(refs, obj) := p in
      obj_incStrong obj ;;
      out_int32 BC_ACQUIRE_DONE ;; out_pointer refs ;; out_pointer obj ;;
      ret NO_ERROR
    else if cmd =? BR_RELEASE then
      let* p := in_object in
      modt (fun t => set_mPendingStrongDerefs (mPendingStrongDerefs t ++ [snd p]) t) ;;
      ret NO_ERROR
    else if cmd =? BR_INCREFS then
      let* p := in_object in
      let '(refs, obj) := p in
      obj_incWeak refs ;;
      out_int32 BC_INCREFS_DONE ;; out_pointer refs ;; out_pointer obj ;;
      ret NO_ERROR
    else if cmd =? BR_DECREFS then
      let* p := in_object in
      modt (fun t => set_mPendingWeakDerefs (mPendingWeakDerefs t ++ [fst p]) t) ;;
      ret NO_ERROR
    else if cmd =? BR_ATTEMPT_ACQUIRE then
      let* p := in_object in
      let* success := obj_attemptIncStrong (fst p) in
      out_int32 BC_ACQUIRE_RESULT ;; out_int32 (if success : bool then 1 else 0) ;;
      ret NO_ERROR
    else if (cmd =? BR_TRANSACTION_SEC_CTX) || (cmd =? BR_TRANSACTION) then
      execute_transaction fuel wait cmd
    else if cmd =? BR_DEAD_BINDER then
      let* proxy := on_in readPointer_ in
      obj_sendObituary proxy ;;
      out_int32 BC_DEAD_BINDER_DONE ;; out_pointer proxy ;;
      ret NO_ERROR
    else if cmd =? BR_CLEAR_DEATH_NOTIFICATION_DONE then
      let* proxy := on_in readPointer_ in
      obj_decWeak proxy ;;
      ret NO_ERROR
    else if cmd =? BR_FINISHED then ret TIMED_OUT
    else if cmd =? BR_NOOP then ret NO_ERROR
    else if cmd =? BR_SPAWN_LOOPER then spawnPooledThread false ;; ret NO_ERROR
    else ret UNKNOWN_ERROR in
  (if result =? NO_ERROR then ret tt else modt (set_mLastError result)) ;;
  ret result.

(** The two functions call each other. *)
Fixpoint wait_loop (fuel : nat) (reply : option Parcel) : M (TS E) (status_t * option Parcel) :=
  match fuel with
  | O => fatal
  | S fuel =>
      wait_step fuel (wait_loop fuel) (execute_command fuel (wait_with fuel (wait_loop fuel))) reply
  end.
Definition waitForResponse (fuel : nat) (reply : option Parcel) : M (TS E) (status_t * option Parcel) :=
  wait_with fuel (wait_loop fuel) reply.
Definition sendReply (fuel : nat) (reply : Parcel) (flags : Z) : M (TS E) status_t :=
  reply_with fuel (waitForResponse fuel) reply flags.
Definition executeCommand (fuel : nat) (cmd : Z) : M (TS E) status_t :=
  execute_command fuel (waitForResponse fuel) cmd.

Definition ERROR_IF_NOT_ONEWAY : Z := 1.
Definition FATAL_IF_NOT_ONEWAY : Z := 2.

Definition transact (fuel : nat) (handle code : Z) (data : Parcel) (reply : option Parcel) (flags : Z) :
    M (TS E) (status_t * option Parcel) :=
  fatal_if (match mSession data with Some _ => true | None => false end) ;;
  let flags := Z.lor flags TF_ACCEPT_FDS in
  let* err := writeTransactionData BC_TRANSACTION flags handle code data None in
  if negb (err =? NO_ERROR) then
    modt (set_mLastError err) ;;
    ret (err, set_mError err <$> reply)
  else if Z.land flags TF_ONE_WAY =? 0 then
    let* restriction := gets mCallRestriction in
    fatal_if (negb (restriction =? 0) && negb (restriction =? ERROR_IF_NOT_ONEWAY)) ;;
    match reply with
    | Some _ => waitForResponse fuel reply
    | None =>
        let* b := on_parcel fuel init_parcel initState in
        let* r := waitForResponse fuel (Some (snd b)) in
        on_parcel fuel (default (snd b) (snd r)) freeDataNoInit ;;
        ret (fst r, None)
    end
  else
    let* r := waitForResponse fuel None in
    ret (fst r, reply).

(** * The thread pool *)

(** The counters around [executeCommand]; the wake-up of waiting threads has no
    effect on the state. *)
Definition enter_command : M (TS E) unit :=
  let* e := gets env in
  modproc (fun p =>
    let p := set_mExecutingThreadsCount (u64 (mExecutingThreadsCount p + 1)) p in
    if (mMaxThreads p <=? mExecutingThreadsCount p) && (mStarvationStartTimeMs p =? 0)
    then set_mStarvationStartTimeMs (uptimeMillis e) p else p).
Definition leave_command : M (TS E) unit :=
  modproc (fun p =>
    let p := set_mExecutingThreadsCount (u64 (mExecutingThreadsCount p - 1)) p in
    if (mExecutingThreadsCount p <? mMaxThreads p) && negb (mStarvationStartTimeMs p =? 0)
    then set_mStarvationStartTimeMs 0 p else p).

Definition getAndExecuteCommand (fuel : nat) : M (TS E) status_t :=
  let* result := talkWithDriver fuel true in
  if NO_ERROR <=? result then
    let* IN := on_in dataAvail in
    if IN <? 4 then ret result else
    let* cmd := on_in readInt32_ in
    enter_command ;;
    let* result := executeCommand fuel (u32 cmd) in
    leave_command ;;
    ret result
  else ret result.

Fixpoint weak_derefs (fuel : nat) : M (TS E) unit :=
  match fuel with
  | O => fatal
  | S fuel =>
      let* q := gets mPendingWeakDerefs in
      match q with
      | [] => ret tt
      | refs :: q => modt (set_mPendingWeakDerefs q) ;; obj_decWeak refs ;; weak_derefs fuel
      end
  end.
(** The outer loop: all weak references, then one strong one, until both queues
    are empty. *)
Fixpoint pending_derefs (fuel : nat) : M (TS E) unit :=
  match fuel with
  | O => fatal
  | S fuel =>
      let* t := get in
      match mPendingWeakDerefs t, mPendingStrongDerefs t with
      | [], [] => ret tt
      | _, _ =>
          weak_derefs (S fuel) ;;
          let* q := gets mPendingStrongDerefs in
          match q with
          | [] => ret tt
          | obj :: q => modt (set_mPendingStrongDerefs q) ;; obj_decStrong obj
          end ;;
          pending_derefs fuel
      end
  end.
Definition processPendingDerefs (fuel : nat) : M (TS E) unit :=
  let* t := get in
  if dataSize (mIn t) <=? dataPosition (mIn t) then pending_derefs fuel else ret tt.

Definition registerThread (thread : Z) : M (TS E) unit :=
  modproc (fun p => set_mThreadPoolSet ({[thread]} ∪ mThreadPoolSet p) p).
Definition unregisterThread (thread : Z) : M (TS E) unit :=
  modproc (fun p => set_mThreadPoolSet (mThreadPoolSet p ∖ {[thread]}) p).

(** The [do ... while] of [joinThreadPool]: its last result. *)
Fixpoint pool_loop (fuel : nat) : M (TS E) status_t :=
  match fuel with
  | O => fatal
  | S fuel =>
      processPendingDerefs fuel ;;
      let* exit := gets (fun t => mExitRequested (proc t)) in
      if exit then ret TIMED_OUT else
      let* result := getAndExecuteCommand fuel in
      fatal_if ((result <? NO_ERROR) && negb (result =? TIMED_OUT) && negb (result =? - ECONNREFUSED)
                && negb (result =? - EBADF)) ;;
      if result =? TIMED_OUT then ret result
      else if negb (result =? - ECONNREFUSED) && negb (result =? - EBADF) then pool_loop fuel
      else ret result
  end.

Definition joinThreadPool (fuel : nat) (isMain : bool) : M (TS E) unit :=
  registerThread gettid ;;
  out_int32 (if isMain then BC_ENTER_LOOPER else BC_REGISTER_LOOPER) ;;
  modt (set_mIsLooper true) ;;
  pool_loop fuel ;;
  out_int32 BC_EXIT_LOOPER ;;
  modt (set_mIsLooper false) ;;
  talkWithDriver fuel false ;;
  unregisterThread gettid.

(** The status, and the descriptor to poll. *)
Definition setupPolling (fuel : nat) : M (TS E) (status_t * option Z) :=
  let* fd := gets (fun t => mDriverFD (proc t)) in
  if fd <? 0 then ret (- EBADF, None) else
  out_int32 BC_ENTER_LOOPER ;;
  flushCommands fuel ;;
  ret (0, Some fd).

Fixpoint polled_loop (fuel : nat) : M (TS E) status_t :=
  match fuel with
  | O => fatal
  | S fuel =>
      let* result := getAndExecuteCommand fuel in
      let* more := gets (fun t => dataPosition (mIn t) <? dataSize (mIn t)) in
      if more : bool then polled_loop fuel else ret result
  end.
Definition handlePolledCommands (fuel : nat) : M (TS E) status_t :=
  let* result := polled_loop fuel in
  processPendingDerefs fuel ;;
  flushCommands fuel ;;
  let* exit := gets (fun t => mExitRequested (proc t)) in
  ret (if exit : bool then TIMED_OUT else result).

Definition stopProcess (fuel : nat) : M (TS E) unit :=
  flushCommands fuel ;;
  modproc (set_mDriverFD (-1)).

Definition startThreadPool : M (TS E) unit :=
  let* started := gets (fun t => mThreadPoolStarted (proc t)) in
  if started : bool then ret tt else
  modproc (set_mThreadPoolStarted true) ;;
  spawnPooledThread true.

(** [set_max n]: the answer of [ioctl(BINDER_SET_MAX_THREADS)], 0 or an errno. *)
Definition setThreadPoolMaxThreadCount (set_max : Z -> Z) (maxThreads : Z) : M (TS E) status_t :=
  let* p := gets proc in
  fatal_if (mThreadPoolStarted p && (maxThreads <? mMaxThreads p)) ;;
  if set_max maxThreads =? 0 then modproc (set_mMaxThreads maxThreads) ;; ret NO_ERROR
  else ret (- set_max maxThreads).

Definition getThreadPoolMaxThreadCount : M (TS E) Z :=
  let* p := gets proc in ret (if mThreadPoolStarted p then mMaxThreads p else 0).
End Thread.

(** The constructor; [mLastError] starts with whatever the memory held. *)
Definition new_thread {E} {K : Kernel E} (w : World) (p : Process) (e : E) (restriction junk : Z) :
    M (TS E) unit :=
  put (mkTS init_parcel init_parcel
    (set_w_thread (mkThreadState 0 kUnsetWorkSource false 0 (mBackgroundSchedulingDisabled (w_thread w))) w)
    (mkCaller 0 0 0) 0 None false false junk restriction [] [] [] [] p e) ;;
  clearCaller ;;
  on_in (setDataCapacity 256) ;;
  on_out (setDataCapacity 256) ;;
  ret tt.
