(* ===== verification/IpcThreadProps.v ===== *)
(** Correctness of the command loop of a thread: the caller's identity, and what
    the driver receives. *)

From S2P Require Import Prelude Errors ParcelState ParcelWrite ParcelRead ThreadState ParcelObject ParcelIpc.
From S2P Require Import ParcelInv ParcelWriteSpec ParcelReadSpec ParcelFrame Driver IpcThread.

(** * The identity of the caller *)

(** What a thread reports about the call it serves. *)
Definition identity {E} (t : TS E) : Z * Caller * (Z * Z * bool * Z) :=
  let th := w_thread (t_world t) in
  (mServingStackPointer t, caller t,
   (mStrictModePolicy th, mWorkSource th, mPropagateWorkSource th, mLastTransactionBinderFlags th)).

(** What is asked of the objects: dropping a reference may run destructors, but
    returns with the identity it found. *)
Class RefsKeepIdentity (E : Type) `{Objects E} := {
  decStrong_identity a i : pres (fun t : TS E => identity t = i) (obj_decStrong a);
  decWeak_identity a i : pres (fun t : TS E => identity t = i) (obj_decWeak a);
}.

Section Serving.
Context {E : Type} {K : Kernel E} {Obj : Objects E} {Quiet : RefsKeepIdentity E}.
Implicit Type i : Z * Caller * (Z * Z * bool * Z).
Local Abbreviation same i := (fun t : TS E => identity t = i).

Lemma pres_zoom {A} (m : M PS A) rd wr i :
  (forall t, identity t = i -> w_thread (world (rd t)) = w_thread (t_world t)) ->
  (forall s t, w_thread (world s) = w_thread (t_world t) -> identity (wr s t) = identity t) ->
  (forall th, pres (kept w_thread th) m) -> pres (same i) (zoom rd wr m).
Proof.
  intros Hrd Hwr Hm t a t' Ht. unfold zoom. destruct (m (rd t)) as [b s| |] eqn:Em; [|done..].
  intros [= <- <-]. rewrite <- Ht. apply Hwr. rewrite <- (Hrd t Ht). eapply Hm; [|exact Em]. done.
Qed.

Lemma on_out_same {A} (m : M PS A) i : (forall th, pres (kept w_thread th) m) -> pres (same i) (on_out m).
Proof.
  apply pres_zoom; [done|]. intros s t Hs. unfold identity. cbn. by rewrite Hs.
Qed.
Lemma on_in_same {A} (m : M PS A) i : (forall th, pres (kept w_thread th) m) -> pres (same i) (on_in m).
Proof.
  apply pres_zoom; [done|]. intros s t Hs. unfold identity. cbn. by rewrite Hs.
Qed.

Lemma modify_same f i : (forall t, identity (f t) = identity t) -> pres (same i) (modify f).
Proof. intros Hf. apply pres_modify. intros t <-. apply Hf. Qed.

#[local] Hint Extern 2 (pres (fun t => identity t = _) (modify _)) => (apply modify_same; done) : pres.
#[local] Hint Extern 2 (pres (fun t => identity t = _) (on_out _)) =>
  (apply on_out_same; intros ?; solve [pres]) : pres.
#[local] Hint Extern 2 (pres (fun t => identity t = _) (on_in _)) =>
  (apply on_in_same; intros ?; solve [pres]) : pres.
#[local] Hint Resolve decStrong_identity decWeak_identity : pres.

Lemma out_int32_same v i : pres (same i) (out_int32 v).
Proof. unfold out_int32, writeInt32. pres. Qed.
Lemma out_pointer_same v i : pres (same i) (out_pointer v).
Proof. unfold out_pointer, writePointer. pres. Qed.
#[local] Hint Resolve out_int32_same out_pointer_same : pres.

Lemma post_weak_same fuel n i : pres (same i) (post_weak_derefs fuel n).
Proof. revert n. induction fuel; intros n; cbn [post_weak_derefs]; pres. Qed.
Lemma post_strong_same fuel n i : pres (same i) (post_strong_derefs fuel n).
Proof. revert n. induction fuel; intros n; cbn [post_strong_derefs]; pres. Qed.
#[local] Hint Resolve post_weak_same post_strong_same : pres.

Lemma ioctl_loop_same fuel b i : pres (same i) (ioctl_loop fuel b).
Proof. revert b. induction fuel; intros b; cbn [ioctl_loop]; pres. Qed.
#[local] Hint Resolve ioctl_loop_same : pres.

Lemma talk_same fuel b i : pres (same i) (talkWithDriver fuel b).
Proof. unfold talkWithDriver, fill_in, processPostWriteDerefs. pres. Qed.
#[local] Hint Resolve talk_same : pres.

Lemma flush_same fuel i : pres (same i) (flushIfNeeded fuel).
Proof. unfold flushIfNeeded, flushCommands. pres. Qed.
#[local] Hint Resolve flush_same : pres.

Lemma free_buffer_same fuel a i : pres (same i) (free_buffer fuel a).
Proof. unfold free_buffer. pres. Qed.
#[local] Hint Resolve free_buffer_same : pres.

Lemma on_parcel_same {A} fuel p (m : M PS A) i :
  (forall th, pres (kept w_thread th) m) -> pres (same i) (on_parcel fuel p m).
Proof.
  intros Hm. unfold on_parcel. apply pres_bind; [pres|intros n]. apply pres_bind; [|intros r; pres].
  apply pres_zoom; [done| |].
  - intros s t Hs. unfold identity. cbn. by rewrite Hs.
  - intros th. pres.
Qed.

Lemma set_reference_same fuel p tr i : pres (same i) (set_reference fuel p tr).
Proof.
  unfold set_reference. apply pres_bind; [pres|intros e]. apply pres_bind; [|intros r; pres].
  apply on_parcel_same. intros th. pres.
Qed.

Lemma restore_identity v (t : TS E) :
  identity (restore v t) = (sv_serving v, sv_caller v,
    (mStrictModePolicy (sv_thread v), mWorkSource (sv_thread v), mPropagateWorkSource (sv_thread v),
     mLastTransactionBinderFlags (sv_thread v))).
Proof. done. Qed.

(** The service is called once, as the sender and with no work source, and the
    thread has its own identity back afterwards. *)
Lemma run_transaction_identity fuel wait tr secctx (t t' : TS E) r :
  run_transaction fuel wait tr secctx t = Ret r t' ->
  identity t' = identity t /\
  exists t1 t2 buffer reply r2, call_target tr buffer reply t1 = Ret r2 t2 /\
    identity t1 = (frame_address fuel, mkCaller (tr_sender_pid tr) secctx (tr_sender_euid tr),
      (mStrictModePolicy (w_thread (t_world t)), kUnsetWorkSource, false, s32 (tr_flags tr))).
Proof.
  unfold run_transaction.
  intros (b0 & s0 & E0 & H)%bind_ret_inv.
  assert (I0 : identity s0 = identity t).
  { eapply (on_parcel_same fuel init_parcel initState); [|done|exact E0]. intros th. pres. }
  apply bind_ret_inv in H as (buffer & s1 & E1 & H).
  assert (I1 : identity s1 = identity t) by (by eapply set_reference_same; [exact I0|exact E1]).
  apply bind_ret_inv in H as (v & s2 & [= <- <-] & H).
  apply bind_ret_inv in H as ([] & s2 & [= <-] & H).
  apply bind_ret_inv in H as (b2 & s3 & E3 & H).
  assert (I3 : identity s3 = identity (serve_as (frame_address fuel) secctx tr s1)).
  { eapply (on_parcel_same fuel init_parcel initState); [|done|exact E3]. intros th. pres. }
  apply bind_ret_inv in H as ([[error buffer'] reply'] & s4 & E4 & H).
  split.
  - apply bind_ret_inv in H as ([buffer2 reply2] & s5 & E5 & H).
    apply bind_ret_inv in H as ([] & s6 & [= <-] & H).
    apply bind_ret_inv in H as (r7 & s7 & E7 & H).
    apply bind_ret_inv in H as (r8 & s8 & E8 & H). injection H as <- <-.
    assert (I6 : identity (restore (save s1) s5) = identity t) by (rewrite <- I1; done).
    assert (I7 : identity s7 = identity t).
    { eapply (on_parcel_same fuel reply2 freeDataNoInit); [|exact I6|exact E7]. intros th. pres. }
    eapply (on_parcel_same fuel buffer2 freeDataNoInit); [|exact I7|exact E8]. intros th. pres.
  - exists s3, s4, buffer, (snd b2), (error, buffer', reply'). split; [exact E4|].
    rewrite I3. unfold identity in I1. injection I1 as _ _ Hs _ _ _. rewrite <- Hs. done.
Qed.
End Serving.

(** C13: while a thread serves a call it reports the sender's pid, uid and security
    context, the flags of the call and no work source; when the call is finished,
    whatever the service did and whatever the thread executed while it sent the
    reply, the thread has back the identity it had before (a nested call does not
    leak its caller into the outer one). *)
Theorem serving_restores_identity {E} {K : Kernel E} {Obj : Objects E} {Quiet : RefsKeepIdentity E}
    fuel wait tr secctx (t t' : TS E) r :
  run_transaction fuel wait tr secctx t = Ret r t' ->
  identity t' = identity t /\
  exists t1 t2 buffer reply r2, call_target tr buffer reply t1 = Ret r2 t2 /\
    caller t1 = mkCaller (tr_sender_pid tr) secctx (tr_sender_euid tr) /\
    mServingStackPointer t1 = frame_address fuel /\
    mWorkSource (w_thread (t_world t1)) = kUnsetWorkSource /\
    mPropagateWorkSource (w_thread (t_world t1)) = false /\
    mLastTransactionBinderFlags (w_thread (t_world t1)) = s32 (tr_flags tr).
Proof.
  intros Hr. destruct (run_transaction_identity fuel wait tr secctx t t' r Hr)
    as (Hi & t1 & t2 & b & p & r2 & Hc & H1). split; [done|].
  exists t1, t2, b, p, r2. split; [done|]. unfold identity in H1. by injection H1 as -> -> _ -> -> ->.
Qed.

(** * Clearing and restoring *)

Lemma lor_halves a b : 0 <= b < 4294967296 -> Z.lor (a * 4294967296) b = a * 4294967296 + b.
Proof.
  intros Hb. assert (Z.land (a * 4294967296) b = 0) as H0.
  { rewrite <- (Z.mod_small b 4294967296) by done. change 4294967296 with (2 ^ 32) at 2.
    rewrite <- Z.land_ones, (Z.land_comm b), Z.land_assoc, Z.land_ones by lia.
    change (2 ^ 32) with 4294967296. rewrite Z.mod_mul by lia. apply Z.land_0_l. }
  by rewrite Z.add_nocarry_lxor, Z.lxor_lor by done.
Qed.

(** a service can act as itself and then be the caller's delegate again:
    [restoreCallingIdentity(clearCallingIdentity())] brings back the pid and the
    uid, for every uid, and in between the thread reports the process's own; the
    security context is not kept. *)
Theorem calling_identity_restored {E} {K : Kernel E} (t : TS E) :
  0 <= mCallingPid (caller t) < 2147483648 -> is_u32 (mCallingUid (caller t)) ->
  wp clearCallingIdentity t (fun token t1 =>
    caller t1 = mkCaller getpid 0 getuid /\
    wp (restoreCallingIdentity token) t1 (fun _ t2 =>
      t2 = set_caller (mkCaller (mCallingPid (caller t)) 0 (mCallingUid (caller t))) t)).
Proof.
  intros Hp Hu. unfold is_u32 in Hu. unfold clearCallingIdentity, clearCaller. wp_steps. split; [done|].
  unfold restoreCallingIdentity. wp_steps.
  set (uid := mCallingUid (caller t)) in *. set (pid := mCallingPid (caller t)) in *.
  assert (s64 (Z.shiftl uid 32) = s32 uid * 4294967296) as ->.
  { rewrite Z.shiftl_mul_pow2 by lia. change (2 ^ 32) with 4294967296. unfold s64, s32.
    replace (uid * 4294967296 + 9223372036854775808) with ((uid + 2147483648) * 4294967296) by lia.
    change 18446744073709551616 with (4294967296 * 4294967296).
    rewrite Z.mul_mod_distr_r by lia. lia. }
  pose proof (s32_range uid) as Hr. unfold is_s32 in Hr. rewrite lor_halves by lia.
  rewrite s64_small by (unfold is_s64; lia).
  assert (Z.shiftr (s32 uid * 4294967296 + pid) 32 = s32 uid) as ->.
  { rewrite Z.shiftr_div_pow2 by lia. change (2 ^ 32) with 4294967296.
    rewrite Z.div_add_l by lia. rewrite (Z.div_small pid) by lia. lia. }
  assert (s32 (s32 uid * 4294967296 + pid) = pid) as ->.
  { rewrite <- s32_mod, Z.add_comm, Z_mod_plus_full, s32_mod. apply s32_small. unfold is_s32. lia. }
  rewrite (s32_small (s32 uid)) by apply s32_range. rewrite u32_s32, u32_small by done. done.
Qed.

(** * The command buffer *)

(** The write buffer holds [bs], with the position at its end. *)
Record out_holds {E} (t : TS E) (bs : bytes) : Prop := {
  oh_wf : wf (mOut t);
  oh_pos : mDataPos (mOut t) = mDataSize (mOut t);
  oh_contents : contents (mOut t) = bs;
  oh_objs : mObjectsSize (mOut t) = 0;
  oh_owner : mOwner (mOut t) = None;
}.

(** Only the write buffer and the allocator have changed. *)
Definition only_out {E} (t t' : TS E) : Prop :=
  exists p w, t' = set_t_world w (set_mOut p t) /\ w_heap w = w_heap (t_world t).

Lemma only_out_trans {E} (t1 t2 t3 : TS E) : only_out t1 t2 -> only_out t2 t3 -> only_out t1 t3.
Proof. intros (p & w & -> & Hw) (q & v & -> & Hv). exists q, v. split; [done|]. by rewrite Hv. Qed.

Definition no_failure {E} (t : TS E) : Prop := forall k, w_heap (t_world t) k <> None.

Lemma only_out_no_failure {E} (t t' : TS E) : only_out t t' -> no_failure t -> no_failure t'.
Proof. intros (p & w & -> & Hw) H k. cbn. rewrite Hw. apply H. Qed.

Section Out.
Context {E : Type}.
Implicit Type t : TS E.

(** The buffer has at most a third of a gigabyte. *)
Definition room (bs : bytes) (n : Z) : Prop := zlen bs + n <= 1073741824.

Lemma out_append F (m : M PS status_t) t bs new Q :
  out_holds t bs -> no_failure t -> room bs (zlen new) ->
  (forall s, wf (this s) -> fits (this s) (zlen new) -> wpg F m s (write_post s new)) ->
  pres unowned m ->
  (forall t', out_holds t' (bs ++ new) -> only_out t t' -> Q NO_ERROR t') ->
  wpg F (on_out m) t Q.
Proof.
  intros [Hwf Hpos Hc Ho Hown] Hnf Hroom Hm Hpres HQ. unfold on_out, zoom, wpg.
  assert (Hsize : mDataSize (mOut t) = zlen bs) by (by rewrite <- Hc, zlen_contents).
  assert (Hfits : fits (mOut t) (zlen new)).
  { unfold fits. rewrite Hsize. unfold room in Hroom. apply Z.div_le_upper_bound; lia. }
  pose proof (Hm (mkPS (mOut t) (t_world t)) Hwf Hfits) as H1. unfold wpg in H1.
  pose proof (Hpres (mkPS (mOut t) (t_world t))) as H2.
  destruct (m (mkPS (mOut t) (t_world t))) as [st s| |]; [|done..].
  destruct H1 as [[[Hheap _ _ _ _ _] _] [[-> Hw]|[_ Hf]]].
  - cbn in *. apply HQ; [|by exists (this s), (world s)].
    pose proof (wrote_size _ _ _ Hwf Hw) as Hs. destruct Hw as [Hw' Hp' Hc' Ho' _].
    pose proof (zlen_nonneg new).
    constructor; cbn; [done|lia| | |by eapply H2].
    + rewrite Hc', Hc, Hpos, Hsize. apply overwrite_end.
    + rewrite <- (zlen_objs _ Hw'), Ho', (zlen_objs _ Hwf). exact Ho.
  - destruct (fl_heap _ _ _ Hf) as [k Hk]. by destruct (Hnf k).
Qed.

Lemma out_int32_ok F t bs v (Q : unit -> TS E -> Prop) :
  out_holds t bs -> no_failure t -> room bs 4 ->
  (forall t', out_holds t' (bs ++ le_bytes 4 v) -> only_out t t' -> Q tt t') ->
  wpg F (out_int32 v) t Q.
Proof.
  intros Ho Hn Hr HQ. unfold out_int32. wp_steps.
  eapply (out_append F _ t bs (le_bytes 4 v)); [done..| | | |].
  - by rewrite zlen_le_bytes.
  - intros s Hs Hf. rewrite zlen_le_bytes in Hf. by apply writeInt32_ok.
  - pres.
  - intros t' H1 H2. wp_steps. by apply HQ.
Qed.

Lemma out_pointer_ok F t bs v (Q : unit -> TS E -> Prop) :
  out_holds t bs -> no_failure t -> room bs 8 ->
  (forall t', out_holds t' (bs ++ le_bytes 8 v) -> only_out t t' -> Q tt t') ->
  wpg F (out_pointer v) t Q.
Proof.
  intros Ho Hn Hr HQ. unfold out_pointer. wp_steps.
  eapply (out_append F _ t bs (le_bytes 8 v)); [done..| | | |].
  - by rewrite zlen_le_bytes.
  - intros s Hs Hf. rewrite zlen_le_bytes in Hf. by apply writeAligned_ok.
  - pres.
  - intros t' H1 H2. wp_steps. by apply HQ.
Qed.

Lemma tr_bytes_is_byte tr : Forall is_byte (tr_bytes tr).
Proof. unfold tr_bytes. repeat (apply Forall_app; split); apply le_bytes_is_byte. Qed.

Lemma out_tr_ok F t bs tr (Q : status_t -> TS E -> Prop) :
  out_holds t bs -> no_failure t -> room bs 64 ->
  (forall t', out_holds t' (bs ++ tr_bytes tr) -> only_out t t' -> Q NO_ERROR t') ->
  wpg F (on_out (write (Some (tr_bytes tr)) sizeof_tr)) t Q.
Proof.
  intros Ho Hn Hr HQ.
  assert (Hpad : padded (tr_bytes tr) = tr_bytes tr).
  { unfold padded. rewrite zlen_tr_bytes. change (padz 64 - 64) with 0. apply app_nil_r. }
  eapply (out_append F _ t bs (tr_bytes tr)); [done..| | | |done].
  - by rewrite zlen_tr_bytes.
  - intros s Hs Hf. rewrite <- Hpad at 2. change sizeof_tr with 64. rewrite <- (zlen_tr_bytes tr).
    apply write_ok; [done|apply tr_bytes_is_byte|by rewrite zlen_tr_bytes in *|].
    right. by rewrite zlen_tr_bytes.
  - pres.
Qed.
End Out.

(** * Interfaces: the driver and the objects *)

(** A driver that takes the whole write buffer; [received] is what it has been
    sent so far. *)
Class GoodDriver (E : Type) `{Kernel E} := {
  received : E -> list Command;
  driver_takes e bs cs :
    bs <> [] -> parse_commands bs = Some cs ->
    exists e', ioctl e (mkBwr bs 0 0 0 []) = (e', (0, mkBwr bs (zlen bs) 0 0 [])) /\
      received e' = received e ++ cs;
}.

(** Reference counts of objects that stay alive: a count changes, nothing else. *)
Class RefsInEnv (E : Type) `{Objects E, GoodDriver E} := {
  incStrong_env a (t : TS E) : exists e, obj_incStrong a t = Ret tt (set_env e t) /\ received e = received (env t);
  decStrong_env a (t : TS E) : exists e, obj_decStrong a t = Ret tt (set_env e t) /\ received e = received (env t);
  incWeak_env a (t : TS E) : exists e, obj_incWeak a t = Ret tt (set_env e t) /\ received e = received (env t);
  decWeak_env a (t : TS E) : exists e, obj_decWeak a t = Ret tt (set_env e t) /\ received e = received (env t);
}.

(** The part of a thread that decides when it flushes, and its read buffer. *)
Definition ctl {E} (t : TS E) :=
  (mIsLooper t, mServingStackPointer t, mIsFlushing t, proc t, w_heap (t_world t), mIn t).

Lemma only_out_ctl {E} (t t' : TS E) : only_out t t' ->
  ctl t' = ctl t /\ env t' = env t /\ mPostWriteWeakDerefs t' = mPostWriteWeakDerefs t /\
  mPostWriteStrongDerefs t' = mPostWriteStrongDerefs t.
Proof. intros (p & w & -> & Hw). unfold ctl. cbn. by rewrite Hw. Qed.

Lemma ctl_no_failure {E} (t t' : TS E) : ctl t' = ctl t -> no_failure t -> no_failure t'.
Proof. intros [= _ _ _ _ Hw _] H k. rewrite Hw. apply H. Qed.

Lemma encode_nil cs : encode_commands cs = [] -> cs = [].
Proof.
  destruct cs as [|c cs]; [done|]. unfold encode_commands. cbn [map concat].
  intros [H _]%app_eq_nil. exfalso. apply (f_equal zlen) in H. revert H.
  destruct c; cbn [encode_command]; rewrite ?zlen_app, ?zlen_le_bytes, ?zlen_nil, ?zlen_tr_bytes; lia.
Qed.

Section Flush.
Context {E : Type} {K : Kernel E} {Obj : Objects E} {Drv : GoodDriver E} {Refs : RefsInEnv E}.
Implicit Type t : TS E.

Lemma set_env_id t : set_env (env t) t = t.
Proof. by destruct t. Qed.

Lemma post_weak_ok F fuel i t (Q : unit -> TS E -> Prop) :
  (length (mPostWriteWeakDerefs t) - i < fuel)%nat ->
  (forall e, received e = received (env t) -> Q tt (set_env e t)) ->
  wpg F (post_weak_derefs fuel i) t Q.
Proof.
  revert i t. induction fuel as [|fuel IH]; intros i t Hl HQ; [lia|]. cbn [post_weak_derefs]. wp_steps.
  destruct (mPostWriteWeakDerefs t !! i) as [a|] eqn:Ea.
  - wp_steps. destruct (decWeak_env a t) as (e & He & Hr). unfold wpg. rewrite He.
    apply lookup_lt_Some in Ea. apply IH; [cbn; lia|]. intros e' He'. cbn in He'.
    change (set_env e' (set_env e t)) with (set_env e' t). apply HQ. congruence.
  - wp_steps. rewrite <- (set_env_id t). by apply HQ.
Qed.

Lemma post_strong_ok F fuel i t (Q : unit -> TS E -> Prop) :
  (length (mPostWriteStrongDerefs t) - i < fuel)%nat ->
  (forall e, received e = received (env t) -> Q tt (set_env e t)) ->
  wpg F (post_strong_derefs fuel i) t Q.
Proof.
  revert i t. induction fuel as [|fuel IH]; intros i t Hl HQ; [lia|]. cbn [post_strong_derefs]. wp_steps.
  destruct (mPostWriteStrongDerefs t !! i) as [a|] eqn:Ea.
  - wp_steps. destruct (decStrong_env a t) as (e & He & Hr). unfold wpg. rewrite He.
    apply lookup_lt_Some in Ea. apply IH; [cbn; lia|]. intros e' He'. cbn in He'.
    change (set_env e' (set_env e t)) with (set_env e' t). apply HQ. congruence.
  - wp_steps. rewrite <- (set_env_id t). by apply HQ.
Qed.

(** Enough fuel for the references to drop, and [n] more. *)
Definition enough (n fuel : nat) t : Prop :=
  (length (mPostWriteWeakDerefs t) + n < fuel)%nat /\ (length (mPostWriteStrongDerefs t) + n < fuel)%nat.

Lemma postWrite_ok F n fuel t (Q : unit -> TS E -> Prop) :
  enough n fuel t ->
  (forall e, received e = received (env t) ->
    Q tt (set_mPostWriteStrongDerefs [] (set_env e (set_mPostWriteWeakDerefs [] t)))) ->
  wpg F (processPostWriteDerefs fuel) t Q.
Proof.
  intros [H1 H2] HQ. unfold processPostWriteDerefs. wp_steps. apply post_weak_ok; [lia|].
  intros e He. wp_steps. apply post_strong_ok; [cbn; lia|]. intros e' He'. wp_steps.
  apply (HQ e'). cbn in He'. congruence.
Qed.

(** Emptying the write buffer. *)
Lemma out_clear F t bs (Q : status_t -> TS E -> Prop) :
  out_holds t bs -> bs <> [] -> (forall t', out_holds t' [] -> only_out t t' -> Q NO_ERROR t') ->
  wpg F (on_out (setDataSize 0)) t Q.
Proof.
  intros [Hwf Hpos Hc Ho Hown] Hne HQ. pose proof Hwf as [].
  destruct (mData (mOut t)) as [d|] eqn:Ed.
  2:{ destruct Hne. rewrite <- Hc. unfold contents, data_block. rewrite Ed. apply take_nil. }
  assert (Hk : kept_objects (mOut t) 0 = 0) by (unfold kept_objects; cbn; by case_match).
  assert (Hall : forall p', mDataSize p' = 0 -> mDataPos p' = 0 -> mData p' = mData (mOut t) ->
    mDataCapacity p' = mDataCapacity (mOut t) -> mObjects p' = mObjects (mOut t) ->
    mObjectsSize p' = mObjectsSize (mOut t) -> mObjectsCapacity p' = mObjectsCapacity (mOut t) ->
    mNextObjectHint p' = mNextObjectHint (mOut t) -> mOwner p' = mOwner (mOut t) ->
    Q NO_ERROR (set_t_world (t_world t) (set_mOut p' t))).
  { intros p' E1 E2 E3 E4 E5 E6 E7 E8 E9. apply HQ; [|by exists p', (t_world t)].
    assert (objs p' = []) as Hobj by (unfold objs; by rewrite E6, Ho).
    constructor; cbn; rewrite ?E1, ?E2, ?E6, ?E9; try done.
    - constructor; rewrite ?Hobj; unfold data_block; rewrite ?E1, ?E2, ?E3, ?E4, ?E5, ?E6, ?E7, ?E8; try done;
        try lia.
      + intros _. unfold ztake. by rewrite take_nil.
      + by rewrite E9, Hown.
    - unfold contents. by rewrite E1. }
  apply wpg_zoom. unfold setDataSize, continueWrite. change (INT32_MAX <? 0) with false. cbv iota.
  wp_steps. cbn [this]. rewrite Hown, Ed, Hk. unfold continueWrite_owned. wp_steps. cbn [this]. rewrite Ho.
  change (0 <? 0) with false. cbv iota. wp_steps. cbn [this]. zdec (mDataCapacity (mOut t) <? 0).
  wp_steps. change (NO_ERROR =? NO_ERROR) with true. cbv iota. wp_steps. cbn [this world].
  apply Hall; repeat case_match; cbn in *; zb; try done; lia.
Qed.

(** The state of the command buffer, abstractly: everything issued so far is what
    the driver has received followed by what is queued. *)
Record issued t (l : list Command) : Prop := {
  is_queue : exists cs, out_holds t (encode_commands cs) /\ l = received (env t) ++ cs /\ Forall command_ok cs;
  is_memory : no_failure t;
  is_open : 0 <= mDriverFD (proc t);
}.

Lemma dataSize_holds t bs : out_holds t bs -> dataSize (mOut t) = zlen bs.
Proof.
  intros [Hwf Hpos Hc _ _]. unfold dataSize. rewrite Hpos, Z.ltb_irrefl, <- Hc. symmetry.
  by apply zlen_contents.
Qed.

(** Writing the queue to the driver. *)
Lemma talk_writes F n fuel t cs (Q : status_t -> TS E -> Prop) :
  out_holds t (encode_commands cs) -> Forall command_ok cs -> 0 <= mDriverFD (proc t) -> enough n fuel t ->
  (cs = [] -> Q NO_ERROR t) ->
  (forall t', out_holds t' [] -> received (env t') = received (env t) ++ cs -> ctl t' = ctl t ->
     enough n fuel t' -> Q NO_ERROR t') ->
  wpg F (talkWithDriver fuel false) t Q.
Proof.
  intros Ho Hok Hfd [Hf1 Hf2] Hnil HQ. unfold talkWithDriver. wp_steps.
  zdec (mDriverFD (proc t) <? 0). cbn [negb orb andb]. rewrite (dataSize_holds _ _ Ho).
  rewrite andb_true_r. destruct (zlen (encode_commands cs) =? 0) eqn:E0; zb.
  { wp_steps. apply Hnil. apply encode_nil. by apply zlen_zero. }
  assert (Hne : encode_commands cs <> []) by (intros Hx; by rewrite Hx in E0).
  wp_steps. pose proof Ho as [Hwf Hpos Hc _ _]. pose proof (zlen_contents _ Hwf) as Hz.
  rewrite Hc in Hz. pose proof Hwf as []. eapply wpg_require.
  { rewrite mem_read_ok by (pose proof (zlen_nonneg (encode_commands cs)); lia).
    rewrite zdrop_0. unfold contents in Hc. rewrite Hz, Hc. reflexivity. }
  destruct fuel as [|fuel]; [lia|]. cbn [ioctl_loop]. wp_steps.
  destruct (driver_takes (env t) (encode_commands cs) cs) as (e' & He & Hr).
  { done. } { by apply parse_encode_commands. }
  rewrite He. wp_steps. zdec (mDriverFD (proc t) <? 0). change (0 =? 0) with true. cbv iota.
  change (NO_ERROR =? - EINTR) with false. cbv iota. wp_steps. cbn [read_consumed write_consumed].
  change (0 <? 0) with false. change (NO_ERROR <=? NO_ERROR) with true. cbv iota. wp_steps.
  pose proof (zlen_nonneg (encode_commands cs)). zdec (0 <? zlen (encode_commands cs)). wp_steps.
  assert (Ho' : out_holds (set_env e' t) (encode_commands cs)) by (by destruct Ho).
  rewrite (dataSize_holds _ _ Ho'), Z.ltb_irrefl. wp_steps.
  eapply out_clear; [exact Ho'|done|]. intros t2 Ho2 Hoo. wp_steps.
  destruct (only_out_ctl _ _ Hoo) as (Hctl & Henv & Hw & Hs).
  apply (postWrite_ok _ n). { unfold enough. rewrite Hw, Hs. cbn. lia. }
  intros e2 He2. wp_steps. apply HQ.
  - by destruct Ho2.
  - cbn. rewrite He2, Henv. exact Hr.
  - unfold ctl in *. cbn in *. exact Hctl.
  - unfold enough. cbn. lia.
Qed.

Lemma issued_flushing t l b : issued t l -> issued (set_mIsFlushing b t) l.
Proof. intros [(cs & [] & ? & ?) ? ?]. split; [exists cs; split_and!; [by constructor|done..]|done..]. Qed.

Lemma issued_size t l : issued t l -> 0 <= dataSize (mOut t).
Proof. intros [(cs & Ho & _) _ _]. rewrite (dataSize_holds _ _ Ho). apply zlen_nonneg. Qed.

Lemma talk_issued F n fuel t l (Q : status_t -> TS E -> Prop) :
  issued t l -> enough n fuel t ->
  (forall t', issued t' l -> enough n fuel t' -> received (env t') = l -> dataSize (mOut t') = 0 ->
     mIn t' = mIn t -> Q NO_ERROR t') ->
  wpg F (talkWithDriver fuel false) t Q.
Proof.
  intros [(cs & Ho & Hl & Hok) Hm Hfd] Hf HQ. eapply talk_writes; [done..| |].
  - intros ->. rewrite app_nil_r in Hl. apply HQ; [|done|done|by rewrite (dataSize_holds _ _ Ho)|done].
    split; [|done|done]. exists []. by rewrite app_nil_r.
  - intros t' Ho' Hr Hctl Hf'. apply HQ; [|done|by rewrite Hr|by rewrite (dataSize_holds _ _ Ho')|by injection Hctl].
    split; [exists []; split; [done|by rewrite app_nil_r, Hr]|by eapply ctl_no_failure|].
    unfold ctl in Hctl. by injection Hctl as _ _ _ -> _ _.
Qed.

Lemma flushCommands_issued F n fuel t l (Q : unit -> TS E -> Prop) :
  issued t l -> enough n fuel t ->
  (forall t', issued t' l -> enough n fuel t' -> received (env t') = l -> dataSize (mOut t') = 0 ->
     mIn t' = mIn t -> Q tt t') ->
  wpg F (flushCommands fuel) t Q.
Proof.
  intros Hi Hf HQ. unfold flushCommands. wp_steps. pose proof (is_open _ _ Hi).
  zdec (mDriverFD (proc t) <? 0). wp_steps. eapply talk_issued; [done..|].
  intros t' Hi' Hf' Hr Hs Hin. wp_steps. rewrite Hs. change (0 <? 0) with false. cbv iota. wp_steps. auto.
Qed.

Lemma flushIfNeeded_issued F n fuel t l (Q : bool -> TS E -> Prop) :
  issued t l -> enough n fuel t ->
  (forall b t', issued t' l -> enough n fuel t' -> dataSize (mOut t') <= dataSize (mOut t) ->
     mIn t' = mIn t -> Q b t') ->
  wpg F (flushIfNeeded fuel) t Q.
Proof.
  intros Hi Hf HQ. unfold flushIfNeeded. wp_steps. destruct (_ || _); wp_steps; [by apply HQ|].
  eapply flushCommands_issued; [by apply issued_flushing|exact Hf|]. intros t' Hi' Hf' _ Hz Hin. wp_steps.
  apply HQ; [by apply issued_flushing|exact Hf'| |exact Hin]. cbn. rewrite Hz. by eapply issued_size.
Qed.

(** The method that gives each command of a handle or of a buffer. *)
Definition send (fuel : nat) (proxy : Z) (c : Command) : M (TS E) unit :=
  match c with
  | Acquire h => incStrongHandle fuel h proxy
  | Release h => decStrongHandle fuel h
  | IncRefs h => incWeakHandle fuel h proxy
  | DecRefs h => decWeakHandle fuel h
  | RequestDeathNotification h a => requestDeathNotification h a ;; ret tt
  | ClearDeathNotification h a => clearDeathNotification h a ;; ret tt
  | FreeBuffer a => free_buffer fuel a
  | _ => ret tt
  end.

Definition sendable (c : Command) : bool :=
  match c with
  | Acquire _ | Release _ | IncRefs _ | DecRefs _ | RequestDeathNotification _ _
  | ClearDeathNotification _ _ | FreeBuffer _ => true
  | _ => false
  end.

(** The queue has room for one more command. *)
Definition queue_room t : Prop := dataSize (mOut t) + 68 <= 1073741824.

Lemma queued t t' l c cs :
  out_holds t (encode_commands cs) -> l = received (env t) ++ cs -> Forall command_ok cs ->
  no_failure t -> 0 <= mDriverFD (proc t) -> command_ok c ->
  out_holds t' (encode_commands cs ++ encode_command c) -> only_out t t' -> issued t' (l ++ [c]).
Proof.
  intros Ho -> Hok Hm Hfd Hc Ho' Hoo. destruct (only_out_ctl _ _ Hoo) as (Hctl & Henv & _).
  split; [|by eapply only_out_no_failure|].
  - exists (cs ++ [c]). rewrite encode_commands_app, encode_one, Henv, app_assoc.
    split_and!; [done..|]. apply Forall_app. split; [done|by constructor].
  - unfold ctl in Hctl. by injection Hctl as _ _ _ -> _ _.
Qed.

Lemma only_out_enough n fuel t t' : only_out t t' -> enough n fuel t -> enough n fuel t'.
Proof. intros Hoo [? ?]. destruct (only_out_ctl _ _ Hoo) as (_ & _ & Hw & Hs). unfold enough. by rewrite Hw, Hs. Qed.

Lemma zlen_command c : zlen (encode_command c) <= 68.
Proof. destruct c; cbn [encode_command]; rewrite ?zlen_app, ?zlen_le_bytes, ?zlen_tr_bytes; lia. Qed.

Lemma queued_size t t' bs c :
  out_holds t bs -> out_holds t' (bs ++ encode_command c) -> dataSize (mOut t') <= dataSize (mOut t) + 68.
Proof.
  intros H H'. rewrite (dataSize_holds _ _ H), (dataSize_holds _ _ H'), zlen_app.
  pose proof (zlen_command c). lia.
Qed.

(** Two words. *)
Lemma queue_word F t l cs code h c (k : M (TS E) unit) (Q : unit -> TS E -> Prop) :
  out_holds t (encode_commands cs) -> l = received (env t) ++ cs -> Forall command_ok cs ->
  no_failure t -> 0 <= mDriverFD (proc t) -> command_ok c -> queue_room t ->
  encode_command c = le_bytes 4 code ++ le_bytes 4 h ->
  (forall t', issued t' (l ++ [c]) -> only_out t t' ->
     dataSize (mOut t') <= dataSize (mOut t) + 68 -> wpg F k t' Q) ->
  wpg F (out_int32 code ;; out_int32 h ;; k) t Q.
Proof.
  intros Ho Hl Hok Hm Hfd Hc Hr Ec HQ. unfold queue_room in Hr. rewrite (dataSize_holds _ _ Ho) in Hr. wp_steps.
  eapply out_int32_ok; [done|done|unfold room; lia|]. intros t1 Ho1 Hoo1. wp_steps.
  eapply out_int32_ok; [done|by eapply only_out_no_failure|unfold room; zl; lia|].
  intros t2 Ho2 Hoo2. pose proof (only_out_trans _ _ _ Hoo1 Hoo2) as Hoo. rewrite <- app_assoc, <- Ec in Ho2.
  apply HQ; [by eapply (queued t)|done|by eapply queued_size].
Qed.

(** A word and a pointer, or two words and a pointer. *)
Lemma queue_pointer F t l cs code a c (k : M (TS E) unit) (Q : unit -> TS E -> Prop) :
  out_holds t (encode_commands cs) -> l = received (env t) ++ cs -> Forall command_ok cs ->
  no_failure t -> 0 <= mDriverFD (proc t) -> command_ok c -> queue_room t ->
  encode_command c = le_bytes 4 code ++ le_bytes 8 a ->
  (forall t', issued t' (l ++ [c]) -> only_out t t' ->
     dataSize (mOut t') <= dataSize (mOut t) + 68 -> wpg F k t' Q) ->
  wpg F (out_int32 code ;; out_pointer a ;; k) t Q.
Proof.
  intros Ho Hl Hok Hm Hfd Hc Hr Ec HQ. unfold queue_room in Hr. rewrite (dataSize_holds _ _ Ho) in Hr. wp_steps.
  eapply out_int32_ok; [done|done|unfold room; lia|]. intros t1 Ho1 Hoo1. wp_steps.
  eapply out_pointer_ok; [done|by eapply only_out_no_failure|unfold room; zl; lia|].
  intros t2 Ho2 Hoo2. pose proof (only_out_trans _ _ _ Hoo1 Hoo2) as Hoo. rewrite <- app_assoc, <- Ec in Ho2.
  apply HQ; [by eapply (queued t)|done|by eapply queued_size].
Qed.

Lemma queue_death F t l cs code h a c {A} (k : M (TS E) A) (Q : A -> TS E -> Prop) :
  out_holds t (encode_commands cs) -> l = received (env t) ++ cs -> Forall command_ok cs ->
  no_failure t -> 0 <= mDriverFD (proc t) -> command_ok c -> queue_room t ->
  encode_command c = le_bytes 4 code ++ le_bytes 4 h ++ le_bytes 8 a ->
  (forall t', issued t' (l ++ [c]) -> only_out t t' ->
     dataSize (mOut t') <= dataSize (mOut t) + 68 -> wpg F k t' Q) ->
  wpg F (out_int32 code ;; out_int32 h ;; out_pointer a ;; k) t Q.
Proof.
  intros Ho Hl Hok Hm Hfd Hc Hr Ec HQ. unfold queue_room in Hr. rewrite (dataSize_holds _ _ Ho) in Hr. wp_steps.
  eapply out_int32_ok; [done|done|unfold room; lia|]. intros t1 Ho1 Hoo1. wp_steps.
  eapply out_int32_ok; [done|by eapply only_out_no_failure|unfold room; zl; lia|]. intros t2 Ho2 Hoo2.
  pose proof (only_out_trans _ _ _ Hoo1 Hoo2) as Hoo. wp_steps.
  eapply out_pointer_ok; [done|by eapply only_out_no_failure|unfold room; zl; lia|].
  intros t3 Ho3 Hoo3. pose proof (only_out_trans _ _ _ Hoo Hoo3) as Hoo'. rewrite <- !app_assoc, <- Ec in Ho3.
  apply HQ; [by eapply (queued t)|done|by eapply queued_size].
Qed.

Lemma issued_env t l e : issued t l -> received e = received (env t) -> issued (set_env e t) l.
Proof.
  intros [(cs & [] & ? & ?) ? ?] He. split; [|done|done]. exists cs.
  split_and!; [by constructor|cbn; congruence|done].
Qed.

Lemma issued_weak t l q : issued t l -> issued (set_mPostWriteWeakDerefs q t) l.
Proof. intros [(cs & [] & ? & ?) ? ?]. split; [exists cs; split_and!; [by constructor|done..]|done..]. Qed.
Lemma issued_strong t l q : issued t l -> issued (set_mPostWriteStrongDerefs q t) l.
Proof. intros [(cs & [] & ? & ?) ? ?]. split; [exists cs; split_and!; [by constructor|done..]|done..]. Qed.

Lemma send_issued F n fuel t l proxy c :
  issued t l -> command_ok c -> sendable c = true -> queue_room t -> enough (S n) fuel t ->
  wpg F (send fuel proxy c) t (fun _ t' => issued t' (l ++ [c]) /\ enough n fuel t' /\
    dataSize (mOut t') <= dataSize (mOut t) + 68 /\ mIn t' = mIn t).
Proof.
  intros [(cs & Ho & Hl & Hok) Hm Hfd] Hc Hs Hr Hf.
  assert (Hin : forall t', only_out t t' -> mIn t' = mIn t) by (by intros ? (? & ? & -> & _)).
  assert (Hweak : forall t', enough (S n) fuel t' -> enough n fuel t') by (unfold enough; intros ? [? ?]; lia).
  destruct c; try done; cbn [send].
  - unfold free_buffer. eapply queue_pointer; [done..|]. intros t1 Hi Hoo Hd.
    pose proof (only_out_enough _ _ _ _ Hoo Hf) as Hf1. wp_steps.
    eapply flushIfNeeded_issued; [done..|]. intros b t2 Hi2 Hf2 Hd2 Hin2. rewrite <- (Hin _ Hoo). wp_steps. split_and!; [done|auto|lia|done].
  - unfold incWeakHandle. eapply queue_word; [done..|]. intros t1 Hi Hoo Hd.
    pose proof (only_out_enough _ _ _ _ Hoo Hf) as Hf1. wp_steps.
    eapply flushIfNeeded_issued; [done..|]. intros b t2 Hi2 Hf2 Hd2 Hin2. rewrite <- (Hin _ Hoo). destruct b; wp_steps; [split_and!; [done|auto|lia|done]|].
    destruct (incWeak_env proxy t2) as (e & He & Hre). unfold wpg at 1. rewrite He. wp_steps.
    split_and!; [by apply issued_weak, issued_env| |cbn; lia|done]. unfold enough in *. cbn. rewrite length_app. cbn. lia.
  - unfold incStrongHandle. eapply queue_word; [done..|]. intros t1 Hi Hoo Hd.
    pose proof (only_out_enough _ _ _ _ Hoo Hf) as Hf1. wp_steps.
    eapply flushIfNeeded_issued; [done..|]. intros b t2 Hi2 Hf2 Hd2 Hin2. rewrite <- (Hin _ Hoo). destruct b; wp_steps; [split_and!; [done|auto|lia|done]|].
    destruct (incStrong_env proxy t2) as (e & He & Hre). unfold wpg at 1. rewrite He. wp_steps.
    split_and!; [by apply issued_strong, issued_env| |cbn; lia|done]. unfold enough in *. cbn. rewrite length_app. cbn. lia.
  - unfold decStrongHandle. eapply queue_word; [done..|]. intros t1 Hi Hoo Hd.
    pose proof (only_out_enough _ _ _ _ Hoo Hf) as Hf1. wp_steps.
    eapply flushIfNeeded_issued; [done..|]. intros b t2 Hi2 Hf2 Hd2 Hin2. rewrite <- (Hin _ Hoo). wp_steps. split_and!; [done|auto|lia|done].
  - unfold decWeakHandle. eapply queue_word; [done..|]. intros t1 Hi Hoo Hd.
    pose proof (only_out_enough _ _ _ _ Hoo Hf) as Hf1. wp_steps.
    eapply flushIfNeeded_issued; [done..|]. intros b t2 Hi2 Hf2 Hd2 Hin2. rewrite <- (Hin _ Hoo). wp_steps. split_and!; [done|auto|lia|done].
  - wp_steps. unfold requestDeathNotification. eapply queue_death; [done..|]. intros t1 Hi Hoo Hd. wp_steps.
    split_and!; [done| |done|auto]. apply Hweak. by eapply only_out_enough.
  - wp_steps. unfold clearDeathNotification. eapply queue_death; [done..|]. intros t1 Hi Hoo Hd. wp_steps.
    split_and!; [done| |done|auto]. apply Hweak. by eapply only_out_enough.
Qed.

(** All of them in turn. *)
Lemma send_all_issued F fuel t l proxy cs :
  issued t l -> Forall command_ok cs -> Forall (fun c => sendable c = true) cs ->
  dataSize (mOut t) + 68 * zlen cs <= 1073741824 -> enough (length cs) fuel t ->
  wpg F (for_each cs (send fuel proxy)) t (fun _ t' => issued t' (l ++ cs) /\ enough 0 fuel t').
Proof.
  revert t l. induction cs as [|c cs IH]; intros t l Hi Hok Hs Hr Hf; cbn [for_each].
  { wp_steps. by rewrite app_nil_r. }
  apply Forall_cons in Hok as [Hc Hok], Hs as [Hsc Hs]. rewrite zlen_cons in Hr. wp_steps.
  pose proof (zlen_nonneg cs). wp_use send_issued; [done|done|done|unfold queue_room; lia|exact Hf|].
  intros [] t1 (Hi1 & Hf1 & Hd & _). replace (l ++ c :: cs) with ((l ++ [c]) ++ cs) by by rewrite <- app_assoc.
  apply IH; try done. lia.
Qed.
End Flush.

