(* ===== verification/IpcWaitProps.v ===== *)
(** Waiting for the driver: what [waitForResponse] makes of a stream of returns,
    and a whole synchronous call. *)

From S2P Require Import Prelude Errors ParcelState ParcelWrite ParcelRead ThreadState ParcelObject ParcelIpc.
From S2P Require Import ParcelInv ParcelWriteSpec ParcelReadSpec ParcelObjectSpec ParcelIpcProps Driver IpcThread.
From S2P Require Import ParcelFrame IpcThreadProps.

(** * The returns of the driver *)

Inductive Return :=
| ROk
| RNoop
| RTransactionComplete
| ROnewaySpamSuspect
| RDeadReply
| RFailedReply
| RFrozenReply
| RReply (tr : binder_transaction_data).

Definition return_code (r : Return) : Z :=
  match r with
  | ROk => BR_OK
  | RNoop => BR_NOOP
  | RTransactionComplete => BR_TRANSACTION_COMPLETE
  | ROnewaySpamSuspect => BR_ONEWAY_SPAM_SUSPECT
  | RDeadReply => BR_DEAD_REPLY
  | RFailedReply => BR_FAILED_REPLY
  | RFrozenReply => BR_FROZEN_REPLY
  | RReply _ => BR_REPLY
  end.
Definition encode_return (r : Return) : bytes :=
  le_bytes 4 (return_code r) ++ match r with RReply tr => tr_bytes tr | _ => [] end.
Definition encode_returns (rs : list Return) : bytes := concat (map encode_return rs).

(** What the caller gets, and the returns left for later.  [want]: a reply is
    expected.  [None]: the caller must read more. *)
Inductive verdict := Status (st : status_t) | Data (tr : binder_transaction_data).

Fixpoint outcome_of (want : bool) (rs : list Return) : option (verdict * list Return) :=
  match rs with
  | [] => None
  | r :: rs =>
      match r with
      | ROk | RNoop => outcome_of want rs
      | RTransactionComplete | ROnewaySpamSuspect =>
          if want then outcome_of want rs else Some (Status NO_ERROR, rs)
      | RDeadReply => Some (Status DEAD_OBJECT, rs)
      | RFailedReply | RFrozenReply => Some (Status FAILED_TRANSACTION, rs)
      | RReply tr => if want then Some (Data tr, rs) else None
      end
  end.

(** * The read buffer *)

(** The unread part of the read buffer is [bs]. *)
Record in_holds {E} (t : TS E) (bs : bytes) : Prop := {
  ih_wf : wf (mIn t);
  ih_objs : mObjectsSize (mIn t) = 0;
  ih_error : mError (mIn t) = NO_ERROR;
  ih_end : mDataPos (mIn t) + zlen bs = mDataSize (mIn t);
  ih_bytes : upcoming (mIn t) (zlen bs) = bs;
}.

Section In.
Context {E : Type} {K : Kernel E} {Obj : Objects E}.
Implicit Type t : TS E.

Lemma in_avail t bs : in_holds t bs -> avail (mIn t) bs.
Proof.
  intros []. split; [lia|done|]. unfold clear, objs. by rewrite ih_objs0.
Qed.

Lemma in_reads {A} F (m : M PS A) t a b x (Q : A -> TS E -> Prop) :
  in_holds t (a ++ b) -> decodes m a x ->
  (forall p, in_holds (set_mIn p t) b -> Q x (set_mIn p t)) ->
  wpg F (on_in m) t Q.
Proof.
  intros Hi Hm HQ. pose proof (in_avail _ _ Hi) as Hav. destruct Hi as [Hwf Ho He Hend Hb].
  apply wpg_zoom. wp_use Hm; [done|by eapply avail_app|]. intros r s [-> Hc].
  pose proof (avail_rest (mkPS (mIn t) (t_world t)) s a b Hwf Hav Hc) as [Hs Hb' _].
  destruct Hc as (Hw & Hwf' & Hp). cbn in Hw. cbn. rewrite Hw.
  replace (set_t_world (t_world t) (set_mIn (this s) t)) with (set_mIn (this s) t) by by destruct t.
  apply HQ. constructor; cbn; try done.
  - rewrite (peq_objsize _ _ Hp). exact Ho.
  - pose proof (peq_meta _ _ Hp) as Hm'. unfold meta in Hm'. injection Hm' as Hm' _. rewrite Hm'. exact He.
  - rewrite (peq_size _ _ Hp), (peq_pos _ _ Hp). cbn. rewrite zlen_app in Hend. lia.
Qed.

Lemma in_size t bs : in_holds t bs -> dataSize (mIn t) = mDataPos (mIn t) + zlen bs.
Proof.
  intros []. unfold dataSize. pose proof (zlen_nonneg bs). destruct (_ <? _) eqn:Ex; zb; lia.
Qed.

(** With data left to read, the driver is not asked. *)
Lemma talk_idle F fuel t bs (Q : status_t -> TS E -> Prop) :
  in_holds t bs -> bs <> [] -> 0 <= mDriverFD (proc t) -> Q NO_ERROR t ->
  wpg F (talkWithDriver fuel true) t Q.
Proof.
  intros Hi Hne Hfd HQ. unfold talkWithDriver. wp_steps. zdec (mDriverFD (proc t) <? 0).
  rewrite (in_size _ _ Hi). unfold dataPosition. destruct bs as [|x bs]; [done|]. rewrite zlen_cons.
  pose proof (zlen_nonneg bs). zdec (mDataPos (mIn t) + (1 + zlen bs) <=? mDataPos (mIn t)).
  cbn [negb orb andb]. by wp_steps.
Qed.

Lemma in_available F t bs (Q : Z -> TS E -> Prop) :
  in_holds t bs -> Q (zlen bs) t -> wpg F (on_in dataAvail) t Q.
Proof.
  intros Hi HQ. apply wpg_zoom. unfold dataAvail. wp_steps. cbn [this]. unfold dataPosition.
  rewrite (in_size _ _ Hi). replace (mDataPos (mIn t) + zlen bs - mDataPos (mIn t)) with (zlen bs) by lia.
  destruct Hi as [[] _ _ Hend _]. pose proof (zlen_nonneg bs). rewrite u64_small by lia.
  zdec (INT32_MAX <? zlen bs). wp_steps. cbn. by destruct t.
Qed.

Lemma return_code_ok r : is_u32 (return_code r).
Proof. destruct r; by vm_compute. Qed.

Lemma u32_s32_code v : is_u32 v -> u32 (s32 v) = v.
Proof. intros. rewrite u32_s32. by apply u32_small. Qed.

Lemma le_bytes_s32 v : le_bytes 4 (s32 v) = le_bytes 4 v.
Proof.
  rewrite <- (le_bytes_mod 4 (s32 v)), <- (le_bytes_mod 4 v). f_equal. apply (u32_s32 v).
Qed.

(** The command word. *)
Lemma in_code F t v b (Q : Z -> TS E -> Prop) :
  in_holds t (le_bytes 4 v ++ b) -> is_u32 v ->
  (forall p, in_holds (set_mIn p t) b -> Q (s32 v) (set_mIn p t)) ->
  wpg F (on_in readInt32_) t Q.
Proof.
  intros Hi Hv HQ. rewrite <- le_bytes_s32 in Hi. eapply in_reads; [exact Hi| |exact HQ].
  apply readInt32_decodes_, s32_range.
Qed.

(** The structure of a transaction. *)
Lemma read_tr_decodes tr : decodes (read sizeof_tr) (tr_bytes tr) (Good (tr_bytes tr)).
Proof.
  intros F s Hwf [Hs Hb Hc]. rewrite zlen_tr_bytes in *. change sizeof_tr with 64.
  wp_use read_ok; [done|done|]. intros r s' [Hst ->]. change (padz 64) with 64 in *.
  zdec (mDataSize (this s) <? mDataPos (this s) + 64). rewrite decide_True by done. split; [by rewrite Hb|].
  unfold aligned_state in Hst. rewrite (proj2 (Z.ltb_ge _ _)) in Hst by lia. exact Hst.
Qed.
End In.

(** * A reply set on an empty parcel *)

(** Nothing released, no allocation changed. *)
Definition world_is (r : list release_func) (h : nat -> option (nat -> Z)) (s : PS) : Prop :=
  w_released (world s) = r /\ w_heap (world s) = h.

#[export] Hint Extern 2 (pres (world_is _ _) (modify _)) =>
  (apply pres_modify; intros ? [? ?]; unfold world_is in *; cbn in *; repeat case_match; done) : pres.

Section WorldIs.
Context (r : list release_func) (h : nat -> option (nat -> Z)).

Lemma load_world off len : pres (world_is r h) (load off len).
Proof. unfold load. pres. Qed.
Lemma objects_world n : pres (world_is r h) (objects_upto n).
Proof. unfold objects_upto. pres. Qed.
Lemma check_objects_world l n : pres (world_is r h) (check_objects l n).
Proof.
  pose proof load_world. revert n.
  induction l as [|o l IH]; intros n; cbn [check_objects]; unfold load_flat; pres.
Qed.
Lemma fds_in_range_world l b off len : pres (world_is r h) (fds_in_range l b off len).
Proof. pose proof load_world. induction l as [|o l IH]; cbn [fds_in_range]; unfold load_flat; pres. Qed.
Lemma scanForFds_world : pres (world_is r h) scanForFds.
Proof.
  pose proof fds_in_range_world. pose proof objects_world.
  unfold scanForFds, hasFileDescriptorsInRange. pres.
Qed.
Lemma initState_world : pres (world_is r h) initState.
Proof. unfold initState. pres. Qed.
End WorldIs.

Definition fresh_parcel (p : Parcel) : Prop :=
  wf p /\ mOwner p = None /\ mData p = None /\ mObjectsSize p = 0.

Lemma freeDataNoInit_fresh s : fresh_parcel (this s) -> freeDataNoInit s = Ret tt s.
Proof.
  intros (Hwf & Ho & Hd & Hn). unfold freeDataNoInit, releaseObjects, objects_upto, bind, gets.
  rewrite Ho, Hn. pose proof (zlen_nonneg (mObjects (this s))). zdec (0 <=? zlen (mObjects (this s))).
  unfold ztake, ret. change (take (Z.to_nat 0) (mObjects (this s))) with (@nil Z). cbn [rev for_each]. unfold ret. by rewrite Hd.
Qed.

Lemma reference_world s data n l rel a s' :
  fresh_parcel (this s) -> ipcSetDataReference data n l rel s = Ret a s' ->
  w_released (world s') = w_released (world s) /\ w_heap (world s') = w_heap (world s).
Proof.
  intros Hf Hr. assert (Hp : world_is (w_released (world s)) (w_heap (world s)) s) by done.
  unfold ipcSetDataReference, freeData in Hr. apply bind_ret_inv in Hr as ([] & s1 & H1 & Hr).
  apply bind_ret_inv in H1 as ([] & s2 & H2 & H1). rewrite freeDataNoInit_fresh in H2 by done.
  injection H2 as <-. pose proof (initState_world _ _ _ _ _ Hp H1) as Hp1.
  pose proof (check_objects_world (w_released (world s)) (w_heap (world s)) l 0) as Hc.
  pose proof (scanForFds_world (w_released (world s)) (w_heap (world s))) as Hs.
  match type of Hr with ?m s1 = _ =>
    assert (Hk : pres (world_is (w_released (world s)) (w_heap (world s))) m) by pres
  end.
  exact (Hk _ _ _ Hp1 Hr).
Qed.

Section Reference.
Context {E : Type} {K : Kernel E} {Obj : Objects E}.
Implicit Type t : TS E.

(** A transaction whose data and offsets the driver has mapped. *)
Record delivered (e : E) (tr : binder_transaction_data) : Prop := {
  dl_buffer : tr_buffer tr <> 0;
  dl_size : zlen (mapped e (tr_buffer tr) (tr_data_size tr)) = tr_data_size tr;
  dl_bytes : Forall is_byte (mapped e (tr_buffer tr) (tr_data_size tr));
  dl_max : tr_data_size tr <= INT32_MAX;
  dl_offsets : Forall (fun o => 0 <= o /\ o + sizeof_flat <= tr_data_size tr) (tr_objects e tr);
}.

(** The parcel over the delivered buffer. *)
Definition holds_reply (e : E) (tr : binder_transaction_data) (q : Parcel) : Prop :=
  wf q /\ contents q = mapped e (tr_buffer tr) (tr_data_size tr) /\ mDataPos q = 0 /\
  mOwner q = Some (freeBuffer (tr_buffer tr)).

Lemma set_reference_ok F fuel p tr t (Q : Parcel -> TS E -> Prop) :
  fresh_parcel p -> delivered (env t) tr ->
  (forall q w, holds_reply (env t) tr q -> w_heap w = w_heap (t_world t) -> Q q (set_t_world w t)) ->
  wpg F (set_reference fuel p tr) t Q.
Proof.
  intros Hp [Hb Hz Hby Hmax Hoff] HQ. unfold set_reference. wp_steps. unfold on_parcel. wp_steps.
  apply wpg_zoom. unfold tr_data. zdec (tr_buffer tr =? 0). wp_step.
  set (d := mapped (env t) (tr_buffer tr) (tr_data_size tr)) in *.
  pose proof (reference_world (mkPS p (t_world t)) (Some d) (tr_data_size tr) (tr_objects (env t) tr)
    (freeBuffer (tr_buffer tr))) as Hw.
  pose proof (ipcSetDataReference_ok F (mkPS p (t_world t)) d (tr_objects (env t) tr)
    (freeBuffer (tr_buffer tr))) as Hr.
  rewrite Hz in Hr. unfold wpg at 1. unfold wpg in Hr.
  destruct (ipcSetDataReference (Some d) (tr_data_size tr) (tr_objects (env t) tr)
    (freeBuffer (tr_buffer tr)) (mkPS p (t_world t))) as [[] s'| |]; [|by apply Hr; try apply Hp..].
  destruct (Hw tt s' Hp eq_refl) as [Hrel Hheap]. cbn in Hrel, Hheap.
  destruct Hr as (H1 & H2 & H3 & H4 & _); [apply Hp|done|done|done|done|].
  wp_steps. cbn [this world t_world set_t_world]. rewrite Hrel, Nat.sub_diag. cbn [take rev for_each].
  wp_steps. by apply HQ.
Qed.
End Reference.

(** * The loop *)

(** Evaluate the comparisons of command codes. *)
Ltac codes :=
  repeat match goal with
  | |- context [?a =? ?b] =>
      let v := eval vm_compute in (a =? b) in
      lazymatch v with
      | true => change (a =? b) with true
      | false => change (a =? b) with false
      end
  | |- context [?a <? ?b] =>
      let v := eval vm_compute in (a <? b) in
      lazymatch v with
      | true => change (a <? b) with true
      | false => change (a <? b) with false
      end
  end; cbv iota; cbn [orb andb negb].

Section Wait.
Context {E : Type} {K : Kernel E} {Obj : Objects E} {Drv : GoodDriver E} {Refs : RefsInEnv E}.
Implicit Type t : TS E.

Lemma issued_in t l p : issued t l -> issued (set_mIn p t) l.
Proof. intros [(cs & [] & ? & ?) ? ?]. split; [exists cs; split_and!; [by constructor|done..]|done..]. Qed.

Lemma issued_world t l w : w_heap w = w_heap (t_world t) -> issued t l -> issued (set_t_world w t) l.
Proof.
  intros Hw [(cs & [] & ? & ?) Hm ?]. split; [exists cs; split_and!; [by constructor|done..]| |done].
  intros k. cbn. rewrite Hw. apply Hm.
Qed.

Definition return_ok (e : E) (r : Return) : Prop :=
  match r with
  | RReply tr => tr_ok tr /\ (Z.land (tr_flags tr) TF_STATUS_CODE = 0 -> delivered e tr)
  | _ => True
  end.

(** What the caller of [waitForResponse] gets for a verdict. *)
Definition answered (e : E) (p : Parcel) (want : bool) (l : list Command) (v : verdict)
    (r : status_t * option Parcel) (t' : TS E) : Prop :=
  let reply := if want then Some p else None in
  match v with
  | Status st => r = (st, if st =? NO_ERROR then reply else set_mError st <$> reply) /\ issued t' l
  | Data tr =>
      if Z.land (tr_flags tr) TF_STATUS_CODE =? 0 then
        exists q, r = (NO_ERROR, Some q) /\ holds_reply e tr q /\ issued t' l
      else
        let st := s32 (le_val (mapped e (tr_buffer tr) 4)) in
        r = (st, Some (if st =? NO_ERROR then p else set_mError st p)) /\
        issued t' (l ++ [FreeBuffer (tr_buffer tr)])
  end.

Lemma finish_ok F st reply t (Q : status_t * option Parcel -> TS E -> Prop) :
  (forall t', t' = t \/ t' = set_mLastError st t ->
     Q (st, if st =? NO_ERROR then reply else set_mError st <$> reply) t') ->
  wpg F (finish st reply) t Q.
Proof. intros HQ. unfold finish. destruct (st =? NO_ERROR); wp_steps; apply HQ; auto. Qed.

Lemma issued_error t l st t' : t' = t \/ t' = set_mLastError st t -> issued t l -> issued t' l.
Proof.
  intros [-> | ->] Hi; [done|]. destruct Hi as [(cs & [] & ? & ?) ? ?].
  split; [exists cs; split_and!; [by constructor|done..]|done..].
Qed.
Lemma in_error t bs st t' : t' = t \/ t' = set_mLastError st t -> in_holds t bs -> in_holds t' bs.
Proof. intros [-> | ->] Hi; [done|]. by destruct Hi. Qed.

Lemma encode_returns_cons r rs : encode_returns (r :: rs) = encode_return r ++ encode_returns rs.
Proof. done. Qed.

(** Up to the test of the command word. *)
Lemma wait_step_reads F fuel again execute reply t r rs l (Q : status_t * option Parcel -> TS E -> Prop) :
  in_holds t (encode_returns (r :: rs)) -> issued t l ->
  (forall p, in_holds (set_mIn p t) (match r with RReply tr => tr_bytes tr | _ => [] end ++ encode_returns rs) ->
   wpg F (wait_command fuel again execute reply NO_ERROR (return_code r)) (set_mIn p t) Q) ->
  wpg F (wait_step fuel again execute reply) t Q.
Proof.
  intros Hin Hi HQ. pose proof Hin as Hin'. rewrite encode_returns_cons in Hin'. unfold encode_return in Hin'.
  rewrite <- app_assoc in Hin'. unfold wait_step. wp_steps.
  eapply talk_idle; [exact Hin| |by apply (is_open _ _ Hi)|].
  { rewrite encode_returns_cons. unfold encode_return. intros H%(f_equal zlen). rewrite !zlen_app, zlen_le_bytes, zlen_nil in H.
    pose proof (zlen_nonneg (match r with RReply tr => tr_bytes tr | _ => [] end)).
    pose proof (zlen_nonneg (encode_returns rs)). lia. }
  change (NO_ERROR <? NO_ERROR) with false. cbv iota. wp_steps. unfold errorCheck. rewrite (ih_error _ _ Hin).
  change (NO_ERROR <? NO_ERROR) with false. cbv iota. wp_steps. eapply in_available; [exact Hin'|].
  rewrite zlen_app, zlen_le_bytes.
  match goal with |- context [Z.of_nat 4 + zlen ?x =? 0] => pose proof (zlen_nonneg x); zdec (Z.of_nat 4 + zlen x =? 0) end.
  wp_steps. eapply in_code; [exact Hin'|apply return_code_ok|]. intros p Hp.
  rewrite u32_s32_code by apply return_code_ok. exact (HQ p Hp).
Qed.

Lemma tr_exact tr : tr_ok tr -> tr_of_bytes (tr_bytes tr) = tr.
Proof. intros. rewrite <- (app_nil_r (tr_bytes tr)). by apply tr_round_trip. Qed.

Lemma wait_loop_ok F fuel t rs want v rest p l :
  in_holds t (encode_returns rs) -> issued t l -> outcome_of want rs = Some (v, rest) ->
  Forall (return_ok (env t)) rs -> fresh_parcel p -> enough (S (length rs)) fuel t -> queue_room t ->
  wpg F (wait_loop fuel (if want then Some p else None)) t (fun r t' =>
    answered (env t) p want l v r t' /\ in_holds t' (encode_returns rest)).
Proof.
  revert fuel t. induction rs as [|r rs IH]; intros fuel t Hin Hi Hv Hok Hp Hf Hr; [done|].
  apply Forall_cons in Hok as [Hrok Hok]. destruct fuel as [|fuel]; [unfold enough in Hf; lia|].
  assert (Hf' : enough (S (length rs)) fuel t) by (unfold enough in *; cbn [length] in Hf; lia).
  cbn [wait_loop]. eapply wait_step_reads; [done..|]. intros q Hq.
  assert (Hagain : outcome_of want rs = Some (v, rest) ->
    match r with RReply tr => tr_bytes tr | _ => [] end = [] ->
    wpg F (wait_loop fuel (if want then Some p else None)) (set_mIn q t) (fun r t' =>
      answered (env t) p want l v r t' /\ in_holds t' (encode_returns rest))).
  { intros Hv' Hnil. rewrite Hnil in Hq. apply (IH fuel (set_mIn q t)); try done. by apply issued_in. }
  assert (Hstop : forall st, v = Status st -> rest = rs ->
    match r with RReply tr => tr_bytes tr | _ => [] end = [] ->
    wpg F (finish st (if want then Some p else None)) (set_mIn q t) (fun r t' =>
      answered (env t) p want l v r t' /\ in_holds t' (encode_returns rest))).
  { intros st -> -> Hnil. rewrite Hnil in Hq. apply finish_ok. intros t' Ht'. split.
    - split; [done|]. eapply issued_error; [exact Ht'|]. by apply issued_in.
    - by eapply in_error. }
  unfold wait_command. destruct r as [| | | | | | |tr]; cbn [return_code outcome_of] in *; codes.
  1-2: unfold execute_command; codes; wp_steps; codes; wp_steps; codes; by apply Hagain.
  1-2: destruct want; [by apply Hagain|injection Hv as <- <-; by apply Hstop].
  1-3: injection Hv as <- <-; by apply Hstop.
  destruct want; [|done]. injection Hv as <- <-. destruct Hrok as [Htr Hdl]. wp_steps.
  eapply in_reads; [exact Hq|apply read_tr_decodes|]. intros q2 Hq2. cbv beta iota zeta. rewrite tr_exact by done.
  change (set_mIn q2 (set_mIn q t)) with (set_mIn q2 t) in *. unfold answered.
  destruct (Z.land (tr_flags tr) TF_STATUS_CODE =? 0) eqn:Ef; zb.
  - wp_steps. apply set_reference_ok; [done|by apply Hdl|]. intros q3 w Hq3 Hw. apply finish_ok.
    intros t' Ht'. codes. split; [|eapply in_error; [exact Ht'|]; by destruct Hq2].
    exists q3. split_and!; [done..|]. eapply issued_error; [exact Ht'|].
    apply issued_world; [done|by apply issued_in].
  - wp_steps. cbn [env set_mIn]. pose proof (send_issued F 0 fuel (set_mIn q2 t) l 0 (FreeBuffer (tr_buffer tr))) as Hs.
    cbn [send] in Hs. eapply wpg_mono; [apply Hs|].
    { by apply issued_in. } { apply Htr. } { done. } { done. } { unfold enough in *. cbn in *. lia. }
    intros [] t3 (Hi3 & _ & _ & Hin3). apply finish_ok. intros t' Ht'. split.
    + split; [by destruct (_ =? NO_ERROR)|]. by eapply issued_error.
    + eapply in_error; [exact Ht'|]. destruct Hq2. cbn in *. constructor; by rewrite Hin3.
Qed.
End Wait.

(** * A synchronous call *)

(** The read buffer is used up and has [cap] bytes of its own. *)
Record in_empty {E} (t : TS E) (cap : Z) : Prop := {
  ie_wf : wf (mIn t);
  ie_data : is_Some (mData (mIn t));
  ie_owner : mOwner (mIn t) = None;
  ie_objs : mObjectsSize (mIn t) = 0;
  ie_error : mError (mIn t) = NO_ERROR;
  ie_pos : mDataPos (mIn t) = mDataSize (mIn t);
  ie_cap : mDataCapacity (mIn t) = cap;
}.

Section Exchange.
Context {E : Type} {K : Kernel E} {Obj : Objects E} {Drv : GoodDriver E} {Refs : RefsInEnv E}.
Implicit Type t : TS E.

(** Only the read buffer has changed. *)
Lemma in_filled F t cap rd (Q : unit -> TS E -> Prop) :
  in_empty t cap -> zlen rd <= cap -> Forall is_byte rd ->
  (forall q, in_empty (set_mIn q t) cap -> ztake (zlen rd) (data_block q) = rd -> Q tt (set_mIn q t)) ->
  wpg F (fill_in rd) t Q.
Proof.
  intros [Hwf [d Hd] Hown Ho He Hpos Hcap] Hz Hb HQ. pose proof Hwf as []. pose proof (zlen_nonneg rd).
  apply wpg_zoom. unfold store. wp_steps. cbn [this]. unfold data_block at 1. rewrite Hd. cbn [default from_option id].
  assert (zlen d = cap) as Hl by (rewrite <- Hcap, <- wf_block; unfold data_block; by rewrite Hd).
  eapply wpg_require; [apply mem_write_ok; lia|]. wp_steps. cbn [this world].
  set (q := set_mData _ (mIn t)).
  replace (set_t_world (t_world t) (set_mIn q t)) with (set_mIn q t) by by destruct t.
  assert (Hq : data_block q = rd ++ zdrop (0 + zlen rd) d) by (unfold q, data_block; cbn; by rewrite Hd).
  assert (Hf : q = set_mData (mData q) (mIn t)) by done.
  assert (Hd' : is_Some (mData q)) by (unfold q; cbn; by rewrite Hd).
  clearbody q. apply HQ; [|by rewrite Hq, ztake_app_exact].
  assert (Hwq : wf q).
  { split; try (rewrite Hf; done); rewrite Hq.
    - rewrite zlen_app, zlen_zdrop by lia. rewrite Hf. cbn. lia.
    - apply Forall_app. split; [done|]. apply Forall_zdrop.
      unfold data_block in wf_bytes. by rewrite Hd in wf_bytes. }
  constructor; cbn [mIn set_mIn]; try done; rewrite Hf; done.
Qed.

Lemma in_sized F t cap rd (Q : unit -> TS E -> Prop) :
  in_empty t cap -> 0 < zlen rd <= cap -> ztake (zlen rd) (data_block (mIn t)) = rd ->
  (forall q, in_holds (set_mIn q t) rd -> Q tt (set_mIn q t)) ->
  wpg F (on_in (setDataSize (zlen rd)) ;; on_in (setDataPosition 0)) t Q.
Proof.
  intros [Hwf [d Hd] Hown Ho He Hpos Hcap] Hz Hrd HQ. pose proof Hwf as [].
  assert (Hk : kept_objects (mIn t) (zlen rd) = 0).
  { unfold kept_objects. rewrite Ho. destruct (_ <? _); [|done]. zdec (zlen rd =? 0). done. }
  wp_steps. apply wpg_zoom. unfold setDataSize, continueWrite. zdec (INT32_MAX <? zlen rd). wp_steps.
  cbn [this]. rewrite Hown, Hd, Hk. unfold continueWrite_owned. wp_steps. cbn [this]. rewrite Ho.
  change (0 <? 0) with false. cbv iota. wp_steps. cbn [this]. zdec (mDataCapacity (mIn t) <? zlen rd).
  wp_steps. change (NO_ERROR =? NO_ERROR) with true. cbv iota. wp_steps. cbn [this world].
  apply wpg_zoom. unfold setDataPosition. change (INT32_MAX <? 0) with false. cbv iota. wp_steps. cbn [this world].
  match goal with |- Q tt (set_t_world _ (set_mIn ?x _)) => set (q := x) end.
  change (Q tt (set_t_world (t_world t) (set_mIn q t))).
  replace (set_t_world (t_world t) (set_mIn q t)) with (set_mIn q t) by by destruct t.
  assert (Hq : data_block q = data_block (mIn t) /\ mDataSize q = zlen rd /\ mDataPos q = 0 /\
    mObjects q = mObjects (mIn t) /\ mObjectsSize q = 0 /\ mObjectsCapacity q = mObjectsCapacity (mIn t) /\
    mDataCapacity q = mDataCapacity (mIn t) /\ mError q = NO_ERROR /\ mOwner q = None /\
    mNextObjectHint q = 0 /\ mObjectsSorted q = false).
  { unfold q, data_block. repeat case_match; cbn; split_and!; done. }
  clearbody q. destruct Hq as (Q1 & Q2 & Q3 & Q4 & Q5 & Q6 & Q7 & Q8 & Q9 & Q10 & Q11).
  assert (Hobj : objs q = []) by (unfold objs; by rewrite Q5).
  apply HQ. constructor; cbn; try done; [| |].
  - split; rewrite ?Hobj, ?Q1, ?Q2, ?Q3, ?Q4, ?Q5, ?Q6, ?Q7, ?Q9, ?Q10, ?Q11; try done; try lia.
  - rewrite Q2, Q3. lia.
  - unfold upcoming, contents. rewrite Q1, Q2, Q3, zdrop_0, Hrd. apply ztake_ge. lia.
Qed.

Lemma no_derefs F fuel t (Q : unit -> TS E -> Prop) :
  mPostWriteWeakDerefs t = [] -> mPostWriteStrongDerefs t = [] -> (0 < fuel)%nat ->
  Q tt t -> wpg F (processPostWriteDerefs fuel) t Q.
Proof.
  intros Hw Hs Hf HQ. destruct fuel as [|fuel]; [lia|]. unfold processPostWriteDerefs. wp_steps.
  cbn [post_weak_derefs post_strong_derefs]. wp_steps. rewrite Hw. cbn. wp_steps. cbn.
  wp_steps. cbn. rewrite Hs. cbn. wp_steps. destruct t; cbn in *; by subst.
Qed.

(** One [ioctl] that takes the queue and brings [rd]. *)
Lemma talk_exchange F fuel t cs cap rd e' (Q : status_t -> TS E -> Prop) :
  out_holds t (encode_commands cs) -> 0 <= mDriverFD (proc t) -> cs <> [] ->
  mPostWriteWeakDerefs t = [] -> mPostWriteStrongDerefs t = [] -> (0 < fuel)%nat ->
  in_empty t cap -> 0 < zlen rd <= cap -> Forall is_byte rd ->
  ioctl (env t) (mkBwr (encode_commands cs) 0 cap 0 []) =
    (e', (0, mkBwr (encode_commands cs) (zlen (encode_commands cs)) cap (zlen rd) rd)) ->
  (forall t', out_holds t' [] -> in_holds t' rd -> env t' = e' -> proc t' = proc t ->
     w_heap (t_world t') = w_heap (t_world t) -> mPostWriteWeakDerefs t' = [] ->
     mPostWriteStrongDerefs t' = [] -> Q NO_ERROR t') ->
  wpg F (talkWithDriver fuel true) t Q.
Proof.
  intros Ho Hfd Hne Hw Hs Hfuel Hin Hz Hb He HQ.
  assert (Hsize : 0 < zlen (encode_commands cs)).
  { pose proof (zlen_nonneg (encode_commands cs)). destruct (decide (zlen (encode_commands cs) = 0)) as [H0|]; [|lia].
    by apply zlen_zero, encode_nil in H0. }
  unfold talkWithDriver. wp_steps. zdec (mDriverFD (proc t) <? 0).
  assert ((dataSize (mIn t) <=? dataPosition (mIn t)) = true) as ->.
  { destruct Hin. unfold dataSize, dataPosition. rewrite ie_pos0, Z.ltb_irrefl. apply Z.leb_refl. }
  cbn [negb orb andb]. unfold dataCapacity. rewrite (ie_cap _ _ Hin), (dataSize_holds _ _ Ho).
  zdec (zlen (encode_commands cs) =? 0). cbn [andb]. wp_steps.
  pose proof Ho as [Hwf Hpos Hc _ _]. pose proof (zlen_contents _ Hwf) as Hzc. rewrite Hc in Hzc. pose proof Hwf as [].
  eapply wpg_require.
  { rewrite mem_read_ok by lia. rewrite zdrop_0. unfold contents in Hc. rewrite Hzc, Hc. reflexivity. }
  destruct fuel as [|fuel]; [lia|]. cbn [ioctl_loop]. wp_steps. rewrite He. wp_steps.
  zdec (mDriverFD (proc t) <? 0). codes. wp_steps. cbn [read_consumed write_consumed read_data].
  zdec (0 <? zlen rd). zdec (0 <? zlen (encode_commands cs)).
  eapply (in_filled F (set_env e' t) cap rd); [by destruct Hin|lia|done|]. intros q Hq Hqd.
  change (NO_ERROR <=? NO_ERROR) with true. cbv iota. wp_steps.
  set (t1 := set_mIn q (set_env e' t)) in *.
  assert (Ho1 : out_holds t1 (encode_commands cs)) by (by destruct Ho).
  rewrite (dataSize_holds _ _ Ho1), Z.ltb_irrefl. wp_steps.
  eapply out_clear; [exact Ho1|by intros Hx; rewrite Hx in Hsize|]. intros t2 Ho2 (po & wo & -> & Hwo). wp_steps.
  apply no_derefs; [exact Hw|exact Hs|lia|].
  apply wpg_bind. eapply wpg_mono; [apply (in_sized F _ cap rd) with (Q := fun _ t' => exists q', t' = set_mIn q' (set_t_world wo (set_mOut po t1)) /\ in_holds t' rd)|].
  { by destruct Hq. } { lia. } { exact Hqd. } { intros q' Hq'. by exists q'. }
  intros [] t3 (q' & -> & Hin3). wp_steps. apply HQ; try done; by destruct Ho2.
Qed.

(** A round of the loop that had to ask the driver goes on like one that did not. *)
Lemma wait_loop_talk fuel reply t t1 :
  talkWithDriver fuel true t = Ret NO_ERROR t1 -> talkWithDriver fuel true t1 = Ret NO_ERROR t1 ->
  wait_loop (S fuel) reply t = wait_loop (S fuel) reply t1.
Proof. intros H H1. cbn [wait_loop]. unfold wait_step. unfold bind at 1. rewrite H. symmetry. unfold bind at 1. by rewrite H1. Qed.

(** The transaction a call sends. *)
Definition call_tr (handle code : Z) (data : Parcel) (flags : Z) : binder_transaction_data :=
  mkTr (u32 handle) 0 (u32 code) (u32 (Z.lor flags TF_ACCEPT_FDS)) 0 0 (ipcDataSize data)
    (ipcObjectsCount data * sizeof_size) (ipcData data) (ipcObjects data).

Lemma write_call F t cs handle code data flags (Q : status_t -> TS E -> Prop) :
  out_holds t (encode_commands cs) -> no_failure t -> queue_room t -> mError data = NO_ERROR ->
  (forall t', out_holds t' (encode_commands (cs ++ [Transaction (call_tr handle code data flags)])) ->
     only_out t t' -> Q NO_ERROR t') ->
  wpg F (writeTransactionData BC_TRANSACTION (Z.lor flags TF_ACCEPT_FDS) handle code data None) t Q.
Proof.
  intros Ho Hm Hr He HQ. unfold queue_room in Hr. rewrite (dataSize_holds _ _ Ho) in Hr.
  unfold writeTransactionData, errorCheck. rewrite He. change (NO_ERROR =? NO_ERROR) with true. cbv iota.
  fold (call_tr handle code data flags). wp_steps.
  eapply out_int32_ok; [done|done|unfold room; lia|]. intros t1 Ho1 Hoo1. wp_steps.
  eapply out_tr_ok; [done|by eapply only_out_no_failure|unfold room; zl; lia|]. intros t2 Ho2 Hoo2. wp_steps.
  apply HQ; [|by eapply only_out_trans]. rewrite encode_commands_app, encode_one. cbn [encode_command].
  by rewrite <- app_assoc in Ho2.
Qed.

Lemma encode_returns_bytes rs : Forall is_byte (encode_returns rs).
Proof.
  induction rs as [|r rs IH]; [constructor|]. rewrite encode_returns_cons. unfold encode_return.
  repeat (apply Forall_app; split); auto using le_bytes_is_byte. destruct r; auto using tr_bytes_is_byte.
Qed.
End Exchange.


(** a synchronous call.  [transact] queues the transaction after the commands
    queued before, gives them to the driver in one [ioctl] that also reads the
    returns, and comes back with the outcome those returns have: the reply as a parcel
    over the delivered buffer, or the error, in which case the reply parcel carries
    it; nothing is left in the queue but a buffer to free. *)
Theorem synchronous_call {E} {K : Kernel E} {Obj : Objects E} {Drv : GoodDriver E} {Refs : RefsInEnv E}
    fuel (t : TS E) handle code data p flags cs cap rs v rest e' :
  let c := Transaction (call_tr handle code data flags) in
  out_holds t (encode_commands cs) -> no_failure t -> 0 <= mDriverFD (proc t) -> queue_room t ->
  mPostWriteWeakDerefs t = [] -> mPostWriteStrongDerefs t = [] -> in_empty t cap ->
  mSession data = None -> mError data = NO_ERROR -> mCallRestriction t = 0 ->
  Z.land (Z.lor flags TF_ACCEPT_FDS) TF_ONE_WAY = 0 -> fresh_parcel p ->
  ioctl (env t) (mkBwr (encode_commands (cs ++ [c])) 0 cap 0 []) =
    (e', (0, mkBwr (encode_commands (cs ++ [c])) (zlen (encode_commands (cs ++ [c]))) cap
               (zlen (encode_returns rs)) (encode_returns rs))) ->
  0 < zlen (encode_returns rs) <= cap -> outcome_of true rs = Some (v, rest) ->
  Forall (return_ok e') rs -> (length rs + 1 < fuel)%nat ->
  wp (transact fuel handle code data (Some p) flags) t (fun r t' =>
    answered e' p true (received e') v r t' /\ in_holds t' (encode_returns rest)).
Proof.
  intros c Ho Hm Hfd Hr Hw Hs Hin Hss Hde Hcr Hfl Hp He Hz Hv Hok Hfuel.
  unfold transact. rewrite Hss. cbn [fatal_if]. wp_steps.
  eapply write_call; [done..|]. intros t1 Ho1 (po & w1 & -> & Hw1). fold c in Ho1.
  change (negb (NO_ERROR =? NO_ERROR)) with false. cbv iota. rewrite Hfl. change (0 =? 0) with true. cbv iota. wp_steps.
  cbn [mCallRestriction set_t_world set_mOut]. rewrite Hcr. change (negb (0 =? 0)) with false. cbn [andb fatal_if]. wp_steps.
  unfold waitForResponse, wait_with. wp_steps. destruct fuel as [|fuel]; [lia|].
  set (t1 := set_t_world w1 (set_mOut po t)) in *.
  assert (Hx : wp (talkWithDriver fuel true) t1 (fun st t2 => st = NO_ERROR /\ out_holds t2 [] /\
    in_holds t2 (encode_returns rs) /\ env t2 = e' /\ proc t2 = proc t1 /\ w_heap (t_world t2) = w_heap (t_world t1) /\
    mPostWriteWeakDerefs t2 = [] /\ mPostWriteStrongDerefs t2 = [])).
  { eapply (talk_exchange _ _ _ (cs ++ [c]) cap (encode_returns rs) e'); try done.
    - by intros []%app_eq_nil.
    - lia.
    - by destruct Hin.
    - apply encode_returns_bytes. }
  apply wp_run in Hx as (st & t2 & Ht & -> & Ho2 & Hin2 & He2 & Hp2 & Hw2 & Hq1 & Hq2).
  assert (Hidle : talkWithDriver fuel true t2 = Ret NO_ERROR t2).
  { assert (Hx : wp (talkWithDriver fuel true) t2 (fun st t3 => st = NO_ERROR /\ t3 = t2)).
    { eapply talk_idle; [exact Hin2|intros Hx%(f_equal zlen); change (zlen []) with 0 in Hx; lia|by rewrite Hp2|done]. }
    apply wp_run in Hx as (? & ? & Hx & -> & ->). exact Hx. }
  unfold wpg. rewrite (wait_loop_talk _ _ _ _ Ht Hidle). subst e'.
  apply (wait_loop_ok False (S fuel) t2 rs true v rest p (received (env t2))); try done.
  - split; [exists []; by rewrite app_nil_r| |by rewrite Hp2].
    intros k. rewrite Hw2. unfold t1. cbn. rewrite Hw1. apply Hm.
  - unfold enough. rewrite Hq1, Hq2. cbn. lia.
  - unfold queue_room. by rewrite (dataSize_holds _ _ Ho2).
Qed.
