(* ===== verification/IpcWitness.v ===== *)
(** Concrete kernels and objects: the interfaces of [IpcThread] can be met, and a
    thread that polls drops a reference twice. *)

From S2P Require Import Prelude Errors ParcelState ParcelWrite ParcelRead ThreadState ParcelObject ParcelIpc.
From S2P Require Import ParcelInv ParcelWriteSpec ParcelReadSpec ParcelProps ParcelFrame Driver IpcThread IpcThreadProps IpcWaitProps.

(** * A kernel that records what it is sent and answers from a script *)

Record SE := mkSE {
  se_log : list Command;
  se_script : list bytes;
  se_strong : gmap Z Z;
  se_weak : gmap Z Z;
}.

Definition se_received (e : SE) (bs : bytes) (script : list bytes) : SE :=
  mkSE (se_log e ++ default [] (parse_commands bs)) script (se_strong e) (se_weak e).

(** It takes all that is written, and brings the next piece of the script when
    there is something to read. *)
Definition se_ioctl (e : SE) (b : binder_write_read) : SE * (Z * binder_write_read) :=
  let bs := write_buffer b in
  match se_script e with
  | rd :: script =>
      if 0 <? read_size b then
        (se_received e bs script, (0, mkBwr bs (zlen bs) (read_size b) (zlen rd) rd))
      else (se_received e bs (rd :: script), (0, mkBwr bs (zlen bs) (read_size b) 0 []))
  | [] => (se_received e bs [], (0, mkBwr bs (zlen bs) (read_size b) 0 []))
  end.

#[export] Instance script_kernel : Kernel SE := {
  ioctl := se_ioctl;
  poll := fun e => (e, 0);
  uptimeMillis := fun _ => 1000;
  mapped := fun _ _ n => zeros n;
  ipcData := fun _ => 12288;
  ipcObjects := fun _ => 16384;
  getpid := 100;
  getuid := 1000;
  gettid := 101;
  frame_address := fun n => 1048576 + Z.of_nat n;
  status_buffer := fun n => 2097152 + Z.of_nat n;
}.

#[export] Instance script_driver : GoodDriver SE.
Proof.
  refine {| received := se_log |}. intros e bs cs Hne Hcs. cbn. unfold se_ioctl. cbn.
  destruct (se_script e); eexists; (split; [reflexivity|]); cbn; by rewrite Hcs.
Defined.

(** Objects that live on: a count and nothing else. *)
Definition count_strong (d a : Z) : M (TS SE) unit :=
  modify (fun t => set_env (mkSE (se_log (env t)) (se_script (env t))
    (<[a := default 0 (se_strong (env t) !! a) + d]> (se_strong (env t))) (se_weak (env t))) t).
Definition count_weak (d a : Z) : M (TS SE) unit :=
  modify (fun t => set_env (mkSE (se_log (env t)) (se_script (env t)) (se_strong (env t))
    (<[a := default 0 (se_weak (env t) !! a) + d]> (se_weak (env t)))) t).

Definition living : Objects SE := {|
  obj_incStrong := count_strong 1;
  obj_decStrong := count_strong (-1);
  obj_incWeak := count_weak 1;
  obj_decWeak := count_weak (-1);
  obj_attemptIncStrong := fun a => count_strong 1 a ;; ret true;
  obj_transact := fun _ _ buffer reply _ => ret (NO_ERROR, buffer, reply);
  obj_sendObituary := fun _ => ret tt;
|}.

#[export] Instance living_refs : RefsInEnv SE (H := living).
Proof. split; intros a t; eexists; (split; [reflexivity|done]). Defined.

#[export] Instance living_identity : RefsKeepIdentity SE (H := living).
Proof. split; intros a i; apply pres_modify; by intros t <-. Defined.

(** * A thread *)

Definition buffer_256 : Parcel := set_mDataCapacity 256 (set_mData (Some (zeros 256)) init_parcel).
Definition process : Process := mkProcess 5 None 0 15 0 0 false true 1 ∅ [].
Definition thread (looper : bool) (script : list bytes) : TS SE :=
  mkTS buffer_256 buffer_256 Sample.calm (mkCaller 100 0 1000) 0 None looper false 0 0 [] [] [] []
    process (mkSE [] script ∅ ∅).

Lemma buffer_256_wf : wf buffer_256.
Proof.
  split; cbn; try done; try (by vm_compute). apply (Forall_zeros 256).
Qed.

Lemma thread_out looper script : out_holds (thread looper script) [].
Proof. constructor; try done. apply buffer_256_wf. Qed.

Lemma thread_in looper script : in_empty (thread looper script) 256.
Proof. constructor; try done. apply buffer_256_wf. Qed.

Lemma thread_issued looper script : issued (Drv := script_driver) (thread looper script) [].
Proof. split; [|done|done]. exists []. split_and!; [apply thread_out|done|constructor]. Qed.

Lemma init_parcel_fresh : fresh_parcel init_parcel.
Proof. split; [apply init_parcel_wf|done]. Qed.

(** * The theorems at work *)

Definition three : list Command := [IncRefs 3; Acquire 3; ClearDeathNotification 3 4096].


Definition oneway_tr : binder_transaction_data := mkTr 501 501 1 1 42 2000 8 0 8192 0.
Abbreviation served :=
  (run_transaction (Obj := living) 10 (waitForResponse (Obj := living) 10) oneway_tr 77 (thread true [])).
Definition after_serving : TS SE := match served with Ret _ t => t | _ => thread true [] end.

Lemma served_ok : served = Ret NO_ERROR after_serving.
Proof. vm_compute. reflexivity. Qed.

Lemma serving_restores_identity_witness : identity after_serving = identity (thread true []).
Proof.
  exact (proj1 (serving_restores_identity (Obj := living) 10 (waitForResponse (Obj := living) 10) oneway_tr 77
    (thread true []) after_serving NO_ERROR served_ok)).
Defined.

Definition called : TS SE := set_caller (mkCaller 42 9 4294967295) (thread true []).

Lemma calling_identity_restored_witness :
  wp clearCallingIdentity called (fun token t1 =>
    wp (restoreCallingIdentity token) t1 (fun _ t2 => caller t2 = mkCaller 42 0 4294967295)).
Proof.
  eapply wpg_mono; [apply (calling_identity_restored called); by vm_compute|].
  intros token t1 [_ H]. eapply wpg_mono; [exact H|]. by intros [] t2 ->.
Defined.

Definition reply_tr : binder_transaction_data := mkTr 0 0 0 0 42 2000 8 0 8192 0.
Definition returns : list Return := [RNoop; RTransactionComplete; RReply reply_tr; RNoop].

Lemma returns_ok e : Forall (return_ok e) returns.
Proof.
  repeat constructor; try done; apply (Forall_zeros 8).
Qed.

(** The same thread with the returns already read. *)
Definition waiting : TS SE :=
  set_mIn (set_mDataSize 80 (set_mData (Some (encode_returns returns ++ zeros 176)) (mIn (thread false []))))
    (thread false []).

Lemma waiting_in : in_holds waiting (encode_returns returns).
Proof.
  constructor; try done.
  split; try done; try (by vm_compute).
  change (Forall is_byte (encode_returns returns ++ zeros 176)). apply Forall_app. split; [apply encode_returns_bytes|apply (Forall_zeros 176)].
Qed.

Lemma waiting_issued : issued (Drv := script_driver) waiting [].
Proof. apply issued_in, thread_issued. Qed.


Lemma synchronous_call_witness :
  wp (transact (Obj := living) 10 3 1 init_parcel (Some init_parcel) 0) (thread false [encode_returns returns])
    (fun r t' => exists q, r = (NO_ERROR, Some q) /\ contents q = zeros 8).
Proof.
  eapply wpg_mono; [eapply (synchronous_call (Obj := living) 10 (thread false [encode_returns returns]) 3 1 init_parcel
    init_parcel 0 [] 256 returns (Data reply_tr) [RNoop])|].
  - apply thread_out.
  - done.
  - done.
  - by vm_compute.
  - done.
  - done.
  - apply thread_in.
  - done.
  - done.
  - done.
  - done.
  - apply init_parcel_fresh.
  - reflexivity.
  - by vm_compute.
  - done.
  - apply returns_ok.
  - cbn. lia.
  - intros r t' [(q & -> & (_ & Hq & _) & _) Hin]. eauto.
Defined.

(** * A thread that leaves the pool *)

(** Proxies as RefBase and BpBinder treat them: dropping the last strong reference
    releases the handle; dropping one that is not there is an error of RefBase
    ([Fault]).  [objects (S n)] may call back into the thread, whose objects are then
    [objects n].  A call on the service creates the proxy 700 of handle 3 and drops its
    own reference to it before it returns; with [exiting], it has also asked the
    process to exit ([ProcessState::requestExit] on its own pool thread). *)
Definition drop_strong (release : M (TS SE) unit) (a : Z) : M (TS SE) unit :=
  let* c := gets (fun t => default 0 (se_strong (env t) !! a)) in
  if c <=? 0 then fault else
  count_strong (-1) a ;;
  if (c =? 1) && (a =? 700) then release else ret tt.

Fixpoint objects (exiting : bool) (n : nat) : Objects SE :=
  match n with
  | O => living
  | S n =>
      let release := decStrongHandle (Obj := objects exiting n) 20 3 in
      {| obj_incStrong := count_strong 1;
         obj_decStrong := drop_strong release;
         obj_incWeak := count_weak 1;
         obj_decWeak := count_weak (-1);
         obj_attemptIncStrong := fun a => count_strong 1 a ;; ret true;
         obj_transact := fun _ _ buffer reply _ =>
           incWeakHandle (Obj := objects exiting n) 20 3 700 ;;
           count_strong 1 700 ;;
           incStrongHandle (Obj := objects exiting n) 20 3 700 ;;
           drop_strong release 700 ;;
           modproc (set_mExitRequested exiting) ;;
           ret (NO_ERROR, buffer, reply);
         obj_sendObituary := fun _ => ret tt |}
  end.

(** The driver delivers one asynchronous call. *)
Definition one_call : bytes := le_bytes 4 BR_TRANSACTION ++ tr_bytes oneway_tr.
Definition finished : bytes := le_bytes 4 BR_FINISHED.

(** The error of RefBase: a [Fault], and not the end of the fuel. *)
Definition faults {A} (o : outcome (TS SE) A) : bool := match o with Fault => true | _ => false end.
Definition log_of {A} (o : outcome (TS SE) A) : list Command :=
  match o with Ret _ t => se_log (env t) | _ => [] end.

