(* ===== verification/RpcTransact.v ===== *)
(** Calls over an RPC session: the transactions of src/libs/binder/RpcState.cpp.

    One thread works on one connection.  What the peer has sent on it and is not
    read yet is [incoming]; what is written goes to the log of the session
    ([rpc_sent]).  The transport (RpcTransport.h) and the objects the thread
    serves are parameters: a write may block some number of times before it is
    done, a read fails when the connection ends.  The session's shutdown trigger
    is set exactly when its state is terminated.  Loops take fuel; running out of
    it is a [Fault], so a theorem that excludes faults also says that the fuel is
    enough.  Waiting between two tries ([usleep]) has no effect here. *)

From S2P Require Import Prelude Errors ParcelState ParcelWrite ParcelRead ParcelData Stability.
From S2P Require Import ParcelObject ParcelIpc BinderStatus RpcNodes.

(** * State *)

(** [sp_guard]: the guard of the thread's IPCThreadState ([None]: the thread has
    none). *)
Record CS (E : Type) := mkCS {
  c_world : World;
  incoming : bytes;
  allowNested : bool;
  sp_guard : option (option Z);
  c_env : E;
}.
Arguments mkCS {E}.
Arguments c_world {E}.
Arguments incoming {E}.
Arguments allowNested {E}.
Arguments sp_guard {E}.
Arguments c_env {E}.

Definition set_c_world {E} (x : World) (c : CS E) : CS E :=
  mkCS x (incoming c) (allowNested c) (sp_guard c) (c_env c).
Definition set_incoming {E} (x : bytes) (c : CS E) : CS E :=
  mkCS (c_world c) x (allowNested c) (sp_guard c) (c_env c).
Definition set_allowNested {E} (x : bool) (c : CS E) : CS E :=
  mkCS (c_world c) (incoming c) x (sp_guard c) (c_env c).
Definition set_sp_guard {E} (x : option (option Z)) (c : CS E) : CS E :=
  mkCS (c_world c) (incoming c) (allowNested c) x (c_env c).
Definition set_c_env {E} (x : E) (c : CS E) : CS E :=
  mkCS (c_world c) (incoming c) (allowNested c) (sp_guard c) x.

(** The transport under a connection: the outcome of the [n]-th message of the
    session and how often it blocks before, whether there are bytes to read now,
    and how a read fails. *)
Class RpcTransport (E : Type) := {
  send_status : nat -> status_t;
  send_blocks : E -> nat -> nat;
  peek : E -> bytes -> E * (status_t * Z);
  read_error : E -> status_t;
}.

(** The incoming call on a local object: its status, and the two parcels after. *)
Class RpcTargets (E : Type) := {
  target_transact : Z -> Z -> Parcel -> Parcel -> Z -> M (CS E) (status_t * Parcel * Parcel);
}.

(** What the session is set up with: [info_server] is the root object of its
    server, if it has a server. *)
Record SessionInfo := mkSessionInfo {
  mMaxIncomingThreads : Z;
  mId : bytes;
  info_server : option (option Z);
  mSessionSpecificRootObject : option Z;
}.

Definition RPC_SPECIAL_TRANSACT_GET_ROOT : Z := 0.
Definition RPC_SPECIAL_TRANSACT_GET_MAX_THREADS : Z := 1.
Definition RPC_SPECIAL_TRANSACT_GET_SESSION_ID : Z := 2.

Definition sizeof_reply : Z := 4.

Record RpcNewSessionResponse := mkRpcNewSessionResponse { rsp_version : Z }.
Definition sizeof_response : Z := 8.
Definition response_of (bs : bytes) : RpcNewSessionResponse := mkRpcNewSessionResponse (word 4 0 bs).

(** "cci", with its terminator. *)
Definition RPC_CONNECTION_INIT_OKAY : bytes := [99; 99; 105; 0].
Definition sizeof_init : Z := 8.
Definition init_bytes : bytes := RPC_CONNECTION_INIT_OKAY ++ zeros 4.

(** [strncmp(a, b, n) == 0]. *)
Fixpoint strncmp_eq (a b : bytes) (n : nat) : bool :=
  match n, a, b with
  | S n, x :: a, y :: b => (x =? y) && ((x =? 0) || strncmp_eq a b n)
  | _, _, _ => true
  end.

Inductive CommandType := ANY | CONTROL_ONLY.

(** * The queue of asynchronous calls *)

(** [std::priority_queue] with the least number on top. *)
Fixpoint push_todo (t : AsyncTodo) (l : list AsyncTodo) : list AsyncTodo :=
  match l with
  | [] => [t]
  | x :: l' => if todo_asyncNumber t <? todo_asyncNumber x then t :: l else x :: push_todo t l'
  end.

Definition n_set_todo (x : list AsyncTodo) (n : BinderNode) : BinderNode :=
  mkBinderNode (binder n) (sentRef n) (timesSent n) (timesRecd n) (asyncNumber n) x.

Definition kArbitraryOnewayCallTerminateLevel : Z := 10000.

Inductive admission :=
| Refused (st : status_t)
| Queued (st : status_t)
| Granted.

(** The turn of an asynchronous call on [target]: run it now, keep it for later,
    or refuse it.  The iterator is not compared with [end()]. *)
Definition async_admit (session addr target : Z) (tx : RpcWireTransaction) (data : bytes) :
    M RS admission :=
  let* st := gets state in
  let* n := require (mNodeForAddress st !! addr) in
  let* b := promote (binder n) in
  if negb (bool_decide (b = Some target)) then ret (Refused BAD_VALUE) else
  if tx_asyncNumber tx =? asyncNumber n then ret Granted else
  let todo := push_todo (mkAsyncTodo target data (tx_asyncNumber tx)) (asyncTodo n) in
  put_node addr (n_set_todo todo n) ;;
  if kArbitraryOnewayCallTerminateLevel <=? zlen todo
  then RpcNodes.shutdown session ;; ret (Queued FAILED_TRANSACTION)
  else ret (Queued OK).

Inductive next :=
| Stop (st : status_t)
| Next (data : bytes)
| Done.

(** After an asynchronous call: the next one of the queue, if it is its turn. *)
Definition async_next (session addr : Z) (target : option Z) : M RS next :=
  let* st := gets state in
  match mNodeForAddress st !! addr with
  | None => ret (Stop OK)
  | Some n =>
      match nodeProgressAsyncNumber n with
      | None => RpcNodes.shutdown session ;; ret (Stop DEAD_OBJECT)
      | Some n =>
          put_node addr n ;;
          match asyncTodo n with
          | [] => ret (Stop OK)
          | t :: rest =>
              if todo_asyncNumber t =? asyncNumber n then
                fatal_if (negb (bool_decide (target = Some (todo_ref t)))) ;;
                put_node addr (n_set_todo rest n) ;;
                ret (Next (todo_data t))
              else ret Done
          end
      end
  end.

(** The number of an outgoing call on [addr]: [None] when the session has ended
    or the numbers have run out. *)
Definition take_async_number (session addr flags : Z) : M RS (option Z) :=
  let* st := gets state in
  if mTerminated st then ret None else
  match mNodeForAddress st !! addr with
  | None => fatal
  | Some n =>
      if Z.land flags FLAG_ONEWAY =? 0 then ret (Some 0) else
      match nodeProgressAsyncNumber n with
      | None => RpcNodes.shutdown session ;; ret None
      | Some n' => put_node addr n' ;; ret (Some (asyncNumber n))
      end
  end.

Section Connection.
Context {E : Type} `{T : RpcTransport E} `{O : RpcTargets E}.
Context (connection : status_t) (session : Z) (info : SessionInfo) (frame : Z).

#[local] Instance session_binders : RpcBinders := rpc_nodes (send_status (E := E)) connection.

(** * The state of the session and other parcels *)

Definition on_state {A} (m : M RS A) : M (CS E) A :=
  zoom (fun c => mkPS init_parcel (c_world c)) (fun s c => set_c_world (world s) c)
    (on_session session m).

Definition with_parcel {A} (p : Parcel) (m : M PS A) : M (CS E) (A * Parcel) :=
  zoom (fun c => mkPS p (c_world c)) (fun s c => set_c_world (world s) c)
    (let* a := m in let* p' := gets this in ret (a, p')).

Definition shutdownAndWait : M (CS E) unit := on_state (RpcNodes.shutdown session).

(** [Parcel p; p.markForRpc(session)], and [~Parcel]. *)
Definition rpc_parcel : M (CS E) Parcel :=
  let* r := with_parcel init_parcel (initState ;; markForRpc (Some session)) in ret (snd r).
Definition drop_parcel (p : Parcel) : M (CS E) unit := with_parcel p freeDataNoInit ;; ret tt.

Definition parcel_bytes (p : Parcel) : option bytes := mem_read (data_block p) 0 (dataSize p).

(** * Messages *)

Definition send (iovs : list bytes) : M (CS E) status_t :=
  on_state (rpcSend (send_status (E := E)) session iovs).

Definition rpcRec (n : Z) : M (CS E) (res bytes) :=
  let* st := on_state (gets state) in
  if mTerminated st then shutdownAndWait ;; ret (Err DEAD_OBJECT) else
  if n =? 0 then ret (Good []) else
  let* bs := gets incoming in
  if n <=? zlen bs then modify (set_incoming (zdrop n bs)) ;; ret (Good (ztake n bs))
  else
    modify (set_incoming []) ;;
    let* e := gets c_env in
    shutdownAndWait ;;
    ret (Err (read_error e)).

Definition readNewSessionResponse : M (CS E) (res Z) :=
  let? bs := rpcRec sizeof_response in ret (Good (rsp_version (response_of bs))).

Definition sendConnectionInit : M (CS E) status_t := send [init_bytes].

Definition readConnectionInit : M (CS E) status_t :=
  let* r := rpcRec sizeof_init in
  match r with
  | Err st => ret st
  | Good bs => ret (if strncmp_eq bs RPC_CONNECTION_INIT_OKAY 4 then OK else BAD_VALUE)
  end.

(** * Serving *)

Inductive served :=
| Later (st : status_t)
| Now (st : status_t) (target : option Z).

(** The target of a call at [addr]; [target] is the one of the calls before it in
    the queue. *)
Definition find_target (addr : Z) (oneway : bool) (target : option Z) (tx : RpcWireTransaction)
    (data : bytes) : M (CS E) served :=
  if addr =? 0 then ret (Now OK target) else
  let* r := match target with
            | Some _ => ret (Good target)
            | None => on_state (RpcNodes.onBinderEntering session addr)
            end in
  match r with
  | Err st => ret (Now st None)
  | Good None => shutdownAndWait ;; ret (Now BAD_VALUE None)
  | Good (Some t) =>
      let* os := on_state (gets objects) in
      let* o := require (os !! t) in
      if is_remote o then shutdownAndWait ;; ret (Now BAD_VALUE (Some t)) else
      if oneway then
        let* a := on_state (async_admit session addr t tx data) in
        match a with
        | Refused st => ret (Now st (Some t))
        | Queued st => ret (Later st)
        | Granted => ret (Now OK (Some t))
        end
      else ret (Now OK (Some t))
  end.

Definition special_transact (code : Z) : M PS status_t :=
  if code =? RPC_SPECIAL_TRANSACT_GET_MAX_THREADS then writeInt32 (s32 (mMaxIncomingThreads info))
  else if code =? RPC_SPECIAL_TRANSACT_GET_SESSION_ID
  then writeData (K := Empty_set) (TVector (TPrim Uint8)) (mId info)
  else match info_server info with
  | Some root =>
      if code =? RPC_SPECIAL_TRANSACT_GET_ROOT then
        writeStrongBinder (match mSessionSpecificRootObject info with Some b => Some b | None => root end)
      else ret UNKNOWN_TRANSACTION
  | None => ret OK
  end.

(** The call itself, on the data after the header of the transaction. *)
Definition serve (tx : RpcWireTransaction) (oneway : bool) (target : option Z) (body : bytes)
    (reply : Parcel) : M (CS E) (status_t * Parcel) :=
  let* d := with_parcel init_parcel
    (initState ;;
     ipcSetDataReference (Some body) (zlen body) [] do_nothing_to_transact_data ;;
     markForRpc (Some session)) in
  match target with
  | Some t =>
      let* origAllowNested := gets allowNested in
      modify (set_allowNested (negb oneway)) ;;
      let* r := target_transact t (tx_code tx) (snd d) reply (tx_flags tx) in
      let '(st, d, reply) := r in
      modify (set_allowNested origAllowNested) ;;
      drop_parcel d ;;
      ret (st, reply)
  | None =>
      let* r := with_parcel reply (special_transact (tx_code tx)) in
      drop_parcel (snd d) ;;
      ret r
  end.

Definition flush_refs (addr : Z) (st : status_t) (target : option Z) (otherwise : status_t) :
    M (CS E) status_t :=
  if negb (addr =? 0) && (st =? OK)
  then on_state (RpcNodes.flushExcessBinderRefs (send_status (E := E)) connection session addr target)
  else ret otherwise.

Definition send_reply (replyStatus : status_t) (reply : Parcel) : M (CS E) status_t :=
  fatal_if (INT32_MAX - sizeof_header - sizeof_reply <? dataSize reply) ;;
  let* body := require (parcel_bytes reply) in
  send [header_bytes (mkRpcWireHeader RPC_COMMAND_REPLY (sizeof_reply + dataSize reply));
        le_bytes 4 replyStatus; body].

Fixpoint processTransactInternal (fuel : nat) (target : option Z) (transactionData : bytes) :
    M (CS E) status_t :=
  match fuel with
  | 0%nat => fault
  | S fuel =>
      if zlen transactionData <? sizeof_transaction then shutdownAndWait ;; ret BAD_VALUE else
      let tx := transaction_of transactionData in
      let addr := toRaw (tx_address tx) in
      let oneway := negb (Z.land (tx_flags tx) FLAG_ONEWAY =? 0) in
      let* f := find_target addr oneway target tx transactionData in
      match f with
      | Later st => ret st
      | Now st target =>
          let* reply := rpc_parcel in
          let* r := if st =? OK then serve tx oneway target (zdrop sizeof_transaction transactionData) reply
                    else ret (st, reply) in
          let '(st, reply) := r in
          if oneway then
            let* n := on_state (async_next session addr target) in
            match n with
            | Stop st => drop_parcel reply ;; ret st
            | Next data => drop_parcel reply ;; processTransactInternal fuel target data
            | Done =>
                let* st := flush_refs addr st target OK in
                drop_parcel reply ;;
                ret st
            end
          else
            let* st := flush_refs addr st target st in
            let* st := send_reply st reply in
            drop_parcel reply ;;
            ret st
      end
  end.

Definition processTransact (fuel : nat) (cmd : RpcWireHeader) : M (CS E) status_t :=
  fatal_if (negb (command cmd =? RPC_COMMAND_TRANSACT)) ;;
  if negb (CommandData_valid (bodySize cmd)) then ret NO_MEMORY else
  let* r := rpcRec (bodySize cmd) in
  match r with
  | Err st => ret st
  | Good body => processTransactInternal fuel None body
  end.

(** [processDecStrong] with the reading of its body. *)
Definition receiveDecStrong (cmd : RpcWireHeader) : M (CS E) status_t :=
  fatal_if (negb (command cmd =? RPC_COMMAND_DEC_STRONG)) ;;
  if negb (CommandData_valid (bodySize cmd)) then ret NO_MEMORY else
  let* r := rpcRec (bodySize cmd) in
  match r with
  | Err st => ret st
  | Good body => on_state (processDecStrong session cmd body)
  end.

Definition processCommand (fuel : nat) (cmd : RpcWireHeader) (type : CommandType) : M (CS E) status_t :=
  let* origGuard := gets sp_guard in
  modify (fun c => set_sp_guard ((fun _ => Some frame) <$> sp_guard c) c) ;;
  let* st :=
    if command cmd =? RPC_COMMAND_TRANSACT then
      match type with ANY => processTransact fuel cmd | CONTROL_ONLY => ret BAD_TYPE end
    else if command cmd =? RPC_COMMAND_DEC_STRONG then receiveDecStrong cmd
    else shutdownAndWait ;; ret DEAD_OBJECT in
  modify (set_sp_guard origGuard) ;;
  ret st.

Definition getAndExecuteCommand (fuel : nat) (type : CommandType) : M (CS E) status_t :=
  let* r := rpcRec sizeof_header in
  match r with
  | Err st => ret st
  | Good bs => processCommand fuel (header_of bs) type
  end.

Fixpoint drainCommands (fuel : nat) (type : CommandType) : M (CS E) status_t :=
  match fuel with
  | 0%nat => fault
  | S fuel' =>
      let* c := get in
      let '(e, (status, num_bytes)) := peek (c_env c) (incoming c) in
      modify (set_c_env e) ;;
      if status =? WOULD_BLOCK then ret OK else
      if negb (status =? OK) then ret status else
      if num_bytes =? 0 then ret OK else
      getAndExecuteCommand fuel type ;;?
      drainCommands fuel' type
  end.

(** [RpcSession::join] on a connection that is set up with [setup], up to the
    bookkeeping of threads after the loop. *)
Fixpoint join_loop (fuel : nat) : M (CS E) unit :=
  match fuel with
  | 0%nat => fault
  | S fuel' =>
      let* status := getAndExecuteCommand fuel ANY in
      if negb (status =? OK) then ret tt else join_loop fuel'
  end.

Definition join (fuel : nat) (setup : status_t) : M (CS E) unit :=
  if setup =? OK then join_loop fuel else ret tt.

(** * Calling *)

(** The commands until the reply; its header. *)
Fixpoint wait_reply (fuel : nat) : M (CS E) (res RpcWireHeader) :=
  match fuel with
  | 0%nat => fault
  | S fuel' =>
      let? bs := rpcRec sizeof_header in
      let cmd := header_of bs in
      if command cmd =? RPC_COMMAND_REPLY then ret (Good cmd) else
      let* st := processCommand fuel cmd ANY in
      if st =? OK then wait_reply fuel' else ret (Err st)
  end.

Definition waitForReply (fuel : nat) (reply : Parcel) : M (CS E) (status_t * Parcel) :=
  let* h := wait_reply fuel in
  match h with
  | Err st => ret (st, reply)
  | Good cmd =>
      if negb (CommandData_valid (bodySize cmd)) then ret (NO_MEMORY, reply) else
      let* r := rpcRec (bodySize cmd) in
      match r with
      | Err st => ret (st, reply)
      | Good body =>
          if bodySize cmd <? sizeof_reply then shutdownAndWait ;; ret (BAD_VALUE, reply) else
          let status := s32 (word 4 0 body) in
          if negb (status =? OK) then ret (status, reply) else
          let* r := with_parcel reply
            (ipcSetDataReference (Some (zdrop sizeof_reply body)) (bodySize cmd - sizeof_reply) []
               cleanup_reply_data ;;
             markForRpc (Some session)) in
          ret (OK, snd r)
      end
  end.

(** The write of a transaction: while it blocks, the control commands that came
    in are processed. *)
Fixpoint send_draining (fuel blocks : nat) (iovs : list bytes) : M (CS E) status_t :=
  match blocks with
  | 0%nat => send iovs
  | S blocks =>
      let* st := drainCommands fuel CONTROL_ONLY in
      if negb (st =? OK) then shutdownAndWait ;; ret st else
      let* s := on_state (gets state) in
      if mTerminated s then shutdownAndWait ;; ret DEAD_OBJECT else
      send_draining fuel blocks iovs
  end.

Definition send_transaction (fuel : nat) (iovs : list bytes) : M (CS E) status_t :=
  let* s := on_state (gets state) in
  let* e := gets c_env in
  send_draining fuel (if mTerminated s then 0 else send_blocks e (length (rpc_sent s))) iovs.

Definition transactAddress (fuel : nat) (addr code : Z) (data : Parcel) (reply : option Parcel)
    (flags : Z) : M (CS E) (status_t * option Parcel) :=
  fatal_if (negb (isForRpc data)) ;;
  fatal_if (negb (objectsCount data =? 0)) ;;
  let* n := if addr =? 0 then ret (Some 0) else on_state (take_async_number session addr flags) in
  match n with
  | None => ret (DEAD_OBJECT, reply)
  | Some asyncNumber =>
      fatal_if (INT32_MAX - sizeof_header - sizeof_transaction <? dataSize data) ;;
      let* body := require (parcel_bytes data) in
      let* st := send_transaction fuel
        [header_bytes (mkRpcWireHeader RPC_COMMAND_TRANSACT (sizeof_transaction + dataSize data));
         transaction_bytes (mkRpcWireTransaction (fromRaw addr) code flags asyncNumber); body] in
      if negb (st =? OK) then ret (st, reply) else
      if negb (Z.land flags FLAG_ONEWAY =? 0) then ret (OK, reply) else
      match reply with
      | None => fatal
      | Some p => let* r := waitForReply fuel p in ret (fst r, Some (snd r))
      end
  end.

Definition transact (fuel : nat) (b code : Z) (data : Parcel) (reply : option Parcel) (flags : Z) :
    M (CS E) (status_t * option Parcel) :=
  if negb (isForRpc data) then ret (BAD_TYPE, reply) else
  if negb (objectsCount data =? 0) then ret (BAD_TYPE, reply) else
  let* r := on_state (RpcNodes.onBinderLeaving session b) in
  match r with
  | Err st => ret (st, reply)
  | Good addr => transactAddress fuel addr code data reply flags
  end.

(** A special call: no data, and what [k] reads from the reply. *)
Definition special_call {A} (fuel : nat) (code : Z) (k : M PS (res A)) : M (CS E) (res A) :=
  let* data := rpc_parcel in
  let* r := with_parcel init_parcel initState in
  let* r := transactAddress fuel 0 code data (Some (snd r)) 0 in
  let '(st, reply) := r in
  let* reply := require reply in
  let* r := if st =? OK then with_parcel reply k else ret (Err st, reply) in
  drop_parcel (snd r) ;;
  drop_parcel data ;;
  ret (fst r).

Definition getRootObject (fuel : nat) : M (CS E) (option Z) :=
  let* r := special_call fuel RPC_SPECIAL_TRANSACT_GET_ROOT
              (let* b := readStrongBinder_ in ret (Good b)) in
  match r with Good b => ret b | Err _ => ret None end.

Definition getMaxThreads (fuel : nat) : M (CS E) (res Z) :=
  special_call fuel RPC_SPECIAL_TRANSACT_GET_MAX_THREADS
    (let? n := readInt32 in if n <=? 0 then ret (Err BAD_VALUE) else ret (Good n)).

Definition getSessionId (fuel : nat) : M (CS E) (res bytes) :=
  special_call fuel RPC_SPECIAL_TRANSACT_GET_SESSION_ID
    (readData (K := Empty_set) (TVector (TPrim Uint8))).
End Connection.
