(* ===== verification/RpcAsyncProps.v ===== *)
(** The order of asynchronous calls on an object of an RPC session.

    The peer numbers its asynchronous calls on a binder, but they may arrive over
    several connections and in any order.  The two critical sections of
    [RpcState::processTransactInternal] ([async_admit] before a call,
    [async_next] after it) are the steps of a system in which any number of
    threads receive and run calls, with other uses of the session in between. *)

From Stdlib Require Import Sorted.
From S2P Require Import Prelude Errors ParcelState RpcNodes RpcNodesProps RpcTransact.

(** * The system *)

Definition number (d : bytes) : Z := tx_asyncNumber (transaction_of d).

(** A thread runs the call [d], or has taken it off the queue and is about to. *)
Inductive call :=
| Running (d : bytes)
| Taken (d : bytes).

Record async := mkAsync {
  a_state : RS;
  a_calls : list call;
  a_started : list bytes;
  a_arrived : list bytes;
}.

Definition async_of (n : BinderNode) : Z * Z * list AsyncTodo := (binder n, asyncNumber n, asyncTodo n).

(** Everything else that happens to the session: counts change, other nodes come
    and go, the session may end. *)
Definition elsewhere (addr target : Z) (r r' : RS) : Prop :=
  (is_Some (objects r !! target) -> is_Some (objects r' !! target)) /\
  (mNodeForAddress (state r') !! addr = None \/
   async_of <$> mNodeForAddress (state r') !! addr = async_of <$> mNodeForAddress (state r) !! addr).

(** What the thread that received or took [d] does with the answer. *)
Definition granted (a : admission) (d : bytes) : list call :=
  match a with Granted => [Running d] | _ => [] end.
Definition now_started (a : admission) (d : bytes) : list bytes :=
  match a with Granted => [d] | _ => [] end.
Definition taken (n : next) : list call :=
  match n with Next d => [Taken d] | _ => [] end.

Inductive astep (session addr target : Z) : async -> async -> Prop :=
| a_arrive r r' d a calls started arrived :
    number d ∉ map number arrived -> 0 <= number d ->
    async_admit session addr target (transaction_of d) d r = Ret a r' ->
    astep session addr target (mkAsync r calls started arrived)
      (mkAsync r' (granted a d ++ calls) (started ++ now_started a d) (arrived ++ [d]))
| a_take r r' d a c1 c2 started arrived :
    async_admit session addr target (transaction_of d) d r = Ret a r' ->
    astep session addr target (mkAsync r (c1 ++ Taken d :: c2) started arrived)
      (mkAsync r' (c1 ++ granted a d ++ c2) (started ++ now_started a d) arrived)
| a_finish r r' d n c1 c2 started arrived :
    async_next session addr (Some target) r = Ret n r' ->
    astep session addr target (mkAsync r (c1 ++ Running d :: c2) started arrived)
      (mkAsync r' (c1 ++ taken n ++ c2) started arrived)
| a_elsewhere r r' calls started arrived :
    elsewhere addr target r r' ->
    astep session addr target (mkAsync r calls started arrived) (mkAsync r' calls started arrived).

Inductive async_reachable (session addr target : Z) : async -> Prop :=
| a_start r n : mNodeForAddress (state r) !! addr = Some n -> async_of n = (target, 0, []) ->
    is_Some (objects r !! target) -> async_reachable session addr target (mkAsync r [] [] [])
| a_more s s' : async_reachable session addr target s -> astep session addr target s s' ->
    async_reachable session addr target s'.

(** * The queue *)

Definition todo_ok (target : Z) (t : AsyncTodo) : Prop :=
  todo_ref t = target /\ todo_asyncNumber t = number (todo_data t).

Definition numbers (l : list AsyncTodo) : list Z := map todo_asyncNumber l.

Lemma push_permutation t l : push_todo t l ≡ₚ t :: l.
Proof.
  induction l as [|x l IH]; simpl; [done|]. destruct (_ <? _); [done|]. rewrite IH. apply Permutation_swap.
Qed.

Lemma push_sorted t l :
  StronglySorted Z.lt (numbers l) -> todo_asyncNumber t ∉ numbers l ->
  StronglySorted Z.lt (numbers (push_todo t l)).
Proof.
  unfold numbers. induction l as [|x l IH]; simpl; intros Hs Hn; [by repeat constructor|].
  apply not_elem_of_cons in Hn as [Hx Hn]. apply StronglySorted_inv in Hs as [Hs Hall].
  zcase (todo_asyncNumber t <? todo_asyncNumber x); simpl; constructor; try done.
  - by constructor.
  - constructor; [done|]. eapply Forall_impl; [exact Hall|]. simpl. lia.
  - by apply IH.
  - assert (P : map todo_asyncNumber (push_todo t l) ≡ₚ todo_asyncNumber t :: map todo_asyncNumber l).
    { by rewrite (Permutation_map todo_asyncNumber (push_permutation t l)). }
    rewrite P. constructor; [lia|done].
Qed.

Lemma todo_numbers target l :
  Forall (todo_ok target) l -> numbers l = map number (map todo_data l).
Proof. unfold numbers. induction 1 as [|t l [_ E] _ IH]; simpl; congruence. Qed.

(** * The invariant *)

(** Ending a session empties its table. *)
Lemma shutdown_clears session r v r' :
  RpcNodes.shutdown session r = Ret v r' -> mNodeForAddress (state r') = ∅.
Proof.
  unfold RpcNodes.shutdown, sendObituaries, clear_state. intros H. run.
  destruct (mTerminated _).
  - run. apply negb_false_iff, bool_decide_eq_true in Ef. done.
  - run. done.
Qed.

(** The call that holds the turn, and whether it has started. *)
Definition turn_of (c : list call) : list bytes :=
  match c with [Taken d] => [d] | _ => [] end.

Record queue_ok (target : Z) (n : BinderNode) (s : async) : Prop := {
  q_binder : binder n = target;
  q_live : is_Some (objects (a_state s) !! target);
  q_todo : Forall (todo_ok target) (asyncTodo n);
  q_sorted : StronglySorted Z.lt (numbers (asyncTodo n));
  q_later : Forall (Z.lt (asyncNumber n)) (numbers (asyncTodo n));
  q_all : a_arrived s ≡ₚ a_started s ++ turn_of (a_calls s) ++ map todo_data (asyncTodo n);
  q_turn : match a_calls s with
           | [] => asyncNumber n = zlen (a_started s)
           | [Running d] => asyncNumber n = zlen (a_started s) - 1
           | [Taken d] => asyncNumber n = zlen (a_started s) /\ number d = asyncNumber n
           | _ => False
           end;
}.

Record async_inv (addr target : Z) (s : async) : Prop := {
  i_order : map number (a_started s) = seqZ 0 (zlen (a_started s));
  i_single : (length (a_calls s) <= 1)%nat;
  i_distinct : NoDup (map number (a_arrived s));
  i_queue : forall n, mNodeForAddress (state (a_state s)) !! addr = Some n -> queue_ok target n s;
}.

(** A number that is new is not below those that have started. *)
Lemma new_number s d :
  map number (a_started s) = seqZ 0 (zlen (a_started s)) ->
  a_started s ⊆ a_arrived s -> number d ∉ map number (a_arrived s) -> 0 <= number d ->
  zlen (a_started s) <= number d.
Proof.
  intros Ho Hsub Hn H0. destruct (decide (zlen (a_started s) <= number d)); [done|].
  exfalso. apply Hn. assert (Hin : number d ∈ map number (a_started s)).
  { rewrite Ho. apply elem_of_seqZ. lia. }
  apply list_elem_of_fmap in Hin as (d' & -> & Hin). apply list_elem_of_fmap. eauto.
Qed.

Lemma order_snoc l d :
  map number l = seqZ 0 (zlen l) -> number d = zlen l ->
  map number (l ++ [d]) = seqZ 0 (zlen (l ++ [d])).
Proof.
  intros Hl Hd. rewrite map_app, Hl. simpl. rewrite zlen_app, Hd.
  change (zlen [d]) with 1. pose proof (zlen_nonneg l). rewrite seqZ_app by lia. done.
Qed.

Section Steps.
Context (session addr target : Z).

(** The effect of [async_admit] on a node of the table. *)
Lemma admit_run r n d a r' :
  mNodeForAddress (state r) !! addr = Some n -> binder n = target ->
  is_Some (objects r !! target) ->
  async_admit session addr target (transaction_of d) d r = Ret a r' ->
  (a = Granted /\ number d = asyncNumber n /\ r' = r) \/
  (number d <> asyncNumber n /\ a <> Granted /\
   (mNodeForAddress (state r') = ∅ \/
    objects r' = objects r /\ mNodeForAddress (state r') !! addr =
      Some (n_set_todo (push_todo (mkAsyncTodo target d (number d)) (asyncTodo n)) n))).
Proof.
  intros Hn Hb [o Ho] H. unfold async_admit in H. run.
  rewrite Hn in *. simplify_eq. rewrite Ho in H.
  rewrite bool_decide_eq_true_2 in H by done. cbn [negb] in H. fold (number d) in H.
  zcase (number d =? asyncNumber n); [run; auto|]. right. split; [done|].
  run. destruct (_ <=? _); run.
  - split; [done|]. left. by eapply shutdown_clears.
  - split; [done|]. right. split; [done|]. by rewrite lookup_insert_eq.
Qed.

Lemma next_run r n a r' :
  mNodeForAddress (state r) !! addr = Some n ->
  async_next session addr (Some target) r = Ret a r' ->
  mNodeForAddress (state r') = ∅ /\ taken a = [] \/
  objects r' = objects r /\
  (exists n', mNodeForAddress (state r') !! addr = Some n' /\ binder n' = binder n /\
     asyncNumber n' = asyncNumber n + 1 /\
     ((taken a = [] /\ asyncTodo n' = asyncTodo n /\
       (match asyncTodo n with [] => True | t :: _ => todo_asyncNumber t <> asyncNumber n + 1 end)) \/
      (exists t, asyncTodo n = t :: asyncTodo n' /\ taken a = [Taken (todo_data t)] /\
         todo_asyncNumber t = asyncNumber n + 1))).
Proof.
  intros Hn H. unfold async_next in H. run. rewrite Hn in H.
  unfold nodeProgressAsyncNumber in H. destruct (_ <=? _).
  { run. left. split; [|done]. by eapply shutdown_clears. }
  run. right. cbn [asyncTodo n_set_async asyncNumber] in H.
  destruct (asyncTodo n) as [|t rest] eqn:Et.
  - run. split; [done|]. eexists. rewrite lookup_insert_eq. split; [done|]. cbn. split_and!; auto.
  - zcase (todo_asyncNumber t =? asyncNumber n + 1); run.
    + split; [done|]. eexists. rewrite lookup_insert_eq. split; [done|]. cbn. split_and!; eauto.
    + split; [done|]. eexists. rewrite lookup_insert_eq. split; [done|]. cbn. split_and!; auto.
Qed.

(** Queueing a call that is not next. *)
Lemma queue_later n s d r' :
  queue_ok target n s -> number d ∉ map number (a_arrived s) -> asyncNumber n < number d ->
  objects r' = objects (a_state s) ->
  queue_ok target (n_set_todo (push_todo (mkAsyncTodo target d (number d)) (asyncTodo n)) n)
    (mkAsync r' (a_calls s) (a_started s) (a_arrived s ++ [d])).
Proof.
  intros [Hb Hl Ht Hs Hlt Hall Hturn] Hnew Hgt Ho.
  set (t := mkAsyncTodo target d (number d)). pose proof (push_permutation t (asyncTodo n)) as P.
  split; cbn [a_state a_calls a_started a_arrived binder asyncTodo asyncNumber n_set_todo]; auto.
  - by rewrite Ho.
  - rewrite P. by constructor.
  - apply push_sorted; [done|]. cbn. intros Hin. apply Hnew. rewrite (todo_numbers target) in Hin by done.
    apply list_elem_of_fmap in Hin as (d' & Ed & Hin). apply list_elem_of_fmap. exists d'.
    split; [done|]. rewrite Hall. set_solver.
  - unfold numbers. rewrite (Permutation_map todo_asyncNumber P). by constructor.
  - rewrite (Permutation_map todo_data P), Hall. simpl. solve_Permutation.
Qed.

Lemma arrive_inv r r' d a calls started arrived :
  async_inv addr target (mkAsync r calls started arrived) ->
  number d ∉ map number arrived -> 0 <= number d ->
  async_admit session addr target (transaction_of d) d r = Ret a r' ->
  async_inv addr target
    (mkAsync r' (granted a d ++ calls) (started ++ now_started a d) (arrived ++ [d])).
Proof.
  intros [Ho Hc Hd Hq] Hnew H0 H.
  assert (Hd' : NoDup (map number (arrived ++ [d]))).
  { rewrite map_app. apply NoDup_app. split_and!; [done| |apply NoDup_singleton]. set_solver. }
  destruct (mNodeForAddress (state r) !! addr) as [n|] eqn:Hn;
    [|unfold async_admit in H; run; congruence].
  pose proof (Hq n Hn) as Q. pose proof Q as [Hb Hl Ht Hs Hlt Hall Hturn].
  cbn [a_state a_calls a_started a_arrived] in *.
  assert (Hge : zlen started <= number d).
  { apply (new_number (mkAsync r calls started arrived)); cbn; auto. intros x. rewrite Hall. set_solver. }
  destruct (admit_run r n d a r' Hn Hb Hl H) as [(-> & En & ->)|(Hne & Ha & Hr)]; cbn [granted now_started].
  - (* it is its turn *)
    assert (calls = []) as ->.
    { destruct calls as [|[d0|d0] [|]]; try done; [lia|]. destruct Hturn as [Hz Hd0].
      exfalso. apply Hnew. apply list_elem_of_fmap. exists d0. split; [lia|]. rewrite Hall. simpl. set_solver. }
    split; cbn [a_state a_calls a_started a_arrived app]; auto; [apply order_snoc; [done|lia]|].
    intros n' Hn'. rewrite Hn in Hn'. injection Hn' as <-. split; auto.
    + cbn in *. rewrite Hall. cbn. solve_Permutation.
    + cbn in *. rewrite zlen_app. change (zlen [d]) with 1. lia.
  - replace (granted a d) with (@nil call) by (by destruct a).
    replace (now_started a d) with (@nil bytes) by (by destruct a). rewrite app_nil_r.
    split; cbn [a_state a_calls a_started a_arrived app]; auto. intros n' Hn'.
    destruct Hr as [Hr|[Hobj Hr]]; [by rewrite Hr in Hn'|]. rewrite Hr in Hn'. injection Hn' as <-.
    apply (queue_later n (mkAsync r calls started arrived)); auto.
    destruct calls as [|[d0|d0] [|]]; try done; cbn in *; lia.
Qed.

Lemma take_inv r r' d a c1 c2 started arrived :
  async_inv addr target (mkAsync r (c1 ++ Taken d :: c2) started arrived) ->
  async_admit session addr target (transaction_of d) d r = Ret a r' ->
  async_inv addr target (mkAsync r' (c1 ++ granted a d ++ c2) (started ++ now_started a d) arrived).
Proof.
  intros [Ho Hc Hd Hq] H. cbn [a_state a_calls a_started a_arrived] in *.
  rewrite length_app in Hc. cbn in Hc.
  assert (c1 = []) as -> by (destruct c1; [done|cbn in Hc; lia]).
  assert (c2 = []) as -> by (destruct c2; [done|cbn in Hc; lia]).
  destruct (mNodeForAddress (state r) !! addr) as [n|] eqn:Hn;
    [|unfold async_admit in H; run; congruence].
  pose proof (Hq n eq_refl) as [Hb Hl Ht Hs Hlt Hall [Hz Hnum]]. cbn [a_state a_calls a_started a_arrived app] in *.
  destruct (admit_run r n d a r' Hn Hb Hl H) as [(-> & _ & ->)|(Hne & _)]; [|done].
  split; cbn [a_state a_calls a_started a_arrived granted now_started app]; auto; [apply order_snoc; [done|lia]|].
  intros n' Hn'. rewrite Hn in Hn'. injection Hn' as <-. split; auto.
  - cbn in *. rewrite Hall. solve_Permutation.
  - cbn. rewrite zlen_app. change (zlen [d]) with 1. lia.
Qed.

Lemma finish_inv r r' d a c1 c2 started arrived :
  async_inv addr target (mkAsync r (c1 ++ Running d :: c2) started arrived) ->
  async_next session addr (Some target) r = Ret a r' ->
  async_inv addr target (mkAsync r' (c1 ++ taken a ++ c2) started arrived).
Proof.
  intros [Ho Hc Hd Hq] H. cbn [a_state a_calls a_started a_arrived] in *.
  rewrite length_app in Hc. cbn in Hc.
  assert (c1 = []) as -> by (destruct c1; [done|cbn in Hc; lia]).
  assert (c2 = []) as -> by (destruct c2; [done|cbn in Hc; lia]).
  rewrite app_nil_r. cbn [app] in *.
  split; cbn [a_state a_calls a_started a_arrived]; auto; [destruct a; cbn; lia|].
  intros n' Hn'. destruct (mNodeForAddress (state r) !! addr) as [n|] eqn:Hn.
  2: { exfalso. unfold async_next in H. run. rewrite Hn in H. run. congruence. }
  pose proof (Hq n eq_refl) as [Hb Hl Ht Hs Hlt Hall Hz]. cbn [a_state a_calls a_started a_arrived] in *.
  destruct (next_run r n a r' Hn H) as [[E _]|[Hobj (m & Hm & Eb & En & Hcase)]].
  { by rewrite E in Hn'. }
  rewrite Hn' in Hm. injection Hm as <-.
  destruct Hcase as [(Et & E & Hhead)|(t & E & Et & Hnum)]; rewrite Et.
  - split; cbn; rewrite ?E, ?Hobj; auto; [congruence| |lia].
    rewrite En. destruct (asyncTodo n) as [|t rest]; [constructor|]. cbn in *.
    apply StronglySorted_inv in Hs as [Hs Hall']. apply Forall_cons in Hlt as [Hlt _].
    constructor; [lia|]. eapply Forall_impl; [exact Hall'|]. cbn. lia.
  - rewrite E in *. cbn in *. apply Forall_cons in Ht as [[_ Hd2] Ht].
    apply StronglySorted_inv in Hs as [Hs Hall'].
    split; cbn; rewrite ?Hobj; auto; [congruence| |change (word 8 16 (todo_data t)) with (number (todo_data t)); lia].
    rewrite En, <- Hnum. done.
Qed.

Lemma elsewhere_inv r r' calls started arrived :
  async_inv addr target (mkAsync r calls started arrived) -> elsewhere addr target r r' ->
  async_inv addr target (mkAsync r' calls started arrived).
Proof.
  intros [Ho Hc Hd Hq] [Hl Hn]. split; auto. cbn in *. intros n' Hn'. rewrite Hn' in Hn.
  destruct Hn as [Hn|Hn]; [done|]. cbn in Hn.
  destruct (mNodeForAddress (state r) !! addr) as [n|]; [|done]. cbn in Hn. injection Hn as E1 E2 E3.
  destruct (Hq n eq_refl) as [Hb Hlive Ht Hs Hlt Hall Hturn]. cbn in *.
  split; cbn; rewrite ?E1, ?E2, ?E3; auto.
Qed.
End Steps.

Lemma async_reachable_inv session addr target s :
  async_reachable session addr target s -> async_inv addr target s.
Proof.
  induction 1 as [r n Hn Ea Hl|s s' _ IH Hs].
  - split; cbn; [done|lia|constructor|]. intros n' Hn'. rewrite Hn in Hn'. injection Hn' as <-.
    injection Ea as E1 E2 E3. split; cbn; rewrite ?E2, ?E3; auto; constructor.
  - destruct Hs; eauto using arrive_inv, take_inv, finish_inv, elsewhere_inv.
Qed.

(** C26: asynchronous calls on a binder run in the order in which they were sent,
    one at a time and once each, whatever connections and threads they arrive on.
    In every interleaving of arrivals (with distinct numbers, as the sender's
    [transactAddress] assigns them), ends of calls and other uses of the session:
    the calls started so far are those numbered 0, 1, 2, ... in this order; at most
    one call is running or about to; and when none is, while the session lasts and
    the numbers that have arrived have no gap, every call that arrived has run. *)
Theorem async_calls_in_order (session addr target : Z) (s : async) :
  async_reachable session addr target s ->
  map number (a_started s) = seqZ 0 (zlen (a_started s)) /\
  (length (a_calls s) <= 1)%nat /\
  (a_calls s = [] -> is_Some (mNodeForAddress (state (a_state s)) !! addr) ->
   map number (a_arrived s) ≡ₚ seqZ 0 (zlen (a_arrived s)) ->
   a_started s ≡ₚ a_arrived s).
Proof.
  intros [Ho Hc Hd Hq]%async_reachable_inv. split_and!; [done|done|].
  intros E [n Hn] Hgap. destruct (Hq n Hn) as [_ _ Ht Hs Hlt Hall Hturn]. rewrite E in *. cbn in *.
  destruct (asyncTodo n) as [|t rest] eqn:Et; [by rewrite Hall, app_nil_r|]. exfalso.
  assert (Hin : zlen (a_started s) ∈ map number (a_arrived s)).
  { rewrite Hgap. apply elem_of_seqZ. split; [apply zlen_nonneg|].
    assert (zlen (a_arrived s) = zlen (a_started s ++ map todo_data (t :: rest))) as ->
      by (unfold zlen; by rewrite Hall).
    rewrite zlen_app. cbn. rewrite zlen_cons. pose proof (zlen_nonneg (map todo_data rest)). lia. }
  rewrite Hall, map_app, Ho in Hin. apply elem_of_app in Hin as [Hin|Hin].
  - apply elem_of_seqZ in Hin. lia.
  - rewrite <- (todo_numbers target (t :: rest)) in Hin by done.
    rewrite Forall_forall in Hlt. apply Hlt in Hin. lia.
Qed.

(** Two calls on the binder 7 at address 3: the second overtakes the first. *)
Definition oneway_msg (n : Z) : bytes :=
  transaction_bytes (mkRpcWireTransaction (fromRaw 3) 5 1 n).
Definition serving : RS :=
  mkRS (mkRpcState false 1 {[ 3 := mkBinderNode 7 (Some 7) 1 0 0 [] ]} true [] []) local_seven.
Definition queued_one : RS :=
  after (async_admit 1 3 7 (transaction_of (oneway_msg 1)) (oneway_msg 1)) serving.
Definition ran_zero : RS := after (async_next 1 3 (Some 7)) queued_one.
Definition ran_one : RS := after (async_next 1 3 (Some 7)) ran_zero.
Definition overtaken : async :=
  mkAsync ran_one [] [oneway_msg 0; oneway_msg 1] [oneway_msg 1; oneway_msg 0].

Lemma overtaken_reachable : async_reachable 1 3 7 overtaken.
Proof.
  assert (H : async_reachable 1 3 7 (mkAsync serving [] [] [])).
  { apply (a_start 1 3 7 serving (mkBinderNode 7 (Some 7) 1 0 0 [])); [by vm_compute|done|].
    vm_compute. by eexists. }
  assert (H1 : async_reachable 1 3 7 (mkAsync queued_one [] [] [oneway_msg 1])).
  { eapply a_more; [exact H|]. apply (a_arrive 1 3 7 serving queued_one _ (Queued OK) [] [] []);
      [by intros ?%elem_of_nil|by vm_compute|by vm_compute]. }
  assert (H2 : async_reachable 1 3 7
    (mkAsync queued_one [Running (oneway_msg 0)] [oneway_msg 0] [oneway_msg 1; oneway_msg 0])).
  { eapply a_more; [exact H1|].
    apply (a_arrive 1 3 7 queued_one queued_one _ Granted [] [] [oneway_msg 1]);
      [|by vm_compute|by vm_compute].
    intros [E|[]%elem_of_nil]%elem_of_cons. by vm_compute in E. }
  assert (H3 : async_reachable 1 3 7
    (mkAsync ran_zero [Taken (oneway_msg 1)] [oneway_msg 0] [oneway_msg 1; oneway_msg 0])).
  { eapply a_more; [exact H2|].
    by apply (a_finish 1 3 7 queued_one ran_zero _ (Next (oneway_msg 1)) [] []); vm_compute. }
  assert (H4 : async_reachable 1 3 7
    (mkAsync ran_zero [Running (oneway_msg 1)] [oneway_msg 0; oneway_msg 1] [oneway_msg 1; oneway_msg 0])).
  { eapply a_more; [exact H3|].
    by apply (a_take 1 3 7 ran_zero ran_zero _ Granted [] [] [oneway_msg 0]); vm_compute. }
  eapply a_more; [exact H4|].
  by apply (a_finish 1 3 7 ran_zero ran_one _ (Stop OK) [] []); vm_compute.
Qed.

Lemma async_calls_in_order_witness :
  map number (a_started overtaken) = [0; 1] /\ a_started overtaken ≡ₚ a_arrived overtaken.
Proof.
  destruct (async_calls_in_order 1 3 7 overtaken overtaken_reachable) as (H1 & _ & H3).
  split; [exact H1|]. apply H3; [done|vm_compute; by eexists|].
  change (map number (a_arrived overtaken)) with [1; 0]. apply Permutation_swap.
Defined.
