(* ===== verification/RpcSafeProps.v ===== *)
(** Serving an arbitrary peer: whatever bytes arrive on a connection, the commands
    of RpcState.cpp have no undefined behaviour and their loops end. *)

From S2P Require Import Prelude Errors ParcelState ParcelWrite ParcelRead ParcelInv ParcelWriteSpec.
From S2P Require Import ParcelDataSpec ParcelReadSpec ParcelData Stability ParcelObject ParcelObjectSpec ParcelIpc.
From S2P Require Import ParcelIpcProps ParcelFrame BinderStatus RpcNodes RpcNodesProps RpcTransact.

(** * The table of a session *)

(** A queued call is a call to the binder it is queued at. *)
Definition todo_wf (addr : Z) (t : AsyncTodo) : Prop :=
  Forall is_byte (todo_data t) /\ zlen (todo_data t) <= kMaxTransactionAllocation /\
  toRaw (tx_address (transaction_of (todo_data t))) = addr.

Record table_ok (st : RpcState) : Prop := {
  tb_todo : map_Forall (fun addr n => Forall (todo_wf addr) (asyncTodo n)) (mNodeForAddress st);
  tb_next : is_u32 (mNextId st);
}.

(** The calls waiting in the queues. *)
Definition queued_in (nodes : gmap Z BinderNode) : nat :=
  map_fold (fun _ n k => (length (asyncTodo n) + k)%nat) 0%nat nodes.
Definition pending (st : RpcState) : nat := queued_in (mNodeForAddress st).

Lemma queued_new addr n nodes : nodes !! addr = None ->
  queued_in (<[addr := n]> nodes) = (length (asyncTodo n) + queued_in nodes)%nat.
Proof. intros H. unfold queued_in. rewrite map_fold_insert_L; [done| |done]. intros. lia. Qed.

Lemma queued_delete addr n nodes : nodes !! addr = Some n ->
  queued_in nodes = (length (asyncTodo n) + queued_in (delete addr nodes))%nat.
Proof. intros H. rewrite <- (queued_new addr) by apply lookup_delete_eq. by rewrite insert_delete_id. Qed.

Lemma queued_update addr n n' nodes : nodes !! addr = Some n ->
  (queued_in (<[addr := n']> nodes) + length (asyncTodo n) =
   queued_in nodes + length (asyncTodo n'))%nat.
Proof.
  intros H. rewrite (queued_delete addr n nodes H), <- (insert_delete_eq nodes addr n'), queued_new
    by apply lookup_delete_eq.
  lia.
Qed.

(** Binders stay, and stay what they are. *)
Definition binders_kept (os os' : gmap Z IBinder) : Prop :=
  forall a o, os !! a = Some o -> exists o', os' !! a = Some o' /\ b_kind o' = b_kind o.

#[export] Instance binders_kept_preorder : PreOrder binders_kept.
Proof.
  split; [intros os a o H; eauto|]. intros o1 o2 o3 H1 H2 a o H.
  destruct (H1 a o H) as (o' & H' & E). destruct (H2 a o' H') as (o'' & H'' & E'). exists o''. split; congruence.
Qed.

(** A step of the session's state that queues at most [k] calls. *)
Record moved (k : nat) (r r' : RS) : Prop := {
  mv_ok : table_ok (state r');
  mv_kept : binders_kept (objects r) (objects r');
  mv_pending : (pending (state r') <= pending (state r) + k)%nat;
}.

Lemma moved_refl r : table_ok (state r) -> moved 0 r r.
Proof. split; [done|reflexivity|lia]. Qed.

Lemma moved_trans k1 k2 r1 r2 r3 : moved k1 r1 r2 -> moved k2 r2 r3 -> moved (k1 + k2) r1 r3.
Proof. intros [? ? ?] [? ? ?]. split; [done|by etransitivity|lia]. Qed.

(** Changing the counts of a node, or its queue. *)
Lemma moved_put k addr n n' r :
  table_ok (state r) -> mNodeForAddress (state r) !! addr = Some n ->
  Forall (todo_wf addr) (asyncTodo n') -> (length (asyncTodo n') <= length (asyncTodo n) + k)%nat ->
  moved k r (mkRS (set_nodes (<[addr := n']> (mNodeForAddress (state r))) (state r)) (objects r)).
Proof.
  intros [Ht Hid] Hn Hw Hl. split; [|reflexivity|]; cbn.
  - split; [|done]. cbn. by apply map_Forall_insert_2.
  - unfold pending. cbn. pose proof (queued_update addr n n' (mNodeForAddress (state r)) Hn). lia.
Qed.

Lemma moved_new addr n r :
  table_ok (state r) -> mNodeForAddress (state r) !! addr = None -> asyncTodo n = [] ->
  moved 0 r (mkRS (set_nodes (<[addr := n]> (mNodeForAddress (state r))) (state r)) (objects r)).
Proof.
  intros [Ht Hid] Hn E. split; [|reflexivity|]; cbn.
  - split; [|done]. cbn. apply map_Forall_insert_2; [by rewrite E|done].
  - unfold pending. cbn. rewrite queued_new by done. rewrite E. cbn. lia.
Qed.

Lemma moved_delete addr n r :
  table_ok (state r) -> mNodeForAddress (state r) !! addr = Some n ->
  moved 0 r (mkRS (set_nodes (delete addr (mNodeForAddress (state r))) (state r)) (objects r)).
Proof.
  intros [Ht Hid] Hn. split; [|reflexivity|]; cbn.
  - split; [|done]. cbn. by apply map_Forall_delete.
  - unfold pending. cbn. rewrite (queued_delete addr n (mNodeForAddress (state r)) Hn). lia.
Qed.

Lemma todo_of addr n r :
  table_ok (state r) -> mNodeForAddress (state r) !! addr = Some n -> Forall (todo_wf addr) (asyncTodo n).
Proof. intros [Ht _] Hn. by apply (Ht addr n). Qed.

Section Table.
Context (transport : nat -> status_t) (connection : status_t) (session : Z).

Lemma shutdown_moved r :
  table_ok (state r) -> wsafe (RpcNodes.shutdown session) r (fun _ r' => moved 0 r r').
Proof.
  intros [Ht Hid]. unfold RpcNodes.shutdown, sendObituaries, clear_state. wp_steps. cbn [state objects].
  destruct (mTerminated _).
  - destruct (negb _); [done|]. wp_step. split; [by split|reflexivity|unfold pending; cbn; lia].
  - wp_steps. destruct (existsb _ _); [done|]. wp_steps.
    split; [|reflexivity|]; cbn; [split; [apply map_Forall_empty|done]|].
    unfold pending, queued_in. cbn. rewrite map_fold_empty. lia.
Qed.

Lemma rpcSend_moved iovs r :
  table_ok (state r) -> wsafe (rpcSend transport session iovs) r (fun _ r' => moved 0 r r').
Proof.
  intros Hr. unfold rpcSend. wp_steps. destruct (_ =? OK).
  - wp_steps. destruct Hr. split; [by split|reflexivity|unfold pending; cbn; lia].
  - wp_step. wp_use shutdown_moved; [done|]. intros ? r' H. by wp_step.
Qed.

Lemma erase_moved addr r n :
  table_ok (state r) -> mNodeForAddress (state r) !! addr = Some n ->
  wsafe (tryEraseNode addr) r (fun _ r' => moved 0 r r').
Proof.
  intros Hr Hn. unfold tryEraseNode. wp_steps. eapply wpg_require; [exact Hn|]. cbn.
  destruct (_ =? 0); [|wp_step; by apply moved_refl]. wp_step. destruct (_ =? 0).
  - wp_step. destruct (negb _); [done|]. wp_steps. by eapply moved_delete.
  - unfold put_node. wp_steps. eapply moved_put; [done|done|exact (todo_of addr n r Hr Hn)|cbn; lia].
Qed.

Lemma dec_target_moved addr target r :
  table_ok (state r) ->
  wsafe (sendDecStrongToTarget transport session addr target) r (fun _ r' => moved 0 r r').
Proof.
  intros Hr. unfold sendDecStrongToTarget. wp_steps. destruct (mTerminated _); [by wp_step; apply moved_refl|].
  destruct (mNodeForAddress (state r) !! addr) as [n|] eqn:Hn; [|done].
  wp_step. destruct (_ <? _); [done|]. wp_steps. destruct (_ =? _); [by wp_step; apply moved_refl|].
  unfold put_node. wp_steps.
  set (n' := n_set_counts (sentRef n) (timesSent n) target n).
  assert (H1 : moved 0 r (mkRS (set_nodes (<[addr := n']> (mNodeForAddress (state r))) (state r)) (objects r))).
  { eapply moved_put; [done|done|exact (todo_of addr n r Hr Hn)|cbn; lia]. }
  wp_use (erase_moved addr _ n'); [apply H1|cbn; apply lookup_insert_eq|]. intros held r2 H2.
  wp_step. destruct held; [done|]. wp_steps. wp_use rpcSend_moved; [apply H2|]. intros st r3 H3.
  exact (moved_trans 0 0 _ _ _ (moved_trans 0 0 _ _ _ H1 H2) H3).
Qed.

Lemma flush_moved addr t o r :
  table_ok (state r) -> objects r !! t = Some o ->
  wsafe (RpcNodes.flushExcessBinderRefs transport connection session addr (Some t)) r
    (fun _ r' => moved 0 r r').
Proof.
  intros Hr Ho. unfold RpcNodes.flushExcessBinderRefs. wp_steps. eapply wpg_require; [exact Ho|].
  destruct (is_remote o); [by wp_step; apply moved_refl|]. wp_steps.
  destruct (mTerminated _); [by wp_step; apply moved_refl|].
  destruct (mNodeForAddress (state r) !! addr) as [n|] eqn:Hn; [|done].
  wp_step. destruct (negb _); [done|]. wp_steps. destruct (_ <=? _); [done|]. wp_steps.
  destruct (_ =? 0); [by wp_step; apply moved_refl|]. unfold session_sendDecStrongToTarget.
  destruct (_ =? OK); [by apply dec_target_moved|by wp_step; apply moved_refl].
Qed.

Lemma process_dec_moved cmd body r :
  table_ok (state r) -> wsafe (processDecStrong session cmd body) r (fun _ r' => moved 0 r r').
Proof.
  intros Hr. unfold processDecStrong. wp_step. destruct (negb _); [done|]. wp_steps.
  destruct (negb _); [by wp_step; apply moved_refl|]. destruct (negb _).
  { wp_step. wp_use shutdown_moved; [done|]. intros ? r' H. by wp_step. }
  cbv zeta. wp_steps. set (addr := toRaw _).
  destruct (mNodeForAddress (state r) !! addr) as [n|] eqn:Hn; [|by wp_step; apply moved_refl].
  unfold promote. wp_steps. destruct (objects r !! binder n).
  2: { wp_step. wp_use shutdown_moved; [done|]. intros ? r' H. by wp_step. }
  destruct (_ <? _); [by wp_step; apply moved_refl|]. wp_step. destruct (sentRef n) eqn:Es; [|done].
  unfold put_node. wp_steps. set (n' := n_set_counts _ _ _ n).
  assert (H1 : moved 0 r (mkRS (set_nodes (<[addr := n']> (mNodeForAddress (state r))) (state r)) (objects r))).
  { eapply moved_put; [done|done|exact (todo_of addr n r Hr Hn)|cbn; lia]. }
  wp_use (erase_moved addr _ n'); [apply H1|cbn; apply lookup_insert_eq|]. intros held r2 H2.
  wp_step. exact (moved_trans 0 0 _ _ _ H1 H2).
Qed.

(** A binder that enters is there, and so is its node. *)
Lemma entering_moved addr r :
  table_ok (state r) ->
  wsafe (RpcNodes.onBinderEntering session addr) r (fun v r' => moved 0 r r' /\
    v <> Err OK /\
    (forall t, v = Good (Some t) -> is_Some (objects r' !! t) /\
       is_Some (mNodeForAddress (state r') !! addr))).
Proof.
  intros Hr. unfold RpcNodes.onBinderEntering. cbv zeta.
  destruct (negb _); [by wp_step; split; [apply moved_refl|]|]. wp_steps.
  destruct (mTerminated _); [by wp_step; split; [apply moved_refl|]|].
  destruct (mNodeForAddress (state r) !! addr) as [n|] eqn:Hn.
  - unfold promote, put_node. wp_steps. split_and!; [|done|].
    + eapply moved_put; [done|done|exact (todo_of addr n r Hr Hn)|cbn; lia].
    + intros t [= Ht]. cbn. rewrite lookup_insert_eq. split; [|done].
      destruct (objects r !! binder n) eqn:Eb; [|done]. injection Ht as <-. by rewrite Eb.
  - destruct (_ =? _); [by wp_step; split; [apply moved_refl|]|].
    unfold create_proxy, put_node. wp_steps. cbn [state objects]. set (a := fresh _).
    set (o := mkIBinder _ _ _ _ _ _ _ _). split_and!; [|done|].
    + pose proof (moved_new addr (mkBinderNode a None 0 1 0 []) r Hr Hn eq_refl) as [H1 _ H3].
      split; [done| |done]. intros b ob Hb. exists ob. cbn. split; [|done].
      rewrite lookup_insert_ne; [done|]. intros <-. apply (is_fresh (dom (objects r))).
      by eapply elem_of_dom_2.
    + intros t [= <-]. cbn. by rewrite !lookup_insert_eq.
Qed.

Lemma leaving_moved a o r :
  table_ok (state r) -> objects r !! a = Some o ->
  wsafe (RpcNodes.onBinderLeaving session a) r (fun _ r' => moved 0 r r' /\ objects r' = objects r).
Proof.
  intros Hr Ho. unfold RpcNodes.onBinderLeaving. wp_steps. eapply wpg_require; [exact Ho|]. cbv zeta.
  destruct (match rpc_handle o with Some _ => _ | None => _ end); [by wp_step; split; [apply moved_refl|]|].
  destruct (_ && _); [by wp_step; split; [apply moved_refl|]|]. wp_steps.
  destruct (mTerminated _); [by wp_step; split; [apply moved_refl|]|].
  pose proof (find_node_ok a (mNodeForAddress (state r))) as Hf.
  destruct (find_node a _) as [[addr n]|].
  - wp_step. destruct (match rpc_handle o with Some _ => _ | None => _ end); [done|].
    unfold put_node. wp_steps. destruct Hf as [Hn _]. split; [|done].
    eapply moved_put; [done|done|exact (todo_of addr n r Hr Hn)|cbn; lia].
  - wp_step. destruct (match rpc_handle o with Some _ => _ | None => _ end); [done|]. wp_step.
    zcase (100000 <? Z.of_nat (base.size (mNodeForAddress (state r)))); [by wp_step; split; [apply moved_refl|]|].
    destruct (insert_fresh_returns (S (base.size (mNodeForAddress (state r)))) (server (state r)) a r ∅)
      as (v & r' & Erun); [apply Hr|set_solver|rewrite size_empty; lia|lia|set_solver|].
    unfold wpg. rewrite Erun.
    apply insert_fresh_run in Erun as (addr & -> & _ & Hnone & Ho' & En & Hid' & _); [|apply Hr].
    split; [|done]. split; [|by rewrite Ho'|].
    + split; [|done]. rewrite En. by apply map_Forall_insert_2, Hr.
    + unfold pending. rewrite En, queued_new by done. cbn. lia.
Qed.

Lemma admit_moved addr t data r :
  table_ok (state r) -> is_Some (mNodeForAddress (state r) !! addr) ->
  todo_wf addr (mkAsyncTodo t data (tx_asyncNumber (transaction_of data))) ->
  wsafe (async_admit session addr t (transaction_of data) data) r (fun a r' =>
    match a with Queued _ => moved 1 r r' | _ => moved 0 r r' end).
Proof.
  intros Hr [n Hn] Hd. unfold async_admit. wp_steps. eapply wpg_require; [exact Hn|].
  unfold promote. wp_steps. destruct (negb _); [by wp_step; apply moved_refl|].
  destruct (_ =? _); [by wp_step; apply moved_refl|].
  unfold put_node. wp_steps. set (l := push_todo _ _).
  assert (P : l ≡ₚ mkAsyncTodo t data (tx_asyncNumber (transaction_of data)) :: asyncTodo n).
  { unfold l. clear. induction (asyncTodo n) as [|x l IH]; cbn; [done|]. destruct (_ <? _); [done|].
    rewrite IH. apply Permutation_swap. }
  assert (H1 : moved 1 r (mkRS (set_nodes (<[addr := n_set_todo l n]> (mNodeForAddress (state r))) (state r)) (objects r))).
  { eapply moved_put; [done|done| |].
    - cbn. rewrite P. constructor; [done|by eapply todo_of].
    - cbn. rewrite P. cbn. lia. }
  destruct (_ <=? _); [|by wp_step]. wp_step. wp_use shutdown_moved; [apply H1|].
  intros ? r2 H2. wp_step. exact (moved_trans 1 0 _ _ _ H1 H2).
Qed.

(** The next call of the queue has left it. *)
Lemma next_moved addr target r :
  table_ok (state r) ->
  wsafe (async_next session addr target) r (fun v r' => moved 0 r r' /\
    (forall d, v = Next d -> (pending (state r') + 1 <= pending (state r))%nat /\
       is_Some (mNodeForAddress (state r') !! addr) /\ exists t, target = Some (todo_ref t) /\
       todo_data t = d /\ todo_wf addr t)).
Proof.
  intros Hr. unfold async_next. wp_steps.
  destruct (mNodeForAddress (state r) !! addr) as [n|] eqn:Hn; [|by wp_step; split; [apply moved_refl|]].
  unfold nodeProgressAsyncNumber. destruct (_ <=? _).
  { wp_step. wp_use shutdown_moved; [done|]. intros ? r' H. by wp_step. }
  set (n1 := n_set_async _ n). unfold put_node. wp_steps.
  assert (H1 : moved 0 r (mkRS (set_nodes (<[addr := n1]> (mNodeForAddress (state r))) (state r)) (objects r))).
  { eapply moved_put; [done|done|exact (todo_of addr n r Hr Hn)|cbn; lia]. }
  pose proof (todo_of addr n r Hr Hn) as Hall.
  change (asyncTodo n1) with (asyncTodo n). destruct (asyncTodo n) as [|t rest] eqn:Et; [by wp_step|].
  destruct (_ =? _); [|by wp_step]. wp_step. destruct (negb _) eqn:Ef; [done|]. wp_steps.
  apply negb_false_iff, bool_decide_eq_true in Ef. apply Forall_cons in Hall as [Hw Hrest].
  cbn [state objects set_nodes mNodeForAddress]. rewrite insert_insert_eq.
  split.
  - eapply (moved_put 0 addr n); [done|done|done|cbn; rewrite Et; cbn; lia].
  - intros d [= <-]. split_and!; [|cbn; by rewrite lookup_insert_eq|exists t; auto].
    unfold pending. cbn.
    pose proof (queued_update addr n (n_set_todo rest n1) (mNodeForAddress (state r)) Hn) as Hq.
    rewrite Et in Hq. cbn in Hq. lia.
Qed.
End Table.

(** * Parcels *)

(** Binders change their stability only. *)
Definition same_binders (w w' : World) : Prop :=
  w_rpc w' = w_rpc w /\ binders_kept (w_binders w) (w_binders w').

Lemma kept_same_binders w p' w' :
  kept (fun w => (w_rpc w, w_binders w)) (w_rpc w, w_binders w) (mkPS p' w') -> same_binders w w'.
Proof. intros [= E1 E2]. unfold same_binders. rewrite E1, E2. by split. Qed.

Lemma set_session_wf x p : wf p -> wf (set_mSession x p).
Proof. intros []. by split. Qed.

Lemma markForRpc_ok F p w x (Q : unit -> PS -> Prop) :
  (mData p = None \/ mOwner p <> None) -> Q tt (mkPS (set_mSession (Some x) p) w) ->
  wpg F (markForRpc (Some x)) (mkPS p w) Q.
Proof.
  intros Hd HQ. unfold markForRpc. wp_steps. cbn [this].
  assert ((has_data p && match mOwner p with None => true | Some _ => false end)%bool = false) as ->.
  { unfold has_data. destruct Hd as [->|Ho]; [done|]. destruct (mOwner p), (mData p); done. }
  wp_steps. exact HQ.
Qed.

Lemma initState_ok F p w (Q : unit -> PS -> Prop) :
  (forall w', same_binders w w' -> Q tt (mkPS init_parcel w')) -> wpg F initState (mkPS p w) Q.
Proof.
  intros HQ. unfold initState. wp_steps. destruct (_ =? 0); wp_step; apply HQ; by split.
Qed.

Lemma free_ok F p w : wf p -> wpg F freeDataNoInit (mkPS p w) (fun _ s' => same_binders w (world s')).
Proof.
  intros Hp. pose proof (freeData_ok F (mkPS p w) Hp) as Hf. unfold freeData in Hf.
  apply wpg_bind_inv in Hf. eapply wpg_mono.
  - eapply (wpg_pres F (kept (fun w => (w_rpc w, w_binders w)) (w_rpc w, w_binders w))); [|done|exact Hf].
    auto with pres.
  - intros [] [p' w'] [_ Hk]. by eapply kept_same_binders.
Qed.

(** A parcel over received bytes. *)
Lemma reference_ok F p w d rel x :
  wf p -> Forall is_byte d -> zlen d <= INT32_MAX ->
  wpg F (ipcSetDataReference (Some d) (zlen d) [] rel ;; markForRpc (Some x)) (mkPS p w)
    (fun _ s' => wf (this s') /\ contents (this s') = d /\ mDataPos (this s') = 0 /\
       mSession (this s') = Some x /\ objs (this s') = [] /\ same_binders w (world s')).
Proof.
  intros Hp Hd Hz. wp_step. eapply wpg_mono.
  - eapply (wpg_pres F (kept (fun w => (w_rpc w, w_binders w)) (w_rpc w, w_binders w)));
      [auto with pres|done|]. by apply (ipcSetDataReference_ok F (mkPS p w) d [] rel).
  - intros [] [p' w'] [(H1 & H2 & H3 & H4 & _ & H5) Hk]. cbn [this world] in *.
    apply markForRpc_ok; [right; by rewrite H4|]. cbn.
    split_and!; [by apply set_session_wf|done|done|done|by destruct H5 as [?|[? _]]|].
    by eapply kept_same_binders.
Qed.

Lemma balanced_same s s' : balanced s s' -> same_binders (world s) (world s').
Proof. intros [[] _]. unfold same_binders. rewrite wf_rpc, wf_binders. by split. Qed.

(** A write that returns leaves a sound parcel. *)
Lemma data_post_wf s bs st s' : wf (this s) -> data_post s bs st s' -> wf (this s') /\ same_binders (world s) (world s') /\
  mDataSize (this s') <= mDataSize (this s) + zlen bs.
Proof.
  intros Hwf [Hb H]. split; [|split; [by apply balanced_same|]].
  - destruct H as [[_ H]|H]; [apply (wr_wf _ _ _ H)|apply (fl_wf _ _ _ H)].
  - destruct H as [[_ H]|H]; [|apply (fl_size _ _ _ H)].
    pose proof (wrote_size _ _ _ Hwf H). pose proof (wf_pos _ Hwf). pose proof (zlen_nonneg bs). lia.
Qed.

(** What a parcel of the session may do to it. *)
Definition world_moved (session : Z) (w w' : World) : Prop :=
  binders_kept (w_binders w) (w_binders w') /\
  (forall st, w_rpc w !! session = Some st -> table_ok st -> exists st',
     w_rpc w' !! session = Some st' /\ table_ok st' /\ (pending st' <= pending st)%nat).

#[export] Instance world_moved_preorder session : PreOrder (world_moved session).
Proof.
  split; [intros w; split; [reflexivity|intros st; exists st; auto]|].
  intros w1 w2 w3 [K1 H1] [K2 H2]. split; [by etransitivity|]. intros st Hs Ht.
  destruct (H1 st Hs Ht) as (st2 & Hs2 & Ht2 & Hp2). destruct (H2 st2 Hs2 Ht2) as (st3 & Hs3 & Ht3 & Hp3).
  exists st3. split_and!; [done|done|lia].
Qed.

Lemma same_moved session w w' : same_binders w w' -> world_moved session w w'.
Proof. intros [E H]. split; [done|]. intros st. rewrite E. eauto. Qed.

Lemma alter_kept f a os : (forall o, b_kind (f o) = b_kind o) -> binders_kept os (alter f a os).
Proof.
  intros Hf b o Hb. destruct (decide (a = b)) as [->|].
  - exists (f o). by rewrite lookup_alter_eq, Hb.
  - exists o. by rewrite lookup_alter_ne.
Qed.

Lemma moved_binders session w os :
  binders_kept (w_binders w) os -> world_moved session w (set_w_binders os w).
Proof. intros Hk. split; [done|]. cbn. eauto. Qed.

Lemma small_fits p n : mDataSize p + n <= 1000 -> fits p n.
Proof. intros H. unfold fits. apply Z.div_le_upper_bound; lia. Qed.

Lemma finishFlatten_ok session p w a :
  wf p -> fits p 4 -> is_Some (w_binders w !! a) ->
  wsafe (finishFlattenBinder (Some a)) (mkPS p w) (fun _ s' => wf (this s') /\ world_moved session w (world s')).
Proof.
  intros Hp Hf [o Ho]. unfold finishFlattenBinder, tryMarkCompilationUnit. do 2 wp_step.
  eapply wpg_mono with (P := fun _ s1 => this s1 = p /\ is_Some (w_binders (world s1) !! a) /\
    world_moved session w (world s1)).
  { wp_use setRepr_ok; [exact Ho|]. intros st [p1 w1]. cbn [this world].
    destruct (set_level _ _ _) as [l|]; cbn [this world].
    - intros (_ & -> & ->). split_and!; [done|cbn; by rewrite lookup_insert_eq|]. apply moved_binders.
      intros b ob Hb. destruct (decide (a = b)) as [<-|].
      + rewrite lookup_insert_eq. eexists. split; [done|]. by simplify_eq.
      + rewrite lookup_insert_ne by done. eauto.
    - intros [_ [= -> ->]]. split_and!; [done|by rewrite Ho|reflexivity]. }
  intros st [p1 w1] (Ep & [o1 Ho1] & Hw). cbn [this world] in *. subst p1. unfold getRepr. wp_steps.
  eapply wpg_require; [exact Ho1|]. wp_steps.
  eapply wpg_mono; [apply (writeInt32_ok _ (mkPS p w1)); done|].
  intros st2 s2 H2%write_data_post. destruct (data_post_wf (mkPS p w1) _ _ _ Hp H2) as (H3 & H4 & _).
  split; [done|]. etransitivity; [exact Hw|]. by apply same_moved.
Qed.

Lemma leaving_ok transport connection session a p w st Q :
  w_rpc w !! session = Some st -> table_ok st -> is_Some (w_binders w !! a) ->
  (forall v w', world_moved session w w' -> is_Some (w_binders w' !! a) -> Q v (mkPS p w')) ->
  wsafe (ParcelObject.onBinderLeaving (RpcBinders := rpc_nodes transport connection) session a) (mkPS p w) Q.
Proof.
  intros Hs Ht [o Ho] HQ. cbn [ParcelObject.onBinderLeaving rpc_nodes]. unfold wpg, on_session. cbn [world this].
  rewrite Hs. pose proof (leaving_moved session a o (mkRS st (w_binders w)) Ht Ho) as Hl. unfold wpg in Hl.
  destruct (RpcNodes.onBinderLeaving _ _ _) as [v r| |]; [|done..].
  destruct Hl as [[H1 H2 H3] H4]. cbn in *. apply HQ; cbn; [|by rewrite H4, Ho].
  split; cbn; [done|]. intros st0 Hs0 _. simplify_eq. exists (state r). rewrite lookup_insert_eq.
  split_and!; [done|done|lia].
Qed.

(** A binder written into an empty parcel of the session. *)
Lemma rpc_binder_ok transport connection session p w st (b : option Z) :
  wf p -> mDataSize p <= 64 -> mSession p = Some session ->
  w_rpc w !! session = Some st -> table_ok st -> (forall a, b = Some a -> is_Some (w_binders w !! a)) ->
  wsafe (writeStrongBinder (H := rpc_nodes transport connection) b) (mkPS p w)
    (fun _ s' => wf (this s') /\ world_moved session w (world s')).
Proof.
  intros Hp Hz Hm Hs Ht Hb. unfold writeStrongBinder, flattenBinder. wp_step.
  eapply wpg_mono with (P := fun _ s1 => this s1 = p /\ world_moved session w (world s1)).
  { destruct b as [a|]; [|by wp_step]. destruct (Hb a eq_refl) as [o Ho]. unfold find_binder. wp_steps.
    cbn [world]. eapply wpg_require; [exact Ho|]. destruct (is_local o); [|by wp_step].
    unfold mark_parceled. wp_step. split; [done|]. by apply moved_binders, alter_kept. }
  intros [] [p1 w1] [Ep Hw]. cbn [this world] in *. subst p1. wp_steps. cbn [this]. rewrite Hm.
  destruct b as [a|].
  - destruct (Hb a eq_refl) as [o Ho]. destruct (proj1 Hw a o Ho) as (o1 & Ho1 & _).
    unfold check_ok. wp_step. wp_step. eapply wpg_mono.
    { apply (writeInt32_ok _ (mkPS p w1)); [done|]. by apply small_fits; cbn; lia. }
    intros st1 s1 H1%write_data_post. destruct (data_post_wf (mkPS p w1) _ _ _ Hp H1) as (Hp1 & Hw1 & Hz1).
    destruct s1 as [p1 w2]. cbn [this world] in *. rewrite zlen_le_bytes in Hz1.
    assert (Hm1 : world_moved session w w2) by (etransitivity; [exact Hw|by apply same_moved]).
    destruct (st1 =? OK) eqn:E1; [|wp_step; rewrite E1; by wp_step].
    destruct (proj2 Hm1 st Hs Ht) as (st2 & Hs2 & Ht2 & _). destruct (proj1 Hm1 a o Ho) as (o2 & Ho2 & _).
    wp_step. eapply leaving_ok; [exact Hs2|done|by rewrite Ho2|]. intros v w3 Hw3 Ho3.
    assert (Hm3 : world_moved session w w3) by (by etransitivity).
    destruct v as [addr|e]; [|wp_step; destruct (e =? OK); [|by wp_step]].
    + eapply wpg_mono.
      { apply (writeAligned_ok _ (mkPS p1 w3) 8 addr); [done|]. by apply small_fits; cbn; lia. }
      intros st3 s3 H3%write_data_post. destruct (data_post_wf (mkPS p1 w3) _ _ _ Hp1 H3) as (Hp3 & Hw4 & Hz3).
      destruct s3 as [p3 w4]. cbn [this world] in *. rewrite zlen_le_bytes in Hz3.
      assert (Hm4 : world_moved session w w4) by (etransitivity; [exact Hm3|by apply same_moved]).
      destruct (st3 =? OK); [|by wp_step].
      destruct (proj1 Hm4 a o Ho) as (o4 & Ho4 & _).
      eapply wpg_mono; [apply (finishFlatten_ok session); [done|apply small_fits; lia|by rewrite Ho4]|].
      intros ? s5 [H5 H6]. split; [done|by etransitivity].
    + eapply wpg_mono; [apply (finishFlatten_ok session); [done|apply small_fits; lia|done]|].
      intros ? s5 [H5 H6]. split; [done|by etransitivity].
  - unfold check_ok. wp_step. eapply wpg_mono.
    { apply (writeInt32_ok _ (mkPS p w1)); [done|]. by apply small_fits; cbn; lia. }
    intros st1 s1 H1%write_data_post. destruct (data_post_wf (mkPS p w1) _ _ _ Hp H1) as (Hp1 & Hw1 & Hz1).
    destruct s1 as [p1 w2]. cbn [this world] in *. rewrite zlen_le_bytes in Hz1.
    assert (Hm1 : world_moved session w w2) by (etransitivity; [exact Hw|by apply same_moved]).
    destruct (st1 =? OK); [|by wp_step].
    unfold finishFlattenBinder, tryMarkCompilationUnit, setRepr, getRepr. wp_steps.
    eapply wpg_mono with (P := fun _ s1 => s1 = mkPS p1 w2); [destruct (_ =? _); by wp_step|].
    intros ? ? ->. wp_steps. eapply wpg_mono.
    { apply (writeInt32_ok _ (mkPS p1 w2)); [done|]. by apply small_fits; cbn; lia. }
    intros st3 s3 H3%write_data_post. destruct (data_post_wf (mkPS p1 w2) _ _ _ Hp1 H3) as (Hp3 & Hw4 & _).
    split; [done|]. etransitivity; [exact Hm1|by apply same_moved].
Qed.

(** * A connection *)

Section Serving.
Context {E : Type} `{T : RpcTransport E} `{O : RpcTargets E}.
Context (connection : status_t) (session : Z) (info : SessionInfo) (frame : Z).
Implicit Types c : CS E.

Definition root_object : option Z :=
  match mSessionSpecificRootObject info with Some b => Some b | None => default None (info_server info) end.

Definition rpc_of c : RpcState :=
  default (mkRpcState true 0 ∅ false [] []) (w_rpc (c_world c) !! session).

(** What holds between two commands. *)
Record conn_ok c : Prop := {
  cn_state : w_rpc (c_world c) !! session = Some (rpc_of c);
  cn_table : table_ok (rpc_of c);
  cn_bytes : Forall is_byte (incoming c);
  cn_root : forall a, root_object = Some a -> is_Some (w_binders (c_world c) !! a);
}.

(** The bytes still to come and the calls still queued: what is left to do. *)
Definition weight c : nat := (length (incoming c) + pending (rpc_of c))%nat.

(** A step of the thread: it keeps the connection sound and leaves at most [k]
    more to do. *)
Record steps (k : nat) c c' : Prop := {
  sp_ok : conn_ok c';
  sp_kept : binders_kept (w_binders (c_world c)) (w_binders (c_world c'));
  sp_weight : (weight c' <= weight c + k)%nat;
}.

Lemma steps_refl c : conn_ok c -> steps 0 c c.
Proof. intros H. split; [done|reflexivity|lia]. Qed.

Lemma steps_trans k1 k2 c1 c2 c3 : steps k1 c1 c2 -> steps k2 c2 c3 -> steps (k1 + k2) c1 c3.
Proof. intros [? ? ?] [? ? ?]. split; [done|by etransitivity|lia]. Qed.

Lemma steps_0 c1 c2 c3 : steps 0 c1 c2 -> steps 0 c2 c3 -> steps 0 c1 c3.
Proof. apply (steps_trans 0 0). Qed.

(** Fields that no step depends on. *)
Lemma steps_same c c' :
  conn_ok c -> c_world c' = c_world c -> incoming c' = incoming c -> steps 0 c c'.
Proof.
  intros [H1 H2 H3 H4] Ew Ei. assert (Er : rpc_of c' = rpc_of c) by (unfold rpc_of; by rewrite Ew).
  split; [split; rewrite ?Er, ?Ew, ?Ei; done|by rewrite Ew|]. unfold weight. rewrite Ei, Er. lia.
Qed.

Lemma steps_world c w : conn_ok c -> same_binders (c_world c) w -> steps 0 c (set_c_world w c).
Proof.
  intros [H1 H2 H3 H4] [Er Hk]. assert (Es : rpc_of (set_c_world w c) = rpc_of c).
  { unfold rpc_of. cbn. by rewrite Er. }
  split; [split|done|]; rewrite ?Es; cbn; rewrite ?Er; auto.
  - intros a Ha. destruct (H4 a Ha) as [o Ho]. destruct (Hk a o Ho) as (o' & -> & _). done.
  - unfold weight. rewrite Es. cbn. lia.
Qed.

Definition put_state (r : RS) c : CS E :=
  set_c_world (set_w_binders (objects r) (set_w_rpc (<[session := state r]> (w_rpc (c_world c))) (c_world c))) c.
Definition state_of c : RS := mkRS (rpc_of c) (w_binders (c_world c)).

Lemma steps_state k c r : conn_ok c -> moved k (state_of c) r -> steps k c (put_state r c) /\ rpc_of (put_state r c) = state r.
Proof.
  intros [H1 H2 H3 H4] [M1 M2 M3]. assert (Es : rpc_of (put_state r c) = state r).
  { unfold rpc_of. cbn. by rewrite lookup_insert_eq. }
  split; [|done]. split; [split|done|]; rewrite ?Es; cbn; rewrite ?lookup_insert_eq; auto.
  - intros a Ha. destruct (H4 a Ha) as [o Ho]. destruct (M2 a o Ho) as (o' & -> & _). done.
  - unfold weight. rewrite Es. cbn in *. lia.
Qed.

(** An operation on the session's state. *)
Lemma on_state_ok {A} F k (m : M RS A) c (P : A -> RS -> Prop) (Q : A -> CS E -> Prop) :
  conn_ok c -> wpg F m (state_of c) (fun a r => moved k (state_of c) r /\ P a r) ->
  (forall a r, P a r -> steps k c (put_state r c) -> rpc_of (put_state r c) = state r -> Q a (put_state r c)) ->
  wpg F (on_state session m) c Q.
Proof.
  intros Hc Hm HQ. unfold on_state. apply wpg_zoom. unfold wpg, on_session. cbn [world].
  rewrite (cn_state c Hc). unfold wpg, state_of in Hm.
  destruct (m (mkRS (rpc_of c) (w_binders (c_world c)))) as [a r| |]; [|done..].
  destruct Hm as [Hm HP]. destruct (steps_state k c r Hc Hm) as [H1 H2]. cbn. by apply HQ.
Qed.

(** A read of the session's state. *)
Lemma gets_state_ok {A} F (f : RS -> A) c (Q : A -> CS E -> Prop) :
  conn_ok c -> (forall c', steps 0 c c' -> rpc_of c' = rpc_of c -> w_binders (c_world c') = w_binders (c_world c) ->
    incoming c' = incoming c -> Q (f (state_of c)) c') ->
  wpg F (on_state session (gets f)) c Q.
Proof.
  intros Hc HQ. eapply (on_state_ok F 0 _ _ (fun a r => a = f (state_of c) /\ r = state_of c)); [done| |].
  - wp_step. split; [by apply moved_refl, Hc|done].
  - intros a r [-> ->] Hs Hr. by apply HQ.
Qed.

(** A method of a parcel. *)
Lemma with_parcel_ok {A} F p (m : M PS A) c (P : A -> Parcel -> Prop) (Q : A * Parcel -> CS E -> Prop) :
  conn_ok c ->
  wpg F m (mkPS p (c_world c)) (fun a s => P a (this s) /\ same_binders (c_world c) (world s)) ->
  (forall a p' c', P a p' -> steps 0 c c' -> rpc_of c' = rpc_of c -> incoming c' = incoming c -> Q (a, p') c') ->
  wpg F (with_parcel p m) c Q.
Proof.
  intros Hc Hm HQ. unfold with_parcel. apply wpg_zoom. wp_step. eapply wpg_mono; [exact Hm|].
  intros a [p' w'] [HP Hw]. cbn [this world] in *. wp_steps. cbn [this world].
  apply HQ; [done|by apply steps_world| |done]. unfold rpc_of. cbn. by rewrite (proj1 Hw).
Qed.

Lemma rpc_parcel_ok F c (Q : Parcel -> CS E -> Prop) :
  conn_ok c ->
  (forall c', steps 0 c c' -> rpc_of c' = rpc_of c -> incoming c' = incoming c ->
     Q (set_mSession (Some session) init_parcel) c') ->
  wpg F (rpc_parcel session) c Q.
Proof.
  intros Hc HQ. unfold rpc_parcel. wp_step.
  eapply (with_parcel_ok F _ _ _ (fun _ p => p = set_mSession (Some session) init_parcel)); [done| |].
  - wp_step. apply initState_ok. intros w Hw. apply markForRpc_ok; [by left|done].
  - intros a p' c' -> Hs Hr Hi. wp_step. by apply HQ.
Qed.

Lemma drop_parcel_ok F p c (Q : unit -> CS E -> Prop) :
  conn_ok c -> wf p ->
  (forall c', steps 0 c c' -> rpc_of c' = rpc_of c -> incoming c' = incoming c -> Q tt c') ->
  wpg F (drop_parcel p) c Q.
Proof.
  intros Hc Hp HQ. unfold drop_parcel. wp_step.
  eapply (with_parcel_ok F _ _ _ (fun _ _ => True)); [done| |].
  - eapply wpg_mono; [by apply free_ok|]. done.
  - intros a p' c' _ Hs Hr Hi. wp_step. by apply HQ.
Qed.

Lemma shutdown_steps c :
  conn_ok c -> wsafe (shutdownAndWait session) c (fun _ c' => steps 0 c c' /\ incoming c' = incoming c).
Proof.
  intros Hc. unfold shutdownAndWait. eapply (on_state_ok True 0 _ _ (fun _ _ => True)); [done| |done].
  eapply wpg_mono; [by apply shutdown_moved, Hc|]. done.
Qed.

Lemma send_steps iovs c :
  conn_ok c -> wsafe (send session iovs) c (fun _ c' => steps 0 c c' /\ incoming c' = incoming c).
Proof.
  intros Hc. unfold send. eapply (on_state_ok True 0 _ _ (fun _ _ => True)); [done| |done].
  eapply wpg_mono; [by apply rpcSend_moved, Hc|]. done.
Qed.

(** A method of a parcel that may use the session. *)
Lemma with_parcel_moves {A} F p (m : M PS A) c (P : A -> Parcel -> Prop) (Q : A * Parcel -> CS E -> Prop) :
  conn_ok c ->
  wpg F m (mkPS p (c_world c)) (fun a s => P a (this s) /\ world_moved session (c_world c) (world s)) ->
  (forall a p' c', P a p' -> steps 0 c c' -> incoming c' = incoming c -> Q (a, p') c') ->
  wpg F (with_parcel p m) c Q.
Proof.
  intros Hc Hm HQ. unfold with_parcel. apply wpg_zoom. wp_step. eapply wpg_mono; [exact Hm|].
  intros a [p' w'] [HP [Hk Hw]]. cbn [this world] in *. wp_steps. cbn [this world].
  pose proof Hc as [H1 H2 H3 H4]. destruct (Hw _ H1 H2) as (st' & Hs' & Ht' & Hp').
  assert (Es : rpc_of (set_c_world w' c) = st') by (unfold rpc_of; cbn; by rewrite Hs').
  apply HQ; [done| |done]. split; [split|done|]; rewrite ?Es; cbn; auto.
  - intros b Hb. destruct (H4 b Hb) as [o Ho]. destruct (Hk b o Ho) as (o' & -> & _). done.
  - unfold weight. rewrite Es. cbn. lia.
Qed.

(** What the program sets the session up with. *)
Record info_ok : Prop := {
  in_id : Forall is_byte (mId info);
  in_id_size : zlen (mId info) <= 900;
}.

(** The reply parcel of a call, before anything is written to it. *)
Local Abbreviation new_reply := (set_mSession (Some session) init_parcel).

Lemma new_reply_wf : wf new_reply.
Proof. apply set_session_wf, init_parcel_wf. Qed.

Lemma special_ok code c :
  info_ok -> conn_ok c ->
  wsafe (special_transact (T := T) connection info code) (mkPS new_reply (c_world c))
    (fun _ s => wf (this s) /\ world_moved session (c_world c) (world s)).
Proof.
  intros [Hid Hsz] Hc. pose proof new_reply_wf as Hwf. unfold special_transact.
  destruct (code =? _).
  { eapply wpg_mono; [apply (writeInt32_ok _ (mkPS new_reply (c_world c))); [done|by apply small_fits]|].
    intros st s' H%write_data_post. destruct (data_post_wf (mkPS new_reply (c_world c)) _ _ _ Hwf H) as (H1 & H2 & _).
    split; [done|by apply same_moved]. }
  destruct (code =? _).
  { assert (Hl : zlen (encode (K := Empty_set) (TVector (TPrim Uint8)) (mId info)) <= 1000).
    { rewrite encode_vector. unfold elements. cbn [is_widened is_pointer_equivalent_array_v is_pointer_equivalent_prim].
      rewrite zlen_app, zlen_le_bytes, zlen_padded, zlen_array_bytes. cbn [sizeof]. rewrite zlen_map.
      change (4 + padz (1 * zlen (mId info)) <= 1000). pose proof (padz_bounds (1 * zlen (mId info))). lia. }
    eapply wpg_mono.
    { apply (writeData_ok (K := Empty_set) True (TVector (TPrim Uint8)) (mId info) (mkPS new_reply (c_world c)));
        [done|done|done|apply small_fits; cbn in *; lia]. }
    intros st s' H. destruct (data_post_wf (mkPS new_reply (c_world c)) _ _ _ Hwf H) as (H1 & H2 & _).
    split; [done|by apply same_moved]. }
  destruct (info_server info) as [root|] eqn:Er; [|wp_step; by split].
  destruct (code =? _); [|wp_step; by split].
  eapply rpc_binder_ok; [done|done|done|apply Hc|apply Hc|].
  intros a Ha. apply (cn_root c Hc). unfold root_object. rewrite Er. done.
Qed.

(** * Reading *)

(** A failed read is reported. *)
Context (Hread : forall e : E, read_error e <> OK).

Lemma rpcRec_ok n c (Q : res bytes -> CS E -> Prop) :
  conn_ok c -> 0 <= n ->
  (forall bs c', zlen bs = n -> Forall is_byte bs -> steps 0 c c' ->
     (weight c' + Z.to_nat n <= weight c)%nat -> Q (Good bs) c') ->
  (forall st c', st <> OK -> steps 0 c c' -> Q (Err st) c') ->
  wsafe (rpcRec session n) c Q.
Proof.
  intros Hc Hn HG HE. unfold rpcRec. wp_step. apply gets_state_ok; [done|].
  intros c1 S1 R1 B1 I1. cbn [state state_of]. destruct (mTerminated _).
  { wp_step. eapply wpg_mono; [apply shutdown_steps, S1|]. intros [] c2 [S2 _]. wp_step.
    apply HE; [done|by eapply steps_0]. }
  zcase (n =? 0). { wp_step. apply HG; [done|constructor|done|]. subst n. destruct S1. lia. }
  wp_steps. zcase (n <=? zlen (incoming c1)).
  - wp_steps. apply HG; [apply zlen_ztake; lia|apply Forall_ztake, S1| |].
    + split; [|apply S1|].
      * destruct (sp_ok _ _ _ S1) as [H1 H2 H3 H4]. split; cbn; auto. by apply Forall_zdrop.
      * pose proof (sp_weight _ _ _ S1). unfold weight in *. cbn.
        change (rpc_of (set_incoming (zdrop n (incoming c1)) c1)) with (rpc_of c1).
        unfold zdrop. rewrite length_drop. lia.
    + pose proof (sp_weight _ _ _ S1). unfold weight in *. cbn.
      change (rpc_of (set_incoming (zdrop n (incoming c1)) c1)) with (rpc_of c1).
      unfold zdrop. rewrite length_drop. unfold zlen in *. lia.
  - wp_steps. set (c2 := set_incoming [] c1).
    assert (S2 : steps 0 c1 c2).
    { destruct (sp_ok _ _ _ S1) as [H1 H2 H3 H4]. split; [by split|reflexivity|].
      unfold weight. change (rpc_of c2) with (rpc_of c1). cbn. lia. }
    eapply wpg_mono; [apply shutdown_steps, S2|]. intros [] c3 [S3 _]. wp_step.
    apply HE; [apply Hread|]. eapply steps_0; [exact S1|by eapply steps_0].
Qed.

(** * Serving a call *)

(** Compose the steps taken so far. *)
Local Ltac chain := lazymatch goal with |- steps 0 ?a _ => first [assumption
  | match goal with S : steps 0 a _ |- _ => apply (steps_0 _ _ _ S); clear S; chain end] end.

(** The objects of the process, when called over the connection: they return, with
    sound parcels, and leave no more to do than there was (a call they make in turn
    reads from the connection). *)
Class SafeTargets : Prop := {
  target_safe t code d reply flags c o :
    conn_ok c -> w_binders (c_world c) !! t = Some o -> is_local o = true -> wf d -> wf reply ->
    wsafe (target_transact t code d reply flags) c (fun r c' =>
      steps 0 c c' /\ wf (snd (fst r)) /\ wf (snd r));
}.
Context `{Safe : SafeTargets} (Hinfo : info_ok).

Definition lives c (t : Z) (o : IBinder) : Prop := w_binders (c_world c) !! t = Some o.

Lemma lives_kept k c c' t o : steps k c c' -> lives c t o -> exists o', lives c' t o' /\ is_local o' = is_local o.
Proof.
  intros S H. destruct (sp_kept _ _ _ S t o H) as (o' & H' & Ek). exists o'. split; [done|].
  unfold is_local. by rewrite Ek.
Qed.

Lemma serve_ok tx oneway target body c (Q : status_t * Parcel -> CS E -> Prop) :
  conn_ok c -> Forall is_byte body -> zlen body <= INT32_MAX ->
  (forall t, target = Some t -> exists o, lives c t o /\ is_local o = true) ->
  (forall st reply c', wf reply -> steps 0 c c' -> Q (st, reply) c') ->
  wsafe (serve connection session info tx oneway target body new_reply) c Q.
Proof.
  intros Hc Hb Hz Ht HQ. unfold serve. wp_step.
  eapply (with_parcel_ok True _ _ _ (fun _ p => wf p)); [done| |].
  { wp_step. apply initState_ok. intros w Hw.
    eapply wpg_mono; [apply (reference_ok True init_parcel w body do_nothing_to_transact_data session);
      [apply init_parcel_wf|done|done]|].
    intros [] s' (H1 & _ & _ & _ & _ & H2). split; [done|]. destruct Hw as [E1 K1], H2 as [E2 K2].
    split; [congruence|by etransitivity]. }
  intros [] d c1 Hd S1 R1 I1. cbn [snd]. destruct target as [t|].
  - destruct (Ht t eq_refl) as (o & Ho & Hl). destruct (lives_kept _ _ _ _ _ S1 Ho) as (o1 & Ho1 & El).
    wp_steps. set (c2 := set_allowNested (negb oneway) c1).
    assert (S2 : steps 0 c1 c2) by (apply steps_same; [apply S1|done|done]).
    eapply wpg_mono; [eapply target_safe; [apply S2|exact Ho1|by rewrite El|done|apply new_reply_wf]|].
    intros [[st d'] reply] c3 (S3 & Hd' & Hr'). cbn [fst snd] in *. wp_steps.
    set (c4 := set_allowNested (allowNested c1) c3).
    assert (S4 : steps 0 c3 c4) by (apply steps_same; [apply S3|done|done]).
    apply drop_parcel_ok; [apply S4|done|]. intros c5 S5 _ _. wp_step. apply HQ; [done|].
    chain.
  - wp_step. eapply (with_parcel_moves True _ _ _ (fun _ p => wf p)); [apply S1|by apply special_ok, S1|].
    intros st reply c2 Hr S2 _. wp_step. apply drop_parcel_ok; [apply S2|done|]. intros c3 S3 _ _. wp_step.
    apply HQ; [done|]. chain.
Qed.

(** A call to [addr] that has been received. *)
Definition call_wf (addr : Z) (data : bytes) : Prop :=
  Forall is_byte data /\ zlen data <= kMaxTransactionAllocation /\
  toRaw (tx_address (transaction_of data)) = addr.

Lemma find_target_ok addr oneway target data c (Q : served -> CS E -> Prop) :
  conn_ok c -> call_wf addr data -> (addr = 0 -> target = None) ->
  (forall t, target = Some t -> (exists o, lives c t o) /\ is_Some (mNodeForAddress (rpc_of c) !! addr)) ->
  (forall st c', steps 1 c c' -> Q (Later st) c') ->
  (forall st target' c', steps 0 c c' -> (addr = 0 -> target' = None) ->
     (st = OK -> addr <> 0 -> is_Some target') ->
     (forall t, target' = Some t -> exists o, lives c' t o /\ (st = OK -> is_local o = true)) ->
     Q (Now st target') c') ->
  wsafe (find_target session addr oneway target (transaction_of data) data) c Q.
Proof.
  intros Hc Hd H0 Ht HL HN. unfold find_target. zcase (addr =? 0).
  { wp_step. apply HN; [by apply steps_refl|done|done|]. rewrite H0 by done. done. }
  wp_step. eapply wpg_mono with (P := fun v c1 => steps 0 c c1 /\ v <> Err OK /\ forall t, v = Good (Some t) ->
    (exists o, lives c1 t o) /\ is_Some (mNodeForAddress (rpc_of c1) !! addr)).
  { destruct target as [t|].
    - wp_step. split_and!; [by apply steps_refl|done|]. intros t' [= <-]. by apply Ht.
    - eapply on_state_ok; [done|by apply entering_moved, Hc|]. intros v r [Hne Hv] S1 R1. split_and!; [done|done|].
      intros t ->. destruct (Hv t eq_refl) as [[o Ho] Hn]. rewrite R1. split; [by exists o|done]. }
  intros v c1 (S1 & Hne & Hv). destruct v as [[t|]|st].
  2: { wp_step. eapply wpg_mono; [apply shutdown_steps, S1|]. intros [] c2 [S2 _]. wp_step.
       apply HN; [by eapply steps_0|done|done|done]. }
  2: { wp_step. apply HN; [done|done| |done]. congruence. }
  destruct (Hv t eq_refl) as [[o Ho] Hn]. wp_step. apply gets_state_ok; [apply S1|].
  intros c2 S2 R2 B2 I2. cbn [objects state_of]. wp_step.
  eapply wpg_require; [exact Ho|]. assert (Ho2 : lives c2 t o) by (unfold lives; by rewrite B2).
  destruct (is_remote o) eqn:Er.
  { wp_step. eapply wpg_mono; [apply shutdown_steps, S2|]. intros [] c3 [S3 _]. wp_step.
    destruct (lives_kept _ _ _ _ _ S3 Ho2) as (o3 & Ho3 & _).
    apply HN; [by eapply steps_0; [|eapply steps_0]|done|done|]. intros t' [= <-]. exists o3. by split. }
  assert (Hlo : is_local o = true) by (by apply negb_false_iff in Er).
  assert (S12 : steps 0 c c2) by (by eapply steps_0).
  destruct oneway.
  2: { wp_step. apply HN; [done|done|done|]. intros t' [= <-]. eauto. }
  wp_step.
  assert (Ha : wsafe (async_admit session addr t (transaction_of data) data) (state_of c2)
    (fun a r' => moved 1 (state_of c2) r' /\ match a with Queued _ => True | _ => moved 0 (state_of c2) r' end)).
  { eapply wpg_mono; [apply admit_moved; [apply S2|cbn; by rewrite R2|exact Hd]|].
    intros a r' Ha. destruct a; split; try done; destruct Ha; split; auto; lia. }
  eapply on_state_ok; [apply S2|exact Ha|]. intros a r Hm S3 R3.
  destruct a as [st|st|].
  - wp_step. destruct (steps_state 0 c2 r (sp_ok _ _ _ S2) Hm) as [S3' _].
    destruct (lives_kept _ _ _ _ _ S3' Ho2) as (o3 & Ho3 & El).
    apply HN; [by eapply steps_0|done|done|]. intros t' [= <-]. exists o3. split; [done|]. by rewrite El.
  - wp_step. apply HL. by eapply (steps_trans 0 1).
  - wp_step. destruct (steps_state 0 c2 r (sp_ok _ _ _ S2) Hm) as [S3' _].
    destruct (lives_kept _ _ _ _ _ S3' Ho2) as (o3 & Ho3 & El).
    apply HN; [by eapply steps_0|done|done|]. intros t' [= <-]. exists o3. split; [done|]. by rewrite El.
Qed.

Lemma flush_refs_ok addr st target other c (Q : status_t -> CS E -> Prop) :
  conn_ok c ->
  (st = OK -> addr <> 0 -> exists t o, target = Some t /\ lives c t o) ->
  (forall st' c', steps 0 c c' -> Q st' c') ->
  wsafe (flush_refs connection session addr st target other) c Q.
Proof.
  intros Hc Ht HQ. unfold flush_refs.
  destruct (negb (addr =? 0) && (st =? OK))%bool eqn:Ec; [|wp_step; by apply HQ, steps_refl].
  apply andb_prop in Ec as [E1%negb_true_iff E2]. zb. destruct (Ht E2 E1) as (t & o & -> & Ho).
  eapply (on_state_ok True 0 _ _ (fun _ _ => True)); [done| |intros; by apply HQ].
  eapply wpg_mono; [eapply flush_moved; [apply Hc|exact Ho]|]. done.
Qed.

Lemma parcel_bytes_ok p : wf p -> exists bs, parcel_bytes p = Some bs /\ Forall is_byte bs /\ zlen bs = dataSize p.
Proof.
  intros Hp. pose proof Hp as []. unfold parcel_bytes.
  assert (Ed : dataSize p = mDataSize p) by (unfold dataSize; zcase (mDataPos p <? mDataSize p); lia).
  rewrite Ed, mem_read_ok by lia. eexists. split; [done|]. rewrite zdrop_0. split; [by apply Forall_ztake|].
  apply zlen_ztake. lia.
Qed.

Lemma send_reply_ok st reply c (Q : status_t -> CS E -> Prop) :
  conn_ok c -> wf reply -> (forall st' c', steps 0 c c' -> Q st' c') ->
  wsafe (send_reply session st reply) c Q.
Proof.
  intros Hc Hr HQ. unfold send_reply. wp_step. destruct (_ <? _); [done|]. wp_steps.
  destruct (parcel_bytes_ok reply Hr) as (bs & -> & _). wp_step.
  eapply wpg_mono; [by apply send_steps|]. intros st' c' [S _]. by apply HQ.
Qed.

Lemma call_body addr data : call_wf addr data -> Forall is_byte (zdrop sizeof_transaction data) /\
  zlen (zdrop sizeof_transaction data) <= INT32_MAX.
Proof.
  intros (Hb & Hz & _). split; [by apply Forall_zdrop|]. unfold zdrop, zlen in *. rewrite length_drop.
  unfold kMaxTransactionAllocation in Hz. lia.
Qed.

Lemma internal_ok fuel addr target data c :
  conn_ok c -> call_wf addr data -> (addr = 0 -> target = None) ->
  (forall t, target = Some t -> (exists o, lives c t o) /\ is_Some (mNodeForAddress (rpc_of c) !! addr)) ->
  (weight c < fuel)%nat ->
  wsafe (processTransactInternal connection session info fuel target data) c (fun _ c' => steps 1 c c').
Proof.
  revert target data c. induction fuel as [|fuel IH]; intros target data c Hc Hd H0 Ht Hf; [lia|].
  assert (Hup : forall c', steps 0 c c' -> steps 1 c c').
  { intros c' [? ? ?]. split; [done|done|lia]. }
  cbn [processTransactInternal]. destruct (_ <? _).
  { wp_step. eapply wpg_mono; [by apply shutdown_steps|]. intros [] c1 [S1 _]. wp_step. by apply Hup. }
  cbv zeta. rewrite (proj2 (proj2 Hd)). set (oneway := negb _). wp_step.
  apply find_target_ok; [done|done|done|done|intros st c1 S1; by wp_step|].
  intros st target1 c1 S1 Z1 N1 T1. wp_step. apply rpc_parcel_ok; [apply S1|].
  intros c2 S2 R2 I2. wp_step.
  eapply wpg_mono with (P := fun r c3 => wf (snd r) /\ steps 0 c2 c3 /\
    (fst r = OK -> st = OK)).
  { zcase (st =? OK).
    - destruct (call_body addr data Hd). apply serve_ok; [apply S2|done|done| |by intros].
      intros t Et. destruct (T1 t Et) as (o & Ho & Hl).
      destruct (lives_kept _ _ _ _ _ S2 Ho) as (o2 & Ho2 & El). exists o2. split; [done|]. rewrite El. auto.
    - wp_step. split_and!; [apply new_reply_wf|apply steps_refl, S2|done]. }
  intros [st3 reply] c3 (Hr3 & S3 & E3). cbn [fst snd] in *.
  assert (S03 : steps 0 c c3) by chain.
  assert (T3 : forall c', steps 0 c3 c' -> st3 = OK -> addr <> 0 -> exists t o, target1 = Some t /\ lives c' t o).
  { intros c' S Hst Ha. destruct (N1 (E3 Hst) Ha) as [t ->]. destruct (T1 t eq_refl) as (o & Ho & _).
    assert (S13 : steps 0 c1 c') by chain. destruct (lives_kept _ _ _ _ _ S13 Ho) as (o' & Ho' & _). eauto. }
  destruct oneway.
  - wp_step. eapply on_state_ok; [apply S3|apply next_moved, S3|]. intros n r Hn S4 R4.
    destruct n as [st4|d4|].
    + wp_step. apply drop_parcel_ok; [apply S4|done|]. intros c5 S5 _ _. wp_step. apply Hup. chain.
    + destruct (Hn d4 eq_refl) as (Hp4 & Hnode & t4 & Et & <- & Hw4).
      wp_step. apply drop_parcel_ok; [apply S4|done|]. intros c5 S5 R5 I5.
      assert (Hw5 : (weight c5 + 1 <= weight c)%nat).
      { pose proof (sp_weight _ _ _ S03). unfold weight in *. rewrite R5, R4, I5. cbn in *. lia. }
      eapply wpg_mono; [apply IH; [apply S5|done| | |lia]|].
      * intros Ha. by apply Z1.
      * intros t Et'. rewrite R5, R4. split; [|done]. destruct (T1 t Et') as (o & Ho & _).
        assert (S15 : steps 0 c1 c5) by chain. destruct (lives_kept _ _ _ _ _ S15 Ho) as (o' & Ho' & _). eauto.
      * intros st6 c6 [S6 K6 W6]. split; [done| |lia]. etransitivity; [apply S03|].
        etransitivity; [apply S4|]. etransitivity; [apply S5|done].
    + wp_step. apply flush_refs_ok; [apply S4|by intros; apply T3|]. intros st5 c5 S5. wp_step.
      apply drop_parcel_ok; [apply S5|done|]. intros c6 S6 _ _. wp_step. apply Hup. chain.
  - wp_step. apply flush_refs_ok; [apply S3|by intros; apply T3; [apply steps_refl, S3|..]|]. intros st4 c4 S4. wp_step.
    apply send_reply_ok; [apply S4|done|]. intros st5 c5 S5. wp_step.
    apply drop_parcel_ok; [apply S5|done|]. intros c6 S6 _ _. wp_step. apply Hup. chain.
Qed.

(** * Commands *)

Lemma transact_steps fuel cmd c :
  conn_ok c -> is_u32 (bodySize cmd) -> (weight c < fuel)%nat ->
  wsafe (processTransact connection session info fuel cmd) c (fun _ c' => steps 1 c c').
Proof.
  intros Hc Hz Hf. assert (Hup : forall c', steps 0 c c' -> steps 1 c c').
  { intros c' [? ? ?]. split; [done|done|lia]. }
  unfold processTransact. wp_step. destruct (negb _); [done|]. wp_step.
  destruct (negb (CommandData_valid (bodySize cmd))) eqn:Ev; [wp_step; by apply Hup, steps_refl|].
  wp_step. apply rpcRec_ok; [done|unfold is_u32 in Hz; lia| |].
  - intros bs c1 Hl Hb S1 W1. eapply wpg_mono; [apply (internal_ok fuel (toRaw (tx_address (transaction_of bs))))|].
    + apply S1.
    + split_and!; [done| |done]. rewrite Hl. apply negb_false_iff in Ev. unfold CommandData_valid in Ev.
      apply orb_true_iff in Ev as [Ev|Ev]; zb; unfold kMaxTransactionAllocation in *; lia.
    + done.
    + done.
    + pose proof (sp_weight _ _ _ S1). lia.
    + intros st c2 S2. by eapply (steps_trans 0 1).
  - intros st c1 _ S1. wp_step. by apply Hup.
Qed.

Lemma receive_dec_steps cmd c :
  conn_ok c -> is_u32 (bodySize cmd) ->
  wsafe (receiveDecStrong session cmd) c (fun _ c' => steps 0 c c').
Proof.
  intros Hc Hz. unfold receiveDecStrong. wp_step. destruct (negb _); [done|]. wp_step.
  destruct (negb (CommandData_valid _)); [wp_step; by apply steps_refl|].
  wp_step. apply rpcRec_ok; [done|unfold is_u32 in Hz; lia| |].
  - intros bs c1 Hl Hb S1 W1. eapply (on_state_ok True 0 _ _ (fun _ _ => True)); [apply S1| |].
    + eapply wpg_mono; [apply process_dec_moved, S1|]. done.
    + intros a r _ S2 _. chain.
  - intros st c1 _ S1. by wp_step.
Qed.

Lemma processCommand_steps fuel cmd type c :
  conn_ok c -> is_u32 (bodySize cmd) -> (weight c < fuel)%nat ->
  wsafe (processCommand connection session info frame fuel cmd type) c (fun _ c' => steps 1 c c').
Proof.
  intros Hc Hz Hf. unfold processCommand. wp_steps. set (c1 := set_sp_guard _ c).
  assert (S1 : steps 0 c c1) by (apply steps_same; done).
  assert (Hup : forall c', steps 0 c1 c' -> steps 1 c1 c').
  { intros c' [? ? ?]. split; [done|done|lia]. }
  assert (W1 : weight c1 = weight c) by done.
  eapply wpg_mono with (P := fun _ c2 => steps 1 c1 c2).
  { destruct (_ =? RPC_COMMAND_TRANSACT).
    - destruct type; [apply transact_steps; [apply S1|done|lia]|wp_step; by apply Hup, steps_refl, S1].
    - destruct (_ =? RPC_COMMAND_DEC_STRONG).
      + eapply wpg_mono; [apply receive_dec_steps; [apply S1|done]|]. intros st c2 S2. by apply Hup.
      + wp_step. eapply wpg_mono; [apply shutdown_steps, S1|]. intros [] c2 [S2 _]. wp_step. by apply Hup. }
  intros st c2 S2. wp_steps. set (c3 := set_sp_guard _ c2).
  assert (S3 : steps 0 c2 c3) by (apply steps_same; [apply S2|done|done]).
  exact (steps_trans 0 1 _ _ _ S1 (steps_trans 1 0 _ _ _ S2 S3)).
Qed.

Lemma header_size bs : Forall is_byte bs -> is_u32 (bodySize (header_of bs)).
Proof.
  intros H. cbn. unfold word, is_u32. set (b := ztake 4 (zdrop 4 bs)).
  pose proof (le_val_range b (Forall_ztake _ _ _ (Forall_zdrop _ _ _ H))) as Hr.
  assert (Hl : zlen b <= 4) by (unfold b, ztake, zlen; rewrite length_take; lia).
  pose proof (Z.pow_le_mono_r 256 (zlen b) 4 ltac:(lia) Hl). change (256 ^ 4) with 4294967296 in *. lia.
Qed.

(** A command takes at least its header off the stream. *)
Lemma getAndExecute_steps fuel type c :
  conn_ok c -> (weight c < fuel)%nat ->
  wsafe (getAndExecuteCommand connection session info frame fuel type) c (fun st c' =>
    steps 0 c c' /\ (st = OK -> weight c' < weight c)%nat).
Proof.
  intros Hc Hf. unfold getAndExecuteCommand. wp_step. apply rpcRec_ok; [done|by vm_compute| |].
  - intros bs c1 Hl Hb S1 W1. change (Z.to_nat sizeof_header) with 16%nat in W1.
    eapply wpg_mono; [apply processCommand_steps; [apply S1|by apply header_size|lia]|].
    intros st c2 [K1 K2 K3]. split; [|lia]. split; [done| |lia]. etransitivity; [apply S1|done].
  - intros st c1 Hst S1. wp_step. by split.
Qed.

Lemma drain_steps fuel type c :
  conn_ok c -> (weight c < fuel)%nat ->
  wsafe (drainCommands connection session info frame fuel type) c (fun _ c' => steps 0 c c').
Proof.
  revert c. induction fuel as [|fuel IH]; intros c Hc Hf; [lia|]. cbn [drainCommands]. wp_steps.
  destruct (peek (c_env c) (incoming c)) as [e [status n]]. wp_steps. set (c1 := set_c_env e c).
  assert (S1 : steps 0 c c1) by (apply steps_same; done).
  destruct (status =? WOULD_BLOCK); [by wp_step|]. destruct (negb _); [by wp_step|].
  destruct (n =? 0); [by wp_step|]. unfold check_ok. wp_step.
  eapply wpg_mono; [apply getAndExecute_steps; [apply S1|done]|].
  intros st c2 [S2 W2]. change (weight c1) with (weight c) in W2. zcase (st =? OK); [|wp_step; chain].
  eapply wpg_mono; [apply IH; [apply S2|specialize (W2 E0); lia]|]. intros st3 c3 S3. chain.
Qed.

Lemma wait_reply_steps fuel c :
  conn_ok c -> (weight c < fuel)%nat ->
  wsafe (wait_reply connection session info frame fuel) c (fun r c' => steps 0 c c' /\
    forall h, r = Good h -> is_u32 (bodySize h)).
Proof.
  revert c. induction fuel as [|fuel IH]; intros c Hc Hf; [lia|]. cbn [wait_reply]. unfold bind_res. wp_step.
  apply rpcRec_ok; [done|by vm_compute| |intros st c1 _ S1; by wp_step].
  intros bs c1 Hl Hb S1 W1. change (Z.to_nat sizeof_header) with 16%nat in W1. cbv zeta.
  pose proof (header_size bs Hb) as Hz. destruct (_ =? _).
  { wp_step. split; [done|]. by intros h [= <-]. }
  wp_step. eapply wpg_mono; [apply processCommand_steps; [apply S1|done|lia]|].
  intros st c2 [K1 K2 K3]. assert (S2 : steps 0 c c2).
  { split; [done| |lia]. etransitivity; [apply S1|done]. }
  destruct (st =? OK); [|by wp_step]. eapply wpg_mono; [apply IH; [done|lia]|].
  intros r c3 [S3 H3]. split; [chain|done].
Qed.

Lemma waitForReply_steps fuel reply c :
  conn_ok c -> wf reply -> (weight c < fuel)%nat ->
  wsafe (waitForReply connection session info frame fuel reply) c (fun r c' => steps 0 c c' /\ wf (snd r)).
Proof.
  intros Hc Hr Hf. unfold waitForReply. wp_step. eapply wpg_mono; [by apply wait_reply_steps|].
  intros h c1 [S1 Hh]. destruct h as [cmd|st]; [|by wp_step]. specialize (Hh cmd eq_refl).
  destruct (negb _) eqn:Ev; [by wp_step|]. wp_step.
  apply rpcRec_ok; [apply S1|unfold is_u32 in Hh; lia| |intros st c2 _ S2; wp_step; by split; [chain|]].
  intros body c2 Hl Hb S2 _. assert (S02 : steps 0 c c2) by chain.
  zcase (bodySize cmd <? sizeof_reply).
  { wp_step. eapply wpg_mono; [apply shutdown_steps, S2|]. intros [] c3 [S3 _]. wp_step. by split; [chain|]. }
  cbv zeta. destruct (negb (s32 _ =? OK)); [by wp_step|]. wp_step.
  assert (Hz : zlen (zdrop sizeof_reply body) = bodySize cmd - sizeof_reply).
  { rewrite zlen_zdrop, Hl by (unfold sizeof_reply in *; lia). lia. }
  rewrite <- Hz. eapply (with_parcel_ok True _ _ _ (fun _ p => wf p)); [apply S2| |].
  - eapply wpg_mono; [apply reference_ok; [done|by apply Forall_zdrop|]|].
    + rewrite Hz. apply negb_false_iff in Ev. unfold CommandData_valid, kMaxTransactionAllocation, sizeof_reply in *.
      apply orb_true_iff in Ev as [Ev|Ev]; zb; lia.
    + intros [] s' (H1 & _ & _ & _ & _ & H2). done.
  - intros [] p' c3 Hp S3 _ _. wp_step. by split; [chain|].
Qed.

Lemma join_steps fuel c :
  conn_ok c -> (weight c < fuel)%nat ->
  wsafe (join_loop connection session info frame fuel) c (fun _ c' => steps 0 c c').
Proof.
  revert c. induction fuel as [|fuel IH]; intros c Hc Hf; [lia|]. cbn [join_loop]. wp_step.
  eapply wpg_mono; [by apply getAndExecute_steps|]. intros st c1 [S1 W1].
  zcase (st =? OK); cbn [negb]; [|by wp_step]. eapply wpg_mono; [apply IH; [apply S1|specialize (W1 E0); lia]|].
  intros [] c2 S2. chain.
Qed.


End Serving.
