(* ===== verification/RpcCallProps.v ===== *)
(** A call over an RPC session, from end to end: what [transactAddress] writes,
    what the peer's [getAndExecuteCommand] makes of it, and what the caller reads
    back. *)

From S2P Require Import ParcelProps.
From S2P Require Import Prelude Errors ParcelState ParcelWrite ParcelRead ParcelInv ParcelWriteSpec.
From S2P Require Import ParcelReadSpec Stability ParcelObject ParcelObjectSpec ParcelIpc ParcelIpcProps ParcelFrame.
From S2P Require Import RpcNodes RpcNodesProps RpcTransact RpcSafeProps.

(** The messages of a call and of its answer. *)
Definition call_message (addr code flags asyncNumber : Z) (body : bytes) : bytes :=
  header_bytes (mkRpcWireHeader RPC_COMMAND_TRANSACT (sizeof_transaction + zlen body)) ++
  transaction_bytes (mkRpcWireTransaction (fromRaw addr) code flags asyncNumber) ++ body.
Definition reply_message (status : status_t) (body : bytes) : bytes :=
  header_bytes (mkRpcWireHeader RPC_COMMAND_REPLY (sizeof_reply + zlen body)) ++
  le_bytes 4 status ++ body.

Lemma zlen_transaction t : zlen (transaction_bytes t) = 40.
Proof.
  unfold transaction_bytes, wire_address_bytes. by rewrite !zlen_app, !zlen_le_bytes, zlen_zeros by lia.
Qed.

Lemma concat_three (x y z : bytes) : concat [x; y; z] = x ++ y ++ z.
Proof. cbn. by rewrite app_nil_r. Qed.

Section Call.
Context {E : Type} `{T : RpcTransport E} `{O : RpcTargets E}.
Context (session : Z) (info : SessionInfo) (frame : Z).
Implicit Types c : CS E.

(** Every write succeeds at once. *)
Class OpenTransport : Prop := {
  open_send n : send_status (E := E) n = OK;
  open_blocks e n : send_blocks (E := E) e n = 0%nat;
}.
Context `{Open : OpenTransport}.

(** The session's state and the binders of the process. *)
Definition live c (r : RS) : Prop :=
  w_rpc (c_world c) !! session = Some (state r) /\ w_binders (c_world c) = objects r.

Lemma live_state {A} F (m : M RS A) c r (Q : A -> CS E -> Prop) :
  live c r ->
  wpg F m r (fun a r' => forall c', live c' r' -> incoming c' = incoming c -> Q a c') ->
  wpg F (on_state session m) c Q.
Proof.
  intros [Hs Hb] Hm. unfold on_state. apply wpg_zoom. unfold wpg, on_session in *. cbn [world this].
  rewrite Hs, Hb. destruct r as [st os]. cbn in *.
  destruct (m (mkRS st os)) as [a r'| |]; [|done..]. cbn. apply Hm; [|done].
  split; cbn; [by rewrite lookup_insert_eq|done].
Qed.

Lemma live_parcel {A} F p (m : M PS A) c r (Q : A * Parcel -> CS E -> Prop) :
  live c r ->
  wpg F m (mkPS p (c_world c)) (fun a s =>
    kept (fun w => (w_rpc w, w_binders w)) (w_rpc (c_world c), w_binders (c_world c)) s /\
    forall c', live c' r -> incoming c' = incoming c -> Q (a, this s) c') ->
  wpg F (with_parcel p m) c Q.
Proof.
  intros [Hs Hb] Hm. unfold with_parcel. apply wpg_zoom. wp_step. eapply wpg_mono; [exact Hm|].
  intros a [p' w'] [[= E1 E2] HQ]. wp_steps. cbn [this world] in *. apply HQ; [|done].
  split; cbn; congruence.
Qed.

(** The next [n] bytes of the stream. *)
Lemma rec_exact F bs rest n c r (Q : res bytes -> CS E -> Prop) :
  live c r -> mTerminated (state r) = false -> incoming c = bs ++ rest -> zlen bs = n ->
  (forall c', live c' r -> incoming c' = rest -> Q (Good bs) c') ->
  wpg F (rpcRec session n) c Q.
Proof.
  intros Hl Ht Hi Hn HQ. unfold rpcRec. wp_step. eapply live_state; [exact Hl|]. wp_step.
  intros c1 Hl1 Hi1. rewrite Ht. zcase (n =? 0).
  { wp_step. assert (bs = []) as -> by (apply zlen_zero; lia). apply HQ; [done|]. by rewrite Hi1, Hi. }
  wp_steps. rewrite Hi1, Hi. pose proof (zlen_nonneg rest). rewrite zlen_app. zdec (n <=? zlen bs + zlen rest).
  wp_steps. rewrite ztake_app_exact by done. apply HQ; [done|]. cbn. by rewrite zdrop_app_exact.
Qed.

Lemma send_exact F iovs c r (Q : status_t -> CS E -> Prop) :
  live c r -> mTerminated (state r) = false ->
  (forall c', live c' (mkRS (set_sent (rpc_sent (state r) ++ [concat iovs]) (state r)) (objects r)) ->
     incoming c' = incoming c -> Q OK c') ->
  wpg F (send session iovs) c Q.
Proof.
  intros Hl Ht HQ. unfold send. eapply live_state; [exact Hl|]. unfold rpcSend. wp_steps. rewrite Ht, open_send.
  change (OK =? OK) with true. cbn iota. wp_steps. intros c' Hl' Hi'. by apply HQ.
Qed.

Lemma drop_exact F p c r (Q : unit -> CS E -> Prop) :
  live c r -> wf p -> (forall c', live c' r -> incoming c' = incoming c -> Q tt c') ->
  wpg F (drop_parcel p) c Q.
Proof.
  intros Hl Hp HQ. unfold drop_parcel. wp_step. eapply live_parcel; [exact Hl|].
  pose proof (freeData_ok F (mkPS p (c_world c)) Hp) as Hf. apply wpg_bind_inv in Hf.
  eapply wpg_mono; [eapply (wpg_pres F (kept (fun w => (w_rpc w, w_binders w)) (w_rpc (c_world c), w_binders (c_world c))));
    [auto with pres|done|exact Hf]|].
  intros [] s [_ Hk]. split; [done|]. intros c' Hl' Hi'. wp_step. by apply HQ.
Qed.

(** * The server *)

(** The node of a binder that the server has sent. *)
Record serves (r : RS) (addr t : Z) (n : BinderNode) : Prop := {
  sv_live : mTerminated (state r) = false;
  sv_node : mNodeForAddress (state r) !! addr = Some n;
  sv_binder : binder n = t;
  sv_sent : 0 < timesSent n;
  sv_recd : 0 <= timesRecd n < 4294967296;
  sv_object : exists o, objects r !! t = Some o /\ is_local o = true;
}.

Lemma entering_exact F addr t n r :
  serves r addr t n -> Z.land (options (fromRaw addr)) (Z.lxor kKnownOptions 4294967295) = 0 ->
  wpg F (RpcNodes.onBinderEntering session addr) r (fun v r' => v = Good (Some t) /\
    r' = mkRS (set_nodes (<[addr := n_set_counts (sentRef n) (timesSent n) (timesRecd n + 1) n]>
           (mNodeForAddress (state r))) (state r)) (objects r)).
Proof.
  intros [Hl Hn Hb Hs Hr (o & Ho & Hk)] Ha. unfold RpcNodes.onBinderEntering. cbv zeta. rewrite Ha. cbn [negb Z.eqb].
  wp_steps. rewrite Hl, Hn. unfold promote, put_node. wp_steps. rewrite Hb, Ho, u64_small by lia. done.
Qed.

(** The references the call brought are given back before the reply. *)
Lemma flush_exact F addr t n r :
  serves r addr t n -> timesRecd n <> 0 ->
  wpg F (RpcNodes.flushExcessBinderRefs (send_status (E := E)) OK session addr (Some t)) r (fun v r' => v = OK /\
    r' = mkRS (set_sent (rpc_sent (state r) ++ [dec_message addr (timesRecd n)])
           (set_nodes (<[addr := n_set_counts (sentRef n) (timesSent n) 0 n]>
             (mNodeForAddress (state r))) (state r))) (objects r)).
Proof.
  intros [Hl Hn Hb Hs Hr (o & Ho & Hk)] Hne. unfold RpcNodes.flushExcessBinderRefs. wp_steps.
  eapply wpg_require; [exact Ho|]. unfold is_remote. rewrite Hk. cbn [negb]. wp_steps. rewrite Hl, Hn.
  rewrite bool_decide_eq_true_2 by congruence. cbn [negb]. zdec (timesSent n <=? 0). wp_steps.
  zdec (timesRecd n =? 0). unfold session_sendDecStrongToTarget. change (OK =? OK) with true. cbn iota.
  unfold sendDecStrongToTarget. wp_steps. rewrite Hl, Hn. zdec (timesRecd n <? 0). wp_steps.
  zdec (timesRecd n =? 0). unfold put_node, tryEraseNode. wp_steps. cbn [state objects set_nodes mNodeForAddress].
  rewrite lookup_insert_eq. wp_steps. cbn [timesSent n_set_counts].
  zdec (timesSent n =? 0). wp_steps. unfold rpcSend. wp_steps.
  cbn [state set_nodes mTerminated rpc_sent]. rewrite Hl, open_send. change (OK =? OK) with true. cbn iota. wp_steps.
  split; [done|]. rewrite concat_pair, Z.sub_0_r, u32_small by lia. done.
Qed.

(** A service that answers [body] with [answer]. *)
Definition answers (t code flags : Z) (body answer : bytes) : Prop :=
  forall d c r, wf d -> contents d = body -> mDataPos d = 0 -> mSession d = Some session -> live c r ->
    wp (target_transact t code d (set_mSession (Some session) init_parcel) flags) c (fun v c' =>
      exists d' reply', v = (OK, d', reply') /\ wf d' /\ wf reply' /\ contents reply' = answer /\
        live c' r /\ incoming c' = incoming c).

Lemma parcel_exact p : wf p -> dataSize p = zlen (contents p) /\ parcel_bytes p = Some (contents p).
Proof.
  intros Hp. pose proof Hp as []. assert (Ed : dataSize p = mDataSize p).
  { unfold dataSize. zcase (mDataPos p <? mDataSize p); lia. }
  unfold parcel_bytes. rewrite Ed, mem_read_ok, zdrop_0, zlen_contents by (done || lia). done.
Qed.

Lemma serve_exact tx t body answer c r (Q : status_t * Parcel -> CS E -> Prop) :
  live c r -> Forall is_byte body -> zlen body <= kMaxTransactionAllocation ->
  answers t (tx_code tx) (tx_flags tx) body answer ->
  (forall reply c', wf reply -> contents reply = answer -> live c' r -> incoming c' = incoming c ->
     Q (OK, reply) c') ->
  wp (serve OK session info tx false (Some t) body (set_mSession (Some session) init_parcel)) c Q.
Proof.
  intros Hl Hb Hz Ha HQ. unfold kMaxTransactionAllocation in Hz. unfold serve. wp_step.
  eapply live_parcel; [exact Hl|]. wp_step. set (k := kept _ _).
  eapply wpg_mono with (P := fun _ s => this s = init_parcel /\ k s).
  { apply wpg_pres; [unfold k; auto with pres|done|]. unfold initState. wp_steps. by destruct (_ =? 0); wp_step. }
  intros [] [p1 w1] [E1 K1]. cbn [this] in E1. subst p1.
  eapply wpg_mono.
  { eapply (wpg_pres False k); [|exact K1|apply (reference_ok False init_parcel w1 body do_nothing_to_transact_data session);
      [apply init_parcel_wf|done|lia]].
    unfold k, markForRpc. pres. }
  intros [] [d w2] [(H1 & H2 & H3 & H4 & _) K2]. cbn [this world] in *. split; [exact K2|]. intros c1 Hl1 I1. cbn [snd].
  wp_steps. eapply wpg_mono; [eapply (Ha d); try done|].
  intros v c2 (d' & reply & -> & Hd' & Hr & Ec & Hl2 & I2). wp_steps.
  eapply drop_exact; [exact Hl2|done|]. intros c3 Hl3 I3. wp_step. apply HQ; [done|done|done|].
  rewrite I3. cbn. rewrite I2. cbn. exact I1.
Qed.

(** The server's state after the call: the references received are returned, and
    the answer is sent. *)
Definition after_call (addr : Z) (n : BinderNode) (answer : bytes) (r : RS) : RS :=
  mkRS (set_sent (rpc_sent (state r) ++ [dec_message addr (timesRecd n + 1); reply_message OK answer])
    (set_nodes (<[addr := n_set_counts (sentRef n) (timesSent n) 0 n]> (mNodeForAddress (state r))) (state r)))
    (objects r).

(** What makes a synchronous call to a binder of the server. *)
Record call_ok (addr code flags : Z) (body : bytes) : Prop := {
  ca_addr : is_u64 addr /\ addr <> 0;
  ca_options : Z.land (options (fromRaw addr)) (Z.lxor kKnownOptions 4294967295) = 0;
  ca_code : is_u32 code;
  ca_flags : is_u32 flags /\ Z.land flags FLAG_ONEWAY = 0;
  ca_body : Forall is_byte body;
  ca_size : sizeof_transaction + zlen body <= kMaxTransactionAllocation;
}.

Lemma internal_exact fuel addr t n code flags body answer c r :
  live c r -> serves r addr t n -> call_ok addr code flags body -> answers t code flags body answer ->
  zlen answer <= kMaxTransactionAllocation -> timesRecd n + 1 < 4294967296 ->
  wp (processTransactInternal OK session info (S fuel) None
        (transaction_bytes (mkRpcWireTransaction (fromRaw addr) code flags 0) ++ body)) c (fun st c' =>
    st = OK /\ live c' (after_call addr n answer r) /\ incoming c' = incoming c).
Proof.
  intros Hl Hs [[Ha Ha0] Ho Hc [Hf Hf1] Hb Hz] Hans Hzr Hmore. cbn [processTransactInternal].
  set (tx := mkRpcWireTransaction (fromRaw addr) code flags 0).
  pose proof (zlen_transaction tx) as Ezt. pose proof (zlen_nonneg body).
  assert (Etx : transaction_of (transaction_bytes tx ++ body) = tx).
  { apply transaction_round_trip. split_and!; [apply (fromRaw_ok addr Ha)..|done|done|by vm_compute]. }
  rewrite Etx. rewrite zlen_app, Ezt. change sizeof_transaction with 40 in *. zdec (40 + zlen body <? 40). cbv zeta.
  rewrite zdrop_app_exact by (by rewrite Ezt). cbn [tx tx_address tx_flags]. rewrite toRaw_fromRaw, Hf1. cbn [negb Z.eqb].
  wp_step. unfold find_target. zdec (addr =? 0). wp_steps.
  eapply live_state; [exact Hl|]. eapply wpg_mono; [by eapply entering_exact|].
  intros v r1 [-> Er1] c1 Hl1 I1. wp_step. eapply live_state; [exact Hl1|]. wp_step. intros c2 Hl2 I2.
  destruct (sv_object _ _ _ _ Hs) as (o & Hobj & Hk). wp_step. subst r1. cbn [objects].
  eapply wpg_require; [exact Hobj|]. unfold is_remote. rewrite Hk. cbn [negb]. wp_steps.
  unfold rpc_parcel. wp_step. eapply live_parcel; [exact Hl2|]. wp_step. set (k := kept _ _).
  eapply wpg_mono with (P := fun _ s => this s = init_parcel /\ k s).
  { apply wpg_pres; [unfold k; auto with pres|done|]. unfold initState. wp_steps. by destruct (_ =? 0); wp_step. }
  intros [] [p1 w1] [E1 K1]. cbn [this] in E1. subst p1. apply markForRpc_ok; [by left|].
  split; [exact K1|]. cbn [this]. intros c3 Hl3 I3. wp_steps. change (OK =? OK) with true. cbn iota.
  eapply (serve_exact tx); [exact Hl3|done|lia|exact Hans|].
  intros reply c4 Hr4 Ec4 Hl4 I4. wp_step. unfold flush_refs. zdec (addr =? 0). change (OK =? OK) with true. cbn [negb andb].
  set (r4 := mkRS _ _) in Hl4. set (n1 := n_set_counts (sentRef n) (timesSent n) (timesRecd n + 1) n) in *.
  pose proof Hs as [Sl Sn Sb Ss Sr _].
  assert (Hs4 : serves r4 addr t n1).
  { split; cbn; [done|by rewrite lookup_insert_eq|done|done|lia|by exists o]. }
  eapply live_state; [exact Hl4|]. eapply wpg_mono; [apply (flush_exact False addr t n1 r4 Hs4); cbn; lia|].
  intros v r5 [-> ->] c5 Hl5 I5. wp_step. unfold send_reply. destruct (parcel_exact reply Hr4) as [Ed Eb].
  rewrite Ed, Eb, Ec4. unfold kMaxTransactionAllocation in Hzr.
  change (INT32_MAX - sizeof_header - sizeof_reply) with 2147483627. zdec (2147483627 <? zlen answer). wp_steps.
  eapply send_exact; [exact Hl5|exact Sl|]. intros c6 Hl6 I6. wp_step.
  eapply drop_exact; [exact Hl6|done|]. intros c7 Hl7 I7. wp_step. split; [done|]. split; [|congruence].
  unfold after_call. cbn in Hl7. rewrite insert_insert_eq in Hl7. unfold reply_message.
  rewrite <- concat_three. rewrite <- app_assoc in Hl7. exact Hl7.
Qed.

Lemma small_header cmd n : is_u32 cmd -> 0 <= n <= kMaxTransactionAllocation + 4 -> header_ok (mkRpcWireHeader cmd n).
Proof. unfold kMaxTransactionAllocation. split; [done|]. unfold is_u32. cbn. lia. Qed.

Lemma header_exact h : header_ok h -> header_of (header_bytes h) = h.
Proof. intros H. rewrite <- (app_nil_r (header_bytes h)). by apply header_round_trip. Qed.

Lemma server_call fuel addr t n code flags body answer rest c r :
  live c r -> serves r addr t n -> call_ok addr code flags body -> answers t code flags body answer ->
  zlen answer <= kMaxTransactionAllocation -> timesRecd n + 1 < 4294967296 ->
  incoming c = call_message addr code flags 0 body ++ rest ->
  wp (getAndExecuteCommand OK session info frame (S fuel) ANY) c (fun st c' =>
    st = OK /\ live c' (after_call addr n answer r) /\ incoming c' = rest).
Proof.
  intros Hl Hs Hc Hans Hzr Hmore Hi. unfold getAndExecuteCommand. wp_step.
  pose proof (ca_size _ _ _ _ Hc) as Hz. pose proof (zlen_nonneg body). change sizeof_transaction with 40 in *.
  unfold call_message in Hi. change sizeof_transaction with 40 in Hi.
  set (h := mkRpcWireHeader RPC_COMMAND_TRANSACT (40 + zlen body)) in *.
  assert (Hh : header_ok h) by (apply small_header; [done|lia]).
  rewrite <- !app_assoc in Hi.
  eapply rec_exact; [exact Hl|apply Hs|exact Hi|apply zlen_header|].
  intros c1 Hl1 I1. rewrite header_exact by done. unfold processCommand. wp_steps.
  change (command h =? RPC_COMMAND_TRANSACT) with true. cbn iota.
  unfold processTransact. change (command h =? RPC_COMMAND_TRANSACT) with true.
  cbn [negb]. wp_steps. change (bodySize h) with (40 + zlen body).
  assert (CommandData_valid (40 + zlen body) = true) as ->.
  { unfold CommandData_valid. apply orb_true_iff. right. by apply Z.leb_le. }
  cbn [negb]. wp_step. set (tx := mkRpcWireTransaction (fromRaw addr) code flags 0) in *.
  eapply (rec_exact False (transaction_bytes tx ++ body) rest);
    [exact Hl1|apply Hs|cbn; rewrite I1; by rewrite app_assoc|by rewrite zlen_app, zlen_transaction|].
  intros c2 Hl2 I2. eapply wpg_mono; [by eapply internal_exact|].
  intros st c3 (-> & Hl3 & I3). wp_steps. split_and!; [done|exact Hl3|]. cbn. by rewrite I3, I2.
Qed.

(** * The client *)

Lemma process_dec_live (r : RS) cmd body st r' :
  processDecStrong session cmd body r = Ret st r' -> st = OK ->
  mTerminated (state r') = mTerminated (state r).
Proof.
  unfold processDecStrong. intros H ->. run. destruct (negb (CommandData_valid (bodySize cmd))); [by run|].
  destruct (negb (bodySize cmd =? sizeof_dec_strong)); [by run|]. run. destruct (mNodeForAddress (state r) !! _) as [n|]; [|by run].
  run. destruct (objects r !! binder n); [|by run]. destruct (_ <? _); [by run|]. run.
  match goal with H : tryEraseNode _ _ = _ |- _ => unfold tryEraseNode in H; rename H into He end. run.
  destruct (_ =? 0); [|by run]. run. destruct (_ =? 0); by run.
Qed.

(** A dec-strong command at the head of the stream. *)
Lemma client_dec fuel addr amount rest c r (Q : res RpcWireHeader -> CS E -> Prop) :
  live c r -> state_ok r -> mTerminated (state r) = false ->
  is_u64 addr -> 0 < amount < 4294967296 -> amount <= sent r addr ->
  incoming c = dec_message addr amount ++ rest ->
  (forall r' c', live c' r' -> mTerminated (state r') = false -> rpc_sent (state r') = rpc_sent (state r) ->
     sent r' addr = sent r addr - amount -> incoming c' = rest ->
     wp (wait_reply OK session info frame fuel) c' Q) ->
  wp (wait_reply OK session info frame (S fuel)) c Q.
Proof.
  intros Hl Hok Ht Ha Ham Hle Hi HQ. cbn [wait_reply]. unfold bind_res. wp_step.
  set (h := mkRpcWireHeader RPC_COMMAND_DEC_STRONG sizeof_dec_strong).
  set (d := mkRpcDecStrong (fromRaw addr) amount).
  assert (Hh : header_ok h) by (by apply small_header).
  assert (Hd : zlen (dec_strong_bytes d) = 16).
  { unfold dec_strong_bytes, wire_address_bytes. by rewrite !zlen_app, !zlen_le_bytes, zlen_zeros by lia. }
  unfold dec_message in Hi. fold h d in Hi. rewrite <- app_assoc in Hi.
  eapply rec_exact; [exact Hl|done|exact Hi|apply zlen_header|]. intros c1 Hl1 I1. cbv zeta.
  rewrite header_exact by done. change (command h =? RPC_COMMAND_REPLY) with false. cbn iota. wp_step.
  unfold processCommand. wp_steps. change (command h =? RPC_COMMAND_TRANSACT) with false.
  change (command h =? RPC_COMMAND_DEC_STRONG) with true. cbn iota. unfold receiveDecStrong.
  change (command h =? RPC_COMMAND_DEC_STRONG) with true. cbn [negb]. wp_steps.
  change (CommandData_valid (bodySize h)) with true. cbn [negb]. wp_step.
  eapply (rec_exact False (dec_strong_bytes d) rest); [exact Hl1|done|exact I1|exact Hd|]. intros c2 Hl2 I2.
  eapply live_state; [exact Hl2|].
  pose proof (process_dec_ok False session addr amount r Hok Ha Ham Hle) as Hp. unfold dec_message in Hp.
  fold h d in Hp. rewrite header_round_trip in Hp by done.
  rewrite zdrop_app_exact in Hp by (by rewrite zlen_header).
  unfold wpg in Hp |- *. destruct (processDecStrong session h (dec_strong_bytes d) r) as [st r'| |] eqn:Ep; [|done..].
  destruct Hp as (-> & _ & _ & Hsent & Hs & _). intros c3 Hl3 I3.
  apply process_dec_live in Ep; [|done].
  apply (HQ r'); [exact Hl3|by rewrite Ep|done| |cbn; by rewrite I3, I2]. rewrite Hs, Z.eqb_refl. done.
Qed.

Lemma wait_exact fuel reply answer rest c r (Q : status_t * Parcel -> CS E -> Prop) :
  live c r -> mTerminated (state r) = false -> wf reply -> Forall is_byte answer ->
  zlen answer + sizeof_reply <= kMaxTransactionAllocation ->
  wp (wait_reply OK session info frame fuel) c (fun v c' =>
    v = Good (mkRpcWireHeader RPC_COMMAND_REPLY (sizeof_reply + zlen answer)) /\
    (exists r', live c' r' /\ mTerminated (state r') = false /\ rpc_sent (state r') = rpc_sent (state r)) /\
    incoming c' = le_bytes 4 OK ++ answer ++ rest) ->
  (forall p c' r', wf p -> contents p = answer -> mDataPos p = 0 -> mSession p = Some session ->
     live c' r' -> rpc_sent (state r') = rpc_sent (state r) -> incoming c' = rest -> Q (OK, p) c') ->
  wp (waitForReply OK session info frame fuel reply) c Q.
Proof.
  intros Hl Ht Hr Hb Hz Hw HQ. unfold waitForReply. wp_step. eapply wpg_mono; [exact Hw|].
  intros v c1 (-> & (r1 & Hl1 & Ht1 & Es1) & I1). cbn [bodySize]. pose proof (zlen_nonneg answer).
  assert (CommandData_valid (sizeof_reply + zlen answer) = true) as ->.
  { unfold CommandData_valid. apply orb_true_iff. right. apply Z.leb_le. lia. }
  cbn [negb]. wp_step.
  eapply (rec_exact False (le_bytes 4 OK ++ answer) rest); [exact Hl1|done|by rewrite <- app_assoc| |].
  { by rewrite zlen_app, zlen_le_bytes. }
  intros c2 Hl2 I2. change sizeof_reply with 4 in *. zdec (4 + zlen answer <? 4). cbv zeta.
  assert (s32 (word 4 0 (le_bytes 4 OK ++ answer)) = OK) as ->.
  { rewrite word_head by (by rewrite zlen_le_bytes). by vm_compute. }
  change (negb (OK =? OK)) with false. cbn iota. wp_step.
  replace (4 + zlen answer - 4) with (zlen answer) by lia.
  rewrite zdrop_app_exact by (by rewrite zlen_le_bytes).
  unfold kMaxTransactionAllocation in Hz.
  eapply live_parcel; [exact Hl2|]. set (k := kept _ _). eapply wpg_mono.
  { eapply (wpg_pres False k); [|done|apply (reference_ok False reply (c_world c2) answer cleanup_reply_data session);
      [done|done|lia]].
    unfold k, markForRpc. pres. }
  intros [] [p w] [(H1 & H2 & H3 & H4 & _) K]. cbn [this world] in *. split; [exact K|]. intros c3 Hl3 I3. wp_step.
  cbn [snd]. apply (HQ p c3 r1); [done..|by rewrite I3, I2].
Qed.

(** The parcel of a call: the session's, without objects. *)
Record call_parcel (data : Parcel) (body : bytes) : Prop := {
  cp_wf : wf data;
  cp_contents : contents data = body;
  cp_session : mSession data = Some session;
  cp_objects : mObjectsSize data = 0;
}.

Lemma client_call fuel addr code flags body answer amount data reply rest c r n :
  live c r -> state_ok r -> mTerminated (state r) = false -> mNodeForAddress (state r) !! addr = Some n ->
  call_ok addr code flags body -> call_parcel data body -> wf reply ->
  Forall is_byte answer -> zlen answer + sizeof_reply <= kMaxTransactionAllocation ->
  0 < amount < 4294967296 -> amount <= sent r addr ->
  incoming c = dec_message addr amount ++ reply_message OK answer ++ rest ->
  wp (transactAddress OK session info frame (S (S fuel)) addr code data (Some reply) flags) c (fun v c' =>
    exists p r', v = (OK, Some p) /\ wf p /\ contents p = answer /\ mDataPos p = 0 /\ mSession p = Some session /\
      live c' r' /\ rpc_sent (state r') = rpc_sent (state r) ++ [call_message addr code flags 0 body] /\
      incoming c' = rest).
Proof.
  intros Hl Hok Ht Hn Hc [Pw Pc Ps Po] Hr Hb Hz Ham Hle Hi. destruct Hc as [[Ha Ha0] Hopt Hcode [Hfl Hfl1] Hbody Hsz].
  destruct (parcel_exact data Pw) as [Ed Eb]. pose proof (zlen_nonneg body). pose proof (zlen_nonneg answer).
  unfold transactAddress, isForRpc, objectsCount. rewrite Ps, Po. change (negb (0 =? 0)) with false. cbn [negb]. wp_steps.
  zdec (addr =? 0). eapply live_state; [exact Hl|]. unfold take_async_number. wp_steps. rewrite Ht, Hn, Hfl1.
  change (0 =? 0) with true. cbn iota. wp_step. intros c1 Hl1 I1. rewrite Ed, Eb, Pc.
  unfold kMaxTransactionAllocation in Hsz. change sizeof_transaction with 40 in *. change sizeof_header with 16.
  zdec (INT32_MAX - 16 - 40 <? zlen body). wp_steps.
  unfold send_transaction. wp_step. eapply live_state; [exact Hl1|]. wp_step. intros c2 Hl2 I2. wp_steps.
  rewrite Ht, open_blocks. cbn [send_draining]. eapply send_exact; [exact Hl2|done|]. intros c3 Hl3 I3.
  change (negb (OK =? OK)) with false. cbn [negb]. cbn iota. wp_step.
  rewrite concat_three in Hl3. fold (call_message addr code flags 0 body) in Hl3.
  set (r3 := mkRS _ _) in Hl3.
  assert (Hok3 : state_ok r3).
  { destruct Hok as [H1 H2]. split; [|done]. intros k m Hk. destruct (H1 k m Hk). by split. }
  eapply (wait_exact _ reply answer rest); [exact Hl3|done|done|done|done| |].
  - eapply client_dec; [exact Hl3|done|done|done|done|done|by rewrite I3, I2, I1|].
    intros r4 c4 Hl4 Ht4 Es4 _ I4. cbn [wait_reply]. unfold bind_res. wp_step. unfold reply_message in I4.
    rewrite <- !app_assoc in I4.
    eapply rec_exact; [exact Hl4|done|exact I4|apply zlen_header|]. intros c5 Hl5 I5. cbv zeta.
    rewrite header_exact by (apply small_header; [done|change sizeof_reply with 4 in *; lia]).
    cbn [command]. change (RPC_COMMAND_REPLY =? RPC_COMMAND_REPLY) with true. cbn iota. wp_step.
    split_and!; [done|exists r4; by split_and!|done].
  - intros p c4 r4 H1 H2 H3 H4 Hl4 Es4 I4. wp_step. exists p, r4. by split_and!.
Qed.

End Call.

(** * Concrete connections: the interfaces of [RpcTransact] can be met, the theorems
    about serving and calling apply, and a peer can stop the process *)

(** * A transport and a service *)

(** Writes succeed at once, and a read past the end finds the connection closed. *)
#[export] Instance socket : RpcTransport unit := {
  send_status := fun _ => OK;
  send_blocks := fun _ _ => 0%nat;
  peek := fun e bs => (e, if decide (bs = []) then (WOULD_BLOCK, 0) else (OK, zlen bs));
  read_error := fun _ => DEAD_OBJECT;
}.

#[export] Instance socket_open : OpenTransport (E := unit).
Proof. by split. Qed.

Lemma socket_read (e : unit) : read_error e <> OK.
Proof. done. Qed.

(** A service of session 1 whose reply is a view of the data it received. *)
#[export] Instance echo : RpcTargets unit := {
  target_transact := fun t code d reply flags =>
    let* bs := require (parcel_bytes d) in
    let* r := with_parcel reply
      (ipcSetDataReference (Some bs) (zlen bs) [] cleanup_reply_data ;; markForRpc (Some 1)) in
    ret (OK, d, snd r);
}.

Definition settings : SessionInfo := mkSessionInfo 4 (zeros 32) (Some (Some 7)) None.

Lemma parcel_fits p bs : wf p -> parcel_bytes p = Some bs -> Forall is_byte bs /\ zlen bs <= INT32_MAX.
Proof.
  intros Hp E. destruct (parcel_exact p Hp) as [Ed Eb]. rewrite Eb in E. injection E as <-.
  pose proof Hp as []. unfold contents. split; [by apply Forall_ztake|]. rewrite zlen_ztake; lia.
Qed.

#[export] Instance echo_safe : SafeTargets (E := unit) 1 settings.
Proof.
  split. intros t code d reply flags c o Hc _ _ Hd Hr. cbn [target_transact echo].
  destruct (parcel_exact d Hd) as [_ Eb]. destruct (parcel_fits d _ Hd Eb) as [Hb Hz]. rewrite Eb. wp_steps.
  eapply (with_parcel_ok _ _ True _ _ _ (fun _ p => wf p)); [exact Hc| |].
  - eapply wpg_mono; [by apply (reference_ok True reply (c_world c) (contents d) cleanup_reply_data 1)|].
    intros [] s (H1 & _ & _ & _ & _ & H6). by split.
  - intros [] p c' Hp Hs _ _. wp_step. by split_and!.
Qed.

Lemma echo_answers t code flags body :
  Forall is_byte body -> zlen body <= INT32_MAX -> answers (E := unit) 1 t code flags body body.
Proof.
  intros Hb Hz d c r Hd <- _ _ Hl. cbn [target_transact echo].
  destruct (parcel_exact d Hd) as [_ Eb]. rewrite Eb. wp_steps.
  eapply live_parcel; [exact Hl|]. set (k := kept _ _). eapply wpg_mono.
  { eapply (wpg_pres False k); [unfold k, markForRpc; pres|done|].
    apply (reference_ok False _ (c_world c) (contents d) cleanup_reply_data 1); [|done|done].
    apply set_session_wf, init_parcel_wf. }
  intros [] s [(H1 & H2 & _) K]. split; [exact K|]. intros c' Hl' Hi'. wp_step. by eexists _, _.
Qed.

(** * A server and its peers *)

Definition server_state (todo : list AsyncTodo) : RpcState :=
  mkRpcState false 1 {[ 3 := mkBinderNode 7 (Some 7) 1 0 0 todo ]} true [] [].
Definition connection_with (st : RpcState) (bs : bytes) : CS unit :=
  mkCS (set_w_rpc {[ 1 := st ]} (set_w_binders local_seven Sample.calm)) bs true None tt.

(** A header that promises more than arrives, then nothing. *)
Definition short_message : bytes := header_bytes (mkRpcWireHeader RPC_COMMAND_TRANSACT 1000) ++ zeros 60.

Lemma server_ok bs : Forall is_byte bs -> conn_ok 1 settings (connection_with (server_state []) bs).
Proof.
  intros Hb. split; [done| |done|].
  - split; [|done]. apply map_Forall_singleton. constructor.
  - intros a [= <-]. by eexists.
Qed.

Lemma settings_ok : info_ok settings.
Proof. split; [|done]. apply (bool_decide_eq_true_1 _). by vm_compute. Qed.

Lemma short_bytes : Forall is_byte short_message.
Proof. apply (bool_decide_eq_true_1 _). by vm_compute. Qed.

Definition hearing (bs : bytes) : CS unit := connection_with (server_state []) bs.



(** * A call from end to end *)

Definition caller_state : RpcState :=
  mkRpcState false 1 {[ 3 := mkBinderNode 9 (Some 9) 1 0 0 [] ]} false [] [].
Definition caller_binders : gmap Z IBinder :=
  {[ 9 := mkIBinder (RpcProxy 1 3) UNDECLARED 0 0 false false false 0 ]}.
Definition question : bytes := [1; 0; 0; 0; 42; 0; 0; 0].
Definition calling_with (bs : bytes) : CS unit :=
  mkCS (set_w_rpc {[ 1 := caller_state ]} (set_w_binders caller_binders Sample.calm)) bs true None tt.
Definition parcel_after {A} (m : M PS A) (s : PS) : Parcel :=
  match m s with Ret _ s' => this s' | _ => init_parcel end.

Lemma parcel_after_ok {A} (m : M PS A) s (P : Parcel -> Prop) :
  wp m s (fun _ s' => P (this s')) -> P (parcel_after m s).
Proof. unfold wpg, parcel_after. by destruct (m s). Qed.

Definition question_parcel : Parcel :=
  parcel_after (ipcSetDataReference (Some question) (zlen question) [] do_nothing_to_transact_data ;;
                markForRpc (Some 1)) Sample.fresh.

Lemma question_wf : wf question_parcel.
Proof.
  unfold question_parcel. apply (parcel_after_ok _ _ wf). eapply wpg_mono.
  - apply (reference_ok False init_parcel Sample.calm question do_nothing_to_transact_data 1); [apply init_parcel_wf| |].
    + apply (bool_decide_eq_true_1 _). by vm_compute.
    + by vm_compute.
  - by intros [] s [H _].
Qed.

Definition answer_stream : bytes := concat [dec_message 3 1; reply_message OK question].


(** * A peer that stops the process *)

Definition oneway_call (n : Z) : bytes := call_message 3 5 1 n [].

(** The call numbered 5 waits for its turn; the call numbered 0 runs, and the
    references of both are given back; the last reference the peer returns makes
    the node go while the first call is still queued at it. *)
Lemma peer_stops_the_process :
  join OK 1 settings 0 1000 OK (hearing (concat [oneway_call 5; oneway_call 0; dec_message 3 1])) = Fatal.
Proof. by vm_compute. Qed.
