(* ===== verification/RpcPool.v ===== *)
(** The connections of an RPC session: the part of src/libs/binder/RpcSession.cpp
    that its mutex guards.

    A session has outgoing connections, which any thread may take for a call, and
    incoming ones, each served by one thread.  An [RpcConnection] records the
    thread that uses it; the lists hold connections by address.  Every operation
    below is one critical section.  [find] is split where it sleeps: a call is an
    [attempt] by a new caller, and another one each time the condition variable
    wakes it.  [mWaitingThreads] is a plain integer: it grows by at most one per
    call and does not come near 2^64. *)

From S2P Require Import Prelude Errors.
From S2P Require ParcelIpc.

Definition RPC_WIRE_PROTOCOL_VERSION_NEXT : Z := 1.
Definition RPC_WIRE_PROTOCOL_VERSION_EXPERIMENTAL : Z := 0xF0000000.
Definition RPC_WIRE_PROTOCOL_VERSION : Z := 0.

Definition kDefaultMaxOutgoingThreads : Z := 10.

(** * State *)

Record RpcConnection := mkRpcConnection {
  exclusiveTid : option Z;
  conn_allowNested : bool;
}.

Record Pool := mkPool {
  connections : gmap Z RpcConnection;
  pool_maxIncomingThreads : Z;
  pool_maxOutgoingThreads : Z;
  mProtocolVersion : option Z;
  mWaitingThreads : Z;
  mOutgoingOffset : Z;
  mOutgoing : list Z;
  mMaxIncoming : Z;
  mIncoming : list Z;
  mThreads : gset Z;
}.

Definition set_connections (x : gmap Z RpcConnection) (p : Pool) : Pool :=
  mkPool x (pool_maxIncomingThreads p) (pool_maxOutgoingThreads p) (mProtocolVersion p)
    (mWaitingThreads p) (mOutgoingOffset p) (mOutgoing p) (mMaxIncoming p) (mIncoming p) (mThreads p).
Definition set_limits (incoming outgoing : Z) (p : Pool) : Pool :=
  mkPool (connections p) incoming outgoing (mProtocolVersion p)
    (mWaitingThreads p) (mOutgoingOffset p) (mOutgoing p) (mMaxIncoming p) (mIncoming p) (mThreads p).
Definition set_mProtocolVersion (x : option Z) (p : Pool) : Pool :=
  mkPool (connections p) (pool_maxIncomingThreads p) (pool_maxOutgoingThreads p) x
    (mWaitingThreads p) (mOutgoingOffset p) (mOutgoing p) (mMaxIncoming p) (mIncoming p) (mThreads p).
Definition set_mWaitingThreads (x : Z) (p : Pool) : Pool :=
  mkPool (connections p) (pool_maxIncomingThreads p) (pool_maxOutgoingThreads p) (mProtocolVersion p)
    x (mOutgoingOffset p) (mOutgoing p) (mMaxIncoming p) (mIncoming p) (mThreads p).
Definition set_outgoing (offset : Z) (l : list Z) (p : Pool) : Pool :=
  mkPool (connections p) (pool_maxIncomingThreads p) (pool_maxOutgoingThreads p) (mProtocolVersion p)
    (mWaitingThreads p) offset l (mMaxIncoming p) (mIncoming p) (mThreads p).
Definition set_incoming (most : Z) (l : list Z) (p : Pool) : Pool :=
  mkPool (connections p) (pool_maxIncomingThreads p) (pool_maxOutgoingThreads p) (mProtocolVersion p)
    (mWaitingThreads p) (mOutgoingOffset p) (mOutgoing p) most l (mThreads p).
Definition set_mThreads (x : gset Z) (p : Pool) : Pool :=
  mkPool (connections p) (pool_maxIncomingThreads p) (pool_maxOutgoingThreads p) (mProtocolVersion p)
    (mWaitingThreads p) (mOutgoingOffset p) (mOutgoing p) (mMaxIncoming p) (mIncoming p) x.

(** A new session. *)
Definition new_pool : Pool :=
  mkPool ∅ 0 kDefaultMaxOutgoingThreads None 0 0 [] 0 [] ∅.

(** [mConnections = {}]. *)
Definition clear_connections (p : Pool) : Pool :=
  mkPool (connections p) (pool_maxIncomingThreads p) (pool_maxOutgoingThreads p)
    (mProtocolVersion p) 0 0 [] 0 [] ∅.

Definition connection_at (a : Z) : M Pool RpcConnection :=
  let* p := get in require (connections p !! a).
Definition put_connection (a : Z) (c : RpcConnection) : M Pool unit :=
  modify (fun p => set_connections (<[a := c]> (connections p)) p).
Definition new_connection (c : RpcConnection) : M Pool Z :=
  let* p := get in
  let a := fresh (dom (connections p)) in
  put_connection a c ;; ret a.

Definition set_exclusiveTid (tid : option Z) (a : Z) : M Pool unit :=
  let* c := connection_at a in
  put_connection a (mkRpcConnection tid (conn_allowNested c)).

(** * Settings *)

Definition has_connections (p : Pool) : bool :=
  (0 <? zlen (mOutgoing p)) || (0 <? zlen (mIncoming p)).

Definition setMaxIncomingThreads (threads : Z) : M Pool unit :=
  let* p := get in
  fatal_if (has_connections p) ;;
  modify (set_limits threads (pool_maxOutgoingThreads p)).

Definition getMaxIncomingThreads : M Pool Z := gets pool_maxIncomingThreads.

Definition setMaxOutgoingThreads (threads : Z) : M Pool unit :=
  let* p := get in
  fatal_if (has_connections p) ;;
  modify (set_limits (pool_maxIncomingThreads p) threads).

Definition getMaxOutgoingThreads : M Pool Z := gets pool_maxOutgoingThreads.

Definition setProtocolVersion (version : Z) : M Pool bool :=
  if (RPC_WIRE_PROTOCOL_VERSION_NEXT <=? version) &&
     negb (version =? RPC_WIRE_PROTOCOL_VERSION_EXPERIMENTAL)
  then ret false else
  let* p := get in
  if match mProtocolVersion p with Some v => v <? version | None => false end
  then ret false else
  modify (set_mProtocolVersion (Some version)) ;; ret true.

Definition getProtocolVersion : M Pool (option Z) := gets mProtocolVersion.

(** * Taking a connection *)

Inductive ConnectionUse := CLIENT | CLIENT_ASYNC | CLIENT_REFCOUNT.

#[export] Instance ConnectionUse_eq_dec : EqDecision ConnectionUse.
Proof. solve_decision. Defined.

(** The use [RpcSession::transact] asks for; the session's own calls
    ([getRootObject], [getRemoteMaxThreads], [readId]) ask for [CLIENT], dec-strongs
    for [CLIENT_REFCOUNT]. *)
Definition transact_use (flags : Z) : ConnectionUse :=
  if Z.land flags ParcelIpc.FLAG_ONEWAY =? 0 then CLIENT else CLIENT_ASYNC.

(** [sockets[(i + hint) % size]] for [i] from 0. *)
Definition rotation (sockets : list Z) (hint : Z) : list Z :=
  omap (fun i => sockets !! Z.to_nat ((Z.of_nat i + hint) mod zlen sockets))
    (seq 0 (length sockets)).

(** The loop of [findConnection]: the connection [tid] has, and the first free one
    if one is wanted. *)
Fixpoint find_loop (tid : Z) (wanted : bool) (sockets : list Z) (available : option Z) :
    M Pool (option Z * option Z) :=
  match sockets with
  | [] => ret (None, available)
  | a :: rest =>
      let* socket := connection_at a in
      if wanted && bool_decide (available = None) && bool_decide (exclusiveTid socket = None)
      then find_loop tid wanted rest (Some a)
      else if bool_decide (exclusiveTid socket = Some tid) then ret (Some a, available)
      else find_loop tid wanted rest available
  end.

Definition findConnection (tid : Z) (wanted : bool) (sockets : list Z) (socketsIndexHint : Z) :
    M Pool (option Z * option Z) :=
  fatal_if ((0 <? zlen sockets) && (zlen sockets <=? socketsIndexHint)) ;;
  find_loop tid wanted (rotation sockets socketsIndexHint) None.

Inductive attempt :=
| Use (connection : Z) (reentrant : bool)
| Refuse (st : status_t)
| Wait.

(** Asynchronous calls move on to the next connection. *)
Definition advance_offset (use : ConnectionUse) (exclusive available : option Z) : M Pool unit :=
  if bool_decide (use = CLIENT_ASYNC) &&
     (bool_decide (exclusive <> None) || bool_decide (available <> None))
  then modify (fun p =>
         set_outgoing ((mOutgoingOffset p + 1) mod zlen (mOutgoing p)) (mOutgoing p) p)
  else ret tt.

(** A nested call uses the connection the thread serves. *)
Definition serving_socket (tid : Z) (use : ConnectionUse) (exclusive available : option Z) :
    M Pool (option Z) :=
  if bool_decide (use = CLIENT_ASYNC) then ret exclusive else
  let* p := get in
  let* r := findConnection tid false (mIncoming p) 0 in
  match fst r with
  | None => ret exclusive
  | Some i =>
      let* exclusiveIncoming := connection_at i in
      if conn_allowNested exclusiveIncoming then ret (Some i)
      else if bool_decide (use = CLIENT_REFCOUNT) && bool_decide (available = None)
      then ret (Some i) else ret exclusive
  end.

(** One round of the loop of [ExclusiveConnection::find]. *)
Definition try_find (tid : Z) (use : ConnectionUse) : M Pool attempt :=
  let* p := get in
  let* r := findConnection tid true (mOutgoing p) (mOutgoingOffset p) in
  let '(exclusive, available) := r in
  advance_offset use exclusive available ;;
  let* exclusive := serving_socket tid use exclusive available in
  match exclusive, available with
  | Some c, _ => ret (Use c true)
  | None, Some c => set_exclusiveTid (Some tid) c ;; ret (Use c false)
  | None, None => if zlen (mOutgoing p) =? 0 then ret (Refuse WOULD_BLOCK) else ret Wait
  end.

Definition add_waiting (d : Z) : M Pool unit :=
  modify (fun p => set_mWaitingThreads (mWaitingThreads p + d) p).

(** A round, and the end of [find] when it succeeds. *)
Definition find_again (tid : Z) (use : ConnectionUse) : M Pool attempt :=
  let* a := try_find tid use in
  match a with
  | Use _ _ => add_waiting (-1) ;; ret a
  | _ => ret a
  end.

(** [ExclusiveConnection::find] up to the first wait. *)
Definition find (tid : Z) (use : ConnectionUse) : M Pool attempt :=
  add_waiting 1 ;; find_again tid use.

(** [~ExclusiveConnection]; the result says whether one waiting thread is notified. *)
Definition release (connection : option Z) (reentrant : bool) : M Pool bool :=
  match connection with
  | Some c =>
      if reentrant then ret false else
      set_exclusiveTid None c ;;
      let* p := get in
      ret (0 <? mWaitingThreads p)
  | None => ret false
  end.

(** The change of [allowNested] around an incoming call (RpcState.cpp); the result
    is the value before. *)
Definition allow_nested (a : Z) (nested : bool) : M Pool bool :=
  let* c := connection_at a in
  put_connection a (mkRpcConnection (exclusiveTid c) nested) ;;
  ret (conn_allowNested c).

(** * Adding and removing connections *)

(** [addOutgoingConnection], before and after the first message. *)
Definition add_outgoing_begin (tid : Z) : M Pool Z :=
  let* a := new_connection (mkRpcConnection (Some tid) false) in
  modify (fun p => set_outgoing (mOutgoingOffset p) (mOutgoing p ++ [a]) p) ;;
  ret a.
Definition add_outgoing_end (a : Z) : M Pool unit := set_exclusiveTid None a.

Definition assignIncomingConnectionToThisThread (tid : Z) : M Pool (option Z) :=
  let* p := get in
  if pool_maxIncomingThreads p <=? zlen (mIncoming p) then ret None else
  if zlen (mIncoming p) <? mMaxIncoming p then ret None else
  let* a := new_connection (mkRpcConnection (Some tid) false) in
  modify (fun p => set_incoming (zlen (mIncoming p ++ [a])) (mIncoming p ++ [a]) p) ;;
  ret (Some a).

(** Whether the connection was there, and whether it was the last one: the session's
    listener is told. *)
Definition removeIncomingConnection (a : Z) : M Pool (bool * bool) :=
  let* p := get in
  match list_find (eq a) (mIncoming p) with
  | Some (i, _) =>
      modify (set_incoming (mMaxIncoming p) (delete i (mIncoming p))) ;;
      let* p := get in
      ret (true, zlen (mIncoming p) =? 0)
  | None => ret (false, false)
  end.

Definition preJoinThreadOwnership (tid : Z) : M Pool unit :=
  modify (fun p => set_mThreads ({[tid]} ∪ mThreads p) p).

(** The cleanup at the end of [join]. *)
Definition join_cleanup (tid : Z) : M Pool unit :=
  let* p := get in
  fatal_if (negb (bool_decide (tid ∈ mThreads p))) ;;
  modify (set_mThreads (mThreads p ∖ {[tid]})).
Definition join_remove (connection : option Z) : M Pool bool :=
  match connection with
  | Some a =>
      let* r := removeIncomingConnection a in
      fatal_if (negb (fst r)) ;;
      ret (snd r)
  | None => ret false
  end.

(** [waitForShutdown] returns, and the check after it in [shutdownAndWait]. *)
Definition shutdown_complete (p : Pool) : bool := zlen (mIncoming p) =? 0.
Definition shutdown_check : M Pool unit :=
  let* p := get in fatal_if (negb (bool_decide (mThreads p = ∅))).
