(* ===== verification/RpcPoolProps.v ===== *)
(** Theorems about the connections of an RPC session (RpcPool).

    The threads of a process run [find], nested calls, the end of calls, and the
    setup and end of connections in any order; the frames on a thread's stack say
    what it uses.  The C++ objects that hold connections are scoped, so frames are
    popped in the order opposite to their pushing. *)

From S2P Require Import Prelude Errors RpcPool.

(** * Threads *)

(** What a thread has on its stack: an [ExclusiveConnection], a connection that is
    being set up, the serving of a connection, or an incoming call with the value of
    [allowNested] to restore.  At the bottom, a thread of the session: in
    [mThreads], or already taken out at the end of [join]. *)
Inductive frame :=
| Held (c : Z) (reentrant : bool)
| Adding (c : Z)
| Serving (c : Z)
| Nesting (c : Z) (orig : bool)
| Joining
| Leaving.

Definition frame_connection (f : frame) : option Z :=
  match f with
  | Held c _ => Some c
  | Adding c => Some c
  | Serving c => Some c
  | Nesting c _ => Some c
  | _ => None
  end.

(** The connection a frame has for itself. *)
Definition owned_by (f : frame) : option Z :=
  match f with
  | Held c false => Some c
  | Adding c => Some c
  | Serving c => Some c
  | _ => None
  end.
Definition owned (k : list frame) : list Z := omap owned_by k.

(** [asleep]: the threads that wait in [find], for what, and whether they have been
    notified. *)
Record Sys := mkSys {
  pool : Pool;
  stacks : Z -> list frame;
  asleep : gmap Z (ConnectionUse * bool);
}.

Definition set_stack (t : Z) (k : list frame) (s : Z -> list frame) : Z -> list frame :=
  fun t' => if decide (t' = t) then k else s t'.

Definition uses (s : Sys) (t c : Z) : Prop := c ∈ omap frame_connection (stacks s t).

(** The system after a round of [find]. *)
Definition after (t : Z) (use : ConnectionUse) (a : attempt) (p : Pool) (s : Sys) : Sys :=
  match a with
  | Use c r => mkSys p (set_stack t (Held c r :: stacks s t) (stacks s)) (delete t (asleep s))
  | Refuse _ => mkSys p (stacks s) (delete t (asleep s))
  | Wait => mkSys p (stacks s) (<[t := (use, false)]> (asleep s))
  end.

(** [notify_one]. *)
Inductive wake : bool -> gmap Z (ConnectionUse * bool) -> gmap Z (ConnectionUse * bool) -> Prop :=
| wake_none m : wake false m m
| wake_nobody m : (forall t u, m !! t <> Some (u, false)) -> wake true m m
| wake_one m t u : m !! t = Some (u, false) -> wake true m (<[t := (u, true)]> m).

Definition new_sys : Sys := mkSys new_pool (fun _ => []) ∅.

Definition push (t : Z) (f : frame) (p : Pool) (s : Sys) : Sys :=
  mkSys p (set_stack t (f :: stacks s t) (stacks s)) (asleep s).
Definition pop (t : Z) (p : Pool) (s : Sys) : Sys :=
  mkSys p (set_stack t (tail (stacks s t)) (stacks s)) (asleep s).

(** One critical section of the thread [t].  A sleeping thread only runs when it
    wakes, with or without a notification. *)
Inductive step (t : Z) (s : Sys) : Sys -> Prop :=
| step_find use a p :
    asleep s !! t = None ->
    find t use (pool s) = Ret a p ->
    step t s (after t use a p s)
| step_wake use n a p :
    asleep s !! t = Some (use, n) ->
    find_again t use (pool s) = Ret a p ->
    step t s (after t use a p s)
| step_release c r k b p m :
    asleep s !! t = None ->
    stacks s t = Held c r :: k ->
    release (Some c) r (pool s) = Ret b p ->
    wake b (asleep s) m ->
    step t s (mkSys p (set_stack t k (stacks s)) m)
| step_add_begin c p :
    asleep s !! t = None ->
    add_outgoing_begin t (pool s) = Ret c p ->
    step t s (push t (Adding c) p s)
| step_add_end c k p :
    asleep s !! t = None ->
    stacks s t = Adding c :: k ->
    add_outgoing_end c (pool s) = Ret tt p ->
    step t s (pop t p s)
| step_join p :
    asleep s !! t = None ->
    stacks s t = [] ->
    preJoinThreadOwnership t (pool s) = Ret tt p ->
    step t s (push t Joining p s)
| step_assign c p :
    asleep s !! t = None ->
    stacks s t = [Joining] ->
    assignIncomingConnectionToThisThread t (pool s) = Ret (Some c) p ->
    step t s (push t (Serving c) p s)
| step_refused p :
    asleep s !! t = None ->
    stacks s t = [Joining] ->
    join_cleanup t (pool s) = Ret tt p ->
    step t s (pop t p s)
| step_cleanup c p :
    asleep s !! t = None ->
    stacks s t = [Serving c; Joining] ->
    join_cleanup t (pool s) = Ret tt p ->
    step t s (mkSys p (set_stack t [Serving c; Leaving] (stacks s)) (asleep s))
| step_remove c b p :
    asleep s !! t = None ->
    stacks s t = [Serving c; Leaving] ->
    join_remove (Some c) (pool s) = Ret b p ->
    step t s (mkSys p (set_stack t [] (stacks s)) (asleep s))
| step_nest c nested orig p :
    asleep s !! t = None ->
    c ∈ owned (stacks s t) ->
    allow_nested c nested (pool s) = Ret orig p ->
    step t s (push t (Nesting c orig) p s)
| step_unnest c orig k old p :
    asleep s !! t = None ->
    stacks s t = Nesting c orig :: k ->
    allow_nested c orig (pool s) = Ret old p ->
    step t s (pop t p s)
| step_version v b p :
    setProtocolVersion v (pool s) = Ret b p ->
    step t s (mkSys p (stacks s) (asleep s))
| step_incoming_limit n p :
    setMaxIncomingThreads n (pool s) = Ret tt p ->
    step t s (mkSys p (stacks s) (asleep s)).

Definition any_step (s s' : Sys) : Prop := exists t, step t s s'.
Definition reachable (s : Sys) : Prop := rtc any_step new_sys s.

(** * Searching *)

Definition tid_of (p : Pool) (c : Z) : option Z := connections p !! c ≫= exclusiveTid.
Definition nested_of (p : Pool) (c : Z) : bool :=
  match connections p !! c with Some x => conn_allowNested x | None => false end.
Definition known (p : Pool) (c : Z) : Prop := is_Some (connections p !! c).

Lemma wp_connection_at a x p Q :
  connections p !! a = Some x -> Q x p -> wp (connection_at a) p Q.
Proof. intros H ?. unfold connection_at. wp_steps. rewrite H. by wp_steps. Qed.

Lemma find_loop_spec t wanted sockets available p :
  Forall (known p) sockets ->
  wp (find_loop t wanted sockets available) p (fun r p' =>
    p' = p /\
    match fst r with
    | Some c => c ∈ sockets /\ tid_of p c = Some t
    | None => Forall (fun c => tid_of p c <> Some t) sockets
    end /\
    match snd r with
    | Some c => available = Some c \/ (wanted = true /\ c ∈ sockets /\ tid_of p c = None)
    | None => available = None /\
        (wanted = true -> fst r = None -> Forall (fun c => tid_of p c <> None) sockets)
    end).
Proof.
  revert available. induction sockets as [|a l IH]; intros available Hk; simpl.
  - apply wpg_ret. simpl. split_and!; [done|done|]. destruct available; auto.
  - apply Forall_cons in Hk as [[x Hx] Hl]. assert (Ht : tid_of p a = exclusiveTid x) by (unfold tid_of; by rewrite Hx).
    wp_step. apply (wp_connection_at _ x); [done|].
    destruct (wanted && bool_decide (available = None) && bool_decide (exclusiveTid x = None)) eqn:E.
    { apply andb_prop in E as [[-> ->%bool_decide_eq_true]%andb_prop E%bool_decide_eq_true].
      eapply wpg_mono; [by apply IH|]. cbv beta. intros [e d] p' (-> & H1 & H2); simpl in *.
      split; [done|]. split.
      - destruct e; [set_solver|]. by constructor; [rewrite Ht, E|].
      - destruct d as [d|]; [right|by destruct H2].
        destruct H2 as [[= ->]|(_ & ? & ?)]; (split_and!; [done|set_solver|congruence]). }
    destruct (decide (exclusiveTid x = Some t)) as [E2|E2].
    { rewrite bool_decide_true by done. wp_steps. simpl. split; [done|]. split; [split; [set_solver|congruence]|].
      by destruct available; [left|split]. }
    rewrite bool_decide_false by done.
    eapply wpg_mono; [by apply IH|]. cbv beta. intros [e d] p' (-> & H1 & H2); simpl in *.
    split; [done|]. split.
    + destruct e; [set_solver|]. by constructor; [rewrite Ht|].
    + destruct d as [d|].
      { destruct H2 as [?|(? & ? & ?)]; [by left|right; split_and!; [done|set_solver|done]]. }
      destruct H2 as [-> H2]. split; [done|].
      intros -> ->. constructor; [|by apply H2]. rewrite Ht. intros En. rewrite En in E.
      by rewrite !bool_decide_true in E.
Qed.

Definition offset_ok (off : Z) (l : list Z) : Prop :=
  0 <= off /\ ((l = [] /\ off = 0) \/ off < zlen l).

Lemma rotation_elem l off c : offset_ok off l -> c ∈ rotation l off <-> c ∈ l.
Proof.
  intros [H0 [[-> _]|Hlt]]; [done|]. unfold rotation. rewrite list_elem_of_omap.
  assert (Hn : zlen l = Z.of_nat (length l)) by done. split.
  - intros (i & _ & Hi). by eapply list_elem_of_lookup_2.
  - intros [j Hj]%list_elem_of_lookup_1. pose proof (lookup_lt_Some _ _ _ Hj).
    set (i := Z.to_nat ((Z.of_nat j - off) mod zlen l)).
    pose proof (Z.mod_pos_bound (Z.of_nat j - off) (zlen l) ltac:(lia)).
    exists i. split; [apply elem_of_seq; lia|].
    unfold i. rewrite Z2Nat.id by lia. rewrite Zplus_mod_idemp_l.
    replace (Z.of_nat j - off + off) with (Z.of_nat j) by lia. rewrite Z.mod_small by lia.
    by rewrite Nat2Z.id.
Qed.

Lemma findConnection_spec t wanted sockets off p :
  offset_ok off sockets -> Forall (known p) sockets ->
  wp (findConnection t wanted sockets off) p (fun r p' =>
    p' = p /\
    match fst r with
    | Some c => c ∈ sockets /\ tid_of p c = Some t
    | None => forall c, c ∈ sockets -> tid_of p c <> Some t
    end /\
    match snd r with
    | Some c => wanted = true /\ c ∈ sockets /\ tid_of p c = None
    | None => wanted = true -> fst r = None -> forall c, c ∈ sockets -> tid_of p c <> None
    end).
Proof.
  intros Ho Hk. assert (Hr := fun c => rotation_elem sockets off c Ho).
  unfold findConnection. wp_step.
  replace ((0 <? zlen sockets) && (zlen sockets <=? off)) with false.
  2:{ symmetry. apply andb_false_iff. destruct Ho as [? [[-> _]|?]]; [by left|right; lia]. }
  wp_step. eapply wpg_mono.
  { apply find_loop_spec. apply Forall_forall. intros c Hc. rewrite Forall_forall in Hk. by apply Hk, Hr. }
  cbv beta. intros r p' (-> & H1 & H2). split; [done|]. split.
  - destruct (fst r); [by rewrite <- Hr|]. intros c Hc. rewrite Forall_forall in H1. by apply H1, Hr.
  - destruct (snd r).
    + destruct H2 as [?|(? & ? & ?)]; [done|]. by rewrite <- Hr.
    + destruct H2 as [_ H2]. intros Hw E c Hc. specialize (H2 Hw E). rewrite Forall_forall in H2. by apply H2, Hr.
Qed.

(** * The invariant *)

Abbreviation listed p := (mOutgoing p ++ mIncoming p).

Record pool_ok (p : Pool) : Prop := {
  ok_offset : offset_ok (mOutgoingOffset p) (mOutgoing p);
  ok_nodup : NoDup (listed p);
  ok_known : forall c, c ∈ listed p -> known p c;
}.

(** Frames above the one that has the connection, and the bottom of a thread of the
    session. *)
Fixpoint scoped (k : list frame) : Prop :=
  match k with
  | [] => True
  | f :: k =>
      scoped k /\
      match f with
      | Held c true => c ∈ owned k
      | Nesting c _ => c ∈ owned k
      | Serving _ => k = [Joining] \/ k = [Leaving]
      | Joining => k = []
      | Leaving => k = []
      | _ => True
      end
  end.

(** Where the connection of a frame is listed. *)
Definition placed (p : Pool) (f : frame) : Prop :=
  match f with
  | Held c false => c ∈ mOutgoing p
  | Adding c => c ∈ mOutgoing p
  | Serving c => c ∈ mIncoming p
  | _ => True
  end.

Record inv (s : Sys) : Prop := {
  inv_pool : pool_ok (pool s);
  inv_tid c t : c ∈ listed (pool s) -> (tid_of (pool s) c = Some t <-> c ∈ owned (stacks s t));
  inv_owned t : NoDup (owned (stacks s t));
  inv_scoped t : scoped (stacks s t);
  inv_placed t f : f ∈ stacks s t -> placed (pool s) f;
  inv_threads t : t ∈ mThreads (pool s) <-> Joining ∈ stacks s t;
}.

Lemma elem_owned c k : c ∈ owned k <-> exists f, f ∈ k /\ owned_by f = Some c.
Proof. unfold owned. rewrite list_elem_of_omap. naive_solver. Qed.

Lemma owned_listed s t c : inv s -> c ∈ owned (stacks s t) -> c ∈ listed (pool s).
Proof.
  intros Hi (f & Hf & Ho)%elem_owned. pose proof (inv_placed _ Hi _ _ Hf) as Hp.
  apply elem_of_app. destruct f as [? []|?|?| | |]; simplify_eq/=; auto.
Qed.

Lemma scoped_uses k c : scoped k -> c ∈ omap frame_connection k -> c ∈ owned k.
Proof.
  induction k as [|f k IH]; [done|]. intros [Hk Hf]. unfold owned in *. simpl.
  destruct f as [d []|d|d|d b| |]; simpl in *;
    rewrite ?elem_of_cons; intros H; try destruct H as [->|H]; auto.
Qed.

Lemma serving_unique k c d : scoped k -> Serving c ∈ k -> Serving d ∈ k -> c = d.
Proof.
  induction k as [|f k IH]; intros Hk Hc Hd; [set_solver|]. destruct Hk as [Hk Hf].
  apply elem_of_cons in Hc as [<-|Hc], Hd as [Hd|Hd]; try congruence; [| |by apply IH].
  - destruct Hf as [->| ->]; set_solver.
  - subst f. destruct Hf as [->| ->]; set_solver.
Qed.

(** The connection a thread serves. *)
Lemma incoming_serving s t c :
  inv s -> c ∈ mIncoming (pool s) -> tid_of (pool s) c = Some t -> Serving c ∈ stacks s t.
Proof.
  intros Hi Hc Ht. assert (Hl : c ∈ listed (pool s)) by (apply elem_of_app; auto).
  apply (inv_tid _ Hi) in Ht as (f & Hf & Ho)%elem_owned; [|done].
  pose proof (inv_placed _ Hi _ _ Hf) as Hp.
  pose proof (ok_nodup _ (inv_pool _ Hi)) as (_ & Hdis & _)%list.NoDup_app.
  destruct f as [? []|?|?| | |]; simplify_eq/=; try done; by edestruct Hdis.
Qed.

(** * Finding a connection *)

(** The connection [c] in the hands of [o]. *)
Definition own (o : option Z) (c : Z) (p : Pool) : Pool :=
  set_connections (<[c := mkRpcConnection o (nested_of p c)]> (connections p)) p.

Lemma set_exclusiveTid_spec o c p :
  known p c -> wp (set_exclusiveTid o c) p (fun _ p' => p' = own o c p).
Proof.
  intros [x Hx]. unfold set_exclusiveTid, put_connection. wp_steps.
  apply (wp_connection_at _ x); [done|]. wp_steps. unfold own, nested_of. by rewrite Hx.
Qed.

(** A nested call, or a dec-strong, of the thread that serves [c] can use [c]. *)
Definition nestable (t : Z) (use : ConnectionUse) (p : Pool) (c : Z) : Prop :=
  c ∈ mIncoming p /\ tid_of p c = Some t /\ use <> CLIENT_ASYNC /\
  (nested_of p c = true \/ use = CLIENT_REFCOUNT).

(** The thread serves nothing, or a connection it cannot use. *)
Definition not_nestable (t : Z) (use : ConnectionUse) (p : Pool) : Prop :=
  use = CLIENT_ASYNC \/ (forall i, i ∈ mIncoming p -> tid_of p i <> Some t) \/
  exists i, i ∈ mIncoming p /\ tid_of p i = Some t /\ ~ nestable t use p i.

(** What a round of [find] gives. *)
Definition found (t : Z) (use : ConnectionUse) (p : Pool) (a : attempt) (p' : Pool) : Prop :=
  exists off, offset_ok off (mOutgoing p) /\
  let q := set_outgoing off (mOutgoing p) p in
  match a with
  | Use c true => p' = q /\ c ∈ listed p /\ tid_of p c = Some t /\
      (c ∈ mOutgoing p \/
       (c ∈ mIncoming p /\ use <> CLIENT_ASYNC /\ (nested_of p c = true \/ use = CLIENT_REFCOUNT)))
  | Use c false => p' = own (Some t) c q /\ c ∈ mOutgoing p /\ tid_of p c = None /\
      forall d, d ∈ mOutgoing p -> tid_of p d <> Some t
  | Refuse st => p' = q /\ st = WOULD_BLOCK /\ mOutgoing p = []
  | Wait => p' = q /\ mOutgoing p <> [] /\
      (forall d, d ∈ mOutgoing p -> exists t', t' <> t /\ tid_of p d = Some t') /\
      not_nestable t use p
  end.

Lemma advance_offset_spec use exclusive available p :
  offset_ok (mOutgoingOffset p) (mOutgoing p) ->
  (forall c, exclusive = Some c \/ available = Some c -> mOutgoing p <> []) ->
  wp (advance_offset use exclusive available) p (fun _ p' =>
    exists off, offset_ok off (mOutgoing p) /\ p' = set_outgoing off (mOutgoing p) p).
Proof.
  intros Ho Hne. unfold advance_offset.
  destruct (bool_decide (use = CLIENT_ASYNC) && _) eqn:E; wp_steps.
  - apply andb_prop in E as [_ E]. eexists. split; [|done].
    assert (mOutgoing p <> []) as Hl.
    { apply orb_prop in E as [E|E]; apply bool_decide_eq_true in E.
      - destruct exclusive as [c|]; [by apply (Hne c); left|done].
      - destruct available as [c|]; [by apply (Hne c); right|done]. }
    assert (0 < zlen (mOutgoing p)) by (destruct (mOutgoing p); [done|unfold zlen; simpl; lia]).
    pose proof (Z.mod_pos_bound (mOutgoingOffset p + 1) (zlen (mOutgoing p)) ltac:(lia)).
    split; [lia|right; lia].
  - exists (mOutgoingOffset p). split; [done|]. by destruct p.
Qed.

Lemma serving_socket_spec t use exclusive available p :
  Forall (known p) (mIncoming p) ->
  wp (serving_socket t use exclusive available) p (fun r p' =>
    p' = p /\ (r = exclusive /\ (available = None -> not_nestable t use p) \/
               exists c, r = Some c /\ nestable t use p c)).
Proof.
  intros Hk. unfold serving_socket. case_bool_decide as E; wp_steps.
  { split; [done|]. left. split; [done|]. intros _. by left. }
  eapply wpg_mono; [apply findConnection_spec; [by split; [lia|];
    destruct (mIncoming p); [left|right; unfold zlen; simpl; lia]|done]|].
  cbv beta. intros r p' (-> & H1 & _). destruct (fst r) as [i|]; wp_steps.
  2:{ split; [done|]. left. split; [done|]. intros _. by right; left. }
  destruct H1 as [Hi Ht]. rewrite Forall_forall in Hk. destruct (Hk i Hi) as [x Hx].
  apply (wp_connection_at _ x); [done|].
  assert (Hn : nested_of p i = conn_allowNested x) by (unfold nested_of; by rewrite Hx).
  destruct (conn_allowNested x).
  { wp_steps. split; [done|]. right. exists i. unfold nestable. rewrite Hn.
    split_and!; auto. }
  destruct (bool_decide (use = CLIENT_REFCOUNT) && _) eqn:E2; wp_steps; (split; [done|]).
  - apply andb_prop in E2 as [E2%bool_decide_eq_true _]. right. exists i. unfold nestable.
    split_and!; auto.
  - left. split; [done|]. intros ->. right. right. exists i. split; [done|]. split; [done|].
    intros (_ & _ & _ & Hor). destruct Hor as [?|Hu]; [congruence|].
    subst use. by rewrite !bool_decide_true in E2.
Qed.

Lemma try_find_spec t use p : pool_ok p -> wp (try_find t use) p (found t use p).
Proof.
  intros [Ho Hnd Hk].
  assert (Hko : Forall (known p) (mOutgoing p)) by (apply Forall_forall; intros; apply Hk, elem_of_app; auto).
  assert (Hki : Forall (known p) (mIncoming p)) by (apply Forall_forall; intros; apply Hk, elem_of_app; auto).
  unfold try_find. wp_steps. wp_use findConnection_spec; [done|done|].
  intros [e av] p' (-> & H1 & H2). simpl in H1, H2. wp_steps. wp_use advance_offset_spec; [done| |].
  { intros c [->| ->] En; simpl in *; [destruct H1 as [Hc _]|destruct H2 as (_ & Hc & _)];
      rewrite En in Hc; by apply elem_of_nil in Hc. }
  intros _ p' (off & Hoff & ->). wp_steps. wp_use serving_socket_spec; [done|].
  intros r p' (-> & Hr).
  destruct Hr as [[-> Hnn]|(c & -> & Hc & Htc & Hnest)].
  2:{ wp_steps. exists off. split; [done|]. simpl.
      split; [done|]. split; [apply elem_of_app; auto|]. split; [done|]. right. auto. }
  destruct e as [c|]; wp_steps.
  { destruct H1. exists off. split; [done|]. simpl.
    split; [done|]. split; [apply elem_of_app; auto|]. split; [done|]. by left. }
  destruct av as [c|].
  - destruct H2 as (_ & Hc & Htc). rewrite Forall_forall in Hko.
    wp_step. wp_use set_exclusiveTid_spec; [by apply Hko|]. intros _ p' ->. wp_steps.
    exists off. by split_and!.
  - destruct (zlen (mOutgoing p) =? 0) eqn:E; zb; wp_steps; exists off; (split; [done|]).
    + split_and!; try done. by destruct (mOutgoing p).
    + split_and!; [done|intros En; by rewrite En in E| |by apply Hnn]. intros d Hd. specialize (H1 d Hd).
      specialize (H2 eq_refl eq_refl d Hd). destruct (tid_of p d) as [t'|]; [|done].
      exists t'. split; congruence.
Qed.

Definition waits (d : Z) (p : Pool) : Pool := set_mWaitingThreads (mWaitingThreads p + d) p.

Lemma find_again_spec t use p :
  pool_ok p -> wp (find_again t use) p (fun a p' => exists q, found t use p a q /\
    p' = match a with Use _ _ => waits (-1) q | _ => q end).
Proof.
  intros Hp. unfold find_again. wp_steps. wp_use try_find_spec; [done|].
  intros a q Hq. destruct a; wp_steps; by exists q.
Qed.

Lemma pool_ok_waits d p : pool_ok p -> pool_ok (waits d p).
Proof. by intros []. Qed.

Lemma find_spec t use p :
  pool_ok p -> wp (find t use) p (fun a p' => exists q, found t use (waits 1 p) a q /\
    p' = match a with Use _ _ => waits (-1) q | _ => q end).
Proof.
  intros Hp. unfold find, add_waiting. wp_steps. apply find_again_spec. by apply (pool_ok_waits 1).
Qed.

(** * Preservation *)

Lemma stack_eq t k f : set_stack t k f t = k.
Proof. unfold set_stack. by rewrite decide_True. Qed.
Lemma stack_ne t t' k f : t' <> t -> set_stack t k f t' = f t'.
Proof. intros. unfold set_stack. by rewrite decide_False. Qed.

(** The same connections in the same hands; the offset may differ. *)
Record same_hands (p p' : Pool) : Prop := {
  sh_out : mOutgoing p' = mOutgoing p;
  sh_in : mIncoming p' = mIncoming p;
  sh_ok : pool_ok p';
  sh_tid c : tid_of p' c = tid_of p c;
}.

Lemma placed_mono p p' f :
  mOutgoing p ⊆ mOutgoing p' -> mIncoming p ⊆ mIncoming p' -> placed p f -> placed p' f.
Proof. intros H1 H2. destruct f as [? []|?|?| | |]; simpl; auto. Qed.

(** A step of [t] that changes no owner: it replaces its stack by [k]. *)
Lemma inv_keep s t k p m :
  inv s -> same_hands (pool s) p ->
  owned k = owned (stacks s t) -> scoped k ->
  (forall f, f ∈ k -> placed (pool s) f) ->
  (forall t', t' ∈ mThreads p <-> Joining ∈ set_stack t k (stacks s) t') ->
  inv (mkSys p (set_stack t k (stacks s)) m).
Proof.
  intros [Hp Ht Ho Hs Hpl Hth] [E1 E2 Hok E3] Hk Hsk Hpk Hthr.
  assert (Hown : forall t', owned (set_stack t k (stacks s) t') = owned (stacks s t')).
  { intros t'. destruct (decide (t' = t)) as [->|?]; by rewrite ?stack_eq, ?stack_ne. }
  split; simpl; [done| | | | |done].
  - intros c t' Hc. rewrite E1, E2 in Hc. by rewrite E3, Hown, (Ht c t' Hc).
  - intros t'. by rewrite Hown.
  - intros t'. destruct (decide (t' = t)) as [->|?]; by rewrite ?stack_eq, ?stack_ne.
  - intros t' f Hf. apply (placed_mono (pool s)); rewrite ?E1, ?E2; [done|done|].
    destruct (decide (t' = t)) as [->|?]; rewrite ?stack_eq, ?stack_ne in Hf by done; eauto.
Qed.

(** A step of [t] that takes the connection [c]. *)
Lemma inv_take s t f c p m :
  inv s -> pool_ok p ->
  owned_by f = Some c -> scoped (f :: stacks s t) -> placed p f ->
  (forall t', c ∉ owned (stacks s t')) ->
  mOutgoing (pool s) ⊆ mOutgoing p -> mIncoming (pool s) ⊆ mIncoming p ->
  (forall d, d ∈ listed p -> d = c \/ d ∈ listed (pool s)) ->
  tid_of p c = Some t -> (forall d, d <> c -> tid_of p d = tid_of (pool s) d) ->
  mThreads p = mThreads (pool s) ->
  inv (mkSys p (set_stack t (f :: stacks s t) (stacks s)) m).
Proof.
  intros [Hp Ht Ho Hs Hpl Hth] Hok Hf Hsc Hplf Hfresh Hout Hin Hl Htc Htd Hthr.
  assert (Hown : owned (f :: stacks s t) = c :: owned (stacks s t)) by (unfold owned; simpl; by rewrite Hf).
  split; simpl; [done| | | | |].
  - intros d t' Hd. destruct (decide (d = c)) as [->|Hne].
    + rewrite Htc. destruct (decide (t' = t)) as [->|?].
      * rewrite stack_eq, Hown. split; [set_solver|done].
      * rewrite stack_ne by done. split; [congruence|]. intros Hc. by destruct (Hfresh t').
    + destruct (Hl d Hd) as [?|Hd']; [done|]. rewrite Htd, (Ht d t' Hd') by done.
      destruct (decide (t' = t)) as [->|?]; [rewrite stack_eq, Hown|by rewrite stack_ne]. set_solver.
  - intros t'. destruct (decide (t' = t)) as [->|?]; [|by rewrite stack_ne].
    rewrite stack_eq, Hown. by constructor.
  - intros t'. destruct (decide (t' = t)) as [->|?]; [by rewrite stack_eq|by rewrite stack_ne].
  - intros t' g Hg. destruct (decide (t' = t)) as [->|?].
    + rewrite stack_eq in Hg. apply elem_of_cons in Hg as [->|Hg]; [done|].
      by apply (placed_mono (pool s)); eauto.
    + rewrite stack_ne in Hg by done. by apply (placed_mono (pool s)); eauto.
  - intros t'. rewrite Hthr, Hth. destruct (decide (t' = t)) as [->|?]; [|by rewrite stack_ne].
    rewrite stack_eq, elem_of_cons. split; [auto|]. intros [<-|]; done.
Qed.

(** A step of [t] that gives up the connection of its top frame. *)
Lemma inv_give s t f c k k' p m :
  inv s -> stacks s t = f :: k -> owned_by f = Some c -> pool_ok p ->
  owned k' = owned k -> scoped k' -> (forall g, g ∈ k' -> g ∈ k \/ owned_by g = None) ->
  (forall d, d ∈ listed p -> d ∈ listed (pool s) /\ (d = c -> tid_of p d = None)) ->
  (forall g, g ∈ k \/ (exists t', t' <> t /\ g ∈ stacks s t') ->
     placed (pool s) g -> owned_by g <> Some c -> placed p g) ->
  (forall d, d <> c -> tid_of p d = tid_of (pool s) d) ->
  (forall t', t' ∈ mThreads p <-> Joining ∈ set_stack t k' (stacks s) t') ->
  inv (mkSys p (set_stack t k' (stacks s)) m).
Proof.
  intros Hi Est Hf Hok Hk Hsc Hkk Hl Hpk Htd Hth.
  pose proof Hi as [Hp Ht Ho Hs Hpl _].
  assert (Hot : owned (stacks s t) = c :: owned k) by (rewrite Est; unfold owned; simpl; by rewrite Hf).
  pose proof (Ho t) as Hnd. rewrite Hot in Hnd. apply NoDup_cons in Hnd as [Hck Hndk].
  assert (Hcl : c ∈ listed (pool s)) by (apply (owned_listed s t); [done|rewrite Hot; set_solver]).
  assert (Hother : forall t', t' <> t -> c ∉ owned (stacks s t')).
  { intros t' Hne Hc. apply (Ht c t' Hcl) in Hc. assert (c ∈ owned (stacks s t)) as Hc' by (rewrite Hot; set_solver).
    apply (Ht c t Hcl) in Hc'. congruence. }
  split; simpl; [done| | | | |done].
  - intros d t' Hd. destruct (Hl d Hd) as [Hd' Hn]. destruct (decide (d = c)) as [->|Hne].
    + rewrite (Hn eq_refl). split; [done|]. intros Hc. exfalso. destruct (decide (t' = t)) as [->|?].
      * rewrite stack_eq, Hk in Hc. done.
      * rewrite stack_ne in Hc by done. by apply (Hother t').
    + rewrite Htd, (Ht d t' Hd') by done.
      destruct (decide (t' = t)) as [->|?]; [rewrite stack_eq, Hk, Hot|by rewrite stack_ne]. set_solver.
  - intros t'. destruct (decide (t' = t)) as [->|?]; [by rewrite stack_eq, Hk|by rewrite stack_ne].
  - intros t'. destruct (decide (t' = t)) as [->|?]; [by rewrite stack_eq|by rewrite stack_ne].
  - intros t' g Hg. destruct (decide (t' = t)) as [->|?].
    + rewrite stack_eq in Hg. destruct (Hkk g Hg) as [Hgk|Hn].
      * apply Hpk; [by left|apply (Hpl t); rewrite Est; set_solver|].
        intros E. apply Hck, elem_owned. eauto.
      * destruct g as [? []|?|?| | |]; try done.
    + rewrite stack_ne in Hg by done. apply Hpk; [right; eauto|eauto|].
      intros E. apply (Hother t'); [done|]. apply elem_owned. eauto.
Qed.

(** * The operations *)

Lemma tid_of_own o c p d : tid_of (own o c p) d = if decide (d = c) then o else tid_of p d.
Proof.
  unfold tid_of, own. simpl. case_decide as E; [subst; by rewrite lookup_insert_eq|].
  by rewrite lookup_insert_ne.
Qed.

Lemma pool_ok_insert c x p :
  pool_ok p -> pool_ok (set_connections (<[c := x]> (connections p)) p).
Proof.
  intros [Ho Hn Hk]. split; simpl; [done|done|]. intros d Hd. unfold known. simpl.
  destruct (decide (d = c)) as [->|?]; [rewrite lookup_insert_eq; eauto|].
  rewrite lookup_insert_ne by done. by apply Hk.
Qed.

Lemma pool_ok_offset off p :
  offset_ok off (mOutgoing p) -> pool_ok p -> pool_ok (set_outgoing off (mOutgoing p) p).
Proof. intros H []. by split. Qed.

Lemma release_spec c r p :
  known p c -> wp (release (Some c) r) p (fun b p' =>
    if r then b = false /\ p' = p
    else b = (0 <? mWaitingThreads p) /\ p' = own None c p).
Proof.
  intros Hk. unfold release. destruct r; wp_steps; [done|].
  wp_use set_exclusiveTid_spec; [done|]. intros _ p' ->. by wp_steps.
Qed.

Definition nest (c : Z) (nested : bool) (p : Pool) : Pool :=
  set_connections (<[c := mkRpcConnection (tid_of p c) nested]> (connections p)) p.

Lemma allow_nested_spec c nested p :
  known p c -> wp (allow_nested c nested) p (fun old p' => old = nested_of p c /\ p' = nest c nested p).
Proof.
  intros [x Hx]. unfold allow_nested, put_connection. wp_step.
  apply (wp_connection_at _ x); [done|]. wp_steps. unfold nest, nested_of, tid_of. by rewrite Hx.
Qed.

Lemma same_hands_nest c nested p : pool_ok p -> same_hands p (nest c nested p).
Proof.
  intros Hp. split; [done|done|by apply pool_ok_insert|]. intros d. unfold nest, tid_of. simpl.
  destruct (decide (d = c)) as [->|?]; [by rewrite lookup_insert_eq|by rewrite lookup_insert_ne].
Qed.

(** A new connection of [t] at the end of a list. *)
Lemma new_connection_spec x p :
  wp (new_connection x) p (fun c p' =>
    (c ∉ dom (connections p)) /\ p' = set_connections (<[c := x]> (connections p)) p).
Proof.
  unfold new_connection, put_connection. wp_steps. split; [apply is_fresh|done].
Qed.

Lemma add_outgoing_begin_spec t p :
  wp (add_outgoing_begin t) p (fun c p' => (c ∉ dom (connections p)) /\
    p' = set_outgoing (mOutgoingOffset p) (mOutgoing p ++ [c])
      (set_connections (<[c := mkRpcConnection (Some t) false]> (connections p)) p)).
Proof.
  unfold add_outgoing_begin. wp_step. wp_use new_connection_spec.
  intros c p' (Hc & ->). by wp_steps.
Qed.

Lemma assign_spec t p :
  wp (assignIncomingConnectionToThisThread t) p (fun r p' =>
    match r with
    | Some c => (c ∉ dom (connections p)) /\ zlen (mIncoming p) < pool_maxIncomingThreads p /\
        p' = set_incoming (zlen (mIncoming p) + 1) (mIncoming p ++ [c])
          (set_connections (<[c := mkRpcConnection (Some t) false]> (connections p)) p)
    | None => p' = p
    end).
Proof.
  unfold assignIncomingConnectionToThisThread. wp_steps.
  zcase (pool_maxIncomingThreads p <=? zlen (mIncoming p)); wp_steps; [done|].
  destruct (zlen (mIncoming p) <? mMaxIncoming p); wp_steps; [done|].
  wp_use new_connection_spec. intros c p' (Hc & ->). wp_steps. split; [done|]. split; [done|].
  simpl. by rewrite zlen_app.
Qed.

Lemma remove_spec c p :
  c ∈ mIncoming p -> NoDup (mIncoming p) ->
  wp (join_remove (Some c)) p (fun last p' => exists l,
    p' = set_incoming (mMaxIncoming p) l p /\ last = (zlen l =? 0) /\
    (forall d, d ∈ l <-> d ∈ mIncoming p /\ d <> c) /\ sublist l (mIncoming p)).
Proof.
  intros Hc Hnd. unfold join_remove, removeIncomingConnection. wp_steps.
  destruct (list_find (eq c) (mIncoming p)) as [[i d]|] eqn:E.
  - apply list_find_Some in E as (Hi & <- & _). wp_steps. eexists. split; [done|].
    split; [done|]. split; [|apply sublist_delete].
    intros d. rewrite delete_take_drop. split.
    + intros Hd. split.
      * rewrite <- (take_drop i (mIncoming p)), elem_of_app.
        apply elem_of_app in Hd as [?|Hd]; [by left|right].
        rewrite (drop_S _ c) by done. set_solver.
      * intros ->. rewrite <- (take_drop_middle _ _ _ Hi) in Hnd.
        apply list.NoDup_app in Hnd as (_ & H1 & [H2 _]%NoDup_cons).
        apply elem_of_app in Hd as [Hd|Hd]; [apply (H1 _ Hd); set_solver|done].
    + intros [Hd Hne]. rewrite <- (take_drop_middle _ _ _ Hi) in Hd. set_solver.
  - exfalso. apply list_find_None in E. rewrite Forall_forall in E. by apply (E c).
Qed.

(** * Every reachable state *)

Lemma same_hands_refl p : pool_ok p -> same_hands p p.
Proof. by split. Qed.

(** The pool after a round of [find], up to the counter. *)
Lemma inv_found s t use a q m n d :
  inv s -> found t use (waits n (pool s)) a q ->
  inv (match a with
       | Use c r => mkSys (waits d q) (set_stack t (Held c r :: stacks s t) (stacks s)) m
       | _ => mkSys (waits d q) (stacks s) m
       end).
Proof.
  intros Hi (off & Hoff & Hf). pose proof (inv_pool _ Hi) as Hpool.
  set (p := set_outgoing off (mOutgoing (pool s)) (waits n (pool s))) in *.
  assert (Hok : pool_ok p) by (apply (pool_ok_offset off (waits n (pool s))); [done|by apply pool_ok_waits]).
  assert (Hidle : inv (mkSys (waits d p) (stacks s) m)).
  { destruct Hi. split; simpl; [by apply pool_ok_waits|done|done|done|done|done]. }
  destruct a as [c []|st|].
  - destruct Hf as (-> & Hc & Htc & _).
    apply inv_keep; [done| |done| | |].
    + split; [done|done|by apply pool_ok_waits|done].
    + split; [apply (inv_scoped _ Hi)|]. by apply (inv_tid _ Hi).
    + intros f [->|Hf]%elem_of_cons; [done|]. by apply (inv_placed _ Hi t).
    + intros t'. simpl. rewrite (inv_threads _ Hi).
      destruct (decide (t' = t)) as [->|?]; [|by rewrite stack_ne].
      rewrite stack_eq, elem_of_cons. split; [auto|]. by intros [|].
  - destruct Hf as (-> & Hc & Htc & _).
    assert (Hcl : c ∈ listed (pool s)) by (apply elem_of_app; auto).
    assert (Hown : forall e, tid_of (waits d (own (Some t) c p)) e = if decide (e = c) then Some t else tid_of (pool s) e).
    { intros e. apply (tid_of_own (Some t) c p). }
    apply inv_take with (c := c); try done.
    + by apply pool_ok_waits, pool_ok_insert.
    + split; [apply (inv_scoped _ Hi)|done].
    + intros t' Hc'. apply (inv_tid _ Hi) in Hc'; [|done].
      change (tid_of (pool s) c = None) in Htc. congruence.
    + intros e He. by right.
    + by rewrite Hown, decide_True.
    + intros e He. by rewrite Hown, decide_False.
  - by destruct Hf as (-> & _).
  - by destruct Hf as (-> & _).
Qed.

Lemma waits_0 p : waits 0 p = p.
Proof. unfold waits. rewrite Z.add_0_r. by destruct p. Qed.

Lemma inv_after s t use a q n d :
  inv s -> found t use (waits n (pool s)) a q -> inv (after t use a (waits d q) s).
Proof.
  intros Hi Hf. pose proof (fun m => inv_found s t use a q m n d Hi Hf) as H.
  destruct a; apply H.
Qed.

Lemma known_owned s t c : inv s -> c ∈ owned (stacks s t) -> known (pool s) c.
Proof. intros Hi Hc. by eapply (ok_known _ (inv_pool _ Hi)), owned_listed. Qed.

Lemma joining_push f k : f <> Joining -> Joining ∈ k <-> Joining ∈ f :: k.
Proof. intros. rewrite elem_of_cons. naive_solver. Qed.

(** The threads of the session after a step that leaves them alone. *)
Lemma threads_same s t k p :
  inv s -> mThreads p = mThreads (pool s) -> (Joining ∈ k <-> Joining ∈ stacks s t) ->
  forall t', t' ∈ mThreads p <-> Joining ∈ set_stack t k (stacks s) t'.
Proof.
  intros Hi -> Hk t'. rewrite (inv_threads _ Hi).
  destruct (decide (t' = t)) as [->|?]; [by rewrite stack_eq|by rewrite stack_ne].
Qed.

(** Giving a connection back. *)
Lemma inv_own_none s t f c k m :
  inv s -> stacks s t = f :: k -> owned_by f = Some c -> f <> Joining ->
  inv (mkSys (own None c (pool s)) (set_stack t k (stacks s)) m).
Proof.
  intros Hi Est Hf Hj. pose proof (inv_scoped _ Hi t) as Hs. rewrite Est in Hs. destruct Hs as [Hs _].
  eapply inv_give; try done.
  - apply pool_ok_insert, (inv_pool _ Hi).
  - auto.
  - intros d Hd. split; [done|]. intros ->. by rewrite tid_of_own, decide_True.
  - intros d Hd. by rewrite tid_of_own, decide_False.
  - apply threads_same; [done|done|]. rewrite Est. by apply joining_push.
Qed.

Lemma listed_new p q c :
  (mOutgoing q = mOutgoing p ++ [c] /\ mIncoming q = mIncoming p \/
   mOutgoing q = mOutgoing p /\ mIncoming q = mIncoming p ++ [c]) ->
  listed q ≡ₚ c :: listed p.
Proof.
  intros [[-> ->]|[-> ->]].
  - rewrite <- app_assoc. symmetry. apply Permutation_middle.
  - rewrite app_assoc. symmetry. apply Permutation_cons_append.
Qed.

(** A new connection keeps the lists in order. *)
Lemma pool_ok_new p q c x :
  pool_ok p -> c ∉ dom (connections p) -> connections q = <[c := x]> (connections p) ->
  mOutgoingOffset q = mOutgoingOffset p ->
  (mOutgoing q = mOutgoing p ++ [c] /\ mIncoming q = mIncoming p \/
   mOutgoing q = mOutgoing p /\ mIncoming q = mIncoming p ++ [c]) ->
  pool_ok q.
Proof.
  intros [Ho Hn Hk] Hc Ec Eo Hl.
  assert (Hcl : c ∉ listed p) by (intros Hin; apply Hc, elem_of_dom; by apply Hk).
  pose proof (listed_new _ _ _ Hl) as Hperm.
  split.
  - rewrite Eo. destruct Ho as [Ho1 Ho2]. split; [done|]. destruct Hl as [[-> _]|[-> _]]; [|done].
    right. rewrite zlen_app. change (zlen [c]) with 1. pose proof (zlen_nonneg (mOutgoing p)).
    destruct Ho2 as [[_ ->]|?]; lia.
  - rewrite Hperm. by constructor.
  - intros d Hd. rewrite Hperm in Hd. unfold known. rewrite Ec.
    destruct (decide (d = c)) as [->|Hne]; [rewrite lookup_insert_eq; eauto|].
    rewrite lookup_insert_ne by done. apply Hk. set_solver.
Qed.

(** A new connection of [t]. *)
Lemma pool_inv_new s t f c p m :
  inv s -> c ∉ dom (connections (pool s)) -> owned_by f = Some c -> f <> Joining ->
  scoped (f :: stacks s t) -> placed p f ->
  connections p = <[c := mkRpcConnection (Some t) false]> (connections (pool s)) ->
  ((mOutgoing p = mOutgoing (pool s) ++ [c] /\ mIncoming p = mIncoming (pool s)) \/
   (mOutgoing p = mOutgoing (pool s) /\ mIncoming p = mIncoming (pool s) ++ [c])) ->
  mOutgoingOffset p = mOutgoingOffset (pool s) -> mThreads p = mThreads (pool s) ->
  inv (mkSys p (set_stack t (f :: stacks s t) (stacks s)) m).
Proof.
  intros Hi Hfresh Hf Hj Hs Hpl Hcon Hl Hoff Hth.
  destruct (inv_pool _ Hi) as [Ho Hnd Hk].
  assert (Hcl : c ∉ listed (pool s)).
  { intros Hc. apply Hfresh, elem_of_dom. by apply Hk. }
  pose proof (listed_new _ _ _ Hl) as Hperm.
  assert (Htid : forall d, tid_of p d = if decide (d = c) then Some t else tid_of (pool s) d).
  { intros d. unfold tid_of. rewrite Hcon. case_decide as E; [subst; by rewrite lookup_insert_eq|].
    by rewrite lookup_insert_ne. }
  apply inv_take with (c := c); try done.
  - by eapply pool_ok_new.
  - intros t' Hc. apply Hcl. by eapply owned_listed.
  - destruct Hl as [[-> _]|[-> _]]; set_solver.
  - destruct Hl as [[_ ->]|[_ ->]]; set_solver.
  - intros d Hd. rewrite Hperm in Hd. set_solver.
  - by rewrite Htid, decide_True.
  - intros d Hd. by rewrite Htid, decide_False.
Qed.

(** A served connection leaves the list. *)
Lemma inv_removed s t c l m :
  inv s -> stacks s t = [Serving c; Leaving] ->
  (forall d, d ∈ l <-> d ∈ mIncoming (pool s) /\ d <> c) -> sublist l (mIncoming (pool s)) ->
  inv (mkSys (set_incoming (mMaxIncoming (pool s)) l (pool s)) (set_stack t [] (stacks s)) m).
Proof.
  intros Hi Est Hl Hsub. destruct (inv_pool _ Hi) as [Ho Hnd Hk].
  assert (Hc : c ∈ mIncoming (pool s)) by (apply (inv_placed _ Hi t (Serving c)); rewrite Est; set_solver).
  pose proof (proj1 (list.NoDup_app _ _) Hnd) as (_ & Hdis & _).
  apply inv_give with (f := Serving c) (c := c) (k := [Leaving]); try done.
  - split; simpl; [done| |].
    + eapply sublist_NoDup; [exact Hnd|]. by apply sublist_app.
    + intros d Hd. apply Hk. apply elem_of_app in Hd as [?|Hd]; apply elem_of_app; [by left|right].
      by apply Hl in Hd as [? _].
  - intros g Hg. set_solver.
  - intros d Hd. simpl in Hd. apply elem_of_app in Hd as [Hd|Hd].
    + split; [apply elem_of_app; by left|]. intros ->. by destruct (Hdis c).
    + apply Hl in Hd as [Hd Hne]. split; [apply elem_of_app; by right|done].
  - intros g _ Hg Hne. destruct g as [? []|?|?| | |]; try done. simpl in *. apply Hl. split; [done|congruence].
  - apply threads_same; [done|done|]. rewrite Est. set_solver.
Qed.

Lemma scoped_stack s t f k : inv s -> stacks s t = f :: k -> scoped k.
Proof. intros Hi E. pose proof (inv_scoped _ Hi t) as Hs. rewrite E in Hs. apply Hs. Qed.

Lemma scoped_top s t f k c :
  inv s -> stacks s t = f :: k -> frame_connection f = Some c -> c ∈ owned (f :: k).
Proof.
  intros Hi E Hf. rewrite <- E. apply scoped_uses; [apply (inv_scoped _ Hi)|]. rewrite E. simpl.
  rewrite Hf. set_solver.
Qed.

Lemma setting_keeps s p m :
  inv s -> connections p = connections (pool s) -> mOutgoingOffset p = mOutgoingOffset (pool s) ->
  mOutgoing p = mOutgoing (pool s) -> mIncoming p = mIncoming (pool s) ->
  mThreads p = mThreads (pool s) -> inv (mkSys p (stacks s) m).
Proof.
  intros [[Ho Hn Hk] Ht Hown Hs Hp Hth] Ec Eo El Ei Et.
  split; simpl; [|by rewrite El, Ei; unfold tid_of; rewrite Ec|done|done| |by rewrite Et].
  - split; [by rewrite Eo, El|by rewrite El, Ei|]. rewrite El, Ei. intros c Hc. unfold known. rewrite Ec. by apply Hk.
  - intros t f Hf. apply (placed_mono (pool s)); rewrite ?El, ?Ei; eauto.
Qed.

(** The bottom frames of the threads of the session. *)
Lemma inv_threads_step s t k T m :
  inv s -> owned k = owned (stacks s t) -> scoped k ->
  (forall f, f ∈ k -> f ∈ stacks s t \/ f = Joining \/ f = Leaving) ->
  (t ∈ T <-> Joining ∈ k) -> (forall t', t' <> t -> t' ∈ T <-> t' ∈ mThreads (pool s)) ->
  inv (mkSys (set_mThreads T (pool s)) (set_stack t k (stacks s)) m).
Proof.
  intros Hi Hk Hs Hf Ht Hne. destruct (inv_pool _ Hi).
  apply inv_keep; [done|by split|done|done| |].
  - intros f [Hf'|[->| ->]]%Hf; [by apply (inv_placed _ Hi t)|done|done].
  - intros t'. simpl. destruct (decide (t' = t)) as [->|?]; [by rewrite stack_eq|].
    rewrite stack_ne, Hne by done. apply (inv_threads _ Hi).
Qed.

Lemma join_cleanup_spec t p :
  t ∈ mThreads p -> wp (join_cleanup t) p (fun _ p' => p' = set_mThreads (mThreads p ∖ {[t]}) p).
Proof. intros Ht. unfold join_cleanup. wp_steps. rewrite bool_decide_true by done. by wp_steps. Qed.

Lemma setProtocolVersion_spec v p :
  wp (setProtocolVersion v) p (fun b p' =>
    p' = (if b then set_mProtocolVersion (Some v) p else p) /\
    (b = true <-> (v < RPC_WIRE_PROTOCOL_VERSION_NEXT \/ v = RPC_WIRE_PROTOCOL_VERSION_EXPERIMENTAL) /\
                  forall w, mProtocolVersion p = Some w -> v <= w)).
Proof.
  unfold setProtocolVersion.
  zcase (RPC_WIRE_PROTOCOL_VERSION_NEXT <=? v); simpl.
  - zcase (v =? RPC_WIRE_PROTOCOL_VERSION_EXPERIMENTAL); simpl; wp_steps.
    2:{ split; [done|]. split; [done|]. intros [[?|?] _]; lia. }
    destruct (mProtocolVersion p) as [w|]; [zcase (w <? v)|]; wp_steps; (split; [done|]).
    + split; [done|]. intros [_ H]. specialize (H w eq_refl). lia.
    + split; [|done]. intros _. split; [by right|]. by intros ? [= <-].
    + split; [|done]. intros _. split; [by right|done].
  - wp_steps. destruct (mProtocolVersion p) as [w|]; [zcase (w <? v)|]; wp_steps; (split; [done|]).
    + split; [done|]. intros [_ H]. specialize (H w eq_refl). lia.
    + split; [|done]. intros _. split; [by left|]. by intros ? [= <-].
    + split; [|done]. intros _. split; [by left|done].
Qed.

Lemma wp_inv {S A} (m : M S A) s Q a s' : wp m s Q -> m s = Ret a s' -> Q a s'.
Proof. apply wpg_ret_inv. Qed.

Theorem step_inv t s s' : inv s -> step t s s' -> inv s'.
Proof.
  intros Hi Hs. pose proof (inv_pool _ Hi) as Hp. destruct Hs as
    [use a p Ha E|use n a p Ha E|c r k b p m Ha Est E Hw|c p Ha E|c k p Ha Est E|p Ha Est E|c p Ha Est E
    |p Ha Est E|c p Ha Est E|c b p Ha Est E|c nested orig p Ha Hc E|c orig k old p Ha Est E|v b p E|n p E].
  - apply (wp_inv _ _ _ _ _ (find_spec t use _ Hp)) in E as (q & Hq & ->).
    destruct a; [by apply (inv_after s t use _ _ 1 (-1))|..];
      rewrite <- (waits_0 q); by apply (inv_after s t use _ _ 1 0).
  - apply (wp_inv _ _ _ _ _ (find_again_spec t use _ Hp)) in E as (q & Hq & ->).
    rewrite <- (waits_0 (pool s)) in Hq.
    destruct a; [by apply (inv_after s t use _ _ 0 (-1))|..];
      rewrite <- (waits_0 q); by apply (inv_after s t use _ _ 0 0).
  - assert (Hk : known (pool s) c).
    { apply (known_owned s t); [done|]. rewrite Est. by apply (scoped_top s t). }
    apply (wp_inv _ _ _ _ _ (release_spec c r _ Hk)) in E. destruct r; destruct E as [-> ->].
    + apply inv_keep; [done|by apply same_hands_refl|by rewrite Est|by eapply scoped_stack| |].
      * intros f Hf. apply (inv_placed _ Hi t). rewrite Est. set_solver.
      * apply threads_same; [done|done|]. rewrite Est. by apply joining_push.
    + by eapply inv_own_none.
  - apply (wp_inv _ _ _ _ _ (add_outgoing_begin_spec t _)) in E as (Hc & ->).
    eapply pool_inv_new; try done; simpl; [split; [apply (inv_scoped _ Hi)|done]|set_solver|by left].
  - assert (Hk : known (pool s) c).
    { apply (known_owned s t); [done|]. rewrite Est. by apply (scoped_top s t). }
    apply (wp_inv _ _ _ _ _ (set_exclusiveTid_spec None c _ Hk)) in E as ->.
    unfold pop. rewrite Est. by eapply inv_own_none.
  - injection E as <-. unfold push. rewrite Est.
    apply inv_threads_step; [done|by rewrite Est|done|set_solver|set_solver|set_solver].
  - apply (wp_inv _ _ _ _ _ (assign_spec t _)) in E as (Hc & _ & ->).
    eapply pool_inv_new; try done; simpl; [|set_solver|by right].
    split; [apply (inv_scoped _ Hi)|by left].
  - assert (Ht : t ∈ mThreads (pool s)) by (apply (inv_threads _ Hi); rewrite Est; set_solver).
    apply (wp_inv _ _ _ _ _ (join_cleanup_spec t _ Ht)) in E as ->. unfold pop. rewrite Est.
    apply inv_threads_step; [done|by rewrite Est|done|set_solver|set_solver|set_solver].
  - assert (Ht : t ∈ mThreads (pool s)) by (apply (inv_threads _ Hi); rewrite Est; set_solver).
    apply (wp_inv _ _ _ _ _ (join_cleanup_spec t _ Ht)) in E as ->.
    apply inv_threads_step; [done|by rewrite Est|by split; [|right]|rewrite Est; set_solver|set_solver|set_solver].
  - assert (Hc : c ∈ mIncoming (pool s)) by (apply (inv_placed _ Hi t (Serving c)); rewrite Est; set_solver).
    pose proof (ok_nodup _ Hp) as (_ & _ & Hnd)%list.NoDup_app.
    apply (wp_inv _ _ _ _ _ (remove_spec c _ Hc Hnd)) in E as (l & -> & _ & Hl & Hsub).
    by eapply inv_removed.
  - assert (Hk : known (pool s) c) by (by eapply known_owned).
    apply (wp_inv _ _ _ _ _ (allow_nested_spec c nested _ Hk)) in E as [-> ->].
    apply inv_keep; [done|by apply same_hands_nest|done| | |].
    + split; [apply (inv_scoped _ Hi)|done].
    + intros f [->|Hf]%elem_of_cons; [done|]. by apply (inv_placed _ Hi t).
    + apply threads_same; [done|done|]. symmetry. by apply joining_push.
  - assert (Hk : known (pool s) c).
    { apply (known_owned s t); [done|]. rewrite Est. by apply (scoped_top s t). }
    apply (wp_inv _ _ _ _ _ (allow_nested_spec c orig _ Hk)) in E as [-> ->].
    unfold pop. rewrite Est.
    apply inv_keep; [done|by apply same_hands_nest|by rewrite Est|by eapply scoped_stack| |].
    + intros f Hf. apply (inv_placed _ Hi t). rewrite Est. set_solver.
    + apply threads_same; [done|done|]. rewrite Est. by apply joining_push.
  - apply (wp_inv _ _ _ _ _ (setProtocolVersion_spec v _)) in E as [-> _].
    by destruct b; apply setting_keeps.
  - unfold setMaxIncomingThreads, bind, get in E. simpl in E.
    destruct (has_connections (pool s)); [done|]. injection E as <-. by apply setting_keeps.
Qed.

Theorem pool_reachable_inv s : reachable s -> inv s.
Proof.
  unfold reachable. intros Hr. remember new_sys as s0 eqn:E0.
  assert (inv s0) as Hi.
  { subst s0. split; simpl.
    - split; simpl; [split; [done|by left]|constructor|]. intros c Hc. by apply elem_of_nil in Hc.
    - intros c t Hc. by apply elem_of_nil in Hc.
    - intros t. constructor.
    - done.
    - intros t f Hf. by apply elem_of_nil in Hf.
    - intros t. split; intros H; [set_solver|by apply elem_of_nil in H]. }
  clear E0. induction Hr as [|s0 s1 s2 [t Hs] _ IH]; [done|]. by apply IH, (step_inv t s0).
Qed.

Lemma uses_owned s t c : inv s -> uses s t c -> c ∈ owned (stacks s t).
Proof. intros Hi. apply scoped_uses, (inv_scoped _ Hi). Qed.

Lemma owned_uses s t c : c ∈ owned (stacks s t) -> uses s t c.
Proof.
  intros (f & Hf & Ho)%elem_owned. unfold uses. apply list_elem_of_omap. exists f.
  split; [done|]. by destruct f as [? []|?|?| | |].
Qed.

Lemma tid_uses s t c :
  inv s -> c ∈ listed (pool s) -> tid_of (pool s) c = Some t <-> uses s t c.
Proof.
  intros Hi Hc. rewrite (inv_tid _ Hi) by done.
  split; [apply owned_uses|by apply uses_owned].
Qed.

(** C27: At every moment, whatever the threads of a process have done with a session, a
    connection is used by at most one of them, and an outgoing connection is marked
    free exactly when nobody uses it.  From there, [ExclusiveConnection::find] never
    aborts: it gives the thread a connection it already uses, or else an outgoing one
    that nobody uses; it refuses only without outgoing connections, and makes the
    thread wait only when other threads use all of them. *)
Theorem connections_are_exclusive s :
  reachable s ->
  (forall t1 t2 c, uses s t1 c -> uses s t2 c -> t1 = t2) /\
  (forall c, c ∈ mOutgoing (pool s) -> tid_of (pool s) c = None <-> forall t, ~ uses s t c) /\
  (forall t use, wp (find t use) (pool s) (fun a _ =>
     match a with
     | Use c true => uses s t c
     | Use c false => c ∈ mOutgoing (pool s) /\ (forall t', ~ uses s t' c) /\
         forall d, d ∈ mOutgoing (pool s) -> ~ uses s t d
     | Refuse st => st = WOULD_BLOCK /\ mOutgoing (pool s) = []
     | Wait => mOutgoing (pool s) <> [] /\
         forall c, c ∈ mOutgoing (pool s) -> exists t', t' <> t /\ uses s t' c
     end)).
Proof.
  intros Hi%pool_reachable_inv.
  assert (Hout : forall c, c ∈ mOutgoing (pool s) -> c ∈ listed (pool s)) by (intros; apply elem_of_app; auto).
  assert (Hfree : forall c, c ∈ mOutgoing (pool s) -> tid_of (pool s) c = None <-> forall t, ~ uses s t c).
  { intros c Hc. split.
    - intros E t Hu. apply (tid_uses s t c Hi) in Hu; [congruence|auto].
    - intros Hu. destruct (tid_of (pool s) c) as [t|] eqn:E; [|done].
      apply (tid_uses s t c Hi) in E; [|auto]. by apply Hu in E. }
  split; [|split; [done|]].
  - intros t1 t2 c H1 H2. pose proof (uses_owned _ _ _ Hi H1) as Ho.
    pose proof (owned_listed _ _ _ Hi Ho) as Hl.
    apply (tid_uses _ _ _ Hi Hl) in H1, H2. congruence.
  - intros t use. wp_use find_spec; [apply (inv_pool _ Hi)|]. intros a _ (q & (off & _ & Hf) & _).
    change (tid_of (waits 1 (pool s))) with (tid_of (pool s)) in Hf.
    destruct a as [c []|st|]; simpl in Hf.
    + destruct Hf as (_ & Hc & Ht & _). by apply (tid_uses _ _ _ Hi Hc).
    + destruct Hf as (_ & Hc & Ht & Hn). split; [done|]. split; [by apply Hfree|].
      intros d Hd Hu. apply (Hn d Hd). apply (tid_uses s t d Hi); auto.
    + by destruct Hf as (_ & -> & ?).
    + destruct Hf as (_ & Hne & Hw & _). split; [done|]. intros c Hc.
      destruct (Hw c Hc) as (t' & ? & Ht). exists t'. split; [done|]. apply (tid_uses s t' c Hi); auto.
Qed.
