(* ===== verification/RpcPoolWake.v ===== *)
(** Waiting for a connection of an RPC session (RpcPool): no wake-up is lost, and what
    happens at the edges of a session's life, on concrete runs. *)

From S2P Require Import Prelude Errors RpcPool RpcPoolProps.

(** * Counting *)

(** The free outgoing connections, and the notified threads that have not run yet. *)
Definition free_in (p : Pool) (l : list Z) : list Z := filter (fun c => tid_of p c = None) l.
Definition free (p : Pool) : nat := length (free_in p (mOutgoing p)).
Definition notified (m : gmap Z (ConnectionUse * bool)) : gmap Z (ConnectionUse * bool) :=
  filter (fun x => x.2.2 = true) m.

Definition sleeper (m : gmap Z (ConnectionUse * bool)) : Prop := exists t u, m !! t = Some (u, false).

(** A connection is made available while a thread sleeps. *)
Definition late_add (s s' : Sys) : Prop :=
  exists t c, stacks s t = Adding c :: stacks s' t /\ sleeper (asleep s).

Definition prompt_step (s s' : Sys) : Prop := any_step s s' /\ ~ late_add s s'.

Lemma free_in_ext p p' l :
  (forall c, c ∈ l -> tid_of p' c = tid_of p c) -> free_in p' l = free_in p l.
Proof.
  unfold free_in. induction l as [|a l IH]; intros H; [done|].
  rewrite !filter_cons, IH by set_solver. rewrite H by set_solver. done.
Qed.

Lemma free_none p : (forall c, c ∈ mOutgoing p -> tid_of p c <> None) -> free p = 0%nat.
Proof.
  intros H. unfold free. rewrite (proj2 (length_zero_iff_nil _)); [done|].
  apply elem_of_nil_inv. intros c [Hc Hl]%list_elem_of_filter. by apply (H c).
Qed.

(** Changing the owner of one connection. *)
Lemma free_in_change p p' l c :
  NoDup l -> c ∈ l -> tid_of p' c <> None -> tid_of p c = None ->
  (forall d, d <> c -> tid_of p' d = tid_of p d) ->
  length (free_in p l) = S (length (free_in p' l)).
Proof.
  unfold free_in. induction l as [|a l IH]; intros Hnd Hc H' H Hd; [set_solver|].
  apply NoDup_cons in Hnd as [Ha Hnd]. rewrite !filter_cons.
  destruct (decide (a = c)) as [->|Hne].
  - rewrite decide_True, decide_False by done. simpl. f_equal. f_equal.
    symmetry. apply free_in_ext. intros d Hdl. apply Hd. intros ->. done.
  - assert (Hcl : c ∈ l) by set_solver. specialize (IH Hnd Hcl H' H Hd). rewrite (Hd a) by done.
    case_decide; simpl; by rewrite IH.
Qed.

Lemma notified_delete_other m t u : m !! t = Some (u, false) -> notified (delete t m) = notified m.
Proof.
  intros Ht. apply map_filter_delete_not. intros x Hx. rewrite Ht in Hx. by injection Hx as <-.
Qed.

Lemma notified_delete m t : (size (notified m) <= S (size (notified (delete t m))))%nat.
Proof.
  assert (notified (delete t m) = delete t (notified m)) as ->.
  { unfold notified. by rewrite map_filter_delete. }
  destruct (notified m !! t) as [x|] eqn:E.
  - rewrite map_size_delete_Some by eauto. lia.
  - rewrite delete_id by done. lia.
Qed.

Lemma notified_wake m t u :
  m !! t = Some (u, false) -> size (notified (<[t := (u, true)]> m)) = S (size (notified m)).
Proof.
  intros Ht. unfold notified. rewrite map_filter_insert_True by done.
  rewrite map_size_insert_None; [done|]. apply map_lookup_filter_None. right.
  intros x Hx. rewrite Ht in Hx. by injection Hx as <-.
Qed.

Lemma notified_sleep m t u :
  m !! t = None -> notified (<[t := (u, false)]> m) = notified m.
Proof.
  intros Ht. unfold notified. rewrite map_filter_insert_False by done. by rewrite delete_id.
Qed.

(** * The invariant *)

(** A thread that sleeps for [use] has no connection it could use again. *)
Definition must_wait (t : Z) (use : ConnectionUse) (p : Pool) : Prop :=
  (forall c, c ∈ mOutgoing p -> tid_of p c <> Some t) /\ forall c, ~ nestable t use p c.

Record wake_inv (s : Sys) : Prop := {
  wi_inv : inv s;
  wi_waiting : Z.of_nat (size (asleep s)) <= mWaitingThreads (pool s);
  wi_count : sleeper (asleep s) -> (free (pool s) <= size (notified (asleep s)))%nat;
  wi_must t u n : asleep s !! t = Some (u, n) -> must_wait t u (pool s);
}.

(** What another thread does leaves a sleeping thread where it is. *)
Lemma must_wait_mono t u p p' :
  must_wait t u p ->
  (forall c, c ∈ mOutgoing p' -> tid_of p' c = Some t -> c ∈ mOutgoing p /\ tid_of p c = Some t) ->
  (forall c, c ∈ mIncoming p' -> tid_of p' c = Some t ->
     c ∈ mIncoming p /\ tid_of p c = Some t /\ nested_of p' c = nested_of p c) ->
  must_wait t u p'.
Proof.
  intros [H1 H2] Ho Hin. split.
  - intros c Hc Ht. destruct (Ho c Hc Ht) as [Hc' Ht']. by apply (H1 c).
  - intros c (Hc & Ht & Hu & Hn). destruct (Hin c Hc Ht) as (Hc' & Ht' & En).
    apply (H2 c). by rewrite En in Hn.
Qed.

(** A pool that differs in counters only. *)
Lemma must_wait_same t u p p' :
  connections p' = connections p -> mOutgoing p' = mOutgoing p -> mIncoming p' = mIncoming p ->
  must_wait t u p -> must_wait t u p'.
Proof.
  intros E1 E2 E3 H. unfold must_wait, nestable, tid_of, nested_of in *. by rewrite E1, E2, E3.
Qed.

Lemma free_same p p' : connections p' = connections p -> mOutgoing p' = mOutgoing p -> free p' = free p.
Proof. intros E1 E2. unfold free, free_in, tid_of. by rewrite E1, E2. Qed.

Lemma inv_not_nestable s t u : inv s -> not_nestable t u (pool s) -> forall c, ~ nestable t u (pool s) c.
Proof.
  intros Hi Hn c Hc. pose proof Hc as (Hin & Ht & Hu & Hor).
  destruct Hn as [->|[Hno|(i & Hi1 & Hi2 & Hi3)]]; [done|by apply (Hno c)|].
  apply Hi3. replace i with c; [done|].
  eapply serving_unique; [apply (inv_scoped _ Hi t)| |]; by apply (incoming_serving s t).
Qed.

(** ** A round of [find] *)

Definition settled (a : attempt) (q : Pool) : Pool :=
  match a with Use _ _ => waits (-1) q | _ => q end.

(** The number of waiting threads counts [t] from its first round on. *)
Lemma settled_waiting t u p n a q :
  found t u (waits n p) a q ->
  mWaitingThreads (settled a q) = mWaitingThreads p + n + match a with Use _ _ => -1 | _ => 0 end.
Proof.
  intros (off & _ & Hf). destruct a as [c []|st|]; destruct Hf as (-> & _); simpl; lia.
Qed.

(** The state after a round by [t]: its first one, or one after it slept. *)
Lemma wake_round s t u a q n :
  wake_inv s -> found t u (waits n (pool s)) a q ->
  match asleep s !! t with None => n = 1 | Some (v, _) => v = u /\ n = 0 end ->
  inv (after t u a (settled a q) s) -> wake_inv (after t u a (settled a q) s).
Proof.
  intros [Hi Hw Hc Hm] Hfound Hv Hi'.
  pose proof (settled_waiting _ _ _ _ _ _ Hfound) as Hset.
  assert (Hlt : mWaitingThreads (settled a q) >=
    Z.of_nat (size (asleep (after t u a (settled a q) s)))).
  { rewrite Hset. destruct (asleep s !! t) as [[v b]|] eqn:Ea.
    - destruct Hv as [-> ->].
      assert (size (asleep s) = S (size (delete t (asleep s)))).
      { rewrite <- (insert_delete_id _ _ _ Ea) at 1. apply map_size_insert_None, lookup_delete_eq. }
      destruct a; simpl; rewrite ?map_size_insert_Some by eauto; lia.
    - subst n. destruct a; simpl; rewrite ?delete_id, ?map_size_insert_None by done; lia. }
  destruct Hfound as (off & Hoff & Hf).
  pose proof (inv_pool _ Hi) as Hp.
  set (r := set_outgoing off (mOutgoing (pool s)) (waits n (pool s))) in *.
  assert (Hdel : forall t' v b, delete t (asleep s) !! t' = Some (v, b) -> t' <> t /\ asleep s !! t' = Some (v, b)).
  { intros t' v b [? ?]%lookup_delete_Some. auto. }
  destruct a as [c []|st|]; simpl in *; (split; simpl; [done|lia| |]).
  - destruct Hf as (-> & Hl & Ht & Hor). intros (t' & v & Hs). destruct (Hdel _ _ _ Hs) as [Hne Hs'].
    rewrite (free_same (pool s)) by done.
    destruct (asleep s !! t) as [[v' b]|] eqn:Ea; [|rewrite delete_id by done; apply Hc; by eexists _, _].
    exfalso. destruct Hv as [-> ->]. destruct (Hm _ _ _ Ea) as [M1 M2].
    destruct Hor as [Ho|Hin]; [by apply (M1 c)|]. apply (M2 c). destruct Hin as (? & ? & ?). split_and!; auto.
  - destruct Hf as (-> & _). intros t' v b Hs. destruct (Hdel _ _ _ Hs) as [_ Hs'].
    by apply (must_wait_same _ _ (pool s)); eauto.
  - destruct Hf as (-> & Hl & Ht & Hno). intros (t' & v & Hs). destruct (Hdel _ _ _ Hs) as [Hne Hs'].
    pose proof (ok_nodup _ Hp) as (Hnd & _)%list.NoDup_app.
    pose proof (free_in_change (pool s) (waits (-1) (own (Some t) c r)) (mOutgoing (pool s)) c Hnd Hl) as Hfc.
    assert (Htid : forall e, tid_of (waits (-1) (own (Some t) c r)) e = if decide (e = c) then Some t else tid_of (pool s) e).
    { intros e. apply (tid_of_own (Some t) c r). }
    specialize (Hfc ltac:(by rewrite Htid, decide_True) Ht ltac:(intros e He; by rewrite Htid, decide_False)).
    assert (free (pool s) <= size (notified (asleep s)))%nat by (apply Hc; by eexists _, _).
    pose proof (notified_delete (asleep s) t). unfold free in *.
    match goal with |- context [free_in ?p' (mOutgoing ?p')] =>
      change (mOutgoing p') with (mOutgoing (pool s)) end.
    unfold r in Hfc. lia.
  - destruct Hf as (-> & Hl & Ht & Hno). intros t' v b Hs. destruct (Hdel _ _ _ Hs) as [Hne Hs'].
    assert (Htid : forall e, tid_of (waits (-1) (own (Some t) c r)) e = Some t' -> tid_of (pool s) e = Some t').
    { intros e. change (tid_of (own (Some t) c r) e = Some t' -> tid_of (pool s) e = Some t').
      rewrite tid_of_own. case_decide; [intros [= ->]; done|done]. }
    apply (must_wait_mono _ _ (pool s)); [by eauto|by auto|]. intros e He Het. split; [done|].
    split; [auto|]. unfold nested_of. simpl. destruct (decide (e = c)) as [->|?]; [|by rewrite lookup_insert_ne].
    rewrite lookup_insert_eq. done.
  - destruct Hf as (-> & _ & Hout). intros _.
    rewrite free_none; [lia|]. intros c Hc'. change (c ∈ mOutgoing (pool s)) in Hc'. rewrite Hout in Hc'.
    by apply elem_of_nil in Hc'.
  - destruct Hf as (-> & _). intros t' v b Hs. destruct (Hdel _ _ _ Hs) as [_ Hs'].
    by apply (must_wait_same _ _ (pool s)); eauto.
  - destruct Hf as (-> & _ & Hall & _). intros _.
    rewrite free_none; [lia|]. intros c Hc'. destruct (Hall c Hc') as (t' & _ & E).
    change (tid_of (pool s) c <> None). change (tid_of (pool s) c = Some t') in E. congruence.
  - destruct Hf as (-> & _ & Hall & Hn). intros t' v b [[<- [= <- <-]]|[Hne Hs]]%lookup_insert_Some.
    + split.
      * intros c Hc' E. destruct (Hall c Hc') as (t' & Hne & E').
        change (tid_of (pool s) c = Some t) in E. change (tid_of (pool s) c = Some t') in E'. congruence.
      * intros c Hc'. by apply (inv_not_nestable s t u Hi Hn c).
    + by apply (must_wait_same _ _ (pool s)); eauto.
Qed.

(** ** The other steps *)

Lemma wake_quiet s p k :
  wake_inv s -> inv (mkSys p k (asleep s)) ->
  mWaitingThreads p = mWaitingThreads (pool s) ->
  (sleeper (asleep s) -> free p <= free (pool s))%nat ->
  (forall t u n, asleep s !! t = Some (u, n) -> must_wait t u (pool s) -> must_wait t u p) ->
  wake_inv (mkSys p k (asleep s)).
Proof.
  intros [Hi Hw Hc Hm] Hi' Ew Hf Hmw. split; simpl; [done|by rewrite Ew| |by eauto].
  intros Hs. specialize (Hc Hs). specialize (Hf Hs). lia.
Qed.

(** What [t] changes about a connection of its own leaves the others waiting. *)
Lemma must_wait_other s t t' u c x :
  inv s -> c ∈ owned (stacks s t) -> t' <> t -> exclusiveTid x = None \/ exclusiveTid x = Some t ->
  must_wait t' u (pool s) ->
  must_wait t' u (set_connections (<[c := x]> (connections (pool s))) (pool s)).
Proof.
  intros Hi Hc Hne Hx Hm.
  assert (Hback : forall e, tid_of (set_connections (<[c := x]> (connections (pool s))) (pool s)) e = Some t' ->
    e <> c /\ tid_of (pool s) e = Some t').
  { intros e. unfold tid_of. simpl. destruct (decide (e = c)) as [->|?].
    - rewrite lookup_insert_eq. simpl. intros E. destruct Hx; congruence.
    - by rewrite lookup_insert_ne. }
  apply (must_wait_mono _ _ (pool s)); [done|by intros e He [_ ?]%Hback|].
  intros e He [Hec Het]%Hback. split; [done|]. split; [done|].
  unfold nested_of. simpl. by rewrite lookup_insert_ne.
Qed.

Lemma free_added p c x q :
  c ∉ dom (connections p) -> exclusiveTid x <> None -> (forall d, d ∈ mOutgoing p -> known p d) ->
  connections q = <[c := x]> (connections p) ->
  mOutgoing q = mOutgoing p ++ [c] \/ mOutgoing q = mOutgoing p ->
  free q = free p.
Proof.
  intros Hc Hx Hk Ec Eo.
  assert (Hext : free_in q (mOutgoing p) = free_in p (mOutgoing p)).
  { apply free_in_ext. intros d Hd. unfold tid_of. rewrite Ec, lookup_insert_ne; [done|].
    intros ->. apply Hc, elem_of_dom. by apply Hk. }
  unfold free. destruct Eo as [->| ->]; [|by rewrite Hext].
  unfold free_in at 1. rewrite filter_app. fold (free_in q (mOutgoing p)). rewrite Hext, filter_cons.
  rewrite decide_False; [by rewrite app_nil_r|]. unfold tid_of. by rewrite Ec, lookup_insert_eq.
Qed.

(** A new connection of [t]. *)
Lemma must_wait_new p q t t' u c :
  c ∉ dom (connections p) -> t' <> t ->
  connections q = <[c := mkRpcConnection (Some t) false]> (connections p) ->
  (forall d, d ∈ mOutgoing q -> d = c \/ d ∈ mOutgoing p) ->
  (forall d, d ∈ mIncoming q -> d = c \/ d ∈ mIncoming p) ->
  must_wait t' u p -> must_wait t' u q.
Proof.
  intros Hc Hne Ec Ho Hin Hm.
  assert (Hback : forall e, tid_of q e = Some t' -> e <> c /\ tid_of p e = Some t').
  { intros e. unfold tid_of. rewrite Ec. destruct (decide (e = c)) as [->|?].
    - rewrite lookup_insert_eq. simpl. congruence.
    - by rewrite lookup_insert_ne. }
  apply (must_wait_mono _ _ p); [done|..].
  - intros e He [Hec Het]%Hback. by destruct (Ho e He).
  - intros e He [Hec Het]%Hback. destruct (Hin e He); [done|]. split; [done|]. split; [done|].
    unfold nested_of. by rewrite Ec, lookup_insert_ne.
Qed.

(** Giving back an outgoing connection notifies a thread that sleeps. *)
Lemma wake_release s t c k b m :
  wake_inv s -> asleep s !! t = None -> stacks s t = Held c false :: k ->
  b = (0 <? mWaitingThreads (pool s)) -> wake b (asleep s) m ->
  inv (mkSys (own None c (pool s)) (set_stack t k (stacks s)) m) ->
  wake_inv (mkSys (own None c (pool s)) (set_stack t k (stacks s)) m).
Proof.
  intros [Hi Hw Hc Hm] Ha Est -> Hwk Hi'. pose proof (inv_pool _ Hi) as Hp.
  assert (Hco : c ∈ owned (stacks s t)) by (rewrite Est; unfold owned; simpl; set_solver).
  assert (Hout : c ∈ mOutgoing (pool s)) by (apply (inv_placed _ Hi t (Held c false)); rewrite Est; set_solver).
  assert (Ht : tid_of (pool s) c = Some t) by (apply (inv_tid _ Hi); [apply elem_of_app; auto|done]).
  assert (Hkeys : forall t' v n, m !! t' = Some (v, n) -> exists n', asleep s !! t' = Some (v, n')).
  { intros t' v n H. inversion Hwk; subst; eauto.
    apply lookup_insert_Some in H as [[<- [= <- <-]]|[_ H]]; eauto. }
  assert (Hsize : size m = size (asleep s)).
  { inversion Hwk; subst; try done. rewrite map_size_insert_Some; eauto. }
  split; simpl; [done|by rewrite Hsize| |].
  - intros (t' & v & Hs).
    pose proof (ok_nodup _ Hp) as (Hnd & _)%list.NoDup_app.
    pose proof (free_in_change (own None c (pool s)) (pool s) (mOutgoing (pool s)) c Hnd Hout) as Hfc.
    specialize (Hfc ltac:(congruence) ltac:(by rewrite tid_of_own, decide_True)
      ltac:(intros e He; by rewrite tid_of_own, decide_False)).
    change (free (own None c (pool s))) with (length (free_in (own None c (pool s)) (mOutgoing (pool s)))).
    rewrite Hfc. fold (free (pool s)).
    assert (Hold : asleep s !! t' = Some (v, false)).
    { inversion Hwk; subst; try done. by apply lookup_insert_Some in Hs as [[_ [=]]|[_ ?]]. }
    assert (0 < size (asleep s))%nat as Hpos.
    { apply Nat.neq_0_lt_0. intros E. apply map_size_empty_inv in E. by rewrite E in Hold. }
    replace (0 <? mWaitingThreads (pool s)) with true in Hwk by (symmetry; apply Z.ltb_lt; lia).
    assert (free (pool s) <= size (notified (asleep s)))%nat by (apply Hc; by eexists _, _).
    inversion Hwk as [|? Hnone|? t'' v'' Hsome]; subst; [by destruct (Hnone t' v)|].
    rewrite notified_wake by done. lia.
  - intros t' v n H. destruct (Hkeys _ _ _ H) as [n' H']. apply (must_wait_other s t); try done; [|by left|eauto].
    intros ->. congruence.
Qed.

(** A change of [allowNested] by the thread that uses the connection. *)
Lemma wake_nest s t c nested k :
  wake_inv s -> asleep s !! t = None -> c ∈ owned (stacks s t) ->
  inv (mkSys (nest c nested (pool s)) k (asleep s)) ->
  wake_inv (mkSys (nest c nested (pool s)) k (asleep s)).
Proof.
  intros Hwi Ha Hc Hi'. pose proof (wi_inv _ Hwi) as Hi.
  assert (Ht : tid_of (pool s) c = Some t).
  { apply (inv_tid _ Hi); [|done]. by eapply owned_listed. }
  apply wake_quiet; [done|done|done| |].
  - intros _. unfold free. erewrite free_in_ext; [done|]. intros d _.
    apply (sh_tid _ _ (same_hands_nest c nested (pool s) (inv_pool _ Hi))).
  - intros t' u n Ht'. apply (must_wait_other s t); [done|done| |by right].
    intros ->. congruence.
Qed.

Theorem wake_step s s' : wake_inv s -> prompt_step s s' -> wake_inv s'.
Proof.
  intros Hwi [[t Hs] Hlate]. pose proof Hwi as [Hi Hw Hc Hm]. pose proof (inv_pool _ Hi) as Hp.
  pose proof (step_inv t s s' Hi Hs) as Hi'.
  assert (Hne : forall t' u n, asleep s !! t = None -> asleep s !! t' = Some (u, n) -> t' <> t).
  { intros t' u n E1 E2 ->. congruence. }
  assert (Hk : forall c, c ∈ mOutgoing (pool s) -> known (pool s) c).
  { intros c Hc'. apply (ok_known _ Hp), elem_of_app. by left. }
  destruct Hs as
    [use a p Ha E|use n a p Ha E|c r k b p m Ha Est E Hwk|c p Ha E|c k p Ha Est E|p Ha Est E|c p Ha Est E
    |p Ha Est E|c p Ha Est E|c b p Ha Est E|c nested orig p Ha Hco E|c orig k old p Ha Est E|v b p E|n p E].
  - apply (wp_inv _ _ _ _ _ (find_spec t use _ Hp)) in E as (q & Hq & ->).
    apply (wake_round s t use a q 1); [done|done|by rewrite Ha|done].
  - apply (wp_inv _ _ _ _ _ (find_again_spec t use _ Hp)) in E as (q & Hq & ->).
    rewrite <- (waits_0 (pool s)) in Hq.
    apply (wake_round s t use a q 0); [done|done|by rewrite Ha|done].
  - assert (Hkc : known (pool s) c).
    { apply (known_owned s t); [done|]. rewrite Est. by apply (scoped_top s t). }
    apply (wp_inv _ _ _ _ _ (release_spec c r _ Hkc)) in E. destruct r; destruct E as [-> ->].
    + inversion Hwk; subst. by apply wake_quiet.
    + by eapply wake_release.
  - apply (wp_inv _ _ _ _ _ (add_outgoing_begin_spec t _)) in E as (Hf & ->).
    apply wake_quiet; [done|done|done| |].
    + intros _. erewrite (free_added (pool s)); [done|done| |done|done|by left]. done.
    + intros t' u n Ht'. apply (must_wait_new _ _ t _ _ c); try done; [by eauto| |]; simpl; set_solver.
  - assert (Hkc : known (pool s) c).
    { apply (known_owned s t); [done|]. rewrite Est. by apply (scoped_top s t). }
    apply (wp_inv _ _ _ _ _ (set_exclusiveTid_spec None c _ Hkc)) in E as ->.
    apply wake_quiet; [done|done|done| |].
    + intros Hsl. exfalso. apply Hlate. exists t, c. split; [|done]. unfold pop. simpl. by rewrite stack_eq, Est.
    + intros t' u n Ht'. apply (must_wait_other s t); [done| |by eauto|by left].
      rewrite Est. unfold owned. simpl. set_solver.
  - injection E as <-. by apply wake_quiet.
  - apply (wp_inv _ _ _ _ _ (assign_spec t _)) in E as (Hf & _ & ->).
    apply wake_quiet; [done|done|done| |].
    + intros _. erewrite (free_added (pool s)); [done|done| |done|done|by right]. done.
    + intros t' u n Ht'. apply (must_wait_new _ _ t _ _ c); try done; [by eauto| |]; simpl; set_solver.
  - assert (Ht : t ∈ mThreads (pool s)) by (apply (inv_threads _ Hi); rewrite Est; set_solver).
    apply (wp_inv _ _ _ _ _ (join_cleanup_spec t _ Ht)) in E as ->. by apply wake_quiet.
  - assert (Ht : t ∈ mThreads (pool s)) by (apply (inv_threads _ Hi); rewrite Est; set_solver).
    apply (wp_inv _ _ _ _ _ (join_cleanup_spec t _ Ht)) in E as ->. by apply wake_quiet.
  - assert (Hcin : c ∈ mIncoming (pool s)) by (apply (inv_placed _ Hi t (Serving c)); rewrite Est; set_solver).
    pose proof (ok_nodup _ Hp) as (_ & _ & Hnd)%list.NoDup_app.
    apply (wp_inv _ _ _ _ _ (remove_spec c _ Hcin Hnd)) in E as (l & -> & _ & Hl & Hsub).
    apply wake_quiet; [done|done|done|done|]. intros t' u n Ht' Hmw.
    apply (must_wait_mono _ _ (pool s)); [done|by auto|]. intros e He Het. split; [by apply Hl|done].
  - assert (Hkc : known (pool s) c) by (by eapply known_owned).
    apply (wp_inv _ _ _ _ _ (allow_nested_spec c nested _ Hkc)) in E as [-> ->].
    by eapply wake_nest.
  - assert (Hco : c ∈ owned (stacks s t)) by (rewrite Est; by apply (scoped_top s t)).
    assert (Hkc : known (pool s) c) by (by eapply known_owned).
    apply (wp_inv _ _ _ _ _ (allow_nested_spec c orig _ Hkc)) in E as [-> ->].
    by eapply wake_nest.
  - apply (wp_inv _ _ _ _ _ (setProtocolVersion_spec v _)) in E as [-> _].
    by destruct b; apply wake_quiet.
  - unfold setMaxIncomingThreads, bind, get in E. simpl in E.
    destruct (has_connections (pool s)); [done|]. injection E as <-. by apply wake_quiet.
Qed.

Theorem prompt_inv s : rtc prompt_step new_sys s -> wake_inv s.
Proof.
  intros Hr. remember new_sys as s0 eqn:E0.
  assert (wake_inv s0) as Hi.
  { subst s0. split; [by apply pool_reachable_inv, rtc_refl|done| |by intros ???].
    intros (t & u & Hs). done. }
  clear E0. induction Hr as [|s0 s1 s2 Hs _ IH]; [done|]. by apply IH, (wake_step s0).
Qed.

Lemma prompt_reachable s : rtc prompt_step new_sys s -> reachable s.
Proof. apply rtc_subrel. by intros ? ? [? _]. Qed.

(** C28: No wake-up is lost: over every history of a session's threads in which no
    connection is set up while a thread waits for one, if a thread sleeps in [find]
    without having been notified, then at least as many threads have been notified and
    are about to run as there are free outgoing connections.  In particular, when no
    notification is under way, other threads use every outgoing connection, so that
    the sleeping thread waits for an end of their calls and for nothing else. *)
Theorem no_lost_wakeup s t use :
  rtc prompt_step new_sys s ->
  asleep s !! t = Some (use, false) ->
  (free (pool s) <= size (notified (asleep s)))%nat /\
  ((forall t' u, asleep s !! t' <> Some (u, true)) ->
   forall c, c ∈ mOutgoing (pool s) -> exists t', t' <> t /\ uses s t' c).
Proof.
  intros Hr Ht. destruct (prompt_inv s Hr) as [Hi _ Hc Hm].
  assert (Hle : (free (pool s) <= size (notified (asleep s)))%nat) by (apply Hc; by eexists _, _).
  split; [done|]. intros Hnone c Hcl.
  assert (notified (asleep s) = ∅) as En.
  { apply map_empty. intros i. apply map_lookup_filter_None. right.
    intros [u []] Hx; simpl; [by destruct (Hnone i u)|done]. }
  rewrite En, map_size_empty in Hle.
  destruct (tid_of (pool s) c) as [t'|] eqn:E.
  - exists t'. split.
    + intros ->. destruct (Hm _ _ _ Ht) as [H _]. by apply (H c).
    + apply (tid_uses s t' c Hi); [apply elem_of_app; by left|done].
  - exfalso. assert (c ∈ free_in (pool s) (mOutgoing (pool s))) as Hf by (by apply list_elem_of_filter).
    unfold free in Hle. destruct (free_in (pool s) (mOutgoing (pool s))); [by apply elem_of_nil in Hf|simpl in Hle; lia].
Qed.

(** * Concrete runs *)

(** A session with the connection 0. *)
Definition one (tid : option Z) (waiting : Z) : Pool :=
  mkPool {[0 := mkRpcConnection tid false]} 0 10 None waiting 0 [0] 0 [] ∅.

(** Thread 1 has set it up and uses it; thread 2 waits for it. *)
Definition set_up_sys : Sys :=
  pop 1 (one None 0) (push 1 (Adding 0) (one (Some 1) 0) new_sys).
Definition busy_sys : Sys :=
  after 2 CLIENT Wait (one (Some 1) 1) (after 1 CLIENT (Use 0 false) (one (Some 1) 0) set_up_sys).

Lemma not_late s s' : asleep s = ∅ -> ~ late_add s s'.
Proof. intros E (t & c & _ & t' & u & Hs). by rewrite E in Hs. Qed.

Lemma busy_run : rtc prompt_step new_sys busy_sys.
Proof.
  eapply rtc_l; [split; [exists 1; by eapply (step_add_begin 1 new_sys 0 (one (Some 1) 0))|by apply not_late]|].
  eapply rtc_l; [split; [exists 1; by eapply (step_add_end 1 _ 0 [] (one None 0))|by apply not_late]|].
  eapply rtc_l; [split; [exists 1; by eapply (step_find 1 _ CLIENT (Use 0 false) (one (Some 1) 0))|by apply not_late]|].
  eapply rtc_l; [split; [exists 2; by eapply (step_find 2 _ CLIENT Wait (one (Some 1) 1))|by apply not_late]|].
  apply rtc_refl.
Qed.

Lemma no_lost_wakeup_witness :
  asleep busy_sys !! 2 = Some (CLIENT, false) /\
  forall c, c ∈ mOutgoing (pool busy_sys) -> exists t', t' <> 2 /\ uses busy_sys t' c.
Proof.
  split; [reflexivity|]. apply (no_lost_wakeup busy_sys 2 CLIENT busy_run); [reflexivity|].
  intros t' u H. change (<[2 := (CLIENT, false)]> (delete 1 (∅ : gmap Z (ConnectionUse * bool))) !! t' = Some (u, true)) in H.
  by apply lookup_insert_Some in H as [[_ [=]]|[_ [_ H]%lookup_delete_Some]].
Defined.

Lemma connections_are_exclusive_witness :
  uses busy_sys 1 0 /\ (forall t, uses busy_sys t 0 -> t = 1) /\
  wp (find 3 CLIENT) (pool busy_sys) (fun a _ => a = Wait).
Proof.
  assert (Hr : reachable busy_sys) by (apply prompt_reachable, busy_run).
  assert (Hu : uses busy_sys 1 0) by (unfold uses; simpl; set_solver).
  split; [exact Hu|]. split; [|reflexivity].
  intros t Ht. exact (proj1 (connections_are_exclusive busy_sys Hr) t 1 0 Ht Hu).
Defined.

(** A connection that is set up while a thread waits wakes nobody: thread 3 adds the
    connection 1, and thread 2 sleeps on, without a notification, beside it. *)
Definition two (tid : option Z) : Pool :=
  mkPool {[0 := mkRpcConnection (Some 1) false; 1 := mkRpcConnection tid false]} 0 10 None 1 0 [0; 1] 0 [] ∅.
Definition overslept_sys : Sys := pop 3 (two None) (push 3 (Adding 1) (two (Some 3)) busy_sys).

Lemma added_connection_wakes_nobody :
  reachable overslept_sys /\ asleep overslept_sys = {[2 := (CLIENT, false)]} /\
  1 ∈ mOutgoing (pool overslept_sys) /\ forall t, ~ uses overslept_sys t 1.
Proof.
  split; [|split; [reflexivity|split; [simpl; set_solver|]]].
  - eapply rtc_trans; [apply prompt_reachable, busy_run|].
    eapply rtc_l; [exists 3; by eapply (step_add_begin 3 _ 1 (two (Some 3)))|].
    eapply rtc_l; [exists 3; by eapply (step_add_end 3 _ 1 [] (two None))|].
    apply rtc_refl.
  - intros t. unfold uses. simpl. unfold set_stack. repeat case_decide; subst; try done;
      simpl; unfold set_stack; simpl; intros Hin%list_elem_of_In; simpl in Hin; intuition lia.
Qed.

(** A thread whose connection was refused, because another one has already ended, is
    still among the threads of the session when a shutdown that saw no incoming
    connection checks that there are none: the process aborts. *)
Lemma refused_thread_aborts_shutdown :
  exists s, reachable s /\ stacks s 2 = [Joining] /\
    assignIncomingConnectionToThisThread 2 (pool s) = Ret None (pool s) /\
    shutdown_complete (pool s) = true /\ shutdown_check (pool s) = Fatal.
Proof.
  eexists. split.
  - eapply rtc_l; [exists 0; eapply (step_incoming_limit 0 new_sys 2); by vm_compute|].
    eapply rtc_l; [exists 1; by eapply (step_join 1)|].
    eapply rtc_l; [exists 1; eapply (step_assign 1); by vm_compute|].
    eapply rtc_l; [exists 1; eapply (step_cleanup 1); by vm_compute|].
    eapply rtc_l; [exists 1; eapply (step_remove 1); by vm_compute|].
    eapply rtc_l; [exists 2; by eapply (step_join 2)|].
    apply rtc_refl.
  - split; [reflexivity|]. split; [vm_compute; reflexivity|]. split; vm_compute; reflexivity.
Qed.
