(* ===== verification/RpcTransportRaw.v ===== *)
(** The transport under a connection of an RPC session: src/libs/binder/RpcTransportRaw.cpp
    and FdTrigger.cpp.

    Messages are gathered from (or scattered to) a list of buffers, which the kernel
    moves in pieces of its own choosing.  The socket is a parameter: what
    sendmsg/recvmsg and poll answer, and whether the shutdown trigger is set, as
    functions of a state [E] of the world outside.  [moved] logs the addresses of the
    bytes that have gone through, in order, so that one theorem covers both
    directions. *)

From S2P Require Import Prelude Errors.

(** * FdTrigger *)

Definition POLLIN : Z := 1.
Definition POLLOUT : Z := 4.
Definition POLLERR : Z := 8.
Definition POLLHUP : Z := 16.
Definition POLLNVAL : Z := 32.

(** The answer of poll on the socket and the trigger's pipe. *)
Record poll_result := mkPoll {
  poll_ret : Z;
  poll_errno : Z;
  socket_revents : Z;
  trigger_revents : Z;
}.

Definition EAGAIN : Z := 11.

(** [transfer e n]: sendmsg or recvmsg of [n] bytes, with errno; [recv_peek e n]: recv
    with MSG_PEEK.  Calls interrupted by a signal are tried again before (EINTR). *)
Class Socket (E : Type) := {
  isTriggered : E -> bool;
  transfer : E -> Z -> E * (Z * Z);
  recv_peek : E -> Z -> E * (Z * Z);
  poll : E -> Z -> E * poll_result;
}.

Record TX (E : Type) := mkTX { tx_env : E; moved : list Z }.
Arguments mkTX {E}.
Arguments tx_env {E}.
Arguments moved {E}.

Section Transport.
Context {E : Type} `{Socket E}.

Definition poll_status (r : poll_result) (event : Z) : M (TX E) status_t :=
  if poll_ret r <? 0 then ret (- poll_errno r) else
  fatal_if (poll_ret r =? 0) ;;
  if negb (Z.land (trigger_revents r) POLLHUP =? 0) then ret DEAD_OBJECT else
  if negb (trigger_revents r =? 0) then ret UNKNOWN_ERROR else
  if negb (Z.land (socket_revents r) POLLNVAL =? 0) then ret BAD_VALUE else
  if negb (Z.land (socket_revents r) POLLERR =? 0) then ret DEAD_OBJECT else
  if negb (Z.land (socket_revents r) event =? 0) then ret OK else
  ret DEAD_OBJECT.

Definition triggerablePoll (event : Z) : M (TX E) status_t :=
  fatal_if (event =? 0) ;;
  let* s := get in
  let '(e, r) := poll (tx_env s) event in
  put (mkTX e (moved s)) ;;
  poll_status r event.

(** * RpcTransportRaw *)

Definition peek (size : Z) : M (TX E) (res Z) :=
  let* s := get in
  let '(e, (n, errno)) := recv_peek (tx_env s) size in
  put (mkTX e (moved s)) ;;
  if n <? 0 then ret (Err (if errno =? EAGAIN then WOULD_BLOCK else - errno)) else ret (Good n).

Record iovec := mkIovec { iov_base : Z; iov_len : Z }.

(** The addresses of the bytes of the buffers. *)
Definition addresses (iovs : list iovec) : list Z :=
  concat (map (fun v => map (fun i => iov_base v + Z.of_nat i) (seq 0 (Z.to_nat (iov_len v)))) iovs).
Definition total (iovs : list iovec) : Z := foldr (fun v n => iov_len v + n) 0 iovs.

(** The empty vectors at the end are left out. *)
Fixpoint drop_empty_end (iovs : list iovec) : list iovec :=
  match iovs with
  | [] => []
  | v :: rest =>
      match drop_empty_end rest with
      | [] => if iov_len v =? 0 then [] else [v]
      | rest' => v :: rest'
      end
  end.

(** The loop that takes [processSize] bytes off the vectors, and what is left of it. *)
Fixpoint advance (processSize : Z) (iovs : list iovec) : Z * list iovec :=
  match iovs with
  | [] => (processSize, [])
  | v :: rest =>
      if processSize <=? 0 then (processSize, iovs)
      else if processSize <? iov_len v
      then (processSize, mkIovec (iov_base v + processSize) (iov_len v - processSize) :: rest)
      else advance (processSize - iov_len v) rest
  end.

Fixpoint transfer_loop (fuel : nat) (event : Z) (altPoll : option (M (TX E) status_t))
    (havePolled : bool) (iovs : list iovec) : M (TX E) status_t :=
  match fuel with
  | 0%nat => fault
  | S fuel =>
      let wait (iovs : list iovec) : M (TX E) status_t :=
        match altPoll with
        | Some f =>
            let* status := f in
            if negb (status =? OK) then ret status else
            let* s := get in
            if isTriggered (tx_env s) then ret DEAD_OBJECT else
            transfer_loop fuel event altPoll havePolled iovs
        | None =>
            let* status := triggerablePoll event in
            if negb (status =? OK) then ret status else
            transfer_loop fuel event altPoll true iovs
        end in
      let* s := get in
      let '(e, (processSize, errno)) := transfer (tx_env s) (total iovs) in
      put (mkTX e (moved s ++ ztake processSize (addresses iovs))) ;;
      if processSize <? 0 then
        if havePolled || negb (errno =? EAGAIN) then ret (- errno) else wait iovs
      else if processSize =? 0 then ret DEAD_OBJECT
      else
        let '(remaining, iovs) := advance processSize iovs in
        match iovs with
        | [] => fatal_if (0 <? remaining) ;; ret OK
        | _ => wait iovs
        end
  end.

Definition interruptableReadOrWrite (fuel : nat) (iovs : list iovec) (event : Z)
    (altPoll : option (M (TX E) status_t)) : M (TX E) status_t :=
  let* s := get in
  if isTriggered (tx_env s) then ret DEAD_OBJECT else
  match drop_empty_end iovs with
  | [] => ret OK
  | iovs => transfer_loop fuel event altPoll false iovs
  end.

Definition interruptableWriteFully (fuel : nat) (iovs : list iovec)
    (altPoll : option (M (TX E) status_t)) : M (TX E) status_t :=
  interruptableReadOrWrite fuel iovs POLLOUT altPoll.
Definition interruptableReadFully (fuel : nat) (iovs : list iovec)
    (altPoll : option (M (TX E) status_t)) : M (TX E) status_t :=
  interruptableReadOrWrite fuel iovs POLLIN altPoll.
End Transport.

(** * The vectors *)

Definition sized (iovs : list iovec) : Prop := Forall (fun v => 0 <= iov_len v) iovs.
Definition ends_full (iovs : list iovec) : Prop :=
  match last iovs with Some v => 0 < iov_len v | None => True end.

Definition span (base len : Z) : list Z := map (fun i => base + Z.of_nat i) (seq 0 (Z.to_nat len)).

Lemma addresses_cons v l : addresses (v :: l) = span (iov_base v) (iov_len v) ++ addresses l.
Proof. done. Qed.

Lemma zlen_span base len : 0 <= len -> zlen (span base len) = len.
Proof. intros. unfold span, zlen. rewrite length_map, length_seq. lia. Qed.

Lemma span_split base len n :
  0 <= n <= len -> span base len = span base n ++ span (base + n) (len - n).
Proof.
  intros Hn. unfold span. replace (Z.to_nat len) with (Z.to_nat n + Z.to_nat (len - n))%nat by lia.
  rewrite seq_app, map_app. f_equal.
  replace (seq (0 + Z.to_nat n) (Z.to_nat (len - n)))
    with (Nat.add (Z.to_nat n) <$> seq 0 (Z.to_nat (len - n))) by (rewrite fmap_add_seq; f_equal; lia).
  unfold fmap. rewrite map_map. apply map_ext. intros i. lia.
Qed.

Lemma zdrop_ge {A} n (l : list A) : zlen l <= n -> zdrop n l = [].
Proof. unfold zdrop, zlen. intros. apply drop_ge. lia. Qed.

Lemma zdrop_app_ge {A} n (l k : list A) : zlen l <= n -> zdrop n (l ++ k) = zdrop (n - zlen l) k.
Proof.
  unfold zdrop, zlen. intros. rewrite drop_app_ge by lia. f_equal. lia.
Qed.

Lemma ztake_split {A} n m (l : list A) :
  0 <= n -> 0 <= m -> ztake n l ++ ztake m (zdrop n l) = ztake (n + m) l.
Proof.
  intros. unfold ztake, zdrop. rewrite Z2Nat.inj_add by done. by rewrite <- take_take_drop.
Qed.

Lemma total_nonneg iovs : sized iovs -> 0 <= total iovs.
Proof. induction 1; simpl; lia. Qed.

Lemma zlen_addresses iovs : sized iovs -> zlen (addresses iovs) = total iovs.
Proof.
  induction 1 as [|v l Hv _ IH]; [done|].
  rewrite addresses_cons, zlen_app, IH, zlen_span by done. done.
Qed.

Lemma ends_full_cons v l : ends_full (v :: l) -> l <> [] -> ends_full l.
Proof. by destruct l. Qed.

Lemma ends_full_total iovs : sized iovs -> ends_full iovs -> iovs <> [] -> 0 < total iovs.
Proof.
  induction 1 as [|v l Hv Hl IH]; [done|]. intros He _. pose proof (total_nonneg l Hl).
  simpl. destruct l as [|w l]; [unfold ends_full in He; simpl in He; lia|].
  specialize (IH He ltac:(done)). lia.
Qed.

Lemma drop_empty_end_spec iovs :
  sized iovs -> addresses (drop_empty_end iovs) = addresses iovs /\
  total (drop_empty_end iovs) = total iovs /\
  sized (drop_empty_end iovs) /\ ends_full (drop_empty_end iovs).
Proof.
  induction 1 as [|v l Hv Hl IH]; [by repeat split; constructor|]. destruct IH as (Ea & Et & Hs & He).
  cbn [drop_empty_end]. destruct (drop_empty_end l) as [|w rest] eqn:E.
  - rewrite addresses_cons, <- Ea. simpl. rewrite <- Et. zcase (iov_len v =? 0).
    + rewrite E0. simpl. by split_and!.
    + unfold addresses. simpl. rewrite app_nil_r. split; [by rewrite app_nil_r|]. split; [done|].
      split; [by repeat constructor|]. unfold ends_full. simpl. lia.
  - rewrite !addresses_cons in *. rewrite Ea. simpl in *. rewrite Et.
    split; [done|]. split; [done|]. split; [by constructor|done].
Qed.

Lemma advance_spec n iovs :
  sized iovs -> ends_full iovs -> 0 <= n <= total iovs ->
  let '(remaining, iovs') := advance n iovs in
  addresses iovs' = zdrop n (addresses iovs) /\ total iovs' = total iovs - n /\
  sized iovs' /\ ends_full iovs' /\ (iovs' = [] -> remaining = 0).
Proof.
  intros Hs. revert n. induction Hs as [|v l Hv Hl IH]; intros n He Hn; cbn [advance].
  - simpl in *. assert (n = 0) as -> by lia. by repeat split; try constructor.
  - zcase (n <=? 0).
    { assert (n = 0) as -> by lia. rewrite zdrop_0. split; [done|]. split; [lia|].
      by split; [constructor|]. }
    simpl in Hn. zcase (n <? iov_len v).
    + rewrite !addresses_cons. simpl. rewrite (span_split (iov_base v) (iov_len v) n) by lia.
      rewrite <- app_assoc, zdrop_app_exact by (by rewrite zlen_span by lia).
      split; [done|]. split; [lia|]. split; [constructor; [simpl; lia|done]|].
      split; [|done]. destruct l; [unfold ends_full; simpl; lia|done].
    + specialize (IH (n - iov_len v)).
      destruct l as [|w l'].
      { simpl in *. assert (n = iov_len v) as -> by lia. rewrite addresses_cons. unfold addresses at 2. simpl.
        rewrite app_nil_r, zdrop_ge by (rewrite zlen_span by lia; lia). split; [done|]. split_and!; try done; lia. }
      specialize (IH (ends_full_cons _ _ He ltac:(done)) ltac:(lia)).
      destruct (advance (n - iov_len v) (w :: l')) as [remaining iovs'].
      destruct IH as (Ea & Et & ? & ? & ?). rewrite Ea, Et, (addresses_cons v).
      split; [|split; [simpl; lia|done]].
      rewrite (zdrop_app_ge n) by (rewrite zlen_span by done; lia). by rewrite zlen_span.
Qed.

(** * The transfer *)

(** What POSIX says of the calls: no more bytes move than were asked for, a failure has
    an errno, and poll without a timeout does not return 0. *)
Class GoodSocket (E : Type) `{Socket E} := {
  transfer_bound e n : 0 < n -> (transfer e n).2.1 <= n;
  transfer_errno e n : 0 < n -> (transfer e n).2.1 < 0 -> 0 < (transfer e n).2.2;
  poll_answers e event : poll_ret (poll e event).2 <> 0;
}.

Section Proofs.
Context {E : Type} `{GoodSocket E}.

Implicit Types (s : TX E) (altPoll : option (M (TX E) status_t)).

(** The first [k] bytes of the vectors have moved, and all of them on success. *)
Definition transferred (iovs : list iovec) (s : TX E) (st : status_t) (s' : TX E) : Prop :=
  exists k, 0 <= k <= total iovs /\ moved s' = moved s ++ ztake k (addresses iovs) /\
  (st = OK <-> k = total iovs).

(** The wait between two rounds moves nothing. *)
Definition keeps_moved (altPoll : option (M (TX E) status_t)) : Prop :=
  forall f s st s', altPoll = Some f -> f s = Ret st s' -> moved s' = moved s.

Lemma triggerablePoll_spec event s :
  event <> 0 -> wp (triggerablePoll event) s (fun _ s' => moved s' = moved s).
Proof.
  intros He. unfold triggerablePoll. pose proof (poll_answers (tx_env s) event) as Hp.
  wp_step. replace (event =? 0) with false by (symmetry; by apply Z.eqb_neq). wp_steps.
  destruct (poll (tx_env s) event) as [e r]. simpl in Hp. wp_steps. unfold poll_status.
  repeat match goal with
  | |- wpg _ (if ?b then _ else _) _ _ => destruct b; wp_steps; [done|]
  end.
  replace (poll_ret r =? 0) with false by (symmetry; by apply Z.eqb_neq). wp_steps.
  repeat match goal with
  | |- wpg _ (if ?b then _ else _) _ _ => destruct b; wp_steps; [done|]
  end. done.
Qed.

(** What one round leaves to do. *)
Lemma round_spec iovs s e n errno :
  sized iovs -> ends_full iovs -> iovs <> [] ->
  transfer (tx_env s) (total iovs) = (e, (n, errno)) ->
  n <= total iovs /\ (n < 0 -> - errno <> OK) /\
  (0 < n -> let '(remaining, iovs') := advance n iovs in
    addresses iovs' = zdrop n (addresses iovs) /\ total iovs' = total iovs - n /\
    sized iovs' /\ ends_full iovs' /\ (iovs' = [] -> remaining = 0)).
Proof.
  intros Hs He Hne Et. pose proof (ends_full_total _ Hs He Hne) as Hpos.
  pose proof (transfer_bound (tx_env s) (total iovs) Hpos) as Hb.
  pose proof (transfer_errno (tx_env s) (total iovs) Hpos) as Hn. rewrite Et in Hb, Hn. simpl in *.
  split; [done|]. split; [unfold OK; lia|]. intros. apply advance_spec; [done|done|lia].
Qed.

Lemma transferred_none iovs s st s' :
  moved s' = moved s -> st <> OK -> 0 < total iovs -> transferred iovs s st s'.
Proof.
  intros Hm Hst Hpos. exists 0. split; [lia|]. split; [by rewrite Hm, app_nil_r|].
  split; [done|lia].
Qed.

(** A round that moves [n] bytes, and what the rest of the loop does. *)
Lemma transferred_step iovs iovs' n s s1 st s' :
  0 <= n <= total iovs -> sized iovs ->
  addresses iovs' = zdrop n (addresses iovs) -> total iovs' = total iovs - n ->
  moved s1 = moved s ++ ztake n (addresses iovs) ->
  transferred iovs' s1 st s' -> transferred iovs s st s'.
Proof.
  intros Hn Hs Ea Et Hm (k & Hk & Hm' & Hok). exists (n + k).
  split; [lia|]. split; [|rewrite Hok; lia].
  by rewrite Hm', Hm, <- app_assoc, Ea, ztake_split by lia.
Qed.

(** Every run of the loop that returns. *)
Lemma transfer_loop_moves fuel event altPoll havePolled iovs s st s' :
  event <> 0 -> keeps_moved altPoll -> sized iovs -> ends_full iovs -> iovs <> [] ->
  transfer_loop fuel event altPoll havePolled iovs s = Ret st s' -> transferred iovs s st s'.
Proof.
  intros Hev Hk. revert havePolled iovs s. induction fuel as [|fuel IH]; [done|].
  intros havePolled iovs s Hs He Hne. pose proof (ends_full_total _ Hs He Hne) as Hpos.
  assert (Hwait : forall b iovs' s1, sized iovs' -> ends_full iovs' -> iovs' <> [] ->
    match altPoll with
    | Some f =>
        let* status := f in
        if negb (status =? OK) then ret status else
        let* s := get in
        if isTriggered (tx_env s) then ret DEAD_OBJECT else
        transfer_loop fuel event altPoll b iovs'
    | None =>
        let* status := triggerablePoll event in
        if negb (status =? OK) then ret status else
        transfer_loop fuel event altPoll true iovs'
    end s1 = Ret st s' -> transferred iovs' s1 st s').
  { intros b iovs' s1 Hs1 He1 Hne1 Hr. pose proof (ends_full_total _ Hs1 He1 Hne1) as Hpos1.
    assert (Hrest : forall c s2, moved s2 = moved s1 -> transfer_loop fuel event altPoll c iovs' s2 = Ret st s' ->
      transferred iovs' s1 st s').
    { intros c s2 Hm Hr2. apply IH in Hr2; [|done|done|done]. destruct Hr2 as (k & ? & Hmk & ?).
      exists k. by rewrite Hmk, Hm. }
    destruct altPoll as [f|]; apply bind_ret_inv in Hr as (st1 & s2 & E1 & Hr).
    - assert (Hm : moved s2 = moved s1) by exact (Hk f _ _ _ eq_refl E1). zcase (st1 =? OK); simpl in Hr.
      + apply bind_ret_inv in Hr as (? & ? & [= <- <-] & Hr).
        destruct (isTriggered (tx_env s2)); [|by apply (Hrest b s2)].
        apply ret_inj in Hr as [<- <-]. by apply transferred_none.
      + apply ret_inj in Hr as [<- <-]. by apply transferred_none.
    - assert (Hm : moved s2 = moved s1).
      { exact (wpg_ret_inv False _ _ _ _ _ (triggerablePoll_spec event s1 Hev) E1). }
      zcase (st1 =? OK); simpl in Hr; [by apply (Hrest true s2)|].
      apply ret_inj in Hr as [<- <-]. by apply transferred_none. }
  cbn [transfer_loop]. intros Hr. apply bind_ret_inv in Hr as (? & ? & [= <- <-] & Hr).
  destruct (transfer (tx_env s) (total iovs)) as [e [n errno]] eqn:Et.
  destruct (round_spec iovs s e n errno Hs He Hne Et) as (Hle & Herr & Hadv).
  apply bind_ret_inv in Hr as (? & s1 & [= <- <-] & Hr). simpl in Hr.
  zcase (n <? 0).
  - assert (ztake n (addresses iovs) = []) as Enil by (unfold ztake; by replace (Z.to_nat n) with 0%nat by lia).
    rewrite Enil, app_nil_r in Hr.
    destruct (havePolled || _).
    + apply ret_inj in Hr as [<- <-]. apply transferred_none; [done|by apply Herr|done].
    + apply Hwait in Hr; try done.
  - zcase (n =? 0).
    { apply ret_inj in Hr as [<- <-]. subst n. apply transferred_none; [simpl; apply app_nil_r|done|done]. }
    specialize (Hadv ltac:(lia)). destruct (advance n iovs) as [remaining iovs'].
    destruct Hadv as (Ea & Et' & Hs' & He' & Hrem). destruct iovs' as [|v l].
    + rewrite Hrem in Hr by done. apply ret_inj in Hr as [<- <-]. simpl in Et'.
      exists n. split; [lia|]. split; [done|]. split; [lia|done].
    + apply Hwait in Hr; try done.
      eapply (transferred_step iovs (v :: l) n); [lia|done|done|done| |exact Hr]. reflexivity.
Qed.

(** Without an alternative to polling, the loop ends: each round but one moves bytes. *)
Lemma transfer_loop_returns fuel event (havePolled : bool) iovs s :
  event <> 0 -> sized iovs -> ends_full iovs -> iovs <> [] ->
  total iovs + (if havePolled then 0 else 1) <= Z.of_nat fuel ->
  wp (transfer_loop fuel event None havePolled iovs) s (fun (_ : status_t) (_ : TX E) => True).
Proof.
  intros Hev. revert havePolled iovs s. induction fuel as [|fuel IH]; intros havePolled iovs s Hs He Hne Hf.
  { pose proof (ends_full_total _ Hs He Hne). destruct havePolled; lia. }
  pose proof (ends_full_total _ Hs He Hne) as Hpos.
  cbn [transfer_loop]. wp_steps.
  destruct (transfer (tx_env s) (total iovs)) as [e [n errno]] eqn:Et.
  destruct (round_spec iovs s e n errno Hs He Hne Et) as (Hle & Herr & Hadv). wp_steps.
  assert (Hwait : forall iovs' s1, sized iovs' -> ends_full iovs' -> iovs' <> [] -> total iovs' <= Z.of_nat fuel ->
    wp (triggerablePoll event) s1 (fun status s2 =>
      wp (if negb (status =? OK) then ret status else transfer_loop fuel event None true iovs') s2
        (fun (_ : status_t) (_ : TX E) => True))).
  { intros. wp_use triggerablePoll_spec; [done|]. intros st s2 _.
    destruct (negb (st =? OK)); wp_steps; [done|]. apply IH; auto. lia. }
  zcase (n <? 0).
  - destruct (havePolled || _) eqn:Eh; wp_steps; [done|]. apply Hwait; try done.
    destruct havePolled; [done|lia].
  - zcase (n =? 0); wp_steps; [done|].
    specialize (Hadv ltac:(lia)). destruct (advance n iovs) as [remaining iovs'].
    destruct Hadv as (Ea & Et' & Hs' & He' & Hrem). destruct iovs' as [|v l].
    + rewrite Hrem by done. by wp_steps.
    + wp_step. apply Hwait; try done. destruct havePolled; lia.
Qed.

(** The bytes of a message go through a raw socket in order, each once, however
    the kernel splits them: when interruptableReadOrWrite returns, a prefix of the
    bytes of its buffers, taken in order across buffer boundaries and empty buffers,
    has been moved; it is all of them if the status is OK.  It never reaches the abort
    for bytes beyond the end of the vectors.  With polling it returns within one round
    more than the message has bytes, so a peer cannot keep it busy; only an altPoll
    callback can make it run longer. *)
Theorem raw_transfer_in_order fuel iovs event altPoll s :
  event <> 0 -> sized iovs -> keeps_moved altPoll ->
  (forall st s', interruptableReadOrWrite fuel iovs event altPoll s = Ret st s' ->
     exists k, 0 <= k <= total iovs /\ moved s' = moved s ++ ztake k (addresses iovs) /\
       (st = OK -> k = total iovs)) /\
  (altPoll = None -> total iovs + 1 <= Z.of_nat fuel ->
   wp (interruptableReadOrWrite fuel iovs event altPoll) s (fun st s' =>
     st = OK -> moved s' = moved s ++ addresses iovs)).
Proof.
  intros Hev Hs Hk. destruct (drop_empty_end_spec iovs Hs) as (Ea & Et & Hs' & He).
  pose proof (total_nonneg _ Hs).
  assert (Hret : forall st s', interruptableReadOrWrite fuel iovs event altPoll s = Ret st s' ->
     exists k, 0 <= k <= total iovs /\ moved s' = moved s ++ ztake k (addresses iovs) /\ (st = OK -> k = total iovs)).
  { intros st s' Hr. unfold interruptableReadOrWrite in Hr.
    apply bind_ret_inv in Hr as (? & ? & [= <- <-] & Hr).
    destruct (isTriggered (tx_env s)).
    { apply ret_inj in Hr as [<- <-]. exists 0. split; [lia|]. by rewrite app_nil_r. }
    destruct (drop_empty_end iovs) as [|v l] eqn:En.
    { apply ret_inj in Hr as [<- <-]. simpl in Et. exists 0. rewrite app_nil_r. split; [lia|]. split; [done|lia]. }
    apply transfer_loop_moves in Hr as (k & ? & Hm & ?); try done. exists k.
    rewrite <- Ea, <- Et. split; [done|]. split; [done|]. naive_solver. }
  split; [done|]. intros -> Hf. apply wp_run.
  assert (Hw : wp (interruptableReadOrWrite fuel iovs event None) s (fun (_ : status_t) (_ : TX E) => True)).
  { unfold interruptableReadOrWrite. wp_steps. destruct (isTriggered (tx_env s)); wp_steps; [done|].
    destruct (drop_empty_end iovs) as [|v l] eqn:En; wp_steps; [done|].
    apply transfer_loop_returns; try done. lia. }
  apply wp_run in Hw as (st & s' & Hr & _). exists st, s'. split; [done|]. intros ->.
  destruct (Hret _ _ Hr) as (k & _ & -> & Hall). rewrite Hall by done.
  by rewrite ztake_ge by (rewrite zlen_addresses by done; lia).
Qed.
End Proofs.

(** A socket that is not ready at first and then moves at most three bytes a time. *)
#[export] Instance slow_socket : Socket nat := {
  isTriggered _ := false;
  transfer e n := (S e, if decide (e = 0%nat) then (-1, EAGAIN) else (Z.min 3 n, 0));
  recv_peek e n := (e, (Z.min 3 n, 0));
  poll e event := (e, mkPoll 1 0 event 0);
}.

#[export] Instance slow_socket_good : GoodSocket nat.
Proof.
  split; intros; simpl in *; [case_decide; simpl; lia| |done].
  case_decide; simpl in *; [done|lia].
Qed.

Lemma raw_transfer_in_order_witness :
  wp (interruptableWriteFully 10 [mkIovec 0 2; mkIovec 50 0; mkIovec 100 5; mkIovec 200 0] None) (mkTX 0%nat [])
    (fun st s' => st = OK -> moved s' = [0; 1; 100; 101; 102; 103; 104]).
Proof.
  apply (raw_transfer_in_order 10 [mkIovec 0 2; mkIovec 50 0; mkIovec 100 5; mkIovec 200 0] POLLOUT None
    (mkTX 0%nat [])); [done|by repeat constructor|done|done|done].
Defined.

Example raw_transfer_succeeds :
  interruptableWriteFully 10 [mkIovec 0 2; mkIovec 50 0; mkIovec 100 5; mkIovec 200 0] None (mkTX 0%nat [])
  = Ret OK (mkTX 4%nat [0; 1; 100; 101; 102; 103; 104]).
Proof. reflexivity. Qed.
