(* ===== verification/RpcSetup.v ===== *)
(** Setting up the connections of RPC sessions: src/libs/binder/RpcServer.cpp and the
    setup part of RpcSession.cpp.

    A client opens connections one after another.  Each starts with a header that
    asks for a new session, or names an existing one; the server answers a request
    for a new session with the protocol version, and threads of its own serve what
    the client calls outgoing, while what the client calls incoming becomes an
    outgoing connection of the server.

    The bytes on a new connection, the entropy source and whether the writes succeed
    are explicit; a session object is a record in a store, so that the server's table
    and a thread share it. *)

From S2P Require Import Prelude Errors RpcNodes RpcPool.

(** * The header of a connection (RpcWireFormat.h) *)

Definition RPC_CONNECTION_OPTION_INCOMING : Z := 1.

Record RpcConnectionHeader := mkRpcConnectionHeader {
  hd_version : Z;
  hd_options : Z;
  hd_sessionIdSize : Z;
}.
Definition sizeof_connection_header : Z := 16.
Definition connection_header_bytes (h : RpcConnectionHeader) : bytes :=
  le_bytes 4 (hd_version h) ++ le_bytes 1 (hd_options h) ++ zeros 9 ++ le_bytes 2 (hd_sessionIdSize h).
Definition connection_header_of (bs : bytes) : RpcConnectionHeader :=
  mkRpcConnectionHeader (word 4 0 bs) (word 1 4 bs) (word 2 14 bs).

Definition response_bytes (version : Z) : bytes := le_bytes 4 version ++ zeros 4.

Definition kSessionIdBytes : Z := 32.

(** * Sessions *)

(** [sn_trigger]: the shutdown trigger, [None] until it is made, and whether it is
    triggered. *)
Record RpcSession := mkRpcSession {
  sn_pool : Pool;
  sn_id : bytes;
  sn_trigger : option bool;
  sn_forServer : bool;
  sn_listener : bool;
  sn_root : option Z;
}.

Definition set_sn_pool (p : Pool) (s : RpcSession) : RpcSession :=
  mkRpcSession p (sn_id s) (sn_trigger s) (sn_forServer s) (sn_listener s) (sn_root s).
Definition set_sn_id (x : bytes) (s : RpcSession) : RpcSession :=
  mkRpcSession (sn_pool s) x (sn_trigger s) (sn_forServer s) (sn_listener s) (sn_root s).
Definition set_sn_trigger (x : option bool) (s : RpcSession) : RpcSession :=
  mkRpcSession (sn_pool s) (sn_id s) x (sn_forServer s) (sn_listener s) (sn_root s).
Definition set_sn_listener (x : bool) (s : RpcSession) : RpcSession :=
  mkRpcSession (sn_pool s) (sn_id s) (sn_trigger s) (sn_forServer s) x (sn_root s).

Definition make_session : RpcSession := mkRpcSession new_pool [] None false false None.

(** An operation on the guarded part of a session. *)
Definition on_pool {A} (m : M Pool A) : M RpcSession A := zoom sn_pool set_sn_pool m.

(** [setForServer]: the event listener is the server; [pipe] is whether the trigger
    can be made. *)
Definition setForServer (pipe : bool) (id : bytes) (root : option Z) : M RpcSession bool :=
  let* s := get in
  fatal_if (sn_forServer s) ;;
  fatal_if (sn_listener s) ;;
  fatal_if (match sn_trigger s with Some _ => true | None => false end) ;;
  if negb pipe then ret false else
  put (mkRpcSession (sn_pool s) id (Some false) true true root) ;;
  ret true.

(** * The server *)

Record RpcServer := mkRpcServer {
  mMaxThreads : Z;
  server_version : option Z;
  mServer : option Z;
  mJoinThread : bool;
  mJoinThreadRunning : bool;
  mConnectingThreads : gset Z;
  mRootObject : option Z;
  mRootObjectWeak : option Z;
  mRootObjectFactory : option (bytes -> option Z);
  mSessions : gmap bytes Z;
  mShutdownTrigger : option bool;
}.

Definition new_server : RpcServer :=
  mkRpcServer 1 None None false false ∅ None None None ∅ None.

Definition set_mMaxThreads x (s : RpcServer) : RpcServer :=
  mkRpcServer x (server_version s) (mServer s) (mJoinThread s) (mJoinThreadRunning s)
    (mConnectingThreads s) (mRootObject s) (mRootObjectWeak s) (mRootObjectFactory s) (mSessions s) (mShutdownTrigger s).
Definition set_server_version x (s : RpcServer) : RpcServer :=
  mkRpcServer (mMaxThreads s) x (mServer s) (mJoinThread s) (mJoinThreadRunning s)
    (mConnectingThreads s) (mRootObject s) (mRootObjectWeak s) (mRootObjectFactory s) (mSessions s) (mShutdownTrigger s).
Definition set_mServer x (s : RpcServer) : RpcServer :=
  mkRpcServer (mMaxThreads s) (server_version s) x (mJoinThread s) (mJoinThreadRunning s)
    (mConnectingThreads s) (mRootObject s) (mRootObjectWeak s) (mRootObjectFactory s) (mSessions s) (mShutdownTrigger s).
Definition set_join thread running trigger (s : RpcServer) : RpcServer :=
  mkRpcServer (mMaxThreads s) (server_version s) (mServer s) thread running
    (mConnectingThreads s) (mRootObject s) (mRootObjectWeak s) (mRootObjectFactory s) (mSessions s) trigger.
Definition set_mConnectingThreads x (s : RpcServer) : RpcServer :=
  mkRpcServer (mMaxThreads s) (server_version s) (mServer s) (mJoinThread s) (mJoinThreadRunning s)
    x (mRootObject s) (mRootObjectWeak s) (mRootObjectFactory s) (mSessions s) (mShutdownTrigger s).
Definition set_roots x y z (s : RpcServer) : RpcServer :=
  mkRpcServer (mMaxThreads s) (server_version s) (mServer s) (mJoinThread s) (mJoinThreadRunning s)
    (mConnectingThreads s) x y z (mSessions s) (mShutdownTrigger s).
Definition set_mSessions x (s : RpcServer) : RpcServer :=
  mkRpcServer (mMaxThreads s) (server_version s) (mServer s) (mJoinThread s) (mJoinThreadRunning s)
    (mConnectingThreads s) (mRootObject s) (mRootObjectWeak s) (mRootObjectFactory s) x (mShutdownTrigger s).

(** ** Settings *)

Definition setMaxThreads (threads : Z) : M RpcServer unit :=
  fatal_if (threads <=? 0) ;;
  let* s := get in
  fatal_if (mJoinThreadRunning s) ;;
  modify (set_mMaxThreads threads).

Definition server_setProtocolVersion (version : Z) : M RpcServer unit :=
  modify (set_server_version (Some version)).

Definition setRootObject (binder : option Z) : M RpcServer unit :=
  modify (set_roots binder binder None).
Definition setRootObjectWeak (binder : option Z) : M RpcServer unit :=
  modify (set_roots None binder None).
Definition setPerSessionRootObject (makeObject : bytes -> option Z) : M RpcServer unit :=
  modify (set_roots None None (Some makeObject)).

(** [promote]: whether the object of a weak reference is still alive. *)
Definition getRootObject (promote : Z -> bool) : M RpcServer (option Z) :=
  let* s := get in
  ret (match mRootObjectWeak s with
       | Some b => if promote b then Some b else None
       | None => None
       end).

Definition hasServer : M RpcServer bool :=
  gets (fun s => match mServer s with Some _ => true | None => false end).
Definition releaseServer : M RpcServer (option Z) :=
  let* s := get in modify (set_mServer None) ;; ret (mServer s).
Definition setupExternalServer (serverFd : option Z) : M RpcServer status_t :=
  let* s := get in
  match mServer s with
  | Some _ => ret INVALID_OPERATION
  | None => modify (set_mServer serverFd) ;; ret OK
  end.

Definition start : M RpcServer unit :=
  let* s := get in
  fatal_if (mJoinThread s) ;;
  modify (set_join true (mJoinThreadRunning s) (mShutdownTrigger s)).

(** The two ends of [join]; between them it accepts connections. *)
Definition join_begin (pipe : bool) : M RpcServer unit :=
  let* s := get in
  fatal_if (match mServer s with Some _ => false | None => true end) ;;
  fatal_if (match mShutdownTrigger s with Some _ => true | None => false end) ;;
  fatal_if (negb pipe) ;;
  modify (set_join (mJoinThread s) true (Some false)).
Definition accept_connection (thread : Z) : M RpcServer unit :=
  modify (fun s => set_mConnectingThreads ({[thread]} ∪ mConnectingThreads s) s).
Definition join_end : M RpcServer unit :=
  modify (fun s => set_join (mJoinThread s) false (mShutdownTrigger s) s).

Definition numUninitializedSessions : M RpcServer Z :=
  gets (fun s => Z.of_nat (size (mConnectingThreads s))).

(** ** Connections *)

(** The server, the session objects, and the connection a thread works on: the bytes
    that will come, whether its reads and writes fail, what was written, and what
    /dev/urandom gives next ([None]: it cannot be read). *)
Record SV := mkSV {
  sv_server : RpcServer;
  sv_sessions : gmap Z RpcSession;
  wire_in : bytes;
  wire_ok : nat -> status_t;
  wire_out : list bytes;
  urandom : list (option bytes);
}.

Definition set_sv_server (x : RpcServer) (s : SV) : SV :=
  mkSV x (sv_sessions s) (wire_in s) (wire_ok s) (wire_out s) (urandom s).
Definition set_sv_sessions (x : gmap Z RpcSession) (s : SV) : SV :=
  mkSV (sv_server s) x (wire_in s) (wire_ok s) (wire_out s) (urandom s).
Definition set_wire_in (x : bytes) (s : SV) : SV :=
  mkSV (sv_server s) (sv_sessions s) x (wire_ok s) (wire_out s) (urandom s).
Definition set_wire_out (x : list bytes) (s : SV) : SV :=
  mkSV (sv_server s) (sv_sessions s) (wire_in s) (wire_ok s) x (urandom s).
Definition set_urandom (x : list (option bytes)) (s : SV) : SV :=
  mkSV (sv_server s) (sv_sessions s) (wire_in s) (wire_ok s) (wire_out s) x.

Definition on_server {A} (m : M RpcServer A) : M SV A := zoom sv_server set_sv_server m.

Definition on_session_object {A} (a : Z) (m : M RpcSession A) : M SV A :=
  let* s := get in
  let* sn := require (sv_sessions s !! a) in
  zoom (fun _ => sn) (fun sn s => set_sv_sessions (<[a := sn]> (sv_sessions s)) s) m.

Definition triggered (t : option bool) : bool := match t with Some b => b | None => false end.

(** [interruptableReadFully] and [interruptableWriteFully] of a whole buffer, with the
    given trigger; a connection that ends early is dead. *)
Definition wire_read (trigger : option bool) (n : Z) : M SV (res bytes) :=
  let* s := get in
  if triggered trigger then ret (Err DEAD_OBJECT) else
  if zlen (wire_in s) <? n then modify (set_wire_in []) ;; ret (Err DEAD_OBJECT) else
  modify (set_wire_in (zdrop n (wire_in s))) ;;
  ret (Good (ztake n (wire_in s))).
Definition wire_write (trigger : option bool) (bs : bytes) : M SV status_t :=
  let* s := get in
  if triggered trigger then ret DEAD_OBJECT else
  let st := wire_ok s (length (wire_out s)) in
  if st =? OK then modify (set_wire_out (wire_out s ++ [bs])) ;; ret OK else ret st.

(** [addOutgoingConnection] on a session object; when its first message cannot be
    sent the session is shut down. *)
Definition addOutgoingConnection (tid session : Z) (init : bool) : M SV status_t :=
  let* c := on_session_object session (on_pool (add_outgoing_begin tid)) in
  let* status :=
    if init then
      let* s := get in
      let* sn := require (sv_sessions s !! session) in
      let* st := wire_write (sn_trigger sn) ([99; 99; 105; 0] ++ zeros 4) in
      (if st =? OK then ret tt
       else on_session_object session (modify (set_sn_trigger (Some true)))) ;;
      ret st
    else ret OK in
  on_session_object session (on_pool (add_outgoing_end c)) ;;
  ret status.

(** The session id a connection names; none asks for a new session. *)
Definition read_session_id (trigger : option bool) (header : RpcConnectionHeader) : M SV (res bytes) :=
  if hd_sessionIdSize header <=? 0 then ret (Good []) else
  if hd_sessionIdSize header =? kSessionIdBytes then wire_read trigger (hd_sessionIdSize header)
  else ret (Err BAD_VALUE).

(** The loop that draws an id; [tries] is how many may still be drawn. *)
Fixpoint draw_session_id (tries : nat) : M SV (option bytes) :=
  match tries with
  | 0%nat => ret None
  | S tries =>
      let* s := get in
      match urandom s with
      | Some id :: rest =>
          modify (set_urandom rest) ;;
          match mSessions (sv_server s) !! id with
          | None => ret (Some id)
          | Some _ => draw_session_id tries
          end
      | None :: rest => modify (set_urandom rest) ;; ret None
      | [] => ret None
      end
  end.

Inductive established :=
| Dropped
| Outgoing (session : Z)
| Serve (session : Z).

(** A session object for a new client. *)
Definition new_session (pipe : bool) (addr : bytes) (protocolVersion : Z) : M SV (option Z) :=
  let* id := draw_session_id 6 in
  match id with
  | None => ret None
  | Some sessionId =>
      let* s := get in
      let a := fresh (dom (sv_sessions s)) in
      modify (set_sv_sessions (<[a := make_session]> (sv_sessions s))) ;;
      on_session_object a (on_pool (setMaxIncomingThreads (mMaxThreads (sv_server s)))) ;;
      let* ok := on_session_object a (on_pool (setProtocolVersion protocolVersion)) in
      if negb ok then ret None else
      let sessionSpecificRoot :=
        match mRootObjectFactory (sv_server s) with Some f => f addr | None => None end in
      let* ok := on_session_object a (setForServer pipe sessionId sessionSpecificRoot) in
      if negb ok then ret None else
      on_server (modify (fun sv => set_mSessions (<[sessionId := a]> (mSessions sv)) sv)) ;;
      ret (Some a)
  end.

(** What the header asks for, once it is read and a new session is answered. *)
Record request := mkRequest {
  rq_id : bytes;
  rq_incoming : bool;
  rq_version : Z;
}.

Definition read_request (client : bool) : M SV (res request) :=
  let* s := get in
  let trigger := mShutdownTrigger (sv_server s) in
  if negb client then ret (Err DEAD_OBJECT) else
  let? header := let? bs := wire_read trigger sizeof_connection_header in
                 ret (Good (connection_header_of bs)) in
  let? sessionId := read_session_id trigger header in
  let protocolVersion :=
    Z.min (hd_version header)
      (match server_version (sv_server s) with Some v => v | None => RPC_WIRE_PROTOCOL_VERSION end) in
  let rq := mkRequest sessionId
    (negb (Z.land (hd_options header) RPC_CONNECTION_OPTION_INCOMING =? 0)) protocolVersion in
  if bool_decide (sessionId = []) then
    let* st := wire_write trigger (response_bytes protocolVersion) in
    ret (if st =? OK then Good rq else Err st)
  else ret (Good rq).

(** The session of a request, under the server's lock. *)
Definition find_session (pipe : bool) (addr : bytes) (rq : request) : M SV (option Z) :=
  if bool_decide (rq_id rq = []) then
    if rq_incoming rq then ret None else new_session pipe addr (rq_version rq)
  else
    let* s := get in ret (mSessions (sv_server s) !! rq_id rq).

(** [establishConnection] on the thread [tid]; [client] is whether the transport can
    be made, [pipe] whether a trigger can. *)
Definition establishConnection (tid : Z) (client pipe : bool) (addr : bytes) : M SV established :=
  let* s := get in
  fatal_if (match mShutdownTrigger (sv_server s) with Some _ => false | None => true end) ;;
  let* rq := read_request client in
  let* s := get in
  fatal_if (negb (bool_decide (tid ∈ mConnectingThreads (sv_server s)))) ;;
  on_server (modify (fun sv => set_mConnectingThreads (mConnectingThreads sv ∖ {[tid]}) sv)) ;;
  match rq with
  | Err _ => ret Dropped
  | Good rq =>
      if triggered (mShutdownTrigger (sv_server s)) then ret Dropped else
      let* session := find_session pipe addr rq in
      match session with
      | None => ret Dropped
      | Some session =>
          if rq_incoming rq then
            let* st := addOutgoingConnection tid session true in
            fatal_if (negb (st =? OK)) ;;
            ret (Outgoing session)
          else
            on_session_object session (on_pool (preJoinThreadOwnership tid)) ;;
            ret (Serve session)
      end
  end.

(** The listener of a session whose last incoming thread has ended. *)
Definition onSessionAllIncomingThreadsEnded (session : Z) : M SV unit :=
  let* s := get in
  let* sn := require (sv_sessions s !! session) in
  fatal_if (bool_decide (sn_id sn = [])) ;;
  match mSessions (sv_server s) !! sn_id sn with
  | None => fatal
  | Some a =>
      fatal_if (negb (a =? session)) ;;
      on_server (modify (fun sv => set_mSessions (delete (sn_id sn) (mSessions sv)) sv))
  end.

Definition listSessions : M SV (list Z) :=
  gets (fun s => snd <$> map_to_list (mSessions (sv_server s))).

(** [shutdown] up to its wait, and what the wait is for. *)
Definition trigger_session (a : Z) : M SV unit :=
  on_session_object a
    (let* sn := get in
     let* _ := require (sn_trigger sn) in
     put (set_sn_trigger (Some true) sn)).
Fixpoint trigger_sessions (l : list Z) : M SV unit :=
  match l with [] => ret tt | a :: l => trigger_session a ;; trigger_sessions l end.
Definition shutdown_begin : M SV bool :=
  let* s := get in
  match mShutdownTrigger (sv_server s) with
  | None => ret false
  | Some _ =>
      on_server (modify (fun sv => set_join (mJoinThread sv) (mJoinThreadRunning sv) (Some true) sv)) ;;
      let* l := listSessions in
      trigger_sessions l ;;
      ret true
  end.
Definition shutdown_waits (s : RpcServer) : bool :=
  mJoinThreadRunning s || negb (bool_decide (mConnectingThreads s = ∅)) || negb (bool_decide (mSessions s = ∅)).
Definition shutdown_end : M RpcServer bool :=
  modify (fun s => set_join false (mJoinThreadRunning s) None s) ;; ret true.
