(* ===== verification/RpcSetupProps.v ===== *)
(** Theorems about setting up RPC sessions (RpcSetup): whatever a client sends, the
    server's table stays consistent, and a well-behaved client gets a session both
    ends agree on. *)

From S2P Require Import Prelude Errors RpcNodes RpcNodesProps RpcPool RpcPoolProps RpcSetup.
From S2P Require RpcTransact.

(** * The header *)

Definition header_valid (h : RpcConnectionHeader) : Prop :=
  is_u32 (hd_version h) /\ is_byte (hd_options h) /\ is_u16 (hd_sessionIdSize h).

Lemma word_le n v : word (Z.of_nat n) 0 (le_bytes n v) = v mod 256 ^ Z.of_nat n.
Proof.
  rewrite <- (app_nil_r (le_bytes n v)), word_head by (by rewrite zlen_le_bytes).
  apply le_val_le_bytes.
Qed.

Lemma zlen_connection_header h : zlen (connection_header_bytes h) = sizeof_connection_header.
Proof. unfold connection_header_bytes. rewrite !zlen_app, !zlen_le_bytes. done. Qed.

Lemma connection_header_round_trip h rest :
  header_valid h ->
  connection_header_of (ztake sizeof_connection_header (connection_header_bytes h ++ rest)) = h.
Proof.
  intros (H1 & H2 & H3). rewrite ztake_app_exact by (by rewrite zlen_connection_header).
  unfold connection_header_of, connection_header_bytes.
  destruct h as [v o n]; cbn [hd_version hd_options hd_sessionIdSize] in *. f_equal.
  - pick_word.
  - rewrite word_skip by (rewrite zlen_le_bytes; lia). rewrite zlen_le_bytes.
    rewrite word_head by (by rewrite zlen_le_bytes). rewrite le_val_le_bytes. by apply Z.mod_small.
  - do 2 (rewrite word_skip by (rewrite zlen_le_bytes; lia); rewrite zlen_le_bytes).
    rewrite word_skip by (by vm_compute).
    change (word (Z.of_nat 2) 0 (le_bytes 2 n) = n). rewrite word_le. by apply Z.mod_small.
Qed.

(** * The server's table *)

Definition session_ok (id : bytes) (sn : RpcSession) : Prop :=
  sn_id sn = id /\ sn_trigger sn <> None /\ sn_forServer sn = true.

Record server_ok (s : SV) : Prop := {
  so_sessions id a : mSessions (sv_server s) !! id = Some a ->
    exists sn, sv_sessions s !! a = Some sn /\ session_ok id sn;
  so_ids id a : mSessions (sv_server s) !! id = Some a -> zlen id = kSessionIdBytes;
  so_urandom id : Some id ∈ urandom s -> zlen id = kSessionIdBytes;
}.

(** What the operations on the connection leave alone. *)
Record same_server (s s' : SV) : Prop := {
  ss_server : sv_server s' = sv_server s;
  ss_sessions : sv_sessions s' = sv_sessions s;
  ss_urandom : urandom s' = urandom s;
  ss_wire : wire_ok s' = wire_ok s;
}.

Lemma same_server_refl s : same_server s s.
Proof. done. Qed.
Lemma same_server_trans s1 s2 s3 : same_server s1 s2 -> same_server s2 s3 -> same_server s1 s3.
Proof. intros [] []. split; congruence. Qed.

#[export] Hint Resolve same_server_refl : binder.

Lemma same_server_ok s s' : same_server s s' -> server_ok s -> server_ok s'.
Proof. intros [E1 E2 E3 _] []. split; rewrite ?E1, ?E2, ?E3; auto. Qed.

Lemma wire_read_spec t n s :
  wp (wire_read t n) s (fun r s' => same_server s s' /\
    match r with Good bs => bs = ztake n (wire_in s) /\ n <= zlen (wire_in s) | Err st => st = DEAD_OBJECT end).
Proof.
  unfold wire_read. wp_steps. destruct (triggered t); wp_steps; [done|].
  zcase (zlen (wire_in s) <? n); wp_steps; done.
Qed.

Lemma wire_write_spec t bs s :
  wp (wire_write t bs) s (fun st s' => same_server s s' /\ wire_in s' = wire_in s /\
    (st = OK -> wire_out s' = wire_out s ++ [bs]) /\
    (triggered t = false -> wire_ok s (length (wire_out s)) = OK -> st = OK)).
Proof.
  unfold wire_write. wp_steps. destruct (triggered t); wp_steps.
  { split; [done|]. split; [done|]. by split. }
  zcase (wire_ok s (length (wire_out s)) =? OK); wp_steps; (split; [done|]); (split; [done|]); split; done.
Qed.

Lemma read_session_id_spec t h s :
  wp (read_session_id t h) s (fun r s' => same_server s s' /\
    match r with
    | Good id => id = [] \/ (id = ztake kSessionIdBytes (wire_in s) /\ kSessionIdBytes <= zlen (wire_in s))
    | Err _ => True
    end).
Proof.
  unfold read_session_id. zcase (hd_sessionIdSize h <=? 0); wp_steps; [by split; [|left]|].
  zcase (hd_sessionIdSize h =? kSessionIdBytes); wp_steps; [|done].
  wp_use wire_read_spec. intros r s' [Hs Hr]. split; [done|]. destruct r; [|done].
  right. by rewrite <- E0.
Qed.

Lemma read_request_spec client s :
  wp (read_request client) s (fun r s' => same_server s s').
Proof.
  unfold read_request. wp_steps. destruct client; simpl; wp_steps; [|done].
  apply wpg_bind_res, wpg_bind_res. wp_use wire_read_spec. intros [bs|st] s1 [H1 _]; [|done]. wp_steps.
  apply wpg_bind_res. wp_use read_session_id_spec. intros [id|st] s2 [H2 _]; [|by eapply same_server_trans].
  pose proof (same_server_trans _ _ _ H1 H2) as H12. case_bool_decide; wp_steps; [|done].
  wp_use wire_write_spec. intros st s3 (H3 & _). wp_steps.
  by destruct (st =? OK); eapply same_server_trans.
Qed.

(** An operation on an object of the store. *)
Lemma on_session_object_spec {A} a (m : M RpcSession A) sn s Q :
  sv_sessions s !! a = Some sn ->
  wp m sn (fun r sn' => Q r (set_sv_sessions (<[a := sn']> (sv_sessions s)) s)) ->
  wp (on_session_object a m) s Q.
Proof.
  intros Ha Hm. unfold on_session_object. wp_steps. rewrite Ha. wp_steps.
  by apply wpg_zoom.
Qed.

Lemma on_pool_spec {A} (m : M Pool A) sn Q :
  wp m (sn_pool sn) (fun r p => Q r (set_sn_pool p sn)) -> wp (on_pool m) sn Q.
Proof. apply wpg_zoom. Qed.

Lemma draw_session_id_spec tries s :
  server_ok s ->
  wp (draw_session_id tries) s (fun r s' =>
    sv_server s' = sv_server s /\ sv_sessions s' = sv_sessions s /\ wire_ok s' = wire_ok s /\
    server_ok s' /\
    match r with
    | Some id => zlen id = kSessionIdBytes /\ mSessions (sv_server s) !! id = None
    | None => True
    end).
Proof.
  revert s. induction tries as [|n IH]; intros s Hs; cbn [draw_session_id]; [by wp_steps|].
  wp_steps. destruct (urandom s) as [|[id|] rest] eqn:Eu; wp_steps; [done| |].
  - assert (Hok : server_ok (set_urandom rest s)).
    { destruct Hs as [H1 H2 H3]. split; [done|done|]. intros i Hi. apply H3. rewrite Eu. by right. }
    destruct (mSessions (sv_server s) !! id) eqn:Ei; wp_steps.
    + wp_use IH; [done|]. intros r s' (E1 & E2 & E3 & H & Hr). done.
    + split_and!; try done. apply (so_urandom _ Hs). rewrite Eu. by left.
  - split_and!; try done. destruct Hs as [H1 H2 H3]. split; [done|done|].
    intros i Hi. apply H3. rewrite Eu. by right.
Qed.

(** ** Adding a connection *)

(** A session object after an operation on its pool or its trigger. *)
Definition same_session (sn sn' : RpcSession) : Prop :=
  sn_id sn' = sn_id sn /\ sn_forServer sn' = sn_forServer sn /\ (sn_trigger sn <> None -> sn_trigger sn' <> None).

Lemma set_sn_pool_same p sn : same_session sn (set_sn_pool p sn).
Proof. done. Qed.

Lemma server_ok_update s a sn sn' :
  server_ok s -> sv_sessions s !! a = Some sn -> same_session sn sn' ->
  server_ok (set_sv_sessions (<[a := sn']> (sv_sessions s)) s).
Proof.
  intros [H1 H2 H3] Ha (E1 & E2 & E3). split; simpl; [|done|done]. intros id b Hb.
  destruct (H1 id b Hb) as (x & Hx & Hi & Ht & Hf). destruct (decide (b = a)) as [->|Hne].
  - rewrite lookup_insert_eq. exists sn'. simplify_eq. split; [done|].
    split; [done|]. split; [by apply E3|congruence].
  - rewrite lookup_insert_ne by done. by exists x.
Qed.

(** The steps of the server that only change session objects. *)
Record grows (s s' : SV) : Prop := {
  gr_server : sv_server s' = sv_server s;
  gr_wire : wire_ok s' = wire_ok s;
  gr_ok : server_ok s';
}.

Lemma addOutgoingConnection_spec tid a sn s :
  server_ok s -> sv_sessions s !! a = Some sn -> sn_trigger sn <> None ->
  wp (addOutgoingConnection tid a true) s (fun st s' => grows s s' /\
    (triggered (sn_trigger sn) = false -> wire_ok s (length (wire_out s)) = OK -> st = OK)).
Proof.
  intros Hs Ha Ht. unfold addOutgoingConnection. wp_step.
  eapply on_session_object_spec; [done|]. apply on_pool_spec. wp_use add_outgoing_begin_spec.
  intros c p (Hc & ->).
  set (q := set_outgoing _ _ _). set (sn1 := set_sn_pool q sn).
  assert (Hq : known q c) by (unfold q, known; simpl; rewrite lookup_insert_eq; eauto).
  pose proof (server_ok_update s a sn sn1 Hs Ha (set_sn_pool_same q sn)) as Hs1.
  wp_steps. cbn [sv_sessions set_sv_sessions]. rewrite lookup_insert_eq. wp_steps. wp_use wire_write_spec.
  intros st s2 (H2 & _ & _ & Hst). wp_step.
  assert (Ha2 : sv_sessions s2 !! a = Some sn1).
  { rewrite (ss_sessions _ _ H2). apply lookup_insert_eq. }
  pose proof (same_server_ok _ _ H2 Hs1) as Hs2.
  assert (Hfin : forall s3 sn3, grows s s3 -> sv_sessions s3 !! a = Some sn3 -> sn_pool sn3 = q ->
    wp (on_session_object a (on_pool (add_outgoing_end c));; ret st) s3 (fun st' s' => grows s s' /\ st' = st)).
  { intros s3 sn3 [E1 E2 H3] Ha3 Hq3. wp_step. eapply on_session_object_spec; [done|]. apply on_pool_spec.
    rewrite Hq3. wp_use set_exclusiveTid_spec; [done|]. intros _ p ->. wp_steps. split; [|done].
    split; [done|done|]. by apply (server_ok_update s3 a sn3). }
  assert (Hg2 : grows s s2).
  { split; [by rewrite (ss_server _ _ H2)|by rewrite (ss_wire _ _ H2)|done]. }
  assert (Hres : triggered (sn_trigger sn) = false -> wire_ok s (length (wire_out s)) = OK -> st = OK) by exact Hst.
  zcase (st =? OK).
  - do 2 wp_step. eapply wpg_mono; [by eapply Hfin|]. by intros st' s' [Hg ->].
  - eapply on_session_object_spec; [done|]. do 2 wp_step.
    eapply wpg_mono; [eapply (Hfin _ (set_sn_trigger (Some true) sn1))|].
    + split; [apply (gr_server _ _ Hg2)|apply (gr_wire _ _ Hg2)|]. by apply (server_ok_update s2 a sn1).
    + simpl. apply lookup_insert_eq.
    + done.
    + intros st' s' [Hg ->]. done.
Qed.

(** ** A new session *)

Definition known_version (v : Z) : Prop :=
  v < RPC_WIRE_PROTOCOL_VERSION_NEXT \/ v = RPC_WIRE_PROTOCOL_VERSION_EXPERIMENTAL.

(** The session object as it enters the table. *)
Definition fresh_session (threads version : Z) (id : bytes) (root : option Z) : RpcSession :=
  mkRpcSession (set_mProtocolVersion (Some version) (set_limits threads kDefaultMaxOutgoingThreads new_pool))
    id (Some false) true true root.

Lemma server_ok_fresh s a sn :
  server_ok s -> a ∉ dom (sv_sessions s) -> server_ok (set_sv_sessions (<[a := sn]> (sv_sessions s)) s).
Proof.
  intros [H1 H2 H3] Ha. split; simpl; [|done|done]. intros id b Hb.
  destruct (H1 id b Hb) as (x & Hx & Hi). exists x. split; [|done].
  rewrite lookup_insert_ne; [done|]. intros ->. apply Ha, elem_of_dom. eauto.
Qed.

Lemma server_ok_register s id a sn :
  server_ok s -> sv_sessions s !! a = Some sn -> session_ok id sn -> zlen id = kSessionIdBytes ->
  server_ok (set_sv_server (set_mSessions (<[id := a]> (mSessions (sv_server s))) (sv_server s)) s).
Proof.
  intros [H1 H2 H3] Ha Hsn Hid. split; simpl; [| |done].
  - intros id' b [[<- <-]|[_ Hb]]%lookup_insert_Some; [by exists sn|by apply H1].
  - intros id' b [[<- <-]|[_ Hb]]%lookup_insert_Some; [done|by eapply H2].
Qed.

Lemma draw_first tries id rest s :
  urandom s = Some id :: rest -> mSessions (sv_server s) !! id = None ->
  draw_session_id (S tries) s = Ret (Some id) (set_urandom rest s).
Proof.
  intros Hu Hi. cbn [draw_session_id]. unfold bind, get. rewrite Hu. unfold modify.
  by rewrite Hi.
Qed.

Lemma set_sv_sessions_twice x y s : set_sv_sessions x (set_sv_sessions y s) = set_sv_sessions x s.
Proof. done. Qed.

(** The last state of an object that was stored several times. *)
Ltac collapse :=
  cbn [sv_sessions set_sv_sessions sv_server set_sv_server];
  rewrite ?insert_insert_eq, ?set_sv_sessions_twice.

(** What [new_session] leaves, whatever it draws. *)
Lemma new_session_spec pipe addr v s :
  server_ok s ->
  wp (new_session pipe addr v) s (fun r s' => server_ok s' /\ wire_ok s' = wire_ok s /\
    match r with
    | None => sv_server s' = sv_server s
    | Some a => exists id root, zlen id = kSessionIdBytes /\ mSessions (sv_server s) !! id = None /\
        sv_server s' = set_mSessions (<[id := a]> (mSessions (sv_server s))) (sv_server s) /\
        sv_sessions s' !! a = Some (fresh_session (mMaxThreads (sv_server s)) v id root) /\
        a ∉ dom (sv_sessions s)
    end).
Proof.
  intros Hs. unfold new_session. wp_step. wp_use draw_session_id_spec; [done|].
  intros [id|] s1 (E1 & E2 & E3 & Hs1 & Hid); wp_steps; [|by split_and!].
  destruct Hid as [Hlen Hnone].
  set (a := fresh (dom (sv_sessions s1))).
  assert (Ha : a ∉ dom (sv_sessions s1)) by apply is_fresh.
  eapply on_session_object_spec; [apply lookup_insert_eq|]. apply on_pool_spec.
  unfold setMaxIncomingThreads. wp_steps. simpl. wp_steps.
  eapply on_session_object_spec; [apply lookup_insert_eq|]. apply on_pool_spec.
  wp_use setProtocolVersion_spec. intros ok p [-> Hok]. destruct ok; simpl; wp_steps.
  2:{ split; [|by split]. collapse. by apply server_ok_fresh. }
  eapply on_session_object_spec; [apply lookup_insert_eq|].
  unfold setForServer. wp_steps. simpl. wp_steps. destruct pipe; simpl; wp_steps.
  2:{ split; [|by split]. collapse. by apply server_ok_fresh. }
  collapse.
  split; [|split; [done|]].
  - eapply (server_ok_register (set_sv_sessions _ s1)); [by apply server_ok_fresh|apply lookup_insert_eq| |done].
    by split.
  - rewrite <- E1. eexists id, _. split; [done|]. split; [by rewrite E1|]. split; [done|].
    split; [apply lookup_insert_eq|]. by rewrite <- E2.
Qed.

Lemma find_session_spec pipe addr rq s :
  server_ok s ->
  wp (find_session pipe addr rq) s (fun r s' => server_ok s' /\ wire_ok s' = wire_ok s /\
    match r with
    | None => sv_server s' = sv_server s
    | Some a => exists id sn, mSessions (sv_server s') !! id = Some a /\
        sv_sessions s' !! a = Some sn /\ sn_trigger sn <> None /\
        (s' = s \/
         rq_incoming rq = false /\ mSessions (sv_server s) !! id = None /\ zlen id = kSessionIdBytes /\
         sv_server s' = set_mSessions (<[id := a]> (mSessions (sv_server s))) (sv_server s))
    end).
Proof.
  intros Hs. unfold find_session. case_bool_decide.
  - destruct (rq_incoming rq); wp_steps; [done|].
    wp_use new_session_spec; [done|]. intros [a|] s' (Hs' & Hw & H'); [|done].
    destruct H' as (id & root & Hid & Hnone & Esv & Hsn & _).
    split; [done|]. split; [done|]. eexists id, _. split; [rewrite Esv; apply lookup_insert_eq|].
    split; [done|]. split; [done|]. by right.
  - wp_steps. split; [done|]. split; [done|].
    destruct (mSessions (sv_server s) !! rq_id rq) as [a|] eqn:E; [|done].
    destruct (so_sessions _ Hs _ _ E) as (sn & Hsn & _ & Ht & _).
    exists (rq_id rq), sn. split; [done|]. split; [done|]. split; [done|]. by left.
Qed.

(** * Whatever a client sends *)

