(* ===== verification/RpcClient.v ===== *)
(** The client's side of setting up an RPC session: src/libs/binder/RpcSession.cpp.

    [setupClient] opens the first connection, learns the protocol version, the number
    of threads of the server and the id of the session, opens the other connections,
    and undoes everything when a step fails.  The network and the server's answers
    are a parameter; the connections are opened by one thread, those that serve calls
    by threads of their own. *)

From S2P Require Import Prelude Errors RpcNodes RpcPool RpcSetup.
From S2P Require RpcTransact.

(** [cl_wires]: what was written on each connection, in the order of opening. *)
Record CL := mkCL {
  cl_session : RpcSession;
  cl_wires : list (list bytes);
}.

(** The [n]-th connection: whether its socket connects ([connect_status]), its
    transport can be made, and its writes succeed; the answers of the server to the
    first one; the thread that serves an incoming one; what other threads do to the
    session until a shutdown has waited for them; and whether a pipe can be made. *)
Class Network := {
  connect_status : nat -> status_t;
  transport_made : nat -> bool;
  write_status : nat -> nat -> status_t;
  new_session_response : res bytes;
  remote_max_threads : res Z;
  remote_id : res bytes;
  worker : nat -> Z;
  others_end : Pool -> Pool;
  pipe_made : bool;
}.

Section Client.
Context `{Network} (tid : Z).

Definition on_client {A} (m : M RpcSession A) : M CL A :=
  zoom cl_session (fun sn c => mkCL sn (cl_wires c)) m.
Definition set_wires (w : list (list bytes)) (c : CL) : CL := mkCL (cl_session c) w.

(** [initShutdownTrigger]. *)
Definition initShutdownTrigger : M RpcSession status_t :=
  let* s := get in
  match sn_trigger s with
  | Some _ => ret OK
  | None =>
      modify (set_sn_listener true) ;;
      if pipe_made then modify (set_sn_trigger (Some false)) ;; ret OK else ret INVALID_OPERATION
  end.

(** A write on the connection that was opened last. *)
Definition net_write (bs : bytes) : M CL status_t :=
  let* c := get in
  if triggered (sn_trigger (cl_session c)) then ret DEAD_OBJECT else
  match reverse (cl_wires c) with
  | [] => fault
  | w :: ws =>
      let st := write_status (length ws) (length w) in
      if st =? OK then modify (set_wires (reverse ws ++ [w ++ [bs]])) ;; ret OK else ret st
  end.

Definition addIncomingConnection (n : nat) : M CL status_t :=
  on_client (on_pool (preJoinThreadOwnership (worker n))) ;;
  on_client (on_pool (assignIncomingConnectionToThisThread (worker n))) ;;
  ret OK.

(** [addOutgoingConnection(server, true)]. *)
Definition client_addOutgoingConnection : M CL status_t :=
  let* c := on_client (on_pool (add_outgoing_begin tid)) in
  let* st := net_write ([99; 99; 105; 0] ++ zeros 4) in
  (if st =? OK then ret tt else on_client (modify (set_sn_trigger (Some true)))) ;;
  on_client (on_pool (add_outgoing_end c)) ;;
  ret st.

Definition client_header (version : option Z) (sessionId : bytes) (incoming : bool) : RpcConnectionHeader :=
  mkRpcConnectionHeader (match version with Some v => v | None => RPC_WIRE_PROTOCOL_VERSION end)
    (if incoming then RPC_CONNECTION_OPTION_INCOMING else 0) (u16 (zlen sessionId)).

Definition initAndAddConnection (n : nat) (sessionId : bytes) (incoming : bool) : M CL status_t :=
  let* c := get in
  fatal_if (match sn_trigger (cl_session c) with Some _ => false | None => true end) ;;
  if negb (transport_made n) then ret UNKNOWN_ERROR else
  if 65535 <? zlen sessionId then ret BAD_VALUE else
  modify (set_wires (cl_wires c ++ [[]])) ;;
  net_write (connection_header_bytes
    (client_header (mProtocolVersion (sn_pool (cl_session c))) sessionId incoming)) ;;?
  (if 0 <? zlen sessionId then net_write sessionId else ret OK) ;;?
  if incoming then addIncomingConnection n else client_addOutgoingConnection.

(** Connecting a socket, then its header. *)
Definition connectAndInit (n : nat) (sessionId : bytes) (incoming : bool) : M CL status_t :=
  (ret (connect_status n)) ;;? initAndAddConnection n sessionId incoming.

(** The descriptor [setupPreconnectedClient] gives to a connection: [raw] is captured
    by value, so it is the same at every call. *)
Definition preconnected_fd (raw : Z) (request : Z) : res Z :=
  let fd := raw in
  if fd =? -1 then (if request =? -1 then Err BAD_VALUE else Good request) else Good fd.

(** A call of the session's own: [find], the call, and the end of the scope.  Only
    this thread has connections now. *)
Definition own_call {A} (m : M CL (res A)) : M CL (res A) :=
  let* a := on_client (on_pool (find tid CLIENT)) in
  match a with
  | Use c reentrant =>
      let* r := m in
      on_client (on_pool (release (Some c) reentrant)) ;;
      ret r
  | Refuse st => ret (Err st)
  | Wait => fault
  end.

Definition negotiate : M CL (res unit) :=
  match new_session_response with
  | Err st => ret (Err st)
  | Good bs =>
      let version := RpcTransact.rsp_version (RpcTransact.response_of bs) in
      let* ok := on_client (on_pool (setProtocolVersion version)) in
      ret (if ok then Good tt else Err BAD_VALUE)
  end.

Definition getRemoteMaxThreads : M CL (res Z) := own_call (ret remote_max_threads).

Definition readId : M CL (res unit) :=
  let* c := get in
  fatal_if (sn_forServer (cl_session c)) ;;
  own_call (match remote_id with
            | Good id => on_client (modify (set_sn_id id)) ;; ret (Good tt)
            | Err st => ret (Err st)
            end).

(** [count] connections from the [n]-th on. *)
Fixpoint connect_many (count n : nat) (incoming : bool) : M CL status_t :=
  match count with
  | 0%nat => ret OK
  | S count =>
      let* c := get in
      connectAndInit n (sn_id (cl_session c)) incoming ;;?
      connect_many count (S n) incoming
  end.

Definition setup_connections : M CL status_t :=
  connectAndInit 0 [] false ;;?
  (let* r := own_call negotiate in ret (res_status r)) ;;?
  let* numThreadsAvailable := getRemoteMaxThreads in
  match numThreadsAvailable with
  | Err st => ret st
  | Good numThreadsAvailable =>
      (let* r := readId in ret (res_status r)) ;;?
      let* c := get in
      let outgoingThreads := Z.min numThreadsAvailable (pool_maxOutgoingThreads (sn_pool (cl_session c))) in
      let more := Z.to_nat (outgoingThreads - 1) in
      connect_many more 1 false ;;?
      connect_many (Z.to_nat (pool_maxIncomingThreads (sn_pool (cl_session c)))) (S more) true
  end.

(** [shutdownAndWait(true)] and the rest of the cleanup. *)
Definition setup_cleanup (oldProtocolVersion : option Z) : M CL unit :=
  let* c := get in
  fatal_if (match sn_trigger (cl_session c) with Some _ => false | None => true end) ;;
  on_client (modify (set_sn_trigger (Some true))) ;;
  on_client (on_pool (modify others_end ;; shutdown_check)) ;;
  on_client (modify (fun s => mkRpcSession
    (clear_connections (set_mProtocolVersion oldProtocolVersion (sn_pool s))) [] None (sn_forServer s) false (sn_root s))).

Definition setupClient : M CL status_t :=
  let* c := get in
  fatal_if (negb (zlen (mOutgoing (sn_pool (cl_session c))) =? 0)) ;;
  on_client initShutdownTrigger ;;?
  let* status := setup_connections in
  if status =? OK then ret OK else
  setup_cleanup (mProtocolVersion (sn_pool (cl_session c))) ;;
  ret status.
End Client.
