(* ===== verification/RpcClientProps.v ===== *)
(** Setting up an RPC session from the client's side (RpcClient), and the meeting of
    the two sides. *)

From S2P Require Import Prelude Errors RpcNodes RpcNodesProps RpcPool RpcPoolProps RpcSetup RpcSetupProps.
From S2P Require Import RpcClient.
From S2P Require RpcTransact.

(** * The pool of a session that is being set up *)

(** The limits do not change. *)
Definition same_limits (p p' : Pool) : Prop :=
  pool_maxIncomingThreads p' = pool_maxIncomingThreads p /\
  pool_maxOutgoingThreads p' = pool_maxOutgoingThreads p.

(** [k] outgoing connections, all free, and [j] incoming ones. *)
Record ready (p : Pool) (k j : Z) : Prop := {
  rd_ok : pool_ok p;
  rd_free c : c ∈ mOutgoing p -> tid_of p c = None;
  rd_out : zlen (mOutgoing p) = k;
  rd_in : zlen (mIncoming p) = j;
  rd_max : mMaxIncoming p = j;
}.


(** A pool with the same connections; the version may differ. *)
Record same_connections (p p' : Pool) : Prop := {
  sc_connections : connections p' = connections p;
  sc_limits : same_limits p p';
  sc_offset : mOutgoingOffset p' = mOutgoingOffset p;
  sc_out : mOutgoing p' = mOutgoing p;
  sc_in : mIncoming p' = mIncoming p;
  sc_max : mMaxIncoming p' = mMaxIncoming p;
}.

Lemma same_connections_ok p p' : same_connections p p' -> pool_ok p -> pool_ok p'.
Proof.
  intros [Ec _ Eo El Ei _] [H1 H2 H3]. split; [by rewrite Eo, El|by rewrite El, Ei|].
  rewrite El, Ei. intros c Hc. unfold known. rewrite Ec. by apply H3.
Qed.

Section Client.
Context `{Network} (tid : Z).

Abbreviation cpool c := (sn_pool (cl_session c)).
Definition facts (c : CL) : option Z * bytes := (mProtocolVersion (cpool c), sn_id (cl_session c)).

(** What does not change while the session is set up. *)
Record steady (c c' : CL) : Prop := {
  st_limits : same_limits (cpool c) (cpool c');
  st_trigger : sn_trigger (cl_session c) <> None -> sn_trigger (cl_session c') <> None;
  st_server : sn_forServer (cl_session c') = sn_forServer (cl_session c);
  st_root : sn_root (cl_session c') = sn_root (cl_session c);
}.

Lemma steady_refl c : steady c c.
Proof. by split. Qed.
Lemma steady_trans c1 c2 c3 : steady c1 c2 -> steady c2 c3 -> steady c1 c3.
Proof.
  intros [[L1 L2] T1 S1 R1] [[L3 L4] T2 S2 R2].
  split; [by split; congruence|auto|congruence|congruence].
Qed.
#[local] Hint Resolve steady_refl : core.

Lemma wpg_on_client {A} F (m : M RpcSession A) c Q :
  wpg F m (cl_session c) (fun r sn => Q r (mkCL sn (cl_wires c))) -> wpg F (on_client m) c Q.
Proof. intros Hm. unfold on_client. by apply wpg_zoom. Qed.

Lemma wp_client_pool {A} (m : M Pool A) c Q :
  wp m (cpool c) (fun r p => Q r (mkCL (set_sn_pool p (cl_session c)) (cl_wires c))) ->
  wp (on_client (on_pool m)) c Q.
Proof. intros Hm. by apply wpg_on_client, on_pool_spec. Qed.

(** ** A call of the session's own *)

(** Taking the only kind of connection there is, and giving it back. *)
Lemma find_ready p k :
  ready p k 0 -> 0 < k ->
  wp (find tid CLIENT) p (fun a q => exists cn, a = Use cn false /\ known q cn /\
    pool_ok q /\ same_limits p q /\ mOutgoing q = mOutgoing p /\ mIncoming q = mIncoming p /\
    mMaxIncoming q = mMaxIncoming p /\ mProtocolVersion q = mProtocolVersion p /\
    (forall d, d <> cn -> tid_of q d = tid_of p d)).
Proof.
  intros [Hok Hfree Hk Hj Hm] Hpos. wp_use find_spec; [done|].
  intros a q (q' & (off & Hoff & Hf) & ->).
  assert (Hin : mIncoming p = []) by (by destruct (mIncoming p)).
  destruct a as [cn []|st|].
  - exfalso. destruct Hf as (_ & Hcl & Ht & _). change (cn ∈ listed p) in Hcl.
    rewrite Hin, app_nil_r in Hcl. apply Hfree in Hcl. change (tid_of p cn = Some tid) in Ht. congruence.
  - destruct Hf as (-> & Hcl & Ht & _). exists cn. split; [done|].
    assert (pool_ok (set_outgoing off (mOutgoing p) (waits 1 p))).
    { by apply (pool_ok_offset off (waits 1 p)); [|apply pool_ok_waits]. }
    split; [unfold known; simpl; rewrite lookup_insert_eq; eauto|].
    split; [by apply pool_ok_waits, pool_ok_insert|]. split_and!; try done.
    intros d Hd. change (tid_of (own (Some tid) cn (set_outgoing off (mOutgoing p) (waits 1 p))) d = tid_of p d).
    by rewrite tid_of_own, decide_False.
  - exfalso. destruct Hf as (_ & _ & Hout). change (mOutgoing p = []) in Hout. rewrite Hout in Hk.
    unfold zlen in Hk. simpl in Hk. lia.
  - exfalso. destruct Hf as (_ & Hne & Hall & _). change (mOutgoing p <> []) in Hne.
    destruct (mOutgoing p) as [|d l] eqn:El; [done|].
    destruct (Hall d) as (t' & _ & E); [change (d ∈ mOutgoing p); rewrite El; set_solver|].
    change (tid_of p d = Some t') in E. rewrite (Hfree d) in E; [done|set_solver].
Qed.

Lemma own_call_spec {A} (m : M CL (res A)) c k (P : res A -> option Z * bytes -> option Z * bytes -> Prop) :
  ready (cpool c) k 0 -> 0 < k ->
  (forall c1, wp m c1 (fun r c2 => steady c1 c2 /\ same_connections (cpool c1) (cpool c2) /\
     cl_wires c2 = cl_wires c1 /\ P r (facts c1) (facts c2))) ->
  wp (own_call tid m) c (fun r c' => steady c c' /\ ready (cpool c') k 0 /\
    cl_wires c' = cl_wires c /\ P r (facts c) (facts c')).
Proof.
  intros Hr Hk Hm. unfold own_call. wp_step. apply wp_client_pool. wp_use find_ready; [done|done|].
  intros a q (cn & -> & Hkn & Hq & Hl & Eo & Ei & Em & Ev & Hd). wp_step.
  set (c1 := mkCL _ _). eapply wpg_mono; [apply Hm|]. intros r c2 (Hs & Hc & Hw & HP). wp_step.
  apply wp_client_pool.
  assert (Hkn2 : known (cpool c2) cn) by (unfold known; by rewrite (sc_connections _ _ Hc)).
  wp_use release_spec; [done|]. intros b p [_ ->]. wp_step.
  assert (Hq2 : pool_ok (cpool c2)) by (by eapply same_connections_ok).
  split; [|split; [|split; [done|]]].
  - eapply steady_trans; [|eapply steady_trans; [exact Hs|by split]]. by split.
  - destruct Hr as [Hok Hfree H1 H2 H3]. destruct Hc as [Ec _ _ El Ein Emx]. split; simpl.
    + by apply pool_ok_insert.
    + intros d Hdl. change (tid_of (own None cn (cpool c2)) d = None). rewrite tid_of_own. case_decide; [done|].
      unfold tid_of. rewrite Ec. change (tid_of q d = None). rewrite Hd by done. apply Hfree.
      rewrite <- Eo. by rewrite El in Hdl.
    + rewrite El. simpl. by rewrite Eo.
    + rewrite Ein. simpl. by rewrite Ei.
    + rewrite Emx. simpl. by rewrite Em.
  - unfold facts in *. simpl in *. by rewrite Ev in HP.
Qed.

(** ** Opening a connection *)

(** What is written on a connection. *)
Definition opening (version : option Z) (id : bytes) (incoming : bool) : list bytes :=
  connection_header_bytes (client_header version id incoming) ::
  (if 0 <? zlen id then [id] else []) ++
  (if incoming then [] else [[99; 99; 105; 0] ++ zeros 4]).

(** A connection that is being opened: the session as in [c], the others as they were. *)
Lemma net_write_spec bs c ws w :
  cl_wires c = ws ++ [w] ->
  wp (net_write bs) c (fun st c' => cl_session c' = cl_session c /\
    (st = OK -> cl_wires c' = ws ++ [w ++ [bs]])).
Proof.
  intros Hw. unfold net_write. wp_steps. destruct (triggered _); wp_steps; [done|].
  rewrite Hw, reverse_app. simpl. zcase (write_status (length (reverse ws)) (length w) =? OK); wp_steps; [|done].
  split; [done|]. intros _. simpl. by rewrite reverse_involutive.
Qed.

Lemma assign_ready p k j :
  ready p k j -> 0 < pool_maxIncomingThreads p - j ->
  forall t, wp (assignIncomingConnectionToThisThread t) p (fun _ p' =>
    ready p' k (j + 1) /\ same_limits p p' /\ mProtocolVersion p' = mProtocolVersion p).
Proof.
  intros [Hok Hfree Hk Hj Hm] Hlt t. unfold assignIncomingConnectionToThisThread. wp_steps.
  rewrite Hj, Hm. zcase (pool_maxIncomingThreads p <=? j); [lia|]. rewrite Z.ltb_irrefl. wp_step.
  wp_use new_connection_spec. intros cn p' (Hc & ->). wp_steps. simpl.
  split; [|by split]. split; simpl.
  - eapply (pool_ok_new p); [done|exact Hc|done|done|by right].
  - intros d Hd. unfold tid_of. simpl. rewrite lookup_insert_ne; [by apply Hfree|].
    intros ->. apply Hc, elem_of_dom, (ok_known _ Hok), elem_of_app. by left.
  - done.
  - rewrite zlen_app. change (zlen [cn]) with 1. lia.
  - rewrite zlen_app. change (zlen [cn]) with 1. lia.
Qed.

Lemma add_outgoing_spec t p k j (m : M CL status_t) c (Q : status_t -> list (list bytes) -> Prop) :
  cpool c = p -> ready p k j ->
  (forall c1, cl_wires c1 = cl_wires c -> wp m c1 (fun st c2 =>
     cl_session c2 = cl_session c1 /\ Q st (cl_wires c2))) ->
  wp (let* cn := on_client (on_pool (add_outgoing_begin t)) in
      let* st := m in
      (if st =? OK then ret tt else on_client (modify (set_sn_trigger (Some true)))) ;;
      on_client (on_pool (add_outgoing_end cn)) ;;
      ret st) c (fun st c' => steady c c' /\ facts c' = facts c /\ ready (cpool c') (k + 1) j /\ Q st (cl_wires c')).
Proof.
  intros <- [Hok Hfree Hk Hj Hm] Hmm. wp_step. apply wp_client_pool. wp_use add_outgoing_begin_spec.
  intros cn q (Hc & ->). wp_step. eapply wpg_mono; [by apply Hmm|]. intros st c2 [Es HQ]. wp_step.
  assert (Hfin : forall c3, sn_pool (cl_session c3) = cpool c2 -> steady c2 c3 -> facts c3 = facts c2 -> cl_wires c3 = cl_wires c2 ->
    wp (on_client (on_pool (add_outgoing_end cn)) ;; ret st) c3 (fun st c' =>
      steady c c' /\ facts c' = facts c /\ ready (cpool c') (k + 1) j /\ Q st (cl_wires c'))).
  { intros c3 E3 S3 F3 W3. wp_step. apply wp_client_pool. rewrite E3.
    wp_use set_exclusiveTid_spec; [rewrite Es; unfold known; simpl; rewrite lookup_insert_eq; eauto|].
    intros _ q ->. wp_steps. rewrite Es. split; [|split; [|split]].
    - eapply steady_trans; [|eapply steady_trans; [exact S3|]].
      + split; rewrite Es; done.
      + split; simpl; rewrite ?E3, ?Es; done.
    - unfold facts in *. simpl. rewrite Es in F3. simpl in F3. injection F3 as _ F3. by rewrite F3.
    - split; simpl.
      + apply pool_ok_insert. eapply (pool_ok_new (cpool c)); [done|exact Hc|done|done|by left].
      + intros d Hd. rewrite tid_of_own. case_decide; [done|]. unfold tid_of. simpl.
        rewrite lookup_insert_ne by done. apply Hfree. set_solver.
      + rewrite zlen_app. change (zlen [cn]) with 1. lia.
      + done.
      + done.
    - simpl. by rewrite W3. }
  zcase (st =? OK).
  - wp_step. apply Hfin; done.
  - apply wpg_on_client. wp_step. apply Hfin; done.
Qed.

Definition count_out (incoming : bool) (n : Z) : Z := if incoming then 0 else n.
Definition count_in (incoming : bool) (n : Z) : Z := if incoming then n else 0.

Lemma connectAndInit_spec n id incoming c k j :
  ready (cpool c) k j -> sn_trigger (cl_session c) <> None ->
  (incoming = true -> j < pool_maxIncomingThreads (cpool c)) ->
  wp (connectAndInit tid n id incoming) c (fun st c' => steady c c' /\
    (st = OK -> facts c' = facts c /\
     ready (cpool c') (k + count_out incoming 1) (j + count_in incoming 1) /\
     cl_wires c' = cl_wires c ++ [opening (mProtocolVersion (cpool c)) id incoming])).
Proof.
  intros Hr Ht Hj. unfold connectAndInit. apply wpg_check_ok. wp_step.
  split; [intros Ec|by split]. unfold initAndAddConnection. wp_steps.
  destruct (sn_trigger (cl_session c)) eqn:Etr; [|done]. simpl. wp_step.
  destruct (transport_made n); simpl; wp_steps; [|by split].
  zcase (65535 <? zlen id); wp_steps; [by split|].
  set (c1 := set_wires (cl_wires c ++ [[]]) c).
  set (hd := client_header _ _ _).
  apply wpg_check_ok. eapply wpg_mono; [by apply (net_write_spec _ c1 (cl_wires c) [])|].
  intros st c2 [E2 W2]. split; [intros ->; specialize (W2 eq_refl)|].
  2:{ intros Hst. split; [|done]. split; rewrite E2; try done. }
  apply wpg_check_ok.
  assert (Hid : wp (if 0 <? zlen id then net_write id else ret OK) c2 (fun st c3 =>
    cl_session c3 = cl_session c /\ (st = OK -> cl_wires c3 =
      cl_wires c ++ [connection_header_bytes hd :: (if 0 <? zlen id then [id] else [])]))).
  { destruct (0 <? zlen id).
    - eapply wpg_mono; [by apply net_write_spec|]. cbv beta. intros st c3 [-> W3]. by rewrite E2.
    - wp_step. by rewrite E2. }
  eapply wpg_mono; [exact Hid|]. intros st c3 [E3 W3].
  assert (S3 : steady c c3) by (split; by rewrite E3).
  split; [intros ->; specialize (W3 eq_refl)|by split].
  assert (Hr3 : ready (cpool c3) k j) by (by rewrite E3).
  assert (F3 : facts c3 = facts c) by (unfold facts; by rewrite E3).
  destruct incoming; simpl.
  - unfold addIncomingConnection. wp_step. apply wp_client_pool. apply wpg_modify. wp_step. apply wp_client_pool.
    eapply wpg_mono; [apply (assign_ready _ k j)|].
    + by destruct Hr3 as [[]].
    + simpl. rewrite E3. specialize (Hj eq_refl). lia.
    + intros r p (Hp & Hl & Hv). wp_steps. split.
      * eapply steady_trans; [exact S3|]. by split.
      * intros _. split; [rewrite <- F3; unfold facts; simpl; by rewrite Hv|].
        split; [by rewrite Z.add_0_r|]. simpl. rewrite W3. unfold opening. by rewrite app_nil_r.
  - eapply wpg_mono; [eapply (add_outgoing_spec tid (cpool c3) k j _ c3 (fun st w => st = OK ->
      w = cl_wires c ++ [opening (mProtocolVersion (cpool c)) id false])); [done|done|]|].
    + intros c4 E4. wp_use net_write_spec; [by rewrite E4|]. intros st c5 [E5 W5].
      split; [done|]. intros ->. rewrite W5 by done. done.
    + intros st c4 (S4 & F4 & R4 & W4). split; [by eapply steady_trans|].
      intros ->. split; [congruence|]. split; [by rewrite Z.add_0_r|by apply W4].
Qed.

Lemma connect_many_spec count incoming c k j :
  (forall n, ready (cpool c) k j -> sn_trigger (cl_session c) <> None ->
   (incoming = true -> j + Z.of_nat count <= pool_maxIncomingThreads (cpool c)) ->
   wp (connect_many tid count n incoming) c (fun st c' => steady c c' /\
    (st = OK -> facts c' = facts c /\
     ready (cpool c') (k + count_out incoming (Z.of_nat count)) (j + count_in incoming (Z.of_nat count)) /\
     cl_wires c' = cl_wires c ++ replicate count (opening (facts c).1 (facts c).2 incoming)))).
Proof.
  revert c k j. induction count as [|count IH]; intros c k j n Hr Ht Hj; cbn [connect_many].
  - wp_step. split; [done|]. intros _. split; [done|]. simpl. rewrite app_nil_r.
    by destruct incoming; simpl; rewrite !Z.add_0_r.
  - wp_steps. apply wpg_check_ok. eapply wpg_mono; [apply connectAndInit_spec; [done|done|]|].
    + intros ->. specialize (Hj eq_refl). lia.
    + intros st c1 [S1 H1]. split; [intros ->|by split].
      destruct (H1 eq_refl) as (F1 & R1 & W1).
      eapply wpg_mono; [apply (IH c1 _ _ (S n) R1)|].
      * by apply (st_trigger _ _ S1).
      * intros ->. specialize (Hj eq_refl). destruct (st_limits _ _ S1) as [-> _]. simpl. lia.
      * intros st c2 [S2 H2]. split; [by eapply steady_trans|]. intros ->.
        destruct (H2 eq_refl) as (F2 & R2 & W2). split; [congruence|].
        split.
        -- replace (Z.of_nat (S count)) with (1 + Z.of_nat count) by lia.
           destruct incoming; simpl in *; [rewrite !Z.add_0_r in R2|]; by rewrite ?Z.add_0_r, ?Z.add_assoc in *.
        -- rewrite W2, W1, F1, <- app_assoc. done.
Qed.

(** ** The whole setup *)

Definition failing {A} (r : res A) : Prop := forall st, r = Err st -> st <> OK.

Lemma failing_err {A B} st : failing (Err (A := A) st) -> failing (Err (A := B) st).
Proof. intros Hf st' [= <-]. by apply Hf. Qed.

(** An answer that fails has an error status; the threads that serve the session have
    ended, and have left it, when a shutdown has waited for them. *)
Record good_network : Prop := {
  gn_response : failing new_session_response;
  gn_threads : failing remote_max_threads;
  gn_id : failing remote_id;
  gn_orderly p : mThreads (others_end p) = ∅ /\ same_limits p (others_end p);
}.

Definition negotiated (r : res unit) (f1 f2 : option Z * bytes) : Prop :=
  failing r /\
  (r = Good tt -> exists bs v, new_session_response = Good bs /\ v = word 4 0 bs /\ known_version v /\
     (forall w, f1.1 = Some w -> v <= w) /\ f2 = (Some v, f1.2)).

Definition identified (r : res unit) (f1 f2 : option Z * bytes) : Prop :=
  failing r /\ (r = Good tt -> exists id, remote_id = Good id /\ f2 = (f1.1, id)).

Lemma negotiate_spec c1 :
  good_network ->
  wp negotiate c1 (fun r c2 => steady c1 c2 /\ same_connections (cpool c1) (cpool c2) /\
    cl_wires c2 = cl_wires c1 /\ negotiated r (facts c1) (facts c2)).
Proof.
  intros [Hn _ _ _]. unfold negotiate. destruct new_session_response as [bs|st] eqn:Eanswer; [|wp_step; split; [done|]; split; [by split|]; split; [done|]; split; [exact (failing_err _ Hn)|done]].
  wp_step. apply wp_client_pool. wp_use setProtocolVersion_spec. intros b p [-> Hb]. wp_step.
  split; [by destruct b; split|]. split; [by destruct b; split|]. split; [done|].
  destruct b; [split; [intros ? [=]|]|split; [intros st [= <-]; unfold BAD_VALUE, OK; lia|done]].
  intros _. destruct (proj1 Hb eq_refl) as [Hkn Hcap]. exists bs, (word 4 0 bs). split; [done|]. split; [done|].
  split; [exact Hkn|]. split; [exact Hcap|reflexivity].
Qed.

Lemma readId_body_spec c1 :
  good_network ->
  wp (match remote_id with
      | Good id => on_client (modify (set_sn_id id)) ;; ret (Good tt)
      | Err st => ret (Err st)
      end) c1 (fun r c2 => steady c1 c2 /\ same_connections (cpool c1) (cpool c2) /\
    cl_wires c2 = cl_wires c1 /\ identified r (facts c1) (facts c2)).
Proof.
  intros [_ _ Hn _]. destruct remote_id as [id|st] eqn:Eanswer; [|wp_step; split; [done|]; split; [by split|]; split; [done|]; split; [exact (failing_err _ Hn)|done]].
  wp_step. apply wpg_on_client, wpg_modify. wp_step.
  split; [by split|]. split; [by split|]. split; [done|]. split; [done|]. intros _. by exists id.
Qed.

(** The connections a successful setup leaves. *)
Definition set_up (c c' : CL) : Prop :=
  exists bs v n id, new_session_response = Good bs /\ v = word 4 0 bs /\
    remote_max_threads = Good n /\ remote_id = Good id /\
    known_version v /\ (forall w, mProtocolVersion (cpool c) = Some w -> v <= w) /\
    mProtocolVersion (cpool c') = Some v /\ sn_id (cl_session c') = id /\
    let more := Z.to_nat (Z.min n (pool_maxOutgoingThreads (cpool c)) - 1) in
    let incoming := Z.to_nat (pool_maxIncomingThreads (cpool c)) in
    ready (cpool c') (1 + Z.of_nat more) (Z.of_nat incoming) /\
    cl_wires c' = cl_wires c ++ opening (mProtocolVersion (cpool c)) [] false ::
      replicate more (opening (Some v) id false) ++ replicate incoming (opening (Some v) id true).

Lemma setup_connections_spec c :
  good_network ->
  ready (cpool c) 0 0 -> sn_trigger (cl_session c) <> None -> sn_forServer (cl_session c) = false ->
  0 <= pool_maxIncomingThreads (cpool c) ->
  wp (setup_connections tid) c (fun st c' => steady c c' /\ (st = OK -> set_up c c')).
Proof.
  intros Hnet Hr Ht Hf Hmax. unfold setup_connections. apply wpg_check_ok.
  eapply wpg_mono; [by apply (connectAndInit_spec 0 [] false c 0 0)|].
  intros st c1 [S1 H1]. split; [intros ->|by split]. destruct (H1 eq_refl) as (F1 & R1 & W1).
  apply wpg_check_ok. wp_step.
  eapply wpg_mono; [apply (own_call_spec negotiate c1 _ negotiated R1 ltac:(done) (fun c => negotiate_spec c Hnet))|].
  intros r c2 (S2 & R2 & W2 & Hbad2 & H2). wp_step. pose proof (steady_trans _ _ _ S1 S2) as S12.
  split; [intros Er|by split; [|destruct r]].
  destruct r as [[]|st]; [|by destruct (Hbad2 st)].
  destruct (H2 eq_refl) as (bs & v & Hbs & Hv & Hkn & Hcap & F2). clear H1 H2.
  wp_step. unfold getRemoteMaxThreads.
  eapply wpg_mono; [apply (own_call_spec (ret remote_max_threads) c2 _
    (fun r f1 f2 => r = remote_max_threads /\ f2 = f1) R2 ltac:(done))|].
  { intros c3. wp_step. done. }
  intros r c3 (S3 & R3 & W3 & -> & F3). pose proof (steady_trans _ _ _ S12 S3) as S13.
  destruct remote_max_threads as [n|st] eqn:En; wp_steps; [|split; [done|]; intros ->; by destruct (gn_threads Hnet _ En)].
  apply wpg_check_ok. wp_step. unfold readId. wp_steps.
  rewrite (st_server _ _ S13), Hf. wp_step.
  eapply wpg_mono; [apply (own_call_spec _ c3 _ identified R3 ltac:(done) (fun c => readId_body_spec c Hnet))|].
  intros r c4 (S4 & R4 & W4 & Hbad4 & H4). wp_step. pose proof (steady_trans _ _ _ S13 S4) as S14.
  split; [intros Er4|by split; [|destruct r]].
  destruct r as [[]|st]; [|by destruct (Hbad4 st)].
  destruct (H4 eq_refl) as (id & Hid & F4). wp_steps.
  destruct (st_limits _ _ S14) as [Lin Lout]. rewrite Lin, Lout.
  set (more := Z.to_nat _). set (inc := Z.to_nat _).
  apply wpg_check_ok. eapply wpg_mono; [apply (connect_many_spec more false c4 _ _ 1 R4); [by apply (st_trigger _ _ S14)|done]|].
  intros st c5 [S5 H5]. pose proof (steady_trans _ _ _ S14 S5) as S15.
  split; [intros ->|by split]. destruct (H5 eq_refl) as (F5 & R5 & W5).
  eapply wpg_mono; [apply (connect_many_spec inc true c5 _ _ (S more) R5); [by apply (st_trigger _ _ S15)|]|].
  { intros _. destruct (st_limits _ _ S15) as [-> _]. simpl. lia. }
  intros st c6 [S6 H6]. split; [by eapply steady_trans|]. intros ->.
  destruct (H6 eq_refl) as (F6 & R6 & W6).
  assert (F5' : facts c5 = (Some v, id)).
  { rewrite F5, F4. rewrite F3, F2. done. }
  exists bs, v, n, id. split; [done|]. split; [done|]. split; [done|]. split; [done|].
  split; [done|]. split; [intros w Hw; apply Hcap; by rewrite F1|].
  rewrite F5' in F6. injection F6 as Ev Ei. split; [done|]. split; [done|]. split.
  - match type of R6 with ready _ ?a ?b =>
      assert (a = 1 + Z.of_nat more) as Ea by (unfold count_out; lia);
      assert (b = Z.of_nat inc) as Eb by (unfold count_in; lia); rewrite Ea, Eb in R6 end.
    exact R6.
  - rewrite W6, W5, W4, W3, W2, W1, F5'. rewrite F5 in F5'. rewrite F5'. simpl.
    by rewrite <- !app_assoc.
Qed.

(** A session that can be set up. *)
Record unused (s : RpcSession) : Prop := {
  un_ready : ready (sn_pool s) 0 0;
  un_threads : mThreads (sn_pool s) = ∅;
  un_id : sn_id s = [];
  un_trigger : sn_trigger s = None;
  un_server : sn_forServer s = false;
  un_limit : 0 <= pool_maxIncomingThreads (sn_pool s);
}.

End Client.
