(* ===== verification/RpcHandshake.v ===== *)
(** The two sides of the setup of an RPC session together (RpcClient, RpcSetup), and
    concrete runs. *)

From S2P Require Import Prelude Errors RpcNodes RpcNodesProps RpcPool RpcPoolProps RpcSetup RpcSetupProps.
From S2P Require Import RpcClient RpcClientProps.
From S2P Require RpcTransact.

(** * Reading what a client opens a connection with *)

Definition first_message : bytes := [99; 99; 105; 0] ++ zeros 4.

Lemma client_header_valid version id incoming :
  (forall v, version = Some v -> is_u32 v) -> header_valid (client_header version id incoming).
Proof.
  intros Hv. split; [|split]; simpl.
  - destruct version as [v|]; [by apply Hv|by split].
  - by destruct incoming.
  - apply Z.mod_pos_bound. lia.
Qed.

Lemma wire_read_run n s bs rest :
  wire_in s = bs ++ rest -> zlen bs = n ->
  wire_read (Some false) n s = Ret (Good bs) (set_wire_in rest s).
Proof.
  intros Hw Hn. unfold wire_read, bind, get. cbn [triggered]. rewrite Hw, zlen_app.
  pose proof (zlen_nonneg rest).
  replace (zlen bs + zlen rest <? n) with false by (symmetry; apply Z.ltb_ge; lia).
  unfold modify, ret. by rewrite zdrop_app_exact, ztake_app_exact by done.
Qed.

Definition server_cap (s : SV) : Z :=
  match server_version (sv_server s) with Some v => v | None => RPC_WIRE_PROTOCOL_VERSION end.
Definition client_cap (version : option Z) : Z :=
  match version with Some v => v | None => RPC_WIRE_PROTOCOL_VERSION end.

(** The request of a client, read to its end. *)
Lemma read_request_run version id incoming more s :
  (forall v, version = Some v -> is_u32 v) -> (id = [] \/ zlen id = kSessionIdBytes) ->
  mShutdownTrigger (sv_server s) = Some false -> (forall n, wire_ok s n = OK) ->
  wire_in s = connection_header_bytes (client_header version id incoming) ++ id ++ more ->
  let v := Z.min (client_cap version) (server_cap s) in
  read_request true s = Ret (Good (mkRequest id incoming v))
    (set_wire_out (wire_out s ++ (if bool_decide (id = []) then [response_bytes v] else []))
      (set_wire_in more s)).
Proof.
  intros Hv Hid Ht Hw Hin v. unfold read_request.
  set (h := client_header version id incoming) in *.
  assert (Hlen : zlen (connection_header_bytes h) = sizeof_connection_header) by apply zlen_connection_header.
  assert (Hh : connection_header_of (connection_header_bytes h) = h).
  { rewrite <- (connection_header_round_trip h []) at 2 by (by apply client_header_valid).
    by rewrite app_nil_r, ztake_ge by lia. }
  unfold bind at 1, get at 1. rewrite Ht. cbn [negb]. unfold bind_res, bind.
  rewrite (wire_read_run _ s _ _ Hin Hlen). unfold ret at 1 2. rewrite Hh.
  assert (Hinc : negb (Z.land (hd_options h) RPC_CONNECTION_OPTION_INCOMING =? 0) = incoming) by (by destruct incoming).
  assert (Hver : hd_version h = client_cap version) by done.
  rewrite Hinc, Hver. fold (server_cap s). fold v.
  unfold read_session_id. destruct Hid as [->|Hid].
  - change (hd_sessionIdSize h) with 0. cbn [Z.leb Z.compare]. unfold ret at 1.
    rewrite bool_decide_true by done. unfold wire_write, bind, get. cbn [triggered set_wire_in wire_ok wire_out].
    rewrite Hw. done.
  - assert (Hsz : hd_sessionIdSize h = kSessionIdBytes) by (subst h; simpl; by rewrite Hid).
    rewrite Hsz. cbn [Z.leb Z.compare kSessionIdBytes Z.eqb Pos.eqb].
    rewrite (wire_read_run _ _ id more) by done.
    rewrite bool_decide_false by (intros ->; done). unfold ret. rewrite app_nil_r. by destruct s.
Qed.

Lemma response_round_trip v :
  is_u32 v -> RpcTransact.rsp_version (RpcTransact.response_of (response_bytes v)) = v.
Proof.
  intros Hv. unfold RpcTransact.response_of, response_bytes. cbn [RpcTransact.rsp_version]. pick_word.
Qed.

(** * A session both ends agree on *)

Lemma known_version_min a b : known_version a -> known_version b -> known_version (Z.min a b).
Proof. intros. destruct (Z.min_spec a b) as [[_ ->]|[_ ->]]; done. Qed.

(** The first id drawn is unused: the new session has it. *)
Lemma new_session_first addr v id rest s :
  known_version v -> urandom s = Some id :: rest -> mSessions (sv_server s) !! id = None ->
  wp (new_session true addr v) s (fun r s' => exists a root, r = Some a /\
    s' = set_sv_server (set_mSessions (<[id := a]> (mSessions (sv_server s))) (sv_server s))
          (set_sv_sessions (<[a := fresh_session (mMaxThreads (sv_server s)) v id root]> (sv_sessions s))
            (set_urandom rest s))).
Proof.
  intros Hv Hu Hid. unfold new_session. wp_steps. apply wp_run. eexists _, _. split; [by apply (draw_first 5 id rest)|].
  cbn beta iota. wp_steps. set (a := fresh _).
  eapply on_session_object_spec; [apply lookup_insert_eq|]. apply on_pool_spec.
  unfold setMaxIncomingThreads. wp_steps. simpl. wp_steps.
  eapply on_session_object_spec; [apply lookup_insert_eq|]. apply on_pool_spec.
  wp_use setProtocolVersion_spec. intros ok p [-> Hok].
  assert (ok = true) as -> by (apply Hok; by split).
  simpl. wp_steps. eapply on_session_object_spec; [apply lookup_insert_eq|].
  unfold setForServer. wp_steps. simpl. wp_steps. collapse.
  by eexists a, _.
Qed.

(** C31: A client with or without a version cap of its own opens its first connection to
    a server with an unused id at hand: the server enters a session under that id and
    serves the connection, the session's version is the lower one of the two sides'
    and known to both, the answer on the wire is that version, which the client's
    session accepts, and what is left to read is the client's first message. *)
Theorem session_agreed tid addr (pc : Pool) id rest more s :
  server_ok s -> mShutdownTrigger (sv_server s) = Some false ->
  tid ∈ mConnectingThreads (sv_server s) -> (forall n, wire_ok s n = OK) ->
  is_u32 (server_cap s) -> known_version (server_cap s) ->
  (forall v, mProtocolVersion pc = Some v -> is_u32 v /\ known_version v) ->
  urandom s = Some id :: rest -> mSessions (sv_server s) !! id = None ->
  wire_in s = concat (opening (mProtocolVersion pc) [] false) ++ more ->
  wp (establishConnection tid true true addr) s (fun e s' => exists a sn v,
    e = Serve a /\ mSessions (sv_server s') !! id = Some a /\ sv_sessions s' !! a = Some sn /\
    sn_id sn = id /\ mProtocolVersion (sn_pool sn) = Some v /\
    v = Z.min (client_cap (mProtocolVersion pc)) (server_cap s) /\ known_version v /\
    wire_out s' = wire_out s ++ [response_bytes v] /\ wire_in s' = first_message ++ more /\
    RpcTransact.rsp_version (RpcTransact.response_of (response_bytes v)) = v /\
    wp (setProtocolVersion v) pc (fun ok p => ok = true /\ mProtocolVersion p = Some v)).
Proof.
  intros Hs Ht Htid Hw Hcap Hk Hpc Hu Hid Hin.
  set (v := Z.min (client_cap (mProtocolVersion pc)) (server_cap s)).
  assert (Hcv : is_u32 (client_cap (mProtocolVersion pc)) /\ known_version (client_cap (mProtocolVersion pc))).
  { unfold client_cap. destruct (mProtocolVersion pc) as [w|]; [by apply Hpc|]. split; [by split|by left]. }
  assert (Hkv : known_version v) by (apply known_version_min; tauto).
  assert (Hv32 : is_u32 v) by (unfold is_u32, v in *; lia).
  unfold establishConnection. wp_steps. rewrite Ht. wp_step. wp_step.
  apply wp_run. eexists _, _. split.
  { apply (read_request_run (mProtocolVersion pc) [] false (first_message ++ more));
      [intros w Hw'; by apply Hpc|by left|done|done|].
    rewrite Hin. unfold opening. cbn [concat]. by rewrite <- app_assoc. }
  fold v. rewrite bool_decide_true by done. cbn beta.
  wp_steps. cbn [set_wire_out set_wire_in sv_server]. rewrite bool_decide_true by done.
  cbn [negb]. apply wpg_ret, wpg_bind, wpg_zoom. wp_steps. cbn [set_wire_out set_wire_in sv_server]. rewrite Ht. wp_steps.
  unfold find_session. rewrite bool_decide_true by done. cbn [rq_incoming rq_version].
  cbn [triggered]. wp_step. eapply wpg_mono; [by apply (new_session_first addr v id rest)|].
  intros r s1 (a & root & -> & ->). wp_steps.
  eapply on_session_object_spec; [apply lookup_insert_eq|]. apply on_pool_spec.
  unfold preJoinThreadOwnership. wp_steps.
  exists a. eexists _. exists v. split; [done|]. split; [apply lookup_insert_eq|]. split; [apply lookup_insert_eq|].
  split; [done|]. split; [done|]. split; [done|]. split; [done|]. split; [done|]. split; [done|].
  split; [by apply response_round_trip|].
  wp_use setProtocolVersion_spec. intros ok p [-> Hok].
  assert (ok = true) as ->; [|done]. apply Hok. split; [done|]. intros w Hw'.
  unfold v. rewrite Hw'. simpl. lia.
Qed.

(** A later connection of the same client, with the id of its session, joins it: the
    server serves it, or keeps it for its own calls. *)
Theorem later_connection_joins tid pipe addr s version id a sn incoming more :
  server_ok s -> mShutdownTrigger (sv_server s) = Some false ->
  tid ∈ mConnectingThreads (sv_server s) -> (forall n, wire_ok s n = OK) ->
  (forall v, version = Some v -> is_u32 v) ->
  mSessions (sv_server s) !! id = Some a -> sv_sessions s !! a = Some sn ->
  triggered (sn_trigger sn) = false ->
  wire_in s = concat (opening version id incoming) ++ more ->
  wp (establishConnection tid true pipe addr) s (fun e s' =>
    e = (if incoming then Outgoing a else Serve a) /\ mSessions (sv_server s') = mSessions (sv_server s)).
Proof.
  intros Hs Ht Htid Hw Hver Hid Hsn Htrg Hin.
  pose proof (so_ids _ Hs _ _ Hid) as Hlen.
  assert (Hne : id <> []) by (intros ->; done).
  destruct (so_sessions _ Hs _ _ Hid) as (sn' & Hsn' & _ & Htn & _). simplify_eq.
  unfold establishConnection. wp_steps. rewrite Ht. wp_step. wp_step.
  apply wp_run. eexists _, _. split.
  { apply (read_request_run version id incoming ((if incoming then [] else first_message) ++ more));
      [done|by right|done|done|].
    rewrite Hin. unfold opening. replace (0 <? zlen id) with true by (by rewrite Hlen).
    destruct incoming; simpl; by rewrite ?app_nil_r, <- ?app_assoc. }
  rewrite bool_decide_false by done. cbn beta. wp_steps.
  cbn [set_wire_out set_wire_in sv_server]. rewrite bool_decide_true by done. cbn [negb].
  apply wpg_ret, wpg_bind, wpg_zoom. wp_steps. cbn [set_wire_out set_wire_in sv_server]. rewrite Ht.
  cbn [triggered]. wp_step. unfold find_session. cbn [rq_id]. rewrite bool_decide_false by done. wp_steps.
  cbn [set_sv_server sv_server set_mConnectingThreads mSessions]. rewrite Hid.
  set (s2 := set_sv_server _ _).
  assert (Hs2 : server_ok s2) by (destruct Hs; by split).
  destruct incoming; cbn [rq_incoming].
  - wp_step. eapply wpg_mono; [by apply (addOutgoingConnection_spec tid a sn s2)|].
    intros st s3 ([E3 _ _] & Hst). assert (st = OK) as -> by (apply Hst; [done|apply Hw]). simpl. wp_steps. split; [done|]. by rewrite E3.
  - wp_step. eapply on_session_object_spec; [done|]. apply on_pool_spec.
    unfold preJoinThreadOwnership. by wp_steps.
Qed.

(** * Concrete runs *)

Definition an_id : bytes := repeat 7 32.

(** A server that is being joined; thread 5 has just accepted a connection. *)
Definition a_server (sessions : gmap bytes Z) : RpcServer :=
  mkRpcServer 2 None (Some 3) false true {[5]} None None None sessions (Some false).

Definition first_contact : SV :=
  mkSV (a_server ∅) ∅ (concat (opening (Some RPC_WIRE_PROTOCOL_VERSION_EXPERIMENTAL) [] false)) (fun _ => OK) []
    [Some an_id].

Lemma first_contact_ok : server_ok first_contact.
Proof.
  split; simpl; [by intros ? ? ?%lookup_empty_Some|by intros ? ? ?%lookup_empty_Some|].
  intros id Hid. apply list_elem_of_singleton in Hid. by injection Hid as ->.
Qed.

Lemma session_agreed_witness :
  wp (establishConnection 5 true true []) first_contact (fun e s' => exists a sn,
    e = Serve a /\ mSessions (sv_server s') !! an_id = Some a /\ sv_sessions s' !! a = Some sn /\
    mProtocolVersion (sn_pool sn) = Some 0).
Proof.
  eapply wpg_mono.
  - apply (session_agreed 5 [] (set_mProtocolVersion (Some RPC_WIRE_PROTOCOL_VERSION_EXPERIMENTAL) new_pool)
      an_id [] [] first_contact first_contact_ok); try reflexivity.
    + by split.
    + by left.
    + intros v [= <-]. split; [by split|by right].
  - intros e s' (a & sn & v & H1 & H2 & H3 & _ & H4 & -> & _). by exists a, sn.
Defined.


(** A client names its session for an incoming connection and hangs up before the first
    message: the server process aborts. *)
Definition hung_up : SV :=
  mkSV (a_server {[an_id := 0]}) {[0 := fresh_session 2 0 an_id None]}
    (concat (opening (Some 0) an_id true)) (fun _ => DEAD_OBJECT) [] [].

Lemma client_stops_the_server : establishConnection 5 true true [] hung_up = Fatal.
Proof. vm_compute. reflexivity. Qed.

(** A preconnected client gives the descriptor of its first connection to every later
    one, instead of asking for a new one. *)
Lemma preconnected_fd_reused raw request1 request2 :
  raw <> -1 -> preconnected_fd raw request1 = preconnected_fd raw request2.
Proof. intros H. unfold preconnected_fd. by rewrite (proj2 (Z.eqb_neq raw (-1)) H). Qed.

(** A network where everything works, with a server of three threads. *)
#[export] Instance fine_network : Network := {
  connect_status _ := OK;
  transport_made _ := true;
  write_status _ _ := OK;
  new_session_response := Good (response_bytes 0);
  remote_max_threads := Good 3;
  remote_id := Good an_id;
  worker n := 100 + Z.of_nat n;
  others_end p := set_mThreads ∅ p;
  pipe_made := true;
}.


Example setup_client_opens_three :
  match setupClient 1 (mkCL make_session []) with
  | Ret st c => st = OK /\ zlen (mOutgoing (sn_pool (cl_session c))) = 3 /\ zlen (cl_wires c) = 3
  | _ => False
  end.
Proof. vm_compute. done. Qed.
