(* ===== verification/LocalBinder.v ===== *)
(** Local binder objects: BBinder and IBinder of src/libs/binder/Binder.cpp.

    A BBinder keeps two words; everything else is in an [Extras] object that is made
    when it is first needed.  Several threads may need it at once: they publish with a
    compare-and-swap, and the losers delete theirs.  [Extras] objects are therefore
    kept by address.

    [transact] answers the calls that reach the object.  What a subclass overrides
    ([onTransact], [dump]) is a parameter; the answers of the base class are
    definitions.  The other side, where an IBinder is a proxy, calls through a
    parameter too.  A [Call] holds the object, the two parcels, and what the call does
    to the rest of the process. *)

From S2P Require Import Prelude Errors ParcelState ParcelWrite ParcelRead Stability ParcelObject ParcelIpc.
From S2P Require Proxy RpcSetup.

(** * The object *)

Definition SCHED_FIFO : Z := 1.
Definition SCHED_RR : Z := 2.

(** A link that shuts an RPC server down when a binder of its client dies. *)
Record RpcServerLink := mkRpcServerLink {
  mRpcServer : option RpcSetup.RpcServer;
  mKeepAliveBinder : Z;
  link_binder : bool;
}.

Record Extras := mkExtras {
  mRequestingSid : bool;
  mInheritRt : bool;
  mExtension : option Z;
  mPolicy : Z;
  mPriority : Z;
  mRpcServerLinks : gset Z;
  mObjects : Proxy.ObjectManager.t;
}.

Definition new_Extras : Extras := mkExtras false false None SCHED_NORMAL 0 ∅ ∅.

Definition set_mRequestingSid x (e : Extras) : Extras :=
  mkExtras x (mInheritRt e) (mExtension e) (mPolicy e) (mPriority e) (mRpcServerLinks e) (mObjects e).
Definition set_mInheritRt x (e : Extras) : Extras :=
  mkExtras (mRequestingSid e) x (mExtension e) (mPolicy e) (mPriority e) (mRpcServerLinks e) (mObjects e).
Definition set_mExtension x (e : Extras) : Extras :=
  mkExtras (mRequestingSid e) (mInheritRt e) x (mPolicy e) (mPriority e) (mRpcServerLinks e) (mObjects e).
Definition set_mPolicy policy priority (e : Extras) : Extras :=
  mkExtras (mRequestingSid e) (mInheritRt e) (mExtension e) policy priority (mRpcServerLinks e) (mObjects e).
Definition set_mRpcServerLinks x (e : Extras) : Extras :=
  mkExtras (mRequestingSid e) (mInheritRt e) (mExtension e) (mPolicy e) (mPriority e) x (mObjects e).
Definition set_mObjects x (e : Extras) : Extras :=
  mkExtras (mRequestingSid e) (mInheritRt e) (mExtension e) (mPolicy e) (mPriority e) (mRpcServerLinks e) x.

(** [heap] holds the [Extras] that exist, [links] the server links; [cleaned] logs the
    clean-up calls of the attached objects. *)
Record BBinder := mkBBinder {
  mExtras : option Z;
  mParceled : bool;
  heap : gmap Z Extras;
  links : gmap Z RpcServerLink;
  cleaned : list (Z * Proxy.entry_t);
}.

Definition new_BBinder : BBinder := mkBBinder None false ∅ ∅ [].

Definition set_mExtras x (b : BBinder) : BBinder := mkBBinder x (mParceled b) (heap b) (links b) (cleaned b).
Definition set_mParceled x (b : BBinder) : BBinder := mkBBinder (mExtras b) x (heap b) (links b) (cleaned b).
Definition set_heap x (b : BBinder) : BBinder := mkBBinder (mExtras b) (mParceled b) x (links b) (cleaned b).
Definition set_links x (b : BBinder) : BBinder := mkBBinder (mExtras b) (mParceled b) (heap b) x (cleaned b).
Definition set_cleaned x (b : BBinder) : BBinder := mkBBinder (mExtras b) (mParceled b) (heap b) (links b) x.

(** ** The extras: the atomic steps *)

Definition load_extras : M BBinder (option Z) := gets mExtras.

Definition create_extras : M BBinder Z :=
  let* b := get in
  let e := fresh (dom (heap b)) in
  modify (set_heap (<[e := new_Extras]> (heap b))) ;;
  ret e.

(** The compare-and-swap, and the deletion when another thread was faster. *)
Definition publish (e : Z) : M BBinder Z :=
  let* b := get in
  match mExtras b with
  | None => modify (set_mExtras (Some e)) ;; ret e
  | Some expected => modify (set_heap (delete e (heap b))) ;; ret expected
  end.

(** An access to the object at [e]. *)
Definition with_extras {A} (e : Z) (f : Extras -> A * Extras) : M BBinder A :=
  let* b := get in
  let* x := require (heap b !! e) in
  let '(a, x) := f x in
  modify (set_heap (<[e := x]> (heap b))) ;;
  ret a.

Definition getOrCreateExtras : M BBinder Z :=
  let* e := load_extras in
  match e with
  | Some e => ret e
  | None => let* e := create_extras in publish e
  end.

(** ** Operations *)

Definition attachObject (objectID object cleanupCookie func : Z) : M BBinder Z :=
  let* e := getOrCreateExtras in
  with_extras e (fun x =>
    let '(old, m) := Proxy.ObjectManager.attach objectID object cleanupCookie func (mObjects x) in
    (old, set_mObjects m x)).

Definition findObject (objectID : Z) : M BBinder Z :=
  let* e := load_extras in
  match e with
  | None => ret 0
  | Some e => with_extras e (fun x => (Proxy.ObjectManager.find objectID (mObjects x), x))
  end.

Definition detachObject (objectID : Z) : M BBinder Z :=
  let* e := load_extras in
  match e with
  | None => ret 0
  | Some e => with_extras e (fun x =>
      let '(old, m) := Proxy.ObjectManager.detach objectID (mObjects x) in (old, set_mObjects m x))
  end.

Definition withLock (doWithLock : M BBinder unit) : M BBinder unit :=
  getOrCreateExtras ;; doWithLock.

Definition isRequestingSid : M BBinder bool :=
  let* e := load_extras in
  match e with
  | None => ret false
  | Some e => with_extras e (fun x => (mRequestingSid x, x))
  end.

Definition setRequestingSid (requestingSid : bool) : M BBinder unit :=
  let* parceled := gets mParceled in
  fatal_if parceled ;;
  let* e := load_extras in
  match e with
  | None =>
      if negb requestingSid then ret tt else
      let* e := getOrCreateExtras in
      with_extras e (fun x => (tt, set_mRequestingSid requestingSid x))
  | Some e => with_extras e (fun x => (tt, set_mRequestingSid requestingSid x))
  end.

Definition getExtension : M BBinder (option Z) :=
  let* e := load_extras in
  match e with
  | None => ret None
  | Some e => with_extras e (fun x => (mExtension x, x))
  end.

Definition policy_accepted (policy priority : Z) : bool :=
  if policy =? SCHED_NORMAL then (-20 <=? priority) && (priority <=? 19)
  else if (policy =? SCHED_RR) || (policy =? SCHED_FIFO) then (1 <=? priority) && (priority <=? 255)
  else false.

Definition setMinSchedulerPolicy (policy priority : Z) : M BBinder unit :=
  let* parceled := gets mParceled in
  fatal_if parceled ;;
  fatal_if (negb (policy_accepted policy priority)) ;;
  let* e := load_extras in
  match e with
  | None =>
      if (policy =? SCHED_NORMAL) && (priority =? 0) then ret tt else
      let* e := getOrCreateExtras in
      with_extras e (fun x => (tt, set_mPolicy policy priority x))
  | Some e => with_extras e (fun x => (tt, set_mPolicy policy priority x))
  end.

Definition getMinSchedulerPolicy : M BBinder Z :=
  let* e := load_extras in
  match e with
  | None => ret SCHED_NORMAL
  | Some e => with_extras e (fun x => (mPolicy x, x))
  end.

Definition getMinSchedulerPriority : M BBinder Z :=
  let* e := load_extras in
  match e with
  | None => ret 0
  | Some e => with_extras e (fun x => (mPriority x, x))
  end.

Definition isInheritRt : M BBinder bool :=
  let* e := load_extras in
  match e with
  | None => ret false
  | Some e => with_extras e (fun x => (mInheritRt x, x))
  end.

Definition setInheritRt (inheritRt : bool) : M BBinder unit :=
  let* parceled := gets mParceled in
  fatal_if parceled ;;
  let* e := load_extras in
  match e with
  | None =>
      if negb inheritRt then ret tt else
      let* e := getOrCreateExtras in
      with_extras e (fun x => (tt, set_mInheritRt inheritRt x))
  | Some e => with_extras e (fun x => (tt, set_mInheritRt inheritRt x))
  end.

Definition setExtension (extension : option Z) : M BBinder unit :=
  let* parceled := gets mParceled in
  fatal_if parceled ;;
  let* e := getOrCreateExtras in
  with_extras e (fun x => (tt, set_mExtension extension x)).

Definition wasParceled : M BBinder bool := gets mParceled.
Definition setParceled : M BBinder unit := modify (set_mParceled true).

Definition removeRpcServerLink (link : Z) : M BBinder unit :=
  let* e := load_extras in
  match e with
  | None => ret tt
  | Some e => with_extras e (fun x => (tt, set_mRpcServerLinks (mRpcServerLinks x ∖ {[link]}) x))
  end.

(** The destructor; the table of attached objects makes their clean-up calls. *)
Definition destroy : M BBinder unit :=
  let* b := get in
  match mExtras b with
  | None => ret tt
  | Some e =>
      let* x := require (heap b !! e) in
      modify (fun b => set_cleaned (cleaned b ++ fst (Proxy.ObjectManager.kill (mObjects x)))
                         (set_heap (delete e (heap b)) b))
  end.

(** ** RPC for debugging *)

(** [RpcServerLink::binderDied], without the shutdown of the server; the result is the
    server to shut down. *)
Definition link_binderDied (link : Z) : M BBinder (option RpcSetup.RpcServer) :=
  let* b := get in
  let* l := require (links b !! link) in
  modify (set_links (<[link := mkRpcServerLink None (mKeepAliveBinder l) false]> (links b))) ;;
  (if link_binder l then removeRpcServerLink link else ret tt) ;;
  ret (mRpcServer l).

(** What a new server is set up with: [None] when one of the calls aborts. *)
Definition link_server (self fd maxThreads : Z) : status_t * option RpcSetup.RpcServer :=
  match (RpcSetup.setRootObjectWeak (Some self) ;;
         let* st := RpcSetup.setupExternalServer (Some fd) in
         if negb (st =? OK) then ret st else
         RpcSetup.setMaxThreads maxThreads ;; RpcSetup.start ;; ret OK) RpcSetup.new_server with
  | Ret st sv => (st, Some sv)
  | _ => (OK, None)
  end.

(** [setRpcClientDebug] with a descriptor: [enabled] is BINDER_RPC_DEV_SERVERS, [self]
    the address of the object, [death_link] what linkToDeath of a binder answers and
    [poolMax] the thread pool's maximum. *)
Definition setRpcClientDebug_fd (enabled : bool) (self : Z) (death_link : Z -> status_t) (poolMax : Z)
    (socketFd : Z) (keepAliveBinder : option Z) : M BBinder status_t :=
  if negb enabled then ret INVALID_OPERATION else
  if socketFd <? 0 then ret BAD_VALUE else
  match keepAliveBinder with
  | None => ret UNEXPECTED_NULL
  | Some k =>
      if poolMax <=? 1 then ret INVALID_OPERATION else
      let* e := getOrCreateExtras in
      let* b := get in
      let link := fresh (dom (links b)) in
      if negb (death_link k =? OK) then ret (death_link k) else
      let '(st, sv) := link_server self socketFd poolMax in
      match sv with
      | None => fatal
      | Some sv =>
          if negb (st =? OK) then ret st else
          modify (set_links (<[link := mkRpcServerLink (Some sv) k true]> (links b))) ;;
          with_extras e (fun x => (tt, set_mRpcServerLinks ({[link]} ∪ mRpcServerLinks x) x)) ;;
          ret OK
      end
  end.

(** * Calls *)

Definition PING_TRANSACTION : Z := B_PACK_CHARS 95 80 78 71.
Definition DUMP_TRANSACTION : Z := B_PACK_CHARS 95 68 77 80.
Definition SHELL_COMMAND_TRANSACTION : Z := B_PACK_CHARS 95 67 77 68.
Definition INTERFACE_TRANSACTION : Z := B_PACK_CHARS 95 78 84 70.
Definition SYSPROPS_TRANSACTION : Z := B_PACK_CHARS 95 83 80 82.
Definition EXTENSION_TRANSACTION : Z := B_PACK_CHARS 95 69 88 84.
Definition DEBUG_PID_TRANSACTION : Z := B_PACK_CHARS 95 80 73 68.
Definition SET_RPC_CLIENT_TRANSACTION : Z := B_PACK_CHARS 95 82 80 67.
Definition FLAG_CLEAR_BUF : Z := 0x20.
Definition AID_ROOT : Z := 0.

(** The object called, the parcels (there is no reply parcel for some callers), and
    the log of what the call did: dumps, results sent to result receivers, reports of
    changed properties. *)
Record Call := mkCall {
  object : BBinder;
  call_world : World;
  call_data : Parcel;
  call_reply : option Parcel;
  dumped : list (Z * list (list Z));
  results_sent : list (Z * Z);
  sysprop_reports : Z;
}.

Definition set_object x (c : Call) : Call :=
  mkCall x (call_world c) (call_data c) (call_reply c) (dumped c) (results_sent c) (sysprop_reports c).
Definition set_data (s : PS) (c : Call) : Call :=
  mkCall (object c) (world s) (this s) (call_reply c) (dumped c) (results_sent c) (sysprop_reports c).
Definition set_reply (s : PS) (c : Call) : Call :=
  mkCall (object c) (world s) (call_data c) (Some (this s)) (dumped c) (results_sent c) (sysprop_reports c).
Definition set_parcels data reply (c : Call) : Call :=
  mkCall (object c) (call_world c) data reply (dumped c) (results_sent c) (sysprop_reports c).
Definition add_dump x (c : Call) : Call :=
  mkCall (object c) (call_world c) (call_data c) (call_reply c) (dumped c ++ [x]) (results_sent c) (sysprop_reports c).
Definition add_result x (c : Call) : Call :=
  mkCall (object c) (call_world c) (call_data c) (call_reply c) (dumped c) (results_sent c ++ [x]) (sysprop_reports c).
Definition add_report (c : Call) : Call :=
  mkCall (object c) (call_world c) (call_data c) (call_reply c) (dumped c) (results_sent c) (sysprop_reports c + 1).

Definition on_object {A} (m : M BBinder A) : M Call A := zoom object set_object m.
Definition on_data {A} (m : M PS A) : M Call A :=
  zoom (fun c => mkPS (call_data c) (call_world c)) set_data m.
Definition on_reply {A} (m : M PS A) : M Call A :=
  let* c := get in
  let* r := require (call_reply c) in
  zoom (fun c => mkPS r (call_world c)) set_reply m.

(** [if (reply != nullptr)], and [CHECK(reply != nullptr)]. *)
Definition if_reply (m : M PS unit) : M Call unit :=
  let* c := get in match call_reply c with Some _ => on_reply m | None => ret tt end.
Definition CHECK_reply : M Call unit :=
  let* c := get in fatal_if (match call_reply c with Some _ => false | None => true end).

(** What a class and the process bring: its descriptor and [dump], the process id, the
    caller of the current call, and what [setRpcClientDebug] uses. *)
Class Hosting := {
  getInterfaceDescriptor : list Z;
  dump_status : Z -> list (list Z) -> status_t;
  getDebugPid : Z;
  getCallingUid : Z;
  kEnableRpcDevServers : bool;
  self_address : Z;
  linkToDeath_status : Z -> status_t;
  getThreadPoolMaxThreadCount : Z;
}.

Section Transact.
Context `{RpcBinders} `{Hosting}.

Definition dump (fd : Z) (args : list (list Z)) : M Call status_t :=
  modify (add_dump (fd, args)) ;; ret (dump_status fd args).

(** [for (int i = 0; i < argc && data.dataAvail() > 0; i++)] *)
Fixpoint read_args (argc : nat) : M PS (list (list Z)) :=
  match argc with
  | 0%nat => ret []
  | S argc =>
      let* n := dataAvail in
      if n <=? 0 then ret [] else
      let* arg := readString16_ in
      let* args := read_args argc in
      ret (arg :: args)
  end.

Definition BBinder_onTransact (code flags : Z) : M Call status_t :=
  if code =? INTERFACE_TRANSACTION then
    CHECK_reply ;;
    on_reply (writeString16 (Some getInterfaceDescriptor) (zlen getInterfaceDescriptor)) ;;
    ret NO_ERROR
  else if code =? DUMP_TRANSACTION then
    let* fd := on_data readFileDescriptor in
    let* argc := on_data readInt32_ in
    let* args := on_data (read_args (Z.to_nat argc)) in
    dump fd args
  else if code =? SHELL_COMMAND_TRANSACTION then
    on_data readFileDescriptor ;;
    on_data readFileDescriptor ;;
    on_data readFileDescriptor ;;
    let* argc := on_data readInt32_ in
    on_data (read_args (Z.to_nat argc)) ;;
    on_data readStrongBinder_ ;;
    let* resultReceiver := on_data readStrongBinder_ in
    (match resultReceiver with
     | Some r => modify (add_result (r, INVALID_OPERATION))
     | None => ret tt
     end) ;;
    ret NO_ERROR
  else if code =? SYSPROPS_TRANSACTION then
    modify add_report ;; ret NO_ERROR
  else ret UNKNOWN_TRANSACTION.

Definition setRpcClientDebug : M Call status_t :=
  if negb kEnableRpcDevServers then ret INVALID_OPERATION else
  if negb (getCallingUid =? AID_ROOT) then ret PERMISSION_DENIED else
  let* r := on_data readBool in
  if negb (fst r =? OK) then ret (fst r) else
  let* clientFd := if snd r : bool then on_data readUniqueFileDescriptor else ret (Good (-1)) in
  match clientFd with
  | Err st => ret st
  | Good clientFd =>
      let* b := on_data readNullableStrongBinder in
      match b with
      | Err st => ret st
      | Good keepAliveBinder =>
          on_object (setRpcClientDebug_fd kEnableRpcDevServers self_address linkToDeath_status
                       getThreadPoolMaxThreadCount clientFd keepAliveBinder)
      end
  end.

(** [transact], with the [onTransact] of the object's class. *)
Definition transact (onTransact : Z -> Z -> M Call status_t) (code flags : Z) : M Call status_t :=
  on_data (setDataPosition 0) ;;
  (if negb (Z.land flags FLAG_CLEAR_BUF =? 0) then if_reply markSensitive else ret tt) ;;
  let* err :=
    if code =? PING_TRANSACTION then ret NO_ERROR
    else if code =? EXTENSION_TRANSACTION then
      CHECK_reply ;;
      let* extension := on_object getExtension in
      on_reply (writeStrongBinder extension)
    else if code =? DEBUG_PID_TRANSACTION then
      CHECK_reply ;;
      on_reply (writeInt32 getDebugPid)
    else if code =? SET_RPC_CLIENT_TRANSACTION then setRpcClientDebug
    else onTransact code flags in
  if_reply (setDataPosition 0) ;;
  ret err.

(** * The side of a proxy *)

Context (proxy_transact : Z -> Z -> M Call status_t).

(** [Parcel data; Parcel reply;] *)
Definition new_parcels : M Call unit := modify (set_parcels init_parcel (Some init_parcel)).

Definition remote_getExtension : M Call (res (option Z)) :=
  new_parcels ;;
  let* status := proxy_transact EXTENSION_TRANSACTION 0 in
  if negb (status =? OK) then ret (Err status) else
  on_reply readNullableStrongBinder.

Definition remote_getDebugPid : M Call (res Z) :=
  new_parcels ;;
  let* status := proxy_transact DEBUG_PID_TRANSACTION 0 in
  if negb (status =? OK) then ret (Err status) else
  let* pid := on_reply readInt32 in
  match pid with
  | Err st => ret (Err st)
  | Good pid => if (pid <? 0) || (INT32_MAX <? pid) then ret (Err BAD_VALUE) else ret (Good pid)
  end.

Definition remote_setRpcClientDebug (socketFd : Z) (keepAliveBinder : option Z) : M Call status_t :=
  if negb kEnableRpcDevServers then ret INVALID_OPERATION else
  new_parcels ;;
  on_data (writeBool (0 <=? socketFd)) ;;?
  (if 0 <=? socketFd then on_data (writeFileDescriptor socketFd true) else ret OK) ;;?
  on_data (writeStrongBinder keepAliveBinder) ;;?
  proxy_transact SET_RPC_CLIENT_TRANSACTION 0.

Fixpoint write_args (args : list (list Z)) : M PS unit :=
  match args with
  | [] => ret tt
  | a :: args => writeString16 (Some a) (zlen a) ;; write_args args
  end.

(** The calls of a BpBinder on a driver handle (BpBinder.cpp); [cache] is its
    descriptor so far. *)
Definition remote_getInterfaceDescriptor (cache : list Z) : M Call (list Z) :=
  if negb (bool_decide (cache = [])) then ret cache else
  new_parcels ;;
  let* err := proxy_transact INTERFACE_TRANSACTION 0 in
  if err =? NO_ERROR then on_reply readString16_ else ret cache.

Definition remote_pingBinder : M Call status_t :=
  new_parcels ;; proxy_transact PING_TRANSACTION 0.

Definition remote_dump (fd : Z) (args : list (list Z)) : M Call status_t :=
  new_parcels ;;
  on_data (writeFileDescriptor fd false ;;
           writeInt32 (s32 (zlen args)) ;;
           write_args args) ;;
  proxy_transact DUMP_TRANSACTION 0.

Definition shellCommand (in_ out err : Z) (args : list (list Z)) (callback resultReceiver : option Z) :
    M Call status_t :=
  new_parcels ;;
  on_data (writeFileDescriptor in_ false ;;
           writeFileDescriptor out false ;;
           writeFileDescriptor err false ;;
           writeInt32 (s32 (zlen args)) ;;
           write_args args ;;
           writeStrongBinder callback ;;
           writeStrongBinder resultReceiver) ;;
  proxy_transact SHELL_COMMAND_TRANSACTION 0.
End Transact.
