(* ===== verification/LocalBinderProps.v ===== *)
(** The extras of a local binder, used by several threads at once.

    The code makes the [Extras] object when an operation first needs it, without a
    lock.  Below, an operation is a sequence of atomic steps (load, create,
    compare-and-swap, access), threads interleave their steps freely, and the result is
    that of one record of attributes which always exists. *)

From S2P Require Import Prelude Errors ParcelObject LocalBinder.
From S2P Require Proxy.

(** * Operations as data *)

Inductive op :=
| OpAttach (objectID object cleanupCookie func : Z)
| OpFind (objectID : Z)
| OpDetach (objectID : Z)
| OpIsRequestingSid
| OpSetRequestingSid (x : bool)
| OpGetExtension
| OpSetExtension (x : option Z)
| OpSetMinSchedulerPolicy (policy priority : Z)
| OpGetMinSchedulerPolicy
| OpGetMinSchedulerPriority
| OpIsInheritRt
| OpSetInheritRt (x : bool)
| OpRemoveRpcServerLink (link : Z).

Inductive value := VUnit | VBool (b : bool) | VInt (z : Z) | VObject (o : option Z).

(** The setters are for before the object is sent. *)
Definition gate (o : op) (b : BBinder) : bool :=
  match o with
  | OpSetRequestingSid _ | OpSetExtension _ | OpSetInheritRt _ => negb (mParceled b)
  | OpSetMinSchedulerPolicy policy priority => negb (mParceled b) && policy_accepted policy priority
  | _ => true
  end.

(** Whether it goes to [getOrCreateExtras] at once, and whether it does after it has
    seen that there are no extras. *)
Definition direct (o : op) : bool :=
  match o with OpAttach _ _ _ _ | OpSetExtension _ => true | _ => false end.
Definition creates (o : op) : bool :=
  match o with
  | OpSetRequestingSid x | OpSetInheritRt x => x
  | OpSetMinSchedulerPolicy policy priority => negb ((policy =? SCHED_NORMAL) && (priority =? 0))
  | _ => direct o
  end.

(** The access to the extras, and the result without them. *)
Definition act (o : op) (x : Extras) : value * Extras :=
  match o with
  | OpAttach id object cookie func =>
      let '(old, m) := Proxy.ObjectManager.attach id object cookie func (mObjects x) in
      (VInt old, set_mObjects m x)
  | OpFind id => (VInt (Proxy.ObjectManager.find id (mObjects x)), x)
  | OpDetach id =>
      let '(old, m) := Proxy.ObjectManager.detach id (mObjects x) in (VInt old, set_mObjects m x)
  | OpIsRequestingSid => (VBool (mRequestingSid x), x)
  | OpSetRequestingSid v => (VUnit, set_mRequestingSid v x)
  | OpGetExtension => (VObject (mExtension x), x)
  | OpSetExtension v => (VUnit, set_mExtension v x)
  | OpSetMinSchedulerPolicy policy priority => (VUnit, set_mPolicy policy priority x)
  | OpGetMinSchedulerPolicy => (VInt (mPolicy x), x)
  | OpGetMinSchedulerPriority => (VInt (mPriority x), x)
  | OpIsInheritRt => (VBool (mInheritRt x), x)
  | OpSetInheritRt v => (VUnit, set_mInheritRt v x)
  | OpRemoveRpcServerLink link => (VUnit, set_mRpcServerLinks (mRpcServerLinks x ∖ {[link]}) x)
  end.
Definition absent (o : op) : value :=
  match o with
  | OpFind _ | OpDetach _ => VInt 0
  | OpIsRequestingSid | OpIsInheritRt => VBool false
  | OpGetExtension => VObject None
  | OpGetMinSchedulerPolicy => VInt SCHED_NORMAL
  | OpGetMinSchedulerPriority => VInt 0
  | _ => VUnit
  end.

(** Extras that are not there are like new ones. *)
Lemma absent_act o : creates o = false -> act o new_Extras = (absent o, new_Extras).
Proof.
  destruct o; simpl; try done; intros E; subst; try done.
  - apply negb_false_iff in E. zb. by subst.
  - unfold new_Extras, set_mRpcServerLinks. simpl. by assert ((∅ ∖ {[link]} : gset Z) = ∅) as -> by set_solver.
Qed.

(** An operation as one thread runs it undisturbed. *)
Definition run (o : op) : M BBinder value :=
  let* b := get in
  fatal_if (negb (gate o b)) ;;
  let* e := if direct o then let* e := getOrCreateExtras in ret (Some e) else load_extras in
  match e with
  | Some e => with_extras e (act o)
  | None => if creates o then let* e := getOrCreateExtras in with_extras e (act o) else ret (absent o)
  end.

(** ** The operations of the class are these *)

Ltac same_op b :=
  destruct b as [[?|] [] ? ? ?];
  cbv [run gate direct creates act absent getOrCreateExtras load_extras create_extras publish with_extras
       attachObject findObject detachObject isRequestingSid setRequestingSid getExtension setExtension
       setMinSchedulerPolicy getMinSchedulerPolicy getMinSchedulerPriority isInheritRt setInheritRt
       removeRpcServerLink bind ret get gets require modify fatal_if fatal negb andb];
  simpl; repeat first [done | case_match; simplify_eq/=].

Lemma attach_run id object cookie func b :
  run (OpAttach id object cookie func) b = (let* v := attachObject id object cookie func in ret (VInt v)) b.
Proof. same_op b. Qed.
Lemma find_run id b : run (OpFind id) b = (let* v := findObject id in ret (VInt v)) b.
Proof. same_op b. Qed.
Lemma detach_run id b : run (OpDetach id) b = (let* v := detachObject id in ret (VInt v)) b.
Proof. same_op b. Qed.
Lemma isRequestingSid_run b : run OpIsRequestingSid b = (let* v := isRequestingSid in ret (VBool v)) b.
Proof. same_op b. Qed.
Lemma setRequestingSid_run x b : run (OpSetRequestingSid x) b = (setRequestingSid x ;; ret VUnit) b.
Proof. destruct x; same_op b. Qed.
Lemma getExtension_run b : run OpGetExtension b = (let* v := getExtension in ret (VObject v)) b.
Proof. same_op b. Qed.
Lemma setExtension_run x b : run (OpSetExtension x) b = (setExtension x ;; ret VUnit) b.
Proof. same_op b. Qed.
Lemma setMinSchedulerPolicy_run policy priority b :
  run (OpSetMinSchedulerPolicy policy priority) b = (setMinSchedulerPolicy policy priority ;; ret VUnit) b.
Proof.
  destruct (policy_accepted policy priority) eqn:?, (policy =? SCHED_NORMAL) eqn:?, (priority =? 0) eqn:?; same_op b.
Qed.
Lemma getMinSchedulerPolicy_run b : run OpGetMinSchedulerPolicy b = (let* v := getMinSchedulerPolicy in ret (VInt v)) b.
Proof. same_op b. Qed.
Lemma getMinSchedulerPriority_run b :
  run OpGetMinSchedulerPriority b = (let* v := getMinSchedulerPriority in ret (VInt v)) b.
Proof. same_op b. Qed.
Lemma isInheritRt_run b : run OpIsInheritRt b = (let* v := isInheritRt in ret (VBool v)) b.
Proof. same_op b. Qed.
Lemma setInheritRt_run x b : run (OpSetInheritRt x) b = (setInheritRt x ;; ret VUnit) b.
Proof. destruct x; same_op b. Qed.
Lemma removeRpcServerLink_run link b :
  run (OpRemoveRpcServerLink link) b = (removeRpcServerLink link ;; ret VUnit) b.
Proof. same_op b. Qed.

(** * Threads *)

(** Where a thread is in its operation. *)
Inductive pc :=
| Idle
| Looking (o : op)          (* about to load the pointer *)
| Creating (o : op)         (* in getOrCreateExtras, about to load it *)
| Missing (o : op)          (* has seen null, about to create *)
| Made (o : op) (e : Z)     (* about to compare and swap *)
| Holding (o : op) (e : Z)  (* about to access *)
| Done (o : op) (v : value).

(** [history]: the operations in the order in which they take effect, with their
    results. *)
Record Threads := mkThreads {
  shared : BBinder;
  pcs : Z -> pc;
  history : list (Z * op * value);
}.

Definition go (t : Z) (p : pc) (b : BBinder) (s : Threads) : Threads :=
  mkThreads b (fun t' => if t' =? t then p else pcs s t') (history s).
Definition record (t : Z) (o : op) (v : value) (s : Threads) : Threads :=
  mkThreads (shared s) (pcs s) (history s ++ [(t, o, v)]).

Definition new_threads : Threads := mkThreads new_BBinder (fun _ => Idle) [].

Inductive step (t : Z) (s : Threads) : Threads -> Prop :=
| step_start o : pcs s t = Idle -> gate o (shared s) = true ->
    step t s (go t (if direct o then Creating o else Looking o) (shared s) s)
| step_look o r b : pcs s t = Looking o -> load_extras (shared s) = Ret r b ->
    step t s (match r with
              | Some e => go t (Holding o e) b s
              | None => if creates o then go t (Creating o) b s
                        else record t o (absent o) (go t (Done o (absent o)) b s)
              end)
| step_load o r b : pcs s t = Creating o -> load_extras (shared s) = Ret r b ->
    step t s (go t (match r with Some e => Holding o e | None => Missing o end) b s)
| step_create o e b : pcs s t = Missing o -> create_extras (shared s) = Ret e b ->
    step t s (go t (Made o e) b s)
| step_publish o e e' b : pcs s t = Made o e -> publish e (shared s) = Ret e' b ->
    step t s (go t (Holding o e') b s)
| step_act o e v b : pcs s t = Holding o e -> with_extras e (act o) (shared s) = Ret v b ->
    step t s (record t o v (go t (Done o v) b s))
| step_return o v : pcs s t = Done o v -> step t s (go t Idle (shared s) s)
| step_parceled b : setParceled (shared s) = Ret tt b -> step t s (go t (pcs s t) b s).

Definition reachable (s : Threads) : Prop := rtc (fun s s' => exists t, step t s s') new_threads s.

(** * The record of attributes *)

(** Running the operations of a history on one record, if they have these results. *)
Inductive replays : Extras -> list (Z * op * value) -> Extras -> Prop :=
| replays_nil x : replays x [] x
| replays_cons x t o v x' l x'' :
    act o x = (v, x') -> replays x' l x'' -> replays x ((t, o, v) :: l) x''.

Lemma replays_snoc x l y t o v z :
  replays x l y -> act o y = (v, z) -> replays x (l ++ [(t, o, v)]) z.
Proof. induction 1; intros; [by repeat econstructor|]. econstructor; eauto. Qed.

Definition attributes (b : BBinder) : Extras :=
  match mExtras b with Some e => default new_Extras (heap b !! e) | None => new_Extras end.

(** The last result of a thread in the history. *)
Definition last_of (t : Z) (l : list (Z * op * value)) : option (op * value) :=
  last (omap (fun '(t', o, v) => if t' =? t then Some (o, v) else None) l).

Lemma last_of_snoc t l t' o v :
  last_of t (l ++ [(t', o, v)]) = if t' =? t then Some (o, v) else last_of t l.
Proof. unfold last_of. rewrite omap_app. simpl. destruct (t' =? t); [by rewrite last_snoc|by rewrite app_nil_r]. Qed.

Record inv (s : Threads) : Prop := {
  inv_history : replays new_Extras (history s) (attributes (shared s));
  inv_heap e : is_Some (heap (shared s) !! e) <->
    mExtras (shared s) = Some e \/ exists t o, pcs s t = Made o e;
  inv_made t o e : pcs s t = Made o e ->
    heap (shared s) !! e = Some new_Extras /\ mExtras (shared s) <> Some e /\
    forall t' o', pcs s t' = Made o' e -> t' = t;
  inv_holding t o e : pcs s t = Holding o e -> mExtras (shared s) = Some e;
  inv_done t o v : pcs s t = Done o v -> last_of t (history s) = Some (o, v);
}.

Lemma inv_start : inv new_threads.
Proof.
  split; simpl; try done; [constructor|].
  intros e. rewrite lookup_empty. split; [by intros []|]. by intros [|(? & ? & ?)].
Qed.

Lemma pcs_go t p b s t' : pcs (go t p b s) t' = if t' =? t then p else pcs s t'.
Proof. done. Qed.

(** A step after which the thread is elsewhere and nothing else has changed. *)
Lemma inv_go s t p b :
  inv s -> heap b = heap (shared s) -> mExtras b = mExtras (shared s) ->
  (forall o e, pcs s t = Made o e <-> p = Made o e) ->
  (forall o e, p = Holding o e -> mExtras (shared s) = Some e) ->
  (forall o v, p = Done o v -> last_of t (history s) = Some (o, v)) ->
  inv (go t p b s).
Proof.
  intros [] Eh Em Hm Hh Hd.
  assert (Hmade : forall t' o e, pcs (go t p b s) t' = Made o e <-> pcs s t' = Made o e).
  { intros t' o e. rewrite pcs_go. zcase (t' =? t); [subst; by rewrite Hm|done]. }
  split; simpl.
  - unfold attributes. rewrite Eh, Em. done.
  - intros e. rewrite Eh, Em, inv_heap0. split; (intros [?|(t' & o & ?)]; [by left|right; exists t', o; by apply Hmade]).
  - intros t' o e H%Hmade. rewrite Eh, Em. destruct (inv_made0 _ _ _ H) as (? & ? & Hu).
    split_and!; [done..|]. intros ? ? ?%Hmade. by eapply Hu.
  - intros t' o e. rewrite Em. zcase (t' =? t); [apply Hh|apply inv_holding0].
  - intros t' o v. zcase (t' =? t); [subst; apply Hd|apply inv_done0].
Qed.

(** A step at which an operation takes effect. *)
Lemma inv_effect s t o v b :
  inv s -> (forall o e, pcs s t <> Made o e) ->
  act o (attributes (shared s)) = (v, attributes b) -> mExtras b = mExtras (shared s) ->
  (forall e, is_Some (heap b !! e) <-> is_Some (heap (shared s) !! e)) ->
  (forall e, mExtras (shared s) <> Some e -> heap b !! e = heap (shared s) !! e) ->
  inv (record t o v (go t (Done o v) b s)).
Proof.
  intros [] Hno Ha Em Hs He.
  assert (Hmade : forall t' o' e, pcs (go t (Done o v) b s) t' = Made o' e <-> pcs s t' = Made o' e).
  { intros t' o' e. rewrite pcs_go. zcase (t' =? t); [subst; split; [done|by intros ?%Hno]|done]. }
  split; simpl.
  - by eapply replays_snoc.
  - intros e. rewrite Hs, Em, inv_heap0. split; (intros [?|(t' & o' & ?)]; [by left|right; exists t', o'; by apply Hmade]).
  - intros t' o' e H%Hmade. rewrite Em. destruct (inv_made0 _ _ _ H) as (? & ? & Hu).
    rewrite He by done. split_and!; [done..|]. intros ? ? ?%Hmade. by eapply Hu.
  - intros t' o' e. rewrite Em. zcase (t' =? t); [done|apply inv_holding0].
  - intros t' o' v'. rewrite last_of_snoc, (Z.eqb_sym t t'). zcase (t' =? t); [by intros [= -> ->]|apply inv_done0].
Qed.

Lemma inv_create s t o e b :
  inv s -> pcs s t = Missing o -> create_extras (shared s) = Ret e b -> inv (go t (Made o e) b s).
Proof.
  intros [] Hp. unfold create_extras, bind, get, modify, ret. intros [= <- <-].
  set (e := fresh (dom (heap (shared s)))).
  assert (Hf : heap (shared s) !! e = None) by (apply not_elem_of_dom, is_fresh).
  assert (Hne : mExtras (shared s) <> Some e).
  { intros E. assert (is_Some (heap (shared s) !! e)) as [? ?] by (apply inv_heap0; by left). congruence. }
  assert (Hnm : forall t' o', pcs s t' <> Made o' e).
  { intros t' o' (? & _)%inv_made0. congruence. }
  split; simpl.
  - unfold attributes in *. simpl. destruct (mExtras (shared s)) as [e'|]; [|done].
    by rewrite lookup_insert_ne by congruence.
  - intros e'. destruct (decide (e' = e)) as [->|Hx].
    + rewrite lookup_insert_eq. split; [intros _; right; exists t, o; by rewrite Z.eqb_refl|by eexists].
    + rewrite lookup_insert_ne, inv_heap0 by done. split; (intros [?|(t' & o' & H)]; [by left|right; exists t', o']).
      * zcase (t' =? t); congruence.
      * destruct (t' =? t); [congruence|done].
  - intros t' o' e' H. zcase (t' =? t).
    + injection H as -> ->. rewrite lookup_insert_eq. split_and!; [done..|].
      intros t'' o'' H''. zcase (t'' =? t); [lia|]. by apply Hnm in H''.
    + destruct (inv_made0 _ _ _ H) as (? & ? & Hu). rewrite lookup_insert_ne by congruence.
      split_and!; [done..|]. intros t'' o'' H''. zcase (t'' =? t); [congruence|by eapply Hu].
  - intros t' o' e'. zcase (t' =? t); [done|apply inv_holding0].
  - intros t' o' v'. zcase (t' =? t); [done|apply inv_done0].
Qed.

Lemma inv_publish s t o e e' b :
  inv s -> pcs s t = Made o e -> publish e (shared s) = Ret e' b -> inv (go t (Holding o e') b s).
Proof.
  intros [] Hp. destruct (inv_made0 _ _ _ Hp) as (He & Hne & Hu).
  assert (Hmade : forall t' o' x, t' <> t -> pcs s t' = Made o' x -> x <> e).
  { intros t' o' x Ht H ->. by destruct Ht; eapply Hu. }
  unfold publish, bind, get, modify, ret. destruct (mExtras (shared s)) as [m|] eqn:Em; intros [= <- <-].
  - split; simpl.
    + unfold attributes in *. simpl. rewrite Em in *. by rewrite lookup_delete_ne by congruence.
    + intros x. rewrite lookup_delete_is_Some, inv_heap0, Em. split.
      * intros (Hx & [?|(t' & o' & H)]); [by left|]. right. exists t', o'. zcase (t' =? t); congruence.
      * intros [[= <-]|(t' & o' & H)]; [split; [congruence|by left]|]. zcase (t' =? t); [done|].
        split; [apply not_eq_sym; by eapply Hmade|right; eauto].
    + intros t' o' x H. zcase (t' =? t); [done|]. destruct (inv_made0 _ _ _ H) as (? & ? & Hux).
      rewrite lookup_delete_ne by (apply not_eq_sym; by eapply Hmade). rewrite Em in *.
      split_and!; [done..|]. intros t'' o'' H''. zcase (t'' =? t); [done|by eapply Hux].
    + intros t' o' x. zcase (t' =? t); [by intros [= _ ->]|]. rewrite Em. apply inv_holding0.
    + intros t' o' v'. zcase (t' =? t); [done|apply inv_done0].
  - split; simpl.
    + unfold attributes in *. rewrite Em in inv_history0. simpl. by rewrite He.
    + intros x. rewrite inv_heap0. split.
      * intros [?|(t' & o' & H)]; [done|]. zcase (t' =? t); [left; congruence|].
        right. exists t', o'. zcase (t' =? t); [done|]. done.
      * intros [[= <-]|(t' & o' & H)]; [right; eauto|]. zcase (t' =? t); [done|right; eauto].
    + intros t' o' x H. zcase (t' =? t); [done|]. destruct (inv_made0 _ _ _ H) as (? & ? & Hux).
      split_and!; [done|intros [= ->]; by eapply Hmade|].
      intros t'' o'' H''. zcase (t'' =? t); [done|by eapply Hux].
    + intros t' o' x. zcase (t' =? t); [by intros [= _ ->]|]. intros Hx%inv_holding0. congruence.
    + intros t' o' v'. zcase (t' =? t); [done|apply inv_done0].
Qed.

Lemma with_extras_inv e o b v b' :
  with_extras e (act o) b = Ret v b' ->
  exists x x', heap b !! e = Some x /\ act o x = (v, x') /\ b' = set_heap (<[e := x']> (heap b)) b.
Proof.
  unfold with_extras, bind, get, require, modify, ret. destruct (heap b !! e) as [x|]; [|done].
  destruct (act o x) as [v' x'] eqn:E. intros [= <- <-]. eauto.
Qed.

Lemma inv_act s t o e v b :
  inv s -> pcs s t = Holding o e -> with_extras e (act o) (shared s) = Ret v b ->
  inv (record t o v (go t (Done o v) b s)).
Proof.
  intros Hi Hp (x & x' & Hx & Ha & ->)%with_extras_inv.
  pose proof (inv_holding _ Hi _ _ _ Hp) as Hm.
  apply inv_effect; simpl; try done.
  - congruence.
  - unfold attributes. simpl. rewrite Hm, Hx. simpl. by rewrite lookup_insert_eq.
  - intros e'. rewrite lookup_insert_is_Some'. split; [intros [<-|?]; [by eexists|done]|by right].
  - intros e' Hne. apply lookup_insert_ne. congruence.
Qed.

Lemma attributes_none b : mExtras b = None -> attributes b = new_Extras.
Proof. unfold attributes. by intros ->. Qed.

Lemma thread_step_inv s s' : inv s -> (exists t, step t s s') -> inv s'.
Proof.
  intros Hi [t Hs]. destruct Hs as [o Hp _|o r b Hp Hl|o r b Hp Hl|o e b Hp Hc|o e e' b Hp Hc|o e v b Hp Hc|o v Hp|b Hp].
  - apply inv_go; try done; destruct (direct o); try done; intros; by rewrite Hp.
  - unfold load_extras, gets in Hl. injection Hl as <- <-. destruct (mExtras (shared s)) as [e|] eqn:Em.
    + apply inv_go; try done; intros; [by rewrite Hp|congruence].
    + destruct (creates o) eqn:Ec.
      * apply inv_go; try done; intros; by rewrite Hp.
      * apply inv_effect; try done; [congruence|]. rewrite (attributes_none _ Em). by apply absent_act.
  - unfold load_extras, gets in Hl. injection Hl as <- <-. destruct (mExtras (shared s)) as [e|] eqn:Em;
      apply inv_go; try done; intros; first [by rewrite Hp|congruence].
  - by eapply inv_create.
  - by eapply inv_publish.
  - by eapply inv_act.
  - apply inv_go; try done. intros. by rewrite Hp.
  - injection Hp as <-. apply inv_go; try done; intros; [by eapply inv_holding|by eapply inv_done].
Qed.

Lemma reachable_threads_inv s : reachable s -> inv s.
Proof.
  intros Hr. eapply (rtc_ind_r inv); [apply inv_start| |exact Hr]. intros ? ? _ ? ?. by eapply thread_step_inv.
Qed.

Lemma holding_alive s t o e :
  inv s -> pcs s t = Holding o e -> exists x, heap (shared s) !! e = Some x.
Proof. intros Hi H%(inv_holding _ Hi). apply (inv_heap _ Hi). by left. Qed.

(** A thread that is in an operation can go on. *)
Lemma can_go_on s t :
  inv s -> pcs s t <> Idle -> exists s', step t s s' /\ pcs s' t <> pcs s t.
Proof.
  intros Hi Hn. destruct (pcs s t) as [|o|o|o|o e|o e|o v] eqn:Hp; [done|..].
  - eexists. split; [eapply step_look; [done|reflexivity]|].
    destruct (mExtras _); [|destruct (creates o)]; simpl; by rewrite Z.eqb_refl.
  - eexists. split; [eapply step_load; [done|reflexivity]|]. rewrite pcs_go, Z.eqb_refl. by destruct (mExtras _).
  - eexists. split; [eapply step_create; [done|cbv beta delta [create_extras bind get modify ret] iota zeta; reflexivity]|]. by rewrite pcs_go, Z.eqb_refl.
  - destruct (publish e (shared s)) as [e' b| |] eqn:E.
    + eexists. split; [by eapply step_publish|]. by rewrite pcs_go, Z.eqb_refl.
    + unfold publish, bind, get, modify, ret in E. by destruct (mExtras _).
    + unfold publish, bind, get, modify, ret in E. by destruct (mExtras _).
  - destruct (holding_alive _ _ _ _ Hi Hp) as [x Hx].
    destruct (act o x) as [v x'] eqn:Ha.
    eexists. split.
    + eapply step_act; [done|]. unfold with_extras, bind, get, require, modify, ret. by rewrite Hx, Ha.
    + simpl. by rewrite Z.eqb_refl.
  - eexists. split; [by eapply step_return|]. by rewrite pcs_go, Z.eqb_refl.
Qed.

Lemma destroy_empty s :
  inv s -> (forall t o e, pcs s t <> Made o e) -> wp destroy (shared s) (fun _ b => heap b = ∅).
Proof.
  intros Hi Hm. unfold destroy. wp_steps.
  assert (Hh : forall e, is_Some (heap (shared s) !! e) -> mExtras (shared s) = Some e).
  { intros e [?|(t & o & H)]%(inv_heap _ Hi); [done|]. by apply Hm in H. }
  destruct (mExtras (shared s)) as [e|] eqn:Em.
  - assert (is_Some (heap (shared s) !! e)) as [x Hx] by (apply (inv_heap _ Hi); by left).
    rewrite Hx. wp_steps. simpl. apply map_empty. intros i.
    destruct (decide (i = e)) as [->|Hne]; [by rewrite lookup_delete_eq|].
    rewrite lookup_delete_ne by done. destruct (heap (shared s) !! i) eqn:E; [|done].
    assert (Some e = Some i) by (apply Hh; by eexists). congruence.
  - wp_step. apply map_empty. intros i. destruct (heap (shared s) !! i) eqn:E; [|done].
    assert (None = Some i) by (apply Hh; by eexists). congruence.
Qed.


(** * A concrete race *)

(** The next step of a thread, and a schedule: a thread begins an operation, or goes
    on with the one it is in. *)
Definition next (t : Z) (s : Threads) : option Threads :=
  let out {A} (r : outcome BBinder A) (k : A -> BBinder -> Threads) : option Threads :=
    match r with Ret a b => Some (k a b) | _ => None end in
  match pcs s t with
  | Idle => None
  | Looking o => out (load_extras (shared s)) (fun r b =>
      match r with
      | Some e => go t (Holding o e) b s
      | None => if creates o then go t (Creating o) b s
                else record t o (absent o) (go t (Done o (absent o)) b s)
      end)
  | Creating o => out (load_extras (shared s)) (fun r b =>
      go t (match r with Some e => Holding o e | None => Missing o end) b s)
  | Missing o => out (create_extras (shared s)) (fun e b => go t (Made o e) b s)
  | Made o e => out (publish e (shared s)) (fun e' b => go t (Holding o e') b s)
  | Holding o e => out (with_extras e (act o) (shared s)) (fun v b => record t o v (go t (Done o v) b s))
  | Done o v => Some (go t Idle (shared s) s)
  end.

Fixpoint play (l : list (Z * option op)) (s : Threads) : option Threads :=
  match l with
  | [] => Some s
  | (t, Some o) :: l =>
      match pcs s t with
      | Idle => if gate o (shared s)
                then play l (go t (if direct o then Creating o else Looking o) (shared s) s) else None
      | _ => None
      end
  | (t, None) :: l => match next t s with Some s' => play l s' | None => None end
  end.

Lemma next_step t s s' : next t s = Some s' -> step t s s'.
Proof.
  unfold next. destruct (pcs s t) as [|o|o|o|o e|o e|o v] eqn:Hp; [done|..].
  - destruct (load_extras (shared s)) eqn:E; intros [= <-]. by apply step_look.
  - destruct (load_extras (shared s)) eqn:E; intros [= <-]. by apply step_load.
  - destruct (create_extras (shared s)) eqn:E; [|done..]. intros [= <-]. by apply step_create.
  - destruct (publish e (shared s)) eqn:E; [|done..]. intros [= <-]. by eapply step_publish.
  - destruct (with_extras e (act o) (shared s)) eqn:E; [|done..]. intros [= <-]. by eapply step_act.
  - intros [= <-]. by eapply step_return.
Qed.

Lemma play_reachable l s s' : reachable s -> play l s = Some s' -> reachable s'.
Proof.
  revert s. induction l as [|[t [o|]] l IH]; intros s Hr; simpl; [by intros [= <-]|..].
  - destruct (pcs s t) eqn:Hp; try done. destruct (gate o (shared s)) eqn:Hg; [|done].
    apply IH. eapply rtc_r; [done|]. exists t. by apply step_start.
  - destruct (next t s) as [s1|] eqn:E; [|done]. apply IH. eapply rtc_r; [done|].
    exists t. by apply next_step.
Qed.

(** Two threads find no extras, both create, one publishes, the other deletes its own. *)
Definition race : list (Z * option op) :=
  [(2, Some (OpSetRequestingSid true)); (2, None); (2, None); (1, Some (OpAttach 7 8 0 0));
   (1, None); (1, None); (2, None); (1, None); (2, None); (1, None); (2, None)].
Definition raced : Threads := default new_threads (play race new_threads).

