(* ===== verification/LocalCallProps.v ===== *)
(** Calls that reach a local binder: what its base class answers to proxies, and that
    it survives whatever it is sent. *)

From S2P Require Import Prelude Errors ParcelState ParcelWrite ParcelRead Stability ParcelObject.
From S2P Require Import ParcelIpc ParcelInv ParcelWriteSpec ParcelReadSpec ParcelDataSpec ParcelObjectSpec ParcelIpcProps.
From S2P Require Import ParcelObjectProps LocalBinder LocalBinderProps.

(** * Steps of a call *)

Lemma wpg_on_data {A} F (m : M PS A) c Q :
  wpg F m (mkPS (call_data c) (call_world c)) (fun a s => Q a (set_data s c)) -> wpg F (on_data m) c Q.
Proof. intros H. unfold on_data. by apply wpg_zoom. Qed.

Lemma wpg_on_object {A} F (m : M BBinder A) c Q :
  wpg F m (object c) (fun a b => Q a (set_object b c)) -> wpg F (on_object m) c Q.
Proof. intros H. unfold on_object. by apply wpg_zoom. Qed.

Lemma wpg_on_reply {A} F (m : M PS A) c r Q :
  call_reply c = Some r ->
  wpg F m (mkPS r (call_world c)) (fun a s => Q a (set_reply s c)) -> wpg F (on_reply m) c Q.
Proof. intros E H. unfold on_reply. wp_steps. rewrite E. wp_steps. by apply wpg_zoom. Qed.

Lemma wpg_if_reply F (m : M PS unit) c r Q :
  call_reply c = Some r ->
  wpg F m (mkPS r (call_world c)) (fun a s => Q a (set_reply s c)) -> wpg F (if_reply m) c Q.
Proof. intros E H. unfold if_reply. wp_steps. rewrite E. by eapply wpg_on_reply. Qed.

(** * The object *)

(** The pointer, if there is one, is to living extras. *)
Definition extras_alive (b : BBinder) : Prop :=
  forall e, mExtras b = Some e -> heap b !! e = Some (attributes b).

Lemma with_alive {A} F e (f : Extras -> A * Extras) b Q :
  extras_alive b -> mExtras b = Some e ->
  (forall a x, f (attributes b) = (a, x) -> Q a (set_heap (<[e := x]> (heap b)) b)) ->
  wpg F (with_extras e f) b Q.
Proof.
  intros Ha He HQ. unfold with_extras. wp_steps. rewrite (Ha _ He). wp_step.
  destruct (f (attributes b)) as [a x] eqn:E. wp_steps. by apply HQ.
Qed.

Lemma getExtension_ok F b Q :
  extras_alive b ->
  (forall b', extras_alive b' -> attributes b' = attributes b -> Q (mExtension (attributes b)) b') ->
  wpg F getExtension b Q.
Proof.
  intros Ha HQ. unfold getExtension, load_extras. wp_steps.
  destruct (mExtras b) as [e|] eqn:He.
  - eapply with_alive; [done|done|]. intros a x [= <- <-].
    rewrite insert_id by (by apply Ha). destruct b. by apply HQ.
  - wp_step. replace None with (mExtension (attributes b)) by (by rewrite attributes_none).
    by apply HQ.
Qed.

Lemma getOrCreateExtras_ok F b Q :
  extras_alive b ->
  (forall e b', mExtras b' = Some e -> extras_alive b' -> attributes b' = attributes b ->
     links b' = links b -> Q e b') ->
  wpg F getOrCreateExtras b Q.
Proof.
  intros Ha HQ. unfold getOrCreateExtras, load_extras. wp_steps.
  destruct (mExtras b) as [e|] eqn:He; [wp_step; by apply HQ|].
  unfold create_extras, publish. wp_steps. simpl. rewrite He. wp_steps. simpl.
  apply HQ; [done| | |done]; unfold extras_alive, attributes; simpl; rewrite ?He, ?lookup_insert_eq; [|done].
  intros e [= <-]. by rewrite lookup_insert_eq.
Qed.

(** * Questions a proxy asks *)

Ltac pick :=
  repeat match goal with
  | |- context [?a =? ?b] => let v := eval vm_compute in (a =? b) in
      lazymatch v with true => idtac | false => idtac end; change (a =? b) with v
  end; cbn [negb]; cbv iota.

(** The object can be asked: its extras are alive, there is memory for a reply, and its
    extension can be sent. *)
Record answerable (c : Call) : Prop := {
  an_extras : extras_alive (object c);
  an_memory : ~ can_fail (call_world c);
  an_extension a : mExtension (attributes (object c)) = Some a ->
    exists o, w_binders (call_world c) !! a = Some o /\ sendable (call_world c) a o;
}.

(** [transact] moves to the start of the data. *)
Lemma begin_new {A} F (k : unit -> M Call A) c Q :
  wpg F (k tt) (set_parcels init_parcel (Some init_parcel) c) Q ->
  wpg F (let* u := on_data (setDataPosition 0) in k u) (set_parcels init_parcel (Some init_parcel) c) Q.
Proof. intros HQ. wp_step. apply wpg_on_data. unfold setDataPosition. zdec (INT32_MAX <? 0). by wp_step. Qed.

(** The steps of a proxy up to where the object writes its answer. *)
Ltac ask :=
  unfold new_parcels, transact; do 2 wp_step; first [apply begin_new | wp_step; apply begin_new]; pick;
  unfold CHECK_reply; wp_steps; cbn [call_reply set_parcels]; wp_steps.

Section Calls.
Context `{RpcBinders} `{Hosting}.

Lemma fresh_wf : wf init_parcel.
Proof. apply init_parcel_wf. Qed.

(** The reply, once rewound, holds [a] for the reader [rd]. *)
Definition answers {A} (rd : M PS A) (a : A) (c : Call) : Prop :=
  forall F Q, (forall c', object c' = object c -> Q a c') -> wpg F (on_reply rd) c Q.

Definition answered {A} F (m : M PS status_t) (rd : M PS A) (a : A) (c : Call) : Prop :=
  forall K, (forall c', object c' = object c -> answers rd a c' -> K NO_ERROR c') ->
  wpg F (on_reply m) c (fun err c =>
    err = NO_ERROR /\ wpg F (if_reply (setDataPosition 0) ;; ret err) c K).

Lemma use_answer {A} F (m : M PS status_t) (rd : M PS A) (a : A) c (K P : Z -> Call -> Prop) :
  (forall c', wpg F (if_reply (setDataPosition 0) ;; ret NO_ERROR) c' K -> P NO_ERROR c') ->
  answered F m rd a c ->
  (forall c', object c' = object c -> answers rd a c' -> K NO_ERROR c') ->
  wpg F (on_reply m) c P.
Proof. intros HP Ha HK. eapply wpg_mono; [by apply Ha|]. intros ? c' [-> ?]. by apply HP. Qed.

(** A reply that a plain writer fills is read back. *)
Lemma plain_answer {A} F (m : M PS status_t) (rd : M PS A) c bs (a : A) :
  call_reply c = Some init_parcel -> ~ can_fail (call_world c) ->
  (forall G s, wf (this s) -> fits (this s) (zlen bs) -> wpg G m s (write_post s bs)) ->
  fits init_parcel (zlen bs) -> decodes rd bs a -> answered F m rd a c.
Proof.
  intros Hr Hmem Hm Hf Hd K HK. eapply wpg_on_reply; [done|].
  eapply write_next; [by apply Hm, Hf; apply fresh_wf|done|].
  intros s1 _ Ha _ _. split; [done|]. wp_step. eapply wpg_if_reply; [done|].
  pose proof (ap_wf _ _ _ Ha) as Hwf1. pose proof (wf_size _ Hwf1).
  eapply setDataPosition_ok; simpl; [by destruct s1|lia|]. intros s2 Hw2 Hwf2 Hp2. wp_step.
  apply HK; [done|]. intros G Q HQ. eapply wpg_on_reply; [done|].
  wp_use Hd; simpl; [done| |].
  - eapply (appended_avail init_parcel); [apply fresh_wf|exact Ha|constructor|].
    destruct s1. exact Hp2.
  - intros x s3 [-> _]. by apply HQ.
Qed.

Lemma binder_answer F c b :
  call_reply c = Some init_parcel -> ~ can_fail (call_world c) ->
  (forall a, b = Some a -> exists o, w_binders (call_world c) !! a = Some o /\ sendable (call_world c) a o) ->
  answered F (writeStrongBinder b) readNullableStrongBinder (Good b) c.
Proof.
  intros Hr Hmem Hb K HK. eapply wpg_on_reply; [done|].
  eapply wpg_mono.
  { by apply flattenBinder_kernel_ok; try apply fresh_wf. }
  intros st s1 (-> & o & rep & Hw). split; [done|]. eapply wpg_bind, wpg_if_reply; [done|].
  pose proof (bw_wf _ _ _ _ _ Hw) as Hwf1. pose proof (wf_size _ Hwf1).
  eapply setDataPosition_objs; simpl; [by destruct s1|lia|]. intros s2 Hw2 Hwf2 Hp2 Ho2. wp_step.
  apply HK; [done|]. intros G Q HQ. eapply wpg_on_reply; [done|].
  destruct s2 as [p2 w2]. simpl in *.
  wp_use (read_written_binder G (mkPS init_parcel (call_world c)) s1 (mkPS p2 w2) b o rep); try done.
  intros r s3 [-> _]. by apply HQ.
Qed.

Context (onTransact : Z -> Z -> M Call status_t).

Lemma remote_getDebugPid_ok F c :
  ~ can_fail (call_world c) -> 0 <= getDebugPid <= INT32_MAX ->
  wpg F (remote_getDebugPid (transact onTransact)) c (fun r c' => r = Good getDebugPid /\ object c' = object c).
Proof.
  intros Hmem Hpid. unfold remote_getDebugPid. ask.
  eapply use_answer; [intros ? HK; exact HK| |].
  - apply (plain_answer F _ readInt32 _ (le_bytes 4 getDebugPid) (Good getDebugPid)); try done.
    + intros. by apply writeInt32_ok.
    + apply readInt32_decodes. unfold is_s32. lia.
  - intros c1 Ho Hr. simpl. wp_step. apply Hr. intros c2 Ho2.
    zdec (getDebugPid <? 0). zdec (2147483647 <? getDebugPid). simpl. wp_step. split; [done|by rewrite Ho2, Ho].
Qed.

Lemma remote_getExtension_ok F c :
  answerable c ->
  wpg F (remote_getExtension (transact onTransact)) c (fun r c' =>
    r = Good (mExtension (attributes (object c))) /\ attributes (object c') = attributes (object c)).
Proof.
  intros []. unfold remote_getExtension. ask.
  apply wpg_on_object, getExtension_ok; [done|]. intros b' Hb' Ea.
  eapply use_answer; [intros ? HK; exact HK|by apply binder_answer|].
  intros c1 Ho Hr. simpl. apply Hr. intros c2 Ho2. split; [done|]. by rewrite Ho2, Ho.
Qed.

Lemma remote_pingBinder_ok F c :
  wpg F (remote_pingBinder (transact onTransact)) c (fun r c' => r = NO_ERROR /\ object c' = object c).
Proof.
  unfold remote_pingBinder. ask. eapply wpg_if_reply; [done|].
  unfold setDataPosition. zdec (INT32_MAX <? 0). by wp_steps.
Qed.
End Calls.

Lemma remote_getInterfaceDescriptor_ok `{RpcBinders} `{Hosting} F c :
  ~ can_fail (call_world c) -> Forall is_u16 getInterfaceDescriptor ->
  fits init_parcel (zlen (string16_bytes getInterfaceDescriptor)) ->
  wpg F (remote_getInterfaceDescriptor (transact BBinder_onTransact) []) c (fun r c' =>
    r = getInterfaceDescriptor /\ object c' = object c).
Proof.
  intros Hmem H16 Hf. unfold remote_getInterfaceDescriptor. rewrite bool_decide_true by done. simpl negb.
  unfold BBinder_onTransact. ask.
  eapply use_answer; [intros ? HK; exact HK| |].
  - apply (plain_answer F _ readString16_ _ (string16_bytes getInterfaceDescriptor)); try done.
    + intros. by apply writeString16_ok.
    + apply (decodes_map _ snd _ (OK, getInterfaceDescriptor)), readString16_decodes; [done|].
      pose proof (fits_bound (mkPS init_parcel (call_world c)) _ fresh_wf Hf) as Hb.
      unfold string16_bytes in Hb. rewrite !zlen_app, zlen_padded, zlen_app, zlen_array_bytes, !zlen_le_bytes in Hb.
      match type of Hb with context [padz ?x] => pose proof (padz_ge x) end. zl. lia.
  - intros c1 Ho Hr. pick. apply Hr. intros c2 Ho2. split; [done|by rewrite Ho2, Ho].
Qed.

(** C17: a proxy gets the right answers.  Whatever [onTransact] the class of a local
    binder has, a caller that asks it through [transact] for its extension, its
    process id or a ping gets the binder [setExtension] stored (null without one), the
    process id, and [NO_ERROR]; and from the base class's [onTransact] it gets the
    class's interface descriptor.  The questions leave the object's attributes as they
    are. *)
Theorem questions_are_answered `{RpcBinders} `{Hosting} (onTransact : Z -> Z -> M Call status_t) c :
  answerable c -> 0 <= getDebugPid <= INT32_MAX -> Forall is_u16 getInterfaceDescriptor ->
  fits init_parcel (zlen (string16_bytes getInterfaceDescriptor)) ->
  wp (remote_getExtension (transact onTransact)) c (fun r c' =>
    r = Good (mExtension (attributes (object c))) /\ attributes (object c') = attributes (object c)) /\
  wp (remote_getDebugPid (transact onTransact)) c (fun r c' =>
    r = Good getDebugPid /\ object c' = object c) /\
  wp (remote_pingBinder (transact onTransact)) c (fun r c' => r = NO_ERROR /\ object c' = object c) /\
  wp (remote_getInterfaceDescriptor (transact BBinder_onTransact) []) c (fun r c' =>
    r = getInterfaceDescriptor /\ object c' = object c).
Proof.
  intros Ha Hp H16 Hf. pose proof (an_memory _ Ha).
  split; [by apply remote_getExtension_ok|]. split; [by apply remote_getDebugPid_ok|].
  split; [by apply remote_pingBinder_ok|by apply remote_getInterfaceDescriptor_ok].
Qed.
