(* ===== verification/LocalSafeProps.v ===== *)
(** Whatever a caller sends, the base class of local binders copes with it. *)

From S2P Require RpcTransact.
From S2P Require Import ParcelIpcProps ParcelProps.
From S2P Require Import Prelude Errors ParcelState ParcelWrite ParcelRead Stability ParcelObject.
From S2P Require Import ParcelIpc ParcelInv ParcelWriteSpec ParcelReadSpec ParcelDataSpec ParcelObjectSpec ParcelObjectProps.
From S2P Require Import LocalBinder LocalBinderProps LocalCallProps.
From S2P Require RpcSetup.

(** * A parcel that was received *)

(** Its binder records are those of living objects, as the driver sees to. *)
Definition objects_live (s : PS) : Prop :=
  (forall h a, w_proxy (world s) h = Some a -> is_Some (w_binders (world s) !! a)) /\
  (forall off, off ∈ objs (this s) -> f_type (flat_at (this s) off) = BINDER_TYPE_BINDER ->
     f_cookie (flat_at (this s) off) <> 0 ->
     is_Some (w_binders (world s) !! f_cookie (flat_at (this s) off))).

Record incoming (s : PS) : Prop := {
  in_wf : wf (this s);
  in_session : mSession (this s) = None;
  in_live : objects_live s;
}.

(** What reading may change: the position, the stability of binders, descriptors. *)
Record reads (s s' : PS) : Prop := {
  rd_wf : wf (this s');
  rd_parcel : peq (set_mDataPos (mDataPos (this s')) (this s)) (this s');
  rd_heap : w_heap (world s') = w_heap (world s);
  rd_proxy : w_proxy (world s') = w_proxy (world s);
  rd_binders a : is_Some (w_binders (world s) !! a) <-> is_Some (w_binders (world s') !! a);
}.

Lemma stays_reads s s' : stays s s' -> reads s s'.
Proof. intros (Hw & Hwf & Hp). split; try done; by rewrite Hw. Qed.

Lemma reads_refl s : wf (this s) -> reads s s.
Proof. intros. by apply stays_reads, stays_refl. Qed.

Lemma reads_trans s1 s2 s3 : reads s1 s2 -> reads s2 s3 -> reads s1 s3.
Proof.
  intros [] []. split; [done| |congruence|congruence|].
  - etransitivity; [|exact rd_parcel1]. by apply (set_pos_peq _ _ (mDataPos (this s3))) in rd_parcel0.
  - intros a. by rewrite rd_binders0.
Qed.

Lemma reads_incoming s s' : incoming s -> reads s s' -> incoming s'.
Proof.
  intros [Hwf Hs [Hp Ho]] []. pose proof (peq_meta _ _ rd_parcel0) as Hm. unfold meta in Hm. simpl in Hm.
  split; [done|by injection Hm as _ _ _ _ _ _ _ ->|].
  assert (Hf : forall off, flat_at (this s') off = flat_at (this s) off).
  { intros off. unfold flat_at. by rewrite (peq_contents _ _ rd_parcel0). }
  split; [intros h a; rewrite rd_proxy0, <- rd_binders0; apply Hp|].
  intros off Hoff. rewrite Hf, <- rd_binders0. apply Ho.
  rewrite (peq_objs _ _ rd_parcel0) in Hoff. exact Hoff.
Qed.

(** Operations that only read an incoming parcel. *)
Definition reader {A} (m : M PS A) : Prop :=
  forall F s, incoming s -> wpg F m s (fun _ s' => reads s s').

Lemma reader_ret {A} (a : A) : reader (ret a).
Proof. intros F s Hi. wp_step. apply reads_refl, Hi. Qed.

Lemma reader_bind {A B} (m : M PS A) (k : A -> M PS B) :
  reader m -> (forall a, reader (k a)) -> reader (let* a := m in k a).
Proof.
  intros Hm Hk F s Hi. wp_step. wp_use Hm; [done|]. intros a s1 H1.
  wp_use Hk; [by eapply reads_incoming|]. intros b s2 H2. by eapply reads_trans.
Qed.

Lemma safe_reader {A} (m : M PS A) : safe_read m -> reader m.
Proof. intros Hm F s Hi. wp_use Hm; [apply Hi|]. intros a s' H. by apply stays_reads. Qed.

Lemma readObject_safe nullMetaData : safe_read (readObject nullMetaData).
Proof. intros F s Hwf. wp_use readObject_ok; [done|]. intros r s' (_ & H & _). eauto with binder. Qed.

Lemma readFileDescriptor_reader : reader readFileDescriptor.
Proof.
  apply reader_bind; [apply safe_reader, readObject_safe|]. intros [o|]; [|apply reader_ret].
  destruct (_ =? _); apply reader_ret.
Qed.

Lemma dup_fd_reader fd : reader (dup_fd fd).
Proof.
  intros F s [Hwf _ _]. unfold dup_fd. wp_steps. destruct (_ !! _); [|wp_step; by apply reads_refl].
  cbv zeta. destruct (_ <=? _); wp_steps; [by apply reads_refl|].
  by split.
Qed.

Lemma readUniqueFileDescriptor_reader : reader readUniqueFileDescriptor.
Proof.
  apply reader_bind; [apply readFileDescriptor_reader|]. intros got. unfold dup_got.
  destruct (_ =? _); [apply reader_ret|]. apply reader_bind; [apply dup_fd_reader|].
  intros fd. destruct (_ <? _); apply reader_ret.
Qed.

(** * Binders *)

(** A binder that a record denotes is alive. *)
Definition alive (b : option Z) (s : PS) : Prop :=
  forall a, b = Some a -> is_Some (w_binders (world s) !! a).

Lemma setRepr_reader F s b setting flags :
  incoming s -> alive b s -> wpg F (setRepr b setting flags) s (fun _ s' => reads s s').
Proof.
  intros Hi Hb. pose proof (in_wf _ Hi). destruct b as [a|].
  - destruct (Hb a eq_refl) as [o Ho]. wp_use setRepr_ok; [done|].
    intros st s'. destruct (set_level _ _ _) as [l|]; [|intros [_ ->]; by apply reads_refl].
    intros (_ & E & Hw). split; rewrite ?E, ?Hw; simpl; try done. intros a'.
    destruct (decide (a' = a)) as [->|]; [rewrite lookup_insert_eq, Ho|by rewrite lookup_insert_ne].
    split; by eexists.
  - unfold setRepr, getRepr. wp_steps. destruct (_ =? _); wp_step; by apply reads_refl.
Qed.

Lemma finishUnflattenBinder_reader F s b :
  incoming s -> alive b s -> wpg F (finishUnflattenBinder b) s (fun _ s' => reads s s').
Proof.
  intros Hi Hb. unfold finishUnflattenBinder, bind_res. wp_step.
  wp_use readInt32_safe; [apply Hi|]. intros [stability|st] s1 Hs; [|wp_step; by apply stays_reads].
  wp_step. pose proof (proj1 Hs) as Ew. apply stays_reads in Hs.
  wp_use setRepr_reader; [by eapply reads_incoming|intros a Ha; rewrite Ew; by apply Hb|].
  intros st s2 H2. destruct (_ =? _); wp_step; by eapply reads_trans.
Qed.

(** The record [readObject] returns denotes a living binder. *)
Lemma read_object_live s o :
  incoming s -> read_object_result (this s) false = Some o ->
  f_type o = BINDER_TYPE_BINDER -> f_cookie o <> 0 -> is_Some (w_binders (world s) !! f_cookie o).
Proof.
  intros [Hwf _ [_ Hl]]. unfold read_object_result.
  destruct (_ <? _); [done|]. destruct (null_object false (record_at (this s))) eqn:En.
  - intros [= <-] _ Hc. unfold null_object in En. simpl in En. apply andb_prop in En as [Ec _]. zb. done.
  - destruct (found_at _ _ _) as [r|] eqn:Er; [|done]. intros [= <-] Ht Hc.
    apply found_at_sound in Er. apply (Hl (mDataPos (this s))); [|done|done].
    by eapply list_elem_of_lookup_2.
Qed.

Lemma unflattenBinder_reader `{RpcBinders} : reader unflattenBinder.
Proof.
  intros F s Hi. pose proof Hi as [Hwf Hs [Hp _]]. unfold unflattenBinder. wp_steps. rewrite Hs. wp_steps.
  wp_use readObject_ok; [done|]. intros r s1 (-> & Hst & _).
  apply aligned_state_stays in Hst; [|done]. pose proof (proj1 Hst) as Ew. apply stays_reads in Hst.
  assert (Hi1 : incoming s1) by (by eapply reads_incoming).
  destruct (read_object_result (this s) false) as [o|] eqn:Er; [|by wp_step].
  assert (Hfin : forall b, alive b s1 -> wpg F (finishUnflattenBinder b) s1 (fun _ s' => reads s s')).
  { intros b Hb. wp_use finishUnflattenBinder_reader; [done|done|]. intros ? s2 H2. by eapply reads_trans. }
  zcase (f_type o =? BINDER_TYPE_BINDER).
  - apply Hfin. intros a. rewrite Ew. zcase (f_cookie o =? 0); [done|]. intros [= <-].
    by eapply read_object_live.
  - destruct (_ =? _); [|by wp_step]. wp_steps. apply Hfin. intros a Ha. rewrite Ew in *. by eapply Hp.
Qed.

Lemma readStrongBinder_reader `{RpcBinders} : reader readStrongBinder_.
Proof. apply reader_bind; [apply unflattenBinder_reader|]. intros. apply reader_ret. Qed.

(** * Arguments *)

Lemma dataAvail_safe : safe_read dataAvail.
Proof. intros F s Hwf. apply dataAvail_ok; [done|]. by apply stays_refl. Qed.

Lemma readString16_safe_ : safe_read readString16_.
Proof. apply safe_bind; [apply readString16_safe|]. intros. apply safe_ret. Qed.

Lemma read_args_safe argc : safe_read (read_args argc).
Proof.
  induction argc as [|argc IH]; simpl; [apply safe_ret|].
  apply safe_bind; [apply dataAvail_safe|]. intros n. destruct (n <=? 0); [apply safe_ret|].
  apply safe_bind; [apply readString16_safe_|]. intros a.
  apply safe_bind; [done|]. intros args. apply safe_ret.
Qed.

(** On whole words, a string takes at least a word. *)
Definition on_words (p : Parcel) : Prop := mDataSize p mod 4 = 0 /\ mDataPos p mod 4 = 0.

Definition words_on (s s' : PS) : Prop := on_words (this s') /\ mDataPos (this s) <= mDataPos (this s').

Lemma aligned_state_words s n s' :
  on_words (this s) -> 0 <= n -> n mod 4 = 0 -> aligned_state s n s' -> words_on s s'.
Proof.
  intros [H1 H2] H0 Hn. unfold aligned_state.
  destruct (_ <? _); [intros ->; split; [done|lia]|]. intros (_ & _ & Hp).
  pose proof (peq_pos _ _ Hp) as Ep. pose proof (peq_size _ _ Hp) as Es. simpl in *.
  split; [split; rewrite ?Es, ?Ep; [done|]|lia]. rewrite Z.add_mod, H2, Hn by done. done.
Qed.

Lemma readInplace_words F s len :
  wf (this s) -> on_words (this s) -> 0 <= len -> wpg F (readInplace len) s (fun _ s' => words_on s s').
Proof.
  intros Hwf Hw Hl. destruct (Z.le_gt_cases len INT32_MAX).
  - wp_use readInplace_ok; [done|lia|]. intros r s' [Hst _].
    pose proof (padz_bounds len). apply (aligned_state_words _ (padz len)); [done|lia|apply padz_div4|done].
  - unfold readInplace. zdec (INT32_MAX <? len). wp_step. split; [done|lia].
Qed.

Lemma readInt32_words F s :
  wf (this s) -> on_words (this s) -> mDataPos (this s) < mDataSize (this s) ->
  wpg F readInt32_ s (fun _ s' => stays s s' /\ on_words (this s') /\ mDataPos (this s) + 4 <= mDataPos (this s')).
Proof.
  intros Hwf Hw Hlt. unfold readInt32_, readInt32. wp_steps. wp_use readAligned_ok; [done|done|].
  intros r s1 [_ Hst]. change (Z.of_nat 4) with 4 in Hst. wp_steps.
  pose proof (aligned_state_words _ 4 _ Hw ltac:(lia) ltac:(done) Hst) as [Hw1 _].
  destruct Hw as [H1 H2]. apply Z.mod_divide in H1 as [a Ha]; [|done]. apply Z.mod_divide in H2 as [b Hb]; [|done].
  unfold aligned_state in Hst. revert Hst. zdec (mDataSize (this s) <? mDataPos (this s) + 4). intros Hst.
  split; [eauto with binder|]. split; [done|]. destruct Hst as (_ & _ & Hp).
  pose proof (peq_pos _ _ Hp) as Ep. simpl in Ep. lia.
Qed.

Lemma readString16_words F s :
  wf (this s) -> on_words (this s) -> mDataPos (this s) < mDataSize (this s) ->
  wpg F readString16_ s (fun _ s' => stays s s' /\ on_words (this s') /\ mDataPos (this s) + 4 <= mDataPos (this s')).
Proof.
  intros Hwf Hw Hlt. unfold readString16_, readString16, readString16Inplace. do 3 wp_step.
  wp_use readInt32_words; [done..|]. intros size s1 (H1 & Hw1 & Hp1).
  destruct ((0 <=? size) && (size <? INT32_MAX)) eqn:E; zb; [|by wp_steps].
  wp_step. rewrite u64_small by lia.
  eapply wpg_mono; [apply wpg_and; [apply readInplace_safe|apply readInplace_words]; try lia; try done; apply H1|].
  cbv beta. intros o s2 [[H2 Ho] [Hw2 Hp2]].
  assert (stays s s2) by (by eapply stays_trans).
  destruct o as [off|]; [|wp_steps; split_and!; try done; lia].
  wp_step. apply load_ok; [lia..|]. destruct (_ =? 0); [|wp_steps; split_and!; try done; lia].
  unfold load_chars. do 3 wp_step. apply load_ok; [lia..|]. wp_steps. split_and!; try done; lia.
Qed.

(** So many arguments are read from a parcel of whole words. *)
Lemma read_args_words F s argc :
  wf (this s) -> on_words (this s) ->
  wpg F (read_args argc) s (fun l s' => stays s s' /\
    4 * zlen l <= mDataSize (this s) - mDataPos (this s)).
Proof.
  revert s. induction argc as [|argc IH]; intros s Hwf Hw; simpl; pose proof (wf_pos _ Hwf).
  { wp_step. split; [by apply stays_refl|]. change (zlen []) with 0. lia. }
  wp_step. apply dataAvail_ok; [done|]. zcase (mDataSize (this s) - mDataPos (this s) <=? 0).
  { wp_step. split; [by apply stays_refl|]. change (zlen []) with 0. lia. }
  wp_step. wp_use readString16_words; [done|done|lia|]. intros a s1 (H1 & Hw1 & Hp1). wp_step.
  wp_use IH; [apply H1|done|]. intros l s2 [H2 Hl]. wp_step. split; [by eapply stays_trans|].
  destruct H1 as (_ & _ & Hq). pose proof (peq_size _ _ Hq) as Es. simpl in Es. zl. lia.
Qed.

(** * A call *)

Definition incoming_call (c : Call) : PS := mkPS (call_data c) (call_world c).

Record read_only (c c' : Call) : Prop := {
  ro_reads : reads (incoming_call c) (incoming_call c');
  ro_object : object c' = object c;
  ro_reply : call_reply c' = call_reply c;
  ro_dumped : dumped c' = dumped c;
}.

Lemma read_only_refl c : wf (call_data c) -> read_only c c.
Proof. intros. by split. Qed.

Lemma read_only_trans c1 c2 c3 : read_only c1 c2 -> read_only c2 c3 -> read_only c1 c3.
Proof. intros [] []. split; [by eapply reads_trans|congruence..]. Qed.

Lemma on_reader {A} F (m : M PS A) c0 c Q :
  reader m -> incoming (incoming_call c0) -> read_only c0 c ->
  (forall a c', read_only c0 c' -> Q a c') -> wpg F (on_data m) c Q.
Proof.
  intros Hm Hi Hr HQ. apply wpg_on_data. wp_use Hm; [eapply reads_incoming, ro_reads; eassumption|].
  intros a s Hs. apply HQ. eapply read_only_trans; [exact Hr|]. split; try done. by destruct s.
Qed.

(** A reply parcel into which nothing has been written. *)
Record blank (r : Parcel) : Prop := {
  bl_wf : wf r;
  bl_owner : mOwner r = None;
  bl_session : mSession r = None;
  bl_size : mDataSize r = 0;
  bl_objs : objs r = [];
  bl_objsize : mObjectsSize r <= INT32_MAX;
}.

Lemma blank_fresh : blank init_parcel.
Proof. by split. Qed.

Lemma blank_sensitive r : blank r -> blank (set_mDeallocZero true r).
Proof. intros [[] ? ? ? ? ?]. by split; [split|..]. Qed.

Lemma blank_pos r : blank r -> mDataPos r = 0.
Proof. intros [Hwf ? ? Hs ? ?]. pose proof (wf_pos _ Hwf). lia. Qed.

Lemma blank_fits r n : blank r -> fits init_parcel n -> fits r n.
Proof. intros []. unfold fits. by rewrite bl_size0. Qed.

Section Handling.
Context `{RpcBinders} `{Hosting}.

(** What can be sent: a binder the world knows; what the process has: memory. *)
Record callable (c : Call) : Prop := {
  ca_ask : answerable c;
  ca_in : incoming (incoming_call c);
  ca_reply r : call_reply c = Some r -> blank r;
  ca_descriptor : fits init_parcel (zlen (string16_bytes getInterfaceDescriptor));
}.

(** What a call leaves. *)
Record handled (c : Call) (st : status_t) (c' : Call) : Prop := {
  hd_extras : extras_alive (object c');
  hd_data : peq (set_mDataPos (mDataPos (call_data c')) (call_data c)) (call_data c');
  hd_reply r : call_reply c' = Some r -> wf r;
  hd_some : call_reply c' = None <-> call_reply c = None;
  hd_dumped : dumped c' = dumped c \/
    exists fd args, dumped c' = dumped c ++ [(fd, args)] /\ st = dump_status fd args /\
      (mDataSize (call_data c) mod 4 = 0 -> 4 * zlen args <= mDataSize (call_data c));
}.

Lemma read_only_handled c c' st :
  callable c -> read_only c c' -> handled c st c'.
Proof.
  intros [[] _ Hr _] []. split; rewrite ?ro_object0, ?ro_reply0; try done.
  - apply (rd_parcel _ _ ro_reads0).
  - intros r E. apply (bl_wf _ (Hr r E)).
  - by left.
Qed.

(** Writing into the reply, once the rest is done. *)
Lemma reply_handled F (m : M PS status_t) (k : status_t -> status_t) c0 c r :
  callable c0 -> read_only c0 (set_object (object c0) c) -> extras_alive (object c) ->
  call_reply c = Some r ->
  (forall G, wpg G m (mkPS r (call_world c)) (fun _ s => wf (this s))) ->
  wpg F (on_reply m) c (fun st c' => handled c0 (k st) c').
Proof.
  intros Hc [Hrd _ Hre Hd] Ha Hr Hm. eapply wpg_on_reply; [done|]. wp_use Hm. intros st s Hs. simpl in *.
  split; simpl; try done.
  - apply (rd_parcel _ _ Hrd).
  - by intros ? [= <-].
  - rewrite <- Hre, Hr. done.
  - by left.
Qed.

Lemma written_wf F (m : M PS status_t) s bs :
  wpg F m s (write_post s bs) -> wpg F m s (fun _ s' => wf (this s')).
Proof. intros Hm. wp_use Hm. intros st s' [_ [[_ []]|[_ []]]]; done. Qed.

(** ** RPC for debugging *)

Lemma link_server_ok self fd n : 1 < n -> exists sv, link_server self fd n = (OK, Some sv).
Proof.
  intros Hn. unfold link_server, RpcSetup.setMaxThreads, RpcSetup.setRootObjectWeak,
    RpcSetup.setupExternalServer, RpcSetup.start, bind, modify, get, ret, fatal_if.
  simpl. zdec (n <=? 0). simpl. by eexists.
Qed.

Lemma setRpcClientDebug_fd_ok F enabled self death_link poolMax fd k b :
  extras_alive b ->
  wpg F (setRpcClientDebug_fd enabled self death_link poolMax fd k) b (fun _ b' => extras_alive b').
Proof.
  intros Ha. unfold setRpcClientDebug_fd.
  destruct (negb enabled); [by wp_step|]. destruct (fd <? 0); [by wp_step|].
  destruct k as [k|]; [|by wp_step]. zcase (poolMax <=? 1); [by wp_step|].
  wp_step. apply getOrCreateExtras_ok; [done|]. intros e b1 He Ha1 _ _. wp_steps.
  destruct (negb (death_link k =? OK)); [by wp_step|].
  destruct (link_server_ok self fd poolMax) as [sv ->]; [done|]. simpl. wp_steps.
  eapply with_alive; [exact Ha1|done|]. intros ? x [= <- <-]. wp_step.
  intros e' He'. unfold attributes. simpl in *. rewrite He in *. injection He' as <-. by rewrite lookup_insert_eq.
Qed.

Lemma setRpcClientDebug_handled F c0 c :
  callable c0 -> read_only c0 c -> wpg F setRpcClientDebug c (handled c0).
Proof.
  intros Hc Hr. pose proof (ca_in _ Hc) as Hi. unfold setRpcClientDebug.
  destruct (negb _); [wp_step; by apply read_only_handled|].
  destruct (negb _); [wp_step; by apply read_only_handled|]. wp_step.
  eapply on_reader; [|done|done|].
  { apply reader_bind; [apply safe_reader, readInt32_safe|]. intros. apply reader_ret. }
  intros [st v] c1 H1. destruct (negb _); [wp_step; by apply read_only_handled|]. wp_step.
  eapply wpg_mono with (P := fun _ c2 => read_only c0 c2).
  { destruct (snd _); [|by wp_step]. by eapply on_reader; [apply readUniqueFileDescriptor_reader|..]. }
  intros [fd|e] c2 H2; [|wp_step; by apply read_only_handled]. wp_step.
  eapply on_reader; [apply unflattenBinder_reader|done|done|].
  intros [b|e] c3 H3; [|wp_step; by apply read_only_handled].
  apply wpg_on_object. wp_use setRpcClientDebug_fd_ok.
  { rewrite (ro_object _ _ H3). apply (an_extras _ (ca_ask _ Hc)). }
  intros st' b' Hb'. destruct (read_only_handled _ _ st' Hc H3). by split.
Qed.
(** ** The base class *)

Definition needs_reply (c : Call) (code : Z) : Prop :=
  call_reply c = None /\
  (code = EXTENSION_TRANSACTION \/ code = DEBUG_PID_TRANSACTION \/ code = INTERFACE_TRANSACTION).

(** With a reply parcel the check passes. *)
Lemma CHECK_ok F c Q :
  (call_reply c = None -> F) -> (forall r, call_reply c = Some r -> Q tt c) -> wpg F CHECK_reply c Q.
Proof.
  intros HF HQ. unfold CHECK_reply. wp_step. wp_step. destruct (call_reply c) as [r|] eqn:E; simpl.
  - wp_step. by eapply HQ.
  - by apply HF.
Qed.

Lemma read_only_reply c0 c r :
  callable c0 -> read_only c0 c -> call_reply c = Some r -> blank r.
Proof. intros Hc Hr E. apply (ca_reply _ Hc). by rewrite <- (ro_reply _ _ Hr). Qed.

Lemma interface_handled (F : Prop) c0 c :
  callable c0 -> read_only c0 c -> (call_reply c0 = None -> F) ->
  wpg F (CHECK_reply ;; on_reply (writeString16 (Some getInterfaceDescriptor) (zlen getInterfaceDescriptor)) ;;
         ret NO_ERROR) c (handled c0).
Proof.
  intros Hc Hr HF. wp_step. apply CHECK_ok; [by rewrite (ro_reply _ _ Hr)|]. intros r Er. wp_step.
  pose proof (read_only_reply _ _ _ Hc Hr Er) as Hb.
  wp_use (reply_handled F _ (fun _ => NO_ERROR) c0 c r); [done| | |done| |].
  - destruct Hr. by split.
  - rewrite (ro_object _ _ Hr). apply (an_extras _ (ca_ask _ Hc)).
  - intros G. eapply written_wf. apply writeString16_ok; [apply (bl_wf _ Hb)|].
    apply (blank_fits r); [done|apply (ca_descriptor _ Hc)].
  - intros st c' Hh. by wp_step.
Qed.

(** A reader of which more is known. *)
Lemma on_stays {A} F (m : M PS A) c0 c (P : A -> PS -> Prop) :
  read_only c0 c ->
  wpg F m (incoming_call c) (fun a s => stays (incoming_call c) s /\ P a s) ->
  wpg F (on_data m) c (fun a c' => read_only c0 c' /\ P a (incoming_call c')).
Proof.
  intros Hr Hm. apply wpg_on_data. wp_use Hm. intros a s [Hs Hp]. destruct s.
  split; [|done]. eapply read_only_trans; [exact Hr|]. split; try done. by apply stays_reads.
Qed.

(** The data is still on words, if it is a number of words. *)
Definition words_kept (c0 : Call) (s : PS) : Prop :=
  mDataSize (call_data c0) mod 4 = 0 -> on_words (this s).

Lemma words_aligned c0 s n s' :
  words_kept c0 s -> 0 <= n -> n mod 4 = 0 -> aligned_state s n s' -> words_kept c0 s'.
Proof. intros Hk Hr Hn Hs Hm. eapply aligned_state_words; eauto. Qed.

Lemma dump_handled (F : Prop) c0 c :
  callable c0 -> read_only c0 c -> mDataPos (call_data c) = 0 ->
  wpg F (let* fd := on_data readFileDescriptor in
         let* argc := on_data readInt32_ in
         let* args := on_data (read_args (Z.to_nat argc)) in
         dump fd args) c (handled c0).
Proof.
  intros Hc Hr Hpos. assert (Hsz : forall c', read_only c0 c' -> wf (call_data c') /\ mDataSize (call_data c') = mDataSize (call_data c0)).
  { intros c' H'. split; [apply (rd_wf _ _ (ro_reads _ _ H'))|apply (peq_size _ _ (rd_parcel _ _ (ro_reads _ _ H')))]. }
  assert (Hk : words_kept c0 (incoming_call c)).
  { intros Hm. destruct (Hsz c Hr) as [_ Es]. split; simpl; [by rewrite Es|by rewrite Hpos]. }
  wp_step. wp_use (on_stays F readFileDescriptor c0 c (fun _ => words_kept c0)); [done| |].
  { unfold readFileDescriptor. wp_step. wp_use readObject_ok; [by apply Hsz|]. intros o s (_ & Hst & _).
    assert (stays (incoming_call c) s /\ words_kept c0 s)
      by (split; [eapply aligned_state_stays; [by apply Hsz|done]|by apply (words_aligned c0 _ 24 _ Hk)]).
    destruct o as [o|]; [destruct (_ =? _)|]; by wp_step. }
  intros fd c1 [H1 Hk1]. wp_step. wp_use (on_stays F readInt32_ c0 c1 (fun _ => words_kept c0)); [done| |].
  { unfold readInt32_, readInt32. do 2 wp_step. wp_use readAligned_ok; [by apply Hsz|done|].
    intros r s (_ & Hst). do 2 wp_step.
    split; [eapply aligned_state_stays; [by apply Hsz|done]|by apply (words_aligned c0 _ 4 _ Hk1)]. }
  intros argc c2 [H2 Hk2]. destruct (Hsz c2 H2) as [Hwf2 Es]. wp_step.
  wp_use (on_stays F (read_args (Z.to_nat argc)) c0 c2 (fun args _ =>
    mDataSize (call_data c0) mod 4 = 0 -> 4 * zlen args <= mDataSize (call_data c0))); [done| |].
  { destruct (decide (mDataSize (call_data c0) mod 4 = 0)) as [Hm|Hm].
    - wp_use read_args_words; [done|by apply Hk2|]. intros args s [Hs Hl]. split; [done|].
      intros _. pose proof (wf_pos _ Hwf2). simpl in *. lia.
    - wp_use read_args_safe; [done|]. by intros. }
  intros args c3 [H3 Hl]. unfold dump. wp_steps.
  destruct (read_only_handled _ _ (dump_status fd args) Hc H3). split; try done.
  right. exists fd, args. split_and!; try done. simpl. by rewrite (ro_dumped _ _ H3).
Qed.

Lemma shell_handled (F : Prop) c0 c :
  callable c0 -> read_only c0 c ->
  wpg F (on_data readFileDescriptor ;; on_data readFileDescriptor ;; on_data readFileDescriptor ;;
         let* argc := on_data readInt32_ in
         on_data (read_args (Z.to_nat argc)) ;;
         on_data readStrongBinder_ ;;
         let* resultReceiver := on_data readStrongBinder_ in
         (match resultReceiver with
          | Some r => modify (add_result (r, INVALID_OPERATION))
          | None => ret tt
          end) ;;
         ret NO_ERROR) c (handled c0).
Proof.
  intros Hc Hr. pose proof (ca_in _ Hc) as Hi.
  wp_step. eapply on_reader; [apply readFileDescriptor_reader|done|exact Hr|]. intros fd1 d1 D1.
  wp_step. eapply on_reader; [apply readFileDescriptor_reader|done|exact D1|]. intros fd2 d2 D2.
  wp_step. eapply on_reader; [apply readFileDescriptor_reader|done|exact D2|]. intros fd3 d3 D3.
  wp_step. eapply on_reader; [apply safe_reader, readInt32_safe_|done|done|]. intros argc c1 H1.
  wp_step. eapply on_reader; [apply safe_reader, read_args_safe|done|done|]. intros args c2 H2.
  wp_step. eapply on_reader; [apply readStrongBinder_reader|done|done|]. intros cb c3 H3.
  wp_step. eapply on_reader; [apply readStrongBinder_reader|done|done|]. intros rr c4 H4.
  wp_step. destruct (read_only_handled _ _ NO_ERROR Hc H4). destruct rr as [r|]; wp_steps; by split.
Qed.

Lemma BBinder_onTransact_handled c0 c code flags :
  callable c0 -> read_only c0 c -> mDataPos (call_data c) = 0 ->
  wpg (needs_reply c0 code) (BBinder_onTransact code flags) c (handled c0).
Proof.
  intros Hc Hr Hpos. unfold BBinder_onTransact.
  zcase (code =? INTERFACE_TRANSACTION); [apply interface_handled; [done|done|]; by split; auto|].
  zcase (code =? DUMP_TRANSACTION); [by apply dump_handled|].
  zcase (code =? SHELL_COMMAND_TRANSACTION); [by apply shell_handled|].
  zcase (code =? SYSPROPS_TRANSACTION); wp_steps; [|by apply read_only_handled].
  destruct (read_only_handled _ _ NO_ERROR Hc Hr). by split.
Qed.

(** ** The whole call *)

Lemma wpg_weaken {S A} (F G : Prop) (m : M S A) s Q : (F -> G) -> wpg F m s Q -> wpg G m s Q.
Proof. unfold wpg. destruct (m s); auto. Qed.

Lemma rewound F c :
  callable c ->
  wpg F (on_data (setDataPosition 0)) c (fun _ c' =>
    read_only c c' /\ mDataPos (call_data c') = 0 /\ call_world c' = call_world c).
Proof.
  intros Hc. assert (wf (call_data c)) as Hwf by apply (in_wf _ (ca_in _ Hc)). pose proof (wf_size _ Hwf).
  apply wpg_on_data. apply setDataPosition_ok; simpl; [done|lia|]. intros s Hw Hwf' Hp.
  pose proof (peq_pos _ _ Hp) as Ep. simpl in Ep. split; [|done]. split; try done.
  apply stays_reads. destruct s. simpl in *. split_and!; simpl; try done. by rewrite Ep.
Qed.

Lemma sensitive_reply F c (b : bool) :
  callable c ->
  wpg F (if b then if_reply markSensitive else ret tt) c (fun _ c' =>
    callable c' /\ call_data c' = call_data c /\ object c' = object c /\ dumped c' = dumped c /\
    (call_reply c' = None <-> call_reply c = None)).
Proof.
  intros Hc. destruct b; [|by wp_step]. unfold if_reply. wp_steps.
  destruct (call_reply c) as [r|] eqn:Er; [|by wp_step].
  eapply wpg_on_reply; [done|]. unfold markSensitive. wp_steps. split_and!; try done.
  destruct Hc as [[] Hi Hr Hd]. split; try done. intros ? [= <-]. by apply blank_sensitive, Hr.
Qed.

(** Rewinding the reply. *)
Lemma rewound_reply F c0 c st :
  handled c0 st c ->
  wpg F (if_reply (setDataPosition 0) ;; ret st) c (fun st' c' =>
    st' = st /\ handled c0 st c' /\ forall r, call_reply c' = Some r -> mDataPos r = 0).
Proof.
  intros []. wp_step. unfold if_reply. wp_step. wp_step. destruct (call_reply c) as [r|] eqn:Er.
  - pose proof (hd_reply0 r eq_refl) as Hwf. pose proof (wf_size _ Hwf). eapply wpg_on_reply; [done|].
    apply setDataPosition_ok; simpl; [done|lia|]. intros s Hw Hwf' Hp. wp_step. split; [done|].
    pose proof (peq_pos _ _ Hp) as Ep. split; [|by intros ? [= <-]].
    split; simpl; [done|done|by intros ? [= <-]|by rewrite <- hd_some0|done].
  - wp_steps. split; [done|]. split; [by split; rewrite ?Er|by rewrite Er].
Qed.

(** The body of [transact]. *)
Abbreviation body code flags :=
  (if code =? PING_TRANSACTION then ret NO_ERROR
   else if code =? EXTENSION_TRANSACTION then
     CHECK_reply ;; let* extension := on_object getExtension in on_reply (writeStrongBinder extension)
   else if code =? DEBUG_PID_TRANSACTION then CHECK_reply ;; on_reply (writeInt32 getDebugPid)
   else if code =? SET_RPC_CLIENT_TRANSACTION then setRpcClientDebug
   else BBinder_onTransact code flags).

Definition known_codes : list Z :=
  [PING_TRANSACTION; EXTENSION_TRANSACTION; DEBUG_PID_TRANSACTION; SET_RPC_CLIENT_TRANSACTION;
   INTERFACE_TRANSACTION; DUMP_TRANSACTION; SHELL_COMMAND_TRANSACTION; SYSPROPS_TRANSACTION].

Lemma body_handled c0 c code flags :
  callable c0 -> read_only c0 c -> mDataPos (call_data c) = 0 -> call_world c = call_world c0 ->
  wpg (needs_reply c0 code) (body code flags) c (handled c0).
Proof.
  intros Hc Hr Hpos Hw. pose proof (ca_ask _ Hc) as [Ha Hmem Hext].
  pose proof (ro_object _ _ Hr) as Eo.
  zcase (code =? PING_TRANSACTION); [wp_step; by apply read_only_handled|].
  zcase (code =? EXTENSION_TRANSACTION).
  { wp_step. apply CHECK_ok; [rewrite (ro_reply _ _ Hr); by split; auto|]. intros r Er.
    pose proof (read_only_reply _ _ _ Hc Hr Er) as Hb. wp_step.
    apply wpg_on_object, getExtension_ok; [by rewrite Eo|]. intros b' Hb' Ea.
    wp_use (reply_handled (needs_reply c0 code) _ (fun st => st) c0 (set_object b' c) r); [done| |done|done| |done].
    - destruct Hr. by split.
    - intros G. eapply wpg_mono.
      + apply flattenBinder_kernel_ok; simpl; try apply Hb.
        * apply (blank_fits r); [done|]. by vm_compute.
        * rewrite (bl_objs _ Hb). by intros.
        * by rewrite Hw.
        * by rewrite Eo, Hw.
      + intros st s (_ & o & rep & []). done. }
  zcase (code =? DEBUG_PID_TRANSACTION).
  { wp_step. apply CHECK_ok; [rewrite (ro_reply _ _ Hr); by split; auto|]. intros r Er.
    pose proof (read_only_reply _ _ _ Hc Hr Er) as Hb.
    wp_use (reply_handled (needs_reply c0 code) _ (fun st => st) c0 c r); [done| | |done| |done].
    - destruct Hr. by split.
    - by rewrite Eo.
    - intros G. eapply written_wf. apply writeInt32_ok; [apply (bl_wf _ Hb)|].
      apply (blank_fits r); [done|]. by vm_compute. }
  zcase (code =? SET_RPC_CLIENT_TRANSACTION); [by apply setRpcClientDebug_handled|].
  by apply BBinder_onTransact_handled.
Qed.

Lemma body_unknown c code flags : code ∉ known_codes -> body code flags c = Ret UNKNOWN_TRANSACTION c.
Proof.
  intros Hn. unfold known_codes in Hn. rewrite !not_elem_of_cons in Hn. destruct_and!. unfold BBinder_onTransact.
  repeat match goal with H : code <> ?k |- _ => rewrite (proj2 (Z.eqb_neq code k) H); clear H end. done.
Qed.

Lemma callable_rewound c c1 : callable c -> read_only c c1 -> call_world c1 = call_world c -> callable c1.
Proof.
  intros [[Ha Hm He] Hi Hr Hd] Hro Hw. pose proof (ro_object _ _ Hro) as Eo. split; [split| | |done].
  - by rewrite Eo.
  - by rewrite Hw.
  - intros a. rewrite Eo, Hw. apply He.
  - by eapply reads_incoming, ro_reads.
  - intros r. rewrite (ro_reply _ _ Hro). apply Hr.
Qed.

Lemma handled_before c c1 c2 st c' :
  read_only c c1 -> call_data c2 = call_data c1 -> dumped c2 = dumped c1 ->
  (call_reply c2 = None <-> call_reply c1 = None) -> handled c2 st c' -> handled c st c'.
Proof.
  intros Hr Ed Edu Ere []. pose proof (rd_parcel _ _ (ro_reads _ _ Hr)) as Hp. simpl in Hp.
  rewrite Ed in *. split; try done.
  - etransitivity; [|exact hd_data0]. by apply (set_pos_peq _ _ (mDataPos (call_data c'))) in Hp.
  - rewrite hd_some0, Ere. by rewrite (ro_reply _ _ Hr).
  - rewrite Edu, (ro_dumped _ _ Hr) in hd_dumped0. rewrite (peq_size _ _ Hp) in hd_dumped0. exact hd_dumped0.
Qed.

(** C18: a local binder handles whatever it is called with.  For any code and flags, and
    any well-formed parcel as data whose object records the driver has checked, a call
    to an object of the base class returns: it touches no memory outside the parcels,
    and aborts only if a question is asked without a reply parcel.  The data is left as
    it was, the reply is well formed and at its start; an unknown code is answered by
    [UNKNOWN_TRANSACTION].  [dump] is called with at most one argument for every four
    bytes of data if the data is a number of words. *)
Theorem any_transaction_is_handled c code flags :
  callable c ->
  wpg (needs_reply c code) (transact BBinder_onTransact code flags) c (fun st c' =>
    handled c st c' /\ (forall r, call_reply c' = Some r -> mDataPos r = 0) /\
    (code ∉ known_codes -> st = UNKNOWN_TRANSACTION)).
Proof.
  intros Hc. unfold transact. wp_step. wp_use rewound; [done|]. intros _ c1 (Hr & Hpos & Hw).
  pose proof (callable_rewound _ _ Hc Hr Hw) as Hc1. wp_step. wp_use sensitive_reply; [done|].
  intros _ c2 (Hc2 & Ed & Eo & Edu & Ere). wp_step.
  assert (Hn : needs_reply c2 code -> needs_reply c code).
  { intros [E ?]. split; [|done]. rewrite <- (ro_reply _ _ Hr). by apply Ere. }
  eapply wpg_mono with (P := fun st c3 => handled c2 st c3 /\ (code ∉ known_codes -> st = UNKNOWN_TRANSACTION)).
  { apply (wpg_weaken (needs_reply c2 code)); [done|].
    pose proof (body_handled c2 c2 code flags Hc2 (read_only_refl _ (in_wf _ (ca_in _ Hc2)))) as Hb.
    destruct (decide (code ∈ known_codes)) as [Hin|Hin].
    - wp_use Hb; [by rewrite Ed|done|]. by intros.
    - specialize (Hb ltac:(by rewrite Ed) eq_refl). unfold wpg in *. rewrite body_unknown in * by done. done. }
  intros st c3 [H3 Hst]. wp_use rewound_reply; [exact H3|]. intros st' c4 (-> & H4 & Hpos4).
  split; [by eapply handled_before|done].
Qed.
End Handling.

(** * Local binders on concrete inputs *)

(** A service with an extension, in a process with id 77. *)
#[local] Instance clerk : Hosting := {
  getInterfaceDescriptor := [97; 46; 73];
  dump_status := fun _ _ => NO_ERROR;
  getDebugPid := 77;
  getCallingUid := 0;
  kEnableRpcDevServers := false;
  self_address := 4096;
  linkToDeath_status := fun _ => OK;
  getThreadPoolMaxThreadCount := 15;
}.

Definition extended : BBinder :=
  mkBBinder (Some 0) false {[ 0 := set_mExtension (Some 8192) new_Extras ]} ∅ [].

Definition a_call (data : bytes) (reply : option Parcel) : Call :=
  mkCall extended SampleObjects.office (referencing data [] do_nothing_to_transact_data) reply [] [] 0.

Lemma a_call_answerable data reply : answerable (a_call data reply).
Proof.
  split.
  - intros e [= <-]. reflexivity.
  - by intros [k [=]].
  - intros a [= <-]. exists SampleObjects.service. split; [reflexivity|].
    split; simpl; try lia; try done; by left.
Qed.

Lemma questions_are_answered_witness :
  wp (remote_getExtension (transact BBinder_onTransact)) (a_call [] None) (fun r _ => r = Good (Some 8192)) /\
  wp (remote_getDebugPid (transact BBinder_onTransact)) (a_call [] None) (fun r _ => r = Good 77).
Proof.
  destruct (questions_are_answered BBinder_onTransact (a_call [] None)) as (H1 & H2 & _).
  - apply a_call_answerable.
  - by vm_compute.
  - by repeat (constructor; [by vm_compute|]).
  - by vm_compute.
  - split; [wp_use H1; by intros r s [-> _]|wp_use H2; by intros r s [-> _]].
Defined.

(** A dump request with the words "ab" and nothing else for its arguments. *)
Definition dump_request : bytes := zeros 24 ++ le_bytes 4 9 ++ string16_bytes [97; 98].

Lemma a_call_callable data reply :
  Forall is_byte data -> zlen data <= INT32_MAX -> (forall r, reply = Some r -> blank r) ->
  callable (a_call data reply).
Proof.
  intros Hb Hl Hr. split; [apply a_call_answerable| |done|by vm_compute].
  split; simpl; [|done|].
  - apply (referencing_wf data [] do_nothing_to_transact_data 0); try done; by left.
  - split; [done|]. intros off Ho. by apply elem_of_nil in Ho.
Qed.

Lemma dump_request_callable : callable (a_call dump_request None).
Proof. apply a_call_callable; [|by vm_compute|done]. by repeat (constructor; [by vm_compute|]). Qed.

Lemma dump_request_size : mDataSize (call_data (a_call dump_request None)) = 40.
Proof. by vm_compute. Qed.

Lemma any_transaction_is_handled_witness :
  wpg (needs_reply (a_call dump_request None) DUMP_TRANSACTION)
    (transact BBinder_onTransact DUMP_TRANSACTION 0) (a_call dump_request None) (fun _ c =>
    dumped c = dumped (a_call dump_request None) \/ exists fd args, In (fd, args) (dumped c) /\ 4 * zlen args <= 40).
Proof.
  wp_use (any_transaction_is_handled _ DUMP_TRANSACTION 0 dump_request_callable).
  intros st c [[_ _ _ _ [Hd|(fd & args & Hd & _ & Hl)]] _]; [by left|right].
  rewrite dump_request_size in Hl. exists fd, args. split; [|by apply Hl].
  rewrite Hd. apply in_or_app. right. by left.
Defined.

(** On data that is not a number of words there is no such bound: the arguments of one
    left-over byte are as many as the caller says, all empty. *)
Lemma arguments_from_one_byte :
  exists s, read_args 6 (mkPS (referencing [0] [] do_nothing_to_transact_data) Sample.calm) =
    Ret [[]; []; []; []; []; []] s.
Proof. eexists. vm_compute. reflexivity. Qed.

(** A priority of 255 is accepted for the real-time policies. *)
Lemma priority_255_accepted : policy_accepted SCHED_RR 255 = true /\ policy_accepted SCHED_FIFO 255 = true.
Proof. done. Qed.

(** The parcels of [getExtension], [getDebugPid] and [dump] are not marked for RPC, and an
    RPC session refuses them, whatever the object. *)
Lemma unmarked_parcel_is_refused {E} `{RpcTransact.RpcTransport E} `{RpcTransact.RpcTargets E}
    connection session info frame fuel b code flags (s : RpcTransact.CS E) :
  RpcTransact.transact connection session info frame fuel b code init_parcel (Some init_parcel) flags s =
  Ret (BAD_TYPE, Some init_parcel) s.
Proof. done. Qed.
