(* ===== verification/NdkStatus.v ===== *)
(** Statuses and exceptions as the NDK shows them: src/libs/binder/ndk/status.cpp. *)

From S2P Require Import Prelude Errors BinderStatus.

Definition known_statuses : list Z :=
  [OK; NO_MEMORY; INVALID_OPERATION; BAD_VALUE; BAD_TYPE; NAME_NOT_FOUND; PERMISSION_DENIED; NO_INIT; ALREADY_EXISTS;
   DEAD_OBJECT; FAILED_TRANSACTION; BAD_INDEX; NOT_ENOUGH_DATA; WOULD_BLOCK; TIMED_OUT; UNKNOWN_TRANSACTION;
   FDS_NOT_ALLOWED; UNEXPECTED_NULL; UNKNOWN_ERROR].

(** The NDK's codes have the values of the platform's: each case returns its label. *)
Definition PruneStatusT (status : status_t) : status_t :=
  if bool_decide (status ∈ known_statuses) then status else UNKNOWN_ERROR.

Definition known_exceptions : list Z :=
  [EX_NONE; EX_SECURITY; EX_BAD_PARCELABLE; EX_ILLEGAL_ARGUMENT; EX_NULL_POINTER; EX_ILLEGAL_STATE; EX_NETWORK_MAIN_THREAD;
   EX_UNSUPPORTED_OPERATION; EX_SERVICE_SPECIFIC; EX_PARCELABLE; EX_TRANSACTION_FAILED].

Definition PruneException (exception : Z) : Z :=
  if bool_decide (exception ∈ known_exceptions) then exception else EX_TRANSACTION_FAILED.

(** * AStatus *)

Definition AStatus_newOk : Status := Status_ok.
Definition AStatus_fromExceptionCodeWithMessage (exception : Z) (message : bytes) : Status :=
  fromExceptionCode (PruneException exception) message.
Definition AStatus_fromExceptionCode (exception : Z) : Status := fromExceptionCode (PruneException exception) [].
Definition AStatus_fromServiceSpecificErrorWithMessage (serviceSpecific : Z) (message : bytes) : Status :=
  fromServiceSpecificError serviceSpecific message.
Definition AStatus_fromServiceSpecificError (serviceSpecific : Z) : Status := fromServiceSpecificError serviceSpecific [].
Definition AStatus_fromStatus (status : status_t) : Status := fromStatusT (PruneStatusT status).
Definition AStatus_isOk (status : Status) : bool := isOk status.
Definition AStatus_getExceptionCode (status : Status) : Z := PruneException (exceptionCode status).
Definition AStatus_getServiceSpecificError (status : Status) : Z := serviceSpecificErrorCode status.
Definition AStatus_getStatus (status : Status) : status_t := PruneStatusT (transactionError status).
Definition AStatus_getMessage (status : Status) : bytes := exceptionMessage status.

(** * What they are good for *)

Lemma prune_known st : st ∈ known_statuses -> PruneStatusT st = st.
Proof. intros H. unfold PruneStatusT. by rewrite bool_decide_true. Qed.
Lemma prune_range st : PruneStatusT st ∈ known_statuses.
Proof. unfold PruneStatusT. case_bool_decide; [done|]. unfold known_statuses. set_solver. Qed.
Lemma prune_OK st : PruneStatusT st = OK <-> st = OK.
Proof.
  unfold PruneStatusT. case_bool_decide as H; [done|]. split; [done|]. intros ->. exfalso. apply H. unfold known_statuses. set_solver.
Qed.
Lemma prune_exception_known ex : ex ∈ known_exceptions -> PruneException ex = ex.
Proof. intros H. unfold PruneException. by rewrite bool_decide_true. Qed.
Lemma prune_exception_none ex : PruneException ex = EX_NONE <-> ex = EX_NONE.
Proof.
  unfold PruneException. case_bool_decide as H; [done|]. split; [done|]. intros ->. exfalso. apply H. unfold known_exceptions. set_solver.
Qed.

(** Error codes reach a caller of the NDK as they were given: known statuses and
    exceptions unchanged, the others as the failure they stand for, and only [OK] as
    [OK]. *)
Theorem ndk_status_faithful :
  (forall st, AStatus_isOk (AStatus_fromStatus st) = bool_decide (st = OK)) /\
  (forall st, st ∈ known_statuses -> AStatus_getStatus (AStatus_fromStatus st) = st) /\
  (forall ex message, AStatus_getExceptionCode (AStatus_fromExceptionCodeWithMessage ex message) =
     if bool_decide (ex ∈ known_exceptions) then ex else EX_TRANSACTION_FAILED) /\
  (forall ex message, AStatus_isOk (AStatus_fromExceptionCodeWithMessage ex message) = bool_decide (ex = EX_NONE)) /\
  (forall code message, AStatus_getServiceSpecificError (AStatus_fromServiceSpecificErrorWithMessage code message) = code).
Proof.
  assert (forall st, isOk (AStatus_fromStatus st) = bool_decide (st = OK)) as Hok.
  { intros st. unfold isOk, AStatus_fromStatus, fromStatusT, setFromStatusT. cbn [mException].
    pose proof (prune_OK st) as Hp. zcase (PruneStatusT st =? NO_ERROR).
    - rewrite bool_decide_true; [done|by apply Hp].
    - rewrite bool_decide_false; [done|]. intros H. by apply E, Hp. }
  split_and!; [done| | | |].
  - intros st Hst. unfold AStatus_getStatus, AStatus_fromStatus, transactionError, fromStatusT, setFromStatusT. cbn [mException mErrorCode].
    rewrite (prune_known st Hst). zcase (st =? NO_ERROR); [by subst|]. simpl. by apply prune_known.
  - intros ex message. unfold AStatus_getExceptionCode, AStatus_fromExceptionCodeWithMessage, fromExceptionCode, exceptionCode.
    replace (mException _) with (PruneException ex) by (by destruct (_ =? _)). unfold PruneException at 2.
    case_bool_decide as H; apply prune_exception_known; [done|unfold known_exceptions; set_solver].
  - intros ex message. unfold AStatus_isOk, AStatus_fromExceptionCodeWithMessage, fromExceptionCode, isOk.
    replace (mException _) with (PruneException ex) by (by destruct (_ =? _)). pose proof (prune_exception_none ex) as Hp.
    zcase (PruneException ex =? EX_NONE); [rewrite bool_decide_true; [done|by apply Hp]|].
    rewrite bool_decide_false; [done|]. intros H. by apply E, Hp.
  - done.
Qed.
