(* ===== verification/NdkParcel.v ===== *)
(** Parcels of the NDK: src/libs/binder/ndk/parcel.cpp over the Parcel of ParcelWrite.v
    and ParcelRead.v.

    The memory of the user of this interface is behind callbacks.  An array the user
    writes is a list; more elements than it has is undefined behaviour.  For a read
    the user's allocator decides: whether it takes an array of a length ([accepts])
    and whether it gives a buffer for it ([gives]).  What ends up in the user's
    memory is the result of a read that succeeds; null arrays and strings are
    [None]. *)

From S2P Require Import Prelude Errors ParcelState ParcelWrite ParcelRead ParcelData ParcelObject ParcelIpc ParcelFormats.
From S2P Require Import BinderStatus NdkStatus.

(** [binder_status_t] of a [status_t], and of a call with an out parameter. *)
Definition pruned (m : M PS status_t) : M PS status_t := let* st := m in ret (PruneStatusT st).
Definition pruned_res {A} (m : M PS (res A)) : M PS (res A) :=
  let* r := m in ret (match r with Good a => Good a | Err st => Err (PruneStatusT st) end).

(** [__builtin_smul_overflow(a, b, &size)] for an [int] size. *)
Definition smul_overflow (a b : Z) : bool := negb (s32 (a * b) =? a * b).

(** * Sizes *)

Definition WriteAndValidateArraySize (isNullArray : bool) (length : Z) : M PS status_t :=
  if length <? -1 then ret BAD_VALUE else
  if negb isNullArray && (length <? 0) then ret BAD_VALUE else
  if isNullArray && (0 <? length) then ret BAD_VALUE else
  pruned (writeInt32 length).

Definition ReadAndValidateArraySize : M PS (res Z) :=
  let? length := pruned_res readInt32 in
  if length <? -1 then ret (Err BAD_VALUE) else
  if length <=? 0 then ret (Good length) else
  let* avail := dataAvail in
  if avail <? length then ret (Err NO_MEMORY) else ret (Good length).

(** * Arrays *)

Record Allocator := mkAllocator { accepts : Z -> bool; gives : Z -> bool }.

(** The first [length] elements of the user's array. *)
Definition elements_of {A} (array : list A) (length : Z) : M PS (list A) :=
  if length <=? zlen array then ret (ztake length array) else fault.

(** [WriteArray<T>], for the types whose memory is copied. *)
Definition WriteArray (p : prim) (array : option (list Z)) (length : Z) : M PS status_t :=
  WriteAndValidateArraySize (bool_decide (array = None)) length ;;?
  if length <=? 0 then ret OK else
  if smul_overflow (Z.of_nat (sizeof p)) length then ret NO_MEMORY else
  let* data := writeInplace (u64 (Z.of_nat (sizeof p) * length)) in
  match data, array with
  | None, _ => ret NO_MEMORY
  | Some _, None => fault
  | Some d, Some array =>
      let* vals := elements_of array length in
      store d (array_bytes (sizeof p) vals) ;; ret OK
  end.

(** [for (int32_t i = 0; i < length; i++)] over the values the user gives. *)
Fixpoint write_values {A} (write : A -> M PS status_t) (vals : list A) : M PS status_t :=
  match vals with
  | [] => ret OK
  | v :: vals => pruned (write v) ;;? write_values write vals
  end.

(** [WriteArray<char16_t>] *)
Definition WriteArray_char16 (array : option (list Z)) (length : Z) : M PS status_t :=
  WriteAndValidateArraySize (bool_decide (array = None)) length ;;?
  if length <=? 0 then ret OK else
  if smul_overflow 2 length then ret NO_MEMORY else
  match array with
  | None => fault
  | Some array => let* vals := elements_of array length in write_values writeChar vals
  end.

(** [WriteArray] with a getter: the array is null if the length is negative. *)
Definition WriteArray_getter {A} (write : A -> M PS status_t) (array : list A) (length : Z) : M PS status_t :=
  WriteAndValidateArraySize (length <? 0) length ;;?
  if length <=? 0 then ret OK else
  let* vals := elements_of array length in write_values write vals.

(** [ReadArray<T>] *)
Definition ReadArray (p : prim) (a : Allocator) : M PS (res (option (list Z))) :=
  let? length := ReadAndValidateArraySize in
  if negb (accepts a length) then ret (Err NO_MEMORY) else
  if length <=? 0 then ret (Good (if length =? 0 then Some [] else None)) else
  if negb (gives a length) then ret (Err NO_MEMORY) else
  if smul_overflow (Z.of_nat (sizeof p)) length then ret (Err NO_MEMORY) else
  let* data := readInplace (u64 (Z.of_nat (sizeof p) * length)) in
  match data with
  | None => ret (Err NO_MEMORY)
  | Some d => let* c := load_array d (sizeof p) length in ret (Good (Some (map (from_memory p) c)))
  end.

Fixpoint read_values {A} (read : M PS (res A)) (n : nat) : M PS (res (list A)) :=
  match n with
  | O => ret (Good [])
  | S n =>
      let? v := pruned_res read in
      let? vals := read_values read n in
      ret (Good (v :: vals))
  end.

(** [ReadArray<char16_t>] *)
Definition ReadArray_char16 (a : Allocator) : M PS (res (option (list Z))) :=
  let? length := ReadAndValidateArraySize in
  if negb (accepts a length) then ret (Err NO_MEMORY) else
  if length <=? 0 then ret (Good (if length =? 0 then Some [] else None)) else
  if negb (gives a length) then ret (Err NO_MEMORY) else
  if smul_overflow 2 length then ret (Err NO_MEMORY) else
  let? vals := read_values (let* r := readChar in ret (res_of r)) (Z.to_nat length) in
  ret (Good (Some vals)).

(** [ReadArray] with a setter. *)
Definition ReadArray_setter {A} (read : M PS (res A)) (a : Allocator) : M PS (res (option (list A))) :=
  let? length := ReadAndValidateArraySize in
  if negb (accepts a length) then ret (Err NO_MEMORY) else
  if length <=? 0 then ret (Good (if length =? 0 then Some [] else None)) else
  let? vals := read_values read (Z.to_nat length) in
  ret (Good (Some vals)).

(** * The generated functions

    One function of a kind for every primitive type. *)

Definition AParcel_write (p : prim) (value : Z) : M PS status_t := pruned (writeData_prim p value).
Definition AParcel_read (p : prim) : M PS (res Z) := pruned_res (readData_prim p).

Definition AParcel_writeArray (p : prim) (array : option (list Z)) (length : Z) : M PS status_t :=
  match p with
  | Bool => WriteArray_getter (fun v => writeBool (negb (v =? 0))) (default [] array) length
  | Char16 => WriteArray_char16 array length
  | _ => WriteArray p array length
  end.
Definition AParcel_readArray (p : prim) (a : Allocator) : M PS (res (option (list Z))) :=
  match p with
  | Bool => ReadArray_setter (let* r := readBool in ret (res_of (fst r, if snd r : bool then 1 else 0))) a
  | Char16 => ReadArray_char16 a
  | _ => ReadArray p a
  end.

(** * Strings *)

Section Strings.
Context `{UtfConversions}.

Definition AParcel_writeString (string : option bytes) (length : Z) : M PS status_t :=
  match string with
  | None => if negb (length =? -1) then ret BAD_VALUE else pruned (writeInt32 (-1))
  | Some string =>
      if length <? 0 then ret BAD_VALUE else
      if zlen string <? length then fault else
      let str8 := ztake length string in
      let len16 := utf8_to_utf16_length str8 in
      if (len16 <? 0) || (INT32_MAX <=? len16) then ret BAD_VALUE else
      let* err := writeInt32 len16 in
      if negb (err =? OK) then ret (PruneStatusT err) else
      let* str16 := writeInplace ((len16 + 1) * 2) in
      match str16 with
      | None => ret NO_MEMORY
      | Some off => store off (array_bytes 2 (utf8_to_utf16 str8) ++ [0; 0]) ;; ret OK
      end
  end.

(** The allocator is asked for room for the terminating NUL too; it is left out of the result. *)
Definition AParcel_readString (a : Allocator) : M PS (res (option bytes)) :=
  let* str16 := readString16Inplace in
  match str16 with
  | None => ret (if accepts a (-1) then Good None else Err UNEXPECTED_NULL)
  | Some (off, len16) =>
      let* chars := load_chars off len16 in
      let len8 := if len16 =? 0 then 1 else utf16_to_utf8_length chars + 1 in
      if (len8 <=? 0) || (INT32_MAX <? len8) then ret (Err BAD_VALUE) else
      if negb (accepts a len8) || negb (gives a len8) then ret (Err NO_MEMORY) else
      ret (Good (Some (ztake (len8 - 1) (utf16_to_utf8 chars))))
  end.

(** The getter gives a string and its length. *)
Fixpoint write_strings (vals : list (option bytes * Z)) : M PS status_t :=
  match vals with
  | [] => ret OK
  | (str, elementLength) :: vals =>
      if bool_decide (str = None) && negb (elementLength =? -1) then ret BAD_VALUE else
      AParcel_writeString str elementLength ;;? write_strings vals
  end.
Definition AParcel_writeStringArray (array : list (option bytes * Z)) (length : Z) : M PS status_t :=
  WriteAndValidateArraySize (length <? 0) length ;;?
  if length <=? 0 then ret OK else
  let* vals := elements_of array length in write_strings vals.

(** [elementAllocator] of each index. *)
Fixpoint read_strings (elementAllocator : Z -> Allocator) (index : Z) (n : nat) : M PS (res (list (option bytes))) :=
  match n with
  | O => ret (Good [])
  | S n =>
      let? v := AParcel_readString (elementAllocator index) in
      let? vals := read_strings elementAllocator (index + 1) n in
      ret (Good (v :: vals))
  end.
Definition AParcel_readStringArray (a : Allocator) (elementAllocator : Z -> Allocator) : M PS (res (option (list (option bytes)))) :=
  let? length := ReadAndValidateArraySize in
  if negb (accepts a length) then ret (Err NO_MEMORY) else
  if length =? -1 then ret (Good None) else
  let? vals := read_strings elementAllocator 0 (Z.to_nat length) in
  ret (Good (Some vals)).
End Strings.

(** * Arrays of Parcelables *)

(** The element writer and reader are the user's. *)
Fixpoint write_elements {A} (elementWriter : A -> M PS status_t) (vals : list A) : M PS status_t :=
  match vals with
  | [] => ret OK
  | v :: vals => elementWriter v ;;? write_elements elementWriter vals
  end.
Definition AParcel_writeParcelableArray {A} (elementWriter : A -> M PS status_t) (array : list A) (length : Z) : M PS status_t :=
  WriteAndValidateArraySize (length <? 0) length ;;?
  if length <=? 0 then ret OK else
  let* vals := elements_of array length in write_elements elementWriter vals.

Definition AParcel_readParcelableArray {A} (a : Allocator) (elementReader : M PS (res A)) : M PS (res (option (list A))) :=
  let? length := ReadAndValidateArraySize in
  if negb (accepts a length) then ret (Err NO_MEMORY) else
  if length =? -1 then ret (Good None) else
  let? vals := read_each elementReader (Z.to_nat length) in
  ret (Good (Some vals)).

(** * Descriptors and statuses *)

Definition AParcel_writeParcelFileDescriptor (fd : Z) : M PS status_t :=
  if fd <? 0 then
    if negb (fd =? -1) then ret UNKNOWN_ERROR else pruned (writeInt32 0)
  else
    let* status := writeInt32 1 in
    if negb (status =? OK) then ret (PruneStatusT status) else
    pruned (writeDupParcelFileDescriptor fd).

(** [readParcelable(&parcelFd)]: a flag, and the ParcelFileDescriptor. *)
Definition AParcel_readParcelFileDescriptor (comm_write : Z -> bool) : M PS (res Z) :=
  let* startPos := getp dataPosition in
  let? peek := pruned_res (readData_prim Int32) in
  if peek =? kNullParcelableFlag then ret (Good (-1)) else
  setDataPosition startPos ;;
  let? present := pruned_res (readData_prim Int32) in
  if negb (present =? kNonNullParcelableFlag) then ret (Err UNEXPECTED_NULL) else
  pruned_res (readUniqueParcelFileDescriptor comm_write).

(** * The buffer as a whole *)

Definition AParcel_setDataPosition (position : Z) : M PS status_t :=
  if position <? 0 then ret BAD_VALUE else setDataPosition position ;; ret OK.
Definition AParcel_getDataPosition (p : Parcel) : Z := s32 (dataPosition p).
Definition AParcel_getDataSize (p : Parcel) : Z := s32 (dataSize p).
Definition AParcel_reset : M PS status_t := freeData ;; ret OK.
Definition AParcel_appendFrom (from : Parcel) (start size : Z) : M PS status_t :=
  pruned (appendFrom from (u64 start) (u64 size)).

(** What is copied into the user's buffer. *)
Definition AParcel_marshal (start len : Z) : M PS (res bytes) :=
  let* p := gets this in
  if negb (objectsCount p =? 0) then ret (Err INVALID_OPERATION) else
  let size := AParcel_getDataSize p in
  if (u64 size <? len) || (u64 (u64 size - len) <? start) then ret (Err BAD_VALUE) else
  let* bs := require (mem_read (data_block p) start len) in
  ret (Good bs).

Definition AParcel_unmarshal (buffer : bytes) : M PS status_t :=
  let* status := setDataSize (zlen buffer) in
  if negb (status =? OK) then ret (PruneStatusT status) else
  setDataPosition 0 ;;
  let* raw := writeInplace (zlen buffer) in
  match raw with
  | None => ret NO_MEMORY
  | Some d => store d buffer ;; ret OK
  end.
