(* ===== verification/NdkParcelProps.v ===== *)
(** The NDK's arrays and strings are those of the C++ library: what one writes the
    other reads, and whatever bytes come, reading stays inside the parcel. *)

From S2P Require Import BinderStatus.
From S2P Require Import Prelude Errors ParcelState ParcelWrite ParcelRead ParcelInv ParcelWriteSpec ParcelReadSpec.
From S2P Require Import ParcelData ParcelDataSpec ParcelFormats ParcelFlattenProps ParcelProps NdkStatus NdkParcel.

(** * Status codes on the way *)

Lemma pruned_post F m s bs : wpg F m s (data_post s bs) -> wpg F (pruned m) s (data_post s bs).
Proof.
  intros Hm. unfold pruned. wp_step. wp_use Hm. intros st s' [Hb [[-> Hw]|Hf]]; wp_step; (split; [done|]); [by left|by right].
Qed.
Lemma pruned_decodes {A} (m : M PS (res A)) bs (a : A) : decodes m bs (Good a) -> decodes (pruned_res m) bs (Good a).
Proof. apply (decodes_map m (fun r => match r with Good a => Good a | Err st => Err (PruneStatusT st) end)). Qed.
Lemma pruned_safe {A} (m : M PS (res A)) : safe_read m -> safe_read (pruned_res m).
Proof. intros Hm. apply safe_bind; [done|]. intros r. apply safe_ret. Qed.

(** * Writing *)

Lemma array_size_ok F s isNull n :
  (isNull = true /\ n = -1) \/ (isNull = false /\ 0 <= n <= INT32_MAX) -> wf (this s) -> fits (this s) 4 ->
  wpg F (WriteAndValidateArraySize isNull n) s (data_post s (le_bytes 4 n)).
Proof.
  intros Hn Hwf Hf. unfold WriteAndValidateArraySize. zdec (n <? -1).
  destruct Hn as [[-> ->]|[-> Hn]]; [|zdec (n <? 0)]; cbn [negb andb].
  all: apply pruned_post, (writeData_prim_ok F s Int32); [done|unfold valid_prim, is_s32; lia|cbn [encode_prim]; by rewrite zlen_le_bytes].
Qed.

(** Reserving room and copying [bs] into it. *)
Lemma inplace_copy F s bs st0 (k : Z -> M PS status_t) :
  wf (this s) -> Forall is_byte bs -> 0 < zlen bs -> fits (this s) (zlen (padded bs)) ->
  (forall d s1 Q, wpg F (store d bs ;; ret OK) s1 Q -> wpg F (k d) s1 Q) ->
  wpg F (let* data := writeInplace (zlen bs) in
         match data with None => ret st0 | Some d => k d end) s (weak_post s (padded bs)).
Proof.
  intros Hwf Hb Hpos Hf Hk. rewrite zlen_padded in Hf. pose proof (padz_bounds (zlen bs)).
  wp_step. wp_use writeInplace_ok; [done|lia|done|]. intros o s1 [Hbal [(->&y&Hy&Hby&Hw)|(->&Ht&Hcf)]].
  - rewrite pointer_of_Some; [|apply Hw|].
    2:{ rewrite (wrote_size _ _ _ Hwf Hw). pose proof (wf_pos _ Hwf). zl. rewrite zlen_zeros by lia. lia. }
    apply Hk. wp_step. rewrite <- (Z.add_0_r (mDataPos (this s))).
    wp_use store_wrote; [done|done|exact Hw|done|lia|rewrite zlen_app, zlen_zeros; lia|].
    intros [] s2 [Hb2 Hw2]. wp_step. split; [done|left]. rewrite overwrite_head in Hw2 by done. split; [exact Hw2|done].
  - wp_step. split; [done|right]. rewrite zlen_padded. apply set_mError_failed; auto with binder. lia.
Qed.

Lemma elements_all {A} F s (l : list A) Q : Q l s -> wpg F (elements_of l (zlen l)) s Q.
Proof. intros HQ. unfold elements_of. rewrite Z.leb_refl. wp_step. by rewrite ztake_ge by lia. Qed.

Lemma write_values_each {A} (write : A -> M PS status_t) vals :
  write_values write vals = write_each (fun v => pruned (write v)) vals.
Proof. induction vals as [|v vals IH]; [done|]. cbn [write_values write_each]. by rewrite IH. Qed.

Lemma values_ok F s p vals :
  Forall (valid_prim p) vals -> wf (this s) -> fits (this s) (zlen (concat (map (encode_prim p) vals))) ->
  forall write, (forall v, valid_prim p v -> write v = writeData_prim p v) ->
  wpg F (write_values write vals) s (weak_post s (concat (map (encode_prim p) vals))).
Proof.
  intros Hv Hwf Hf write Hw. rewrite write_values_each. eapply wpg_mono; [|intros; by apply data_weak_post].
  rewrite Forall_forall in Hv. apply write_each_ok; [|intros a; pose proof (encode_prim_len p a); lia|done|done].
  intros a s1 Ha Hwf1 Hf1. rewrite Hw by by apply Hv. apply pruned_post, writeData_prim_ok; auto.
Qed.

(** The words of a widened array. *)
Lemma words_padded vals : padded (array_bytes 4 vals) = array_bytes 4 vals.
Proof.
  unfold padded. rewrite zlen_array_bytes. replace (padz _ - _) with 0; [by rewrite app_nil_r|].
  unfold padz. change (Z.of_nat 4) with 4. replace (4 * zlen vals + 3) with (zlen vals * 4 + 3) by lia.
  rewrite Z.div_add_l by lia. change (3 / 4) with 0. lia.
Qed.
Lemma char_words vals : concat (map (encode_prim Char16) vals) = array_bytes 4 vals.
Proof. done. Qed.
Lemma bool_words vals : Forall (valid_prim Bool) vals -> concat (map (encode_prim Bool) vals) = array_bytes 4 vals.
Proof.
  intros Hv. unfold array_bytes. f_equal. apply map_ext_in. intros v Hin. rewrite List.Forall_forall in Hv.
  destruct (Hv v Hin) as [-> | ->]; done.
Qed.

Section Arrays.
Context {K : Type} `{ParcelableLaws K}.

(** The C++ type of an array of the NDK, and the length that goes with an array. *)
Definition array_ty (p : prim) : ty K := TOptional (TVector (TPrim p)).
Definition length_of {A} (v : option (list A)) : Z := match v with Some vals => zlen vals | None => -1 end.

(** The NDK has no arrays of [uint8_t]. *)
Definition ndk_prim (p : prim) : bool := match p with Uint8 => false | _ => true end.

Definition wire (p : prim) (vals : list Z) : bytes :=
  match p with
  | Bool | Char16 => array_bytes 4 vals
  | _ => padded (array_bytes (sizeof p) vals)
  end.

Lemma encode_array_ty p v : ndk_prim p = true ->
  encode (array_ty p) v = match v with Some vals => le_bytes 4 (zlen vals) ++ wire p vals | None => le_bytes 4 (-1) end.
Proof.
  intros Hp. destruct v as [vals|]; [|done]. destruct p; try done; cbn; rewrite ?map_id; try done.
  all: by rewrite words_padded.
Qed.

Lemma wire_nil p : ndk_prim p = true -> wire p [] = [].
Proof. by destruct p. Qed.

Lemma sizeof_pos p : 0 < Z.of_nat (sizeof p).
Proof. pose proof (sizeof_bound p). lia. Qed.

Lemma wire_ge p vals : ndk_prim p = true -> zlen vals * Z.of_nat (sizeof p) <= zlen (wire p vals) /\
  zlen vals <= zlen (wire p vals).
Proof.
  intros Hp. pose proof (zlen_nonneg vals).
  destruct p; try done; unfold wire; rewrite ?zlen_padded, ?zlen_array_bytes; cbn [sizeof];
    try match goal with |- context [padz ?x] => pose proof (padz_ge x) end; lia.
Qed.

(** The size goes first; null and empty arrays end there. *)
Lemma null_array_ok F s m :
  wf (this s) -> fits (this s) 4 ->
  wpg F (WriteAndValidateArraySize true (-1) ;;? (if -1 <=? 0 then ret OK else m)) s (data_post s (le_bytes 4 (-1))).
Proof.
  intros Hwf Hf. change (-1 <=? 0) with true. cbv iota.
  rewrite <- (app_nil_r (le_bytes 4 (-1))). apply data_seq_check; [done|by rewrite app_nil_r, zlen_le_bytes|by rewrite zlen_le_bytes| |].
  - intros _. apply array_size_ok; auto.
  - intros s1 Hwf1 _. wp_step. split; [done|left]. split; [by apply wrote_nil|done].
Qed.

Lemma sized_array_ok F s {A} (vals : list A) bs m :
  wf (this s) -> zlen vals <= zlen bs -> (zlen vals = 0 -> bs = []) -> fits (this s) (zlen (le_bytes 4 (zlen vals) ++ bs)) ->
  (forall s1, wf (this s1) -> fits (this s1) (zlen bs) -> 0 < zlen vals -> wpg F m s1 (weak_post s1 bs)) ->
  wpg F (WriteAndValidateArraySize false (zlen vals) ;;? (if zlen vals <=? 0 then ret OK else m)) s
    (data_post s (le_bytes 4 (zlen vals) ++ bs)).
Proof.
  intros Hwf Hge Hnil Hf Hm. pose proof (zlen_nonneg vals). pose proof (fits_bound _ _ Hwf Hf) as Hb.
  rewrite zlen_app, zlen_le_bytes in Hb. apply data_seq_check; [done|done|by rewrite zlen_le_bytes| |].
  - intros Hf1. apply array_size_ok; [right; lia|done|by rewrite zlen_le_bytes in Hf1].
  - intros s1 Hwf1 Hf1. zcase (zlen vals <=? 0); [|apply Hm; [done|done|lia]]. wp_step.
    rewrite Hnil by lia. split; [done|left]. split; [by apply wrote_nil|done].
Qed.

Lemma packed_array_ok F s p vals :
  wf (this s) -> 0 < zlen vals -> fits (this s) (zlen (padded (array_bytes (sizeof p) vals))) ->
  wpg F (if smul_overflow (Z.of_nat (sizeof p)) (zlen vals) then ret NO_MEMORY else
    let* data := writeInplace (u64 (Z.of_nat (sizeof p) * zlen vals)) in
    match data with
    | None => ret NO_MEMORY
    | Some d => let* vals := elements_of vals (zlen vals) in store d (array_bytes (sizeof p) vals) ;; ret OK
    end) s (weak_post s (padded (array_bytes (sizeof p) vals))).
Proof.
  intros Hwf Hpos Hf. pose proof (fits_bound _ _ Hwf Hf) as Hb. rewrite zlen_padded, zlen_array_bytes in Hb.
  pose proof (padz_ge (Z.of_nat (sizeof p) * zlen vals)). pose proof (sizeof_bound p).
  unfold smul_overflow. rewrite s32_small by (unfold is_s32; nia). rewrite Z.eqb_refl. cbn [negb]. rewrite u64_small by nia.
  replace (Z.of_nat (sizeof p) * zlen vals) with (zlen (array_bytes (sizeof p) vals)) by (by rewrite zlen_array_bytes).
  apply inplace_copy; [done|apply array_bytes_is_byte|rewrite zlen_array_bytes; nia|done|].
  intros d s1 Q HQ. wp_step. by apply elements_all.
Qed.

Lemma char_array_ok F s vals :
  Forall (valid_prim Char16) vals -> wf (this s) -> 0 < zlen vals -> fits (this s) (zlen (array_bytes 4 vals)) ->
  wpg F (if smul_overflow 2 (zlen vals) then ret NO_MEMORY else
    let* vals := elements_of vals (zlen vals) in write_values writeChar vals) s (weak_post s (array_bytes 4 vals)).
Proof.
  intros Hv Hwf Hpos Hf. pose proof (fits_bound _ _ Hwf Hf) as Hb. rewrite zlen_array_bytes in Hb.
  unfold smul_overflow. rewrite s32_small by (unfold is_s32; lia). rewrite Z.eqb_refl. cbn [negb].
  wp_step. apply elements_all. by apply (values_ok F s Char16).
Qed.

Lemma bool_array_ok F s vals :
  Forall (valid_prim Bool) vals -> wf (this s) -> fits (this s) (zlen (array_bytes 4 vals)) ->
  wpg F (let* vals := elements_of vals (zlen vals) in write_values (fun v => writeBool (negb (v =? 0))) vals) s
    (weak_post s (array_bytes 4 vals)).
Proof.
  intros Hv Hwf Hf. wp_step. apply elements_all. rewrite <- (bool_words vals Hv) in *. by apply (values_ok F s Bool).
Qed.

Lemma writeArray_ok F s p v :
  ndk_prim p = true -> valid (array_ty p) v -> wf (this s) -> fits (this s) (zlen (encode (array_ty p) v)) ->
  wpg F (AParcel_writeArray p v (length_of v)) s (data_post s (encode (array_ty p) v)).
Proof.
  intros Hp Hv Hwf Hf. rewrite encode_array_ty in * by done. destruct v as [vals|].
  2:{ rewrite zlen_le_bytes in Hf. destruct p; try done; by apply null_array_ok. }
  cbn [length_of]. pose proof (zlen_nonneg vals). destruct (wire_ge p vals Hp) as [_ Hge]. change (Forall (valid_prim p) vals) in Hv.
  assert (zlen vals = 0 -> wire p vals = []) as Hnil by (intros ->%zlen_zero; by apply wire_nil).
  destruct p; try done; unfold AParcel_writeArray, WriteArray, WriteArray_getter, WriteArray_char16; cbn [default].
  1: rewrite (proj2 (Z.ltb_ge _ _)) by done.
  2-9: rewrite bool_decide_false by done.
  all: apply sized_array_ok; [done..|]; intros s1 Hwf1 Hf1 Hpos.
  1: by apply bool_array_ok.
  2: by apply char_array_ok.
  all: by apply packed_array_ok.
Qed.

(** ** Reading *)

(** The size that starts an array, and is not more than the data. *)
Lemma array_size_read F s n bs Q :
  wf (this s) -> avail (this s) (le_bytes 4 n ++ bs) -> -1 <= n <= zlen bs -> n <= INT32_MAX ->
  (forall s1, consumed s 4 s1 -> 0 < mDataSize (this s1) -> avail (this s1) bs -> Q (Good n) s1) ->
  wpg F ReadAndValidateArraySize s Q.
Proof.
  intros Hwf Hav Hn Hmax HQ. unfold ReadAndValidateArraySize. apply wpg_bind_res.
  wp_use (pruned_decodes readInt32 _ n (readInt32_decodes n ltac:(unfold is_s32; lia))); [done|by eapply avail_app|].
  intros r s1 [-> Hc]. rewrite zlen_le_bytes in Hc. pose proof (avail_rest _ _ (le_bytes 4 n) bs Hwf Hav Hc) as Hav1.
  assert (0 < mDataSize (this s1)) as Hpos by (by eapply consumed_nonempty).
  zdec (n <? -1). zcase (n <=? 0); [wp_step; by apply HQ|]. wp_step. destruct Hc as (Hw & Hwf1 & Hp1).
  apply dataAvail_ok; [done|]. destruct Hav1. zdec (mDataSize (this s1) - mDataPos (this s1) <? n). wp_step. by apply HQ.
Qed.

(** The user takes what is sent. *)
Definition taken_by (a : Allocator) (n : Z) : Prop := accepts a n = true /\ (0 < n -> gives a n = true).

Lemma read_values_each {A} (read : M PS (res A)) n : read_values read n = read_each (pruned_res read) n.
Proof. induction n as [|n IH]; [done|]. cbn [read_values read_each]. by rewrite IH. Qed.

Lemma read_null {A} F s bs (m : Z -> M PS (res A)) Q :
  wf (this s) -> avail (this s) (le_bytes 4 (-1) ++ bs) ->
  (forall s1, consumed s 4 s1 -> wpg F (m (-1)) s1 Q) -> wpg F (let? n := ReadAndValidateArraySize in m n) s Q.
Proof.
  intros Hwf Hav Hm. pose proof (zlen_nonneg bs). apply wpg_bind_res. eapply array_size_read; [done|exact Hav|lia|lia|]. intros s1 Hc _ _. by apply Hm.
Qed.

Lemma packed_read F s p vals :
  wf (this s) -> 0 < mDataSize (this s) -> 0 < zlen vals -> Forall (valid_prim p) vals ->
  avail (this s) (padded (array_bytes (sizeof p) vals)) ->
  wpg F (if smul_overflow (Z.of_nat (sizeof p)) (zlen vals) then ret (Err NO_MEMORY) else
    let* data := readInplace (u64 (Z.of_nat (sizeof p) * zlen vals)) in
    match data with
    | None => ret (Err NO_MEMORY)
    | Some d => let* c := load_array d (sizeof p) (zlen vals) in ret (Good (Some (map (from_memory p) c)))
    end) s (fun r s' => r = Good (Some vals) /\ consumed s (zlen (padded (array_bytes (sizeof p) vals))) s').
Proof.
  intros Hwf Hne Hpos Hv Hav. pose proof (avail_bound _ _ Hwf Hav) as Hb. pose proof (sizeof_bound p).
  rewrite zlen_padded, zlen_array_bytes in Hb. pose proof (padz_ge (Z.of_nat (sizeof p) * zlen vals)).
  unfold smul_overflow. rewrite s32_small by (unfold is_s32; nia). rewrite Z.eqb_refl. cbn [negb]. rewrite u64_small by nia.
  replace (Z.of_nat (sizeof p) * zlen vals) with (zlen (array_bytes (sizeof p) vals)) by (by rewrite zlen_array_bytes).
  wp_step. apply readInplace_region; [done|done|done|rewrite zlen_array_bytes; lia|].
  intros s1 Hc Hr. unfold load_array. do 2 wp_step.
  eapply load_region_head; [by rewrite app_nil_r|rewrite zlen_array_bytes; lia|]. do 2 wp_step.
  rewrite <- zlen_padded in Hc. split; [|done]. do 2 f_equal. unfold zlen. rewrite Nat2Z.id, split_array_mod, map_map.
  rewrite List.Forall_forall in Hv. transitivity (map id vals); [|apply map_id]. apply map_ext_in. intros x Hx.
  by apply from_memory_ok, Hv.
Qed.

Lemma values_read F s p vals (read : M PS (res Z)) :
  wf (this s) -> Forall (valid_prim p) vals -> avail (this s) (concat (map (encode_prim p) vals)) -> read = readData_prim p ->
  wpg F (let? vals := read_values read (Z.to_nat (zlen vals)) in ret (Good (Some vals))) s
    (fun r s' => r = Good (Some vals) /\ consumed s (zlen (concat (map (encode_prim p) vals))) s').
Proof.
  intros Hwf Hv Hav ->. unfold zlen at 1. rewrite Nat2Z.id, read_values_each. apply wpg_bind_res.
  wp_use (read_each_decodes (pruned_res (readData_prim p)) (encode_prim p) vals); [|done|done|].
  - intros v Hin. rewrite Forall_forall in Hv. apply pruned_decodes, readData_prim_decodes. by apply Hv.
  - intros r s1 [-> Hc]. by wp_step.
Qed.

Lemma readArray_decodes p v a :
  ndk_prim p = true -> valid (array_ty p) v -> taken_by a (length_of v) ->
  decodes (AParcel_readArray p a) (encode (array_ty p) v) (Good v).
Proof.
  intros Hp Hv [Hacc Hgive] F s Hwf Hav. pose proof (avail_bound _ _ Hwf Hav) as Hmax. rewrite encode_array_ty in * by done.
  destruct v as [vals|].
  2:{ cbn [length_of] in *. rewrite <- (app_nil_r (le_bytes 4 (-1))) in Hav.
      destruct p; try done; (eapply read_null; [done|exact Hav|]); intros s1 Hc; rewrite Hacc; cbn [negb];
        change (-1 <=? 0) with true; change (-1 =? 0) with false; cbv iota; by wp_step. }
  cbn [length_of] in *. pose proof (zlen_nonneg vals). destruct (wire_ge p vals Hp) as [_ Hge]. change (Forall (valid_prim p) vals) in Hv.
  rewrite zlen_app, zlen_le_bytes in *.
  assert (forall k, (forall s1, wf (this s1) -> 0 < mDataSize (this s1) -> 0 < zlen vals -> avail (this s1) (wire p vals) ->
      wpg F (k (zlen vals)) s1 (fun r s' => r = Good (Some vals) /\ consumed s1 (zlen (wire p vals)) s')) ->
    wpg F (let? length := ReadAndValidateArraySize in
      if negb (accepts a length) then ret (Err NO_MEMORY) else
      if length <=? 0 then ret (Good (if length =? 0 then Some [] else None)) else k length) s
    (fun r s' => r = Good (Some vals) /\ consumed s (Z.of_nat 4 + zlen (wire p vals)) s')) as Hgo.
  { intros k Hk. apply wpg_bind_res. eapply array_size_read; [done|exact Hav|lia|lia|]. intros s1 Hc Hne Hav1. rewrite Hacc. cbn [negb].
    zcase (zlen vals <=? 0).
    - assert (zlen vals = 0) as E0 by lia. rewrite E0. wp_step. apply zlen_zero in E0 as ->. rewrite wire_nil by done. done.
    - wp_use Hk; [apply Hc|done|lia|done|]. intros r s2 [-> Hc2]. split; [done|]. by eapply consumed_app. }
  destruct p; try done; unfold AParcel_readArray, ReadArray, ReadArray_setter, ReadArray_char16; apply Hgo;
    intros s1 Hwf1 Hne Hpos Hav1; rewrite ?(Hgive Hpos); cbn [negb].
  1: { unfold wire in *. rewrite <- (bool_words vals Hv) in *. by apply (values_read F s1 Bool). }
  2: { unfold smul_overflow. rewrite s32_small by (unfold is_s32; unfold wire in Hmax; rewrite zlen_array_bytes in Hmax; lia).
       rewrite Z.eqb_refl. cbn [negb]. by apply (values_read F s1 Char16). }
  all: by apply packed_read.
Qed.

(** ** Strings *)

Section Strings.
Context `{UtfConversions}.

Definition string_ty : ty K := TOptional TString16.
Definition strings_ty : ty K := TOptional (TVector string_ty).
(** A UTF-8 string as the C++ library has it. *)
Definition utf16_of (v : option bytes) : option (list Z) := option_map utf8_to_utf16 v.
Definition converts_opt (v : option bytes) : Prop := match v with Some str => converts str | None => True end.
Definition with_length (v : option bytes) : option bytes * Z := (v, length_of v).

Lemma checked_first F (m k : M PS status_t) s Q :
  wpg F (pruned m ;;? k) s Q ->
  wpg F (let* err := m in if negb (err =? OK) then ret (PruneStatusT err) else k) s Q.
Proof.
  unfold wpg, pruned, check_ok, bind, ret. destruct (m s) as [err s1| |]; [|done..].
  pose proof (prune_OK err) as Hp. zcase (err =? OK); cbn [negb].
  - rewrite (proj2 Hp) by done. done.
  - zcase (PruneStatusT err =? OK); [|done]. by apply Hp in E0.
Qed.

Lemma string16_bytes_split chars :
  string16_bytes chars = le_bytes 4 (zlen chars) ++ padded (array_bytes 2 chars ++ [0; 0]).
Proof. done. Qed.
Lemma string16_bound chars : 2 * zlen chars + 6 <= zlen (string16_bytes chars).
Proof.
  rewrite string16_bytes_split, zlen_app, zlen_le_bytes, zlen_padded, zlen_app, zlen_array_bytes.
  match goal with |- context [padz ?x] => pose proof (padz_ge x) end. zl. lia.
Qed.

Lemma writeString_ok F s v :
  converts_opt v -> wf (this s) -> fits (this s) (zlen (encode string_ty (utf16_of v))) ->
  wpg F (AParcel_writeString v (length_of v)) s (data_post s (encode string_ty (utf16_of v))).
Proof.
  intros Hv Hwf Hf. destruct v as [str|]; cbn [length_of utf16_of option_map AParcel_writeString] in *.
  2:{ change (-1 =? -1) with true. cbn [negb]. by apply pruned_post, (writeData_prim_ok F s Int32). }
  destruct Hv as [Hlen H16 _ _ _]. change (encode string_ty _) with (string16_bytes (utf8_to_utf16 str)) in *.
  pose proof (zlen_nonneg str). pose proof (string16_bound (utf8_to_utf16 str)). pose proof (fits_bound _ _ Hwf Hf).
  pose proof (zlen_nonneg (utf8_to_utf16 str)). rewrite string16_bytes_split in *.
  zdec (zlen str <? 0). rewrite Z.ltb_irrefl, ztake_ge by lia. cbv zeta. rewrite Hlen.
  zdec (zlen (utf8_to_utf16 str) <? 0). zdec (INT32_MAX <=? zlen (utf8_to_utf16 str)). cbn [orb].
  apply checked_first, data_seq_check; [done|done|by rewrite zlen_le_bytes| |].
  - intros Hf1. apply pruned_post, (writeData_prim_ok F s Int32); [done|unfold valid_prim, is_s32; lia|done].
  - intros s1 Hwf1 Hf1. set (buf := array_bytes 2 (utf8_to_utf16 str) ++ [0; 0]) in *.
    replace ((zlen (utf8_to_utf16 str) + 1) * 2) with (zlen buf) by (unfold buf; rewrite zlen_app, zlen_array_bytes; zl; lia).
    apply inplace_copy; [done| |unfold buf; rewrite zlen_app, zlen_array_bytes; zl; lia|done|by intros].
    apply Forall_app. split; [apply array_bytes_is_byte|apply (Forall_zeros 2)].
Qed.

(** The allocator of a string is asked for its bytes and the NUL, or for null. *)
Definition string_taken (a : Allocator) (v : option bytes) : Prop :=
  taken_by a (match v with Some str => zlen str + 1 | None => -1 end).

Lemma readString_decodes v a :
  converts_opt v -> string_taken a v -> (match v with Some str => zlen str < INT32_MAX | None => True end) ->
  decodes (AParcel_readString a) (encode string_ty (utf16_of v)) (Good v).
Proof.
  intros Hv [Hacc Hgive] Hl F s Hwf Hav. unfold AParcel_readString. wp_step. destruct v as [str|].
  2:{ unfold readString16Inplace. wp_step. wp_use (readInt32_decodes_ (-1)); [done|done|exact Hav|].
      intros r s1 [-> Hc]. change ((0 <=? -1) && _) with false. cbv iota. wp_step. rewrite Hacc. by wp_step. }
  cbn [utf16_of option_map] in *. change (encode string_ty _) with (string16_bytes (utf8_to_utf16 str)) in *.
  destruct Hv as [Hlen H16 Hbl Hback Hempty]. pose proof (avail_bound _ _ Hwf Hav) as Hb.
  pose proof (string16_bound (utf8_to_utf16 str)). pose proof (zlen_nonneg str).
  eapply readString16Inplace_ok; [done|exact Hav|lia|]. intros s1 off Hc Hr. wp_step.
  eapply load_chars_ok; [done|exact Hr|]. cbv zeta. rewrite Hback in *.
  replace (if zlen (utf8_to_utf16 str) =? 0 then 1 else utf16_to_utf8_length (utf8_to_utf16 str) + 1) with (zlen str + 1).
  2:{ zcase (zlen (utf8_to_utf16 str) =? 0); [|lia]. rewrite (Hempty (zlen_zero _ E)). done. }
  zdec (zlen str + 1 <=? 0). zdec (INT32_MAX <? zlen str + 1). rewrite Hacc, Hgive by lia. cbn [orb negb].
  wp_step. rewrite ztake_ge by lia. done.
Qed.

(** ** Arrays of strings *)

Lemma encode_strings v : encode strings_ty (option_map (map utf16_of) v) =
  match v with
  | Some vals => le_bytes 4 (zlen vals) ++ concat (map (fun x => encode string_ty (utf16_of x)) vals)
  | None => le_bytes 4 (-1)
  end.
Proof. destruct v as [vals|]; [|done]. cbn. by rewrite zlen_map, map_map. Qed.

Lemma write_strings_each vals : Forall converts_opt vals ->
  write_strings (map with_length vals) = write_each (fun v => AParcel_writeString v (length_of v)) vals.
Proof.
  induction 1 as [|v vals Hv _ IH]; [done|]. cbn [map write_strings with_length write_each]. rewrite IH.
  by destruct v.
Qed.

Lemma strings_len (vals : list (option bytes)) :
  zlen vals <= zlen (concat (map (fun x => encode string_ty (utf16_of x)) vals)).
Proof.
  induction vals as [|v vals IH]; [done|]. cbn [map concat]. zl. pose proof (encode_len string_ty (utf16_of v)). lia.
Qed.

Definition array_length {A} (v : option (list A)) : Z := length_of v.

Lemma writeStringArray_ok F s v :
  (match v with Some vals => Forall converts_opt vals | None => True end) -> wf (this s) ->
  fits (this s) (zlen (encode strings_ty (option_map (map utf16_of) v))) ->
  wpg F (AParcel_writeStringArray (map with_length (default [] v)) (length_of v)) s
    (data_post s (encode strings_ty (option_map (map utf16_of) v))).
Proof.
  intros Hv Hwf Hf. rewrite encode_strings in *. unfold AParcel_writeStringArray. destruct v as [vals|]; cbn [length_of default].
  2:{ by apply null_array_ok. }
  pose proof (zlen_nonneg vals). rewrite (proj2 (Z.ltb_ge _ _)) by done.
  apply sized_array_ok; [done|apply strings_len|by intros ->%zlen_zero|done|].
  intros s1 Hwf1 Hf1 Hpos. wp_step. rewrite <- (zlen_map with_length). apply elements_all. rewrite write_strings_each by done.
  eapply wpg_mono; [|intros; by apply data_weak_post]. rewrite Forall_forall in Hv.
  apply (write_each_ok F _ (fun x => encode string_ty (utf16_of x))); [|intros x; pose proof (encode_len string_ty (utf16_of x)); lia|done|done].
  intros x s2 Hin Hwf2 Hf2. apply writeString_ok; auto.
Qed.

Lemma read_strings_decodes (alloc : Z -> Allocator) vals : forall i,
  Forall converts_opt vals -> (forall j v, vals !! j = Some v -> string_taken (alloc (i + Z.of_nat j)) v) ->
  Forall (fun v => match v with Some str => zlen str < INT32_MAX | None => True end) vals ->
  decodes (read_strings alloc i (length vals)) (concat (map (fun x => encode string_ty (utf16_of x)) vals)) (Good vals).
Proof.
  induction vals as [|v vals IH]; intros i Hv Ht Hl; cbn [read_strings length map concat]; [apply decodes_ret|].
  inversion Hv; inversion Hl; subst. apply (decodes_res _ _ _ _ v).
  { apply readString_decodes; [done| |done]. specialize (Ht 0%nat v eq_refl). by rewrite Z.add_0_r in Ht. }
  rewrite <- (app_nil_r (concat _)). apply (decodes_res _ _ _ _ vals); [|apply decodes_ret].
  apply IH; [done| |done]. intros j x Hj. specialize (Ht (S j) x Hj). by replace (i + 1 + Z.of_nat j) with (i + Z.of_nat (S j)) by lia.
Qed.

Lemma readStringArray_decodes v a alloc :
  (match v with
   | Some vals => Forall converts_opt vals /\ (forall j x, vals !! j = Some x -> string_taken (alloc (Z.of_nat j)) x) /\
       Forall (fun x => match x with Some str => zlen str < INT32_MAX | None => True end) vals
   | None => True
   end) -> accepts a (length_of v) = true ->
  decodes (AParcel_readStringArray a alloc) (encode strings_ty (option_map (map utf16_of) v)) (Good v).
Proof.
  intros Hv Hacc F s Hwf Hav. pose proof (avail_bound _ _ Hwf Hav) as Hmax. rewrite encode_strings in *. unfold AParcel_readStringArray.
  destruct v as [vals|]; cbn [length_of] in *.
  2:{ rewrite <- (app_nil_r (le_bytes 4 (-1))) in Hav. eapply read_null; [done|exact Hav|]. intros s1 Hc. rewrite Hacc.
      change (-1 =? -1) with true. cbn [negb]. by wp_step. }
  destruct Hv as (Hv & Ht & Hl). pose proof (zlen_nonneg vals). pose proof (strings_len vals). rewrite zlen_app, zlen_le_bytes in *.
  apply wpg_bind_res. eapply array_size_read; [done|exact Hav|lia|lia|]. intros s1 Hc Hne Hav1. rewrite Hacc. cbn [negb].
  zdec (zlen vals =? -1). apply wpg_bind_res. unfold zlen at 1. rewrite Nat2Z.id.
  wp_use (read_strings_decodes alloc vals 0); [done|done|done|apply Hc|exact Hav1|].
  intros r s2 [-> Hc2]. wp_step. split; [done|]. by eapply consumed_app.
Qed.
End Strings.
End Arrays.

(** * Both libraries on one wire *)

Lemma write_then_read {A} s (w : M PS status_t) (r : M PS A) bs a :
  wf (this s) -> clear (this s) (zlen bs) -> ~ can_fail (world s) -> wp w s (data_post s bs) -> decodes r bs a ->
  wp (let* pos := getp dataPosition in
      let* st := w in
      setDataPosition pos ;;
      let* x := r in
      ret (st, x)) s (fun '(st, x) _ => st = OK /\ x = a).
Proof.
  intros Hwf Hcl Hmem Hw Hr. pose proof (ParcelInv.wf_pos _ Hwf). wp_steps.
  wp_use Hw. intros st s1 [_ [[-> Hw1]|[]]]; [|done]. wp_step. pose proof (zlen_nonneg bs).
  apply setDataPosition_ok; [apply Hw1|rewrite (wrote_size _ _ _ Hwf Hw1); unfold dataPosition; lia|].
  intros s2 _ Hwf2 Hp. wp_step. wp_use Hr; [done|exact (wrote_avail _ _ _ _ Hwf Hw1 Hcl Hp)|].
  intros x s3 [-> _]. by wp_step.
Qed.

Section Wire.
Context {K : Type} `{ParcelableLaws K}.

(** What is needed of the parcel for a value of [n] bytes. *)
Record place (s : PS) (n : Z) : Prop := {
  pl_wf : wf (this s);
  pl_fits : fits (this s) n;
  pl_clear : clear (this s) n;
  pl_memory : ~ can_fail (world s);
}.

(** C34: arrays pass between the NDK and the C++ library.  For every primitive type of
    the NDK and every array of it, null and empty ones included: what the NDK's write
    function puts into a parcel the C++ library reads as the nullable vector with the
    same elements, and what the C++ library writes for this vector the NDK's read
    function gives to an allocator that takes it. *)
Theorem ndk_and_cpp_arrays (p : prim) (v : option (list Z)) (a : Allocator) (s : PS) :
  ndk_prim p = true -> valid (array_ty (K := K) p) v -> taken_by a (length_of v) ->
  place s (zlen (encode (array_ty (K := K) p) v)) ->
  wp (let* pos := getp dataPosition in
      let* st := AParcel_writeArray p v (length_of v) in
      setDataPosition pos ;;
      let* x := readData (array_ty (K := K) p) in
      ret (st, x)) s (fun '(st, x) _ => st = OK /\ x = Good v) /\
  wp (let* pos := getp dataPosition in
      let* st := writeData (array_ty (K := K) p) v in
      setDataPosition pos ;;
      let* x := AParcel_readArray p a in
      ret (st, x)) s (fun '(st, x) _ => st = OK /\ x = Good v).
Proof.
  intros Hp Hv Ha [Hwf Hf Hcl Hmem]. split; (eapply write_then_read; [done|exact Hcl|done| |]).
  - by apply writeArray_ok.
  - by apply readData_decodes.
  - by apply writeData_ok.
  - by apply readArray_decodes.
Qed.

(** The same for arrays of strings, which are UTF-8 in the NDK and UTF-16 in C++; both
    the array and each string may be null. *)
Theorem ndk_and_cpp_strings `{UtfConversions} (v : option (list (option bytes))) (a : Allocator) (alloc : Z -> Allocator) (s : PS) :
  (match v with
   | Some vals => Forall converts_opt vals /\ (forall j x, vals !! j = Some x -> string_taken (alloc (Z.of_nat j)) x) /\
       Forall (fun x => match x with Some str => zlen str < INT32_MAX | None => True end) vals
   | None => True
   end) ->
  accepts a (length_of v) = true -> valid (strings_ty (K := K)) (option_map (map utf16_of) v) ->
  place s (zlen (encode (strings_ty (K := K)) (option_map (map utf16_of) v))) ->
  wp (let* pos := getp dataPosition in
      let* st := AParcel_writeStringArray (map with_length (default [] v)) (length_of v) in
      setDataPosition pos ;;
      let* x := readData (strings_ty (K := K)) in
      ret (st, x)) s (fun '(st, x) _ => st = OK /\ x = Good (option_map (map utf16_of) v)) /\
  wp (let* pos := getp dataPosition in
      let* st := writeData (strings_ty (K := K)) (option_map (map utf16_of) v) in
      setDataPosition pos ;;
      let* x := AParcel_readStringArray a alloc in
      ret (st, x)) s (fun '(st, x) _ => st = OK /\ x = Good v).
Proof.
  intros Hv Ha Hval [Hwf Hf Hcl Hmem]. split; (eapply write_then_read; [done|exact Hcl|done| |]).
  - apply writeStringArray_ok; [|done|done]. destruct v; [apply Hv|done].
  - by apply readData_decodes.
  - by apply writeData_ok.
  - by apply readStringArray_decodes.
Qed.
End Wire.

(** * Any data *)

Lemma array_size_safe : safe_read ReadAndValidateArraySize.
Proof.
  apply safe_bind_res; [apply pruned_safe, readInt32_safe|]. intros n. destruct (_ <? _); [apply safe_ret|].
  destruct (_ <=? _); [apply safe_ret|]. apply safe_bind; [|intros k; destruct (_ <? _); apply safe_ret].
  intros F s Hwf. apply dataAvail_ok; [done|]. by apply stays_refl.
Qed.

Lemma read_values_safe {A} (read : M PS (res A)) n : safe_read read -> safe_read (read_values read n).
Proof. intros Hr. rewrite read_values_each. by apply read_each_safe, pruned_safe. Qed.

Lemma readArray_safe p a : safe_read (AParcel_readArray p a).
Proof.
  assert (forall q, safe_read (ReadArray q a)) as Hpacked.
  { intros q. apply safe_bind_res; [apply array_size_safe|]. intros n. destruct (negb _); [apply safe_ret|].
    zcase (n <=? 0); [apply safe_ret|]. destruct (negb _); [apply safe_ret|].
    destruct (smul_overflow _ _) eqn:Eo; [apply safe_ret|]. pose proof (sizeof_bound q).
    unfold smul_overflow in Eo. apply negb_false_iff in Eo. zb. assert (is_s32 (Z.of_nat (sizeof q) * n)) as Hs by (rewrite <- Eo; apply s32_range).
    unfold is_s32 in Hs. rewrite u64_small by nia. apply safe_inplace; [nia| |apply safe_ret].
    intros F s off Hwf Ho Hf. unfold load_array. do 2 wp_step. apply load_ok; [nia..|]. do 2 wp_step. by apply stays_refl. }
  destruct p; try apply Hpacked; (apply safe_bind_res; [apply array_size_safe|]); intros n; (destruct (negb _); [apply safe_ret|]);
    (destruct (_ <=? _); [apply safe_ret|]).
  - apply safe_bind_res; [|intros; apply safe_ret]. apply read_values_safe. apply (readData_prim_safe Bool).
  - destruct (negb _); [apply safe_ret|]. destruct (smul_overflow _ _); [apply safe_ret|].
    apply safe_bind_res; [|intros; apply safe_ret]. apply read_values_safe. apply (readData_prim_safe Char16).
Qed.

Lemma readString_safe `{UtfConversions} a : safe_read (AParcel_readString a).
Proof.
  intros F s Hwf. unfold AParcel_readString. wp_step. wp_use readString16Inplace_safe; [done|].
  intros [[off len]|] s1 [H1 Ho]; [|by wp_step]. unfold load_chars. do 2 wp_step. apply load_ok; [lia..|]. wp_step. cbv zeta.
  destruct (_ || _); [by wp_step|]. destruct (_ || _); by wp_step.
Qed.

Lemma read_strings_safe `{UtfConversions} alloc n : forall i, safe_read (read_strings alloc i n).
Proof.
  induction n as [|n IH]; intros i; cbn [read_strings]; [apply safe_ret|].
  apply safe_bind_res; [apply readString_safe|]. intros v. apply safe_bind_res; [apply IH|]. intros. apply safe_ret.
Qed.

(** Whatever is in a well-formed parcel, reading an array, a string or an array of
    strings through the NDK returns, and stays inside the parcel. *)
Theorem ndk_reads_are_safe `{UtfConversions} p a alloc :
  safe_read (AParcel_readArray p a) /\ safe_read (AParcel_readString a) /\ safe_read (AParcel_readStringArray a alloc).
Proof.
  split; [apply readArray_safe|]. split; [apply readString_safe|].
  apply safe_bind_res; [apply array_size_safe|]. intros n. destruct (negb _); [apply safe_ret|].
  destruct (_ =? _); [apply safe_ret|]. apply safe_bind_res; [apply read_strings_safe|]. intros. apply safe_ret.
Qed.

(** * Arrays and strings of the NDK (NdkParcel.v) on concrete parcels, and where reading a
    string says less than it should *)

Definition takes_all : Allocator := mkAllocator (fun _ => true) (fun _ => true).

(** Conversions of ASCII. *)
#[local] Instance ascii : UtfConversions := {
  utf8_to_utf16_length str := zlen str;
  utf8_to_utf16 str := str;
  utf16_to_utf8_length str := zlen str;
  utf16_to_utf8 str := str;
}.

Lemma ndk_and_cpp_arrays_witness :
  wp (let* pos := getp dataPosition in
      let* st := AParcel_writeArray Char16 (Some [65; 8364]) 2 in
      setDataPosition pos ;;
      let* x := readData (array_ty (K := Empty_set) Char16) in
      ret (st, x)) Sample.fresh (fun '(st, x) _ => st = OK /\ x = Good (Some [65; 8364])) /\
  wp (let* pos := getp dataPosition in
      let* st := writeData (array_ty (K := Empty_set) Char16) (Some [65; 8364]) in
      setDataPosition pos ;;
      let* x := AParcel_readArray Char16 takes_all in
      ret (st, x)) Sample.fresh (fun '(st, x) _ => st = OK /\ x = Good (Some [65; 8364])).
Proof.
  apply (ndk_and_cpp_arrays (K := Empty_set) Char16 (Some [65; 8364]) takes_all Sample.fresh).
  - reflexivity.
  - repeat constructor; unfold is_u16; lia.
  - split; reflexivity.
  - split; [apply init_parcel_wf|by vm_compute|constructor|apply Sample.calm_allocates].
Defined.

Definition two_strings : option (list (option bytes)) := Some [Some [104; 105]; None].

Lemma ndk_and_cpp_strings_witness :
  wp (let* pos := getp dataPosition in
      let* st := AParcel_writeStringArray (map with_length (default [] two_strings)) (length_of two_strings) in
      setDataPosition pos ;;
      let* x := readData (strings_ty (K := Empty_set)) in
      ret (st, x)) Sample.fresh (fun '(st, x) _ => st = OK /\ x = Good (option_map (map utf16_of) two_strings)) /\
  wp (let* pos := getp dataPosition in
      let* st := writeData (strings_ty (K := Empty_set)) (option_map (map utf16_of) two_strings) in
      setDataPosition pos ;;
      let* x := AParcel_readStringArray takes_all (fun _ => takes_all) in
      ret (st, x)) Sample.fresh (fun '(st, x) _ => st = OK /\ x = Good two_strings).
Proof.
  assert (match two_strings with
   | Some vals => Forall converts_opt vals /\ (forall j x, vals !! j = Some x -> string_taken ((fun _ => takes_all) (Z.of_nat j)) x) /\
       Forall (fun x => match x with Some str => zlen str < INT32_MAX | None => True end) vals
   | None => True
   end) as H1.
  { split; [|split].
    + constructor; [|constructor; [exact I|constructor]].
      split; [reflexivity|repeat constructor; unfold is_u16; lia|reflexivity|reflexivity|discriminate].
    + intros j x _. split; reflexivity.
    + repeat constructor. }
  assert (valid (strings_ty (K := Empty_set)) (option_map (map utf16_of) two_strings)) as H2.
  { repeat constructor; unfold is_u16; lia. }
  assert (place Sample.fresh (zlen (encode (strings_ty (K := Empty_set)) (option_map (map utf16_of) two_strings)))) as H3.
  { split; [apply init_parcel_wf|by vm_compute|constructor|apply Sample.calm_allocates]. }
  exact (ndk_and_cpp_strings (K := Empty_set) two_strings takes_all (fun _ => takes_all) Sample.fresh H1 eq_refl H2 H3).
Defined.

(** A parcel that ends inside a string: the C++ library reports the missing data, the
    NDK reads a null string. *)
Definition truncated : PS := match (setData (le_bytes 4 5) 4) Sample.fresh with Ret _ s => s | _ => Sample.fresh end.
Example truncated_string_is_null :
  match (AParcel_readString takes_all) truncated, (readData (string_ty (K := Empty_set))) truncated with
  | Ret r _, Ret r' _ => r = Good None /\ match r' with Err _ => True | Good _ => False end
  | _, _ => False
  end.
Proof. vm_compute. split; [reflexivity|exact I]. Qed.

(** Five bytes come back as eight. *)
Example unmarshal_rounds_up :
  match (AParcel_unmarshal [1; 2; 3; 4; 5]) Sample.fresh with
  | Ret st s => (st, AParcel_getDataSize (this s)) = (OK, 8)
  | _ => False
  end.
Proof. vm_compute. reflexivity. Qed.
Example marshalled_again :
  match (AParcel_unmarshal [1; 2; 3; 4; 5] ;; AParcel_marshal 0 8) Sample.fresh with
  | Ret r _ => r = Good [1; 2; 3; 4; 5; 0; 0; 0]
  | _ => False
  end.
Proof. vm_compute. reflexivity. Qed.
