(* ===== verification/NdkDeath.v ===== *)
(** Death notifications of the NDK: AIBinder_DeathRecipient in
    src/libs/binder/ndk/ibinder.cpp and ibinder_internal.h.

    A call of [linkToDeath] makes a TransferDeathRecipient, a link.  Its recipient
    keeps it in [mDeathRecipients]; so does a thread that delivers a death while
    it runs [binderDied].  When nobody keeps it any more, its destructor calls the
    user's [onUnlinked].  A recipient lives while the user has it or a thread in
    [binderDied] has promoted it.

    Methods under [mDeathRecipientsMutex] are one step; [binderDied] is three: the
    user's callback, the unlinking, the end.  What the binder answers comes with
    the step. *)

From stdpp Require Import gmap sets.
From S2P Require Import Prelude Errors.

(** [onUnlinked] tells whether the user's callback was set when the link was made. *)
Record Link := mkLink {
  mWho : option Z;
  mCookie : Z;
  mParentRecipient : Z;
  mOnUnlinked : bool;
}.

Record Recipient := mkRecipient {
  mDeathRecipients : list Z;
  r_onUnlinked : bool;
  user_has : bool;
}.

(** A thread in [binderDied] of [link], for the binder [who]; [held] is the recipient it
    promoted. *)
Inductive Delivery :=
| Died (link who : Z)
| Unlinking (link : Z) (held : option Z).
Definition link_of (d : Delivery) : Z := match d with Died i _ | Unlinking i _ => i end.
Definition held_by (d : Delivery) : option Z := match d with Died _ _ => None | Unlinking _ h => h end.

(** What the user sees. *)
Inductive Callback :=
| onDied (link cookie : Z)
| onUnlinked (link cookie : Z).

(** [armed]: the links the binders will notify. *)
Record World := mkWorld {
  recipients : gmap Z Recipient;
  links : gmap Z Link;
  next_recipient : Z;
  next_link : Z;
  armed : gset Z;
  threads : gmap Z Delivery;
  callbacks : list Callback;
}.
Definition start : World := mkWorld ∅ ∅ 0 0 ∅ ∅ [].

Definition set_recipients x w :=
  mkWorld x (links w) (next_recipient w) (next_link w) (armed w) (threads w) (callbacks w).
Definition set_links x w :=
  mkWorld (recipients w) x (next_recipient w) (next_link w) (armed w) (threads w) (callbacks w).
Definition set_next_recipient x w :=
  mkWorld (recipients w) (links w) x (next_link w) (armed w) (threads w) (callbacks w).
Definition set_next x w :=
  mkWorld (recipients w) (links w) (next_recipient w) x (armed w) (threads w) (callbacks w).
Definition set_armed x w :=
  mkWorld (recipients w) (links w) (next_recipient w) (next_link w) x (threads w) (callbacks w).
Definition set_threads x w :=
  mkWorld (recipients w) (links w) (next_recipient w) (next_link w) (armed w) x (callbacks w).
Definition log x w :=
  mkWorld (recipients w) (links w) (next_recipient w) (next_link w) (armed w) (threads w) (callbacks w ++ [x]).

Definition recipient (r : Z) : M World Recipient := let* m := gets recipients in require (m !! r).
Definition link (i : Z) : M World Link := let* m := gets links in require (m !! i).
Definition put_recipient (r : Z) (x : Recipient) : M World unit :=
  modify (fun w => set_recipients (<[r := x]> (recipients w)) w).
Definition set_entries (l : list Z) (x : Recipient) : Recipient := mkRecipient l (r_onUnlinked x) (user_has x).

(** * Links *)

(** Whether a recipient or a thread keeps the link. *)
Definition kept (i : Z) (w : World) : bool :=
  bool_decide (map_Exists (fun _ x => i ∈ mDeathRecipients x) (recipients w)) ||
  bool_decide (map_Exists (fun _ d => link_of d = i) (threads w)).

(** [~TransferDeathRecipient], when nobody keeps it. *)
Definition release (i : Z) : M World unit :=
  let* w := get in
  if kept i w then ret tt else
  let* x := link i in
  modify (fun w => set_links (delete i (links w)) w) ;;
  if mOnUnlinked x then modify (log (onUnlinked i (mCookie x))) else ret tt.

Fixpoint release_all (l : list Z) : M World unit :=
  match l with
  | [] => ret tt
  | i :: l => release i ;; release_all l
  end.

(** The entries whose [getWho()] is null. *)
Definition is_dead (w : World) (i : Z) : bool :=
  match links w !! i with Some x => bool_decide (mWho x = None) | None => false end.

Definition pruneDeadTransferEntriesLocked (r : Z) : M World unit :=
  let* x := recipient r in
  let* w := get in
  put_recipient r (set_entries (List.filter (fun i => negb (is_dead w i)) (mDeathRecipients x)) x) ;;
  release_all (List.filter (is_dead w) (mDeathRecipients x)).

(** * The methods of AIBinder_DeathRecipient *)

Definition linkToDeath (r binder cookie : Z) (status : status_t) : M World status_t :=
  let* x := recipient r in
  let* i := gets next_link in
  modify (fun w => set_next (i + 1) (set_links (<[i := mkLink (Some binder) cookie r (r_onUnlinked x)]> (links w)) w)) ;;
  if negb (status =? OK) then release i ;; ret status else
  modify (fun w => set_armed ({[i]} ∪ armed w) w) ;;
  put_recipient r (set_entries (mDeathRecipients x ++ [i]) x) ;;
  pruneDeadTransferEntriesLocked r ;;
  ret OK.

(** The last entry that matches, and the others. *)
Fixpoint take_match (p : Z -> bool) (l : list Z) : option (Z * list Z) :=
  match l with
  | [] => None
  | i :: l =>
      match take_match p l with
      | Some (j, rest) => Some (j, i :: rest)
      | None => if p i then Some (i, l) else None
      end
  end.
Definition matches (w : World) (binder cookie i : Z) : bool :=
  match links w !! i with
  | Some x => (mCookie x =? cookie) && bool_decide (mWho x = Some binder)
  | None => false
  end.

(** The binder forgets the link when it answers [OK]. *)
Definition unlinkToDeath (r binder cookie : Z) (status : status_t) : M World status_t :=
  let* x := recipient r in
  let* w := get in
  match take_match (matches w binder cookie) (mDeathRecipients x) with
  | Some (i, rest) =>
      put_recipient r (set_entries rest x) ;;
      (if status =? OK then modify (fun w => set_armed (armed w ∖ {[i]}) w) else ret tt) ;;
      release i ;;
      ret status
  | None => ret NAME_NOT_FOUND
  end.

Definition setOnUnlinked (r : Z) (set : bool) : M World unit :=
  let* x := recipient r in put_recipient r (mkRecipient (mDeathRecipients x) set (user_has x)).

Definition AIBinder_DeathRecipient_new : M World Z :=
  let* r := gets next_recipient in
  modify (set_next_recipient (r + 1)) ;;
  put_recipient r (mkRecipient [] false true) ;;
  ret r.

(** Its destructor, when neither the user nor a thread has it any more. *)
Definition drop_recipient (r : Z) : M World unit :=
  let* x := recipient r in
  let* w := get in
  if user_has x || bool_decide (map_Exists (fun _ d => held_by d = Some r) (threads w)) then ret tt else
  modify (fun w => set_recipients (delete r (recipients w)) w) ;;
  release_all (mDeathRecipients x).

Definition AIBinder_DeathRecipient_delete (r : Z) : M World unit :=
  let* x := recipient r in
  put_recipient r (mkRecipient (mDeathRecipients x) (r_onUnlinked x) false) ;;
  drop_recipient r.

(** * [TransferDeathRecipient::binderDied], in steps *)

Definition died_begin (t i : Z) : M World unit :=
  let* x := link i in
  match mWho x with
  | None => fatal
  | Some who =>
      modify (fun w => set_armed (armed w ∖ {[i]}) (set_threads (<[t := Died i who]> (threads w)) w)) ;;
      modify (log (onDied i (mCookie x)))
  end.

(** [alive]: whether the binder can be promoted. *)
Definition died_unlink (t : Z) (alive : bool) (status : status_t) : M World unit :=
  let* m := gets threads in
  match m !! t with
  | Some (Died i who) =>
      let* x := link i in
      let* rs := gets recipients in
      match rs !! mParentRecipient x with
      | Some _ =>
          modify (fun w => set_threads (<[t := Unlinking i (Some (mParentRecipient x))]> (threads w)) w) ;;
          if alive then unlinkToDeath (mParentRecipient x) who (mCookie x) status ;; ret tt else ret tt
      | None => modify (fun w => set_threads (<[t := Unlinking i None]> (threads w)) w)
      end
  | _ => fault
  end.

Definition died_end (t : Z) : M World unit :=
  let* m := gets threads in
  match m !! t with
  | Some (Unlinking i held) =>
      let* x := link i in
      modify (fun w => set_threads (<[t := Unlinking i None]> (threads w))
        (set_links (<[i := mkLink None (mCookie x) (mParentRecipient x) (mOnUnlinked x)]> (links w)) w)) ;;
      (match held with Some r => drop_recipient r | None => ret tt end) ;;
      modify (fun w => set_threads (delete t (threads w)) w) ;;
      release i
  | _ => fault
  end.

(** * The process *)

Inductive Event :=
| New
| SetOnUnlinked (r : Z) (set : bool)
| LinkToDeath (r binder cookie : Z) (status : status_t)
| UnlinkToDeath (r binder cookie : Z) (status : status_t)
| DiedBegin (t i : Z)
| DiedUnlink (t : Z) (alive : bool) (status : status_t)
| DiedEnd (t : Z)
| Delete (r : Z).

Definition run_event (e : Event) : M World unit :=
  match e with
  | New => AIBinder_DeathRecipient_new ;; ret tt
  | SetOnUnlinked r set => setOnUnlinked r set
  | LinkToDeath r binder cookie status => linkToDeath r binder cookie status ;; ret tt
  | UnlinkToDeath r binder cookie status => unlinkToDeath r binder cookie status ;; ret tt
  | DiedBegin t i => died_begin t i
  | DiedUnlink t alive status => died_unlink t alive status
  | DiedEnd t => died_end t
  | Delete r => AIBinder_DeathRecipient_delete r
  end.
