(* ===== verification/NdkDeathProps.v ===== *)
(** The NDK's death notifications (NdkDeath.v) under any interleaving: every link is
    told of a death at most once, and of its end exactly once, in this order. *)

From stdpp Require Import gmap sets.
From S2P Require Import Prelude Errors NdkDeath.

(** * Calls that the interface allows *)

Definition has (r : Z) (w : World) : Prop := exists x, recipients w !! r = Some x /\ user_has x = true.

Definition allowed (w : World) (e : Event) : Prop :=
  match e with
  | New => True
  | SetOnUnlinked r _ | LinkToDeath r _ _ _ | UnlinkToDeath r _ _ _ | Delete r => has r w
  | DiedBegin t i => threads w !! t = None /\ i ∈ armed w /\ is_Some (links w !! i)
  | DiedUnlink t _ _ => exists i who, threads w !! t = Some (Died i who)
  | DiedEnd t => exists i held, threads w !! t = Some (Unlinking i held)
  end.

(** * The invariant *)

Definition about (i : Z) (c : Callback) : bool := match c with onDied j _ | onUnlinked j _ => j =? i end.
Definition callbacks_of (i : Z) (w : World) : list Callback := List.filter (about i) (callbacks w).

(** What a link's user has been told: of the death or not yet; and of the end. *)
Definition told (i : Z) (y : Link) (gone : bool) (l : list Callback) : Prop :=
  exists died : bool, l = (if died then [onDied i (mCookie y)] else []) ++
    (if gone && mOnUnlinked y then [onUnlinked i (mCookie y)] else []).

(** A link as it was made, and as it is. *)
Definition same_link (x y : Link) : Prop :=
  mCookie x = mCookie y /\ mParentRecipient x = mParentRecipient y /\ mOnUnlinked x = mOnUnlinked y.

(** [made] holds every link as it was made; the links of [D] may be kept by nobody. *)
Record inv (D : list Z) (made : gmap Z Link) (w : World) : Prop := {
  i_made : forall i, is_Some (made !! i) -> i < next_link w;
  i_armed_made : forall i, i ∈ armed w -> is_Some (made !! i);
  i_link : forall i x, links w !! i = Some x -> exists y, made !! i = Some y /\ same_link x y;
  i_kept : forall i, is_Some (links w !! i) -> i ∈ D \/ kept i w = true;
  i_entry : forall r x i, recipients w !! r = Some x -> i ∈ mDeathRecipients x ->
    exists y, links w !! i = Some y /\ mParentRecipient y = r;
  i_nodup : forall r x, recipients w !! r = Some x -> NoDup (mDeathRecipients x);
  i_fresh : forall r x, recipients w !! r = Some x -> r < next_recipient w;
  i_thread : forall t d, threads w !! t = Some d -> is_Some (links w !! link_of d) /\ (link_of d ∉ armed w) /\
    (forall r, held_by d = Some r -> is_Some (recipients w !! r));
  i_one : forall t t' d d', threads w !! t = Some d -> threads w !! t' = Some d' -> link_of d = link_of d' -> t = t';
  i_armed : forall i x, i ∈ armed w -> links w !! i = Some x -> mWho x <> None /\ callbacks_of i w = [];
  i_none : forall i, made !! i = None -> callbacks_of i w = [];
  i_told : forall i y, made !! i = Some y -> told i y (bool_decide (links w !! i = None)) (callbacks_of i w);
  i_present : forall i, i ∈ D -> is_Some (links w !! i);
  i_D : NoDup D;
}.

(** A recipient lives because its user has it or a thread holds it; but [e]. *)
Definition alive_but (e : option Z) (w : World) : Prop := forall r x, recipients w !! r = Some x -> Some r <> e ->
  user_has x = true \/ exists t d, threads w !! t = Some d /\ held_by d = Some r.

Lemma kept_spec i w : kept i w = true <->
  (exists r x, recipients w !! r = Some x /\ i ∈ mDeathRecipients x) \/ (exists t d, threads w !! t = Some d /\ link_of d = i).
Proof.
  unfold kept. rewrite orb_true_iff, !bool_decide_eq_true. unfold map_Exists. split; (intros [H|H]; [left|right]); naive_solver.
Qed.

Lemma callbacks_log i c w : callbacks_of i (log c w) = callbacks_of i w ++ (if about i c then [c] else []).
Proof. unfold callbacks_of. simpl. by rewrite List.filter_app. Qed.

Ltac fields :=
  cbn [recipients links next_recipient next_link armed threads callbacks set_recipients set_links set_next_recipient set_next
       set_armed set_threads log mDeathRecipients r_onUnlinked user_has set_entries mWho mCookie mParentRecipient mOnUnlinked] in *.

(** ** The end of a link *)

Lemma kept_same i w w' : recipients w' = recipients w -> threads w' = threads w -> kept i w' = kept i w.
Proof. intros E1 E2. unfold kept. by rewrite E1, E2. Qed.

Lemma end_link D made w w' i x :
  inv (i :: D) made w -> kept i w = false -> links w !! i = Some x ->
  recipients w' = recipients w -> threads w' = threads w -> armed w' = armed w ->
  next_recipient w' = next_recipient w -> next_link w' = next_link w -> links w' = delete i (links w) ->
  callbacks w' = callbacks w ++ (if mOnUnlinked x then [onUnlinked i (mCookie x)] else []) -> inv D made w'.
Proof.
  intros [H1 H2 H3 H4 H5 H6 H7 H9 H10 H11 H12 H13 H14 [Hi HD]%NoDup_cons] Ek Hx Er Et Ea Enr Enl El Ec.
  assert (forall r y, recipients w !! r = Some y -> i ∉ mDeathRecipients y) as Hnr.
  { intros r y Hr Hin. assert (kept i w = true); [apply kept_spec; left; eauto|congruence]. }
  assert (forall t d, threads w !! t = Some d -> link_of d <> i) as Hnt.
  { intros t d Ht E. assert (kept i w = true); [apply kept_spec; right; eauto|congruence]. }
  destruct (H3 i x Hx) as (y0 & Hy0 & Eck & Epr & Eun).
  assert (forall j, callbacks_of j w' = callbacks_of j w ++
    (if i =? j then (if mOnUnlinked x then [onUnlinked i (mCookie x)] else []) else [])) as Hcb.
  { intros j. unfold callbacks_of. rewrite Ec, List.filter_app. destruct (mOnUnlinked x); simpl; by destruct (i =? j). }
  split; rewrite ?Er, ?Et, ?Ea, ?Enr, ?Enl, ?El; try done.
  - intros j y [_ Hj]%lookup_delete_Some. eauto.
  - intros j [y [Hne Hj]%lookup_delete_Some]. rewrite (kept_same _ w) by done.
    destruct (H4 j) as [[->|?]%elem_of_cons|?]; [by eexists|done|by left|by right].
  - intros r y j Hr Hj. destruct (H5 r y j Hr Hj) as (z & Hz & Ep). exists z. rewrite lookup_delete_ne; [done|].
    intros ->. by eapply Hnr.
  - intros t d Ht. destruct (H9 t d Ht) as (E1 & E2 & E3). rewrite lookup_delete_ne by (intros E; by eapply Hnt). done.
  - intros j y Hj [Hne Hy]%lookup_delete_Some. rewrite Hcb. zcase (i =? j); [done|]. rewrite app_nil_r. by apply H11.
  - intros j Hj. rewrite Hcb, H12 by done. zcase (i =? j); [congruence|done].
  - intros j y Hy. rewrite Hcb. destruct (H13 j y Hy) as [died Hd]. rewrite Hd. exists died. zcase (i =? j).
    + subst j. assert (y = y0) as -> by congruence. rewrite lookup_delete_eq, Hx, (bool_decide_false (Some x = None)) by done.
      rewrite bool_decide_true, Eck, Eun by done. simpl. by rewrite app_nil_r.
    + rewrite lookup_delete_ne by done. by rewrite app_nil_r.
  - intros j Hj. rewrite lookup_delete_ne by (intros ->; done). apply H14. set_solver.
Qed.

Lemma release_inv D made w i :
  inv (i :: D) made w -> wp (release i) w (fun _ w' => inv D made w' /\
    recipients w' = recipients w /\ threads w' = threads w /\ armed w' = armed w /\
    (forall j x, links w' !! j = Some x -> links w !! j = Some x)).
Proof.
  intros Hi. unfold release. wp_step. wp_step. destruct (kept i w) eqn:Ek.
  { destruct Hi as [H1 H2 H3 H4 H5 H6 H7 H9 H10 H11 H12 H13 H14 [Hi HD]%NoDup_cons].
    wp_step. split; [|done]. split; try done.
    - intros j Hj. destruct (H4 j Hj) as [[->|?]%elem_of_cons|?]; auto.
    - intros j Hj. apply H14. set_solver. }
  destruct (i_present _ _ _ Hi i) as [x Hx]; [set_solver|].
  unfold link. wp_steps. rewrite Hx. repeat (wp_steps; fields).
  destruct (mOnUnlinked x) eqn:Eu; wp_step.
  - split; [|split_and!; try done; fields; by intros j y [_ ?]%lookup_delete_Some].
    eapply (end_link D made w _ i x); try done. fields. by rewrite Eu.
  - split; [|split_and!; try done; fields; by intros j y [_ ?]%lookup_delete_Some].
    eapply (end_link D made w _ i x); try done. fields. by rewrite Eu, app_nil_r.
Qed.

Lemma release_all_inv l : forall D made w,
  inv (l ++ D) made w -> wp (release_all l) w (fun _ w' => inv D made w' /\
    recipients w' = recipients w /\ threads w' = threads w /\ armed w' = armed w /\
    (forall j x, links w' !! j = Some x -> links w !! j = Some x)).
Proof.
  induction l as [|i l IH]; intros D made w Hi; cbn [release_all]; [by wp_step|]. wp_step. wp_use release_inv; [exact Hi|].
  intros _ w1 (Hi1 & Er1 & Et1 & Ea1 & El1). wp_use IH; [done|]. intros _ w2 (Hi2 & Er2 & Et2 & Ea2 & El2).
  split; [done|]. split_and!; [congruence..|auto].
Qed.

(** ** The lists of recipients *)

Lemma kept_entries i w r x l D :
  recipients w !! r = Some x -> mDeathRecipients x ≡ₚ l ++ D -> forall x', mDeathRecipients x' = l ->
  kept i w = true -> i ∈ D \/ kept i (set_recipients (<[r := x']> (recipients w)) w) = true.
Proof.
  intros Hr Hp x' El [(r' & y & Hr' & Hin)|(t & d & Ht & E)]%kept_spec.
  - destruct (decide (r' = r)) as [->|Hne].
    + assert (y = x) as -> by congruence. rewrite Hp in Hin. apply elem_of_app in Hin as [Hin|Hin]; [|by left].
      right. apply kept_spec. left. exists r, x'. fields. rewrite lookup_insert_eq, El. done.
    + right. apply kept_spec. left. exists r', y. fields. by rewrite lookup_insert_ne.
  - right. apply kept_spec. right. by exists t, d.
Qed.

Lemma entries_inv made w r x x' D :
  inv [] made w -> recipients w !! r = Some x -> mDeathRecipients x ≡ₚ mDeathRecipients x' ++ D ->
  inv D made (set_recipients (<[r := x']> (recipients w)) w).
Proof.
  intros [H1 H2 H3 H4 H5 H6 H7 H9 H10 H11 H12 H13 H14 H15] Hr Hp.
  pose proof (H6 r x Hr) as Hnd. rewrite Hp in Hnd. apply NoDup_app in Hnd as (Hl & Hdis & HD).
  split; fields; try done.
  - intros i Hi. destruct (H4 i Hi) as [?%elem_of_nil|Hk]; [done|]. by eapply kept_entries.
  - intros r' y i [[<- <-]|[_ Hr']]%lookup_insert_Some Hin; [|by eapply H5].
    apply (H5 r x i Hr). rewrite Hp. set_solver.
  - intros r' y [[<- <-]|[_ Hr']]%lookup_insert_Some; eauto.
  - intros r' y [[<- <-]|[_ Hr']]%lookup_insert_Some; eauto.
  - intros t d Ht. destruct (H9 t d Ht) as (E1 & E2 & E3). split_and!; [done|done|].
    intros r' Hh. apply lookup_insert_is_Some'. right. by apply E3.
  - intros i Hi. destruct (H5 r x i Hr) as (y & Hy & _); [rewrite Hp; set_solver|by eexists].
Qed.

Lemma remove_recipient_inv made w r x :
  inv [] made w -> recipients w !! r = Some x -> (forall t d, threads w !! t = Some d -> held_by d <> Some r) ->
  inv (mDeathRecipients x) made (set_recipients (delete r (recipients w)) w).
Proof.
  intros [H1 H2 H3 H4 H5 H6 H7 H9 H10 H11 H12 H13 H14 H15] Hr Hh.
  split; fields; try done; eauto.
  - intros i Hi. destruct (H4 i Hi) as [?%elem_of_nil|Hk]; [done|].
    apply kept_spec in Hk as [(r' & y & Hr' & Hin)|(t & d & Ht & E)].
    + destruct (decide (r' = r)) as [->|Hne]; [left; congruence|]. right. apply kept_spec. left. exists r', y. fields.
      by rewrite lookup_delete_ne.
    + right. apply kept_spec. right. by exists t, d.
  - intros r' y i [_ Hr']%lookup_delete_Some. by apply H5.
  - intros r' y [_ Hr']%lookup_delete_Some. eauto.
  - intros r' y [_ Hr']%lookup_delete_Some. eauto.
  - intros t d Ht. destruct (H9 t d Ht) as (E1 & E2 & E3). split_and!; [done|done|].
    intros r' Hd. rewrite lookup_delete_ne by (intros <-; by eapply Hh). by apply E3.
  - intros i Hi. destruct (H5 r x i Hr Hi) as (y & Hy & _). by eexists.
Qed.

Lemma disarm_inv D made w a : inv D made w -> a ⊆ armed w -> inv D made (set_armed a w).
Proof.
  intros [H1 H2 H3 H4 H5 H6 H7 H9 H10 H11 H12 H13 H14 H15] Ha. split; fields; try done.
  - intros i Hi. apply H2. set_solver.
  - intros t d Ht. destruct (H9 t d Ht) as (E1 & E2 & E3). split_and!; [done|set_solver|done].
  - intros i x Hi. apply H11. set_solver.
Qed.

(** ** The operations *)

Lemma take_match_perm p l i rest : take_match p l = Some (i, rest) -> l ≡ₚ rest ++ [i] /\ p i = true.
Proof.
  revert rest. induction l as [|j l IH]; intros rest; cbn [take_match]; [done|].
  destruct (take_match p l) as [[k rest']|]; [intros [= -> <-]; destruct (IH _ eq_refl) as [E ?]; split; [by rewrite E|done]|].
  destruct (p j) eqn:Ep; [|done]. intros [= -> ->]. split; [by rewrite Permutation_app_comm|done].
Qed.

Lemma death_unlink_inv made w r x binder cookie status :
  inv [] made w -> recipients w !! r = Some x ->
  wp (unlinkToDeath r binder cookie status) w (fun _ w' => inv [] made w' /\ threads w' = threads w /\
    (forall e, alive_but e w -> alive_but e w')).
Proof.
  intros Hi Hr. unfold unlinkToDeath, recipient, put_recipient. wp_steps. rewrite Hr. repeat (wp_steps; fields).
  destruct (take_match _ _) as [[i rest]|] eqn:Et; [|by wp_steps].
  destruct (take_match_perm _ _ _ _ Et) as [Hp _]. repeat (wp_steps; fields).
  pose proof (entries_inv made w r x (set_entries rest x) [i] Hi Hr Hp) as Hi1.
  set (w1 := set_recipients _ w) in *.
  assert (forall e, alive_but e w -> alive_but e w1) as Hal.
  { intros e Ha r' y. subst w1. fields. intros [[<- <-]|[_ Hr']]%lookup_insert_Some He; [fields; by apply (Ha r x)|by apply (Ha r' y)]. }
  destruct (status =? OK); repeat (wp_steps; fields).
  - assert (inv [i] made (set_armed (armed w ∖ {[i]}) w1)) as Hi2 by (apply disarm_inv; [done|subst w1; fields; set_solver]).
    wp_use release_inv; [exact Hi2|]. intros _ w' (Hi' & Er & Eth & _ & _). wp_steps. split_and!; [done|done|].
    intros e Ha r' y Hr' He. rewrite Er in Hr'. rewrite Eth. by apply (Hal e Ha r' y).
  - wp_use release_inv; [exact Hi1|]. intros _ w' (Hi' & Er & Eth & _ & _). wp_steps. split_and!; [done|done|].
    intros e Ha r' y Hr' He. rewrite Er in Hr'. rewrite Eth. by apply (Hal e Ha r' y).
Qed.

Lemma drop_inv made w r x :
  inv [] made w -> alive_but (Some r) w -> recipients w !! r = Some x ->
  wp (drop_recipient r) w (fun _ w' => inv [] made w' /\ alive_but None w' /\ threads w' = threads w /\
    (forall i y, links w' !! i = Some y -> links w !! i = Some y)).
Proof.
  intros Hi Ha Hr. unfold drop_recipient, recipient. wp_steps. rewrite Hr. repeat (wp_steps; fields).
  destruct (user_has x || _) eqn:E.
  - wp_step. split; [done|]. split; [|done]. intros r' y Hr' _. destruct (decide (r' = r)) as [->|Hne]; [|apply Ha; congruence].
    assert (y = x) as -> by congruence. apply orb_prop in E as [E|E]; [by left|right].
    apply bool_decide_eq_true in E as (t & d & Ht & Hd). by exists t, d.
  - apply orb_false_iff in E as [Eu E]. apply bool_decide_eq_false in E. repeat (wp_steps; fields).
    wp_use (release_all_inv (mDeathRecipients x) [] made).
    + rewrite app_nil_r. apply remove_recipient_inv; [done|done|]. intros t d Ht Hd. apply E. by exists t, d.
    + fields. intros _ w' (Hi' & Er & Et & _ & El). split; [done|]. split; [|done].
      intros r' y Hr' _. rewrite Er in Hr'. rewrite Et. apply lookup_delete_Some in Hr' as [Hne Hr']. apply (Ha r' y Hr'). congruence.
Qed.

(** A new link, kept by nobody yet. *)
Lemma new_link_inv made w r x binder cookie :
  inv [] made w -> recipients w !! r = Some x ->
  let y := mkLink (Some binder) cookie r (r_onUnlinked x) in
  let w' := set_next (next_link w + 1) (set_links (<[next_link w := y]> (links w)) w) in
  inv [next_link w] (<[next_link w := y]> made) w' /\ callbacks_of (next_link w) w' = [] /\ (next_link w ∉ armed w) /\
  (forall t d, threads w !! t = Some d -> link_of d <> next_link w).
Proof.
  intros [H1 H2 H3 H4 H5 H6 H7 H9 H10 H11 H12 H13 H14 H15] Hr y w'. set (i := next_link w) in *.
  assert (made !! i = None) as Hi.
  { destruct (made !! i) eqn:E; [|done]. assert (i < i) by (apply H1; eauto). lia. }
  assert (links w !! i = None) as Hl.
  { destruct (links w !! i) as [z|] eqn:E; [|done]. destruct (H3 i z E) as (? & ? & _). congruence. }
  assert (forall j z, links w !! j = Some z -> j <> i) as Hne by congruence.
  assert (i ∉ armed w) as Hna. { intros [? ?]%H2. congruence. }
  assert (forall t d, threads w !! t = Some d -> link_of d <> i) as Hnt.
  { intros t d Ht E. destruct (H9 t d Ht) as ([? ?] & _). congruence. }
  split; [|split_and!; [by apply H12|done|done]]. split; subst w'; fields; try done.
  - intros j [<-|[_ Hj]]%lookup_insert_is_Some; [subst i; lia|]. specialize (H1 j Hj). lia.
  - intros j Hj. apply lookup_insert_is_Some'. right. by apply H2.
  - intros j z [[<- <-]|[_ Hj]]%lookup_insert_Some; [exists y; by rewrite lookup_insert_eq|].
    rewrite lookup_insert_ne by (apply not_eq_sym; eauto). by apply H3.
  - intros j [<-|[_ Hj]]%lookup_insert_is_Some; [left; set_solver|]. right. destruct (H4 j Hj) as [?%elem_of_nil|?]; [done|].
    by rewrite (kept_same _ w).
  - intros r' z j Hr' Hj. destruct (H5 r' z j Hr' Hj) as (u & Hu & Ep). exists u.
    rewrite lookup_insert_ne by (apply not_eq_sym; eauto). done.
  - intros t d Ht. destruct (H9 t d Ht) as (E1 & E2 & E3). rewrite lookup_insert_ne by (apply not_eq_sym; eauto). done.
  - intros j z Hj. assert (j <> i) by congruence. rewrite lookup_insert_ne by done. by apply H11.
  - intros j [Hne' Hj]%lookup_insert_None. by apply H12.
  - intros j z [[<- <-]|[Hne' Hj]]%lookup_insert_Some.
    + exists false. rewrite lookup_insert_eq, bool_decide_false by done. by apply H12.
    + rewrite lookup_insert_ne by done. by apply H13.
  - intros j [->|?%elem_of_nil]%elem_of_cons; [|done]. rewrite lookup_insert_eq. by eexists.
  - by apply NoDup_singleton.
Qed.

(** Its recipient takes it, and its binder will tell it. *)
Lemma adopt_inv made w r x i y :
  inv [i] made w -> recipients w !! r = Some x -> links w !! i = Some y -> mParentRecipient y = r -> mWho y <> None ->
  callbacks_of i w = [] -> (i ∉ mDeathRecipients x) -> (forall t d, threads w !! t = Some d -> link_of d <> i) ->
  inv [] made (set_recipients (<[r := set_entries (mDeathRecipients x ++ [i]) x]> (recipients w)) (set_armed ({[i]} ∪ armed w) w)).
Proof.
  intros [H1 H2 H3 H4 H5 H6 H7 H9 H10 H11 H12 H13 H14 H15] Hr Hl Hp Hw Hc Hni Hnt.
  split; fields; try done; [..|constructor].
  - intros j [->%elem_of_singleton|Hj]%elem_of_union; [|by apply H2]. destruct (H3 i y Hl) as (z & Hz & _). by eexists.
  - intros j Hj. right. apply kept_spec. fields. destruct (H4 j Hj) as [->%list_elem_of_singleton|Hk].
    + left. exists r, (set_entries (mDeathRecipients x ++ [i]) x). rewrite lookup_insert_eq. split; [done|]. fields. set_solver.
    + apply kept_spec in Hk as [(r' & z & Hr' & Hin)|?]; [left|by right]. destruct (decide (r' = r)) as [->|Hne].
      * exists r, (set_entries (mDeathRecipients x ++ [i]) x). rewrite lookup_insert_eq. split; [done|]. fields.
        assert (z = x) as -> by congruence. set_solver.
      * exists r', z. by rewrite lookup_insert_ne.
  - intros r' z j [[<- <-]|[_ Hr']]%lookup_insert_Some Hin; [|by eapply H5]. fields.
    apply elem_of_app in Hin as [Hin| ->%list_elem_of_singleton]; [by eapply H5|by exists y].
  - intros r' z [[<- <-]|[_ Hr']]%lookup_insert_Some; [|by eapply H6]. fields. apply NoDup_app. split_and!; [by eapply H6| |by apply NoDup_singleton].
    intros j Hj ->%list_elem_of_singleton. done.
  - intros r' z [[<- <-]|[_ Hr']]%lookup_insert_Some; eauto.
  - intros t d Ht. destruct (H9 t d Ht) as (E1 & E2 & E3). split_and!; [done| |].
    + intros [E%elem_of_singleton|?]%elem_of_union; [by eapply Hnt|done].
    + intros r' Hd. apply lookup_insert_is_Some'. right. by apply E3.
  - intros j z [->%elem_of_singleton|Hj]%elem_of_union Hz; [|by apply H11]. split; [congruence|done].
  - by intros j ?%elem_of_nil.
Qed.

Lemma split_filter {A} (p : A -> bool) l : l ≡ₚ List.filter (fun i => negb (p i)) l ++ List.filter p l.
Proof.
  induction l as [|a l IH]; [done|]. cbn. destruct (p a); cbn; [by rewrite <- Permutation_middle, <- IH|by rewrite <- IH].
Qed.

Lemma prune_inv made w r x :
  inv [] made w -> recipients w !! r = Some x ->
  wp (pruneDeadTransferEntriesLocked r) w (fun _ w' => inv [] made w' /\ threads w' = threads w /\
    (forall e, alive_but e w -> alive_but e w')).
Proof.
  intros Hi Hr. unfold pruneDeadTransferEntriesLocked, recipient, put_recipient. wp_steps. rewrite Hr. repeat (wp_steps; fields).
  wp_use (release_all_inv _ [] made).
  { rewrite app_nil_r. eapply entries_inv; [done|done|]. apply split_filter. }
  fields. intros _ w' (Hi' & Er & Et & _ & _). split; [done|]. split; [done|].
  intros e Ha r' y Hr' He. rewrite Er in Hr'. rewrite Et.
  apply lookup_insert_Some in Hr' as [[<- <-]|[_ Hr']]; [by apply (Ha r x)|by apply (Ha r' y)].
Qed.

Definition made_by (e : Event) (w : World) (made : gmap Z Link) : gmap Z Link :=
  match e with
  | LinkToDeath r binder cookie _ =>
      match recipients w !! r with
      | Some x => <[next_link w := mkLink (Some binder) cookie r (r_onUnlinked x)]> made
      | None => made
      end
  | _ => made
  end.

Lemma death_link_inv made w r binder cookie status :
  inv [] made w -> alive_but None w -> has r w ->
  wp (linkToDeath r binder cookie status) w (fun _ w' =>
    inv [] (made_by (LinkToDeath r binder cookie status) w made) w' /\ alive_but None w').
Proof.
  intros Hi Ha (x & Hr & Hu). cbn [made_by]. rewrite Hr.
  destruct (new_link_inv made w r x binder cookie Hi Hr) as (Hi1 & Hc & Hna & Hnt).
  unfold linkToDeath, recipient, put_recipient. wp_steps. rewrite Hr. repeat (wp_steps; fields).
  destruct (negb _); repeat (wp_steps; fields).
  - wp_use release_inv; [exact Hi1|]. intros _ w' (Hi' & Er & Et & _ & _). wp_step. split; [done|].
    intros r' y Hr' _. rewrite Er in Hr'. rewrite Et. by apply (Ha r' y).
  - assert (next_link w ∉ mDeathRecipients x) as Hni.
    { intros Hin. destruct (i_entry _ _ _ Hi r x _ Hr Hin) as (y & Hy & _). destruct (i_link _ _ _ Hi _ _ Hy) as (z & Hz & _).
      pose proof (i_made _ _ _ Hi _ (ex_intro _ z Hz)). lia. }
    wp_use (prune_inv (<[next_link w := mkLink (Some binder) cookie r (r_onUnlinked x)]> made)).
    + eapply (adopt_inv _ _ r x (next_link w) _ Hi1 Hr); fields; [by rewrite lookup_insert_eq|done|done|done|done|done].
    + fields. by rewrite lookup_insert_eq.
    + intros _ w' (Hi' & Et & Hal). wp_step. split; [done|]. apply Hal. intros r' y Hr' _. fields.
      apply lookup_insert_Some in Hr' as [[<- <-]|[_ Hr']]; [by left|by apply (Ha r' y)].
Qed.

(** ** A death *)

Lemma about_died i j c : about i (onDied j c) = (j =? i).
Proof. done. Qed.

Lemma died_begin_inv made w t i :
  inv [] made w -> alive_but None w -> allowed w (DiedBegin t i) ->
  wp (died_begin t i) w (fun _ w' => inv [] made w' /\ alive_but None w').
Proof.
  intros [H1 H2 H3 H4 H5 H6 H7 H9 H10 H11 H12 H13 H14 H15] Hal (Ht & Hia & [x Hx]).
  destruct (H11 i x Hia Hx) as [Hw Hc]. unfold died_begin, link. wp_steps. rewrite Hx. repeat (wp_steps; fields).
  destruct (mWho x) as [who|] eqn:Ew; [|done]. repeat (wp_steps; fields).
  set (w1 := set_armed _ _). assert (forall j, callbacks_of j (log (onDied i (mCookie x)) w1) =
    callbacks_of j w ++ (if i =? j then [onDied i (mCookie x)] else [])) as Hcb by (intros j; by rewrite callbacks_log).
  assert (forall t' d, threads w !! t' = Some d -> link_of d <> i) as Hnt.
  { intros t' d Ht' E. destruct (H9 t' d Ht') as (_ & Hna & _). congruence. }
  split.
  - split; fields; try done; subst w1; fields; try done.
    + intros j Hj. apply H2. set_solver.
    + intros j Hj. right. apply kept_spec. fields. destruct (H4 j Hj) as [?%elem_of_nil|Hk]; [done|].
      apply kept_spec in Hk as [?|(t' & d & Ht' & E)]; [by left|right]. exists t', d. rewrite lookup_insert_ne by congruence. done.
    + intros t' d [[<- <-]|[_ Ht']]%lookup_insert_Some; [|destruct (H9 t' d Ht') as (E1 & E2 & E3); split_and!; [done|set_solver|done]].
      split_and!; [by eexists|set_solver|done].
    + intros t1 t2 d1 d2 [[<- <-]|[_ Ht1]]%lookup_insert_Some [[<- <-]|[_ Ht2]]%lookup_insert_Some; [done| | |by apply H10].
      * intros E. by destruct (Hnt t2 d2 Ht2).
      * intros E. by destruct (Hnt t1 d1 Ht1).
    + intros j y [Hj Hne]%elem_of_difference Hy. rewrite Hcb. zcase (i =? j); [set_solver|]. rewrite app_nil_r. by apply H11.
    + intros j Hj. rewrite Hcb, H12 by done. zcase (i =? j); [|done]. destruct (H3 i x Hx) as (? & ? & _). congruence.
    + intros j y Hj. rewrite Hcb. zcase (i =? j); [subst j|rewrite app_nil_r; by apply H13]. exists true.
      destruct (H3 i x Hx) as (z & Hz & Eck & _). rewrite Hx, bool_decide_false, Hc by done. simpl. congruence.
  - intros r y Hr He. destruct (Hal r y Hr He) as [?|(t' & d & Ht' & Hd)]; [by left|right]. exists t', d. subst w1. fields.
    rewrite lookup_insert_ne by congruence. done.
Qed.

(** A thread goes on with its link, and holds what is there. *)
Lemma thread_inv made w t d d' x :
  inv [] made w -> threads w !! t = Some d -> link_of d' = link_of d -> (forall r, held_by d' = Some r -> is_Some (recipients w !! r)) ->
  links w !! link_of d = Some x -> forall y, same_link y x ->
  inv [] made (set_threads (<[t := d']> (threads w)) (set_links (<[link_of d := y]> (links w)) w)).
Proof.
  intros [H1 H2 H3 H4 H5 H6 H7 H9 H10 H11 H12 H13 H14 H15] Ht El Hh Hx y (Eck & Epr & Eun). set (i := link_of d) in *.
  destruct (H9 t d Ht) as (_ & Hna & _). fold i in Hna.
  assert (forall j, is_Some (<[i := y]> (links w) !! j) <-> is_Some (links w !! j)) as Hsome.
  { intros j. rewrite lookup_insert_is_Some'. split; [intros [<-|?]; [by eexists|done]|by right]. }
  split; fields; try done.
  - intros j z [[<- <-]|[_ Hj]]%lookup_insert_Some; [|by apply H3]. destruct (H3 i x Hx) as (z & Hz & E1 & E2 & E3).
    exists z. split; [done|]. split_and!; congruence.
  - intros j Hj%Hsome. right. apply kept_spec. fields. destruct (H4 j Hj) as [?%elem_of_nil|Hk]; [done|].
    apply kept_spec in Hk as [?|(t' & d1 & Ht' & E)]; [by left|right]. destruct (decide (t' = t)) as [->|Hne].
    + exists t, d'. rewrite lookup_insert_eq. split; [done|]. subst i. congruence.
    + exists t', d1. by rewrite lookup_insert_ne.
  - intros r z j Hr Hj. destruct (H5 r z j Hr Hj) as (u & Hu & Ep). destruct (decide (j = i)) as [->|Hne].
    + exists y. rewrite lookup_insert_eq. split; [done|]. congruence.
    + exists u. by rewrite lookup_insert_ne.
  - intros t' d1 [[<- <-]|[_ Ht']]%lookup_insert_Some; rewrite Hsome; [|by apply (H9 t')].
    rewrite El. split_and!; [by eexists|done|done].
  - intros t1 t2 d1 d2 [[<- <-]|[_ Ht1]]%lookup_insert_Some [[<- <-]|[_ Ht2]]%lookup_insert_Some; [done| | |by apply H10].
    + intros E. apply (H10 t t2 d d2); [done|done|]. by rewrite <- E, El.
    + intros E. apply (H10 t1 t d1 d); [done|done|]. by rewrite E, El.
  - intros j z Hj [[<- <-]|[_ Hz]]%lookup_insert_Some; [done|by apply (H11 j z)].
  - intros j z Hj. change (callbacks_of j _) with (callbacks_of j w). destruct (H13 j z Hj) as [died E]. exists died.
    rewrite E. destruct (decide (j = i)) as [->|Hne]; [|by rewrite lookup_insert_ne].
    rewrite lookup_insert_eq, Hx. rewrite !bool_decide_false by done. done.
  - intros j Hj%elem_of_nil. done.
Qed.

Lemma thread_leaves_inv made w t d :
  inv [] made w -> threads w !! t = Some d -> inv [link_of d] made (set_threads (delete t (threads w)) w).
Proof.
  intros [H1 H2 H3 H4 H5 H6 H7 H9 H10 H11 H12 H13 H14 H15] Ht. split; fields; try done; [..|by apply NoDup_singleton].
  - intros j Hj. destruct (H4 j Hj) as [?%elem_of_nil|Hk]; [done|].
    apply kept_spec in Hk as [?|(t' & d' & Ht' & E)]; [right; apply kept_spec; by left|]. destruct (decide (t' = t)) as [->|Hne].
    + left. assert (d' = d) as -> by congruence. set_solver.
    + right. apply kept_spec. right. exists t', d'. fields. by rewrite lookup_delete_ne.
  - intros t' d' [_ Ht']%lookup_delete_Some. by apply (H9 t').
  - intros t1 t2 d1 d2 [_ Ht1]%lookup_delete_Some [_ Ht2]%lookup_delete_Some. by apply H10.
  - intros j ->%list_elem_of_singleton. by destruct (H9 t d Ht).
Qed.

Lemma died_unlink_inv made w t alive status :
  inv [] made w -> alive_but None w -> allowed w (DiedUnlink t alive status) ->
  wp (died_unlink t alive status) w (fun _ w' => inv [] made w' /\ alive_but None w').
Proof.
  intros Hi Hal (i & who & Ht). destruct (i_thread _ _ _ Hi t _ Ht) as ([x Hx] & _). change (links w !! i = Some x) in Hx.
  assert (set_links (<[i := x]> (links w)) w = w) as Hsame by (destruct w; unfold set_links; fields; by rewrite insert_id).
  assert (forall h, (forall r, h = Some r -> is_Some (recipients w !! r)) ->
    inv [] made (set_threads (<[t := Unlinking i h]> (threads w)) w)) as Hstep.
  { intros h Hh. rewrite <- Hsame at 2. by apply (thread_inv made w t (Died i who) (Unlinking i h) x). }
  assert (forall h, alive_but None (set_threads (<[t := Unlinking i h]> (threads w)) w)) as Hal'.
  { intros h r y Hr He. destruct (Hal r y Hr He) as [?|(t' & d & Ht' & Hd)]; [by left|right]. exists t', d. fields.
    rewrite lookup_insert_ne; [done|]. intros <-. rewrite Ht in Ht'. by injection Ht' as <-. }
  unfold died_unlink, link. wp_steps. rewrite Ht. repeat (wp_steps; fields). rewrite Hx. repeat (wp_steps; fields).
  destruct (recipients w !! mParentRecipient x) as [p|] eqn:Ep; repeat (wp_steps; fields).
  - assert (inv [] made (set_threads (<[t := Unlinking i (Some (mParentRecipient x))]> (threads w)) w)) as Hi1.
    { apply Hstep. intros r [= <-]. by eexists. }
    destruct alive; repeat (wp_steps; fields); [|by auto].
    wp_use (death_unlink_inv made); [exact Hi1|exact Ep|]. intros _ w' (Hi' & _ & Ha). wp_step. auto.
  - split; [by apply Hstep|apply Hal'].
Qed.

Lemma died_end_inv made w t :
  inv [] made w -> alive_but None w -> allowed w (DiedEnd t) ->
  wp (died_end t) w (fun _ w' => inv [] made w' /\ alive_but None w').
Proof.
  intros Hi Hal (i & held & Ht). destruct (i_thread _ _ _ Hi t _ Ht) as ([x Hx] & _ & Hh). change (links w !! i = Some x) in Hx. change (forall r, held = Some r -> is_Some (recipients w !! r)) in Hh.
  unfold died_end, link. wp_steps. rewrite Ht. repeat (wp_steps; fields). rewrite Hx. repeat (wp_steps; fields).
  set (w1 := set_threads _ _).
  assert (inv [] made w1) as Hi1 by by apply (thread_inv made w t (Unlinking i held) (Unlinking i None) x).
  assert (alive_but held w1) as Ha1.
  { intros r y Hr He. destruct (Hal r y Hr) as [?|(t' & d & Ht' & Hd)]; [done|by left|right]. exists t', d. subst w1. fields.
    rewrite lookup_insert_ne; [done|]. intros <-. rewrite Ht in Ht'. injection Ht' as <-. done. }
  assert (wp (match held with Some r => drop_recipient r | None => ret tt end) w1 (fun _ w' =>
    inv [] made w' /\ alive_but None w' /\ threads w' = threads w1)) as Hd.
  { destruct held as [r|]; [|by wp_step]. destruct (Hh r eq_refl) as [y Hy].
    wp_use drop_inv; [done|done|exact Hy|]. by intros _ w' (? & ? & ? & _). }
  wp_use Hd. intros _ w2 (Hi2 & Ha2 & Et2). wp_steps.
  assert (threads w2 !! t = Some (Unlinking i None)) as Ht2 by (rewrite Et2; subst w1; fields; by rewrite lookup_insert_eq).
  wp_use release_inv; [exact (thread_leaves_inv _ _ _ _ Hi2 Ht2)|]. intros _ w' (Hi' & Er & Et & _ & _). split; [done|].
  intros r y Hr He. rewrite Er in Hr. rewrite Et. destruct (Ha2 r y Hr He) as [?|(t' & d & Ht' & Hd')]; [by left|right].
  exists t', d. fields. rewrite lookup_delete_ne; [done|]. intros <-. rewrite Ht2 in Ht'. by injection Ht' as <-.
Qed.

Lemma delete_inv made w r :
  inv [] made w -> alive_but None w -> has r w ->
  wp (AIBinder_DeathRecipient_delete r) w (fun _ w' => inv [] made w' /\ alive_but None w').
Proof.
  intros Hi Hal (x & Hr & _). unfold AIBinder_DeathRecipient_delete, recipient, put_recipient. wp_steps. rewrite Hr. repeat (wp_steps; fields).
  wp_use (drop_inv made).
  - eapply (entries_inv made w r x _ [] Hi Hr). fields. by rewrite app_nil_r.
  - intros r' y. fields. intros [[<- <-]|[_ Hr']]%lookup_insert_Some He; [done|]. by apply (Hal r' y).
  - fields. by rewrite lookup_insert_eq.
  - by intros _ w' (? & ? & _).
Qed.

Lemma set_unlinked_inv made w r set :
  inv [] made w -> alive_but None w -> has r w ->
  wp (setOnUnlinked r set) w (fun _ w' => inv [] made w' /\ alive_but None w').
Proof.
  intros Hi Hal (x & Hr & Hu). unfold setOnUnlinked, recipient, put_recipient. wp_steps. rewrite Hr. repeat (wp_steps; fields).
  split.
  - eapply (entries_inv made w r x _ [] Hi Hr). fields. by rewrite app_nil_r.
  - intros r' y. fields. intros [[<- <-]|[_ Hr']]%lookup_insert_Some He; [by left|]. by apply (Hal r' y).
Qed.

Lemma new_inv made w :
  inv [] made w -> alive_but None w -> wp AIBinder_DeathRecipient_new w (fun _ w' => inv [] made w' /\ alive_but None w').
Proof.
  intros Hi Hal. unfold AIBinder_DeathRecipient_new, put_recipient. repeat (wp_steps; fields). set (r := next_recipient w).
  assert (recipients w !! r = None) as Hn.
  { destruct (recipients w !! r) eqn:E; [|done]. pose proof (i_fresh _ _ _ Hi _ _ E). lia. }
  split; [|intros r' y; fields; intros [[<- <-]|[_ Hr']]%lookup_insert_Some He; [by left|by apply (Hal r' y)]].
  destruct Hi as [H1 H2 H3 H4 H5 H6 H7 H9 H10 H11 H12 H13 H14 H15]. split; fields; try done.
  - intros i Hi. right. apply kept_spec. fields. destruct (H4 i Hi) as [?%elem_of_nil|Hk]; [done|].
    apply kept_spec in Hk as [(r' & y & Hr' & Hin)|?]; [left|by right]. exists r', y. rewrite lookup_insert_ne by congruence. done.
  - intros r' y i [[<- <-]|[_ Hr']]%lookup_insert_Some Hin; [by apply elem_of_nil in Hin|by eapply H5].
  - intros r' y [[<- <-]|[_ Hr']]%lookup_insert_Some; [constructor|by eapply H6].
  - intros r' y [[<- <-]|[_ Hr']]%lookup_insert_Some; [subst r; lia|]. pose proof (H7 _ _ Hr'). lia.
  - intros t d Ht. destruct (H9 t d Ht) as (E1 & E2 & E3). split_and!; [done|done|]. intros r' Hd.
    apply lookup_insert_is_Some'. right. by apply E3.
Qed.

(** * Every interleaving *)

(** A run, with the links it made. *)
Inductive reachable : gmap Z Link -> World -> Prop :=
| reach_start : reachable ∅ start
| reach_step made w e w' :
    reachable made w -> allowed w e -> run_event e w = Ret tt w' -> reachable (made_by e w made) w'.

Lemma run_event_ok made w e :
  inv [] made w -> alive_but None w -> allowed w e ->
  wp (run_event e) w (fun _ w' => inv [] (made_by e w made) w' /\ alive_but None w').
Proof.
  intros Hi Hal He. destruct e as [|r set|r b c st|r b c st|t i|t alive st|t|r]; cbn [run_event].
  - wp_step. wp_use new_inv; [done..|]. intros. by wp_step.
  - by apply set_unlinked_inv.
  - wp_step. wp_use death_link_inv; [done..|]. intros. by wp_step.
  - wp_step. destruct He as (x & Hr & Hu). wp_use (death_unlink_inv made); [done..|]. intros _ w' (Hi' & _ & Ha). wp_step. auto.
  - by apply died_begin_inv.
  - by apply died_unlink_inv.
  - by apply died_end_inv.
  - by apply delete_inv.
Qed.

Lemma reachable_ok made w : reachable made w -> inv [] made w /\ alive_but None w.
Proof.
  induction 1 as [|made w e w' _ [Hi Ha] He E].
  - split; [|intros r x; cbn; by rewrite lookup_empty]. split; cbn; intros *; rewrite ?lookup_empty; try done; [by intros ?%elem_of_nil|constructor].
  - pose proof (run_event_ok made w e Hi Ha He) as H. unfold wpg in H. by rewrite E in H.
Qed.

(** C35: the guarantees the NDK gives for the callbacks of death recipients.  Over any
    interleaving of calls, deaths and deletions, whatever the binders answer: for each
    call of linkToDeath the user is told of the death at most once and, when the link
    ends, of its end exactly once, after the death and with the cookie of the call; no
    link ends twice or is touched after it ended.  When the user has deleted all
    recipients and no death is being delivered, every link has ended. *)
Theorem links_end_once made w :
  reachable made w ->
  (forall i y, made !! i = Some y -> exists died : bool,
     callbacks_of i w = (if died then [onDied i (mCookie y)] else []) ++
       (match links w !! i with
        | Some _ => []
        | None => if mOnUnlinked y then [onUnlinked i (mCookie y)] else []
        end)) /\
  (forall i, made !! i = None -> callbacks_of i w = []) /\
  ((forall r, ~ has r w) -> threads w = ∅ -> links w = ∅) /\
  (forall e, allowed w e -> exists w', run_event e w = Ret tt w' /\ reachable (made_by e w made) w').
Proof.
  intros Hr. destruct (reachable_ok made w Hr) as [Hi Hal]. split_and!.
  - intros i y Hy. destruct (i_told _ _ _ Hi i y Hy) as [died E]. exists died. rewrite E.
    destruct (links w !! i); [rewrite bool_decide_false by done|rewrite bool_decide_true by done]; done.
  - apply (i_none _ _ _ Hi).
  - intros Hno Hth. apply map_eq. intros i. rewrite lookup_empty. destruct (links w !! i) as [x|] eqn:Ex; [|done]. exfalso.
    destruct (i_kept _ _ _ Hi i) as [?%elem_of_nil|Hk]; [by eexists|done|].
    apply kept_spec in Hk as [(r & y & Hy & _)|(t & d & Ht & _)]; [|by rewrite Hth, lookup_empty in Ht].
    destruct (Hal r y Hy) as [Hu|(t & d & Ht & _)]; [done|by eapply Hno; exists y|by rewrite Hth, lookup_empty in Ht].
  - intros e He. pose proof (run_event_ok made w e Hi Hal He) as H. unfold wpg in H.
    destruct (run_event e w) as [[] w'| |] eqn:E; [|done..]. exists w'. split; [done|]. by eapply reach_step.
Qed.

(** ** What a single call does *)

Lemma take_match_none p l : take_match p l = None <-> Forall (fun i => p i = false) l.
Proof.
  induction l as [|i l IH]; cbn [take_match]; [by split|].
  destruct (take_match p l) as [[k rest]|].
  - split; [done|]. inversion 1; subst. by destruct IH as [_ IH]; specialize (IH ltac:(done)).
  - destruct (p i) eqn:Ep; split; try done; [|intros _; constructor; [done|by apply IH]]. inversion 1; subst. congruence.
Qed.

Lemma take_match_last p l i rest : take_match p l = Some (i, rest) ->
  exists l1 l2, l = l1 ++ i :: l2 /\ rest = l1 ++ l2 /\ p i = true /\ Forall (fun j => p j = false) l2.
Proof.
  revert i rest. induction l as [|j l IH]; intros i rest; cbn [take_match]; [done|].
  destruct (take_match p l) as [[k rest']|] eqn:E.
  - intros [= <- <-]. destruct (IH _ _ eq_refl) as (l1 & l2 & -> & -> & Hp & H2). by exists (j :: l1), l2.
  - destruct (p j) eqn:Ep; [|done]. intros [= <- <-]. exists [], l. split_and!; [done..|by apply take_match_none].
Qed.

(** [unlinkToDeath] gives up the last link with this binder and cookie, and there is one
    unless it says otherwise. *)
Theorem unlink_takes_one made w r x binder cookie status :
  reachable made w -> recipients w !! r = Some x ->
  wp (unlinkToDeath r binder cookie status) w (fun st w' =>
    (exists l1 i l2, mDeathRecipients x = l1 ++ i :: l2 /\ matches w binder cookie i = true /\
       Forall (fun j => matches w binder cookie j = false) l2 /\ st = status /\
       recipients w' !! r = Some (set_entries (l1 ++ l2) x)) \/
    (Forall (fun j => matches w binder cookie j = false) (mDeathRecipients x) /\ st = NAME_NOT_FOUND /\ w' = w)).
Proof.
  intros Hr Hx. destruct (reachable_ok made w Hr) as [Hi _].
  unfold unlinkToDeath, recipient, put_recipient. wp_steps. rewrite Hx. repeat (wp_steps; fields).
  destruct (take_match _ _) as [[i rest]|] eqn:Et; [|wp_step; right; split; [by apply take_match_none|done]].
  destruct (take_match_last _ _ _ _ Et) as (l1 & l2 & El & -> & Hp & H2). destruct (take_match_perm _ _ _ _ Et) as [Hperm _].
  pose proof (entries_inv made w r x (set_entries (l1 ++ l2) x) [i] Hi Hx Hperm) as Hi1.
  wp_step. wp_step. set (w1 := set_recipients _ w) in *.
  assert (forall a, a ⊆ armed w1 -> wp (release i ;; ret status) (set_armed a w1) (fun st w' =>
    st = status /\ recipients w' !! r = Some (set_entries (l1 ++ l2) x))) as H.
  { intros a Ha. wp_steps. wp_use release_inv; [exact (disarm_inv _ _ _ a Hi1 Ha)|]. intros _ w' (_ & Er & _).
    wp_step. split; [done|]. rewrite Er. subst w1. fields. apply lookup_insert_eq. }
  assert (wp ((if status =? OK then modify (fun w => set_armed (armed w ∖ {[i]}) w) else ret tt) ;; release i ;; ret status) w1
    (fun st w' => st = status /\ recipients w' !! r = Some (set_entries (l1 ++ l2) x))) as H'.
  { wp_step. destruct (status =? OK); wp_step; [apply H; set_solver|]. specialize (H (armed w1) ltac:(done)).
    by replace (set_armed (armed w1) w1) with w1 in H by (by destruct w). }
  wp_use H'. intros st w' [-> Hw']. left. exists l1, i, l2. done.
Qed.

(** * The NDK's death notifications (NdkDeath.v) on concrete runs *)

(** [allowed], computed. *)
Definition hasb (r : Z) (w : World) : bool := match recipients w !! r with Some x => user_has x | None => false end.
Definition allowedb (w : World) (e : Event) : bool :=
  match e with
  | New => true
  | SetOnUnlinked r _ | LinkToDeath r _ _ _ | UnlinkToDeath r _ _ _ | Delete r => hasb r w
  | DiedBegin t i => match threads w !! t, links w !! i with None, Some _ => bool_decide (i ∈ armed w) | _, _ => false end
  | DiedUnlink t _ _ => match threads w !! t with Some (Died _ _) => true | _ => false end
  | DiedEnd t => match threads w !! t with Some (Unlinking _ _) => true | _ => false end
  end.

Lemma hasb_ok r w : hasb r w = true -> has r w.
Proof. unfold hasb, has. destruct (recipients w !! r) as [x|]; [|done]. eauto. Qed.
Lemma allowedb_true w e : allowedb w e = true -> allowed w e.
Proof.
  destruct e as [|r set|r b c st|r b c st|t i|t alive st|t|r]; cbn [allowedb allowed]; try done; try apply hasb_ok.
  - destruct (threads w !! t), (links w !! i) eqn:E; try done. intros H%bool_decide_eq_true. eauto.
  - destruct (threads w !! t) as [[]|]; try done. eauto.
  - destruct (threads w !! t) as [[]|]; try done. eauto.
Qed.

Fixpoint runs (es : list Event) (mw : gmap Z Link * World) : option (gmap Z Link * World) :=
  match es with
  | [] => Some mw
  | e :: es =>
      if allowedb (snd mw) e then
        match run_event e (snd mw) with Ret _ w' => runs es (made_by e (snd mw) (fst mw), w') | _ => None end
      else None
  end.

Lemma death_runs_reachable es : forall mw mw', reachable (fst mw) (snd mw) -> runs es mw = Some mw' -> reachable (fst mw') (snd mw').
Proof.
  induction es as [|e es IH]; intros mw mw' Hr; cbn [runs]; [by intros [= <-]|].
  destruct (allowedb (snd mw) e) eqn:E; [|done]. destruct (run_event e (snd mw)) as [[] w1| |] eqn:Er; [|done..].
  apply (IH (made_by e (snd mw) (fst mw), w1)). eapply reach_step; [done|by apply allowedb_true|done].
Qed.

(** A recipient with [onUnlinked], one link to binder 7 with cookie 5; the binder dies. *)
Definition one_death : list Event :=
  [New; SetOnUnlinked 0 true; LinkToDeath 0 7 5 OK; DiedBegin 1 0; DiedUnlink 1 true DEAD_OBJECT; DiedEnd 1].
Example death_then_end : option_map (fun mw => callbacks (snd mw)) (runs one_death (∅, start)) = Some [onDied 0 5; onUnlinked 0 5].
Proof. vm_compute. reflexivity. Qed.

(** The recipient is deleted by its user while the death is delivered. *)
Example deleted_meanwhile : option_map (fun mw => (callbacks (snd mw), map_to_list (links (snd mw)), map_to_list (recipients (snd mw))))
  (runs [New; SetOnUnlinked 0 true; LinkToDeath 0 7 5 OK; DiedBegin 1 0; Delete 0; DiedUnlink 1 true OK; DiedEnd 1] (∅, start)) =
  Some ([onDied 0 5; onUnlinked 0 5], [], []).
Proof. vm_compute. reflexivity. Qed.

(** A link that fails ends at once. *)
Example failed_link_ends : option_map (fun mw => callbacks (snd mw))
  (runs [New; SetOnUnlinked 0 true; LinkToDeath 0 7 5 INVALID_OPERATION] (∅, start)) = Some [onUnlinked 0 5].
Proof. vm_compute. reflexivity. Qed.

(** Two links to one binder with one cookie: the death of the first ends the second, whose
    user is never told of it; the first stays until it is pruned. *)
Example second_link_not_told : option_map (fun mw => (callbacks (snd mw), map fst (map_to_list (links (snd mw)))))
  (runs [New; SetOnUnlinked 0 true; LinkToDeath 0 7 5 OK; LinkToDeath 0 7 5 OK; DiedBegin 1 0; DiedUnlink 1 true DEAD_OBJECT; DiedEnd 1] (∅, start)) =
  Some ([onDied 0 5; onUnlinked 1 5], [0]).
Proof. vm_compute. reflexivity. Qed.
Example pruned_by_next_link : option_map (fun mw => (callbacks (snd mw), map fst (map_to_list (links (snd mw)))))
  (runs [New; SetOnUnlinked 0 true; LinkToDeath 0 7 5 OK; DiedBegin 1 0; DiedUnlink 1 false OK; DiedEnd 1; LinkToDeath 0 8 6 OK] (∅, start)) =
  Some ([onDied 0 5; onUnlinked 0 5], [1]).
Proof. vm_compute. reflexivity. Qed.

Lemma links_end_once_witness : exists mw, runs (take 4 one_death) (∅, start) = Some mw /\
  (exists died : bool, callbacks_of 0 (snd mw) = (if died then [onDied 0 5] else []) ++
    match links (snd mw) !! 0 with Some _ => [] | None => [onUnlinked 0 5] end) /\
  exists w', run_event (DiedUnlink 1 true DEAD_OBJECT) (snd mw) = Ret tt w'.
Proof.
  destruct (runs (take 4 one_death) (∅, start)) as [mw|] eqn:E; [|exfalso; revert E; vm_compute; discriminate].
  exists mw. split; [reflexivity|].
  destruct (links_end_once (fst mw) (snd mw) (death_runs_reachable _ (∅, start) _ reach_start E)) as (H1 & _ & _ & H2). split.
  - apply (H1 0 (mkLink (Some 7) 5 0 true)). revert E. vm_compute. intros [= <-]. reflexivity.
  - destruct (H2 (DiedUnlink 1 true DEAD_OBJECT)) as (w' & Hw' & _); [|exists w'; exact Hw'].
    apply allowedb_true. revert E. vm_compute. intros [= <-]. reflexivity.
Defined.
