(* ===== verification/NdkBinder.v ===== *)
(** Binders of the NDK: src/libs/binder/ndk/ibinder.cpp and ibinder_internal.h, without
    death recipients (NdkDeath.v).

    An AIBinder is a local object of a class (ABBinder) or stands for any other
    binder (ABpBinder), whose class is associated later.  Association asks the
    binder for its descriptor between two looks at [mClazz] under its lock, so
    several threads may be on their way; it is a step system.  The parcels of a
    transaction are owned by the caller until the call takes them. *)

From stdpp Require Import gmap sets.
From S2P Require Import Prelude Errors ParcelState ParcelRead ParcelObject ParcelIpc ParcelFormats LocalBinder NdkStatus.

(** * Classes *)

(** [mInterfaceDescriptor] in UTF-16, and whether the optional callbacks are set. *)
Record AIBinder_Class := mkClass {
  mWideInterfaceDescriptor : list Z;
  writeHeader : bool;
  has_onDump : bool;
  has_handleShellCommand : bool;
}.

Definition AIBinder_Class_define (interfaceDescriptor : option (list Z)) (onCreate onDestroy onTransact : bool) :
    option AIBinder_Class :=
  match interfaceDescriptor with
  | Some d => if onCreate && onDestroy && onTransact then Some (mkClass d true false false) else None
  | None => None
  end.
Definition AIBinder_Class_disableInterfaceTokenHeader (c : AIBinder_Class) : AIBinder_Class :=
  mkClass (mWideInterfaceDescriptor c) false (has_onDump c) (has_handleShellCommand c).
Definition AIBinder_Class_setOnDump (set : bool) (c : AIBinder_Class) : AIBinder_Class :=
  mkClass (mWideInterfaceDescriptor c) (writeHeader c) set (has_handleShellCommand c).
Definition AIBinder_Class_setHandleShellCommand (set : bool) (c : AIBinder_Class) : AIBinder_Class :=
  mkClass (mWideInterfaceDescriptor c) (writeHeader c) (has_onDump c) set.

(** * Association *)

(** The threads that have seen no class and are asking the binder; [asked] what it said. *)
Inductive Asking :=
| Asks (clazz : Z)
| Told (clazz : Z) (descriptor : list Z).

Record Association := mkAssociation {
  mClazz : option Z;
  asking : gmap Z Asking;
}.
Definition set_mClazz x (a : Association) := mkAssociation x (asking a).
Definition set_asking x (a : Association) := mkAssociation (mClazz a) x.

Section Associate.
(** The classes, by address. *)
Context (getInterfaceDescriptor : Z -> list Z).

Definition associateClassInternal (clazz : Z) (set : bool) : M Association (option bool) :=
  let* a := get in
  match mClazz a with
  | Some c => ret (Some (c =? clazz))
  | None => if set then modify (set_mClazz (Some clazz)) ;; ret (Some true) else ret None
  end.

(** The first look; [None]: the thread goes on to ask. *)
Definition associate_begin (t clazz : Z) : M Association (option bool) :=
  let* result := associateClassInternal clazz false in
  match result with
  | Some r => ret (Some r)
  | None => modify (fun a => set_asking (<[t := Asks clazz]> (asking a)) a) ;; ret None
  end.

(** The answer of [getInterfaceDescriptor] of the binder. *)
Definition associate_told (t : Z) (descriptor : list Z) : M Association unit :=
  let* m := gets asking in
  match m !! t with
  | Some (Asks clazz) => modify (set_asking (<[t := Told clazz descriptor]> m))
  | _ => fault
  end.

(** The second look; [value()] of an empty optional throws. *)
Definition associate_end (t : Z) : M Association bool :=
  let* m := gets asking in
  match m !! t with
  | Some (Told clazz descriptor) =>
      modify (set_asking (delete t m)) ;;
      if negb (bool_decide (descriptor = getInterfaceDescriptor clazz)) then ret false else
      let* result := associateClassInternal clazz true in
      match result with Some r => ret r | None => fatal end
  | _ => fault
  end.

(** One thread by itself; [clazz] is [None] for a null pointer. *)
Definition associateClass (t : Z) (clazz : option Z) (descriptor : list Z) : M Association bool :=
  match clazz with
  | None => ret false
  | Some clazz =>
      let* r := associate_begin t clazz in
      match r with
      | Some r => ret r
      | None => associate_told t descriptor ;; associate_end t
      end
  end.
End Associate.

(** * Transactions *)

Definition FIRST_CALL_TRANSACTION : Z := 1.
Definition LAST_CALL_TRANSACTION : Z := 0xffffff.
Definition isUserCommand (code : Z) : bool := (FIRST_CALL_TRANSACTION <=? code) && (code <=? LAST_CALL_TRANSACTION).

Definition FLAG_PRIVATE_VENDOR : Z := 0x10000000.
Definition FLAG_ONEWAY : Z := 1.
Definition kAllFlags : Z := Z.lor (Z.lor FLAG_PRIVATE_VENDOR FLAG_ONEWAY) FLAG_CLEAR_BUF.

(** The AParcels that exist, with the AIBinder each belongs to. *)
Record Parcels := mkParcels { aparcels : gmap Z (option Z); next_parcel : Z }.
Definition new_AParcel (binder : option Z) : M Parcels Z :=
  let* s := get in
  put (mkParcels (<[next_parcel s := binder]> (aparcels s)) (next_parcel s + 1)) ;;
  ret (next_parcel s).
(** Deleting null does nothing; deleting what is gone is undefined behaviour. *)
Definition delete_AParcel (p : option Z) : M Parcels unit :=
  match p with
  | None => ret tt
  | Some p =>
      let* s := get in
      let* _ := require (aparcels s !! p) in
      put (mkParcels (delete p (aparcels s)) (next_parcel s))
  end.

(** [*in] after the call comes with the status. *)
Definition AIBinder_prepareTransaction (binder : option (Z * option AIBinder_Class)) (has_in : bool)
    (writeInterfaceToken : status_t) : M Parcels (status_t * option Z) :=
  match binder with
  | Some (b, clazz) =>
      if negb has_in then ret (UNEXPECTED_NULL, None) else
      match clazz with
      | None => ret (INVALID_OPERATION, None)
      | Some clazz =>
          let* p := new_AParcel (Some b) in
          let status := PruneStatusT (if writeHeader clazz then writeInterfaceToken else OK) in
          if negb (status =? OK) then delete_AParcel (Some p) ;; ret (status, None) else
          ret (status, Some p)
      end
  | None => ret (UNEXPECTED_NULL, None)
  end.

(** [in] is [None] for a null pointer, [Some None] when [*in] is null.  Returns the
    status and [*out]; [*in] is null afterwards.  [transact] is what the binder
    answers. *)
Definition AIBinder_transact (binder : option Z) (code : Z) (in_ : option (option Z)) (has_out : bool) (flags : Z)
    (transact : status_t) : M Parcels (status_t * option Z) :=
  match in_ with
  | None => ret (UNEXPECTED_NULL, None)
  | Some p =>
      let* r :=
        (if negb (isUserCommand code) then ret (UNKNOWN_TRANSACTION, None) else
         if negb (Z.land flags (Z.lnot kAllFlags) =? 0) then ret (BAD_VALUE, None) else
         match binder, p, has_out with
         | Some b, Some i, true =>
             let* s := get in
             let* owner := require (aparcels s !! i) in
             if negb (bool_decide (owner = Some b)) then ret (BAD_VALUE, None) else
             let* out := new_AParcel (Some b) in
             let status := PruneStatusT transact in
             if negb (status =? OK) then delete_AParcel (Some out) ;; ret (status, None) else
             ret (status, Some out)
         | _, _, _ => ret (UNEXPECTED_NULL, None)
         end) in
      delete_AParcel p ;;
      ret r
  end.

(** * A call to a local object *)

Definition AID_SHELL : Z := 2000.

Section Local.
Context `{RpcBinders} `{Hosting} `{UtfConversions} (clazz : AIBinder_Class).
(** The user's callbacks. *)
Context (class_onTransact : Z -> M Call status_t).
Context (handleShellCommand : Z -> Z -> Z -> list bytes -> M Call status_t).
Context (onDump : Z -> list bytes -> M Call status_t).

(** [String8(arg)] *)
Definition utf8Args (args : list (list Z)) : list bytes := map utf16_to_utf8 args.

Definition ABBinder_dump (fd : Z) (args : list (list Z)) : M Call status_t :=
  if negb (has_onDump clazz) then ret OK else
  if INT32_MAX <? zlen args then ret BAD_VALUE else
  onDump fd (utf8Args args).

Definition send_result (receiver : option Z) (code : Z) : M Call unit :=
  match receiver with Some r => modify (add_result (r, code)) | None => ret tt end.

Definition shell_command : M Call status_t :=
  let* fd_in := on_data readFileDescriptor in
  let* fd_out := on_data readFileDescriptor in
  let* fd_err := on_data readFileDescriptor in
  let* argc := on_data readInt32_ in
  let* args := on_data (read_args (Z.to_nat argc)) in
  on_data readStrongBinder_ ;;
  let* resultReceiver := on_data readStrongBinder_ in
  if negb (getCallingUid =? AID_ROOT) && negb (getCallingUid =? AID_SHELL) then
    send_result resultReceiver (-1) ;; ret PERMISSION_DENIED
  else if (fd_in =? BAD_TYPE) || (fd_out =? BAD_TYPE) || (fd_err =? BAD_TYPE) then
    send_result resultReceiver (-1) ;; ret BAD_VALUE
  else
    let* status := handleShellCommand fd_in fd_out fd_err (utf8Args args) in
    send_result resultReceiver status ;;
    ret status.

Definition user_command (code : Z) : M Call status_t :=
  let* status := class_onTransact code in ret (PruneStatusT status).

Definition ABBinder_onTransact (code flags : Z) : M Call status_t :=
  if isUserCommand code then
    if writeHeader clazz then
      let* accepted := on_data (enforceInterface (mWideInterfaceDescriptor clazz)) in
      if negb accepted then ret BAD_TYPE else user_command code
    else user_command code
  else if (code =? SHELL_COMMAND_TRANSACTION) && has_handleShellCommand clazz then shell_command
  else BBinder_onTransact code flags.
End Local.
