(* ===== verification/NdkBinderProps.v ===== *)
(** Binders of the NDK (NdkBinder.v): an object gets its class once, whoever races for
    it, and the parcels of a transaction have one owner on every path. *)

From stdpp Require Import gmap sets.
From S2P Require Import Prelude Errors ParcelState ParcelRead ParcelObject ParcelIpc ParcelFormats LocalBinder NdkStatus NdkBinder.

(** * Association *)

Inductive AssociateEvent :=
| Begin (t clazz : Z)
| Answer (t : Z) (descriptor : list Z)
| End_ (t : Z).

Section Associate.
Context (getInterfaceDescriptor : Z -> list Z).

(** The results of the calls that return at this step. *)
Definition run_associate (e : AssociateEvent) : M Association (option (Z * bool)) :=
  match e with
  | Begin t clazz => let* r := associate_begin t clazz in ret (option_map (pair clazz) r)
  | Answer t descriptor => associate_told t descriptor ;; ret None
  | End_ t =>
      let* m := gets asking in
      match m !! t with
      | Some (Told clazz _) => let* r := associate_end getInterfaceDescriptor t in ret (Some (clazz, r))
      | _ => fault
      end
  end.

Definition enabled (a : Association) (e : AssociateEvent) : Prop :=
  match e with
  | Begin t _ => asking a !! t = None
  | Answer t _ => exists clazz, asking a !! t = Some (Asks clazz)
  | End_ t => exists clazz descriptor, asking a !! t = Some (Told clazz descriptor)
  end.

(** What the binder has answered so far, and the results of the calls. *)
Inductive associates : list (list Z) -> list (Z * bool) -> Association -> Prop :=
| associates_start : associates [] [] (mkAssociation None ∅)
| associates_step answers results a e r a' :
    associates answers results a -> enabled a e -> run_associate e a = Ret r a' ->
    associates (match e with Answer _ d => d :: answers | _ => answers end)
      (match r with Some x => x :: results | None => results end) a'.

Record association_inv (answers : list (list Z)) (results : list (Z * bool)) (a : Association) : Prop := {
  a_class : forall c, mClazz a = Some c -> getInterfaceDescriptor c ∈ answers;
  a_told : forall t c d, asking a !! t = Some (Told c d) -> d ∈ answers;
  a_true : forall c, (c, true) ∈ results -> mClazz a = Some c;
}.

Lemma association_weaken answers d results a :
  association_inv answers results a -> association_inv (d :: answers) results a.
Proof.
  intros [H1 H2 H3]. split; [|intros t c d' Ht|done].
  - intros c Hc. apply elem_of_cons. right. by apply H1.
  - apply elem_of_cons. right. by eapply H2.
Qed.

Lemma associate_internal_ok answers results clazz set a :
  association_inv answers results a -> (set = true -> getInterfaceDescriptor clazz ∈ answers) ->
  wp (associateClassInternal clazz set) a (fun r a' =>
    association_inv answers (match r with Some b => (clazz, b) :: results | None => results end) a' /\
    asking a' = asking a /\ (r = None -> set = false) /\ (forall c, mClazz a = Some c -> mClazz a' = Some c)).
Proof.
  intros [H1 H2 H3] Hd. unfold associateClassInternal. wp_step. wp_step. destruct (mClazz a) as [c|] eqn:Ec.
  - wp_step. split_and!; [|done|done|congruence]. split; [intros c0 Hc0; apply H1; congruence|done|].
    intros c' [[= -> Hb]|Hc']%elem_of_cons; [rewrite Ec; f_equal; lia|rewrite Ec; by apply H3].
  - destruct set; wp_steps; (split_and!; [|done..]); [|by split; rewrite ?Ec].
    split; cbn; [by intros c [= <-]; apply Hd|done|].
    intros c [[= <-]|Hc]%elem_of_cons; [done|]. by specialize (H3 c Hc).
Qed.

Lemma associate_step answers results a e :
  association_inv answers results a -> enabled a e ->
  wp (run_associate e) a (fun r a' =>
    association_inv (match e with Answer _ d => d :: answers | _ => answers end)
      (match r with Some x => x :: results | None => results end) a' /\
    (forall c, mClazz a = Some c -> mClazz a' = Some c)).
Proof.
  intros Hi He. destruct e as [t clazz|t d|t]; cbn [run_associate enabled] in *.
  - unfold associate_begin. wp_step. wp_step. wp_use (associate_internal_ok answers results clazz false); [done..|].
    intros r a1 (Hi1 & Ea & _ & Hc). destruct r as [b|]; wp_steps; [done|]. split; [|done].
    destruct Hi1 as [H1 H2 H3]. split; [done| |done]. cbn. intros t' c d [[_ [=]]|[_ Ht]]%lookup_insert_Some. by eapply H2.
  - destruct He as [clazz Ht]. unfold associate_told. wp_step. wp_step. wp_step. rewrite Ht. wp_steps. split; [|done].
    apply (association_weaken _ d) in Hi as [H1 H2 H3]. split; [done| |done]. cbn.
    intros t' c d' [[_ [= _ <-]]|[_ Ht']]%lookup_insert_Some; [by left|by eapply H2].
  - destruct He as (clazz & d & Ht). wp_step. wp_step. rewrite Ht. wp_step. unfold associate_end. wp_steps. rewrite Ht. wp_steps.
    assert (association_inv answers results (set_asking (delete t (asking a)) a)) as Hi1.
    { destruct Hi as [H1 H2 H3]. split; [done| |done]. cbn. intros t' c d' [_ Ht']%lookup_delete_Some. by eapply H2. }
    case_bool_decide as Hd; cbn [negb].
    + wp_step. wp_use (associate_internal_ok answers results clazz true); [done| |].
      { intros _. rewrite <- Hd. exact (a_told _ _ _ Hi _ _ _ Ht). }
      intros [b|] a1 (Hi2 & _ & Hn & Hc); [wp_steps; split; [exact Hi2|exact Hc]|by specialize (Hn eq_refl)].
    + wp_steps. split; [|done]. destruct Hi1 as [H1 H2 H3]. split; [done..|].
      intros c [[=]|Hc]%elem_of_cons. by apply H3.
Qed.

Lemma associates_inv answers results a : associates answers results a -> association_inv answers results a.
Proof.
  induction 1 as [|answers results a e r a' _ IH He E].
  - split; cbn; [done|intros t c d; by rewrite lookup_empty|by intros c ?%elem_of_nil].
  - pose proof (associate_step answers results a e IH He) as H. unfold wpg in H. rewrite E in H. by destruct H.
Qed.

(** An object that several threads associate with classes gets at most one: every call
    that returned true was for the class it has, also later; the class has a descriptor
    the binder itself gave; and no thread runs into the empty result of the second
    look. *)
Theorem one_class answers results a :
  associates answers results a ->
  (forall c, mClazz a = Some c -> getInterfaceDescriptor c ∈ answers) /\
  (forall c, (c, true) ∈ results -> mClazz a = Some c) /\
  (forall c c', (c, true) ∈ results -> (c', true) ∈ results -> c = c') /\
  (forall e, enabled a e -> wp (run_associate e) a (fun _ a' => forall c, mClazz a = Some c -> mClazz a' = Some c)).
Proof.
  intros H. pose proof (associates_inv _ _ _ H) as Hi. split_and!; [apply (a_class _ _ _ Hi)|apply (a_true _ _ _ Hi)| |].
  - intros c c' H1%(a_true _ _ _ Hi) H2%(a_true _ _ _ Hi). congruence.
  - intros e He. wp_use (associate_step answers results a e); [done..|]. by intros r a' [_ ?].
Qed.
End Associate.

(** * Transactions *)

Lemma parcel_destroyed i s : is_Some (aparcels s !! i) ->
  wp (delete_AParcel (Some i)) s (fun _ s' => s' = mkParcels (delete i (aparcels s)) (next_parcel s)).
Proof. intros [o Ho]. unfold delete_AParcel. wp_step. wp_step. wp_step. rewrite Ho. by wp_steps. Qed.

(** A transaction takes the parcel it is given and gives one back only when it succeeds:
    whatever the arguments and the answer of the binder, [in] is deleted, once, and
    of new parcels there is exactly the reply, for the same binder, if the call
    returns OK and none otherwise. *)
Theorem transact_owns s binder code p has_out flags transact :
  (forall i, p = Some i -> is_Some (aparcels s !! i)) ->
  (forall i, is_Some (aparcels s !! i) -> i < next_parcel s) ->
  wp (AIBinder_transact binder code (Some p) has_out flags transact) s (fun r s' =>
    let rest := match p with Some i => delete i (aparcels s) | None => aparcels s end in
    match r with
    | (st, Some out) => st = OK /\ out = next_parcel s /\ transact = OK /\
        exists b, binder = Some b /\ isUserCommand code = true /\ aparcels s' = <[out := Some b]> rest
    | (st, None) => st <> OK /\ aparcels s' = rest
    end).
Proof.
  intros Hp Hn. unfold AIBinder_transact, new_AParcel.
  match goal with |- wp _ _ ?Q =>
    assert (forall st, st <> OK -> wp (delete_AParcel p ;; ret (st, None : option Z)) s Q) as Hfail
  end.
  { intros st Hst. destruct p as [i|]; [|by split]. destruct (Hp i eq_refl) as [o Ho]. destruct s as [m n].
    wp_step. wp_use (parcel_destroyed i (mkParcels m n)); [by exists o|]. intros _ s' ->. wp_step. by split. }
  wp_step.
  destruct (isUserCommand code) eqn:Eu; cbn [negb]; [|wp_step; by apply Hfail].
  destruct (_ =? 0); cbn [negb]; [|wp_step; by apply Hfail].
  destruct binder as [b|], p as [i|], has_out; try (wp_step; by apply Hfail).
  destruct (Hp i eq_refl) as [o Ho]. do 2 wp_step. rewrite Ho. wp_steps.
  case_bool_decide as Eb; cbn [negb]; [|wp_step; by apply Hfail]. subst o. wp_steps.
  assert (i <> next_parcel s) as Hne by (pose proof (Hn i ltac:(by eexists)); lia).
  pose proof (prune_OK transact) as Hok. destruct s as [m n]. cbn [aparcels next_parcel] in *.
  assert (m !! n = None) as Hf by (destruct (m !! n) eqn:E; [|done]; pose proof (Hn n ltac:(by eexists)); lia).
  zcase (PruneStatusT transact =? OK); cbn [negb].
  - wp_steps. wp_use (parcel_destroyed i (mkParcels (<[n := Some b]> m) (n + 1))); [cbn; rewrite lookup_insert_ne by done; by eexists|].
    intros _ s' ->. wp_step. cbn. split_and!; [done..|by apply Hok|]. exists b. split_and!; [done..|]. by rewrite delete_insert_ne.
  - wp_steps. wp_use (parcel_destroyed n (mkParcels (<[n := Some b]> m) (n + 1))); [cbn; rewrite lookup_insert_eq; by eexists|].
    intros _ s' ->. wp_steps. cbn. rewrite delete_insert_id by done. wp_use (parcel_destroyed i (mkParcels m (n + 1))); [by exists (Some b)|].
    intros _ s' ->. done.
Qed.

(** Preparing a transaction makes a parcel for the binder exactly when it succeeds, and
    nothing is left over when the interface token cannot be written. *)
Theorem prepare_owns s binder has_in token :
  (forall i, is_Some (aparcels s !! i) -> i < next_parcel s) ->
  wp (AIBinder_prepareTransaction binder has_in token) s (fun r s' =>
    match r with
    | (st, Some p) => st = OK /\ p = next_parcel s /\ has_in = true /\
        exists b clazz, binder = Some (b, Some clazz) /\ (writeHeader clazz = true -> token = OK) /\
          aparcels s' = <[p := Some b]> (aparcels s)
    | (st, None) => st <> OK /\ aparcels s' = aparcels s
    end).
Proof.
  intros Hn. unfold AIBinder_prepareTransaction, new_AParcel. destruct binder as [[b [clazz|]]|], has_in; try by wp_steps.
  cbn [negb]. wp_steps. destruct s as [m n]. cbn [aparcels next_parcel] in *.
  assert (m !! n = None) as Hf by (destruct (m !! n) eqn:E; [|done]; pose proof (Hn n ltac:(by eexists)); lia).
  pose proof (prune_OK (if writeHeader clazz then token else OK)) as Hok.
  zcase (PruneStatusT (if writeHeader clazz then token else OK) =? OK); cbn [negb].
  - wp_step. split_and!; [done..|]. exists b, clazz. split_and!; [done| |done]. intros Hw. rewrite Hw in *. by apply Hok.
  - wp_step. wp_use (parcel_destroyed n (mkParcels (<[n := Some b]> m) (n + 1))); [cbn; rewrite lookup_insert_eq; by eexists|].
    intros _ s' ->. wp_step. cbn. by rewrite delete_insert_id.
Qed.

(** * Binders of the NDK (NdkBinder.v) on concrete runs *)

(** Classes 1 and 2 share the descriptor [97], class 3 has [98]. *)
Definition descriptor_of (c : Z) : list Z := if c =? 3 then [98] else [97].

Fixpoint run_all (es : list AssociateEvent) (a : Association) : option (list (Z * bool) * Association) :=
  match es with
  | [] => Some ([], a)
  | e :: es =>
      match run_associate descriptor_of e a with
      | Ret r a' => match run_all es a' with
                    | Some (rs, a'') => Some (match r with Some x => x :: rs | None => rs end, a'')
                    | None => None
                    end
      | _ => None
      end
  end.

(** Two threads race with two classes of one descriptor: the first to come back wins. *)
Example class_race : option_map (fun x => (fst x, mClazz (snd x)))
  (run_all [Begin 10 1; Begin 11 2; Answer 10 [97]; Answer 11 [97]; End_ 11; End_ 10] (mkAssociation None ∅)) =
  Some ([(2, true); (1, false)], Some 2).
Proof. vm_compute. reflexivity. Qed.

(** A binder of another interface keeps no class. *)
Example wrong_class : option_map (fun x => (fst x, mClazz (snd x)))
  (run_all [Begin 10 1; Answer 10 [98]; End_ 10; Begin 10 3; Answer 10 [98]; End_ 10; Begin 11 1] (mkAssociation None ∅)) =
  Some ([(1, false); (3, true); (1, false)], Some 3).
Proof. vm_compute. reflexivity. Qed.

Definition two_parcels : Parcels := mkParcels {[1 := Some 70; 2 := Some 71]} 3.

(** Taken and answered; taken though the parcel is another binder's; and a code of the system. *)
Example transactions :
  map (fun m => match m two_parcels with Ret r s => Some (r, map_to_list (aparcels s)) | _ => None end)
    [AIBinder_transact (Some 70) 1 (Some (Some 1)) true 0 OK; AIBinder_transact (Some 70) 1 (Some (Some 2)) true 0 OK;
     AIBinder_transact (Some 70) 0 (Some (Some 1)) true 0 OK; AIBinder_transact (Some 70) 1 None true 0 OK] =
  [Some ((OK, Some 3), [(3, Some 70); (2, Some 71)]); Some ((BAD_VALUE, None), [(1, Some 70)]);
   Some ((UNKNOWN_TRANSACTION, None), [(2, Some 71)]); Some ((UNEXPECTED_NULL, None), [(2, Some 71); (1, Some 70)])].
Proof. vm_compute. reflexivity. Qed.

Lemma transact_owns_witness :
  wp (AIBinder_transact (Some 70) 1 (Some (Some 1)) true 0 DEAD_OBJECT) two_parcels (fun r s' => fst r <> OK \/ aparcels s' !! 1 = None).
Proof.
  eapply wpg_mono; [apply transact_owns|].
  - intros i [= <-]. by eexists.
  - intros i Hi. cbn in *. destruct Hi as [o Ho]. apply lookup_insert_Some in Ho as [[<- _]|[_ [<- _]%lookup_singleton_Some]]; lia.
  - intros [st [out|]] s'; cbn [fst]; [by intros (_ & _ & Ht & _)|by intros [? _]; left].
Defined.
