(* ===== verification/RefBase.v ===== *)
(** The reference a proxy object of an interface holds on its remote binder: BpRefBase of
    src/libs/binder/Binder.cpp.

    RefBase (libutils) counts the references of the object and calls it back:
    [onFirstRef] at the first strong one, [onLastStrongRef] when the last is gone,
    [onIncStrongAttempted] when a weak one is to be promoted after that (the object's
    lifetime is weak), and the destructor with the last weak one.  [r_strong] and
    [r_weak] are the references of this object on the remote binder. *)

From S2P Require Import Prelude.

Record BpRefBase := mkBpRefBase {
  mRemote : option Z;
  mState : Z;
  r_strong : Z;
  r_weak : Z;
}.

Definition kRemoteAcquired : Z := 1.

Definition set_refs (strong weak : Z) (b : BpRefBase) : BpRefBase :=
  mkBpRefBase (mRemote b) (mState b) strong weak.
Definition set_mState (x : Z) (b : BpRefBase) : BpRefBase :=
  mkBpRefBase (mRemote b) x (r_strong b) (r_weak b).

(** [incStrong] or [decStrong], and a weak reference, of the remote, if there is one. *)
Definition remote_refs (strong weak : Z) : M BpRefBase unit :=
  modify (fun b => match mRemote b with
                   | Some _ => set_refs (r_strong b + strong) (r_weak b + weak) b
                   | None => b
                   end).

Definition construct (o : option Z) : M BpRefBase unit :=
  put (mkBpRefBase o 0 0 0) ;; remote_refs 1 1.

Definition destroy : M BpRefBase unit :=
  let* b := get in
  (if Z.land (mState b) kRemoteAcquired =? 0 then remote_refs (-1) 0 else ret tt) ;;
  remote_refs 0 (-1).

Definition onFirstRef : M BpRefBase unit :=
  modify (fun b => set_mState (Z.lor (mState b) kRemoteAcquired) b).

Definition onLastStrongRef : M BpRefBase unit := remote_refs (-1) 0.

(** [alive]: whether the remote can still be promoted. *)
Definition onIncStrongAttempted (alive : bool) : M BpRefBase bool :=
  let* b := get in
  match mRemote b with
  | Some _ => if alive then remote_refs 1 0 ;; ret true else ret false
  | None => ret false
  end.

(** * The life of an object *)

(** [first]: it has had a strong reference; [strong]: it has one now. *)
Record Life := mkLife { self : BpRefBase; first : bool; strong : bool; gone : bool }.

Inductive life_step : Life -> Life -> Prop :=
| life_first b b' : onFirstRef b = Ret tt b' ->
    life_step (mkLife b false false false) (mkLife b' true true false)
| life_last b b' : onLastStrongRef b = Ret tt b' ->
    life_step (mkLife b true true false) (mkLife b' true false false)
| life_promote b b' alive ok : onIncStrongAttempted alive b = Ret ok b' ->
    life_step (mkLife b true false false) (mkLife b' true ok false)
| life_end b b' f : destroy b = Ret tt b' ->
    life_step (mkLife b f false false) (mkLife b' f false true).

Definition life_of (o : option Z) (l : Life) : Prop :=
  exists b, construct o (mkBpRefBase None 0 0 0) = Ret tt b /\
    rtc life_step (mkLife b false false false) l.

Record life_inv (o : option Z) (l : Life) : Prop := {
  li_remote : mRemote (self l) = o;
  li_state : mState (self l) = if first l then 1 else 0;
  li_strong : strong l = true -> first l = true /\ gone l = false;
  li_refs : (r_strong (self l), r_weak (self l)) =
    match o with
    | None => (0, 0)
    | Some _ => if gone l then (0, 0) else (if first l && negb (strong l) then 0 else 1, 1)
    end;
}.

(** A proxy object holds one weak reference on its remote for its whole life, and one
    strong reference from its construction until its own last strong reference is gone
    (or until its destruction, if it never had one), again after each promotion; in the
    end it holds none. *)
Theorem remote_references_balance o l : life_of o l -> life_inv o l.
Proof.
  intros (b0 & Hb & Hr). assert (H0 : life_inv o (mkLife b0 false false false)).
  { vm_compute in Hb. injection Hb as <-. by destruct o; split. }
  revert Hr H0. generalize (mkLife b0 false false false). induction 1 as [|l1 l2 l3 Hs _ IH]; [done|].
  intros Hi. apply IH. clear IH. destruct Hi as [Hm Hst Hsg Hrf].
  destruct Hs as [b b' H|b b' H|b b' alive ok H|b b' f H]; destruct b as [m st rs rw]; simpl in *;
    subst m st; destruct o as [o|]; injection Hrf as Ers Erw; subst.
  all: try destruct f; try destruct alive; vm_compute in H; try injection H as; subst; by split.
Qed.
